(* ===== verification/_CoqProject ===== *)
-Q . S2P
Prelude.v
Wire.v
Codecs.v
Framing.v
Replay.v
Inbox.v
Chunker.v
Store.v
Counter.v
Neighbors.v
Radio.v
Brainstem.v
RadioTask.v
Text.v
Connectivity.v
MeshRouter.v
MeshLink.v
History.v
Bridge.v
Confine.v
Policy.v
Protocol.v
Gate.v
Goal.v
Mandala.v
Beacon.v
Health.v
Review.v
Remote.v
Worker.v
WorkerLife.v
WorkerTree.v
WorkerFan.v
WorkerEpoch.v
Identity.v
Auth.v
Peers.v
WorkerMesh.v
WorkerHush.v
WorkerMint.v
WorkerWire.v
WorkerDriver.v
WorkerRun.v
Scheduler.v
Turn.v
Sse.v
Oai.v
Anthropic.v
ProviderRuns.v
SelfUpdate.v
PacLint.v
Council.v
CouncilRuns.v
Evolution.v
EvolutionRuns.v
Sessions.v
AgentRouter.v
RouterTree.v
RouterDisk.v
RouterRuns.v
Jsonl.v
Courier.v
CourierPlug.v
CourierLoop.v
CourierLanes.v
CourierWatch.v
CourierPost.v
CourierRuns.v
