(* ===== verification/Prelude.v ===== *)
(** * ApexOS-RS: a verification library for the mesh, the brainstem and the agent daemon

    ApexOS-RS is an agent operating system: a daemon ([agentd]) that runs model
    turns, tools, goals and fleets of workers on a Pi, and ApexNET, a small
    radio mesh in which each node has a microcontroller board (the "brainstem")
    that owns the radio, the message counter and the replay state.  This library
    is a shallow embedding of the code that carries those parts' guarantees,
    with the theorems that state them.  Paths below are relative to [src/].

    ** Parts and files

    Wire protocol ([apexos-mesh-proto/src/]):
    - [Wire]: [types.rs], constants and errors of [lib.rs]; classes for the
      third-party codecs, hash and AEAD with their documented laws.  [Codecs]
      holds concrete instances of those classes, used only by witnesses.
    - [Framing]: [frame.rs]; [push] is [Deframer::push], a fold of [push_byte].
    - [Replay]: [crypto.rs]; [check_and_accept] (the 64-entry window),
      [replay_accept] (the never-evicting table), [seal]/[open].
    - [Inbox]: [inbox.rs]; [decide_radio_inbound] is the admission decision.
    - [Chunker]: [chunk.rs].
    Firmware ([firmware/brainstem/src/]):
    - [Store]: [store.rs] over the class [FlashOps]; [Counter]: [counter.rs] as
      a step relation; [Neighbors]: [neighbors.rs]; [Radio]: [radio.rs].
    - [Brainstem], [RadioTask]: [bin/main.rs]; the statics are the record
      [Board], the radio task's locals the record [Task], each loop body a
      function on them.
    Mesh side of the daemon ([agentd/crates/], [tools/crates/]):
    - [Text]: the string functions the daemon uses, on code points.
    - [Connectivity]: [core/src/connectivity.rs]; [MeshRouter]:
      [core/src/mesh_router.rs] and [mesh_lanes.rs]; [MeshLink]:
      [gateway/src/mesh_link.rs] and the bridge socket of [gateway/src/lib.rs];
      [Bridge]: [apexos-mesh-bridge/src/lib.rs] and the reconnect loop of its
      [main.rs]; [Peers]: [gateway/src/mesh.rs] and the peer-facing handlers of
      [gateway/src/lib.rs] (registry, pairing, a2a messages, federated memory).
    - The courier lane, files carried by hand on a sealed stick,
      [plugins/src/courier.rs]: [Courier] (the marker, the envelope, the sealed
      lists, names and destinations), [CourierPlug] (the outbox, the heard
      ledger, [process_plug], the drain over the LAN); [CourierPost]: its
      handlers in [gateway/src/lib.rs] and its tools in [supervisor.rs].
      [CourierLanes]: [plugins/src/wifi_lan.rs], the courier as a transport, the
      router [main.rs] installs and the cross-node [send_to_agent].
      [CourierWatch]: the connectivity watcher of [main.rs].  [CourierLoop] is
      about one artifact's way out and the receipt's way back, [CourierRuns]
      holds concrete runs, [Jsonl] lemmas on files of one row per line.
    - [Beacon]: [gateway/src/beacon.rs], who of the peers is dark.
    Approval and identity:
    - [Protocol]: the shared vocabulary of [apexos-protocol/src/lib.rs].
    - [Confine]: [apexos-confine/src/lib.rs] over the class [FsOps]; [Policy]:
      [plugins/src/policy.rs], [tool_claim.rs] and the registry of
      [supervisor.rs]; [Gate]: the approval loop of [supervisor.rs].
    - [Identity]: [core/src/identity.rs], the profile and agent registry, its
      file and the per-session maps; [Auth]: [gateway/src/session_auth.rs], the
      route gates, the lockout and the login of [gateway/src/lib.rs].
    Turns and sessions:
    - [History]: [core/src/history.rs]; [Turn]: [agent/src/turn.rs] with the
      image shim [core/src/vision.rs]; [Sessions]: [agentd/src/session_store.rs]
      and [core/src/session_gzip.rs].
    - [AgentRouter]: [spawn_agent_router] of [agentd/src/main.rs], its turn
      gate, tracker and turn tasks, as the function [router_step];
      [RouterTree] (one turn at a time, sub-agents and cancels), [RouterDisk]
      (transcripts and deletes) hold theorems about it, [RouterRuns] concrete
      runs.
    - [Scheduler]: [agentd/src/scheduler.rs] and the gate in front of it.
    - [Sse]: the loop over the network's bytes that [agent/src/oai.rs] and
      [anthropic.rs] share; [Oai] and [Anthropic]: their keys, requests, cache
      settings ([cache.rs]), token totals ([usage.rs]) and event handlers.
      [ProviderRuns] holds concrete requests and replies.
    - [Council]: [agent/src/council.rs], [agentd/src/council_handler.rs], its
      routes in [gateway/src/lib.rs] and the dispatch of [agent/src/routing.rs];
      [CouncilRuns]: concrete councils.
    The daemon changing itself ([agentd/src/]):
    - [SelfUpdate]: [self_update.rs], the gates of a new binary; [Health]:
      [health.rs], the marker the watchdog polls.
    - [Evolution]: [evolution.rs] and the applier of [main.rs] (souls, policy
      rules and plugins, with their way back); [PacLint]: [pac_lint.rs], the
      lint of dense souls.  [EvolutionRuns] holds concrete runs.
    Goals and workers ([agentd/src/]):
    - [Goal]: [goal.rs].  [Mandala]: [mandala.rs], the forms, addresses, budgets
      and files of a tree of cells; [Review]: [review.rs]; [Remote]: [remote.rs],
      the wire between conductors.
    - The worker fabric, [worker.rs], in layers: [Worker] (data, the ledger
      file, one worker's transitions), [WorkerTree] (cells, fans and barriers),
      [WorkerMesh] (minting, remote rows, hosted batches), [WorkerDriver] (every
      arm of the driver loop and its boot).  Their theorems are in [WorkerLife]
      (workers and batches), [WorkerFan] and [WorkerEpoch] (the tree),
      [WorkerMint], [WorkerHush] (what is announced), [WorkerWire] (peers) and
      [WorkerRun] (whole runs of the driver).

    ** How they meet

    A frame heard by [Radio] goes through [RadioTask.heard_frame] ([Replay] for
    the envelope and the window, [Inbox] for the decision, [Neighbors] for
    liveness, [Store] for what must survive); towards the Pi it leaves through
    [Brainstem]'s transmit queue as [Framing] bytes, which [Bridge] deframes and
    [MeshLink] persists and delivers; back down, [MeshLink] and [MeshRouter]
    pick lanes and [Bridge] writes the wire.  A message to another
    node enters [CourierLanes.send_to_agent] and leaves over the Wi-Fi lane,
    [MeshLink]'s radio lane or, as a file and a row of the outbox, by stick;
    [CourierWatch] feeds [Connectivity]'s latch, sets the Wi-Fi lane's health and
    drains the outbox when the link returns; whom it counts as alive is what
    [Beacon] wrote.  In the daemon a prompt (from the
    gateway behind [Auth], from [Scheduler], [Goal], a worker or a peer through
    [Peers]) reaches [AgentRouter.router_step], which starts a turn: the task's
    [TurnEnds] step runs [Turn.run_turn] on the chunks [Oai] or [Anthropic] reads
    from the network; the turn's calls go to [Gate], which asks
    [Policy] (and shares with [Goal] and [Worker] the set of sessions it may
    approve); [Policy] asks [Confine] where a path really is, and
    [Connectivity] hides tools that cannot work; what the turn adds goes through
    [Sessions] to disk and comes back through [History]'s repair.  [Goal] and
    [WorkerDriver] react to the same bus events; [Mandala] bounds what the
    workers may fan out.  The tool [apply_daemon_update] feeds [SelfUpdate], whose
    request a watchdog outside this library acts on and undoes unless [Health]'s
    marker says healthy; [propose_evolution] and [rollback_evolution] feed
    [Evolution], which asks [PacLint] about a soul, [Identity] whose it is, and
    edits the file [Policy] is read from.

    ** What the theorems show

    - Authenticity and freshness: whatever the air carries, the board does what
      the authentic frames in it alone would make it do; own and replayed frames
      deliver nothing; a counter of a sender is admitted at most once, by the bitmap
      window refining a set of seen counters; counters issued across any
      reboots and task interleavings never repeat below saturation; replay and
      inbox state written to flash is what the next boot reads.
    - Delivery: held packets stay until accepted; each radio message is news to
      the daemon once and is persisted before it is accepted; gossip leaves if
      any lane can take it, critical traffic tries every lane.
    - Courier: what is queued, carried, ingested and carried back closes exactly
      its row, when nothing else touches the lists on the way; only bytes of the announced hash land, inside the incoming
      directory of a well-formed origin; a receipt closes at most one row on any
      run of the node; a second plug ingests nothing; a message is never lost
      and is doubled only where a peer that took it was not heard to say so; a
      link that returns drains what waits, row by row.
    - Codecs: the deframer resynchronises after any garbage and does not depend
      on how the stream is cut; a sealed packet opens to itself and to nothing
      under a changed header; chunked blobs reassemble in any order.
    - Approval and access: a call is run only on policy, goal-yolo or a matching
      human approval, at most once per request; an allowed path is inside the
      workspace and not a secret; reserved names stay with their owners; a
      route is reached only with the role it asks for; wrong PINs are bounded by
      the limit and the requests under way at once;
      a corrupt registry is kept; delegation across nodes ends.
    - Turns: every request to the provider is a valid conversation, in one turn
      and over every run of the router; each call of a round is answered once;
      the permit spans exactly the provider calls; at most one turn runs in a
      session that was not spawned, prompts are served in order, a cancel reaches
      exactly the subtree unless a session was made its own descendant, spawn
      depth is bounded; the transcript on disk is the conversation in memory, and
      a deleted one stays deleted.
    - Providers: the chunks do not depend on how the network cut the bytes; a
      reply streamed in any pieces is delivered whole, calls and signatures put
      together, its tokens counted once, whatever other fields and events the
      API sends with it; what an OpenAI-compatible server sends becomes exactly
      the chunks its text, calls and end say; a history the Anthropic API accepts
      becomes a request that passes OpenAI's rules just where no assistant
      message is of thoughts alone; a request carries at most four cache marks
      but those tools put into pictures' results, never of its own on the turn with the
      clock; a stream ends once.
    - Council: where every call ends, it ends at the first round whose score
      reaches the threshold or after the rounds it was given, and where one does
      not it waits for ever; each member is asked once a round, with all that was
      said before, with no key but its own; the listing keeps every running
      council.
    - Scheduler: a wakeup fires at most once, and when it is due; the ledger
      survives a cut write as a prefix.
    - Goals and workers: goals and workers move only along their state
      machines' edges and survive restarts; the set of approved sessions is that
      of the live granted ones; the cap, the tree's geometry and its budgets are
      kept; a barrier opens exactly when its ring is settled or timed out; a
      fan is durable before it is acknowledged, a batch is reported once and
      when due; peers reach only their own work.
    - Changing itself: a swap of the binary is requested only after every gate
      passed on exactly the commit named, and a refused one leaves no lock and no
      request; a soul is rewritten only after its undo is stored and read back,
      and comes back as it was, to the file it was in; a record of an undo reads
      back when no marker stands before its own; a linted soul is well formed;
      the marker is healthy exactly when the gates were met.
    - Liveness: a peer is dark exactly after that many misses in a row, and each
      crossing is announced once.
    - History: repair yields a history the API accepts, is the identity on
      exactly those, and keeps everything said; trimming fires on its band and
      cuts where it says.
    Several theorems and examples state behaviour that departs from a comment
    or from the intent ([RadioTask.radio_never_delivers],
    [MeshRouter.oversized_frame_never_leaves], [Gate.yolo_grant_authority],
    [History.repair_drops_split_result], [Counter.counter_reuse_at_saturation],
    [WorkerWire.cancel_before_accept_is_lost], [Scheduler.daily_cap_exceeded],
    [Sessions.rearchived_transcript_is_lost], [SelfUpdate.bold_block_reads_safe],
    [Health.lagged_plugin_fails_the_boot], the examples of [RouterRuns], of
    [CourierRuns], of [EvolutionRuns], of [ProviderRuns] and of [CouncilRuns]).

    ** Modelling decisions

    - Integers are [Z] with their range; a wrapping operation is written with
      [as_u8] ... [as_u64], a saturating one with [sat_add32], [Z.min] or [Z.max].
      The release profile wraps on overflow and the models follow it.  The one
      [f32] that decides something, a council's score, is a [SpecFloat] of 24
      bits.  Sums of
      in-memory lengths ([History]) are unbounded.
    - A request that locks several times is as many steps, with other requests
      between ([Auth.auth_event]: arrive, look, answer).  The drain that
      [CourierWatch] starts is a task of its own whose rows come in between the
      watcher's rounds.  A peer's answer to a delivered message is one of three:
      taken, taken but unheard, not taken.  A member of a council may never
      answer.  A stick is kept apart from the workspace it is mounted in
      ([CourierPlug]): nothing the plug writes to the workspace is on the stick.
    - A task of the firmware, the supervisor's loop and the drivers of goals and
      workers run from one await to the next without another task in between;
      where interleaving matters ([Counter], the [select!] loops of [Bridge] and
      [Gate], the turn tasks of [AgentRouter], the courier's operations and what
      happens to the disk while a file is sent) the order of events is an
      arbitrary list or a step relation.  The clock is read once per step.
    - Third-party code is a class of operations with a second class for the
      documented laws: postcard, COBS, CRC-32, ChaCha20-Poly1305, blake3
      ([Wire]), sequential-storage ([Store]), TOML and JSON ([Connectivity],
      [MeshLink], [History], [Policy], [Protocol.JsonNums], [Mandala.TreeJson],
      [Remote.RemotesJson], [Remote.WireRowJson], [Identity.IdentToml],
      [Peers.PeersToml], [Scheduler.TaskJson], [Sessions.MessageJson],
      [Turn.JsonDoc], [Sse.JsonBuild], [Evolution.TomlDoc], [Evolution.EvoJson] and
      [Evolution.ProposalCodec], the classes at the top of [Courier], [CourierPlug.OutboxJson],
      [CourierLanes.A2aJson] and [LanToml]), base64 ([Courier.Base64]), SHA-256 ([Mandala.Sha256]), percent-decoding ([Auth]),
      chrono and cron ([Scheduler.Chrono], [Scheduler.CronOps]), image and
      base64 ([Turn.ImageOps]), canonicalize ([Confine]), the transports' own
      state ([MeshRouter]), the programs a self update runs
      ([SelfUpdate.UpdateWorld]), the memory service and the disk of an evolution
      ([Evolution.EvoWorld]), the character tables of the language
      ([SelfUpdate.CharTables], [PacLint.CharClasses], [Council.LowerTable]).  Each law class has an instance, used by the
      witnesses.  Files are their text with flags for calls that fail; how a
      write may end is [Text.FsWrite] where a torn file matters.
    - Fuel: [walk_ad] takes the length of its data and each round consumes at
      least one byte; [repair_loop] takes the length of its queue and each round
      removes a message; [dec_text] has twenty digits, the length of a u64, and
      [hex_text] the thirty-two of a u128; [utf8_lossy] takes the length of its
      bytes, [from_utf8] as well, each character taking at least one; [admit_loop] the number of workers, one of which each round admits;
      [breadth_walk] and the trimming loops the length of what they walk;
      [cascade_walk] one more than the entries of the child lists, enough on the
      forests that sessions make ([RouterTree.targets_subtree]) and otherwise
      out of fuel only where the walk is endless.  Every other recursion is
      structural.
    - A [HashMap] whose iteration order is observable is a list with distinct
      keys in that order ([Policy.rules]); one that is only looked up is a
      [gmap].

    ** Not modelled

    The cortex socket loop of the bridge daemon, the event projection
    ([core/src/state.rs]), the sensor alerts and the resolution of soul,
    priming and style in the agent router's file,
    the rehearsal of souls, and most of the virtual tools behind the supervisor's dispatch.  HTTP
    and process plumbing, the user interfaces, the memory engine's storage and
    scoring, the HTTP clients of the model providers and the kernel mechanisms of the sandbox stay
    outside: their guarantees are those of services, devices and
    floating-point scores, not of state this library could speak about. *)
From stdpp Require Export base tactics list gmap strings option numbers relations sorting.
From Stdlib Require Export ZArith Lia ZifyBool.

(** ** Notation scope and results *)

Declare Scope apex_scope.
Delimit Scope apex_scope with apex.
Open Scope Z_scope.
Open Scope apex_scope.

(** Rust's [Result<A, E>]. *)
Inductive result (A E : Type) : Type :=
| Ok (a : A)
| Err (e : E).
Arguments Ok {A E} a.
Arguments Err {A E} e.

(** The [?] operator of the source: stop at the first error. *)
Definition rbind {A B E : Type} (r : result A E) (k : A -> result B E) : result B E :=
  match r with
  | Ok a => k a
  | Err e => Err e
  end.

(** [map_err(|_| e)]. *)
Definition map_err {A E F : Type} (f : E -> F) (r : result A E) : result A F :=
  match r with
  | Ok a => Ok a
  | Err e => Err (f e)
  end.

(** [opt.ok_or(e)]. *)
Definition ok_or {A E : Type} (o : option A) (e : E) : result A E :=
  match o with
  | Some a => Ok a
  | None => Err e
  end.

Definition is_ok {A E : Type} (r : result A E) : bool :=
  match r with Ok _ => true | Err _ => false end.

Notation "x <-! r ; k" := (rbind r (fun x => k))
  (at level 20, r at level 100, k at level 200, right associativity) : apex_scope.

(** ** Machine integers: a w-bit unsigned value is a [Z] in its range *)

Definition u8_max : Z := 255.
Definition u16_max : Z := 65535.
Definition u32_max : Z := 4294967295.
Definition u64_max : Z := 18446744073709551615.

Definition is_u8 (z : Z) : Prop := 0 <= z <= u8_max.
Definition is_u16 (z : Z) : Prop := 0 <= z <= u16_max.
Definition is_u32 (z : Z) : Prop := 0 <= z <= u32_max.
Definition is_u64 (z : Z) : Prop := 0 <= z <= u64_max.
#[export] Instance is_u8_dec z : Decision (is_u8 z).
Proof. unfold is_u8; apply _. Defined.
#[export] Instance is_u16_dec z : Decision (is_u16 z).
Proof. unfold is_u16; apply _. Defined.
#[export] Instance is_u32_dec z : Decision (is_u32 z).
Proof. unfold is_u32; apply _. Defined.
#[export] Instance is_u64_dec z : Decision (is_u64 z).
Proof. unfold is_u64; apply _. Defined.

(** [z as u8], [z as u16], [z as u64]: truncation. *)
Definition as_u8 (z : Z) : Z := z mod 256.
Definition as_u16 (z : Z) : Z := z mod 65536.
Definition as_u32 (z : Z) : Z := z mod 4294967296.
Definition as_u64 (z : Z) : Z := z mod 18446744073709551616.

(** [saturating_add] on [u64] and [u32], [saturating_sub] on any unsigned type. *)
Definition sat_add64 (a b : Z) : Z := Z.min (a + b) u64_max.
Definition sat_add32 (a b : Z) : Z := Z.min (a + b) u32_max.
Definition sat_sub (a b : Z) : Z := Z.max (a - b) 0.

(** [x += 1] on a [u64] counter of a release build: wraps. *)
Definition inc64 (z : Z) : Z := as_u64 (z + 1).

Ltac unfold_int :=
  unfold inc64, is_u8, is_u16, is_u32, is_u64, as_u8, as_u16, as_u32, as_u64,
    sat_add64, sat_add32, sat_sub, u8_max, u16_max, u32_max, u64_max in *.

(** Arithmetic over machine integers, with the widths unfolded. *)
Ltac ulia := unfold_int; lia.

(** ** Byte strings and little-endian integers *)

Abbreviation bytes := (list Z).
Definition is_bytes (l : list Z) : Prop := Forall is_u8 l.

(** [z.to_le_bytes()] of an [n]-byte integer. *)
Fixpoint le_bytes (n : nat) (z : Z) : list Z :=
  match n with
  | O => []
  | S n => z mod 256 :: le_bytes n (z / 256)
  end.

(** [uN::from_le_bytes]. *)
Fixpoint of_le (l : list Z) : Z :=
  match l with
  | [] => 0
  | b :: l => b + 256 * of_le l
  end.

(** [x.len()], a [usize]. *)
Definition zlen {A} (l : list A) : Z := Z.of_nat (length l).

(** [a[i..j]] when the bounds are known to hold. *)
Definition slice (i j : nat) (l : list Z) : list Z := take (j - i) (drop i l).

(** ** Iterator adaptors *)

(** [iter().position(p)]. *)
Fixpoint position {A} (p : A -> bool) (l : list A) : option nat :=
  match l with
  | [] => None
  | x :: l => if p x then Some 0%nat else S <$> position p l
  end.

(** [slice.chunks(n)]: consecutive [n]-element pieces, the last one ragged. *)
Fixpoint chunks_fuel {A} (fuel n : nat) (l : list A) : list (list A) :=
  match fuel, l with
  | S fuel, _ :: _ => take n l :: chunks_fuel fuel n (drop n l)
  | _, _ => []
  end.

Definition chunks {A} (n : nat) (l : list A) : list (list A) := chunks_fuel (length l) n l.

(** [a.div_ceil(b)] on unsigned integers. *)
Definition div_ceil (a b : Z) : Z := if 0 <? a mod b then a / b + 1 else a / b.

(** [iter().any(p)] and [iter().all(p)] are [existsb] and [forallb];
    [iter().flatten().count()] over slots counts the occupied ones. *)
Definition occupied {A} (l : list (option A)) : nat := length (omap id l).

(** [is_none] and [is_some] as booleans. *)
Definition is_noneb {A} (o : option A) : bool := match o with None => true | _ => false end.
Definition is_someb {A} (o : option A) : bool := match o with None => false | _ => true end.

(** ** Tactics *)

(** Split a chain of [if]s and [match]es one level at a time, keeping equations. *)
Ltac case_all :=
  repeat match goal with
  | |- context [match ?x with _ => _ end] => destruct x eqn:?; simplify_eq/=
  | H : context [match ?x with _ => _ end] |- _ => destruct x eqn:?; simplify_eq/=
  end.

(** ** Lemmas on bytes *)

Lemma le_bytes_length n z : length (le_bytes n z) = n.
Proof. revert z; induction n; intros; simpl; auto. Qed.

Lemma le_bytes_bytes n z : is_bytes (le_bytes n z).
Proof.
  revert z; induction n; intros; simpl; constructor; [|apply IHn].
  pose proof (Z.mod_pos_bound z 256). ulia.
Qed.

Lemma of_le_le_bytes n z : 0 <= z < 256 ^ Z.of_nat n -> of_le (le_bytes n z) = z.
Proof.
  revert z; induction n as [|n IH]; intros z Hz.
  - change (256 ^ Z.of_nat 0) with 1 in Hz. simpl. lia.
  - rewrite Nat2Z.inj_succ, Z.pow_succ_r in Hz by lia. simpl.
    rewrite IH.
    + pose proof (Z.div_mod z 256). lia.
    + split; [apply Z.div_pos; lia|apply Z.div_lt_upper_bound; lia].
Qed.

Lemma of_le_range l : is_bytes l -> 0 <= of_le l < 256 ^ Z.of_nat (length l).
Proof.
  induction 1 as [|b l Hb _ IH]; simpl; [lia|].
  rewrite Nat2Z.inj_succ, Z.pow_succ_r by lia. ulia.
Qed.

Lemma le_bytes_of_le l : is_bytes l -> le_bytes (length l) (of_le l) = l.
Proof.
  induction 1 as [|b l Hb _ IH]; simpl; [done|].
  unfold_int. f_equal.
  - rewrite (Z.mul_comm 256), Z_mod_plus_full. apply Z.mod_small. lia.
  - rewrite (Z.mul_comm 256), Z.div_add, Z.div_small, Z.add_0_l by lia. done.
Qed.

Lemma le_bytes_inj n a b :
  0 <= a < 256 ^ Z.of_nat n -> 0 <= b < 256 ^ Z.of_nat n -> le_bytes n a = le_bytes n b -> a = b.
Proof.
  intros Ha Hb E. rewrite <- (of_le_le_bytes n a), <- (of_le_le_bytes n b) by done. by rewrite E.
Qed.

Lemma is_bytes_app a b : is_bytes (a ++ b) <-> is_bytes a /\ is_bytes b.
Proof. apply Forall_app. Qed.

Lemma is_bytes_app_2 a b : is_bytes a -> is_bytes b -> is_bytes (a ++ b).
Proof. rewrite is_bytes_app. done. Qed.

Lemma is_bytes_nil : is_bytes [].
Proof. constructor. Qed.

Lemma is_bytes_cons x l : is_u8 x -> is_bytes l -> is_bytes (x :: l).
Proof. by constructor. Qed.

Lemma is_bytes_take n l : is_bytes l -> is_bytes (take n l).
Proof. apply Forall_take. Qed.

Lemma is_bytes_drop n l : is_bytes l -> is_bytes (drop n l).
Proof. apply Forall_drop. Qed.

Create HintDb bytes.
#[export] Hint Resolve le_bytes_bytes is_bytes_app_2 is_bytes_nil is_bytes_cons
  is_bytes_take is_bytes_drop : bytes.
#[export] Hint Extern 2 (is_u8 _) => ulia : bytes.

Lemma zlen_nonneg {A} (l : list A) : 0 <= zlen l.
Proof. unfold zlen; lia. Qed.

Lemma zlen_app {A} (a b : list A) : zlen (a ++ b) = zlen a + zlen b.
Proof. unfold zlen. rewrite length_app. lia. Qed.

Lemma zlen_nil_inv {A} (l : list A) : zlen l = 0 -> l = [].
Proof. destruct l; [done|]. unfold zlen; simpl; lia. Qed.

Lemma zlen_cons {A} (x : A) l : zlen (x :: l) = 1 + zlen l.
Proof. unfold zlen; simpl; lia. Qed.

Lemma zlen_nil {A} : zlen (@nil A) = 0.
Proof. done. Qed.

Lemma zlen_le_bytes n z : zlen (le_bytes n z) = Z.of_nat n.
Proof. unfold zlen. by rewrite le_bytes_length. Qed.

Create Rewrite HintDb zlen.
#[export] Hint Rewrite @zlen_app @zlen_cons @zlen_nil zlen_le_bytes : zlen.

(** Normalise lengths, then arithmetic. *)
Ltac zlen_lia :=
  autorewrite with zlen in *;
  repeat match goal with
  | |- context [zlen ?l] => lazymatch goal with H : 0 <= zlen l |- _ => fail | _ => pose proof (zlen_nonneg l) end
  | _ : context [zlen ?l] |- _ =>
      lazymatch goal with H : 0 <= zlen l |- _ => fail | _ => pose proof (zlen_nonneg l) end
  end; ulia.

(** ** Chunks *)

Lemma chunks_fuel_concat {A} fuel n (l : list A) :
  (0 < n)%nat -> (length l <= fuel)%nat -> concat (chunks_fuel fuel n l) = l.
Proof.
  intros Hn. revert l; induction fuel as [|fuel IH]; intros [|x l] Hf; simpl in *; try done; [lia|].
  rewrite IH by (rewrite length_drop; simpl; lia). apply take_drop.
Qed.

Lemma chunks_concat {A} n (l : list A) : (0 < n)%nat -> concat (chunks n l) = l.
Proof. intros. by apply chunks_fuel_concat. Qed.

Lemma chunks_fuel_lookup {A} fuel n (l : list A) i :
  (0 < n)%nat -> (length l <= fuel)%nat ->
  chunks_fuel fuel n l !! i =
  if decide (i * n < length l)%nat then Some (take n (drop (i * n) l)) else None.
Proof.
  intros Hn. revert l i; induction fuel as [|fuel IH]; intros l i Hf.
  { destruct l as [|x l]; [|simpl in Hf; lia]. rewrite decide_False by (cbn; lia). done. }
  destruct l as [|x l]; [rewrite decide_False by (cbn; lia); done|].
  destruct i as [|i]; cbn [chunks_fuel]; [done|].
  change ((take n (x :: l) :: chunks_fuel fuel n (drop n (x :: l))) !! S i)
    with (chunks_fuel fuel n (drop n (x :: l)) !! i).
  rewrite IH by (rewrite length_drop; simpl in *; lia).
  rewrite length_drop, drop_drop. change (S i * n)%nat with (n + i * n)%nat.
  destruct (decide (i * n < length (x :: l) - n)%nat), (decide (n + i * n < length (x :: l))%nat);
    (done || lia).
Qed.

Lemma chunks_lookup {A} n (l : list A) i :
  (0 < n)%nat ->
  chunks n l !! i = if decide (i * n < length l)%nat then Some (take n (drop (i * n) l)) else None.
Proof. intros. by apply chunks_fuel_lookup. Qed.

Lemma div_ceil_spec a b q :
  0 < b -> 0 <= a -> 0 <= q -> (q - 1) * b < a \/ q = 0 -> a <= q * b -> div_ceil a b = q.
Proof.
  intros Hb Ha Hq Hlo Hhi. unfold div_ceil. pose proof (Z.div_mod a b) as E.
  pose proof (Z.mod_pos_bound a b Hb) as Hm. destruct (Z.ltb_spec 0 (a mod b)); nia.
Qed.

Lemma zlen_chunks {A} n (l : list A) :
  (0 < n)%nat -> zlen (chunks n l) = div_ceil (zlen l) (Z.of_nat n).
Proof.
  intros Hn. set (L := length (chunks n l)).
  assert (forall i, (i < L)%nat <-> (i * n < length l)%nat) as E.
  { intros i. unfold L. rewrite <- lookup_lt_is_Some, chunks_lookup by done.
    case_decide; split; intros; try done; by destruct H0. }
  symmetry. unfold zlen. fold L. apply div_ceil_spec; try lia.
  - destruct L as [|k]; [by right|left]. assert (k * n < length l)%nat by (apply E; lia). nia.
  - assert (~ (L * n < length l)%nat) by (rewrite <- E; lia). nia.
Qed.

(** ** Slices *)

Lemma slice_app_l n a b : length a = n -> slice 0 n (a ++ b) = a.
Proof. intros <-. unfold slice. by rewrite Nat.sub_0_r, drop_0, take_app_length. Qed.

Lemma slice_app_r i j a b :
  (length a <= i)%nat -> slice i j (a ++ b) = slice (i - length a) (j - length a) b.
Proof.
  intros Hi. unfold slice. rewrite drop_app_ge by done.
  by replace (j - length a - (i - length a))%nat with (j - i)%nat by lia.
Qed.

Lemma slice_le_bytes n z b : slice 0 n (le_bytes n z ++ b) = le_bytes n z.
Proof. apply slice_app_l, le_bytes_length. Qed.

Lemma slice_le_bytes_nil n z : slice 0 n (le_bytes n z) = le_bytes n z.
Proof. rewrite <- (app_nil_r (le_bytes n z)) at 1. apply slice_le_bytes. Qed.

Lemma slice_skip_le n z b i j :
  (n <= i)%nat -> slice i j (le_bytes n z ++ b) = slice (i - n) (j - n) b.
Proof. intros Hi. rewrite slice_app_r; by rewrite le_bytes_length. Qed.

(** Walk a fixed layout of little-endian fields. *)
Ltac slice_steps :=
  repeat first
    [ rewrite slice_le_bytes | rewrite slice_le_bytes_nil
    | rewrite slice_skip_le by lia; cbn [Nat.sub] ].

(** ** Lemmas on slots *)

Lemma position_Some {A} (p : A -> bool) l i :
  position p l = Some i <->
  (exists x, l !! i = Some x /\ p x = true) /\
  (forall j y, (j < i)%nat -> l !! j = Some y -> p y = false).
Proof.
  revert i; induction l as [|a l IH]; intros i; simpl.
  - split; [done|]. intros [(x & Hx & _) _]. done.
  - destruct (p a) eqn:Ea.
    + split.
      * intros [= <-]. split; [by exists a|]. intros; lia.
      * intros [(x & Hx & Hp) Hmin]. destruct i as [|i]; [done|].
        specialize (Hmin 0%nat a ltac:(lia) eq_refl). congruence.
    + split.
      * intros (k & Hk & ->)%fmap_Some. apply IH in Hk as [Hx Hmin]. split; [done|].
        intros [|j] y Hj Hy; simplify_eq/=; [done|]. eapply Hmin; [|done]. lia.
      * intros [(x & Hx & Hp) Hmin]. destruct i as [|i]; [simplify_eq/=; congruence|].
        apply fmap_Some. exists i. split; [|done]. apply IH. split; [by exists x|].
        intros j y Hj Hy. apply (Hmin (S j) y); [lia|done].
Qed.

Lemma position_None {A} (p : A -> bool) l :
  position p l = None <-> forall x, x ∈ l -> p x = false.
Proof.
  induction l as [|a l IH]; simpl.
  - split; [|done]. intros _ x Hx. by apply not_elem_of_nil in Hx.
  - destruct (p a) eqn:Ea.
    + split; [done|]. intros H. rewrite H in Ea; [done|]. left.
    + rewrite fmap_None, IH. split.
      * intros H x [->|Hx]%elem_of_cons; auto.
      * intros H x Hx. apply H. by right.
Qed.

Lemma position_is_Some {A} (p : A -> bool) l x :
  x ∈ l -> p x = true -> is_Some (position p l).
Proof.
  intros Hx Hp. destruct (position p l) eqn:E; [eauto|].
  rewrite position_None in E. rewrite E in Hp; done.
Qed.

Lemma occupied_cons {A} (x : option A) l :
  occupied (x :: l) = ((if is_someb x then 1 else 0) + occupied l)%nat.
Proof. by destruct x. Qed.

Lemma occupied_le {A} (l : list (option A)) : (occupied l <= length l)%nat.
Proof.
  induction l as [|x l IH]; [done|]. rewrite occupied_cons. simpl. destruct (is_someb x); lia.
Qed.

Lemma occupied_full {A} (l : list (option A)) :
  occupied l = length l <-> position is_noneb l = None.
Proof.
  induction l as [|x l IH]; [done|]. rewrite occupied_cons. pose proof (occupied_le l).
  destruct x; simpl; rewrite ?fmap_None; rewrite <- ?IH; split; intros; try done; lia.
Qed.

Lemma occupied_insert_free {A} (l : list (option A)) i x :
  l !! i = Some None -> occupied (<[i := Some x]> l) = S (occupied l).
Proof.
  revert i; induction l as [|a l IH]; intros i Hi; [done|].
  destruct i as [|i]; simplify_eq/=; rewrite !occupied_cons; [done|].
  rewrite IH by done. destruct a; simpl; lia.
Qed.

#[global] Arguments le_bytes : simpl never.
#[global] Arguments of_le : simpl never.

(** ** Lemmas on counted maps *)

Lemma zlen_perm {A} (l l' : list A) : l ≡ₚ l' -> zlen l = zlen l'.
Proof. intros Hp. unfold zlen. by rewrite Hp. Qed.

Lemma zlen_filter_cons {A} (p : A -> bool) x l :
  zlen (filter p (x :: l)) = Z.b2z (p x) + zlen (filter p l).
Proof.
  destruct (p x) eqn:E.
  - rewrite filter_cons_True by (by rewrite E). rewrite zlen_cons. done.
  - rewrite filter_cons_False by (rewrite E; by intros []). done.
Qed.

Lemma zlen_filter_le {A} (p : A -> bool) l : 0 <= zlen (filter p l) <= zlen l.
Proof. pose proof (length_filter (fun x => p x) l). unfold zlen. lia. Qed.

Lemma nodup_filter_fst {A B} (p : A * B -> bool) (l : list (A * B)) : NoDup l.*1 -> NoDup (filter p l).*1.
Proof.
  induction l as [|x l IH]; [done|]. cbn [fmap list_fmap]. intros [Hx Hl]%NoDup_cons.
  rewrite filter_cons. case_decide; [|by apply IH]. cbn [fmap list_fmap]. apply NoDup_cons. split; [|by apply IH].
  intros (y & Hy & Hin)%list_elem_of_fmap. apply Hx. rewrite Hy.
  apply list_elem_of_filter in Hin as [_ Hin]. by apply list_elem_of_fmap_2.
Qed.

Section counted.
Context {K : Type} `{Countable K} {A : Type} (p : K * A -> bool).

(** The entries that satisfy [p]. *)
Definition count_map (m : gmap K A) : Z := zlen (filter p (map_to_list m)).

Lemma count_map_insert_fresh m i y : m !! i = None -> count_map (<[i := y]> m) = Z.b2z (p (i, y)) + count_map m.
Proof.
  intros Hm. unfold count_map. rewrite <- zlen_filter_cons. apply zlen_perm.
  by rewrite map_to_list_insert.
Qed.

Lemma count_map_insert m i x y :
  m !! i = Some x -> count_map (<[i := y]> m) = count_map m - Z.b2z (p (i, x)) + Z.b2z (p (i, y)).
Proof.
  intros Hm.
  assert (count_map m = Z.b2z (p (i, x)) + count_map (delete i m)) as E.
  { rewrite <- count_map_insert_fresh by apply lookup_delete_eq. by rewrite insert_delete_id. }
  rewrite <- insert_delete_eq, count_map_insert_fresh by apply lookup_delete_eq. lia.
Qed.

Lemma count_map_le m : 0 <= count_map m <= Z.of_nat (size m).
Proof.
  unfold count_map. pose proof (zlen_filter_le p (map_to_list m)).
  unfold zlen in *. rewrite length_map_to_list in *. lia.
Qed.

Lemma count_map_pos m i x : m !! i = Some x -> p (i, x) = true -> 1 <= count_map m.
Proof.
  intros Hm Hp. pose proof (count_map_insert_fresh (delete i m) i x (lookup_delete_eq _ _)) as E.
  rewrite insert_delete_id in E by done. rewrite Hp in E. cbn in E.
  pose proof (count_map_le (delete i m)). lia.
Qed.

Lemma count_map_zero m : count_map m = 0 <-> forall i x, m !! i = Some x -> p (i, x) = false.
Proof.
  split.
  - intros Hz i x Hm. destruct (p (i, x)) eqn:E; [|done]. pose proof (count_map_pos m i x Hm E). lia.
  - intros Hall. unfold count_map. apply Z.le_antisymm; [|apply zlen_nonneg].
    assert (filter p (map_to_list m) = []) as ->; [|done].
    destruct (filter p (map_to_list m)) as [|[i x] l] eqn:E; [done|].
    assert ((i, x) ∈ filter p (map_to_list m)) as Hin by (rewrite E; left).
    apply list_elem_of_filter in Hin as [Hp Hin%elem_of_map_to_list].
    rewrite (Hall i x Hin) in Hp. done.
Qed.

(** Nothing is counted twice: what counts in [m'] counts in [m]. *)
Lemma count_map_mono m m' :
  (forall i x', m' !! i = Some x' -> p (i, x') = true -> exists x, m !! i = Some x /\ p (i, x) = true) ->
  count_map m' <= count_map m.
Proof.
  intros Hsub. unfold count_map, zlen. apply inj_le.
  rewrite <- (length_fmap fst (filter p (map_to_list m'))), <- (length_fmap fst (filter p (map_to_list m))).
  apply submseteq_length, NoDup_submseteq; [apply nodup_filter_fst, NoDup_fst_map_to_list|].
  intros i ([i' x'] & -> & [Hp Hin%elem_of_map_to_list]%list_elem_of_filter)%list_elem_of_fmap.
  destruct (Hsub _ _ Hin) as (x & Hm & Hx); [by destruct (p (i', x'))|].
  apply list_elem_of_fmap. exists (i', x). split; [done|]. apply list_elem_of_filter.
  split; [by rewrite Hx|]. by apply elem_of_map_to_list.
Qed.
End counted.
