(* ===== verification/Wire.v ===== *)
(** * The ApexNET wire contract

    [apexos-mesh-proto/src/types.rs] and the constants and error type of its
    [lib.rs].  The serialiser ([postcard]), the byte stuffer ([cobs]), the
    checksum ([crc32fast]), the hash ([blake3]) and the AEAD
    ([chacha20poly1305]) are third-party crates: each is a class of operations,
    with a second class for the laws their documentation states. *)
From S2P Require Import Prelude.

(** ** Constants (lib.rs) *)

Definition WIRE_VERSION : Z := 1.
Definition MAX_WIRE_FRAME : Z := 4096.
Definition BROADCAST : Z := 65535.
Definition DEFAULT_HOP_LIMIT : Z := 4.
Definition FLAG_ACK_REQUESTED : Z := 1.

(** [enum Error]: what can go wrong at the wire layer. *)
Inductive Error :=
| Postcard
| TooLarge
| Truncated
| CrcMismatch
| Cobs
| Crypto
| ZeroCounter
| BadClass (c : Z)
| ChunkIndex
| ChunkSize
| ChunkConflict
| RootMismatch
| Incomplete.

#[export] Instance Error_eq_dec : EqDecision Error.
Proof. solve_decision. Defined.

(** ** Message classes *)

Inductive MeshClass := Critical | Gossip | Bulk | Digest.

#[export] Instance MeshClass_eq_dec : EqDecision MeshClass.
Proof. solve_decision. Defined.

(** [impl From<MeshClass> for u8]. *)
Definition u8_from_class (c : MeshClass) : Z :=
  match c with Critical => 0 | Gossip => 1 | Bulk => 2 | Digest => 3 end.

(** [impl TryFrom<u8> for MeshClass]. *)
Definition class_try_from (v : Z) : result MeshClass Error :=
  if v =? 0 then Ok Critical
  else if v =? 1 then Ok Gossip
  else if v =? 2 then Ok Bulk
  else if v =? 3 then Ok Digest
  else Err (BadClass v).

(** ** Frames, packets and payloads *)

(** [struct MeshFrame]: cleartext header and ciphertext. *)
Record MeshFrame := mkFrame {
  ver : Z;
  class : MeshClass;
  sender : Z;
  ctr : Z;
  ct : bytes
}.

(** [struct Digest] (the struct; the class of the same name is [Digest]). *)
Record DigestClaim := mkDigest {
  dg_ver : Z;
  dg_node : Z;
  dg_epoch : Z;
  dg_mem_root : bytes;
  dg_n_new : Z;
  dg_tags : list Z;
  dg_reserved : Z
}.

Record CourierManifest := mkCourierManifest {
  cm_stick : bytes;
  cm_origin : Z;
  cm_dest : Z;
  cm_root : bytes;
  cm_n_chunks : Z;
  cm_total_len : Z;
  cm_epoch : Z
}.

Record CourierReceipt := mkCourierReceipt {
  cr_stick : bytes;
  cr_root : bytes;
  cr_accepted : bool
}.

(** [enum Payload], variants in wire order. *)
Inductive Payload :=
| Heartbeat (uptime_s : Z) (cortex_up : bool) (conn : Z)
| Alarm (code : Z) (detail : string)
| A2A (body : bytes)
| DreamDigest (d : DigestClaim)
| ChunkAnnounce (root : bytes) (n_chunks total_len chunk_len : Z)
| ChunkRequest (root : bytes) (index : Z)
| ChunkData (root : bytes) (index : Z) (data : bytes)
| Ack (of_sender of_ctr : Z)
| PCourierManifest (m : CourierManifest)
| PCourierReceipt (r : CourierReceipt)
| Provision (node_id : Z) (psk : bytes)
| BrainstemStatus (node_id queued neighbors ctr_hw : Z).

Record PlainPacket := mkPacket {
  target : Z;
  hop_limit : Z;
  flags : Z;
  payload : Payload
}.

#[export] Instance DigestClaim_eq_dec : EqDecision DigestClaim.
Proof. solve_decision. Defined.
#[export] Instance CourierManifest_eq_dec : EqDecision CourierManifest.
Proof. solve_decision. Defined.
#[export] Instance CourierReceipt_eq_dec : EqDecision CourierReceipt.
Proof. solve_decision. Defined.
#[export] Instance Payload_eq_dec : EqDecision Payload.
Proof. solve_decision. Defined.
#[export] Instance PlainPacket_eq_dec : EqDecision PlainPacket.
Proof. solve_decision. Defined.
#[export] Instance MeshFrame_eq_dec : EqDecision MeshFrame.
Proof. solve_decision. Defined.

(** ** Third-party codecs, as operations with the laws they document *)

(** [postcard::to_allocvec] and [postcard::take_from_bytes] at one type. *)
Class PostcardOps (A : Type) := {
  to_allocvec : A -> option bytes;
  take_from_bytes : bytes -> option (A * bytes)
}.

Class PostcardLaws (A : Type) `{!PostcardOps A} := {
  postcard_roundtrip a b rest :
    to_allocvec a = Some b -> take_from_bytes (b ++ rest) = Some (a, rest);
  postcard_bytes (a : A) b : to_allocvec a = Some b -> is_bytes b;
  postcard_nonempty (a : A) b : to_allocvec a = Some b -> b <> []
}.

(** [cobs::encode_vec] and [cobs::decode_vec]. *)
Class CobsOps := {
  cobs_encode : bytes -> bytes;
  cobs_decode : bytes -> option bytes
}.

Class CobsLaws `{!CobsOps} := {
  cobs_roundtrip b : is_bytes b -> cobs_decode (cobs_encode b) = Some b;
  cobs_zero_free b : Forall (fun x => x <> 0) (cobs_encode b);
  cobs_overhead b : zlen b < zlen (cobs_encode b)
}.

(** [crc32fast::hash]. *)
Class CrcOps := { crc32 : bytes -> Z }.
Class CrcLaws `{!CrcOps} := { crc32_u32 b : is_u32 (crc32 b) }.

(** [chacha20poly1305]: [encrypt key nonce aad plaintext], [decrypt key nonce aad ciphertext]. *)
Class AeadOps := {
  aead_encrypt : bytes -> bytes -> bytes -> bytes -> option bytes;
  aead_decrypt : bytes -> bytes -> bytes -> bytes -> option bytes
}.

Class AeadLaws `{!AeadOps} := {
  aead_roundtrip k n a m c :
    aead_encrypt k n a m = Some c -> aead_decrypt k n a c = Some m
}.

(** [blake3::hash], a 32-byte digest. *)
Class HashOps := { blake3 : bytes -> bytes }.

(** ** Class discriminants *)

Lemma class_roundtrip c : class_try_from (u8_from_class c) = Ok c.
Proof. by destruct c. Qed.

Lemma class_try_from_Ok v c : class_try_from v = Ok c -> v = u8_from_class c.
Proof.
  unfold class_try_from.
  repeat match goal with |- context [v =? ?k] => destruct (Z.eqb_spec v k) end; by intros [= <-].
Qed.

Lemma u8_from_class_u8 c : is_u8 (u8_from_class c).
Proof. destruct c; simpl; ulia. Qed.
