(* ===== verification/Codecs.v ===== *)
(** * Concrete codecs that satisfy the interfaces of [Wire]

    Small executable instances of the third-party interfaces.  They are not
    models of [postcard], [cobs], [crc32fast] or [chacha20poly1305]: they show
    that the laws the theorems assume are consistent, and let the witnesses and
    examples of the library run on concrete frames. *)
From S2P Require Import Prelude Wire.

(** ** Toy postcard: fixed layouts *)

Definition split_le (n : nat) (b : bytes) : option (Z * bytes) :=
  if decide (n <= length b)%nat then Some (of_le (take n b), drop n b) else None.

Definition take_n (n : nat) (b : bytes) : option (bytes * bytes) :=
  if decide (n <= length b)%nat then Some (take n b, drop n b) else None.

Definition toy_frame_to (f : MeshFrame) : option bytes :=
  if decide (is_u8 (ver f) /\ is_u16 (sender f) /\ is_u64 (ctr f) /\ is_bytes (ct f)
             /\ zlen (ct f) <= u16_max)
  then Some ([ver f; u8_from_class (class f)] ++ le_bytes 2 (sender f) ++ le_bytes 8 (ctr f)
             ++ le_bytes 2 (zlen (ct f)) ++ ct f)
  else None.

Definition toy_frame_from (b : bytes) : option (MeshFrame * bytes) :=
  '(v, b) ← split_le 1 b; '(c, b) ← split_le 1 b; '(s, b) ← split_le 2 b;
  '(n, b) ← split_le 8 b; '(l, b) ← split_le 2 b; '(d, b) ← take_n (Z.to_nat l) b;
  match class_try_from c with
  | Ok c => Some (mkFrame v c s n d, b)
  | Err _ => None
  end.

Definition toy_packet_to (p : PlainPacket) : option bytes :=
  if decide (is_u16 (target p) /\ is_u8 (hop_limit p) /\ is_u8 (flags p)) then
    let hdr := le_bytes 2 (target p) ++ [hop_limit p; flags p] in
    match payload p with
    | A2A body =>
        if decide (is_bytes body /\ zlen body <= u16_max)
        then Some (hdr ++ [2] ++ le_bytes 2 (zlen body) ++ body) else None
    | Ack s c =>
        if decide (is_u16 s /\ is_u64 c) then Some (hdr ++ [7] ++ le_bytes 2 s ++ le_bytes 8 c)
        else None
    | Provision n k =>
        if decide (is_u16 n /\ is_bytes k /\ length k = 32%nat)
        then Some (hdr ++ [10] ++ le_bytes 2 n ++ k) else None
    | _ => None
    end
  else None.

Definition toy_packet_from (b : bytes) : option (PlainPacket * bytes) :=
  '(t, b) ← split_le 2 b; '(h, b) ← split_le 1 b; '(f, b) ← split_le 1 b;
  '(k, b) ← split_le 1 b;
  if decide (k = 2) then
    '(l, b) ← split_le 2 b; '(d, b) ← take_n (Z.to_nat l) b; Some (mkPacket t h f (A2A d), b)
  else if decide (k = 7) then
    '(s, b) ← split_le 2 b; '(c, b) ← split_le 8 b; Some (mkPacket t h f (Ack s c), b)
  else if decide (k = 10) then
    '(n, b) ← split_le 2 b; '(d, b) ← take_n 32 b; Some (mkPacket t h f (Provision n d), b)
  else None.

(** ** Toy byte stuffing: a marker byte, then zeros and ones escaped by [1] *)

Definition stuff1 (b : Z) : bytes :=
  if b =? 0 then [1; 1] else if b =? 1 then [1; 2] else [b].

Definition toy_cobs_encode (b : bytes) : bytes := 255 :: concat (map stuff1 b).

Fixpoint unstuff (b : bytes) : option bytes :=
  match b with
  | [] => Some []
  | 1 :: x :: b => cons (x - 1) <$> unstuff b
  | 1 :: [] => None
  | x :: b => cons x <$> unstuff b
  end.

Definition toy_cobs_decode (b : bytes) : option bytes :=
  match b with
  | 255 :: b => unstuff b
  | _ => None
  end.

(** ** Toy checksum and toy authenticated cipher *)

Definition toy_sum (b : bytes) : Z := foldr Z.add 0 b.

Definition toy_crc (b : bytes) : Z := toy_sum b mod 4294967296.

Definition toy_tag (k n a m : bytes) : Z := toy_sum (k ++ n ++ a ++ m) mod 256.

Definition toy_encrypt (k n a m : bytes) : option bytes := Some (toy_tag k n a m :: m).

Definition toy_decrypt (k n a c : bytes) : option bytes :=
  match c with
  | t :: m => if t =? toy_tag k n a m then Some m else None
  | [] => None
  end.

Definition toy_hash (b : bytes) : bytes := le_bytes 32 (foldr (fun x h => x + 1 + 257 * h) 7 b).

#[export] Instance toy_frame_ops : PostcardOps MeshFrame :=
  {| to_allocvec := toy_frame_to; take_from_bytes := toy_frame_from |}.
#[export] Instance toy_packet_ops : PostcardOps PlainPacket :=
  {| to_allocvec := toy_packet_to; take_from_bytes := toy_packet_from |}.
#[export] Instance toy_cobs_ops : CobsOps :=
  {| cobs_encode := toy_cobs_encode; cobs_decode := toy_cobs_decode |}.
#[export] Instance toy_crc_ops : CrcOps := {| crc32 := toy_crc |}.
#[export] Instance toy_aead_ops : AeadOps :=
  {| aead_encrypt := toy_encrypt; aead_decrypt := toy_decrypt |}.
#[export] Instance toy_hash_ops : HashOps := {| blake3 := toy_hash |}.

(** ** The laws hold *)

Lemma split_le_app n z rest :
  0 <= z < 256 ^ Z.of_nat n -> split_le n (le_bytes n z ++ rest) = Some (z, rest).
Proof.
  intros Hz. unfold split_le. rewrite length_app, le_bytes_length.
  rewrite decide_True by lia.
  rewrite take_app_length', drop_app_length' by (by rewrite le_bytes_length).
  by rewrite of_le_le_bytes.
Qed.

Lemma split_le_1 z rest : split_le 1 (z :: rest) = Some (z, rest).
Proof.
  unfold split_le. rewrite decide_True by (simpl; lia). simpl. rewrite drop_0, take_0.
  unfold of_le. by rewrite Z.add_0_r.
Qed.

Lemma take_n_app d rest : take_n (length d) (d ++ rest) = Some (d, rest).
Proof.
  unfold take_n. rewrite length_app, decide_True by lia. by rewrite take_app_length, drop_app_length.
Qed.

Ltac split_le_steps :=
  repeat first
    [ rewrite split_le_app by (unfold_int; cbn; lia); cbn [mbind option_bind]
    | rewrite split_le_1; cbn [mbind option_bind] ].

Ltac toy_cbn := cbn [to_allocvec take_from_bytes toy_frame_ops toy_packet_ops ver class sender ctr ct
  target hop_limit flags payload app].

#[export] Instance toy_frame_laws : PostcardLaws MeshFrame.
Proof.
  split; intros [v c s n d] b; toy_cbn; unfold toy_frame_to; toy_cbn.
  - intros rest. case_decide as H; [|done].
    destruct H as (Hv & Hs & Hn & Hd & Hl). intros <-%(inj Some).
    unfold toy_frame_from. rewrite <- ?app_assoc. toy_cbn. rewrite <- ?app_assoc.
    pose proof (zlen_nonneg d). split_le_steps.
    unfold zlen. rewrite Nat2Z.id, take_n_app. cbn [mbind option_bind].
    by rewrite class_roundtrip.
  - case_decide as H; [|done]. destruct H as (Hv & Hs & Hn & Hd & Hl). intros <-%(inj Some).
    auto 10 using u8_from_class_u8 with bytes.
  - case_decide; [|done]. by intros <-%(inj Some).
Qed.

#[export] Instance toy_packet_laws : PostcardLaws PlainPacket.
Proof.
  split; intros [t h f p] b; toy_cbn; unfold toy_packet_to; toy_cbn.
  - intros rest. case_decide as H; [|done]. destruct H as (Ht & Hh & Hf).
    unfold toy_packet_from.
    destruct p; try done; case_decide as H; try done; intros <-%(inj Some);
      rewrite <- ?app_assoc; toy_cbn; rewrite <- ?app_assoc; toy_cbn; split_le_steps.
    + destruct H as [Hb Hl]. pose proof (zlen_nonneg body).
      rewrite decide_True by done. split_le_steps.
      unfold zlen. by rewrite Nat2Z.id, take_n_app.
    + destruct H. rewrite decide_False, decide_True by done. by split_le_steps.
    + destruct H as (Hn & Hb & Hl). rewrite decide_False, decide_False, decide_True by done.
      split_le_steps. rewrite <- Hl. by rewrite take_n_app.
  - case_decide as H; [|done]. destruct H as (Ht & Hh & Hf).
    destruct p; try done; case_decide as H; try done; intros <-%(inj Some);
      destruct_and?; auto 10 with bytes.
  - case_decide; [|done]. destruct p; try done; case_decide; try done; by intros <-%(inj Some).
Qed.

Lemma unstuff_stuff b : unstuff (concat (map stuff1 b)) = Some b.
Proof.
  induction b as [|x b IH]; [done|]. simpl. unfold stuff1 at 1.
  destruct (Z.eqb_spec x 0) as [->|H0]; [simpl; by rewrite IH|].
  destruct (Z.eqb_spec x 1) as [->|H1]; [simpl; by rewrite IH|].
  simpl. rewrite IH. destruct x as [|[]|]; done.
Qed.

#[export] Instance toy_cobs_laws : CobsLaws.
Proof.
  split.
  - intros b _. apply unstuff_stuff.
  - intros b. simpl. constructor; [done|]. apply Forall_concat, Forall_fmap, Forall_true.
    intros x. unfold compose, stuff1.
    destruct (Z.eqb_spec x 0); [by repeat constructor|].
    destruct (Z.eqb_spec x 1); by repeat constructor.
  - intros b. simpl. unfold toy_cobs_encode. rewrite zlen_cons.
    enough (zlen b <= zlen (concat (map stuff1 b))) by lia.
    induction b as [|x b IH]; [done|]. simpl. rewrite zlen_app, zlen_cons.
    unfold stuff1 at 1. destruct (x =? 0), (x =? 1); zlen_lia.
Qed.

#[export] Instance toy_crc_laws : CrcLaws.
Proof. split. intros b. simpl. unfold toy_crc. pose proof (Z.mod_pos_bound (toy_sum b) 4294967296). ulia. Qed.

#[export] Instance toy_aead_laws : AeadLaws.
Proof. split. intros k n a m c [= <-]. simpl. by rewrite Z.eqb_refl. Qed.
