(* ===== verification/Framing.v ===== *)
(** * Frame encoding and the incremental deframer

    [apexos-mesh-proto/src/frame.rs]: the frozen recipe
    (postcard, CRC32-LE trailer, COBS, [0x00] delimiter), the datagram form,
    and the [Deframer] that recovers frames from an arbitrary byte stream. *)
From S2P Require Import Prelude Wire Codecs.

Section Framing.
Context `{!PostcardOps MeshFrame} `{!CobsOps} `{!CrcOps}.

(** ** Encoding and decoding one frame *)

Definition encode_frame (frame : MeshFrame) : result bytes Error :=
  body <-! ok_or (to_allocvec frame) Postcard;
  let crc := crc32 body in
  let body := body ++ le_bytes 4 crc in
  let wire := cobs_encode body ++ [0] in
  if MAX_WIRE_FRAME <? zlen wire then Err TooLarge else Ok wire.

Definition decode_frame (wire : bytes) : result MeshFrame Error :=
  body <-! ok_or (cobs_decode wire) Cobs;
  if zlen body <? 5 then Err Truncated
  else
    let payload := take (length body - 4) body in
    let trailer := drop (length body - 4) body in
    let want := of_le trailer in
    if negb (crc32 payload =? want) then Err CrcMismatch
    else
      p <-! ok_or (take_from_bytes payload) Postcard;
      match p with
      | (frame, []) => Ok frame
      | (_, _ :: _) => Err Postcard
      end.

(** ** Datagram links: no framing, a hard size bound *)

Definition MAX_DATAGRAM_FRAME : Z := 248.

Definition encode_datagram (frame : MeshFrame) : result bytes Error :=
  body <-! ok_or (to_allocvec frame) Postcard;
  if MAX_DATAGRAM_FRAME <? zlen body then Err TooLarge else Ok body.

Definition decode_datagram (b : bytes) : result MeshFrame Error :=
  if MAX_DATAGRAM_FRAME <? zlen b then Err TooLarge
  else
    p <-! ok_or (take_from_bytes b) Postcard;
    match p with
    | (frame, []) => Ok frame
    | (_, _ :: _) => Err Postcard
    end.

(** ** The deframer *)

Record DeframerStats := mkStats {
  rx_frames : Z;
  crc_fail : Z;
  decode_fail : Z;
  resyncs : Z;
  oversize_drops : Z
}.

Definition stats_default : DeframerStats := mkStats 0 0 0 0 0.

Record Deframer := mkDeframer {
  buf : bytes;
  skipping : bool;
  stats : DeframerStats
}.

Definition deframer_new : Deframer := mkDeframer [] false stats_default.

Definition buffered_len (d : Deframer) : Z := zlen (buf d).

(** The [match decode_frame(&self.buf)] of [push]: counters and yielded frame. *)
Definition count_decode (r : result MeshFrame Error) (s : DeframerStats)
    : DeframerStats * list MeshFrame :=
  match r with
  | Ok frame =>
      (mkStats (inc64 (rx_frames s)) (crc_fail s) (decode_fail s) (resyncs s) (oversize_drops s),
       [frame])
  | Err CrcMismatch =>
      (mkStats (rx_frames s) (inc64 (crc_fail s)) (decode_fail s) (resyncs s) (oversize_drops s), [])
  | Err _ =>
      (mkStats (rx_frames s) (crc_fail s) (inc64 (decode_fail s)) (resyncs s) (oversize_drops s), [])
  end.

(** One iteration of the loop of [push]. *)
Definition push_byte (d : Deframer) (b : Z) : Deframer * list MeshFrame :=
  let s := stats d in
  if b =? 0 then
    if skipping d then
      (mkDeframer (buf d) false
         (mkStats (rx_frames s) (crc_fail s) (decode_fail s) (inc64 (resyncs s)) (oversize_drops s)),
       [])
    else if zlen (buf d) =? 0 then (d, [])
    else
      let '(s', out) := count_decode (decode_frame (buf d)) s in
      (mkDeframer [] (skipping d) s', out)
  else if skipping d then (d, [])
  else
    let buf' := buf d ++ [b] in
    if MAX_WIRE_FRAME <=? zlen buf' then
      (mkDeframer [] true
         (mkStats (rx_frames s) (crc_fail s) (decode_fail s) (resyncs s) (inc64 (oversize_drops s))),
       [])
    else (mkDeframer buf' (skipping d) s, []).

(** [Deframer::push]: every frame completed by the chunk, in order. *)
Fixpoint push (d : Deframer) (bs : bytes) : Deframer * list MeshFrame :=
  match bs with
  | [] => (d, [])
  | b :: bs =>
      let '(d1, out1) := push_byte d b in
      let '(d2, out2) := push d1 bs in
      (d2, out1 ++ out2)
  end.

(** The states a deframer can be in: the buffer is below the bound, holds no
    delimiter, and is empty while an oversize frame is being skipped. *)
Definition deframer_ok (d : Deframer) : Prop :=
  buffered_len d < MAX_WIRE_FRAME /\
  Forall (fun b => b <> 0) (buf d) /\
  (skipping d = true -> buf d = []).

(** A deframer at a frame boundary. *)
Definition aligned (d : Deframer) : Prop := buf d = [] /\ skipping d = false.

End Framing.

(** ** Lemmas *)

Lemma max_wire_pos : 0 < MAX_WIRE_FRAME.
Proof. done. Qed.

Section FramingLemmas.
Context `{!PostcardOps MeshFrame} `{!CobsOps} `{!CrcOps}.

Lemma push_app d a b :
  push d (a ++ b) =
  let '(d1, o1) := push d a in let '(d2, o2) := push d1 b in (d2, o1 ++ o2).
Proof.
  revert d; induction a as [|x a IH]; intros d; simpl.
  - by destruct (push d b).
  - destruct (push_byte d x) as [d1 o1]. rewrite IH.
    destruct (push d1 a) as [d2 o2]. destruct (push d2 b) as [d3 o3]. by rewrite app_assoc.
Qed.

Lemma push_byte_ok d b : deframer_ok d -> deframer_ok (push_byte d b).1.
Proof.
  intros (Hlen & Hnz & Hskip). unfold push_byte, deframer_ok, buffered_len in *.
  destruct (Z.eqb_spec b 0) as [->|Hb].
  - destruct (skipping d) eqn:Es; simpl; [split_and!; by auto|].
    destruct (zlen (buf d) =? 0); simpl; [split_and!; by rewrite ?Es|].
    destruct (count_decode _ _); simpl. split_and!; [apply max_wire_pos|constructor|done].
  - destruct (skipping d) eqn:Es; simpl; [split_and!; by auto|].
    destruct (Z.leb_spec MAX_WIRE_FRAME (zlen (buf d ++ [b]))); simpl.
    + split_and!; [apply max_wire_pos|constructor|done].
    + split_and!; [done| |done]. apply Forall_app; split; [done|]. by constructor.
Qed.

Lemma push_ok d bs : deframer_ok d -> deframer_ok (push d bs).1.
Proof.
  revert d; induction bs as [|b bs IH]; intros d Hd; simpl; [done|].
  pose proof (push_byte_ok d b Hd) as H1. destruct (push_byte d b) as [d1 o1].
  specialize (IH d1 H1). by destruct (push d1 bs).
Qed.

Lemma deframer_new_ok : deframer_ok deframer_new.
Proof. unfold deframer_ok, buffered_len; simpl. split_and!; [apply max_wire_pos|constructor|done]. Qed.

(** A delimiter always ends at a frame boundary. *)
Lemma delimiter_aligns d : deframer_ok d -> aligned (push d [0]).1.
Proof.
  intros (_ & _ & Hs). unfold aligned; simpl. unfold push_byte; simpl.
  destruct (skipping d) eqn:Es; simpl; [by rewrite Hs|].
  destruct (buf d) eqn:Eb; simpl; [by rewrite Eb|].
  destruct (count_decode _ _); simpl. done.
Qed.

(** Feeding a zero-free run from a boundary buffers it verbatim. *)
Lemma push_run d pre run :
  buf d = pre -> skipping d = false -> Forall (fun b => b <> 0) run ->
  zlen pre + zlen run < MAX_WIRE_FRAME ->
  push d run = (mkDeframer (pre ++ run) false (stats d), []).
Proof.
  intros <- Hs Hnz. revert d Hs; induction Hnz as [|b run Hb Hrun IH]; intros d Hs Hlen.
  - simpl. rewrite app_nil_r. destruct d; simpl in *. by subst.
  - simpl in *. unfold push_byte. destruct (Z.eqb_spec b 0); [done|]. rewrite Hs.
    destruct (Z.leb_spec MAX_WIRE_FRAME (zlen (buf d ++ [b]))) as [Hc|_].
    { zlen_lia. }
    rewrite IH; simpl; [|done|zlen_lia].
    by rewrite <- app_assoc.
Qed.

Lemma push_segment d run :
  aligned d -> Forall (fun b => b <> 0) run -> run <> [] ->
  zlen run < MAX_WIRE_FRAME ->
  push d (run ++ [0]) =
  let '(s, out) := count_decode (decode_frame run) (stats d) in (mkDeframer [] false s, out).
Proof.
  intros [Hb Hs] Hnz Hne Hlen. rewrite push_app, (push_run d [] run) by (done || zlen_lia).
  simpl. unfold push_byte; simpl. destruct run as [|x run]; [done|].
  change (zlen (x :: run) =? 0) with false. cbn iota beta.
  destruct (count_decode _ _); simpl. by rewrite app_nil_r.
Qed.

Context `{!PostcardLaws MeshFrame} `{!CobsLaws} `{!CrcLaws}.

Lemma encode_frame_Ok f w :
  encode_frame f = Ok w ->
  exists b, to_allocvec f = Some b /\
    w = cobs_encode (b ++ le_bytes 4 (crc32 b)) ++ [0] /\ zlen w <= MAX_WIRE_FRAME.
Proof.
  unfold encode_frame. destruct (to_allocvec f) as [b|]; simpl; [|done].
  intros E. exists b. destruct (MAX_WIRE_FRAME <? _) eqn:Hl; simplify_eq.
  split_and!; [done|done|lia].
Qed.

(** Decoding past the byte stuffing and the checksum, whatever the payload. *)
Lemma decode_checked_body f b rider :
  b <> [] -> is_bytes b -> is_bytes rider -> take_from_bytes (b ++ rider) = Some (f, rider) ->
  decode_frame (cobs_encode ((b ++ rider) ++ le_bytes 4 (crc32 (b ++ rider)))) =
  match rider with [] => Ok f | _ :: _ => Err Postcard end.
Proof.
  intros Hne Hb Hr Ht. pose proof (crc32_u32 (b ++ rider)) as Hc.
  unfold decode_frame. rewrite cobs_roundtrip by auto with bytes.
  cbn [ok_or rbind]. destruct b as [|x b]; [done|].
  destruct (Z.ltb_spec (zlen (((x :: b) ++ rider) ++ le_bytes 4 (crc32 ((x :: b) ++ rider)))) 5);
    [zlen_lia|].
  rewrite (length_app (_ ++ _) (le_bytes _ _)), le_bytes_length, Nat.add_sub.
  rewrite take_app_length, drop_app_length.
  rewrite of_le_le_bytes by (change (256 ^ Z.of_nat 4) with 4294967296; ulia).
  rewrite Z.eqb_refl. cbn [negb]. rewrite Ht. cbn [ok_or rbind]. by destruct rider.
Qed.

Lemma decode_encoded_body f b :
  to_allocvec f = Some b -> decode_frame (cobs_encode (b ++ le_bytes 4 (crc32 b))) = Ok f.
Proof.
  intros Hb. rewrite <- (app_nil_r b) at 1 2.
  apply (decode_checked_body f b []);
    eauto using postcard_nonempty, postcard_bytes, postcard_roundtrip with bytes.
Qed.

(** The wire form of a frame is a zero-free, nonempty run and one delimiter. *)
Lemma encode_frame_shape f w :
  encode_frame f = Ok w ->
  exists run, w = run ++ [0] /\ Forall (fun b => b <> 0) run /\ run <> [] /\
    zlen run < MAX_WIRE_FRAME /\ decode_frame run = Ok f.
Proof.
  intros (b & Hb & -> & Hlen)%encode_frame_Ok. eexists. split; [done|].
  rewrite zlen_app in Hlen. split_and!.
  - apply cobs_zero_free.
  - intros E. pose proof (cobs_overhead (b ++ le_bytes 4 (crc32 b))) as Ho.
    rewrite E in Ho. zlen_lia.
  - zlen_lia.
  - by apply decode_encoded_body.
Qed.

Lemma push_encoded d f w :
  aligned d -> encode_frame f = Ok w ->
  (push d w).2 = [f] /\ aligned (push d w).1.
Proof.
  intros Hd (run & -> & Hnz & Hne & Hlen & Hdec)%encode_frame_shape.
  rewrite push_segment by done. by rewrite Hdec.
Qed.

Lemma push_stream d fs ws :
  aligned d -> Forall2 (fun f w => encode_frame f = Ok w) fs ws ->
  (push d (concat ws)).2 = fs.
Proof.
  intros Hd Hall. revert d Hd; induction Hall as [|f w fs ws Hf _ IH]; intros d Hd; [done|].
  simpl. rewrite push_app. pose proof (push_encoded d f w Hd Hf) as [E Ha].
  destruct (push d w) as [d1 o1]; simpl in *; subst.
  specialize (IH d1 Ha). destruct (push d1 (concat ws)); simpl in *. by subst.
Qed.

End FramingLemmas.

(** ** Properties *)

Definition frame_a : MeshFrame := mkFrame 1 Gossip 7 1 [0; 1; 2; 0; 255].
Definition frame_b : MeshFrame := mkFrame 1 Critical 9 300 [].

(** The wire form of a frame under the toy codecs, for the witnesses. *)
Definition toy_wire (f : MeshFrame) : bytes :=
  match encode_frame f with Ok w => w | Err _ => [] end.

Definition toy_frame_bytes (f : MeshFrame) : bytes := default [] (to_allocvec f).

(** C31: resynchronisation and stream round trip.  Whatever bytes a link
    delivered before, one delimiter restores framing, and from there the
    concatenation of encoded frames comes back as exactly those frames, in
    order, with none lost, duplicated or invented. *)
Theorem deframer_resync_stream `{PostcardLaws MeshFrame} `{CobsLaws} `{CrcLaws}
    (garbage : bytes) (fs : list MeshFrame) (ws : list bytes) :
  Forall2 (fun f w => encode_frame f = Ok w) fs ws ->
  (push (push deframer_new (garbage ++ [0])).1 (concat ws)).2 = fs.
Proof.
  intros Hw. apply push_stream; [|done]. rewrite push_app.
  pose proof (push_ok deframer_new garbage deframer_new_ok) as Hok.
  destruct (push deframer_new garbage) as [d1 o1]; simpl in Hok.
  pose proof (delimiter_aligns d1 Hok) as Ha. by destruct (push d1 [0]).
Qed.

Lemma deframer_resync_stream_witness :
  (push (push deframer_new ([9; 8; 0; 7] ++ [0])).1 (concat [toy_wire frame_a; toy_wire frame_b])).2
  = [frame_a; frame_b].
Proof. apply deframer_resync_stream. repeat constructor. Defined.

(** bounded memory.  No byte stream makes the deframer buffer
    [MAX_WIRE_FRAME] bytes or more. *)
Theorem deframer_memory_bounded `{PostcardOps MeshFrame} `{CobsOps} `{CrcOps} (bs : bytes) :
  buffered_len (push deframer_new bs).1 < MAX_WIRE_FRAME.
Proof. by destruct (push_ok deframer_new bs deframer_new_ok). Qed.

(** Feeding a list of chunks one after another, collecting every frame. *)
Definition push_chunks `{PostcardOps MeshFrame} `{CobsOps} `{CrcOps}
    (d : Deframer) (chunks : list bytes) : Deframer * list MeshFrame :=
  fold_left (fun acc c => let '(d', out) := push acc.1 c in (d', acc.2 ++ out)) chunks (d, []).

Lemma push_chunks_acc `{PostcardOps MeshFrame} `{CobsOps} `{CrcOps} chunks d acc :
  fold_left (fun acc c => let '(d', out) := push acc.1 c in (d', acc.2 ++ out)) chunks (d, acc)
  = let '(d', out) := push d (concat chunks) in (d', acc ++ out).
Proof.
  revert d acc; induction chunks as [|c chunks IH]; intros d acc; simpl.
  - by rewrite app_nil_r.
  - rewrite push_app. destruct (push d c) as [d1 o1]. rewrite IH.
    destruct (push d1 (concat chunks)). by rewrite app_assoc.
Qed.

(** how the transport splits the stream into reads is irrelevant: feeding
    the chunks one by one gives the state and the frames of feeding their
    concatenation. *)
Theorem deframer_chunking_irrelevant `{PostcardOps MeshFrame} `{CobsOps} `{CrcOps}
    (d : Deframer) (chunks : list bytes) :
  push_chunks d chunks = push d (concat chunks).
Proof. unfold push_chunks. rewrite push_chunks_acc. by destruct (push d (concat chunks)). Qed.

(** exact fit.  A well-formed wire frame whose body carries extra bytes
    after the encoded [MeshFrame] (with a correct checksum) is rejected;
    without extra bytes it decodes to the frame. *)
Theorem decode_frame_exact_fit `{PostcardLaws MeshFrame} `{CobsLaws} `{CrcLaws}
    (f : MeshFrame) (b rider : bytes) :
  to_allocvec f = Some b -> is_bytes rider ->
  decode_frame (cobs_encode ((b ++ rider) ++ le_bytes 4 (crc32 (b ++ rider)))) =
  match rider with [] => Ok f | _ :: _ => Err Postcard end.
Proof.
  intros Hb Hr. apply decode_checked_body; eauto using postcard_nonempty, postcard_bytes, postcard_roundtrip.
Qed.

Lemma decode_frame_exact_fit_witness :
  decode_frame (cobs_encode ((toy_frame_bytes frame_a ++ [5]) ++
    le_bytes 4 (crc32 (toy_frame_bytes frame_a ++ [5])))) = Err Postcard.
Proof.
  apply (decode_frame_exact_fit frame_a (toy_frame_bytes frame_a) [5]);
    [reflexivity | by repeat constructor].
Defined.
