(* ===== verification/Replay.v ===== *)
(** * The crypto envelope and anti-replay state

    [apexos-mesh-proto/src/crypto.rs]: nonce and AAD layouts, [seal]/[open],
    the 64-entry sliding replay window, the never-evict table of windows, its
    packed flash records, and the two counter-reservation helpers. *)
From S2P Require Import Prelude Wire Codecs.

(** ** Nonce, AAD, seal and open *)

Definition nonce_for (sender ctr : Z) : bytes := le_bytes 2 sender ++ le_bytes 8 ctr ++ [0; 0].

Definition header_aad (ver : Z) (class : MeshClass) (sender ctr : Z) : bytes :=
  [ver; u8_from_class class] ++ le_bytes 2 sender ++ le_bytes 8 ctr.

(** [struct Psk(pub [u8; 32])]. *)
Record Psk := mkPsk { psk_bytes : bytes }.

Section Envelope.
Context `{!PostcardOps PlainPacket} `{!AeadOps}.

Definition seal (psk : Psk) (class : MeshClass) (sender ctr : Z) (packet : PlainPacket)
    : result MeshFrame Error :=
  if ctr =? 0 then Err ZeroCounter
  else
    plain <-! ok_or (to_allocvec packet) Postcard;
    let nonce := nonce_for sender ctr in
    ct <-! ok_or (aead_encrypt (psk_bytes psk) nonce
                    (header_aad WIRE_VERSION class sender ctr) plain) Crypto;
    Ok (mkFrame WIRE_VERSION class sender ctr ct).

Definition open (psk : Psk) (frame : MeshFrame) : result PlainPacket Error :=
  if negb (ver frame =? WIRE_VERSION) then Err Crypto
  else if ctr frame =? 0 then Err ZeroCounter
  else
    let nonce := nonce_for (sender frame) (ctr frame) in
    plain <-! ok_or (aead_decrypt (psk_bytes psk) nonce
                       (header_aad (ver frame) (class frame) (sender frame) (ctr frame))
                       (ct frame)) Crypto;
    p <-! ok_or (take_from_bytes plain) Postcard;
    match p with
    | (packet, []) => Ok packet
    | (_, _ :: _) => Err Postcard
    end.

Definition seal_blob (psk : Psk) (nonce aad plain : bytes) : result bytes Error :=
  ok_or (aead_encrypt (psk_bytes psk) nonce aad plain) Crypto.

Definition open_blob (psk : Psk) (nonce aad ct : bytes) : result bytes Error :=
  ok_or (aead_decrypt (psk_bytes psk) nonce aad ct) Crypto.

End Envelope.

(** ** The sliding window *)

Record ReplayWindow := mkWindow { highest : Z; bitmap : Z }.

#[export] Instance ReplayWindow_eq_dec : EqDecision ReplayWindow.
Proof. solve_decision. Defined.

Definition SIZE : Z := 64.
Definition window_new : ReplayWindow := mkWindow 0 0.
Definition parts (w : ReplayWindow) : Z * Z := (highest w, bitmap w).
Definition from_parts (highest bitmap : Z) : ReplayWindow := mkWindow highest bitmap.

(** [check_and_accept]: the new window and the verdict.  [<<] on [u64] drops
    the bits above 63. *)
Definition check_and_accept (w : ReplayWindow) (ctr : Z) : ReplayWindow * bool :=
  if ctr =? 0 then (w, false)
  else if highest w <? ctr then
    let shift := ctr - highest w in
    let bm := if SIZE <=? shift then 0 else as_u64 (Z.shiftl (bitmap w) shift) in
    (mkWindow ctr (Z.lor bm 1), true)
  else
    let offset := highest w - ctr in
    if SIZE <=? offset then (w, false)
    else
      let bit := Z.shiftl 1 offset in
      if negb (Z.land (bitmap w) bit =? 0) then (w, false)
      else (mkWindow (highest w) (Z.lor (bitmap w) bit), true).

(** ** The never-evict table *)

Definition MAX_REPLAY_SENDERS : nat := 16.
Definition REPLAY_SLOT_BYTES : Z := 18.

Inductive ReplayAdmit := Fresh | Replay | TableFull.

#[export] Instance ReplayAdmit_eq_dec : EqDecision ReplayAdmit.
Proof. solve_decision. Defined.

Abbreviation ReplayTable := (list (option (Z * ReplayWindow))).

Definition replay_table_new : ReplayTable := replicate MAX_REPLAY_SENDERS None.

(** [matches!(s, Some((id, _)) if *id == node_id)]. *)
Definition slot_is (node_id : Z) (s : option (Z * ReplayWindow)) : bool :=
  match s with Some (id, _) => id =? node_id | None => false end.

Definition replay_accept (t : ReplayTable) (node_id ctr : Z) : ReplayTable * ReplayAdmit :=
  match position (slot_is node_id) t with
  | Some i =>
      match t !! i with
      | Some (Some (id, w)) =>
          let '(w', fresh) := check_and_accept w ctr in
          (<[i := Some (id, w')]> t, if fresh then Fresh else Replay)
      | _ => (t, Replay)
      end
  | None =>
      match position is_noneb t with
      | None => (t, TableFull)
      | Some i =>
          let '(w, fresh) := check_and_accept window_new ctr in
          if fresh then (<[i := Some (node_id, w)]> t, Fresh) else (t, Replay)
      end
  end.

Definition replay_len (t : ReplayTable) : nat := occupied t.

(** ** Packed records *)

Definition encode_replay_slot (node_id : Z) (window : ReplayWindow) : bytes :=
  let '(h, b) := parts window in le_bytes 2 node_id ++ le_bytes 8 h ++ le_bytes 8 b.

Definition decode_replay_slot (b : bytes) : option (Z * ReplayWindow) :=
  if zlen b <? REPLAY_SLOT_BYTES then None
  else Some (of_le (slice 0 2 b), from_parts (of_le (slice 2 10 b)) (of_le (slice 10 18 b))).

Definition replay_encode_slot (t : ReplayTable) (i : nat) : option bytes :=
  match t !! i with
  | Some (Some (id, w)) => Some (encode_replay_slot id w)
  | _ => None
  end.

Definition replay_load_slot (t : ReplayTable) (b : bytes) : ReplayTable * bool :=
  match decode_replay_slot b with
  | None => (t, false)
  | Some (id, w) =>
      if existsb (slot_is id) t then (t, true)
      else
        match position is_noneb t with
        | Some i => (<[i := Some (id, w)]> t, true)
        | None => (t, false)
        end
  end.

(** ** Counter reservation helpers *)

Definition reserve_from_stored (stored : result (option Z) unit) (step : Z)
    : result (Z * Z) unit :=
  match stored with
  | Err tt => Err tt
  | Ok None => Ok (0, step)
  | Ok (Some v) => Ok (v, sat_add64 v step)
  end.

Definition next_provision_ctr (previous : option Z) : Z :=
  Z.max (sat_add64 (default 0 previous) 1) 1.

(** ** Abstract specification: the set of counters already accepted *)

(** [w] represents the accepted counters [seen]: [highest] is their maximum
    (0 for none) and bit [i] says whether [highest - i] is among them. *)
Record window_rep (w : ReplayWindow) (seen : Z -> Prop) : Prop := {
  wr_bound c : seen c -> 1 <= c <= highest w;
  wr_top : highest w = 0 \/ seen (highest w);
  wr_bits i : 0 <= i < SIZE -> Z.testbit (bitmap w) i = true <-> seen (highest w - i);
  wr_nonneg : 0 <= bitmap w;
  wr_high i : SIZE <= i -> Z.testbit (bitmap w) i = false
}.

(** What the window promises: accept exactly the counters that are not zero,
    not yet accepted, and at most 63 below the highest accepted one. *)
Definition spec_fresh (seen : Z -> Prop) (hi c : Z) : Prop :=
  c <> 0 /\ ~ seen c /\ hi - c < SIZE.

(** [t] represents, for every sender, the counters accepted from it. *)
Record table_rep (t : ReplayTable) (seen : Z -> Z -> Prop) : Prop := {
  tr_unique i j id w w' :
    t !! i = Some (Some (id, w)) -> t !! j = Some (Some (id, w')) -> i = j;
  tr_windows i id w : t !! i = Some (Some (id, w)) -> window_rep w (seen id);
  tr_known id c : seen id c -> exists i w, t !! i = Some (Some (id, w))
}.

(** Offer a list of [(sender, counter)] pairs in turn; collect the fresh ones. *)
Fixpoint offer_all (t : ReplayTable) (l : list (Z * Z)) : ReplayTable * list (Z * Z) :=
  match l with
  | [] => (t, [])
  | (id, c) :: l =>
      let '(t1, r) := replay_accept t id c in
      let '(t2, acc) := offer_all t1 l in
      (t2, if decide (r = Fresh) then (id, c) :: acc else acc)
  end.

(** The window a table holds for a sender. *)
Definition window_of (t : ReplayTable) (id : Z) : option ReplayWindow :=
  i ← position (slot_is id) t; s ← t !! i; snd <$> s.

(** ** Window lemmas *)

Lemma testbit_one i : 0 <= i -> Z.testbit 1 i = (i =? 0).
Proof.
  intros Hi. change 1 with (2 ^ 0). rewrite Z.pow2_bits_eqb by lia. lia.
Qed.

Lemma land_bit_zero b k : 0 <= k -> (Z.land b (Z.shiftl 1 k) =? 0) = negb (Z.testbit b k).
Proof.
  intros Hk. rewrite Z.shiftl_1_l. destruct (Z.testbit b k) eqn:E; simpl.
  - apply Z.eqb_neq. intros H0. apply (f_equal (fun z => Z.testbit z k)) in H0.
    rewrite Z.land_spec, Z.pow2_bits_true, E, Z.bits_0 in H0 by lia. done.
  - apply Z.eqb_eq, Z.bits_inj. intros i. rewrite Z.land_spec, Z.bits_0.
    rewrite Z.pow2_bits_eqb by lia. destruct (Z.eqb_spec k i) as [<-|]; [by rewrite E|].
    apply andb_false_r.
Qed.

Lemma as_u64_bits z i : 0 <= i -> Z.testbit (as_u64 z) i = (i <? 64) && Z.testbit z i.
Proof.
  intros Hi. unfold as_u64. change 18446744073709551616 with (2 ^ 64).
  destruct (Z.ltb_spec i 64); simpl.
  - apply Z.mod_pow2_bits_low; lia.
  - apply Z.mod_pow2_bits_high; lia.
Qed.

Lemma u64_of_bits b : 0 <= b -> (forall i, SIZE <= i -> Z.testbit b i = false) -> is_u64 b.
Proof.
  intros Hb Hbits. unfold SIZE in Hbits. enough (b = b mod 2 ^ 64) as E.
  { pose proof (Z.mod_pos_bound b (2 ^ 64)). ulia. }
  apply Z.bits_inj'. intros i Hi. destruct (Z.ltb_spec i 64).
  - by rewrite Z.mod_pow2_bits_low by lia.
  - rewrite Z.mod_pow2_bits_high by lia. apply Hbits. lia.
Qed.

Lemma window_new_rep : window_rep window_new (fun _ => False).
Proof.
  split; cbn [highest bitmap window_new].
  - done.
  - by left.
  - intros i Hi. by rewrite Z.bits_0.
  - done.
  - intros i _. by rewrite Z.bits_0.
Qed.

Lemma window_rep_ext w P Q : (forall c, P c <-> Q c) -> window_rep w P -> window_rep w Q.
Proof.
  intros E [H1 H2 H3 H4 H5]. split; auto.
  - intros c Hc. apply H1. by apply E.
  - rewrite <- E. done.
  - intros i Hi. rewrite <- E. auto.
Qed.

(** The bits after moving the window up by [s] and marking its new top. *)
Lemma advance_bits bm s i :
  0 < s -> 0 <= i ->
  Z.testbit (Z.lor (if SIZE <=? s then 0 else as_u64 (Z.shiftl bm s)) 1) i =
  (i =? 0) || ((s <=? i) && (i <? SIZE) && Z.testbit bm (i - s)).
Proof.
  intros Hs Hi. rewrite Z.lor_spec, testbit_one by done. unfold SIZE.
  destruct (Z.leb_spec 64 s).
  - rewrite Z.bits_0. simpl. destruct (Z.eqb_spec i 0); [done|]. simpl.
    destruct (Z.leb_spec s i); [|done]. destruct (Z.ltb_spec i 64); [lia|done].
  - rewrite as_u64_bits, Z.shiftl_spec by done. destruct (Z.eqb_spec i 0); [by rewrite orb_true_r|].
    rewrite orb_false_r. simpl. destruct (Z.leb_spec s i); simpl; [done|].
    by rewrite (Z.testbit_neg_r bm), andb_false_r by lia.
Qed.

Lemma accept_advance w seen c :
  window_rep w seen -> 0 < c -> highest w < c ->
  window_rep (check_and_accept w c).1 (fun x => x = c \/ seen x).
Proof.
  intros [Hb Ht Hbits Hn Hh] Hc Hlt. unfold check_and_accept.
  destruct (Z.eqb_spec c 0); [lia|]. destruct (Z.ltb_spec (highest w) c); [|lia].
  assert (0 <= highest w) by (destruct Ht as [->|Ht]; [lia|apply Hb in Ht; lia]).
  split; simpl.
  - intros x [->|Hx]; [lia|]. apply Hb in Hx. lia.
  - by right; left.
  - intros i Hi. rewrite advance_bits by lia.
    rewrite orb_true_iff, !andb_true_iff, Z.eqb_eq, Z.leb_le, Z.ltb_lt. split.
    + intros [->|[[? ?] Hbit]]; [left; lia|]. right. apply Hbits in Hbit; [|lia].
      by replace (c - i) with (highest w - (i - (c - highest w))) by lia.
    + intros [?|Hx]; [left; lia|]. right. pose proof (Hb _ Hx). split; [lia|].
      apply Hbits; [lia|]. by replace (highest w - (i - (c - highest w))) with (c - i) by lia.
  - apply Z.lor_nonneg. split; [|lia]. destruct (SIZE <=? _); [lia|].
    apply Z.mod_pos_bound; lia.
  - intros i Hi. unfold SIZE in *. rewrite advance_bits by lia. unfold SIZE.
    destruct (Z.eqb_spec i 0), (Z.ltb_spec i 64); lia.
Qed.

Lemma mark_rep w seen c :
  window_rep w seen -> 0 < c -> 0 <= highest w - c < SIZE ->
  window_rep (mkWindow (highest w) (Z.lor (bitmap w) (Z.shiftl 1 (highest w - c))))
    (fun x => x = c \/ seen x).
Proof.
  intros [Hb Ht Hbits Hn Hh] Hc Ho. split; simpl; unfold SIZE in *.
  - intros x [->|Hx]; [lia|]. by apply Hb.
  - destruct Ht; [by left|by right; right].
  - intros i Hi. rewrite Z.shiftl_1_l, Z.lor_spec, Z.pow2_bits_eqb by lia.
    rewrite orb_true_iff, Z.eqb_eq, Hbits by done. split; intros [?|?]; auto; [left|right]; lia.
  - apply Z.lor_nonneg. split; [done|]. rewrite Z.shiftl_1_l. lia.
  - intros i Hi. rewrite Z.shiftl_1_l, Z.lor_spec, Hh by lia.
    rewrite Z.pow2_bits_false by lia. done.
Qed.

Lemma accept_verdict w seen c :
  window_rep w seen -> 0 <= c -> (check_and_accept w c).2 = true <-> spec_fresh seen (highest w) c.
Proof.
  intros [Hb Ht Hbits Hn Hh] Hc. unfold check_and_accept, spec_fresh.
  destruct (Z.eqb_spec c 0) as [->|H0]; simpl; [split; [done|]; intros [? _]; done|].
  destruct (Z.ltb_spec (highest w) c); simpl.
  - split; [|done]. intros _. split_and!; [done| |unfold SIZE; lia]. intros Hs. apply Hb in Hs. lia.
  - destruct (Z.leb_spec SIZE (highest w - c)); simpl.
    { split; [done|]. lia. }
    rewrite land_bit_zero by lia. rewrite negb_involutive.
    assert (Z.testbit (bitmap w) (highest w - c) = true <-> seen c) as E.
    { rewrite Hbits by lia. by replace (highest w - (highest w - c)) with c by lia. }
    destruct (Z.testbit _ _); simpl.
    + split; [done|]. intros (_ & Hns & _). destruct Hns. by apply E.
    + split; [|done]. intros _. split_and!; [done| |lia]. intros Hs. by apply E in Hs.
Qed.

Lemma accept_rep w seen c :
  window_rep w seen -> 0 <= c ->
  window_rep (check_and_accept w c).1
    (fun x => ((check_and_accept w c).2 = true /\ x = c) \/ seen x).
Proof.
  intros Hw Hc. destruct (check_and_accept w c).2 eqn:E.
  - apply (window_rep_ext _ (fun x => x = c \/ seen x)); [intros x; tauto|].
    apply (accept_verdict w seen c Hw Hc) in E as (H0 & Hns & Hlt).
    destruct (Z.ltb_spec (highest w) c); [apply accept_advance; (done || lia)|].
    pose proof (accept_verdict w seen c Hw Hc) as [_ Hv].
    specialize (Hv (conj H0 (conj Hns Hlt))). revert Hv. unfold check_and_accept.
    destruct (Z.eqb_spec c 0); [done|]. destruct (Z.ltb_spec (highest w) c); [lia|].
    destruct (Z.leb_spec SIZE (highest w - c)); [done|].
    destruct (negb _); [done|]. intros _. apply mark_rep; (done || lia).
  - apply (window_rep_ext _ seen); [intros x; intuition congruence|]. revert E. unfold check_and_accept.
    repeat case_match; done.
Qed.

Lemma window_u64 w seen : window_rep w seen -> is_u64 (bitmap w).
Proof. intros [? ? ? ? ?]. by apply u64_of_bits. Qed.

(** ** Table lemmas *)

Lemma slot_is_true id s : slot_is id s = true <-> exists w, s = Some (id, w).
Proof.
  destruct s as [[id' w]|]; simpl; [|naive_solver].
  rewrite Z.eqb_eq. split; [intros ->; eauto|]. by intros (? & [= -> ->]).
Qed.

Lemma position_slot_Some id t i :
  position (slot_is id) t = Some i -> exists w, t !! i = Some (Some (id, w)).
Proof.
  intros [(s & Hs & Hp) _]%position_Some. apply slot_is_true in Hp as (w & ->). eauto.
Qed.

Lemma position_slot_None id t :
  position (slot_is id) t = None <-> forall j w, t !! j <> Some (Some (id, w)).
Proof.
  rewrite position_None. split.
  - intros H j w Hj. apply list_elem_of_lookup_2, H in Hj. simpl in Hj. by rewrite Z.eqb_refl in Hj.
  - intros H s Hs. destruct (slot_is id s) eqn:E; [|done].
    apply slot_is_true in E as (w & ->). apply list_elem_of_lookup_1 in Hs as (j & Hj). by destruct (H j w).
Qed.

Lemma position_free t i : position (@is_noneb (Z * ReplayWindow)) t = Some i -> t !! i = Some None.
Proof. intros [(s & Hs & Hp) _]%position_Some. by destruct s. Qed.

Lemma replay_new_lookup i s : replay_table_new !! i = Some s -> s = None.
Proof. unfold replay_table_new. intros [-> _]%lookup_replicate. done. Qed.

Lemma replay_new_rep : table_rep replay_table_new (fun _ _ => False).
Proof.
  split; [| |done].
  - intros i j id w w' Hi. by apply replay_new_lookup in Hi.
  - intros i id w Hi. by apply replay_new_lookup in Hi.
Qed.

Lemma table_rep_ext t P Q : (forall id c, P id c <-> Q id c) -> table_rep t P -> table_rep t Q.
Proof.
  intros E [H1 H2 H3]. split; [done| |].
  - intros i id w Hi. eapply window_rep_ext; [|by eauto]. done.
  - intros id c Hc. apply (H3 id c). by apply E.
Qed.

(** Writing a sender's window into its slot, or a free slot for a new sender. *)
Lemma table_set t seen seen' i id w' :
  table_rep t seen -> (i < length t)%nat ->
  (forall j w, t !! j = Some (Some (id, w)) -> j = i) ->
  (forall id2 w, t !! i = Some (Some (id2, w)) -> id2 = id) ->
  window_rep w' (seen' id) ->
  (forall id2 x, id2 <> id -> seen' id2 x <-> seen id2 x) ->
  table_rep (<[i := Some (id, w')]> t) seen'.
Proof.
  intros [Hu Hw Hk] Hi Hid Hslot Hw' Heq.
  assert (forall j s, <[i := Some (id, w')]> t !! j = Some s ->
    (j = i /\ s = Some (id, w')) \/ (j <> i /\ t !! j = Some s)) as Hinv.
  { intros j s. destruct (decide (j = i)) as [->|Hne].
    - rewrite list_lookup_insert_eq by done. intros [= <-]. auto.
    - rewrite list_lookup_insert_ne by done. auto. }
  split.
  - intros j1 j2 id2 w1 w2 [[-> E1]|[Hn1 E1]]%Hinv [[-> E2]|[Hn2 E2]]%Hinv; simplify_eq; try done.
    + by apply Hid in E2.
    + by apply Hid in E1.
    + by eapply Hu.
  - intros j id2 w2 [[-> E1]|[Hn1 E1]]%Hinv; simplify_eq; [done|].
    assert (id2 <> id) by (intros ->; by apply Hid in E1).
    eapply window_rep_ext; [|by eapply Hw]. intros c. symmetry. by apply Heq.
  - intros id2 c Hc. destruct (decide (id2 = id)) as [->|Hne].
    + exists i, w'. by rewrite list_lookup_insert_eq.
    + apply Heq in Hc as (j & w & Hj)%Hk; [|done]. exists j, w.
      rewrite list_lookup_insert_ne; [done|]. intros <-. apply Hslot in Hj. done.
Qed.

Lemma replay_accept_rep t seen id c :
  table_rep t seen -> 0 <= c ->
  table_rep (replay_accept t id c).1
    (fun i x => ((replay_accept t id c).2 = Fresh /\ i = id /\ x = c) \/ seen i x) /\
  ((replay_accept t id c).2 = Fresh -> ~ seen id c).
Proof.
  intros Ht Hc. unfold replay_accept.
  destruct (position (slot_is id) t) as [i|] eqn:Epos.
  - apply position_slot_Some in Epos as (w & Hi). rewrite Hi.
    pose proof (tr_windows _ _ Ht _ _ _ Hi) as Hw.
    pose proof (accept_verdict w (seen id) c Hw Hc) as Hv.
    pose proof (accept_rep w (seen id) c Hw Hc) as Hr.
    destruct (check_and_accept w c) as [w' b]; simpl in *. split.
    + apply (table_set _ seen); [done|by eapply lookup_lt_Some| | | |].
      * intros j w2 Hj. by eapply (tr_unique _ _ Ht).
      * intros id2 w2 Hj. by simplify_eq.
      * eapply window_rep_ext; [|exact Hr]. intros x. destruct b; naive_solver.
      * intros id2 x Hne. naive_solver.
    + destruct b; [|done]. intros _. by apply Hv.
  - pose proof (proj1 (position_slot_None _ _) Epos) as Hnone.
    assert (forall x, ~ seen id x) as Hns.
    { intros x (j & w & Hj)%(tr_known _ _ Ht). by eapply Hnone. }
    destruct (position is_noneb t) as [i|] eqn:Efree; simpl.
    + apply position_free in Efree.
      pose proof (accept_rep window_new _ c window_new_rep Hc) as Hr.
      destruct (check_and_accept window_new c) as [w' b]; simpl in *. destruct b; simpl.
      * split; [|naive_solver]. apply (table_set _ seen); [done|by eapply lookup_lt_Some| | | |].
        -- intros j w2 Hj. by destruct (Hnone j w2).
        -- intros id2 w2 Hj. by simplify_eq.
        -- eapply window_rep_ext; [|exact Hr]. intros x. naive_solver.
        -- intros id2 x Hne. naive_solver.
      * split; [|done]. eapply table_rep_ext; [|exact Ht]. naive_solver.
    + split; [|done]. eapply table_rep_ext; [|exact Ht]. naive_solver.
Qed.

Lemma position_insert_other {A} (p : A -> bool) l i x y :
  l !! i = Some x -> p x = false -> p y = false -> position p (<[i := y]> l) = position p l.
Proof.
  revert i; induction l as [|a l IH]; intros i Hi Hx Hy; [done|]. destruct i as [|i]; simplify_eq/=.
  - by rewrite Hx, Hy.
  - by rewrite IH.
Qed.

(** Writing the slot of one sender does not change what another one finds. *)
Lemma window_of_insert_ne t i id id' s w' :
  t !! i = Some s -> id' <> id -> (s = None \/ exists w, s = Some (id, w)) ->
  window_of (<[i := Some (id, w')]> t) id' = window_of t id'.
Proof.
  intros Hi Hne Hs. unfold window_of.
  assert (slot_is id' s = false) as Hf.
  { destruct Hs as [->|(w & ->)]; simpl; [done|]. apply Z.eqb_neq. congruence. }
  rewrite (position_insert_other _ _ _ s) by (done || apply Z.eqb_neq; congruence).
  destruct (position (slot_is id') t) as [j|] eqn:Ej; [|done]. simpl.
  destruct (position_slot_Some _ _ _ Ej) as (w & Hj).
  rewrite list_lookup_insert_ne; [done|]. intros <-. simplify_eq.
  simpl in Hf. by rewrite Z.eqb_refl in Hf.
Qed.

Lemma offer_all_fresh t seen l :
  table_rep t seen -> Forall (fun p => 0 <= p.2) l ->
  NoDup (offer_all t l).2 /\ forall id c, (id, c) ∈ (offer_all t l).2 -> ~ seen id c.
Proof.
  intros Ht Hl. revert t seen Ht; induction Hl as [|[id c] l Hc Hl IH]; intros t seen Ht; simpl.
  { split; [constructor|]. intros id c H. by apply not_elem_of_nil in H. }
  pose proof (replay_accept_rep t seen id c Ht Hc) as [Hr Hf].
  destruct (replay_accept t id c) as [t1 r]; simpl in *.
  specialize (IH t1 _ Hr) as [Hnd Hnew]. destruct (offer_all t1 l) as [t2 acc]; simpl in *.
  case_decide as Hfr; simpl.
  - split.
    + constructor; [|done]. intros Hin. apply Hnew in Hin. tauto.
    + intros id' c' [[= -> ->]|Hin]%elem_of_cons; [auto|]. apply Hnew in Hin. tauto.
  - split; [done|]. intros id' c' Hin. apply Hnew in Hin. tauto.
Qed.

(** Why an offer is answered [Replay] or [TableFull]; neither changes a window. *)
Lemma accept_refused w seen c :
  window_rep w seen -> 0 <= c -> (check_and_accept w c).2 = false ->
  (check_and_accept w c).1 = w /\ (c = 0 \/ seen c \/ exists h, seen h /\ SIZE <= h - c).
Proof.
  intros [Hb Ht Hbits Hn Hh] Hc. unfold check_and_accept.
  destruct (Z.eqb_spec c 0) as [->|H0]; [by auto|].
  destruct (Z.ltb_spec (highest w) c); [done|].
  destruct (Z.leb_spec SIZE (highest w - c)); simpl.
  - intros _. split; [done|]. right; right. exists (highest w). split; [|done].
    destruct Ht as [E|]; [|done]. unfold SIZE in *. lia.
  - rewrite land_bit_zero, negb_involutive by lia. destruct (Z.testbit _ _) eqn:E; [|done].
    intros _. split; [done|]. right; left. apply Hbits in E; [|lia].
    by replace (highest w - (highest w - c)) with c in E by lia.
Qed.

Lemma replay_accept_refused t seen id c :
  table_rep t seen -> 0 <= c -> (replay_accept t id c).2 <> Fresh ->
  (replay_accept t id c).1 = t /\
  ((replay_accept t id c).2 = Replay -> c = 0 \/ seen id c \/ exists h, seen id h /\ SIZE <= h - c).
Proof.
  intros Ht Hc. unfold replay_accept.
  destruct (position (slot_is id) t) as [i|] eqn:Epos.
  - apply position_slot_Some in Epos as (w & Hi). rewrite Hi.
    pose proof (accept_refused w (seen id) c (tr_windows _ _ Ht _ _ _ Hi) Hc) as Hr.
    destruct (check_and_accept w c) as [w' []]; simpl in *; [done|].
    destruct (Hr eq_refl) as [-> Hwhy]. intros _. split; [|done]. by apply list_insert_id.
  - destruct (position is_noneb t) as [i|]; simpl; [|done].
    pose proof (accept_refused window_new _ c window_new_rep Hc) as Hr.
    destruct (check_and_accept window_new c) as [w' []]; simpl in *; [done|].
    intros _. split; [done|]. intros _. destruct (Hr eq_refl) as (_ & [?|[[]|(? & [] & _)]]). auto.
Qed.

(** A pair already accepted is refused as a replay, and nothing changes. *)
Lemma replay_accept_seen t seen id c :
  table_rep t seen -> seen id c -> replay_accept t id c = (t, Replay).
Proof.
  intros Ht Hs. destruct (tr_known _ _ Ht _ _ Hs) as (i & w & Hi).
  pose proof (tr_windows _ _ Ht _ _ _ Hi) as Hw. pose proof (wr_bound _ _ Hw _ Hs) as Hb.
  destruct (replay_accept_refused t seen id c Ht ltac:(lia)) as [E _].
  { intros E. by apply (replay_accept_rep t seen id c Ht ltac:(lia)) in E. }
  revert E. unfold replay_accept.
  destruct (position (slot_is id) t) as [j|] eqn:Epos.
  - pose proof (position_slot_Some _ _ _ Epos) as (w' & Hj). rewrite Hj.
    assert (i = j) as <- by (by eapply (tr_unique _ _ Ht)).
    rewrite Hi in Hj. injection Hj as <-.
    pose proof (accept_verdict w (seen id) c Hw ltac:(lia)) as Hv.
    destruct (check_and_accept w c) as [w2 []]; simpl in *; [|by intros ->].
    exfalso. by apply (proj1 Hv eq_refl).
  - exfalso. by eapply (proj1 (position_slot_None _ _) Epos).
Qed.

(** ** Records *)

Lemma zlen_encode_replay_slot id w : zlen (encode_replay_slot id w) = REPLAY_SLOT_BYTES.
Proof. unfold encode_replay_slot, REPLAY_SLOT_BYTES; simpl. zlen_lia. Qed.

Lemma decode_encode_replay_slot id w tail :
  is_u16 id -> is_u64 (highest w) -> is_u64 (bitmap w) ->
  decode_replay_slot (encode_replay_slot id w ++ tail) = Some (id, w).
Proof.
  intros Hid Hh Hb. unfold decode_replay_slot. rewrite zlen_app, zlen_encode_replay_slot.
  destruct (Z.ltb_spec (REPLAY_SLOT_BYTES + zlen tail) REPLAY_SLOT_BYTES); [zlen_lia|].
  change (encode_replay_slot id w)
    with (le_bytes 2 id ++ le_bytes 8 (highest w) ++ le_bytes 8 (bitmap w)).
  rewrite <- !app_assoc. slice_steps.
  rewrite !of_le_le_bytes by (cbn; ulia). by destruct w.
Qed.

(** ** Properties *)

(** C38: the bitmap window implements its specification: a counter is accepted
    exactly when it is nonzero, not accepted before, and within 64 of the
    highest accepted one; afterwards the state represents the enlarged set,
    in 64 bits. *)
Theorem replay_window_refines (w : ReplayWindow) (seen : Z -> Prop) (c : Z) :
  window_rep w seen -> is_u64 c ->
  ((check_and_accept w c).2 = true <-> spec_fresh seen (highest w) c) /\
  window_rep (check_and_accept w c).1
    (fun x => ((check_and_accept w c).2 = true /\ x = c) \/ seen x) /\
  is_u64 (bitmap (check_and_accept w c).1).
Proof.
  intros Hw Hc. assert (0 <= c) by ulia. split_and!; [by apply accept_verdict|by apply accept_rep|].
  by eapply window_u64, accept_rep.
Qed.

Lemma replay_window_refines_witness :
  (check_and_accept window_new 70).2 = true <-> spec_fresh (fun _ => False) 0 70.
Proof. apply (replay_window_refines window_new _ 70 window_new_rep). by vm_compute. Defined.

(** C13: no replay is ever admitted: whatever is offered to the table, in any
    order and from any senders, a [(sender, counter)] pair is answered [Fresh]
    at most once. *)
Theorem replay_table_at_most_once (offers : list (Z * Z)) :
  Forall (fun p => is_u16 p.1 /\ is_u64 p.2) offers ->
  NoDup (offer_all replay_table_new offers).2.
Proof.
  intros Hl. eapply offer_all_fresh; [apply replay_new_rep|].
  eapply Forall_impl; [exact Hl|]. intros [id c] [_ H]; simpl in *. ulia.
Qed.

Lemma replay_table_at_most_once_witness :
  NoDup (offer_all replay_table_new [(1, 5); (2, 5); (1, 5); (1, 4)]).2.
Proof. apply replay_table_at_most_once. repeat constructor; vm_compute; congruence. Defined.

(** security state is never evicted.  An offer leaves every other sender's
    window as it was; a full table refuses the unknown sender and changes
    nothing at all. *)
Theorem replay_table_never_evicts (t : ReplayTable) (id c : Z) :
  (forall id', id' <> id -> window_of (replay_accept t id c).1 id' = window_of t id') /\
  ((replay_accept t id c).2 = TableFull ->
     (replay_accept t id c).1 = t /\ window_of t id = None /\ replay_len t = length t).
Proof.
  unfold replay_accept. destruct (position (slot_is id) t) as [i|] eqn:Epos.
  - destruct (position_slot_Some _ _ _ Epos) as (w & Hi). rewrite Hi.
    destruct (check_and_accept w c) as [w' b]; simpl. split; [|by destruct b].
    intros id' Hne. eapply window_of_insert_ne; [done|done|eauto].
  - destruct (position is_noneb t) as [i|] eqn:Efree; simpl.
    + apply position_free in Efree.
      destruct (check_and_accept window_new c) as [w' [|]]; simpl; (split; [|done]).
      * intros id' Hne. eapply window_of_insert_ne; [done|done|by left].
      * done.
    + split; [done|]. intros _. split_and!; [done| |by apply occupied_full].
      unfold window_of. by rewrite Epos.
Qed.

(** nonces are unique per message: distinct [(sender, counter)] pairs give
    distinct 12-byte AEAD nonces. *)
Theorem nonce_for_injective (s s' c c' : Z) :
  is_u16 s -> is_u16 s' -> is_u64 c -> is_u64 c' ->
  nonce_for s c = nonce_for s' c' -> s = s' /\ c = c'.
Proof.
  intros Hs Hs' Hc Hc' E. unfold nonce_for in E.
  apply app_inj_1 in E as [E1 E2]; [|by rewrite !le_bytes_length].
  apply app_inj_1 in E2 as [E2 _]; [|by rewrite !le_bytes_length].
  split; [apply (le_bytes_inj 2)|apply (le_bytes_inj 8)]; (done || simpl; ulia).
Qed.

Lemma nonce_for_injective_witness : 7 = 7 /\ 300 = 300.
Proof. apply (nonce_for_injective 7 7 300 300); try (vm_compute; split; congruence); reflexivity. Defined.

Lemma seal_opens `{PostcardLaws PlainPacket} `{AeadLaws}
    (psk : Psk) (cl : MeshClass) (s c : Z) (p : PlainPacket) (f : MeshFrame) :
  seal psk cl s c p = Ok f ->
  open psk f = Ok p /\ ver f = WIRE_VERSION /\ class f = cl /\ sender f = s /\ ctr f = c /\ c <> 0.
Proof.
  unfold seal. destruct (Z.eqb_spec c 0); [done|].
  destruct (to_allocvec p) as [b|] eqn:Eb; simpl; [|done].
  destruct (aead_encrypt _ _ _ _) as [x|] eqn:Ex; simpl; [|done]. intros [= <-].
  unfold open; simpl. destruct (Z.eqb_spec c 0); [done|].
  rewrite (aead_roundtrip _ _ _ _ _ Ex). simpl.
  rewrite <- (app_nil_r b), (postcard_roundtrip p) by done. done.
Qed.

(** sealing then opening under the same key gives the packet back; a frame
    whose version is not the current one or whose counter is 0 is refused
    whatever its ciphertext. *)
Theorem open_seal_roundtrip `{PostcardLaws PlainPacket} `{AeadLaws}
    (psk : Psk) (cl : MeshClass) (s c : Z) (p : PlainPacket) (f : MeshFrame) :
  seal psk cl s c p = Ok f ->
  open psk f = Ok p /\ ver f = WIRE_VERSION /\ class f = cl /\ sender f = s /\ ctr f = c /\ c <> 0 /\
  (forall v, v <> WIRE_VERSION -> open psk (mkFrame v cl s c (ct f)) = Err Crypto) /\
  open psk (mkFrame WIRE_VERSION cl s 0 (ct f)) = Err ZeroCounter.
Proof.
  intros (Ho & Hv & Hcl & Hs & Hc & Hnz)%seal_opens. split_and!; try done.
  intros v Hne. unfold open; simpl. by destruct (Z.eqb_spec v WIRE_VERSION).
Qed.

Definition toy_psk : Psk := mkPsk (le_bytes 32 12345).
Definition toy_packet : PlainPacket := mkPacket 3 4 1 (A2A [104; 105]).
Definition toy_sealed : MeshFrame :=
  match seal toy_psk Gossip 7 300 toy_packet with Ok f => f | Err _ => mkFrame 0 Gossip 0 0 [] end.

Lemma open_seal_roundtrip_witness : open toy_psk toy_sealed = Ok toy_packet.
Proof. apply (open_seal_roundtrip toy_psk Gossip 7 300 toy_packet toy_sealed). reflexivity. Defined.
