(* ===== verification/Inbox.v ===== *)
(** * The radio inbox (SA-2)

    [apexos-mesh-proto/src/inbox.rs]: addressed packets the brainstem holds
    until its host durably accepts them, their flash records, and the decision
    taken on each authenticated inbound frame. *)
From S2P Require Import Prelude Wire Replay.

Definition MAX_INBOX : nat := 8.
Definition INBOX_PACKET_MAX : Z := 256.
Definition INBOX_SLOT_BYTES : Z := 2 + 8 + 2 + INBOX_PACKET_MAX.

Record InboxSlot := mkInboxSlot {
  ib_sender : Z;
  ib_ctr : Z;
  ib_len : Z;
  ib_bytes : bytes
}.

#[export] Instance InboxSlot_eq_dec : EqDecision InboxSlot.
Proof. solve_decision. Defined.

(** [InboxSlot::packet]. *)
Definition packet (s : InboxSlot) : bytes :=
  take (Z.to_nat (Z.min (ib_len s) INBOX_PACKET_MAX)) (ib_bytes s).

Abbreviation InboxTable := (list (option InboxSlot)).

Definition inbox_new : InboxTable := replicate MAX_INBOX None.
Definition inbox_len (t : InboxTable) : nat := occupied t.
Definition inbox_is_empty (t : InboxTable) : bool := (inbox_len t =? 0)%nat.
Definition inbox_is_full (t : InboxTable) : bool := (inbox_len t =? MAX_INBOX)%nat.

(** [matches!(s, Some(e) if e.sender == sender && e.ctr == ctr)]. *)
Definition holds (sender ctr : Z) (s : option InboxSlot) : bool :=
  match s with Some e => (ib_sender e =? sender) && (ib_ctr e =? ctr) | None => false end.

Definition contains (t : InboxTable) (sender ctr : Z) : bool := existsb (holds sender ctr) t.

Inductive InboxRefuse := Full | RefuseTooLarge.

(** [copy_from_slice] of a packet into a zeroed [INBOX_PACKET_MAX] buffer. *)
Definition pad_packet (p : bytes) : bytes :=
  p ++ replicate (Z.to_nat INBOX_PACKET_MAX - length p) 0.

Definition inbox_insert (t : InboxTable) (sender ctr : Z) (packet : bytes)
    : InboxTable * result unit InboxRefuse :=
  if INBOX_PACKET_MAX <? zlen packet then (t, Err RefuseTooLarge)
  else if contains t sender ctr then (t, Ok tt)
  else
    match position is_noneb t with
    | None => (t, Err Full)
    | Some i =>
        (<[i := Some (mkInboxSlot sender ctr (as_u16 (zlen packet)) (pad_packet packet))]> t, Ok tt)
    end.

Definition inbox_take (t : InboxTable) (sender ctr : Z) : InboxTable * option InboxSlot :=
  match position (holds sender ctr) t with
  | Some i => (<[i := None]> t, t !! i ≫= id)
  | None => (t, None)
  end.

Definition inbox_iter (t : InboxTable) : list InboxSlot := omap id t.

(** ** Flash records *)

Definition encode_inbox_slot (s : InboxSlot) : bytes :=
  let n := Z.to_nat (ib_len s) in
  le_bytes 2 (ib_sender s) ++ le_bytes 8 (ib_ctr s) ++ le_bytes 2 (ib_len s)
  ++ take n (ib_bytes s) ++ replicate (Z.to_nat INBOX_PACKET_MAX - n) 0.

Definition decode_inbox_slot (b : bytes) : option InboxSlot :=
  if zlen b <? 12 then None
  else
    let sender := of_le (slice 0 2 b) in
    let ctr := of_le (slice 2 10 b) in
    let len := of_le (slice 10 12 b) in
    if INBOX_PACKET_MAX <? len then None
    else if zlen b <? 12 + len then None
    else Some (mkInboxSlot sender ctr len (pad_packet (slice 12 (12 + Z.to_nat len) b))).

(** [encode_slot]: a vacant slot still yields a (zeroed) record. *)
Definition inbox_encode_slot (t : InboxTable) (i : nat) : option bytes :=
  match t !! i with
  | None => None
  | Some (Some s) => Some (encode_inbox_slot s)
  | Some None => Some (replicate (Z.to_nat INBOX_SLOT_BYTES) 0)
  end.

Definition inbox_load_slot (t : InboxTable) (b : bytes) : InboxTable * bool :=
  match decode_inbox_slot b with
  | None => (t, false)
  | Some s =>
      if ib_len s =? 0 then (t, true)
      else let '(t', r) := inbox_insert t (ib_sender s) (ib_ctr s) (packet s) in (t', is_ok r)
  end.

(** ** What to do with one authenticated inbound frame *)

Inductive RadioInbound := Deliver | WaitHost | ReAck | Drop.

#[export] Instance RadioInbound_eq_dec : EqDecision RadioInbound.
Proof. solve_decision. Defined.

Definition decide_radio_inbound (replay : ReplayTable) (inbox : InboxTable) (sender ctr : Z)
    (packet : bytes) : ReplayTable * InboxTable * RadioInbound :=
  if contains inbox sender ctr then (replay, inbox, WaitHost)
  else if (INBOX_PACKET_MAX <? zlen packet) || inbox_is_full inbox then (replay, inbox, Drop)
  else
    match replay_accept replay sender ctr with
    | (replay', Fresh) => (replay', (inbox_insert inbox sender ctr packet).1, Deliver)
    | (replay', Replay) => (replay', inbox, ReAck)
    | (replay', TableFull) => (replay', inbox, Drop)
    end.

(** ** Well-formed tables *)

(** The packet held for a pair. *)
Definition held (t : InboxTable) (sender ctr : Z) : option bytes :=
  i ← position (holds sender ctr) t; s ← t !! i; packet <$> s.

Definition slot_ok (s : InboxSlot) : Prop :=
  is_u16 (ib_sender s) /\ is_u64 (ib_ctr s) /\ 0 <= ib_len s <= INBOX_PACKET_MAX /\
  is_bytes (ib_bytes s) /\ ib_bytes s = pad_packet (packet s) /\ zlen (ib_bytes s) = INBOX_PACKET_MAX.

Record inbox_ok (t : InboxTable) : Prop := {
  io_length : length t = MAX_INBOX;
  io_slots i s : t !! i = Some (Some s) -> slot_ok s;
  io_unique i j s s' :
    t !! i = Some (Some s) -> t !! j = Some (Some s') ->
    ib_sender s = ib_sender s' -> ib_ctr s = ib_ctr s' -> i = j
}.

(** ** Lemmas *)

Lemma holds_true se c s :
  holds se c s = true <-> exists e, s = Some e /\ ib_sender e = se /\ ib_ctr e = c.
Proof.
  destruct s as [e|]; simpl; [|naive_solver].
  rewrite andb_true_iff, !Z.eqb_eq. naive_solver.
Qed.

Lemma existsb_position {A} (p : A -> bool) l : existsb p l = is_someb (position p l).
Proof. induction l as [|a l IH]; [done|]. simpl. destruct (p a); [done|]. rewrite IH. by destruct (position p l). Qed.

Lemma contains_held t se c : contains t se c = is_someb (held t se c).
Proof.
  unfold contains, held. rewrite existsb_position.
  destruct (position (holds se c) t) as [i|] eqn:E; [|done]. simpl.
  apply position_Some in E as [(s & Hs & Hp) _]. apply holds_true in Hp as (e & -> & _).
  by rewrite Hs.
Qed.

Lemma zlen_pad p : zlen p <= INBOX_PACKET_MAX -> zlen (pad_packet p) = INBOX_PACKET_MAX.
Proof.
  unfold pad_packet, zlen, INBOX_PACKET_MAX. intros H. rewrite length_app, length_replicate. lia.
Qed.

Lemma is_bytes_replicate n : is_bytes (replicate n 0).
Proof. apply Forall_replicate. ulia. Qed.
#[export] Hint Resolve is_bytes_replicate : bytes.

Lemma packet_pad se c p :
  zlen p <= INBOX_PACKET_MAX -> packet (mkInboxSlot se c (as_u16 (zlen p)) (pad_packet p)) = p.
Proof.
  intros H. unfold packet, INBOX_PACKET_MAX in *; simpl. pose proof (zlen_nonneg p).
  replace (Z.to_nat (Z.min (as_u16 (zlen p)) 256)) with (length p)
    by (unfold as_u16; rewrite Z.mod_small by lia; unfold zlen in *; lia).
  unfold pad_packet. by rewrite take_app_length.
Qed.

Lemma slot_ok_insert se c p :
  is_u16 se -> is_u64 c -> is_bytes p -> zlen p <= INBOX_PACKET_MAX ->
  slot_ok (mkInboxSlot se c (as_u16 (zlen p)) (pad_packet p)).
Proof.
  intros Hs Hc Hb Hl. unfold slot_ok. rewrite packet_pad by done. simpl. split_and!; try done.
  - unfold as_u16. pose proof (Z.mod_pos_bound (zlen p) 65536). lia.
  - unfold as_u16, INBOX_PACKET_MAX in *. pose proof (zlen_nonneg p). rewrite Z.mod_small; lia.
  - unfold pad_packet. auto with bytes.
  - by apply zlen_pad.
Qed.

Lemma inbox_new_ok : inbox_ok inbox_new.
Proof.
  assert (forall i s, inbox_new !! i = Some (Some s) -> False) as H.
  { intros i s Hi. unfold inbox_new in Hi. by apply lookup_replicate in Hi as [? _]. }
  split; [done| |]; intros; exfalso; eauto.
Qed.

Lemma position_free_inbox (t : InboxTable) i : position is_noneb t = Some i -> t !! i = Some None.
Proof. intros [(s & Hs & Hp) _]%position_Some. by destruct s. Qed.

(** The three outcomes of an insertion. *)
Lemma inbox_insert_spec t se c p :
  zlen p <= INBOX_PACKET_MAX -> contains t se c = false -> inbox_is_full t = false ->
  length t = MAX_INBOX ->
  exists i, position is_noneb t = Some i /\
    inbox_insert t se c p =
    (<[i := Some (mkInboxSlot se c (as_u16 (zlen p)) (pad_packet p))]> t, Ok tt).
Proof.
  intros Hl Hc Hf Hlen. unfold inbox_insert. destruct (Z.ltb_spec INBOX_PACKET_MAX (zlen p)); [lia|].
  rewrite Hc. destruct (position is_noneb t) as [i|] eqn:E; [eauto|].
  apply occupied_full in E. unfold inbox_is_full, inbox_len in Hf. rewrite E, Hlen in Hf.
  by rewrite Nat.eqb_refl in Hf.
Qed.

Lemma inbox_set_ok t i s :
  inbox_ok t -> t !! i = Some None -> slot_ok s ->
  contains t (ib_sender s) (ib_ctr s) = false -> inbox_ok (<[i := Some s]> t).
Proof.
  intros [Hlen Hsl Hu] Hi Hs Hc. rewrite contains_held in Hc.
  assert (forall j e, t !! j = Some (Some e) -> ib_sender e = ib_sender s -> ib_ctr e = ib_ctr s -> False) as Hno.
  { intros j e Hj E1 E2. unfold held in Hc.
    destruct (position_is_Some (holds (ib_sender s) (ib_ctr s)) t (Some e)) as (k & Hk).
    - by eapply list_elem_of_lookup_2.
    - apply holds_true. eauto.
    - rewrite Hk in Hc. apply position_Some in Hk as [(e' & He' & Hp) _].
      apply holds_true in Hp as (e2 & -> & _). simpl in Hc. by rewrite He' in Hc. }
  assert (forall j e, <[i := Some s]> t !! j = Some (Some e) ->
    (j = i /\ e = s) \/ (j <> i /\ t !! j = Some (Some e))) as Hinv.
  { intros j e. destruct (decide (j = i)) as [->|Hne].
    - rewrite list_lookup_insert_eq by (by eapply lookup_lt_Some). intros [= <-]. auto.
    - rewrite list_lookup_insert_ne by done. auto. }
  split.
  - by rewrite length_insert.
  - intros j e [[-> ->]|[_ Hj]]%Hinv; [done|eauto].
  - intros j1 j2 e1 e2 [[-> ->]|[? H1]]%Hinv [[-> ->]|[? H2]]%Hinv E1 E2; [done| | |eauto].
    + destruct (Hno _ _ H2); congruence.
    + destruct (Hno _ _ H1); congruence.
Qed.

Lemma inbox_insert_ok t se c p :
  inbox_ok t -> is_u16 se -> is_u64 c -> is_bytes p -> inbox_ok (inbox_insert t se c p).1.
Proof.
  intros Ht Hs Hc Hp. unfold inbox_insert.
  destruct (Z.ltb_spec INBOX_PACKET_MAX (zlen p)); [done|].
  destruct (contains t se c) eqn:Ec; [done|].
  destruct (position is_noneb t) as [i|] eqn:E; [|done]. simpl.
  apply inbox_set_ok; [done|by apply position_free_inbox| |done].
  by apply slot_ok_insert.
Qed.

Lemma inbox_take_ok t se c : inbox_ok t -> inbox_ok (inbox_take t se c).1.
Proof.
  intros [Hlen Hsl Hu]. unfold inbox_take. destruct (position _ t) as [i|]; [|done]. simpl.
  assert (forall j e, <[i := None]> t !! j = Some (Some e) -> t !! j = Some (Some e)) as Hinv.
  { intros j e. rewrite list_lookup_insert. by case_decide. }
  split; [by rewrite length_insert|eauto|eauto].
Qed.

Lemma held_Some t se c p :
  inbox_ok t ->
  held t se c = Some p <->
  exists i s, t !! i = Some (Some s) /\ ib_sender s = se /\ ib_ctr s = c /\ packet s = p.
Proof.
  intros Ht. unfold held. split.
  - destruct (position (holds se c) t) as [i|] eqn:E; simpl; [|done].
    apply position_Some in E as [(s & Hs & Hp) _]. apply holds_true in Hp as (e & -> & ? & ?).
    rewrite Hs; simpl. intros [= <-]. eauto 10.
  - intros (i & s & Hi & Hs & Hc & <-).
    destruct (position_is_Some (holds se c) t (Some s)) as (k & Hk).
    + by eapply list_elem_of_lookup_2.
    + apply holds_true. eauto.
    + rewrite Hk. simpl. apply position_Some in Hk as [(s' & Hs' & Hp) _].
      apply holds_true in Hp as (e & -> & ? & ?). rewrite Hs'. simpl. do 2 f_equal.
      assert (k = i) as -> by (eapply (io_unique _ Ht); eauto; congruence). congruence.
Qed.

Lemma held_ext t t' se c se' c' :
  inbox_ok t -> inbox_ok t' ->
  (forall i s, ib_sender s = se -> ib_ctr s = c ->
     t !! i = Some (Some s) <-> t' !! i = Some (Some s)) ->
  se' = se -> c' = c -> held t se' c' = held t' se' c'.
Proof.
  intros Ht Ht' E -> ->. apply option_eq. intros p. rewrite !held_Some by done.
  split; intros (i & s & Hi & Hs & Hc & Hp); exists i, s; split_and!; try done; by apply E.
Qed.

Lemma lookup_free_insert (t : InboxTable) i x j s :
  t !! i = Some None -> <[i := Some x]> t !! j = Some (Some s) ->
  (j = i /\ s = x) \/ t !! j = Some (Some s).
Proof.
  intros Hi. destruct (decide (i = j)) as [<-|Hne].
  - rewrite list_lookup_insert_eq by (by eapply lookup_lt_Some). intros [= <-]. auto.
  - rewrite list_lookup_insert_ne by done. auto.
Qed.

(** After a successful insertion of a new pair exactly that pair is added. *)
Lemma held_insert t se c p se' c' :
  inbox_ok t -> is_u16 se -> is_u64 c -> is_bytes p -> zlen p <= INBOX_PACKET_MAX ->
  contains t se c = false -> inbox_is_full t = false ->
  held (inbox_insert t se c p).1 se' c' =
  if decide (se' = se /\ c' = c) then Some p else held t se' c'.
Proof.
  intros Ht Hs Hc Hb Hl Hno Hf.
  pose proof (inbox_insert_ok t se c p Ht Hs Hc Hb) as Hok.
  destruct (inbox_insert_spec t se c p Hl Hno Hf (io_length _ Ht)) as (i & Hi & E).
  apply position_free_inbox in Hi. rewrite E in Hok |- *. simpl in *.
  case_decide as Hd; [destruct Hd as [-> ->]|].
  - apply held_Some; [done|]. eexists i, _. rewrite list_lookup_insert_eq by (by eapply lookup_lt_Some).
    split_and!; try done. by apply packet_pad.
  - eapply held_ext; [done|done| |done|done]. intros j s E1 E2. split.
    + intros [[-> ->]|H]%lookup_free_insert; [|done|done]. simpl in *. naive_solver.
    + intros Hj. rewrite list_lookup_insert_ne; [done|]. intros <-. congruence.
Qed.

Lemma held_take t se c se' c' :
  inbox_ok t ->
  held (inbox_take t se c).1 se' c' =
  if decide (se' = se /\ c' = c) then None else held t se' c'.
Proof.
  intros Ht. pose proof (inbox_take_ok t se c Ht) as Hok. revert Hok. unfold inbox_take.
  destruct (position (holds se c) t) as [i|] eqn:E; simpl; intros Hok.
  - apply position_Some in E as [(s & Hs & Hp) _]. apply holds_true in Hp as (e & -> & He1 & He2).
    case_decide as Hd.
    + destruct Hd as [-> ->]. apply option_eq. intros p. rewrite held_Some by done. split; [|done].
      intros (j & s & Hj & H1 & H2 & _). revert Hj. rewrite list_lookup_insert. case_decide as Hij; [done|].
      intros Hj. assert (i = j) as <- by (eapply (io_unique _ Ht); eauto; congruence).
      destruct Hij. split; [done|]. by eapply lookup_lt_Some.
    + eapply held_ext; [done|done| |done|done]. intros j s H1 H2. rewrite list_lookup_insert.
      case_decide as Hij; [|done]. destruct Hij as [<- _]. split; [done|].
      intros Hj. rewrite Hs in Hj. injection Hj as ->. naive_solver.
  - case_decide as Hd; [|done]. destruct Hd as [-> ->]. unfold held. by rewrite E.
Qed.

(** ** Records *)

Lemma slot_ok_len s : slot_ok s -> length (packet s) = Z.to_nat (ib_len s).
Proof.
  intros (_ & _ & Hl & _ & _ & Hz). unfold packet. rewrite length_take.
  unfold zlen, INBOX_PACKET_MAX in *. lia.
Qed.

Lemma decode_encode_inbox_slot s tail :
  slot_ok s -> decode_inbox_slot (encode_inbox_slot s ++ tail) = Some s.
Proof.
  intros Hs. pose proof (slot_ok_len s Hs) as Hlen.
  destruct Hs as (Hse & Hc & Hl & Hb & Hpad & Hz).
  assert (take (Z.to_nat (ib_len s)) (ib_bytes s) = packet s) as Ep.
  { unfold packet. by rewrite Z.min_l by lia. }
  assert (encode_inbox_slot s = le_bytes 2 (ib_sender s) ++ le_bytes 8 (ib_ctr s)
    ++ le_bytes 2 (ib_len s) ++ ib_bytes s) as ->.
  { unfold encode_inbox_slot. rewrite Ep, Hpad at 1. unfold pad_packet. by rewrite Hlen. }
  unfold decode_inbox_slot. rewrite <- !app_assoc.
  destruct (Z.ltb_spec (zlen (le_bytes 2 (ib_sender s) ++ le_bytes 8 (ib_ctr s)
    ++ le_bytes 2 (ib_len s) ++ ib_bytes s ++ tail)) 12); [zlen_lia|].
  slice_steps. unfold INBOX_PACKET_MAX in *.
  rewrite !of_le_le_bytes by (cbn; ulia). destruct (Z.ltb_spec 256 (ib_len s)); [lia|].
  destruct (Z.ltb_spec (zlen (le_bytes 2 (ib_sender s) ++ le_bytes 8 (ib_ctr s)
    ++ le_bytes 2 (ib_len s) ++ ib_bytes s ++ tail)) (12 + ib_len s)); [zlen_lia|].
  replace (12 + Z.to_nat (ib_len s) - 2 - 8 - 2)%nat with (Z.to_nat (ib_len s)) by lia.
  assert (slice 0 (Z.to_nat (ib_len s)) (ib_bytes s ++ tail) = packet s) as ->.
  { unfold slice. rewrite Nat.sub_0_r, drop_0, take_app_le, Ep; [done|]. unfold zlen in *. lia. }
  rewrite <- Hpad. by destruct s.
Qed.

(** ** Properties *)

(** What each verdict of [decide_radio_inbound] commits the radio loop to.  The
    three verdicts that do not deliver leave both tables as they were. *)
Definition verdict_ok (replay : ReplayTable) (inbox : InboxTable) (seen : Z -> Z -> Prop)
    (s c : Z) (p : bytes) (out : ReplayTable * InboxTable * RadioInbound) : Prop :=
  let '(replay', inbox', v) := out in
  match v with
  | Deliver =>
      held inbox s c = None /\ ~ seen s c /\ held inbox' s c = Some p /\
      (forall s' c', (s', c') <> (s, c) -> held inbox' s' c' = held inbox s' c') /\
      table_rep replay' (fun i x => (i = s /\ x = c) \/ seen i x) /\ inbox_ok inbox'
  | WaitHost => is_Some (held inbox s c) /\ replay' = replay /\ inbox' = inbox
  | ReAck =>
      (c = 0 \/ seen s c \/ exists h, seen s h /\ SIZE <= h - c) /\
      held inbox s c = None /\ replay' = replay /\ inbox' = inbox
  | Drop => held inbox s c = None /\ replay' = replay /\ inbox' = inbox
  end.

(** the radio decision is right on every branch: a delivered frame was
    fresh, is now held with exactly its packet and marked seen, and no other
    pair is disturbed; a re-ACK happens only for a counter that is zero, seen
    before or older than the window; waiting and dropping change nothing, so a
    counter is never consumed for a packet that is not held. *)
Theorem decide_radio_inbound_correct (replay : ReplayTable) (inbox : InboxTable)
    (seen : Z -> Z -> Prop) (s c : Z) (p : bytes) :
  table_rep replay seen -> inbox_ok inbox -> is_u16 s -> is_u64 c -> is_bytes p ->
  verdict_ok replay inbox seen s c p (decide_radio_inbound replay inbox s c p).
Proof.
  intros Hr Hi Hs Hc Hp. assert (0 <= c) as Hc0 by ulia. unfold decide_radio_inbound.
  destruct (contains inbox s c) eqn:Econ.
  { rewrite contains_held in Econ. destruct (held inbox s c) eqn:E; [|done]. simpl. by rewrite E. }
  assert (held inbox s c = None) as Hnone.
  { rewrite contains_held in Econ. by destruct (held inbox s c). }
  destruct (_ || _) eqn:Efull; [done|]. apply orb_false_iff in Efull as [Hlen Hfull].
  apply Z.ltb_ge in Hlen.
  pose proof (replay_accept_rep replay seen s c Hr Hc0) as [Hrep Hfresh].
  pose proof (replay_accept_refused replay seen s c Hr Hc0) as Href.
  destruct (replay_accept replay s c) as [replay' v]; simpl in *. destruct v; simpl.
  - split_and!; [done|by apply Hfresh| | | |by apply inbox_insert_ok].
    + rewrite held_insert by done. by rewrite decide_True.
    + intros s' c' Hne. rewrite held_insert by done. rewrite decide_False; [done|]. naive_solver.
    + eapply table_rep_ext; [|exact Hrep]. naive_solver.
  - destruct Href as [-> Hwhy]; [done|]. split_and!; auto.
  - destruct Href as [-> Hwhy]; [done|]. split_and!; auto.
Qed.

Lemma decide_radio_inbound_correct_witness :
  verdict_ok replay_table_new inbox_new (fun _ _ => False) 7 300 [1; 2]
    (decide_radio_inbound replay_table_new inbox_new 7 300 [1; 2]).
Proof.
  apply decide_radio_inbound_correct;
    [apply replay_new_rep | apply inbox_new_ok | by vm_compute | by vm_compute
    | repeat constructor; vm_compute; congruence].
Defined.

(** Events that touch the inbox while the brainstem runs. *)
Inductive inbox_event :=
| EvRadio (s c : Z) (p : bytes)     (* an authenticated frame is decided *)
| EvHostAccept (s c : Z).           (* the host accepted the pair: [take] *)

Definition event_ok (e : inbox_event) : Prop :=
  match e with
  | EvRadio s c p => is_u16 s /\ is_u64 c /\ is_bytes p
  | EvHostAccept s c => is_u16 s /\ is_u64 c
  end.

Definition inbox_step (st : ReplayTable * InboxTable) (e : inbox_event) : ReplayTable * InboxTable :=
  match e with
  | EvRadio s c p => (decide_radio_inbound st.1 st.2 s c p).1
  | EvHostAccept s c => (st.1, (inbox_take st.2 s c).1)
  end.

Lemma inbox_step_ok st seen e :
  table_rep st.1 seen -> inbox_ok st.2 -> event_ok e ->
  (exists seen', table_rep (inbox_step st e).1 seen') /\ inbox_ok (inbox_step st e).2 /\
  forall s c p, held st.2 s c = Some p -> e <> EvHostAccept s c -> held (inbox_step st e).2 s c = Some p.
Proof.
  intros Hr Hi He. destruct st as [r ib]; simpl in *. destruct e as [s c p|s c]; simpl in *.
  - destruct He as (Hs & Hc & Hp).
    pose proof (replay_accept_rep r seen s c Hr ltac:(ulia)) as [Hrep _].
    pose proof (inbox_insert_ok ib s c p Hi Hs Hc Hp) as Hins.
    unfold decide_radio_inbound. destruct (contains ib s c) eqn:Econ; [naive_solver|].
    destruct (_ || _) eqn:Efull; [naive_solver|]. apply orb_false_iff in Efull as [Hlen Hfull].
    apply Z.ltb_ge in Hlen.
    destruct (replay_accept r s c) as [r' v]; simpl in *. destruct v; simpl; split_and!; eauto.
    intros s' c' p' Hh _. rewrite held_insert by done. case_decide as Hd; [|done].
    destruct Hd as [-> ->]. rewrite contains_held, Hh in Econ. done.
  - split_and!; [eauto|by apply inbox_take_ok|]. intros s' c' p' Hh Hne. rewrite held_take by done.
    rewrite decide_False; naive_solver.
Qed.

(** nothing held is lost: once a packet is in the inbox it stays there,
    byte for byte, through any sequence of radio frames and host accepts other
    than the host accepting that very pair. *)
Theorem inbox_held_until_accepted (evs : list inbox_event) (r : ReplayTable) (ib : InboxTable)
    (seen : Z -> Z -> Prop) (s c : Z) (p : bytes) :
  table_rep r seen -> inbox_ok ib -> Forall event_ok evs ->
  held ib s c = Some p -> EvHostAccept s c ∉ evs ->
  held (fold_left inbox_step evs (r, ib)).2 s c = Some p.
Proof.
  intros Hr Hi He. revert r ib seen Hr Hi.
  induction He as [|e evs He _ IH]; intros r ib seen Hr Hi Hh Hni; [done|].
  apply not_elem_of_cons in Hni as [Hne Hni]. simpl.
  destruct (inbox_step_ok (r, ib) seen e Hr Hi He) as ((seen' & Hr') & Hi' & Hkeep).
  destruct (inbox_step (r, ib) e) as [r' ib']; simpl in *. eapply IH; eauto.
Qed.

Definition demo_inbox : InboxTable := (inbox_insert inbox_new 7 300 [1; 2]).1.

Lemma demo_inbox_ok : inbox_ok demo_inbox.
Proof.
  apply inbox_insert_ok; [apply inbox_new_ok|by vm_compute|by vm_compute|].
  repeat constructor; vm_compute; congruence.
Qed.

Lemma inbox_held_until_accepted_witness :
  held (fold_left inbox_step [EvRadio 7 300 [9]; EvHostAccept 7 301; EvRadio 8 1 [3]]
          (replay_table_new, demo_inbox)).2 7 300 = Some [1; 2].
Proof.
  apply (inbox_held_until_accepted _ _ _ (fun _ _ => False)).
  - apply replay_new_rep.
  - apply demo_inbox_ok.
  - repeat constructor; vm_compute; congruence.
  - vm_compute. reflexivity.
  - intros H. repeat (apply elem_of_cons in H as [H|H]; [discriminate|]). by apply not_elem_of_nil in H.
Defined.
