(* ===== verification/Chunker.v ===== *)
(** * The content-addressed chunker of the Bulk lane

    [apexos-mesh-proto/src/chunk.rs]: splitting a blob into fixed-size chunks
    under its blake3 root, and reassembling it from chunks that arrive in any
    order, any number of times. *)
From S2P Require Import Prelude Wire Codecs.

Section Chunker.
Context `{!HashOps}.

Definition blob_root (data : bytes) : bytes := blake3 data.

Record ChunkSet := mkChunkSet {
  cs_root : bytes;
  cs_total_len : Z;
  cs_chunk_len : Z;
  cs_chunks : list bytes
}.

Definition chunk_blob (data : bytes) (chunk_len : Z) : result ChunkSet Error :=
  if (chunk_len =? 0) || (u16_max <? chunk_len) then Err ChunkSize
  else if u32_max <? zlen data then Err TooLarge
  else
    let cks := chunks (Z.to_nat chunk_len) data in
    if u16_max <? zlen cks then Err ChunkIndex
    else Ok (mkChunkSet (blob_root data) (zlen data) chunk_len cks).

Definition cs_n_chunks (cs : ChunkSet) : Z := as_u16 (zlen (cs_chunks cs)).

Definition announce (cs : ChunkSet) : Payload :=
  ChunkAnnounce (cs_root cs) (cs_n_chunks cs) (cs_total_len cs) (cs_chunk_len cs).

Definition chunk_data (cs : ChunkSet) (index : Z) : option Payload :=
  (fun c => ChunkData (cs_root cs) index c) <$> cs_chunks cs !! Z.to_nat index.

(** ** The receiver *)

Record Reassembler := mkReassembler {
  ra_root : bytes;
  ra_total_len : Z;
  ra_chunk_len : Z;
  ra_slots : list (option bytes)
}.

Definition reassembler_new (root : bytes) (n_chunks total_len chunk_len : Z)
    : result Reassembler Error :=
  if chunk_len =? 0 then Err ChunkSize
  else
    let expect_chunks := div_ceil total_len chunk_len in
    if negb (expect_chunks =? n_chunks) then Err ChunkSize
    else Ok (mkReassembler root total_len chunk_len (replicate (Z.to_nat n_chunks) None)).

Definition from_announce (p : Payload) : option (result Reassembler Error) :=
  match p with
  | ChunkAnnounce root n_chunks total_len chunk_len =>
      Some (reassembler_new root n_chunks total_len chunk_len)
  | _ => None
  end.

Definition expected_len (r : Reassembler) (index : Z) : Z :=
  let last := zlen (ra_slots r) - 1 in
  if index =? last then
    let full := last * ra_chunk_len r in
    ra_total_len r - full
  else ra_chunk_len r.

Definition accept (r : Reassembler) (root : bytes) (index : Z) (data : bytes)
    : Reassembler * result bool Error :=
  if negb (bool_decide (root = ra_root r)) then (r, Err RootMismatch)
  else if zlen (ra_slots r) <=? index then (r, Err ChunkIndex)
  else if negb (zlen data =? expected_len r index) then (r, Err ChunkSize)
  else
    match ra_slots r !! Z.to_nat index with
    | Some (Some h) =>
        if bool_decide (h = data) then (r, Ok false) else (r, Err ChunkConflict)
    | _ =>
        (mkReassembler (ra_root r) (ra_total_len r) (ra_chunk_len r)
           (<[Z.to_nat index := Some data]> (ra_slots r)), Ok true)
    end.

Definition missing (r : Reassembler) : list Z :=
  omap (fun p => if is_noneb p.2 then Some (as_u16 (Z.of_nat p.1)) else None)
    (imap pair (ra_slots r)).

Definition is_complete (r : Reassembler) : bool := forallb is_someb (ra_slots r).

Definition finish (r : Reassembler) : result bytes Error :=
  if negb (is_complete r) then Err Incomplete
  else
    let blob := concat (omap id (ra_slots r)) in
    if negb (bool_decide (blob_root blob = ra_root r)) then Err RootMismatch
    else Ok blob.

(** Feed a list of [(root, index, data)] messages, whatever their verdicts. *)
Definition accept_all (r : Reassembler) (msgs : list (bytes * Z * bytes)) : Reassembler :=
  fold_left (fun r m => (accept r m.1.1 m.1.2 m.2).1) msgs r.

End Chunker.

(** ** Lemmas *)

Section ChunkerLemmas.
Context `{!HashOps}.

(** The grid of a reassembler: its geometry tiles the announced length and
    every filled slot has the length the grid gives it. *)
Record grid_ok (r : Reassembler) : Prop := {
  go_chunk : 0 < ra_chunk_len r;
  go_total : 0 <= ra_total_len r;
  go_tiles : div_ceil (ra_total_len r) (ra_chunk_len r) = zlen (ra_slots r);
  go_slots i d : ra_slots r !! i = Some (Some d) -> zlen d = expected_len r (Z.of_nat i)
}.

Lemma reassembler_new_grid root n t c r :
  reassembler_new root n t c = Ok r -> 0 <= n -> 0 <= t -> 0 <= c ->
  grid_ok r /\ ra_root r = root /\ ra_total_len r = t.
Proof.
  unfold reassembler_new. destruct (Z.eqb_spec c 0); [done|].
  destruct (Z.eqb_spec (div_ceil t c) n) as [E|]; [|done]. intros [= <-] Hn Ht Hc.
  split_and!; [|done|done]. split; simpl; [lia|lia| |].
  - unfold zlen. rewrite length_replicate. lia.
  - by intros i d [? _]%lookup_replicate.
Qed.

Lemma accept_grid r root i d :
  grid_ok r -> 0 <= i ->
  grid_ok (accept r root i d).1 /\ ra_root (accept r root i d).1 = ra_root r /\
  ra_total_len (accept r root i d).1 = ra_total_len r.
Proof.
  intros Hr Hi. unfold accept. destruct (bool_decide _); [|done]. simpl.
  destruct (Z.leb_spec (zlen (ra_slots r)) i); [done|].
  destruct (Z.eqb_spec (zlen d) (expected_len r i)); [|done]. simpl.
  assert (grid_ok (mkReassembler (ra_root r) (ra_total_len r) (ra_chunk_len r)
           (<[Z.to_nat i := Some d]> (ra_slots r)))) as Hg.
  { destruct Hr as [H1 H2 H3 H4]. split; simpl; [done|done| |].
    - unfold zlen in *. by rewrite length_insert.
    - unfold expected_len in *; simpl in *. unfold zlen in *. rewrite length_insert.
      intros j x. rewrite list_lookup_insert. case_decide as Hd; [|apply H4].
      destruct Hd as [<- _]. intros [= <-]. by rewrite Z2Nat.id. }
  destruct (ra_slots r !! Z.to_nat i) as [[h|]|]; simpl; [destruct (bool_decide _); done|done|done].
Qed.

Lemma accept_all_grid r msgs :
  grid_ok r -> Forall (fun m => 0 <= m.1.2) msgs ->
  grid_ok (accept_all r msgs) /\ ra_root (accept_all r msgs) = ra_root r /\
  ra_total_len (accept_all r msgs) = ra_total_len r.
Proof.
  intros Hr Hm. revert r Hr; induction Hm as [|[[root i] d] msgs Hi _ IH]; intros r Hr; [done|].
  simpl. destruct (accept_grid r root i d Hr Hi) as (Hg & E1 & E2).
  destruct (IH _ Hg) as (Hg' & E1' & E2'). split_and!; [done|congruence|congruence].
Qed.

Lemma zlen_concat_const (l : list bytes) c :
  (forall d, d ∈ l -> zlen d = c) -> zlen (concat l) = zlen l * c.
Proof.
  induction l as [|a l IH]; intros Hall; [done|]. simpl. rewrite zlen_app, zlen_cons.
  rewrite (Hall a) by left. rewrite IH; [lia|]. intros d Hd. apply Hall. by right.
Qed.

Lemma is_complete_Some (l : list (option bytes)) :
  forallb is_someb l = true -> exists ds, l = Some <$> ds.
Proof.
  induction l as [|[a|] l IH]; simpl; [by exists []| |done].
  intros (ds & ->)%IH. by exists (a :: ds).
Qed.

Lemma omap_Some (l : list bytes) : omap id (Some <$> l) = l.
Proof.
  induction l as [|a l IH]; [done|].
  change (omap id (Some <$> a :: l)) with (a :: omap id (Some <$> l)). by rewrite IH.
Qed.

(** A complete grid holds exactly the announced number of bytes. *)
Lemma grid_complete_length r ds :
  grid_ok r -> ra_slots r = Some <$> ds -> zlen (concat ds) = ra_total_len r.
Proof.
  intros [Hc Ht Htile Hsl] E. destruct ds as [|d0 ds0] using rev_ind.
  { rewrite E in Htile. unfold div_ceil in Htile. pose proof (Z.div_mod (ra_total_len r) (ra_chunk_len r)) as Hdm.
    pose proof (Z.mod_pos_bound (ra_total_len r) (ra_chunk_len r) Hc).
    change (zlen (Some <$> [])) with 0 in Htile. change (zlen (concat [])) with 0.
    pose proof (Z.div_pos (ra_total_len r) (ra_chunk_len r)). destruct (Z.ltb_spec 0 (ra_total_len r mod ra_chunk_len r)); nia. }
  clear IHds0. assert (zlen (ra_slots r) = zlen ds0 + 1) as HL.
  { rewrite E. unfold zlen. rewrite length_fmap, length_app. simpl. lia. }
  rewrite concat_app, zlen_app. simpl. rewrite app_nil_r.
  assert (zlen d0 = ra_total_len r - zlen ds0 * ra_chunk_len r) as ->.
  { rewrite (Hsl (length ds0)).
    - unfold expected_len. rewrite HL. unfold zlen. destruct (Z.eqb_spec (Z.of_nat (length ds0)) (Z.of_nat (length ds0) + 1 - 1)); [|lia].
      f_equal. lia.
    - rewrite E, fmap_app, lookup_app_r by (by rewrite length_fmap). by rewrite length_fmap, Nat.sub_diag. }
  rewrite (zlen_concat_const ds0 (ra_chunk_len r)); [lia|].
  intros d (i & Hi)%list_elem_of_lookup_1. rewrite (Hsl i).
  - unfold expected_len. rewrite HL. apply lookup_lt_Some in Hi. unfold zlen.
    destruct (Z.eqb_spec (Z.of_nat i) (Z.of_nat (length ds0) + 1 - 1)); [lia|done].
  - rewrite E, fmap_app, lookup_app_l by (rewrite length_fmap; by eapply lookup_lt_Some).
    by rewrite list_lookup_fmap, Hi.
Qed.

(** ** Feeding the chunks of a blob *)

Lemma chunk_blob_Ok data n cs :
  chunk_blob data n = Ok cs ->
  cs = mkChunkSet (blob_root data) (zlen data) n (chunks (Z.to_nat n) data) /\
  n <> 0 /\ n <= u16_max /\ zlen data <= u32_max /\ zlen (cs_chunks cs) <= u16_max.
Proof.
  unfold chunk_blob. destruct (_ || _) eqn:E1; [done|].
  destruct (Z.ltb_spec u32_max (zlen data)); [done|].
  destruct (Z.ltb_spec u16_max (zlen (chunks (Z.to_nat n) data))); [done|].
  intros [= <-]. simpl. split_and!; (done || lia).
Qed.

(** The state while the chunks of [cks] are being received: every slot is empty
    or holds its own chunk. *)
Record filling (r : Reassembler) (cks : list bytes) : Prop := {
  fl_length : length (ra_slots r) = length cks;
  fl_slots i s : ra_slots r !! i = Some s -> s = None \/ s = cks !! i;
  fl_expect i c : cks !! i = Some c -> zlen c = expected_len r (Z.of_nat i)
}.

Lemma expected_len_chunks (data : bytes) n r i (c : bytes) :
  0 < n -> chunks (Z.to_nat n) data !! i = Some c ->
  ra_chunk_len r = n -> ra_total_len r = zlen data ->
  length (ra_slots r) = length (chunks (Z.to_nat n) data) ->
  zlen c = expected_len r (Z.of_nat i).
Proof.
  intros Hn Hi E1 E2 E3. unfold expected_len. rewrite E1, E2. unfold zlen. rewrite E3.
  destruct (Z_of_nat_complete n) as (m & ->); [lia|]. rewrite Nat2Z.id in *.
  assert (forall j, is_Some (chunks m data !! j) <-> (j * m < length data)%nat) as Hj.
  { intros j. rewrite chunks_lookup by lia. case_decide; split; intros Hx; try done; by destruct Hx. }
  assert (i < length (chunks m data))%nat as Hlt by (by eapply lookup_lt_Some).
  assert (~ (length (chunks m data) * m < length data)%nat) as Hend.
  { rewrite <- Hj, lookup_lt_is_Some. lia. }
  rewrite chunks_lookup in Hi by lia. case_decide as Hd; [|done]. injection Hi as <-.
  unfold zlen. rewrite length_take, length_drop.
  destruct (Z.eqb_spec (Z.of_nat i) (Z.of_nat (length (chunks m data)) - 1)) as [Hi|Hi].
  - replace (Z.of_nat (length (chunks m data)) - 1) with (Z.of_nat i) by lia.
    replace (length (chunks m data)) with (S i) in Hend by lia. nia.
  - assert (is_Some (chunks m data !! S i)) as Hs by (apply lookup_lt_is_Some; lia).
    apply Hj in Hs. nia.
Qed.

Lemma accept_filling r cks i (c : bytes) :
  filling r cks -> cks !! i = Some c ->
  let out := accept r (ra_root r) (Z.of_nat i) c in
  is_ok out.2 = true /\ filling out.1 cks /\ ra_root out.1 = ra_root r /\
  ra_slots out.1 !! i = Some (Some c) /\
  (forall j d, ra_slots r !! j = Some (Some d) -> ra_slots out.1 !! j = Some (Some d)).
Proof.
  intros Hf Hi. destruct Hf as [Hlen Hs He]. assert (i < length cks)%nat as Hlt by (by eapply lookup_lt_Some).
  unfold accept. rewrite bool_decide_true by done. simpl.
  destruct (Z.leb_spec (zlen (ra_slots r)) (Z.of_nat i)) as [Hc|_]; [unfold zlen in Hc; lia|].
  rewrite (He i c Hi), Z.eqb_refl. simpl. rewrite Nat2Z.id.
  destruct (lookup_lt_is_Some_2 (ra_slots r) i) as (s & Hsi); [lia|]. rewrite Hsi.
  destruct s as [d|].
  - destruct (Hs _ _ Hsi) as [?|E]; [done|]. rewrite Hi in E. injection E as ->.
    rewrite bool_decide_true by done. simpl. split_and!; try done.
  - simpl. split_and!; try done.
    + split; simpl; [by rewrite length_insert| |].
      * intros j s. rewrite list_lookup_insert. case_decide as Hd; [|apply Hs].
        destruct Hd as [<- _]. intros [= <-]. right. done.
      * intros j d Hj. unfold expected_len in *; simpl. unfold zlen in *. rewrite length_insert. by apply He.
    + apply list_lookup_insert_eq. lia.
    + intros j d Hj. rewrite list_lookup_insert_ne; [done|]. intros <-. congruence.
Qed.

Definition chunk_msg (root : bytes) (cks : list bytes) (i : nat) : bytes * Z * bytes :=
  (root, Z.of_nat i, default [] (cks !! i)).

Lemma accept_all_filling r cks idxs :
  filling r cks -> Forall (fun i => (i < length cks)%nat) idxs ->
  let r' := accept_all r (map (chunk_msg (ra_root r) cks) idxs) in
  filling r' cks /\ ra_root r' = ra_root r /\
  (forall i, i ∈ idxs -> ra_slots r' !! i = Some (cks !! i)) /\
  (forall j d, ra_slots r !! j = Some (Some d) -> ra_slots r' !! j = Some (Some d)).
Proof.
  intros Hf Hidx. revert r Hf; induction Hidx as [|i idxs Hi _ IH]; intros r Hf; simpl.
  { split_and!; try done. intros i Hi. by apply not_elem_of_nil in Hi. }
  destruct (lookup_lt_is_Some_2 cks i Hi) as (c & Hc).
  destruct (accept_filling r cks i c Hf Hc) as (_ & Hf' & Er & Hin & Hkeep).
  unfold chunk_msg at 1; simpl. rewrite Hc; simpl.
  specialize (IH _ Hf'). rewrite Er in IH.
  destruct IH as (Hf'' & Er' & Hall & Hkeep'). split_and!; try done.
  - intros j [->|Hj]%elem_of_cons; [|by apply Hall]. rewrite Hc. by apply Hkeep'.
  - intros j d Hj. by apply Hkeep', Hkeep.
Qed.

End ChunkerLemmas.

(** ** Properties *)

(** round trip of the bulk lane.  Announce a chunked blob, start a receiver
    from the announcement, feed it the served chunks in any order with any
    repetitions: once every index has been fed, [finish] gives the blob back. *)
Theorem chunk_reassemble_roundtrip `{HashOps} (data : bytes) (n : Z) (cs : ChunkSet) (idxs : list nat) :
  0 <= n -> chunk_blob data n = Ok cs ->
  Forall (fun i => (i < length (cs_chunks cs))%nat) idxs ->
  (forall i, (i < length (cs_chunks cs))%nat -> i ∈ idxs) ->
  exists r, from_announce (announce cs) = Some (Ok r) /\
    finish (accept_all r (map (chunk_msg (cs_root cs) (cs_chunks cs)) idxs)) = Ok data.
Proof.
  intros Hn0 Hcs Hidx Hall. destruct (chunk_blob_Ok _ _ _ Hcs) as (-> & Hn & Hn16 & Hlen & Hcnt).
  simpl in *. set (cks := chunks (Z.to_nat n) data) in *. pose proof (zlen_nonneg cks).
  assert (as_u16 (zlen cks) = zlen cks) as Ecnt by (unfold as_u16; apply Z.mod_small; ulia).
  assert (zlen cks = div_ceil (zlen data) n) as Eceil.
  { unfold cks. rewrite zlen_chunks by lia. by rewrite Z2Nat.id. }
  exists (mkReassembler (blob_root data) (zlen data) n (replicate (length cks) None)). split.
  - unfold announce, cs_n_chunks; simpl. fold cks. rewrite Ecnt. unfold reassembler_new.
    destruct (Z.eqb_spec n 0); [done|]. rewrite <- Eceil, Z.eqb_refl. simpl.
    unfold zlen. by rewrite Nat2Z.id.
  - set (r0 := mkReassembler _ _ _ _).
    assert (filling r0 cks) as Hf.
    { split; simpl; [by rewrite length_replicate| |].
      - intros i s Hi. apply lookup_replicate in Hi as [-> _]. by left.
      - intros i c Hi. eapply (expected_len_chunks data n); [lia|done|done|done|].
        simpl. by rewrite length_replicate. }
    destruct (accept_all_filling r0 cks idxs Hf Hidx) as ([Hlen' Hs' _] & Er & Hin & _). simpl in *.
    assert (ra_slots (accept_all r0 (map (chunk_msg (blob_root data) cks) idxs)) = Some <$> cks) as Esl.
    { apply list_eq. intros i. rewrite list_lookup_fmap. destruct (cks !! i) as [c|] eqn:Ei; simpl.
      - rewrite Hin, Ei; [done|]. apply Hall. by eapply lookup_lt_Some.
      - apply lookup_ge_None in Ei. apply lookup_ge_None. lia. }
    unfold finish, is_complete. rewrite Esl, Er.
    assert (forallb is_someb (Some <$> cks) = true) as -> by (clear; by induction cks). simpl.
    rewrite omap_Some. unfold cks. rewrite chunks_concat by lia. by rewrite bool_decide_true.
Qed.

Definition demo_blob : bytes := [10; 11; 12; 13; 14].

Definition demo_set : ChunkSet := mkChunkSet (blob_root demo_blob) 5 2 [[10; 11]; [12; 13]; [14]].

Lemma chunk_reassemble_roundtrip_witness :
  exists r, from_announce (announce demo_set) = Some (Ok r) /\
    finish (accept_all r (map (chunk_msg (cs_root demo_set) (cs_chunks demo_set)) [2; 0; 2; 1]%nat))
    = Ok demo_blob.
Proof.
  apply (chunk_reassemble_roundtrip demo_blob 2 demo_set [2; 0; 2; 1]%nat).
  - lia.
  - reflexivity.
  - repeat constructor; simpl; lia.
  - intros i Hi. change (i < 3)%nat in Hi.
    destruct i as [|[|[|i]]]; [right; left|right; right; right; left|left|lia].
Defined.

(** a finished blob is authentic and has the announced size, whatever was
    sent.  From any announcement a receiver accepts, after any messages at all
    - wrong roots, bad indexes, wrong lengths, conflicting data - a successful
    [finish] hashes to the announced root and is exactly [total_len] long. *)
Theorem reassembler_finish_sound `{HashOps} (root : bytes) (n_chunks total_len chunk_len : Z)
    (r : Reassembler) (msgs : list (bytes * Z * bytes)) (blob : bytes) :
  reassembler_new root n_chunks total_len chunk_len = Ok r ->
  is_u16 n_chunks -> is_u32 total_len -> is_u16 chunk_len ->
  Forall (fun m => is_u16 m.1.2) msgs ->
  finish (accept_all r msgs) = Ok blob ->
  blake3 blob = root /\ zlen blob = total_len.
Proof.
  intros Hnew Hn Ht Hc Hm Hfin.
  destruct (reassembler_new_grid _ _ _ _ _ Hnew) as (Hg & Er & Et); [ulia..|].
  destruct (accept_all_grid r msgs Hg) as (Hg' & Er' & Et').
  { eapply Forall_impl; [exact Hm|]. intros m ?; simpl in *. ulia. }
  revert Hfin. unfold finish, is_complete.
  destruct (forallb is_someb _) eqn:Ec; simpl; [|done].
  apply is_complete_Some in Ec as (ds & Eds). rewrite Eds, omap_Some.
  case_bool_decide as Eroot; simpl; [|done]. intros [= <-]. unfold blob_root in Eroot.
  split; [congruence|]. rewrite (grid_complete_length _ ds Hg' Eds). congruence.
Qed.

Lemma reassembler_finish_sound_witness :
  blake3 demo_blob = blob_root demo_blob /\ zlen demo_blob = 5.
Proof.
  eapply (reassembler_finish_sound (blob_root demo_blob) 1 5 300 _
    [(blob_root demo_blob, 9, []); (blob_root demo_blob, 0, demo_blob)]).
  - vm_compute. reflexivity.
  - by vm_compute.
  - by vm_compute.
  - by vm_compute.
  - repeat constructor; vm_compute; congruence.
  - vm_compute. reflexivity.
Defined.
