(* ===== verification/Store.v ===== *)
(** * The brainstem's persistent store

    [firmware/brainstem/src/store.rs].  The flash itself and the
    [sequential-storage] map and queue on it are third-party: [FlashOps] is
    their interface, [FlashLaws] what their documentation promises, and
    [mem_flash] a concrete instance. *)
From S2P Require Import Prelude Wire Replay Inbox.

(** ** The flash interface *)

(** Values the store reads and writes: [u16], [u64] and byte slices. *)
Inductive item := ItemU16 (z : Z) | ItemU64 (z : Z) | ItemBytes (b : bytes).

#[export] Instance item_eq_dec : EqDecision item.
Proof. solve_decision. Defined.

(** The map ([fetch_item], [store_item]) and the queue of [sequential-storage].
    An operation that changes the flash returns the flash it leaves, also when
    it fails. *)
Class FlashOps (F : Type) := {
  fetch_item : F -> Z -> result (option item) unit;
  store_item : F -> Z -> item -> F * result unit unit;
  queue_push : F -> bytes -> F * result unit unit;
  queue_peek : F -> result (option bytes) unit;
  queue_pop : F -> F * result (option bytes) unit;
  queue_iter : F -> result (list bytes) unit
}.

(** A successful write is read back and touches no other key; a failed one
    leaves the key with its old value, the new one, or unreadable.  The map and
    the queue live in disjoint ranges; the queue is first in, first out, and a
    peek is the head of what the iterator yields. *)
Class FlashLaws (F : Type) `{!FlashOps F} := {
  store_ok (f : F) k v f' :
    store_item f k v = (f', Ok tt) -> fetch_item f' k = Ok (Some v);
  store_err (f : F) k v f' :
    store_item f k v = (f', Err tt) ->
    fetch_item f' k = fetch_item f k \/ fetch_item f' k = Ok (Some v) \/ fetch_item f' k = Err tt;
  store_frame (f : F) k v k' :
    k' <> k -> fetch_item (store_item f k v).1 k' = fetch_item f k';
  store_queue (f : F) k v : queue_iter (store_item f k v).1 = queue_iter f;
  push_map (f : F) b k : fetch_item (queue_push f b).1 k = fetch_item f k;
  pop_map (f : F) k : fetch_item (queue_pop f).1 k = fetch_item f k;
  push_ok (f : F) b f' l :
    queue_push f b = (f', Ok tt) -> queue_iter f = Ok l -> queue_iter f' = Ok (l ++ [b]);
  peek_head (f : F) l : queue_iter f = Ok l -> queue_peek f = Ok (head l);
  pop_ok (f : F) f' o l :
    queue_pop f = (f', Ok o) -> queue_iter f = Ok l -> o = head l /\ queue_iter f' = Ok (tail l)
}.

(** ** Layout of the partition *)

Definition APEXNET_PARTITION_LEN : Z := 131072.
Definition CTR_RESERVATION : Z := 1024.
Definition KEY_NODE_ID : Z := 0.
Definition KEY_PSK : Z := 1.
Definition KEY_CTR_HW : Z := 2.
Definition KEY_REPLAY_BASE : Z := 16.
Definition KEY_INBOX_BASE : Z := 48.
Definition BUF_LEN : Z := 384.
Definition MAX_QUEUED_MESSAGE : Z := 256.

Record Identity := mkIdentity { node_id : option Z; psk : option bytes }.

Definition identity_default : Identity := mkIdentity None None.

Definition is_commissioned (i : Identity) : bool := is_someb (node_id i) && is_someb (psk i).

Section Store.
Context {F : Type} `{!FlashOps F}.

(** [fetch_item::<T>]: a value of another type does not deserialise. *)
Definition fetch_u16 (f : F) (k : Z) : result (option Z) unit :=
  match fetch_item f k with
  | Ok None => Ok None
  | Ok (Some (ItemU16 z)) => Ok (Some z)
  | _ => Err tt
  end.

Definition fetch_u64 (f : F) (k : Z) : result (option Z) unit :=
  match fetch_item f k with
  | Ok None => Ok None
  | Ok (Some (ItemU64 z)) => Ok (Some z)
  | _ => Err tt
  end.

Definition fetch_bytes (f : F) (k : Z) : result (option bytes) unit :=
  match fetch_item f k with
  | Ok None => Ok None
  | Ok (Some (ItemBytes b)) => Ok (Some b)
  | _ => Err tt
  end.

(** [.ok().flatten()]. *)
Definition ok_flatten {A} (r : result (option A) unit) : option A :=
  match r with Ok o => o | Err _ => None end.

Definition identity (f : F) : Identity :=
  mkIdentity (ok_flatten (fetch_u16 f KEY_NODE_ID))
    (b ← ok_flatten (fetch_bytes f KEY_PSK); if decide (length b = 32%nat) then Some b else None).

Definition commission (f : F) (node_id : Z) (psk : bytes) : F * result unit unit :=
  match store_item f KEY_PSK (ItemBytes psk) with
  | (f, Err _) => (f, Err tt)
  | (f, Ok _) => store_item f KEY_NODE_ID (ItemU16 node_id)
  end.

Definition reserve_counters (f : F) : F * result (Z * Z) unit :=
  match reserve_from_stored (fetch_u64 f KEY_CTR_HW) CTR_RESERVATION with
  | Err _ => (f, Err tt)
  | Ok (previous, next) =>
      match store_item f KEY_CTR_HW (ItemU64 next) with
      | (f, Err _) => (f, Err tt)
      | (f, Ok _) => (f, Ok (previous, next))
      end
  end.

Definition counter_high_water (f : F) : result Z unit :=
  match fetch_u64 f KEY_CTR_HW with
  | Ok (Some v) => Ok v
  | Ok None => Ok 0
  | Err _ => Err tt
  end.

(** The loops of [load_replay] and [load_inbox] over the slot keys [i..]. *)
Fixpoint load_replay_from (f : F) (i : nat) (n : nat) (t : ReplayTable) : result ReplayTable unit :=
  match n with
  | O => Ok t
  | S n =>
      match fetch_bytes f (KEY_REPLAY_BASE + Z.of_nat i) with
      | Ok None => load_replay_from f (S i) n t
      | Ok (Some b) =>
          if zlen b =? REPLAY_SLOT_BYTES then
            let '(t', ok) := replay_load_slot t b in
            if ok then load_replay_from f (S i) n t' else Err tt
          else Err tt
      | Err _ => Err tt
      end
  end.

Definition load_replay (f : F) : result ReplayTable unit :=
  load_replay_from f 0 MAX_REPLAY_SENDERS replay_table_new.

Fixpoint load_inbox_from (f : F) (i : nat) (n : nat) (t : InboxTable) : result InboxTable unit :=
  match n with
  | O => Ok t
  | S n =>
      match fetch_bytes f (KEY_INBOX_BASE + Z.of_nat i) with
      | Ok None => load_inbox_from f (S i) n t
      | Ok (Some b) =>
          let '(t', ok) := inbox_load_slot t b in
          if ok then load_inbox_from f (S i) n t' else Err tt
      | Err _ => Err tt
      end
  end.

Definition load_inbox (f : F) : result InboxTable unit := load_inbox_from f 0 MAX_INBOX inbox_new.

(** The loop of [save_inbox] and [save_replay]: store the records of slots
    [i..], skipping a slot that has none. *)
Fixpoint save_slots (f : F) (base : Z) (enc : nat -> option bytes) (i n : nat)
    : F * result unit unit :=
  match n with
  | O => (f, Ok tt)
  | S n =>
      match enc i with
      | None => save_slots f base enc (S i) n
      | Some b =>
          match store_item f (base + Z.of_nat i) (ItemBytes b) with
          | (f, Err _) => (f, Err tt)
          | (f, Ok _) => save_slots f base enc (S i) n
          end
      end
  end.

Definition save_inbox (f : F) (t : InboxTable) : F * result unit unit :=
  save_slots f KEY_INBOX_BASE (inbox_encode_slot t) 0 MAX_INBOX.

Definition save_replay (f : F) (t : ReplayTable) : F * result unit unit :=
  save_slots f KEY_REPLAY_BASE (replay_encode_slot t) 0 MAX_REPLAY_SENDERS.

(** ** The outbox queue *)

Definition outbox_push (f : F) (packet : bytes) : F * result unit unit := queue_push f packet.

Definition outbox_peek (f : F) : option bytes := ok_flatten (queue_peek f).

Definition outbox_pop (f : F) : F * bool :=
  match queue_pop f with
  | (f, Ok (Some _)) => (f, true)
  | (f, _) => (f, false)
  end.

Definition outbox_len (f : F) : Z :=
  match queue_iter f with
  | Err _ => 0
  | Ok l => Z.min (zlen l) u16_max
  end.

End Store.

(** ** A concrete flash *)

(** An in-memory flash that never fails. *)
Record mem_flash := mkMem { mem_map : gmap Z item; mem_queue : list bytes }.

#[export] Instance mem_flash_ops : FlashOps mem_flash := {|
  fetch_item f k := Ok (mem_map f !! k);
  store_item f k v := (mkMem (<[k := v]> (mem_map f)) (mem_queue f), Ok tt);
  queue_push f b := (mkMem (mem_map f) (mem_queue f ++ [b]), Ok tt);
  queue_peek f := Ok (head (mem_queue f));
  queue_pop f := (mkMem (mem_map f) (tail (mem_queue f)), Ok (head (mem_queue f)));
  queue_iter f := Ok (mem_queue f)
|}.

#[export] Instance mem_flash_laws : FlashLaws mem_flash.
Proof.
  split; simpl.
  - intros f k v f' [= <-]. simpl. by rewrite lookup_insert_eq.
  - done.
  - intros f k v k' Hne. by rewrite lookup_insert_ne.
  - done.
  - done.
  - done.
  - by intros f b f' l [= <-] [= <-].
  - by intros f l [= <-].
  - by intros f f' o l [= <- <-] [= <-].
Qed.

(** The blank flash of a board that never booted. *)
Definition blank_flash : mem_flash := mkMem ∅ [].

(** ** Lemmas *)

Section StoreLemmas.
Context {F : Type} `{!FlashOps F} `{!FlashLaws F}.

Lemma store_frame' (f : F) k v f' r k' :
  store_item f k v = (f', r) -> k' <> k -> fetch_item f' k' = fetch_item f k'.
Proof. intros E Hne. pose proof (store_frame f k v k' Hne) as H. by rewrite E in H. Qed.

Lemma save_slots_ok base enc i n (f f' : F) :
  save_slots f base enc i n = (f', Ok tt) ->
  (forall j b, (i <= j < i + n)%nat -> enc j = Some b ->
     fetch_item f' (base + Z.of_nat j) = Ok (Some (ItemBytes b))) /\
  (forall k, (forall j, (i <= j < i + n)%nat -> is_Some (enc j) -> k <> base + Z.of_nat j) ->
     fetch_item f' k = fetch_item f k).
Proof.
  revert i f; induction n as [|n IH]; intros i f; simpl.
  { intros [= ->]. split; [lia|done]. }
  destruct (enc i) as [b|] eqn:Ei.
  - destruct (store_item f (base + Z.of_nat i) (ItemBytes b)) as [f1 [[]|]] eqn:Es; [|done].
    intros [Hin Hout]%IH. split.
    + intros j b' Hj Eb. destruct (decide (j = i)) as [->|Hne]; [|apply Hin; [lia|done]].
      rewrite Hout by lia. simplify_eq. by eapply store_ok.
    + intros k Hk. rewrite Hout by (intros j Hj; apply Hk; lia).
      eapply store_frame'; [done|]. apply Hk; [lia|eauto].
  - intros [Hin Hout]%IH. split.
    + intros j b' Hj Eb. destruct (decide (j = i)) as [->|Hne]; [congruence|]. apply Hin; [lia|done].
    + intros k Hk. apply Hout. intros j Hj. apply Hk. lia.
Qed.

(** *** The inbox survives a reboot *)

(** The pairs held in the first [i] slots of [t]. *)
Definition held_below (t : InboxTable) (i : nat) (s c : Z) (p : bytes) : Prop :=
  exists j e, (j < i)%nat /\ t !! j = Some (Some e) /\ ib_sender e = s /\ ib_ctr e = c /\ packet e = p.

Lemma held_below_S t i s c p :
  held_below t (S i) s c p <->
  held_below t i s c p \/
  exists e, t !! i = Some (Some e) /\ ib_sender e = s /\ ib_ctr e = c /\ packet e = p.
Proof.
  unfold held_below. split.
  - intros (j & e & Hj & He). destruct (decide (j = i)) as [->|]; [eauto|].
    left. exists j, e. split; [lia|done].
  - intros [(j & e & Hj & He)|(e & He)]; [exists j, e|exists i, e]; (split; [lia|done]).
Qed.

Lemma load_vacant_slot t : inbox_load_slot t (replicate (Z.to_nat INBOX_SLOT_BYTES) 0) = (t, true).
Proof. unfold inbox_load_slot. by vm_compute (decode_inbox_slot _). Qed.

Lemma inbox_not_full (t : InboxTable) :
  length t = MAX_INBOX -> (occupied t < MAX_INBOX)%nat -> inbox_is_full t = false.
Proof. intros _ H. unfold inbox_is_full, inbox_len. apply Nat.eqb_neq. lia. Qed.

Lemma load_occupied_slot acc s :
  inbox_ok acc -> slot_ok s -> ib_len s <> 0 -> contains acc (ib_sender s) (ib_ctr s) = false ->
  (occupied acc < MAX_INBOX)%nat ->
  exists acc', inbox_load_slot acc (encode_inbox_slot s) = (acc', true) /\ inbox_ok acc' /\
    occupied acc' = S (occupied acc) /\
    forall s' c', held acc' s' c' =
      if decide (s' = ib_sender s /\ c' = ib_ctr s) then Some (packet s) else held acc s' c'.
Proof.
  intros Ha Hs Hl Hc Ho. pose proof (slot_ok_len s Hs) as Hpl.
  unfold inbox_load_slot. rewrite <- (app_nil_r (encode_inbox_slot s)), decode_encode_inbox_slot by done.
  destruct (Z.eqb_spec (ib_len s) 0); [done|].
  destruct Hs as (H1 & H2 & H3 & H4 & H5 & H6).
  assert (zlen (packet s) <= INBOX_PACKET_MAX) as Hpz by (unfold zlen; lia).
  assert (is_bytes (packet s)) as Hpb by (unfold packet; auto with bytes).
  pose proof (inbox_not_full acc (io_length _ Ha) Ho) as Hf.
  pose proof (inbox_insert_ok acc _ _ _ Ha H1 H2 Hpb) as Hok.
  pose proof (fun s' c' => held_insert acc _ _ _ s' c' Ha H1 H2 Hpb Hpz Hc Hf) as Hh.
  destruct (inbox_insert_spec acc _ _ _ Hpz Hc Hf (io_length _ Ha)) as (i & Hi & E).
  apply position_free_inbox in Hi. rewrite E in *. simpl in *.
  eexists. split_and!; [done|done| |done]. by apply occupied_insert_free.
Qed.

Lemma load_inbox_loop (f : F) (t : InboxTable) n i acc :
  inbox_ok t -> (forall j s, t !! j = Some (Some s) -> ib_len s <> 0) ->
  (forall j b, inbox_encode_slot t j = Some b ->
     fetch_item f (KEY_INBOX_BASE + Z.of_nat j) = Ok (Some (ItemBytes b))) ->
  (i + n = MAX_INBOX)%nat ->
  inbox_ok acc -> (occupied acc <= i)%nat ->
  (forall s c p, held acc s c = Some p <-> held_below t i s c p) ->
  exists t', load_inbox_from f i n acc = Ok t' /\ inbox_ok t' /\
    forall s c p, held t' s c = Some p <-> held_below t MAX_INBOX s c p.
Proof.
  intros Ht Hne Hf. revert i acc; induction n as [|n IH]; intros i acc Hin Ha Ho Hh.
  { exists acc. split_and!; [done|done|]. by replace MAX_INBOX with i by lia. }
  assert (i < length t)%nat as Hlt by (rewrite (io_length _ Ht); lia).
  destruct (lookup_lt_is_Some_2 t i Hlt) as (sl & Hsl). cbn [load_inbox_from].
  unfold fetch_bytes. destruct sl as [e|].
  - rewrite (Hf i (encode_inbox_slot e)) by (unfold inbox_encode_slot; by rewrite Hsl).
    assert (contains acc (ib_sender e) (ib_ctr e) = false) as Hc.
    { rewrite contains_held. destruct (held acc _ _) as [p|] eqn:Eh; [|done].
      apply Hh in Eh as (j & e' & Hj & Hj' & E1 & E2 & _).
      assert (j = i) by (eapply (io_unique _ Ht); eauto). lia. }
    destruct (load_occupied_slot acc e Ha (io_slots _ Ht _ _ Hsl) (Hne _ _ Hsl) Hc)
      as (acc' & -> & Ha' & Ho' & Hh'); [unfold MAX_INBOX in *; lia|].
    apply IH; [lia|done|lia|]. intros s c p. rewrite Hh', held_below_S, Hsl.
    case_decide as Hd.
    + destruct Hd as [-> ->]. split.
      * intros [= <-]. right. eauto.
      * intros [(j & e' & Hj & Hj' & E1 & E2 & <-)|(e' & [= <-] & _ & _ & <-)]; [|done].
        assert (j = i) as -> by (eapply (io_unique _ Ht); eauto). lia.
    + rewrite Hh. split; [auto|]. intros [?|(e' & [= <-] & E1 & E2 & _)]; [done|]. destruct Hd. auto.
  - rewrite (Hf i (replicate (Z.to_nat INBOX_SLOT_BYTES) 0)) by (unfold inbox_encode_slot; by rewrite Hsl).
    rewrite load_vacant_slot. apply IH; [lia|done|lia|].
    intros s c p. rewrite Hh, held_below_S, Hsl. split; [auto|]. by intros [?|(? & [=] & _)].
Qed.

(** *** Replay windows survive a reboot *)

Definition windows_unique (t : ReplayTable) : Prop :=
  forall i j id w w', t !! i = Some (Some (id, w)) -> t !! j = Some (Some (id, w')) -> i = j.

Lemma window_of_Some t id w :
  windows_unique t -> window_of t id = Some w <-> exists j, t !! j = Some (Some (id, w)).
Proof.
  intros Hu. unfold window_of. split.
  - destruct (position (slot_is id) t) as [i|] eqn:E; simpl; [|done].
    destruct (position_slot_Some _ _ _ E) as (w' & Hi). rewrite Hi. simpl. intros [= <-]. eauto.
  - intros (j & Hj). destruct (position (slot_is id) t) as [i|] eqn:E.
    + destruct (position_slot_Some _ _ _ E) as (w' & Hi). simpl. rewrite Hi. simpl.
      assert (i = j) as -> by eauto. congruence.
    + exfalso. eapply position_slot_None; eauto.
Qed.

Lemma windows_unique_set t i id w :
  windows_unique t -> position (slot_is id) t = None -> t !! i = Some None ->
  windows_unique (<[i := Some (id, w)]> t) /\
  forall id' w', (exists j, <[i := Some (id, w)]> t !! j = Some (Some (id', w'))) <->
    (id' = id /\ w' = w) \/ exists j, t !! j = Some (Some (id', w')).
Proof.
  intros Hu Hn Hi. pose proof (proj1 (position_slot_None _ _) Hn) as Hnone.
  assert (forall j s, <[i := Some (id, w)]> t !! j = Some s ->
    (j = i /\ s = Some (id, w)) \/ (j <> i /\ t !! j = Some s)) as Hinv.
  { intros j s. destruct (decide (j = i)) as [->|Hne].
    - rewrite list_lookup_insert_eq by (by eapply lookup_lt_Some). intros [= <-]. auto.
    - rewrite list_lookup_insert_ne by done. auto. }
  split.
  - intros j1 j2 id2 w1 w2 [[-> E1]|[Hn1 E1]]%Hinv [[-> E2]|[Hn2 E2]]%Hinv; simplify_eq; try done.
    + by destruct (Hnone j2 w2).
    + by destruct (Hnone j1 w1).
    + by eapply Hu.
  - intros id' w'. split.
    + intros (j & [[-> E]|[_ E]]%Hinv); [left; by simplify_eq|eauto].
    + intros [[-> ->]|(j & Hj)].
      * exists i. rewrite list_lookup_insert_eq by (by eapply lookup_lt_Some). done.
      * exists j. rewrite list_lookup_insert_ne; [done|]. intros <-. congruence.
Qed.

Lemma load_replay_loop (f : F) (t : ReplayTable) n i acc :
  length t = MAX_REPLAY_SENDERS -> windows_unique t ->
  (forall j id w, t !! j = Some (Some (id, w)) -> is_u16 id /\ is_u64 (highest w) /\ is_u64 (bitmap w)) ->
  (forall j, (j < MAX_REPLAY_SENDERS)%nat -> fetch_item f (KEY_REPLAY_BASE + Z.of_nat j) =
     Ok (ItemBytes <$> replay_encode_slot t j)) ->
  (i + n = MAX_REPLAY_SENDERS)%nat ->
  length acc = MAX_REPLAY_SENDERS -> windows_unique acc -> (occupied acc <= i)%nat ->
  (forall id w, (exists j, acc !! j = Some (Some (id, w))) <->
     exists j, (j < i)%nat /\ t !! j = Some (Some (id, w))) ->
  exists t', load_replay_from f i n acc = Ok t' /\ forall id, window_of t' id = window_of t id.
Proof.
  intros Hlen Hu Hr Hf. revert i acc; induction n as [|n IH]; intros i acc Hin Hla Hua Ho Hh.
  { exists acc. split; [done|]. intros id. apply option_eq. intros w.
    rewrite !window_of_Some, Hh by done. split; [naive_solver|]. intros (j & Hj). exists j. split; [|done].
    apply lookup_lt_Some in Hj. lia. }
  assert (i < length t)%nat as Hlt by lia.
  destruct (lookup_lt_is_Some_2 t i Hlt) as (sl & Hsl). cbn [load_replay_from].
  unfold fetch_bytes. rewrite Hf by lia. unfold replay_encode_slot. rewrite Hsl.
  destruct sl as [[id w]|]; cbn [fmap option_fmap option_map].
  - destruct (Hr _ _ _ Hsl) as (H1 & H2 & H3).
    rewrite zlen_encode_replay_slot, Z.eqb_refl. unfold replay_load_slot.
    rewrite <- (app_nil_r (encode_replay_slot id w)), decode_encode_replay_slot by done.
    assert (position (slot_is id) acc = None) as Hpos.
    { apply position_slot_None. intros j w' Hj.
      destruct (proj1 (Hh id w') (ex_intro _ j Hj)) as (j' & Hj' & Ht).
      assert (j' = i) by (by eapply Hu). lia. }
    rewrite existsb_position, Hpos. simpl.
    destruct (position is_noneb acc) as [k|] eqn:Ek.
    2: { apply occupied_full in Ek. lia. }
    apply position_free in Ek. destruct (windows_unique_set acc k id w Hua Hpos Ek) as [Hua' Hh'].
    apply IH; [lia|by rewrite length_insert|done|rewrite occupied_insert_free by done; lia|].
    intros id' w'. rewrite Hh', Hh. split.
    + intros [[-> ->]|(j & Hj & Ht)]; [exists i|exists j]; (split; [lia|done]).
    + intros (j & Hj & Ht). destruct (decide (j = i)) as [->|]; [left; by simplify_eq|right].
      exists j. split; [lia|done].
  - apply IH; [lia|done|done|lia|]. intros id w. rewrite Hh.
    split; intros (j & Hj & Ht); exists j; (split; [|done]); [lia|].
    destruct (decide (j = i)) as [->|]; [congruence|lia].
Qed.

End StoreLemmas.

(** ** Properties *)

(** held mail survives a power cut.  If [save_inbox] reported success, the
    next boot's [load_inbox] succeeds and holds exactly the same packets for
    exactly the same pairs, whatever records the flash had before (a vacated
    slot is overwritten by its tombstone, so nothing taken comes back). *)
Theorem inbox_survives_reboot `{FlashLaws F} (f f' : F) (t : InboxTable) :
  inbox_ok t -> (forall j s, t !! j = Some (Some s) -> ib_len s <> 0) ->
  save_inbox f t = (f', Ok tt) ->
  exists t', load_inbox f' = Ok t' /\ inbox_ok t' /\
    forall s c, held t' s c = held t s c.
Proof.
  intros Ht Hne Hsave. destruct (save_slots_ok _ _ _ _ _ _ Hsave) as [Hin _].
  destruct (load_inbox_loop f' t MAX_INBOX 0 inbox_new) as (t' & Hl & Hok & Hh).
  - done.
  - done.
  - intros j b Hb. apply Hin; [|done]. unfold inbox_encode_slot in Hb.
    destruct (t !! j) eqn:Ej; [|done]. apply lookup_lt_Some in Ej. rewrite (io_length _ Ht) in Ej. lia.
  - done.
  - apply inbox_new_ok.
  - apply le_n.
  - intros s c p. split; [done|]. intros (j & _ & Hj & _). lia.
  - exists t'. split_and!; [done|done|]. intros s c. apply option_eq. intros p.
    rewrite Hh, held_Some by done. unfold held_below. split.
    + intros (j & e & _ & He). eauto.
    + intros (j & e & Hj & He). exists j, e. split; [|done].
      apply lookup_lt_Some in Hj. by rewrite (io_length _ Ht) in Hj.
Qed.

Lemma inbox_survives_reboot_witness :
  exists t', load_inbox (save_inbox blank_flash demo_inbox).1 = Ok t' /\ inbox_ok t' /\
    forall s c, held t' s c = held demo_inbox s c.
Proof.
  apply (inbox_survives_reboot blank_flash).
  - apply demo_inbox_ok.
  - intros j s Hj. assert (j < 8)%nat as Hlt by (by apply lookup_lt_Some in Hj).
    do 8 (destruct j as [|j]; [vm_compute in Hj; by simplify_eq|]). lia.
  - apply surjective_pairing.
Defined.

(** replay state survives a power cut.  If [save_replay] reported success
    and no record was ever written for a slot that is still vacant, the next
    boot loads a table with the same window for every sender. *)
Theorem replay_survives_reboot `{FlashLaws F} (f f' : F) (t : ReplayTable) :
  length t = MAX_REPLAY_SENDERS -> windows_unique t ->
  (forall j id w, t !! j = Some (Some (id, w)) -> is_u16 id /\ is_u64 (highest w) /\ is_u64 (bitmap w)) ->
  (forall j, t !! j = Some None -> fetch_item f (KEY_REPLAY_BASE + Z.of_nat j) = Ok None) ->
  save_replay f t = (f', Ok tt) ->
  exists t', load_replay f' = Ok t' /\ forall id, window_of t' id = window_of t id.
Proof.
  intros Hlen Hu Hr Hvac Hsave. destruct (save_slots_ok _ _ _ _ _ _ Hsave) as [Hin Hout].
  apply (load_replay_loop f' t MAX_REPLAY_SENDERS 0 replay_table_new);
    [done|done|done| |done|done| |apply le_n|].
  - intros j Hj. destruct (replay_encode_slot t j) as [b|] eqn:Eb; simpl; [apply Hin; [lia|done]|].
    rewrite Hout.
    + apply Hvac. unfold replay_encode_slot in Eb.
      destruct (lookup_lt_is_Some_2 t j) as ([[id w]|] & Hs); [lia| |done]. by rewrite Hs in Eb.
    + intros k _ [b Hk] E. assert (k = j) as -> by lia. congruence.
  - intros i j id w w' Hi. by apply replay_new_lookup in Hi.
  - intros id w. split; [intros (j & Hj); by apply replay_new_lookup in Hj|].
    intros (j & Hj & _). lia.
Qed.

Definition demo_replay : ReplayTable := (offer_all replay_table_new [(1, 5); (2, 70); (1, 9)]).1.

Lemma replay_survives_reboot_witness :
  exists t', load_replay (save_replay blank_flash demo_replay).1 = Ok t' /\
    forall id, window_of t' id = window_of demo_replay id.
Proof.
  assert (table_rep demo_replay (fun i x => (i = 1 /\ x = 9) \/ (i = 2 /\ x = 70) \/ (i = 1 /\ x = 5))) as Hrep.
  { unfold demo_replay.
    pose proof (replay_accept_rep replay_table_new _ 1 5 replay_new_rep ltac:(lia)) as [H1 _].
    pose proof (replay_accept_rep _ _ 2 70 H1 ltac:(lia)) as [H2 _].
    pose proof (replay_accept_rep _ _ 1 9 H2 ltac:(lia)) as [H3 _].
    eapply table_rep_ext; [|exact H3]. vm_compute. naive_solver. }
  apply (replay_survives_reboot blank_flash).
  - reflexivity.
  - exact (tr_unique _ _ Hrep).
  - intros j id w Hj. assert (j < 16)%nat as Hlt by (by apply lookup_lt_Some in Hj).
    do 16 (destruct j as [|j]; [vm_compute in Hj; simplify_eq; repeat split; vm_compute; congruence|]). lia.
  - intros j _. reflexivity.
  - apply surjective_pairing.
Defined.

(** commissioning is safe against a power cut between its two writes.  On
    a board without a node id, whatever the outcome of the key write, the board
    is still not commissioned (so it still accepts a first-touch provision);
    when [commission] reports success, the identity read back is the new one. *)
Theorem commission_power_cut_safe `{FlashLaws F} (f : F) (id : Z) (k : bytes) :
  length k = 32%nat -> node_id (identity f) = None ->
  is_commissioned (identity (store_item f KEY_PSK (ItemBytes k)).1) = false /\
  (forall f', commission f id k = (f', Ok tt) -> identity f' = mkIdentity (Some id) (Some k)).
Proof.
  intros Hk Hid. split.
  - unfold is_commissioned, identity, fetch_u16 in *; simpl in *. rewrite store_frame by done.
    by rewrite Hid.
  - intros f'. unfold commission. destruct (store_item f KEY_PSK (ItemBytes k)) as [f1 [[]|]] eqn:E1; [|done].
    intros E2. pose proof (store_ok _ _ _ _ E1) as H1. pose proof (store_ok _ _ _ _ E2) as H2.
    unfold identity, fetch_u16, fetch_bytes. rewrite H2, (store_frame' _ _ _ _ _ KEY_PSK E2), H1 by done.
    simpl. by rewrite decide_True.
Qed.

Lemma commission_power_cut_safe_witness :
  is_commissioned (identity (store_item blank_flash KEY_PSK (ItemBytes (le_bytes 32 99))).1) = false.
Proof. apply (commission_power_cut_safe blank_flash 7 (le_bytes 32 99)); reflexivity. Defined.
