(* ===== verification/Counter.v ===== *)
(** * The counter allocator: nonces that never repeat across reboots

    [firmware/brainstem/src/counter.rs] with the boot sequence and the top-up
    task of [firmware/brainstem/src/bin/main.rs].  The allocator's atomics are
    a pair of values; [try_next] is given both as one call and as the three
    atomic accesses of its loop, which interleave with other tasks, with the
    top-up task and with power cuts. *)
From S2P Require Import Prelude Wire Replay Inbox Store.

(** ** The allocator *)

(** [static NEXT] and [static CEILING]. *)
Record Counter := mkCounter { NEXT : Z; CEILING : Z }.

#[export] Instance Counter_eq_dec : EqDecision Counter.
Proof. solve_decision. Defined.

Definition counter_static : Counter := mkCounter 0 0.

Definition counter_init (previous_high_water new_ceiling : Z) : Counter :=
  mkCounter (sat_add64 previous_high_water 1) new_ceiling.

Definition raise_ceiling (k : Counter) (new_ceiling : Z) : Counter :=
  mkCounter (NEXT k) (Z.max (CEILING k) new_ceiling).

(** [n == 0 || n > CEILING]. *)
Definition refused (k : Counter) (n : Z) : bool := (n =? 0) || (CEILING k <? n).

(** [try_next] when no other task runs in between. *)
Definition try_next (k : Counter) : Counter * option Z :=
  let n := NEXT k in
  if refused k n then (k, None) else (mkCounter (as_u64 (n + 1)) (CEILING k), Some n).

Definition remaining (k : Counter) : Z := sat_sub (CEILING k) (NEXT k).
Definition ceiling (k : Counter) : Z := CEILING k.

Definition CTR_LOW_WATER : Z := 128.

(** ** The running board: tasks, flash, power cuts *)

(** Where a task is in the loop of [try_next]. *)
Inductive pc := Idle | Loaded (n : Z) | Checked (n : Z).

#[export] Instance pc_eq_dec : EqDecision pc.
Proof. solve_decision. Defined.

Section Board.
Context {F : Type} `{!FlashOps F}.

(** [issued] and [promised] are ghosts: every counter handed out since the
    board was made, and the highest ceiling a reservation ever confirmed. *)
Record board := mkBoard {
  bd_flash : F;
  bd_counter : Counter;
  bd_tasks : list pc;
  bd_reserved : option Z;
  bd_issued : list Z;
  bd_promised : Z
}.

(** The counter part of [main]: reserve, then [counter::init]; on a torn
    high-water stay silent. *)
Definition boot_counter (f : F) : F * Counter * Z :=
  match reserve_counters f with
  | (f, Ok (previous, ceiling)) => (f, counter_init previous ceiling, ceiling)
  | (f, Err _) => (f, counter_static, 0)
  end.

Inductive board_step : board -> board -> Prop :=
| step_load f k ts res iss pr i (Hi : ts !! i = Some Idle) :
    board_step (mkBoard f k ts res iss pr) (mkBoard f k (<[i := Loaded (NEXT k)]> ts) res iss pr)
| step_refuse f k ts res iss pr i n (Hi : ts !! i = Some (Loaded n)) (Hg : refused k n = true) :
    board_step (mkBoard f k ts res iss pr) (mkBoard f k (<[i := Idle]> ts) res iss pr)
| step_check f k ts res iss pr i n (Hi : ts !! i = Some (Loaded n)) (Hg : refused k n = false) :
    board_step (mkBoard f k ts res iss pr) (mkBoard f k (<[i := Checked n]> ts) res iss pr)
| step_exchange f k ts res iss pr i n (Hi : ts !! i = Some (Checked n)) (Hg : NEXT k = n) :
    board_step (mkBoard f k ts res iss pr)
      (mkBoard f (mkCounter (as_u64 (n + 1)) (CEILING k)) (<[i := Idle]> ts) res (n :: iss) pr)
| step_retry f k ts res iss pr i n (Hi : ts !! i = Some (Checked n)) (Hg : NEXT k <> n) :
    board_step (mkBoard f k ts res iss pr) (mkBoard f k (<[i := Idle]> ts) res iss pr)
| step_reserve f k ts res iss pr f' r
    (Hlow : remaining k < CTR_LOW_WATER) (Hres : reserve_counters f = (f', r)) :
    board_step (mkBoard f k ts res iss pr)
      (mkBoard f' k ts
         (match r with Ok (_, c) => Some c | Err _ => None end) iss
         (match r with Ok (_, c) => Z.max pr c | Err _ => pr end))
| step_raise f k ts c iss pr :
    board_step (mkBoard f k ts (Some c) iss pr) (mkBoard f (raise_ceiling k c) ts None iss pr)
| step_reboot f k ts res iss pr f' k' c n (Hboot : boot_counter f = (f', k', c)) :
    board_step (mkBoard f k ts res iss pr)
      (mkBoard f' k' (replicate n Idle) None iss (Z.max pr c)).

(** A board before its first boot. *)
Definition board_new (f : F) : board := mkBoard f counter_static [] None [] 0.

(** What holds of every reachable board below saturation. *)
Record board_ok (b : board) : Prop := {
  bo_flash v : fetch_u64 (bd_flash b) KEY_CTR_HW = Ok (Some v) -> bd_promised b <= v;
  bo_blank : fetch_u64 (bd_flash b) KEY_CTR_HW = Ok None -> bd_promised b = 0;
  bo_ceiling : 0 <= CEILING (bd_counter b) <= bd_promised b;
  bo_reserved c : bd_reserved b = Some c -> c <= bd_promised b;
  bo_next : 0 <= NEXT (bd_counter b) <= u64_max;
  bo_tasks i n : bd_tasks b !! i = Some (Checked n) -> n <> 0 /\ n <= CEILING (bd_counter b);
  bo_issued c : c ∈ bd_issued b ->
    1 <= c <= bd_promised b /\ (NEXT (bd_counter b) = 0 \/ c < NEXT (bd_counter b));
  bo_nodup : NoDup (bd_issued b)
}.

End Board.
Arguments board F : clear implicits.

(** ** Lemmas *)

Section CounterLemmas.
Context {F : Type} `{!FlashOps F} `{!FlashLaws F}.

(** A flash whose high-water record, if readable, is a [u64]. *)
Definition flash_u64 (f : F) : Prop :=
  forall v, fetch_u64 f KEY_CTR_HW = Ok (Some v) -> is_u64 v.

Lemma fetch_u64_item (f : F) k o :
  fetch_u64 f k = Ok o -> fetch_item f k = Ok (ItemU64 <$> o).
Proof.
  unfold fetch_u64. destruct (fetch_item f k) as [[[]|]|]; simpl; by intros [= <-].
Qed.

(** The outcomes of a reservation. *)
Lemma reserve_counters_cases (f f' : F) r :
  reserve_counters f = (f', r) ->
  (exists v, (fetch_u64 f KEY_CTR_HW = Ok (Some v) \/ (v = 0 /\ fetch_u64 f KEY_CTR_HW = Ok None)) /\
     ((r = Ok (v, sat_add64 v CTR_RESERVATION) /\
       fetch_u64 f' KEY_CTR_HW = Ok (Some (sat_add64 v CTR_RESERVATION)))
      \/ (r = Err tt /\
          (fetch_u64 f' KEY_CTR_HW = fetch_u64 f KEY_CTR_HW \/
           fetch_u64 f' KEY_CTR_HW = Ok (Some (sat_add64 v CTR_RESERVATION)) \/
           fetch_u64 f' KEY_CTR_HW = Err tt))) /\ (v = 0 -> sat_add64 v CTR_RESERVATION = CTR_RESERVATION))
  \/ (fetch_u64 f KEY_CTR_HW = Err tt /\ f' = f /\ r = Err tt).
Proof.
  unfold reserve_counters. destruct (fetch_u64 f KEY_CTR_HW) as [o|[]] eqn:Ef.
  2: { simpl. intros [= <- <-]. by right. }
  assert (reserve_from_stored (Ok o) CTR_RESERVATION =
    Ok (default 0 o, sat_add64 (default 0 o) CTR_RESERVATION)) as -> by (by destruct o).
  left. exists (default 0 o). split; [destruct o; auto|]. split; [|by intros ->].
  destruct (store_item f KEY_CTR_HW _) as [f1 [[]|[]]] eqn:Es; simplify_eq.
  - left. split; [done|]. unfold fetch_u64. by rewrite (store_ok _ _ _ _ Es).
  - right. split; [done|].
    destruct (store_err _ _ _ _ Es) as [E|[E|E]]; [left|right; left|right; right];
      revert Ef; unfold fetch_u64; rewrite E; congruence.
Qed.

Lemma sat_add64_ge v : is_u64 v -> v <= sat_add64 v CTR_RESERVATION <= u64_max.
Proof. unfold CTR_RESERVATION. ulia. Qed.

(** A reservation keeps the promise of the flash, and what it confirms lies
    above everything promised before. *)
Lemma reserve_counters_promise (f f' : F) r pr :
  flash_u64 f ->
  (forall v, fetch_u64 f KEY_CTR_HW = Ok (Some v) -> pr <= v) ->
  (fetch_u64 f KEY_CTR_HW = Ok None -> pr = 0) ->
  reserve_counters f = (f', r) ->
  flash_u64 f' /\
  (forall v, fetch_u64 f' KEY_CTR_HW = Ok (Some v) ->
     match r with Ok (_, c) => c <= v | Err _ => pr <= v end) /\
  (fetch_u64 f' KEY_CTR_HW = Ok None -> r = Err tt /\ pr = 0) /\
  match r with Ok (p, c) => 0 <= p /\ pr <= p <= c | Err _ => True end.
Proof.
  intros Hu Hv Hn Hr. unfold flash_u64 in *.
  destruct (reserve_counters_cases f f' r Hr) as [(v & Hf & Hcase & H0)|(E & -> & ->)].
  2: { split_and!; [done|by rewrite E|by rewrite E|done]. }
  assert (is_u64 v /\ pr <= v) as [Hv64 Hpr].
  { destruct Hf as [E|[-> E]]; [by auto|]. split; [ulia|]. rewrite (Hn E). lia. }
  pose proof (sat_add64_ge v Hv64) as Hge. assert (0 <= v) by ulia.
  assert (is_u64 (sat_add64 v CTR_RESERVATION)) as Hs by (split; [lia|apply Hge]).
  set (c := sat_add64 v CTR_RESERVATION) in *. clearbody c.
  destruct Hcase as [[-> E]|[-> [E|[E|E]]]]; rewrite E.
  - split_and!; [by intros ? [= <-]|intros ? [= <-]; lia|done|lia|lia|lia].
  - split_and!; auto.
  - split_and!; [by intros ? [= <-]|intros ? [= <-]; lia|done|done].
  - by split_and!.
Qed.

Lemma NoDup_cons_lt (c : Z) l : (forall x, x ∈ l -> x < c) -> NoDup l -> NoDup (c :: l).
Proof. intros H Hl. constructor; [|done]. intros Hc%H. lia. Qed.

Lemma tasks_insert_other (ts : list pc) i p (P : Z -> Prop) :
  (forall n, p = Checked n -> P n) -> (forall j n, ts !! j = Some (Checked n) -> P n) ->
  forall j n, <[i := p]> ts !! j = Some (Checked n) -> P n.
Proof.
  intros Hp Hts j n. rewrite list_lookup_insert. case_decide; [|apply Hts]. intros [= ->]. by apply Hp.
Qed.

(** Every step keeps the invariant, as long as the promises stay below the top
    of [u64]. *)
Lemma board_step_ok (b b' : board F) :
  board_step b b' -> bd_promised b' < u64_max ->
  flash_u64 (bd_flash b) -> board_ok b -> flash_u64 (bd_flash b') /\ board_ok b'.
Proof.
  intros Hstep Hpr Hu [H1 H2 H3 H4 H5 H6 H7 H8].
  destruct Hstep; simpl in *;
    try (split; [done|]; split; simpl; try done;
         eapply tasks_insert_other; [|exact H6]; simpl; try done;
         intros ? [= <-]; unfold refused in *; split; lia).
  - (* exchange *)
    apply H6 in Hi as Hn. destruct Hn as [Hn0 Hnc]. subst n.
    assert (as_u64 (NEXT k + 1) = NEXT k + 1) as Enext.
    { unfold as_u64. apply Z.mod_small. ulia. }
    split; [done|]. split; simpl; try done.
    + ulia.
    + eapply tasks_insert_other; [|exact H6]; done.
    + intros c [->|Hc]%elem_of_cons; [lia|]. apply H7 in Hc. lia.
    + apply NoDup_cons_lt; [|done]. intros c Hc. apply H7 in Hc. lia.
  - (* reserve *)
    destruct (reserve_counters_promise f f' r pr Hu H1 H2 Hres) as (Hu' & Hv & Hnone & Hr).
    split; [done|]. destruct r as [[p c]|[]]; split; simpl in *; try done.
    + intros v E. apply Hv in E. lia.
    + intros E. by apply Hnone in E as [? _].
    + lia.
    + intros c' [= <-]. lia.
    + intros c' Hc. apply H7 in Hc. lia.
    + intros E. by apply Hnone in E as [_ ?].
  - (* raise *)
    specialize (H4 c eq_refl). split; [done|]. split; simpl; try done; [lia|].
    intros j n Hj. apply H6 in Hj. lia.
  - (* reboot *)
    unfold boot_counter in Hboot. destruct (reserve_counters f) as [f1 r] eqn:Er.
    destruct (reserve_counters_promise f f1 r pr Hu H1 H2 Er) as (Hu' & Hv & Hnone & Hr).
    destruct r as [[p c0]|[]]; simplify_eq; (split; [done|]); split; simpl in *; try done.
    + intros v E. apply Hv in E. lia.
    + intros E. by apply Hnone in E as [? _].
    + lia.
    + unfold sat_add64. ulia.
    + intros j m Hj. by apply lookup_replicate in Hj as [? _].
    + intros x Hx. apply H7 in Hx as [Hx _]. split; [lia|]. right. unfold sat_add64. ulia.
    + intros v E. apply Hv in E. lia.
    + intros E. apply Hnone in E as [_ ->]. lia.
    + lia.
    + intros j m Hj. by apply lookup_replicate in Hj as [? _].
    + intros x Hx. apply H7 in Hx as [Hx _]. split; [lia|]. by left.
Qed.

Lemma board_step_promised (b b' : board F) : board_step b b' -> bd_promised b <= bd_promised b'.
Proof. destruct 1; simpl; try lia. destruct r as [[]|]; lia. Qed.

Lemma board_steps_promised (b b' : board F) : rtc board_step b b' -> bd_promised b <= bd_promised b'.
Proof. induction 1; [lia|]. apply board_step_promised in H. lia. Qed.

Lemma board_steps_ok (b b' : board F) :
  rtc board_step b b' -> bd_promised b' < u64_max ->
  flash_u64 (bd_flash b) -> board_ok b -> board_ok b'.
Proof.
  induction 1 as [|b b1 b' Hs Hss IH]; intros Hpr Hu Hok; [done|].
  apply board_steps_promised in Hss as Hle.
  destruct (board_step_ok b b1 Hs) as [Hu1 Hok1]; [lia|done|done|]. by apply IH.
Qed.

Lemma board_new_ok (f : F) : flash_u64 f -> board_ok (board_new f).
Proof.
  intros Hu. split; simpl; try done; try lia.
  - intros v Hv%Hu. ulia.
  - intros c Hc. by apply not_elem_of_nil in Hc.
  - constructor.
Qed.

End CounterLemmas.

(** ** Properties *)

(** C14: no nonce is ever reused.  Start a board from any flash and let tasks
    run [try_next] with their atomic accesses interleaved in any order, let the
    top-up task reserve and raise at any time, let any flash write fail with
    either value or an unreadable record left behind, and cut the power
    anywhere, any number of times: as long as the reservations stay below the
    top of [u64], all counters handed out over the board's whole life are
    distinct, nonzero, and at most the highest ceiling flash confirmed. *)
Theorem counters_never_reused {F} `{FlashLaws F} (f : F) (b : board F) :
  flash_u64 f -> rtc board_step (board_new f) b -> bd_promised b < u64_max ->
  NoDup (bd_issued b) /\ forall c, c ∈ bd_issued b -> 1 <= c <= bd_promised b.
Proof.
  intros Hu Hs Hpr. destruct (board_steps_ok _ _ Hs Hpr Hu (board_new_ok f Hu)) as [_ _ _ _ _ _ Hi Hn].
  split; [done|]. intros c Hc. by apply Hi.
Qed.

(** Boot, hand out two counters, lose power, boot again, hand out one more. *)
Definition demo_board : board mem_flash :=
  mkBoard (mkMem {[KEY_CTR_HW := ItemU64 2048]} []) (mkCounter 1026 2048) [Idle] None [1025; 2; 1] 2048.

Ltac board_call i :=
  eapply rtc_l; [eapply (step_load _ _ _ _ _ _ i); reflexivity|];
  eapply rtc_l; [eapply (step_check _ _ _ _ _ _ i); reflexivity|];
  eapply rtc_l; [eapply (step_exchange _ _ _ _ _ _ i); reflexivity|].

Ltac board_boot := eapply rtc_l; [eapply (step_reboot _ _ _ _ _ _ _ _ _ 1); vm_compute; reflexivity|].

Lemma demo_board_reachable : rtc board_step (board_new blank_flash) demo_board.
Proof. board_boot. board_call 0%nat. board_call 0%nat. board_boot. board_call 0%nat. apply rtc_refl. Qed.

Lemma counters_never_reused_witness : NoDup (bd_issued demo_board).
Proof.
  eapply (counters_never_reused blank_flash demo_board).
  - intros v Hv. discriminate.
  - exact demo_board_reachable.
  - reflexivity.
Defined.

(** A board whose high-water record has reached the top of [u64]. *)
Definition saturated_flash : mem_flash := mkMem {[KEY_CTR_HW := ItemU64 u64_max]} [].

(** the bound of the previous theorem is needed.  With the high-water
    record saturated at [u64::MAX], every boot resumes at [u64::MAX] itself, so
    two boots hand out the same counter. *)
Theorem counter_reuse_at_saturation :
  exists b : board mem_flash, rtc board_step (board_new saturated_flash) b /\
    bd_issued b = [u64_max; u64_max] /\ ~ NoDup (bd_issued b).
Proof.
  eexists. split; [|split].
  - board_boot. board_call 0%nat. board_boot. board_call 0%nat. apply rtc_refl.
  - reflexivity.
  - intros Hn. apply NoDup_cons in Hn as [Hn _]. apply Hn. left.
Qed.
