(* ===== verification/Neighbors.v ===== *)
(** * Radio neighbour liveness

    [firmware/brainstem/src/neighbors.rs]: a bounded table of peers on the air.
    Unlike the replay table it may evict, and evicts the stalest entry. *)
From S2P Require Import Prelude.

Definition MAX_NEIGHBORS : nat := 8.
Definition NEIGHBOR_TIMEOUT_MS : Z := 30000.

Record Entry := mkEntry { en_node_id : Z; en_last_seen_ms : Z; en_rssi_dbm : Z }.

Abbreviation Neighbors := (list (option Entry)).

Definition neighbors_new : Neighbors := replicate MAX_NEIGHBORS None.

(** [matches!(e, Some(x) if x.node_id == node_id)]. *)
Definition entry_is (node_id : Z) (e : option Entry) : bool :=
  match e with Some x => en_node_id x =? node_id | None => false end.

(** [min_by_key] over the occupied slots: the first of the smallest keys. *)
Fixpoint stalest (l : Neighbors) (i : nat) (best : option (nat * Z)) : option (nat * Z) :=
  match l with
  | [] => best
  | None :: l => stalest l (S i) best
  | Some x :: l =>
      stalest l (S i)
        (match best with
         | Some (_, seen) => if en_last_seen_ms x <? seen then Some (i, en_last_seen_ms x) else best
         | None => Some (i, en_last_seen_ms x)
         end)
  end.

(** [slot_for]: the table (with the evicted slot emptied) and the slot's index. *)
Definition slot_for (t : Neighbors) (node_id : Z) : Neighbors * option nat :=
  match position (entry_is node_id) t with
  | Some i => (t, Some i)
  | None =>
      match position is_noneb t with
      | Some i => (t, Some i)
      | None =>
          match stalest t 0 None with
          | Some (i, _) => (<[i := None]> t, Some i)
          | None => (t, None)
          end
      end
  end.

Definition heard (t : Neighbors) (node_id rssi_dbm now_ms : Z) : Neighbors :=
  match slot_for t node_id with
  | (t, None) => t
  | (t, Some i) =>
      let entry := match t !! i with Some (Some e) => e | _ => mkEntry node_id now_ms rssi_dbm end in
      <[i := Some (mkEntry (en_node_id entry) now_ms rssi_dbm)]> t
  end.

Definition entry_alive (now_ms : Z) (e : Entry) : bool :=
  sat_sub now_ms (en_last_seen_ms e) <? NEIGHBOR_TIMEOUT_MS.

Definition alive (t : Neighbors) (now_ms : Z) : Z :=
  zlen (filter (fun e => entry_alive now_ms e = true) (omap id t)).

Definition is_alive (t : Neighbors) (node_id now_ms : Z) : bool :=
  existsb (fun e => (en_node_id e =? node_id) && entry_alive now_ms e) (omap id t).

Definition rssi (t : Neighbors) (node_id : Z) : option Z :=
  i ← position (entry_is node_id) t; e ← t !! i; en_rssi_dbm <$> e.

(** ** Well-formed tables *)

(** What the table knows of a node. *)
Definition known (t : Neighbors) (id : Z) (e : Entry) : Prop :=
  en_node_id e = id /\ exists i, t !! i = Some (Some e).

Definition neighbors_ok (t : Neighbors) : Prop :=
  length t = MAX_NEIGHBORS /\
  forall i j e e', t !! i = Some (Some e) -> t !! j = Some (Some e') ->
    en_node_id e = en_node_id e' -> i = j.

(** ** Lemmas *)

Lemma entry_is_true id e : entry_is id e = true <-> exists x, e = Some x /\ en_node_id x = id.
Proof. destruct e; simpl; [rewrite Z.eqb_eq|]; naive_solver. Qed.

Lemma position_entry_None id t :
  position (entry_is id) t = None <-> forall i e, t !! i = Some (Some e) -> en_node_id e <> id.
Proof.
  rewrite position_None. split.
  - intros H i e Hi E. apply list_elem_of_lookup_2, H in Hi. simpl in Hi. lia.
  - intros H s Hs. destruct (entry_is id s) eqn:E; [|done]. apply entry_is_true in E as (x & -> & E).
    apply list_elem_of_lookup_1 in Hs as (i & Hi). by apply H in Hi.
Qed.

(** [stalest] finds an occupied slot no other occupied slot is staler than. *)
Lemma stalest_spec l i best :
  match stalest l i best with
  | Some (j, seen) =>
      ((exists seen', best = Some (j, seen') /\ seen = seen') \/
       exists k e, j = (i + k)%nat /\ l !! k = Some (Some e) /\ en_last_seen_ms e = seen) /\
      (forall b, best = Some b -> seen <= b.2) /\
      (forall k e, l !! k = Some (Some e) -> seen <= en_last_seen_ms e)
  | None => best = None /\ forall k e, l !! k <> Some (Some e)
  end.
Proof.
  revert i best; induction l as [|[x|] l IH]; intros i best; simpl.
  - destruct best as [[j s]|]; [|done]. split_and!; [left; eauto| |done]. intros b [= <-]. simpl. lia.
  - set (best' := match best with Some _ => _ | None => _ end).
    specialize (IH (S i) best'). destruct (stalest l (S i) best') as [[j s]|].
    + destruct IH as (Hw & Hb & Hl). split_and!.
      * destruct Hw as [(s' & E & ->)|(k & e & -> & Hk & Ek)].
        2: { right. exists (S k), e. split; [lia|done]. }
        unfold best' in E. destruct best as [[j0 s0]|].
        -- destruct (Z.ltb_spec (en_last_seen_ms x) s0); simplify_eq; [|left; eauto].
           right. exists 0%nat, x. split; [lia|done].
        -- simplify_eq. right. exists 0%nat, x. split; [lia|done].
      * intros [j0 s0] ->. simpl. unfold best' in Hb.
        destruct (Z.ltb_spec (en_last_seen_ms x) s0); specialize (Hb _ eq_refl); simpl in *; lia.
      * intros [|k] e Hk; simplify_eq/=; [|by eapply Hl].
        unfold best' in Hb. destruct best as [[j0 s0]|]; [|by specialize (Hb _ eq_refl)].
        destruct (Z.ltb_spec (en_last_seen_ms e) s0); specialize (Hb _ eq_refl); simpl in *; lia.
    + destruct IH as [E _]. unfold best' in E. destruct best as [[j0 s0]|]; [|done].
      by destruct (_ <? _).
  - specialize (IH (S i) best). destruct (stalest l (S i) best) as [[j s]|].
    + destruct IH as (Hw & Hb & Hl). split_and!; [|done|].
      * destruct Hw as [?|(k & e & -> & Hk & Ek)]; [auto|]. right. exists (S k), e. split; [lia|done].
      * intros [|k] e Hk; simplify_eq/=. by eapply Hl.
    + destruct IH as [? Hl]. split; [done|]. intros [|k] e Hk; simplify_eq/=. by eapply Hl.
Qed.

(** The slot [heard] writes, and what was in it. *)
Lemma slot_for_spec t id t' i :
  neighbors_ok t -> slot_for t id = (t', Some i) ->
  (i < length t)%nat /\ length t' = length t /\
  (forall j, j <> i -> t' !! j = t !! j) /\
  ((exists e, t !! i = Some (Some e) /\ t' !! i = Some (Some e) /\ en_node_id e = id) \/
   (t' !! i = Some None /\ (forall j e, t !! j = Some (Some e) -> en_node_id e <> id) /\
    (t !! i = Some None \/
     (occupied t = length t /\ exists e, t !! i = Some (Some e) /\
        forall j e', t !! j = Some (Some e') -> en_last_seen_ms e <= en_last_seen_ms e')))).
Proof.
  intros [Hlen Hu]. unfold slot_for. destruct (position (entry_is id) t) as [k|] eqn:E1.
  - intros [= <- <-]. apply position_Some in E1 as [(s & Hs & Hp) _].
    apply entry_is_true in Hp as (x & -> & Ex). split_and!; [by eapply lookup_lt_Some|done|done|].
    left. eauto.
  - rewrite position_entry_None in E1. destruct (position is_noneb t) as [k|] eqn:E2.
    + intros [= <- <-]. apply position_Some in E2 as [([|] & Hs & Hp) _]; [done|].
      split_and!; [by eapply lookup_lt_Some|done|done|]. right. auto.
    + apply occupied_full in E2. pose proof (stalest_spec t 0 None) as H.
      destruct (stalest t 0 None) as [[k s]|]; [|done]. intros [= <- <-].
      destruct H as ([(? & ? & _)|(k' & e & -> & Hk & <-)] & _ & Hmin); [done|]. simpl in *.
      assert (k' < length t)%nat by (by eapply lookup_lt_Some).
      split_and!; [done|by rewrite length_insert| |].
      * intros j Hj. by rewrite list_lookup_insert_ne.
      * right. split_and!; [by rewrite list_lookup_insert_eq|done|right]. eauto.
Qed.

Lemma slot_for_Some t id : neighbors_ok t -> exists t' i, slot_for t id = (t', Some i).
Proof.
  intros [Hlen _]. unfold slot_for. destruct (position (entry_is id) t); [eauto|].
  destruct (position is_noneb t) eqn:Efree; [eauto|].
  pose proof (stalest_spec t 0 None) as Hs. destruct (stalest t 0 None) as [[i s]|]; [eauto|].
  destruct Hs as [_ Hs].
  destruct (lookup_lt_is_Some_2 t 0) as ([e|] & He); [rewrite Hlen; unfold MAX_NEIGHBORS; lia| |].
  - by destruct (Hs 0%nat e).
  - rewrite position_None in Efree. by apply list_elem_of_lookup_2, Efree in He.
Qed.

(** [heard] writes the fresh entry into one slot and keeps all the others. *)
Lemma heard_shape t id r now :
  neighbors_ok t ->
  exists i : nat, length (heard t id r now) = length t /\
    (forall j e, heard t id r now !! j = Some (Some e) <->
       (j = i /\ e = mkEntry id now r) \/ (j <> i /\ t !! j = Some (Some e))) /\
    (forall j e, j <> i -> t !! j = Some (Some e) -> en_node_id e <> id) /\
    (forall e, t !! i = Some (Some e) -> en_node_id e <> id ->
       occupied t = length t /\ (forall j e', t !! j = Some (Some e') -> en_node_id e' <> id) /\
       forall j e', t !! j = Some (Some e') -> en_last_seen_ms e <= en_last_seen_ms e').
Proof.
  intros Ht. destruct (slot_for_Some t id Ht) as (t' & i & Eslot).
  destruct (slot_for_spec t id t' i Ht Eslot) as (Hi & Hlen' & Hother & Hcase).
  unfold heard. rewrite Eslot. set (new := mkEntry id now r).
  assert (<[i := Some (mkEntry (en_node_id (match t' !! i with Some (Some e) => e | _ => new end)) now r)]> t'
          = <[i := Some new]> t') as ->.
  { destruct Hcase as [(e & _ & -> & Eid)|(-> & _)]; [by rewrite Eid|done]. }
  exists i. split_and!.
  - by rewrite length_insert.
  - intros j e. destruct (decide (j = i)) as [->|Hne].
    + rewrite list_lookup_insert_eq by lia. naive_solver.
    + rewrite list_lookup_insert_ne, Hother by done. naive_solver.
  - intros j e Hj Hje E. destruct Hcase as [(e' & He' & _ & E')|(_ & Hn & _)]; [|by eapply Hn].
    destruct Hj. eapply (proj2 Ht); [done|done|congruence].
  - intros e He Hne. destruct Hcase as [(e' & He' & _ & E')|(_ & Hn & [?|(Hocc & e' & He' & Hmin)])];
      try congruence. by simplify_eq.
Qed.

(** ** Properties *)

(** hearing a node is recorded exactly.  Afterwards the node is known with
    the given time and signal (and so alive at that moment); every other node's
    entry is unchanged, except that when the table was full of other nodes one
    entry is forgotten, and it is one that was heard least recently. *)
Theorem neighbors_heard_correct (t : Neighbors) (id r now : Z) :
  neighbors_ok t ->
  neighbors_ok (heard t id r now) /\ known (heard t id r now) id (mkEntry id now r) /\
  is_alive (heard t id r now) id now = true /\
  (forall id' e, id' <> id -> known (heard t id r now) id' e -> known t id' e) /\
  (forall id' e, id' <> id -> known t id' e ->
     known (heard t id r now) id' e \/
     (occupied t = MAX_NEIGHBORS /\ (forall e', ~ known t id e') /\
      forall id'' e'', known t id'' e'' -> en_last_seen_ms e <= en_last_seen_ms e'')).
Proof.
  intros Ht. pose proof Ht as [Hlen Hu].
  destruct (heard_shape t id r now Ht) as (i & Hlen' & Hinv & Hno & Hev). split_and!.
  - split; [by rewrite Hlen', Hlen|].
    intros j1 j2 e1 e2 [[-> ->]|[? H1]]%Hinv [[-> ->]|[? H2]]%Hinv E; [done| | |by eapply Hu].
    + by destruct (Hno _ _ H H2).
    + by destruct (Hno _ _ H H1).
  - split; [done|]. exists i. apply Hinv. auto.
  - unfold is_alive. apply existsb_exists. exists (mkEntry id now r). split.
    + apply list_elem_of_In, list_elem_of_omap. exists (Some (mkEntry id now r)). split; [|done].
      eapply list_elem_of_lookup_2. apply Hinv. auto.
    + simpl. rewrite Z.eqb_refl. unfold entry_alive, NEIGHBOR_TIMEOUT_MS; simpl. ulia.
  - intros id' e Hne [E (j & [[-> ->]|[Hj Hje]]%Hinv)]; [by simpl in E|]. split; eauto.
  - intros id' e Hne [E (j & Hj)]. destruct (decide (j = i)) as [->|Hji].
    2: { left. split; [done|]. exists j. apply Hinv. auto. }
    right. destruct (Hev e Hj) as (Hocc & Hn & Hmin); [congruence|]. split_and!; [congruence| |].
    + intros e'' [E'' (k & Hk)]. by apply Hn in Hk.
    + intros id'' e'' [_ (k & Hk)]. eauto.
Qed.

Lemma neighbors_new_ok : neighbors_ok neighbors_new.
Proof.
  split; [done|]. intros i j e e' Hi. unfold neighbors_new in Hi. by apply lookup_replicate in Hi as [? _].
Qed.

Lemma neighbors_heard_correct_witness : is_alive (heard neighbors_new 5 (-60) 1000) 5 1000 = true.
Proof. apply (neighbors_heard_correct neighbors_new 5 (-60) 1000 neighbors_new_ok). Defined.
