(* ===== verification/Radio.v ===== *)
(** * The Tier-2a radio: HCI commands out, advertising reports in

    [firmware/brainstem/src/radio.rs].  The BLE controller is hardware: the
    bytes written to it and the bytes read from it are the boundary. *)
From S2P Require Import Prelude Wire Codecs Framing.

Definition COMPANY_ID : bytes := [255; 255].
Definition MAGIC : bytes := [65; 88].
Definition AD_OVERHEAD : Z := 5.
Definition MAX_GOSSIP_FRAME : Z := 254 - AD_OVERHEAD - 1.

(** The BLE controller: [write] and [read_async], a read being [None] on an
    error, a timeout or no data. *)
Class BleOps (C : Type) := {
  ble_write : C -> bytes -> C * result unit unit;
  ble_read : C -> C * option bytes
}.

(** [struct Heard]. *)
Record Heard := mkHeard { hd_frame : MeshFrame; hd_rssi_dbm : Z }.

Inductive RadioError := RadioCommand | RadioTooLarge.

(** [x as i8]. *)
Definition as_i8 (z : Z) : Z := if as_u8 z <? 128 then as_u8 z else as_u8 z - 256.

(** [data[i]] where the index is known to be in range. *)
Definition byte_at (b : bytes) (i : Z) : Z := default 0 (b !! Z.to_nat i).

(** [data[i..j]] on [usize] bounds known to be in range. *)
Definition zslice (i j : Z) (b : bytes) : bytes := slice (Z.to_nat i) (Z.to_nat j) b.

Section Radio.
Context `{!PostcardOps MeshFrame}.

(** The advertising-data command of [advertise], up to the controller write:
    the derived lengths and the bytes sent. *)
Definition advertise_command (frame : MeshFrame) : result bytes RadioError :=
  body <-! map_err (fun _ => RadioTooLarge) (encode_datagram frame);
  if MAX_GOSSIP_FRAME <? zlen body then Err RadioTooLarge
  else
    let ad_len := 1 + zlen COMPANY_ID + zlen MAGIC + zlen body in
    let adv_data_len := 1 + ad_len in
    let param_len := 4 + adv_data_len in
    Ok ([1; 55; 32; as_u8 param_len; 0; 3; 1; as_u8 adv_data_len; as_u8 ad_len; 255]
        ++ COMPANY_ID ++ MAGIC ++ body).

(** The AD-structure walk of [parse_ext_adv_report], from offset [i]. *)
Fixpoint walk_ad (fuel : nat) (data : bytes) (i : Z) : option MeshFrame :=
  match fuel with
  | O => None
  | S fuel =>
      if zlen data <=? i then None
      else
        let len := byte_at data i in
        if (len =? 0) || (zlen data <? i + 1 + len) then None
        else
          let ad_type := byte_at data (i + 1) in
          let body := zslice (i + 2) (i + 1 + len) data in
          let rest := walk_ad fuel data (i + (1 + len)) in
          if (ad_type =? 255) && (zlen COMPANY_ID + zlen MAGIC <? zlen body)
             && bool_decide (slice 0 2 body = COMPANY_ID) && bool_decide (slice 2 4 body = MAGIC)
          then match decode_datagram (drop 4 body) with Ok frame => Some frame | Err _ => rest end
          else rest
  end.

Definition HEADER : Z := 5.
Definition FIXED : Z := 23.

Definition parse_ext_adv_report (pkt : bytes) : option Heard :=
  if (zlen pkt <? HEADER + FIXED + 1) || negb (byte_at pkt 0 =? 4)
     || negb (byte_at pkt 1 =? 62) || negb (byte_at pkt 3 =? 13)
  then None
  else
    let rssi_dbm := as_i8 (byte_at pkt (HEADER + 13)) in
    let data_len := byte_at pkt (HEADER + FIXED) in
    let data_start := HEADER + FIXED + 1 in
    if zlen pkt <? data_start + data_len then None
    else
      let data := zslice data_start (data_start + data_len) pkt in
      (fun frame => mkHeard frame rssi_dbm) <$> walk_ad (S (length data)) data 0.

(** ** The controller *)

(** [self.command(cmd)]: write, then read until the matching completion, with
    asynchronous events skipped, at most [n] reads. *)
Fixpoint await_reply {C} `{!BleOps C} (n : nat) (c : C) : C * result unit RadioError :=
  match n with
  | O => (c, Err RadioCommand)
  | S n =>
      match ble_read c with
      | (c, None) => (c, Err RadioCommand)
      | (c, Some buf) =>
          if (7 <=? zlen buf) && (byte_at buf 0 =? 4) && (byte_at buf 1 =? 14)
          then (c, if byte_at buf 6 =? 0 then Ok tt else Err RadioCommand)
          else if (4 <=? zlen buf) && (byte_at buf 0 =? 4) && (byte_at buf 1 =? 15)
          then (c, if byte_at buf 3 =? 0 then Ok tt else Err RadioCommand)
          else await_reply n c
      end
  end.

Definition command {C} `{!BleOps C} (c : C) (cmd : bytes) : C * result unit RadioError :=
  match ble_write c cmd with
  | (c, Err _) => (c, Err RadioCommand)
  | (c, Ok _) => await_reply 64 c
  end.

(** Several commands, each awaited with [?]. *)
Fixpoint commands {C} `{!BleOps C} (c : C) (l : list bytes) : C * result unit RadioError :=
  match l with
  | [] => (c, Ok tt)
  | cmd :: l =>
      match command c cmd with
      | (c, Err e) => (c, Err e)
      | (c, Ok _) => commands c l
      end
  end.

Definition INTERVAL_UNITS : Z := 160.

(** [Radio::new]: reset, event masks, scan parameters, advertising set, scan. *)
Definition radio_new {C} `{!BleOps C} (c : C) : C * result unit RadioError :=
  let iv := le_bytes 2 INTERVAL_UNITS in
  commands c
    [ [1; 3; 12; 0];
      [1; 1; 12; 8; 255; 255; 255; 255; 255; 255; 255; 255];
      [1; 1; 32; 8; 255; 255; 255; 255; 255; 255; 255; 255];
      [1; 65; 32; 8; 0; 0; 1; 0] ++ iv ++ iv;
      [1; 54; 32; 25; 0; 0; 0] ++ iv ++ [0] ++ iv ++
        [0; 7; 0; 0; 0; 0; 0; 0; 0; 0; 0; 127; 1; 0; 1; 0; 0];
      [1; 66; 32; 6; 1; 0; 0; 0; 0; 0] ].

(** [Radio::advertise]: the data, then enable. *)
Definition advertise {C} `{!BleOps C} (c : C) (frame : MeshFrame) : C * result unit RadioError :=
  match advertise_command frame with
  | Err e => (c, Err e)
  | Ok cmd => commands c [cmd; [1; 57; 32; 6; 1; 1; 0; 0; 0; 0]]
  end.

(** [Radio::next_frame] over at most [n] controller events; [None] in the first
    component when the fuel runs out while reports keep failing to parse. *)
Fixpoint next_frame {C} `{!BleOps C} (n : nat) (c : C) : option (C * option Heard) :=
  match n with
  | O => None
  | S n =>
      match ble_read c with
      | (c, None) => Some (c, None)
      | (c, Some buf) =>
          match parse_ext_adv_report buf with
          | Some heard => Some (c, Some heard)
          | None => next_frame n c
          end
      end
  end.

(** ** The air between two radios *)

(** The advertising data a controller puts on the air for a command, as sized by
    its own length byte. *)
Definition adv_data (cmd : bytes) : bytes := zslice 8 (8 + byte_at cmd 7) cmd.

(** The event a receiving controller reports for advertising data: the header,
    23 bytes of fixed fields with the signal strength at offset 13, the data
    length and the data. *)
Definition adv_report (evt_len : Z) (pre : bytes) (rssi : Z) (post : bytes) (data : bytes) : bytes :=
  [4; 62; evt_len; 13; 1] ++ pre ++ [rssi] ++ post ++ [zlen data] ++ data.

End Radio.

(** ** Lemmas *)

Section RadioLemmas.
Context `{!PostcardOps MeshFrame}.

Lemma byte_at_app_r a b i : zlen a <= i -> byte_at (a ++ b) i = byte_at b (i - zlen a).
Proof.
  intros H'. unfold byte_at, zlen in *. rewrite lookup_app_r by lia. do 2 f_equal. lia.
Qed.

Lemma byte_at_mid a x b i : zlen a = i -> byte_at (a ++ x :: b) i = x.
Proof. intros <-. rewrite byte_at_app_r by lia. by rewrite Z.sub_diag. Qed.

Lemma zslice_tail a b i j :
  zlen a = i -> j = i + zlen b -> zslice i j (a ++ b) = b.
Proof.
  intros <- ->. unfold zslice, zlen. rewrite slice_app_r by lia. unfold slice.
  rewrite take_ge by (rewrite length_drop; lia).
  by replace (Z.to_nat (Z.of_nat (length a)) - length a)%nat with 0%nat by lia.
Qed.

Lemma zslice_app_r i j a b :
  zlen a <= i -> i <= j -> zslice i j (a ++ b) = zslice (i - zlen a) (j - zlen a) b.
Proof.
  intros Hi Hj. unfold zslice, zlen in *. rewrite slice_app_r by lia. f_equal; lia.
Qed.

Lemma zslice_all a n : zlen a = n -> zslice 0 n a = a.
Proof.
  intros <-. unfold zslice, zlen, slice. rewrite Nat2Z.id, Nat.sub_0_r, drop_0. by apply take_ge.
Qed.

(** One manufacturer-specific AD structure with our company id and magic. *)
Definition ad_structure (body : bytes) : bytes := [5 + zlen body; 255] ++ COMPANY_ID ++ MAGIC ++ body.

Lemma walk_ad_structure fuel body f :
  body <> [] -> decode_datagram body = Ok f -> walk_ad (S fuel) (ad_structure body) 0 = Some f.
Proof.
  intros Hne Hd. pose proof (zlen_nonneg body).
  assert (0 < zlen body) by (destruct body; [done|zlen_lia]).
  assert (zlen (ad_structure body) = 6 + zlen body) as Hl.
  { unfold ad_structure, COMPANY_ID, MAGIC. zlen_lia. }
  cbn [walk_ad]. rewrite Hl. destruct (Z.leb_spec (6 + zlen body) 0); [lia|].
  change (byte_at (ad_structure body) 0) with (5 + zlen body).
  change (byte_at (ad_structure body) (0 + 1)) with 255.
  destruct (Z.eqb_spec (5 + zlen body) 0); [lia|].
  destruct (Z.ltb_spec (6 + zlen body) (0 + 1 + (5 + zlen body))); [lia|]. cbn [orb].
  assert (zslice (0 + 2) (0 + 1 + (5 + zlen body)) (ad_structure body) = COMPANY_ID ++ MAGIC ++ body) as ->.
  { unfold ad_structure. rewrite zslice_app_r by zlen_lia. apply zslice_all.
    unfold COMPANY_ID, MAGIC. zlen_lia. }
  destruct (Z.ltb_spec (zlen COMPANY_ID + zlen MAGIC) (zlen (COMPANY_ID ++ MAGIC ++ body))) as [_|Hc].
  2: { unfold COMPANY_ID, MAGIC in *. zlen_lia. }
  change (drop 4 (COMPANY_ID ++ MAGIC ++ body)) with (drop 0 body).
  rewrite drop_0, Hd. by rewrite !bool_decide_true.
Qed.

Lemma parse_adv_report evt_len pre r post data f :
  length pre = 13%nat -> length post = 9%nat -> walk_ad (S (length data)) data 0 = Some f ->
  parse_ext_adv_report (adv_report evt_len pre r post data) = Some (mkHeard f (as_i8 r)).
Proof.
  intros Hpre Hpost Hw. pose proof (zlen_nonneg data).
  assert (zlen pre = 13) by (unfold zlen; lia). assert (zlen post = 9) by (unfold zlen; lia).
  assert (zlen (adv_report evt_len pre r post data) = 29 + zlen data) as Hl.
  { unfold adv_report. zlen_lia. }
  unfold parse_ext_adv_report, HEADER, FIXED. rewrite Hl.
  destruct (Z.ltb_spec (29 + zlen data) (5 + 23 + 1)); [lia|].
  change (byte_at (adv_report evt_len pre r post data) 0) with 4.
  change (byte_at (adv_report evt_len pre r post data) 1) with 62.
  change (byte_at (adv_report evt_len pre r post data) 3) with 13. cbn [orb negb Z.eqb Pos.eqb].
  assert (byte_at (adv_report evt_len pre r post data) (5 + 13) = r) as ->.
  { apply (byte_at_mid ([4; 62; evt_len; 13; 1] ++ pre)). zlen_lia. }
  assert (byte_at (adv_report evt_len pre r post data) (5 + 23) = zlen data) as ->.
  { unfold adv_report. rewrite !app_assoc, <- (app_assoc _ [zlen data]).
    apply (byte_at_mid (((_ ++ pre) ++ [r]) ++ post)). zlen_lia. }
  destruct (Z.ltb_spec (29 + zlen data) (5 + 23 + 1 + zlen data)); [lia|].
  assert (zslice (5 + 23 + 1) (5 + 23 + 1 + zlen data) (adv_report evt_len pre r post data) = data) as ->.
  { unfold adv_report. rewrite !app_assoc. apply zslice_tail; zlen_lia. }
  by rewrite Hw.
Qed.

Lemma advertise_command_Ok f cmd :
  advertise_command f = Ok cmd ->
  exists body, to_allocvec f = Some body /\ zlen body <= 248 /\
    cmd = [1; 55; 32; as_u8 (10 + zlen body); 0; 3; 1; 6 + zlen body] ++ ad_structure body.
Proof.
  unfold advertise_command, encode_datagram.
  destruct (to_allocvec f) as [body|]; [|done]. cbn [ok_or rbind].
  destruct (Z.ltb_spec MAX_DATAGRAM_FRAME (zlen body)); [done|]. cbn [map_err rbind].
  unfold MAX_GOSSIP_FRAME, MAX_DATAGRAM_FRAME, AD_OVERHEAD in *.
  destruct (Z.ltb_spec (254 - 5 - 1) (zlen body)); [done|]. intros [= <-].
  pose proof (zlen_nonneg body). exists body. split_and!; [done|done|].
  unfold ad_structure. change (zlen COMPANY_ID) with 2. change (zlen MAGIC) with 2.
  unfold as_u8. rewrite (Z.mod_small (1 + (1 + 2 + 2 + zlen body))), (Z.mod_small (1 + 2 + 2 + zlen body)) by lia.
  replace (4 + (1 + (1 + 2 + 2 + zlen body))) with (10 + zlen body) by lia.
  replace (1 + (1 + 2 + 2 + zlen body)) with (6 + zlen body) by lia.
  replace (1 + 2 + 2 + zlen body) with (5 + zlen body) by lia. done.
Qed.

End RadioLemmas.

(** ** Properties *)

(** what one radio advertises, another hears.  For every frame the radio
    agrees to send, the advertising data of its command, reported by a
    receiving controller with any fixed fields, parses back to that frame and
    the reported signal strength. *)
Theorem advertised_frame_is_heard `{PostcardLaws MeshFrame} (f : MeshFrame) (cmd : bytes)
    (evt_len : Z) (pre post : bytes) (rssi : Z) :
  advertise_command f = Ok cmd -> length pre = 13%nat -> length post = 9%nat ->
  parse_ext_adv_report (adv_report evt_len pre rssi post (adv_data cmd)) =
  Some (mkHeard f (as_i8 rssi)).
Proof.
  intros (body & Hb & Hl & ->)%advertise_command_Ok Hpre Hpost. pose proof (zlen_nonneg body).
  assert (adv_data ([1; 55; 32; as_u8 (10 + zlen body); 0; 3; 1; 6 + zlen body] ++ ad_structure body)
    = ad_structure body) as ->.
  { unfold adv_data. change (byte_at _ 7) with (6 + zlen body). rewrite zslice_app_r by zlen_lia.
    apply zslice_all. unfold ad_structure, COMPANY_ID, MAGIC. zlen_lia. }
  apply parse_adv_report; [done|done|]. apply walk_ad_structure; [by eapply postcard_nonempty|].
  unfold decode_datagram, MAX_DATAGRAM_FRAME. destruct (Z.ltb_spec 248 (zlen body)); [lia|].
  rewrite <- (app_nil_r body), (postcard_roundtrip f) by done. done.
Qed.

Lemma advertised_frame_is_heard_witness :
  exists cmd, advertise_command frame_a = Ok cmd /\
    parse_ext_adv_report (adv_report 9 (replicate 13 0) 200 (replicate 9 0) (adv_data cmd))
    = Some (mkHeard frame_a (-56)).
Proof.
  eexists. split; [vm_compute; reflexivity|].
  apply (advertised_frame_is_heard frame_a); vm_compute; reflexivity.
Defined.

(** the HCI parameter-length byte of the advertising command states the
    length of the parameters that follow exactly when the frame body is at most
    245 bytes; bodies of 246 to 248 bytes, which [MAX_GOSSIP_FRAME] admits, go
    out with a length byte 256 too small. *)
Theorem advertise_length_byte `{PostcardOps MeshFrame} (f : MeshFrame) (cmd body : bytes) :
  advertise_command f = Ok cmd -> to_allocvec f = Some body ->
  byte_at cmd 3 = (if zlen body <=? 245 then zlen cmd - 4 else zlen cmd - 4 - 256).
Proof.
  intros (b & Hb & Hl & ->)%advertise_command_Ok Hb'. assert (b = body) as -> by congruence. pose proof (zlen_nonneg body).
  change (byte_at _ 3) with (as_u8 (10 + zlen body)).
  assert (zlen ([1; 55; 32; as_u8 (10 + zlen body); 0; 3; 1; 6 + zlen body] ++ ad_structure body)
    = 14 + zlen body) as -> by (unfold ad_structure, COMPANY_ID, MAGIC; zlen_lia).
  unfold as_u8. destruct (Z.leb_spec (zlen body) 245).
  - rewrite Z.mod_small by lia. lia.
  - replace (10 + zlen body) with (zlen body - 246 + 1 * 256) by lia.
    rewrite Z.mod_add, Z.mod_small by lia. lia.
Qed.

(** A frame whose body is 248 bytes under the toy codec. *)
Definition frame_248 : MeshFrame := mkFrame 1 Gossip 7 1 (replicate 234 9).

Lemma advertise_length_byte_witness :
  let cmd := match advertise_command frame_248 with Ok c => c | Err _ => [] end in
  let body := default [] (to_allocvec frame_248) in
  zlen body = 248 /\ byte_at cmd 3 = (if zlen body <=? 245 then zlen cmd - 4 else zlen cmd - 4 - 256) /\
  byte_at cmd 3 = 2 /\ zlen cmd - 4 = 258.
Proof.
  split; [vm_compute; reflexivity|]. split; [|vm_compute; done].
  apply (advertise_length_byte frame_248); vm_compute; reflexivity.
Defined.
