(* ===== verification/Brainstem.v ===== *)
(** * The brainstem firmware: its tasks and what they promise

    [firmware/brainstem/src/bin/main.rs].  The statics the tasks share are one
    record, [Board]; every task body, and every iteration of a task's loop, is
    a function on it that runs without another task in between (the counter
    allocator, where the interleaving matters, is also modelled access by
    access in [Counter.v]).  [now] is the millisecond clock, read once per
    step; [send_sealed] is the [try_next]/[seal]/[advertise] chain the radio
    task spells out four times. *)
From S2P Require Import Prelude Wire Codecs Framing Replay Inbox Store Counter Neighbors Radio.

Definition UNPROVISIONED_NODE_ID : Z := 0.
Definition HEARTBEAT_MS : Z := 1000.
Definition STATUS_MS : Z := 5000.
Definition CORTEX_TIMEOUT_MS : Z := 5000.
Definition RADIO_BEAT_MS : Z := 2000.
Definition OUTBOX_RETRY_MS : Z := 4000.
Definition TX_QUEUE_CAP : Z := 8.
Definition HOST_ACCEPT_CAP : Z := 8.

(** How an inbound frame authenticated. *)
Inductive Inbound := Sealed (p : PlainPacket) | Plain (p : PlainPacket).

Section Brainstem.
Context {F : Type} `{!FlashOps F} {C : Type} `{!BleOps C}.
Context `{!PostcardOps MeshFrame} `{!PostcardOps PlainPacket} `{!CobsOps} `{!CrcOps} `{!AeadOps}.

(** ** The statics *)

Record Board := mkBd {
  LAST_INBOUND_MS : Z;
  NODE_ID : Z;
  IDENTITY : Identity;
  NEIGHBOR_COUNT : Z;
  QUEUE_DEPTH : Z;
  STORE : F;
  CTR : Counter;
  TX_QUEUE : list MeshFrame;
  HOST_ACCEPT : list (Z * Z)
}.

Definition set_last (w : Board) (x : Z) : Board :=
  mkBd x (NODE_ID w) (IDENTITY w) (NEIGHBOR_COUNT w) (QUEUE_DEPTH w) (STORE w) (CTR w)
    (TX_QUEUE w) (HOST_ACCEPT w).
Definition set_identity (w : Board) (n : Z) (i : Identity) : Board :=
  mkBd (LAST_INBOUND_MS w) n i (NEIGHBOR_COUNT w) (QUEUE_DEPTH w) (STORE w) (CTR w)
    (TX_QUEUE w) (HOST_ACCEPT w).
Definition set_neighbors (w : Board) (x : Z) : Board :=
  mkBd (LAST_INBOUND_MS w) (NODE_ID w) (IDENTITY w) x (QUEUE_DEPTH w) (STORE w) (CTR w)
    (TX_QUEUE w) (HOST_ACCEPT w).
Definition set_depth (w : Board) (x : Z) : Board :=
  mkBd (LAST_INBOUND_MS w) (NODE_ID w) (IDENTITY w) (NEIGHBOR_COUNT w) x (STORE w) (CTR w)
    (TX_QUEUE w) (HOST_ACCEPT w).
Definition set_store (w : Board) (f : F) : Board :=
  mkBd (LAST_INBOUND_MS w) (NODE_ID w) (IDENTITY w) (NEIGHBOR_COUNT w) (QUEUE_DEPTH w) f (CTR w)
    (TX_QUEUE w) (HOST_ACCEPT w).
Definition set_ctr (w : Board) (k : Counter) : Board :=
  mkBd (LAST_INBOUND_MS w) (NODE_ID w) (IDENTITY w) (NEIGHBOR_COUNT w) (QUEUE_DEPTH w) (STORE w) k
    (TX_QUEUE w) (HOST_ACCEPT w).
Definition set_tx (w : Board) (q : list MeshFrame) : Board :=
  mkBd (LAST_INBOUND_MS w) (NODE_ID w) (IDENTITY w) (NEIGHBOR_COUNT w) (QUEUE_DEPTH w) (STORE w)
    (CTR w) q (HOST_ACCEPT w).
Definition set_host (w : Board) (q : list (Z * Z)) : Board :=
  mkBd (LAST_INBOUND_MS w) (NODE_ID w) (IDENTITY w) (NEIGHBOR_COUNT w) (QUEUE_DEPTH w) (STORE w)
    (CTR w) (TX_QUEUE w) q.

(** ** Outbound on the cable *)

Definition frame_for (w : Board) (payload : Payload) (class : MeshClass) (target flags : Z)
    : Board * option MeshFrame :=
  match to_allocvec (mkPacket target 1 flags payload) with
  | None => (w, None)
  | Some ct =>
      match try_next (CTR w) with
      | (k, None) => (set_ctr w k, None)
      | (k, Some ctr) => (set_ctr w k, Some (mkFrame WIRE_VERSION class (NODE_ID w) ctr ct))
      end
  end.

(** [enqueue]: [try_send] on the bounded channel. *)
Definition enqueue (w : Board) (frame : MeshFrame) : Board :=
  if zlen (TX_QUEUE w) <? TX_QUEUE_CAP then set_tx w (TX_QUEUE w ++ [frame]) else w.

Definition enqueue_up (w : Board) (sender ctr : Z) (ct : bytes) : Board :=
  enqueue w (mkFrame WIRE_VERSION Gossip sender ctr ct).

(** [if let Some(frame) = frame_for(..) { enqueue(frame) }]. *)
Definition enqueue_frame_for (w : Board) (p : Payload) (c : MeshClass) (t fl : Z) : Board :=
  match frame_for w p c t fl with
  | (w, Some frame) => enqueue w frame
  | (w, None) => w
  end.

(** One iteration of [tx_task]: the bytes offered to the peripheral. *)
Definition tx_step (w : Board) : Board * option bytes :=
  match TX_QUEUE w with
  | [] => (w, None)
  | frame :: q =>
      (set_tx w q, match encode_frame frame with Ok wire => Some wire | Err _ => None end)
  end.

Definition cortex_up (w : Board) (now : Z) : bool :=
  (sat_sub now (LAST_INBOUND_MS w) <? CORTEX_TIMEOUT_MS) && negb (LAST_INBOUND_MS w =? 0).

Definition heartbeat_payload (w : Board) (now : Z) : Payload :=
  Heartbeat ((now / 1000) mod 4294967296) (cortex_up w now) (if 0 <? NEIGHBOR_COUNT w then 2 else 3).

Definition heartbeat_step (now : Z) (w : Board) : Board :=
  enqueue_frame_for w (heartbeat_payload w now) Gossip BROADCAST 0.

Definition status_step (w : Board) : Board :=
  enqueue_frame_for w
    (BrainstemStatus (NODE_ID w) (QUEUE_DEPTH w) (NEIGHBOR_COUNT w) (ceiling (CTR w)))
    Gossip BROADCAST 0.

Definition counter_step (w : Board) : Board :=
  if remaining (CTR w) <? CTR_LOW_WATER then
    match reserve_counters (STORE w) with
    | (f, Ok (_, ceiling)) => set_ctr (set_store w f) (raise_ceiling (CTR w) ceiling)
    | (f, Err _) => set_store w f
    end
  else w.

(** ** Inbound on the cable *)

Definition decode_inbound (frame : MeshFrame) (psk : option bytes) : option Inbound :=
  let plain :=
    match take_from_bytes (ct frame) with
    | Some (packet, []) => Some (Plain packet)
    | _ => None
    end in
  match psk with
  | Some key => match open (mkPsk key) frame with Ok packet => Some (Sealed packet) | Err _ => plain end
  | None => plain
  end.

(** The provisioning arm of [inbound_task]. *)
Definition apply_provision (w : Board) (sealed : bool) (p : Payload) : Board :=
  match p with
  | Provision node_id psk =>
      let allowed := if is_commissioned (IDENTITY w) then sealed else true in
      if allowed then
        match commission (STORE w) node_id psk with
        | (f, Ok _) => set_identity (set_store w f) node_id (mkIdentity (Some node_id) (Some psk))
        | (f, Err _) => set_store w f
        end
      else w
  | _ => w
  end.

(** Hand a packet for another node to the durable outbox. *)
Definition carry (w : Board) (packet : PlainPacket) : Board :=
  match to_allocvec packet with
  | None => w
  | Some bytes =>
      if zlen bytes <=? MAX_QUEUED_MESSAGE then
        match outbox_push (STORE w) bytes with
        | (f, Ok _) => set_depth (set_store w f) (outbox_len f)
        | (f, Err _) => set_store w f
        end
      else w
  end.

Definition to_other (me : Z) (packet : PlainPacket) : bool :=
  negb (target packet =? BROADCAST) && negb (target packet =? me) && negb (me =? UNPROVISIONED_NODE_ID).

(** The body of [for frame in deframer.push(..)]. *)
Definition inbound_frame (w : Board) (frame : MeshFrame) : Board :=
  match decode_inbound frame (psk (IDENTITY w)) with
  | None => w
  | Some inbound =>
      let '(packet, sealed) :=
        match inbound with Sealed p => (p, true) | Plain p => (p, false) end in
      let w := apply_provision w sealed (payload packet) in
      match payload packet with
      | Ack of_sender of_ctr =>
          if zlen (HOST_ACCEPT w) <? HOST_ACCEPT_CAP
          then set_host w (HOST_ACCEPT w ++ [(of_sender, of_ctr)]) else w
      | _ =>
          if to_other (NODE_ID w) packet then carry w packet
          else if negb (Z.land (flags packet) FLAG_ACK_REQUESTED =? 0)
          then enqueue_frame_for w (Ack (sender frame) (ctr frame)) Gossip (sender frame) 0
          else w
      end
  end.

Definition inbound_frames (w : Board) (frames : list MeshFrame) : Board :=
  foldl inbound_frame w frames.

(** One read of [inbound_task]. *)
Definition inbound_step (now : Z) (w : Board) (d : Deframer) (chunk : bytes) : Board * Deframer :=
  match chunk with
  | [] => (w, d)
  | _ :: _ =>
      let w := set_last w now in
      let '(d, frames) := push d chunk in
      (inbound_frames w frames, d)
  end.

(** ** Boot *)

(** The state part of [main], on the flash a power cut left. *)
Definition main_boot (f : F) : Board :=
  let ident := identity f in
  let '(f, k, _) := boot_counter f in
  mkBd 0 (default UNPROVISIONED_NODE_ID (node_id ident)) ident 0 (outbox_len f) f k [] [].

End Brainstem.
#[global] Arguments Board : clear implicits.

(** ** Lemmas *)

Section BrainstemLemmas.
Context {F : Type} `{FlashLaws F}.
Context `{!PostcardOps PlainPacket} `{!AeadOps}.

Lemma identity_ext (f f' : F) :
  (forall k, fetch_item f' k = fetch_item f k) -> identity f' = identity f.
Proof. intros E. unfold identity, fetch_u16, fetch_bytes. by rewrite !E. Qed.

(** [enqueue], [carry], [set_host] and an acknowledgement leave the identity
    alone, in RAM and in flash. *)
Definition same_identity (w w' : Board F) : Prop :=
  IDENTITY w' = IDENTITY w /\ NODE_ID w' = NODE_ID w /\ identity (STORE w') = identity (STORE w).

Lemma same_identity_refl w : same_identity w w.
Proof. done. Qed.

Lemma same_identity_trans w1 w2 w3 :
  same_identity w1 w2 -> same_identity w2 w3 -> same_identity w1 w3.
Proof. intros (? & ? & ?) (? & ? & ?). split_and!; congruence. Qed.

Lemma enqueue_identity (w : Board F) fr : same_identity w (enqueue w fr).
Proof. unfold enqueue. by case_match. Qed.

Lemma enqueue_frame_for_identity (w : Board F) p c t fl :
  same_identity w (enqueue_frame_for w p c t fl).
Proof.
  unfold enqueue_frame_for, frame_for. destruct (to_allocvec _); [|done].
  destruct (try_next (CTR w)) as [k [n|]]; [|done].
  eapply same_identity_trans; [|apply enqueue_identity]. done.
Qed.

Lemma carry_identity (w : Board F) p : same_identity w (carry w p).
Proof.
  unfold carry. destruct (to_allocvec p) as [b|]; [|done].
  destruct (zlen b <=? MAX_QUEUED_MESSAGE); [|done]. unfold outbox_push.
  pose proof (push_map (STORE w) b) as Hm.
  destruct (queue_push (STORE w) b) as [f [[]|[]]]; split_and!; try done; by apply identity_ext.
Qed.

(** The rest of [inbound_frame], after the provisioning arm. *)
Lemma inbound_frame_cases (w : Board F) frame inbound :
  decode_inbound frame (psk (IDENTITY w)) = Some inbound ->
  let '(p, sealed) := match inbound with Sealed p => (p, true) | Plain p => (p, false) end in
  same_identity (apply_provision w sealed (payload p)) (inbound_frame w frame).
Proof.
  intros Hd. unfold inbound_frame. rewrite Hd.
  destruct inbound as [p|p]; cbn [payload];
  (destruct (payload p) eqn:Ep;
    try (destruct (to_other _ _); [apply carry_identity|];
         destruct (negb _); [apply enqueue_frame_for_identity|done]);
    by case_match).
Qed.

Lemma decode_inbound_sealed frame k p :
  decode_inbound frame (Some k) = Some (Sealed p) -> open (mkPsk k) frame = Ok p.
Proof. unfold decode_inbound. case_all; congruence. Qed.

(** A frame that does not carry a provision under the board's key. *)
Definition not_authentic (k : bytes) (frame : MeshFrame) : Prop :=
  forall p nid k', open (mkPsk k) frame = Ok p -> payload p <> Provision nid k'.

Lemma inbound_frame_unprovisioned (w : Board F) frame n k :
  IDENTITY w = mkIdentity (Some n) (Some k) -> not_authentic k frame ->
  same_identity w (inbound_frame w frame).
Proof.
  intros Hi Hna. destruct (decode_inbound frame (psk (IDENTITY w))) as [inb|] eqn:Ed.
  2: { unfold inbound_frame. by rewrite Ed. }
  pose proof (inbound_frame_cases w frame inb Ed) as Hc.
  rewrite Hi in Ed. cbn [psk] in Ed. destruct inb as [p|p].
  - apply decode_inbound_sealed in Ed. unfold apply_provision in Hc.
    destruct (payload p) eqn:Ep; try done. exfalso. by eapply Hna.
  - unfold apply_provision in Hc. destruct (payload p) eqn:Ep; try done.
    rewrite Hi in Hc. done.
Qed.

(** *** Delivery through the bounded queue *)

Lemma fetch_commission (f f' : F) nid k :
  commission f nid k = (f', Ok tt) -> length k = 32%nat ->
  identity f' = mkIdentity (Some nid) (Some k).
Proof.
  unfold commission. destruct (store_item f KEY_PSK (ItemBytes k)) as [f1 [[]|]] eqn:E1; [|done].
  intros E2 Hk. unfold identity, fetch_u16, fetch_bytes.
  rewrite (store_ok _ _ _ _ E2). rewrite (store_frame' _ _ _ _ _ KEY_PSK E2) by done.
  rewrite (store_ok _ _ _ _ E1). cbn [ok_flatten]. change (mbind ?f (Some k)) with (f k). cbn.
  by rewrite decide_True.
Qed.

End BrainstemLemmas.

(** ** Properties *)

Section BrainstemTheorems.
Context {F : Type} `{FlashLaws F}.
Context `{!PostcardOps PlainPacket} `{!AeadOps}.

(** a commissioned board can be re-keyed only by a holder of its key.
    Whatever frames arrive on the cable, if none of them opens under the
    current key to a provision, the board's identity is what it was: in RAM,
    in [NODE_ID], and in flash for the next boot. *)
Theorem provision_authenticated (frames : list MeshFrame) (w : Board F) (n : Z) (k : bytes) :
  IDENTITY w = mkIdentity (Some n) (Some k) ->
  Forall (not_authentic k) frames ->
  same_identity w (inbound_frames w frames).
Proof.
  intros Hi Hall. revert w Hi. induction Hall as [|fr frames Hf _ IH]; intros w Hi; [done|].
  cbn [inbound_frames foldl]. pose proof (inbound_frame_unprovisioned w fr n k Hi Hf) as Hs.
  eapply same_identity_trans; [exact Hs|]. apply IH. destruct Hs as [-> _]. done.
Qed.

(** The frame authenticates enough for the provisioning rule: it opened under
    the key, or the board has no key and the frame parses as a plain packet. *)
Definition provision_admitted (w : Board F) (frame : MeshFrame) (p : PlainPacket) : Prop :=
  decode_inbound frame (psk (IDENTITY w)) = Some (Sealed p) \/
  (is_commissioned (IDENTITY w) = false /\
   decode_inbound frame (psk (IDENTITY w)) = Some (Plain p)).

(** an admitted provision takes effect, all or nothing.  When both flash
    writes succeed the board has the new node id and key in RAM, and so does
    the board that boots from that flash; when they fail RAM keeps the old
    identity. *)
Theorem provision_takes_effect (w : Board F) (frame : MeshFrame) (p : PlainPacket)
    (nid : Z) (k : bytes) :
  provision_admitted w frame p -> payload p = Provision nid k -> length k = 32%nat ->
  let w' := inbound_frame w frame in
  match (commission (STORE w) nid k).2 with
  | Ok _ =>
      IDENTITY w' = mkIdentity (Some nid) (Some k) /\ NODE_ID w' = nid /\
      IDENTITY (main_boot (STORE w')) = mkIdentity (Some nid) (Some k) /\
      NODE_ID (main_boot (STORE w')) = nid
  | Err _ => IDENTITY w' = IDENTITY w /\ NODE_ID w' = NODE_ID w
  end.
Proof.
  intros Hadm Hp Hk w'.
  assert (exists s, same_identity (apply_provision w s (Provision nid k)) w' /\
            (if is_commissioned (IDENTITY w) then s else true) = true) as (s & Hs & Hok).
  { destruct Hadm as [Hd|[Hc Hd]]; pose proof (inbound_frame_cases w frame _ Hd) as Hs;
      cbn in Hs; rewrite Hp in Hs; eexists; (split; [exact Hs|]); [by destruct is_commissioned|by rewrite Hc]. }
  unfold apply_provision in Hs. rewrite Hok in Hs.
  destruct (commission (STORE w) nid k) as [f [[]|[]]] eqn:Ec; cbn [snd].
  - pose proof (fetch_commission _ _ _ _ Ec Hk) as Hid. destruct Hs as (Hr & Hn & Hf).
    cbn in Hr, Hn, Hf.
    assert (identity (STORE w') = mkIdentity (Some nid) (Some k)) as Hw by congruence.
    unfold main_boot. destruct (boot_counter (STORE w')) as [[f' c'] x]. by rewrite Hw.
  - by destruct Hs as (Hr & Hn & _).
Qed.

(** a packet for this board, or for everyone, that asks for an
    acknowledgement gets one: with a free place in the transmit queue and a
    counter available, the [Ack] that names the frame is the last of the
    queue, under this board's id and the next counter. *)
Theorem wired_ack_echoes (w : Board F) (frame : MeshFrame) (p : PlainPacket) (ct : bytes) (n : Z)
    (k : Counter) :
  decode_inbound frame (psk (IDENTITY w)) = Some (Plain p) ->
  (forall s c, payload p <> Ack s c) -> (forall nid key, payload p <> Provision nid key) ->
  to_other (NODE_ID w) p = false -> Z.testbit (flags p) 0 = true ->
  to_allocvec (mkPacket (sender frame) 1 0 (Ack (sender frame) (ctr frame))) = Some ct ->
  try_next (CTR w) = (k, Some n) -> zlen (TX_QUEUE w) < TX_QUEUE_CAP ->
  TX_QUEUE (inbound_frame w frame) =
    TX_QUEUE w ++ [mkFrame WIRE_VERSION Gossip (NODE_ID w) n ct].
Proof.
  intros Hd Ha Hp Ho Hf Hct Hk Hq. unfold inbound_frame. rewrite Hd.
  assert (apply_provision w false (payload p) = w) as ->.
  { destruct (payload p) as [| | | | | | | | | |nid key|] eqn:E; try done. by destruct (Hp nid key). }
  assert ((Z.land (flags p) FLAG_ACK_REQUESTED =? 0) = false) as Hfl.
  { apply Z.eqb_neq. intros E. assert (Z.testbit (Z.land (flags p) 1) 0 = false) as Hb.
    { unfold FLAG_ACK_REQUESTED in E. rewrite E. apply Z.testbit_0_l. }
    rewrite Z.land_spec, Hf in Hb. done. }
  assert (enqueue_frame_for w (Ack (sender frame) (ctr frame)) Gossip (sender frame) 0 =
          set_tx (set_ctr w k) (TX_QUEUE w ++ [mkFrame WIRE_VERSION Gossip (NODE_ID w) n ct])) as He.
  { unfold enqueue_frame_for, frame_for. rewrite Hct, Hk. unfold enqueue. cbn [TX_QUEUE set_ctr].
    apply Z.ltb_lt in Hq. by rewrite Hq. }
  rewrite Ho, Hfl, He. cbn [negb].
  destruct (payload p) as [| | | | | | |s c| | | |] eqn:E; try done. by destruct (Ha s c).
Qed.

End BrainstemTheorems.

(** ** Witnesses *)

(** A board commissioned as node 3 under [toy_psk], with its flash. *)
Definition colony_key : bytes := psk_bytes toy_psk.
Definition node3_flash : mem_flash := (commission blank_flash 3 colony_key).1.
Definition node3 : Board mem_flash := main_boot node3_flash.

Definition frame_of (p : PlainPacket) (sender ctr : Z) : MeshFrame :=
  mkFrame WIRE_VERSION Gossip sender ctr (default [] (to_allocvec p)).

(** A stranger on the cable: an unsealed provision. *)
Definition stranger : MeshFrame :=
  frame_of (mkPacket BROADCAST 1 0 (Provision 9 (replicate 32 5))) 40 1.

Lemma provision_authenticated_witness :
  same_identity node3 (inbound_frames node3 [stranger; stranger]).
Proof.
  apply (provision_authenticated _ node3 3 colony_key); [vm_compute; reflexivity|].
  repeat apply Forall_cons_2; [| |apply Forall_nil_2];
    (intros p nid k' E; vm_compute in E; discriminate E).
Defined.

Lemma provision_takes_effect_witness :
  let w' := inbound_frame (main_boot blank_flash) stranger in
  let id9 := mkIdentity (Some 9) (Some (replicate 32 5)) in
  IDENTITY w' = id9 /\ NODE_ID w' = 9 /\
  IDENTITY (main_boot (STORE w')) = id9 /\ NODE_ID (main_boot (STORE w')) = 9.
Proof.
  exact (provision_takes_effect (main_boot blank_flash) stranger
           (mkPacket BROADCAST 1 0 (Provision 9 (replicate 32 5))) 9 (replicate 32 5)
           (or_intror (conj eq_refl eq_refl)) eq_refl eq_refl).
Defined.

Definition ping3 : MeshFrame := frame_of (mkPacket 3 1 1 (A2A [1])) 0 77.

Lemma wired_ack_echoes_witness :
  TX_QUEUE (inbound_frame node3 ping3) =
  [mkFrame WIRE_VERSION Gossip 3 1 (default [] (to_allocvec (mkPacket 0 1 0 (Ack 0 77))))].
Proof.
  eapply (wired_ack_echoes node3 ping3 (mkPacket 3 1 1 (A2A [1])));
    try (vm_compute; reflexivity); intros; discriminate.
Defined.
