(* ===== verification/RadioTask.v ===== *)
(** * The brainstem's radio task

    [radio_task] of [firmware/brainstem/src/bin/main.rs]: the host-accept
    drain, the beat, the outbox drain and the handler of a heard frame, each a
    function on the shared [Board] and the task's own locals. *)
From S2P Require Import Prelude Wire Codecs Framing Replay Inbox Store Counter Neighbors Radio Brainstem.

Section RadioTask.
Context {F : Type} `{!FlashOps F} {C : Type} `{!BleOps C}.
Context `{!PostcardOps MeshFrame} `{!PostcardOps PlainPacket} `{!CobsOps} `{!CrcOps} `{!AeadOps}.

(** The locals of [radio_task]. *)
Record Task := mkTask {
  rt_ble : C;
  rt_neighbors : Neighbors;
  rt_replay : ReplayTable;
  rt_replay_blocked : bool;
  rt_inbox : InboxTable;
  rt_replay_dirty : bool;
  rt_inbox_dirty : bool;
  rt_next_beat : Z;
  rt_pending_ctr : option Z;
  rt_next_drain : Z
}.

Definition with_ble (t : Task) (c : C) : Task :=
  mkTask c (rt_neighbors t) (rt_replay t) (rt_replay_blocked t) (rt_inbox t) (rt_replay_dirty t)
    (rt_inbox_dirty t) (rt_next_beat t) (rt_pending_ctr t) (rt_next_drain t).
Definition with_neighbors (t : Task) (n : Neighbors) : Task :=
  mkTask (rt_ble t) n (rt_replay t) (rt_replay_blocked t) (rt_inbox t) (rt_replay_dirty t)
    (rt_inbox_dirty t) (rt_next_beat t) (rt_pending_ctr t) (rt_next_drain t).
Definition with_replay (t : Task) (r : ReplayTable) (dirty : bool) : Task :=
  mkTask (rt_ble t) (rt_neighbors t) r (rt_replay_blocked t) (rt_inbox t) dirty
    (rt_inbox_dirty t) (rt_next_beat t) (rt_pending_ctr t) (rt_next_drain t).
Definition with_inbox (t : Task) (ib : InboxTable) (dirty : bool) : Task :=
  mkTask (rt_ble t) (rt_neighbors t) (rt_replay t) (rt_replay_blocked t) ib (rt_replay_dirty t)
    dirty (rt_next_beat t) (rt_pending_ctr t) (rt_next_drain t).
Definition with_beat (t : Task) (x : Z) : Task :=
  mkTask (rt_ble t) (rt_neighbors t) (rt_replay t) (rt_replay_blocked t) (rt_inbox t)
    (rt_replay_dirty t) (rt_inbox_dirty t) x (rt_pending_ctr t) (rt_next_drain t).
Definition with_pending (t : Task) (p : option Z) : Task :=
  mkTask (rt_ble t) (rt_neighbors t) (rt_replay t) (rt_replay_blocked t) (rt_inbox t)
    (rt_replay_dirty t) (rt_inbox_dirty t) (rt_next_beat t) p (rt_next_drain t).
Definition with_drain (t : Task) (x : Z) : Task :=
  mkTask (rt_ble t) (rt_neighbors t) (rt_replay t) (rt_replay_blocked t) (rt_inbox t)
    (rt_replay_dirty t) (rt_inbox_dirty t) (rt_next_beat t) (rt_pending_ctr t) x.

(** The start of [radio_task]: [None] when the radio does not come up. *)
Definition radio_start (now : Z) (w : Board F) (c : C) : option Task :=
  match radio_new c with
  | (_, Err _) => None
  | (c, Ok _) =>
      let '(replay, blocked) :=
        match load_replay (STORE w) with Ok t => (t, false) | Err _ => (replay_table_new, true) end in
      let inbox := match load_inbox (STORE w) with Ok t => t | Err _ => inbox_new end in
      Some (mkTask c neighbors_new replay blocked inbox false false now None now)
  end.

(** [if let Some(ctr) = try_next() && let Ok(frame) = seal(..) { advertise }]:
    the counter used and whether the controller took the frame. *)
Definition send_sealed (w : Board F) (c : C) (psk : bytes) (node_id : Z) (p : PlainPacket)
    : Board F * C * option (Z * bool) :=
  match try_next (CTR w) with
  | (k, None) => (set_ctr w k, c, None)
  | (k, Some ctr) =>
      match seal (mkPsk psk) Gossip node_id ctr p with
      | Err _ => (set_ctr w k, c, None)
      | Ok frame => let '(c, r) := advertise c frame in (set_ctr w k, c, Some (ctr, is_ok r))
      end
  end.

(** [let _ = radio.advertise(..)]. *)
Definition send_and_forget (w : Board F) (t : Task) (psk : bytes) (node_id : Z) (p : PlainPacket)
    : Board F * Task :=
  let '(w, c, _) := send_sealed w (rt_ble t) psk node_id p in (w, with_ble t c).

Definition ack_packet (to of_sender of_ctr : Z) : PlainPacket :=
  mkPacket to 1 0 (Ack of_sender of_ctr).

(** One turn of [while let Ok(..) = HOST_ACCEPT.try_receive()]. *)
Definition accept_one (st : Board F * Task) (pair : Z * Z) : Board F * Task :=
  let '(w, t) := st in
  let '(of_sender, of_ctr) := pair in
  let t := with_inbox t (inbox_take (rt_inbox t) of_sender of_ctr).1 true in
  match node_id (IDENTITY w), psk (IDENTITY w) with
  | Some id, Some key => send_and_forget w t key id (ack_packet of_sender of_sender of_ctr)
  | _, _ => (w, t)
  end.

Definition drain_host_accept (w : Board F) (t : Task) : Board F * Task :=
  foldl accept_one (set_host w [], t) (HOST_ACCEPT w).

(** The beat: refresh the advertised heartbeat, flush dirty state, offer the
    held packets to the cortex again. *)
Definition advertise_beat (now : Z) (w : Board F) (t : Task) : Board F * Task :=
  match node_id (IDENTITY w), psk (IDENTITY w) with
  | Some id, Some key =>
      send_and_forget w t key id (mkPacket BROADCAST DEFAULT_HOP_LIMIT 0 (heartbeat_payload w now))
  | _, _ => (w, t)
  end.

Definition flush_replay (w : Board F) (t : Task) : Board F * Task :=
  if rt_replay_dirty t then
    match save_replay (STORE w) (rt_replay t) with
    | (f, Ok _) => (set_store w f, with_replay t (rt_replay t) false)
    | (f, Err _) => (set_store w f, t)
    end
  else (w, t).

Definition flush_inbox (w : Board F) (t : Task) : Board F * Task :=
  if rt_inbox_dirty t then
    match save_inbox (STORE w) (rt_inbox t) with
    | (f, Ok _) => (set_store w f, with_inbox t (rt_inbox t) false)
    | (f, Err _) => (set_store w f, t)
    end
  else (w, t).

Definition offer_held (now : Z) (w : Board F) (t : Task) : Board F :=
  if cortex_up w now then
    foldl (fun w s => enqueue_up w (ib_sender s) (ib_ctr s) (packet s)) w (inbox_iter (rt_inbox t))
  else w.

Definition beat (now : Z) (w : Board F) (t : Task) : Board F * Task :=
  if rt_next_beat t <=? now then
    let t := with_beat t (now + RADIO_BEAT_MS) in
    let '(w, t) := advertise_beat now w t in
    let '(w, t) := flush_replay w t in
    let '(w, t) := flush_inbox w t in
    (offer_held now w t, t)
  else (w, t).

(** The outbox drain. *)
Definition drain_outbox (now : Z) (w : Board F) (t : Task) : Board F * Task :=
  if (0 <? QUEUE_DEPTH w) && (rt_next_drain t <=? now) then
    match node_id (IDENTITY w), psk (IDENTITY w), outbox_peek (STORE w) with
    | Some id, Some key, Some msg =>
        match take_from_bytes msg with
        | Some (packet, _) =>
            if is_alive (rt_neighbors t) (target packet) now then
              match send_sealed w (rt_ble t) key id packet with
              | (w, c, None) => (w, with_ble t c)
              | (w, c, Some (ctr, ok)) =>
                  let t := with_ble t c in
                  let t := if ok then with_pending t (Some ctr) else t in
                  (w, with_beat (with_drain t (now + OUTBOX_RETRY_MS)) (now + 1500))
              end
            else (w, t)
        | None => (w, t)
        end
    | _, _, _ => (w, t)
    end
  else (w, t).

(** [NEIGHBOR_COUNT.store(neighbors.alive(now_ms()) as u8)]. *)
Definition refresh_neighbors (now : Z) (w : Board F) (t : Task) : Board F :=
  set_neighbors w (as_u8 (alive (rt_neighbors t) now)).

(** The arms of [match &packet.payload] for an authenticated fresh frame. *)
Definition retire_head (now : Z) (w : Board F) (t : Task) : Board F * Task :=
  let '(f, popped) := outbox_pop (STORE w) in
  let w := set_store w f in
  let w := if popped then set_depth w (outbox_len f) else w in
  (w, with_drain (with_pending t None) now).

Definition addressed (w : Board F) (t : Task) (key : bytes) (frame : MeshFrame) (p : PlainPacket)
    : Board F * Task :=
  match to_allocvec p with
  | None => (w, t)
  | Some ct =>
      let '(replay, inbox, verdict) :=
        decide_radio_inbound (rt_replay t) (rt_inbox t) (sender frame) (ctr frame) ct in
      let t := with_inbox (with_replay t replay (rt_replay_dirty t)) inbox (rt_inbox_dirty t) in
      match verdict with
      | Deliver =>
          (enqueue_up w (sender frame) (ctr frame) ct,
           with_inbox (with_replay t (rt_replay t) true) (rt_inbox t) true)
      | WaitHost => (w, t)
      | ReAck =>
          send_and_forget w t key (default UNPROVISIONED_NODE_ID (node_id (IDENTITY w)))
            (ack_packet (sender frame) (sender frame) (ctr frame))
      | Drop => (w, t)
      end
  end.

Definition is_pending_ack (w : Board F) (t : Task) (p : Payload) : bool :=
  match p with
  | Ack of_sender of_ctr =>
      bool_decide (Some of_sender = node_id (IDENTITY w)) && bool_decide (Some of_ctr = rt_pending_ctr t)
  | _ => false
  end.

Definition dispatch (now : Z) (w : Board F) (t : Task) (key : bytes) (frame : MeshFrame)
    (p : PlainPacket) : Board F * Task :=
  if is_pending_ack w t (payload p) then retire_head now w t
  else if target p =? default UNPROVISIONED_NODE_ID (node_id (IDENTITY w))
  then addressed w t key frame p
  else (w, t).

(** [Either::Second(Some(heard))]. *)
Definition heard_frame (now : Z) (w : Board F) (t : Task) (h : Heard) : Board F * Task :=
  match psk (IDENTITY w) with
  | None => (w, t)
  | Some key =>
      let frame := hd_frame h in
      if bool_decide (Some (sender frame) = node_id (IDENTITY w)) then (w, t)
      else
        match open (mkPsk key) frame with
        | Err _ => (w, t)
        | Ok p =>
            if rt_replay_blocked t then (w, t)
            else
              match replay_accept (rt_replay t) (sender frame) (ctr frame) with
              | (replay, Fresh) =>
                  let t := with_neighbors t (heard (rt_neighbors t) (sender frame) (hd_rssi_dbm h) now) in
                  let t := with_replay t replay true in
                  let w := refresh_neighbors now w t in
                  let '(w, t) := dispatch now w t key frame p in
                  (refresh_neighbors now w t, t)
              | (replay, _) => (w, with_replay t replay (rt_replay_dirty t))
              end
        end
  end.

(** One turn of the loop: [None] for the timer, [Some None] for a radio read
    that failed, [Some (Some heard)] for a frame. *)
Definition radio_iteration (now : Z) (ev : option (option Heard)) (w : Board F) (t : Task)
    : Board F * Task :=
  let '(w, t) := drain_host_accept w t in
  let '(w, t) := beat now w t in
  let '(w, t) := drain_outbox now w t in
  match ev with
  | Some (Some h) => heard_frame now w t h
  | _ => (refresh_neighbors now w t, t)
  end.

End RadioTask.
#[global] Arguments Task : clear implicits.

(** ** Lemmas *)

Section RadioTaskLemmas.
Context {F : Type} `{!FlashOps F} {C : Type} `{!BleOps C}.
Context `{!PostcardOps MeshFrame} `{!PostcardOps PlainPacket} `{!AeadOps}.

Lemma send_sealed_board (w : Board F) (c : C) key id p :
  exists k, (send_sealed w c key id p).1.1 = set_ctr w k.
Proof.
  unfold send_sealed. destruct (try_next (CTR w)) as [k [n|]]; [|by exists k].
  destruct (seal _ _ _ _ _) as [fr|]; [|by exists k].
  destruct (advertise c fr) as [c2 r]. by exists k.
Qed.

Lemma send_and_forget_shape (w : Board F) (t : Task C) key id p :
  exists k c, send_and_forget w t key id p = (set_ctr w k, with_ble t c).
Proof.
  unfold send_and_forget. destruct (send_sealed_board w (rt_ble t) key id p) as [k Hk].
  destruct (send_sealed w (rt_ble t) key id p) as [[w' c] o]. cbn in Hk. subst. eauto.
Qed.

Lemma with_replay_id (t : Task C) : with_replay t (rt_replay t) (rt_replay_dirty t) = t.
Proof. by destruct t. Qed.

(** With the pair already recorded as seen, an addressed frame is never
    delivered: it is held already, dropped, or acknowledged. *)
Lemma addressed_seen (w : Board F) (t : Task C) key frame p seen :
  table_rep (rt_replay t) seen -> seen (sender frame) (ctr frame) ->
  exists k c, addressed w t key frame p = (set_ctr w k, with_ble t c).
Proof.
  intros Ht Hs.
  assert (exists k c, (w, t) = (set_ctr w k, with_ble t c)) as Hid.
  { exists (CTR w), (rt_ble t). by destruct w, t. }
  unfold addressed. destruct (to_allocvec p) as [pc|]; [|done].
  unfold decide_radio_inbound. rewrite (replay_accept_seen _ _ _ _ Ht Hs).
  assert (with_inbox (with_replay t (rt_replay t) (rt_replay_dirty t)) (rt_inbox t) (rt_inbox_dirty t) = t)
    as Ht' by (by destruct t).
  destruct (contains _ _ _); [by rewrite Ht'|].
  destruct (_ || _); [by rewrite Ht'|]. rewrite Ht'. apply send_and_forget_shape.
Qed.

(** What a handler of a heard frame leaves alone. *)
Definition quiet (w w' : Board F) (t t' : Task C) : Prop :=
  rt_inbox t' = rt_inbox t /\ TX_QUEUE w' = TX_QUEUE w /\ IDENTITY w' = IDENTITY w /\
  rt_replay_blocked t' = rt_replay_blocked t.

Lemma retire_head_quiet now (w : Board F) (t : Task C) :
  quiet w (retire_head now w t).1 t (retire_head now w t).2.
Proof. unfold retire_head. destruct (outbox_pop (STORE w)) as [f []]; done. Qed.

Lemma dispatch_seen now (w : Board F) (t : Task C) key frame p seen :
  table_rep (rt_replay t) seen -> seen (sender frame) (ctr frame) ->
  quiet w (dispatch now w t key frame p).1 t (dispatch now w t key frame p).2 /\
  rt_replay (dispatch now w t key frame p).2 = rt_replay t.
Proof.
  intros Ht Hs. unfold dispatch.
  destruct (is_pending_ack w t (payload p)).
  { split; [apply retire_head_quiet|]. unfold retire_head. by destruct (outbox_pop (STORE w)) as [f []]. }
  destruct (target p =? _); [|done].
  by destruct (addressed_seen w t key frame p seen Ht Hs) as (k & c & ->).
Qed.

(** The guards of [heard_frame]: either nothing but the replay table can
    change, or the frame is authentic and fresh. *)
Lemma heard_frame_cases now (w : Board F) (t : Task C) h seen :
  table_rep (rt_replay t) seen -> 0 <= ctr (hd_frame h) ->
  heard_frame now w t h = (w, t) \/
  exists key p replay,
    psk (IDENTITY w) = Some key /\ open (mkPsk key) (hd_frame h) = Ok p /\
    rt_replay_blocked t = false /\ Some (sender (hd_frame h)) <> node_id (IDENTITY w) /\
    replay_accept (rt_replay t) (sender (hd_frame h)) (ctr (hd_frame h)) = (replay, Fresh) /\
    let t1 := with_replay (with_neighbors t (heard (rt_neighbors t) (sender (hd_frame h))
                (hd_rssi_dbm h) now)) replay true in
    let st := dispatch now (refresh_neighbors now w t1) t1 key (hd_frame h) p in
    heard_frame now w t h = (refresh_neighbors now st.1 st.2, st.2).
Proof.
  intros Ht Hc. unfold heard_frame. destruct (psk (IDENTITY w)) as [key|]; [|by left].
  case_bool_decide as Hown; [by left|].
  destruct (open _ _) as [p|] eqn:Eo; [|by left]. destruct (rt_replay_blocked t) eqn:Eb; [by left|].
  pose proof (replay_accept_refused _ _ (sender (hd_frame h)) _ Ht Hc) as Hr.
  destruct (replay_accept _ _ _) as [replay []] eqn:Ea.
  - right. exists key, p, replay. split_and!; try done. cbv zeta.
    by case_match.
  - left. destruct Hr as [E _]; [done|]. cbn in E. subst. by rewrite with_replay_id.
  - left. destruct Hr as [E _]; [done|]. cbn in E. subst. by rewrite with_replay_id.
Qed.

Lemma accepted_rep t seen id c replay :
  table_rep t seen -> 0 <= c -> replay_accept t id c = (replay, Fresh) ->
  table_rep replay (fun i x => (i = id /\ x = c) \/ seen i x).
Proof.
  intros Ht Hc E. pose proof (replay_accept_rep t seen id c Ht Hc) as [Hr _]. rewrite E in Hr.
  eapply table_rep_ext; [|exact Hr]. cbn. naive_solver.
Qed.

Lemma heard_frame_quiet now (w : Board F) (t : Task C) h seen :
  table_rep (rt_replay t) seen -> 0 <= ctr (hd_frame h) ->
  quiet w (heard_frame now w t h).1 t (heard_frame now w t h).2 /\
  exists seen', table_rep (rt_replay (heard_frame now w t h).2) seen'.
Proof.
  intros Ht Hc. destruct (heard_frame_cases now w t h seen Ht Hc)
    as [->|(key & p & replay & _ & _ & _ & _ & Ea & ->)]; [split; [done|by exists seen]|].
  pose proof (accepted_rep _ _ _ _ _ Ht Hc Ea) as Hr.
  set (t1 := with_replay _ replay true). set (w1 := refresh_neighbors now w t1). cbv zeta.
  destruct (dispatch_seen now w1 t1 key (hd_frame h) p _ Hr) as [(Hq1 & Hq2 & Hq3) Hq4]; [by left|].
  cbn [fst snd]. rewrite Hq4. split; [done|]. eexists. exact Hr.
Qed.

End RadioTaskLemmas.

(** ** Properties *)

Section RadioTaskTheorems.
Context {F : Type} `{!FlashOps F} {C : Type} `{!BleOps C}.
Context `{!PostcardOps MeshFrame} `{!PostcardOps PlainPacket} `{!AeadOps}.

(** What the guards before the replay table let through: the board has a key,
    the frame claims another board's id and opens under the key, and the replay
    state could be loaded. *)
Definition authentic (w : Board F) (t : Task C) (h : Heard) : bool :=
  match psk (IDENTITY w) with
  | None => false
  | Some key =>
      negb (bool_decide (Some (sender (hd_frame h)) = node_id (IDENTITY w)))
      && is_ok (open (mkPsk key) (hd_frame h)) && negb (rt_replay_blocked t)
  end.

Lemma unauthentic_ignored (now : Z) (w : Board F) (t : Task C) (h : Heard) :
  authentic w t h = false -> heard_frame now w t h = (w, t).
Proof.
  unfold authentic, heard_frame. destruct (psk (IDENTITY w)); [|done]. case_bool_decide; [done|].
  destruct (open _ _); [|done]. by destruct (rt_replay_blocked t).
Qed.

(** A pair that was accepted before is met with silence, where the inbox
    promises another acknowledgement. *)
Lemma replayed_pair_is_silent (now : Z) (w : Board F) (t : Task C) (h : Heard) (seen : Z -> Z -> Prop) :
  table_rep (rt_replay t) seen -> seen (sender (hd_frame h)) (ctr (hd_frame h)) -> heard_frame now w t h = (w, t).
Proof.
  intros Ht Hs. unfold heard_frame. destruct (psk (IDENTITY w)) as [key|]; [|done]. case_bool_decide; [done|].
  destruct (open _ _); [|done]. destruct (rt_replay_blocked t); [done|].
  by rewrite (replay_accept_seen _ _ _ _ Ht Hs), with_replay_id.
Qed.

(** A list of heard frames, each with the time it was heard. *)
Definition heard_all (air : list (Z * Heard)) (w : Board F) (t : Task C) : Board F * Task C :=
  foldl (fun st x => heard_frame x.1 st.1 st.2 x.2) (w, t) air.

(** C12: Frames that are not authentic might as well not have been on the air.  Over
    any sequence of heard frames, at any times, the shared state and the task's
    are afterwards what the authentic ones alone would have made of them.  Not
    authentic are all frames while the board has no key or its replay state
    could not be loaded, frames that do not open under its key, and frames that
    claim its own id.  (The replay table stands for the pairs seen so far, as it
    always does; counters are not negative.) *)
Theorem radio_ignores_unauthentic (air : list (Z * Heard)) (w : Board F) (t : Task C) (seen : Z -> Z -> Prop) :
  table_rep (rt_replay t) seen -> Forall (fun x => 0 <= ctr (hd_frame x.2)) air ->
  heard_all air w t = heard_all (List.filter (fun x => authentic w t x.2) air) w t.
Proof.
  intros Ht Hall. unfold heard_all. revert w t seen Ht. induction Hall as [|[now h] air Hh _ IH]; intros w t seen Ht; [done|].
  cbn [foldl fst snd List.filter] in *. destruct (authentic w t h) eqn:Ea.
  - cbn [foldl fst snd]. destruct (heard_frame_quiet now w t h seen Ht Hh) as [(_ & _ & Ei & Eb) (seen' & Ht')].
    destruct (heard_frame now w t h) as [w1 t1]. cbn [fst snd] in *. rewrite (IH w1 t1 seen' Ht'). unfold authentic. by rewrite Ei, Eb.
  - rewrite (unauthentic_ignored now w t h Ea). by eapply IH.
Qed.

(** the radio never delivers a packet to the cortex.  Whatever frames the
    air brings, the inbox keeps exactly what it held when the task started and
    nothing is queued for the cable: the replay table has already accepted the
    pair when [decide_radio_inbound] offers it a second time, so its [Deliver]
    branch is never taken. *)
Theorem radio_never_delivers (now : Z) (air : list Heard) (w : Board F) (t : Task C)
    (seen : Z -> Z -> Prop) :
  table_rep (rt_replay t) seen -> Forall (fun h => 0 <= ctr (hd_frame h)) air ->
  let '(w', t') := foldl (fun st h => heard_frame now st.1 st.2 h) (w, t) air in
  rt_inbox t' = rt_inbox t /\ TX_QUEUE w' = TX_QUEUE w.
Proof.
  intros Ht Hall. revert w t seen Ht. induction Hall as [|h air Hh _ IH]; intros w t seen Ht; [done|].
  cbn [foldl fst snd]. destruct (heard_frame_quiet now w t h seen Ht Hh) as [(Hi & Hx & _) (seen' & Ht')].
  destruct (heard_frame now w t h) as [w1 t1]. cbn [fst snd] in *.
  specialize (IH w1 t1 seen' Ht'). destruct (foldl _ _ air) as [w2 t2]. destruct IH as [-> ->]. done.
Qed.

(** and it acknowledges what it did not deliver.  An authentic, fresh
    packet for this board, not yet held and with room in the inbox, is
    answered on the air with the [Ack] that tells its sender to forget it,
    while the inbox does not hold it and the cable queue has not changed. *)
Theorem radio_acks_undelivered (now : Z) (w : Board F) (t : Task C) (h : Heard)
    (seen : Z -> Z -> Prop) (key pc : bytes) (n c : Z) (k : Counter) (p : PlainPacket)
    (replay : ReplayTable) (ack : MeshFrame) :
  table_rep (rt_replay t) seen -> 0 <= ctr (hd_frame h) ->
  IDENTITY w = mkIdentity (Some n) (Some key) -> sender (hd_frame h) <> n ->
  rt_replay_blocked t = false -> open (mkPsk key) (hd_frame h) = Ok p ->
  replay_accept (rt_replay t) (sender (hd_frame h)) (ctr (hd_frame h)) = (replay, Fresh) ->
  target p = n -> is_pending_ack w t (payload p) = false ->
  to_allocvec p = Some pc -> zlen pc <= INBOX_PACKET_MAX ->
  contains (rt_inbox t) (sender (hd_frame h)) (ctr (hd_frame h)) = false ->
  inbox_is_full (rt_inbox t) = false ->
  try_next (CTR w) = (k, Some c) ->
  seal (mkPsk key) Gossip n c
    (ack_packet (sender (hd_frame h)) (sender (hd_frame h)) (ctr (hd_frame h))) = Ok ack ->
  let '(w', t') := heard_frame now w t h in
  rt_ble t' = (advertise (rt_ble t) ack).1 /\
  rt_inbox t' = rt_inbox t /\ TX_QUEUE w' = TX_QUEUE w.
Proof.
  intros Ht Hc Hi Hne Hb Ho Ha Htg Hpa Hpc Hl Hno Hfull Hk Hs.
  pose proof (accepted_rep _ _ _ _ _ Ht Hc Ha) as Hr.
  unfold heard_frame. rewrite Hi. cbn [psk node_id]. rewrite bool_decide_false by congruence.
  rewrite Ho, Hb, Ha. cbn [fst snd].
  unfold dispatch. change (is_pending_ack _ _ (payload p)) with (is_pending_ack w t (payload p)).
  rewrite Hpa. cbn [refresh_neighbors set_neighbors IDENTITY]. rewrite Hi. cbn [default node_id].
  rewrite Htg. cbn [from_option id]. rewrite Z.eqb_refl. unfold addressed. rewrite Hpc.
  unfold decide_radio_inbound. cbn [rt_inbox with_replay with_neighbors rt_replay].
  rewrite Hno, Hfull. destruct (Z.ltb_spec INBOX_PACKET_MAX (zlen pc)); [lia|]. cbn [orb].
  rewrite (replay_accept_seen replay _ _ _ Hr) by (by left).
  unfold send_and_forget, send_sealed. cbn [CTR refresh_neighbors set_neighbors IDENTITY].
  rewrite Hi. cbn [default from_option node_id id]. rewrite Hk, Hs.
  cbn [rt_ble with_inbox with_replay with_neighbors].
  destruct (advertise (rt_ble t) ack) as [c' r]. done.
Qed.

End RadioTaskTheorems.

Section OutboxTheorems.
Context {F : Type} `{FlashLaws F} {C : Type} `{!BleOps C}.
Context `{!PostcardOps MeshFrame} `{PostcardLaws PlainPacket} `{!AeadOps} `{!AeadLaws}.

(** the host's accept is what frees a held packet.  Draining the accept
    channel empties it, forgets exactly the accepted pairs, and keeps every
    other held packet. *)
Theorem host_accept_releases (w : Board F) (t : Task C) (s c : Z) :
  inbox_ok (rt_inbox t) ->
  let '(w', t') := drain_host_accept w t in
  HOST_ACCEPT w' = [] /\ inbox_ok (rt_inbox t') /\
  held (rt_inbox t') s c = if decide ((s, c) ∈ HOST_ACCEPT w) then None else held (rt_inbox t) s c.
Proof.
  unfold drain_host_accept. generalize (HOST_ACCEPT w). intros l.
  assert (HOST_ACCEPT (set_host w []) = []) as Hnil by done. revert Hnil.
  generalize (set_host w []). clear w. intros w. revert w t.
  induction l as [|[s' c'] l IH]; intros w t Hnil Hib; cbn [foldl].
  { rewrite decide_False by apply not_elem_of_nil. done. }
  set (ib' := (inbox_take (rt_inbox t) s' c').1).
  assert (exists w1 t1, accept_one (w, t) (s', c') = (w1, t1) /\ HOST_ACCEPT w1 = [] /\ rt_inbox t1 = ib')
    as (w1 & t1 & -> & Hh & Hi).
  { unfold accept_one. destruct (node_id (IDENTITY w)) as [id|], (psk (IDENTITY w)) as [key|];
      [|by eexists _, _..].
    destruct (send_and_forget_shape w (with_inbox t ib' true) key id (ack_packet s' s' c')) as (k & c0 & E).
    eexists _, _. split; [exact E|done]. }
  specialize (IH w1 t1 Hh). rewrite Hi in IH. specialize (IH (inbox_take_ok _ _ _ Hib)).
  destruct (foldl accept_one (w1, t1) l) as [w2 t2]. destruct IH as (-> & Hok & ->).
  split; [done|]. split; [done|]. unfold ib'. rewrite held_take by done.
  destruct (decide ((s, c) ∈ l)) as [Hin|Hin].
  - by rewrite decide_True by (by right).
  - destruct (decide (s = s' /\ c = c')) as [[-> ->]|Hne].
    + by rewrite decide_True by left.
    + rewrite decide_False; [done|]. rewrite elem_of_cons. naive_solver.
Qed.

(** a packet the cortex hands over for another node reaches the air, and
    stays queued until acknowledged.  On a commissioned board with an empty
    outbox, a plain packet from the cable for another node, once that node is
    alive and a counter is available, is advertised as a frame that opens
    under the colony key to exactly that packet; its counter is what an
    acknowledgement must name, and the flash queue still holds it. *)
Theorem carried_packet_reaches_the_air (now : Z) (w w2 : Board F) (t t2 : Task C) (frame fr : MeshFrame)
    (p : PlainPacket) (b key : bytes) (n c : Z) (k : Counter) (f : F) :
  IDENTITY w = mkIdentity (Some n) (Some key) -> to_other (NODE_ID w) p = true ->
  decode_inbound frame (Some key) = Some (Plain p) ->
  (forall s c, payload p <> Ack s c) ->
  to_allocvec p = Some b -> zlen b <= MAX_QUEUED_MESSAGE ->
  queue_iter (STORE w) = Ok [] -> queue_push (STORE w) b = (f, Ok tt) ->
  is_alive (rt_neighbors t) (target p) now = true -> rt_next_drain t <= now ->
  try_next (CTR w) = (k, Some c) -> seal (mkPsk key) Gossip n c p = Ok fr ->
  drain_outbox now (inbound_frame w frame) t = (w2, t2) ->
  open (mkPsk key) fr = Ok p /\ sender fr = n /\ ctr fr = c /\
  rt_ble t2 = (advertise (rt_ble t) fr).1 /\
  (is_ok (advertise (rt_ble t) fr).2 = true -> rt_pending_ctr t2 = Some c) /\
  queue_iter (STORE w2) = Ok [b].
Proof.
  intros Hi Ho Hd Hna Hb Hl Hq Hpush Hal Hdr Hk Hs.
  pose proof (push_ok _ _ _ _ Hpush Hq) as Hq'. cbn [app] in Hq'.
  assert (outbox_len f = 1) as Hlen by (unfold outbox_len; by rewrite Hq').
  assert (inbound_frame w frame = set_depth (set_store w f) 1) as ->.
  { unfold inbound_frame. rewrite Hi. cbn [psk]. rewrite Hd.
    assert (apply_provision w false (payload p) = w) as ->.
    { unfold apply_provision. rewrite Hi. by destruct (payload p). }
    rewrite Ho. unfold carry. rewrite Hb. destruct (Z.leb_spec (zlen b) MAX_QUEUED_MESSAGE); [|lia].
    unfold outbox_push. rewrite Hpush, Hlen.
    destruct (payload p) as [| | | | | | |s' c'| | | |] eqn:E; try done. by destruct (Hna s' c'). }
  unfold drain_outbox. cbn [QUEUE_DEPTH set_depth]. apply Z.leb_le in Hdr. rewrite Hdr.
  cbn [andb Z.ltb Z.compare]. cbn [IDENTITY set_depth set_store STORE]. rewrite Hi. cbn [node_id psk].
  unfold outbox_peek. rewrite (peek_head _ _ Hq'). cbn [ok_flatten head].
  rewrite <- (app_nil_r b), (postcard_roundtrip p) by done. rewrite Hal.
  unfold send_sealed. cbn [CTR set_depth set_store]. rewrite Hk, Hs.
  destruct (seal_opens _ _ _ _ _ _ Hs) as (Hop & _ & _ & Hse & Hct & _).
  destruct (advertise (rt_ble t) fr) as [c' r]. intros [= <- <-]. rewrite app_nil_r.
  split_and!; try done; by destruct r.
Qed.

(** only the matching acknowledgement retires the head of the outbox.  A
    heard frame leaves the flash queue as it was, except an authentic fresh
    [Ack] that names this board and the counter the head was last sent under;
    that one removes exactly the head. *)
Theorem only_matching_ack_retires_head (now : Z) (w : Board F) (t : Task C) (h : Heard)
    (seen : Z -> Z -> Prop) (l : list bytes) :
  table_rep (rt_replay t) seen -> 0 <= ctr (hd_frame h) -> queue_iter (STORE w) = Ok l ->
  let '(w', t') := heard_frame now w t h in
  queue_iter (STORE w') = Ok l \/
  exists key p n c, psk (IDENTITY w) = Some key /\ open (mkPsk key) (hd_frame h) = Ok p /\
    ~ seen (sender (hd_frame h)) (ctr (hd_frame h)) /\
    payload p = Ack n c /\ node_id (IDENTITY w) = Some n /\ rt_pending_ctr t = Some c /\
    rt_pending_ctr t' = None /\
    ((queue_pop (STORE w)).2 = Ok (head l) -> queue_iter (STORE w') = Ok (tail l)).
Proof.
  intros Ht Hc Hq. destruct (heard_frame_cases now w t h seen Ht Hc)
    as [->|(key & p & replay & Hk & Ho & _ & _ & Ea & ->)]; [by left|].
  pose proof (accepted_rep _ _ _ _ _ Ht Hc Ea) as Hr.
  set (t1 := with_replay _ replay true). set (w1 := refresh_neighbors now w t1). cbv zeta.
  unfold dispatch. destruct (is_pending_ack w1 t1 (payload p)) eqn:Ep.
  - right. unfold is_pending_ack in Ep. destruct (payload p) as [| | | | | | |n c| | | |] eqn:Epl; try done.
    apply andb_true_iff in Ep as [E1 E2]. apply bool_decide_eq_true in E1, E2.
    exists key, p, n, c. unfold retire_head, outbox_pop.
    destruct (queue_pop (STORE w1)) as [f r] eqn:Epop.
    assert ((queue_pop (STORE w)).2 = r) as -> by (change (STORE w) with (STORE w1); by rewrite Epop).
    split_and!; try done.
    + intros Hs. pose proof (replay_accept_seen _ _ _ _ Ht Hs) as E. congruence.
    + destruct r as [[x|]|]; done.
    + intros ->. destruct (pop_ok _ _ _ _ Epop Hq) as [_ Hpop].
      destruct (head l); exact Hpop.
  - left. destruct (target p =? _); [|done].
    by destruct (addressed_seen w1 t1 key (hd_frame h) p _ Hr) as (k & c & ->); [left|].
Qed.

End OutboxTheorems.

(** ** Witnesses *)

(** A controller that logs what it is sent and completes every command. *)
Record log_ble := mkLog { bl_sent : list bytes }.

#[export] Instance log_ble_ops : BleOps log_ble := {|
  ble_write c cmd := (mkLog (bl_sent c ++ [cmd]), Ok tt);
  ble_read c := (c, Some [4; 14; 4; 1; 0; 0; 0])
|}.

(** A task that has just started and knows node 7 is alive. *)
Definition task0 : Task log_ble :=
  mkTask (mkLog []) (heard neighbors_new 7 (-60) 0) replay_table_new false inbox_new false false 0 None 0.

Definition heard_toy : Heard := mkHeard toy_sealed (-60).
Definition heard_stranger : Heard := mkHeard stranger (-60).

Lemma radio_ignores_unauthentic_witness :
  heard_all [(5, heard_stranger); (6, heard_toy); (7, heard_stranger)] node3 task0 = heard_all [(6, heard_toy)] node3 task0.
Proof.
  rewrite (radio_ignores_unauthentic [(5, heard_stranger); (6, heard_toy); (7, heard_stranger)] node3 task0 _ replay_new_rep).
  - f_equal; vm_compute; reflexivity.
  - repeat constructor; vm_compute; discriminate.
Defined.

Lemma radio_never_delivers_witness :
  let '(w', t') := foldl (fun st h => heard_frame 5 st.1 st.2 h) (node3, task0)
                     [heard_toy; heard_stranger; heard_toy] in
  rt_inbox t' = inbox_new /\ TX_QUEUE w' = [].
Proof.
  apply (radio_never_delivers 5 [heard_toy; heard_stranger; heard_toy] node3 task0 _ replay_new_rep).
  repeat constructor; vm_compute; discriminate.
Defined.

Definition ack_of_toy : MeshFrame :=
  match seal toy_psk Gossip 3 1 (ack_packet 7 7 300) with Ok f => f | Err _ => toy_sealed end.

Lemma radio_acks_undelivered_witness :
  let '(w', t') := heard_frame 5 node3 task0 heard_toy in
  rt_ble t' = (advertise (mkLog []) ack_of_toy).1 /\ rt_inbox t' = inbox_new /\ TX_QUEUE w' = [].
Proof.
  eapply (radio_acks_undelivered 5 node3 task0 heard_toy (fun _ _ => False) colony_key
            (default [] (to_allocvec toy_packet)) 3 1 (mkCounter 2 1024) toy_packet);
    [exact replay_new_rep|vm_compute; discriminate|vm_compute; reflexivity|vm_compute; discriminate
    |reflexivity|vm_compute; reflexivity|vm_compute; reflexivity|reflexivity|reflexivity|reflexivity
    |vm_compute; discriminate|vm_compute; reflexivity|vm_compute; reflexivity|vm_compute; reflexivity
    |vm_compute; reflexivity].
Defined.

(** The host accepts the only packet held. *)
Definition held_task : Task log_ble := with_inbox task0 demo_inbox false.

Lemma host_accept_releases_witness :
  held demo_inbox 7 300 = Some [1; 2] /\
  let '(w', t') := drain_host_accept (set_host node3 [(7, 300)]) held_task in
  HOST_ACCEPT w' = [] /\ inbox_ok (rt_inbox t') /\ held (rt_inbox t') 7 300 = None.
Proof.
  split; [vm_compute; reflexivity|].
  exact (host_accept_releases (set_host node3 [(7, 300)]) held_task 7 300 demo_inbox_ok).
Defined.

(** An unsealed provision for another node: refused by the board, and carried
    to the air like any other packet, key included. *)
Definition refused_provision : PlainPacket := mkPacket 7 1 0 (Provision 9 (replicate 32 5)).
Definition refused_sealed : MeshFrame :=
  match seal toy_psk Gossip 3 1 refused_provision with Ok f => f | Err _ => toy_sealed end.

Lemma carried_packet_reaches_the_air_witness :
  let '(w2, t2) := drain_outbox 5 (inbound_frame node3 (frame_of refused_provision 0 1)) task0 in
  open toy_psk refused_sealed = Ok refused_provision /\ sender refused_sealed = 3 /\
  ctr refused_sealed = 1 /\ rt_ble t2 = (advertise (mkLog []) refused_sealed).1.
Proof.
  destruct (drain_outbox 5 _ task0) as [w2 t2] eqn:E.
  destruct (carried_packet_reaches_the_air 5 node3 w2 task0 t2 (frame_of refused_provision 0 1)
    refused_sealed refused_provision (default [] (to_allocvec refused_provision)) colony_key 3 1
    (mkCounter 2 1024) (queue_push (STORE node3) (default [] (to_allocvec refused_provision))).1)
    as (H1 & H2 & H3 & H4 & _);
    [vm_compute; reflexivity|vm_compute; reflexivity|vm_compute; reflexivity|discriminate
    |vm_compute; reflexivity|vm_compute; discriminate|vm_compute; reflexivity|vm_compute; reflexivity
    |vm_compute; reflexivity|vm_compute; discriminate|vm_compute; reflexivity|vm_compute; reflexivity
    |exact E|].
  by split_and!.
Defined.

(** The acknowledgement of a head sent under counter 9. *)
Definition pending_task : Task log_ble := with_pending task0 (Some 9).
Definition node3_queued : Board mem_flash :=
  set_depth (set_store node3 (queue_push (STORE node3) [1; 2; 3]).1) 1.
Definition heard_ack : Heard :=
  mkHeard (match seal toy_psk Gossip 7 301 (ack_packet 3 3 9) with Ok f => f | Err _ => toy_sealed end) (-60).

Lemma only_matching_ack_retires_head_witness :
  let '(w', t') := heard_frame 5 node3_queued pending_task heard_ack in
  queue_iter (STORE w') = Ok [[1; 2; 3]] \/
  exists key p n c, psk (IDENTITY node3_queued) = Some key /\ open (mkPsk key) (hd_frame heard_ack) = Ok p /\
    ~ False /\ payload p = Ack n c /\ node_id (IDENTITY node3_queued) = Some n /\
    rt_pending_ctr pending_task = Some c /\ rt_pending_ctr t' = None /\
    ((queue_pop (STORE node3_queued)).2 = Ok (head [[1; 2; 3]]) -> queue_iter (STORE w') = Ok (tail [[1; 2; 3]])).
Proof.
  apply (only_matching_ack_retires_head 5 node3_queued pending_task heard_ack (fun _ _ => False) [[1; 2; 3]]
           replay_new_rep); vm_compute; [discriminate|reflexivity].
Defined.
