(* ===== verification/Text.v ===== *)
(** * Text: Rust strings as lists of code points

    A [&str] is the list of its [char]s.  What the source uses of [str]:
    [trim], [to_ascii_lowercase], [len] (UTF-8 bytes), [starts_with],
    [split_once]-like searches, [lines]. *)
From S2P Require Import Prelude.

Abbreviation text := (list Z).

(** A string literal of the source (ASCII). *)
Fixpoint chars (s : string) : text :=
  match s with
  | EmptyString => []
  | String.String a s => Z.of_nat (Ascii.nat_of_ascii a) :: chars s
  end.

(** Unicode [White_Space], what [char::is_whitespace] tests. *)
Definition is_whitespace (c : Z) : bool :=
  ((9 <=? c) && (c <=? 13)) || (c =? 32) || (c =? 133) || (c =? 160) || (c =? 5760)
  || ((8192 <=? c) && (c <=? 8202)) || (c =? 8232) || (c =? 8233) || (c =? 8239)
  || (c =? 8287) || (c =? 12288).

Fixpoint trim_start (s : text) : text :=
  match s with
  | [] => []
  | c :: r => if is_whitespace c then trim_start r else s
  end.

Definition trim_end (s : text) : text := rev (trim_start (rev s)).
Definition trim (s : text) : text := trim_end (trim_start s).

Definition is_ascii_alphanumeric (c : Z) : bool :=
  ((48 <=? c) && (c <=? 57)) || ((65 <=? c) && (c <=? 90)) || ((97 <=? c) && (c <=? 122)).

Definition is_ascii_hexdigit (b : Z) : bool :=
  ((48 <=? b) && (b <=? 57)) || ((65 <=? b) && (b <=? 70)) || ((97 <=? b) && (b <=? 102)).

Definition ascii_lower (c : Z) : Z := if (65 <=? c) && (c <=? 90) then c + 32 else c.
Definition to_ascii_lowercase (s : text) : text := ascii_lower <$> s.

(** [c.len_utf8()] and [s.len()]. *)
Definition len_utf8 (c : Z) : Z :=
  if c <? 128 then 1 else if c <? 2048 then 2 else if c <? 65536 then 3 else 4.

Fixpoint str_len (s : text) : Z :=
  match s with
  | [] => 0
  | c :: r => len_utf8 c + str_len r
  end.

(** [s.starts_with(p)], [s.ends_with(p)] and [s.contains(p)]. *)
Fixpoint starts_with (p s : text) : bool :=
  match p, s with
  | [], _ => true
  | _ :: _, [] => false
  | x :: p, y :: s => (x =? y) && starts_with p s
  end.

Definition ends_with (p s : text) : bool := starts_with (rev p) (rev s).

Fixpoint str_contains (p s : text) : bool :=
  starts_with p s || match s with [] => false | _ :: s => str_contains p s end.

(** [s.strip_prefix(p)]. *)
Fixpoint strip_prefix (p s : text) : option text :=
  match p, s with
  | [], s => Some s
  | _ :: _, [] => None
  | x :: p, y :: s => if x =? y then strip_prefix p s else None
  end.

(** [s.split(c)]. *)
Fixpoint split_on (c : Z) (s : text) : list text :=
  match s with
  | [] => [[]]
  | x :: s =>
      if x =? c then [] :: split_on c s
      else match split_on c s with l :: ls => (x :: l) :: ls | [] => [[x]] end
  end.

(** [s.lines()]: the pieces a newline ends, without a carriage return before
    it, and what follows the last newline if anything does. *)
Definition strip_cr (l : text) : text :=
  match rev l with 13 :: r => rev r | _ => l end.

Definition lines (s : text) : list text :=
  let ls := split_on 10 s in
  (strip_cr <$> removelast ls) ++ match last ls with Some (c :: l) => [c :: l] | _ => [] end.

(** What a write to a file did; [WroteCut]: it stopped part way. *)
Inductive FsWrite := WroteAll | WroteNone | WroteCut (n : nat).

(** [format!("{n}")] of an unsigned integer below 2^64. *)
Fixpoint digits (fuel : nat) (n : Z) (acc : text) : text :=
  match fuel with
  | O => acc
  | S fuel =>
      let acc := 48 + n mod 10 :: acc in
      if n <? 10 then acc else digits fuel (n / 10) acc
  end.

Definition dec_text (n : Z) : text := digits 20 n [].

(** [s.split_whitespace().next()]. *)
Fixpoint take_word (s : text) : text :=
  match s with
  | c :: r => if is_whitespace c then [] else c :: take_word r
  | [] => []
  end.

Definition first_word (s : text) : option text :=
  match take_word (trim_start s) with [] => None | w => Some w end.

(** [s.parse::<u64>().ok()]: an optional plus sign, digits, no overflow. *)
Fixpoint parse_digits (acc : Z) (s : text) : option Z :=
  match s with
  | [] => Some acc
  | c :: s =>
      if (48 <=? c) && (c <=? 57) then
        let acc := acc * 10 + (c - 48) in
        if u64_max <? acc then None else parse_digits acc s
      else None
  end.

Definition parse_u64 (s : text) : option Z :=
  match s with
  | [] => None
  | [43] => None
  | 43 :: s => parse_digits 0 s
  | _ => parse_digits 0 s
  end.

(** [s.rsplit_once(c)]: what is before and after the last [c]. *)
Fixpoint rsplit_once (c : Z) (s : text) : option (text * text) :=
  match s with
  | [] => None
  | x :: s =>
      match rsplit_once c s with
      | Some (a, b) => Some (x :: a, b)
      | None => if x =? c then Some ([], s) else None
      end
  end.

(** [s.as_bytes()]: UTF-8. *)
Definition utf8_char (c : Z) : bytes :=
  if c <? 128 then [c]
  else if c <? 2048 then [192 + c / 64; 128 + c mod 64]
  else if c <? 65536 then [224 + c / 4096; 128 + c / 64 mod 64; 128 + c mod 64]
  else [240 + c / 262144; 128 + c / 4096 mod 64; 128 + c / 64 mod 64; 128 + c mod 64].

Definition as_bytes (s : text) : bytes := concat (utf8_char <$> s).

(** [a.cmp(b)] is not greater: UTF-8 keeps the order of code points. *)
Fixpoint text_leb (a b : text) : bool :=
  match a, b with
  | [], _ => true
  | _ :: _, [] => false
  | x :: a, y :: b => (x <? y) || ((x =? y) && text_leb a b)
  end.

(** [v.sort()] of strings. *)
Definition sort_texts (l : list text) : list text := merge_sort text_leb l.

(** ** [String::from_utf8_lossy] *)

(** The range of the second byte, and how many continuation bytes follow it. *)
Definition utf8_lead (b : Z) : option (Z * Z * nat * Z) :=
  if (194 <=? b) && (b <=? 223) then Some (128, 191, 0%nat, b - 192)
  else if b =? 224 then Some (160, 191, 1%nat, 0)
  else if ((225 <=? b) && (b <=? 236)) || ((238 <=? b) && (b <=? 239)) then Some (128, 191, 1%nat, b - 224)
  else if b =? 237 then Some (128, 159, 1%nat, 13)
  else if b =? 240 then Some (144, 191, 2%nat, 0)
  else if (241 <=? b) && (b <=? 243) then Some (128, 191, 2%nat, b - 240)
  else if b =? 244 then Some (128, 143, 2%nat, 4)
  else None.

(** Take [n] further continuation bytes: the code point, or where it broke off. *)
Fixpoint utf8_tail (n : nat) (acc : Z) (b : bytes) : Z * bytes :=
  match n, b with
  | O, _ => (acc, b)
  | S n, x :: r => if (128 <=? x) && (x <=? 191) then utf8_tail n (acc * 64 + (x - 128)) r else (65533, b)
  | S _, [] => (65533, [])
  end.

(** One character, or one [U+FFFD] for a maximal invalid subpart. *)
Definition utf8_step (x : Z) (b : bytes) : Z * bytes :=
  if x <? 128 then (x, b)
  else
    match utf8_lead x with
    | None => (65533, b)
    | Some (lo, hi, n, acc) =>
        match b with
        | y :: r => if (lo <=? y) && (y <=? hi) then utf8_tail n (acc * 64 + (y - 128)) r else (65533, b)
        | [] => (65533, [])
        end
    end.

Fixpoint utf8_lossy_fuel (fuel : nat) (b : bytes) : text :=
  match fuel, b with
  | S fuel, x :: r => let '(c, r) := utf8_step x r in c :: utf8_lossy_fuel fuel r
  | _, _ => []
  end.

Definition utf8_lossy (b : bytes) : text := utf8_lossy_fuel (length b) b.

Example utf8_lossy_ok : utf8_lossy [72; 195; 169; 240; 159; 166; 128] = [72; 233; 129408].
Proof. reflexivity. Qed.
Example utf8_lossy_bad : utf8_lossy [72; 255; 226; 130; 65] = [72; 65533; 65533; 65].
Proof. reflexivity. Qed.

(** ** Lemmas *)

Lemma str_len_nonneg s : 0 <= str_len s.
Proof.
  induction s as [|c s IH]; [done|]. cbn [str_len]. unfold len_utf8. case_all; lia.
Qed.

Lemma str_len_app a b : str_len (a ++ b) = str_len a + str_len b.
Proof. induction a as [|c a IH]; [done|]. cbn [app str_len]. lia. Qed.

Lemma starts_with_spec p s : starts_with p s = true <-> exists r, s = p ++ r.
Proof.
  revert s; induction p as [|x p IH]; intros s; cbn [starts_with].
  - split; [by eexists|done].
  - destruct s as [|y s].
    + split; [done|by intros [r Hr]].
    + rewrite andb_true_iff, IH, Z.eqb_eq. split.
      * intros [-> [r ->]]. by exists r.
      * intros [r [= -> ->]]. split; [done|by exists r].
Qed.

Lemma strip_prefix_Some p s r : strip_prefix p s = Some r <-> s = p ++ r.
Proof.
  revert s; induction p as [|x p IH]; intros [|y s]; cbn [strip_prefix app]; try (split; congruence).
  destruct (Z.eqb_spec x y) as [->|Hne]; [rewrite IH; cbn; split; congruence|].
  split; [done|]. intros [= <-]. done.
Qed.

(** A file of newline-terminated lines. *)
Definition terminated (ls : list text) : text := concat ((fun l => l ++ [10]) <$> ls).

Lemma split_on_line c l s : c ∉ l -> split_on c (l ++ c :: s) = l :: split_on c s.
Proof.
  induction l as [|x l IH]; intros Hl; cbn [app split_on].
  - by rewrite Z.eqb_refl.
  - apply not_elem_of_cons in Hl as [Hx Hl]. rewrite IH by done.
    destruct (Z.eqb_spec x c); [congruence|done].
Qed.

Lemma split_on_terminated ls : Forall (fun l => 10 ∉ l) ls -> split_on 10 (terminated ls) = ls ++ [[]].
Proof.
  induction 1 as [|l ls Hl _ IH]; [done|]. unfold terminated in *. cbn [fmap list_fmap concat].
  rewrite <- app_assoc. cbn [app]. rewrite split_on_line by done. by rewrite IH.
Qed.

Lemma lines_terminated ls :
  Forall (fun l => 10 ∉ l) ls -> lines (terminated ls) = strip_cr <$> ls.
Proof.
  intros Hls. unfold lines. rewrite split_on_terminated by done.
  by rewrite removelast_last, last_snoc, app_nil_r.
Qed.

Lemma lines_terminated_tail ls p :
  Forall (fun l => 10 ∉ l) ls -> 10 ∉ p ->
  lines (terminated ls ++ p) = (strip_cr <$> ls) ++ match p with [] => [] | _ => [p] end.
Proof.
  intros Hls Hp. assert (split_on 10 (terminated ls ++ p) = ls ++ [p]) as E.
  { induction Hls as [|l ls Hl _ IH]; unfold terminated in *; cbn [fmap list_fmap concat app].
    - induction p as [|x p IHp]; [done|]. apply not_elem_of_cons in Hp as [Hx Hp]. cbn [split_on].
      rewrite IHp by done. destruct (Z.eqb_spec x 10); [congruence|done].
    - rewrite <- !app_assoc. cbn [app]. rewrite split_on_line by done. by rewrite IH. }
  unfold lines. rewrite E, removelast_last, last_snoc. by destruct p.
Qed.

Lemma terminated_snoc ls l : terminated (ls ++ [l]) = terminated ls ++ l ++ [10].
Proof. unfold terminated. rewrite fmap_app, concat_app. cbn. by rewrite app_nil_r. Qed.

Lemma strip_cr_snoc r x : x <> 13 -> strip_cr (r ++ [x]) = r ++ [x].
Proof.
  intros Hx. unfold strip_cr. rewrite rev_unit.
  repeat (case_match; try done).
Qed.

(** *** Printing and parsing numbers *)

Definition is_digit (c : Z) : Prop := 48 <= c <= 57.

Lemma parse_digits_app a s1 s2 :
  parse_digits a (s1 ++ s2) = b ← parse_digits a s1; parse_digits b s2.
Proof.
  revert a; induction s1 as [|c s1 IH]; intros a; [done|]. cbn [app parse_digits].
  destruct (_ && _); [|done]. destruct (_ <? _); [done|]. apply IH.
Qed.

Lemma digits_spec fuel n acc :
  0 <= n < 10 ^ Z.of_nat fuel -> n <= u64_max -> (0 < fuel)%nat ->
  exists ds, digits fuel n acc = ds ++ acc /\ ds <> [] /\ Forall is_digit ds /\ parse_digits 0 ds = Some n.
Proof.
  revert n acc; induction fuel as [|fuel IH]; intros n acc Hn Hu Hf; [lia|]. cbn [digits].
  pose proof (Z.mod_pos_bound n 10). pose proof (Z.div_mod n 10).
  destruct (Z.ltb_spec n 10).
  - exists [48 + n mod 10]. rewrite Z.mod_small by lia. split_and!; [done|done|repeat constructor; lia|].
    cbn [parse_digits]. destruct (Z.leb_spec 48 (48 + n)), (Z.leb_spec (48 + n) 57); try lia. cbn [andb].
    replace (0 * 10 + (48 + n - 48)) with n by lia. destruct (Z.ltb_spec u64_max n); [lia|done].
  - rewrite Nat2Z.inj_succ, Z.pow_succ_r in Hn by lia.
    assert (0 < fuel)%nat. { destruct fuel; [|lia]. change (10 ^ Z.of_nat 0) with 1 in Hn. lia. }
    destruct (IH (n / 10) (48 + n mod 10 :: acc)) as (ds & E & Hne & Hds & Hp); [|lia|done|].
    { split; [apply Z.div_pos; lia|apply Z.div_lt_upper_bound; lia]. }
    exists (ds ++ [48 + n mod 10]). rewrite E, <- app_assoc. split_and!; [done|by destruct ds| |].
    + apply Forall_app. split; [done|]. repeat constructor; lia.
    + rewrite parse_digits_app, Hp. cbn [mbind option_bind parse_digits].
      destruct (Z.leb_spec 48 (48 + n mod 10)), (Z.leb_spec (48 + n mod 10) 57); try lia. cbn [andb].
      replace (n / 10 * 10 + (48 + n mod 10 - 48)) with n by lia.
      destruct (Z.ltb_spec u64_max n); [lia|done].
Qed.

Lemma digit_not_space c : is_digit c -> is_whitespace c = false.
Proof. unfold is_digit, is_whitespace. lia. Qed.

Lemma take_word_app w c r :
  Forall (fun x => is_whitespace x = false) w -> is_whitespace c = true -> take_word (w ++ c :: r) = w.
Proof. intros Hw Hc. induction Hw as [|x w Hx _ IH]; cbn; [by rewrite Hc|]. by rewrite Hx, IH. Qed.

(** A number printed before a space reads back. *)
Lemma read_number n r :
  is_u64 n -> first_word (dec_text n ++ 32 :: r) ≫= parse_u64 = Some n.
Proof.
  intros Hn. destruct (digits_spec 20 n []) as (ds & E & Hne & Hds & Hp); [|ulia|lia|].
  { change (10 ^ Z.of_nat 20) with 100000000000000000000. ulia. }
  unfold dec_text. rewrite E, app_nil_r. destruct ds as [|d ds]; [done|].
  pose proof (Forall_inv Hds) as Hd. unfold first_word. cbn [app trim_start].
  rewrite digit_not_space by done.
  assert (take_word (d :: ds ++ 32 :: r) = d :: ds) as ->.
  { apply (take_word_app (d :: ds)); [|done]. eapply Forall_impl; [exact Hds|exact digit_not_space]. }
  cbn [mbind option_bind]. unfold parse_u64. unfold is_digit in Hd.
  repeat (case_match; try lia; try done).
Qed.

(** A number printed on a line of its own, as [s.trim().parse()] reads it. *)
Lemma parse_trim_dec n : is_u64 n -> parse_u64 (trim (dec_text n ++ [10])) = Some n.
Proof.
  intros Hn. destruct (digits_spec 20 n []) as (ds & E & Hne & Hds & Hp); [|ulia|lia|].
  { change (10 ^ Z.of_nat 20) with 100000000000000000000. ulia. }
  unfold dec_text. rewrite E, app_nil_r.
  assert (trim (ds ++ [10]) = ds) as ->.
  { destruct ds as [|d ds _] using rev_ind; [by destruct Hne|].
    pose proof Hds as Hl. apply Forall_app in Hl as [_ Hl]. apply Forall_inv in Hl.
    assert (trim_start ((ds ++ [d]) ++ [10]) = (ds ++ [d]) ++ [10]) as Hs.
    { destruct ds as [|x ds]; cbn [app trim_start]; [by rewrite digit_not_space by done|].
      apply Forall_inv in Hds. by rewrite digit_not_space by done. }
    unfold trim, trim_end. rewrite Hs, rev_unit, rev_unit.
    change (trim_start (10 :: d :: rev ds)) with (trim_start (d :: rev ds)). cbn [trim_start].
    rewrite (digit_not_space d) by done. cbn [rev]. by rewrite rev_involutive. }
  destruct ds as [|d ds]; [done|]. pose proof (Forall_inv Hds) as Hd. unfold is_digit in Hd.
  unfold parse_u64. repeat (case_match; try lia; try done).
Qed.

(** *** Splitting at the last separator *)

Lemma rsplit_once_None c s : rsplit_once c s = None <-> c ∉ s.
Proof.
  induction s as [|x s IH]; cbn; [split; [intros _; apply not_elem_of_nil|done]|].
  rewrite not_elem_of_cons. destruct (rsplit_once c s) as [[a b]|] eqn:E.
  - split; [done|]. intros [_ Hs]. apply IH in Hs. done.
  - destruct (Z.eqb_spec x c) as [->|Hne]; split; try done.
    + by intros [? _].
    + intros _. split; [done|by apply IH].
Qed.

Lemma rsplit_once_Some c s a b : rsplit_once c s = Some (a, b) <-> s = a ++ c :: b /\ c ∉ b.
Proof.
  revert a; induction s as [|x s IH]; intros a; cbn.
  { split; [done|]. intros [E _]. by destruct a. }
  destruct (rsplit_once c s) as [[a' b']|] eqn:E.
  - split.
    + intros [= <- <-]. destruct (IH a') as [H _]. destruct (H eq_refl) as [-> Hb]. done.
    + intros [Hs Hb]. destruct a as [|y a]; cbn in Hs; injection Hs as -> Hs.
      * subst s. apply rsplit_once_None in Hb. congruence.
      * destruct (IH a) as [_ H]. specialize (H (conj Hs Hb)). by injection H as -> ->.
  - apply rsplit_once_None in E. destruct (Z.eqb_spec x c) as [->|Hne].
    + split.
      * intros [= <- <-]. done.
      * intros [Hs Hb]. destruct a as [|y a]; cbn in Hs; simplify_eq; [done|].
        exfalso. apply E. apply elem_of_app. right. left.
    + split; [done|]. intros [Hs Hb]. destruct a as [|y a]; cbn in Hs; simplify_eq; [].
      exfalso. apply E. apply elem_of_app. right. left.
Qed.

(** *** The order of strings *)

Lemma text_leb_cons x y a b :
  text_leb (x :: a) (y :: b) = true <-> x < y \/ (x = y /\ text_leb a b = true).
Proof. cbn [text_leb]. rewrite orb_true_iff, andb_true_iff. lia. Qed.

#[export] Instance text_leb_trans : Transitive (fun a b => Is_true (text_leb a b)).
Proof.
  intros a. induction a as [|x a IH]; intros [|y b] [|z c] Hab Hbc; try done.
  apply Is_true_true, text_leb_cons in Hab. apply Is_true_true, text_leb_cons in Hbc.
  apply Is_true_true, text_leb_cons.
  destruct Hab as [?|[-> Hab]], Hbc as [?|[-> Hbc]]; [left; lia|by left|by left|right].
  split; [done|]. apply Is_true_true. eapply IH; by apply Is_true_true.
Qed.

#[export] Instance text_leb_total : Total (fun a b => Is_true (text_leb a b)).
Proof.
  intros a. induction a as [|x a IH]; intros [|y b]; [by left|by left|by right|].
  rewrite !Is_true_true, !text_leb_cons, <- !Is_true_true.
  destruct (Z.lt_trichotomy x y) as [?|[->|?]]; [by left; left| |by right; left].
  destruct (IH b); [left|right]; by right.
Qed.

#[export] Instance text_leb_antisymm : AntiSymm (=) (fun a b => Is_true (text_leb a b)).
Proof.
  intros a. induction a as [|x a IH]; intros [|y b] Hab Hba; try done.
  apply Is_true_true, text_leb_cons in Hab. apply Is_true_true, text_leb_cons in Hba.
  destruct Hab as [?|[-> Hab]], Hba as [?|[? Hba]]; try lia.
  f_equal. apply IH; by apply Is_true_true.
Qed.

Lemma sort_texts_perm l : sort_texts l ≡ₚ l.
Proof. apply merge_sort_Permutation. Qed.

Lemma sort_texts_unique l l' : l ≡ₚ l' -> sort_texts l = sort_texts l'.
Proof.
  intros Hp. eapply (Sorted_unique (fun a b => Is_true (text_leb a b))).
  - apply (Sorted_merge_sort _).
  - apply (Sorted_merge_sort _).
  - by rewrite !sort_texts_perm.
Qed.

(** ** Trimming and lines *)

Lemma trim_start_suffix s : exists p, s = p ++ trim_start s.
Proof.
  induction s as [|c s [p IH]]; cbn; [by exists []|].
  destruct (is_whitespace c); [|by exists []]. exists (c :: p). cbn. by f_equal.
Qed.

Lemma in_rev_text (c : Z) s : c ∈ rev s <-> c ∈ s.
Proof. rewrite !list_elem_of_In. symmetry. apply in_rev. Qed.

Lemma trim_subset c s : c ∈ trim s -> c ∈ s.
Proof.
  unfold trim, trim_end. rewrite in_rev_text.
  destruct (trim_start_suffix (rev (trim_start s))) as [p E]. intros Hc.
  assert (c ∈ rev (trim_start s)) as Hc' by (rewrite E; set_solver). rewrite in_rev_text in Hc'.
  destruct (trim_start_suffix s) as [q ->]. set_solver.
Qed.

Lemma trim_start_idem s : trim_start (trim_start s) = trim_start s.
Proof. induction s as [|c s IH]; [done|]. cbn. destruct (is_whitespace c) eqn:E; [done|]. cbn. by rewrite E. Qed.

Lemma trim_end_keeps s : trim_start s = s -> trim_start (trim_end s) = trim_end s.
Proof.
  intros Hs. unfold trim_end. destruct (trim_start_suffix (rev s)) as [p E]. apply (f_equal (@rev Z)) in E.
  rewrite rev_involutive, rev_app_distr in E. destruct (rev (trim_start (rev s))) as [|c r] eqn:Er; [done|].
  rewrite E in Hs. cbn [app trim_start] in Hs |- *. destruct (is_whitespace c) eqn:Ec; [|done].
  destruct (trim_start_suffix (r ++ rev p)) as [q Eq]. apply (f_equal length) in Hs. cbn in Hs.
  apply (f_equal length) in Eq. rewrite (length_app q) in Eq. lia.
Qed.

Lemma trim_idem s : trim (trim s) = trim s.
Proof.
  unfold trim. rewrite (trim_end_keeps (trim_start s)) by apply trim_start_idem.
  unfold trim_end. by rewrite rev_involutive, trim_start_idem.
Qed.

Lemma split_on_no_sep c s : Forall (fun l => c ∉ l) (split_on c s).
Proof.
  induction s as [|x s IH]; cbn [split_on]; [repeat constructor; apply not_elem_of_nil|].
  destruct (Z.eqb_spec x c) as [->|Hne]; [constructor; [apply not_elem_of_nil|done]|].
  destruct (split_on c s) as [|l ls]; [repeat constructor; set_solver|].
  inversion IH; subst. constructor; [set_solver|done].
Qed.

Lemma strip_cr_subset c l : c ∈ strip_cr l -> c ∈ l.
Proof.
  unfold strip_cr. destruct (rev l) as [|x r] eqn:E; [done|].
  destruct (decide (x = 13)) as [->|Hne].
  - rewrite in_rev_text. intros Hc. apply in_rev_text. rewrite E. set_solver.
  - assert (match x with 13 => rev r | _ => l end = l) as ->; [|done].
    destruct x as [|p|p]; [done| |done]. do 4 (destruct p as [p|p|]; try done).
Qed.

Lemma lines_no_newline s : Forall (fun l => 10 ∉ l) (lines s).
Proof.
  pose proof (split_on_no_sep 10 s) as Hs. unfold lines. apply Forall_app. split.
  - apply Forall_fmap. rewrite Forall_forall in *. intros l Hl Hin. apply strip_cr_subset in Hin.
    revert Hin. apply Hs. destruct (split_on 10 s) as [|x r] using rev_ind; [done|].
    rewrite removelast_last in Hl. set_solver.
  - destruct (last (split_on 10 s)) as [[|c l]|] eqn:E; [constructor| |constructor].
    apply last_Some in E as [r E]. rewrite E in Hs. apply Forall_app in Hs as [_ Hs]. by inversion Hs.
Qed.

Lemma split_on_no c s : c ∉ s -> split_on c s = [s].
Proof.
  induction s as [|x s IH]; [done|]. intros [Hx Hs]%not_elem_of_cons. cbn. rewrite IH by done.
  destruct (Z.eqb_spec x c); [congruence|done].
Qed.

Lemma lines_one s : 10 ∉ s -> s <> [] -> lines s = [s].
Proof. intros H Hne. unfold lines. rewrite split_on_no by done. cbn. by destruct s. Qed.

(** ** Any countable value as a line

    For the toy serialisers of the witnesses: binary digits and a brace. *)
Fixpoint bit_text (p : positive) : text :=
  match p with
  | xH => [125]
  | xO p => 48 :: bit_text p
  | xI p => 49 :: bit_text p
  end.
Fixpoint read_bits (s : text) : option positive :=
  match s with
  | [125] => Some xH
  | 48 :: s => xO <$> read_bits s
  | 49 :: s => xI <$> read_bits s
  | _ => None
  end.

Lemma read_bit_text p : read_bits (bit_text p) = Some p.
Proof. induction p as [p IH|p IH|]; cbn; [by rewrite IH..|done]. Qed.
Lemma read_bits_prefix p n : (n < length (bit_text p))%nat -> read_bits (take n (bit_text p)) = None.
Proof.
  revert n; induction p as [p IH|p IH|]; intros [|n] Hn; cbn in *; try done; try lia; by rewrite IH by lia.
Qed.
Lemma bit_text_shape p : (10 ∉ bit_text p) /\ exists r, bit_text p = r ++ [125].
Proof.
  induction p as [p [Hn [r IH]]|p [Hn [r IH]]|]; cbn [bit_text].
  - split; [by apply not_elem_of_cons|]. exists (49 :: r). by rewrite IH.
  - split; [by apply not_elem_of_cons|]. exists (48 :: r). by rewrite IH.
  - split; [by intros ?%list_elem_of_singleton|by exists []].
Qed.
