(* ===== verification/Connectivity.v ===== *)
(** * The connectivity tier: derivation, latch and tool gating

    [agentd/crates/core/src/connectivity.rs].  The [toml] parser is
    third-party, its document an argument. *)
From S2P Require Import Prelude Text.

(** [enum ConnectivityState], discriminants 0 to 3, ordered. *)
Inductive ConnectivityState := Full | Degraded | Minimal | Isolated.

#[export] Instance ConnectivityState_eq_dec : EqDecision ConnectivityState.
Proof. solve_decision. Defined.

Definition state_u8 (s : ConnectivityState) : Z :=
  match s with Full => 0 | Degraded => 1 | Minimal => 2 | Isolated => 3 end.

(** The derived [Ord]. *)
Definition state_le (a b : ConnectivityState) : bool := state_u8 a <=? state_u8 b.

Definition state_as_str (s : ConnectivityState) : text :=
  match s with
  | Full => chars "full"
  | Degraded => chars "degraded"
  | Minimal => chars "minimal"
  | Isolated => chars "isolated"
  end.

Definition state_parse (s : text) : option ConnectivityState :=
  let s := to_ascii_lowercase (trim s) in
  if bool_decide (s = chars "full") then Some Full
  else if bool_decide (s = chars "degraded") then Some Degraded
  else if bool_decide (s = chars "minimal") then Some Minimal
  else if bool_decide (s = chars "isolated") then Some Isolated
  else None.

Definition state_from_u8 (v : Z) : ConnectivityState :=
  if v =? 0 then Full else if v =? 1 then Degraded else if v =? 2 then Minimal else Isolated.

(** [current] and [set_current] on the value of the atomic. *)
Definition current_state (atomic : Z) : ConnectivityState := state_from_u8 atomic.
Definition set_current (s : ConnectivityState) : Z := state_u8 s.

Definition derive_state (wan_ok : bool) (peers_alive peers_total : Z) (radio_up : bool)
    : ConnectivityState :=
  if wan_ok then Full
  else if (0 <? peers_total) && (0 <? peers_alive) then Degraded
  else if radio_up then Minimal
  else Isolated.

(** ** The latch *)

Record Latch := mkLatch {
  lt_current : ConnectivityState;
  candidate : ConnectivityState;
  streak : Z;
  threshold : Z
}.

Definition latch_new (initial : ConnectivityState) (threshold : Z) : Latch :=
  mkLatch initial initial 0 (Z.max threshold 1).

Definition observe (l : Latch) (observed : ConnectivityState)
    : Latch * option (ConnectivityState * ConnectivityState) :=
  if decide (observed = lt_current l) then
    (mkLatch (lt_current l) observed 0 (threshold l), None)
  else
    let '(cand, streak) :=
      if decide (observed = candidate l) then (candidate l, streak l + 1) else (observed, 1) in
    if threshold l <=? streak then
      (mkLatch observed cand 0 (threshold l), Some (lt_current l, observed))
    else (mkLatch (lt_current l) cand streak (threshold l), None).

(** The watcher feeds one observation per probe round. *)
Fixpoint observe_all (l : Latch) (obs : list ConnectivityState)
    : Latch * list (ConnectivityState * ConnectivityState) :=
  match obs with
  | [] => (l, [])
  | o :: obs =>
      let '(l, flip) := observe l o in
      let '(l, flips) := observe_all l obs in
      (l, match flip with Some f => f :: flips | None => flips end)
  end.

(** ** The tool table *)

(** What the code uses of the [toml] crate. *)
Class TomlOps (V : Type) := {
  toml_parse : text -> option V;
  toml_get : V -> text -> option V;
  toml_as_table : V -> option (list (text * V));
  toml_as_str : V -> option text
}.

Abbreviation ConnectivityRules := (gmap text ConnectivityState).

Section Rules.
Context {V : Type} `{!TomlOps V}.

Definition rule_insert (rules : ConnectivityRules) (e : text * V) : ConnectivityRules :=
  match toml_as_str e.2 ≫= state_parse with
  | Some min => <[e.1 := min]> rules
  | None => rules
  end.

Definition parse_rules (raw : text) : ConnectivityRules :=
  match toml_parse raw with
  | None => ∅
  | Some v =>
      match toml_get v (chars "tools") ≫= toml_as_table with
      | None => ∅
      | Some tools => foldl rule_insert ∅ tools
      end
  end.

(** [load_rules_from]: [None] for a file that cannot be read. *)
Definition load_rules_from (file : option text) : ConnectivityRules :=
  match file with Some raw => parse_rules raw | None => ∅ end.

End Rules.

Definition tool_available (tool : text) (state : ConnectivityState) (rules : ConnectivityRules) : bool :=
  match rules !! tool with
  | Some min => state_le state min
  | None => true
  end.

(** ** Lemmas *)

Lemma state_u8_inj a b : state_u8 a = state_u8 b -> a = b.
Proof. by destruct a, b. Qed.

Lemma current_set s : current_state (set_current s) = s.
Proof. by destruct s. Qed.

(** The latch's own invariant. *)
Record latch_ok (l : Latch) : Prop := {
  lo_threshold : 1 <= threshold l <= u32_max;
  lo_streak : 0 <= streak l < threshold l;
  lo_candidate : 0 < streak l -> candidate l <> lt_current l
}.

Lemma latch_new_ok s n : is_u32 n -> latch_ok (latch_new s n).
Proof. intros Hn. split; cbn; ulia. Qed.

Lemma observe_ok l o : latch_ok l -> latch_ok (observe l o).1 /\ threshold (observe l o).1 = threshold l.
Proof.
  intros [Ht Hs Hc]. unfold observe. destruct (decide (o = lt_current l)) as [->|Hne].
  { split; [split; cbn; ulia|done]. }
  destruct (decide (o = candidate l)) as [->|Hnc]; cbn.
  - destruct (Z.leb_spec (threshold l) (streak l + 1)); cbn; (split; [split; cbn; try lia; done|done]).
  - destruct (Z.leb_spec (threshold l) 1); cbn; (split; [split; cbn; try lia; done|done]).
Qed.

Lemma observe_all_ok l obs :
  latch_ok l -> latch_ok (observe_all l obs).1 /\ threshold (observe_all l obs).1 = threshold l.
Proof.
  revert l; induction obs as [|o obs IH]; intros l Hl; [done|]. cbn [observe_all].
  destruct (observe_ok l o Hl) as [Hl' Ht]. destruct (observe l o) as [l1 f]. cbn in *.
  destruct (IH l1 Hl') as [Hl2 Ht2]. destruct (observe_all l1 obs) as [l2 fs]. cbn in *.
  split; [done|congruence].
Qed.

Lemma observe_all_snoc l obs o :
  observe_all l (obs ++ [o]) =
  let '(l1, fs) := observe_all l obs in
  let '(l2, f) := observe l1 o in
  (l2, fs ++ match f with Some x => [x] | None => [] end).
Proof.
  revert l; induction obs as [|a obs IH]; intros l; cbn [app observe_all].
  - destruct (observe l o) as [l2 []]; done.
  - destruct (observe l a) as [l1 f]. rewrite IH. destruct (observe_all l1 obs) as [l2 fs].
    destruct (observe l2 o) as [l3 g]. by destruct f.
Qed.

(** The streak counts the last observations, all equal to the candidate. *)
Definition streak_tail (l : Latch) (obs : list ConnectivityState) : Prop :=
  exists pre, obs = pre ++ replicate (Z.to_nat (streak l)) (candidate l).

Lemma streak_tail_step l obs o :
  latch_ok l -> streak_tail l obs ->
  streak_tail (observe l o).1 (obs ++ [o]) /\
  (forall from to, (observe l o).2 = Some (from, to) ->
     from = lt_current l /\ to = o /\ lt_current (observe l o).1 = o /\ from <> to /\
     exists pre, obs ++ [o] = pre ++ replicate (Z.to_nat (threshold l)) o).
Proof.
  intros [Ht Hs Hc] [pre Hpre]. unfold observe.
  destruct (decide (o = lt_current l)) as [->|Hne]; cbn.
  { split; [|done]. exists (obs ++ [lt_current l]). by rewrite app_nil_r. }
  set (cs := if decide (o = candidate l) then (candidate l, streak l + 1) else (o, 1)).
  assert (exists k pre', cs = (o, k) /\ 1 <= k <= threshold l /\
            obs ++ [o] = pre' ++ replicate (Z.to_nat k) o) as (k & pre' & E & Hk & Hobs).
  { unfold cs. case_decide as Hd.
    - exists (streak l + 1), pre. subst o. split; [done|]. split; [lia|].
      rewrite Hpre, <- app_assoc. f_equal. rewrite Z2Nat.inj_add, replicate_add by lia. done.
    - exists 1, obs. split; [done|]. split; [lia|done]. }
  rewrite E. destruct (Z.leb_spec (threshold l) k); cbn.
  - split; [exists (obs ++ [o]); by rewrite app_nil_r|]. intros from to [= <- <-].
    split_and!; [done..|]. exists pre'. by replace (threshold l) with k by lia.
  - split; [|done]. by exists pre'.
Qed.

Lemma streak_tail_all s0 n obs :
  is_u32 n -> streak_tail (observe_all (latch_new s0 n) obs).1 obs.
Proof.
  intros Hn. induction obs as [|o obs IH] using rev_ind; [by exists []|].
  rewrite observe_all_snoc. destruct (observe_all_ok _ obs (latch_new_ok s0 n Hn)) as [Hok _].
  destruct (observe_all (latch_new s0 n) obs) as [l fs]. cbn in *.
  pose proof (streak_tail_step l obs o Hok IH) as [Hst _]. by destruct (observe l o).
Qed.

Lemma observe_replicate_settles k l o :
  latch_ok l -> lt_current l = o \/ (candidate l = o /\ threshold l <= streak l + Z.of_nat k) ->
  lt_current (observe_all l (replicate k o)).1 = o.
Proof.
  revert l; induction k as [|k IH]; intros l Hl Hd.
  { destruct Hl. destruct Hd as [?|[_ ?]]; [done|lia]. }
  cbn [replicate observe_all]. destruct (observe_ok l o Hl) as [Hl' Ht].
  assert (lt_current (observe l o).1 = o \/
          (candidate (observe l o).1 = o /\
           threshold (observe l o).1 <= streak (observe l o).1 + Z.of_nat k)) as Hd'.
  { rewrite Ht. unfold observe. destruct (decide (o = lt_current l)) as [->|Hne]; [by left|].
    destruct Hd as [?|[<- Hk]]; [done|]. rewrite decide_True by done.
    destruct (Z.leb_spec (threshold l) (streak l + 1)); cbn; [by left|right; split; [done|lia]]. }
  specialize (IH _ Hl' Hd'). destruct (observe l o) as [l1 f]. cbn in *.
  by destruct (observe_all l1 (replicate k o)).
Qed.

Lemma observe_progress l o :
  latch_ok l ->
  lt_current (observe l o).1 = o \/ (candidate (observe l o).1 = o /\ 1 <= streak (observe l o).1).
Proof.
  intros [Ht Hs Hc]. unfold observe. destruct (decide (o = lt_current l)) as [->|Hne]; [by left|].
  destruct (decide (o = candidate l)) as [->|Hnc].
  - destruct (Z.leb_spec (threshold l) (streak l + 1)); cbn; [by left|right; split; [done|lia]].
  - destruct (Z.leb_spec (threshold l) 1); cbn; [by left|right; split; [done|lia]].
Qed.

Lemma full_streak_settles l o :
  latch_ok l -> lt_current (observe_all l (replicate (Z.to_nat (threshold l)) o)).1 = o.
Proof.
  intros Hok. destruct (observe_ok l o Hok) as [Hok' Ht]. pose proof (observe_progress l o Hok) as Hp.
  pose proof (lo_threshold _ Hok) as Hb.
  replace (Z.to_nat (threshold l)) with (S (Z.to_nat (threshold l - 1))) by lia. cbn [replicate observe_all].
  pose proof (observe_replicate_settles (Z.to_nat (threshold l - 1)) (observe l o).1 o Hok') as Hr.
  destruct (observe l o) as [l1 f]. cbn in *. destruct (observe_all l1 _) as [l2 fs]. apply Hr.
  destruct Hp as [?|[? ?]]; [by left|]. right. split; [done|lia].
Qed.

(** ** Properties *)

(** the latch flips on a full streak and on nothing less.  After any
    history of observations, the next one flips the latch only from the
    current state to a different one it observes, and only if the last
    [threshold] observations were all that state; the streak never reaches the
    threshold (so its [u32] never overflows); and whatever the history,
    [threshold] equal observations make that state current. *)
Theorem latch_hysteresis (s0 : ConnectivityState) (n : Z) (obs : list ConnectivityState)
    (o : ConnectivityState) :
  is_u32 n ->
  let l := (observe_all (latch_new s0 n) obs).1 in
  let need := Z.max n 1 in
  0 <= streak l < need /\
  match (observe l o).2 with
  | Some (from, to) =>
      from = lt_current l /\ to = o /\ lt_current (observe l o).1 = o /\ from <> to /\
      exists pre, obs ++ [o] = pre ++ replicate (Z.to_nat need) o
  | None => lt_current (observe l o).1 = lt_current l
  end /\
  lt_current (observe_all l (replicate (Z.to_nat need) o)).1 = o.
Proof.
  intros Hn l need. destruct (observe_all_ok _ obs (latch_new_ok s0 n Hn)) as [Hok Ht].
  fold l in Hok, Ht. cbn in Ht. fold need in Ht.
  pose proof (streak_tail_step l obs o Hok (streak_tail_all s0 n obs Hn)) as [_ Hflip].
  split; [rewrite <- Ht; apply (lo_streak _ Hok)|]. split.
  - destruct (observe l o) as [l' [[from to]|]] eqn:E; cbn in *.
    + destruct (Hflip from to eq_refl) as (? & ? & ? & ? & Hpre). rewrite Ht in Hpre. done.
    + revert E. unfold observe. by case_all; intros [= <-].
  - rewrite <- Ht. by apply full_streak_settles.
Qed.

Lemma latch_hysteresis_witness :
  lt_current (observe_all (observe_all (latch_new Full 3) [Isolated; Isolated; Full; Isolated]).1
                [Degraded; Degraded; Degraded]).1 = Degraded.
Proof. apply (latch_hysteresis Full 3 [Isolated; Isolated; Full; Isolated] Degraded). ulia. Defined.

(** the tool table gates exactly what it lists.  For a document whose
    [tools] table has distinct keys, a tool is available at a state exactly
    when it is unlisted, or its entry is not a known state name, or the state
    is at least as good as the listed floor; so a better state never removes a
    tool. *)
Theorem tool_gating_exact {V} `{!TomlOps V} (raw tool : text) (doc : V) (tools : list (text * V))
    (s : ConnectivityState) :
  toml_parse raw = Some doc -> toml_get doc (chars "tools") ≫= toml_as_table = Some tools ->
  NoDup tools.*1 ->
  (tool_available tool s (parse_rules raw) = true <->
   forall v floor, (tool, v) ∈ tools -> toml_as_str v ≫= state_parse = Some floor ->
     state_le s floor = true) /\
  (forall s', state_le s' s = true -> tool_available tool s (parse_rules raw) = true ->
     tool_available tool s' (parse_rules raw) = true).
Proof.
  intros Hp Hg Hnd.
  assert (parse_rules raw !! tool =
          (list_to_map tools : gmap text V) !! tool ≫= fun v => toml_as_str v ≫= state_parse) as E.
  { unfold parse_rules. rewrite Hp, Hg. clear Hg.
    assert (forall l (m : ConnectivityRules), NoDup l.*1 ->
      foldl rule_insert m l !! tool =
      match (list_to_map l : gmap text V) !! tool with
      | Some v => match toml_as_str v ≫= state_parse with Some x => Some x | None => m !! tool end
      | None => m !! tool end) as Hgen.
    { clear. induction l as [|[k v] l IH]; intros m Hnd; [done|].
      apply NoDup_cons in Hnd as [Hni Hnd]. cbn [foldl]. rewrite IH by done.
      rewrite list_to_map_cons. unfold rule_insert. cbn [fst snd].
      destruct (decide (k = tool)) as [->|Hne].
      - rewrite (not_elem_of_list_to_map_1 _ _ Hni), lookup_insert_eq.
        destruct (toml_as_str v ≫= state_parse); [by rewrite lookup_insert_eq|done].
      - rewrite lookup_insert_ne by done.
        destruct (toml_as_str v ≫= state_parse); [by rewrite lookup_insert_ne|done]. }
    rewrite Hgen by done. destruct (list_to_map tools !! tool) as [v|]; cbn.
    - destruct (toml_as_str v ≫= state_parse); done.
    - done. }
  unfold tool_available. rewrite E. split.
  - destruct (list_to_map tools !! tool) as [v|] eqn:El; cbn.
    + split.
      * intros Hs v' floor Hv' Hf. assert (v' = v) as ->.
        { apply (elem_of_list_to_map_1 (M := gmap text) _ _ _ Hnd) in Hv'. congruence. }
        rewrite Hf in Hs. done.
      * intros Hall. destruct (toml_as_str v ≫= state_parse) as [floor|] eqn:Ef; [|done].
        apply (elem_of_list_to_map_2 (M := gmap text)) in El. by eapply Hall.
    + apply (not_elem_of_list_to_map_2 (M := gmap text)) in El. split; [|done]. intros _ v floor Hv _.
      destruct El. apply list_elem_of_fmap. by exists (tool, v).
  - intros s' Hs'. case_match; [|done].
    unfold state_le in *. rewrite !Z.leb_le in *. intros Hle. lia.
Qed.

(** A document as its table. *)
#[export] Instance toy_toml : TomlOps (list (text * text) + text) := {|
  toml_parse raw := Some (inl [(raw, chars " Degraded ")]);
  toml_get v k := Some v;
  toml_as_table v := match v with inl l => Some (prod_map id inr <$> l) | inr _ => None end;
  toml_as_str v := match v with inl _ => None | inr s => Some s end
|}.

Lemma tool_gating_exact_witness :
  tool_available (chars "web_fetch") Degraded (parse_rules (chars "web_fetch")) = true /\
  tool_available (chars "web_fetch") Full (parse_rules (chars "web_fetch")) = true.
Proof.
  assert (tool_available (chars "web_fetch") Degraded (parse_rules (chars "web_fetch")) = true) as Hd
    by (vm_compute; reflexivity).
  split; [exact Hd|].
  apply (tool_gating_exact (chars "web_fetch") (chars "web_fetch")
           (inl [(chars "web_fetch", chars " Degraded ")]) [(chars "web_fetch", inr (chars " Degraded "))] Degraded);
    [reflexivity|reflexivity|apply NoDup_singleton|reflexivity|exact Hd].
Defined.
