(* ===== verification/MeshRouter.v ===== *)
(** * The policy router and its process-global hub

    [agentd/crates/core/src/mesh_router.rs] and [mesh_lanes.rs].  A
    [dyn MeshTransport] is a record of its methods; [W] is the state the lanes
    live in (sockets, the LAN health flag), which a send may change. *)
From Stdlib Require Import Sorting.Sorted.
From S2P Require Import Prelude Wire Codecs Framing Text Connectivity.

Inductive TransportId := WifiLan | BleGossip | BleBulk | Lora | Courier.

#[export] Instance TransportId_eq_dec : EqDecision TransportId.
Proof. solve_decision. Defined.

(** The discriminants, which are the cost ranking. *)
Definition transport_u8 (t : TransportId) : Z :=
  match t with WifiLan => 0 | BleGossip => 1 | BleBulk => 2 | Lora => 3 | Courier => 4 end.

Definition transport_as_str (t : TransportId) : text :=
  match t with
  | WifiLan => chars "wifi-lan"
  | BleGossip => chars "ble-gossip"
  | BleBulk => chars "ble-bulk"
  | Lora => chars "lora"
  | Courier => chars "courier"
  end.

Definition is_bulk_capable (t : TransportId) : bool :=
  match t with WifiLan | BleBulk | Courier => true | _ => false end.

Inductive LatencyClass := Interactive | Background | Overnight.

Inductive TransportHealth := Up | Flaky | Down.

#[export] Instance TransportHealth_eq_dec : EqDecision TransportHealth.
Proof. solve_decision. Defined.

Definition usable (h : TransportHealth) : bool := match h with Down => false | _ => true end.

Record SendReceipt := mkReceipt { via : TransportId; rc_bytes : Z }.

Inductive SendError := Unavailable | Failed (why : text).

(** [trait MeshTransport]. *)
Record MeshTransport (W : Type) := mkTransport {
  t_id : TransportId;
  t_mtu : Z;
  t_latency_class : LatencyClass;
  t_health : W -> TransportHealth;
  t_send : W -> MeshFrame -> W * result SendReceipt SendError
}.
Arguments t_id {W}. Arguments t_mtu {W}. Arguments t_latency_class {W}.
Arguments t_health {W}. Arguments t_send {W}. Arguments mkTransport {W}.

(** ** The seen-cache *)

Record SeenCache := mkSeen { capacity : Z; order : list (Z * Z) }.

Definition seen_new (capacity : Z) : SeenCache := mkSeen (Z.max capacity 1) [].

Definition seen_accept (c : SeenCache) (sender ctr : Z) : SeenCache * bool :=
  let key := (sender, ctr) in
  if bool_decide (key ∈ order c) then (c, false)
  else
    let order := if capacity c <=? zlen (order c) then tail (order c) else order c in
    (mkSeen (capacity c) (order ++ [key]), true).

Definition seen_len (c : SeenCache) : Z := zlen (order c).
Definition seen_is_empty (c : SeenCache) : bool := seen_len c =? 0.

(** ** Reachability of one peer *)

Record PeerReachability := mkReach { lanes : list TransportId }.

Definition is_lost (p : PeerReachability) : bool := zlen (lanes p) =? 0.

(** [iter().min()]. *)
Definition min_lane (a b : TransportId) : TransportId := if transport_u8 b <? transport_u8 a then b else a.
Definition best (p : PeerReachability) : option TransportId :=
  match lanes p with [] => None | l :: ls => Some (foldl min_lane l ls) end.

(** ** The router *)

Record RouteOutcome := mkOutcome {
  sent : list SendReceipt;
  failed : list (TransportId * SendError)
}.

Definition delivered (o : RouteOutcome) : bool := negb (zlen (sent o) =? 0).

(** The two [match t.send(frame).await] arms of [send]. *)
Definition record_send (o : RouteOutcome) (id : TransportId) (r : result SendReceipt SendError)
    : RouteOutcome :=
  match r with
  | Ok receipt => mkOutcome (sent o ++ [receipt]) (failed o)
  | Err e => mkOutcome (sent o) (failed o ++ [(id, e)])
  end.

Definition usize_max : Z := u64_max.

Section Router.
Context {W : Type} `{!PostcardOps MeshFrame}.

Record Router := mkRouter { transports : list (MeshTransport W); seen : SeenCache }.

(** [sort_by_key(|t| t.id())], a stable sort. *)
Fixpoint insert_by_id (t : MeshTransport W) (l : list (MeshTransport W)) : list (MeshTransport W) :=
  match l with
  | [] => [t]
  | u :: l => if transport_u8 (t_id t) <=? transport_u8 (t_id u) then t :: u :: l
              else u :: insert_by_id t l
  end.

Definition sort_by_id (l : list (MeshTransport W)) : list (MeshTransport W) :=
  foldr insert_by_id [] l.

Definition router_new (ts : list (MeshTransport W)) (seen_capacity : Z) : Router :=
  mkRouter (sort_by_id ts) (seen_new seen_capacity).

Definition accept_inbound (r : Router) (f : MeshFrame) : Router * bool :=
  let '(s, news) := seen_accept (seen r) (sender f) (ctr f) in
  (mkRouter (transports r) s, news).

(** [t.health().usable() && frame_len <= t.mtu()]. *)
Definition fits (w : W) (frame_len : Z) (t : MeshTransport W) : bool :=
  usable (t_health t w) && (frame_len <=? t_mtu t).

Definition route (r : Router) (w : W) (class : MeshClass) (frame_len : Z) : list TransportId :=
  let usable := List.filter (fits w frame_len) (transports r) in
  match class with
  | Critical => t_id <$> usable
  | Gossip | Digest =>
      match List.find (fun t => bool_decide (t_health t w = Up)) usable with
      | Some t => [t_id t]
      | None => match usable with t :: _ => [t_id t] | [] => [] end
      end
  | Bulk => take 1 (t_id <$> List.filter (fun t => is_bulk_capable (t_id t)) usable)
  end.

(** The first loop of [send], over the chosen lanes. *)
Fixpoint send_lanes (ts : list (MeshTransport W)) (f : MeshFrame) (ids : list TransportId)
    (w : W) (o : RouteOutcome) : W * RouteOutcome :=
  match ids with
  | [] => (w, o)
  | id :: ids =>
      match List.find (fun t => bool_decide (t_id t = id)) ts with
      | None => send_lanes ts f ids w o
      | Some t => let '(w, r) := t_send t w f in send_lanes ts f ids w (record_send o id r)
      end
  end.

(** The second loop: the next usable lane, until one takes the frame. *)
Fixpoint send_fallback (tried : list TransportId) (f : MeshFrame) (frame_len : Z)
    (ts : list (MeshTransport W)) (w : W) (o : RouteOutcome) : W * RouteOutcome :=
  match ts with
  | [] => (w, o)
  | t :: ts =>
      if bool_decide (t_id t ∈ tried) then send_fallback tried f frame_len ts w o
      else if negb (fits w frame_len t) then send_fallback tried f frame_len ts w o
      else
        let '(w, r) := t_send t w f in
        let o := record_send o (t_id t) r in
        match r with Ok _ => (w, o) | Err _ => send_fallback tried f frame_len ts w o end
  end.

(** The length [send] routes by: that of the datagram encoding. *)
Definition frame_len (f : MeshFrame) : Z :=
  match encode_datagram f with Ok b => zlen b | Err _ => usize_max end.

Definition router_send (r : Router) (w : W) (class : MeshClass) (f : MeshFrame) : W * RouteOutcome :=
  let frame_len := frame_len f in
  let lanes := route r w class frame_len in
  let '(w, outcome) := send_lanes (transports r) f lanes w (mkOutcome [] []) in
  if (zlen (sent outcome) =? 0) && match class with Gossip | Digest => true | _ => false end
  then send_fallback lanes f frame_len (transports r) w outcome
  else (w, outcome).

Definition router_health (r : Router) (w : W) : list (TransportId * TransportHealth) :=
  (fun t => (t_id t, t_health t w)) <$> transports r.

Definition implied_state (r : Router) (w : W) : ConnectivityState :=
  let up := t_id <$> List.filter (fun t => usable (t_health t w)) (transports r) in
  if bool_decide (WifiLan ∈ up) then Full
  else if existsb (fun t => match t with BleGossip | BleBulk => true | _ => false end) up then Degraded
  else if bool_decide (Lora ∈ up) then Minimal
  else Isolated.

(** ** The hub *)

(** [static HUB] and [static WIFI]. *)
Record Hub := mkHub { hub : option Router; wifi : Z }.

Definition hub_static : Hub := mkHub None 2.

(** [install]: the first router stays. *)
Definition install (h : Hub) (r : Router) : Hub :=
  match hub h with Some _ => h | None => mkHub (Some r) (wifi h) end.

Definition installed (h : Hub) : bool := is_someb (hub h).

Definition set_wifi_health (h : Hub) (x : TransportHealth) : Hub :=
  mkHub (hub h) (match x with Down => 0 | Flaky => 1 | Up => 2 end).

Definition wifi_health (h : Hub) : TransportHealth :=
  if wifi h =? 0 then Down else if wifi h =? 1 then Flaky else Up.

Definition hub_route (h : Hub) (w : W) (class : MeshClass) (n : Z) : list TransportId :=
  match hub h with Some r => route r w class n | None => [WifiLan] end.

Definition hub_send (h : Hub) (w : W) (class : MeshClass) (f : MeshFrame) : W * RouteOutcome :=
  match hub h with
  | Some r => router_send r w class f
  | None => (w, mkOutcome [] [(WifiLan, Unavailable)])
  end.

Definition hub_health (h : Hub) (w : W) : list (TransportId * TransportHealth) :=
  match hub h with Some r => router_health r w | None => [(WifiLan, wifi_health h)] end.

End Router.
Arguments Router : clear implicits.
Arguments Hub : clear implicits.

(** ** Lemmas *)

(** Accept a list of keys in turn; collect the accepted ones in order. *)
Fixpoint seen_run (c : SeenCache) (keys : list (Z * Z)) (acc : list (Z * Z)) : SeenCache * list (Z * Z) :=
  match keys with
  | [] => (c, acc)
  | k :: keys =>
      let '(c, news) := seen_accept c k.1 k.2 in
      seen_run c keys (if news then acc ++ [k] else acc)
  end.

(** The last [n] elements. *)
Definition last_n {A} (n : nat) (l : list A) : list A := drop (length l - n) l.

Definition seen_rep (n : nat) (c : SeenCache) (acc : list (Z * Z)) : Prop :=
  capacity c = Z.of_nat n /\ order c = last_n n acc /\ NoDup (order c).

Lemma seen_accept_rep n c acc k :
  (1 <= n)%nat -> seen_rep n c acc ->
  seen_rep n (seen_accept c k.1 k.2).1 (if (seen_accept c k.1 k.2).2 then acc ++ [k] else acc) /\
  ((seen_accept c k.1 k.2).2 = true <-> k ∉ last_n n acc).
Proof.
  intros Hn (Hcap & Hord & Hnd). unfold seen_accept. rewrite <- (surjective_pairing k).
  case_bool_decide as Hin; cbn; [by rewrite <- Hord|]. split; [|by rewrite <- Hord].
  split; [done|]. rewrite Hcap. cbn [order].
  assert (length (order c) = n `min` length acc)%nat as Hlen.
  { rewrite Hord. unfold last_n. rewrite length_drop. lia. }
  assert (last_n n (acc ++ [k]) =
          (if Z.of_nat n <=? zlen (order c) then tail (order c) else order c) ++ [k]) as E.
  { unfold last_n. rewrite length_app. cbn [length]. unfold zlen.
    destruct (Z.leb_spec (Z.of_nat n) (Z.of_nat (length (order c)))).
    - rewrite drop_app_le by lia. f_equal. rewrite Hord. unfold last_n.
      replace (length acc + 1 - n)%nat with (S (length acc - n)) by lia.
      generalize (length acc - n)%nat. clear. intros m. revert m.
      induction acc as [|a acc IH]; intros [|m]; try done. cbn. by rewrite <- IH.
    - rewrite drop_app_le by lia. f_equal. rewrite Hord. unfold last_n.
      by replace (length acc + 1 - n)%nat with (length acc - n)%nat by lia. }
  split; [done|]. apply NoDup_app. split_and!.
  - destruct (_ <=? _); [|done]. destruct (order c); [done|]. by apply NoDup_cons in Hnd as [_ ?].
  - intros x Hx ->%list_elem_of_singleton. destruct Hin. destruct (_ <=? _); [|done].
    destruct (order c); [done|by right].
  - apply NoDup_singleton.
Qed.

Section RouterLemmas.
Context {W : Type}.
Implicit Types (ts : list (MeshTransport W)) (t u : MeshTransport W).

Definition cost (t : MeshTransport W) : Z := transport_u8 (t_id t).

Lemma insert_by_id_perm t ts : insert_by_id t ts ≡ₚ t :: ts.
Proof.
  induction ts as [|u ts IH]; cbn; [done|]. destruct (_ <=? _); [done|]. rewrite IH. apply Permutation_swap.
Qed.

Lemma sort_by_id_perm ts : sort_by_id ts ≡ₚ ts.
Proof. induction ts as [|t ts IH]; cbn; [done|]. by rewrite insert_by_id_perm, IH. Qed.

Definition by_cost : list (MeshTransport W) -> Prop := StronglySorted (fun t u => cost t <= cost u).

Lemma insert_by_id_sorted t ts : by_cost ts -> by_cost (insert_by_id t ts).
Proof.
  induction 1 as [|u ts Hs IH Hall]; cbn; [repeat constructor|].
  destruct (Z.leb_spec (transport_u8 (t_id t)) (transport_u8 (t_id u))) as [Hle|Hlt].
  - constructor; [by constructor|]. constructor; [done|]. eapply Forall_impl; [exact Hall|].
    unfold cost. cbn. intros; lia.
  - constructor; [done|]. eapply Forall_forall. intros x Hx. rewrite insert_by_id_perm in Hx.
    apply elem_of_cons in Hx as [->|Hx]; [unfold cost; lia|]. by eapply Forall_forall in Hall.
Qed.

Lemma sort_by_id_sorted ts : by_cost (sort_by_id ts).
Proof. induction ts; cbn; [constructor|by apply insert_by_id_sorted]. Qed.

Lemma find_cheapest p ts t :
  by_cost ts -> List.find p ts = Some t ->
  t ∈ ts /\ p t = true /\ forall u, u ∈ ts -> p u = true -> cost t <= cost u.
Proof.
  induction 1 as [|v ts Hs IH Hall]; cbn; [done|]. destruct (p v) eqn:Ep.
  - intros [= <-]. split_and!; [by left|done|]. intros u [->|Hu]%elem_of_cons _; [done|].
    by eapply Forall_forall in Hall.
  - intros (Hin & Hp & Hmin)%IH. split_and!; [by right|done|].
    intros u [->|Hu]%elem_of_cons Hpu; [congruence|auto].
Qed.

Lemma find_none_iff {A} (p : A -> bool) l : List.find p l = None <-> forall x, x ∈ l -> p x = false.
Proof.
  split.
  - intros Hf x Hx. eapply find_none; [done|]. by apply list_elem_of_In.
  - intros Hall. destruct (List.find p l) eqn:E; [|done]. apply find_some in E as [Hi Hp].
    apply list_elem_of_In, Hall in Hi. congruence.
Qed.

Lemma find_filter {A} (p q : A -> bool) l :
  List.find q (List.filter p l) = List.find (fun x => p x && q x) l.
Proof.
  induction l as [|x l IH]; [done|]. cbn. destruct (p x); cbn; [|done]. by rewrite IH.
Qed.

Lemma head_filter {A} (p : A -> bool) l : head (List.filter p l) = List.find p l.
Proof. induction l as [|x l IH]; [done|]. cbn. by destruct (p x). Qed.

Lemma filter_filter {A} (p q : A -> bool) l :
  List.filter q (List.filter p l) = List.filter (fun x => p x && q x) l.
Proof. induction l as [|x l IH]; [done|]. cbn. destruct (p x); cbn; by rewrite IH. Qed.

(** The lane [Gossip] and [Digest] take, as one search. *)
Definition pick_lane (w : W) (n : Z) ts : option (MeshTransport W) :=
  match List.find (fun t => fits w n t && bool_decide (t_health t w = Up)) ts with
  | Some t => Some t
  | None => List.find (fits w n) ts
  end.

Lemma route_gossip (r : Router W) w cl n :
  cl = Gossip \/ cl = Digest ->
  route r w cl n = match pick_lane w n (transports r) with Some t => [t_id t] | None => [] end.
Proof.
  intros Hcl. unfold pick_lane. rewrite <- find_filter, <- (head_filter (fits w n)).
  assert (route r w cl n = route r w Gossip n) as -> by (by destruct Hcl as [-> | ->]).
  cbn [route]. destruct (List.find _ (List.filter _ _)); [done|]. by destruct (List.filter _ _).
Qed.

Lemma pick_lane_Some w n ts t :
  by_cost ts -> pick_lane w n ts = Some t ->
  t ∈ ts /\ fits w n t = true /\
  ((t_health t w = Up /\ forall u, u ∈ ts -> fits w n u = true -> t_health u w = Up -> cost t <= cost u) \/
   (forall u, u ∈ ts -> fits w n u = true -> t_health u w <> Up /\ cost t <= cost u)).
Proof.
  intros Hs. unfold pick_lane.
  destruct (List.find (fun t => fits w n t && bool_decide (t_health t w = Up)) ts) as [v|] eqn:E.
  - intros [= <-]. apply find_cheapest in E as (Hin & [Hf Hup]%andb_true_iff & Hmin); [|done].
    apply bool_decide_eq_true in Hup. split_and!; [done|done|]. left. split; [done|].
    intros u Hu Hfu Hupu. apply Hmin; [done|]. by rewrite Hfu, bool_decide_true.
  - intros (Hin & Hf & Hmin)%find_cheapest; [|done]. split_and!; [done|done|]. right.
    intros u Hu Hfu. split; [|auto]. intros Hup. rewrite find_none_iff in E.
    specialize (E u Hu). by rewrite Hfu, bool_decide_true in E.
Qed.

Lemma pick_lane_None w n ts : pick_lane w n ts = None <-> forall t, t ∈ ts -> fits w n t = false.
Proof.
  unfold pick_lane. destruct (List.find (fun t => _ && _) ts) as [v|] eqn:E.
  - split; [done|]. intros Hall. apply find_some in E as [Hi%list_elem_of_In [Hf _]%andb_true_iff].
    rewrite Hall in Hf; done.
  - apply find_none_iff.
Qed.

End RouterLemmas.

(** ** Independent lanes *)

Section SendLemmas.
Context {W : Type} `{!PostcardOps MeshFrame}.
Implicit Types (ts : list (MeshTransport W)) (t u : MeshTransport W).

(** Using one lane changes neither the health nor the outcome of another. *)
Definition lanes_independent ts : Prop :=
  forall t u, t ∈ ts -> u ∈ ts -> t_id t <> t_id u -> forall w f,
    t_health u (t_send t w f).1 = t_health u w /\ (t_send u (t_send t w f).1 f).2 = (t_send u w f).2.

(** [u] looks at [w'] as it did at [w]. *)
Definition same_lane (w w' : W) (f : MeshFrame) u : Prop :=
  t_health u w' = t_health u w /\ (t_send u w' f).2 = (t_send u w f).2.

Lemma same_lane_step ts w w' f t u :
  lanes_independent ts -> t ∈ ts -> u ∈ ts -> t_id t <> t_id u ->
  same_lane w w' f u -> same_lane w (t_send t w' f).1 f u.
Proof.
  intros Hind Ht Hu Hne [Hh Hr]. destruct (Hind t u Ht Hu Hne w' f) as [Hh' Hr'].
  split; congruence.
Qed.

Lemma NoDup_ids_inj ts t u :
  NoDup (t_id <$> ts) -> t ∈ ts -> u ∈ ts -> t_id t = t_id u -> t = u.
Proof.
  induction ts as [|v ts IH]; intros Hnd Ht Hu E; [by apply not_elem_of_nil in Ht|].
  cbn in Hnd. apply NoDup_cons in Hnd as [Hni Hnd].
  apply elem_of_cons in Ht as [->|Ht], Hu as [->|Hu]; [done| | |auto].
  - destruct Hni. rewrite E. by apply list_elem_of_fmap_2.
  - destruct Hni. rewrite <- E. by apply list_elem_of_fmap_2.
Qed.

Lemma find_by_id ts t :
  NoDup (t_id <$> ts) -> t ∈ ts -> List.find (fun u => bool_decide (t_id u = t_id t)) ts = Some t.
Proof.
  intros Hnd Ht. destruct (List.find _ ts) as [u|] eqn:E.
  - apply find_some in E as [Hu%list_elem_of_In E]. apply bool_decide_eq_true in E.
    f_equal. by eapply NoDup_ids_inj.
  - rewrite find_none_iff in E. specialize (E t Ht). cbn in E. by rewrite bool_decide_true in E.
Qed.

(** The fallback loop sends at most one copy, and sends one exactly when an
    untried usable lane takes it. *)
Lemma send_fallback_spec all tried f n w :
  lanes_independent all ->
  forall ts w' o, (forall t, t ∈ ts -> t ∈ all) -> NoDup (t_id <$> ts) ->
  (forall u, u ∈ ts -> t_id u ∉ tried -> same_lane w w' f u) -> sent o = [] ->
  let o' := (send_fallback tried f n ts w' o).2 in
  zlen (sent o') <= 1 /\
  (sent o' <> [] <->
   exists u, u ∈ ts /\ (t_id u ∉ tried) /\ fits w n u = true /\ is_ok (t_send u w f).2 = true).
Proof.
  intros Hind. induction ts as [|t ts IH]; intros w' o Hall Hnd Hsame Ho; cbn [send_fallback snd].
  { rewrite Ho. split; [done|]. split; [done|]. intros (u & Hu & _). by apply not_elem_of_nil in Hu. }
  cbn in Hnd. apply NoDup_cons in Hnd as [Hni Hnd].
  assert (forall u, u ∈ ts -> t_id t <> t_id u) as Hne.
  { intros u Hu E. destruct Hni. rewrite E. by apply list_elem_of_fmap_2. }
  assert (forall (P : MeshTransport W -> Prop), ~ P t -> (exists u, u ∈ t :: ts /\ P u) <-> exists u, u ∈ ts /\ P u)
    as Hskip.
  { intros P HP. split; intros (u & Hu & Hp); exists u; (split; [|done]); [|by right].
    apply elem_of_cons in Hu as [->|Hu]; done. }
  case_bool_decide as Htried.
  { rewrite (Hskip (fun u => (t_id u ∉ tried) /\ _)) by naive_solver. apply IH; auto.
    - intros u Hu. apply Hall. by right.
    - intros u Hu. apply Hsame. by right. }
  destruct (Hsame t ltac:(left) Htried) as [Hh Hr].
  assert (fits w' n t = fits w n t) as -> by (unfold fits; by rewrite Hh).
  destruct (fits w n t) eqn:Ef; cbn [negb].
  2: { rewrite (Hskip (fun u => (t_id u ∉ tried) /\ _)) by (intros (_ & E & _); congruence). apply IH; auto.
    - intros u Hu. apply Hall. by right.
    - intros u Hu. apply Hsame. by right. }
  destruct (t_send t w' f) as [w1 r] eqn:Es. cbn in Hr.
  destruct r as [receipt|e]; cbn [record_send snd sent].
  - rewrite Ho. split; [by unfold zlen; cbn|]. split; [|done]. intros _. exists t. split_and!; [left|done|done|].
    by rewrite <- Hr.
  - rewrite (Hskip (fun u => (t_id u ∉ tried) /\ _)) by (intros (_ & _ & E); by rewrite <- Hr in E).
    apply IH; [intros u Hu; apply Hall; by right|done| |done].
    intros u Hu Hu'. replace w1 with (t_send t w' f).1 by (by rewrite Es).
    apply (same_lane_step all); [done|apply Hall; left|apply Hall; by right|by apply Hne|].
    apply Hsame; [by right|done].
Qed.

(** The outcomes of sending over a list of lanes as seen from [w]. *)
Definition receipts (w : W) (f : MeshFrame) ts : list SendReceipt :=
  omap (fun t => match (t_send t w f).2 with Ok r => Some r | Err _ => None end) ts.
Definition refusals (w : W) (f : MeshFrame) ts : list (TransportId * SendError) :=
  omap (fun t => match (t_send t w f).2 with Ok _ => None | Err e => Some (t_id t, e) end) ts.

Lemma send_lanes_spec all f w :
  lanes_independent all -> NoDup (t_id <$> all) ->
  forall ts w' o, (forall t, t ∈ ts -> t ∈ all) -> NoDup (t_id <$> ts) ->
  (forall u, u ∈ ts -> same_lane w w' f u) ->
  (send_lanes all f (t_id <$> ts) w' o).2 =
  mkOutcome (sent o ++ receipts w f ts) (failed o ++ refusals w f ts).
Proof.
  intros Hind Hall. induction ts as [|t ts IH]; intros w' o Hsub Hnd Hsame.
  { cbn. rewrite !app_nil_r. by destruct o. }
  cbn in Hnd. apply NoDup_cons in Hnd as [Hni Hnd]. rewrite fmap_cons. cbn [send_lanes].
  rewrite find_by_id by (auto; apply Hsub; left).
  destruct (Hsame t ltac:(left)) as [_ Hr].
  pose proof (same_lane_step all w w' f t) as Hstep.
  destruct (t_send t w' f) as [w1 r]. cbn in Hr, Hstep. rewrite IH.
  - unfold receipts, refusals. cbn [omap list_omap]. rewrite <- Hr.
    destruct r; cbn [record_send sent failed]; by rewrite <- app_assoc.
  - intros u Hu. apply Hsub. by right.
  - done.
  - intros u Hu. apply Hstep; [done|apply Hsub; left|apply Hsub; by right| |apply Hsame; by right].
    intros E. destruct Hni. rewrite E. by apply list_elem_of_fmap_2.
Qed.

Lemma NoDup_filter_ids (p : MeshTransport W -> bool) ts :
  NoDup (t_id <$> ts) -> NoDup (t_id <$> List.filter p ts).
Proof.
  induction ts as [|t ts IH]; cbn; intros Hnd; [constructor|]. apply NoDup_cons in Hnd as [Hni Hnd].
  destruct (p t); [|auto]. cbn. apply NoDup_cons. split; [|auto]. intros Hin. destruct Hni.
  apply list_elem_of_fmap in Hin as (u & -> & Hu). apply list_elem_of_fmap_2.
  apply list_elem_of_In, filter_In in Hu as [Hu _]. by apply list_elem_of_In.
Qed.

Lemma same_lane_refl w f u : same_lane w w f u.
Proof. done. Qed.

End SendLemmas.

(** ** Properties *)

Section RouterTheorems.
Context {W : Type} `{!PostcardOps MeshFrame}.

(** the class decides the lanes.  Every lane chosen is usable and fits the
    frame.  [Critical] takes every such lane; [Gossip] and [Digest] take one:
    the cheapest fully-up lane, or the cheapest usable one when none is up;
    [Bulk] takes the cheapest bulk-capable one; and the answer is empty only
    when there is no such lane. *)
Theorem route_policy (ts : list (MeshTransport W)) (cap : Z) (w : W) (class : MeshClass) (n : Z) :
  let r := router_new ts cap in
  match class with
  | Critical => forall id, id ∈ route r w class n <-> exists t, t ∈ ts /\ fits w n t = true /\ t_id t = id
  | Gossip | Digest =>
      match route r w class n with
      | [] => forall t, t ∈ ts -> fits w n t = false
      | [id] => exists t, t ∈ ts /\ fits w n t = true /\ t_id t = id /\
          ((t_health t w = Up /\ forall u, u ∈ ts -> fits w n u = true -> t_health u w = Up -> cost t <= cost u) \/
           (forall u, u ∈ ts -> fits w n u = true -> t_health u w <> Up /\ cost t <= cost u))
      | _ :: _ :: _ => False
      end
  | Bulk =>
      match route r w class n with
      | [] => forall t, t ∈ ts -> fits w n t = true -> is_bulk_capable (t_id t) = false
      | [id] => exists t, t ∈ ts /\ fits w n t = true /\ t_id t = id /\ is_bulk_capable id = true /\
          forall u, u ∈ ts -> fits w n u = true -> is_bulk_capable (t_id u) = true -> cost t <= cost u
      | _ :: _ :: _ => False
      end
  end.
Proof.
  intros r. pose proof (sort_by_id_perm ts) as Hperm. pose proof (sort_by_id_sorted ts) as Hs.
  assert (forall t, t ∈ sort_by_id ts <-> t ∈ ts) as Hin by (intros; by rewrite Hperm).
  assert (forall cl, cl = Gossip \/ cl = Digest ->
    match route r w cl n with
    | [] => forall t, t ∈ ts -> fits w n t = false
    | [id] => exists t, t ∈ ts /\ fits w n t = true /\ t_id t = id /\
        ((t_health t w = Up /\ forall u, u ∈ ts -> fits w n u = true -> t_health u w = Up -> cost t <= cost u) \/
         (forall u, u ∈ ts -> fits w n u = true -> t_health u w <> Up /\ cost t <= cost u))
    | _ :: _ :: _ => False
    end) as Hg.
  { intros cl Hcl. rewrite route_gossip by done. cbn [transports r router_new].
    destruct (pick_lane w n (sort_by_id ts)) as [t|] eqn:E.
    - apply pick_lane_Some in E as (Ht & Hf & Hm); [|done]. exists t. rewrite <- Hin.
      split_and!; [done..|]. setoid_rewrite <- Hin. exact Hm.
    - rewrite pick_lane_None in E. intros t Ht. apply E. by apply Hin. }
  destruct class; [|apply Hg; by left| |apply Hg; by right].
  - intros id. cbn. rewrite list_elem_of_fmap. split.
    + intros (t & -> & Ht). apply list_elem_of_In, filter_In in Ht as [Ht Hf].
      apply list_elem_of_In, Hin in Ht. by exists t.
    + intros (t & Ht & Hf & <-). exists t. split; [done|]. apply list_elem_of_In, filter_In.
      split; [|done]. by apply list_elem_of_In, Hin.
  - cbn [route transports r router_new]. rewrite filter_filter.
    set (p := fun x => fits w n x && is_bulk_capable (t_id x)).
    pose proof (head_filter p (sort_by_id ts)) as Hh.
    destruct (List.filter p (sort_by_id ts)) as [|t l] eqn:E; cbn in Hh |- *.
    + intros t Ht Hf. symmetry in Hh. rewrite find_none_iff in Hh. apply Hin, Hh in Ht.
      unfold p in Ht. rewrite Hf in Ht. exact Ht.
    + symmetry in Hh. apply find_cheapest in Hh as (Ht & [Hf Hb]%andb_true_iff & Hm); [|done].
      exists t. split_and!; [by apply Hin|done..|]. intros u Hu Hfu Hbu. apply Hm; [by apply Hin|].
      unfold p. by rewrite Hfu, Hbu.
Qed.

(** gossip leaves the node if any lane can take it, and only once.  With
    independent lanes, a [Gossip] or [Digest] frame is delivered exactly when
    some usable lane that fits it would take it, whichever lane was tried
    first; and at most one copy leaves. *)
Theorem gossip_delivered_iff (ts : list (MeshTransport W)) (cap : Z) (w : W) (class : MeshClass)
    (f : MeshFrame) :
  NoDup (t_id <$> ts) -> lanes_independent ts -> class = Gossip \/ class = Digest ->
  let o := (router_send (router_new ts cap) w class f).2 in
  zlen (sent o) <= 1 /\
  (delivered o = true <->
   exists t, t ∈ ts /\ fits w (frame_len f) t = true /\ is_ok (t_send t w f).2 = true).
Proof.
  intros Hnd Hind Hcl. set (st := sort_by_id ts). pose proof (sort_by_id_perm ts : st ≡ₚ ts) as Hperm.
  assert (NoDup (t_id <$> st)) as Hnd' by (by rewrite Hperm).
  assert (forall t, t ∈ st <-> t ∈ ts) as Hin by (intros; by rewrite Hperm).
  assert (lanes_independent st) as Hind' by (intros t u Ht Hu; apply Hind; by apply Hin).
  cbv zeta. setoid_rewrite <- Hin. clear Hnd Hind. unfold router_send. set (n := frame_len f).
  rewrite route_gossip by done. cbn [transports router_new]. fold st.
  assert (match class with Gossip | Digest => true | _ => false end = true) as Hb
    by (by destruct Hcl as [-> | ->]).
  pose proof (sort_by_id_sorted ts : by_cost st) as Hs.
  assert (forall o : RouteOutcome, delivered o = true <-> sent o <> []) as Hdel.
  { intros o. unfold delivered. destruct (sent o); [done|]. by split. }
  destruct (pick_lane w n st) as [t|] eqn:Epick.
  - apply pick_lane_Some in Epick as (Ht & Hf & _); [|done]. cbn [send_lanes].
    rewrite find_by_id by done. destruct (t_send t w f) as [w1 r] eqn:Es. rewrite Hb.
    destruct r as [receipt|e]; cbn [record_send sent app zlen andb].
    + change (zlen [receipt] =? 0) with false. cbn [andb snd sent]. split; [by unfold zlen; cbn|].
      rewrite Hdel. split; [|done]. intros _. exists t. by rewrite Es.
    + change (zlen (@nil SendReceipt) =? 0) with true. cbn [andb].
      destruct (send_fallback_spec st [t_id t] f n w Hind' st w1
        (mkOutcome [] ([] ++ [(t_id t, e)]))) as [Hle Hiff]; [done|done| |done|].
      { intros u Hu Hne. replace w1 with (t_send t w f).1 by (by rewrite Es).
        apply (same_lane_step st); try done. intros E. apply Hne. rewrite E. by apply list_elem_of_singleton. }
      split; [exact Hle|]. rewrite Hdel, Hiff. split; [intros (u & ? & _ & ?); by exists u|].
      intros (u & Hu & Hfu & Hok). exists u. split_and!; try done.
      intros E%list_elem_of_singleton. assert (u = t) as -> by (by eapply NoDup_ids_inj).
      rewrite Es in Hok. done.
  - rewrite pick_lane_None in Epick. cbn [send_lanes]. rewrite Hb.
    change (zlen (sent (mkOutcome [] [])) =? 0) with true. cbn [andb].
    destruct (send_fallback_spec st [] f n w Hind' st w (mkOutcome [] [])) as [Hle Hiff];
      [done|done|intros; apply same_lane_refl|done|].
    split; [exact Hle|]. rewrite Hdel, Hiff. split; intros (u & Hu & Hx); [|]; rewrite Epick in Hx; naive_solver.
Qed.

End RouterTheorems.

Section MoreRouterTheorems.
Context {W : Type} `{!PostcardOps MeshFrame}.

(** a critical frame is tried on every lane that can carry it.  With
    independent lanes the outcome lists, in cost order, the receipt of every
    usable lane that fits the frame and takes it, and the refusal of every
    one that does not. *)
Theorem critical_fans_out (ts : list (MeshTransport W)) (cap : Z) (w : W) (f : MeshFrame) :
  NoDup (t_id <$> ts) -> lanes_independent ts ->
  let lanes := List.filter (fits w (frame_len f)) (sort_by_id ts) in
  (forall t, t ∈ lanes <-> t ∈ ts /\ fits w (frame_len f) t = true) /\
  (router_send (router_new ts cap) w Critical f).2 = mkOutcome (receipts w f lanes) (refusals w f lanes).
Proof.
  intros Hnd Hind lanes. pose proof (sort_by_id_perm ts) as Hperm.
  assert (NoDup (t_id <$> sort_by_id ts)) as Hnd' by (by rewrite Hperm).
  assert (forall t, t ∈ sort_by_id ts <-> t ∈ ts) as Hin by (intros; by rewrite Hperm).
  assert (forall t, t ∈ lanes <-> t ∈ ts /\ fits w (frame_len f) t = true) as Hl.
  { intros t. unfold lanes. by rewrite list_elem_of_In, filter_In, <- list_elem_of_In, Hin. }
  split; [done|]. unfold router_send. cbn [route transports router_new]. fold lanes.
  pose proof (send_lanes_spec (sort_by_id ts) f w) as Hsp.
  destruct (send_lanes _ _ _ _ _) as [w' o] eqn:E. rewrite andb_false_r. cbn [snd].
  specialize (Hsp ltac:(intros t u Ht Hu; apply Hind; by apply Hin) Hnd' lanes w (mkOutcome [] [])).
  rewrite E in Hsp. apply Hsp; [|by apply NoDup_filter_ids|intros; apply same_lane_refl].
  intros t Ht. apply Hin. by apply Hl.
Qed.

(** a frame too long for a datagram goes nowhere.  [send] measures every
    frame by its datagram encoding, so a frame over that bound is refused by
    every lane, however wide, without being tried, and the outcome names no
    lane. *)
Theorem oversized_frame_never_leaves (ts : list (MeshTransport W)) (cap : Z) (w : W)
    (class : MeshClass) (f : MeshFrame) (e : Error) :
  encode_datagram f = Err e -> (forall t, t ∈ ts -> t_mtu t < usize_max) ->
  router_send (router_new ts cap) w class f = (w, mkOutcome [] []).
Proof.
  intros He Hmtu. assert (frame_len f = usize_max) as Hlen by (unfold frame_len; by rewrite He).
  assert (forall t, t ∈ sort_by_id ts -> fits w usize_max t = false) as Hno.
  { intros t Ht. rewrite sort_by_id_perm in Ht. unfold fits.
    destruct (Z.leb_spec usize_max (t_mtu t)); [|apply andb_false_r]. specialize (Hmtu t Ht). lia. }
  assert (List.filter (fits w usize_max) (sort_by_id ts) = []) as Hfil.
  { destruct (List.filter _ _) as [|t l] eqn:E; [done|].
    assert (t ∈ t :: l) as Ht by left. rewrite <- E in Ht. apply list_elem_of_In, filter_In in Ht as [Ht Hf].
    apply list_elem_of_In, Hno in Ht. congruence. }
  assert (route (router_new ts cap) w class usize_max = []) as Hr.
  { unfold route. cbn [transports router_new]. rewrite Hfil. by destruct class. }
  unfold router_send. rewrite Hlen, Hr. cbn [send_lanes transports router_new].
  destruct (_ && _); [|done].
  assert (forall l o, (forall t, t ∈ l -> fits w usize_max t = false) ->
            send_fallback [] f usize_max l w o = (w, o)) as Hfb.
  { intros l. induction l as [|t l IH]; intros o Hl; [done|]. cbn [send_fallback].
    case_bool_decide; [apply IH; intros; apply Hl; by right|].
    rewrite (Hl t) by left. cbn [negb]. apply IH. intros; apply Hl; by right. }
  by apply Hfb.
Qed.

End MoreRouterTheorems.

(** the seen-cache is a bounded window of the last accepted identities.
    Whatever is offered, it remembers exactly the last [capacity] accepted
    pairs, in order and without duplicates, and accepts a pair exactly when it
    is not among them. *)
Theorem seen_cache_window (cap : Z) (keys : list (Z * Z)) (k : Z * Z) :
  let n := Z.to_nat (Z.max cap 1) in
  let '(c, acc) := seen_run (seen_new cap) keys [] in
  order c = last_n n acc /\ NoDup (order c) /\ seen_len c <= Z.max cap 1 /\
  ((seen_accept c k.1 k.2).2 = true <-> k ∉ last_n n acc).
Proof.
  intros n. assert (1 <= n)%nat as Hn by lia.
  assert (forall keys c acc, seen_rep n c acc ->
    seen_rep n (seen_run c keys acc).1 (seen_run c keys acc).2) as Hrun.
  { clear keys. induction keys as [|k' keys IH]; intros c acc Hc; [done|]. cbn [seen_run].
    destruct (seen_accept_rep n c acc k' Hn Hc) as [Hr _].
    destruct (seen_accept c k'.1 k'.2) as [c' b]. by apply IH. }
  specialize (Hrun keys (seen_new cap) []).
  destruct (seen_run (seen_new cap) keys []) as [c acc]. cbn in Hrun.
  assert (seen_rep n c acc) as Hc.
  { apply Hrun. split_and!; cbn; [unfold n; lia|done|constructor]. }
  destruct (seen_accept_rep n c acc k Hn Hc) as [_ Hiff]. destruct Hc as (Hcap & Hord & Hnd).
  split_and!; try done. unfold seen_len, zlen. rewrite Hord. unfold last_n. rewrite length_drop. lia.
Qed.

(** ** Witnesses *)

(** Lanes whose state is one flag per lane: up and taking frames, or not. *)
Definition toy_lane (id : TransportId) (mtu : Z) (ok : bool) : MeshTransport unit :=
  mkTransport id mtu Background (fun _ => Up)
    (fun w f => (w, if ok then Ok (mkReceipt id (zlen (ct f))) else Err Unavailable)).

Definition toy_lanes : list (MeshTransport unit) :=
  [toy_lane Courier 100000 true; toy_lane BleGossip 248 true; toy_lane WifiLan 65536 false].

Lemma toy_lanes_ids : NoDup (t_id <$> toy_lanes).
Proof. apply (bool_decide_unpack _). vm_compute. done. Qed.

Lemma toy_lanes_independent : lanes_independent toy_lanes.
Proof.
  intros t u Ht Hu _ [] f. unfold toy_lanes in *. rewrite !elem_of_cons, elem_of_nil in Ht, Hu.
  by destruct Ht as [->|[->|[->|[]]]], Hu as [->|[->|[->|[]]]].
Qed.

Lemma gossip_delivered_iff_witness :
  delivered (router_send (router_new toy_lanes 16) tt Gossip frame_a).2 = true.
Proof.
  apply (gossip_delivered_iff toy_lanes 16 tt Gossip frame_a toy_lanes_ids toy_lanes_independent (or_introl eq_refl)).
  exists (toy_lane BleGossip 248 true). split; [right; left|]. split; vm_compute; reflexivity.
Defined.

Lemma critical_fans_out_witness :
  sent (router_send (router_new toy_lanes 16) tt Critical frame_a).2 =
    [mkReceipt BleGossip (zlen (ct frame_a)); mkReceipt Courier (zlen (ct frame_a))] /\
  failed (router_send (router_new toy_lanes 16) tt Critical frame_a).2 = [(WifiLan, Unavailable)].
Proof.
  destruct (critical_fans_out toy_lanes 16 tt frame_a toy_lanes_ids toy_lanes_independent) as [_ ->].
  split; vm_compute; reflexivity.
Defined.

(** A frame that the LAN lane, 64 KiB wide, would take. *)
Definition big_frame : MeshFrame := mkFrame 1 Gossip 7 1 (replicate 250 9).

Lemma oversized_frame_never_leaves_witness :
  is_ok (t_send (toy_lane WifiLan 65536 true) tt big_frame).2 = true /\
  router_send (router_new [toy_lane WifiLan 65536 true] 16) tt Gossip big_frame = (tt, mkOutcome [] []).
Proof.
  split; [reflexivity|].
  apply (oversized_frame_never_leaves [toy_lane WifiLan 65536 true] 16 tt Gossip big_frame TooLarge).
  - vm_compute. reflexivity.
  - intros t Ht%list_elem_of_singleton. subst t. reflexivity.
Defined.
