(* ===== verification/MeshLink.v ===== *)
(** * The bridge link of the gateway

    [agentd/crates/gateway/src/mesh_link.rs] and the bridge socket handler of
    [agentd/crates/gateway/src/lib.rs].  The tokio broadcast channel and
    serde_json are third-party; the inbox file is its text, with flags for the
    file-system calls that fail. *)
From S2P Require Import Prelude Wire Codecs Framing Replay Store Counter Radio Brainstem Text Connectivity MeshRouter.

(** ** Third-party interfaces *)

(** [broadcast::Sender::send]: false when nobody is subscribed. *)
Class BroadcastOps (Ch : Type) := { bc_send : Ch -> bytes -> Ch * bool }.

(** One line of the inbox file: the object written, and [v.get(k)?.as_u64()]
    of a line read back ([None] when it does not parse). *)
Class JsonLineOps := {
  json_line : Z -> Z -> text -> text -> text;
  line_u64 : text -> text -> option Z
}.

Class JsonLineLaws `{!JsonLineOps} := {
  line_sender s c k b : line_u64 (json_line s c k b) (chars "sender") = Some s;
  line_ctr s c k b : line_u64 (json_line s c k b) (chars "ctr") = Some c;
  line_one_line s c k b : 10 ∉ json_line s c k b;
  line_brace s c k b : exists r, json_line s c k b = r ++ [125]
}.

(** ** Constants and views *)

Definition GOSSIP_MAX_TEXT : Z := 180.
Definition GOSSIP_QUEUE_CAP : Z := 8.
Definition GOSSIP_RATE_MAX : Z := 4.
(** Ten seconds, in nanoseconds. *)
Definition GOSSIP_RATE_WINDOW : Z := 10000000000.

Record BrainstemView := mkView {
  bv_node_id : Z;
  bv_neighbors : Z;
  bv_queued : Z;
  bv_counter_high_water : Z;
  bv_seen : bool
}.

Definition view_default : BrainstemView := mkView 0 0 0 0 false.

Definition radio_payload_needs_accept (p : Payload) : bool :=
  match p with
  | A2A _ | Alarm _ _ | DreamDigest _ | ChunkAnnounce _ _ _ _ | ChunkRequest _ _
  | ChunkData _ _ _ | PCourierManifest _ | PCourierReceipt _ => true
  | _ => false
  end.

Definition payload_kind_body (p : Payload) : option (text * text) :=
  match p with
  | A2A body => Some (chars "A2A", utf8_lossy body)
  | Alarm code detail => Some (chars "Alarm", dec_text code ++ chars ":" ++ utf8_lossy (chars detail))
  | DreamDigest _ => Some (chars "DreamDigest", [])
  | ChunkAnnounce _ _ _ _ => Some (chars "ChunkAnnounce", [])
  | ChunkRequest _ _ => Some (chars "ChunkRequest", [])
  | ChunkData _ _ _ => Some (chars "ChunkData", [])
  | PCourierManifest _ => Some (chars "CourierManifest", [])
  | PCourierReceipt _ => Some (chars "CourierReceipt", [])
  | _ => None
  end.

Definition host_accept_packet (of_sender of_ctr : Z) : PlainPacket :=
  mkPacket BROADCAST 1 0 (Ack of_sender of_ctr).

Definition host_accept_frame `{!PostcardOps PlainPacket} (of_sender of_ctr : Z) : MeshFrame :=
  mkFrame WIRE_VERSION Gossip 0 1 (default [] (to_allocvec (host_accept_packet of_sender of_ctr))).

(** ** The inbox file *)

Record Disk := mkDisk { read_ok : bool; mkdir_ok : bool; open_ok : bool; write_ok : bool }.

Inductive PersistError := InboxMkdir | InboxOpen | InboxWrite.

Section InboxFile.
Context `{!JsonLineOps}.

Definition line_is (sender ctr : Z) (l : text) : bool :=
  bool_decide (line_u64 l (chars "sender") = Some sender)
  && bool_decide (line_u64 l (chars "ctr") = Some ctr).

Definition on_disk (file : text) (sender ctr : Z) : bool :=
  existsb (line_is sender ctr) (List.filter (fun l => negb (bool_decide (l = []))) (lines file)).

(** [persist_radio_inbox] on the file's text, [None] when there is no file. *)
Definition persist_radio_inbox (disk : Disk) (file : option text) (sender ctr : Z) (kind body : text)
    : option text * result bool PersistError :=
  let dup :=
    match file with Some existing => read_ok disk && on_disk existing sender ctr | None => false end in
  if dup then (file, Ok false)
  else if negb (mkdir_ok disk) then (file, Err InboxMkdir)
  else if negb (open_ok disk) then (file, Err InboxOpen)
  else
    let existing := default [] file in
    if write_ok disk then (Some (existing ++ json_line sender ctr kind body ++ [10]), Ok true)
    else (Some existing, Err InboxWrite).

End InboxFile.

(** ** Admission of outbound gossip *)

Inductive GossipRefuse :=
| InvalidTarget | Broadcast | SelfTarget | EmptyText | GossipTooLarge | QueueFull | RateLimited.

#[export] Instance GossipRefuse_eq_dec : EqDecision GossipRefuse.
Proof. solve_decision. Defined.

Definition refuse_error (e : GossipRefuse) : text :=
  match e with
  | InvalidTarget => chars "target must be a unicast radio node id"
  | Broadcast => chars "broadcast gossip is not allowed"
  | SelfTarget => chars "cannot gossip to this node's own radio id"
  | EmptyText => chars "text is required"
  | GossipTooLarge => chars "text exceeds radio gossip bound"
  | QueueFull => chars "brainstem outbox is at quota"
  | RateLimited => chars "gossip rate limited"
  end.

Definition validate_gossip_target (target : Z) (self_id : option Z) : result Z GossipRefuse :=
  if (target =? 0) || (u16_max <? target) then Err InvalidTarget
  else
    let id := as_u16 target in
    if id =? BROADCAST then Err Broadcast
    else if bool_decide (self_id = Some id) then Err SelfTarget
    else Ok id.

Definition validate_gossip_text (t : text) : result unit GossipRefuse :=
  match t with
  | [] => Err EmptyText
  | _ :: _ => if GOSSIP_MAX_TEXT <? str_len t then Err GossipTooLarge else Ok tt
  end.

(** The [while] of [take_gossip_slot]: drop the hits that left the window. *)
Fixpoint expire_hits (hits : list Z) (now : Z) : list Z :=
  match hits with
  | t :: r => if GOSSIP_RATE_WINDOW <=? sat_sub now t then expire_hits r now else hits
  | [] => []
  end.

Definition take_gossip_slot (hits : list Z) (now : Z) : list Z * bool :=
  let hits := expire_hits hits now in
  if GOSSIP_RATE_MAX <=? zlen hits then (hits, false) else (hits ++ [now], true).

(** ** The link *)

Section Link.
Context {Ch : Type} `{!BroadcastOps Ch} `{!PostcardOps MeshFrame} `{!PostcardOps PlainPacket}.

Record MeshLink := mkLink {
  outbound : Ch;
  links : Z;
  rx_frames_l : Z;
  dup_frames : Z;
  decode_fail_l : Z;
  brainstem : BrainstemView;
  gossip_hits : list Z
}.

Definition link_new (ch : Ch) : MeshLink := mkLink ch 0 0 0 0 view_default [].

Definition push_frame (l : MeshLink) (f : MeshFrame) : MeshLink * bool :=
  match encode_datagram f with
  | Err _ => (l, false)
  | Ok b =>
      let '(ch, ok) := bc_send (outbound l) b in
      (mkLink ch (links l) (rx_frames_l l) (dup_frames l) (decode_fail_l l) (brainstem l) (gossip_hits l), ok)
  end.

Definition set_links (l : MeshLink) (n : Z) : MeshLink :=
  mkLink (outbound l) n (rx_frames_l l) (dup_frames l) (decode_fail_l l) (brainstem l) (gossip_hits l).
Definition link_up (l : MeshLink) : MeshLink := set_links l (inc64 (links l)).
Definition link_down (l : MeshLink) : MeshLink := set_links l (sat_sub (links l) 1).
Definition connected (l : MeshLink) : Z := links l.

Definition note_rx (l : MeshLink) : MeshLink :=
  mkLink (outbound l) (links l) (inc64 (rx_frames_l l)) (dup_frames l) (decode_fail_l l) (brainstem l) (gossip_hits l).
Definition note_duplicate (l : MeshLink) : MeshLink :=
  mkLink (outbound l) (links l) (rx_frames_l l) (inc64 (dup_frames l)) (decode_fail_l l) (brainstem l) (gossip_hits l).
Definition note_decode_fail (l : MeshLink) : MeshLink :=
  mkLink (outbound l) (links l) (rx_frames_l l) (dup_frames l) (inc64 (decode_fail_l l)) (brainstem l) (gossip_hits l).
Definition set_brainstem (l : MeshLink) (v : BrainstemView) : MeshLink :=
  mkLink (outbound l) (links l) (rx_frames_l l) (dup_frames l) (decode_fail_l l) v (gossip_hits l).
Definition set_hits (l : MeshLink) (h : list Z) : MeshLink :=
  mkLink (outbound l) (links l) (rx_frames_l l) (dup_frames l) (decode_fail_l l) (brainstem l) h.

Definition admit_gossip (l : MeshLink) (now target : Z) (t : text) : MeshLink * result Z GossipRefuse :=
  let view := brainstem l in
  let self_id :=
    if bv_seen view && negb (bv_node_id view =? 0) then Some (bv_node_id view) else None in
  match validate_gossip_target target self_id with
  | Err e => (l, Err e)
  | Ok id =>
      match validate_gossip_text t with
      | Err e => (l, Err e)
      | Ok _ =>
          if bv_seen view && (GOSSIP_QUEUE_CAP <=? bv_queued view) then (l, Err QueueFull)
          else
            let '(hits, ok) := take_gossip_slot (gossip_hits l) now in
            (set_hits l hits, if ok then Ok id else Err RateLimited)
      end
  end.

(** [impl MeshTransport for BleGossipTransport], the link being the lane's state. *)
Definition ble_health (l : MeshLink) : TransportHealth := if 0 <? connected l then Up else Down.

Definition ble_send (l : MeshLink) (f : MeshFrame) : MeshLink * result SendReceipt SendError :=
  let bad_target :=
    match take_from_bytes (ct f) with
    | Some (packet, _) => (target packet =? 0) || (target packet =? BROADCAST)
    | None => false
    end in
  if bad_target then (l, Err Unavailable)
  else
    match encode_datagram f with
    | Err _ => (l, Err (Failed (chars "frame does not fit a datagram")))
    | Ok b =>
        let '(ch, ok) := bc_send (outbound l) b in
        (mkLink ch (links l) (rx_frames_l l) (dup_frames l) (decode_fail_l l) (brainstem l) (gossip_hits l),
         if ok then Ok (mkReceipt BleGossip (zlen b)) else Err Unavailable)
    end.

Definition ble_gossip_transport : MeshTransport MeshLink :=
  mkTransport BleGossip 248 Background ble_health ble_send.

(** ** The bridge socket *)

Context `{!JsonLineOps}.

(** What the handler of one socket works on: the link, the inbox file, the
    socket's own seen-cache, the A2A messages delivered to sessions and the
    frames passed on to [absorb_mesh_frame]. *)
Record Bridge := mkBridge {
  br_link : MeshLink;
  br_file : option text;
  br_seen : SeenCache;
  br_delivered : list (Z * bytes);
  br_absorbed : list MeshFrame
}.

(** The start of [handle_mesh_bridge]. *)
Definition bridge_open (l : MeshLink) (file : option text) : Bridge :=
  mkBridge (link_up l) file (seen_new 512) [] [].

(** [deliver_radio_a2a]: nothing for a blank text. *)
Definition deliver_radio_a2a (log : list (Z * bytes)) (sender : Z) (raw : bytes) : list (Z * bytes) :=
  match trim (utf8_lossy raw) with [] => log | _ :: _ => log ++ [(sender, raw)] end.

Definition accept_radio_payload (disk : Disk) (b : Bridge) (frame : MeshFrame) : Bridge * bool :=
  match take_from_bytes (ct frame) with
  | None => (b, false)
  | Some (packet, _) =>
      match payload_kind_body (payload packet) with
      | None => (b, false)
      | Some (kind, body) =>
          if negb (radio_payload_needs_accept (payload packet)) then (b, false)
          else
            let '(file, r) :=
              persist_radio_inbox disk (br_file b) (sender frame) (ctr frame) kind body in
            match r with
            | Err _ => (mkBridge (br_link b) file (br_seen b) (br_delivered b) (br_absorbed b), true)
            | Ok news =>
                let log :=
                  match news, payload packet with
                  | true, A2A raw => deliver_radio_a2a (br_delivered b) (sender frame) raw
                  | _, _ => br_delivered b
                  end in
                let '(seen, fresh) := seen_accept (br_seen b) (sender frame) (ctr frame) in
                let link := if fresh then br_link b else note_duplicate (br_link b) in
                let '(link, _) := push_frame link (host_accept_frame (sender frame) (ctr frame)) in
                (mkBridge link file seen log (br_absorbed b), true)
            end
      end
  end.

(** One binary message of the socket. *)
Definition bridge_message (disk : Disk) (b : Bridge) (bytes : bytes) : Bridge :=
  match decode_datagram bytes with
  | Err _ =>
      mkBridge (note_decode_fail (br_link b)) (br_file b) (br_seen b) (br_delivered b) (br_absorbed b)
  | Ok frame =>
      let b := mkBridge (note_rx (br_link b)) (br_file b) (br_seen b) (br_delivered b) (br_absorbed b) in
      match accept_radio_payload disk b frame with
      | (b, true) => b
      | (b, false) =>
          match seen_accept (br_seen b) (sender frame) (ctr frame) with
          | (seen, false) =>
              mkBridge (note_duplicate (br_link b)) (br_file b) seen (br_delivered b) (br_absorbed b)
          | (seen, true) => mkBridge (br_link b) (br_file b) seen (br_delivered b) (br_absorbed b ++ [frame])
          end
      end
  end.

Definition bridge_close (b : Bridge) : MeshLink := link_down (br_link b).

(** The packet and frame of [mesh_gossip_handler]. *)
Definition gossip_frame (id : Z) (t : bytes) : option MeshFrame :=
  mkFrame WIRE_VERSION Gossip 0 1 <$> to_allocvec (mkPacket id DEFAULT_HOP_LIMIT 0 (A2A t)).

End Link.
Arguments MeshLink : clear implicits.
Arguments Bridge : clear implicits.

(** ** Lemmas *)

Section InboxFileLemmas.
Context `{JsonLineLaws}.

(** One record: sender, counter, kind, body. *)
Definition record_line (r : Z * Z * text * text) : text :=
  let '(s, c, k, b) := r in json_line s c k b.

(** A file this code wrote. *)
Definition inbox_file (recs : list (Z * Z * text * text)) : text := terminated (record_line <$> recs).

Definition record_pair (r : Z * Z * text * text) : Z * Z := r.1.1.

Lemma record_line_shape r :
  (10 ∉ record_line r) /\ strip_cr (record_line r) = record_line r /\ record_line r <> [].
Proof.
  destruct r as [[[s c] k] b]. cbn. destruct (line_brace s c k b) as [x Hx].
  split_and!; [apply line_one_line| |rewrite Hx; by destruct x].
  rewrite Hx. by apply strip_cr_snoc.
Qed.

Lemma on_disk_inbox_file recs s c :
  on_disk (inbox_file recs) s c = true <-> (s, c) ∈ record_pair <$> recs.
Proof.
  unfold on_disk, inbox_file.
  rewrite lines_terminated by (apply Forall_fmap, Forall_true; intros r; apply record_line_shape).
  assert (List.filter (fun l => negb (bool_decide (l = []))) (strip_cr <$> (record_line <$> recs)) =
          record_line <$> recs) as ->.
  { induction recs as [|r recs IH]; [done|]. cbn. destruct (record_line_shape r) as (_ & -> & Hne).
    rewrite bool_decide_false by done. cbn. by rewrite IH. }
  rewrite existsb_exists. setoid_rewrite <- list_elem_of_In. rewrite list_elem_of_fmap. split.
  - intros (l & Hl & Hp). apply list_elem_of_fmap in Hl as ([[[s' c'] k] b] & -> & Hr).
    unfold line_is in Hp. cbn in Hp. rewrite line_sender, line_ctr in Hp.
    apply andb_true_iff in Hp as [[= ->]%bool_decide_eq_true [= ->]%bool_decide_eq_true].
    by exists (s, c, k, b).
  - intros ([[[s' c'] k] b] & [= -> ->] & Hr). exists (record_line (s', c', k, b)).
    split; [by apply list_elem_of_fmap_2|]. unfold line_is. cbn.
    by rewrite line_sender, line_ctr, !bool_decide_true.
Qed.

(** [None] is no file yet. *)
Definition file_rep (file : option text) (recs : list (Z * Z * text * text)) : Prop :=
  default [] file = inbox_file recs /\ (file = None -> recs = []).

Lemma persist_spec disk file recs s c k b :
  file_rep file recs -> read_ok disk = true ->
  let '(file', r) := persist_radio_inbox disk file s c k b in
  match r with
  | Ok true => ((s, c) ∉ record_pair <$> recs) /\ file_rep file' (recs ++ [(s, c, k, b)])
  | Ok false => (s, c) ∈ record_pair <$> recs /\ file' = file
  | Err _ => ((s, c) ∉ record_pair <$> recs) /\ file_rep file' recs
  end.
Proof.
  intros [Hf Hn] Hr. unfold persist_radio_inbox. rewrite Hr.
  pose proof (on_disk_inbox_file recs s c) as Hd. rewrite <- Hf in Hd.
  assert (match file with Some existing => true && on_disk existing s c | None => false end =
          on_disk (default [] file) s c) as ->.
  { destruct file; [done|]. rewrite (Hn eq_refl) in Hd. cbn [default] in *.
    destruct (on_disk [] s c); [|done]. exfalso. by apply (elem_of_nil (s, c)), Hd. }
  destruct (on_disk (default [] file) s c); [split; [by apply Hd|done]|].
  assert ((s, c) ∉ record_pair <$> recs) as Hni by (intros E; by apply Hd in E).
  destruct (mkdir_ok disk); cbn [negb]; [|done]. destruct (open_ok disk); cbn [negb]; [|done].
  destruct (write_ok disk); (split; [done|]); (split; [|done]); cbn [default from_option id]; [|done].
  rewrite Hf. unfold inbox_file. rewrite fmap_app. cbn [fmap list_fmap].
  by rewrite terminated_snoc.
Qed.

(** A run of [persist_radio_inbox] calls; the pairs that were news. *)
Fixpoint persist_all (file : option text) (calls : list (Disk * (Z * Z * text * text)))
    : option text * list (Z * Z) :=
  match calls with
  | [] => (file, [])
  | (disk, (s, c, k, b)) :: calls =>
      let '(file, r) := persist_radio_inbox disk file s c k b in
      let '(file, news) := persist_all file calls in
      (file, match r with Ok true => (s, c) :: news | _ => news end)
  end.

End InboxFileLemmas.

(** *** The rate limiter *)

(** Offer a list of instants in turn; collect the admitted ones. *)
Fixpoint take_all (hits : list Z) (times : list Z) (adm : list Z) : list Z * list Z :=
  match times with
  | [] => (hits, adm)
  | now :: times =>
      let '(hits, ok) := take_gossip_slot hits now in
      take_all hits times (if ok then adm ++ [now] else adm)
  end.

Lemma expire_hits_split hits now :
  exists old, hits = old ++ expire_hits hits now /\
    Forall (fun t => GOSSIP_RATE_WINDOW <= sat_sub now t) old.
Proof.
  induction hits as [|t hits (old & E & Hold)]; [by exists []|]. cbn [expire_hits].
  destruct (Z.leb_spec GOSSIP_RATE_WINDOW (sat_sub now t)).
  - exists (t :: old). cbn. rewrite <- E. split; [done|]. by constructor.
  - by exists [].
Qed.

(** Four admissions ahead lies at least a window of time. *)
Definition spaced (adm : list Z) : Prop :=
  forall i t t', adm !! i = Some t -> adm !! (i + 4)%nat = Some t' -> GOSSIP_RATE_WINDOW <= t' - t.

(** The limiter's state: the recent tail of the admissions, the rest old. *)
Definition hits_rep (hits adm : list Z) (now : Z) : Prop :=
  spaced adm /\ Forall (fun t => t <= now) adm /\ zlen hits <= GOSSIP_RATE_MAX /\
  exists old, adm = old ++ hits /\ Forall (fun t => GOSSIP_RATE_WINDOW <= now - t) old.

Lemma take_gossip_slot_rep hits adm before now :
  hits_rep hits adm before -> before <= now ->
  let '(hits', ok) := take_gossip_slot hits now in
  hits_rep hits' (if ok then adm ++ [now] else adm) now.
Proof.
  intros (Hsp & Hle & Hlen & old & E & Hold) Hnow. unfold take_gossip_slot.
  destruct (expire_hits_split hits now) as (gone & Eh & Hgone). set (hits' := expire_hits hits now) in *.
  assert (Forall (fun t => t <= now) adm) as Hle'.
  { eapply Forall_impl; [exact Hle|]. cbn; lia. }
  assert (Forall (fun t => GOSSIP_RATE_WINDOW <= now - t) (old ++ gone)) as Hold'.
  { apply Forall_app. split; eapply Forall_impl; [exact Hold| |exact Hgone|];
      unfold GOSSIP_RATE_WINDOW in *; cbn; intros; ulia. }
  assert (adm = (old ++ gone) ++ hits') as E' by (by rewrite <- app_assoc, <- Eh).
  assert (zlen hits' <= zlen hits) by (rewrite Eh, zlen_app; pose proof (zlen_nonneg gone); lia).
  unfold GOSSIP_RATE_MAX in *. destruct (Z.leb_spec 4 (zlen hits')).
  - split_and!; [done|done|unfold GOSSIP_RATE_MAX; lia|]. by exists (old ++ gone).
  - split_and!.
    + intros i t t' Hi Hj.
      destruct (decide (i + 4 < length adm)%nat).
      { rewrite lookup_app_l in Hi, Hj by lia. by eapply Hsp. }
      pose proof (lookup_lt_Some _ _ _ Hj) as Hlt. rewrite length_app in Hlt. cbn in Hlt.
      assert (i + 4 = length adm)%nat as Hi4 by lia.
      rewrite Hi4, list_lookup_middle in Hj by done. injection Hj as <-.
      rewrite lookup_app_l in Hi by lia. rewrite E' in Hi, Hi4. rewrite length_app in Hi4.
      unfold zlen in *. rewrite lookup_app_l in Hi by lia.
      by eapply Forall_lookup_1 in Hold'.
    + apply Forall_app. split; [done|]. by constructor.
    + rewrite zlen_app. change (zlen [now]) with 1. unfold GOSSIP_RATE_MAX; lia.
    + exists (old ++ gone). split; [|done]. by rewrite E', <- app_assoc.
Qed.

(** ** Properties *)

(** each accepted pair is news exactly once.  Starting with no inbox file,
    over any sequence of accept attempts on a disk whose directory, open and
    write may fail, no [(sender, ctr)] is reported as news twice, and the file
    holds exactly the pairs that were. *)
Theorem radio_inbox_exactly_once `{JsonLineLaws} (calls : list (Disk * (Z * Z * text * text))) :
  Forall (fun d => read_ok d.1 = true) calls ->
  let '(file, news) := persist_all None calls in
  NoDup news /\ forall s c, on_disk (default [] file) s c = true <-> (s, c) ∈ news.
Proof.
  intros Hall.
  assert (forall recs file, file_rep file recs -> NoDup (record_pair <$> recs) ->
    let '(file', news) := persist_all file calls in
    exists recs', file_rep file' recs' /\ record_pair <$> recs' = (record_pair <$> recs) ++ news /\
      NoDup (record_pair <$> recs')) as Hgen.
  { induction Hall as [|[disk [[[s c] k] b]] calls Hr _ IH]; intros recs file Hf Hnd.
    { exists recs. by rewrite app_nil_r. }
    cbn [persist_all]. pose proof (persist_spec disk file recs s c k b Hf Hr) as Hp.
    destruct (persist_radio_inbox disk file s c k b) as [file1 [[]|e]].
    - destruct Hp as [Hni Hf1]. specialize (IH _ _ Hf1).
      destruct (persist_all file1 calls) as [file2 news]. destruct IH as (recs' & Hf2 & E & Hnd2).
      { rewrite fmap_app. apply NoDup_app. split_and!; [done| |apply NoDup_singleton].
        by intros x Hx ->%list_elem_of_singleton. }
      exists recs'. rewrite fmap_app in E. cbn in E. rewrite <- app_assoc in E. done.
    - destruct Hp as [_ ->]. specialize (IH _ _ Hf Hnd). by destruct (persist_all file calls).
    - destruct Hp as [_ Hf1]. specialize (IH _ _ Hf1 Hnd). by destruct (persist_all file1 calls). }
  specialize (Hgen [] None). destruct (persist_all None calls) as [file news].
  destruct Hgen as (recs & [Hf _] & E & Hnd); [done|constructor|]. cbn in E. rewrite E in Hnd.
  split; [done|]. intros s c. by rewrite Hf, on_disk_inbox_file, E.
Qed.

(** the gossip rate limit holds over every window.  Whatever instants the
    requests arrive at, in order, between an admission and the fourth one
    after it at least ten seconds pass; so no ten-second window admits more
    than four. *)
Theorem gossip_rate_limited (times : list Z) (t0 : Z) :
  (forall i j a b, (i < j)%nat -> times !! i = Some a -> times !! j = Some b -> a <= b) ->
  (forall a, a ∈ times -> t0 <= a) ->
  spaced (take_all [] times []).2.
Proof.
  assert (forall times hits adm before, hits_rep hits adm before ->
    (forall i j a b, (i < j)%nat -> times !! i = Some a -> times !! j = Some b -> a <= b) ->
    (forall a, a ∈ times -> before <= a) -> spaced (take_all hits times adm).2) as Hgen.
  { clear. induction times as [|now times IH]; intros hits adm before Hrep Hord Hb; [by destruct Hrep|].
    cbn [take_all]. pose proof (take_gossip_slot_rep hits adm before now Hrep (Hb now ltac:(left))) as Hr.
    destruct (take_gossip_slot hits now) as [hits' ok]. apply (IH _ _ now Hr).
    - intros i j a b Hij Hi Hj. apply (Hord (S i) (S j) a b); [lia|done|done].
    - intros a Ha. apply list_elem_of_lookup in Ha as [i Hi]. apply (Hord 0%nat (S i) now a); [lia|done|done]. }
  intros Hord Hb. apply (Hgen times [] [] t0); [|done|done].
  split_and!; [by intros i t t' Hi|by constructor|done|by exists []].
Qed.

Section BridgeTheorems.
Context {Ch : Type} `{!BroadcastOps Ch} `{!PostcardOps MeshFrame} `{!PostcardOps PlainPacket}.
Context `{JsonLineLaws}.

(** the bridge persists before it accepts, and delivers only news.  On one
    socket message, anything sent toward the brainstem and any A2A handed to a
    session belong to a frame whose pair is in the inbox file afterwards; a
    delivery also requires that it was not there before, and adds exactly that
    one message; and the file stays one this code wrote. *)
Theorem bridge_persists_before_accepting (disk : Disk) (b : Bridge Ch) (msg : bytes)
    (recs : list (Z * Z * text * text)) :
  file_rep (br_file b) recs -> read_ok disk = true ->
  let b' := bridge_message disk b msg in
  (outbound (br_link b') = outbound (br_link b) \/
   exists frame, decode_datagram msg = Ok frame /\
     on_disk (default [] (br_file b')) (sender frame) (ctr frame) = true) /\
  (br_delivered b' = br_delivered b \/
   exists frame raw, decode_datagram msg = Ok frame /\
     on_disk (default [] (br_file b)) (sender frame) (ctr frame) = false /\
     on_disk (default [] (br_file b')) (sender frame) (ctr frame) = true /\
     br_delivered b' = br_delivered b ++ [(sender frame, raw)]) /\
  exists recs', file_rep (br_file b') recs'.
Proof.
  intros Hf Hr b'. unfold b', bridge_message. destruct (decode_datagram msg) as [frame|] eqn:Ed.
  2: { split; [by left|]. split; [by left|]. by exists recs. }
  set (b0 := mkBridge _ _ _ _ _).
  assert (forall r, r = (b0, false) -> let b1 := match r with
            | (b, true) => b
            | (b, false) => match seen_accept (br_seen b) (sender frame) (ctr frame) with
              | (seen, false) => mkBridge (note_duplicate (br_link b)) (br_file b) seen (br_delivered b) (br_absorbed b)
              | (seen, true) => mkBridge (br_link b) (br_file b) seen (br_delivered b) (br_absorbed b ++ [frame])
              end end in
            outbound (br_link b1) = outbound (br_link b) /\ br_delivered b1 = br_delivered b /\
            br_file b1 = br_file b) as Hpass.
  { intros r ->. destruct (seen_accept _ _ _) as [seen []]; done. }
  unfold accept_radio_payload.
  destruct (take_from_bytes (ct frame)) as [[packet rest]|].
  2: { destruct (Hpass _ eq_refl) as (-> & -> & ->). split_and!; [by left|by left|by exists recs]. }
  destruct (payload_kind_body (payload packet)) as [[kind body]|].
  2: { destruct (Hpass _ eq_refl) as (-> & -> & ->). split_and!; [by left|by left|by exists recs]. }
  destruct (radio_payload_needs_accept (payload packet)); cbn [negb].
  2: { destruct (Hpass _ eq_refl) as (-> & -> & ->). split_and!; [by left|by left|by exists recs]. }
  cbn [br_file b0]. clear Hpass.
  pose proof (persist_spec disk (br_file b) recs (sender frame) (ctr frame) kind body Hf Hr) as Hp.
  destruct (persist_radio_inbox disk (br_file b) (sender frame) (ctr frame) kind body) as [file r].
  destruct r as [news|e].
  2: { destruct Hp as [_ Hf']. split; [by left|]. split; [by left|]. by exists recs. }
  assert (exists recs', file_rep file recs' /\ (sender frame, ctr frame) ∈ record_pair <$> recs' /\
            (news = true -> (sender frame, ctr frame) ∉ record_pair <$> recs)) as (recs' & Hf' & Hin & Hnews).
  { destruct news.
    - destruct Hp as [Hni Hf']. exists (recs ++ [(sender frame, ctr frame, kind, body)]).
      split_and!; [done| |done]. rewrite fmap_app. apply elem_of_app. right. left.
    - destruct Hp as [Hi ->]. by exists recs. }
  assert (on_disk (default [] file) (sender frame) (ctr frame) = true) as Hdisk.
  { destruct Hf' as [-> _]. by apply on_disk_inbox_file. }
  destruct (seen_accept _ _ _) as [seen fresh].
  destruct (push_frame _ _) as [link sentok] eqn:Epush.
  cbn [br_link br_file br_delivered]. split; [right; by exists frame|].
  split; [|by exists recs']. destruct news; [|by left].
  destruct (payload packet) as [| |raw| | | | | | | | |]; try by left. unfold deliver_radio_a2a.
  destruct (trim (utf8_lossy raw)); [by left|]. right. exists frame, raw.
  split_and!; [done| |done|done]. destruct (on_disk (default [] (br_file b)) _ _) eqn:E; [|done].
  rewrite (proj1 Hf) in E. by apply on_disk_inbox_file, Hnews in E.
Qed.

End BridgeTheorems.

(** what the gossip door admits is unicast, bounded and rides the radio.
    An admitted request names a node that is neither 0, broadcast nor this
    board, carries 1 to 180 bytes of text, and finds the board's outbox below
    its quota; its frame, with a bridge subscribed, leaves on the BLE lane. *)
Theorem admitted_gossip_rides_ble {Ch} `{!BroadcastOps Ch} `{!PostcardOps MeshFrame}
    `{PostcardLaws PlainPacket} (l l' : MeshLink Ch) (now tgt id : Z) (t : text) (raw fb : bytes)
    (f : MeshFrame) :
  0 <= tgt -> admit_gossip l now tgt t = (l', Ok id) ->
  gossip_frame id raw = Some f -> encode_datagram f = Ok fb -> (bc_send (outbound l') fb).2 = true ->
  id = tgt /\ 0 < id < BROADCAST /\
  (bv_seen (brainstem l) = true -> id <> bv_node_id (brainstem l) /\ bv_queued (brainstem l) < GOSSIP_QUEUE_CAP) /\
  t <> [] /\ str_len t <= GOSSIP_MAX_TEXT /\
  (t_send ble_gossip_transport l' f).2 = Ok (mkReceipt BleGossip (zlen fb)).
Proof.
  intros Ht Hadm Hgf Hfb Hbc. unfold admit_gossip in Hadm.
  destruct (validate_gossip_target _ _) as [id'|] eqn:Ev; [|done].
  destruct (validate_gossip_text t) as [[]|] eqn:Et; [|done].
  destruct (bv_seen (brainstem l) && (GOSSIP_QUEUE_CAP <=? bv_queued (brainstem l))) eqn:Eq; [done|].
  destruct (take_gossip_slot _ _) as [hits []]; [|done].
  injection Hadm as <- <-.
  assert (id' = tgt /\ 0 < id' < BROADCAST /\
          (bv_seen (brainstem l) = true -> id' <> bv_node_id (brainstem l))) as (E & Hid & Hself).
  { revert Ev. unfold validate_gossip_target.
    destruct (Z.eqb_spec tgt 0); [done|]. destruct (Z.ltb_spec u16_max tgt); [done|]. cbn [orb].
    assert (as_u16 tgt = tgt) as -> by (unfold as_u16; apply Z.mod_small; ulia).
    destruct (Z.eqb_spec tgt BROADCAST); [done|]. case_bool_decide as Hs; [done|]. intros [= <-].
    split_and!; [done|unfold BROADCAST in *; ulia|unfold BROADCAST in *; ulia|]. intros Hseen ->.
    apply Hs. rewrite Hseen. destruct (Z.eqb_spec (bv_node_id (brainstem l)) 0); [lia|done]. }
  split; [done|]. split; [done|]. split.
  { intros Hseen. split; [auto|]. rewrite Hseen in Eq. cbn [andb] in Eq. apply Z.leb_gt in Eq. lia. }
  assert (t <> [] /\ str_len t <= GOSSIP_MAX_TEXT) as [Hne Hlen].
  { destruct t as [|x t]; [done|]. split; [done|]. cbn [validate_gossip_text] in Et.
    destruct (Z.ltb_spec GOSSIP_MAX_TEXT (str_len (x :: t))); [done|lia]. }
  split; [done|]. split; [done|].
  apply fmap_Some in Hgf as (cb & Hcb & ->). cbn [t_send ble_gossip_transport]. unfold ble_send.
  pose proof (postcard_roundtrip _ _ [] Hcb) as Hrt. rewrite app_nil_r in Hrt. cbn [ct].
  rewrite Hrt. cbn [target].
  destruct (Z.eqb_spec id' 0); [lia|]. destruct (Z.eqb_spec id' BROADCAST); [lia|]. cbn [orb].
  rewrite Hfb. destruct (bc_send _ _) as [ch ok]. cbn in Hbc. by subst ok.
Qed.

(** the host accept the gateway sends is the host accept the board hears.
    On any board, commissioned or not, with a free place in the accept
    channel, the frame adds exactly the accepted pair to that channel and
    changes nothing else. *)
Theorem host_accept_reaches_board {F} `{!FlashOps F} `{PostcardLaws PlainPacket} `{!AeadOps}
    (w : Board F) (s c : Z) (ab : bytes) :
  to_allocvec (host_accept_packet s c) = Some ab ->
  (forall k, psk (IDENTITY w) = Some k -> is_ok (open (mkPsk k) (host_accept_frame s c)) = false) ->
  zlen (HOST_ACCEPT w) < HOST_ACCEPT_CAP ->
  inbound_frame w (host_accept_frame s c) = set_host w (HOST_ACCEPT w ++ [(s, c)]).
Proof.
  intros Hab Hopen Hroom. unfold inbound_frame.
  assert (decode_inbound (host_accept_frame s c) (psk (IDENTITY w)) =
          Some (Plain (host_accept_packet s c))) as ->.
  { assert (take_from_bytes (ct (host_accept_frame s c)) = Some (host_accept_packet s c, [])) as Ht.
    { cbn [ct host_accept_frame]. rewrite Hab. cbn [default from_option id].
      rewrite <- (app_nil_r ab). by apply postcard_roundtrip. }
    unfold decode_inbound. rewrite Ht. destruct (psk (IDENTITY w)) as [k|]; [|done].
    specialize (Hopen k eq_refl). by destruct (open _ _). }
  cbn [host_accept_packet payload apply_provision]. apply Z.ltb_lt in Hroom. by rewrite Hroom.
Qed.

(** ** Witnesses *)

(** Inbox lines as three integers and a brace. *)
Definition zig (z : Z) : Z := if 0 <=? z then 100 + 2 * z else 101 - 2 * z.
Definition unzig (x : Z) : Z := if Z.even x then (x - 100) / 2 else (101 - x) / 2.

Lemma unzig_zig z : unzig (zig z) = z.
Proof.
  unfold unzig, zig. destruct (Z.leb_spec 0 z).
  - replace (100 + 2 * z) with (0 + 2 * (50 + z)) by lia. rewrite Z.even_add_mul_2. cbn [Z.even].
    replace (0 + 2 * (50 + z) - 100) with (z * 2) by lia. by rewrite Z.div_mul.
  - replace (101 - 2 * z) with (1 + 2 * (50 - z)) by lia. rewrite Z.even_add_mul_2. cbn [Z.even].
    replace (101 - (1 + 2 * (50 - z))) with (z * 2) by lia. by rewrite Z.div_mul.
Qed.

#[export] Instance toy_json : JsonLineOps := {|
  json_line s c k b := [zig s; zig c; 125];
  line_u64 l k :=
    match l with
    | [s; c; _] => Some (unzig (if bool_decide (k = chars "sender") then s else c))
    | _ => None
    end
|}.

#[export] Instance toy_json_laws : JsonLineLaws.
Proof.
  split.
  - intros s c k b. change (Some (unzig (zig s)) = Some s). by rewrite unzig_zig.
  - intros s c k b. change (Some (unzig (zig c)) = Some c). by rewrite unzig_zig.
  - intros s c k b. cbn. rewrite !elem_of_cons, elem_of_nil. unfold zig.
    intros [E|[E|[E|[]]]]; [destruct (Z.leb_spec 0 s)|destruct (Z.leb_spec 0 c)|]; lia.
  - intros s c k b. by exists [zig s; zig c].
Qed.

(** A channel that keeps what it is sent. *)
#[export] Instance log_channel : BroadcastOps (list bytes) := {| bc_send ch b := (ch ++ [b], true) |}.

Definition good_disk : Disk := mkDisk true true true true.
Definition full_disk : Disk := mkDisk true true true false.
Definition toy_calls : list (Disk * (Z * Z * text * text)) :=
  [(full_disk, (7, 300, [], [])); (good_disk, (7, 300, [], [])); (good_disk, (7, 300, [], []));
   (good_disk, (8, 300, [], []))].

Lemma radio_inbox_exactly_once_witness :
  (persist_all None toy_calls).2 = [(7, 300); (8, 300)] /\
  let '(file, news) := persist_all None toy_calls in
  NoDup news /\ forall s c, on_disk (default [] file) s c = true <-> (s, c) ∈ news.
Proof.
  split; [vm_compute; reflexivity|].
  apply (radio_inbox_exactly_once toy_calls). repeat constructor.
Defined.

Definition second : Z := 1000000000.

Lemma gossip_rate_limited_witness :
  spaced (take_all [] [1; 2; 3; 4; 5; 11 * second; 12 * second] []).2 /\
  (take_all [] [1; 2; 3; 4; 5; 11 * second; 12 * second] []).2 = [1; 2; 3; 4; 11 * second; 12 * second].
Proof.
  split; [|vm_compute; reflexivity].
  apply (gossip_rate_limited _ 0).
  - intros i j a b Hij Hi Hj. unfold second in *.
    do 7 (destruct i as [|i]; [injection Hi as <-; do 7 (destruct j as [|j]; [try lia; injection Hj as <-; lia|]); done|]).
    done.
  - intros a Ha. unfold second in *. rewrite !elem_of_cons, elem_of_nil in Ha. naive_solver lia.
Defined.

Definition toy_bridge : Bridge (list bytes) := bridge_open (link_new []) None.
Definition radio_msg : bytes := default [] (to_allocvec (frame_of (mkPacket 3 1 0 (A2A [104; 105])) 7 300)).

Lemma bridge_persists_before_accepting_witness :
  br_delivered (bridge_message good_disk toy_bridge radio_msg) = [(7, [104; 105])] /\
  exists recs, file_rep (br_file (bridge_message good_disk toy_bridge radio_msg)) recs.
Proof.
  split; [vm_compute; reflexivity|].
  apply (bridge_persists_before_accepting good_disk toy_bridge radio_msg []); done.
Defined.

Definition admitted_link : MeshLink (list bytes) := (admit_gossip (link_new []) 5 9 (chars "hi")).1.
Definition admitted_frame : MeshFrame := frame_of (mkPacket 9 4 0 (A2A [104; 105])) 0 1.

Lemma admitted_gossip_rides_ble_witness :
  (t_send ble_gossip_transport admitted_link admitted_frame).2 =
  Ok (mkReceipt BleGossip (zlen (default [] (to_allocvec admitted_frame)))).
Proof.
  apply (admitted_gossip_rides_ble (link_new []) admitted_link 5 9 9 (chars "hi") [104; 105]
           (default [] (to_allocvec admitted_frame)) admitted_frame); vm_compute; try reflexivity.
  discriminate.
Defined.

Lemma host_accept_reaches_board_witness :
  HOST_ACCEPT (inbound_frame node3 (host_accept_frame 7 300)) = [(7, 300)].
Proof.
  rewrite (host_accept_reaches_board node3 7 300 (default [] (to_allocvec (host_accept_packet 7 300))));
    [reflexivity|vm_compute; reflexivity| |reflexivity].
  intros k Hk. vm_compute in Hk. injection Hk as <-. vm_compute. reflexivity.
Defined.
