(* ===== verification/History.v ===== *)
(** * Session history: windowing and integrity repair

    [agentd/crates/core/src/history.rs] over the message types of
    [apexos-protocol/src/lib.rs].  [serde_json::Value] is third-party: a type
    [V] with its text and its string constructor.  Token estimates are sums of
    lengths of data in memory, kept unbounded. *)
From S2P Require Import Prelude Text.

(** [Value::to_string] and [json!(s)]. *)
Class JsonValue (V : Type) := { json_text : V -> text; json_of_str : text -> V }.

Inductive ContentBlock (V : Type) :=
| Text (txt : text)
| Thinking (thinking signature : text)
| ToolUse (id name : text) (input : V)
| ToolResult (tool_use_id : text) (content : V) (is_error : bool)
| Image (media_type data : text).
Arguments Text {V}. Arguments Thinking {V}. Arguments ToolUse {V}.
Arguments ToolResult {V}. Arguments Image {V}.

Inductive Message (V : Type) :=
| User (content : list (ContentBlock V))
| Assistant (content : list (ContentBlock V)).
Arguments User {V}. Arguments Assistant {V}.

Section History.
Context {V : Type} `{!JsonValue V}.

Definition content_of (m : Message V) : list (ContentBlock V) :=
  match m with User c | Assistant c => c end.

(** ** Token estimates *)

(** [s.bytes().filter(|&c| c == b'\\').count()]. *)
Definition backslashes (s : text) : Z := zlen (List.filter (fun c => c =? 92) s).

Definition block_tokens (b : ContentBlock V) : Z :=
  match b with
  | Text txt => str_len txt / 4
  | Thinking thinking _ => str_len thinking / 4
  | ToolUse _ _ input => str_len (json_text input) / 3
  | ToolResult _ content _ =>
      let s := json_text content in (str_len s + 3 * backslashes s) / 3
  | Image _ _ => 1600
  end.

Definition msg_tokens (m : Message V) : Z := foldr Z.add 0 (block_tokens <$> content_of m) + 4.

Definition estimate_history (h : list (Message V)) : Z := foldr Z.add 0 (msg_tokens <$> h).

Definition trim_trigger (budget_tokens : Z) : Z := sat_add64 budget_tokens (budget_tokens / 5).
Definition trim_target (budget_tokens : Z) : Z := budget_tokens - budget_tokens / 4.

(** ** Trimming *)

Definition is_result (b : ContentBlock V) : bool := match b with ToolResult _ _ _ => true | _ => false end.

Definition is_turn_start (m : Message V) : bool :=
  match m with User c => negb (existsb is_result c) | Assistant _ => false end.

Definition TRIM_MARKER_PREFIX : text := chars "[context-window notice: ".

Definition trim_marker (dropped_total : Z) : Message V :=
  User [Text (TRIM_MARKER_PREFIX ++ dec_text dropped_total
    ++ chars " earlier messages were trimmed from your working window to fit the context budget. This is a hole in the transcript you see, not in the record "
    ++ [8212]
    ++ chars " the full history is on disk. Call `session_search` (this session) to retrieve what slid out; do not reconstruct it.]")].

Definition marker_dropped (m : Message V) : option Z :=
  match m with
  | User [Text txt] => (strip_prefix TRIM_MARKER_PREFIX txt ≫= first_word) ≫= parse_u64
  | _ => None
  end.

(** [suffix[i]] for [i] in [0..=n]. *)
Fixpoint suffixes (h : list (Message V)) : list Z :=
  match h with
  | [] => [0]
  | m :: h => let s := suffixes h in (default 0 (head s) + msg_tokens m) :: s
  end.

(** The scan for the cut: [(cut, last_start)]. *)
Fixpoint scan_cut (h : list (Message V)) (suffix : list Z) (i : nat) (target : Z) (last_start : option nat)
    : option nat * option nat :=
  match h, suffix with
  | m :: h, s :: suffix =>
      if is_turn_start m then
        if s <=? target then (Some i, Some i) else scan_cut h suffix (S i) target (Some i)
      else scan_cut h suffix (S i) target last_start
  | _, _ => (None, last_start)
  end.

Definition trim_history (h : list (Message V)) (budget_tokens : Z) : list (Message V) :=
  if budget_tokens =? 0 then h
  else
    match h with
    | [] => h
    | first :: _ =>
        let suffix := suffixes h in
        if default 0 (head suffix) <=? trim_trigger budget_tokens then h
        else
          let '(cut, last_start) := scan_cut h suffix 0 (trim_target budget_tokens) None in
          match (match cut with Some c => Some c | None => last_start end) with
          | None => h
          | Some cut =>
              if (0 <? cut)%nat then
                let prior := marker_dropped first in
                let dropped_new := Z.of_nat cut - (if is_someb prior then 1 else 0) in
                let total := default 0 prior + dropped_new in
                trim_marker total :: drop cut h
              else h
          end
    end.

(** ** Repair *)

Definition LOST_RESULT_MARKER : text :=
  [8856] ++ chars " result lost " ++ [8212]
  ++ chars " the session file was recovered after an interrupted write; the call ran but its result was not persisted. Verify its effects rather than assuming failure.".

Definition use_id (b : ContentBlock V) : option text := match b with ToolUse id _ _ => Some id | _ => None end.
Definition result_id (b : ContentBlock V) : option text := match b with ToolResult id _ _ => Some id | _ => None end.

Definition tool_use_ids (m : Message V) : list text :=
  match m with Assistant c => omap use_id c | User _ => [] end.

Definition mem (x : text) (l : list text) : bool := bool_decide (x ∈ l).

Definition owned (ids : list text) (b : ContentBlock V) : bool :=
  match result_id b with Some i => mem i ids | None => false end.

Definition answers_any (ids : list text) (m : Message V) : bool :=
  match m with User c => existsb (owned ids) c | Assistant _ => false end.

Definition lost_result_block (id : text) : ContentBlock V :=
  ToolResult id (json_of_str LOST_RESULT_MARKER) true.

Fixpoint skip_while {A} (p : A -> bool) (l : list A) : list A :=
  match l with x :: r => if p x then skip_while p r else l | [] => [] end.

(** The three conditions of an already canonical answer. *)
Definition canonical (use_ids : list text) (c : list (ContentBlock V)) : bool :=
  let result_ids := omap result_id c in
  let results_first := forallb (fun b => negb (is_result b)) (skip_while is_result c) in
  let no_alien := forallb (fun i => mem i use_ids) result_ids in
  let full := forallb (fun u => mem u result_ids) use_ids in
  results_first && no_alien && full.

Definition normalize_pair_answer (m : Message V) (use_ids : list text) : Message V * bool :=
  match m with
  | Assistant _ => (m, false)
  | User c =>
      if canonical use_ids c then (m, false)
      else
        let results := List.filter (owned use_ids) c in
        let rest := List.filter (fun b => negb (is_result b)) c in
        let covered := omap result_id results in
        let lost := lost_result_block <$> List.filter (fun id => negb (mem id covered)) use_ids in
        (User (results ++ lost ++ rest), true)
  end.

(** The loop of [repair_history] over the queue; [fuel] bounds the messages
    taken.  The output and whether anything changed. *)
Fixpoint repair_loop (fuel : nat) (queue : list (Message V)) : list (Message V) * bool :=
  match fuel, queue with
  | S fuel, msg :: queue =>
      match tool_use_ids msg with
      | [] =>
          match msg with
          | User c =>
              if existsb is_result c then
                let kept := List.filter (fun b => negb (is_result b)) c in
                let '(out, _) := repair_loop fuel queue in
                (match kept with [] => out | _ :: _ => User kept :: out end, true)
              else let '(out, ch) := repair_loop fuel queue in (msg :: out, ch)
          | Assistant _ => let '(out, ch) := repair_loop fuel queue in (msg :: out, ch)
          end
      | use_ids =>
          match position (answers_any use_ids) queue with
          | Some k =>
              let displaced := take k queue in
              match drop k queue with
              | answer :: queue =>
                  let '(answer, ch) := normalize_pair_answer answer use_ids in
                  let '(out, ch') := repair_loop fuel (displaced ++ queue) in
                  (msg :: answer :: out, (0 <? k)%nat || ch || ch')
              | [] => ([], true)
              end
          | None =>
              let '(out, _) := repair_loop fuel queue in
              (msg :: User (lost_result_block <$> use_ids) :: out, true)
          end
      end
  | _, _ => ([], false)
  end.

Definition opening_marker : ContentBlock V :=
  Text ([8856] ++ chars " (session opening lost " ++ [8212]
    ++ chars " the file head was truncated; earlier context is on disk replay only)").

Definition is_nil {A} (l : list A) : bool := match l with [] => true | _ => false end.

Definition repair_history (h : list (Message V)) : list (Message V) * bool :=
  let kept := List.filter (fun m => negb (is_nil (content_of m))) h in
  let '(out, ch) := repair_loop (length kept) kept in
  let ch := negb (length kept =? length h)%nat || ch in
  match out with
  | Assistant _ :: _ => (User [opening_marker] :: out, true)
  | _ => (out, ch)
  end.

(** ** What the provider API accepts *)

(** No empty message; every message with tool calls is followed by the user
    message that answers exactly them, results first; no other user message
    has a result. *)
Fixpoint api_tail (h : list (Message V)) : bool :=
  match h with
  | [] => true
  | m :: r =>
      negb (is_nil (content_of m)) &&
      match tool_use_ids m with
      | [] => match m with User c => negb (existsb is_result c) | Assistant _ => true end && api_tail r
      | ids => match r with User c :: r' => canonical ids c && api_tail r' | _ => false end
      end
  end.

(** And the first message is a user message. *)
Definition api_valid (h : list (Message V)) : bool :=
  api_tail h && match h with Assistant _ :: _ => false | _ => true end.

(** Everything in a history that is not a tool result. *)
Definition spoken (h : list (Message V)) : list (ContentBlock V) :=
  List.filter (fun b => negb (is_result b)) (concat (content_of <$> h)).

End History.

(** ** Lemmas *)

Section HistoryLemmas.
Context {V : Type} `{!JsonValue V}.
Implicit Types (h : list (Message V)) (c : list (ContentBlock V)) (m : Message V).

Lemma forallb_forall_elem {A} (p : A -> bool) l : forallb p l = true <-> forall x, x ∈ l -> p x = true.
Proof. rewrite forallb_forall. by setoid_rewrite list_elem_of_In. Qed.

Lemma existsb_elem {A} (p : A -> bool) l : existsb p l = true <-> exists x, x ∈ l /\ p x = true.
Proof. rewrite existsb_exists. by setoid_rewrite list_elem_of_In. Qed.

Lemma existsb_false {A} (p : A -> bool) l : existsb p l = false <-> forall x, x ∈ l -> p x = false.
Proof.
  induction l as [|a l IH]; cbn.
  - split; [|done]. intros _ x Hx. by apply not_elem_of_nil in Hx.
  - rewrite orb_false_iff, IH. split.
    + intros [Ha Hl] x [->|Hx]%elem_of_cons; auto.
    + intros Hall. split; [apply Hall; left|]. intros x Hx. apply Hall. by right.
Qed.

Lemma mem_spec x l : mem x l = true <-> x ∈ l.
Proof. apply bool_decide_eq_true. Qed.

Lemma elem_of_bfilter {A} (p : A -> bool) x l : x ∈ List.filter p l <-> x ∈ l /\ p x = true.
Proof. by rewrite list_elem_of_In, filter_In, <- list_elem_of_In. Qed.

Lemma result_id_is (b : ContentBlock V) i : result_id b = Some i -> is_result b = true.
Proof. by destruct b. Qed.

Lemma is_result_id (b : ContentBlock V) : is_result b = is_someb (result_id b).
Proof. by destruct b. Qed.

Lemma owned_result ids (b : ContentBlock V) : owned ids b = true -> is_result b = true.
Proof. by destruct b. Qed.

Lemma skip_results_app (a b : list (ContentBlock V)) :
  Forall (fun x => is_result x = true) a -> skip_while is_result (a ++ b) = skip_while is_result b.
Proof. intros Ha. induction Ha as [|x a Hx _ IH]; [done|]. cbn. by rewrite Hx. Qed.

Lemma skip_none {A} (p : A -> bool) l : (forall x, x ∈ l -> p x = false) -> skip_while p l = l.
Proof. destruct l as [|x l]; [done|]. intros Hl. cbn. by rewrite (Hl x) by left. Qed.

Lemma omap_result_nil c : (forall x, x ∈ c -> is_result x = false) -> omap result_id c = [].
Proof.
  induction c as [|b c IH]; intros Hc; [done|]. cbn.
  assert (result_id b = None) as ->.
  { specialize (Hc b ltac:(left)). rewrite is_result_id in Hc. by destruct (result_id b). }
  apply IH. intros x Hx. apply Hc. by right.
Qed.

Lemma omap_lost (ids : list text) : omap result_id (lost_result_block (V := V) <$> ids) = ids.
Proof. induction ids as [|i ids IH]; [done|]. cbn. by rewrite IH. Qed.

(** Owned results, markers for the ids they miss, then other blocks: canonical. *)
Lemma canonical_layout ids (rs rest : list (ContentBlock V)) (missing : list text) :
  (forall x, x ∈ rs -> owned ids x = true) -> (forall x, x ∈ rest -> is_result x = false) ->
  (forall i, i ∈ missing -> i ∈ ids) ->
  (forall i, i ∈ ids -> i ∈ omap result_id rs \/ i ∈ missing) ->
  canonical ids (rs ++ (lost_result_block <$> missing) ++ rest) = true.
Proof.
  intros Hrs Hrest Hmiss Hfull. unfold canonical.
  assert (omap result_id (rs ++ (lost_result_block <$> missing) ++ rest) = omap result_id rs ++ missing) as E.
  { by rewrite !omap_app, omap_lost, (omap_result_nil rest Hrest), app_nil_r. }
  rewrite E, !andb_true_iff. split_and!.
  - rewrite app_assoc, skip_results_app.
    + rewrite skip_none by done. apply forallb_forall_elem. intros x Hx. by rewrite Hrest.
    + apply Forall_app. split; apply Forall_forall; intros x Hx.
      * by eapply owned_result, Hrs.
      * by apply list_elem_of_fmap in Hx as (i & -> & _).
  - apply forallb_forall_elem. intros i [Hi|Hi]%elem_of_app; apply mem_spec; [|auto].
    apply list_elem_of_omap in Hi as (b & Hb & Hid). specialize (Hrs b Hb). unfold owned in Hrs.
    rewrite Hid in Hrs. by apply mem_spec.
  - apply forallb_forall_elem. intros i Hi. apply mem_spec, elem_of_app. auto.
Qed.

Lemma normalize_canonical ids c :
  exists c', (normalize_pair_answer (User c) ids).1 = User c' /\ canonical ids c' = true /\
    ((normalize_pair_answer (User c) ids).2 = false -> c' = c).
Proof.
  unfold normalize_pair_answer. destruct (canonical ids c) eqn:E; [by exists c|].
  eexists. split; [done|]. split; [|done]. apply canonical_layout.
  - intros x Hx. by apply elem_of_bfilter in Hx as [_ ?].
  - intros x [_ Hx]%elem_of_bfilter. by apply negb_true_iff.
  - intros i Hi. by apply elem_of_bfilter in Hi as [? _].
  - intros i Hi. destruct (mem i (omap result_id (List.filter (owned ids) c))) eqn:Em.
    + left. by apply mem_spec.
    + right. apply elem_of_bfilter. by rewrite Em.
Qed.

Lemma canonical_nonempty ids c : ids <> [] -> canonical ids c = true -> is_nil c = false.
Proof.
  intros Hids Hc. destruct c; [|done]. unfold canonical in Hc. cbn in Hc.
  destruct ids as [|i ids]; [done|]. cbn in Hc. done.
Qed.

Lemma answers_user ids m : answers_any ids m = true -> exists c, m = User c.
Proof. destruct m; [by eexists|done]. Qed.

Lemma position_drop {A} (p : A -> bool) l k :
  position p l = Some k -> exists x r, drop k l = x :: r /\ p x = true /\ l = take k l ++ x :: r /\
    (length (take k l ++ r) < length l)%nat.
Proof.
  intros (x & Hx & Hp)%position_Some%proj1. exists x, (drop (S k) l).
  pose proof (drop_S _ _ _ Hx) as E. split_and!; [done|done| |].
  - by rewrite <- E, take_drop.
  - rewrite length_app, length_take, length_drop. apply lookup_lt_Some in Hx. lia.
Qed.

Lemma lost_only_canonical (ids : list text) :
  canonical ids (lost_result_block (V := V) <$> ids) = true.
Proof.
  pose proof (canonical_layout ids [] [] ids) as Hc. rewrite app_nil_r in Hc. apply Hc; try done.
  - intros x Hx. by apply not_elem_of_nil in Hx.
  - intros x Hx. by apply not_elem_of_nil in Hx.
  - by right.
Qed.

(** The output of the loop is well formed, given enough fuel and no empty message. *)
Lemma repair_loop_valid fuel h :
  (length h <= fuel)%nat -> (forall m, m ∈ h -> is_nil (content_of m) = false) ->
  api_tail (repair_loop fuel h).1 = true.
Proof.
  revert h; induction fuel as [|fuel IH]; intros h Hf Hne; [by destruct h|].
  destruct h as [|m h]; [done|]. cbn [repair_loop]. cbn in Hf.
  assert (forall h', (length h' <= fuel)%nat -> (forall x, x ∈ h' -> x ∈ h) -> api_tail (repair_loop fuel h').1 = true)
    as IH'.
  { intros h' Hl Hs. apply IH; [done|]. intros x Hx. apply Hne. right. auto. }
  pose proof (Hne m ltac:(left)) as Hm.
  destruct (tool_use_ids m) as [|i ids] eqn:Eu.
  - assert (api_tail (repair_loop fuel h).1 = true) as Hrec by (apply IH'; [lia|done]).
    destruct (repair_loop fuel h) as [out ch]. cbn [fst] in Hrec.
    destruct m as [c|c]; [|cbn [fst api_tail]; rewrite Eu; cbn in Hm |- *; by rewrite Hm].
    destruct (existsb is_result c) eqn:Ex.
    + destruct (List.filter _ c) as [|b kept] eqn:Ek; cbn [fst]; [done|].
      cbn [api_tail content_of is_nil tool_use_ids negb andb]. rewrite Hrec, andb_true_r.
      apply negb_true_iff, existsb_false. intros x Hx. rewrite <- Ek in Hx.
      apply elem_of_bfilter in Hx as [_ Hx]. by apply negb_true_iff.
    + cbn [fst api_tail tool_use_ids]. cbn in Hm |- *. by rewrite Hm, Ex, Hrec.
  - assert (forall c out, canonical (i :: ids) c = true -> api_tail out = true ->
              api_tail (m :: User c :: out) = true) as Hpair.
    { intros c out Hc Ho. cbn [api_tail]. rewrite Hm, Eu. cbn [negb andb]. by rewrite Hc, Ho. }
    destruct (position (answers_any (i :: ids)) h) as [k|] eqn:Ep.
    + apply position_drop in Ep as (a & r & -> & Ha & E & Hlt).
      apply answers_user in Ha as [c ->].
      destruct (normalize_canonical (i :: ids) c) as (c' & Hn & Hc & _).
      destruct (normalize_pair_answer (User c) (i :: ids)) as [a' ch]. cbn in Hn. subst a'.
      assert (api_tail (repair_loop fuel (take k h ++ r)).1 = true) as Hrec.
      { apply IH'; [lia|]. intros x Hx. rewrite E. apply elem_of_app in Hx as [Hx|Hx];
          apply elem_of_app; [by left|right; by right]. }
      destruct (repair_loop fuel (take k h ++ r)) as [out ch']. by apply Hpair.
    + assert (api_tail (repair_loop fuel h).1 = true) as Hrec by (apply IH'; [lia|done]).
      destruct (repair_loop fuel h) as [out ch]. apply Hpair; [apply lost_only_canonical|done].
Qed.

(** The loop leaves a well-formed queue alone. *)
Lemma repair_loop_noop fuel h :
  (length h <= fuel)%nat -> api_tail h = true -> repair_loop fuel h = (h, false).
Proof.
  revert h; induction fuel as [|fuel IH]; intros h Hf Hv; [destruct h; [done|cbn in Hf; lia]|].
  destruct h as [|m h]; [done|]. cbn [repair_loop api_tail] in *. cbn in Hf.
  apply andb_true_iff in Hv as [_ Hv]. destruct (tool_use_ids m) as [|i ids] eqn:Eu.
  - apply andb_true_iff in Hv as [Hm Hv]. rewrite (IH h); [|lia|exact Hv].
    destruct m as [c|c]; [|done]. apply negb_true_iff in Hm. by rewrite Hm.
  - destruct h as [|[c|c] h]; try done. apply andb_true_iff in Hv as [Hc Hv].
    assert (answers_any (i :: ids) (User c) = true) as Ha.
    { unfold canonical in Hc. apply andb_true_iff in Hc as [_ Hfull]. cbn [forallb] in Hfull.
      apply andb_true_iff in Hfull as [Hi _]. apply mem_spec, list_elem_of_omap in Hi as (b & Hb & Hid).
      apply existsb_elem. exists b. split; [done|]. unfold owned. rewrite Hid. apply mem_spec. left. }
    cbn [position]. rewrite Ha. cbn [drop take]. unfold normalize_pair_answer. rewrite Hc.
    cbn [app]. cbn in Hf. rewrite (IH h); [done|lia|exact Hv].
Qed.

(** Nothing changed means nothing was wrong. *)
Lemma repair_loop_unchanged fuel h :
  (length h <= fuel)%nat -> (repair_loop fuel h).2 = false -> (repair_loop fuel h).1 = h.
Proof.
  revert h; induction fuel as [|fuel IH]; intros h Hf Hch; [destruct h; [done|cbn in Hf; lia]|].
  destruct h as [|m h]; [done|]. cbn [repair_loop] in *. cbn in Hf.
  pose proof (IH h ltac:(lia)) as IHh.
  destruct (tool_use_ids m) as [|i ids] eqn:Eu.
  - destruct (repair_loop fuel h) as [out ch]. cbn in IHh.
    destruct m as [c|c]; [|by cbn in *; rewrite IHh].
    destruct (existsb is_result c); [done|]. cbn in *. by rewrite IHh.
  - destruct (position (answers_any (i :: ids)) h) as [k|] eqn:Ep.
    + apply position_drop in Ep as (a & r & Hd & Ha & E & Hlt). rewrite Hd in Hch |- *.
      pose proof (answers_user _ _ Ha) as [c ->].
      destruct (normalize_canonical (i :: ids) c) as (c' & Hn & _ & Hsame).
      destruct (normalize_pair_answer (User c) (i :: ids)) as [a' ch]. cbn in Hn, Hsame. subst a'.
      pose proof (IH (take k h ++ r) ltac:(lia)) as IHr.
      destruct (repair_loop fuel (take k h ++ r)) as [out ch']. cbn [fst snd] in *.
      apply orb_false_iff in Hch as [Hch Hch']. apply orb_false_iff in Hch as [Hk Hch].
      destruct k as [|k]; [|done]. rewrite IHr, Hsame by done. rewrite take_0 in E |- *.
      cbn [app] in E |- *. by rewrite <- E.
    + by destruct (repair_loop fuel h).
Qed.

End HistoryLemmas.

Section SpokenLemmas.
Context {V : Type} `{!JsonValue V}.
Implicit Types (h : list (Message V)) (c : list (ContentBlock V)) (m : Message V).

(** The blocks of one message that are not results. *)
Definition said c : list (ContentBlock V) := List.filter (fun b => negb (is_result b)) c.

Lemma bfilter_app {A} (p : A -> bool) a b : List.filter p (a ++ b) = List.filter p a ++ List.filter p b.
Proof. apply List.filter_app. Qed.

Lemma spoken_cons m h : spoken (m :: h) = said (content_of m) ++ spoken h.
Proof. unfold spoken. cbn. by rewrite bfilter_app. Qed.

Lemma spoken_app h1 h2 : spoken (h1 ++ h2) = spoken h1 ++ spoken h2.
Proof. unfold spoken. by rewrite fmap_app, concat_app, bfilter_app. Qed.

Lemma said_none c : (forall b, b ∈ c -> is_result b = true) -> said c = [].
Proof.
  intros Hc. destruct (said c) as [|b l] eqn:E; [done|].
  assert (b ∈ said c) as Hb by (rewrite E; left). apply elem_of_bfilter in Hb as [Hb Hn].
  by rewrite Hc in Hn.
Qed.

Lemma said_said c : said (said c) = said c.
Proof.
  unfold said. induction c as [|b c IH]; [done|]. cbn. destruct (negb (is_result b)) eqn:E; cbn; [|done].
  by rewrite E, IH.
Qed.

Lemma said_normalize ids m : said (content_of (normalize_pair_answer m ids).1) = said (content_of m).
Proof.
  destruct m as [c|c]; [|done]. unfold normalize_pair_answer. destruct (canonical ids c); [done|].
  cbn [fst content_of]. unfold said at 1. rewrite !bfilter_app.
  fold (said (List.filter (owned ids) c)). rewrite (said_none (List.filter _ c)).
  2: { intros b [_ Hb]%elem_of_bfilter. by eapply owned_result. }
  fold (said (lost_result_block (V := V) <$>
    List.filter (fun id => negb (mem id (omap result_id (List.filter (owned ids) c)))) ids)).
  rewrite (said_none (_ <$> _)) by (intros b (i & -> & _)%list_elem_of_fmap; done).
  apply said_said.
Qed.

Lemma repair_loop_spoken fuel h :
  (length h <= fuel)%nat -> spoken (repair_loop fuel h).1 ≡ₚ spoken h.
Proof.
  revert h; induction fuel as [|fuel IH]; intros h Hf; [destruct h; [done|cbn in Hf; lia]|].
  destruct h as [|m h]; [done|]. cbn [repair_loop]. cbn in Hf. rewrite spoken_cons.
  pose proof (IH h ltac:(lia)) as IHh.
  destruct (tool_use_ids m) as [|i ids] eqn:Eu.
  - destruct (repair_loop fuel h) as [out ch]. cbn [fst] in IHh.
    destruct m as [c|c]; [|cbn [fst]; by rewrite spoken_cons, IHh].
    destruct (existsb is_result c); [|cbn [fst]; by rewrite spoken_cons, IHh].
    cbn [fst content_of]. fold (said c). rewrite <- IHh. destruct (said c) as [|b l] eqn:E; [done|].
    rewrite spoken_cons. cbn [content_of]. by rewrite <- E, said_said.
  - destruct (position (answers_any (i :: ids)) h) as [k|] eqn:Ep.
    + apply position_drop in Ep as (a & r & -> & _ & E & Hlt).
      pose proof (said_normalize (i :: ids) a) as Hn.
      destruct (normalize_pair_answer a (i :: ids)) as [a' ch]. cbn in Hn.
      pose proof (IH (take k h ++ r) ltac:(lia)) as IHr.
      destruct (repair_loop fuel (take k h ++ r)) as [out ch']. cbn [fst] in *.
      rewrite !spoken_cons, Hn, IHr. f_equiv. rewrite E at 2. rewrite !spoken_app, spoken_cons.
      rewrite !(assoc (++)). by rewrite (comm (++) (said _) (spoken (take k h))).
    + destruct (repair_loop fuel h) as [out ch]. cbn [fst] in *. rewrite !spoken_cons, IHh. f_equiv.
      cbn [content_of]. rewrite (said_none (_ <$> _)); [done|].
      by intros b (j & -> & _)%list_elem_of_fmap.
Qed.

Lemma spoken_kept h : spoken (List.filter (fun m => negb (is_nil (content_of m))) h) = spoken h.
Proof.
  induction h as [|m h IH]; [done|]. cbn [List.filter]. destruct (content_of m) eqn:E; cbn [is_nil negb].
  - rewrite spoken_cons, E. exact IH.
  - by rewrite !spoken_cons, IH.
Qed.

Lemma filter_all {A} (p : A -> bool) l : (forall x, x ∈ l -> p x = true) -> List.filter p l = l.
Proof.
  induction l as [|x l IH]; intros Hl; [done|]. cbn. rewrite (Hl x) by left. f_equal. apply IH.
  intros y Hy. apply Hl. by right.
Qed.

Lemma filter_length_id {A} (p : A -> bool) l : length (List.filter p l) = length l -> List.filter p l = l.
Proof.
  induction l as [|x l IH]; [done|]. cbn. pose proof (filter_length_le p l). destruct (p x); cbn; intros.
  - f_equal. apply IH. lia.
  - lia.
Qed.

Lemma api_tail_nonempty h m : api_tail h = true -> m ∈ h -> is_nil (content_of m) = false.
Proof.
  assert (forall n h, (length h <= n)%nat -> api_tail h = true -> m ∈ h -> is_nil (content_of m) = false) as Hgen;
    [|by apply (Hgen (length h))].
  clear. induction n as [|n IH]; intros h Hl Hv Hm.
  { destruct h; [by apply not_elem_of_nil in Hm|cbn in Hl; lia]. }
  destruct h as [|a h]; [by apply not_elem_of_nil in Hm|]. cbn [api_tail] in Hv. cbn in Hl.
  apply andb_true_iff in Hv as [Ha Hv]. apply negb_true_iff in Ha.
  apply elem_of_cons in Hm as [->|Hm]; [done|].
  destruct (tool_use_ids a) as [|i ids] eqn:Eu.
  - apply andb_true_iff in Hv as [_ Hv]. by apply (IH h); [lia| |].
  - destruct h as [|[c|c] h]; try done. apply andb_true_iff in Hv as [Hc Hv]. cbn in Hl.
    apply elem_of_cons in Hm as [->|Hm]; [by apply (canonical_nonempty (i :: ids))|].
    by apply (IH h); [lia| |].
Qed.

Lemma repair_output_valid h : api_valid (repair_history h).1 = true.
Proof.
  unfold repair_history. set (kept := List.filter _ h).
  assert (api_tail (repair_loop (length kept) kept).1 = true) as Hv.
  { apply repair_loop_valid; [done|]. intros m [_ Hm]%elem_of_bfilter. by apply negb_true_iff. }
  destruct (repair_loop (length kept) kept) as [out ch]. cbn [fst] in Hv. unfold api_valid.
  destruct out as [|[c|c] out]; cbn [fst]; rewrite ?andb_true_r; done.
Qed.

(** A well-formed history cut at a turn start stays well formed. *)
Lemma api_tail_drop h i m :
  api_tail h = true -> h !! i = Some m -> is_turn_start m = true -> api_tail (drop i h) = true.
Proof.
  assert (forall n h i, (length h <= n)%nat -> api_tail h = true -> h !! i = Some m -> is_turn_start m = true ->
            api_tail (drop i h) = true) as Hgen; [|by apply (Hgen (length h))].
  clear. induction n as [|n IH]; intros h i Hl Hv Hi Hm; [destruct h; [done|cbn in Hl; lia]|].
  destruct i as [|i]; [by rewrite drop_0|]. destruct h as [|a h]; [done|]. cbn in Hi, Hl |- *.
  cbn [api_tail] in Hv. apply andb_true_iff in Hv as [_ Hv]. destruct (tool_use_ids a) as [|u us] eqn:Eu.
  - apply andb_true_iff in Hv as [_ Hv]. by apply IH; [lia| | |].
  - destruct h as [|[c|c] h]; try done. apply andb_true_iff in Hv as [Hc Hv]. cbn in Hl.
    destruct i as [|i]; [|cbn in Hi |- *; by apply IH; [lia| | |]].
    exfalso. injection Hi as <-. cbn in Hm. apply negb_true_iff in Hm.
    unfold canonical in Hc. apply andb_true_iff in Hc as [_ Hfull]. cbn [forallb] in Hfull.
    apply andb_true_iff in Hfull as [Hu _]. apply mem_spec, list_elem_of_omap in Hu as (b & Hb & Hid).
    rewrite existsb_false in Hm. specialize (Hm b Hb). by rewrite (result_id_is _ _ Hid) in Hm.
Qed.

(** *** The trim scan *)

Lemma estimate_cons m h : estimate_history (m :: h) = msg_tokens m + estimate_history h.
Proof. done. Qed.

Lemma suffixes_spec h i : (i <= length h)%nat -> suffixes h !! i = Some (estimate_history (drop i h)).
Proof.
  revert i; induction h as [|m h IH]; intros i Hi; cbn in Hi.
  - by replace i with 0%nat by lia.
  - cbn [suffixes]. destruct i as [|i].
    + change (Some (default 0 (head (suffixes h)) + msg_tokens m) = Some (msg_tokens m + estimate_history h)).
      pose proof (IH 0%nat ltac:(lia)) as Hz. rewrite drop_0, <- head_lookup in Hz. rewrite Hz.
      cbn [default from_option id]. f_equal. lia.
    + cbn. apply IH. lia.
Qed.

(** Where the scan must cut: the earliest turn start whose suffix fits, else
    the last turn start. *)
Definition best_cut h (target : Z) (r : option nat) : Prop :=
  match r with
  | None => forall j m, h !! j = Some m -> is_turn_start m = false
  | Some cut =>
      (exists m, h !! cut = Some m /\ is_turn_start m = true) /\
      (forall j m, (j < cut)%nat -> h !! j = Some m -> is_turn_start m = true ->
         target < estimate_history (drop j h)) /\
      (estimate_history (drop cut h) <= target \/
       forall j m, (cut < j)%nat -> h !! j = Some m -> is_turn_start m = false)
  end.

(** The scan at position [i]: every start before it overshoots, [last] is the
    latest of them. *)
Definition scanned h (target : Z) (i : nat) (last : option nat) : Prop :=
  (forall j m, (j < i)%nat -> h !! j = Some m -> is_turn_start m = true ->
     target < estimate_history (drop j h)) /\
  match last with
  | None => forall j m, (j < i)%nat -> h !! j = Some m -> is_turn_start m = false
  | Some l => (l < i)%nat /\ (exists m, h !! l = Some m /\ is_turn_start m = true) /\
      forall j m, (l < j < i)%nat -> h !! j = Some m -> is_turn_start m = false
  end.

Lemma scan_cut_best target h0 h suffix i last :
  drop i h0 = h -> (forall j, (j < length h)%nat -> suffix !! j = Some (estimate_history (drop j h))) ->
  scanned h0 target i last ->
  let '(cut, last') := scan_cut h suffix i target last in
  best_cut h0 target (match cut with Some c => Some c | None => last' end).
Proof.
  revert suffix i last; induction h as [|m h IH]; intros suffix i last Hd Hsuf [Hover Hlast]; cbn [scan_cut].
  - assert (length h0 <= i)%nat as Hlen.
    { apply (f_equal length) in Hd. rewrite length_drop in Hd. cbn in Hd. lia. }
    destruct last as [l|].
    + destruct Hlast as (Hl & Hm & Hno). split_and!; [done|intros j mj Hj; apply Hover; lia|].
      right. intros j mj Hj Hjm. apply (Hno j); [|done]. apply lookup_lt_Some in Hjm. lia.
    + intros j mj Hjm. apply (Hlast j); [|done]. apply lookup_lt_Some in Hjm. lia.
  - destruct suffix as [|s suffix]; [specialize (Hsuf 0%nat ltac:(cbn; lia)); done|].
    assert (h0 !! i = Some m) as Hi.
    { rewrite <- (Nat.add_0_r i), <- lookup_drop, Hd. done. }
    assert (drop (S i) h0 = h) as Hd'.
    { rewrite <- Nat.add_1_r, <- drop_drop, Hd. done. }
    assert (s = estimate_history (drop i h0)) as ->.
    { specialize (Hsuf 0%nat ltac:(cbn; lia)). rewrite Hd. by injection Hsuf. }
    assert (forall j, (j < length h)%nat -> suffix !! j = Some (estimate_history (drop j h))) as Hsuf'.
    { intros j Hj. specialize (Hsuf (S j) ltac:(cbn; lia)). exact Hsuf. }
    destruct (is_turn_start m) eqn:Em.
    + destruct (Z.leb_spec (estimate_history (drop i h0)) target) as [Hle|Hgt].
      * split_and!; [by exists m|done|by left].
      * apply IH; [done|done|]. split.
        -- intros j mj Hj Hjm Hs. destruct (decide (j = i)) as [->|]; [lia|]. apply (Hover j mj); [lia|done|done].
        -- split_and!; [lia|by exists m|]. intros j mj Hj. lia.
    + apply IH; [done|done|]. split.
      * intros j mj Hj Hjm Hs. destruct (decide (j = i)) as [->|]; [congruence|]. apply (Hover j mj); [lia|done|done].
      * destruct last as [l|].
        -- destruct Hlast as (Hl & Hm & Hno). split_and!; [lia|done|]. intros j mj Hj Hjm.
           destruct (decide (j = i)) as [->|]; [congruence|]. apply (Hno j); [lia|done].
        -- intros j mj Hj Hjm. destruct (decide (j = i)) as [->|]; [congruence|]. apply (Hlast j); [lia|done].
Qed.

Lemma marker_dropped_marker n : is_u64 n -> marker_dropped (trim_marker (V := V) n) = Some n.
Proof.
  intros Hn. unfold trim_marker, marker_dropped.
  rewrite (proj2 (strip_prefix_Some TRIM_MARKER_PREFIX _ _) eq_refl). cbn [mbind option_bind].
  apply (read_number n).
  exact Hn.
Qed.

End SpokenLemmas.

(** ** Properties *)

Section HistoryTheorems.
Context {V : Type} `{!JsonValue V}.

(** C33: repair makes any history one the API accepts.  Whatever was read from
    disk, the repaired history starts with a user message, has no empty
    message, answers every tool call right after it, results first, with
    exactly its own results, and has no stray result anywhere else. *)
Theorem repair_makes_valid (h : list (Message V)) : api_valid (repair_history h).1 = true.
Proof. apply repair_output_valid. Qed.

(** repair is the identity on exactly the valid histories.  It reports no
    change when and only when the history was already valid, and then returns
    it as it is; so repairing twice changes nothing more. *)
Theorem repair_noop_iff_valid (h : list (Message V)) :
  ((repair_history h).2 = false <-> api_valid h = true) /\
  ((repair_history h).2 = false -> (repair_history h).1 = h) /\
  repair_history (repair_history h).1 = ((repair_history h).1, false).
Proof.
  assert (forall g : list (Message V), api_valid g = true -> repair_history g = (g, false)) as Hvalid.
  { intros g Hg. unfold api_valid in Hg. apply andb_true_iff in Hg as [Ht Hh]. unfold repair_history.
    rewrite (filter_all _ g).
    2: { intros m Hm. apply negb_true_iff. by apply (api_tail_nonempty g). }
    rewrite repair_loop_noop by done. rewrite Nat.eqb_refl. by destruct g as [|[c|c] g]. }
  assert ((repair_history h).2 = false -> (repair_history h).1 = h) as Hsame.
  { unfold repair_history. set (kept := List.filter _ h).
    pose proof (repair_loop_unchanged (length kept) kept ltac:(done)) as Hu.
    destruct (repair_loop (length kept) kept) as [out ch]. cbn [fst snd] in Hu.
    assert (negb (length kept =? length h)%nat || ch = false -> out = h) as Hout.
    { intros [Hl Hch]%orb_false_iff. apply negb_false_iff, Nat.eqb_eq in Hl.
      rewrite Hu by done. by apply filter_length_id. }
    destruct out as [|[c|c] out]; cbn [fst snd]; [exact Hout|exact Hout|done]. }
  pose proof (repair_output_valid h) as Hr.
  split; [|split; [done|by apply Hvalid]]. split.
  - intros Hch. rewrite <- (Hsame Hch). done.
  - intros Hv. by rewrite Hvalid.
Qed.

(** repair loses nothing anyone said.  Text, thinking, images and tool
    calls of the repaired history are those of the original, in some order,
    plus the opening marker when one was inserted. *)
Theorem repair_keeps_spoken (h : list (Message V)) :
  spoken (repair_history h).1 ≡ₚ spoken h \/
  spoken (repair_history h).1 ≡ₚ opening_marker :: spoken h.
Proof.
  unfold repair_history. set (kept := List.filter _ h).
  pose proof (repair_loop_spoken (length kept) kept ltac:(done)) as Hs.
  rewrite (spoken_kept h : spoken kept = spoken h) in Hs.
  destruct (repair_loop (length kept) kept) as [out ch]. cbn [fst] in Hs.
  destruct out as [|[c|c] out]; cbn [fst]; [by left|by left|right]. rewrite spoken_cons. cbn. by rewrite Hs.
Qed.

(** trimming fires on the band, cuts where it says, and says what it cut.
    At or below the trigger, or with the budget off, nothing changes.  Above
    it the cut is the earliest turn start whose suffix fits the target, else
    the last turn start; everything from the cut on is kept behind a marker
    whose readable count is the dropped messages plus those an earlier marker
    accounts for. *)
Theorem trim_history_spec (h : list (Message V)) (budget : Z) :
  let r := trim_history h budget in
  (budget = 0 \/ estimate_history h <= trim_trigger budget -> r = h) /\
  (budget <> 0 -> h <> [] -> trim_trigger budget < estimate_history h ->
   exists cut, best_cut h (trim_target budget) cut /\
   match cut with
   | None | Some O => r = h
   | Some (S c) =>
       let prior := h !! 0%nat ≫= marker_dropped in
       let total := default 0 prior + Z.of_nat (S c) - (if is_someb prior then 1 else 0) in
       r = trim_marker total :: drop (S c) h /\
       (is_u64 total -> marker_dropped (trim_marker (V := V) total) = Some total)
   end).
Proof.
  intros r. unfold r, trim_history. destruct h as [|m h].
  { split; [by destruct (budget =? 0)|done]. }
  set (g := m :: h). assert (default 0 (head (suffixes g)) = estimate_history g) as Hs.
  { pose proof (suffixes_spec g 0 ltac:(lia)) as Hz. rewrite <- head_lookup in Hz. by rewrite Hz, drop_0. }
  rewrite Hs. split.
  - intros [->|Hle]; [done|]. destruct (budget =? 0); [done|]. apply Z.leb_le in Hle. by rewrite Hle.
  - intros Hb _ Htr. destruct (Z.eqb_spec budget 0); [done|]. apply Z.leb_gt in Htr. rewrite Htr.
    pose proof (scan_cut_best (trim_target budget) g g (suffixes g) 0 None) as Hbest.
    destruct (scan_cut g (suffixes g) 0 (trim_target budget) None) as [cut last].
    exists (match cut with Some c => Some c | None => last end). split.
    + apply Hbest; [by rewrite drop_0|intros j Hj; apply suffixes_spec; lia|]. split; intros j mj Hj; lia.
    + destruct (match cut with Some c => Some c | None => last end) as [[|c]|]; [done| |done].
      cbn [Nat.ltb Nat.leb]. change (g !! 0%nat ≫= marker_dropped) with (marker_dropped m).
      split; [|apply marker_dropped_marker]. do 2 f_equal. destruct (marker_dropped m); cbn; lia.
Qed.

(** trimming never orphans a tool result.  A valid history stays valid. *)
Theorem trim_keeps_valid (h : list (Message V)) (budget : Z) :
  api_valid h = true -> api_valid (trim_history h budget) = true.
Proof.
  intros Hv. unfold trim_history. destruct (budget =? 0); [done|]. destruct h as [|m h]; [done|].
  destruct (_ <=? _); [done|].
  pose proof (scan_cut_best (trim_target budget) (m :: h) (m :: h) (suffixes (m :: h)) 0 None) as Hbest.
  destruct (scan_cut (m :: h) (suffixes (m :: h)) 0 (trim_target budget) None) as [cut last].
  destruct (match cut with Some c => Some c | None => last end) as [c|]; [|done].
  destruct (0 <? c)%nat; [|done]. destruct Hbest as [(mc & Hc & Hm) _].
  { by rewrite drop_0. } { intros j Hj. apply suffixes_spec. lia. } { split; intros j mj Hj; lia. }
  unfold api_valid in *. apply andb_true_iff in Hv as [Ht _].
  pose proof (api_tail_drop _ _ _ Ht Hc Hm) as Hd.
  unfold trim_marker. cbn [api_tail content_of is_nil tool_use_ids existsb is_result orb negb andb].
  by rewrite Hd.
Qed.

End HistoryTheorems.

(** ** Witnesses, and a result that is lost though the file has it *)

#[export] Instance toy_value : JsonValue text := {| json_text v := v; json_of_str s := s |}.

Definition call (i : Z) : ContentBlock text := ToolUse [i] (chars "bash") (chars "{}").
Definition answer (i : Z) (s : string) : ContentBlock text := ToolResult [i] (chars s) false.
Definition say (s : string) : ContentBlock text := Text (chars s).

Definition long_session : list (Message text) :=
  [User [say "one"]; Assistant [call 1]; User [answer 1 "aaaaaaaaaaaaaaaaaaaaaaaa"];
   Assistant [say "done"]; User [say "two"]; Assistant [say "ok"]].

Lemma trim_history_spec_witness :
  trim_history long_session 20 = trim_marker 4 :: drop 4 long_session /\
  exists cut, best_cut long_session (trim_target 20) cut.
Proof.
  split; [vm_compute; reflexivity|].
  destruct (trim_history_spec long_session 20) as [_ Hcut].
  destruct Hcut as (cut & Hb & _); [done|done|vm_compute; reflexivity|]. by exists cut.
Defined.

Lemma trim_keeps_valid_witness : api_valid (trim_history long_session 20) = true.
Proof. apply (trim_keeps_valid long_session 20). vm_compute. reflexivity. Defined.

(** Two calls whose results were appended as two messages. *)
Definition split_answers : list (Message text) :=
  [User [say "go"]; Assistant [call 1; call 2]; User [answer 1 "first"]; User [answer 2 "second"]].

(** repair replaces a result that the file does hold.  When the results of
    one message's calls reached the file in two user messages, the second one
    is dropped as a stray and a "result lost" marker takes its place. *)
Theorem repair_drops_split_result :
  (repair_history split_answers).1 =
    [User [say "go"]; Assistant [call 1; call 2]; User [answer 1 "first"; lost_result_block [2]]] /\
  answer 2 "second" ∈ concat (content_of <$> split_answers) /\
  answer 2 "second" ∉ concat (content_of <$> (repair_history split_answers).1).
Proof.
  split; [vm_compute; reflexivity|]. split.
  - rewrite list_elem_of_In. vm_compute. tauto.
  - rewrite list_elem_of_In. vm_compute. intuition discriminate.
Qed.
