(* ===== verification/Bridge.v ===== *)
(** * The mesh bridge daemon

    [tools/crates/apexos-mesh-bridge/src/lib.rs] and the reconnect loop of its
    [main.rs]: the link engine over one serial connection, its lifetime
    counters, the backoff, and the sealed-provision counter file.  The
    [select!] of [run_link] is a list of what became ready, in order. *)
From S2P Require Import Prelude Wire Codecs Framing Replay Text.

(** ** Lifetime counters *)

Record LinkStats := mkLinkStats {
  ls_rx_frames : Z;
  ls_tx_frames : Z;
  ls_crc_fail : Z;
  ls_decode_fail : Z;
  ls_resyncs : Z;
  ls_oversize_drops : Z;
  ls_link_downs : Z
}.

Definition link_stats_default : LinkStats := mkLinkStats 0 0 0 0 0 0 0.

(** [fetch_add(current - last)]: both operations wrap. *)
Definition add_delta (total current last : Z) : Z := as_u64 (total + as_u64 (current - last)).

Definition absorb_deframer_delta (s : LinkStats) (current last : DeframerStats)
    : LinkStats * DeframerStats :=
  (mkLinkStats (ls_rx_frames s) (ls_tx_frames s)
     (add_delta (ls_crc_fail s) (crc_fail current) (crc_fail last))
     (add_delta (ls_decode_fail s) (decode_fail current) (decode_fail last))
     (add_delta (ls_resyncs s) (resyncs current) (resyncs last))
     (add_delta (ls_oversize_drops s) (oversize_drops current) (oversize_drops last))
     (ls_link_downs s),
   current).

Definition count_rx (s : LinkStats) : LinkStats :=
  mkLinkStats (inc64 (ls_rx_frames s)) (ls_tx_frames s) (ls_crc_fail s) (ls_decode_fail s)
    (ls_resyncs s) (ls_oversize_drops s) (ls_link_downs s).
Definition count_tx (s : LinkStats) : LinkStats :=
  mkLinkStats (ls_rx_frames s) (inc64 (ls_tx_frames s)) (ls_crc_fail s) (ls_decode_fail s)
    (ls_resyncs s) (ls_oversize_drops s) (ls_link_downs s).
Definition count_down (s : LinkStats) : LinkStats :=
  mkLinkStats (ls_rx_frames s) (ls_tx_frames s) (ls_crc_fail s) (ls_decode_fail s)
    (ls_resyncs s) (ls_oversize_drops s) (inc64 (ls_link_downs s)).

(** ** One link *)

Inductive LinkExit := Eof | Io | Closed.

#[export] Instance LinkExit_eq_dec : EqDecision LinkExit.
Proof. solve_decision. Defined.

(** What a turn of the [select!] finds ready: bytes read, a read error, a
    frame to send (and whether its write and flush succeed), or the outbound
    queue closed. *)
Inductive LinkEvent :=
| Read (bs : bytes)
| ReadErr
| Outbound (f : MeshFrame) (write_ok flush_ok : bool)
| OutboundClosed.

Section Link.
Context `{!PostcardOps MeshFrame} `{!CobsOps} `{!CrcOps}.

Record Link := mkLinkState {
  lk_deframer : Deframer;
  lk_last : DeframerStats;
  lk_stats : LinkStats;
  lk_inbound : list MeshFrame;
  lk_wire : bytes
}.

(** A fresh link: the totals are the process's, the deframer is new. *)
Definition link_start (s : LinkStats) : Link := mkLinkState deframer_new stats_default s [] [].

(** Hand the frames of one read to the consumer, who takes [room] more before
    going away ([None]: all of them). *)
Fixpoint deliver (l : Link) (room : option nat) (frames : list MeshFrame) : Link * bool :=
  match frames with
  | [] => (l, true)
  | f :: frames =>
      let l := mkLinkState (lk_deframer l) (lk_last l) (count_rx (lk_stats l)) (lk_inbound l) (lk_wire l) in
      match room with
      | Some O => (l, false)
      | _ =>
          deliver (mkLinkState (lk_deframer l) (lk_last l) (lk_stats l) (lk_inbound l ++ [f]) (lk_wire l))
            (pred <$> room) frames
      end
  end.

(** One turn of the loop of [run_link]. *)
Definition link_turn (l : Link) (room : option nat) (ev : LinkEvent) : Link * option LinkExit :=
  match ev with
  | Read [] => (l, Some Eof)
  | Read bs =>
      let '(d, frames) := push (lk_deframer l) bs in
      let '(s, last) := absorb_deframer_delta (lk_stats l) (stats d) (lk_last l) in
      match deliver (mkLinkState d last s (lk_inbound l) (lk_wire l)) room frames with
      | (l, true) => (l, None)
      | (l, false) => (l, Some Closed)
      end
  | ReadErr => (l, Some Io)
  | Outbound f write_ok flush_ok =>
      match encode_frame f with
      | Err _ => (l, None)
      | Ok wire =>
          if negb write_ok then (l, Some Io)
          else
            let l := mkLinkState (lk_deframer l) (lk_last l) (lk_stats l) (lk_inbound l) (lk_wire l ++ wire) in
            if negb flush_ok then (l, Some Io)
            else (mkLinkState (lk_deframer l) (lk_last l) (count_tx (lk_stats l)) (lk_inbound l) (lk_wire l), None)
      end
  | OutboundClosed => (l, Some Closed)
  end.

(** [run_link] over the events that happen; [None] while the link is still up. *)
Fixpoint run_link (l : Link) (evs : list (option nat * LinkEvent)) : Link * option LinkExit :=
  match evs with
  | [] => (l, None)
  | (room, ev) :: evs =>
      match link_turn l room ev with
      | (l, None) => run_link l evs
      | (l, Some e) => (l, Some e)
      end
  end.

End Link.

(** ** Backoff and the reconnect loop *)

Definition backoff_ms (attempt : Z) : Z :=
  Z.min (Z.min (250 * Z.shiftl 1 (Z.min attempt 5)) u64_max) 5000.

(** The end of one turn of [daemon]'s loop after a link went down: the attempt
    counter and the wait. *)
Definition after_link (attempt elapsed_ms rx_before rx_after : Z) : Z * Z :=
  let attempt := if (5000 <=? elapsed_ms) || (rx_before <? rx_after) then 0 else attempt in
  (sat_add32 attempt 1, backoff_ms attempt).

(** The other arm: the port would not open. *)
Definition after_open_failure (attempt : Z) : Z * Z := (sat_add32 attempt 1, backoff_ms attempt).

(** ** The provision counter file *)

Inductive CtrError := InvalidData | ReadError | WriteError | RenameError.

(** What the file system does: the file's text, absent, or unreadable; and
    whether the temporary file is written and renamed. *)
Record CtrFile := mkCtrFile { cf_text : option text; cf_readable : bool }.

Definition take_provision_ctr (path : CtrFile) (write_ok rename_ok : bool) : CtrFile * result Z CtrError :=
  if negb (cf_readable path) then (path, Err ReadError)
  else
    match
      match cf_text path with
      | Some s => match parse_u64 (trim s) with Some n => Ok (Some n) | None => Err InvalidData end
      | None => Ok None
      end
    with
    | Err e => (path, Err e)
    | Ok prev =>
        let next := next_provision_ctr prev in
        if negb write_ok then (path, Err WriteError)
        else if negb rename_ok then (path, Err RenameError)
        else (mkCtrFile (Some (dec_text next ++ [10])) true, Ok next)
    end.

(** A sequence of invocations of the tool; the counters handed out. *)
Fixpoint provision_all (path : CtrFile) (tries : list (bool * bool)) : CtrFile * list Z :=
  match tries with
  | [] => (path, [])
  | (w, r) :: tries =>
      let '(path, res) := take_provision_ctr path w r in
      let '(path, got) := provision_all path tries in
      (path, match res with Ok n => n :: got | Err _ => got end)
  end.

(** ** Lemmas *)

(** The six values of the schedule. *)
Lemma backoff_values a :
  0 <= a ->
  (a = 0 /\ backoff_ms a = 250) \/ (a = 1 /\ backoff_ms a = 500) \/ (a = 2 /\ backoff_ms a = 1000) \/
  (a = 3 /\ backoff_ms a = 2000) \/ (a = 4 /\ backoff_ms a = 4000) \/ (5 <= a /\ backoff_ms a = 5000).
Proof.
  intros Ha. assert (a = 0 \/ a = 1 \/ a = 2 \/ a = 3 \/ a = 4 \/ 5 <= a) as Hc by lia.
  destruct Hc as [->|[->|[->|[->|[->|Hle]]]]]; [by auto 10..|].
  do 5 right. split; [done|]. unfold backoff_ms. by rewrite (Z.min_r a 5) by lia.
Qed.

(** The totals after a link are the totals before plus the link's own counts. *)
Definition absorbed (s s' : LinkStats) (d : DeframerStats) : Prop :=
  ls_crc_fail s' = as_u64 (ls_crc_fail s + crc_fail d) /\
  ls_decode_fail s' = as_u64 (ls_decode_fail s + decode_fail d) /\
  ls_resyncs s' = as_u64 (ls_resyncs s + resyncs d) /\
  ls_oversize_drops s' = as_u64 (ls_oversize_drops s + oversize_drops d).

Lemma absorb_step s s' d d' :
  absorbed s s' d -> absorbed s (absorb_deframer_delta s' d' d).1 d'.
Proof.
  intros (H1 & H2 & H3 & H4). unfold absorbed, absorb_deframer_delta, add_delta, as_u64 in *. cbn.
  rewrite H1, H2, H3, H4, !Zplus_mod_idemp_r, !Zplus_mod_idemp_l. split_and!; f_equal; lia.
Qed.

Section LinkLemmas.
Context `{!PostcardOps MeshFrame} `{!CobsOps} `{!CrcOps}.

Lemma deliver_shape (l : Link) room frames :
  let '(l', ok) := deliver l room frames in
  lk_deframer l' = lk_deframer l /\ lk_last l' = lk_last l /\ lk_wire l' = lk_wire l /\
  (forall s d, absorbed s (lk_stats l) d -> absorbed s (lk_stats l') d) /\
  exists n, (n <= length frames)%nat /\ lk_inbound l' = lk_inbound l ++ take n frames /\
    (ok = true -> n = length frames) /\ (room = None -> ok = true).
Proof.
  revert l room; induction frames as [|f frames IH]; intros l room; cbn [deliver].
  { split_and!; try done. exists 0%nat. by rewrite app_nil_r. }
  destruct room as [[|k]|].
  - split_and!; try done. exists 0%nat. split_and!; [lia|by rewrite app_nil_r|done|done].
  - cbn [fmap option_fmap option_map pred].
    match goal with |- context [deliver ?l0 _ _] => specialize (IH l0 (Some k)); destruct (deliver l0 (Some k) frames) as [l' ok] end.
    destruct IH as (? & ? & ? & Hs & n & Hn & E & Hok & _). cbn in *. split_and!; try done.
    exists (S n). split_and!; [lia|by rewrite E, <- app_assoc| |done]. intros Hk. by rewrite Hok.
  - cbn [fmap option_fmap option_map].
    match goal with |- context [deliver ?l0 _ _] => specialize (IH l0 None); destruct (deliver l0 None frames) as [l' ok] end.
    destruct IH as (? & ? & ? & Hs & n & Hn & E & Hok & Hr). cbn in *. split_and!; try done.
    exists (S n). split_and!; [lia|by rewrite E, <- app_assoc| |auto]. intros Hk. by rewrite Hok.
Qed.

(** The bytes the events read, and the frames they ask to send. *)
Definition bytes_read (evs : list (option nat * LinkEvent)) : bytes :=
  concat ((fun e => match e.2 with Read bs => bs | _ => [] end) <$> evs).
Definition wires (evs : list (option nat * LinkEvent)) : bytes :=
  concat ((fun e => match e.2 with
                    | Outbound f _ _ => match encode_frame f with Ok w => w | Err _ => [] end
                    | _ => [] end) <$> evs).

End LinkLemmas.

Section LinkRun.
Context `{!PostcardOps MeshFrame} `{!CobsOps} `{!CrcOps}.

(** What a turn that keeps the link up did. *)
Lemma link_turn_up (l l' : Link) room ev s0 :
  link_turn l room ev = (l', None) -> lk_last l = stats (lk_deframer l) ->
  absorbed s0 (lk_stats l) (stats (lk_deframer l)) ->
  let bs := match ev with Read bs => bs | _ => [] end in
  lk_deframer l' = (push (lk_deframer l) bs).1 /\
  lk_inbound l' = lk_inbound l ++ (push (lk_deframer l) bs).2 /\
  lk_wire l' = lk_wire l ++ wires [(room, ev)] /\
  lk_last l' = stats (lk_deframer l') /\ absorbed s0 (lk_stats l') (stats (lk_deframer l')).
Proof.
  intros E Hl Ha. unfold wires. cbn [fmap list_fmap concat snd]. rewrite app_nil_r.
  destruct ev as [[|b bs]| |f wr fl|]; cbn [link_turn] in E; try done.
  - pose proof (absorb_step s0 (lk_stats l) (stats (lk_deframer l))) as Hstep.
    destruct (push (lk_deframer l) (b :: bs)) as [d frames]. cbn [fst snd].
    specialize (Hstep (stats d) Ha). rewrite <- Hl in Hstep.
    destruct (absorb_deframer_delta (lk_stats l) (stats d) (lk_last l)) as [s last] eqn:Eab.
    assert (last = stats d) as -> by (unfold absorb_deframer_delta in Eab; congruence).
    pose proof (deliver_shape (mkLinkState d (stats d) s (lk_inbound l) (lk_wire l)) room frames) as Hd.
    destruct (deliver _ room frames) as [l1 []]; [|done]. injection E as <-.
    destruct Hd as (Ed & El & Ew & Hs & n & _ & Ei & Hn & _). cbn in Ed, El, Ew, Ei, Hs, Hstep.
    rewrite (Hn eq_refl), firstn_all in Ei. rewrite Ed, El, Ew, Ei, app_nil_r.
    split_and!; try done. by apply Hs.
  - destruct (encode_frame f) as [w|]; [|injection E as <-; cbn; by rewrite !app_nil_r].
    destruct wr; [|done]. destruct fl; [|done]. injection E as <-. cbn. by rewrite app_nil_r.
Qed.

Lemma wires_cons e evs : wires (e :: evs) = wires [e] ++ wires evs.
Proof. unfold wires. cbn. by rewrite app_nil_r. Qed.

Lemma run_link_up (l l' : Link) evs s0 :
  run_link l evs = (l', None) -> lk_last l = stats (lk_deframer l) ->
  absorbed s0 (lk_stats l) (stats (lk_deframer l)) ->
  lk_deframer l' = (push (lk_deframer l) (bytes_read evs)).1 /\
  lk_inbound l' = lk_inbound l ++ (push (lk_deframer l) (bytes_read evs)).2 /\
  lk_wire l' = lk_wire l ++ wires evs /\ absorbed s0 (lk_stats l') (stats (lk_deframer l')).
Proof.
  revert l; induction evs as [|[room ev] evs IH]; intros l E Hl Ha; cbn [run_link] in E.
  { injection E as <-. cbn. by rewrite !app_nil_r. }
  destruct (link_turn l room ev) as [l1 [e|]] eqn:Et; [done|].
  destruct (link_turn_up l l1 room ev s0 Et Hl Ha) as (Hd & Hi & Hw & Hl1 & Ha1).
  destruct (IH l1 E Hl1 Ha1) as (Hd' & Hi' & Hw' & Ha').
  rewrite Hd', Hd in Ha'. revert Ha'. rewrite Hd', Hi', Hw', Hd, Hi, Hw, (wires_cons (room, ev) evs), <- !app_assoc.
  unfold bytes_read. cbn [fmap list_fmap concat snd]. rewrite push_app.
  destruct (push (lk_deframer l) _) as [d1 o1]. cbn [fst snd].
  fold (bytes_read evs). destruct (push d1 (bytes_read evs)) as [d2 o2]. cbn [fst snd]. intros Ha2.
  by split_and!.
Qed.

End LinkRun.

(** ** Properties *)

(** a bridge link is transparent and its totals are the link's.  While a
    link stays up, whatever order reads and sends interleave in, the consumer
    has received exactly the frames the byte stream holds, in order; the wire
    carries exactly the encodings of the frames sent, in order, the
    unencodable ones left out; and the lifetime counters have grown by exactly
    the counts of this link's deframer. *)
Theorem bridge_link_faithful `{!PostcardOps MeshFrame} `{!CobsOps} `{!CrcOps} (s0 : LinkStats)
    (evs : list (option nat * LinkEvent)) (l : Link) :
  is_u64 (ls_crc_fail s0) -> is_u64 (ls_decode_fail s0) -> is_u64 (ls_resyncs s0) ->
  is_u64 (ls_oversize_drops s0) ->
  run_link (link_start s0) evs = (l, None) ->
  lk_inbound l = (push deframer_new (bytes_read evs)).2 /\
  lk_wire l = wires evs /\
  absorbed s0 (lk_stats l) (stats (push deframer_new (bytes_read evs)).1).
Proof.
  intros H1 H2 H3 H4 E. destruct (run_link_up (link_start s0) l evs s0 E) as (Hd & Hi & Hw & Ha); [done| |].
  { unfold absorbed, as_u64. cbn. rewrite !Z.add_0_r.
    split_and!; symmetry; apply Z.mod_small; ulia. }
  cbn in Hd, Hi, Hw. by rewrite <- Hd.
Qed.

(** the two ends of the cable agree.  What a bridge link wrote while it
    stayed up, read by a fresh deframer at the other end in whatever chunks,
    is exactly the sequence of frames that were sent and could be encoded. *)
Theorem bridge_to_board_roundtrip `{PostcardLaws MeshFrame} `{CobsLaws} `{CrcLaws} (s0 : LinkStats)
    (evs : list (option nat * LinkEvent)) (l : Link) :
  run_link (link_start s0) evs = (l, None) ->
  (push deframer_new (lk_wire l)).2 =
  omap (fun e => match e.2 with
                 | Outbound f _ _ => if is_ok (encode_frame f) then Some f else None
                 | _ => None end) evs.
Proof.
  intros E.
  assert (forall l l' : Link, run_link l evs = (l', None) -> lk_wire l' = lk_wire l ++ wires evs) as Hw.
  { clear. induction evs as [|[room ev] evs IH]; intros l l' E; cbn [run_link] in E.
    { injection E as <-. cbn. by rewrite app_nil_r. }
    destruct (link_turn l room ev) as [l1 [e|]] eqn:Et; [done|]. rewrite (IH _ _ E), wires_cons, app_assoc.
    f_equal. revert Et. clear. unfold wires. cbn. rewrite app_nil_r.
    destruct ev as [[|b bs]| |f wr fl|]; try done; cbn [link_turn].
    - destruct (push (lk_deframer l) (b :: bs)) as [d frames].
      destruct (absorb_deframer_delta _ _ _) as [s last].
      pose proof (deliver_shape (mkLinkState d last s (lk_inbound l) (lk_wire l)) room frames) as Hd.
      destruct (deliver _ room frames) as [l2 []]; [|done]. intros [= <-]. rewrite app_nil_r. by apply Hd.
    - destruct (encode_frame f); [|intros [= <-]; by rewrite app_nil_r].
      destruct wr; [|done]. destruct fl; [|done]. by intros [= <-]. }
  rewrite (Hw _ _ E). cbn [lk_wire link_start app].
  set (sent_of := fun e : option nat * LinkEvent => match e.2 with
        | Outbound f _ _ => if is_ok (encode_frame f) then Some f else None | _ => None end).
  assert (exists ws, wires evs = concat ws /\ Forall2 (fun f w => encode_frame f = Ok w) (omap sent_of evs) ws)
    as (ws & -> & Hall).
  { clear. induction evs as [|[room ev] evs (ws & E & Hall)]; [by exists []|]. rewrite wires_cons, E.
    destruct ev as [bs| |f wr fl|]; try by (exists ws).
    unfold wires. cbn. destruct (encode_frame f) as [w|] eqn:Ef; [|by exists ws].
    exists (w :: ws). cbn. rewrite app_nil_r. split; [done|]. by constructor. }
  apply push_stream; done.
Qed.

(** the backoff doubles from 250 ms to a cap of 5 s and never shrinks, and
    a link that moved a frame or lived five seconds starts over at 250 ms. *)
Theorem backoff_schedule (attempt elapsed rx0 rx1 : Z) :
  0 <= attempt ->
  250 <= backoff_ms attempt <= 5000 /\ backoff_ms attempt <= backoff_ms (attempt + 1) /\
  (attempt <= 4 -> backoff_ms attempt = 250 * 2 ^ attempt) /\ (5 <= attempt -> backoff_ms attempt = 5000) /\
  (5000 <= elapsed \/ rx0 < rx1 -> after_link attempt elapsed rx0 rx1 = (1, 250)).
Proof.
  intros Ha. pose proof (backoff_values attempt Ha) as Hv.
  pose proof (backoff_values (attempt + 1) ltac:(lia)) as Hv'.
  split; [lia|]. split; [lia|]. split; [|split; [lia|]].
  - intros Hle. assert (attempt = 0 \/ attempt = 1 \/ attempt = 2 \/ attempt = 3 \/ attempt = 4) as Hc by lia.
    destruct Hc as [->|[->|[->|[->| ->]]]]; reflexivity.
  - intros Hup. unfold after_link.
    assert ((5000 <=? elapsed) || (rx0 <? rx1) = true) as -> by lia. done.
Qed.

(** a provision counter is never handed out twice.  Over any sequence of
    tool runs on the counter file, with writes and renames that may fail, the
    counters returned are consecutive, starting just above what the file
    records (1 when there is no file), up to the [u64] bound. *)
Theorem provision_counters_consecutive (tries : list (bool * bool)) (path : CtrFile) (p : Z) :
  cf_readable path = true ->
  (cf_text path = None /\ p = 0 \/ cf_text path = Some (dec_text p ++ [10])) ->
  0 <= p -> p + zlen tries <= u64_max ->
  let got := (provision_all path tries).2 in
  forall i, (i < length got)%nat -> got !! i = Some (p + 1 + Z.of_nat i).
Proof.
  revert path p; induction tries as [|[w r] tries IH]; intros path p Hr Ht Hp Hmax got; [cbn; lia|].
  rewrite zlen_cons in Hmax. pose proof (zlen_nonneg tries) as Hlen. unfold got. cbn [provision_all].
  assert (take_provision_ctr path w r =
          (if w && r then mkCtrFile (Some (dec_text (p + 1) ++ [10])) true else path,
           if w then if r then Ok (p + 1) else Err RenameError else Err WriteError)) as ->.
  { unfold take_provision_ctr. rewrite Hr. cbn [negb].
    assert (match cf_text path with
            | Some s => match parse_u64 (trim s) with Some n => Ok (Some n) | None => Err InvalidData end
            | None => Ok None end = Ok (E := CtrError) (match cf_text path with Some _ => Some p | None => None end)) as ->.
    { destruct Ht as [[-> ->]| ->]; [done|]. by rewrite parse_trim_dec by ulia. }
    assert (next_provision_ctr (match cf_text path with Some _ => Some p | None => None end) = p + 1) as ->.
    { unfold next_provision_ctr. destruct Ht as [[-> ->]| ->]; cbn; ulia. }
    by destruct w, r. }
  destruct (w && r) eqn:Ewr.
  - apply andb_true_iff in Ewr as [-> ->].
    specialize (IH (mkCtrFile (Some (dec_text (p + 1) ++ [10])) true) (p + 1) eq_refl (or_intror eq_refl)).
    destruct (provision_all _ tries) as [path' got']. cbn [snd] in *.
    intros [|i] Hi; [cbn; f_equal; lia|]. cbn in Hi |- *. rewrite IH by lia. f_equal. lia.
  - specialize (IH path p Hr Ht Hp ltac:(lia)). destruct (provision_all path tries) as [path' got'].
    destruct w, r; try done.
Qed.

(** ** Witnesses *)

Definition demo_events : list (option nat * LinkEvent) :=
  [(None, Read (take 3 (toy_wire frame_a))); (None, Outbound frame_b true true);
   (None, Read (drop 3 (toy_wire frame_a) ++ [7; 0]))].
Definition demo_link : Link := (run_link (link_start link_stats_default) demo_events).1.

Lemma bridge_link_faithful_witness :
  lk_inbound demo_link = [frame_a] /\ lk_wire demo_link = toy_wire frame_b.
Proof.
  destruct (bridge_link_faithful link_stats_default demo_events demo_link) as (H1 & H2 & _);
    [cbn; ulia|cbn; ulia|cbn; ulia|cbn; ulia|vm_compute; reflexivity|].
  split; [rewrite H1|rewrite H2]; vm_compute; reflexivity.
Defined.

Lemma bridge_to_board_roundtrip_witness : (push deframer_new (lk_wire demo_link)).2 = [frame_b].
Proof.
  rewrite (bridge_to_board_roundtrip link_stats_default demo_events demo_link); vm_compute; reflexivity.
Defined.

Lemma backoff_schedule_witness : 250 <= backoff_ms 3 <= 5000 /\ backoff_ms 3 = 2000.
Proof. split; [apply (backoff_schedule 3 0 0 0); lia|reflexivity]. Defined.

Lemma provision_counters_consecutive_witness :
  (provision_all (mkCtrFile None true) [(true, true); (false, true); (true, true)]).2 !! 1%nat = Some 2.
Proof.
  apply (provision_counters_consecutive [(true, true); (false, true); (true, true)] (mkCtrFile None true) 0);
    [done|by left|lia|vm_compute; discriminate|vm_compute; lia].
Defined.
