(* ===== verification/Confine.v ===== *)
(** * Path confinement

    [apexos-confine/src/lib.rs].  A path is the sequence of components
    [std::path] reads in its text, with the fact whether the text ends in a
    separator (only a directory resolves then).  [std::fs::canonicalize] is
    the file system's: the class [FsOps]. *)
From S2P Require Import Prelude Wire Text.

Inductive Component := RootDir | CurDir | ParentDir | Normal (name : text).

#[export] Instance Component_eq_dec : EqDecision Component.
Proof. solve_decision. Defined.

Record Path := mkPath { components : list Component; dir_only : bool }.

#[export] Instance Path_eq_dec : EqDecision Path.
Proof. solve_decision. Defined.

(** [Path::components]: empty segments and inner [.] segments vanish. *)
Definition segment (s : text) : list Component :=
  if bool_decide (s = []) then []
  else if bool_decide (s = chars ".") then []
  else if bool_decide (s = chars "..") then [ParentDir]
  else [Normal s].

Definition path_new (s : text) : Path :=
  let segs := split_on 47 s in
  let front :=
    match segs with
    | x :: rest =>
        if bool_decide (x = []) then match rest with [] => [] | _ => [RootDir] end
        else if bool_decide (x = chars ".") then [CurDir] else segment x
    | [] => []
    end in
  let final := default [] (last segs) in
  mkPath (front ++ concat (segment <$> tail segs))
         (bool_decide (final = []) || bool_decide (final = chars ".")).

(** [Path::parent] and [Path::file_name], on the components back to front. *)
Definition parent_of (p : Path) : option Path :=
  match rev (components p) with
  | [] | RootDir :: _ => None
  | _ :: rest => Some (mkPath (rev rest) false)
  end.

Definition file_name (p : Path) : option text :=
  match last (components p) with Some (Normal n) => Some n | _ => None end.

(** [PathBuf::push] of one plain name. *)
Definition path_push (p : Path) (n : text) : Path := mkPath (components p ++ [Normal n]) false.

(** [Path::starts_with]: by whole components. *)
Definition path_starts_with (p base : Path) : bool :=
  bool_decide (components base `prefix_of` components p).

(** [std::fs::canonicalize]; its documentation: absolute, every link
    resolved, no [.] or [..] left. *)
Class FsOps := { canonicalize : Path -> option Path }.

Definition canonical (p : Path) : Prop :=
  exists ns, p = mkPath (RootDir :: (Normal <$> ns)) false.

Class FsLaws `{!FsOps} := { canonicalize_canonical p c : canonicalize p = Some c -> canonical c }.

Inductive Access := Read | Write.

Inductive Denied :=
  | Traversal
  | Unresolvable (p : Path)
  | OutsideWorkspace (workspace path : Path)
  | Secret (p : Path)
  | OutsideReadAllowlist (p : Path)
  | OutsideRoots (p : Path).

Definition has_traversal (path : Path) : bool :=
  existsb (fun c => bool_decide (c = ParentDir)) (components path).

Section confine.
Context `{!FsOps}.

(** The [while let Some(parent)] loop, on the components of [cur] back to
    front: structural, because [parent] drops the last one. *)
Fixpoint lenient_loop (rc : list Component) (suffix : list text) : option Path :=
  match rc with
  | [] | RootDir :: _ => None
  | c :: rest =>
      let suffix := match c with Normal n => suffix ++ [n] | _ => suffix end in
      match canonicalize (mkPath (rev rest) false) with
      | Some base => Some (fold_left path_push (rev suffix) base)
      | None => lenient_loop rest suffix
      end
  end.

Definition canonicalize_lenient (path : Path) : option Path :=
  match canonicalize path with
  | Some c => Some c
  | None => lenient_loop (rev (components path)) []
  end.

(** The loop over [read_roots]. *)
Definition in_read_roots (canon : Path) (read_roots : list Path) : bool :=
  existsb (fun root => path_starts_with canon (default root (canonicalize root))) read_roots.

Definition confine_fs (requested : Path) (access : Access) (workspace : Path)
    (read_roots : list Path) (is_secret : Path -> bool) : result Path Denied :=
  if has_traversal requested then Err Traversal else
  match canonicalize_lenient requested with
  | None => Err (Unresolvable requested)
  | Some canon =>
      if is_secret canon then Err (Secret canon) else
      if path_starts_with canon workspace then Ok canon else
      match access with
      | Write => Err (OutsideWorkspace workspace canon)
      | Read => if in_read_roots canon read_roots then Ok canon
                else Err (OutsideReadAllowlist canon)
      end
  end.

Definition confine_to_roots (requested : Path) (roots : list Path) : result Path Denied :=
  if has_traversal requested then Err Traversal else
  match canonicalize_lenient requested with
  | None => Err (Unresolvable requested)
  | Some canon =>
      if existsb (path_starts_with canon) roots then Ok canon else Err (OutsideRoots canon)
  end.
End confine.

(** ** Lemmas *)

Lemma has_traversal_spec p : has_traversal p = true <-> ParentDir ∈ components p.
Proof.
  unfold has_traversal. rewrite existsb_exists. split.
  - intros (c & Hin & Hc). apply bool_decide_eq_true in Hc. subst. by apply list_elem_of_In.
  - intros Hin. exists ParentDir. split; [by apply list_elem_of_In|]. by apply bool_decide_eq_true.
Qed.

Lemma path_starts_with_spec p b : path_starts_with p b = true <-> components b `prefix_of` components p.
Proof. apply bool_decide_eq_true. Qed.

Lemma components_push_all base ns :
  components (fold_left path_push ns base) = components base ++ (Normal <$> ns).
Proof.
  revert base. induction ns as [|n ns IH]; intros base; cbn [fold_left fmap list_fmap].
  - by rewrite app_nil_r.
  - rewrite IH. unfold path_push. cbn [components]. by rewrite <- app_assoc.
Qed.

Lemma push_all_canonical base ns : canonical base -> canonical (fold_left path_push ns base).
Proof.
  revert base. induction ns as [|n ns IH]; intros base Hb; cbn [fold_left]; [done|].
  apply IH. destruct Hb as (ms & ->). exists (ms ++ [n]).
  unfold path_push. cbn [components]. by rewrite fmap_app.
Qed.

Section facts.
Context `{!FsOps}.

Definition plain (c : Component) : option text := match c with Normal n => Some n | _ => None end.

Lemma lenient_loop_spec rc suffix p :
  lenient_loop rc suffix = Some p ->
  exists cut rest base,
    rev rc = cut ++ rest /\ rest <> [] /\ canonicalize (mkPath cut false) = Some base /\
    p = fold_left path_push (omap plain rest ++ rev suffix) base /\
    (forall k, (length cut < k < length rc)%nat -> canonicalize (mkPath (take k (rev rc)) false) = None).
Proof.
  revert suffix. induction rc as [|c rc IH]; intros suffix; cbn [lenient_loop]; [done|].
  assert (Hc : forall (f : option Path), (if bool_decide (c = RootDir) then None else f) = Some p ->
                 match c with RootDir => None | _ => f end = f).
  { intros f. case_bool_decide; [done|]. by destruct c. }
  set (suf := match c with Normal n => suffix ++ [n] | _ => suffix end).
  intros Hr.
  assert (Hr' : match canonicalize (mkPath (rev rc) false) with
                | Some base => Some (fold_left path_push (rev suf) base)
                | None => lenient_loop rc suf end = Some p).
  { subst suf. by destruct c. }
  assert (Hsuf : rev suf = omap plain [c] ++ rev suffix).
  { subst suf. destruct c; cbn [plain omap list_omap]; try done. by rewrite rev_app_distr. }
  clear Hr Hc. destruct (canonicalize (mkPath (rev rc) false)) as [base|] eqn:E.
  - injection Hr' as <-. exists (rev rc), [c], base. repeat split; try done.
    + by rewrite Hsuf.
    + intros k. rewrite length_rev. cbn [length]. lia.
  - destruct (IH suf Hr') as (cut & rest & base & Hcs & Hne & Hb & Hp & Hno).
    exists cut, (rest ++ [c]), base. cbn [rev]. rewrite Hcs. repeat split.
    + by rewrite app_assoc.
    + intros Hn. by apply app_eq_nil in Hn as [_ ?].
    + done.
    + rewrite Hp, Hsuf, omap_app. by rewrite <- app_assoc.
    + intros k Hk. cbn [length] in Hk.
      assert (Hlen : length (cut ++ rest) = length rc) by (rewrite <- Hcs; apply length_rev).
      rewrite take_app_le by lia.
      destruct (decide (k = length rc)) as [->|].
      * rewrite <- Hlen, firstn_all, <- Hcs. done.
      * rewrite <- Hcs. apply Hno. lia.
Qed.

Lemma lenient_loop_canonical `{!FsLaws} rc suffix p : lenient_loop rc suffix = Some p -> canonical p.
Proof.
  intros (cut & rest & base & _ & _ & Hb & -> & _)%lenient_loop_spec.
  apply push_all_canonical. by eapply canonicalize_canonical.
Qed.

Lemma canonicalize_lenient_canonical `{!FsLaws} p c : canonicalize_lenient p = Some c -> canonical c.
Proof.
  unfold canonicalize_lenient. destruct (canonicalize p) eqn:E.
  - intros [= <-]. by eapply canonicalize_canonical.
  - apply lenient_loop_canonical.
Qed.

Lemma in_read_roots_spec canon roots :
  in_read_roots canon roots = true <->
  exists r, r ∈ roots /\ components (default r (canonicalize r)) `prefix_of` components canon.
Proof.
  unfold in_read_roots. rewrite existsb_exists. split; intros (r & Hin & Hr); exists r.
  - rewrite path_starts_with_spec in Hr. by rewrite list_elem_of_In.
  - rewrite path_starts_with_spec. by rewrite <- list_elem_of_In.
Qed.
End facts.

(** C37: A path [confine_fs] hands back is absolute with neither [.] nor [..],
    is what the request resolves to, is not in the secret set, and lies under
    the workspace by whole components — or, for a read only, under a
    resolved read root. *)
Theorem confine_fs_contains `{!FsOps} `{!FsLaws} (requested : Path) (access : Access)
    (workspace : Path) (read_roots : list Path) (is_secret : Path -> bool) (p : Path)
    (Hok : confine_fs requested access workspace read_roots is_secret = Ok p) :
  canonical p /\ (ParentDir ∉ components requested) /\
  canonicalize_lenient requested = Some p /\ is_secret p = false /\
  (components workspace `prefix_of` components p \/
   access = Read /\ exists r, r ∈ read_roots /\
     components (default r (canonicalize r)) `prefix_of` components p).
Proof.
  revert Hok. unfold confine_fs. destruct (has_traversal requested) eqn:Ht; [done|].
  destruct (canonicalize_lenient requested) as [c|] eqn:Ec; [|done].
  destruct (is_secret c) eqn:Es; [done|].
  assert (Hnt : ParentDir ∉ components requested).
  { intros Hin%has_traversal_spec. congruence. }
  pose proof (canonicalize_lenient_canonical _ _ Ec) as Hcan.
  destruct (path_starts_with c workspace) eqn:Ew.
  - intros [= <-]. apply path_starts_with_spec in Ew. by eauto 6.
  - destruct access; [|done]. destruct (in_read_roots c read_roots) eqn:Er; [|done].
    intros [= <-]. apply in_read_roots_spec in Er. by eauto 8.
Qed.

(** The lenient resolution: a request that resolves is its resolution;
    otherwise the result is the resolution of the longest proper prefix that
    resolves, followed by the plain names after it. *)
Theorem canonicalize_lenient_deepest `{!FsOps} (p c : Path)
    (Hok : canonicalize_lenient p = Some c) :
  canonicalize p = Some c \/
  canonicalize p = None /\
  exists cut rest base,
    components p = cut ++ rest /\ rest <> [] /\ canonicalize (mkPath cut false) = Some base /\
    components c = components base ++ (Normal <$> omap plain rest) /\
    (forall k, (length cut < k < length (components p))%nat ->
       canonicalize (mkPath (take k (components p)) false) = None).
Proof.
  revert Hok. unfold canonicalize_lenient. destruct (canonicalize p) as [x|] eqn:E.
  - intros [= <-]. by left.
  - intros (cut & rest & base & Hcs & Hne & Hb & -> & Hno)%lenient_loop_spec. right. split; [done|].
    rewrite rev_involutive in Hcs, Hno. rewrite length_rev in Hno.
    exists cut, rest, base. repeat split; try done.
    rewrite components_push_all. cbn [rev]. by rewrite app_nil_r.
Qed.

(** A name in the workspace that does not resolve — a link to a missing
    target included — is confined by its name alone. *)
Lemma unresolved_name_is_allowed `{!FsOps} (cs : list Component) (n : text) (d : bool) (base ws : Path)
    (roots : list Path) (secret : Path -> bool) (Hnt : ParentDir ∉ cs)
    (Hp : canonicalize (mkPath (cs ++ [Normal n]) d) = None)
    (Hb : canonicalize (mkPath cs false) = Some base)
    (Hw : components ws `prefix_of` components base)
    (Hs : secret (path_push base n) = false) :
  confine_fs (mkPath (cs ++ [Normal n]) d) Write ws roots secret = Ok (path_push base n).
Proof.
  unfold confine_fs. destruct (has_traversal _) eqn:Ht.
  { apply has_traversal_spec in Ht. cbn [components] in Ht. set_solver. }
  unfold canonicalize_lenient. rewrite Hp. cbn [components]. rewrite rev_app_distr.
  change (rev [Normal n]) with [Normal n]. cbn [app lenient_loop]. rewrite rev_involutive, Hb.
  cbn [rev app fold_left]. rewrite Hs.
  replace (path_starts_with _ _) with true; [done|]. symmetry. apply path_starts_with_spec.
  unfold path_push. cbn [components]. by apply prefix_app_r.
Qed.

(** ** A small file system *)

(** [/w] and [/w/a] exist; [/w/out] is a link to [/etc]. *)
Definition abs (ns : list text) : Path := mkPath (RootDir :: (Normal <$> ns)) false.

Definition toy_canonicalize (p : Path) : option Path :=
  if bool_decide (components p = components (abs [])) then Some (abs [])
  else if bool_decide (components p = components (abs [chars "w"])) then Some (abs [chars "w"])
  else if bool_decide (components p = components (abs [chars "w"; chars "a"]))
       then Some (abs [chars "w"; chars "a"])
  else if bool_decide (components p = components (abs [chars "w"; chars "out"]))
       then Some (abs [chars "etc"])
  else None.

#[export] Instance toy_fs : FsOps := {| canonicalize := toy_canonicalize |}.

#[export] Instance toy_fs_laws : FsLaws.
Proof.
  constructor. intros p c. unfold canonicalize, toy_fs, toy_canonicalize.
  repeat case_bool_decide; intros Hc; try done; injection Hc as <-; by eexists.
Qed.

Example path_new_examples :
  components (path_new (chars "/w/./a//b/")) = [RootDir; Normal (chars "w"); Normal (chars "a"); Normal (chars "b")] /\
  dir_only (path_new (chars "/w/a/")) = true /\
  components (path_new (chars "./x/../y")) = [CurDir; Normal (chars "x"); ParentDir; Normal (chars "y")] /\
  components (path_new (chars "/")) = [RootDir] /\ components (path_new []) = [].
Proof. repeat split; vm_compute; reflexivity. Qed.

Example confine_examples :
  let ws := abs [chars "w"] in
  confine_fs (path_new (chars "/w/a/new.txt")) Write ws [] (fun _ => false)
    = Ok (abs [chars "w"; chars "a"; chars "new.txt"]) /\
  confine_fs (path_new (chars "/w/out/passwd")) Write ws [] (fun _ => false)
    = Err (OutsideWorkspace ws (abs [chars "etc"; chars "passwd"])) /\
  confine_fs (path_new (chars "/w/../etc")) Write ws [] (fun _ => false) = Err Traversal.
Proof. repeat split; vm_compute; reflexivity. Qed.

Lemma confine_fs_contains_witness :
  let p := abs [chars "w"; chars "a"; chars "n"] in
  components (abs [chars "w"]) `prefix_of` components p \/
  Write = Read /\ exists r, r ∈ @nil Path /\
     components (default r (canonicalize r)) `prefix_of` components p.
Proof.
  intros p.
  apply (confine_fs_contains (path_new (chars "/w/a/n")) Write (abs [chars "w"]) [] (fun _ => false) p).
  vm_compute. reflexivity.
Defined.

Lemma canonicalize_lenient_deepest_witness :
  let p := path_new (chars "/w/out/x/y") in let c := abs [chars "etc"; chars "x"; chars "y"] in
  canonicalize p = Some c \/
  canonicalize p = None /\
  exists cut rest base,
    components p = cut ++ rest /\ rest <> [] /\ canonicalize (mkPath cut false) = Some base /\
    components c = components base ++ (Normal <$> omap plain rest) /\
    (forall k, (length cut < k < length (components p))%nat ->
       canonicalize (mkPath (take k (components p)) false) = None).
Proof. intros p c. apply (canonicalize_lenient_deepest p c). vm_compute. reflexivity. Defined.
