(* ===== verification/Policy.v ===== *)
(** * The approval policy and the ownership of tool names

    [agentd/crates/plugins/src/policy.rs] and [tool_claim.rs], with
    [PolicyMode] of [apexos-protocol/src/lib.rs].  The [HashMap] of rules is
    the list of its entries in the order it iterates (distinct keys, any
    order); the registry is a [gmap].  TOML and JSON are third-party:
    [PolicyTomlOps] and [JsonArgs].  The workspace variable of the process is
    an argument, the file system is [Confine.FsOps]. *)
From stdpp Require Import sorting.
From S2P Require Import Prelude Wire Text Confine.

Inductive PolicyMode := Suggest | AutoEdit | Yolo.

#[export] Instance PolicyMode_eq_dec : EqDecision PolicyMode.
Proof. solve_decision. Defined.

Definition as_toml_str (m : PolicyMode) : text :=
  match m with
  | Suggest => chars "suggest"
  | AutoEdit => chars "auto-edit"
  | Yolo => chars "yolo"
  end.

Definition from_api (s : text) : option PolicyMode :=
  if bool_decide (s = chars "suggest") then Some Suggest
  else if bool_decide (s = chars "auto-edit") then Some AutoEdit
  else if bool_decide (s = chars "yolo") then Some Yolo
  else None.

Inductive Rule := RuleAllow | RuleAsk | RuleWorkspace.

#[export] Instance Rule_eq_dec : EqDecision Rule.
Proof. solve_decision. Defined.

Inductive Decision := Allow | Ask.

#[export] Instance Decision_eq_dec : EqDecision Decision.
Proof. solve_decision. Defined.

Record SubagentsConfig := mkSubagents {
  max_depth : Z;
  max_concurrent : Z;
  inherit_mode : bool
}.

Definition subagents_default : SubagentsConfig := mkSubagents 4 16 true.

Record PolicyConfig := mkPolicy {
  mode : PolicyMode;
  rules : list (text * Rule);
  subagents : SubagentsConfig
}.

(** [toml_edit]'s parse, assignment to [mode] and print, and [toml]'s
    deserialization of the whole document. *)
Class PolicyTomlOps := {
  toml_with_mode : text -> text -> option text;
  policy_parse : text -> option PolicyConfig
}.

Inductive ModeEditError := TomlParse | RejectedEdit | NoRoundTrip.

Definition policy_toml_set_mode `{!PolicyTomlOps} (toml_text : text) (m : PolicyMode)
    : result (text * PolicyConfig) ModeEditError :=
  match toml_with_mode toml_text (as_toml_str m) with
  | None => Err TomlParse
  | Some new_toml =>
      match policy_parse new_toml with
      | None => Err RejectedEdit
      | Some config => if bool_decide (mode config = m) then Ok (new_toml, config) else Err NoRoundTrip
      end
  end.

(** ** Who may advertise a name *)

Inductive NameOwner := OwnVirtual | OwnPlugin (id : text) | OwnToolsFamily.

#[export] Instance NameOwner_eq_dec : EqDecision NameOwner.
Proof. solve_decision. Defined.

Inductive ClaimError := ClaimVirtual | Reserved (expected : text) | Duplicate (owner : text).

Definition is_tools_family (plugin_id : text) : bool :=
  bool_decide (plugin_id = chars "apexos-tools") || bool_decide (plugin_id = chars "apexos-net")
  || bool_decide (plugin_id = chars "apexos-dev").

Definition VIRTUAL : list text := chars <$> [
   "agent_spawn"; "apply_daemon_update"; "bootstrap_node"; "cancel_schedule";
   "cancel_wakeup"; "convene_council"; "courier_cancel"; "courier_queue"; "courier_status";
   "goal_cancel"; "goal_create"; "goal_resume"; "goal_step"; "list_goals";
   "list_mesh_peers"; "list_schedules"; "list_wakeups"; "list_workers"; "mandala_close";
   "mandala_create"; "mandala_status"; "mesh_capabilities"; "mesh_file_send";
   "mesh_memory_send"; "mesh_procedure_send"; "mesh_recall"; "propose_evolution";
   "query_event_log"; "read_soul_md"; "rollback_evolution"; "schedule_task";
   "schedule_wakeup"; "send_to_agent"; "session_list"; "session_search"; "soul_rehearse";
   "task_fanout"; "vast_destroy"; "vast_launch"; "vast_list_recipes"; "vast_status";
   "worker_cancel"; "worker_report"]%string.

Definition CEREBRO : list text := chars <$> [
   "activation_at_risk"; "activation_curve"; "activation_heatmap"; "associate";
   "audit_summary"; "bulk_delete"; "check_inbox"; "check_near_duplicates";
   "cognitive_bootstrap"; "common_neighbors"; "cortex_stats"; "create_schema";
   "delete_memory"; "delete_tag"; "describe_image"; "dream_run"; "dream_status";
   "emotional_summary"; "episode_add_step"; "episode_end"; "episode_start";
   "export_memories"; "find_by_tags"; "find_matching_schemas"; "find_path";
   "find_relevant_procedures"; "get_episode"; "get_episode_memories"; "get_memory";
   "get_memory_versions"; "get_schema_sources"; "get_thread_memories"; "ingest_file";
   "list_agents"; "list_deleted"; "list_episodes"; "list_intentions"; "list_procedures";
   "list_schemas"; "list_tags"; "list_threads"; "memory_graph_stats"; "memory_health";
   "memory_neighbors"; "memory_search"; "memory_store"; "merge_tags"; "prune_thread";
   "purge_all_deleted"; "purge_memory"; "query_audit"; "recall";
   "record_procedure_outcome"; "register_agent"; "remember"; "rename_tag";
   "resolve_intention"; "restore_memory"; "restore_version"; "search_vision";
   "send_message"; "session_recall"; "session_save"; "share_memory"; "store_intention";
   "store_procedure"; "update_memory"]%string.

Definition APEXOS_TOOLS : list text := chars <$> [
   "audio_analyze"; "audio_clean"; "audio_normalize"; "audio_peak_limit"; "audio_trim";
   "audio_trim_silence"; "camera_capture"; "cpu_temp"; "create_dir"; "delete_path";
   "disk_usage"; "display_face"; "eject_media"; "git_branch"; "git_checkout"; "git_commit";
   "git_diff"; "git_init"; "git_log"; "git_merge"; "git_push"; "git_reset"; "git_status";
   "git_worktree"; "gpio_info"; "gpio_pulse"; "gpio_pwm"; "gpio_read"; "gpio_servo";
   "gpio_write"; "http_fetch"; "list_dir"; "memory_info"; "notes_append"; "notes_list";
   "notes_read"; "notify"; "read_file"; "run_command"; "screenshot_mirror"; "sketch_draw";
   "sketch_snapshot"; "ui_arrange"; "ui_close"; "ui_focus"; "ui_open"; "ui_query";
   "ui_reflex"; "ui_theme"; "uptime"; "write_file"]%string.

Definition OCCIPITAL : list text := chars <$> [
   "web_click"; "web_distill"; "web_dom"; "web_fetch"; "web_forget"; "web_recall";
   "web_related"; "web_save"; "web_search"; "web_submit"]%string.

Definition IMAGINARIUM : list text := chars <$> [
   "imaginarium_craft_video"; "imaginarium_estimate"; "imaginarium_image_edit";
   "imaginarium_image_generate"; "imaginarium_job_status"; "imaginarium_job_wait";
   "imaginarium_jobs_list"; "imaginarium_models"; "imaginarium_video_edit";
   "imaginarium_video_extend"; "imaginarium_video_generate"]%string.

Definition SONUS : list text := chars <$> [
   "check_status"; "download_track"; "generate_song"]%string.

Definition name_owner (name : text) : option NameOwner :=
  if bool_decide (name ∈ VIRTUAL) then Some OwnVirtual
  else if bool_decide (name ∈ CEREBRO) then Some (OwnPlugin (chars "cerebro"))
  else if bool_decide (name ∈ APEXOS_TOOLS) then Some OwnToolsFamily
  else if bool_decide (name ∈ OCCIPITAL) then Some (OwnPlugin (chars "occipital"))
  else if bool_decide (name ∈ IMAGINARIUM) then Some (OwnPlugin (chars "imaginarium"))
  else if bool_decide (name ∈ SONUS) then Some (OwnPlugin (chars "sonus"))
  else if starts_with (chars "aditus_") name then Some (OwnPlugin (chars "aditus"))
  else None.

Definition claim_tool_name (name claimant : text) (registry : gmap text text) : result unit ClaimError :=
  let duplicate :=
    match registry !! name with
    | Some owner => if bool_decide (owner = claimant) then Ok tt else Err (Duplicate owner)
    | None => Ok tt
    end in
  match name_owner name with
  | Some OwnVirtual => Err ClaimVirtual
  | Some (OwnPlugin expected) =>
      if bool_decide (claimant = expected) then duplicate else Err (Reserved expected)
  | Some OwnToolsFamily =>
      if is_tools_family claimant then duplicate
      else Err (Reserved (chars "apexos-tools|apexos-net|apexos-dev"))
  | None => duplicate
  end.

Definition stamps_agent_id (plugin_id tool : text) : bool :=
  bool_decide (plugin_id = chars "cerebro")
  || bool_decide (name_owner tool = Some (OwnPlugin (chars "cerebro"))).

Definition stamps_workspace (plugin_id tool : text) : bool :=
  is_tools_family plugin_id || bool_decide (name_owner tool = Some OwnToolsFamily).

Definition stolen_allowlist (tool : text) (plugin : option text) : bool :=
  match name_owner tool with
  | Some OwnVirtual => bool_decide (is_Some plugin)
  | Some (OwnPlugin expected) =>
      match plugin with Some p => negb (bool_decide (p = expected)) | None => false end
  | Some OwnToolsFamily => match plugin with Some p => negb (is_tools_family p) | None => false end
  | None => false
  end.

(** [spawn_plugin]'s loop over the advertised tools: the registry afterwards
    and the names accepted. *)
Definition register_one (id : text) (acc : gmap text text * list text) (name : text)
    : gmap text text * list text :=
  match claim_tool_name name id (fst acc) with
  | Ok _ => (<[name := id]> (fst acc), snd acc ++ [name])
  | Err _ => acc
  end.

Definition register_tools (registry : gmap text text) (id : text) (advertised : list text)
    : gmap text text * list text :=
  foldl (register_one id) (registry, []) advertised.

(** [tool_registry.retain(|_, owner| owner != &id)]. *)
Definition release_tools (registry : gmap text text) (id : text) : gmap text text :=
  filter (fun e => e.2 <> id) registry.

(** ** Rule evaluation *)

Definition strip_suffix (p s : text) : option text := (fun r => rev r) <$> strip_prefix (rev p) (rev s).

Definition matches_wildcard (pattern tool : text) : bool :=
  if bool_decide (pattern = tool) then true
  else match strip_suffix (chars ".*") pattern with
       | Some prefix => starts_with (prefix ++ chars ".") tool
       | None => false
       end.

Definition rules_get (tool_name : text) (rs : list (text * Rule)) : option Rule :=
  snd <$> List.find (fun e => bool_decide (e.1 = tool_name)) rs.

Definition find_rule (c : PolicyConfig) (tool_name : text) : option Rule :=
  match rules_get tool_name (rules c) with
  | Some r => Some r
  | None => snd <$> List.find (fun e => matches_wildcard e.1 tool_name) (rules c)
  end.

Section policy.
Context `{!FsOps}.

(** [workspace_var]: [std::env::var("AGENTD_WORKSPACE")]. *)
Definition workspace_decision (workspace_var : option text) (path : option text) : Decision :=
  match path with
  | None => Ask
  | Some p =>
      if str_contains (chars "..") p then Ask else
      match workspace_var with
      | None => Ask
      | Some ws =>
          if bool_decide (ws = []) then Ask else
          let ws_canon := default (path_new ws) (canonicalize (path_new ws)) in
          match canonicalize_lenient (path_new p) with
          | None => Ask
          | Some tgt_canon => if path_starts_with tgt_canon ws_canon then Allow else Ask
          end
      end
  end.

Definition apply_rule (workspace_var : option text) (r : option Rule) (path : option text) : Decision :=
  match r with
  | None => Ask
  | Some RuleAllow => Allow
  | Some RuleAsk => Ask
  | Some RuleWorkspace => workspace_decision workspace_var path
  end.

Definition check_for (workspace_var : option text) (c : PolicyConfig) (tool_name : text)
    (plugin path : option text) : Decision :=
  if bool_decide (mode c = Yolo) then Allow
  else if stolen_allowlist tool_name plugin then Ask
  else apply_rule workspace_var (find_rule c tool_name) path.

Definition check (workspace_var : option text) (c : PolicyConfig) (tool_name : text)
    (path : option text) : Decision := check_for workspace_var c tool_name None path.
End policy.

(** ** The yolo grant *)

(** What the policy uses of [serde_json::Value]: [get] of a key (nothing on
    a value that is not an object), the scalar views, removal and insertion
    into an object. *)
Class JsonArgs (V : Type) := {
  json_get : V -> text -> option V;
  json_as_str : V -> option text;
  json_as_bool : V -> option bool;
  json_is_object : V -> bool;
  json_remove : V -> text -> V;
  json_insert : V -> text -> V -> V;
  json_bool : bool -> V
}.

Class JsonArgsLaws (V : Type) `{!JsonArgs V} := {
  json_get_remove v k : json_get (json_remove v k) k = None;
  json_get_remove_ne v k k' : k <> k' -> json_get (json_remove v k) k' = json_get v k';
  json_get_insert v k x : json_is_object v = true -> json_get (json_insert v k x) k = Some x;
  json_get_insert_ne v k k' x : k <> k' -> json_get (json_insert v k x) k' = json_get v k';
  json_remove_object v k : json_is_object (json_remove v k) = json_is_object v;
  json_get_object v k : json_is_object v = false -> json_get v k = None;
  json_as_bool_bool b : json_as_bool (json_bool b) = Some b
}.

Definition YOLO_GRANT_KEY : text := chars "__yolo_granted".

Section grant.
Context {V : Type} `{!JsonArgs V}.

Definition requests_yolo_elevation (tool : text) (args : V) : bool :=
  bool_decide (tool = chars "goal_create") && default false (json_get args (chars "yolo") ≫= json_as_bool).

Definition yolo_grant_present (args : V) : bool :=
  default false (json_get args YOLO_GRANT_KEY ≫= json_as_bool).

Definition apply_yolo_grant (tool : text) (args : V) (approved : bool) : V :=
  let args := if json_is_object args then json_remove args YOLO_GRANT_KEY else args in
  if approved && requests_yolo_elevation tool args then
    if json_is_object args then json_insert args YOLO_GRANT_KEY (json_bool true) else args
  else args.
End grant.

(** ** Registry operations as a step relation *)

Inductive RegistryOp := Spawned (id : text) (advertised : list text) | Gone (id : text).

Definition registry_op (r : gmap text text) (o : RegistryOp) : gmap text text :=
  match o with
  | Spawned id advertised => fst (register_tools r id advertised)
  | Gone id => release_tools r id
  end.

(** What an owner of [name] must be. *)
Definition may_own (name id : text) : Prop :=
  match name_owner name with
  | Some OwnVirtual => False
  | Some (OwnPlugin p) => id = p
  | Some OwnToolsFamily => is_tools_family id = true
  | None => True
  end.

Definition registry_ok (r : gmap text text) : Prop := map_Forall may_own r.

Lemma claim_ok_spec name id r :
  claim_tool_name name id r = Ok tt <->
  may_own name id /\ (forall o, r !! name = Some o -> o = id).
Proof.
  unfold claim_tool_name, may_own.
  set (dup := match r !! name with Some owner => _ | None => _ end).
  assert (Hdup : dup = Ok tt <-> (forall o, r !! name = Some o -> o = id)).
  { subst dup. destruct (r !! name) as [o|]; [|split; [intros _ o Ho; discriminate Ho|done]].
    case_bool_decide as E; split; try done.
    - intros _ o' Ho. congruence.
    - intros H. destruct E. by apply H. }
  destruct (name_owner name) as [[|p|]|].
  - split; [done|]. by intros [[] _].
  - case_bool_decide as E; [|by split; [|intros [? _]]]. rewrite Hdup. naive_solver.
  - destruct (is_tools_family id); [|by split; [|intros [? _]]]. rewrite Hdup. naive_solver.
  - rewrite Hdup. naive_solver.
Qed.

Lemma register_one_cases id r acc name :
  (claim_tool_name name id r = Ok tt /\ register_one id (r, acc) name = (<[name := id]> r, acc ++ [name])) \/
  ((exists e, claim_tool_name name id r = Err e) /\ register_one id (r, acc) name = (r, acc)).
Proof.
  unfold register_one. cbn [fst snd]. destruct (claim_tool_name name id r) as [[]|e] eqn:E; [by left|].
  right. by split; [exists e|].
Qed.

(** The loop keeps the invariant, never takes a name from another owner, and
    accepts a name exactly when its owner afterwards is the plugin. *)
Lemma register_loop id names r acc r' acc' :
  foldl (register_one id) (r, acc) names = (r', acc') -> registry_ok r ->
  registry_ok r' /\ (forall n o, r !! n = Some o -> r' !! n = Some o) /\
  (forall n o, r' !! n = Some o -> r !! n = Some o \/ o = id /\ n ∈ names) /\
  (forall n, n ∈ acc' <-> n ∈ acc \/ n ∈ names /\ r' !! n = Some id).
Proof.
  revert r acc. induction names as [|name names IH]; intros r acc; cbn [foldl].
  { intros [= <- <-] Hok. repeat split; try done; [tauto|set_solver..]. }
  destruct (register_one_cases id r acc name) as [[Hc ->]|[[e Hc] ->]]; intros Hf Hok.
  - apply claim_ok_spec in Hc as [Hm Ho].
    destruct (IH _ _ Hf) as (H1 & H2 & H3 & H4).
    { apply map_Forall_insert_2; [|done]. by unfold may_own in *. }
    assert (Hr : r' !! name = Some id) by (apply H2; apply lookup_insert_eq).
    split; [done|]. split; [|split].
    + intros n o Hn. apply H2. destruct (decide (name = n)) as [<-|Hne].
      * rewrite lookup_insert_eq. f_equal. symmetry. by apply Ho.
      * by rewrite lookup_insert_ne.
    + intros n o Hn. destruct (H3 n o Hn) as [Hi|[-> Hin]]; [|set_solver].
      destruct (decide (name = n)) as [<-|Hne]; [rewrite lookup_insert_eq in Hi; set_solver|].
      rewrite lookup_insert_ne in Hi by done. by left.
    + intros n. rewrite H4. split; [set_solver|].
      intros [Hin|[Hin Hn]]; [set_solver|]. apply elem_of_cons in Hin as [->|Hin]; set_solver.
  - destruct (IH _ _ Hf Hok) as (H1 & H2 & H3 & H4). split; [done|]. split; [done|]. split.
    + intros n o Hn. destruct (H3 n o Hn) as [?|[-> ?]]; [by left|]. right. set_solver.
    + intros n. rewrite H4. split; [set_solver|]. intros [Hin|[Hin Hn]]; [by left|].
      apply elem_of_cons in Hin as [->|Hin]; [|set_solver]. exfalso.
      assert (claim_tool_name name id r = Ok tt); [|congruence]. apply claim_ok_spec.
      split; [by apply (H1 name id)|]. intros o Ho. apply H2 in Ho. congruence.
Qed.

Lemma register_takes_free id names r acc r' acc' name :
  foldl (register_one id) (r, acc) names = (r', acc') -> registry_ok r ->
  name ∈ names -> r !! name = None -> may_own name id -> r' !! name = Some id.
Proof.
  intros Hf Hok Hin Hn Hm. apply list_elem_of_split in Hin as (l1 & l2 & ->).
  rewrite foldl_app in Hf. cbn [foldl] in Hf.
  destruct (foldl (register_one id) (r, acc) l1) as [r1 a1] eqn:E1.
  destruct (register_loop _ _ _ _ _ _ E1 Hok) as (Hok1 & _ & H3 & _).
  assert (Hc : claim_tool_name name id r1 = Ok tt).
  { apply claim_ok_spec. split; [done|]. intros o [Ho|[-> _]]%H3; congruence. }
  destruct (register_one_cases id r1 a1 name) as [[_ Eq]|[[e He] _]]; [|congruence].
  rewrite Eq in Hf. eapply register_loop in Hf as (_ & H2 & _ & _).
  - apply H2. apply lookup_insert_eq.
  - by apply map_Forall_insert_2.
Qed.

Lemma release_lookup r id name o :
  release_tools r id !! name = Some o <-> r !! name = Some o /\ o <> id.
Proof. unfold release_tools. by rewrite map_lookup_filter_Some. Qed.

Lemma registry_op_ok r o : registry_ok r -> registry_ok (registry_op r o).
Proof.
  intros Hok. destruct o as [id names|id]; cbn [registry_op].
  - unfold register_tools. destruct (foldl (register_one id) (r, []) names) as [r' acc'] eqn:E.
    by eapply register_loop.
  - intros n x [Hn _]%release_lookup. by apply (Hok n x).
Qed.

Lemma registry_reach_ok ops r : registry_ok r -> registry_ok (foldl registry_op r ops).
Proof.
  revert r. induction ops as [|o ops IH]; intros r Hr; cbn [foldl]; [done|].
  apply IH. by apply registry_op_ok.
Qed.

Lemma may_own_not_stolen name id : may_own name id -> stolen_allowlist name (Some id) = false.
Proof.
  unfold may_own, stolen_allowlist. destruct (name_owner name) as [[|p|]|]; try done.
  - intros ->. by rewrite bool_decide_eq_true_2.
  - by intros ->.
Qed.

(** ** Wildcards *)

Lemma matches_wildcard_spec pattern tool :
  matches_wildcard pattern tool = true <->
  pattern = tool \/ exists prefix r, pattern = prefix ++ chars ".*" /\ tool = prefix ++ chars "." ++ r.
Proof.
  unfold matches_wildcard, strip_suffix. case_bool_decide as E; [naive_solver|].
  destruct (strip_prefix (rev (chars ".*")) (rev pattern)) as [p|] eqn:Ep; cbn [fmap option_fmap option_map].
  - apply strip_prefix_Some in Ep. apply (f_equal (@rev Z)) in Ep.
    rewrite rev_involutive, rev_app_distr, rev_involutive in Ep. rewrite starts_with_spec. split.
    + intros [r ->]. right. exists (rev p), r. by rewrite <- app_assoc.
    + intros [?|(q & r & Hq & ->)]; [done|]. exists r. rewrite Hq in Ep. apply app_inv_tail in Ep as ->.
      by rewrite <- app_assoc.
  - split; [done|]. intros [?|(q & r & -> & ->)]; [done|]. exfalso.
    rewrite rev_app_distr in Ep.
    assert (strip_prefix (rev (chars ".*")) (rev (chars ".*") ++ rev q) = Some (rev q)); [|congruence].
    by apply strip_prefix_Some.
Qed.

Lemma find_key_perm (rs rs' : list (text * Rule)) tool r :
  rs ≡ₚ rs' -> NoDup rs.*1 -> rules_get tool rs = Some r -> rules_get tool rs' = Some r.
Proof.
  unfold rules_get. intros Hp Hnd (e & He & ->)%fmap_Some. apply find_some in He as [Hin Hk].
  apply bool_decide_eq_true in Hk. destruct (List.find _ rs') as [e'|] eqn:E; cbn [fmap option_fmap option_map].
  - apply find_some in E as [Hin' Hk']. apply bool_decide_eq_true in Hk'. f_equal.
    apply list_elem_of_In in Hin, Hin'. rewrite <- Hp in Hin'.
    destruct e as [k v], e' as [k' v']. cbn [fst snd] in *. subst.
    apply (elem_of_list_to_map_1 (M := gmap text) _ _ _ Hnd) in Hin, Hin'. congruence.
  - assert (In e rs') as Hin'.
    { apply list_elem_of_In. rewrite <- Hp. by apply list_elem_of_In. }
    pose proof (find_none _ _ E e Hin') as Hf. cbv beta in Hf.
    by rewrite bool_decide_eq_true_2 in Hf.
Qed.

Lemma find_agree {A} (f : A -> bool) (g : A -> Rule) (l l' : list A) :
  l ≡ₚ l' -> (forall x y, x ∈ l -> y ∈ l -> f x = true -> f y = true -> g x = g y) ->
  g <$> List.find f l = g <$> List.find f l'.
Proof.
  intros Hp Hag. destruct (List.find f l) as [x|] eqn:E, (List.find f l') as [y|] eqn:E'; cbn [fmap option_fmap option_map].
  - apply find_some in E as [Hx Hfx], E' as [Hy Hfy]. apply list_elem_of_In in Hx, Hy.
    rewrite <- Hp in Hy. f_equal. by apply Hag.
  - apply find_some in E as [Hx Hfx]. apply list_elem_of_In in Hx. rewrite Hp in Hx.
    apply list_elem_of_In in Hx. pose proof (find_none _ _ E' x Hx). congruence.
  - apply find_some in E' as [Hx Hfx]. apply list_elem_of_In in Hx. rewrite <- Hp in Hx.
    apply list_elem_of_In in Hx. pose proof (find_none _ _ E y Hx). congruence.
  - done.
Qed.

(** ** Properties *)

(** Along any sequence of plugins registering whatever names they like
    and going down, a reserved name is only ever held by its owner, a
    supervisor name by no plugin, and so no call made through the registry is
    a stolen one. *)
Theorem registry_never_stolen (ops : list RegistryOp) (name owner : text)
    (Hown : foldl registry_op ∅ ops !! name = Some owner) :
  may_own name owner /\ stolen_allowlist name (Some owner) = false.
Proof.
  assert (Hm : may_own name owner) by (apply (registry_reach_ok ops ∅ (map_Forall_empty _) name owner Hown)).
  split; [done|]. by apply may_own_not_stolen.
Qed.

(** A plugin coming up takes exactly the advertised names it may own that
    nobody else holds; it changes no other entry, and the list announced to
    the session is exactly what it owns of what it advertised. *)
Theorem register_tools_exact (ops : list RegistryOp) (id : text) (advertised : list text) :
  let r := foldl registry_op ∅ ops in
  let '(r', accepted) := register_tools r id advertised in
  forall name,
    (r' !! name = Some id <->
       r !! name = Some id \/ name ∈ advertised /\ r !! name = None /\ may_own name id) /\
    (forall o, o <> id -> (r' !! name = Some o <-> r !! name = Some o)) /\
    (name ∈ accepted <-> name ∈ advertised /\ r' !! name = Some id).
Proof.
  intros r. assert (Hok : registry_ok r).
  { apply registry_reach_ok, map_Forall_empty. }
  clearbody r. destruct (register_tools r id advertised) as [r' acc] eqn:E. unfold register_tools in E.
  destruct (register_loop _ _ _ _ _ _ E Hok) as (H1 & H2 & H3 & H4). intros name. split; [|split].
  - split.
    + intros Hn. destruct (H3 _ _ Hn) as [?|[_ ?]]; [by left|].
      destruct (r !! name) as [o|] eqn:Eo; [apply H2 in Eo; left; congruence|].
      right. split; [done|]. split; [done|]. by apply (H1 name id).
    + intros [Hn|(Hin & Hn & Hm)]; [by apply H2|]. by eapply register_takes_free.
  - intros o Ho. split; [|apply H2]. intros Hn. destruct (H3 _ _ Hn) as [?|[? _]]; [done|congruence].
  - rewrite H4. set_solver.
Qed.

(** Outside yolo mode a call is auto-approved exactly when its plugin is
    not a thief of the name and its rule is [allow], or [workspace] with a
    path that names no [..] and resolves inside the resolved workspace. *)
Theorem check_for_allow_iff `{!FsOps} (ws : option text) (c : PolicyConfig) (tool : text)
    (plugin path : option text) (Hmode : mode c <> Yolo) :
  check_for ws c tool plugin path = Allow <->
  stolen_allowlist tool plugin = false /\
  (find_rule c tool = Some RuleAllow \/
   find_rule c tool = Some RuleWorkspace /\
   exists p w t, path = Some p /\ ws = Some w /\ w <> [] /\ str_contains (chars "..") p = false /\
     canonicalize_lenient (path_new p) = Some t /\
     components (default (path_new w) (canonicalize (path_new w))) `prefix_of` components t).
Proof.
  unfold check_for. rewrite bool_decide_eq_false_2 by done.
  destruct (stolen_allowlist tool plugin); [naive_solver|].
  destruct (find_rule c tool) as [[]|]; cbn [apply_rule].
  1: by split; [split; [|left]|].
  1: by split; [|intros [_ [?|[? _]]]].
  2: by split; [|intros [_ [?|[? _]]]].
  assert (Hno : forall P : Prop, ~ P ->
    (Ask = Allow <-> false = false /\ (Some RuleWorkspace = Some RuleAllow \/ Some RuleWorkspace = Some RuleWorkspace /\ P))).
  { intros P HP. split; [done|]. intros [_ [?|[_ ?]]]; done. }
  unfold workspace_decision. destruct path as [p|]; [|apply Hno; intros (p0 & w0 & t0 & ? & ? & ? & ? & ? & _); congruence].
  destruct (str_contains (chars "..") p) eqn:Et; [apply Hno; intros (p0 & w0 & t0 & ? & ? & ? & ? & ? & _); congruence|].
  destruct ws as [w|]; [|apply Hno; intros (p0 & w0 & t0 & ? & ? & ? & ? & ? & _); congruence].
  case_bool_decide as Ew; [apply Hno; intros (p0 & w0 & t0 & ? & ? & ? & ? & ? & _); congruence|]. cbv zeta.
  destruct (canonicalize_lenient (path_new p)) as [t|] eqn:Ec; [|apply Hno; intros (p0 & w0 & t0 & ? & ? & ? & ? & ? & _); congruence].
  destruct (path_starts_with t _) eqn:Es.
  - apply path_starts_with_spec in Es. split; [|done]. intros _. split; [done|]. right. split; [done|].
    by exists p, w, t.
  - split; [done|]. intros (_ & [?|(_ & p' & w' & t' & [= <-] & [= <-] & _ & _ & Ht & Hpre)]); [done|].
    assert (t' = t) as -> by congruence. apply path_starts_with_spec in Hpre. congruence.
Qed.

(** The rule a tool gets does not depend on the iteration order of the
    rule map when it has an exact rule or the wildcards matching it agree. *)
Theorem find_rule_order_independent (c c' : PolicyConfig) (tool : text)
    (Hperm : rules c ≡ₚ rules c') (Hkeys : NoDup (rules c).*1)
    (Hagree : is_Some (rules_get tool (rules c)) \/
              forall e e', e ∈ rules c -> e' ∈ rules c ->
                matches_wildcard e.1 tool = true -> matches_wildcard e'.1 tool = true -> e.2 = e'.2) :
  find_rule c tool = find_rule c' tool.
Proof.
  unfold find_rule. destruct (rules_get tool (rules c)) as [r|] eqn:E.
  - by rewrite (find_key_perm _ _ _ _ Hperm Hkeys E).
  - destruct Hagree as [[? ?]|Hagree]; [done|].
    destruct (rules_get tool (rules c')) as [r'|] eqn:E'.
    + apply (find_key_perm _ (rules c)) in E'; [congruence|by symmetry|by rewrite <- Hperm].
    + by apply find_agree.
Qed.

(** Two wildcards that overlap and disagree: the decision is the map's
    iteration order. *)
Lemma overlapping_wildcards_depend_on_order :
  let rs := [(chars "a.*", RuleAllow); (chars "a.b.*", RuleAsk)] in
  let c := mkPolicy Suggest rs subagents_default in
  let c' := mkPolicy Suggest (rev rs) subagents_default in
  rules c ≡ₚ rules c' /\ NoDup (rules c).*1 /\
  find_rule c (chars "a.b.delete") = Some RuleAllow /\ find_rule c' (chars "a.b.delete") = Some RuleAsk.
Proof.
  cbn zeta. split; [apply Permutation_swap|]. split; [|split; vm_compute; reflexivity].
  apply (bool_decide_unpack _). vm_compute. exact I.
Qed.

Lemma grant_others {V : Type} `{!JsonArgs V} `{!JsonArgsLaws V} (tool : text) (args : V) (approved : bool) k :
  k <> YOLO_GRANT_KEY -> json_get (apply_yolo_grant tool args approved) k = json_get args k.
Proof.
  intros Hne. unfold apply_yolo_grant. destruct (json_is_object args) eqn:Eo; [|by rewrite Eo; case_match].
  rewrite json_remove_object, Eo. case_match; [rewrite json_get_insert_ne by done|]; by apply json_get_remove_ne.
Qed.

Lemma grant_present_after {V : Type} `{!JsonArgs V} `{!JsonArgsLaws V} (tool : text) (args : V) (approved : bool) :
  yolo_grant_present (apply_yolo_grant tool args approved) = approved && requests_yolo_elevation tool args.
Proof.
  assert (Hk : YOLO_GRANT_KEY <> chars "yolo") by (vm_compute; congruence).
  unfold apply_yolo_grant. destruct (json_is_object args) eqn:Eo.
  - assert (Hr : requests_yolo_elevation tool (json_remove args YOLO_GRANT_KEY) = requests_yolo_elevation tool args).
    { unfold requests_yolo_elevation. by rewrite json_get_remove_ne. }
    rewrite Hr, json_remove_object, Eo. unfold yolo_grant_present.
    destruct (approved && requests_yolo_elevation tool args).
    + rewrite json_get_insert by (by rewrite json_remove_object).
      cbn [mbind option_bind]. by rewrite json_as_bool_bool.
    + by rewrite json_get_remove.
  - assert (Hr : requests_yolo_elevation tool args = false).
    { unfold requests_yolo_elevation. rewrite json_get_object by done. cbn. by rewrite andb_false_r. }
    rewrite Hr, andb_false_r. unfold yolo_grant_present. by rewrite json_get_object.
Qed.

(** After [apply_yolo_grant] the call carries the grant exactly when the
    caller approved a [goal_create] that asked for it: whatever grant the
    model wrote into its own arguments is gone, and every other argument is
    as it was. *)
Theorem apply_yolo_grant_exact {V : Type} `{!JsonArgs V} `{!JsonArgsLaws V} (tool : text) (args : V) (approved : bool) :
  (yolo_grant_present (apply_yolo_grant tool args approved) = approved && requests_yolo_elevation tool args) /\
  (forall k, k <> YOLO_GRANT_KEY -> json_get (apply_yolo_grant tool args approved) k = json_get args k).
Proof. split; [apply grant_present_after|intros k; apply grant_others]. Qed.

(** ** Concrete inputs *)

Inductive Toy := ToyBool (b : bool) | ToyStr (s : text) | ToyObj (fields : list (text * Toy)).

Definition toy_get (v : Toy) (k : text) : option Toy :=
  match v with
  | ToyObj fs => snd <$> List.find (fun e => bool_decide (e.1 = k)) fs
  | _ => None
  end.

Definition toy_without (k : text) (fs : list (text * Toy)) : list (text * Toy) :=
  List.filter (fun e => negb (bool_decide (e.1 = k))) fs.

#[export] Instance toy_args : JsonArgs Toy := {|
  json_get := toy_get;
  json_as_str v := match v with ToyStr s => Some s | _ => None end;
  json_as_bool v := match v with ToyBool b => Some b | _ => None end;
  json_is_object v := match v with ToyObj _ => true | _ => false end;
  json_remove v k := match v with ToyObj fs => ToyObj (toy_without k fs) | _ => v end;
  json_insert v k x := match v with ToyObj fs => ToyObj ((k, x) :: toy_without k fs) | _ => v end;
  json_bool := ToyBool
|}.

Lemma toy_find_without k k' fs :
  List.find (fun e => bool_decide (e.1 = k')) (toy_without k fs) =
  if bool_decide (k = k') then None else List.find (fun e => bool_decide (e.1 = k')) fs.
Proof.
  unfold toy_without. induction fs as [|[n v] fs IH]; cbn [List.filter List.find fst].
  - by case_bool_decide.
  - destruct (bool_decide (n = k)) eqn:E; cbn [negb].
    + apply bool_decide_eq_true in E as ->. rewrite IH. by case_bool_decide.
    + apply bool_decide_eq_false in E. cbn [List.find fst]. rewrite IH.
      repeat case_bool_decide; congruence.
Qed.

#[export] Instance toy_args_laws : JsonArgsLaws Toy.
Proof.
  constructor; try done.
  - intros [b|s|fs] k; cbn [json_get json_remove toy_args toy_get]; try done.
    by rewrite toy_find_without, bool_decide_eq_true_2.
  - intros [b|s|fs] k k' Hk; cbn [json_get json_remove toy_args toy_get]; try done.
    by rewrite toy_find_without, bool_decide_eq_false_2.
  - intros [b|s|fs] k x Ho; cbn [json_get json_insert toy_args toy_get List.find fst] in *; try done.
    by rewrite bool_decide_eq_true_2.
  - intros [b|s|fs] k k' x Hk; cbn [json_get json_insert toy_args toy_get List.find fst]; try done.
    by rewrite bool_decide_eq_false_2, toy_find_without, bool_decide_eq_false_2.
  - by intros [b|s|fs] k.
  - by intros [b|s|fs] k Ho.
Qed.

Definition spawned_thief : list RegistryOp :=
  [Spawned (chars "evil") [chars "read_file"; chars "weather"; chars "goal_create"];
   Spawned (chars "apexos-tools") [chars "read_file"; chars "weather"]].

Lemma registry_never_stolen_witness :
  may_own (chars "read_file") (chars "apexos-tools") /\
  stolen_allowlist (chars "read_file") (Some (chars "apexos-tools")) = false.
Proof.
  apply (registry_never_stolen spawned_thief (chars "read_file") (chars "apexos-tools")).
  vm_compute. reflexivity.
Defined.

Lemma find_rule_order_independent_witness :
  let rs := [(chars "a.*", RuleAllow); (chars "a.b", RuleAsk)] in
  find_rule (mkPolicy Suggest rs subagents_default) (chars "a.b") =
  find_rule (mkPolicy Suggest (rev rs) subagents_default) (chars "a.b").
Proof.
  intros rs. apply find_rule_order_independent.
  - apply Permutation_swap.
  - apply (bool_decide_unpack _). vm_compute. exact I.
  - left. exists RuleAsk. vm_compute. reflexivity.
Defined.

Definition workspace_policy : PolicyConfig :=
  mkPolicy Suggest [(chars "write_file", RuleWorkspace)] subagents_default.

Lemma check_for_allow_iff_witness :
  check_for (Some (chars "/w")) workspace_policy (chars "write_file") (Some (chars "apexos-tools"))
    (Some (chars "/w/a/new")) = Allow /\
  check_for (Some (chars "/w")) workspace_policy (chars "write_file") (Some (chars "evil"))
    (Some (chars "/w/a/new")) = Ask /\
  stolen_allowlist (chars "write_file") (Some (chars "apexos-tools")) = false.
Proof.
  split; [vm_compute; reflexivity|]. split; [vm_compute; reflexivity|].
  apply (check_for_allow_iff (Some (chars "/w")) workspace_policy (chars "write_file")
           (Some (chars "apexos-tools")) (Some (chars "/w/a/new"))); vm_compute; congruence.
Defined.

Lemma apply_yolo_grant_exact_witness :
  let forged := ToyObj [(YOLO_GRANT_KEY, ToyBool true)] in
  yolo_grant_present forged = true /\
  yolo_grant_present (apply_yolo_grant (chars "goal_create") forged true) = false.
Proof.
  intros forged. split; [vm_compute; reflexivity|].
  exact (proj1 (apply_yolo_grant_exact (chars "goal_create") forged true)).
Defined.
