(* ===== verification/Protocol.v ===== *)
(** * The shared vocabulary of the daemon's tasks

    [apexos-protocol/src/lib.rs]: the session ranges, worker states and report
    rows that the goal driver, the worker fabric and the gateway exchange, and
    the accessors they use on the JSON arguments of a tool call. *)
From S2P Require Import Prelude Text Policy.

(** Sessions below 2^62 are ordinary, then workers, then spawns. *)
Definition WORKER_SESSION_BASE : Z := 4611686018427387904.
Definition SPAWN_SESSION_BASE : Z := 9223372036854775808.

Definition is_worker_session (session_id : Z) : bool :=
  (WORKER_SESSION_BASE <=? session_id) && (session_id <? SPAWN_SESSION_BASE).

Definition is_spawn_session (session_id : Z) : bool := SPAWN_SESSION_BASE <=? session_id.

Inductive WorkerState :=
  | WQueued | WRunning | WIdle | WParked | WBlocked | WDone | WFailed | WCancelled.

#[export] Instance WorkerState_eq_dec : EqDecision WorkerState.
Proof. solve_decision. Defined.

(** One worker's line in a batch report. *)
Record BatchWorkerRow := mkRow {
  row_worker : Z;
  row_state : WorkerState;
  row_evidence : text;
  row_timed_out : bool;
  row_node : option text
}.

(** What the tasks read of JSON values beyond [JsonArgs]. *)
Class JsonNums (V : Type) := {
  json_as_u64 : V -> option Z;
  json_as_array : V -> option (list V)
}.

Section args.
Context {V : Type} `{!JsonArgs V} `{!JsonNums V}.

(** [args[k].as_str()] and its siblings: indexing a missing key is [Null]. *)
Definition arg_str (args : V) (k : text) : option text := json_get args k ≫= json_as_str.
Definition arg_u64 (args : V) (k : text) : option Z := json_get args k ≫= json_as_u64.
Definition arg_bool (args : V) (k : text) : option bool := json_get args k ≫= json_as_bool.
Definition arg_array (args : V) (k : text) : option (list V) := json_get args k ≫= json_as_array.

(** [.map(str::trim).filter(|s| !s.is_empty() && s.len() <= n)]. *)
Definition trimmed (n : Z) (s : option text) : option text :=
  s ← s;
  let s := trim s in
  if bool_decide (s = []) || (n <? str_len s) then None else Some s.
End args.

(** A number is a string of digits, an array an object with empty keys. *)
#[export] Instance toy_nums : JsonNums Toy := {|
  json_as_u64 v := match v with ToyStr s => parse_u64 s | _ => None end;
  json_as_array v :=
    match v with
    | ToyObj fs => if forallb (fun e => bool_decide (e.1 = [])) fs then Some (snd <$> fs) else None
    | _ => None
    end
|}.

Lemma session_ranges_disjoint s : is_worker_session s = true -> is_spawn_session s = false.
Proof. unfold is_worker_session, is_spawn_session. lia. Qed.
