(* ===== verification/Gate.v ===== *)
(** * The supervisor's approval gate

    The event loop of [agentd/crates/plugins/src/supervisor.rs] as far as it
    decides whether a tool call runs: the policy check over every path-typed
    argument, goal-scoped yolo, the parked approvals with their nonces, and
    the call-time connectivity backstop at the head of [dispatch_tool].  What
    a dispatched call then does (virtual tools, the plugin's MCP client) is
    behind the effect [Run].  The gate of the optional [enterprise] feature is
    not in this model. *)
From S2P Require Import Prelude Wire Text Connectivity Confine Policy.

Record ToolCall (V : Type) := mkCall {
  call_id : Z;
  call_tool : text;
  call_args : V;
  needs_approval : bool
}.
Arguments mkCall {V}. Arguments call_id {V}. Arguments call_tool {V}.
Arguments call_args {V}. Arguments needs_approval {V}.

Record PendingApproval (V : Type) := mkPending {
  pend_session : Z;
  pend_call : ToolCall V;
  pend_nonce : Z
}.
Arguments mkPending {V}. Arguments pend_session {V}. Arguments pend_call {V}. Arguments pend_nonce {V}.

(** The [loop] over CSPRNG draws; [None] while every draw so far was zero. *)
Fixpoint mint_approval_nonce (draws : list Z) : option Z :=
  match draws with
  | [] => None
  | n :: rest => if n =? 0 then mint_approval_nonce rest else Some n
  end.

(** The bus events the loop reacts to; the last five are other parties
    changing what it shares: the policy lock, the goal driver's session set,
    plugins coming up and going down, the connectivity latch. *)
Inductive Event (V : Type) :=
  | ToolRequested (session : Z) (call : ToolCall V)
  | UserApproval (session action : Z) (granted : bool) (nonce : Z)
  | UserCancel (session : Z)
  | TurnComplete (session : Z)
  | ToolResultEvent (call : Z)
  | OtherEvent
  | PolicyReplaced (c : PolicyConfig)
  | GoalYoloChanged (set : option (option (gset Z)))
  | Registry (op : RegistryOp)
  | ConnectivityChanged (s : ConnectivityState).
Arguments ToolRequested {V}. Arguments UserApproval {V}. Arguments UserCancel {V}.
Arguments TurnComplete {V}. Arguments ToolResultEvent {V}. Arguments OtherEvent {V}.
Arguments PolicyReplaced {V}. Arguments GoalYoloChanged {V}. Arguments Registry {V}.
Arguments ConnectivityChanged {V}.

Inductive Effect (V : Type) :=
  | Run (session : Z) (call : ToolCall V)
  | Unavailable (session : Z) (call : ToolCall V)
  | ApprovalPending (session : Z) (call : ToolCall V) (nonce : Z)
  | Declined (session action : Z).
Arguments Run {V}. Arguments Unavailable {V}. Arguments ApprovalPending {V}. Arguments Declined {V}.

(** [goal_yolo]: unset, or the shared set behind its lock ([None] inside: the
    lock is poisoned). *)
Record Supervisor (V : Type) := mkSupervisor {
  policy : PolicyConfig;
  tool_registry : gmap text text;
  pending_approvals : gmap Z (PendingApproval V);
  goal_yolo : option (option (gset Z));
  conn_state : ConnectivityState;
  conn_rules : ConnectivityRules;
  workspace_var : option text
}.
Arguments mkSupervisor {V}. Arguments policy {V}. Arguments tool_registry {V}.
Arguments pending_approvals {V}. Arguments goal_yolo {V}. Arguments conn_state {V}.
Arguments conn_rules {V}. Arguments workspace_var {V}.

Definition goal_session_is_yolo (set : option (gset Z)) (session : Z) : bool :=
  match set with Some s => bool_decide (session ∈ s) | None => false end.

Definition path_keys : list text :=
  chars <$> ["path"; "output_path"; "dest"; "destination"; "target"; "to"]%string.

Section gate.
Context {V : Type} `{!JsonArgs V} `{!FsOps}.
Implicit Types (g : Supervisor V) (call : ToolCall V).

Definition with_pending g (m : gmap Z (PendingApproval V)) : Supervisor V :=
  mkSupervisor (policy g) (tool_registry g) m (goal_yolo g) (conn_state g) (conn_rules g) (workspace_var g).

Definition take_matching_approval (map : gmap Z (PendingApproval V)) (session action nonce : Z)
    : option (PendingApproval V) * gmap Z (PendingApproval V) :=
  match map !! action with
  | Some p =>
      if (pend_session p =? session) && negb (pend_nonce p =? 0) && (pend_nonce p =? nonce)
      then (Some p, delete action map) else (None, map)
  | None => (None, map)
  end.

Definition purge_session_approvals (map : gmap Z (PendingApproval V)) (session : Z)
    : gmap Z (PendingApproval V) := filter (fun e => pend_session e.2 <> session) map.

Definition park_for_approval (nonce : Z) g (session : Z) call : Supervisor V * list (Effect V) :=
  (with_pending g (<[call_id call := mkPending session call nonce]> (pending_approvals g)),
   [ApprovalPending session call nonce]).

(** The head of [dispatch_tool]. *)
Definition dispatch_tool g (session : Z) call : list (Effect V) :=
  if tool_available (call_tool call) (conn_state g) (conn_rules g)
  then [Run session call] else [Unavailable session call].

Definition candidates (args : V) : list text :=
  omap (fun k => json_get args k ≫= json_as_str) path_keys.

Definition gate_decision g call : Decision :=
  let plugin := tool_registry g !! call_tool call in
  let ask p := bool_decide (check_for (workspace_var g) (policy g) (call_tool call) plugin p = Ask) in
  match candidates (call_args call) with
  | [] => check_for (workspace_var g) (policy g) (call_tool call) plugin None
  | cs => if existsb (fun p => ask (Some p)) cs then Ask else Allow
  end.

Definition grant_args call (approved : bool) : ToolCall V :=
  mkCall (call_id call) (call_tool call)
         (apply_yolo_grant (call_tool call) (call_args call) approved) (needs_approval call).

Definition session_yolo g (session : Z) : bool :=
  match goal_yolo g with Some set => goal_session_is_yolo set session | None => false end.

Definition on_tool_requested (nonce : Z) g (session : Z) call : Supervisor V * list (Effect V) :=
  let node_yolo := bool_decide (mode (policy g) = Yolo) in
  let yolo_elevation := requests_yolo_elevation (call_tool call) (call_args call) in
  let decision := if yolo_elevation && negb node_yolo then Ask else gate_decision g call in
  let goal_yolo := bool_decide (decision = Ask) && negb yolo_elevation && session_yolo g session in
  match decision with
  | Allow => (g, dispatch_tool g session (grant_args call node_yolo))
  | Ask => if goal_yolo then (g, dispatch_tool g session call)
           else park_for_approval nonce g session call
  end.

Definition on_user_approval g (session action : Z) (granted : bool) (nonce : Z)
    : Supervisor V * list (Effect V) :=
  let '(taken, rest) := take_matching_approval (pending_approvals g) session action nonce in
  let g := with_pending g rest in
  match taken with
  | Some pending =>
      if granted
      then (g, dispatch_tool g (pend_session pending) (grant_args (pend_call pending) true))
      else (g, [Declined (pend_session pending) action])
  | None => (g, [])
  end.

(** One turn of the [select!] loop; [nonce] is what [mint_approval_nonce]
    returns should the event park a call. *)
Definition on_event (nonce : Z) g (e : Event V) : Supervisor V * list (Effect V) :=
  match e with
  | ToolRequested session call => on_tool_requested nonce g session call
  | UserApproval session action granted n => on_user_approval g session action granted n
  | UserCancel session | TurnComplete session =>
      (with_pending g (purge_session_approvals (pending_approvals g) session), [])
  | ToolResultEvent call => (with_pending g (delete call (pending_approvals g)), [])
  | OtherEvent => (g, [])
  | PolicyReplaced c =>
      (mkSupervisor c (tool_registry g) (pending_approvals g) (goal_yolo g) (conn_state g) (conn_rules g) (workspace_var g), [])
  | GoalYoloChanged set =>
      (mkSupervisor (policy g) (tool_registry g) (pending_approvals g) set (conn_state g) (conn_rules g) (workspace_var g), [])
  | Registry op =>
      (mkSupervisor (policy g) (registry_op (tool_registry g) op) (pending_approvals g) (goal_yolo g) (conn_state g) (conn_rules g) (workspace_var g), [])
  | ConnectivityChanged s =>
      (mkSupervisor (policy g) (tool_registry g) (pending_approvals g) (goal_yolo g) s (conn_rules g) (workspace_var g), [])
  end.

(** Runs of the loop, with what each event made it do. *)
Inductive gate_run : Supervisor V -> list (Event V * list (Effect V)) -> Supervisor V -> Prop :=
  | run_nil g : gate_run g [] g
  | run_snoc g tr g1 draws nonce e g2 eff :
      gate_run g tr g1 -> mint_approval_nonce draws = Some nonce ->
      on_event nonce g1 e = (g2, eff) -> gate_run g (tr ++ [(e, eff)]) g2.

Definition emitted (tr : list (Event V * list (Effect V))) : list (Effect V) := tr ≫= snd.

(** [PluginSupervisor::new]: nothing is parked. *)
Definition boot (c : PolicyConfig) (rs : ConnectivityRules) (ws : option text) (s : ConnectivityState) : Supervisor V :=
  mkSupervisor c ∅ ∅ None s rs ws.
End gate.

(** ** Lemmas *)

Lemma mint_nonzero draws n : mint_approval_nonce draws = Some n -> n <> 0 /\ n ∈ draws.
Proof.
  induction draws as [|x draws IH]; cbn [mint_approval_nonce]; [done|].
  destruct (Z.eqb_spec x 0) as [->|Hx].
  - intros [? ?]%IH. set_solver.
  - intros [= ->]. set_solver.
Qed.

Section lemmas.
Context {V : Type} `{!JsonArgs V} `{!FsOps}.
Implicit Types (g : Supervisor V) (call : ToolCall V) (es : list (Effect V)).

(** The call of an effect that hands it to [dispatch_tool]. *)
Definition dispatched (f : Effect V) : option (ToolCall V) :=
  match f with Run _ c | Unavailable _ c => Some c | _ => None end.

Definition dispatches (i : Z) es : nat :=
  length (List.filter (fun c => call_id c =? i) (omap dispatched es)).

Definition requests (i : Z) (evs : list (Event V)) : nat :=
  length (List.filter (fun e => match e with ToolRequested _ c => call_id c =? i | _ => false end) evs).

Definition parked (i : Z) g : nat := if bool_decide (is_Some (pending_approvals g !! i)) then 1 else 0.

(** Every parked entry sits under its call's id, with a nonzero nonce that
    was announced for exactly that session and call. *)
Definition pending_ok es g : Prop :=
  map_Forall (fun i p => call_id (pend_call p) = i /\ pend_nonce p <> 0 /\
                         ApprovalPending (pend_session p) (pend_call p) (pend_nonce p) ∈ es)
             (pending_approvals g).

Lemma pending_ok_mono es es' g m :
  pending_ok es g -> m ⊆ pending_approvals g -> (forall f, f ∈ es -> f ∈ es') ->
  pending_ok es' (with_pending g m).
Proof.
  intros Hok Hm Hes i p Hi. cbn [pending_approvals with_pending] in Hi.
  apply (lookup_weaken _ (pending_approvals g)) in Hi; [|done].
  destruct (Hok i p Hi) as (? & ? & ?). auto.
Qed.

Lemma take_matching_spec (m : gmap Z (PendingApproval V)) s a n r m' :
  take_matching_approval m s a n = (r, m') ->
  match r with
  | Some p => m !! a = Some p /\ pend_session p = s /\ pend_nonce p = n /\ n <> 0 /\ m' = delete a m
  | None => m' = m /\ forall p, m !! a = Some p -> pend_session p = s -> pend_nonce p = n -> n = 0
  end.
Proof.
  unfold take_matching_approval. destruct (m !! a) as [p|] eqn:E; [|by intros [= <- <-]].
  destruct (Z.eqb_spec (pend_session p) s), (Z.eqb_spec (pend_nonce p) 0), (Z.eqb_spec (pend_nonce p) n);
    cbn [andb negb]; intros [= <- <-]; (split; [done|]) || idtac; try (intros ? [= <-]); try congruence.
  repeat split; congruence.
Qed.

Lemma dispatch_tool_cases g s call :
  dispatch_tool g s call = [Run s call] \/ dispatch_tool g s call = [Unavailable s call].
Proof. unfold dispatch_tool. case_match; auto. Qed.

Lemma dispatches_dispatch_tool i g s call :
  dispatches i (dispatch_tool g s call) = if call_id call =? i then 1%nat else 0%nat.
Proof.
  destruct (dispatch_tool_cases g s call) as [-> | ->]; unfold dispatches;
    cbn [omap list_omap dispatched List.filter]; by destruct (call_id call =? i).
Qed.

Lemma on_tool_requested_cases nonce g s call g' eff :
  on_tool_requested nonce g s call = (g', eff) ->
  (g' = g /\ eff = dispatch_tool g s (grant_args call (bool_decide (mode (policy g) = Yolo))) /\
   gate_decision g call = Allow /\
   (requests_yolo_elevation (call_tool call) (call_args call) = true -> mode (policy g) = Yolo)) \/
  (g' = g /\ eff = dispatch_tool g s call /\ session_yolo g s = true /\
   requests_yolo_elevation (call_tool call) (call_args call) = false /\ gate_decision g call = Ask) \/
  (g' = with_pending g (<[call_id call := mkPending s call nonce]> (pending_approvals g)) /\
   eff = [ApprovalPending s call nonce]).
Proof.
  unfold on_tool_requested. destruct (requests_yolo_elevation _ _) eqn:El; cbn [andb negb].
  - case_bool_decide as Ey; cbn [negb andb].
    + destruct (gate_decision g call) eqn:Ed.
      * intros [= <- <-]. left. by repeat split.
      * rewrite andb_false_r. cbn [andb]. intros [= <- <-]. by do 2 right.
    + rewrite andb_false_r. cbn [andb]. intros [= <- <-]. by do 2 right.
  - destruct (gate_decision g call) eqn:Ed.
    + intros [= <- <-]. left. by repeat split.
    + cbn [bool_decide]. destruct (session_yolo g s) eqn:Es.
      * rewrite bool_decide_eq_true_2 by done. cbn [andb]. intros [= <- <-]. right. left. by repeat split.
      * rewrite andb_false_r. intros [= <- <-]. by do 2 right.
Qed.

Lemma with_pending_self g : with_pending g (pending_approvals g) = g.
Proof. by destruct g. Qed.

Lemma parked_insert i j p g :
  parked i (with_pending g (<[j := p]> (pending_approvals g))) =
  if j =? i then 1%nat else parked i g.
Proof.
  unfold parked. cbn [pending_approvals with_pending]. destruct (Z.eqb_spec j i) as [->|Hne].
  - rewrite lookup_insert_eq. by rewrite bool_decide_eq_true_2.
  - by rewrite lookup_insert_ne.
Qed.

Lemma parked_submap i g m : m ⊆ pending_approvals g -> (parked i (with_pending g m) <= parked i g)%nat.
Proof.
  intros Hm. unfold parked. cbn [pending_approvals with_pending].
  case_bool_decide as E; [|lia]. destruct E as [p Hp].
  rewrite bool_decide_eq_true_2; [lia|]. exists p. by eapply lookup_weaken.
Qed.

Lemma purge_submap m s : purge_session_approvals (V := V) m s ⊆ m.
Proof. apply map_filter_subseteq. Qed.

(** Dropping parked entries dispatches nothing and parks nothing. *)
Lemma drop_counts i g m e : m ⊆ pending_approvals g ->
  (dispatches i [] + parked i (with_pending g m) <= requests i [e] + parked i g)%nat.
Proof. intros Hm. pose proof (parked_submap i g m Hm). unfold dispatches. cbn. lia. Qed.

(** Taking a parked entry frees its slot. *)
Lemma parked_delete i a p g : pending_approvals g !! a = Some p ->
  (parked i (with_pending g (delete a (pending_approvals g))) + (if Z.eqb a i then 1 else 0) <= parked i g)%nat.
Proof.
  intros Hp. destruct (Z.eqb_spec a i) as [->|Hne].
  - unfold parked. cbn [pending_approvals with_pending].
    rewrite lookup_delete_eq, bool_decide_eq_false_2, bool_decide_eq_true_2; [lia|by eexists|].
    by intros [? ?].
  - pose proof (parked_submap i g _ (delete_subseteq (pending_approvals g) a)). lia.
Qed.

(** An approval releases at most the entry it takes. *)
Lemma on_user_approval_step g s a granted n g' eff e :
  on_user_approval g s a granted n = (g', eff) ->
  (forall p, pending_approvals g !! a = Some p -> call_id (pend_call p) = a) ->
  (exists m, m ⊆ pending_approvals g /\ g' = with_pending g m) /\
  forall i, (dispatches i eff + parked i g' <= requests i [e] + parked i g)%nat.
Proof.
  unfold on_user_approval. intros He Hid.
  destruct (take_matching_approval (pending_approvals g) s a n) as [[p|] m'] eqn:Et;
    apply take_matching_spec in Et.
  - destruct Et as (Hp & _ & _ & _ & ->).
    pose proof (fun i => parked_delete i a p g Hp) as Hpark.
    destruct granted; injection He as <- <-;
      (split; [eexists; split; [apply delete_subseteq|done]|]); intros i; specialize (Hpark i).
    + rewrite dispatches_dispatch_tool. cbn [grant_args call_id]. rewrite (Hid p Hp).
      destruct (a =? i); lia.
    + unfold dispatches. cbn [omap list_omap dispatched List.filter length]. lia.
  - destruct Et as [-> _]. injection He as <- <-.
    split; [by exists (pending_approvals g)|]. intros i. by apply drop_counts.
Qed.

(** A request dispatches or parks itself, once. *)
Lemma on_tool_requested_step nonce g s call g' eff es :
  on_tool_requested nonce g s call = (g', eff) -> nonce <> 0 -> pending_ok (es ++ eff) g ->
  pending_ok (es ++ eff) g' /\
  forall i, (dispatches i eff + parked i g' <= requests i [ToolRequested s call] + parked i g)%nat.
Proof.
  intros He Hn Hkeep. unfold requests. cbn [List.filter].
  apply on_tool_requested_cases in He as [(-> & -> & _)|[(-> & -> & _)|[-> ->]]].
  - split; [done|]. intros i. rewrite dispatches_dispatch_tool.
    cbn [grant_args call_id]. destruct (call_id call =? i); cbn; lia.
  - split; [done|]. intros i. rewrite dispatches_dispatch_tool. destruct (call_id call =? i); cbn; lia.
  - split.
    + unfold pending_ok. cbn [pending_approvals with_pending].
      apply map_Forall_insert_2; [|by apply Hkeep].
      cbn [pend_call pend_nonce pend_session]. repeat split; [done|]. set_solver.
    + intros i. rewrite parked_insert. unfold dispatches.
      cbn [omap list_omap dispatched List.filter]. destruct (call_id call =? i); cbn; lia.
Qed.

(** One event keeps the parked entries honest and never dispatches more than
    it was asked to or than it releases. *)
Lemma on_event_step nonce g e g' eff es :
  on_event nonce g e = (g', eff) -> nonce <> 0 -> pending_ok es g ->
  pending_ok (es ++ eff) g' /\
  forall i, (dispatches i eff + parked i g' <= requests i [e] + parked i g)%nat.
Proof.
  intros He Hn Hok.
  assert (Hmono : forall m, m ⊆ pending_approvals g -> pending_ok (es ++ eff) (with_pending g m)).
  { intros m Hm. eapply pending_ok_mono; [done..|]. set_solver. }
  assert (Hkeep : pending_ok (es ++ eff) g).
  { rewrite <- (with_pending_self g). by apply Hmono. }
  destruct e as [s call|s a granted n|s|s|c| |c|set|op|cs]; cbn [on_event] in He;
    try (injection He as <- <-; split; [done|intros i; unfold parked; cbn; lia]);
    try (injection He as <- <-; split; [apply Hmono|intros i; apply drop_counts];
         (apply purge_submap || apply delete_subseteq)).
  - by apply (on_tool_requested_step nonce).
  - apply on_user_approval_step with (e := UserApproval s a granted n) in He as [(m & Hm & ->) Hc];
      [split; [by apply Hmono|done]|].
    intros p Hp. by destruct (Hok a p Hp).
Qed.

Lemma dispatches_app i es es' : dispatches i (es ++ es') = (dispatches i es + dispatches i es')%nat.
Proof. unfold dispatches. by rewrite omap_app, List.filter_app, length_app. Qed.

Lemma requests_app i l l' : requests i (l ++ l') = (requests i l + requests i l')%nat.
Proof. unfold requests. by rewrite List.filter_app, length_app. Qed.

Lemma emitted_snoc tr e eff : emitted (V := V) (tr ++ [(e, eff)]) = emitted tr ++ eff.
Proof. unfold emitted. rewrite bind_app. cbn [mbind list_bind snd]. by rewrite app_nil_r. Qed.

Lemma gate_run_inv g tr g' :
  gate_run g tr g' -> pending_approvals g = ∅ ->
  pending_ok (emitted tr) g' /\
  forall i, (dispatches i (emitted tr) + parked i g' <= requests i tr.*1)%nat.
Proof.
  intros Hrun He. induction Hrun as [g|g tr g1 draws nonce e g2 eff Hrun IH Hm Hs].
  - split; [unfold pending_ok; rewrite He; apply map_Forall_empty|].
    intros i. unfold parked. rewrite He, lookup_empty. cbn. lia.
  - destruct (IH He) as [Hok Hcount]. apply mint_nonzero in Hm as [Hn _].
    destruct (on_event_step _ _ _ _ _ _ Hs Hn Hok) as [Hok' Hstep].
    rewrite emitted_snoc. split; [done|]. intros i. specialize (Hcount i). specialize (Hstep i).
    rewrite fmap_app, dispatches_app, requests_app. cbn [fmap list_fmap fst]. lia.
Qed.
End lemmas.

(** ** Properties *)

(** The policy check passes for every path-typed argument (for no path at
    all, when there is none). *)
Definition policy_allows {V : Type} `{!JsonArgs V} `{!FsOps} (g : Supervisor V) (c : ToolCall V) : Prop :=
  forall path, path ∈ (match candidates (call_args c) with [] => [None] | cs => Some <$> cs end) ->
    check_for (workspace_var g) (policy g) (call_tool c) (tool_registry g !! call_tool c) path = Allow.

Lemma gate_decision_allow {V : Type} `{!JsonArgs V} `{!FsOps} (g : Supervisor V) (c : ToolCall V) :
  gate_decision g c = Allow <-> policy_allows g c.
Proof.
  unfold gate_decision, policy_allows. set (chk := check_for _ _ _ _).
  destruct (candidates (call_args c)) as [|p ps].
  - split; [intros Hx path ->%list_elem_of_singleton; done|intros Hx; apply Hx, list_elem_of_here].
  - destruct (existsb _ (p :: ps)) eqn:E.
    + split; [done|]. intros Hx. apply existsb_exists in E as (q & Hq & Ha%bool_decide_eq_true).
      rewrite Hx in Ha; [done|]. apply list_elem_of_fmap. exists q. split; [done|]. by apply list_elem_of_In.
    + split; [|done]. intros _ path (q & -> & Hq)%list_elem_of_fmap.
      destruct (chk (Some q)) eqn:Ec; [done|].
      assert (existsb (fun p => bool_decide (chk (Some p) = Ask)) (p :: ps) = true); [|congruence].
      apply existsb_exists. exists q. split; [by apply list_elem_of_In|]. by rewrite Ec.
Qed.

Lemma run_of_dispatch {V : Type} (g : Supervisor V) (s s' : Z) (c c' : ToolCall V) :
  Run s c ∈ dispatch_tool g s' c' -> s' = s /\ c' = c.
Proof. destruct (dispatch_tool_cases g s' c') as [-> | ->]; set_solver. Qed.

(** Where a [Run] comes from. *)
Lemma run_cases {V : Type} `{!JsonArgs V} `{!FsOps} (nonce : Z) (g g' : Supervisor V) (e : Event V)
    (eff : list (Effect V)) (s : Z) (c : ToolCall V) :
  on_event nonce g e = (g', eff) -> Run s c ∈ eff ->
  (exists c0, e = ToolRequested s c0 /\
     (gate_decision g c0 = Allow /\
        (requests_yolo_elevation (call_tool c0) (call_args c0) = true -> mode (policy g) = Yolo) /\
        c = grant_args c0 (bool_decide (mode (policy g) = Yolo)) \/
      session_yolo g s = true /\ requests_yolo_elevation (call_tool c0) (call_args c0) = false /\
        gate_decision g c0 = Ask /\ c = c0)) \/
  (exists p n a, e = UserApproval s a true n /\ pending_approvals g !! a = Some p /\
     pend_session p = s /\ pend_nonce p = n /\ c = grant_args (pend_call p) true /\
     pending_approvals g' = delete a (pending_approvals g)).
Proof.
  destruct e as [s0 c0|s0 a granted n|s0|s0|c0| |c0|set0|op|cs]; cbn [on_event]; intros He Hr;
    try (injection He as <- <-; by apply not_elem_of_nil in Hr).
  - left. exists c0. apply on_tool_requested_cases in He as [(-> & -> & Hd & Hy)|[(-> & -> & Hs & Hel & Hd)|[-> ->]]].
    + apply run_of_dispatch in Hr as [-> <-]. split; [done|]. by left.
    + apply run_of_dispatch in Hr as [-> <-]. split; [done|]. by right.
    + set_solver.
  - right. unfold on_user_approval in He.
    destruct (take_matching_approval (pending_approvals g) s0 a n) as [[p|] m'] eqn:Et.
    + apply take_matching_spec in Et as (Hp & Hs & Hn & _ & ->).
      destruct granted; injection He as <- <-; [|set_solver].
      apply run_of_dispatch in Hr as [Hs' <-]. exists p, n, a. repeat split; congruence.
    + injection He as <- <-. by apply not_elem_of_nil in Hr.
Qed.

(** C11: A call is only ever run on authority.  Either the event that runs it
    is its own request and the policy allows it for every path it names (with
    no yolo asked for outside yolo mode), or its session is a goal granted
    yolo and it asks for none; or the event is a granted approval whose
    session, call id and nonce are those announced for exactly this call
    earlier in the run, and the entry is gone afterwards. *)
Theorem run_needs_authority {V : Type} `{!JsonArgs V} `{!FsOps} (g0 g g' : Supervisor V)
    (tr : list (Event V * list (Effect V))) (nonce s : Z) (e : Event V) (eff : list (Effect V)) (c : ToolCall V)
    (H0 : pending_approvals g0 = ∅) (Hrun : gate_run g0 tr g)
    (Hev : on_event nonce g e = (g', eff)) (HR : Run s c ∈ eff) :
  (exists c0, e = ToolRequested s c0 /\
     (policy_allows g c0 /\
        (requests_yolo_elevation (call_tool c0) (call_args c0) = true -> mode (policy g) = Yolo) /\
        c = grant_args c0 (bool_decide (mode (policy g) = Yolo)) \/
      session_yolo g s = true /\ requests_yolo_elevation (call_tool c0) (call_args c0) = false /\ c = c0)) \/
  (exists c0 n, e = UserApproval s (call_id c0) true n /\ n <> 0 /\
     ApprovalPending s c0 n ∈ emitted tr /\ c = grant_args c0 true /\
     pending_approvals g' !! call_id c0 = None).
Proof.
  destruct (gate_run_inv _ _ _ Hrun H0) as [Hok _].
  destruct (run_cases _ _ _ _ _ _ _ Hev HR) as [(c0 & -> & Hx)|(p & n & a & -> & Hp & Hs & Hn & Hc & Hg)].
  - left. exists c0. split; [done|]. destruct Hx as [(Hd & Hy & Hc)|(Hs & Hel & _ & Hc)]; [left|by right].
    split; [by apply gate_decision_allow|done].
  - right. destruct (Hok a p Hp) as (Hid & Hnz & Hin). exists (pend_call p), n. rewrite Hid.
    repeat split; try congruence. rewrite Hg. apply lookup_delete_eq.
Qed.

(** No matter how requests, approvals, cancellations and results
    interleave, a call id is dispatched at most as often as it was requested:
    an approval can be spent once, and not after an automatic dispatch. *)
Theorem dispatched_at_most_once {V : Type} `{!JsonArgs V} `{!FsOps} (g0 g : Supervisor V)
    (tr : list (Event V * list (Effect V))) (H0 : pending_approvals g0 = ∅) (Hrun : gate_run g0 tr g) (i : Z) :
  (dispatches i (emitted tr) <= requests i tr.*1)%nat.
Proof. destruct (gate_run_inv _ _ _ Hrun H0) as [_ Hcount]. specialize (Hcount i). lia. Qed.

(** A dispatched call carries the goal-yolo grant only if the node is in
    yolo mode and the call asked for it, or a human approved a call that
    asked for it, or — the hole — the session already runs under goal yolo,
    the policy says [Ask], and the model wrote the grant into its own
    arguments, which that path forwards unstamped and unstripped. *)
Theorem yolo_grant_authority {V : Type} `{!JsonArgs V} `{!JsonArgsLaws V} `{!FsOps} (nonce s : Z)
    (g g' : Supervisor V) (e : Event V) (eff : list (Effect V)) (c : ToolCall V)
    (Hev : on_event nonce g e = (g', eff)) (HR : Run s c ∈ eff)
    (Hg : yolo_grant_present (call_args c) = true) :
  (exists c0, e = ToolRequested s c0 /\
     (mode (policy g) = Yolo /\ requests_yolo_elevation (call_tool c0) (call_args c0) = true \/
      session_yolo g s = true /\ gate_decision g c0 = Ask /\ c = c0 /\
        requests_yolo_elevation (call_tool c0) (call_args c0) = false)) \/
  (exists p a, e = UserApproval s a true (pend_nonce p) /\ pending_approvals g !! a = Some p /\
     requests_yolo_elevation (call_tool (pend_call p)) (call_args (pend_call p)) = true).
Proof.
  assert (Hstamp : forall c0 ok, yolo_grant_present (call_args (grant_args c0 ok)) = true ->
            ok = true /\ requests_yolo_elevation (call_tool c0) (call_args c0) = true).
  { intros c0 ok. cbn [grant_args call_args]. rewrite grant_present_after. by intros [? ?]%andb_true_iff. }
  destruct (run_cases _ _ _ _ _ _ _ Hev HR) as [(c0 & -> & Hx)|(p & n & a & -> & Hp & Hs & Hn & -> & _)].
  - left. exists c0. split; [done|]. destruct Hx as [(Hd & Hy & ->)|(Hs & Hel & Hd & ->)].
    + apply Hstamp in Hg as [Hm%bool_decide_eq_true Hel]. by left.
    + by right.
  - right. exists p, a. apply Hstamp in Hg as [_ Hel]. by subst n.
Qed.

(** No parked entry of a session, through events that request nothing for it. *)
Lemma session_stays_clear {V : Type} `{!JsonArgs V} `{!FsOps} (g g' : Supervisor V) tr (s : Z) :
  gate_run g tr g' ->
  (forall a p, pending_approvals g !! a = Some p -> pend_session p <> s) ->
  (forall c, ToolRequested s c ∉ tr.*1) ->
  forall a p, pending_approvals g' !! a = Some p -> pend_session p <> s.
Proof.
  intros Hrun H0. induction Hrun as [g|g tr g1 draws nonce e g2 eff Hrun IH Hm Hs]; intros Hno; [done|].
  rewrite fmap_app in Hno.
  assert (IH' : forall a p, pending_approvals g1 !! a = Some p -> pend_session p <> s).
  { apply IH; [done|]. intros c Hin. apply (Hno c). set_solver. }
  assert (He : forall c, e <> ToolRequested s c).
  { intros c ->. apply (Hno c). set_solver. }
  assert (Hsub : forall m, m ⊆ pending_approvals g1 -> forall a p, m !! a = Some p -> pend_session p <> s).
  { intros m Hsub a p Hp. apply (IH' a). by eapply lookup_weaken. }
  destruct e as [s0 c0|s0 a granted n|s0|s0|c0| |c0|set0|op|cs]; cbn [on_event] in Hs;
    try (injection Hs as <- _; done).
  - apply on_tool_requested_cases in Hs as [(-> & _)|[(-> & _)|[-> _]]]; [done..|].
    intros a p. cbn [pending_approvals with_pending]. intros [[<- <-]|[_ Hp]]%lookup_insert_Some; [|by eapply IH'].
    cbn [pend_session]. intros ->. by apply (He c0).
  - unfold on_user_approval in Hs.
    destruct (take_matching_approval (pending_approvals g1) s0 a n) as [[p|] m'] eqn:Et; apply take_matching_spec in Et.
    + destruct Et as (_ & _ & _ & _ & ->). destruct granted; injection Hs as <- _; apply Hsub, delete_subseteq.
    + destruct Et as [-> _]. injection Hs as <- _. by apply Hsub.
  - injection Hs as <- _. apply Hsub, purge_submap.
  - injection Hs as <- _. apply Hsub, purge_submap.
  - injection Hs as <- _. apply Hsub, delete_subseteq.
Qed.

(** Once a session's turn is cancelled or complete, no approval frame can
    run anything for it — whatever id and nonce it names, whatever else
    happened since — until the session requests a tool again. *)
Theorem closed_turn_cannot_be_approved {V : Type} `{!JsonArgs V} `{!FsOps} (g1 g2 : Supervisor V)
    (nonce s a n : Z) (e : Event V) (g : Supervisor V) (tr : list (Event V * list (Effect V))) (granted : bool)
    (He : e = UserCancel s \/ e = TurnComplete s)
    (Hclose : on_event nonce g e = (g1, [])) (Hrun : gate_run g1 tr g2)
    (Hno : forall c, ToolRequested s c ∉ tr.*1) :
  on_event nonce g2 (UserApproval s a granted n) = (g2, []).
Proof.
  assert (Hclear : forall b p, pending_approvals g1 !! b = Some p -> pend_session p <> s).
  { intros b p. destruct He as [-> | ->]; cbn [on_event] in Hclose; injection Hclose as <-;
      cbn [pending_approvals with_pending]; unfold purge_session_approvals;
      by intros [_ ?]%map_lookup_filter_Some. }
  pose proof (session_stays_clear _ _ _ _ Hrun Hclear Hno) as Hc.
  cbn [on_event]. unfold on_user_approval.
  destruct (take_matching_approval (pending_approvals g2) s a n) as [[p|] m'] eqn:Et; apply take_matching_spec in Et.
  - destruct Et as (Hp & Hs & _). by destruct (Hc a p Hp).
  - destruct Et as [-> _]. by rewrite with_pending_self.
Qed.

(** ** Concrete inputs *)

Definition toy_boot : Supervisor Toy := boot workspace_policy ∅ (Some (chars "/w")) Full.

Definition shell_call : ToolCall Toy := mkCall 7 (chars "run_command") (ToyObj []) true.

Definition parked_gate : Supervisor Toy := fst (on_event 99 toy_boot (ToolRequested 1 shell_call)).

Definition parked_trace : list (Event Toy * list (Effect Toy)) :=
  [] ++ [(ToolRequested 1 shell_call, [ApprovalPending 1 shell_call 99])].

Lemma parked_run : gate_run toy_boot parked_trace parked_gate.
Proof. apply (run_snoc _ _ toy_boot [0; 99] 99); [apply run_nil|reflexivity|vm_compute; reflexivity]. Qed.

Lemma run_needs_authority_witness :
  exists c0 n, @UserApproval Toy 1 7 true 99 = UserApproval 1 (call_id c0) true n /\
    ApprovalPending 1 c0 n ∈ emitted parked_trace.
Proof.
  destruct (run_needs_authority toy_boot parked_gate (fst (on_event 5 parked_gate (UserApproval 1 7 true 99)))
    parked_trace 5 1 (UserApproval 1 7 true 99) [Run 1 shell_call] shell_call)
    as [(c0 & Hc & _)|(c0 & n & He & _ & Hin & _)].
  - reflexivity.
  - exact parked_run.
  - vm_compute. reflexivity.
  - apply list_elem_of_here.
  - discriminate Hc.
  - exists c0, n. split; assumption.
Defined.

Lemma dispatched_at_most_once_witness : (dispatches 7 (emitted parked_trace) <= requests 7 parked_trace.*1)%nat.
Proof.
  apply (dispatched_at_most_once toy_boot parked_gate parked_trace).
  - reflexivity.
  - exact parked_run.
Defined.

(** A goal session under yolo writes the grant into a [goal_create] that the
    policy would ask about: the call runs with the grant. *)
Definition forged_call : ToolCall Toy :=
  mkCall 8 (chars "goal_create") (ToyObj [(chars "objective", ToyStr (chars "x")); (YOLO_GRANT_KEY, ToyBool true)]) true.

Definition goal_gate : Supervisor Toy := fst (on_event 99 toy_boot (GoalYoloChanged (Some (Some {[ 4 ]})))).

Lemma yolo_grant_authority_witness :
  session_yolo goal_gate 4 = true /\ on_event 99 goal_gate (ToolRequested 4 forged_call) = (goal_gate, [Run 4 forged_call]) /\
  mode (policy goal_gate) = Suggest.
Proof.
  assert (Hev : on_event 99 goal_gate (ToolRequested 4 forged_call) = (goal_gate, [Run 4 forged_call]))
    by (vm_compute; reflexivity).
  destruct (yolo_grant_authority (V := Toy) 99 4 goal_gate goal_gate (ToolRequested 4 forged_call) [Run 4 forged_call] forged_call Hev)
    as [(c0 & Hc & [[Hm _]|(Hs & _)])|(p & a & Hp & _)].
  - apply list_elem_of_here.
  - vm_compute. reflexivity.
  - vm_compute in Hm. discriminate Hm.
  - split; [exact Hs|]. split; [exact Hev|vm_compute; reflexivity].
  - discriminate Hp.
Defined.

Lemma closed_turn_cannot_be_approved_witness :
  let g1 := fst (on_event 5 parked_gate (UserCancel 1)) in
  on_event 5 g1 (UserApproval 1 7 true 99) = (g1, []).
Proof.
  intros g1. apply (closed_turn_cannot_be_approved g1 g1 5 1 7 99 (UserCancel 1) parked_gate [] true).
  - left. reflexivity.
  - vm_compute. reflexivity.
  - apply run_nil.
  - intros c. apply not_elem_of_nil.
Defined.
