(* ===== verification/Goal.v ===== *)
(** * The goal driver

    [agentd/crates/agentd/src/goal.rs]: a goal is a bounded run of turns on a
    session of its own.  The driver is one task; each arm of its [select!] is
    an operation on [Driver], which holds the goals, the batches it waits for,
    the set of sessions armed for goal yolo (shared with the supervisor,
    [None] once its lock is poisoned), the id counters and [goals.json].  Time
    is milliseconds, read once per arm; the prompt texts are the arguments of
    the format they are built with; the Cerebro episode calls are their
    answers. *)
From S2P Require Import Prelude Wire Text Connectivity Confine Policy Protocol Gate.

Inductive GoalState := Planning | Acting | Blocked | Reflecting | Done | Failed | Cancelled.

#[export] Instance GoalState_eq_dec : EqDecision GoalState.
Proof. solve_decision. Defined.

Inductive Verdict :=
  | VContinue (steer : option text)
  | VDone
  | VBlocked (reason : text).

Definition DEFAULT_MAX_STEPS : Z := 12.
Definition MAX_STEPS_CEIL : Z := 100.
Definition STEP_TIMEOUT : Z := 900 * 1000.

Record Goal := mkGoal {
  go_objective : text;
  go_session : Z;
  go_state : GoalState;
  go_step : Z;
  go_max_steps : Z;
  go_step_started : Z;
  go_pending : option Verdict;
  go_episode : option text;
  go_yolo : bool;
  go_awaiting_batch : bool
}.

Record PersistedGoal := mkPersisted {
  pg_id : Z;
  pg_objective : text;
  pg_session : Z;
  pg_state : GoalState;
  pg_step : Z;
  pg_max_steps : Z;
  pg_episode : option text;
  pg_yolo : bool
}.

(** What a prompt is built from: [directive_first], [directive_continue],
    [directive_integrate]. *)
Inductive Directive :=
  | DirectiveFirst (objective : text) (max_steps : Z)
  | DirectiveContinue (objective : text) (step max_steps : Z) (steer : option text)
  | DirectiveIntegrate (objective : text) (step max_steps batch : Z) (rows : list BatchWorkerRow).

Inductive GoalEffect :=
  | ToolReply (session call : Z) (ok : bool)
  | GoalStateChanged (goal : Z) (s : GoalState) (step : Z) (detail : text) (yolo : bool) (session : Z)
  | GoalPrompt (session : Z) (d : Directive)
  | CancelTurn (session : Z)
  | EpisodeEnd (episode : text) (s : GoalState) (step : Z).

Record Driver := mkDriver {
  goals : gmap Z Goal;
  next_goal_id : Z;
  next_session_id : Z;
  yolo_set : option (gset Z);
  pending_batches : gmap Z (gset Z);
  done_batches : gset Z;
  goals_file : list PersistedGoal
}.

(** ** State updates *)

Definition with_goals (d : Driver) (gs : gmap Z Goal) : Driver :=
  mkDriver gs (next_goal_id d) (next_session_id d) (yolo_set d) (pending_batches d) (done_batches d) (goals_file d).
Definition with_yolo (d : Driver) (s : option (gset Z)) : Driver :=
  mkDriver (goals d) (next_goal_id d) (next_session_id d) s (pending_batches d) (done_batches d) (goals_file d).
Definition with_batches (d : Driver) (p : gmap Z (gset Z)) (done : gset Z) : Driver :=
  mkDriver (goals d) (next_goal_id d) (next_session_id d) (yolo_set d) p done (goals_file d).
Definition with_file (d : Driver) (f : list PersistedGoal) : Driver :=
  mkDriver (goals d) (next_goal_id d) (next_session_id d) (yolo_set d) (pending_batches d) (done_batches d) f.
Definition with_ids (d : Driver) (gid sid : Z) : Driver :=
  mkDriver (goals d) gid sid (yolo_set d) (pending_batches d) (done_batches d) (goals_file d).

Definition put_goal (d : Driver) (gid : Z) (go : Goal) : Driver := with_goals d (<[gid := go]> (goals d)).

Definition set_state (go : Goal) (s : GoalState) : Goal :=
  mkGoal (go_objective go) (go_session go) s (go_step go) (go_max_steps go) (go_step_started go)
         None (go_episode go) (go_yolo go) (go_awaiting_batch go).
Definition set_step (go : Goal) (step now : Z) : Goal :=
  mkGoal (go_objective go) (go_session go) (go_state go) step (go_max_steps go) now
         None (go_episode go) (go_yolo go) (go_awaiting_batch go).
Definition set_awaiting (go : Goal) (b : bool) : Goal :=
  mkGoal (go_objective go) (go_session go) (go_state go) (go_step go) (go_max_steps go) (go_step_started go)
         (go_pending go) (go_episode go) (go_yolo go) b.
Definition set_verdict (go : Goal) (v : option Verdict) : Goal :=
  mkGoal (go_objective go) (go_session go) (go_state go) (go_step go) (go_max_steps go) (go_step_started go)
         v (go_episode go) (go_yolo go) (go_awaiting_batch go).
Definition set_episode (go : Goal) (e : option text) : Goal :=
  mkGoal (go_objective go) (go_session go) (go_state go) (go_step go) (go_max_steps go) (go_step_started go)
         (go_pending go) e (go_yolo go) (go_awaiting_batch go).

Definition yolo_insert (d : Driver) (session : Z) : Driver := with_yolo d ((fun s => {[ session ]} ∪ s) <$> yolo_set d).
Definition yolo_remove (d : Driver) (session : Z) : Driver := with_yolo d ((fun s => s ∖ {[ session ]}) <$> yolo_set d).

(** [iter_mut().find(..)] over the map, in the order it iterates. *)
Definition find_goal (p : Goal -> bool) (d : Driver) : option (Z * Goal) :=
  List.find (fun e => p e.2) (map_to_list (goals d)).

Definition acting_on (session : Z) (go : Goal) : bool :=
  (go_session go =? session) && bool_decide (go_state go = Acting).

Definition em_dash : text := [8212].

Definition emit_state (gid : Z) (go : Goal) (detail : text) : GoalEffect :=
  GoalStateChanged gid (go_state go) (go_step go) detail (go_yolo go) (go_session go).

Definition end_episode (ep : option text) (s : GoalState) (step : Z) : list GoalEffect :=
  match ep with Some e => [EpisodeEnd e s step] | None => [] end.

(** ** Persistence *)

Definition persist_goal (gid : Z) (go : Goal) : PersistedGoal :=
  mkPersisted gid (go_objective go) (go_session go) (go_state go) (go_step go) (go_max_steps go)
              (go_episode go) (go_yolo go).

(** [save_goals]; [write_ok]: whether the file could be written. *)
Definition save_goals (write_ok : bool) (d : Driver) : Driver :=
  if write_ok then with_file d ((fun e => persist_goal e.1 e.2) <$> map_to_list (goals d)) else d.

Definition terminal (s : GoalState) : bool :=
  match s with Done | Failed | Cancelled => true | _ => false end.

Definition reload_state (s : GoalState) : GoalState := if bool_decide (s = Acting) then Blocked else s.

(** The loop of [reload_goals] over the file's entries. *)
Definition reload_one (now : Z) (d : Driver) (pg : PersistedGoal) : Driver :=
  let state := reload_state (pg_state pg) in
  let d := if pg_yolo pg && negb (terminal state) then yolo_insert d (pg_session pg) else d in
  put_goal d (pg_id pg)
    (mkGoal (pg_objective pg) (pg_session pg) state (pg_step pg) (pg_max_steps pg) now None
            (pg_episode pg) (pg_yolo pg) false).

Definition reload_announce (pg : PersistedGoal) : GoalEffect :=
  let state := reload_state (pg_state pg) in
  GoalStateChanged (pg_id pg) state (pg_step pg)
    (if bool_decide (state = Blocked)
     then chars "interrupted by daemon restart " ++ em_dash ++ chars " goal_resume to continue" else [])
    (pg_yolo pg) (pg_session pg).

Definition reload_goals (now : Z) (d : Driver) : Driver * list GoalEffect :=
  match goals_file d with
  | [] => (d, [])
  | loaded =>
      let d' := foldl (reload_one now) d loaded in
      (with_ids d' (Z.max (next_goal_id d') (as_u64 (foldl Z.max 0 (pg_id <$> loaded) + 1))) (next_session_id d'),
       reload_announce <$> loaded)
  end.

(** A fresh process: nothing in memory, the file as it was left, the session
    counter seeded elsewhere. *)
Definition driver_boot (now seed : Z) (file : list PersistedGoal) : Driver :=
  (reload_goals now (mkDriver ∅ 1 seed (Some ∅) ∅ ∅ file)).1.

(** ** Requests *)

Section requests.
Context {V : Type} `{!JsonArgs V} `{!JsonNums V}.

Definition parse_verdict (args : V) : Verdict :=
  match arg_str args (chars "status") with
  | Some s =>
      if bool_decide (s = chars "done") then VDone
      else if bool_decide (s = chars "blocked") then VBlocked (default (chars "blocked") (arg_str args (chars "reason")))
      else VContinue (arg_str args (chars "next"))
  | None => VContinue (arg_str args (chars "next"))
  end.

(** [(n as u32).clamp(1, MAX_STEPS_CEIL)]. *)
Definition max_steps_of (args : V) : Z :=
  match arg_u64 args (chars "max_steps") with
  | Some n => Z.min (Z.max (as_u32 n) 1) MAX_STEPS_CEIL
  | None => DEFAULT_MAX_STEPS
  end.

(** [episode]: what [episode_start_goal] answers. *)
Definition create_goal (now : Z) (episode : option text) (d : Driver) (call_session call_id : Z) (args : V)
    : Driver * list GoalEffect :=
  match arg_str args (chars "objective") with
  | Some objective =>
      if bool_decide (trim objective = []) then (d, [ToolReply call_session call_id false]) else
      let max_steps := max_steps_of args in
      let yolo := yolo_grant_present args in
      let gid := next_goal_id d in
      let sid := next_session_id d in
      let d := with_ids d (as_u64 (gid + 1)) (as_u64 (sid + 1)) in
      let d := if yolo then yolo_insert d sid else d in
      let go := mkGoal objective sid Acting 1 max_steps now None episode yolo false in
      (put_goal d gid go,
       [ToolReply call_session call_id true; emit_state gid go [];
        GoalPrompt sid (DirectiveFirst objective max_steps)])
  | None => (d, [ToolReply call_session call_id false])
  end.

Definition record_step (d : Driver) (call_session call_id : Z) (args : V) : Driver * list GoalEffect :=
  match find_goal (acting_on call_session) d with
  | Some (gid, go) => (put_goal d gid (set_verdict go (Some (parse_verdict args))), [ToolReply call_session call_id true])
  | None => (d, [ToolReply call_session call_id false])
  end.

Definition resume_goal (now : Z) (d : Driver) (call_session call_id : Z) (args : V) : Driver * list GoalEffect :=
  match arg_u64 args (chars "goal_id") ≫= (fun id => (fun go => (id, go)) <$> goals d !! id) with
  | Some (id, go) =>
      match go_state go with
      | Blocked | Failed =>
          let go := set_step (set_state go Acting) (go_step go) now in
          let d := put_goal d id go in
          let d := if go_yolo go then yolo_insert d (go_session go) else d in
          (d, [emit_state id go (chars "resumed");
               GoalPrompt (go_session go) (DirectiveContinue (go_objective go) (go_step go) (go_max_steps go) None);
               ToolReply call_session call_id true])
      | _ => (d, [ToolReply call_session call_id false])
      end
  | None => (d, [ToolReply call_session call_id false])
  end.

Definition cancel_goal (d : Driver) (call_session call_id : Z) (args : V) : Driver * list GoalEffect :=
  match arg_u64 args (chars "goal_id") ≫= (fun id => (fun go => (id, go)) <$> goals d !! id) with
  | Some (id, go) =>
      match go_state go with
      | Acting | Blocked =>
          let episode := go_episode go in
          let go := set_episode (set_state go Cancelled) None in
          (yolo_remove (put_goal d id go) (go_session go),
           [CancelTurn (go_session go); emit_state id go (chars "cancelled")]
           ++ end_episode episode Cancelled (go_step go) ++ [ToolReply call_session call_id true])
      | _ => (d, [ToolReply call_session call_id false])
      end
  | None => (d, [ToolReply call_session call_id false])
  end.
End requests.

(** ** Events of the goal's own session *)

(** The [Finished] outcome: announce; Done and Failed also disarm and close. *)
Definition finished (d : Driver) (gid : Z) (go : Goal) (detail : text) : Driver * list GoalEffect :=
  let d := put_goal d gid go in
  match go_state go with
  | Done | Failed =>
      (yolo_remove d (go_session go), emit_state gid go detail :: end_episode (go_episode go) (go_state go) (go_step go))
  | _ => (d, [emit_state gid go detail])
  end.

Definition advance (now : Z) (d : Driver) (session : Z) : Driver * list GoalEffect * bool :=
  match find_goal (acting_on session) d with
  | None => (d, [], false)
  | Some (gid, go) =>
      match default (VContinue None) (go_pending go) with
      | VDone => (finished d gid (set_state go Done) [], true)
      | VBlocked reason => (finished d gid (set_state go Blocked) reason, true)
      | VContinue steer =>
          if go_max_steps go <=? go_step go
          then (finished d gid (set_state go Done) (chars "step budget reached"), true)
          else
            let go := set_step go (go_step go + 1) now in
            (put_goal d gid go,
             [emit_state gid go [];
              GoalPrompt session (DirectiveContinue (go_objective go) (go_step go) (go_max_steps go) steer)], true)
      end
  end.

Definition hold_awaiting_batch (d : Driver) (session : Z) : Driver * list GoalEffect * bool :=
  match find_goal (acting_on session) d with
  | Some (gid, go) =>
      if go_awaiting_batch go then (d, [], false)
      else (put_goal d gid (set_awaiting go true), [emit_state gid go (chars "awaiting batch")], true)
  | None => (d, [], false)
  end.

Definition resume_after_batch (now : Z) (d : Driver) (session batch : Z) (rows : list BatchWorkerRow)
    : Driver * list GoalEffect * bool :=
  match find_goal (fun go => acting_on session go && go_awaiting_batch go) d with
  | Some (gid, go) =>
      let go := set_step (set_awaiting go false) (Z.min (go_step go + 1) (go_max_steps go)) now in
      (put_goal d gid go,
       [emit_state gid go (chars "batch " ++ dec_text batch ++ chars " reported " ++ em_dash ++ chars " integrating");
        GoalPrompt session (DirectiveIntegrate (go_objective go) (go_step go) (go_max_steps go) batch rows)], true)
  | None => (d, [], false)
  end.

Definition block_on_approval (d : Driver) (session : Z) (tool : text) : Driver * list GoalEffect * bool :=
  match find_goal (acting_on session) d with
  | Some (gid, go) =>
      let go := set_state go Blocked in
      (put_goal d gid go, [CancelTurn session; emit_state gid go (chars "awaiting approval " ++ em_dash ++ chars " " ++ tool)], true)
  | None => (d, [], false)
  end.

(** [parse_step_timeout]: milliseconds. *)
Definition parse_step_timeout (raw : option text) : Z :=
  match raw ≫= parse_u64 with
  | Some n => if 30 <=? n then n * 1000 else STEP_TIMEOUT
  | None => STEP_TIMEOUT
  end.

Definition stalled (now step_timeout : Z) (go : Goal) : bool :=
  bool_decide (go_state go = Acting) && negb (go_awaiting_batch go) && (step_timeout <? now - go_step_started go).

Definition fail_one (d : Driver * list GoalEffect) (e : Z * Goal) : Driver * list GoalEffect :=
  let go := mkGoal (go_objective e.2) (go_session e.2) Failed (go_step e.2) (go_max_steps e.2) (go_step_started e.2)
                   (go_pending e.2) (go_episode e.2) (go_yolo e.2) (go_awaiting_batch e.2) in
  (yolo_remove (put_goal d.1 e.1 go) (go_session go),
   d.2 ++ emit_state e.1 go (chars "step stalled " ++ em_dash ++ chars " no completion") :: end_episode (go_episode go) Failed (go_step go)).

Definition fail_stalled (now step_timeout : Z) (d : Driver) : Driver * list GoalEffect * bool :=
  let failed := List.filter (fun e => stalled now step_timeout e.2) (map_to_list (goals d)) in
  (foldl fail_one (d, []) failed, match failed with [] => false | _ => true end).

(** ** The loop *)

Inductive DriverEvent (V : Type) :=
  | GoalCreate (session call : Z) (args : V) (episode : option text)
  | GoalStep (session call : Z) (args : V)
  | GoalResume (session call : Z) (args : V)
  | GoalCancel (session call : Z) (args : V)
  | ListGoals (session call : Z)
  | TurnEnded (session : Z)
  | ApprovalAsked (session : Z) (tool : text)
  | WorkerChanged (batch parent : Z)
  | BatchDone (batch parent : Z) (rows : list BatchWorkerRow)
  | Tick.
Arguments GoalCreate {V}. Arguments GoalStep {V}. Arguments GoalResume {V}. Arguments GoalCancel {V}.
Arguments ListGoals {V}. Arguments TurnEnded {V}. Arguments ApprovalAsked {V}. Arguments WorkerChanged {V}.
Arguments BatchDone {V}. Arguments Tick {V}.

Definition saved_if (write_ok : bool) (r : Driver * list GoalEffect * bool) : Driver * list GoalEffect :=
  let '(d, eff, changed) := r in (if changed then save_goals write_ok d else d, eff).

Definition saved (write_ok : bool) (r : Driver * list GoalEffect) : Driver * list GoalEffect :=
  (save_goals write_ok r.1, r.2).

Definition batches_of (d : Driver) (session : Z) : gset Z := default ∅ (pending_batches d !! session).

Definition on_turn_ended (now : Z) (d : Driver) (session : Z) : Driver * list GoalEffect * bool :=
  if bool_decide (batches_of d session = ∅) then advance now d session else hold_awaiting_batch d session.

Definition on_worker_changed (d : Driver) (batch parent : Z) : Driver :=
  if bool_decide (batch ∈ done_batches d) then d
  else with_batches d (<[parent := {[ batch ]} ∪ batches_of d parent]> (pending_batches d)) (done_batches d).

Definition on_batch_done (now : Z) (d : Driver) (batch parent : Z) (rows : list BatchWorkerRow)
    : Driver * list GoalEffect * bool :=
  let left := batches_of d parent ∖ {[ batch ]} in
  let done := {[ batch ]} ∪ done_batches d in
  if bool_decide (left = ∅)
  then resume_after_batch now (with_batches d (delete parent (pending_batches d)) done) parent batch rows
  else (with_batches d (<[parent := left]> (pending_batches d)) done, [], false).

(** One arm of the [select!]. *)
Definition driver_step {V : Type} `{!JsonArgs V} `{!JsonNums V} (now step_timeout : Z) (write_ok : bool)
    (d : Driver) (e : DriverEvent V) : Driver * list GoalEffect :=
  match e with
  | GoalCreate s c args ep => saved write_ok (create_goal now ep d s c args)
  | GoalStep s c args => record_step d s c args
  | GoalResume s c args => saved write_ok (resume_goal now d s c args)
  | GoalCancel s c args => saved write_ok (cancel_goal d s c args)
  | ListGoals s c => (d, [ToolReply s c true])
  | TurnEnded s => saved_if write_ok (on_turn_ended now d s)
  | ApprovalAsked s tool => saved_if write_ok (block_on_approval d s tool)
  | WorkerChanged b p => (on_worker_changed d b p, [])
  | BatchDone b p rows => saved_if write_ok (on_batch_done now d b p rows)
  | Tick => saved_if write_ok (fail_stalled now step_timeout d)
  end.

(** ** Invariant *)

Definition live (go : Goal) : bool := go_yolo go && negb (terminal (go_state go)).

(** Ids and sessions below the counters, sessions distinct, steps within the
    budget, and the armed sessions exactly those of live granted goals. *)
Record goals_ok (gs : gmap Z Goal) (ng ns : Z) (ys : gset Z) : Prop := mkGoalsOk {
  ok_ids : forall gid go, gs !! gid = Some go -> gid < ng;
  ok_sessions : forall gid go, gs !! gid = Some go -> go_session go < ns;
  ok_distinct : forall i j a b, gs !! i = Some a -> gs !! j = Some b -> go_session a = go_session b -> i = j;
  ok_steps : forall gid go, gs !! gid = Some go -> 1 <= go_step go <= go_max_steps go;
  ok_yolo : forall x, x ∈ ys <-> exists gid go, gs !! gid = Some go /\ go_session go = x /\ live go = true
}.

Definition driver_ok (d : Driver) : Prop :=
  exists ys, yolo_set d = Some ys /\ goals_ok (goals d) (next_goal_id d) (next_session_id d) ys.

(** Replace a goal by one of the same session and grant: the armed set must
    follow whether the goal is still live. *)
Lemma replace_ok gs ng ns ys ys' gid go go' :
  goals_ok gs ng ns ys -> gs !! gid = Some go ->
  go_session go' = go_session go -> 1 <= go_step go' <= go_max_steps go' ->
  (forall x, x ∈ ys' <-> (x <> go_session go /\ x ∈ ys) \/ (x = go_session go /\ live go' = true)) ->
  goals_ok (<[gid := go']> gs) ng ns ys'.
Proof.
  intros [H1 H2 H3 H4 H5] Hg Hs Hst Hy. split.
  - intros i a [[<- _]|[_ Hi]]%lookup_insert_Some; [by eapply H1|by eapply H1].
  - intros i a [[<- <-]|[_ Hi]]%lookup_insert_Some; [rewrite Hs; by eapply H2|by eapply H2].
  - intros i j a b [[<- <-]|[Hi Ha]]%lookup_insert_Some [[<- <-]|[Hj Hb]]%lookup_insert_Some E; try done.
    + by eapply (H3 gid j go b); [..|congruence].
    + by eapply (H3 i gid a go); [..|congruence].
    + by eapply H3.
  - intros i a [[<- <-]|[_ Hi]]%lookup_insert_Some; [done|by eapply H4].
  - intros x. rewrite Hy, H5. split.
    + intros [[Hne (i & a & Hi & Ha & Hl)]|[-> Hl]].
      * exists i, a. rewrite lookup_insert_ne; [done|]. intros <-. congruence.
      * exists gid, go'. rewrite lookup_insert_eq. by rewrite Hs.
    + intros (i & a & [[<- <-]|[Hi Ha]]%lookup_insert_Some & <- & Hl); [right; by rewrite Hs|].
      left. split; [|by exists i, a]. intros E. apply Hi. by eapply (H3 gid i go a).
Qed.

Lemma yolo_mem_self gs ng ns ys gid go :
  goals_ok gs ng ns ys -> gs !! gid = Some go -> go_session go ∈ ys <-> live go = true.
Proof.
  intros Hok Hg. rewrite (ok_yolo _ _ _ _ Hok). split.
  - intros (i & a & Hi & Hs & Hl). assert (i = gid) as -> by (by eapply (ok_distinct _ _ _ _ Hok i gid)).
    congruence.
  - intros Hl. by exists gid, go.
Qed.

(** The three ways an operation leaves the armed set. *)
Lemma put_same_ok d gid go go' :
  driver_ok d -> goals d !! gid = Some go -> go_session go' = go_session go ->
  1 <= go_step go' <= go_max_steps go' -> live go' = live go -> driver_ok (put_goal d gid go').
Proof.
  intros (ys & Hy & Hok) Hg Hs Hst Hl. exists ys. split; [done|]. cbn [put_goal with_goals goals next_goal_id next_session_id].
  eapply replace_ok; [done..|]. intros x. rewrite Hl, <- (yolo_mem_self _ _ _ _ _ _ Hok Hg).
  destruct (decide (x = go_session go)) as [->|]; naive_solver.
Qed.

Lemma put_insert_ok d gid go go' :
  driver_ok d -> goals d !! gid = Some go -> go_session go' = go_session go ->
  1 <= go_step go' <= go_max_steps go' -> live go' = true ->
  driver_ok (yolo_insert (put_goal d gid go') (go_session go)).
Proof.
  intros (ys & Hy & Hok) Hg Hs Hst Hl. exists ({[ go_session go ]} ∪ ys). split.
  { unfold yolo_insert. cbn [with_yolo yolo_set put_goal with_goals]. by rewrite Hy. }
  cbn [yolo_insert with_yolo put_goal with_goals goals next_goal_id next_session_id].
  eapply replace_ok; [done..|]. intros x. rewrite elem_of_union, elem_of_singleton, Hl.
  destruct (decide (x = go_session go)); naive_solver.
Qed.

Lemma put_remove_ok d gid go go' :
  driver_ok d -> goals d !! gid = Some go -> go_session go' = go_session go ->
  1 <= go_step go' <= go_max_steps go' -> live go' = false ->
  driver_ok (yolo_remove (put_goal d gid go') (go_session go)).
Proof.
  intros (ys & Hy & Hok) Hg Hs Hst Hl. exists (ys ∖ {[ go_session go ]}). split.
  { unfold yolo_remove. cbn [with_yolo yolo_set put_goal with_goals]. by rewrite Hy. }
  cbn [yolo_remove with_yolo put_goal with_goals goals next_goal_id next_session_id].
  eapply replace_ok; [done..|]. intros x. rewrite elem_of_difference, elem_of_singleton, Hl. naive_solver.
Qed.

Lemma ok_with_file d f : driver_ok (with_file d f) <-> driver_ok d.
Proof. done. Qed.
Lemma ok_with_batches d p q : driver_ok (with_batches d p q) <-> driver_ok d.
Proof. done. Qed.
Lemma save_ok w d : driver_ok (save_goals w d) <-> driver_ok d.
Proof. by destruct w. Qed.

Lemma find_goal_Some p d gid go : find_goal p d = Some (gid, go) -> goals d !! gid = Some go /\ p go = true.
Proof.
  unfold find_goal. intros [Hin Hp]%find_some. split; [|done].
  apply elem_of_map_to_list. by apply list_elem_of_In.
Qed.

Lemma acting_on_spec s go : acting_on s go = true <-> go_session go = s /\ go_state go = Acting.
Proof. unfold acting_on. rewrite andb_true_iff, Z.eqb_eq, bool_decide_eq_true. done. Qed.

Lemma steps_of d gid go : driver_ok d -> goals d !! gid = Some go -> 1 <= go_step go <= go_max_steps go.
Proof. intros (ys & _ & Hok) Hg. by eapply ok_steps. Qed.

(** ** One event, one goal *)

(** The edges of a goal's state machine, by the event that takes them. *)
Definition edge {V : Type} (e : DriverEvent V) (s s' : GoalState) : Prop :=
  s' = s \/
  match e with
  | TurnEnded _ => s = Acting /\ (s' = Done \/ s' = Blocked)
  | ApprovalAsked _ _ => s = Acting /\ s' = Blocked
  | Tick => s = Acting /\ s' = Failed
  | GoalCancel _ _ _ => (s = Acting \/ s = Blocked) /\ s' = Cancelled
  | GoalResume _ _ _ => (s = Blocked \/ s = Failed) /\ s' = Acting
  | _ => False
  end.

Record evolves {V : Type} (e : DriverEvent V) (go go' : Goal) : Prop := mkEvolves {
  ev_objective : go_objective go' = go_objective go;
  ev_session : go_session go' = go_session go;
  ev_max : go_max_steps go' = go_max_steps go;
  ev_yolo : go_yolo go' = go_yolo go;
  ev_step : go_step go <= go_step go' <= Z.max (go_step go) (go_max_steps go);
  ev_edge : edge e (go_state go) (go_state go')
}.

(** [d] to [d'] keeps the invariant and only moves goals along edges. *)
Definition good_step {V : Type} (e : DriverEvent V) (d d' : Driver) : Prop :=
  driver_ok d' /\
  forall gid go, goals d !! gid = Some go -> exists go', goals d' !! gid = Some go' /\ evolves e go go'.

Section good.
Context {V : Type} (e : DriverEvent V).

Lemma evolves_refl go : evolves e go go.
Proof. split; try done; [lia|by left]. Qed.

Lemma good_refl d : driver_ok d -> good_step e d d.
Proof. intros Hok. split; [done|]. intros gid go Hg. exists go. split; [done|apply evolves_refl]. Qed.

Lemma evolves_insert d gid go go' :
  goals d !! gid = Some go -> evolves e go go' ->
  forall i a, goals d !! i = Some a -> exists a', <[gid := go']> (goals d) !! i = Some a' /\ evolves e a a'.
Proof.
  intros Hg Hev i a Hi. destruct (decide (gid = i)) as [<-|Hne].
  - exists go'. rewrite lookup_insert_eq. split; [done|]. congruence.
  - exists a. rewrite lookup_insert_ne by done. split; [done|apply evolves_refl].
Qed.

Lemma evolves_steps d gid go go' :
  driver_ok d -> goals d !! gid = Some go -> evolves e go go' -> 1 <= go_step go' <= go_max_steps go'.
Proof.
  intros Hok Hg [_ _ Hm _ Hst _]. pose proof (steps_of _ _ _ Hok Hg). rewrite Hm. lia.
Qed.

Lemma good_put_same d gid go go' :
  driver_ok d -> goals d !! gid = Some go -> evolves e go go' -> live go' = live go ->
  good_step e d (put_goal d gid go').
Proof.
  intros Hok Hg Hev Hl. split; [|by eapply evolves_insert].
  eapply put_same_ok; [done..|apply Hev|by eapply evolves_steps|done].
Qed.

Lemma good_put_insert d gid go go' :
  driver_ok d -> goals d !! gid = Some go -> evolves e go go' -> live go' = true ->
  good_step e d (yolo_insert (put_goal d gid go') (go_session go)).
Proof.
  intros Hok Hg Hev Hl. split; [|by eapply evolves_insert].
  eapply put_insert_ok; [done..|apply Hev|by eapply evolves_steps|done].
Qed.

Lemma good_put_remove d gid go go' :
  driver_ok d -> goals d !! gid = Some go -> evolves e go go' -> live go' = false ->
  good_step e d (yolo_remove (put_goal d gid go') (go_session go)).
Proof.
  intros Hok Hg Hev Hl. split; [|by eapply evolves_insert].
  eapply put_remove_ok; [done..|apply Hev|by eapply evolves_steps|done].
Qed.

Lemma good_save w d d' : good_step e d d' -> good_step e d (save_goals w d').
Proof. by destruct w. Qed.

Lemma good_saved_if w d r : good_step e d r.1.1 -> good_step e d (saved_if w r).1.
Proof. destruct r as [[d' eff] []]; cbn [saved_if fst]; [apply good_save|done]. Qed.
End good.

Ltac evolve := split; cbn; try done; try lia; unfold edge; naive_solver.

Lemma live_terminal go s : terminal s = true -> live (set_state go s) = false.
Proof. intros Hs. unfold live. cbn [set_state go_state go_yolo]. by rewrite Hs, andb_false_r. Qed.

Lemma advance_good {V : Type} now d s :
  driver_ok d -> good_step (@TurnEnded V s) d (advance now d s).1.1.
Proof.
  intros Hok. unfold advance. destruct (find_goal (acting_on s) d) as [[gid go]|] eqn:Ef; [|by apply good_refl].
  apply find_goal_Some in Ef as [Hg [Hs Ha]%acting_on_spec].
  assert (Hdone : forall detail, good_step (@TurnEnded V s) d (finished d gid (set_state go Done) detail).1).
  { intros detail. unfold finished. cbn [set_state go_state fst go_session].
    apply (good_put_remove _ _ gid go); [done..| |by apply live_terminal]. evolve. }
  destruct (default (VContinue None) (go_pending go)) as [steer| |reason]; cbn [fst]; [|apply Hdone|].
  - destruct (Z.leb_spec (go_max_steps go) (go_step go)) as [Hle|Hlt]; cbn [fst]; [apply Hdone|].
    apply (good_put_same _ _ gid go); [done..| |done]. evolve.
  - unfold finished. cbn [set_state go_state fst].
    apply (good_put_same _ _ gid go); [done..| |]; [evolve|]. unfold live. cbn. by rewrite Ha.
Qed.

Lemma turn_ended_good {V : Type} now d s :
  driver_ok d -> good_step (@TurnEnded V s) d (on_turn_ended now d s).1.1.
Proof.
  intros Hok. unfold on_turn_ended. case_bool_decide; [by apply advance_good|].
  unfold hold_awaiting_batch. destruct (find_goal (acting_on s) d) as [[gid go]|] eqn:Ef; [|by apply good_refl].
  apply find_goal_Some in Ef as [Hg _]. destruct (go_awaiting_batch go); [by apply good_refl|].
  apply (good_put_same _ _ gid go); [done..| |done]. evolve.
Qed.

Lemma approval_good {V : Type} d s tool :
  driver_ok d -> good_step (@ApprovalAsked V s tool) d (block_on_approval d s tool).1.1.
Proof.
  intros Hok. unfold block_on_approval.
  destruct (find_goal (acting_on s) d) as [[gid go]|] eqn:Ef; [|by apply good_refl].
  apply find_goal_Some in Ef as [Hg [Hs Ha]%acting_on_spec].
  apply (good_put_same _ _ gid go); [done..| |]; [evolve|]. unfold live. cbn. by rewrite Ha.
Qed.

Lemma good_goals_eq {V : Type} (e : DriverEvent V) d0 d d' : goals d0 = goals d -> good_step e d d' -> good_step e d0 d'.
Proof. intros E [H1 H2]. split; [done|]. by rewrite E. Qed.

Lemma batch_done_good {V : Type} now d b p rows :
  driver_ok d -> good_step (@BatchDone V b p rows) d (on_batch_done now d b p rows).1.1.
Proof.
  intros Hok. unfold on_batch_done. destruct (bool_decide _).
  2: { cbn [fst]. set (d1 := with_batches d _ _). apply (good_goals_eq _ d d1); [done|]. by apply good_refl. }
  set (d1 := with_batches d _ _). assert (Hok1 : driver_ok d1) by done.
  apply (good_goals_eq _ d d1); [done|]. clearbody d1. clear d Hok.
  unfold resume_after_batch.
  destruct (find_goal _ d1) as [[gid go]|] eqn:Ef; [|by apply good_refl].
  apply find_goal_Some in Ef as [Hg _]. pose proof (steps_of _ _ _ Hok1 Hg).
  apply (good_put_same _ _ gid go); [done..| |done]. evolve.
Qed.

Lemma fail_fold_good {V : Type} l d eff :
  driver_ok d -> NoDup l.*1 ->
  (forall gid go, (gid, go) ∈ l -> goals d !! gid = Some go /\ go_state go = Acting) ->
  good_step (@Tick V) d (foldl fail_one (d, eff) l).1.
Proof.
  revert d eff. induction l as [|[gid go] l IH]; intros d eff Hok Hnd Hl; cbn [foldl]; [by apply good_refl|].
  apply NoDup_cons in Hnd as [Hni Hnd]. destruct (Hl gid go) as [Hg Ha]; [apply list_elem_of_here|].
  unfold fail_one at 2. cbn [fst snd go_session]. set (go' := mkGoal _ _ Failed _ _ _ _ _ _ _).
  assert (G1 : good_step (@Tick V) d (yolo_remove (put_goal d gid go') (go_session go))).
  { apply (good_put_remove _ _ gid go); [done..| |unfold live; cbn; by rewrite andb_false_r]. evolve. }
  set (d1 := yolo_remove _ _) in *. destruct (IH d1 (eff ++ emit_state gid go' (chars "step stalled " ++ em_dash ++ chars " no completion")
    :: end_episode (go_episode go') Failed (go_step go'))) as [Hok2 H2]; [apply G1|done| |].
  - intros i a Hi. assert (i <> gid) by (intros ->; apply Hni, list_elem_of_fmap; by exists (gid, a)).
    unfold d1. cbn [yolo_remove with_yolo put_goal with_goals goals]. rewrite lookup_insert_ne by done.
    apply Hl. by apply list_elem_of_further.
  - split; [done|]. intros i a Hi. destruct (decide (i = gid)) as [->|Hne].
    + assert (a = go) as -> by congruence.
      destruct (H2 gid go') as (a2 & Ha2 & Hev); [apply lookup_insert_eq|]. exists a2. split; [done|].
      destruct Hev as [E1 E2 E3 E4 E5 E6]. split; try done.
      destruct E6 as [E6|[E6 _]]; [|done]. rewrite E6. right. done.
    + apply H2. unfold d1. cbn [yolo_remove with_yolo put_goal with_goals goals]. by rewrite lookup_insert_ne.
Qed.

Lemma NoDup_fst_filter {A B} (f : A * B -> bool) (l : list (A * B)) : NoDup l.*1 -> NoDup (List.filter f l).*1.
Proof.
  induction l as [|x l IH]; cbn [List.filter fmap list_fmap]; [done|].
  intros [Hni Hnd]%NoDup_cons. destruct (f x); [|by apply IH]. cbn [fmap list_fmap].
  apply NoDup_cons. split; [|by apply IH]. intros (y & Ey & Hy)%list_elem_of_fmap. apply Hni.
  apply list_elem_of_fmap. exists y. split; [done|].
  apply list_elem_of_In in Hy. apply filter_In in Hy as [Hy _]. by apply list_elem_of_In.
Qed.

Lemma tick_good {V : Type} now tmo d : driver_ok d -> good_step (@Tick V) d (fail_stalled now tmo d).1.1.
Proof.
  intros Hok. unfold fail_stalled. cbn [fst]. apply fail_fold_good; [done| |].
  - apply NoDup_fst_filter, NoDup_fst_map_to_list.
  - intros gid go Hin%list_elem_of_In. apply filter_In in Hin as [Hin%list_elem_of_In Hs].
    apply elem_of_map_to_list in Hin. split; [done|]. unfold stalled in Hs. cbn [snd] in Hs.
    apply andb_true_iff in Hs as [[Ha%bool_decide_eq_true _]%andb_true_iff _]. done.
Qed.

(** ** Requests, boot and runs *)

(** A goal on a fresh id and a fresh session. *)
Lemma fresh_ok gs ng ns ys gid go ng' ns' :
  goals_ok gs ng ns ys -> gs !! gid = None -> gid < ng' -> ng <= ng' -> go_session go < ns' -> ns <= ns' ->
  (forall i a, gs !! i = Some a -> go_session a <> go_session go) -> 1 <= go_step go <= go_max_steps go ->
  goals_ok (<[gid := go]> gs) ng' ns' (if live go then {[ go_session go ]} ∪ ys else ys).
Proof.
  intros [H1 H2 H3 H4 H5] Hn Hg Hng Hs Hns Hf Hst. split.
  - intros i a [[<- _]|[_ Hi]]%lookup_insert_Some; [done|]. apply H1 in Hi. lia.
  - intros i a [[<- <-]|[_ Hi]]%lookup_insert_Some; [done|]. apply H2 in Hi. lia.
  - intros i j a b [[<- <-]|[Hi Ha]]%lookup_insert_Some [[<- <-]|[Hj Hb]]%lookup_insert_Some E; try done.
    + by destruct (Hf j b Hb).
    + by destruct (Hf i a Ha).
    + by eapply H3.
  - intros i a [[<- <-]|[_ Hi]]%lookup_insert_Some; [done|by eapply H4].
  - intros x. assert (Hys : x ∈ (if live go then {[ go_session go ]} ∪ ys else ys) <->
      (live go = true /\ x = go_session go) \/ x ∈ ys) by (destruct (live go); set_solver).
    rewrite Hys, H5. split.
    + intros [[Hl ->]|(i & a & Hi & <- & Hl)]; [exists gid, go; by rewrite lookup_insert_eq|].
      exists i, a. rewrite lookup_insert_ne by congruence. done.
    + intros (i & a & [[<- <-]|[_ Hi]]%lookup_insert_Some & <- & Hl); [by left|]. right. by exists i, a.
Qed.

Section requests_good.
Context {V : Type} `{!JsonArgs V} `{!JsonNums V}.

Lemma max_steps_range (args : V) : 1 <= max_steps_of args <= MAX_STEPS_CEIL.
Proof.
  unfold max_steps_of, MAX_STEPS_CEIL, DEFAULT_MAX_STEPS. destruct (arg_u64 args _); lia.
Qed.

Lemma create_good now ep d s c (args : V) :
  driver_ok d -> next_goal_id d < u64_max -> next_session_id d < u64_max ->
  0 <= next_goal_id d -> 0 <= next_session_id d ->
  good_step (GoalCreate s c args ep) d (create_goal now ep d s c args).1 /\
  next_goal_id d <= next_goal_id (create_goal now ep d s c args).1 <= next_goal_id d + 1 /\
  next_session_id d <= next_session_id (create_goal now ep d s c args).1 <= next_session_id d + 1.
Proof.
  intros Hok Hg Hs Hg0 Hs0. unfold create_goal.
  assert (Hno : good_step (GoalCreate s c args ep) d d /\ next_goal_id d <= next_goal_id d <= next_goal_id d + 1 /\
            next_session_id d <= next_session_id d <= next_session_id d + 1).
  { split; [by apply good_refl|lia]. }
  destruct (arg_str args (chars "objective")) as [objective|]; [|exact Hno].
  case_bool_decide; [exact Hno|]. cbn [fst].
  assert (Eg : as_u64 (next_goal_id d + 1) = next_goal_id d + 1) by (unfold as_u64; apply Z.mod_small; ulia).
  assert (Es : as_u64 (next_session_id d + 1) = next_session_id d + 1) by (unfold as_u64; apply Z.mod_small; ulia).
  rewrite Eg, Es. set (go := mkGoal _ _ _ _ _ _ _ _ _ _). set (d1 := put_goal _ _ go).
  destruct Hok as (ys & Hy & Hok).
  assert (E1 : goals d1 = <[next_goal_id d := go]> (goals d)).
  { unfold d1. by destruct (yolo_grant_present args). }
  assert (E2 : next_goal_id d1 = next_goal_id d + 1) by (unfold d1; by destruct (yolo_grant_present args)).
  assert (E3 : next_session_id d1 = next_session_id d + 1) by (unfold d1; by destruct (yolo_grant_present args)).
  assert (E4 : yolo_set d1 = Some (if live go then {[ go_session go ]} ∪ ys else ys)).
  { replace (live go) with (yolo_grant_present args) by (unfold live; cbn; by rewrite andb_true_r).
    unfold d1. destruct (yolo_grant_present args); cbn; by rewrite Hy. }
  clearbody d1. split; [split|lia].
  - eexists. split; [exact E4|]. rewrite E1, E2, E3.
    apply (fresh_ok _ _ _ _ _ _ _ _ Hok); try lia.
    + destruct (goals d !! next_goal_id d) as [a|] eqn:E; [|done]. apply (ok_ids _ _ _ _ Hok) in E. lia.
    + cbn. lia.
    + intros i a Hi. apply (ok_sessions _ _ _ _ Hok) in Hi. cbn. lia.
    + cbn. pose proof (max_steps_range args). unfold MAX_STEPS_CEIL in *. lia.
  - intros gid a Ha. exists a. split; [|apply evolves_refl]. rewrite E1.
    rewrite lookup_insert_ne; [done|]. intros <-. apply (ok_ids _ _ _ _ Hok) in Ha. lia.
Qed.

Lemma record_good d s c (args : V) : driver_ok d -> good_step (GoalStep s c args) d (record_step d s c args).1.
Proof.
  intros Hok. unfold record_step. destruct (find_goal _ d) as [[gid go]|] eqn:Ef; [|by apply good_refl].
  apply find_goal_Some in Ef as [Hg _].
  apply (good_put_same _ _ gid go); [done..| |done]. evolve.
Qed.

Lemma goal_by_id d (args : V) k id go :
  arg_u64 args k ≫= (fun id => (fun go => (id, go)) <$> goals d !! id) = Some (id, go) -> goals d !! id = Some go.
Proof. intros (i & _ & (g & Hg & [= -> ->])%fmap_Some)%bind_Some. done. Qed.

Lemma resume_good now d s c (args : V) :
  driver_ok d -> good_step (GoalResume s c args) d (resume_goal now d s c args).1.
Proof.
  intros Hok. unfold resume_goal.
  destruct (arg_u64 args _ ≫= _) as [[id go]|] eqn:E; [|by apply good_refl]. apply goal_by_id in E as Hg.
  assert (Hgo : go_state go = Blocked \/ go_state go = Failed -> forall go', go' = set_step (set_state go Acting) (go_step go) now ->
     good_step (GoalResume s c args) d
       (let d := put_goal d id go' in if go_yolo go' then yolo_insert d (go_session go') else d)).
  { intros Hst go' ->. cbn zeta. cbn [set_step set_state go_yolo go_session].
    assert (Hev : evolves (GoalResume s c args) go (set_step (set_state go Acting) (go_step go) now)).
    { pose proof (steps_of _ _ _ Hok Hg). evolve. }
    destruct (go_yolo go) eqn:Ey.
    - apply good_put_insert; [done..|]. unfold live. cbn. by rewrite Ey.
    - apply (good_put_same _ _ id go); [done..|]. unfold live. cbn. by rewrite Ey. }
  destruct (go_state go) eqn:Es; try by apply good_refl.
  - apply Hgo; [by left|done].
  - apply Hgo; [by right|done].
Qed.

Lemma cancel_good d s c (args : V) : driver_ok d -> good_step (GoalCancel s c args) d (cancel_goal d s c args).1.
Proof.
  intros Hok. unfold cancel_goal.
  destruct (arg_u64 args _ ≫= _) as [[id go]|] eqn:E; [|by apply good_refl]. apply goal_by_id in E as Hg.
  assert (Hgo : go_state go = Acting \/ go_state go = Blocked ->
     good_step (GoalCancel s c args) d
       (yolo_remove (put_goal d id (set_episode (set_state go Cancelled) None)) (go_session go))).
  { intros Hst. apply good_put_remove; [done..| |unfold live; cbn; by rewrite andb_false_r]. evolve. }
  destruct (go_state go) eqn:Es; try by apply good_refl.
  - apply Hgo. by left.
  - apply Hgo. by right.
Qed.

Definition same_ids (d d' : Driver) : Prop :=
  next_goal_id d' = next_goal_id d /\ next_session_id d' = next_session_id d.

Lemma saved_if_ids w d r : same_ids d r.1.1 -> same_ids d (saved_if w r).1.
Proof. destruct r as [[d' eff] []], w; done. Qed.

Lemma fail_fold_ids l d eff : same_ids d (foldl fail_one (d, eff) l).1.
Proof.
  revert d eff. induction l as [|e l IH]; intros d eff; cbn [foldl]; [done|].
  apply (IH (fail_one (d, eff) e).1 (fail_one (d, eff) e).2).
Qed.

(** Only [goal_create] issues ids. *)
Lemma other_ids now tmo w d (e : DriverEvent V) :
  match e with GoalCreate _ _ _ _ => True | _ => same_ids d (driver_step now tmo w d e).1 end.
Proof.
  destruct e as [| s c args|s c args|s c args|s c|s|s tool|b p|b p rows|]; cbn [driver_step]; try apply saved_if_ids; try done.
  - unfold record_step. by repeat case_match.
  - unfold saved, resume_goal. destruct w; by repeat case_match.
  - unfold saved, cancel_goal. destruct w; by repeat case_match.
  - unfold on_turn_ended, advance, hold_awaiting_batch, finished. by repeat case_match.
  - unfold block_on_approval. by repeat case_match.
  - unfold on_worker_changed. by case_match.
  - unfold on_batch_done, resume_after_batch. by repeat case_match.
  - apply fail_fold_ids.
Qed.

(** Every arm of the loop is a good step and issues at most one id. *)
Lemma driver_step_good now tmo w d (e : DriverEvent V) :
  driver_ok d -> 0 <= next_goal_id d < u64_max -> 0 <= next_session_id d < u64_max ->
  let d' := (driver_step now tmo w d e).1 in
  good_step e d d' /\ next_goal_id d <= next_goal_id d' <= next_goal_id d + 1 /\
  next_session_id d <= next_session_id d' <= next_session_id d + 1.
Proof.
  intros Hok Hg Hs d'. pose proof (other_ids now tmo w d e) as Hids. fold d' in Hids.
  destruct e as [s c args ep|s c args|s c args|s c args|s c|s|s tool|b p|b p rows|];
    [|destruct Hids as [-> ->]; split; [|lia]..]; unfold d'; cbn [driver_step saved fst].
  - destruct (create_good now ep d s c args) as (H1 & H2 & H3); try done; [lia..|].
    split; [by apply good_save|]. by destruct w.
  - by apply record_good.
  - by apply good_save, resume_good.
  - by apply good_save, cancel_good.
  - by apply good_refl.
  - by apply good_saved_if, turn_ended_good.
  - by apply good_saved_if, approval_good.
  - unfold on_worker_changed. case_bool_decide; [by apply good_refl|].
    apply (good_goals_eq _ d (with_batches d (<[p:={[b]} ∪ batches_of d p]> (pending_batches d)) (done_batches d))); [done|].
    by apply good_refl.
  - by apply good_saved_if, batch_done_good.
  - by apply good_saved_if, tick_good.
Qed.
End requests_good.

(** ** Reloading the file *)

Definition restored (now : Z) (pg : PersistedGoal) : Goal :=
  mkGoal (pg_objective pg) (pg_session pg) (reload_state (pg_state pg)) (pg_step pg) (pg_max_steps pg) now None
         (pg_episode pg) (pg_yolo pg) false.

(** A file an earlier run can have left, for a process whose session counter
    starts at [seed]. *)
Record file_ok (seed : Z) (file : list PersistedGoal) : Prop := mkFileOk {
  fo_ids : NoDup (pg_id <$> file);
  fo_sessions : NoDup (pg_session <$> file);
  fo_goals : Forall (fun pg => 0 <= pg_id pg < u64_max /\ pg_session pg < seed /\
                               1 <= pg_step pg <= pg_max_steps pg) file
}.

Lemma reload_fold now seed NG l d ys :
  yolo_set d = Some ys -> goals_ok (goals d) NG seed ys ->
  file_ok seed l -> Forall (fun pg => pg_id pg < NG) l ->
  (forall pg, pg ∈ l -> goals d !! pg_id pg = None /\
     forall i a, goals d !! i = Some a -> go_session a <> pg_session pg) ->
  exists ys', yolo_set (foldl (reload_one now) d l) = Some ys' /\
    goals_ok (goals (foldl (reload_one now) d l)) NG seed ys' /\
    same_ids d (foldl (reload_one now) d l).
Proof.
  revert d ys. induction l as [|pg l IH]; intros d ys Hy Hok [Hi Hs Hg] Hng Hfresh; cbn [foldl]; [by exists ys|].
  cbn [fmap list_fmap] in Hi, Hs. apply NoDup_cons in Hi as [Hi1 Hi2], Hs as [Hs1 Hs2].
  apply Forall_cons in Hg as [(Hpg1 & Hpg2 & Hpg3) Hg], Hng as [Hng1 Hng].
  destruct (Hfresh pg (list_elem_of_here _ _)) as [Hn Hf].
  assert (Egs : goals (reload_one now d pg) = <[pg_id pg := restored now pg]> (goals d)).
  { unfold reload_one. by destruct (pg_yolo pg && negb (terminal (reload_state (pg_state pg)))). }
  assert (Eid : same_ids d (reload_one now d pg)).
  { unfold reload_one. by destruct (pg_yolo pg && negb (terminal (reload_state (pg_state pg)))). }
  set (ys1 := if live (restored now pg) then {[ pg_session pg ]} ∪ ys else ys).
  assert (Ey : yolo_set (reload_one now d pg) = Some ys1).
  { unfold reload_one, ys1, live, restored. cbn [go_yolo go_state].
    destruct (pg_yolo pg && negb (terminal (reload_state (pg_state pg)))); cbn; by rewrite Hy. }
  assert (Hok1 : goals_ok (goals (reload_one now d pg)) NG seed ys1).
  { rewrite Egs. apply (fresh_ok _ _ _ _ (pg_id pg) (restored now pg) NG seed Hok Hn); try done; lia. }
  destruct (IH (reload_one now d pg) ys1 Ey Hok1) as (ys' & H1 & H2 & H3); [by split|done| |].
  - intros q Hq. rewrite Egs. destruct (Hfresh q) as [Hqn Hqf]; [by apply list_elem_of_further|]. split.
    + rewrite lookup_insert_ne; [done|]. intros E. apply Hi1. rewrite E. apply list_elem_of_fmap. by exists q.
    + intros i a [[<- <-]|[_ Ha]]%lookup_insert_Some; [|by eapply Hqf]. cbn. intros E. apply Hs1.
      rewrite E. apply list_elem_of_fmap. by exists q.
  - exists ys'. split; [done|]. split; [done|]. destruct Eid, H3. unfold same_ids. split; congruence.
Qed.

Lemma foldl_max l z : z <= foldl Z.max z l /\ Forall (fun x => x <= foldl Z.max z l) l /\
  (foldl Z.max z l = z \/ foldl Z.max z l ∈ l).
Proof.
  revert z. induction l as [|x l IH]; intros z; cbn [foldl].
  - split; [lia|]. split; [constructor|by left].
  - destruct (IH (Z.max z x)) as (H1 & H2 & H3). split; [lia|]. split; [constructor; [lia|done]|].
    destruct H3 as [H3|H3]; [|right; by apply list_elem_of_further]. rewrite H3.
    destruct (Z.max_spec z x) as [[_ ->]|[_ ->]]; [right; apply list_elem_of_here|by left].
Qed.

Lemma reload_goals_eq now d :
  goals_file d <> [] ->
  let d' := foldl (reload_one now) d (goals_file d) in
  (reload_goals now d).1 =
  with_ids d' (Z.max (next_goal_id d') (as_u64 (foldl Z.max 0 (pg_id <$> goals_file d) + 1))) (next_session_id d').
Proof. unfold reload_goals. by destruct (goals_file d). Qed.

(** The state after boot, and its id counter. *)
Lemma boot_ok now seed file :
  file_ok seed file ->
  driver_ok (driver_boot now seed file) /\ 1 <= next_goal_id (driver_boot now seed file) /\
  next_session_id (driver_boot now seed file) = seed /\
  (forall pg, pg ∈ file -> pg_id pg < next_goal_id (driver_boot now seed file)).
Proof.
  intros Hf. unfold driver_boot. set (d0 := mkDriver ∅ 1 seed (Some ∅) ∅ ∅ file).
  assert (Hempty : forall NG, goals_ok ∅ NG seed ∅).
  { intros NG. split; try (intros ?; intros; by rewrite lookup_empty in *); try set_solver.
    }
  destruct (decide (file = [])) as [->|Hne].
  { split; [exists ∅; split; [done|apply Hempty]|]. cbn. split; [lia|]. split; [done|]. set_solver. }
  rewrite (reload_goals_eq now d0 Hne). cbn [goals_file d0].
  set (mx := foldl Z.max 0 (pg_id <$> file)).
  destruct (foldl_max (pg_id <$> file) 0) as (M1 & M2 & M3). fold mx in M1, M2, M3.
  assert (Hmx : mx < u64_max).
  { destruct M3 as [->|(q & -> & Hq)%list_elem_of_fmap]; [ulia|].
    destruct Hf as [_ _ Hg]. rewrite Forall_forall in Hg. apply (Hg q Hq). }
  assert (Hle : forall q, q ∈ file -> pg_id q <= mx).
  { intros q Hq. rewrite Forall_forall in M2. apply M2, list_elem_of_fmap. by exists q. }
  destruct (reload_fold now seed (mx + 1) file d0 ∅) as (ys & Y1 & Y2 & [Y3 Y4]); try done.
  - apply Forall_forall. intros q Hq. apply Hle in Hq. lia.
  - assert (Em : as_u64 (mx + 1) = mx + 1) by (unfold as_u64; apply Z.mod_small; ulia).
    cbn [with_ids next_goal_id next_session_id goals yolo_set]. rewrite Y3, Em. cbn [d0 next_goal_id].
    replace (Z.max 1 (mx + 1)) with (mx + 1) by lia.
    split; [exists ys; split; [done|]; by rewrite Y4|]. split; [lia|]. split; [done|].
    intros q Hq. apply Hle in Hq. lia.
Qed.

(** ** Runs *)

(** One arm of the loop with what the world answers: the time, the stall
    window, whether the file could be written. *)
Definition turn_of {V : Type} `{!JsonArgs V} `{!JsonNums V} (d : Driver) (x : Z * Z * bool * DriverEvent V) : Driver :=
  (driver_step x.1.1.1 x.1.1.2 x.1.2 d x.2).1.

Definition driver_run {V : Type} `{!JsonArgs V} `{!JsonNums V} (d : Driver)
    (evs : list (Z * Z * bool * DriverEvent V)) : Driver := foldl turn_of d evs.

Lemma run_bounds {V : Type} `{!JsonArgs V} `{!JsonNums V} (evs : list (Z * Z * bool * DriverEvent V)) d :
  driver_ok d -> 0 <= next_goal_id d -> 0 <= next_session_id d ->
  next_goal_id d + zlen evs <= u64_max -> next_session_id d + zlen evs <= u64_max ->
  driver_ok (driver_run d evs) /\
  0 <= next_goal_id (driver_run d evs) <= next_goal_id d + zlen evs /\
  0 <= next_session_id (driver_run d evs) <= next_session_id d + zlen evs.
Proof.
  unfold zlen. revert d. induction evs as [|[[[now tmo] w] e] evs IH]; intros d Hok G0 S0 G1 S1;
    cbn [length] in *; [change (driver_run d []) with d; split; [done|lia]|].
  destruct (driver_step_good now tmo w d e Hok) as ([Hok' _] & Hg & Hs); [lia..|].
  change (driver_run d ((now, tmo, w, e) :: evs)) with (driver_run (turn_of d (now, tmo, w, e)) evs).
  destruct (IH (turn_of d (now, tmo, w, e))) as (I1 & I2 & I3); unfold turn_of; cbn [fst snd]; [done|lia..|].
  split; [done|]. unfold turn_of in I2, I3. cbn [fst snd] in I2, I3. lia.
Qed.

(** ** The file *)

Definition file_map (l : list PersistedGoal) : gmap Z PersistedGoal :=
  list_to_map ((fun pg => (pg_id pg, pg)) <$> l).

Lemma file_map_nil gid : file_map [] !! gid = None.
Proof. apply lookup_empty. Qed.

Lemma file_map_cons pg l : file_map (pg :: l) = <[pg_id pg := pg]> (file_map l).
Proof. done. Qed.

Lemma reload_lookup now l d gid :
  NoDup (pg_id <$> l) ->
  goals (foldl (reload_one now) d l) !! gid =
  match file_map l !! gid with Some pg => Some (restored now pg) | None => goals d !! gid end.
Proof.
  revert d. induction l as [|pg l IH]; intros d; cbn [foldl fmap list_fmap].
  { intros _. by rewrite file_map_nil. }
  intros [Hni Hnd]%NoDup_cons. rewrite IH by done. rewrite file_map_cons.
  assert (Egs : goals (reload_one now d pg) = <[pg_id pg := restored now pg]> (goals d)).
  { unfold reload_one. by destruct (pg_yolo pg && negb (terminal (reload_state (pg_state pg)))). }
  rewrite Egs. destruct (decide (pg_id pg = gid)) as [<-|Hne].
  - assert (file_map l !! pg_id pg = None) as ->.
    { apply not_elem_of_list_to_map_1. intros Hin. apply Hni. apply list_elem_of_fmap in Hin as (x & E & Hx).
      apply list_elem_of_fmap in Hx as (q & -> & Hq). apply list_elem_of_fmap. by exists q. }
    by rewrite !lookup_insert_eq.
  - by rewrite !lookup_insert_ne.
Qed.

Lemma boot_lookup now seed file gid :
  NoDup (pg_id <$> file) -> goals (driver_boot now seed file) !! gid = restored now <$> file_map file !! gid.
Proof.
  intros Hnd. unfold driver_boot. destruct (decide (file = [])) as [->|Hne].
  { rewrite file_map_nil. apply lookup_empty. }
  rewrite reload_goals_eq by done. cbn [with_ids goals goals_file]. rewrite reload_lookup by done.
  cbn [goals]. rewrite lookup_empty. by destruct (file_map file !! gid).
Qed.

(** The file describes the goals, as a restart would read it. *)
Definition file_current (d : Driver) : Prop :=
  NoDup (pg_id <$> goals_file d) /\
  forall now gid, restored now <$> file_map (goals_file d) !! gid =
                  (fun go => restored now (persist_goal gid go)) <$> goals d !! gid.

Lemma save_current d : file_current (save_goals true d).
Proof.
  unfold file_current, save_goals. cbn [with_file goals_file goals].
  assert (Hids : pg_id <$> ((fun e => persist_goal e.1 e.2) <$> map_to_list (goals d)) = (map_to_list (goals d)).*1).
  { rewrite <- list_fmap_compose. by apply list_fmap_ext. }
  split; [rewrite Hids; apply NoDup_fst_map_to_list|]. intros now gid.
  assert (Hfm : file_map ((fun e => persist_goal e.1 e.2) <$> map_to_list (goals d)) !! gid =
                persist_goal gid <$> goals d !! gid); [|rewrite Hfm; by destruct (goals d !! gid)].
  unfold file_map. rewrite <- list_fmap_compose.
  assert (Hnd : NoDup ((fun e : Z * Goal => (e.1, persist_goal e.1 e.2)) <$> map_to_list (goals d)).*1).
  { rewrite <- list_fmap_compose. apply NoDup_fst_map_to_list. }
  destruct (goals d !! gid) as [go|] eqn:E; cbn [fmap option_fmap option_map].
  - apply elem_of_list_to_map_1; [exact Hnd|]. apply list_elem_of_fmap. exists (gid, go).
    split; [done|]. by apply elem_of_map_to_list.
  - apply not_elem_of_list_to_map_1. intros (x & Ex & (y & -> & Hy)%list_elem_of_fmap)%list_elem_of_fmap.
    destruct y as [i a]. apply elem_of_map_to_list in Hy. cbn in Ex. congruence.
Qed.

Lemma current_keep d d' :
  goals_file d' = goals_file d ->
  (forall gid, persist_goal gid <$> goals d' !! gid = persist_goal gid <$> goals d !! gid) ->
  file_current d -> file_current d'.
Proof.
  intros Ef Eg [Hnd Hc]. split; [by rewrite Ef|]. intros now gid. rewrite Ef, Hc.
  specialize (Eg gid). destruct (goals d !! gid), (goals d' !! gid); cbn in *; congruence.
Qed.

Definition untouched (d : Driver) (r : Driver * list GoalEffect * bool) : Prop :=
  r.2 = false -> goals r.1.1 = goals d /\ goals_file r.1.1 = goals_file d.

Lemma current_saved_if d r : untouched d r -> file_current d -> file_current (saved_if true r).1.
Proof.
  destruct r as [[d' eff] []]; intros Hu Hc; cbn [saved_if fst].
  - apply save_current.
  - destruct (Hu eq_refl) as [E1 E2]. cbn [fst] in E1, E2. apply (current_keep d); [done| |done]. by rewrite E1.
Qed.

Lemma boot_current now seed file : NoDup (pg_id <$> file) -> file_current (driver_boot now seed file).
Proof.
  intros Hnd.
  assert (Ef : goals_file (driver_boot now seed file) = file).
  { unfold driver_boot, reload_goals. cbn [goals_file]. destruct file as [|pg file]; [done|].
    cbn [fst with_ids goals_file].
    assert (H : forall l d, goals_file (foldl (reload_one now) d l) = goals_file d).
    { clear. intros l. induction l as [|q l IH]; intros d; cbn [foldl]; [done|]. rewrite IH.
      unfold reload_one. by destruct (pg_yolo q && negb (terminal (reload_state (pg_state q)))). }
    by rewrite H. }
  split; [by rewrite Ef|]. intros now' gid. rewrite Ef, boot_lookup by done.
  destruct (file_map file !! gid) as [pg|]; [|done]. cbn [fmap option_fmap option_map]. f_equal.
  unfold restored. cbn. f_equal. unfold reload_state. repeat case_bool_decide; congruence.
Qed.

Lemma step_current {V : Type} `{!JsonArgs V} `{!JsonNums V} now tmo d (e : DriverEvent V) :
  file_current d -> file_current (driver_step now tmo true d e).1.
Proof.
  intros Hc. destruct e as [s c args ep|s c args|s c args|s c args|s c|s|s tool|b p|b p rows|]; cbn [driver_step saved fst];
    try apply save_current; try (apply (current_saved_if d); [|done]; unfold untouched).
  - unfold record_step. destruct (find_goal _ d) as [[gid go]|] eqn:Ef; [|done].
    apply find_goal_Some in Ef as [Hg _]. apply (current_keep d); [done| |done]. intros i. cbn [fst put_goal with_goals goals].
    destruct (decide (gid = i)) as [<-|Hne]; [by rewrite lookup_insert_eq, Hg|by rewrite lookup_insert_ne].
  - done.
  - unfold on_turn_ended, advance, hold_awaiting_batch, finished. by repeat case_match.
  - unfold block_on_approval. by repeat case_match.
  - unfold on_worker_changed. by case_bool_decide.
  - unfold on_batch_done, resume_after_batch. by repeat case_match.
  - unfold fail_stalled. by destruct (List.filter _ _).
Qed.

(** ** Properties *)

(** Goal yolo is scoped and revoked.  Start the driver on any file an
    earlier run left, with a session counter above every session in it, and
    run it through any events: whatever supervisor shares its session set
    auto-approves exactly the sessions of granted goals that are not done,
    failed or cancelled. *)
Theorem goal_yolo_is_live {V : Type} `{!JsonArgs V} `{!JsonNums V} (now seed : Z) (file : list PersistedGoal)
    (evs : list (Z * Z * bool * DriverEvent V)) (g : Supervisor V) (s : Z)
    (Hfile : file_ok seed file) (Hseed : 0 <= seed) (Hroom : seed + zlen evs <= u64_max)
    (Hids : next_goal_id (driver_boot now seed file) + zlen evs <= u64_max)
    (Hshared : goal_yolo g = Some (yolo_set (driver_run (driver_boot now seed file) evs))) :
  session_yolo g s = true <->
  exists gid go, goals (driver_run (driver_boot now seed file) evs) !! gid = Some go /\
    go_session go = s /\ go_yolo go = true /\ terminal (go_state go) = false.
Proof.
  destruct (boot_ok now seed file Hfile) as (Hb & Hg1 & Hs1 & _).
  assert (Hok : driver_ok (driver_run (driver_boot now seed file) evs)) by (apply run_bounds; [done|lia..]).
  destruct Hok as (ys & Hy & Hok). unfold session_yolo. rewrite Hshared, Hy. cbn [goal_session_is_yolo].
  rewrite bool_decide_eq_true, (ok_yolo _ _ _ _ Hok). unfold live.
  split; intros (gid & go & H1 & H2 & H3); exists gid, go.
  - apply andb_true_iff in H3 as [H3 H4%negb_true_iff]. done.
  - destruct H3 as [-> ->]. done.
Qed.

(** C40: A goal's life.  In any reachable state, any event leaves every goal in
    place with its objective, session, budget and grant, its step inside the
    budget and never lower, and its state moved only along the edges that
    event has: a turn's end finishes or blocks an acting goal, an approval
    request blocks it, the stall tick fails it, cancel ends an acting or
    blocked one, resume revives a blocked or failed one; done and cancelled
    are final. *)
Theorem goal_lifecycle {V : Type} `{!JsonArgs V} `{!JsonNums V} (now seed now' tmo : Z) (w : bool)
    (file : list PersistedGoal) (evs : list (Z * Z * bool * DriverEvent V)) (e : DriverEvent V) (gid : Z) (go : Goal)
    (Hfile : file_ok seed file) (Hseed : 0 <= seed) (Hroom : seed + zlen evs < u64_max)
    (Hids : next_goal_id (driver_boot now seed file) + zlen evs < u64_max)
    (Hgo : goals (driver_run (driver_boot now seed file) evs) !! gid = Some go) :
  exists go', goals (driver_step now' tmo w (driver_run (driver_boot now seed file) evs) e).1 !! gid = Some go' /\
    go_objective go' = go_objective go /\ go_session go' = go_session go /\
    go_max_steps go' = go_max_steps go /\ go_yolo go' = go_yolo go /\
    1 <= go_step go <= go_step go' /\ go_step go' <= go_max_steps go /\
    edge e (go_state go) (go_state go').
Proof.
  destruct (boot_ok now seed file Hfile) as (Hb & Hg1 & Hs1 & _).
  destruct (run_bounds evs (driver_boot now seed file)) as (Hok & Hg & Hs); [done|lia..|].
  destruct (driver_step_good now' tmo w _ e Hok) as ([_ Hstep] & _); [lia..|].
  destruct (Hstep gid go Hgo) as (go' & Hgo' & [E1 E2 E3 E4 E5 E6]).
  pose proof (steps_of _ _ _ Hok Hgo). exists go'. repeat split; try done; lia.
Qed.

(** Nothing a restart needs is lost.  As long as the file can be written,
    booting from the file left after any run gives back exactly the goals of
    that run, with acting ones parked as blocked and only the verdict, the
    clock and the batch wait forgotten. *)
Theorem restart_restores_goals {V : Type} `{!JsonArgs V} `{!JsonNums V} (now seed now' seed' : Z)
    (file : list PersistedGoal) (evs : list (Z * Z * bool * DriverEvent V)) (gid : Z)
    (Hfile : NoDup (pg_id <$> file)) (Hw : Forall (fun x => x.1.2 = true) evs) :
  let d := driver_run (driver_boot now seed file) evs in
  goals (driver_boot now' seed' (goals_file d)) !! gid =
  (fun go => mkGoal (go_objective go) (go_session go)
               (if bool_decide (go_state go = Acting) then Blocked else go_state go)
               (go_step go) (go_max_steps go) now' None (go_episode go) (go_yolo go) false) <$> goals d !! gid.
Proof.
  assert (Hc : forall d, file_current d -> file_current (driver_run d evs)).
  { induction Hw as [|[[[t tmo] w] e] evs Hw1 Hw IH]; intros d Hd; [done|]. cbn in Hw1. subst w.
    apply IH. by apply step_current. }
  destruct (Hc _ (boot_current now seed file Hfile)) as [Hnd Hcur]. intros d.
  rewrite boot_lookup by done. by rewrite Hcur.
Qed.

(** ** Concrete runs *)

Definition granted_args : Toy :=
  ToyObj [(chars "objective", ToyStr (chars "ship it")); (YOLO_GRANT_KEY, ToyBool true);
          (chars "max_steps", ToyStr (chars "2"))].

Definition old_file : list PersistedGoal := [mkPersisted 4 (chars "old") 6 Acting 2 5 None false].

Definition toy_run : list (Z * Z * bool * DriverEvent Toy) :=
  [(0, STEP_TIMEOUT, true, GoalCreate 1 5 granted_args (Some (chars "ep")));
   (1, STEP_TIMEOUT, true, TurnEnded 9)].

Lemma old_file_ok : file_ok 9 old_file.
Proof.
  split; [apply NoDup_singleton..|]. apply Forall_singleton. cbn. unfold u64_max. lia.
Qed.

Definition toy_supervisor (set : option (gset Z)) : Supervisor Toy :=
  fst (on_event 99 toy_boot (GoalYoloChanged (Some set))).

Lemma goal_yolo_is_live_witness :
  session_yolo (toy_supervisor (yolo_set (driver_run (driver_boot 0 9 old_file) toy_run))) 9 = true.
Proof.
  apply (goal_yolo_is_live 0 9 old_file toy_run
           (toy_supervisor (yolo_set (driver_run (driver_boot 0 9 old_file) toy_run))) 9).
  - exact old_file_ok.
  - lia.
  - vm_compute. congruence.
  - vm_compute. congruence.
  - reflexivity.
  - exists 5, (mkGoal (chars "ship it") 9 Acting 2 2 1 None (Some (chars "ep")) true false).
    split; [vm_compute; reflexivity|]. split; [reflexivity|]. split; reflexivity.
Defined.

Lemma goal_lifecycle_witness :
  exists go', goals (driver_step (V := Toy) 2 STEP_TIMEOUT true (driver_run (driver_boot 0 9 old_file) toy_run) (TurnEnded 9)).1 !! 5 = Some go' /\
    edge (@TurnEnded Toy 9) Acting (go_state go').
Proof.
  destruct (goal_lifecycle 0 9 2 STEP_TIMEOUT true old_file toy_run (TurnEnded 9) 5
              (mkGoal (chars "ship it") 9 Acting 2 2 1 None (Some (chars "ep")) true false))
    as (go' & Hgo' & _ & _ & _ & _ & _ & _ & Hedge).
  - exact old_file_ok.
  - lia.
  - vm_compute. congruence.
  - vm_compute. congruence.
  - vm_compute. reflexivity.
  - exists go'. split; [exact Hgo'|exact Hedge].
Defined.

Lemma restart_restores_goals_witness :
  go_state <$> goals (driver_boot 50 10 (goals_file (driver_run (driver_boot 0 9 old_file) toy_run))) !! 5 = Some Blocked.
Proof.
  rewrite (restart_restores_goals 0 9 50 10 old_file toy_run 5).
  - vm_compute. reflexivity.
  - apply NoDup_singleton.
  - repeat constructor.
Defined.

(** The stall clock is lost: a goal blocked while it waits for a batch and
    resumed afterwards keeps the wait it no longer has, so no tick fails it,
    however late. *)
Lemma resumed_goal_keeps_batch_wait {V : Type} `{!JsonArgs V} `{!JsonNums V} (now : Z) (d : Driver) (s c : Z) (args : V)
    (gid : Z) (go : Goal) (Hid : arg_u64 args (chars "goal_id") = Some gid) (Hgo : goals d !! gid = Some go)
    (Hb : go_state go = Blocked) (Hw : go_awaiting_batch go = true) :
  exists go', goals (resume_goal now d s c args).1 !! gid = Some go' /\ go_state go' = Acting /\
    forall later timeout, stalled later timeout go' = false.
Proof.
  unfold resume_goal. rewrite Hid. cbn [mbind option_bind]. rewrite Hgo. cbn [fmap option_fmap option_map]. rewrite Hb.
  exists (set_step (set_state go Acting) (go_step go) now). split; [|split; [done|]].
  - cbn [fst]. destruct (go_yolo _); apply lookup_insert_eq.
  - intros later timeout. unfold stalled. cbn. by rewrite Hw.
Qed.

Example stall_clock_lost :
  let d := driver_run (driver_boot 0 9 [])
    [(0, STEP_TIMEOUT, true, GoalCreate 1 5 granted_args None);
     (1, STEP_TIMEOUT, true, WorkerChanged 3 9); (2, STEP_TIMEOUT, true, TurnEnded 9);
     (3, STEP_TIMEOUT, true, ApprovalAsked 9 (chars "run_command")); (4, STEP_TIMEOUT, true, BatchDone 3 9 []);
     (5, STEP_TIMEOUT, true, GoalResume 1 6 (ToyObj [(chars "goal_id", ToyStr (chars "1"))]));
     (1000000000, STEP_TIMEOUT, true, Tick)] in
  (fun go => (go_state go, go_awaiting_batch go)) <$> goals d !! 1 = Some (Acting, true) /\ batches_of d 9 = ∅.
Proof. split; vm_compute; reflexivity. Qed.

(** The budget does not bound the turns: at its last step, a goal that fans
    out a batch in each turn is prompted again after every report. *)
Definition batch_round (b : Z) : list (Z * Z * bool * DriverEvent Toy) :=
  [(1, STEP_TIMEOUT, true, WorkerChanged b 9); (2, STEP_TIMEOUT, true, TurnEnded 9);
   (3, STEP_TIMEOUT, true, BatchDone b 9 [])].

Example rounds_at_the_ceiling :
  let d := driver_run (driver_boot 0 9 [])
    ((0, STEP_TIMEOUT, true, GoalCreate 1 5 (ToyObj [(chars "objective", ToyStr (chars "x")); (chars "max_steps", ToyStr (chars "1"))]) None)
     :: batch_round 1 ++ batch_round 2 ++ batch_round 3) in
  (fun go => (go_state go, go_step go, go_max_steps go)) <$> goals d !! 1 = Some (Acting, 1, 1).
Proof. vm_compute. reflexivity. Qed.

(** A session id from the file can be issued again: the counter is seeded
    elsewhere, and the armed set then covers a session that is no goal's. *)
Example seed_below_the_file :
  let file := [mkPersisted 4 (chars "old") 6 Blocked 2 5 None true] in
  next_session_id (driver_boot 0 3 file) = 3 /\ session_yolo (toy_supervisor (yolo_set (driver_boot 0 3 file))) 6 = true.
Proof. split; vm_compute; reflexivity. Qed.
