(* ===== verification/Mandala.v ===== *)
(** * The mandala: cells, addresses, budgets and the tree on disk

    [agentd/crates/agentd/src/mandala.rs]: the pure core of the depth tier.  A
    cell has an address in a tree ([Addr], a dotted string), a form of three
    risk bits, and a budget that must descend; the directory of cell files is
    the tree.  A [CellForm] is its byte, an [Addr] its string; a [HashMap] of
    cells is a [gmap] keyed by address string.  SHA-256 and the JSON codec are
    classes; a directory maps file names to their text ([None]: cannot be
    read). *)
From S2P Require Import Prelude Text.

(** ** Third-party code *)

Class Sha256 := { sha256 : bytes -> bytes }.
Class Sha256Laws `{Sha256} : Prop := {
  sha256_length b : length (sha256 b) = 32%nat;
  sha256_bytes b : is_bytes (sha256 b)
}.

(** [format!("{b:02x}")]. *)
Definition hex_nibble (n : Z) : Z := if n <? 10 then 48 + n else 87 + n.
Definition hex2 (b : Z) : text := [hex_nibble (b / 16); hex_nibble (b mod 16)].

Definition hex_digest `{Sha256} (b : bytes) : text := concat (hex2 <$> sha256 b).

(** ** Cell forms *)

Abbreviation CellForm := Z (only parsing).

Definition SPINE : CellForm := 0.
Definition GATE : CellForm := 1.
Definition SPIRAL : CellForm := 2.
Definition FORGE_FORM : CellForm := 3.
Definition FAN : CellForm := 4.
Definition DIAMOND : CellForm := 5.
Definition SWARM : CellForm := 6.
Definition MANDALA : CellForm := 7.

Definition joins (f : CellForm) : bool := negb (Z.land f 1 =? 0).
Definition recurs (f : CellForm) : bool := negb (Z.land f 2 =? 0).
Definition branches (f : CellForm) : bool := negb (Z.land f 4 =? 0).

(** [count_ones] of the three low bits. *)
Definition form_weight (f : CellForm) : Z :=
  let f := Z.land f 7 in
  Z.b2z (Z.testbit f 0) + Z.b2z (Z.testbit f 1) + Z.b2z (Z.testbit f 2).

Definition arm_join (f : CellForm) : CellForm := Z.lor f 1.
Definition arm_recur (f : CellForm) : CellForm := Z.lor f 2.
Definition arm_branch (f : CellForm) : CellForm := Z.lor f 4.

Definition form_name (f : CellForm) : text :=
  let f := Z.land f 7 in
  chars (if f =? 0 then "spine" else if f =? 1 then "gate" else if f =? 2 then "spiral"
         else if f =? 3 then "forge" else if f =? 4 then "fan" else if f =? 5 then "diamond"
         else if f =? 6 then "swarm" else "mandala").

Definition guards_armed (f : CellForm) (breadth_cap : option Z) (measure : option text)
    (barrier_timeout_s : option Z) : bool :=
  (negb (branches f) || is_someb breadth_cap)
  && (negb (recurs f) || is_someb measure)
  && (negb (joins f) || is_someb barrier_timeout_s).

(** The 64-entry composition table. *)
Inductive Compose := Free | Conditional | Forbidden.

#[export] Instance Compose_eq_dec : EqDecision Compose.
Proof. solve_decision. Defined.

Definition compose (parent child : CellForm) : Compose :=
  if recurs parent && recurs child then Forbidden
  else if branches parent && branches child then Conditional
  else Free.

(** ** Addresses *)

Abbreviation Addr := text (only parsing).

Definition ROOT : Addr := chars "0".

Definition valid_seg (seg : text) : bool :=
  negb (is_noneb (head seg)) && (str_len seg <=? 6)
  && forallb (fun c => (48 <=? c) && (c <=? 57)) seg.

Definition addr_parse (s : text) : option Addr :=
  if (str_len s =? 0) || (64 <? str_len s) then None
  else
    match split_on 46 s with
    | first :: segs =>
        if negb (bool_decide (first = chars "0")) then None
        else if forallb valid_seg segs then Some s else None
    | [] => None
    end.

Definition addr_parent (a : Addr) : option Addr := fst <$> rsplit_once 46 a.

(** The number of dots, [as u8]. *)
Definition dots (a : Addr) : nat := length (filter (fun c => c = 46) a).
Definition addr_depth (a : Addr) : Z := as_u8 (Z.of_nat (dots a)).

Definition addr_child (a : Addr) (n : Z) : Addr := a ++ 46 :: dec_text n.

(** The byte of [b] at [a.len()]: [b] starts with [a] when it is read. *)
Definition is_ancestor_of (a b : Addr) : bool :=
  (str_len a <? str_len b) && starts_with a b
  && match drop (length a) b with c :: _ => c =? 46 | [] => false end.

Definition addr_branch (a : Addr) : text := chars "apex/w/" ++ a.

(** The file name in the tree directory. *)
Definition addr_file (a : Addr) : text := a ++ chars ".json".

(** ** Budgets *)

Record BudgetVec := mkBudget {
  bv_depth : Z;
  bv_cells : Z;
  bv_steps : Z;
  bv_deadline_s : Z
}.

#[export] Instance BudgetVec_eq_dec : EqDecision BudgetVec.
Proof. solve_decision. Defined.

Definition DEPTH_CEIL : Z := 6.
Definition CELLS_CEIL : Z := 64.

Definition admissible (parent child : BudgetVec) (ring_free : Z) : bool :=
  (bv_depth child <? bv_depth parent)
  && (bv_cells child <=? bv_cells parent)
  && (1 <=? bv_cells child)
  && (1 <=? ring_free)
  && (bv_steps child <=? bv_steps parent)
  && (bv_deadline_s child <=? bv_deadline_s parent)
  && (0 <? bv_depth child)
  && (0 <? bv_steps child).

Definition contract_child (parent : BudgetVec) : BudgetVec :=
  mkBudget (sat_sub (bv_depth parent) 1) 1 (Z.max (bv_steps parent / 2) 1) (bv_deadline_s parent).

(** ** Lattices *)

Inductive Lattice := LSpine | LQuad | LFan | LSpiral | LFunnel.

#[export] Instance Lattice_eq_dec : EqDecision Lattice.
Proof. solve_decision. Defined.

Definition lattice_parse (s : text) : option Lattice :=
  if bool_decide (s = chars "spine") then Some LSpine
  else if bool_decide (s = chars "quad") then Some LQuad
  else if bool_decide (s = chars "fan") then Some LFan
  else if bool_decide (s = chars "spiral") then Some LSpiral
  else if bool_decide (s = chars "funnel") then Some LFunnel
  else None.

Definition ring_width (l : Lattice) (ring : Z) : Z :=
  match l with
  | LSpine => if ring <? 6 then 2 else 0
  | LQuad => if ring <? 3 then 4 else 0
  | LFan => if ring <? 2 then 8 else 0
  | LSpiral =>
      if (ring =? 0) || (ring =? 1) then 1 else if ring =? 2 then 2
      else if ring =? 3 then 3 else if ring =? 4 then 5 else 0
  | LFunnel => if ring =? 0 then 9 else if ring =? 1 then 4 else if ring =? 2 then 1 else 0
  end.

(** ** The invariant axis *)

Record Invariant := mkInvariant {
  inv_objective : text;
  inv_done_when : text;
  inv_verify : text;
  inv_hash : text
}.

Definition Invariant_new `{Sha256} (objective done_when verify : text) : Invariant :=
  mkInvariant objective done_when verify
    (hex_digest (as_bytes (chars "objective:" ++ objective ++ 10 :: chars "done_when:" ++ done_when
                           ++ 10 :: chars "verify:" ++ verify))).

(** [&s[..n]]: panics ([None]) off a character boundary or past the end. *)
Fixpoint byte_prefix (n : Z) (s : text) : option text :=
  if n =? 0 then Some []
  else
    match s with
    | [] => None
    | c :: s => if len_utf8 c <=? n then cons c <$> byte_prefix (n - len_utf8 c) s else None
    end.

Definition directive_block (i : Invariant) : option text :=
  (fun h =>
     chars "MANDALA INVARIANT [" ++ h
     ++ chars "] " ++ 8212 :: chars " the root's exact contract; it never changes at any depth:" ++ [10]
     ++ chars "OBJECTIVE: " ++ inv_objective i ++ 10 :: chars "DONE WHEN: " ++ inv_done_when i
     ++ 10 :: chars "VERIFY WITH: `" ++ inv_verify i
     ++ chars "` (run it through your normal tools before claiming done)")
  <$> byte_prefix 12 (inv_hash i).

(** ** Records *)

Record CellRecord := mkCell {
  cell_addr : Addr;
  cell_form : CellForm;
  cell_task : text;
  cell_budget : BudgetVec;
  cell_invariant_hash : text;
  cell_worker : option Z;
  cell_state : text;
  cell_evidence : option text;
  cell_reparented_to : option Addr;
  cell_created_epoch : Z;
  cell_barrier_timeout_s : option Z;
  cell_barrier_opened : bool;
  cell_measure : option text;
  cell_measure_history : list Z;
  cell_voucher : bool;
  cell_node : option text
}.

Record MandalaRecord := mkMandala {
  md_id : Z;
  md_conductor : Z;
  md_lattice : Lattice;
  md_budget : BudgetVec;
  md_invariant : Invariant;
  md_state : text;
  md_repo : option text;
  md_created_epoch : Z;
  md_epoch : Z;
  md_last_fingerprint : option text;
  md_last_census : gmap text Z;
  md_orbits : Z;
  md_orbit_fingerprint : option text;
  md_orbit_council : option text;
  md_orbit_synthesis : option text
}.

Definition is_open_state (state : text) : bool :=
  negb (bool_decide (state = chars "done") || bool_decide (state = chars "failed")
        || bool_decide (state = chars "cancelled")).

Abbreviation Cells := (gmap text CellRecord).

(** [cell.reparented_to = Some(t)]. *)
Definition set_reparented (t : option Addr) (c : CellRecord) : CellRecord :=
  mkCell (cell_addr c) (cell_form c) (cell_task c) (cell_budget c) (cell_invariant_hash c)
    (cell_worker c) (cell_state c) (cell_evidence c) t (cell_created_epoch c)
    (cell_barrier_timeout_s c) (cell_barrier_opened c) (cell_measure c) (cell_measure_history c)
    (cell_voucher c) (cell_node c).

(** ** The conditional check *)

Definition sat_mul64 (a b : Z) : Z := Z.min (a * b) u64_max.

Definition direct_children (cells : Cells) (a : Addr) : Z :=
  zlen (filter (fun k => is_ancestor_of a k && (addr_depth k =? addr_depth a + 1)) (map_to_list cells).*1).

(** The walk from [parent] to the root; [fuel] bounds the addresses passed. *)
Fixpoint breadth_walk (fuel : nat) (cells : Cells) (product : Z) (walk : option Addr) : Z :=
  match fuel, walk with
  | S fuel, Some a =>
      breadth_walk fuel cells (sat_mul64 product (Z.max (direct_children cells a) 1)) (addr_parent a)
  | _, _ => product
  end.

Definition breadth_product (cells : Cells) (parent : Addr) (new_width : Z) : Z :=
  breadth_walk (S (length parent)) cells (Z.max new_width 1) (Some parent).

Definition breadth_product_ok (cells : Cells) (parent : Addr) (new_width cells_budget : Z) : bool :=
  breadth_product cells parent new_width <=? cells_budget.

(** ** Epochs and orbits *)

Definition fingerprint_text (invariant_hash : text) (evidence : list text) (census : gmap text Z)
    (remote : gmap text text) : text :=
  (chars "axis:" ++ invariant_hash ++ [10])
  ++ concat ((fun d => chars "ev:" ++ d ++ [10]) <$> sort_texts evidence)
  ++ concat ((fun w => chars "census:" ++ w ++ [10]) <$> sort_texts (map_to_list census).*1)
  ++ concat ((fun a => chars "remote:" ++ a ++ 61 :: default [] (remote !! a) ++ [10])
       <$> sort_texts (map_to_list remote).*1).

Definition epoch_fingerprint `{Sha256} (invariant_hash : text) (evidence : list text)
    (census : gmap text Z) (remote : gmap text text) : text :=
  hex_digest (as_bytes (fingerprint_text invariant_hash evidence census remote)).

Definition is_orbit (prev : option text) (next : text) (open_cells : Z) : bool :=
  (0 <? open_cells) && bool_decide (prev = Some next).

(** ** The tree *)

(** The nearest ancestor of [anc] (inclusive) that has a file. *)
Fixpoint living_ancestor (fuel : nat) (cells : Cells) (anc : option Addr) : option Addr :=
  match fuel, anc with
  | S fuel, Some a =>
      match cells !! a with Some _ => Some a | None => living_ancestor fuel cells (addr_parent a) end
  | _, _ => None
  end.

(** Where the cell at [addr] must hang, if its parent is gone. *)
Definition reparent_target (cells : Cells) (addr : Addr) : option Addr :=
  match addr_parent addr with
  | None => None
  | Some parent =>
      match cells !! parent with
      | Some _ => None
      | None => living_ancestor (length parent) cells (addr_parent parent)
      end
  end.

Definition reparent_one (s : Cells * list Addr) (addr : Addr) : Cells * list Addr :=
  let '(cells, moved) := s in
  match reparent_target cells addr with
  | None => (cells, moved)
  | Some t =>
      match cells !! addr with
      | Some c =>
          if bool_decide (cell_reparented_to c = Some t) then (cells, moved)
          else (<[addr := set_reparented (Some t) c]> cells, moved ++ [addr])
      | None => (cells, moved)
      end
  end.

Definition reparent_orphans (cells : Cells) : Cells * list Addr :=
  foldl reparent_one (cells, []) ((fun p => cell_addr p.2) <$> map_to_list cells).

(** [parse::<u32>()]. *)
Definition parse_u32 (s : text) : option Z :=
  match parse_u64 s with
  | Some n => if n <=? u32_max then Some n else None
  | None => None
  end.

Definition child_ordinal (parent a : Addr) : option Z :=
  if is_ancestor_of parent a then
    match split_on 46 a !! Z.to_nat (addr_depth parent + 1) with
    | Some seg => parse_u32 seg
    | None => None
    end
  else None.

Definition max_opt (l : list Z) : option Z :=
  match l with [] => None | x :: l => Some (foldr Z.max x l) end.

Definition next_child_ordinal (cells : Cells) (parent : Addr) : Z :=
  match max_opt (omap (child_ordinal parent) (map_to_list cells).*1) with
  | Some n => as_u32 (n + 1)
  | None => 0
  end.

Definition cell_values (cells : Cells) : list CellRecord := (map_to_list cells).*2.

Definition open_cells (cells : Cells) : Z :=
  zlen (filter (fun c => is_open_state (cell_state c)) (cell_values cells)).

Definition open_descendants (cells : Cells) (a : Addr) : list Addr :=
  sort_texts (cell_addr <$>
    filter (fun c => is_ancestor_of a (cell_addr c) && is_open_state (cell_state c)) (cell_values cells)).

Definition descendants (cells : Cells) (a : Addr) : list Addr :=
  sort_texts (cell_addr <$> filter (fun c => is_ancestor_of a (cell_addr c)) (cell_values cells)).

(** ** The measure law *)

Definition K_STALL : nat := 2.
Definition MEASURE_HISTORY_CAP : nat := 64.

(** [history.windows(2)]. *)
Fixpoint windows2 (l : list Z) : list (Z * Z) :=
  match l with
  | a :: (b :: _) as r => (a, b) :: windows2 r
  | _ => []
  end.

Definition k_stalled (history : list Z) : bool :=
  if (length history <? K_STALL + 1)%nat then false
  else forallb (fun w => fst w <=? snd w) (take K_STALL (rev (windows2 history))).

(** The last two entries strictly decreased. *)
Definition progressing (history : list Z) : bool :=
  match rev history with
  | last :: prev :: _ => last <? prev
  | _ => false
  end.

Definition renewal_grant (parent_steps : Z) (history : list Z) : option Z :=
  if negb (progressing history) || (parent_steps <? 2) then None
  else Some (Z.max (parent_steps / 2) 1).

Definition voucher_scope_ok (own parent : Addr) : bool :=
  bool_decide (own = parent) || is_ancestor_of own parent.

(** ** Files *)

Class TreeJson := {
  cell_to_json : CellRecord -> text;
  cell_of_json : text -> option CellRecord;
  mandalas_to_json : list MandalaRecord -> text;
  mandalas_of_json : text -> option (list MandalaRecord)
}.
Class TreeJsonLaws `{TreeJson} : Prop := {
  cell_json_roundtrip c : cell_of_json (cell_to_json c) = Some c;
  mandalas_json_roundtrip l : mandalas_of_json (mandalas_to_json l) = Some l
}.

Abbreviation Dir := (gmap text (option text)).

(** [save_cell]: write the sibling temporary, then rename it over. *)
Definition save_cell `{TreeJson} (write_ok rename_ok : bool) (dir : option Dir) (c : CellRecord)
    : option Dir :=
  let path := addr_file (cell_addr c) in
  let tmp := path ++ chars ".tmp" in
  if write_ok then
    let dir := <[tmp := Some (cell_to_json c)]> (default ∅ dir) in
    Some (if rename_ok then <[path := Some (cell_to_json c)]> (delete tmp dir) else dir)
  else dir.

(** [Path::extension] and [Path::file_stem] of a file name. *)
Definition file_ext (name : text) : option (text * text) :=
  match rsplit_once 46 name with
  | Some ([], _) | None => None
  | Some p => Some p
  end.

(** What one directory entry contributes to the tree. *)
Definition load_entry `{TreeJson} (entry : text * option text) : option (text * CellRecord) :=
  match file_ext entry.1 with
  | Some (stem, ext) =>
      if negb (bool_decide (ext = chars "json")) then None
      else
        match entry.2 ≫= cell_of_json with
        | Some c => if bool_decide (addr_parse stem = Some (cell_addr c)) then Some (cell_addr c, c) else None
        | None => None
        end
  | None => None
  end.

Definition load_cells `{TreeJson} (dir : option Dir) : Cells :=
  match dir with
  | None => ∅
  | Some d => list_to_map (omap load_entry (map_to_list d))
  end.

Definition load_tree `{TreeJson} (dir : option Dir) : Cells := (reparent_orphans (load_cells dir)).1.

Definition md_leb (a b : MandalaRecord) : bool := md_id a <=? md_id b.

(** [mandalas.json]: its text, or [None] when there is none to read. *)
Definition save_mandalas `{TreeJson} (write_ok rename_ok : bool) (file : option text)
    (ms : gmap Z MandalaRecord) : option text :=
  if write_ok && rename_ok then Some (mandalas_to_json (merge_sort md_leb (map_to_list ms).*2)) else file.

Definition load_mandalas `{TreeJson} (file : option text) : gmap Z MandalaRecord :=
  foldl (fun m r => <[md_id r := r]> m) ∅ (default [] (file ≫= mandalas_of_json)).

(** A codec for the witnesses: the number [countable] gives a record. *)
#[export] Instance CellRecord_eq_dec : EqDecision CellRecord.
Proof. solve_decision. Defined.
#[export] Instance Invariant_eq_dec : EqDecision Invariant.
Proof. solve_decision. Defined.
#[export] Instance MandalaRecord_eq_dec : EqDecision MandalaRecord.
Proof. solve_decision. Defined.
#[export] Instance BudgetVec_countable : Countable BudgetVec.
Proof.
  by apply (inj_countable' (fun b => (bv_depth b, bv_cells b, bv_steps b, bv_deadline_s b))
    (fun '(a, b, c, d) => mkBudget a b c d)); intros [].
Defined.
#[export] Instance Invariant_countable : Countable Invariant.
Proof.
  by apply (inj_countable' (fun b => (inv_objective b, inv_done_when b, inv_verify b, inv_hash b))
    (fun '(a, b, c, d) => mkInvariant a b c d)); intros [].
Defined.
#[export] Instance Lattice_countable : Countable Lattice.
Proof.
  by apply (inj_countable' (fun l => match l with LSpine => 0 | LQuad => 1 | LFan => 2 | LSpiral => 3 | LFunnel => 4 end)
    (fun z => if z =? 0 then LSpine else if z =? 1 then LQuad else if z =? 2 then LFan
              else if z =? 3 then LSpiral else LFunnel)); intros [].
Defined.
#[export] Instance CellRecord_countable : Countable CellRecord.
Proof.
  by apply (inj_countable'
    (fun c => ((cell_addr c, cell_form c, cell_task c, cell_budget c, cell_invariant_hash c, cell_worker c,
                cell_state c, cell_evidence c),
               (cell_reparented_to c, cell_created_epoch c, cell_barrier_timeout_s c, cell_barrier_opened c,
                cell_measure c, cell_measure_history c, cell_voucher c, cell_node c)))
    (fun '((a, b, c, d, e, f, g, h), (i, j, k, l, m, n, o, p)) =>
       mkCell a b c d e f g h i j k l m n o p)); intros [].
Defined.
#[export] Instance MandalaRecord_countable : Countable MandalaRecord.
Proof.
  by apply (inj_countable'
    (fun m => ((md_id m, md_conductor m, md_lattice m, md_budget m, md_invariant m, md_state m, md_repo m),
               (md_created_epoch m, md_epoch m, md_last_fingerprint m, md_last_census m, md_orbits m,
                md_orbit_fingerprint m, md_orbit_council m, md_orbit_synthesis m)))
    (fun '((a, b, c, d, e, f, g), (h, i, j, k, l, m, n, o)) =>
       mkMandala a b c d e f g h i j k l m n o)); intros [].
Defined.

Definition code_json {A} `{Countable A} (a : A) : text := [Zpos (encode a)].
Definition uncode_json {A} `{Countable A} (t : text) : option A :=
  match t with [Zpos p] => decode p | _ => None end.

Lemma uncode_code {A} `{Countable A} (a : A) : uncode_json (code_json a) = Some a.
Proof. apply decode_encode. Qed.

#[export] Instance ToyTree : TreeJson :=
  { cell_to_json := code_json; cell_of_json := uncode_json;
    mandalas_to_json := code_json; mandalas_of_json := uncode_json }.
#[export] Instance ToyTreeLaws : TreeJsonLaws.
Proof. split; intros; apply uncode_code. Qed.

(** A digest for the witnesses: the first 32 bytes, padded. *)
#[export] Instance ToySha : Sha256 := { sha256 b := (fun x => x mod 256) <$> take 32 (b ++ replicate 32 0) }.
#[export] Instance ToyShaLaws : Sha256Laws.
Proof.
  split; intros b; unfold sha256, ToySha.
  - rewrite length_map, length_take, length_app, length_replicate. lia.
  - apply Forall_fmap, Forall_forall. intros x _. change (is_u8 (x mod 256)). pose proof (Z.mod_pos_bound x 256 ltac:(lia)). ulia.
Qed.

(** ** Lemmas on addresses *)

Lemma str_len_pos c s : 0 < str_len (c :: s).
Proof. cbn [str_len]. pose proof (str_len_nonneg s). unfold len_utf8. case_all; lia. Qed.

Lemma length_str_len s : zlen s <= str_len s.
Proof.
  induction s as [|c s IH]; [done|]. rewrite zlen_cons. cbn [str_len]. unfold len_utf8. case_all; lia.
Qed.

Lemma is_ancestor_spec a b : is_ancestor_of a b = true <-> exists r, b = a ++ 46 :: r.
Proof.
  unfold is_ancestor_of. rewrite !andb_true_iff, starts_with_spec. split.
  - intros [[_ [r ->]] Hd]. rewrite drop_app_length in Hd. destruct r as [|c r]; [done|].
    exists r. apply Z.eqb_eq in Hd. by rewrite Hd.
  - intros [r ->]. split_and!; [|by eexists|by rewrite drop_app_length].
    rewrite str_len_app. pose proof (str_len_pos 46 r). lia.
Qed.

Lemma is_ancestor_trans a b c :
  is_ancestor_of a b = true -> is_ancestor_of b c = true -> is_ancestor_of a c = true.
Proof.
  rewrite !is_ancestor_spec. intros [r ->] [s ->]. exists (r ++ 46 :: s). by rewrite <- app_assoc.
Qed.

Lemma is_ancestor_length a b : is_ancestor_of a b = true -> (length a < length b)%nat.
Proof. rewrite is_ancestor_spec. intros [r ->]. rewrite length_app. cbn. lia. Qed.

Lemma addr_parent_spec a b : addr_parent b = Some a <-> exists seg, b = a ++ 46 :: seg /\ 46 ∉ seg.
Proof.
  unfold addr_parent. rewrite fmap_Some. split.
  - intros ([x y] & E & ->). apply rsplit_once_Some in E as [-> Hy]. by exists y.
  - intros (seg & -> & Hs). exists (a, seg). split; [|done]. by apply rsplit_once_Some.
Qed.

Lemma addr_parent_ancestor a b : addr_parent b = Some a -> is_ancestor_of a b = true.
Proof. rewrite addr_parent_spec, is_ancestor_spec. intros (seg & -> & _). by exists seg. Qed.

Lemma addr_parent_length a b : addr_parent b = Some a -> (length a < length b)%nat.
Proof. intros H. by apply is_ancestor_length, addr_parent_ancestor. Qed.

(** A strict ancestor is the parent or one of the parent's ancestors. *)
Lemma ancestor_parent a b :
  is_ancestor_of a b = true ->
  exists p, addr_parent b = Some p /\ (a = p \/ is_ancestor_of a p = true).
Proof.
  rewrite is_ancestor_spec. intros [r ->].
  destruct (rsplit_once 46 r) as [[x y]|] eqn:E.
  - apply rsplit_once_Some in E as [-> Hy]. exists (a ++ 46 :: x). split.
    + apply addr_parent_spec. exists y. by rewrite <- app_assoc.
    + right. apply is_ancestor_spec. by exists x.
  - exists a. split; [|by left]. apply addr_parent_spec. exists r. split; [done|].
    by apply rsplit_once_None.
Qed.

Lemma dots_app a b : dots (a ++ b) = (dots a + dots b)%nat.
Proof. unfold dots. by rewrite filter_app, length_app. Qed.

Lemma split_on_app c a b : split_on c (a ++ c :: b) = split_on c a ++ split_on c b.
Proof.
  induction a as [|x a IH]; cbn [app split_on]; [by rewrite Z.eqb_refl|]. rewrite IH.
  destruct (x =? c); [done|].
  destruct (split_on c a) as [|l ls] eqn:E; [|done].
  exfalso. clear -E. destruct a as [|y a]; cbn in E; [done|]. by case_all.
Qed.

Lemma split_on_dots a : length (split_on 46 a) = S (dots a).
Proof.
  induction a as [|x a IH]; [done|]. change (x :: a) with ([x] ++ a). rewrite dots_app.
  cbn [split_on app]. unfold dots at 1. rewrite filter_cons, filter_nil.
  destruct (Z.eqb_spec x 46) as [->|Hne]; [cbn; by rewrite IH|].
  rewrite decide_False by done. cbn [length]. destruct (split_on 46 a); [done|]. cbn in *. lia.
Qed.

(** *** Valid addresses *)

Definition valid_addr (a : Addr) : Prop := addr_parse a = Some a.

#[export] Instance valid_addr_dec a : Decision (valid_addr a).
Proof. unfold valid_addr. apply _. Defined.

Lemma addr_parse_spec s a :
  addr_parse s = Some a <->
  a = s /\ 1 <= str_len s <= 64 /\
  exists segs, split_on 46 s = chars "0" :: segs /\ forallb valid_seg segs = true.
Proof.
  unfold addr_parse. pose proof (str_len_nonneg s).
  destruct (Z.eqb_spec (str_len s) 0), (Z.ltb_spec 64 (str_len s)); cbn [orb];
    try (split; [done|intros (_ & ? & _); lia]).
  destruct (split_on 46 s) as [|f segs]; [split; [done|by intros (_ & _ & ? & [? _])]|].
  case_bool_decide; cbn [negb]; [|split; [done|intros (_ & _ & ? & [? _]); congruence]].
  destruct (forallb valid_seg segs) eqn:E; subst.
  - split; [intros [= <-]; split_and!; [done|lia|lia|by exists segs]|by intros (-> & _)].
  - split; [done|]. intros (_ & _ & ? & [= <-] & ?). congruence.
Qed.

Lemma valid_addr_spec a :
  valid_addr a <->
  1 <= str_len a <= 64 /\ exists segs, split_on 46 a = chars "0" :: segs /\ forallb valid_seg segs = true.
Proof. unfold valid_addr. rewrite addr_parse_spec. naive_solver. Qed.

Lemma valid_addr_depth a : valid_addr a -> addr_depth a = Z.of_nat (dots a).
Proof.
  intros [Hl _]%valid_addr_spec. unfold addr_depth.
  assert (Z.of_nat (dots a) <= 64).
  { pose proof (length_str_len a). pose proof (length_filter (fun c => c = 46) a). unfold zlen, dots in *. lia. }
  unfold as_u8. rewrite Z.mod_small; lia.
Qed.

Lemma digits_no_dot ds : Forall is_digit ds -> 46 ∉ ds.
Proof. rewrite Forall_forall. intros H Hin. apply H in Hin. unfold is_digit in Hin. lia. Qed.

(** What [format!("{n}")] prints. *)
Lemma dec_text_spec n :
  is_u64 n -> dec_text n <> [] /\ Forall is_digit (dec_text n) /\ parse_digits 0 (dec_text n) = Some n.
Proof.
  intros Hn. destruct (digits_spec 20 n []) as (ds & E & Hne & Hds & Hp); [|ulia|lia|].
  { change (10 ^ Z.of_nat 20) with 100000000000000000000. ulia. }
  unfold dec_text. rewrite E, app_nil_r. done.
Qed.

Lemma parse_u64_digits ds : Forall is_digit ds -> ds <> [] -> parse_u64 ds = parse_digits 0 ds.
Proof.
  intros Hds Hne. destruct ds as [|d ds]; [done|]. apply Forall_inv in Hds. unfold is_digit in Hds.
  unfold parse_u64. repeat (case_match; try lia; try done).
Qed.

Lemma parse_u32_dec n : is_u32 n -> parse_u32 (dec_text n) = Some n.
Proof.
  intros Hn. destruct (dec_text_spec n) as (Hne & Hds & Hp); [ulia|].
  unfold parse_u32. rewrite parse_u64_digits, Hp by done.
  destruct (Z.leb_spec n u32_max); [done|ulia].
Qed.

Lemma addr_child_parent a n : is_u64 n -> addr_parent (addr_child a n) = Some a.
Proof.
  intros Hn. apply addr_parent_spec. exists (dec_text n). split; [done|].
  apply digits_no_dot. by destruct (dec_text_spec n Hn) as (_ & ? & _).
Qed.

Lemma parse_digits_bound acc s n :
  0 <= acc -> parse_digits acc s = Some n -> n < (acc + 1) * 10 ^ zlen s /\ acc <= n.
Proof.
  revert acc; induction s as [|c s IH]; intros acc Ha; cbn [parse_digits].
  - intros [= <-]. change (zlen (@nil Z)) with 0. rewrite Z.pow_0_r. lia.
  - destruct (Z.leb_spec 48 c), (Z.leb_spec c 57); try done. cbn [andb].
    destruct (Z.ltb_spec u64_max (acc * 10 + (c - 48))); [done|].
    intros Hp. apply IH in Hp; [|lia]. rewrite zlen_cons, Z.pow_add_r by (pose proof (zlen_nonneg s); lia).
    change (10 ^ 1) with 10. pose proof (Z.pow_pos_nonneg 10 (zlen s) ltac:(lia) (zlen_nonneg s)). nia.
Qed.

Lemma valid_seg_bound seg n : valid_seg seg = true -> parse_u32 seg = Some n -> 0 <= n <= 999999.
Proof.
  unfold valid_seg, parse_u32. rewrite !andb_true_iff. intros [[Hne Hl] Hd].
  assert (Forall is_digit seg) as Hds.
  { apply Forall_forall. intros c Hc. rewrite forallb_forall in Hd.
    apply list_elem_of_In, Hd in Hc. unfold is_digit. lia. }
  rewrite parse_u64_digits by (done || by destruct seg).
  destruct (parse_digits 0 seg) as [m|] eqn:E; [|done]. destruct (m <=? u32_max); [|done].
  intros [= ->]. apply parse_digits_bound in E as [E ?]; [|lia]. split; [lia|].
  pose proof (length_str_len seg). apply Z.leb_le in Hl.
  assert (10 ^ zlen seg <= 10 ^ 6) by (apply Z.pow_le_mono_r; lia). lia.
Qed.

(** ** Address minting *)

Lemma max_opt_spec l n x : max_opt l = Some n -> x ∈ l -> x <= n.
Proof.
  destruct l as [|a l]; [done|]. intros [= <-]. revert x.
  induction l as [|b l IH]; intros x; cbn [foldr].
  - intros ->%list_elem_of_singleton. lia.
  - rewrite !elem_of_cons. intros [->|[->|Hx]].
    + specialize (IH a). rewrite elem_of_cons in IH. specialize (IH (or_introl eq_refl)). lia.
    + lia.
    + specialize (IH x). rewrite elem_of_cons in IH. specialize (IH (or_intror Hx)). lia.
Qed.

Lemma max_opt_elem l n : max_opt l = Some n -> n ∈ l.
Proof.
  destruct l as [|a l]; [done|]. intros [= <-].
  induction l as [|b l IH]; cbn [foldr]; [left|].
  destruct (Z.max_spec b (foldr Z.max a l)) as [[_ ->]|[_ ->]].
  - apply elem_of_cons in IH as [->|IH]; [left|by right; right].
  - right; left.
Qed.

(** The ordinal of a descendant is the segment that follows its ancestor. *)
Lemma child_ordinal_app p r :
  valid_addr p -> child_ordinal p (p ++ 46 :: r) = (split_on 46 r !! 0%nat) ≫= parse_u32.
Proof.
  intros Hp. unfold child_ordinal.
  assert (is_ancestor_of p (p ++ 46 :: r) = true) as -> by (apply is_ancestor_spec; by exists r).
  rewrite valid_addr_depth, split_on_app by done.
  replace (Z.to_nat (Z.of_nat (dots p) + 1)) with (length (split_on 46 p) + 0)%nat
    by (rewrite split_on_dots; lia).
  rewrite lookup_app_r, Nat.add_comm, Nat.add_sub by lia.
  by destruct (split_on 46 r !! 0%nat).
Qed.

(** Every cell sits at its own address. *)
Definition wf_cells (cells : Cells) : Prop :=
  map_Forall (fun k c => cell_addr c = k /\ valid_addr k) cells.

Lemma elem_keys (cells : Cells) k : k ∈ (map_to_list cells).*1 <-> is_Some (cells !! k).
Proof.
  rewrite list_elem_of_fmap. split.
  - intros ([k' c] & -> & H%elem_of_map_to_list). by exists c.
  - intros [c Hc]. exists (k, c). split; [done|]. by apply elem_of_map_to_list.
Qed.

(** Ordinals found in a tree of valid addresses are small: no wrap-around. *)
Lemma child_ordinal_bound cells p n :
  wf_cells cells -> valid_addr p ->
  n ∈ omap (child_ordinal p) (map_to_list cells).*1 -> 0 <= n <= 999999.
Proof.
  intros Hwf Hp (k & Hk & Hn)%list_elem_of_omap.
  apply elem_keys in Hk as [c Hc]. destruct (Hwf _ _ Hc) as [_ Hv].
  assert (exists r, k = p ++ 46 :: r) as [r ->].
  { apply is_ancestor_spec. unfold child_ordinal in Hn. by destruct (is_ancestor_of p k). }
  rewrite child_ordinal_app in Hn by done.
  destruct (split_on 46 r !! 0%nat) as [seg|] eqn:Es; [|done]. cbn in Hn.
  apply valid_addr_spec in Hv as [_ (segs & E & Hseg)]. rewrite split_on_app in E.
  destruct (split_on 46 p) as [|f ps] eqn:Ep; [pose proof (split_on_dots p) as Hlen; by rewrite Ep in Hlen|].
  cbn in E. injection E as _ E. eapply valid_seg_bound; [|exact Hn].
  rewrite forallb_forall in Hseg. apply Hseg. rewrite <- E. apply in_or_app. right.
  apply list_elem_of_In. by eapply list_elem_of_lookup_2.
Qed.

Lemma next_child_ordinal_bound cells p :
  wf_cells cells -> valid_addr p -> 0 <= next_child_ordinal cells p <= 1000000.
Proof.
  intros Hwf Hp. unfold next_child_ordinal.
  destruct (max_opt _) as [n|] eqn:E; [|lia]. apply max_opt_elem in E.
  apply child_ordinal_bound in E; [|done..]. unfold as_u32. rewrite Z.mod_small; lia.
Qed.

(** No cell of the tree is, or lies below, a child numbered at or past the next
    ordinal. *)
Lemma child_fresh_from (cells : Cells) (p k : Addr) (n : Z) :
  wf_cells cells -> valid_addr p -> is_Some (cells !! k) -> next_child_ordinal cells p <= n <= u32_max ->
  addr_child p n <> k /\ is_ancestor_of (addr_child p n) k = false.
Proof.
  intros Hwf Hp Hk Hn. set (new := addr_child p n).
  pose proof (next_child_ordinal_bound cells p Hwf Hp) as Hb.
  assert (forall r, (r = [] \/ exists r', r = 46 :: r') -> k <> p ++ 46 :: dec_text n ++ r) as Hno.
  { intros r Hr ->.
    assert (child_ordinal p (p ++ 46 :: dec_text n ++ r) = Some n) as Ho.
    { rewrite child_ordinal_app by done. destruct (dec_text_spec n) as (_ & Hds & _); [ulia|].
      apply digits_no_dot in Hds.
      assert (split_on 46 (dec_text n ++ r) !! 0%nat = Some (dec_text n)) as ->.
      { destruct Hr as [->|[r' ->]].
        - by rewrite app_nil_r, split_on_no.
        - rewrite split_on_line by done. done. }
      cbn. apply parse_u32_dec. ulia. }
    assert (n ∈ omap (child_ordinal p) (map_to_list cells).*1) as Hin.
    { apply list_elem_of_omap. eexists. split; [by apply elem_keys|exact Ho]. }
    unfold next_child_ordinal in Hn.
    destruct (max_opt _) as [m|] eqn:Em.
    - pose proof (max_opt_spec _ _ _ Em Hin). apply max_opt_elem in Em.
      apply child_ordinal_bound in Em; [|done..].
      unfold as_u32 in Hn. rewrite Z.mod_small in Hn; lia.
    - by destruct (omap (child_ordinal p) (map_to_list cells).*1); [apply not_elem_of_nil in Hin|]. }
  split.
  - intros <-. apply (Hno []); [by left|]. by rewrite app_nil_r.
  - destruct (is_ancestor_of new k) eqn:E; [|done]. exfalso.
    apply is_ancestor_spec in E as [r ->]. apply (Hno (46 :: r)); [right; by exists r|].
    unfold new, addr_child. by rewrite <- app_assoc.
Qed.

(** A position is an identity for ever: the next child of [p] is no cell of the
    tree, and no surviving cell, orphaned or not, lies below it. *)
Theorem next_child_ordinal_fresh (cells : Cells) (p k : Addr) :
  wf_cells cells -> valid_addr p -> is_Some (cells !! k) ->
  let new := addr_child p (next_child_ordinal cells p) in
  new <> k /\ is_ancestor_of new k = false.
Proof.
  intros Hwf Hp Hk. apply (child_fresh_from cells); [done..|].
  pose proof (next_child_ordinal_bound cells p Hwf Hp). ulia.
Qed.

(** *** A child of a valid address *)

Lemma split_on_str_len c s : str_len s + len_utf8 c = foldr (fun l n => str_len l + len_utf8 c + n) 0 (split_on c s).
Proof.
  induction s as [|x s IH]; cbn [split_on].
  - cbn. lia.
  - destruct (split_on c s) as [|l ls] eqn:E.
    { pose proof (f_equal length E) as El. destruct s as [|y s]; cbn in E; [done|].
      destruct (y =? c); [done|]. by destruct (split_on c s). }
    destruct (Z.eqb_spec x c) as [->|Hne]; cbn [foldr str_len] in *; lia.
Qed.

Lemma valid_segs_len segs :
  forallb valid_seg segs = true -> foldr (fun l n => str_len l + len_utf8 46 + n) 0 segs <= 7 * zlen segs.
Proof.
  induction segs as [|l segs IH]; cbn [forallb foldr]; [done|]. intros [Hl Hs]%andb_true_iff.
  specialize (IH Hs). unfold valid_seg in Hl. apply andb_true_iff in Hl as [[_ Hl]%andb_true_iff _].
  rewrite zlen_cons. change (len_utf8 46) with 1 in *. lia.
Qed.

Lemma dec_text_digit n : 0 <= n <= 9 -> dec_text n = [48 + n].
Proof.
  intros Hn. rewrite <- (Z2Nat.id n) by lia. assert (Z.to_nat n <= 9)%nat as Hk by lia. revert Hk.
  generalize (Z.to_nat n). intros k Hk. do 10 (destruct k as [|k]; [reflexivity|]). lia.
Qed.

(** A child with a one-digit ordinal, in a ring a lattice still has. *)
Lemma valid_addr_child p n :
  valid_addr p -> addr_depth p <= 6 -> 0 <= n <= 9 ->
  valid_addr (addr_child p n) /\ addr_depth (addr_child p n) = addr_depth p + 1.
Proof.
  intros Hp Hd Hn. assert (valid_addr (addr_child p n)) as Hv.
  - rewrite valid_addr_depth in Hd by done.
    apply valid_addr_spec in Hp as (Hlen & segs & Hs & Hv). apply valid_addr_spec.
    assert (split_on 46 (addr_child p n) = chars "0" :: segs ++ [[48 + n]]) as Hs'.
    { unfold addr_child. rewrite split_on_app, Hs, dec_text_digit by done.
      rewrite (split_on_no 46 [48 + n]); [done|]. rewrite list_elem_of_singleton. lia. }
    assert (forallb valid_seg (segs ++ [[48 + n]]) = true) as Hv'.
    { rewrite forallb_app, Hv. unfold valid_seg. cbn. unfold len_utf8. case_all; lia. }
    split; [|by eauto].
    pose proof (split_on_str_len 46 (addr_child p n)) as El. rewrite Hs' in El.
    pose proof (split_on_dots p) as Hdots. rewrite Hs in Hdots. cbn in Hdots.
    apply valid_segs_len in Hv'. rewrite zlen_app in Hv'. unfold zlen in Hv'. cbn [length] in Hv'.
    cbn [foldr] in El. change (str_len (chars "0")) with 1 in El. change (len_utf8 46) with 1 in El, Hv'.
    pose proof (str_len_nonneg (addr_child p n)).
    assert (1 <= str_len (addr_child p n)).
    { unfold addr_child. rewrite str_len_app. cbn [str_len]. pose proof (str_len_nonneg (dec_text n)).
      pose proof (str_len_nonneg p). change (len_utf8 46) with 1. lia. }
    lia.
  - split; [done|]. rewrite !valid_addr_depth by done. unfold addr_child. rewrite dots_app, dec_text_digit by done.
    unfold dots. rewrite filter_cons_True by done. rewrite filter_cons_False by lia. cbn. lia.
Qed.

Lemma ring_width_pos l i : 0 < ring_width l i -> i < 6 /\ ring_width l i <= 9.
Proof. unfold ring_width. destruct l; case_all; lia. Qed.

(** ** Reparenting *)

Lemma living_ancestor_spec fuel cells anc t :
  (forall a, anc = Some a -> (length a < fuel)%nat) ->
  living_ancestor fuel cells anc = Some t <->
  exists a, anc = Some a /\ is_Some (cells !! t) /\ (t = a \/ is_ancestor_of t a = true) /\
    forall u, is_Some (cells !! u) -> u = a \/ is_ancestor_of u a = true ->
      u = t \/ is_ancestor_of u t = true.
Proof.
  revert anc; induction fuel as [|fuel IH]; intros [a|] Hf; cbn [living_ancestor].
  1: specialize (Hf a eq_refl); lia.
  1, 3: split; [done|by intros (? & ? & _)].
  specialize (Hf a eq_refl). destruct (cells !! a) as [c|] eqn:Ec.
  - split.
    + intros [= <-]. exists a. split_and!; eauto.
    + intros (? & [= <-] & Ht & Hta & Hmin). f_equal.
      destruct Hta as [->|Hta]; [done|].
      destruct (Hmin a ltac:(by eexists) ltac:(by left)) as [->|Hat]; [done|].
      apply is_ancestor_length in Hta, Hat. lia.
  - rewrite IH by (intros b Hb; apply addr_parent_length in Hb; lia). split.
    + intros (b & Hb & Ht & Htb & Hmin). exists a. split_and!; [done|done| |].
      * right. pose proof (addr_parent_ancestor _ _ Hb). destruct Htb as [->|]; [done|].
        by eapply is_ancestor_trans.
      * intros u Hu [->|Hua]; [rewrite Ec in Hu; by destruct Hu|].
        apply ancestor_parent in Hua as (b' & Hb' & Hub). simplify_eq. by apply Hmin.
    + intros (? & [= <-] & Ht & Hta & Hmin).
      destruct Hta as [->|Hta]; [rewrite Ec in Ht; by destruct Ht|].
      apply ancestor_parent in Hta as (b & Hb & Htb). exists b. split_and!; [done..|].
      intros u Hu Hub. apply Hmin; [done|]. right.
      pose proof (addr_parent_ancestor _ _ Hb). destruct Hub as [->|]; [done|]. by eapply is_ancestor_trans.
Qed.

(** [t] is the nearest strict ancestor of [a] that has a cell. *)
Definition nearest_living (cells : Cells) (a t : Addr) : Prop :=
  is_Some (cells !! t) /\ is_ancestor_of t a = true /\
  forall u, is_Some (cells !! u) -> is_ancestor_of u a = true -> u = t \/ is_ancestor_of u t = true.

Lemma reparent_target_spec cells a t :
  reparent_target cells a = Some t <->
  (forall p, addr_parent a = Some p -> cells !! p = None) /\ nearest_living cells a t.
Proof.
  unfold reparent_target, nearest_living. destruct (addr_parent a) as [p|] eqn:Ep.
  2: { split; [done|]. intros (_ & _ & Ha & _). apply ancestor_parent in Ha as (p & Hp & _). congruence. }
  pose proof (addr_parent_ancestor _ _ Ep) as Hpa.
  destruct (cells !! p) as [c|] eqn:Ec; [split; [done|]; intros (Hn & _); specialize (Hn p eq_refl); congruence|].
  rewrite living_ancestor_spec by (intros b Hb; by apply addr_parent_length in Hb). split.
  - intros (b & Hb & Ht & Htb & Hmin). pose proof (addr_parent_ancestor _ _ Hb) as Hbp.
    split_and!; [by intros ? [= <-]|done| |].
    + destruct Htb as [->|]; eauto using is_ancestor_trans.
    + intros u Hu Hua. apply Hmin; [done|].
      apply ancestor_parent in Hua as (p' & Hp' & Hup). simplify_eq.
      destruct Hup as [->|Hup]; [rewrite Ec in Hu; by destruct Hu|].
      apply ancestor_parent in Hup as (b' & Hb' & Hub). simplify_eq. done.
  - intros (_ & Ht & Hta & Hmin).
    apply ancestor_parent in Hta as (p' & Hp' & Htp). simplify_eq.
    destruct Htp as [->|Htp]; [rewrite Ec in Ht; by destruct Ht|].
    apply ancestor_parent in Htp as (b & Hb & Htb). exists b. split_and!; [done..|].
    intros u Hu Hub. apply Hmin; [done|]. apply addr_parent_ancestor in Hb.
    destruct Hub as [->|]; eauto using is_ancestor_trans.
Qed.

(** A cell after the pass: only [reparented_to] may have moved. *)
Definition reparented (cells : Cells) (k : Addr) (c : CellRecord) : CellRecord :=
  match reparent_target cells k with Some t => set_reparented (Some t) c | None => c end.

Lemma set_reparented_same c : set_reparented (cell_reparented_to c) c = c.
Proof. by destruct c. Qed.

Lemma reparent_target_dom cells cells' a :
  (forall k, is_Some (cells !! k) <-> is_Some (cells' !! k)) ->
  reparent_target cells a = reparent_target cells' a.
Proof.
  intros Hdom. assert (forall k, cells !! k = None <-> cells' !! k = None) as Hn.
  { intros k. by rewrite !eq_None_not_Some, Hdom. }
  apply option_eq. intros t. rewrite !reparent_target_spec. unfold nearest_living.
  by setoid_rewrite Hdom; setoid_rewrite Hn.
Qed.

(** One step of the loop, when the keys still are those of [cells0]. *)
Lemma reparent_one_lookup cells0 cells moved a k :
  (forall k, is_Some (cells0 !! k) <-> is_Some (cells !! k)) ->
  (reparent_one (cells, moved) a).1 !! k =
  if decide (k = a) then reparented cells0 k <$> cells !! k else cells !! k.
Proof.
  intros Hdom. unfold reparent_one, reparented.
  rewrite <- (reparent_target_dom cells0 cells a) by done.
  destruct (reparent_target cells0 a) as [t|] eqn:Et; [destruct (cells !! a) as [c|] eqn:Ec|].
  - case_bool_decide as Hr; cbn [fst]; case_decide as Hk; subst.
    + rewrite Et, Ec. cbn. f_equal. rewrite <- Hr. by rewrite set_reparented_same.
    + done.
    + by rewrite lookup_insert_eq, Et, Ec.
    + by rewrite lookup_insert_ne.
  - cbn [fst]. case_decide; subst; [by rewrite Ec|done].
  - cbn [fst]. case_decide; subst; [|done]. rewrite Et. by destruct (cells !! a).
Qed.

Lemma reparented_idemp cells k c : reparented cells k (reparented cells k c) = reparented cells k c.
Proof. unfold reparented. by destruct (reparent_target cells k). Qed.

Lemma reparent_loop_lookup cells0 addrs cells moved k :
  (forall k, is_Some (cells0 !! k) <-> is_Some (cells !! k)) ->
  (foldl reparent_one (cells, moved) addrs).1 !! k =
  if decide (k ∈ addrs) then reparented cells0 k <$> cells !! k else cells !! k.
Proof.
  revert cells moved; induction addrs as [|a addrs IH]; intros cells moved Hdom; cbn [foldl].
  { rewrite decide_False by apply not_elem_of_nil. done. }
  pose proof (reparent_one_lookup cells0 cells moved a) as Hl.
  destruct (reparent_one (cells, moved) a) as [cells1 moved1] eqn:E1. cbn [fst] in Hl.
  rewrite IH.
  - rewrite (Hl k Hdom). destruct (decide (k = a)) as [->|Hne].
    + rewrite (decide_True (P := a ∈ a :: addrs)) by left. case_decide; [|done].
      destruct (cells !! a); [|done]. cbn. by rewrite reparented_idemp.
    + destruct (decide (k ∈ addrs)).
      * by rewrite decide_True by (by right).
      * rewrite decide_False; [done|]. rewrite elem_of_cons. by intros [?|?].
  - intros j. rewrite (Hl j Hdom), Hdom. destruct (decide (j = a)); [|done]. symmetry. apply fmap_is_Some.
Qed.

(** Every cell whose parent's file vanished hangs on its nearest living
    ancestor; everything else about the tree is as it was. *)
Theorem reparent_nearest_living (cells : Cells) (k : Addr) :
  wf_cells cells ->
  (reparent_orphans cells).1 !! k = reparented cells k <$> cells !! k /\
  forall t, reparent_target cells k = Some t <->
    (forall p, addr_parent k = Some p -> cells !! p = None) /\ nearest_living cells k t.
Proof.
  intros Hwf. split; [|intros t; apply reparent_target_spec].
  unfold reparent_orphans. rewrite (reparent_loop_lookup cells) by done.
  case_decide as Hin; [done|]. destruct (cells !! k) as [c|] eqn:Ec; [|done].
  exfalso. apply Hin. apply list_elem_of_fmap. exists (k, c). split; [symmetry; apply (Hwf _ _ Ec)|].
  by apply elem_of_map_to_list.
Qed.

(** ** The descent *)

(** A line of cells, each admitted under the one before. *)
Inductive admitted_line : BudgetVec -> list BudgetVec -> Prop :=
| line_nil p : admitted_line p []
| line_cons p c ring cs : admissible p c ring = true -> admitted_line c cs -> admitted_line p (c :: cs).

Lemma admissible_spec p c r :
  admissible p c r = true <->
  0 < bv_depth c < bv_depth p /\ 1 <= bv_cells c <= bv_cells p /\ 1 <= r /\
  0 < bv_steps c <= bv_steps p /\ bv_deadline_s c <= bv_deadline_s p.
Proof. unfold admissible. lia. Qed.

Definition steps_total (cs : list BudgetVec) : Z := foldr (fun c s => bv_steps c + s) 0 cs.

(** Admission descends: the order it induces is well-founded, so no tree grows
    for ever, and a line under a vector is shorter than its depth, never asks
    for more steps than that many times its own, and keeps its deadline. *)
Theorem budget_descent (p : BudgetVec) (cs : list BudgetVec) :
  admitted_line p cs ->
  Acc (fun c q => exists ring, admissible q c ring = true) p /\
  (cs = [] \/ zlen cs < bv_depth p) /\
  steps_total cs <= zlen cs * Z.max 0 (bv_steps p) /\
  Forall (fun c => bv_deadline_s c <= bv_deadline_s p /\ 1 <= bv_cells c <= bv_cells p) cs.
Proof.
  intros Hl. split.
  { clear.
    remember (Z.to_nat (bv_depth p)) as n eqn:En. revert p En.
    induction n as [n IH] using lt_wf_ind. intros p ->. constructor. intros c [ring Hc].
    apply admissible_spec in Hc. eapply IH; [|reflexivity]. lia. }
  induction Hl as [p|p c ring cs Hc _ (Hlen & Hsteps & Hall)].
  - split_and!; [by left|done|constructor].
  - apply admissible_spec in Hc. pose proof (zlen_nonneg cs).
    rewrite zlen_cons. split_and!.
    + right. destruct Hlen as [->|?]; [change (zlen (@nil BudgetVec)) with 0|]; lia.
    + cbn [steps_total foldr]. fold (steps_total cs). nia.
    + constructor; [lia|]. eapply Forall_impl; [exact Hall|]. cbn. lia.
Qed.

(** The vector the driver offers: the [n]-th descendant of a contraction line. *)
Fixpoint contraction_line (n : nat) (p : BudgetVec) : list BudgetVec :=
  match n with
  | O => []
  | S n => contract_child p :: contraction_line n (contract_child p)
  end.

(** The default vector is admitted exactly while depth, cells, ring and steps
    are left, and a line of contractions of length [n] below a root of [s]
    steps costs less than [2 s + n] in all. *)
Theorem contraction_law (p : BudgetVec) (ring : Z) (n : nat) :
  0 <= bv_depth p ->
  (admissible p (contract_child p) ring = true <->
   2 <= bv_depth p /\ 1 <= bv_cells p /\ 1 <= ring /\ 1 <= bv_steps p) /\
  (1 <= bv_steps p -> bv_steps p + steps_total (contraction_line n p) <= 2 * bv_steps p + Z.of_nat n).
Proof.
  intros Hd. split.
  - rewrite admissible_spec. unfold contract_child, sat_sub; cbn.
    pose proof (Z.div_mod (bv_steps p) 2). pose proof (Z.mod_pos_bound (bv_steps p) 2). lia.
  - clear Hd. revert p. induction n as [|n IH]; intros p Hs; cbn [contraction_line steps_total foldr]; [lia|].
    fold (steps_total (contraction_line n (contract_child p))).
    assert (1 <= bv_steps (contract_child p)) as H1 by (cbn; lia).
    specialize (IH _ H1). revert IH. generalize (steps_total (contraction_line n (contract_child p))).
    cbn [contract_child bv_steps]. intros T.
    pose proof (Z.div_mod (bv_steps p) 2). pose proof (Z.mod_pos_bound (bv_steps p) 2). lia.
Qed.

(** The "at most twice the root" of the source does not count the floor. *)
Example contraction_over_twice_root :
  let p := mkBudget 6 64 1 600 in
  1 + steps_total (contraction_line 5 p) = 6 /\ 2 * bv_steps p = 2.
Proof. done. Qed.

(** *** Lattices *)

Definition width_product (l : Lattice) (n : nat) : Z :=
  foldr (fun i acc => Z.max (ring_width l (Z.of_nat i)) 1 * acc) 1 (seq 0 n).

Lemma ring_width_deep l i : 6 <= i -> ring_width l i = 0.
Proof. intros Hi. unfold ring_width. destruct l; case_all; lia. Qed.

(** However deep a lattice is read, its frontier fits the geometry budget. *)
Theorem lattice_fits (l : Lattice) (n : nat) (i : Z) :
  width_product l n <= CELLS_CEIL /\ 0 <= ring_width l i <= 9.
Proof.
  split; [|unfold ring_width; destruct l; case_all; lia].
  destruct (decide (n <= 6)%nat) as [Hn|Hn].
  - do 7 (destruct n as [|n]; [by destruct l|]). lia.
  - assert (width_product l n = width_product l 6) as ->; [|by destruct l].
    unfold width_product. replace n with (6 + (n - 6))%nat by lia.
    rewrite seq_app, foldr_app. f_equal.
    assert (Forall (fun i => (6 <= i)%nat) (seq (0 + 6) (n - 6))) as Hall.
    { apply Forall_seq. lia. }
    induction Hall as [|j js Hj _ IH]; cbn [foldr]; [done|].
    rewrite ring_width_deep by lia. rewrite IH. done.
Qed.

(** ** The measure law *)

Lemma windows2_snoc l a b : windows2 (l ++ [a; b]) = windows2 (l ++ [a]) ++ [(a, b)].
Proof.
  induction l as [|x l IH]; [done|]. cbn [app].
  destruct l as [|y l]; [done|]. cbn [app] in *. cbn [windows2] in *. by rewrite IH.
Qed.

(** Two consecutive laps that do not decrease break the ring, and then no
    renewal is granted; a renewal takes at least one step and at most half of
    what the parent has. *)
Theorem measure_law (h : list Z) (steps : Z) :
  (k_stalled h = true <-> exists l a b c, h = l ++ [a; b; c] /\ a <= b <= c) /\
  (k_stalled h = true -> renewal_grant steps h = None) /\
  forall g, renewal_grant steps h = Some g -> 1 <= g /\ 2 * g <= steps /\
    exists l a b, h = l ++ [a; b] /\ b < a.
Proof.
  assert (forall l a b c, k_stalled (l ++ [a; b; c]) = (a <=? b) && (b <=? c)) as Hk.
  { intros l a b c. unfold k_stalled.
    destruct (Nat.ltb_spec (length (l ++ [a; b; c])) (K_STALL + 1)) as [Hs|Hs];
      [rewrite length_app in Hs; cbn in Hs; unfold K_STALL in Hs; lia|].
    replace (l ++ [a; b; c]) with ((l ++ [a]) ++ [b; c]) by (by rewrite <- app_assoc).
    rewrite windows2_snoc, <- app_assoc. cbn [app]. rewrite windows2_snoc, !rev_unit.
    unfold K_STALL. cbn [take forallb fst snd]. by rewrite andb_true_r, andb_comm. }
  assert (k_stalled h = true -> exists l a b c, h = l ++ [a; b; c] /\ a <= b <= c) as Hk'.
  { intros Hs. destruct h as [|c h _] using rev_ind; [done|].
    destruct h as [|b h _] using rev_ind; [done|]. destruct h as [|a h _] using rev_ind; [done|].
    exists h, a, b, c. rewrite <- !app_assoc in *. cbn [app] in *. rewrite Hk in Hs. split; [done|lia]. }
  split_and!.
  - split; [done|]. intros (l & a & b & c & -> & ?). rewrite Hk. lia.
  - intros (l & a & b & c & -> & ?)%Hk'. unfold renewal_grant, progressing.
    rewrite rev_app_distr. cbn. destruct (Z.ltb_spec c b); [lia|done].
  - intros g. unfold renewal_grant. destruct (progressing h) eqn:Ep; [|done].
    destruct (Z.ltb_spec steps 2); [done|]. intros [= <-].
    pose proof (Z.div_mod steps 2). pose proof (Z.mod_pos_bound steps 2). split_and!; [lia|lia|].
    unfold progressing in Ep. destruct h as [|b h _] using rev_ind; [done|].
    destruct h as [|a h _] using rev_ind; [done|]. rewrite rev_unit, rev_unit in Ep.
    exists h, a, b. rewrite <- app_assoc. split; [done|lia].
Qed.

(** Successive renewals of one ring: each grant leaves the parent's vector. *)
Inductive renewals : Z -> list Z -> Prop :=
| renewals_nil ps : renewals ps []
| renewals_cons ps h g gs : renewal_grant ps h = Some g -> renewals (ps - g) gs -> renewals ps (g :: gs).

(** Renewal ends: whatever laps a cell reports, what it is granted in all is
    less than what its parent had, and a parent of [s] steps can be asked at
    most once for every doubling below [s]. *)
Theorem renewals_terminate (ps : Z) (gs : list Z) :
  renewals ps gs -> gs <> [] -> foldr Z.add 0 gs < ps /\ 2 ^ (zlen gs - 1) < ps.
Proof.
  induction 1 as [ps|ps h g gs Hg Hr IH]; [done|]. intros _.
  assert (2 <= ps /\ g = ps / 2) as [Hps ->].
  { unfold renewal_grant in Hg. destruct (negb _ || _) eqn:E; [done|]. injection Hg as <-.
    apply orb_false_iff in E as [_ E]. pose proof (Z.div_mod ps 2). pose proof (Z.mod_pos_bound ps 2). lia. }
  pose proof (Z.div_mod ps 2). pose proof (Z.mod_pos_bound ps 2).
  destruct gs as [|g' gs].
  - cbn [foldr]. rewrite zlen_cons. change (zlen (@nil Z)) with 0. change (2 ^ (1 + 0 - 1)) with 1. lia.
  - specialize (IH ltac:(done)) as [Hsum Hpow]. cbn [foldr] in *.
    rewrite zlen_cons. split; [lia|].
    replace (1 + zlen (g' :: gs) - 1) with (Z.succ (zlen (g' :: gs) - 1)) by lia.
    rewrite Z.pow_succ_r by (rewrite zlen_cons; pose proof (zlen_nonneg gs); lia). lia.
Qed.

(** ** The conditional fan *)

(** An address, its parent, and so on up. *)
Inductive lineage : Addr -> list Addr -> Prop :=
| lineage_top a : addr_parent a = None -> lineage a [a]
| lineage_up a p l : addr_parent a = Some p -> lineage p l -> lineage a (a :: l).

Lemma lineage_exists a : exists l, lineage a l.
Proof.
  induction a as [a IH] using (induction_ltof1 _ (@length Z)). unfold ltof in IH.
  destruct (addr_parent a) as [p|] eqn:E.
  - destruct (IH p (addr_parent_length _ _ E)) as [l Hl]. eexists. by eapply lineage_up.
  - eexists. by constructor.
Qed.

Definition promised (cells : Cells) (l : list Addr) (w : Z) : Z :=
  foldr (fun a acc => Z.max (direct_children cells a) 1 * acc) w l.

Lemma promised_scale cells l k w : promised cells l (k * w) = k * promised cells l w.
Proof. unfold promised. induction l as [|a l IH]; cbn [foldr]; [done|]. rewrite IH. lia. Qed.

Lemma promised_mono cells l w : 0 <= w -> w <= promised cells l w.
Proof. intros Hw. unfold promised. induction l as [|a l IH]; cbn [foldr]; [lia|]. nia. Qed.

Lemma breadth_walk_spec fuel cells w a l :
  lineage a l -> (length a < fuel)%nat -> 0 <= w ->
  (breadth_walk fuel cells w (Some a) <= u8_max <-> promised cells l w <= u8_max) /\
  (promised cells l w <= u8_max -> breadth_walk fuel cells w (Some a) = promised cells l w).
Proof.
  intros Hl. revert fuel w. induction Hl as [a Hp|a p l Hp Hl IH]; intros [|fuel] w Hf Hw; try lia;
    cbn [breadth_walk promised foldr]; rewrite Hp.
  - assert (breadth_walk fuel cells (sat_mul64 w (Z.max (direct_children cells a) 1)) None
            = sat_mul64 w (Z.max (direct_children cells a) 1)) as -> by (by destruct fuel).
    unfold sat_mul64. ulia.
  - pose proof (addr_parent_length _ _ Hp).
    fold (promised cells l w). set (d := Z.max (direct_children cells a) 1).
    rewrite <- promised_scale. rewrite (Z.mul_comm d w).
    assert (0 <= w * d) as Hwd by nia. unfold sat_mul64.
    destruct (Z.leb_spec (w * d) u64_max) as [Hs|Hs].
    + rewrite Z.min_l by done. apply IH; [lia|done].
    + rewrite Z.min_r by lia. pose proof (promised_mono cells l (w * d) Hwd).
      pose proof (promised_mono cells l u64_max ltac:(ulia)).
      destruct (IH fuel u64_max ltac:(lia) ltac:(ulia)) as [IH1 _]. rewrite IH1. ulia.
Qed.

(** A fan under a branching cell is admitted exactly when the whole frontier
    promised on the way down, this fan included, fits the geometry budget;
    the walk up always ends. *)
Theorem breadth_product_exact (cells : Cells) (parent : Addr) (w budget : Z) (l : list Addr) :
  is_u8 budget -> lineage parent l ->
  (breadth_product_ok cells parent w budget = true <-> promised cells l (Z.max w 1) <= budget).
Proof.
  intros Hb Hl. unfold breadth_product_ok, breadth_product. rewrite Z.leb_le.
  destruct (breadth_walk_spec (S (length parent)) cells (Z.max w 1) parent l Hl) as [H1 H2]; [lia|lia|].
  unfold is_u8 in Hb. split; intros H.
  - rewrite <- H2; [done|]. apply H1. lia.
  - rewrite H2; [done|]. lia.
Qed.

(** ** Fingerprints *)

(** A fingerprint depends on the set of census words and not on their counts,
    and not on the order the evidence came in: an epoch that repeats both
    repeats the fingerprint, and with open cells that is an orbit. *)
Theorem orbit_on_sameness `{Sha256} (axis : text) (ev ev' : list text) (census census' : gmap text Z)
    (remote : gmap text text) (open : Z) :
  ev ≡ₚ ev' -> dom census = dom census' ->
  is_orbit (Some (epoch_fingerprint axis ev census remote))
    (epoch_fingerprint axis ev' census' remote) open = (0 <? open).
Proof.
  intros Hev Hdom.
  assert (fingerprint_text axis ev census remote = fingerprint_text axis ev' census' remote) as E.
  { unfold fingerprint_text. rewrite (sort_texts_unique _ _ Hev).
    rewrite (sort_texts_unique (map_to_list census).*1 (map_to_list census').*1); [done|].
    apply NoDup_Permutation; [apply NoDup_fst_map_to_list..|].
    intros k. rewrite !list_elem_of_fmap.
    assert (forall m : gmap text Z, (exists y : text * Z, k = y.1 /\ y ∈ map_to_list m) <-> k ∈ dom m) as Hk.
    { intros m. rewrite elem_of_dom. split.
      - intros ([k' z] & -> & Hin%elem_of_map_to_list). by exists z.
      - intros [z Hz]. exists (k, z). split; [done|]. by apply elem_of_map_to_list. }
    by rewrite !Hk, Hdom. }
  unfold is_orbit, epoch_fingerprint. rewrite E, bool_decide_eq_true_2 by done. by rewrite andb_true_r.
Qed.

Lemma orbit_on_sameness_witness :
  is_orbit (Some (@epoch_fingerprint ToySha (chars "axis") [chars "a"; chars "b"] {[chars "L:101111" := 1]} ∅))
    (@epoch_fingerprint ToySha (chars "axis") [chars "b"; chars "a"] {[chars "L:101111" := 4]} ∅) 2 = true.
Proof.
  rewrite (@orbit_on_sameness ToySha (chars "axis") [chars "a"; chars "b"] [chars "b"; chars "a"]
    {[chars "L:101111" := 1]} {[chars "L:101111" := 4]} ∅ 2); [done|constructor|by rewrite !dom_singleton_L].
Defined.

(** ** The directory *)

Lemma file_ext_json a : a <> [] -> file_ext (addr_file a) = Some (a, chars "json").
Proof.
  intros Ha. unfold file_ext.
  assert (rsplit_once 46 (addr_file a) = Some (a, chars "json")) as ->.
  { apply rsplit_once_Some. split; [done|]. by apply (bool_decide_unpack _). }
  by destruct a.
Qed.

Lemma file_ext_Some name stem ext : file_ext name = Some (stem, ext) -> name = stem ++ 46 :: ext.
Proof.
  unfold file_ext. destruct (rsplit_once 46 name) as [[s e]|] eqn:E; [|done].
  apply rsplit_once_Some in E as [-> _]. intros H. destruct s; [done|]. by injection H as <- <-.
Qed.

Section Directory.
Context `{TreeJson}.

Lemma load_entry_name e k c :
  load_entry e = Some (k, c) ->
  e.1 = addr_file k /\ cell_addr c = k /\ valid_addr k /\ e.2 ≫= cell_of_json = Some c.
Proof.
  unfold load_entry. destruct (file_ext e.1) as [[stem ext]|] eqn:E; [|done].
  case_bool_decide as Hx; [|done]. cbn [negb].
  destruct (e.2 ≫= cell_of_json) as [c'|] eqn:Ec; [|done].
  case_bool_decide as Hp; [|done]. intros [= <- <-].
  apply file_ext_Some in E. pose proof Hp as Hq. apply addr_parse_spec in Hq as (Eq & _).
  rewrite Eq in Hp |- *. rewrite E. subst ext. done.
Qed.

Lemma load_entry_valid k c f :
  valid_addr k -> cell_addr c = k -> f ≫= cell_of_json = Some c ->
  load_entry (addr_file k, f) = Some (k, c).
Proof.
  intros Hv Hk Hf. unfold load_entry. cbn [fst snd].
  rewrite file_ext_json by (intros ->; by vm_compute in Hv). rewrite bool_decide_eq_true_2 by done. cbn [negb].
  rewrite Hf, Hk, bool_decide_eq_true_2 by done. done.
Qed.

Lemma addr_file_inj a b : addr_file a = addr_file b -> a = b.
Proof. apply (inj (fun x => x ++ chars ".json")). Qed.

(** A cell is loaded from the file its address names, and from no other. *)
Lemma load_cells_lookup d k c :
  load_cells (Some d) !! k = Some c <->
  valid_addr k /\ cell_addr c = k /\ (d !! addr_file k) ≫= (fun f => f ≫= cell_of_json) = Some c.
Proof.
  unfold load_cells.
  assert (NoDup (omap load_entry (map_to_list d)).*1) as Hnd.
  { pose proof (NoDup_fst_map_to_list d) as Hd. revert Hd. generalize (map_to_list d).
    induction l as [|e l IH]; [constructor|]. cbn. intros [Hn Hl]%NoDup_cons.
    destruct (load_entry e) as [[k' c']|] eqn:Ee; [|by apply IH]. cbn. constructor; [|by apply IH].
    rewrite list_elem_of_fmap. intros ([k2 c2] & Ek & (e2 & He2 & Hl2)%list_elem_of_omap). cbn in Ek.
    subst k2. apply load_entry_name in Ee as [Ee _], Hl2 as [Hl2 _]. apply Hn.
    rewrite list_elem_of_fmap. exists e2. by rewrite Ee, Hl2. }
  rewrite <- elem_of_list_to_map by done. rewrite list_elem_of_omap. split.
  - intros ([n f] & Hin%elem_of_map_to_list & He). apply load_entry_name in He as (E1 & E2 & E3 & E4).
    cbn in E1, E4. subst n. by rewrite Hin.
  - intros (Hv & Hk & Hd). destruct (d !! addr_file k) as [f|] eqn:Ef; [|done].
    exists (addr_file k, f). split; [by apply elem_of_map_to_list|]. by apply load_entry_valid.
Qed.

(** The tree a daemon rebuilds is well-formed whatever lies in the directory. *)
Lemma load_cells_wf dir : wf_cells (load_cells dir).
Proof.
  destruct dir as [d|]; [|apply map_Forall_empty].
  intros k c (Hv & Hk & _)%load_cells_lookup. done.
Qed.
End Directory.

Lemma wf_reparented cells : wf_cells cells -> wf_cells (reparent_orphans cells).1.
Proof.
  intros Hwf k c. unfold reparent_orphans. rewrite (reparent_loop_lookup cells) by done.
  intros Hk. destruct (cells !! k) as [c0|] eqn:Ec; [|by case_decide].
  destruct (Hwf _ _ Ec) as [Ha Hv]. split; [|done]. cbn in Hk.
  case_decide; [|congruence]. injection Hk as <-. unfold reparented. by destruct (reparent_target cells k).
Qed.

Lemma tmp_name_not_json a b : addr_file a <> addr_file b ++ chars ".tmp".
Proof.
  intros E. apply (f_equal (fun s => rev s !! 0%nat)) in E. unfold addr_file in E.
  rewrite !rev_app_distr in E. done.
Qed.

(** The directory is the tree.  A saved cell is what a restart reads at its
    address and every other cell is read as before; a save that stops at
    either write leaves the tree a restart reads as it was, so no torn cell is
    ever loaded; and what is loaded is well-formed whatever the directory holds. *)
Theorem tree_survives_restart `{TreeJsonLaws} (dir : option Dir) (c : CellRecord) (rename_ok : bool) :
  valid_addr (cell_addr c) ->
  load_cells (save_cell true true dir c) = <[cell_addr c := c]> (load_cells dir) /\
  load_cells (save_cell true false dir c) = load_cells dir /\
  load_cells (save_cell false rename_ok dir c) = load_cells dir /\
  wf_cells (load_tree dir).
Proof.
  intros Hv.
  assert (load_cells dir = load_cells (Some (default ∅ dir))) as Ed by (destruct dir; done).
  split_and!; [| |done|apply wf_reparented, load_cells_wf].
  - rewrite Ed. apply map_eq. intros k. apply option_eq. intros x. unfold save_cell.
    rewrite load_cells_lookup. destruct (decide (k = cell_addr c)) as [->|Hne].
    + rewrite !lookup_insert_eq. cbn. rewrite cell_json_roundtrip. naive_solver.
    + rewrite (lookup_insert_ne _ (cell_addr c)) by done. rewrite load_cells_lookup.
      rewrite lookup_insert_ne by (intros E; apply addr_file_inj in E; done).
      rewrite lookup_delete_ne by (intros E; by apply (tmp_name_not_json k (cell_addr c))).
      by rewrite lookup_insert_ne by (intros E; by apply (tmp_name_not_json k (cell_addr c))).
  - rewrite Ed. apply map_eq. intros k. apply option_eq. intros x. unfold save_cell.
    rewrite !load_cells_lookup.
    by rewrite lookup_insert_ne by (intros E; by apply (tmp_name_not_json k (cell_addr c))).
Qed.

(** [mandalas.json] read back is the map it was written from. *)
Lemma foldl_insert_list (l : list MandalaRecord) (m : gmap Z MandalaRecord) k :
  NoDup (md_id <$> l) ->
  foldl (fun m r => <[md_id r := r]> m) m l !! k =
  match list_find (fun r => md_id r = k) l with Some (_, r) => Some r | None => m !! k end.
Proof.
  revert m; induction l as [|r l IH]; intros m; cbn [fmap list_fmap foldl]; [done|].
  intros [Hr Hl]%NoDup_cons. rewrite IH by done. cbn [list_find].
  destruct (decide (md_id r = k)) as [<-|Hne].
  - destruct (list_find _ l) as [[i r']|] eqn:E; [|by rewrite lookup_insert_eq].
    apply list_find_Some in E as (Hi & Hk & _). exfalso. apply Hr. rewrite <- Hk.
    apply list_elem_of_fmap. exists r'. split; [done|]. by eapply list_elem_of_lookup_2.
  - destruct (list_find _ l) as [[i r']|]; cbn; [done|]. by rewrite lookup_insert_ne.
Qed.

Lemma mandalas_survive_restart `{TreeJsonLaws} (file : option text) (ms : gmap Z MandalaRecord) :
  map_Forall (fun k m => md_id m = k) ms ->
  load_mandalas (save_mandalas true true file ms) = ms.
Proof.
  intros Hwf. unfold load_mandalas, save_mandalas. cbn [andb mbind option_bind].
  rewrite mandalas_json_roundtrip. cbn [default from_option id].
  set (l := merge_sort md_leb (map_to_list ms).*2).
  assert (l ≡ₚ (map_to_list ms).*2) as Hp by apply merge_sort_Permutation.
  assert (forall k r, md_id r = k -> r ∈ l <-> ms !! k = Some r) as Hin.
  { intros k r <-. rewrite Hp, list_elem_of_fmap. split.
    - intros ([k' r'] & -> & Hm%elem_of_map_to_list). cbn. by rewrite (Hwf _ _ Hm).
    - intros Hm. exists (md_id r, r). split; [done|]. by apply elem_of_map_to_list. }
  assert (NoDup (md_id <$> l)) as Hnd.
  { rewrite Hp. assert (md_id <$> (map_to_list ms).*2 = (map_to_list ms).*1) as ->; [|apply NoDup_fst_map_to_list].
    rewrite <- list_fmap_compose. apply list_fmap_ext. intros i [k r] Hi%list_elem_of_lookup_2.
    apply elem_of_map_to_list in Hi. cbn. by apply Hwf. }
  apply map_eq. intros k. rewrite foldl_insert_list, lookup_empty by done.
  destruct (list_find _ l) as [[i r]|] eqn:E.
  - apply list_find_Some in E as (Hi & Hk & _). symmetry. apply Hin; [done|].
    by eapply list_elem_of_lookup_2.
  - destruct (ms !! k) as [r|] eqn:Er; [|done]. exfalso. apply list_find_None in E.
    rewrite Forall_forall in E. apply (E r); [|by apply Hwf]. by apply (Hin k); [apply Hwf|].
Qed.

(** ** Forms *)

Definition all_forms : list CellForm := [0; 1; 2; 3; 4; 5; 6; 7].
Definition compose_count (v : Compose) : Z :=
  zlen (filter (fun p => compose p.1 p.2 = v) (f ← all_forms; g ← all_forms; [(f, g)])).

Lemma land7 f i : 0 <= f -> (i < 3)%nat -> Z.land (Z.land f 7) (2 ^ Z.of_nat i) = Z.land f (2 ^ Z.of_nat i).
Proof. intros Hf Hi. rewrite <- Z.land_assoc. f_equal. do 3 (destruct i as [|i]; [done|]); lia. Qed.

(** The table is total on bytes, looks at the three risk bits only, and splits
    its 64 entries 36 / 12 / 16; arming a guard's bit keeps the others. *)
Lemma compose_table (p c : CellForm) :
  0 <= p -> 0 <= c ->
  compose p c = compose (Z.land p 7) (Z.land c 7) /\ compose_count Free = 36 /\ compose_count Conditional = 12 /\ compose_count Forbidden = 16.
Proof.
  intros Hp Hc. split; [|done]. unfold compose, recurs, branches.
  pose proof (land7 p 1 Hp ltac:(lia)) as E1. pose proof (land7 p 2 Hp ltac:(lia)) as E2.
  pose proof (land7 c 1 Hc ltac:(lia)) as E3. pose proof (land7 c 2 Hc ltac:(lia)) as E4.
  change (2 ^ Z.of_nat 1) with 2 in *. change (2 ^ Z.of_nat 2) with 4 in *.
  by rewrite E1, E2, E3, E4.
Qed.

(** ** Witnesses *)

Definition demo_cell (a : Addr) (task : text) : CellRecord :=
  mkCell a SPINE task (mkBudget 5 1 6 600) [] None (chars "open") None None 0 None false None [] false None.

Definition demo_tree : Cells :=
  list_to_map ((fun a => (chars a, demo_cell (chars a) [])) <$> ["0"; "0.0"; "0.2.1"; "0.2.1.0"]%string).

Lemma wf_cells_check (cells : Cells) :
  forallb (fun p => bool_decide (cell_addr p.2 = p.1) && bool_decide (valid_addr p.1)) (map_to_list cells) = true ->
  wf_cells cells.
Proof.
  rewrite forallb_forall. intros Hall k c Hk.
  specialize (Hall (k, c) ltac:(by apply list_elem_of_In, elem_of_map_to_list)). cbn in Hall.
  by rewrite andb_true_iff, !bool_decide_eq_true in Hall.
Qed.

Lemma demo_tree_wf : wf_cells demo_tree.
Proof. apply wf_cells_check. vm_compute. reflexivity. Qed.

Lemma next_child_ordinal_fresh_witness :
  next_child_ordinal demo_tree (chars "0") = 3 /\ is_ancestor_of (chars "0.3") (chars "0.2.1") = false.
Proof.
  split; [vm_compute; done|].
  apply (next_child_ordinal_fresh demo_tree (chars "0") (chars "0.2.1") demo_tree_wf);
    [vm_compute; done|vm_compute; eauto].
Defined.

Lemma reparent_nearest_living_witness :
  (cell_reparented_to <$> (reparent_orphans demo_tree).1 !! chars "0.2.1") = Some (Some (chars "0")).
Proof.
  destruct (reparent_nearest_living demo_tree (chars "0.2.1") demo_tree_wf) as [E _].
  rewrite E. vm_compute. done.
Defined.

Lemma budget_descent_witness :
  let p := mkBudget 3 64 12 600 in let c := contract_child p in let d := contract_child c in
  admitted_line p [c; d] /\ steps_total [c; d] <= 2 * 12.
Proof.
  intros p c d. assert (admitted_line p [c; d]) as Hl by (repeat (eapply (line_cons _ _ 1); [done|]); constructor).
  split; [done|]. exact (proj1 (proj2 (proj2 (budget_descent p [c; d] Hl)))).
Defined.

Lemma breadth_product_exact_witness :
  breadth_product_ok demo_tree (chars "0.2.1") 8 64 = true /\ breadth_product_ok demo_tree (chars "0") 65 64 = false.
Proof.
  split; [|vm_compute; done].
  apply (breadth_product_exact demo_tree (chars "0.2.1") 8 64 [chars "0.2.1"; chars "0.2"; chars "0"]);
    [ulia| |vm_compute; done].
  eapply lineage_up; [vm_compute; done|]. eapply lineage_up; [vm_compute; done|]. by apply lineage_top.
Defined.

Lemma tree_survives_restart_witness :
  load_cells (save_cell true true None (demo_cell (chars "0.4") (chars "t")))
  = {[chars "0.4" := demo_cell (chars "0.4") (chars "t")]}.
Proof.
  rewrite (proj1 (tree_survives_restart None (demo_cell (chars "0.4") (chars "t")) true ltac:(vm_compute; done))).
  done.
Defined.

Lemma renewals_terminate_witness :
  renewals 10 [5; 2; 1; 1] /\ 5 + (2 + (1 + (1 + 0))) < 10 /\ 2 ^ 3 < 10.
Proof.
  assert (renewals 10 [5; 2; 1; 1]) as Hr.
  { repeat (eapply (renewals_cons _ [9; 8]); [reflexivity|]). constructor. }
  split; [done|]. exact (renewals_terminate 10 [5; 2; 1; 1] Hr ltac:(done)).
Defined.
