(* ===== verification/Beacon.v ===== *)
(** * The mesh downtime beacon

    [gateway/src/beacon.rs]: each registered peer is probed in turn, a peer that
    misses enough probes in a row is dark, one answer brings it back, and each
    crossing is announced once.  The liveness map is written by this loop alone
    and read by the peer listing and by the connectivity watcher. *)
From S2P Require Import Prelude Text Mandala.

(** ** Data *)

Definition DEFAULT_INTERVAL_SECS : Z := 30.
Definition DEFAULT_STALE_MISSES : Z := 3.
Definition MIN_INTERVAL_SECS : Z := 10.

(** [last_ok] is the clock at the last answer. *)
Record PeerLiveness := mkLiveness { pl_dark : bool; pl_misses : Z; pl_last_ok : option Z }.
Definition default_liveness : PeerLiveness := mkLiveness false 0 None.

Abbreviation LivenessMap := (gmap text PeerLiveness).

Inductive BeaconEdge := WentDark | Recovered.
#[export] Instance BeaconEdge_eq_dec : EqDecision BeaconEdge.
Proof. solve_decision. Defined.

(** ** One probe *)

Definition beacon_step (misses : Z) (dark ok : bool) (threshold : Z) : Z * bool * option BeaconEdge :=
  if ok then (0, false, if dark then Some Recovered else None)
  else
    let m := sat_add32 misses 1 in
    if negb dark && (threshold <=? m) then (m, true, Some WentDark) else (m, dark, None).

(** Settings: a flag is on unless it says off (no character outside ASCII has one
    of these letters as its lowercase); the interval has a floor. *)
Definition env_flag_on (var : option text) : bool :=
  match var with
  | Some v =>
      let v := to_ascii_lowercase v in
      negb (bool_decide (v = chars "0") || bool_decide (v = chars "false") || bool_decide (v = chars "off"))
  | None => true
  end.
Definition interval_secs (var : option text) : Z := Z.max (default DEFAULT_INTERVAL_SECS (var ≫= parse_u64)) MIN_INTERVAL_SECS.
Definition stale_misses (var : option text) : Z := Z.max (default DEFAULT_STALE_MISSES (var ≫= parse_u32)) 1.

(** A probe's answer: any HTTP answer at all counts. *)
Record PeerProbe := mkPeerProbe { pp_node : text; pp_ok : bool; pp_now : Z }.

(** What is announced: the board event, and the prompt to session 0. *)
Record BeaconNotice := mkBeaconNotice { bn_node : text; bn_edge : BeaconEdge; bn_last_seen : Z; bn_prompt : bool }.

Definition beacon_probe (threshold : Z) (notify : bool) (st : LivenessMap * list BeaconNotice) (p : PeerProbe)
    : LivenessMap * list BeaconNotice :=
  let '(map, out) := st in
  let e := default default_liveness (map !! pp_node p) in
  let '(m, dark, edge) := beacon_step (pl_misses e) (pl_dark e) (pp_ok p) threshold in
  let last_ok := if pp_ok p then Some (pp_now p) else pl_last_ok e in
  let secs := match last_ok with Some t => pp_now p - t | None => 0 end in
  (<[pp_node p := mkLiveness dark m last_ok]> map,
   match edge with
   | Some WentDark => out ++ [mkBeaconNotice (pp_node p) WentDark secs notify]
   | Some Recovered => out ++ [mkBeaconNotice (pp_node p) Recovered 0 notify]
   | None => out
   end).

(** The rounds one after the other; each is the probes of the peers registered
    when it began. *)
Definition beacon_run (threshold : Z) (notify : bool) (rounds : list (list PeerProbe)) (st : LivenessMap * list BeaconNotice)
    : LivenessMap * list BeaconNotice :=
  foldl (foldl (beacon_probe threshold notify)) st rounds.

(** What a peer listing shows: a peer never probed is alive. *)
Definition peer_liveness (map : LivenessMap) (now : Z) (node : text) : bool * Z :=
  match map !! node with
  | Some l => (negb (pl_dark l), match pl_last_ok l with Some t => now - t | None => 0 end)
  | None => (true, 0)
  end.

(** ** The reference: a peer's answers, in order *)

Definition answers_of (node : text) (probes : list PeerProbe) : list bool :=
  pp_ok <$> List.filter (fun p => bool_decide (pp_node p = node)) probes.

(** The misses since the last answer. *)
Definition streak_of (answers : list bool) : Z :=
  foldl (fun n (ok : bool) => if ok then 0 else n + 1) 0 answers.

(** The crossings: dark when the streak reaches the threshold, back at the first
    answer after that. *)
Fixpoint crossings (threshold n : Z) (answers : list bool) : list BeaconEdge :=
  match answers with
  | [] => []
  | true :: r => (if threshold <=? n then [Recovered] else []) ++ crossings threshold 0 r
  | false :: r => (if n + 1 =? threshold then [WentDark] else []) ++ crossings threshold (n + 1) r
  end.

Definition edges_of (node : text) (out : list BeaconNotice) : list BeaconEdge :=
  bn_edge <$> List.filter (fun n => bool_decide (bn_node n = node)) out.

(** The saturating counter against the streak. *)
Definition counted (n m : Z) : Prop := m = Z.min n u32_max.

Lemma counted_next n m : 0 <= n -> counted n m -> sat_add32 m 1 = Z.min (n + 1) u32_max.
Proof. unfold counted, sat_add32, u32_max. lia. Qed.

Lemma beacon_step_counts threshold n m ok :
  1 <= threshold <= u32_max -> 0 <= n -> counted n m ->
  let n' := if ok : bool then 0 else n + 1 in
  exists m' edge, beacon_step m (threshold <=? n) ok threshold = (m', threshold <=? n', edge) /\ counted n' m' /\
  (match edge with Some e => [e] | None => [] end)
  = if ok then (if threshold <=? n then [Recovered] else []) else (if n + 1 =? threshold then [WentDark] else []).
Proof.
  intros Ht Hn Hc n'. pose proof (counted_next n m Hn Hc) as Es. unfold beacon_step. subst n'. destruct ok.
  - exists 0, (if threshold <=? n then Some Recovered else None). split_and!; [|reflexivity|by destruct (threshold <=? n)].
    f_equal. f_equal. symmetry. apply Z.leb_gt. lia.
  - rewrite Es. exists (Z.min (n + 1) u32_max). destruct (Z.leb_spec threshold n) as [Hd|Hd]; cbn [negb andb].
    + exists None. rewrite (proj2 (Z.leb_le threshold (n + 1))) by lia. rewrite (proj2 (Z.eqb_neq (n + 1) threshold)) by lia. by split_and!.
    + assert ((threshold <=? Z.min (n + 1) u32_max) = (n + 1 =? threshold)) as ->.
      { apply eq_true_iff_eq. rewrite Z.leb_le, Z.eqb_eq. lia. }
      assert ((threshold <=? n + 1) = (n + 1 =? threshold)) as ->.
      { apply eq_true_iff_eq. rewrite Z.leb_le, Z.eqb_eq. lia. }
      exists (if n + 1 =? threshold then Some WentDark else None). by destruct (n + 1 =? threshold).
Qed.

(** What the map holds for a node after a streak. *)
Definition records (threshold n : Z) (map : LivenessMap) (node : text) : Prop :=
  let e := default default_liveness (map !! node) in counted n (pl_misses e) /\ pl_dark e = (threshold <=? n).

Lemma edges_of_snoc node out n : edges_of node (out ++ [n]) = edges_of node out ++ (if bool_decide (bn_node n = node) then [bn_edge n] else []).
Proof. unfold edges_of. rewrite List.filter_app, fmap_app. cbn. by case_bool_decide. Qed.

Lemma beacon_probe_other threshold notify map out p node :
  pp_node p <> node ->
  (beacon_probe threshold notify (map, out) p).1 !! node = map !! node /\
  edges_of node (beacon_probe threshold notify (map, out) p).2 = edges_of node out.
Proof.
  intros Hne. unfold beacon_probe. destruct (beacon_step _ _ _ _) as [[m dark] edge]. cbn [fst snd]. split; [by rewrite lookup_insert_ne|].
  destruct edge as [[|]|]; [rewrite edges_of_snoc; cbn [bn_node]; by rewrite bool_decide_false, app_nil_r..|done].
Qed.

Lemma beacon_probe_same threshold notify map out p n :
  1 <= threshold <= u32_max -> 0 <= n -> records threshold n map (pp_node p) ->
  let r := beacon_probe threshold notify (map, out) p in
  records threshold (if pp_ok p then 0 else n + 1) r.1 (pp_node p) /\
  edges_of (pp_node p) r.2 = edges_of (pp_node p) out
    ++ (if pp_ok p then (if threshold <=? n then [Recovered] else []) else (if n + 1 =? threshold then [WentDark] else [])).
Proof.
  intros Ht Hn [Hc Hd] r. unfold r, beacon_probe. rewrite Hd.
  pose proof (beacon_step_counts threshold n _ (pp_ok p) Ht Hn Hc) as Hs.
  destruct Hs as (m & edge & -> & Hc' & <-).
  split; [unfold records; cbn [fst]; rewrite lookup_insert_eq; by cbn|].
  cbn [fst snd]. destruct edge as [[|]|]; [rewrite edges_of_snoc; cbn [bn_node]; by rewrite bool_decide_true..|by rewrite app_nil_r].
Qed.

Lemma beacon_fold threshold notify node probes map out n :
  1 <= threshold <= u32_max -> 0 <= n -> records threshold n map node ->
  let r := foldl (beacon_probe threshold notify) (map, out) probes in
  records threshold (foldl (fun n (ok : bool) => if ok then 0 else n + 1) n (answers_of node probes)) r.1 node /\
  edges_of node r.2 = edges_of node out ++ crossings threshold n (answers_of node probes).
Proof.
  intros Ht. revert map out n. induction probes as [|p probes IH]; intros map out n Hn Hr; cbn zeta.
  { split; [exact Hr|]. cbn. by rewrite app_nil_r. }
  cbn [foldl]. unfold answers_of. cbn [List.filter]. case_bool_decide as E; cbn [fmap list_fmap foldl].
  - subst node. destruct (beacon_probe_same threshold notify map out p n Ht Hn Hr) as [Hr' He].
    destruct (beacon_probe threshold notify (map, out) p) as [map1 out1]. cbn [fst snd] in Hr', He.
    assert (0 <= (if pp_ok p then 0 else n + 1)) as Hn' by (destruct (pp_ok p); lia).
    destruct (IH map1 out1 _ Hn' Hr') as [IH1 IH2]. split; [exact IH1|]. rewrite IH2, He, <- app_assoc. f_equal.
    cbn [crossings]. by destruct (pp_ok p).
  - destruct (beacon_probe_other threshold notify map out p node E) as [Hm He].
    destruct (beacon_probe threshold notify (map, out) p) as [map1 out1]. cbn [fst snd] in Hm, He.
    destruct (IH map1 out1 n Hn) as [IH1 IH2]; [unfold records in *; by rewrite Hm|]. split; [exact IH1|]. by rewrite IH2, He.
Qed.

Lemma beacon_rounds threshold notify (rounds : list (list PeerProbe)) st :
  beacon_run threshold notify rounds st = foldl (beacon_probe threshold notify) st (concat rounds).
Proof. unfold beacon_run. revert st. induction rounds as [|x rounds IH]; intros st; [done|]. cbn. by rewrite foldl_app, IH. Qed.

Lemma beacon_from_empty threshold notify (rounds : list (list PeerProbe)) node :
  1 <= threshold <= u32_max ->
  let r := beacon_run threshold notify rounds (∅, []) in
  records threshold (streak_of (answers_of node (concat rounds))) r.1 node /\
  edges_of node r.2 = crossings threshold 0 (answers_of node (concat rounds)).
Proof.
  intros Ht r. unfold r. rewrite beacon_rounds.
  apply (beacon_fold threshold notify node (concat rounds) ∅ [] 0 Ht); [lia|].
  unfold records. cbn. rewrite lookup_empty. cbn. split; [unfold counted; ulia|lia].
Qed.

Lemma beacon_dark threshold notify rounds node :
  1 <= threshold <= u32_max ->
  fst (peer_liveness (beacon_run threshold notify rounds (∅, [])).1 0 node)
  = negb (threshold <=? streak_of (answers_of node (concat rounds))).
Proof.
  intros Ht. destruct (beacon_from_empty threshold notify rounds node Ht) as [[_ Hd] _]. unfold peer_liveness.
  destruct (_ !! node) as [l|]; cbn in *; by rewrite <- Hd.
Qed.

(** C34: The beacon is exact.  Whatever peers come and go and however the probes of
    different peers interleave, a peer is dark exactly when its last probes, as
    many as the threshold or more, were all missed, and the crossings announced
    for it are those of its own answers: one when the streak reaches the
    threshold, one at the next answer, and none in between. *)
Theorem beacon_exact (threshold : Z) (notify : bool) (rounds : list (list PeerProbe)) (node : text) :
  1 <= threshold <= u32_max ->
  let r := beacon_run threshold notify rounds (∅, []) in
  let answers := answers_of node (concat rounds) in
  fst (peer_liveness r.1 0 node) = negb (threshold <=? streak_of answers) /\
  edges_of node r.2 = crossings threshold 0 answers.
Proof. intros Ht r answers. split; [by apply beacon_dark|apply (beacon_from_empty threshold notify rounds node Ht)]. Qed.

Lemma beacon_exact_witness :
  edges_of (chars "a") (beacon_run 2 true
    [[mkPeerProbe (chars "a") false 1; mkPeerProbe (chars "b") true 1]; [mkPeerProbe (chars "a") false 2];
     [mkPeerProbe (chars "a") false 3]; [mkPeerProbe (chars "a") true 4]] (∅, [])).2 = [WentDark; Recovered].
Proof. destruct (beacon_exact 2 true
    [[mkPeerProbe (chars "a") false 1; mkPeerProbe (chars "b") true 1]; [mkPeerProbe (chars "a") false 2];
     [mkPeerProbe (chars "a") false 3]; [mkPeerProbe (chars "a") true 4]] (chars "a")) as [_ E]; [ulia|]. rewrite E. vm_compute. reflexivity. Defined.
