(* ===== verification/Health.v ===== *)
(** * The boot-health marker

    [agentd/src/health.rs]: the marker the self-update watchdog polls, the gates
    a boot has to pass for it, and the integrity join over the files of the
    worker fabric.  The listener probe, the clock and the bus are the inputs of
    the gate loop, one [GateRound] per iteration. *)
From S2P Require Import Prelude Text Policy Protocol.

(** ** The marker *)

Record HealthChecks := mkChecks {
  hc_listeners_bound : bool; hc_plugins_loaded : Z; hc_cognitive_ok : bool; hc_mandala_coherent : bool
}.

Inductive HealthStatus := Booting | Healthy | DegradedBoot.

Record HealthMarker := mkMarker {
  hm_commit : text; hm_status : HealthStatus; hm_booted_at : Z; hm_pid : Z; hm_checks : HealthChecks
}.

Definition decide_status (listeners_bound expected_plugins_up : bool) : HealthStatus :=
  if listeners_bound && expected_plugins_up then Healthy else Booting.

(** The file after a write: the rename and its fallback in place; with neither
    the old marker stays. *)
Definition write_marker (dir_made renamed in_place : bool) (m : HealthMarker) (file : option HealthMarker) : option HealthMarker :=
  if negb dir_made then file else if renamed || in_place then Some m else file.

(** ** The gate loop *)

(** What the [select!] of one iteration saw. *)
Inductive GateWait := PluginUp (p : text) | PluginDown (p : text) | OtherEvent | LaggedEvents | BusClosed | Tick.

Record GateRound := mkRound { gr_probe : bool; gr_late : bool; gr_wait : GateWait }.

Inductive GateEnd :=
  | GateOpen (up : gset text) | GateDeadline (bound : bool) (up : gset text) | GateClosed | GateWaiting (bound : bool) (up : gset text).

Definition note_event (up : gset text) (w : GateWait) : gset text :=
  match w with PluginUp p => {[ p ]} ∪ up | PluginDown p => up ∖ {[ p ]} | _ => up end.

Fixpoint gate_loop (expected : gset text) (bound : bool) (up : gset text) (rounds : list GateRound) : GateEnd :=
  match rounds with
  | [] => GateWaiting bound up
  | r :: rounds =>
      let bound := bound || gr_probe r in
      match decide_status bound (bool_decide (expected ⊆ up)) with
      | Healthy => GateOpen up
      | _ =>
          if gr_late r then GateDeadline bound up
          else match gr_wait r with
               | BusClosed => GateClosed
               | w => gate_loop expected bound (note_event up w) rounds
               end
      end
  end.

(** The markers of one boot, in the order they are written. *)
Definition spawn_health_marker (commit : text) (booted_at pid : Z) (expected : gset text) (rounds : list GateRound)
    (cognitive_ok mandala_coherent : bool) : list HealthMarker :=
  mkMarker commit Booting booted_at pid (mkChecks false 0 false false) ::
  match gate_loop expected false ∅ rounds with
  | GateOpen up => [mkMarker commit Healthy booted_at pid (mkChecks true (Z.of_nat (size up)) cognitive_ok mandala_coherent)]
  | GateDeadline bound up => [mkMarker commit DegradedBoot booted_at pid (mkChecks bound (Z.of_nat (size up)) false false)]
  | GateClosed | GateWaiting _ _ => []
  end.

(** ** The integrity join *)

Inductive Violation :=
  | ClosedHoldsOpen (id : Z) (addr state : text)
  | NoWorkerBound (id : Z) (addr : text)
  | WorkerGone (remote : bool) (id : Z) (addr : text) (w : Z)
  | ReapLag (remote : bool) (id : Z) (addr : text) (w : Z) (state : text).

Definition open_state (st : text) : bool :=
  negb (bool_decide (st = chars "done") || bool_decide (st = chars "failed") || bool_decide (st = chars "cancelled")).

Section join.
Context {V : Type} `{!JsonArgs V} `{!JsonNums V}.

(** A later row of the same id wins. *)
Definition worker_states (workers : list V) : gmap Z text :=
  foldl (fun m w => match arg_u64 w (chars "id"), arg_str w (chars "state") with
                    | Some i, Some s => <[i := s]> m
                    | _, _ => m
                    end) ∅ workers.
Definition remote_states (remotes : list V) : gmap Z text :=
  foldl (fun m r => match arg_u64 r (chars "id") with
                    | Some i => <[i := default [] (arg_str r (chars "state_raw"))]> m
                    | None => m
                    end) ∅ remotes.

Definition bound_violation (remote : bool) (states : gmap Z text) (id : Z) (addr : text) (w : Z) : list Violation :=
  match states !! w with
  | None => [WorkerGone remote id addr w]
  | Some ws => if open_state ws then [] else [ReapLag remote id addr w ws]
  end.

Definition cell_violations (locals remotes : gmap Z text) (id : Z) (closed : bool) (c : V) : list Violation :=
  let addr := default (chars "?") (arg_str c (chars "addr")) in
  let cstate := default (chars "open") (arg_str c (chars "state")) in
  (if closed && open_state cstate then [ClosedHoldsOpen id addr cstate] else [])
  ++ (if bool_decide (addr = chars "0") || negb (open_state cstate) then []
      else
        let remote := is_someb (arg_str c (chars "node")) in
        match arg_u64 c (chars "worker") with
        | None => [NoWorkerBound id addr]
        | Some w => bound_violation remote (if remote then remotes else locals) id addr w
        end).

Definition tree_of (id : Z) (trees : list (Z * list V)) : option (list V) :=
  snd <$> List.find (fun t => t.1 =? id) trees.

Definition mandala_violation (locals remotes : gmap Z text) (trees : list (Z * list V)) (m : V) : list Violation :=
  match arg_u64 m (chars "id"), arg_str m (chars "state") with
  | Some id, Some mstate =>
      match tree_of id trees with
      | Some cells => cells ≫= cell_violations locals remotes id (bool_decide (mstate = chars "closed"))
      | None => []
      end
  | _, _ => []
  end.

Definition mandala_violations (mandalas : list V) (trees : list (Z * list V)) (workers remotes : list V) : list Violation :=
  mandalas ≫= mandala_violation (worker_states workers) (remote_states remotes) trees.

(** The files, read leniently. *)
Definition read_list (parse : text -> option V) (file : option text) : list V := default [] (t ← file; v ← parse t; json_as_array v).

Definition probe_mandala_coherence (parse : text -> option V) (mandalas workers remotes : option text)
    (cells : Z -> list (option text)) : bool * list Violation :=
  let ms := read_list parse mandalas in
  let trees := omap (fun m => id ← arg_u64 m (chars "id"); Some (id, omap (fun f => t ← f; parse t) (cells id))) ms in
  let v := mandala_violations ms trees (read_list parse workers) (read_list parse remotes) in
  (match v with [] => true | _ => false end, v).

(** ** The join against its three laws *)

(** A worker that is there and has not ended. *)
Definition runs (states : gmap Z text) (w : Z) : Prop := exists ws, states !! w = Some ws /\ open_state ws = true.

Record cell_coherent (locals remotes : gmap Z text) (closed : bool) (c : V) : Prop := {
  cc_closed : closed = true -> open_state (default (chars "open") (arg_str c (chars "state"))) = false;
  cc_bound : default (chars "?") (arg_str c (chars "addr")) <> chars "0" ->
             open_state (default (chars "open") (arg_str c (chars "state"))) = true ->
             exists w, arg_u64 c (chars "worker") = Some w /\
                       runs (if is_someb (arg_str c (chars "node")) then remotes else locals) w
}.

Lemma bound_violation_nil remote states id addr w : bound_violation remote states id addr w = [] <-> runs states w.
Proof.
  unfold bound_violation, runs. destruct (states !! w) as [ws|].
  - destruct (open_state ws) eqn:E; split; try done; [intros _; by exists ws|intros (? & [= <-] & ?); congruence].
  - split; [done|by intros (? & ? & _)].
Qed.

Lemma cell_violations_nil locals remotes id closed c :
  cell_violations locals remotes id closed c = [] <-> cell_coherent locals remotes closed c.
Proof.
  unfold cell_violations. set (addr := default (chars "?") _). set (st := default (chars "open") _).
  set (side := if is_someb _ then remotes else locals). rewrite app_nil. split.
  - intros [Hc Hb]. split; fold addr st side.
    + intros ->. by destruct (open_state st).
    + intros Ha Ho. rewrite bool_decide_false, Ho in Hb by done. cbn [negb orb] in Hb.
      destruct (arg_u64 c (chars "worker")) as [w|]; [|done]. exists w. split; [done|]. by apply bound_violation_nil in Hb.
  - intros [Hc Hb]. fold addr st in Hc, Hb. fold side in Hb. split.
    + destruct closed; [|done]. by rewrite Hc.
    + case_bool_decide as Ha; [done|]. destruct (open_state st) eqn:Ho; [|done]. cbn [negb orb].
      destruct (Hb Ha eq_refl) as (w & -> & Hr). by apply bound_violation_nil.
Qed.

Lemma bind_nil {A B} (f : A -> list B) l : l ≫= f = [] <-> Forall (fun x => f x = []) l.
Proof.
  induction l as [|x l IH]; cbn; [split; [constructor|done]|]. rewrite app_nil, Forall_cons. unfold mbind in IH. by rewrite IH.
Qed.

(** The join finds nothing exactly when the trees and the ledgers agree: for each
    mandala whose tree was read, a closed one holds no open cell, and every open
    cell but the root is bound to a worker that is in its ledger (the remote one
    when the cell names a node) and has not ended. *)
Theorem mandala_violations_exact (mandalas : list V) trees workers remotes :
  mandala_violations mandalas trees workers remotes = [] <->
  (forall m id mstate cells c, m ∈ mandalas -> arg_u64 m (chars "id") = Some id -> arg_str m (chars "state") = Some mstate ->
     tree_of id trees = Some cells -> c ∈ cells ->
     cell_coherent (worker_states workers) (remote_states remotes) (bool_decide (mstate = chars "closed")) c).
Proof.
  unfold mandala_violations. rewrite bind_nil, Forall_forall. unfold mandala_violation. split.
  - intros Hv m id mstate cells c Hm Hi Hs Ht Hc. specialize (Hv m Hm). rewrite Hi, Hs, Ht in Hv.
    rewrite bind_nil, Forall_forall in Hv. by apply cell_violations_nil with id, Hv.
  - intros Hv m Hm. destruct (arg_u64 m (chars "id")) as [id|] eqn:Hi; [|done]. destruct (arg_str m (chars "state")) as [mstate|] eqn:Hs; [|done].
    destruct (tree_of id trees) as [cells|] eqn:Ht; [|done]. apply bind_nil, Forall_forall. intros c Hc.
    apply cell_violations_nil. by eapply Hv.
Qed.
End join.

(** ** When the marker says healthy *)

Definition gate_heard (up : gset text) (rounds : list GateRound) : gset text := foldl (fun up r => note_event up (gr_wait r)) up rounds.

(** A boot that may still go on: before the deadline, with the bus alive. *)
Definition pending (r : GateRound) : Prop := gr_late r = false /\ gr_wait r <> BusClosed.

Definition ready (expected : gset text) (bound : bool) (up : gset text) (rounds : list GateRound) : Prop :=
  exists pre r post, rounds = pre ++ r :: post /\ Forall pending pre /\
    bound || existsb gr_probe (pre ++ [r]) = true /\ expected ⊆ gate_heard up pre.

Lemma gate_loop_opens expected bound up rounds :
  (exists up', gate_loop expected bound up rounds = GateOpen up') <-> ready expected bound up rounds.
Proof.
  revert bound up. induction rounds as [|r rounds IH]; intros bound up; cbn [gate_loop].
  { split; [by intros [? ?]|intros (pre & ? & ? & E & _); by destruct pre]. }
  unfold decide_status. destruct (bound || gr_probe r) eqn:Eb; [case_bool_decide as Hu; cbn [andb]|cbn [andb]].
  - split; [intros _|by eexists]. exists [], r, rounds. split_and!; [done|constructor|cbn; by rewrite orb_false_r|done].
  - split.
    + intros [up' E]. destruct (gr_late r) eqn:El; [done|]. assert (gr_wait r <> BusClosed) as Hw by (intros Hw; by rewrite Hw in E).
      assert (ready expected true (note_event up (gr_wait r)) rounds) as (pre & r' & post & -> & Hp & Hb & Hs).
      { apply IH. exists up'. by destruct (gr_wait r). }
      exists (r :: pre), r', post. split_and!; [done|by constructor| |done]. cbn. by rewrite orb_assoc, Eb.
    + intros (pre & r' & post & E & Hp & Hb & Hs). destruct pre as [|r0 pre]; [by injection E as -> ->|].
      injection E as <- ->. apply Forall_cons in Hp as [[Hl Hw] Hp]. rewrite Hl.
      assert (ready expected true (note_event up (gr_wait r)) (pre ++ r' :: post)) as Hr.
      { exists pre, r', post. by split_and!. }
      apply IH in Hr. by destruct (gr_wait r).
  - apply orb_false_iff in Eb as [-> Er]. split.
    + intros [up' E]. destruct (gr_late r) eqn:El; [done|]. assert (gr_wait r <> BusClosed) as Hw by (intros Hw; by rewrite Hw in E).
      assert (ready expected false (note_event up (gr_wait r)) rounds) as (pre & r' & post & -> & Hp & Hb & Hs).
      { apply IH. exists up'. by destruct (gr_wait r). }
      exists (r :: pre), r', post. split_and!; [done|by constructor| |done]. cbn. by rewrite Er.
    + intros (pre & r' & post & E & Hp & Hb & Hs). destruct pre as [|r0 pre].
      { injection E as -> ->. cbn in Hb. by rewrite Er in Hb. }
      injection E as <- ->. apply Forall_cons in Hp as [[Hl Hw] Hp]. rewrite Hl.
      assert (ready expected false (note_event up (gr_wait r)) (pre ++ r' :: post)) as Hr.
      { exists pre, r', post. split_and!; [done..| |done]. cbn in Hb. by rewrite Er in Hb. }
      apply IH in Hr. by destruct (gr_wait r).
Qed.

(** The first marker of a boot says booting, every marker carries this binary's
    commit and boot time, and one says healthy exactly when, before the deadline
    and while the bus lives, the listener had answered and every expected plugin
    was up by the events received. *)
Theorem healthy_exactly_when_ready commit booted_at pid expected rounds cognitive coherent :
  let markers := spawn_health_marker commit booted_at pid expected rounds cognitive coherent in
  hm_status <$> head markers = Some Booting /\
  Forall (fun m => hm_commit m = commit /\ hm_booted_at m = booted_at) markers /\
  ((exists m, m ∈ markers /\ hm_status m = Healthy) <-> ready expected false ∅ rounds).
Proof.
  intros markers. split; [done|]. split.
  - unfold markers, spawn_health_marker. constructor; [done|]. destruct (gate_loop _ _ _ _); by repeat constructor.
  - rewrite <- gate_loop_opens. unfold markers, spawn_health_marker. split.
    + intros (m & Hm & Hs). apply elem_of_cons in Hm as [->|Hm]; [done|].
      destruct (gate_loop _ _ _ _) as [up| | |]; [by exists up|..]; [apply list_elem_of_singleton in Hm; by subst m|by apply elem_of_nil in Hm..].
    + intros [up ->]. eexists. split; [by right; left|done].
Qed.

(** A plugin comes up while the receiver lags behind: its event is among those
    dropped, nothing asks again, and the boot ends degraded. *)
Example lagged_plugin_fails_the_boot :
  hm_status <$> spawn_health_marker [] 0 1 {[ chars "p" ]}
    [mkRound true false LaggedEvents; mkRound true false Tick; mkRound true true Tick] true true = [Booting; DegradedBoot].
Proof. vm_compute. reflexivity. Qed.
