(* ===== verification/Review.v ===== *)
(** * The review procedure

    [agentd/crates/agentd/src/review.rs]: the decision core of worker
    supervision.  A posture and six observables give exactly one remediation;
    the Fibonacci ladder spaces quiet re-reviews.  Durations are milliseconds.
    [golden_offset] is floating-point arithmetic and stays a parameter of the
    files that use it. *)
From S2P Require Import Prelude Text.

Inductive Posture := Live | Waiting | BarrierWait | Terminal.

#[export] Instance Posture_eq_dec : EqDecision Posture.
Proof. solve_decision. Defined.

Record Word := mkWord {
  wd_progress : bool;
  wd_budget : bool;
  wd_verified : bool;
  wd_demand : bool;
  wd_capacity : bool;
  wd_horizon : bool
}.

Definition word_bits (w : Word) : text :=
  (fun v : bool => if v then 49 else 48) <$>
    [wd_progress w; wd_budget w; wd_verified w; wd_demand w; wd_capacity w; wd_horizon w].

Definition posture_letter (p : Posture) : Z :=
  match p with Live => 76 | Waiting => 87 | BarrierWait => 66 | Terminal => 84 end.

Definition census_key (p : Posture) (w : Word) : text := posture_letter p :: 58 :: word_bits w.

Inductive Remediation := Healthy | Fail_ | Park | Reap | OpenBarrier | Cancel.

#[export] Instance Remediation_eq_dec : EqDecision Remediation.
Proof. solve_decision. Defined.

Definition review (p : Posture) (w : Word) : Remediation :=
  match p with
  | Terminal => Reap
  | Live => if negb (wd_progress w) then Fail_ else if negb (wd_demand w) then Cancel else Healthy
  | Waiting => if negb (wd_demand w) then Cancel else if negb (wd_progress w) then Park else Healthy
  | BarrierWait => if negb (wd_demand w) then Cancel else if negb (wd_progress w) then OpenBarrier else Healthy
  end.

(** [Duration::MAX] in milliseconds: [saturating_mul] stops there. *)
Definition DURATION_MAX : Z := 18446744073709551615999.

Definition fib_backoff (attempt base : Z) : Z :=
  let mult := nth (Z.to_nat (Z.min attempt 5)) [1; 1; 2; 3; 5; 8] 8 in
  Z.min (base * mult) DURATION_MAX.

(** The key of a review determines it. *)
Lemma census_key_inj p p' w w' : census_key p w = census_key p' w' -> p = p' /\ w = w'.
Proof.
  intros E. destruct w as [a b c d e f], w' as [a' b' c' d' e' f'].
  unfold census_key in E. cbn in E. injection E as Hp Ha Hb Hc Hd He Hf.
  split; [by destruct p, p'|].
  f_equal; [destruct a, a'|destruct b, b'|destruct c, c'|destruct d, d'|destruct e, e'|destruct f, f']; done.
Qed.

(** Only progress and demand decide: the deadline bits never kill, a terminal
    worker is always reaped, and no posture has two exits. *)
Lemma review_table p w :
  review p w =
  match p, wd_demand w, wd_progress w with
  | Terminal, _, _ => Reap
  | Live, _, false => Fail_
  | Live, false, true => Cancel
  | Live, true, true => Healthy
  | _, false, _ => Cancel
  | Waiting, true, false => Park
  | BarrierWait, true, false => OpenBarrier
  | _, true, true => Healthy
  end.
Proof. by destruct p, w as [[] ? ? [] ? ?]. Qed.

Lemma fib_backoff_bounds attempt base :
  0 <= attempt -> 0 <= base <= DURATION_MAX -> base <= fib_backoff attempt base <= 8 * base.
Proof.
  intros Ha Hb. unfold fib_backoff.
  assert (exists k, Z.min attempt 5 = Z.of_nat k /\ (k <= 5)%nat) as (k & -> & Hk).
  { exists (Z.to_nat (Z.min attempt 5)). lia. }
  rewrite Nat2Z.id. do 6 (destruct k as [|k]; [cbn [nth]; lia|]). lia.
Qed.

(** The ladder only widens. *)
Lemma fib_backoff_mono a b base : 0 <= a <= b -> 0 <= base -> fib_backoff a base <= fib_backoff b base.
Proof.
  intros Hab Hb. unfold fib_backoff.
  assert (exists k l, Z.min a 5 = Z.of_nat k /\ Z.min b 5 = Z.of_nat l /\ (k <= l <= 5)%nat) as (k & l & -> & -> & Hk).
  { exists (Z.to_nat (Z.min a 5)), (Z.to_nat (Z.min b 5)). lia. }
  rewrite !Nat2Z.id.
  do 6 (destruct k as [|k]; [do 6 (destruct l as [|l]; [cbn [nth]; lia|]); lia|]). lia.
Qed.
