(* ===== verification/Remote.v ===== *)
(** * The mesh-worker wire

    [agentd/crates/agentd/src/remote.rs]: what crosses between a conductor and
    the peer that hosts its workers, and the conductor's mirror rows.  States
    travel as strings; a row's evidence document is a JSON value.  Decoding a
    row is serde's, a class; the snapshot hash is the standard library's
    hasher, a parameter. *)
From S2P Require Import Prelude Text Policy Protocol Review.

Record RemoteTaskItem := mkRemoteTask {
  rt_prompt : text;
  rt_model : option text;
  rt_steps : option Z
}.

(** [build_fanout_body]: the fields of the assignment. *)
Record FanoutBody := build_fanout_body {
  fb_from : text;
  fb_origin_batch : Z;
  fb_deadline_s : Z;
  fb_tasks : list RemoteTaskItem
}.

Record AcceptedRow := mkAccepted {
  ar_index : Z;
  ar_worker : Z;
  ar_session : Z
}.

Record WireRow (V : Type) := mkWireRow {
  wr_worker : Z;
  wr_session : Z;
  wr_state : text;
  wr_timed_out : bool;
  wr_summary : option text;
  wr_evidence_doc : option V
}.
Arguments mkWireRow {V}. Arguments wr_worker {V}. Arguments wr_session {V}. Arguments wr_state {V}.
Arguments wr_timed_out {V}. Arguments wr_summary {V}. Arguments wr_evidence_doc {V}.

(** [build_rows_body]: a report home or a query's answer. *)
Record RowsBody (V : Type) := build_rows_body {
  rb_from : text;
  rb_origin_batch : Z;
  rb_peer_batch : Z;
  rb_rows : list (WireRow V)
}.
Arguments build_rows_body {V}. Arguments rb_from {V}. Arguments rb_origin_batch {V}.
Arguments rb_peer_batch {V}. Arguments rb_rows {V}.

(** [serde_json::from_value::<WireRow>]. *)
Class WireRowJson (V : Type) := { row_of_json : V -> option (WireRow V) }.

Section wire.
Context {V : Type} `{!JsonArgs V} `{!JsonNums V}.

Definition accepted_row (r : V) : option AcceptedRow :=
  i ← arg_u64 r (chars "index"); w ← arg_u64 r (chars "worker"); s ← arg_u64 r (chars "session");
  Some (mkAccepted i w s).

Fixpoint accepted_rows (rows : list V) : result (list AcceptedRow) text :=
  match rows with
  | [] => Ok []
  | r :: rows =>
      match accepted_row r with
      | None => Err (chars "accept row missing index/worker/session")
      | Some a => out <-! accepted_rows rows; Ok (a :: out)
      end
  end.

Definition parse_fanout_accept (v : V) : result (Z * list AcceptedRow) text :=
  if negb (bool_decide (arg_bool v (chars "ok") = Some true))
  then Err (default (chars "peer refused the fan") (arg_str v (chars "error")))
  else
    batch <-! ok_or (arg_u64 v (chars "batch")) (chars "accept carries no batch id");
    rows <-! ok_or (arg_array v (chars "workers")) (chars "accept carries no workers array");
    out <-! accepted_rows rows;
    Ok (batch, out).

(** Rows that do not parse are skipped. *)
Definition parse_rows `{!WireRowJson V} (v : V) : list (WireRow V) :=
  match arg_array v (chars "rows") with
  | Some rows => omap row_of_json rows
  | None => []
  end.
End wire.

(** ** States as strings *)

Definition state_str (s : WorkerState) : text :=
  chars match s with
        | WQueued => "queued" | WRunning => "running" | WIdle => "idle" | WParked => "parked"
        | WBlocked => "blocked" | WDone => "done" | WFailed => "failed" | WCancelled => "cancelled"
        end.

Definition is_terminal_state_str (s : text) : bool :=
  bool_decide (s = chars "done") || bool_decide (s = chars "failed") || bool_decide (s = chars "cancelled").

Definition parse_state_tolerant (s : text) : option WorkerState :=
  List.find (fun st => bool_decide (s = state_str st))
    [WQueued; WRunning; WIdle; WParked; WBlocked; WDone; WFailed; WCancelled].

Definition remote_row_state (raw : text) : WorkerState := default WQueued (parse_state_tolerant raw).

(** [(n as u32).clamp(1, 100)]; absent is the sentinel. *)
Definition hosted_step_ceiling (steps : option Z) : Z :=
  match steps with
  | None => 0
  | Some n => Z.min (Z.max (as_u32 n) 1) 100
  end.

(** ** Mirror rows *)

Definition STATE_ASSIGNING : text := chars "assigning".
Definition STATE_CANCEL_REQUESTED : text := chars "cancel requested".
Definition REPORT_RETRY_DELAYS_S : list Z := [10; 30; 60].

Record RemoteWorker := mkRemote {
  rm_batch : Z;
  rm_parent : Z;
  rm_node : text;
  rm_task : text;
  rm_model : option text;
  rm_remote_batch : option Z;
  rm_remote_worker : option Z;
  rm_remote_session : option Z;
  rm_state_raw : text;
  rm_summary : option text;
  rm_evidence : option text;
  rm_assigned_epoch : Z
}.

Definition rm_terminal (r : RemoteWorker) : bool := is_terminal_state_str (rm_state_raw r).

Definition rm_with_state (r : RemoteWorker) (s : text) : RemoteWorker :=
  mkRemote (rm_batch r) (rm_parent r) (rm_node r) (rm_task r) (rm_model r) (rm_remote_batch r)
    (rm_remote_worker r) (rm_remote_session r) s (rm_summary r) (rm_evidence r) (rm_assigned_epoch r).
Definition rm_with_summary (r : RemoteWorker) (s : option text) : RemoteWorker :=
  mkRemote (rm_batch r) (rm_parent r) (rm_node r) (rm_task r) (rm_model r) (rm_remote_batch r)
    (rm_remote_worker r) (rm_remote_session r) (rm_state_raw r) s (rm_evidence r) (rm_assigned_epoch r).
Definition rm_with_evidence (r : RemoteWorker) (e : option text) : RemoteWorker :=
  mkRemote (rm_batch r) (rm_parent r) (rm_node r) (rm_task r) (rm_model r) (rm_remote_batch r)
    (rm_remote_worker r) (rm_remote_session r) (rm_state_raw r) (rm_summary r) e (rm_assigned_epoch r).
Definition rm_with_ids (r : RemoteWorker) (batch worker session : Z) : RemoteWorker :=
  mkRemote (rm_batch r) (rm_parent r) (rm_node r) (rm_task r) (rm_model r) (Some batch)
    (Some worker) (Some session) (rm_state_raw r) (rm_summary r) (rm_evidence r) (rm_assigned_epoch r).

(** The persisted form adds the row id. *)
Abbreviation PersistedRemoteWorker := (Z * RemoteWorker)%type (only parsing).

Class RemotesJson := {
  remotes_to_json : list PersistedRemoteWorker -> text;
  remotes_of_json : text -> option (list PersistedRemoteWorker)
}.
Class RemotesJsonLaws `{RemotesJson} : Prop := {
  remotes_json_roundtrip l : remotes_of_json (remotes_to_json l) = Some l
}.

(** [sort_by_key(|r| r.id)]. *)
Definition id_leb {A} (a b : Z * A) : bool := a.1 <=? b.1.
Definition by_id {A} (m : gmap Z A) : list (Z * A) := merge_sort id_leb (map_to_list m).

Definition save_remotes `{RemotesJson} (write_ok : bool) (file : option text) (remotes : gmap Z RemoteWorker)
    : option text :=
  if write_ok then Some (remotes_to_json (by_id remotes)) else file.

Definition load_remotes `{RemotesJson} (file : option text) : list PersistedRemoteWorker :=
  default [] (file ≫= remotes_of_json).

(** ** The evidence mirror *)

Record MirrorDoc (V : Type) := mkMirror {
  mi_worker : Z;
  mi_row : RemoteWorker;
  mi_history : text;
  mi_completed_at : text;
  mi_artifacts : option V;
  mi_remote_evidence : option V
}.
Arguments mkMirror {V}. Arguments mi_worker {V}. Arguments mi_row {V}. Arguments mi_history {V}.
Arguments mi_completed_at {V}. Arguments mi_artifacts {V}. Arguments mi_remote_evidence {V}.

Definition compose_mirror_doc {V} (local_wid : Z) (r : RemoteWorker) (completed_at : text) : MirrorDoc V :=
  mkMirror local_wid r
    (match rm_remote_session r with
     | Some s => chars "remote:" ++ rm_node r ++ chars ":sessions/" ++ dec_text s ++ chars ".jsonl"
     | None => chars "remote:" ++ rm_node r ++ chars ":(never assigned)"
     end)
    completed_at None None.

(** [mi_artifacts = None] is the empty list. *)
Definition fold_remote_evidence {V} `{!JsonArgs V} (m : MirrorDoc V) (evidence_doc : option V) : MirrorDoc V :=
  match evidence_doc with
  | Some doc =>
      mkMirror (mi_worker m) (mi_row m) (mi_history m) (mi_completed_at m)
        (json_get doc (chars "artifacts")) (Some doc)
  | None => mkMirror (mi_worker m) (mi_row m) (mi_history m) (mi_completed_at m) None (mi_remote_evidence m)
  end.

(** ** Polling *)

(** [hash] is what the default hasher makes of the values written to it. *)
Definition rows_fingerprint {V} (hash : list (Z * text * bool * bool) -> Z) (rows : list (WireRow V)) : Z :=
  hash ((fun r => (wr_worker r, wr_state r, wr_timed_out r, is_someb (wr_evidence_doc r))) <$> rows).

Definition next_poll_in (attempt : Z) (changed : bool) (base : Z) : Z :=
  if changed then base else fib_backoff attempt base.

Definition provenance_prefix (from : text) (origin_batch : Z) (prompt : text) : text :=
  chars "[mesh: " ++ from ++ chars " batch " ++ dec_text origin_batch ++ chars "] " ++ prompt.

(** A row of the witnesses' JSON. *)
#[export] Instance toy_wire_rows : WireRowJson Toy := {|
  row_of_json v :=
    w ← arg_u64 v (chars "worker");
    s ← arg_str v (chars "state");
    Some (mkWireRow w 0 s false (arg_str v (chars "summary")) (json_get v (chars "evidence")))
|}.

(** ** Lemmas *)

Lemma state_str_inj a b : state_str a = state_str b -> a = b.
Proof. by destruct a, b. Qed.

Lemma state_roundtrip s : parse_state_tolerant (state_str s) = Some s.
Proof. by destruct s. Qed.

(** Only the three terminal words are terminal, and they are read as such. *)
Lemma terminal_str_spec s :
  is_terminal_state_str s = true <->
  exists st, parse_state_tolerant s = Some st /\ (st = WDone \/ st = WFailed \/ st = WCancelled).
Proof.
  unfold is_terminal_state_str. rewrite !orb_true_iff, !bool_decide_eq_true. split.
  - intros [[->| ->]| ->]; eexists; (split; [reflexivity|]); auto.
  - intros (st & Hst & Ht). apply find_some in Hst as [_ Hst]. apply bool_decide_eq_true in Hst as ->.
    destruct Ht as [->|[->| ->]]; auto.
Qed.

Lemma unknown_state_is_open s : parse_state_tolerant s = None -> is_terminal_state_str s = false /\ remote_row_state s = WQueued.
Proof.
  intros Hn. unfold remote_row_state. rewrite Hn. split; [|done].
  destruct (is_terminal_state_str s) eqn:E; [|done]. apply terminal_str_spec in E as (st & Hst & _). congruence.
Qed.

Lemma next_poll_bounds attempt changed base :
  0 <= attempt -> 0 <= base <= DURATION_MAX -> base <= next_poll_in attempt changed base <= 8 * base.
Proof. intros. unfold next_poll_in. destruct changed; [lia|]. by apply fib_backoff_bounds. Qed.

#[export] Instance id_leb_total {A} : Total (fun a b : Z * A => Is_true (id_leb a b)).
Proof. intros a b. unfold id_leb. rewrite !Is_true_true, !Z.leb_le. lia. Qed.
#[export] Instance id_leb_trans {A} : Transitive (fun a b : Z * A => Is_true (id_leb a b)).
Proof. intros a b c. unfold id_leb. rewrite !Is_true_true, !Z.leb_le. lia. Qed.

Lemma by_id_perm {A} (m : gmap Z A) : by_id m ≡ₚ map_to_list m.
Proof. apply merge_sort_Permutation. Qed.

Lemma elem_by_id {A} (m : gmap Z A) i x : (i, x) ∈ by_id m <-> m !! i = Some x.
Proof. by rewrite by_id_perm, elem_of_map_to_list. Qed.

Lemma by_id_fst_nodup {A} (m : gmap Z A) : NoDup (by_id m).*1.
Proof. rewrite by_id_perm. apply NoDup_fst_map_to_list. Qed.

(** What is listed sorted by id rebuilds the map. *)
Lemma by_id_to_map {A} (m : gmap Z A) : list_to_map (by_id m) = m.
Proof.
  apply map_eq. intros i. apply option_eq. intros x.
  rewrite <- elem_of_list_to_map by apply by_id_fst_nodup. apply elem_by_id.
Qed.

(** Reading back a list written in id order: what each key was written from. *)
Lemma foldl_insert_lookup {P B} (k : P -> Z) (f : P -> B) (l : list P) (m : gmap Z B) i :
  NoDup (k <$> l) ->
  foldl (fun m x => <[k x := f x]> m) m l !! i =
  match List.find (fun x => k x =? i) l with Some x => Some (f x) | None => m !! i end.
Proof.
  revert m; induction l as [|x l IH]; intros m; cbn [fmap list_fmap foldl List.find]; [done|].
  intros [Hx Hl]%NoDup_cons. rewrite IH by done. destruct (Z.eqb_spec (k x) i) as [<-|Hne].
  - destruct (List.find _ l) as [y|] eqn:E; [|by rewrite lookup_insert_eq].
    apply find_some in E as [Hin Hk]. apply Z.eqb_eq in Hk. exfalso. apply Hx. rewrite <- Hk.
    apply list_elem_of_fmap. exists y. split; [done|]. by apply list_elem_of_In.
  - destruct (List.find _ l); [done|]. by rewrite lookup_insert_ne.
Qed.

Lemma restore_by_id {A P B} (g : Z * A -> P) (k : P -> Z) (f : P -> B) (m : gmap Z A) i :
  (forall e, k (g e) = e.1) ->
  foldl (fun m x => <[k x := f x]> m) (∅ : gmap Z B) (g <$> by_id m) !! i = (fun x => f (g (i, x))) <$> m !! i.
Proof.
  intros Hk.
  assert (NoDup (k <$> (g <$> by_id m))) as Hnd.
  { rewrite <- list_fmap_compose. rewrite (list_fmap_ext _ fst) by (intros; apply Hk). apply by_id_fst_nodup. }
  rewrite foldl_insert_lookup, lookup_empty by done.
  destruct (List.find _ _) as [p|] eqn:E.
  - apply find_some in E as [Hin Hi]. apply Z.eqb_eq in Hi.
    apply list_elem_of_In, list_elem_of_fmap in Hin as ([j x] & -> & Hin). rewrite Hk in Hi. cbn in Hi. subst j.
    apply elem_by_id in Hin. by rewrite Hin.
  - destruct (m !! i) as [x|] eqn:Ei; [|done]. exfalso.
    pose proof (find_none _ _ E (g (i, x))) as Hn. cbv beta in Hn. rewrite Hk in Hn. cbn [fst] in Hn. rewrite Z.eqb_refl in Hn.
    apply diff_true_false, Hn. apply list_elem_of_In, list_elem_of_fmap. exists (i, x). split; [done|]. by apply elem_by_id.
Qed.

(** [remote_workers.json] read back is what was written. *)
Lemma remotes_survive_restart `{RemotesJsonLaws} (file : option text) (rs : gmap Z RemoteWorker) :
  list_to_map (load_remotes (save_remotes true file rs)) = rs.
Proof.
  unfold load_remotes, save_remotes. cbn [mbind option_bind]. rewrite remotes_json_roundtrip. apply by_id_to_map.
Qed.

(** A step ceiling that does not fit 32 bits is truncated before it is clamped. *)
Example hosted_ceiling_truncates : hosted_step_ceiling (Some 4294967297) = 1 /\ hosted_step_ceiling (Some 101) = 100.
Proof. done. Qed.
