(* ===== verification/Worker.v ===== *)
(** * The worker fabric: workers, batches and their file

    [agentd/crates/agentd/src/worker.rs], first part: the worker record, the
    pure resolvers, admission, verdicts, wake-ups, approvals, cancellation,
    the batch ledger and the transaction file.  The driver is one task that
    owns every map; [iter().find] and [iter().filter] go through a map in an
    arbitrary order.  Clocks: [now] is milliseconds, [epoch] seconds.  What the
    driver sends or writes is a list of effects, in the order of the code;
    episodes are their answers, prompts the arguments of their format. *)
From S2P Require Import Prelude Text Confine Policy Protocol Mandala Review Remote.

Definition MAX_BATCH_TASKS : Z := 32.
Definition STEP_TIMEOUT : Z := 900 * 1000.
Definition IDLE_TTL : Z := 1800 * 1000.
Definition DEFAULT_MAX_STEPS : Z := 12.
Definition DEFAULT_BATCH_DEADLINE_S : Z := 3600.
Definition INLINE_MAX_TASKS : Z := 4.
Definition INLINE_DEADLINE_CEIL_S : Z := 240.
Definition PB1_SPAWN_THRESHOLD : Z := 3.
Definition PB1_WINDOW : Z := 600 * 1000.
Definition DEFAULT_BARRIER_TIMEOUT_S : Z := 1800.
Definition REVIEW_PERIOD : Z := 30 * 1000.
Definition TICK : Z := 5 * 1000.
Definition EPOCH_PERIOD : Z := 600 * 1000.

(** ** Data *)

Inductive Verdict :=
  | VContinue (steer : option text) (measure : option Z)
  | VDone (summary : text) (artifacts : list text) (measure : option Z)
  | VBlocked (reason : text)
  | VYield.

Record Worker := mkWorker {
  w_batch : Z;
  w_parent : Z;
  w_session : Z;
  w_task : text;
  w_state : WorkerState;
  w_step : Z;
  w_summary : option text;
  w_artifacts : list text;
  w_episode : option text;
  w_started : Z;
  w_pending : option Verdict;
  w_turn_inflight : bool;
  w_yolo : bool;
  w_model : option text;
  w_errored : bool;
  w_barrier_held : bool;
  w_step_ceiling : Z;
  w_next_review : option Z;
  w_last_review_key : option text;
  w_review_attempt : Z
}.

(** One update per mutable field. *)
Definition w_set_task (x : text) (w : Worker) : Worker :=
  mkWorker (w_batch w) (w_parent w) (w_session w) x (w_state w) (w_step w) (w_summary w) (w_artifacts w)
    (w_episode w) (w_started w) (w_pending w) (w_turn_inflight w) (w_yolo w) (w_model w) (w_errored w)
    (w_barrier_held w) (w_step_ceiling w) (w_next_review w) (w_last_review_key w) (w_review_attempt w).
Definition w_set_state (x : WorkerState) (w : Worker) : Worker :=
  mkWorker (w_batch w) (w_parent w) (w_session w) (w_task w) x (w_step w) (w_summary w) (w_artifacts w)
    (w_episode w) (w_started w) (w_pending w) (w_turn_inflight w) (w_yolo w) (w_model w) (w_errored w)
    (w_barrier_held w) (w_step_ceiling w) (w_next_review w) (w_last_review_key w) (w_review_attempt w).
Definition w_set_step (x : Z) (w : Worker) : Worker :=
  mkWorker (w_batch w) (w_parent w) (w_session w) (w_task w) (w_state w) x (w_summary w) (w_artifacts w)
    (w_episode w) (w_started w) (w_pending w) (w_turn_inflight w) (w_yolo w) (w_model w) (w_errored w)
    (w_barrier_held w) (w_step_ceiling w) (w_next_review w) (w_last_review_key w) (w_review_attempt w).
Definition w_set_summary (x : option text) (w : Worker) : Worker :=
  mkWorker (w_batch w) (w_parent w) (w_session w) (w_task w) (w_state w) (w_step w) x (w_artifacts w)
    (w_episode w) (w_started w) (w_pending w) (w_turn_inflight w) (w_yolo w) (w_model w) (w_errored w)
    (w_barrier_held w) (w_step_ceiling w) (w_next_review w) (w_last_review_key w) (w_review_attempt w).
Definition w_set_artifacts (x : list text) (w : Worker) : Worker :=
  mkWorker (w_batch w) (w_parent w) (w_session w) (w_task w) (w_state w) (w_step w) (w_summary w) x
    (w_episode w) (w_started w) (w_pending w) (w_turn_inflight w) (w_yolo w) (w_model w) (w_errored w)
    (w_barrier_held w) (w_step_ceiling w) (w_next_review w) (w_last_review_key w) (w_review_attempt w).
Definition w_set_episode (x : option text) (w : Worker) : Worker :=
  mkWorker (w_batch w) (w_parent w) (w_session w) (w_task w) (w_state w) (w_step w) (w_summary w)
    (w_artifacts w) x (w_started w) (w_pending w) (w_turn_inflight w) (w_yolo w) (w_model w) (w_errored w)
    (w_barrier_held w) (w_step_ceiling w) (w_next_review w) (w_last_review_key w) (w_review_attempt w).
Definition w_set_started (x : Z) (w : Worker) : Worker :=
  mkWorker (w_batch w) (w_parent w) (w_session w) (w_task w) (w_state w) (w_step w) (w_summary w)
    (w_artifacts w) (w_episode w) x (w_pending w) (w_turn_inflight w) (w_yolo w) (w_model w) (w_errored w)
    (w_barrier_held w) (w_step_ceiling w) (w_next_review w) (w_last_review_key w) (w_review_attempt w).
Definition w_set_pending (x : option Verdict) (w : Worker) : Worker :=
  mkWorker (w_batch w) (w_parent w) (w_session w) (w_task w) (w_state w) (w_step w) (w_summary w)
    (w_artifacts w) (w_episode w) (w_started w) x (w_turn_inflight w) (w_yolo w) (w_model w) (w_errored w)
    (w_barrier_held w) (w_step_ceiling w) (w_next_review w) (w_last_review_key w) (w_review_attempt w).
Definition w_set_turn_inflight (x : bool) (w : Worker) : Worker :=
  mkWorker (w_batch w) (w_parent w) (w_session w) (w_task w) (w_state w) (w_step w) (w_summary w)
    (w_artifacts w) (w_episode w) (w_started w) (w_pending w) x (w_yolo w) (w_model w) (w_errored w)
    (w_barrier_held w) (w_step_ceiling w) (w_next_review w) (w_last_review_key w) (w_review_attempt w).
Definition w_set_errored (x : bool) (w : Worker) : Worker :=
  mkWorker (w_batch w) (w_parent w) (w_session w) (w_task w) (w_state w) (w_step w) (w_summary w)
    (w_artifacts w) (w_episode w) (w_started w) (w_pending w) (w_turn_inflight w) (w_yolo w) (w_model w) x
    (w_barrier_held w) (w_step_ceiling w) (w_next_review w) (w_last_review_key w) (w_review_attempt w).
Definition w_set_barrier_held (x : bool) (w : Worker) : Worker :=
  mkWorker (w_batch w) (w_parent w) (w_session w) (w_task w) (w_state w) (w_step w) (w_summary w)
    (w_artifacts w) (w_episode w) (w_started w) (w_pending w) (w_turn_inflight w) (w_yolo w) (w_model w)
    (w_errored w) x (w_step_ceiling w) (w_next_review w) (w_last_review_key w) (w_review_attempt w).
Definition w_set_step_ceiling (x : Z) (w : Worker) : Worker :=
  mkWorker (w_batch w) (w_parent w) (w_session w) (w_task w) (w_state w) (w_step w) (w_summary w)
    (w_artifacts w) (w_episode w) (w_started w) (w_pending w) (w_turn_inflight w) (w_yolo w) (w_model w)
    (w_errored w) (w_barrier_held w) x (w_next_review w) (w_last_review_key w) (w_review_attempt w).
Definition w_set_next_review (x : option Z) (w : Worker) : Worker :=
  mkWorker (w_batch w) (w_parent w) (w_session w) (w_task w) (w_state w) (w_step w) (w_summary w)
    (w_artifacts w) (w_episode w) (w_started w) (w_pending w) (w_turn_inflight w) (w_yolo w) (w_model w)
    (w_errored w) (w_barrier_held w) (w_step_ceiling w) x (w_last_review_key w) (w_review_attempt w).
Definition w_set_last_review_key (x : option text) (w : Worker) : Worker :=
  mkWorker (w_batch w) (w_parent w) (w_session w) (w_task w) (w_state w) (w_step w) (w_summary w)
    (w_artifacts w) (w_episode w) (w_started w) (w_pending w) (w_turn_inflight w) (w_yolo w) (w_model w)
    (w_errored w) (w_barrier_held w) (w_step_ceiling w) (w_next_review w) x (w_review_attempt w).
Definition w_set_review_attempt (x : Z) (w : Worker) : Worker :=
  mkWorker (w_batch w) (w_parent w) (w_session w) (w_task w) (w_state w) (w_step w) (w_summary w)
    (w_artifacts w) (w_episode w) (w_started w) (w_pending w) (w_turn_inflight w) (w_yolo w) (w_model w)
    (w_errored w) (w_barrier_held w) (w_step_ceiling w) (w_next_review w) (w_last_review_key w) x.


Record BatchMeta := mkBatch {
  b_parent : Z;
  b_created_epoch : Z;
  b_deadline_s : Z;
  b_reported : bool;
  b_inline_ack : option (Z * Z);
  b_origin : option (text * Z)
}.

Definition b_report (b : BatchMeta) : BatchMeta :=
  mkBatch (b_parent b) (b_created_epoch b) (b_deadline_s b) true None (b_origin b).

Record PersistedWorker := mkPersistedWorker {
  pw_id : Z;
  pw_batch : Z;
  pw_parent : Z;
  pw_session : Z;
  pw_task : text;
  pw_state : WorkerState;
  pw_step : Z;
  pw_summary : option text;
  pw_artifacts : list text;
  pw_episode : option text;
  pw_yolo : bool;
  pw_model : option text;
  pw_step_ceiling : Z
}.

Record PersistedBatch := mkPersistedBatch {
  pb_batch : Z;
  pb_parent : Z;
  pb_created_epoch : Z;
  pb_deadline_s : Z;
  pb_reported : bool;
  pb_origin_node : option text;
  pb_origin_batch : option Z
}.

Record WorkerTxn := mkTxn {
  tx_version : Z;
  tx_seq : Z;
  tx_workers : list PersistedWorker;
  tx_batches : list PersistedBatch
}.

Record TaskSpecItem := mkTask {
  ti_prompt : text;
  ti_model : option text;
  ti_measure : option text;
  ti_voucher : bool;
  ti_node : option text
}.

(** Prompts the driver sends to a session. *)
Inductive WDirective :=
  | WFirst (wid batch max_steps : Z) (task : text)
  | WContinue (wid batch step max_steps : Z) (task : text) (steer : option text)
  | WKStall (cell : Addr) (tail : list Z)
  | WSubReport (batch : Z) (rows : list BatchWorkerRow).

(** Why a request is refused. *)
Inductive Refusal :=
  | UnknownMode (mode : text)
  | TasksNotArray | TasksEmpty | TooManyTasks (n : Z) | TaskNoPrompt (i : Z)
  | InlineTooWide (n : Z)
  | NoVoucher | CellNoVoucher | WrongMandala (mid : Z) | SubConductInline
  | MeshDisabled | NodeInline | UnknownPeer (node : text)
  | JoinNeedsMandala | MeasureNeedsMandala | NoMandala (mid : Z) | NotConductor (owner : Z)
  | MandalaClosed (mid : Z) | InlineJoin | AmbiguousBarrier | BadAddress (s : text)
  | OutOfScope (own parent : Addr) | NoCell (a : Addr) | RoverR | BreadthProduct
  | RemoteVeto (law : Z) | GeometryFull (open needed : Z) | RingFull (ring : Z) | DescentRefused (a : Addr)
  | NotPersisted (batch : Z)
  | DoneNeedsSummary | ArtifactOutside (path : text) | NoRunningWorker
  | OneSelector | NoMatchingWorker
  | WorkerCannotClose | MandalaRequired | CellsOpen (n : Z)
  | InvariantRequired | WorkerCannotOpen | UnknownLattice | BadRepo
  | HashTooShort.

(** The rows of an inline report add the summary. *)
Record InlineReport := mkInline {
  il_batch : Z;
  il_done : Z;
  il_failed : Z;
  il_cancelled : Z;
  il_timed_out : Z;
  il_rows : list (BatchWorkerRow * option text)
}.

(** The answer to a tool call. *)
Inductive Reply :=
  | Refused (r : Refusal)
  | Fanned (batch : Z) (minted : list (Z * Z)) (remote : list (Z * text)) (admitted queued deadline_s : Z)
      (yolo : bool) (cells : list Addr)
  | Inlined (r : InlineReport)
  | Recorded (status : text)
  | CancelledIds (ids remote : list Z)
  | Listed
  | MandalaOpened (mid : Z)
  | MandalaIsClosed (mid : Z) (already : bool)
  | MandalaStatus.

(** What the driver sends, spawns and writes. *)
Inductive Effect (V : Type) :=
  | EReply (session call : Z) (r : Reply)
  | EWorkerState (wid batch parent session : Z) (task : text) (s : WorkerState) (detail : text) (yolo : bool)
      (node : option text)
  | EPrompt (session : Z) (d : WDirective)
  | EUserCancel (session : Z)
  | EBatchDone (batch parent : Z) (rows : list BatchWorkerRow)
  | EError (session : Z)
  | EEvidence (wid : Z) (w : Worker)
  | EMirror (wid : Z) (doc : MirrorDoc V)
  | EEpisodeEnd (episode : text) (s : WorkerState) (step : Z)
  | ETxn (ok : bool) (t : WorkerTxn)
  | ESaveCell (mid : Z) (c : CellRecord)
  | ESaveMandalas (ms : gmap Z MandalaRecord)
  | ESaveRemotes (rs : gmap Z RemoteWorker)
  | EAssign (node : text) (wids : list Z) (body : FanoutBody) (hops : Z)
  | EAssignFailed (batch : Z) (node : text) (wids : list Z) (dark : bool)
  | EPoll (node : text) (batch peer_batch : Z)
  | ECancelRelay (node : text) (batch : Z) (workers : list Z)
  | EReportHome (node : text) (body : RowsBody V)
  | EMeshRefused (why : text)
  | EMeshFanned (batch : Z) (minted : list (Z * Z)) (admitted queued : Z)
  | EMeshRows (body : RowsBody V)
  | EMeshCancelled (ids : list Z)
  | EMeshApplied (n : Z)
  | EReading (mid epoch : Z) (fingerprint : text) (orbit : bool)
  | EConvene (council_id : text).
Arguments EReply {V}. Arguments EWorkerState {V}. Arguments EPrompt {V}. Arguments EUserCancel {V}.
Arguments EBatchDone {V}. Arguments EError {V}. Arguments EEvidence {V}. Arguments EMirror {V}.
Arguments EEpisodeEnd {V}. Arguments ETxn {V}. Arguments ESaveCell {V}. Arguments ESaveMandalas {V}.
Arguments ESaveRemotes {V}. Arguments EAssign {V}. Arguments EAssignFailed {V}. Arguments EPoll {V}.
Arguments ECancelRelay {V}. Arguments EReportHome {V}. Arguments EMeshRefused {V}. Arguments EMeshFanned {V}.
Arguments EMeshRows {V}. Arguments EMeshCancelled {V}. Arguments EMeshApplied {V}. Arguments EReading {V}.
Arguments EConvene {V}.

(** What a run is configured with. *)
Record Config := mkConfig {
  cf_cap : Z;
  cf_max_steps : Z;
  cf_step_timeout : Z;
  cf_idle_ttl : Z;
  cf_agents_dir : text;
  cf_workspace : Path;
  cf_node_id : text;
  cf_mesh_enabled : bool
}.

(** What a step finds outside: the clocks, the golden offset of an id in a
    period, the episode answered for a worker. *)
Record Env := mkEnv {
  e_now : Z;
  e_epoch : Z;
  e_golden : Z -> Z -> Z;
  e_episode : Z -> option text
}.

Abbreviation Workers := (gmap Z Worker) (only parsing).
Abbreviation Batches := (gmap Z BatchMeta) (only parsing).
Abbreviation Remotes := (gmap Z RemoteWorker) (only parsing).
Abbreviation Trees := (gmap Z Cells) (only parsing).
Abbreviation CellIndex := (gmap Z (Z * Addr)) (only parsing).

(** The maps shared with the supervisor and the turn engine; [None] once the
    lock is poisoned. *)
Record Shared := mkShared {
  sh_yolo : option (gset Z);
  sh_models : option (gmap Z text)
}.

(** ** Pure resolvers *)

Definition is_terminal (s : WorkerState) : bool :=
  match s with WDone | WFailed | WCancelled => true | _ => false end.

Definition effective_ceiling (w : Worker) (max_steps : Z) : Z :=
  if 0 <? w_step_ceiling w then w_step_ceiling w else max_steps.

Definition holds_at_mint (barrier : option Z) (measure : option text) : bool :=
  is_someb barrier && is_noneb measure.

Definition overridden_gate_open (c : CellRecord) : bool :=
  is_someb (cell_barrier_timeout_s c) && is_noneb (cell_measure c) && negb (cell_barrier_opened c).

(** The laws, by number: code mandala, gate, measured cell, vouchered cell. *)
Definition remote_cell_veto (is_gate has_measure has_voucher repo_mandala : bool) : option Z :=
  if repo_mandala then Some 0 else if is_gate then Some 1 else if has_measure then Some 2
  else if has_voucher then Some 3 else None.

Definition worker_cap_from_env (raw : option text) (tier : text) : Z :=
  match raw ≫= parse_u64 with
  | Some n => if 1 <=? n then n else
      if bool_decide (tier = chars "micro") then 2 else if bool_decide (tier = chars "standard") then 4
      else if bool_decide (tier = chars "pro") then 8 else 1
  | None =>
      if bool_decide (tier = chars "micro") then 2 else if bool_decide (tier = chars "standard") then 4
      else if bool_decide (tier = chars "pro") then 8 else 1
  end.

Definition parse_step_timeout (raw : option text) : Z :=
  match raw ≫= parse_u64 with Some n => if 30 <=? n then n * 1000 else STEP_TIMEOUT | None => STEP_TIMEOUT end.

Definition parse_idle_ttl (raw : option text) : Z :=
  match raw ≫= parse_u64 with Some n => if 60 <=? n then n * 1000 else IDLE_TTL | None => IDLE_TTL end.

Definition clamp (lo hi n : Z) : Z := Z.min (Z.max n lo) hi.

Definition parse_max_steps (raw : option text) : Z :=
  match raw ≫= parse_u32 with Some n => clamp 1 100 n | None => DEFAULT_MAX_STEPS end.

Section requests.
Context {V : Type} `{!JsonArgs V} `{!JsonNums V}.

Definition artifact_strings (args : V) : list text :=
  match arg_array args (chars "artifacts") with
  | Some a => List.filter (fun s => negb (bool_decide (s = []))) (trim <$> omap json_as_str a)
  | None => []
  end.

Definition parse_verdict (args : V) : Verdict :=
  let measure := arg_u64 args (chars "measure") in
  match arg_str args (chars "status") with
  | Some s =>
      if bool_decide (s = chars "done") then
        VDone (trim (default [] (arg_str args (chars "summary")))) (artifact_strings args) measure
      else if bool_decide (s = chars "blocked") then VBlocked (default (chars "blocked") (arg_str args (chars "reason")))
      else if bool_decide (s = chars "yield") then VYield
      else VContinue (arg_str args (chars "next")) measure
  | None => VContinue (arg_str args (chars "next")) measure
  end.

Definition parse_batch_deadline (args : V) : Z :=
  match arg_u64 args (chars "batch_deadline_s") with
  | Some n => clamp 60 86400 n
  | None => DEFAULT_BATCH_DEADLINE_S
  end.

(** The first of the item and its [prompt] that is a string, trimmed. *)
Definition task_prompt (item : V) : text :=
  trim (default [] (match json_as_str item with Some s => Some s | None => arg_str item (chars "prompt") end)).

Definition parse_task (batch_model batch_node : option text) (item : V) : option TaskSpecItem :=
  let prompt := task_prompt item in
  if bool_decide (prompt = []) then None
  else Some (mkTask prompt
    (match trimmed 64 (arg_str item (chars "model")) with Some m => Some m | None => batch_model end)
    (trimmed 200 (arg_str item (chars "measure")))
    (default false (arg_bool item (chars "voucher")))
    (match trimmed 64 (arg_str item (chars "node")) with Some n => Some n | None => batch_node end)).

Fixpoint parse_items (i : Z) (batch_model batch_node : option text) (items : list V)
    : result (list TaskSpecItem) Refusal :=
  match items with
  | [] => Ok []
  | item :: items =>
      match parse_task batch_model batch_node item with
      | None => Err (TaskNoPrompt i)
      | Some t => ts <-! parse_items (i + 1) batch_model batch_node items; Ok (t :: ts)
      end
  end.

Definition parse_tasks (args : V) : result (list TaskSpecItem) Refusal :=
  match arg_array args (chars "tasks") with
  | None => Err TasksNotArray
  | Some items =>
      if zlen items =? 0 then Err TasksEmpty
      else if MAX_BATCH_TASKS <? zlen items then Err (TooManyTasks (zlen items))
      else parse_items 1 (trimmed 64 (arg_str args (chars "model"))) (trimmed 64 (arg_str args (chars "node"))) items
  end.
End requests.

(** A canonical path printed, and [workspace.join(p)] of a relative one. *)
Definition path_text (p : Path) : text :=
  match omap plain (components p) with
  | [] => chars "/"
  | ns => concat ((fun n => 47 :: n) <$> ns)
  end.

Definition path_join (base p : Path) : Path :=
  mkPath (components base ++ filter (fun c => c <> CurDir) (components p)) (dir_only p).

Definition is_absolute (p : Path) : bool := bool_decide (head (components p) = Some RootDir).

Definition confine_request `{!FsOps} (workspace : Path) (p : text) : result Path Denied :=
  let requested := if is_absolute (path_new p) then path_new p else path_join workspace (path_new p) in
  confine_fs requested Read workspace [] (fun _ => false).

Fixpoint confine_artifacts `{!FsOps} (paths : list text) (workspace : Path) : result (list text) text :=
  match paths with
  | [] => Ok []
  | p :: ps =>
      match confine_request workspace p with
      | Ok canon => out <-! confine_artifacts ps workspace; Ok (path_text canon :: out)
      | Err _ => Err p
      end
  end.

Definition parked_form (s : WorkerState) : WorkerState :=
  match s with WDone | WFailed | WCancelled => s | _ => WParked end.

Definition holds_slot (w : Worker) : bool :=
  bool_decide (w_state w = WRunning) || (bool_decide (w_state w = WBlocked) && w_turn_inflight w).

Definition slots_used (ws : Workers) : Z := count_map (fun e => holds_slot e.2) ws.

(** Queued and not held by a barrier. *)
Definition queued (w : Worker) : bool := bool_decide (w_state w = WQueued) && negb (w_barrier_held w).

Definition min_opt (l : list Z) : option Z := match l with [] => None | x :: l => Some (foldr Z.min x l) end.

Definition next_queued (ws : Workers) : option Z :=
  min_opt (filter (fun e => queued e.2) (map_to_list ws)).*1.

Definition posture_of (w : Worker) : Posture :=
  if is_terminal (w_state w) then Terminal
  else if w_barrier_held w && bool_decide (w_state w = WQueued) then BarrierWait
  else if holds_slot w then Live
  else Waiting.

(** ** The ledger file *)

Definition snapshot_workers (ws : Workers) : list PersistedWorker :=
  (fun e : Z * Worker => let '(id, w) := e in
     mkPersistedWorker id (w_batch w) (w_parent w) (w_session w) (w_task w) (w_state w) (w_step w) (w_summary w)
       (w_artifacts w) (w_episode w) (w_yolo w) (w_model w) (w_step_ceiling w)) <$> by_id ws.

Definition snapshot_batches (bs : Batches) : list PersistedBatch :=
  (fun e : Z * BatchMeta => let '(id, b) := e in
     mkPersistedBatch id (b_parent b) (b_created_epoch b) (b_deadline_s b) (b_reported b)
       (fst <$> b_origin b) (snd <$> b_origin b)) <$> by_id bs.

Definition WORKER_TXN_VERSION : Z := 1.

(** [persist_worker_txn]: the new sequence number and the write; [ok] is
    whether the transaction file was replaced. *)
Definition persist_worker_txn {V} (ok : bool) (ws : Workers) (bs : Batches) (seq : Z) : Z * Effect V :=
  let seq := sat_add64 seq 1 in
  (seq, ETxn ok (mkTxn WORKER_TXN_VERSION seq (snapshot_workers ws) (snapshot_batches bs))).

(** [load_worker_txn]: what the file decodes to, if its version is known. *)
Definition load_worker_txn (file : option WorkerTxn) : option WorkerTxn :=
  match file with
  | Some t => if (tx_version t =? 0) || (WORKER_TXN_VERSION <? tx_version t) then None else Some t
  | None => None
  end.

Definition hydrate_worker (now : Z) (pw : PersistedWorker) : Worker :=
  mkWorker (pw_batch pw) (pw_parent pw) (pw_session pw) (pw_task pw) (parked_form (pw_state pw)) (pw_step pw)
    (pw_summary pw) (pw_artifacts pw) (pw_episode pw) now None false (pw_yolo pw) (pw_model pw) false false
    (pw_step_ceiling pw) None None 0.

(** The three counters: next worker, batch and session. *)
Record Counters := mkCounters { next_worker_id : Z; next_batch_id : Z; next_worker_sid : Z }.

Definition hydrate_workers (now : Z) (ws : Workers) (loaded : list PersistedWorker) (c : Counters)
    : gmap Z Worker * Counters :=
  foldl (fun s pw =>
    (<[pw_id pw := hydrate_worker now pw]> s.1,
     mkCounters (Z.max (next_worker_id s.2) (as_u64 (pw_id pw + 1)))
                (Z.max (next_batch_id s.2) (as_u64 (pw_batch pw + 1)))
                (Z.max (next_worker_sid s.2) (as_u64 (pw_session pw + 1))))) (ws, c) loaded.

Definition hydrate_batch (pb : PersistedBatch) : BatchMeta :=
  mkBatch (pb_parent pb) (pb_created_epoch pb) (pb_deadline_s pb) (pb_reported pb) None
    (match pb_origin_node pb, pb_origin_batch pb with Some n, Some b => Some (n, b) | _, _ => None end).

Definition hydrate_batches (bs : Batches) (loaded : list PersistedBatch) (c : Counters)
    : gmap Z BatchMeta * Counters :=
  foldl (fun s pb =>
    (<[pb_batch pb := hydrate_batch pb]> s.1,
     mkCounters (next_worker_id s.2) (Z.max (next_batch_id s.2) (as_u64 (pb_batch pb + 1))) (next_worker_sid s.2)))
    (bs, c) loaded.

(** A worker without a batch row gets a placeholder row, the first worker
    met deciding its parent. *)
Definition reconcile_one (epoch : Z) (ws : Workers) (bs : Batches) (w : Worker) : gmap Z BatchMeta :=
  match bs !! w_batch w with
  | Some _ => bs
  | None =>
      let all_terminal := forallb (fun x => is_terminal (w_state x))
                            (filter (fun x => w_batch x = w_batch w) (map_to_list ws).*2) in
      <[w_batch w := mkBatch (w_parent w) epoch DEFAULT_BATCH_DEADLINE_S all_terminal None None]> bs
  end.

Definition reconcile_batches (epoch : Z) (ws : Workers) (bs : Batches) : gmap Z BatchMeta :=
  foldl (reconcile_one epoch ws) bs (map_to_list ws).*2.

(** ** The shared maps *)

Definition arm_worker (sh : Shared) (w : Worker) : Shared :=
  mkShared (if w_yolo w then (fun s => {[ w_session w ]} ∪ s) <$> sh_yolo sh else sh_yolo sh)
           (match w_model w with Some m => (fun mm => <[w_session w := m]> mm) <$> sh_models sh | None => sh_models sh end).

(** Only the model pin: a wake never re-arms an inherited grant. *)
Definition arm_model (sh : Shared) (w : Worker) : Shared :=
  mkShared (sh_yolo sh)
           (match w_model w with Some m => (fun mm => <[w_session w := m]> mm) <$> sh_models sh | None => sh_models sh end).

Definition disarm_worker (sh : Shared) (session : Z) : Shared :=
  mkShared ((fun s => s ∖ {[ session ]}) <$> sh_yolo sh) (delete session <$> sh_models sh).

(** [goal_session_is_yolo]. *)
Definition session_armed (sh : Shared) (session : Z) : bool :=
  match sh_yolo sh with Some s => bool_decide (session ∈ s) | None => false end.

(** ** Operations *)

Section operations.
Context {V : Type}.
Implicit Types eff : list (Effect V).

(** [emit_state]: the card shows the first 80 characters of the task. *)
Definition emit_state (id : Z) (w : Worker) (detail : text) : Effect V :=
  EWorkerState id (w_batch w) (w_parent w) (w_session w) (take 80 (w_task w)) (w_state w) detail (w_yolo w) None.

(** [finalize_terminal]: the evidence file, then the episode. *)
Definition finalize_terminal (id : Z) (w : Worker) : list (Effect V) :=
  EEvidence id w :: match w_episode w with Some ep => [EEpisodeEnd ep (w_state w) (w_step w)] | None => [] end.

Definition evidence_path (cf : Config) (id : Z) : text := cf_agents_dir cf ++ 47 :: dec_text id ++ chars ".json".

Definition dash : text := [32; 8212; 32].

Definition find_worker (p : Z * Worker -> bool) (ws : Workers) : option (Z * Worker) :=
  List.find p (map_to_list ws).

(** The worker as it leaves the queue. *)
Definition admitted (e : Env) (id : Z) (w : Worker) : Worker :=
  let episode := match w_episode w with None => e_episode e id | Some _ => w_episode w end in
  w_set_review_attempt 0 (w_set_last_review_key None
    (w_set_next_review (Some (e_now e + e_golden e id REVIEW_PERIOD))
      (w_set_errored false (w_set_turn_inflight true (w_set_started (e_now e)
        (w_set_state WRunning (w_set_episode episode w))))))).

Fixpoint admit_loop (fuel : nat) (cf : Config) (e : Env) (ws : Workers) (sh : Shared) (eff : list (Effect V))
    : gmap Z Worker * Shared * list (Effect V) :=
  match fuel with
  | O => (ws, sh, eff)
  | S fuel =>
      if cf_cap cf <=? slots_used ws then (ws, sh, eff)
      else
        match next_queued ws with
        | None => (ws, sh, eff)
        | Some id =>
            match ws !! id with
            | None => (ws, sh, eff)
            | Some w0 =>
                let w := admitted e id w0 in
                admit_loop fuel cf e (<[id := w]> ws) (arm_worker sh w)
                  (eff ++ [emit_state id w [];
                           EPrompt (w_session w) (WFirst id (w_batch w) (cf_max_steps cf) (w_task w))])
            end
        end
  end.

Definition admit_queued (cf : Config) (e : Env) (ws : Workers) (sh : Shared)
    : gmap Z Worker * Shared * list (Effect V) :=
  admit_loop (size ws) cf e ws sh [].

(** *** A report from inside a turn *)

Definition running_or_blocked (w : Worker) : bool :=
  bool_decide (w_state w = WRunning) || bool_decide (w_state w = WBlocked).

(** The last check of [record_report]: hand the verdict to the caller's worker. *)
Definition record_verdict (ws : Workers) (session call : Z) (status : text) (v : Verdict)
    : gmap Z Worker * list (Effect V) :=
  match find_worker (fun x => (w_session x.2 =? session) && running_or_blocked x.2) ws with
  | Some (id, w) => (<[id := w_set_pending (Some v) w]> ws, [EReply session call (Recorded status)])
  | None => (ws, [EReply session call (Refused NoRunningWorker)])
  end.

Definition record_report `{!FsOps} `{!JsonArgs V} `{!JsonNums V} (cf : Config) (ws : Workers)
    (session call : Z) (args : V) : gmap Z Worker * list (Effect V) :=
  let status := default (chars "continue") (arg_str args (chars "status")) in
  if bool_decide (status = chars "done") && bool_decide (trim (default [] (arg_str args (chars "summary"))) = [])
  then (ws, [EReply session call (Refused DoneNeedsSummary)])
  else
    match parse_verdict args with
    | VDone s artifacts m =>
        match confine_artifacts artifacts (cf_workspace cf) with
        | Ok canonical => record_verdict ws session call status (VDone s canonical m)
        | Err p => (ws, [EReply session call (Refused (ArtifactOutside p))])
        end
    | v => record_verdict ws session call status v
    end.

(** *** The end of a turn *)

(** What [advance] reads of the cell behind a worker. *)
Record CellCtx := mkCtx {
  cx_mandala : Z;
  cx_addr : Addr;
  cx_is_r : bool;
  cx_history : list Z;
  cx_parent : option Addr;
  cx_parent_steps : option Z
}.

Definition tree_cell (trees : Trees) (mid : Z) (a : Addr) : option CellRecord := trees !! mid ≫= (fun t => t !! a).

Definition cell_ctx (trees : Trees) (index : CellIndex) (id : Z) : option CellCtx :=
  p ← index !! id;
  let '(mid, addr) := p in
  c ← tree_cell trees mid addr;
  let parent_eff := match cell_reparented_to c with Some a => Some a | None => addr_parent addr end in
  Some (mkCtx mid addr (is_someb (cell_measure c)) (cell_measure_history c) parent_eff
    ((fun pc => bv_steps (cell_budget pc)) <$> (parent_eff ≫= tree_cell trees mid))).

Definition ctx_is_r (c : option CellCtx) : bool := match c with Some c => cx_is_r c | None => false end.

(** The history with this lap's reading. *)
Definition projected (c : option CellCtx) (measure : option Z) : list Z :=
  match c with
  | Some c => if cx_is_r c then cx_history c ++ (match measure with Some m => [m] | None => [] end) else cx_history c
  | None => []
  end.

(** The three last readings. *)
Definition lap_tail (l : list Z) : list Z := rev (take 3 (rev l)).

Record Outcome := mkOutcome {
  oc_worker : Worker;
  oc_detail : text;
  oc_next : option WDirective;
  oc_measure : option Z;
  oc_kstall : bool;
  oc_renew : option Z
}.

Definition next_step (now : Z) (w : Worker) : Worker :=
  w_set_turn_inflight true (w_set_started now (w_set_step (as_u32 (w_step w + 1)) w)).

(** Join numbers with an arrow. *)
Fixpoint arrows (l : list Z) : text :=
  match l with [] => [] | [n] => dec_text n | n :: l => dec_text n ++ 8594 :: arrows l end.

Definition apply_continue (now max_steps : Z) (cx : option CellCtx) (id : Z) (w : Worker) (steer : option text)
    (measure : option Z) : Outcome :=
  let ceiling := effective_ceiling w max_steps in
  let history := projected cx measure in
  if ctx_is_r cx && k_stalled history then
    mkOutcome (w_set_started now (w_set_state WBlocked w))
      (chars "K-stall: " ++ arrows (lap_tail history) ++ dash ++ chars "ring broken, escalated")
      None measure true None
  else if ceiling <=? w_step w then
    match (if ctx_is_r cx then (cx ≫= cx_parent_steps) ≫= (fun ps => renewal_grant ps history) else None) with
    | Some g =>
        let w := w_set_step_ceiling (as_u32 (ceiling + g)) (next_step now w) in
        mkOutcome w (chars "renewed +" ++ dec_text g ++ chars " steps (measure decreasing)")
          (Some (WContinue id (w_batch w) (w_step w) (w_step_ceiling w) (w_task w) steer)) measure false (Some g)
    | None => mkOutcome (w_set_state WDone w) (chars "step budget reached") None measure false None
    end
  else
    let w := next_step now w in
    mkOutcome w [] (Some (WContinue id (w_batch w) (w_step w) ceiling (w_task w) steer)) measure false None.

Definition apply_verdict (now max_steps : Z) (cx : option CellCtx) (id : Z) (w0 : Worker) : Outcome :=
  let w := w_set_pending None (w_set_turn_inflight false w0) in
  match w_pending w0 with
  | Some (VDone summary artifacts measure) =>
      mkOutcome (w_set_artifacts artifacts (w_set_summary (Some summary) (w_set_state WDone w)))
        (take 120 summary) None measure false None
  | Some (VBlocked reason) =>
      mkOutcome (w_set_started now (w_set_state WBlocked w)) (take 120 reason) None None false None
  | Some VYield =>
      mkOutcome (w_set_started now (w_set_state WIdle w)) (chars "yielded" ++ dash ++ chars "awaiting input")
        None None false None
  | Some (VContinue steer measure) => apply_continue now max_steps cx id w steer measure
  | None =>
      if w_errored w
      then mkOutcome (w_set_state WFailed w) (chars "turn error" ++ dash ++ chars "no deliverable") None None false None
      else mkOutcome (w_set_state WDone w) (chars "final text is the deliverable") None None false None
  end.

Definition update_cell (trees : Trees) (mid : Z) (a : Addr) (f : CellRecord -> CellRecord)
    : gmap Z Cells * list (Effect V) :=
  match tree_cell trees mid a with
  | Some c => (<[mid := <[a := f c]> (default ∅ (trees !! mid))]> trees, [ESaveCell mid (f c)])
  | None => (trees, [])
  end.

Definition set_budget_steps (n : Z) (c : CellRecord) : CellRecord :=
  let b := cell_budget c in
  mkCell (cell_addr c) (cell_form c) (cell_task c) (mkBudget (bv_depth b) (bv_cells b) n (bv_deadline_s b))
    (cell_invariant_hash c) (cell_worker c) (cell_state c) (cell_evidence c) (cell_reparented_to c)
    (cell_created_epoch c) (cell_barrier_timeout_s c) (cell_barrier_opened c) (cell_measure c)
    (cell_measure_history c) (cell_voucher c) (cell_node c).

Definition set_history (h : list Z) (c : CellRecord) : CellRecord :=
  mkCell (cell_addr c) (cell_form c) (cell_task c) (cell_budget c) (cell_invariant_hash c) (cell_worker c)
    (cell_state c) (cell_evidence c) (cell_reparented_to c) (cell_created_epoch c) (cell_barrier_timeout_s c)
    (cell_barrier_opened c) (cell_measure c) h (cell_voucher c) (cell_node c).

(** Push a reading, keep the last [MEASURE_HISTORY_CAP]. *)
Definition push_lap (m : Z) (c : CellRecord) : CellRecord :=
  let h := cell_measure_history c ++ [m] in set_history (drop (length h - MEASURE_HISTORY_CAP) h) c.

Definition spend_steps (g : Z) (c : CellRecord) : CellRecord :=
  set_budget_steps (sat_sub (bv_steps (cell_budget c)) g) c.
Definition gain_steps (g : Z) (c : CellRecord) : CellRecord :=
  set_budget_steps (Z.min (bv_steps (cell_budget c) + g) u16_max) c.

(** The tree after a verdict: the lap, the renewal, the escalation. *)
Definition lap_tree (trees : Trees) (cx : option CellCtx) (parent : Z) (oc : Outcome)
    : gmap Z Cells * list (Effect V) :=
  match cx with
  | None => (trees, [])
  | Some cx =>
      let '(trees, eff1) :=
        match oc_measure oc with
        | Some m => if cx_is_r cx then update_cell trees (cx_mandala cx) (cx_addr cx) (push_lap m) else (trees, [])
        | None => (trees, [])
        end in
      let '(trees, eff2) :=
        match oc_renew oc, cx_parent cx with
        | Some g, Some pa =>
            let '(trees, e1) := update_cell trees (cx_mandala cx) pa (spend_steps g) in
            let '(trees, e2) := update_cell trees (cx_mandala cx) (cx_addr cx) (gain_steps g) in
            (trees, e1 ++ e2)
        | _, _ => (trees, [])
        end in
      let eff3 :=
        if oc_kstall oc && is_worker_session parent then
          [EPrompt parent (WKStall (cx_addr cx)
             (lap_tail (match tree_cell trees (cx_mandala cx) (cx_addr cx) with
                        | Some c => cell_measure_history c | None => [] end)))]
        else [] in
      (trees, eff1 ++ eff2 ++ eff3)
  end.

Definition advance (cf : Config) (e : Env) (ws : Workers) (sh : Shared) (trees : Trees) (index : CellIndex)
    (session : Z) : gmap Z Worker * Shared * gmap Z Cells * list (Effect V) * bool :=
  match find_worker (fun x => (w_session x.2 =? session) && running_or_blocked x.2) ws with
  | None => (ws, sh, trees, [], false)
  | Some (id, w0) =>
      let cx := cell_ctx trees index id in
      let oc := apply_verdict (e_now e) (cf_max_steps cf) cx id w0 in
      let '(trees, eff_tree) := lap_tree trees cx (w_parent w0) oc in
      let w := oc_worker oc in
      let closing := is_terminal (w_state w) in
      let sh := if closing then disarm_worker sh (w_session w) else sh in
      let eff_end := if closing then finalize_terminal id w else [] in
      let w' := if closing then w_set_next_review (Some (e_now e)) w else w in
      (<[id := w']> ws, sh, trees,
       eff_tree ++ emit_state id w (oc_detail oc) :: eff_end
       ++ match oc_next oc with Some d => [EPrompt (w_session w) d] | None => [] end, true)
  end.

(** *** Wake-ups and approvals *)

Definition wakeable (w : Worker) : bool :=
  bool_decide (w_state w = WParked) || bool_decide (w_state w = WIdle)
  || (bool_decide (w_state w = WBlocked) && negb (w_turn_inflight w))
  || (bool_decide (w_state w = WQueued) && w_barrier_held w).

Definition woken (e : Env) (id : Z) (w : Worker) : Worker :=
  w_set_review_attempt 0 (w_set_last_review_key None
    (w_set_next_review (Some (e_now e + e_golden e id REVIEW_PERIOD))
      (w_set_barrier_held false (w_set_errored false (w_set_turn_inflight true
        (w_set_started (e_now e) (w_set_state WRunning w))))))).

Definition wake_detail (w : Worker) : text :=
  chars match w_state w with
        | WParked => "revived by send"
        | WIdle => "woken by send"
        | _ => if w_barrier_held w then "barrier overridden by send" else "unblocked by send"
        end.

Definition wake_on_send (e : Env) (ws : Workers) (sh : Shared) (session : Z)
    : gmap Z Worker * Shared * list (Effect V) * bool :=
  match find_worker (fun x => (w_session x.2 =? session) && wakeable x.2) ws with
  | Some (id, w0) =>
      let w := woken e id w0 in
      (<[id := w]> ws, arm_model sh w, [emit_state id w (wake_detail w0)], true)
  | None => (ws, sh, [], false)
  end.

Definition block_on_approval (ws : Workers) (session : Z) (tool : text)
    : gmap Z Worker * list (Effect V) * bool :=
  match find_worker (fun x => (w_session x.2 =? session) && bool_decide (w_state x.2 = WRunning)) ws with
  | Some (id, w) =>
      let w := w_set_state WBlocked w in
      (<[id := w]> ws, [emit_state id w (chars "awaiting approval" ++ dash ++ tool)], true)
  | None => (ws, [], false)
  end.

Definition resume_from_approval (e : Env) (ws : Workers) (session : Z)
    : gmap Z Worker * list (Effect V) * bool :=
  match find_worker (fun x => (w_session x.2 =? session) && bool_decide (w_state x.2 = WBlocked)) ws with
  | Some (id, w) =>
      let w := w_set_started (e_now e) (w_set_state WRunning w) in
      (<[id := w]> ws, [emit_state id w (chars "approval resolved")], true)
  | None => (ws, [], false)
  end.

(** [w.errored = true] on an error event of the session. *)
Definition mark_errored (ws : Workers) (session : Z) : gmap Z Worker :=
  match find_worker (fun x => w_session x.2 =? session) ws with
  | Some (id, w) => <[id := w_set_errored true w]> ws
  | None => ws
  end.

(** *** Cancellation *)

Definition cancelled (e : Env) (w : Worker) : Worker :=
  w_set_next_review (Some (e_now e)) (w_set_barrier_held false (w_set_pending None
    (w_set_turn_inflight false (w_set_state WCancelled w)))).

Definition cancel_one (e : Env) (s : gmap Z Worker * Shared * list (Effect V)) (id : Z)
    : gmap Z Worker * Shared * list (Effect V) :=
  let '(ws, sh, eff) := s in
  match ws !! id with
  | None => s
  | Some w0 =>
      if is_terminal (w_state w0) then s
      else
        let w := cancelled e w0 in
        (<[id := w]> ws, disarm_worker sh (w_session w),
         eff ++ (if w_turn_inflight w0 then [EUserCancel (w_session w)] else [])
         ++ emit_state id w (chars "cancelled") :: finalize_terminal id w)
  end.

Definition cancel_workers (e : Env) (ws : Workers) (sh : Shared) (ids : list Z)
    : gmap Z Worker * Shared * list (Effect V) :=
  foldl (cancel_one e) (ws, sh, []) ids.

(** *** The batch ledger *)

Definition batch_rows (cf : Config) (ws : Workers) (rs : Remotes) (batch : Z) : list BatchWorkerRow :=
  let locals := (fun x : Z * Worker =>
      let '(id, w) := x in
      (id, mkRow id (w_state w) (if is_terminal (w_state w) then evidence_path cf id else [])
             (negb (is_terminal (w_state w))) None))
    <$> filter (fun x => w_batch x.2 = batch) (map_to_list ws) in
  let remotes := (fun x : Z * RemoteWorker =>
      let '(id, r) := x in
      (id, mkRow id (remote_row_state (rm_state_raw r)) (default [] (rm_evidence r)) (negb (rm_terminal r)) (Some (rm_node r))))
    <$> filter (fun x => rm_batch x.2 = batch) (map_to_list rs) in
  (merge_sort id_leb (locals ++ remotes)).*2.

(** [read_doc]: what the evidence file of a worker holds. *)
Definition wire_rows_for_batch (read_doc : Z -> option V) (ws : Workers) (batch : Z) : list (WireRow V) :=
  (fun x : Z * Worker =>
     let '(id, w) := x in
     mkWireRow id (w_session w) (state_str (w_state w)) false (w_summary w)
       (if is_terminal (w_state w) then read_doc id else None))
  <$> merge_sort id_leb (filter (fun x => w_batch x.2 = batch) (map_to_list ws)).

Definition batch_expired (epoch : Z) (b : BatchMeta) : bool :=
  sat_add64 (b_created_epoch b) (b_deadline_s b) <=? epoch.

Definition batch_settled (ws : Workers) (rs : Remotes) (batch : Z) : bool :=
  let members := filter (fun w => w_batch w = batch) (map_to_list ws).*2 in
  let rmembers := filter (fun r => rm_batch r = batch) (map_to_list rs).*2 in
  (negb (zlen members =? 0) || negb (zlen rmembers =? 0))
  && forallb (fun w => is_terminal (w_state w)) members && forallb rm_terminal rmembers.

Definition batch_due (epoch : Z) (ws : Workers) (rs : Remotes) (x : Z * BatchMeta) : bool :=
  negb (b_reported x.2) && (batch_settled ws rs x.1 || batch_expired epoch x.2).

(** done, failed, cancelled, timed out. *)
Definition tally_row (t : Z * Z * Z * Z) (r : BatchWorkerRow) : Z * Z * Z * Z :=
  let '(d, f, c, o) := t in
  if row_timed_out r then (d, f, c, o + 1)
  else match row_state r with
       | WDone => (d + 1, f, c, o)
       | WCancelled => (d, f, c + 1, o)
       | _ => (d, f + 1, c, o)
       end.
Definition tally (rows : list BatchWorkerRow) : Z * Z * Z * Z := foldl tally_row (0, 0, 0, 0) rows.

Definition inline_report (ws : Workers) (batch : Z) (rows : list BatchWorkerRow) : InlineReport :=
  let '(d, f, c, o) := tally rows in
  mkInline batch d f c o
    ((fun r => (r, w ← ws !! row_worker r; if w_batch w =? batch then w_summary w else None)) <$> rows).

(** One due batch: marked, reported, and what it owes its origin. *)
Definition report_batch (cf : Config) (read_doc : Z -> option V) (ws : Workers) (rs : Remotes)
    (s : gmap Z BatchMeta * list (Effect V) * list (Effect V)) (id : Z)
    : gmap Z BatchMeta * list (Effect V) * list (Effect V) :=
  let '(bs, eff, home) := s in
  match bs !! id with
  | None => s
  | Some b =>
      let rows := batch_rows cf ws rs id in
      (<[id := b_report b]> bs,
       eff ++ EBatchDone id (b_parent b) rows
         :: (if is_worker_session (b_parent b) then [EPrompt (b_parent b) (WSubReport id rows)] else [])
         ++ match b_inline_ack b with
            | Some (session, call) => [EReply session call (Inlined (inline_report ws id rows))]
            | None => []
            end,
       home ++ match b_origin b with
               | Some (node, origin) =>
                   [EReportHome node (build_rows_body (cf_node_id cf) origin id (wire_rows_for_batch read_doc ws id))]
               | None => []
               end)
  end.

(** The changed ledger, the events, the reports owed home, and whether
    anything was due. *)
Definition check_batches (cf : Config) (e : Env) (read_doc : Z -> option V) (ws : Workers) (rs : Remotes) (bs : Batches)
    : gmap Z BatchMeta * list (Effect V) * list (Effect V) * bool :=
  let due := (filter (fun x => batch_due (e_epoch e) ws rs x) (map_to_list bs)).*1 in
  (foldl (report_batch cf read_doc ws rs) (bs, [], []) due, negb (zlen due =? 0)).

(** *** The soft breaker *)

Definition pb1_track (e : Env) (log : gmap Z (list Z)) (parent : Z) : gmap Z (list Z) * list (Effect V) :=
  if is_worker_session parent || is_spawn_session parent then (log, [])
  else
    let l := List.filter (fun t => e_now e - t <? PB1_WINDOW) (default [] (log !! parent)) ++ [e_now e] in
    if zlen l =? PB1_SPAWN_THRESHOLD then (<[parent := []]> log, [EError parent]) else (<[parent := l]> log, []).

(** *** Reviews *)

Definition elapsed (e : Env) (w : Worker) : Z := Z.max (e_now e - w_started w) 0.

Definition build_review (cf : Config) (e : Env) (w : Worker) (barrier_ready : option bool) (batch_deadline_ok : bool)
    : Posture * Word :=
  let posture := posture_of w in
  let progress :=
    match posture with
    | Live => (bool_decide (w_state w = WBlocked) && w_turn_inflight w) || (elapsed e w <=? cf_step_timeout cf)
    | Waiting => elapsed e w <=? cf_idle_ttl cf
    | BarrierWait => negb (default false barrier_ready)
    | Terminal => true
    end in
  (posture, mkWord progress ((w_step w <? cf_max_steps cf) || is_terminal (w_state w)) (negb (w_errored w))
              true true batch_deadline_ok).

Definition schedule_next_review (cf : Config) (e : Env) (w : Worker) (p : Posture) (wd : Word)
    (barrier_deadline_in : option Z) : Worker :=
  if is_terminal (w_state w) then
    w_set_next_review (match p with Terminal => None | _ => Some (e_now e) end) w
  else
    let key := census_key p wd in
    let attempt := if bool_decide (w_last_review_key w = Some key) then sat_add32 (w_review_attempt w) 1 else 0 in
    let interval := match p with Live => REVIEW_PERIOD | _ => fib_backoff attempt REVIEW_PERIOD end in
    let deadline_in :=
      match p with
      | Live => if bool_decide (w_state w = WRunning) then Some (sat_sub (cf_step_timeout cf) (elapsed e w)) else None
      | Waiting => Some (sat_sub (cf_idle_ttl cf) (elapsed e w))
      | BarrierWait => barrier_deadline_in
      | Terminal => None
      end in
    let until := match deadline_in with Some d => Z.min interval (d + TICK) | None => interval end in
    w_set_next_review (Some (e_now e + until)) (w_set_last_review_key (Some key) (w_set_review_attempt attempt w)).

(** The remediation applied to one worker: what the arms [Fail], [Park] and
    [Cancel] do; the flags are failed, parked, reaped, barrier due. *)
Definition remediate (e : Env) (ws : Workers) (sh : Shared) (id : Z) (w : Worker) (r : Remediation)
    : gmap Z Worker * Shared * list (Effect V) :=
  match r with
  | Fail_ =>
      let w := w_set_turn_inflight false (w_set_state WFailed w) in
      (<[id := w]> ws, disarm_worker sh (w_session w),
       emit_state id w (chars "step stalled" ++ dash ++ chars "no completion") :: finalize_terminal id w)
  | Park =>
      if bool_decide (w_state w = WParked) then (ws, sh, [])
      else
        let w := w_set_state WParked w in
        (<[id := w]> ws, disarm_worker sh (w_session w),
         [emit_state id w (chars "idle TTL" ++ dash ++ chars "parked (a send revives)")])
  | Cancel => cancel_workers e ws sh [id]
  | Healthy | Reap | OpenBarrier => (ws, sh, [])
  end.

End operations.
