(* ===== verification/WorkerLife.v ===== *)
(** * The life of a worker and of a batch

    What holds of the operations of [Worker]: admission against the cap, the
    edges a worker's state may take, the shared maps that mirror residency,
    the ledger file across a restart, the report of a batch, the review
    clocks, and the steps a renewal moves. *)
From S2P Require Import Prelude Text Confine Policy Protocol Mandala Review Remote Worker.

(** ** Admission *)

Lemma min_opt_elem l n : min_opt l = Some n -> n ∈ l.
Proof.
  destruct l as [|a l]; [done|]. intros [= <-].
  induction l as [|b l IH]; cbn [foldr]; [left|].
  destruct (Z.min_spec b (foldr Z.min a l)) as [[_ ->]|[_ ->]]; [right; left|].
  apply elem_of_cons in IH as [->|IH]; [left|by right; right].
Qed.

Lemma min_opt_le l n x : min_opt l = Some n -> x ∈ l -> n <= x.
Proof.
  destruct l as [|a l]; [done|]. intros [= <-]. revert x.
  induction l as [|b l IH]; intros x; cbn [foldr].
  - intros ->%list_elem_of_singleton. lia.
  - rewrite !elem_of_cons. intros [->|[->|Hx]].
    + specialize (IH a). rewrite elem_of_cons in IH. specialize (IH (or_introl eq_refl)). lia.
    + lia.
    + specialize (IH x). rewrite elem_of_cons in IH. specialize (IH (or_intror Hx)). lia.
Qed.

Lemma elem_queued ws id :
  id ∈ (filter (fun e => queued e.2) (map_to_list (ws : Workers))).*1 <->
  exists w, ws !! id = Some w /\ queued w = true.
Proof.
  rewrite list_elem_of_fmap. split.
  - intros ([i w] & -> & [Hq Hin%elem_of_map_to_list]%list_elem_of_filter). exists w. cbn in *. split; [done|].
    by apply Is_true_true.
  - intros (w & Hw & Hq). exists (id, w). split; [done|]. apply list_elem_of_filter. cbn. rewrite Hq.
    split; [done|]. by apply elem_of_map_to_list.
Qed.

Lemma next_queued_Some ws id :
  next_queued ws = Some id ->
  (exists w, ws !! id = Some w /\ queued w = true) /\
  forall i w, ws !! i = Some w -> queued w = true -> id <= i.
Proof.
  unfold next_queued. intros Hn. split.
  - by apply elem_queued, min_opt_elem.
  - intros i w Hi Hq. eapply min_opt_le; [done|]. apply elem_queued. by exists w.
Qed.

Lemma next_queued_None ws : next_queued ws = None <-> forall i w, ws !! i = Some w -> queued w = false.
Proof.
  unfold next_queued. split.
  - intros Hn i w Hi. destruct (queued w) eqn:Hq; [|done].
    assert (i ∈ (filter (fun e => queued e.2) (map_to_list ws)).*1) as Hin by (apply elem_queued; by exists w).
    destruct ((filter (fun e => queued e.2) (map_to_list ws)).*1); [by apply not_elem_of_nil in Hin|done].
  - intros Hall. destruct (min_opt _) as [n|] eqn:E; [|done]. exfalso.
    apply min_opt_elem, elem_queued in E as (w & Hw & Hq). rewrite (Hall _ _ Hw) in Hq. done.
Qed.

Definition queue_len (ws : Workers) : Z := count_map (fun e => queued e.2) ws.

Lemma queued_no_slot w : queued w = true -> holds_slot w = false.
Proof.
  unfold queued, holds_slot. rewrite andb_true_iff, bool_decide_eq_true. intros [-> _]. done.
Qed.

Lemma admitted_slot e id w : holds_slot (admitted e id w) = true /\ queued (admitted e id w) = false.
Proof. split; reflexivity. Qed.

(** What one admission pass does to the map: some of the queued workers, the
    lowest ids, become [admitted]; nothing else moves. *)
Record admission (e : Env) (cap : Z) (ws ws' : Workers) : Prop := mkAdmission {
  adm_each : forall id, ws' !! id = ws !! id \/
    exists w, ws !! id = Some w /\ queued w = true /\ ws' !! id = Some (admitted e id w);
  adm_fifo : forall i j w v, ws !! i = Some w -> queued w = true -> ws' !! i = Some (admitted e i w) ->
    ws !! j = Some v -> queued v = true -> ws' !! j = Some v -> i < j;
  adm_cap : slots_used ws' <= Z.max cap (slots_used ws);
  adm_full : next_queued ws' = None \/ cap <= slots_used ws'
}.

Lemma admitted_ne e id w : queued w = true -> admitted e id w <> w.
Proof.
  intros Hq E. apply queued_no_slot in Hq. rewrite <- E in Hq. by rewrite (proj1 (admitted_slot e id w)) in Hq.
Qed.

Section admission.
Context {V : Type} (cf : Config) (e : Env).

Lemma admit_loop_spec fuel ws sh (eff : list (Effect V)) :
  queue_len ws <= Z.of_nat fuel ->
  admission e (cf_cap cf) ws (admit_loop fuel cf e ws sh eff).1.1.
Proof.
  revert ws sh eff. induction fuel as [|fuel IH]; intros ws sh eff Hf.
  { assert (forall i w, ws !! i = Some w -> queued w = false) as Hq.
    { unfold queue_len in Hf. pose proof (count_map_le (fun x => queued x.2) ws).
      apply (count_map_zero (fun x => queued x.2) ws). lia. }
    cbn [admit_loop fst]. split; [by left| |lia|left; by apply next_queued_None].
    intros i j w v Hi Hw. rewrite (Hq _ _ Hi) in Hw. done. }
  cbn [admit_loop]. destruct (Z.leb_spec (cf_cap cf) (slots_used ws)) as [Hc|Hc].
  { cbn [fst]. split; [by left| |lia|by right]. intros i j w v Hi Hq Hi'. rewrite Hi in Hi'.
    injection Hi' as E. exfalso. by apply (admitted_ne e i w). }
  destruct (next_queued ws) as [id|] eqn:En.
  2: { cbn [fst]. split; [by left| |lia|by left]. intros i j w v Hi Hq. rewrite (proj1 (next_queued_None ws) En _ _ Hi) in Hq. done. }
  apply next_queued_Some in En as [(w & Hw & Hq) Hmin]. rewrite Hw.
  set (w' := admitted e id w). set (ws1 := <[id := w']> ws).
  assert (queue_len ws1 = queue_len ws - 1) as El.
  { unfold queue_len, ws1. rewrite (count_map_insert _ ws id w) by done. cbn [snd]. unfold w'.
    rewrite Hq, (proj2 (admitted_slot e id w)). cbn. lia. }
  assert (slots_used ws1 = slots_used ws + 1) as Es.
  { unfold slots_used, ws1. rewrite (count_map_insert _ ws id w) by done. cbn [snd]. unfold w'.
    rewrite (queued_no_slot w Hq), (proj1 (admitted_slot e id w)). cbn. lia. }
  destruct (IH ws1 (arm_worker sh w') (eff ++ [emit_state id w' []; EPrompt (w_session w') (WFirst id (w_batch w') (cf_max_steps cf) (w_task w'))]) ltac:(lia)) as [IHe IHf IHc IHn].
  fold w' ws1. set (ws2 := (admit_loop _ _ _ _ _ _).1.1) in *.
  assert (ws2 !! id = Some w') as Hid.
  { destruct (IHe id) as [->|(x & Hx & Hxq & _)]; [apply lookup_insert_eq|].
    unfold ws1 in Hx. rewrite lookup_insert_eq in Hx. injection Hx as <-.
    unfold w' in Hxq. by rewrite (proj2 (admitted_slot e id w)) in Hxq. }
  split.
  - intros i. destruct (decide (i = id)) as [->|Hne].
    + right. exists w. done.
    + destruct (IHe i) as [E|(x & Hx & ? & ?)]; unfold ws1 in *; rewrite lookup_insert_ne in * by done.
      * by left.
      * right. by exists x.
  - intros i j x y Hi Hxq Hi' Hj Hyq Hj'. destruct (decide (j = id)) as [->|Hnj].
    { rewrite Hid in Hj'. injection Hj' as E. exfalso. rewrite Hw in Hj. injection Hj as <-.
      by apply (admitted_ne e id w). }
    destruct (decide (i = id)) as [->|Hni].
    { specialize (Hmin _ _ Hj Hyq). lia. }
    apply (IHf i j x y); unfold ws1; by rewrite ?lookup_insert_ne.
  - lia.
  - done.
Qed.

(** Admission takes workers from the queue in id order, stops exactly when
    the slots are full or the queue is empty, and never goes past the cap
    (a worker woken by a send may already have). *)
Theorem admission_respects_cap (ws : Workers) (sh : Shared) :
  admission e (cf_cap cf) ws (@admit_queued V cf e ws sh).1.1.
Proof.
  apply admit_loop_spec. unfold queue_len. pose proof (count_map_le (fun x => queued x.2) ws). lia.
Qed.
End admission.

(** ** The life of a worker *)

(** The edges of the state machine, with what takes them. *)
Inductive edge : WorkerState -> WorkerState -> Prop :=
| edge_admit : edge WQueued WRunning
| edge_wake s : s = WParked \/ s = WIdle \/ s = WBlocked -> edge s WRunning
| edge_verdict s s' : s = WRunning \/ s = WBlocked ->
    s' = WRunning \/ s' = WIdle \/ s' = WBlocked \/ s' = WDone \/ s' = WFailed -> edge s s'
| edge_stall : edge WRunning WFailed
| edge_park s : is_terminal s = false -> edge s WParked
| edge_cancel s : is_terminal s = false -> edge s WCancelled.

Lemma edge_terminal s s' : edge s s' -> is_terminal s = true -> False.
Proof.
  intros H Ht. destruct H as [|s Hs|s s' Hs _| |s Hs|s Hs]; try done; try congruence.
  - by destruct Hs as [->|[->| ->]].
  - by destruct Hs as [->| ->].
Qed.

Lemma rtc_edge_terminal s s' : rtc edge s s' -> is_terminal s = true -> s' = s.
Proof. intros [->|(y & H & _)]%rtc_inv Ht; [done|]. destruct (edge_terminal _ _ H Ht). Qed.

(** What a worker keeps for life, and how its state may move. *)
Record evolves (w w' : Worker) : Prop := mkEvolves {
  ev_batch : w_batch w' = w_batch w;
  ev_parent : w_parent w' = w_parent w;
  ev_session : w_session w' = w_session w;
  ev_yolo : w_yolo w' = w_yolo w;
  ev_model : w_model w' = w_model w;
  ev_edge : rtc edge (w_state w) (w_state w')
}.

Lemma w_evolves_refl w : evolves w w.
Proof. split; done. Qed.

Lemma evolves_trans a b c : evolves a b -> evolves b c -> evolves a c.
Proof. intros [] []. split; try congruence. by etrans. Qed.

#[export] Instance evolves_preorder : PreOrder evolves.
Proof. split; [exact w_evolves_refl|exact evolves_trans]. Qed.

(** An operation on the map: the same workers, each evolved. *)
Definition ws_evolves (ws ws' : Workers) : Prop :=
  forall id, match ws !! id, ws' !! id with
             | Some w, Some w' => evolves w w'
             | None, None => True
             | _, _ => False
             end.

#[export] Instance ws_evolves_preorder : PreOrder ws_evolves.
Proof.
  split.
  - intros ws id. destruct (ws !! id); [apply w_evolves_refl|done].
  - intros a b c Hab Hbc id. specialize (Hab id). specialize (Hbc id).
    destruct (a !! id), (b !! id), (c !! id); try done. by etrans.
Qed.

Lemma ws_evolves_insert ws id w w' : ws !! id = Some w -> evolves w w' -> ws_evolves ws (<[id := w']> ws).
Proof.
  intros Hw He i. destruct (decide (i = id)) as [->|Hne].
  - by rewrite lookup_insert_eq, Hw.
  - rewrite lookup_insert_ne by done. destruct (ws !! i); [apply w_evolves_refl|done].
Qed.

Lemma ws_evolves_Some ws ws' id w :
  ws_evolves ws ws' -> ws !! id = Some w -> exists w', ws' !! id = Some w' /\ evolves w w'.
Proof. intros H Hw. specialize (H id). rewrite Hw in H. destruct (ws' !! id); [eauto|done]. Qed.

Lemma ws_evolves_Some_inv ws ws' id w' :
  ws_evolves ws ws' -> ws' !! id = Some w' -> exists w, ws !! id = Some w /\ evolves w w'.
Proof. intros H Hw. specialize (H id). rewrite Hw in H. destruct (ws !! id); [eauto|done]. Qed.

(** Sessions are worker sessions and belong to one worker each. *)
Record sessions_ok (ws : Workers) : Prop := mkSessionsOk {
  ss_range : forall i w, ws !! i = Some w -> is_worker_session (w_session w) = true;
  ss_distinct : forall i j v w, ws !! i = Some v -> ws !! j = Some w -> w_session v = w_session w -> i = j
}.

Lemma sessions_ok_evolves ws ws' : ws_evolves ws ws' -> sessions_ok ws -> sessions_ok ws'.
Proof.
  intros He [Hr Hd]. split.
  - intros i w Hw. destruct (ws_evolves_Some_inv _ _ _ _ He Hw) as (w0 & Hw0 & E).
    rewrite (ev_session _ _ E). by eapply Hr.
  - intros i j v w Hv Hw Hs.
    destruct (ws_evolves_Some_inv _ _ _ _ He Hv) as (v0 & Hv0 & Ev).
    destruct (ws_evolves_Some_inv _ _ _ _ He Hw) as (w0 & Hw0 & Ew).
    eapply Hd; [done..|]. by rewrite <- (ev_session _ _ Ev), <- (ev_session _ _ Ew).
Qed.

(** Resident: admitted or woken, and neither parked nor terminal since. *)
Definition active (w : Worker) : bool :=
  match w_state w with WRunning | WIdle | WBlocked => true | _ => false end.

(** The shared maps mirror residency: a worker session that auto-approves
    belongs to a resident worker with an inherited grant, and the models pinned
    are exactly those of the resident workers that have one. *)
Record shared_ok (ws : Workers) (sh : Shared) : Prop := mkSharedOk {
  so_yolo : forall ys s, sh_yolo sh = Some ys -> s ∈ ys -> is_worker_session s = true ->
    exists id w, ws !! id = Some w /\ w_session w = s /\ w_yolo w = true /\ active w = true;
  so_models : forall mm s m, sh_models sh = Some mm -> is_worker_session s = true ->
    mm !! s = Some m <-> exists id w, ws !! id = Some w /\ w_session w = s /\ w_model w = Some m /\ active w = true
}.

Section shared.
Context (ws : Workers) (sh : Shared) (id : Z) (w w' : Worker).
Hypothesis Hs : sessions_ok ws.
Hypothesis Hok : shared_ok ws sh.
Hypothesis Hw : ws !! id = Some w.
Hypothesis He : evolves w w'.

Let range : is_worker_session (w_session w) = true := ss_range ws Hs id w Hw.

(** Other sessions see the other workers as before. *)
Lemma other_sessions (P : Worker -> Prop) s :
  s <> w_session w ->
  (exists i v, <[id := w']> ws !! i = Some v /\ w_session v = s /\ P v) <->
  (exists i v, ws !! i = Some v /\ w_session v = s /\ P v).
Proof.
  intros Hne. pose proof (ev_session _ _ He) as Es. split; intros (i & v & Hi & Hv & HP).
  - apply lookup_insert_Some in Hi as [[<- <-]|[Hi Hv']]; [congruence|eauto].
  - exists i, v. rewrite lookup_insert_ne; [done|]. intros <-. congruence.
Qed.

(** The session of the worker itself belongs to it alone. *)
Lemma own_session (P : Worker -> Prop) :
  (exists i v, <[id := w']> ws !! i = Some v /\ w_session v = w_session w /\ P v) <-> P w'.
Proof.
  pose proof (ev_session _ _ He) as Es. split.
  - intros (i & v & Hi & Hv & HP).
    apply lookup_insert_Some in Hi as [[<- <-]|[Hi Hv']]; [done|].
    exfalso. apply Hi. symmetry. by eapply (ss_distinct ws Hs i id v w).
  - intros HP. exists id, w'. rewrite lookup_insert_eq. by rewrite Es.
Qed.

Lemma own_session_before (P : Worker -> Prop) :
  (exists i v, ws !! i = Some v /\ w_session v = w_session w /\ P v) <-> P w.
Proof.
  split.
  - intros (i & v & Hi & Hv & HP). assert (i = id) as -> by (by eapply (ss_distinct ws Hs i id v w)). congruence.
  - intros HP. by exists id, w.
Qed.

(** Residency unchanged, shared maps unchanged. *)
Lemma shared_same : active w' = active w -> shared_ok (<[id := w']> ws) sh.
Proof.
  intros Ha. pose proof (ev_yolo _ _ He) as Ey. pose proof (ev_model _ _ He) as Em. split.
  - intros ys s Hy Hin Hr. destruct (decide (s = w_session w)) as [->|Hne].
    + apply (own_session (fun v => w_yolo v = true /\ active v = true)). rewrite Ey, Ha.
      apply (own_session_before (fun v => w_yolo v = true /\ active v = true)). by eapply (so_yolo ws sh Hok).
    + apply (other_sessions (fun v => w_yolo v = true /\ active v = true)); [done|]. by eapply (so_yolo ws sh Hok).
  - intros mm s m Hm Hr. rewrite (so_models ws sh Hok mm s m Hm Hr).
    destruct (decide (s = w_session w)) as [->|Hne].
    + rewrite (own_session (fun v => w_model v = Some m /\ active v = true)).
      rewrite (own_session_before (fun v => w_model v = Some m /\ active v = true)). by rewrite Em, Ha.
    + by rewrite (other_sessions (fun v => w_model v = Some m /\ active v = true)).
Qed.

(** Residency ends: disarmed. *)
Lemma shared_disarm : active w' = false -> shared_ok (<[id := w']> ws) (disarm_worker sh (w_session w)).
Proof.
  intros Ha. split.
  - intros ys s Hy Hin Hr. cbn in Hy. destruct (sh_yolo sh) as [ys0|] eqn:E0; [|done]. injection Hy as <-.
    apply elem_of_difference in Hin as [Hin Hne]. rewrite elem_of_singleton in Hne.
    apply (other_sessions (fun v => w_yolo v = true /\ active v = true)); [done|]. by eapply (so_yolo ws sh Hok).
  - intros mm s m Hm Hr. cbn in Hm. destruct (sh_models sh) as [mm0|] eqn:E0; [|done]. injection Hm as <-.
    destruct (decide (s = w_session w)) as [->|Hne].
    + rewrite lookup_delete_eq. rewrite (own_session (fun v => w_model v = Some m /\ active v = true)), Ha.
      split; [done|by intros []].
    + rewrite lookup_delete_ne by done.
      rewrite (other_sessions (fun v => w_model v = Some m /\ active v = true)) by done.
      by apply (so_models ws sh Hok).
Qed.

(** Residency begins: the model is pinned; the grant is armed at admission
    only. *)
Lemma shared_arm_model :
  active w = false -> active w' = true -> shared_ok (<[id := w']> ws) (arm_model sh w').
Proof.
  intros Ha Ha'. pose proof (ev_session _ _ He) as Es. split.
  - intros ys s Hy Hin Hr. destruct (decide (s = w_session w)) as [->|Hne].
    + destruct (so_yolo ws sh Hok ys _ Hy Hin Hr) as (i & v & Hi & Hv & Hv').
      assert (i = id) as -> by (by eapply (ss_distinct ws Hs i id v w)). destruct Hv'. congruence.
    + apply (other_sessions (fun v => w_yolo v = true /\ active v = true)); [done|]. by eapply (so_yolo ws sh Hok).
  - intros mm s m Hm Hr. unfold arm_model in Hm. cbn in Hm.
    destruct (decide (s = w_session w)) as [->|Hne].
    + rewrite (own_session (fun v => w_model v = Some m /\ active v = true)), Ha'.
      destruct (w_model w') as [m'|] eqn:Em.
      * destruct (sh_models sh) as [mm0|] eqn:E0; [|done]. injection Hm as <-. rewrite Es, lookup_insert_eq. by split; [|intros []].
      * split; [|by intros []]. intros Hl.
        apply (so_models ws sh Hok mm _ m Hm Hr) in Hl as (i & v & Hi & Hv & Hv').
        assert (i = id) as -> by (by eapply (ss_distinct ws Hs i id v w)). destruct Hv'. congruence.
    + rewrite (other_sessions (fun v => w_model v = Some m /\ active v = true)) by done.
      destruct (w_model w') as [m'|] eqn:Em; [|by apply (so_models ws sh Hok)].
      destruct (sh_models sh) as [mm0|] eqn:E0; [|done]. injection Hm as <-.
      rewrite Es, lookup_insert_ne by done. by apply (so_models ws sh Hok).
Qed.

Lemma shared_arm_worker :
  active w = false -> active w' = true -> shared_ok (<[id := w']> ws) (arm_worker sh w').
Proof.
  intros Ha Ha'. pose proof (shared_arm_model Ha Ha') as [Hy Hm]. pose proof (ev_session _ _ He) as Es.
  split; [|exact Hm]. intros ys s Hys Hin Hr. unfold arm_worker in Hys. cbn in Hys.
  destruct (w_yolo w') eqn:Ey; [|by eapply Hy].
  destruct (sh_yolo sh) as [ys0|] eqn:E0; [|done]. injection Hys as <-.
  apply elem_of_union in Hin as [->%elem_of_singleton|Hin].
  - exists id, w'. by rewrite lookup_insert_eq.
  - eapply Hy; [exact E0|done..].
Qed.
End shared.

(** ** Every operation moves workers along the edges and keeps the shared maps *)

Definition good_op (ws : Workers) (sh : Shared) (ws' : Workers) (sh' : Shared) : Prop :=
  sessions_ok ws -> shared_ok ws sh -> ws_evolves ws ws' /\ shared_ok ws' sh'.

Lemma w_good_refl ws sh : good_op ws sh ws sh.
Proof. intros _ Hok. split; [reflexivity|done]. Qed.

Lemma good_trans ws sh ws1 sh1 ws2 sh2 :
  good_op ws sh ws1 sh1 -> good_op ws1 sh1 ws2 sh2 -> good_op ws sh ws2 sh2.
Proof.
  intros H1 H2 Hs Hok. destruct (H1 Hs Hok) as [He1 Hok1].
  destruct (H2 (sessions_ok_evolves _ _ He1 Hs) Hok1) as [He2 Hok2]. split; [by etrans|done].
Qed.

Lemma good_same ws sh id w w' :
  ws !! id = Some w -> evolves w w' -> active w' = active w -> good_op ws sh (<[id := w']> ws) sh.
Proof. intros Hw He Ha Hs Hok. split; [by eapply ws_evolves_insert|by eapply shared_same]. Qed.

Lemma good_disarm ws sh id w w' :
  ws !! id = Some w -> evolves w w' -> active w' = false ->
  good_op ws sh (<[id := w']> ws) (disarm_worker sh (w_session w')).
Proof.
  intros Hw He Ha Hs Hok. split; [by eapply ws_evolves_insert|].
  rewrite (ev_session _ _ He). by eapply shared_disarm.
Qed.

Lemma find_worker_Some p ws id w : find_worker p ws = Some (id, w) -> ws !! id = Some w /\ p (id, w) = true.
Proof.
  unfold find_worker. intros [Hin Hp]%find_some. split; [|done].
  apply elem_of_map_to_list. by apply list_elem_of_In.
Qed.

(** A worker is found when there is one. *)
Lemma find_worker_is_Some p ws id w :
  ws !! id = Some w -> p (id, w) = true -> exists id' w', find_worker p ws = Some (id', w').
Proof.
  intros Hw Hp. unfold find_worker. destruct (List.find p (map_to_list ws)) as [[i v]|] eqn:E; [eauto|].
  pose proof (find_none _ _ E (id, w)) as Hn. rewrite Hn in Hp; [done|].
  apply list_elem_of_In. by apply elem_of_map_to_list.
Qed.

Lemma running_or_blocked_spec w : running_or_blocked w = true <-> w_state w = WRunning \/ w_state w = WBlocked.
Proof. unfold running_or_blocked. by rewrite orb_true_iff, !bool_decide_eq_true. Qed.

Section good.
Context {V : Type} (cf : Config) (e : Env).

Lemma admitted_evolves id w : queued w = true -> evolves w (admitted e id w).
Proof.
  unfold queued. rewrite andb_true_iff, bool_decide_eq_true. intros [Hq _]. split; try done.
  cbn. rewrite Hq. apply rtc_once, edge_admit.
Qed.

Lemma queued_inactive w : queued w = true -> active w = false.
Proof. unfold queued, active. rewrite andb_true_iff, bool_decide_eq_true. by intros [-> _]. Qed.

Lemma admit_loop_good fuel ws sh (eff : list (Effect V)) :
  let r := admit_loop fuel cf e ws sh eff in good_op ws sh r.1.1 r.1.2.
Proof.
  revert ws sh eff. induction fuel as [|fuel IH]; intros ws sh eff; cbn [admit_loop]; [apply w_good_refl|].
  destruct (_ <=? _); [apply w_good_refl|]. destruct (next_queued ws) as [id|] eqn:En; [|apply w_good_refl].
  destruct (ws !! id) as [w|] eqn:Ew; [|apply w_good_refl].
  apply next_queued_Some in En as [(w' & Hw' & Hq) _]. rewrite Ew in Hw'. injection Hw' as <-.
  eapply good_trans; [|apply IH]. intros Hs Hok. split.
  - eapply ws_evolves_insert; [done|]. by apply admitted_evolves.
  - eapply shared_arm_worker; [done..|by apply admitted_evolves|by apply queued_inactive|done].
Qed.

Lemma admit_queued_good ws sh :
  let r := @admit_queued V cf e ws sh in good_op ws sh r.1.1 r.1.2.
Proof. apply admit_loop_good. Qed.

(** The worker a verdict leaves: live for life, and in which states. *)
Lemma apply_verdict_evolves cx id w :
  running_or_blocked w = true -> evolves w (oc_worker (apply_verdict (e_now e) (cf_max_steps cf) cx id w)).
Proof.
  intros Hr%running_or_blocked_spec.
  assert (forall s, s = WRunning \/ s = WIdle \/ s = WBlocked \/ s = WDone \/ s = WFailed -> edge (w_state w) s) as Hv.
  { intros s Hs. by apply edge_verdict. }
  assert (edge (w_state w) (w_state w)) as Hself by (apply Hv; tauto).
  unfold apply_verdict. destruct (w_pending w) as [[steer m|s a m|r|]|].
  2-4: split; try done; apply rtc_once, Hv; tauto.
  - unfold apply_continue. destruct (_ && _); [split; try done; apply rtc_once, Hv; tauto|].
    destruct (_ <=? _); [|by split].
    destruct (if ctx_is_r cx then _ else _) as [g|]; split; try done; apply rtc_once, Hv; tauto.
  - destruct (w_errored _); split; try done; apply rtc_once, Hv; tauto.
Qed.

Lemma apply_verdict_active cx id w :
  running_or_blocked w = true ->
  let w' := oc_worker (apply_verdict (e_now e) (cf_max_steps cf) cx id w) in
  active w' = negb (is_terminal (w_state w')).
Proof.
  intros Hr%running_or_blocked_spec. unfold active.
  unfold apply_verdict. destruct (w_pending w) as [[steer m|s a m|r|]|]; try done.
  - unfold apply_continue. destruct (_ && _); [done|]. destruct (_ <=? _).
    + destruct (if ctx_is_r cx then _ else _) as [g|]; [|done]. cbn. by destruct Hr as [-> | ->].
    + cbn. by destruct Hr as [-> | ->].
  - by destruct (w_errored _).
Qed.

Lemma w_advance_good ws sh trees index session :
  let r := @advance V cf e ws sh trees index session in good_op ws sh r.1.1.1.1 r.1.1.1.2.
Proof.
  unfold advance. destruct (find_worker _ ws) as [[id w]|] eqn:E; [|apply w_good_refl].
  apply find_worker_Some in E as [Hw Hp]. cbn [snd] in Hp. apply andb_true_iff in Hp as [_ Hr].
  set (cx := cell_ctx trees index id).
  pose proof (apply_verdict_evolves cx id w Hr) as He.
  pose proof (apply_verdict_active cx id w Hr) as Ha. cbv zeta in Ha.
  set (oc := apply_verdict (e_now e) (cf_max_steps cf) cx id w) in *.
  assert (active w = true) as Hact.
  { apply running_or_blocked_spec in Hr. unfold active. by destruct Hr as [-> | ->]. }
  destruct (lap_tree trees cx (w_parent w) oc) as [trees' eff]. cbn [fst snd].
  destruct (is_terminal (w_state (oc_worker oc))) eqn:Et.
  - assert (evolves w (w_set_next_review (Some (e_now e)) (oc_worker oc))) as He'.
    { destruct He. by split. }
    apply (good_disarm ws sh id w _ Hw He'). exact Ha.
  - apply (good_same ws sh id w _ Hw He). by rewrite Ha, Hact.
Qed.

Lemma wakeable_spec w :
  wakeable w = true ->
  (active w = false /\ edge (w_state w) WRunning) \/ (active w = true /\ edge (w_state w) WRunning).
Proof.
  unfold wakeable, active. rewrite !orb_true_iff, !andb_true_iff, !bool_decide_eq_true.
  intros [[[->| ->]|[-> _]]|[-> _]]; [left|right|right|left]; (split; [done|]);
    solve [apply edge_admit|apply edge_wake; tauto].
Qed.

(** A wake of a resident worker finds its model pinned already. *)
Lemma arm_model_idemp ws sh id w w' :
  sessions_ok ws -> shared_ok ws sh -> ws !! id = Some w -> evolves w w' -> active w = true ->
  arm_model sh w' = sh.
Proof.
  intros Hs Hok Hw He Ha. unfold arm_model. rewrite (ev_session _ _ He).
  destruct sh as [y mm]. cbn. f_equal. destruct (w_model w') as [m|] eqn:Em; [|done].
  destruct mm as [mm|]; [|done]. cbn. f_equal. apply insert_id.
  apply (so_models ws _ Hok mm (w_session w) m eq_refl (ss_range ws Hs id w Hw)).
  exists id, w. by rewrite <- (ev_model _ _ He).
Qed.

Lemma wake_good ws sh session :
  let r := @wake_on_send V e ws sh session in good_op ws sh r.1.1.1 r.1.1.2.
Proof.
  unfold wake_on_send. destruct (find_worker _ ws) as [[id w]|] eqn:E; [|apply w_good_refl].
  apply find_worker_Some in E as [Hw Hp]. cbn [snd] in Hp. apply andb_true_iff in Hp as [_ Hr].
  apply wakeable_spec in Hr. cbn [fst snd].
  assert (evolves w (woken e id w)) as He.
  { split; try done. apply rtc_once. by destruct Hr as [[_ ?]|[_ ?]]. }
  intros Hs Hok. destruct Hr as [[Ha _]|[Ha _]].
  - split; [by eapply ws_evolves_insert|]. by eapply shared_arm_model.
  - rewrite (arm_model_idemp ws sh id w) by done. by apply (good_same ws sh id w _ Hw He).
Qed.

Lemma block_good ws sh session tool :
  good_op ws sh (@block_on_approval V ws session tool).1.1 sh.
Proof.
  unfold block_on_approval. destruct (find_worker _ ws) as [[id w]|] eqn:E; [|apply w_good_refl].
  apply find_worker_Some in E as [Hw Hp]. cbn [snd] in Hp. apply andb_true_iff in Hp as [_ Hr].
  apply bool_decide_eq_true in Hr. cbn [fst]. apply (good_same ws sh id w); [done| |by unfold active; rewrite Hr].
  split; try done. apply rtc_once, edge_verdict; tauto.
Qed.

Lemma w_resume_good ws sh session :
  good_op ws sh (@resume_from_approval V e ws session).1.1 sh.
Proof.
  unfold resume_from_approval. destruct (find_worker _ ws) as [[id w]|] eqn:E; [|apply w_good_refl].
  apply find_worker_Some in E as [Hw Hp]. cbn [snd] in Hp. apply andb_true_iff in Hp as [_ Hr].
  apply bool_decide_eq_true in Hr. cbn [fst]. apply (good_same ws sh id w); [done| |by unfold active; rewrite Hr].
  split; try done. apply rtc_once, edge_wake; tauto.
Qed.

(** Any update that leaves the life fields and the state alone. *)
Lemma quiet_evolves w w' :
  w_batch w' = w_batch w -> w_parent w' = w_parent w -> w_session w' = w_session w -> w_yolo w' = w_yolo w ->
  w_model w' = w_model w -> w_state w' = w_state w -> evolves w w' /\ active w' = active w.
Proof. intros. split; [split; try done; by rewrite H4|by unfold active; rewrite H4]. Qed.

Lemma good_quiet ws sh id w w' :
  ws !! id = Some w -> evolves w w' /\ active w' = active w -> good_op ws sh (<[id := w']> ws) sh.
Proof. intros Hw [He Ha]. by eapply good_same. Qed.

Lemma mark_errored_good ws sh session : good_op ws sh (mark_errored ws session) sh.
Proof.
  unfold mark_errored. destruct (find_worker _ ws) as [[id w]|] eqn:E; [|apply w_good_refl].
  apply find_worker_Some in E as [Hw _]. apply (good_quiet ws sh id w); [done|]. by apply quiet_evolves.
Qed.

Lemma record_verdict_good ws sh session call status v :
  good_op ws sh (@record_verdict V ws session call status v).1 sh.
Proof.
  unfold record_verdict. destruct (find_worker _ ws) as [[id w]|] eqn:E; [|apply w_good_refl].
  apply find_worker_Some in E as [Hw _]. apply (good_quiet ws sh id w); [done|]. by apply quiet_evolves.
Qed.

Lemma record_report_good `{!FsOps} `{!JsonArgs V} `{!JsonNums V} ws sh session call args :
  good_op ws sh (record_report cf ws session call args).1 sh.
Proof.
  unfold record_report. destruct (_ && _); [apply w_good_refl|].
  destruct (parse_verdict args) as [?|? artifacts ?|?|]; try apply record_verdict_good.
  destruct (confine_artifacts _ _); [apply record_verdict_good|apply w_good_refl].
Qed.

Lemma cancel_one_good s id :
  good_op s.1.1 s.1.2 (@cancel_one V e s id).1.1 (cancel_one e s id).1.2.
Proof.
  destruct s as [[ws sh] eff]. unfold cancel_one. cbn [fst snd].
  destruct (ws !! id) as [w|] eqn:Ew; [|apply w_good_refl].
  destruct (is_terminal (w_state w)) eqn:Et; [apply w_good_refl|]. cbn [fst snd].
  eapply good_disarm; [done| |done]. split; try done. apply rtc_once. by apply edge_cancel.
Qed.

Lemma cancel_workers_good ws sh ids :
  let r := @cancel_workers V e ws sh ids in good_op ws sh r.1.1 r.1.2.
Proof.
  unfold cancel_workers.
  assert (forall s : gmap Z Worker * Shared * list (Effect V),
    let r := foldl (cancel_one e) s ids in good_op s.1.1 s.1.2 r.1.1 r.1.2) as H; [|apply (H (ws, sh, []))].
  induction ids as [|id ids IH]; intros s; cbn [foldl]; [apply w_good_refl|].
  eapply good_trans; [apply cancel_one_good|apply IH].
Qed.

Lemma remediate_good ws sh id w br ok :
  ws !! id = Some w ->
  let rv := build_review cf e w br ok in
  let r := @remediate V e ws sh id w (review rv.1 rv.2) in good_op ws sh r.1.1 r.1.2.
Proof.
  intros Hw rv. rewrite review_table. unfold rv, build_review. cbn [fst snd wd_demand wd_progress].
  unfold posture_of. destruct (is_terminal (w_state w)) eqn:Et; [apply w_good_refl|].
  destruct (w_barrier_held w && _) eqn:Eb.
  { destruct (negb _); apply w_good_refl. }
  destruct (holds_slot w) eqn:Eh.
  - destruct (_ || _) eqn:Ep; [apply w_good_refl|]. cbn [remediate fst snd].
    apply orb_false_iff in Ep as [Ep _]. unfold holds_slot in Eh. rewrite Ep, orb_false_r, bool_decide_eq_true in Eh.
    eapply good_disarm; [done| |done]. split; try done. cbn. rewrite Eh. apply rtc_once, edge_stall.
  - destruct (_ <=? _); [apply w_good_refl|]. cbn [remediate].
    destruct (bool_decide (w_state w = WParked)); [apply w_good_refl|]. cbn [fst snd].
    eapply good_disarm; [done| |done]. split; try done. apply rtc_once. by apply edge_park.
Qed.

Lemma schedule_quiet w p wd d :
  let w' := schedule_next_review cf e w p wd d in evolves w w' /\ active w' = active w.
Proof.
  unfold schedule_next_review. destruct (is_terminal (w_state w)); [destruct p|]; by apply quiet_evolves.
Qed.
End good.

(** ** The ledger file *)

Lemma hydrate_workers_fst now ws l c :
  (hydrate_workers now ws l c).1 = foldl (fun m pw => <[pw_id pw := hydrate_worker now pw]> m) ws l.
Proof.
  revert ws c; induction l as [|pw l IH]; intros ws c; cbn [foldl]; [done|]. unfold hydrate_workers in *. cbn [foldl].
  apply IH.
Qed.

Lemma hydrate_batches_fst bs l c :
  (hydrate_batches bs l c).1 = foldl (fun m pb => <[pb_batch pb := hydrate_batch pb]> m) bs l.
Proof.
  revert bs c; induction l as [|pb l IH]; intros bs c; cbn [foldl]; [done|]. unfold hydrate_batches in *. cbn [foldl].
  apply IH.
Qed.

Definition counters_le (a b : Counters) : Prop :=
  next_worker_id a <= next_worker_id b /\ next_batch_id a <= next_batch_id b /\ next_worker_sid a <= next_worker_sid b.

(** The counters pass everything that was loaded. *)
Lemma hydrate_workers_counters now ws l c :
  let c' := (hydrate_workers now ws l c).2 in
  counters_le c c' /\
  Forall (fun pw => is_u64 (pw_id pw + 1) -> is_u64 (pw_batch pw + 1) -> is_u64 (pw_session pw + 1) ->
    pw_id pw < next_worker_id c' /\ pw_batch pw < next_batch_id c' /\ pw_session pw < next_worker_sid c') l.
Proof.
  revert ws c; induction l as [|pw l IH]; intros ws c; [split; [unfold counters_le; cbn; lia|constructor]|].
  unfold hydrate_workers in *. cbn [foldl fst snd].
  set (c1 := mkCounters _ _ _). specialize (IH (<[pw_id pw := hydrate_worker now pw]> ws) c1) as [Hle Hall].
  set (c2 := (foldl _ _ l).2) in *.
  assert (forall n, is_u64 (n + 1) -> as_u64 (n + 1) = n + 1) as Hu.
  { intros n Hn. unfold as_u64. apply Z.mod_small. ulia. }
  unfold counters_le in *. cbn [c1 next_worker_id next_batch_id next_worker_sid] in Hle. split; [lia|].
  constructor; [|done]. intros H1 H2 H3. rewrite !Hu in Hle by done. lia.
Qed.

(** A worker as a restart finds it. *)
Definition restarted (now : Z) (w : Worker) : Worker :=
  mkWorker (w_batch w) (w_parent w) (w_session w) (w_task w) (parked_form (w_state w)) (w_step w)
    (w_summary w) (w_artifacts w) (w_episode w) now None false (w_yolo w) (w_model w) false false
    (w_step_ceiling w) None None 0.

Definition restarted_batch (b : BatchMeta) : BatchMeta :=
  mkBatch (b_parent b) (b_created_epoch b) (b_deadline_s b) (b_reported b) None (b_origin b).

Lemma hydrate_snapshot now (ws : Workers) c i :
  (hydrate_workers now ∅ (snapshot_workers ws) c).1 !! i = restarted now <$> ws !! i.
Proof.
  rewrite hydrate_workers_fst. unfold snapshot_workers. rewrite restore_by_id by (by intros []). done.
Qed.

Lemma hydrate_snapshot_batches (bs : Batches) c i :
  (hydrate_batches ∅ (snapshot_batches bs) c).1 !! i = restarted_batch <$> bs !! i.
Proof.
  rewrite hydrate_batches_fst. unfold snapshot_batches. rewrite restore_by_id by (by intros []).
  destruct (bs !! i) as [b|]; [|done]. cbn. unfold hydrate_batch, restarted_batch. cbn.
  by destruct (b_origin b) as [[n o]|].
Qed.

Lemma restarted_inert now w : holds_slot (restarted now w) = false /\ queued (restarted now w) = false /\
  active (restarted now w) = false.
Proof. unfold holds_slot, queued, active. cbn. by destruct (w_state w). Qed.

(** A restart keeps every worker and every batch, parks what was not over, and
    runs nothing: no slot is held, nothing is queued, a pass of admission is
    the identity, and a fresh auto-approve set is consistent. *)
Theorem restart_parks (V : Type) (now : Z) (cf : Config) (e : Env) (ws : Workers) (bs : Batches) (c : Counters)
    (ok : bool) (seq : Z) (i : Z) :
  let t := mkTxn WORKER_TXN_VERSION (persist_worker_txn (V := V) ok ws bs seq).1 (snapshot_workers ws) (snapshot_batches bs) in
  exists t', load_worker_txn (Some t) = Some t' /\
  let ws' := (hydrate_workers now ∅ (tx_workers t') c).1 in
  let bs' := (hydrate_batches ∅ (tx_batches t') c).1 in
  ws' !! i = restarted now <$> ws !! i /\ bs' !! i = restarted_batch <$> bs !! i /\
  slots_used ws' = 0 /\
  @admit_queued V cf e ws' (mkShared (Some ∅) (Some ∅)) = (ws', mkShared (Some ∅) (Some ∅), []) /\
  shared_ok ws' (mkShared (Some ∅) (Some ∅)).
Proof.
  intros t. exists t. split; [done|]. cbn [t tx_workers tx_batches]. cbv zeta.
  set (ws' := (hydrate_workers now ∅ (snapshot_workers ws) c).1).
  assert (forall j v, ws' !! j = Some v -> exists w, v = restarted now w) as Hall.
  { intros j v Hj. unfold ws' in Hj. rewrite hydrate_snapshot in Hj. apply fmap_Some in Hj as (w & _ & ->). eauto. }
  split_and!.
  - apply hydrate_snapshot.
  - apply hydrate_snapshot_batches.
  - apply (count_map_zero (fun x => holds_slot x.2)). intros j v (w & ->)%Hall. apply restarted_inert.
  - unfold admit_queued. destruct (size ws') as [|n]; [done|]. cbn [admit_loop].
    destruct (_ <=? _); [done|].
    assert (next_queued ws' = None) as ->; [|done].
    apply next_queued_None. intros j v (w & ->)%Hall. apply restarted_inert.
  - split; [intros ys s [= <-] Hin; by apply not_elem_of_empty in Hin|].
    intros mm s m [= <-] _. rewrite lookup_empty. split; [done|].
    intros (j & v & Hj & _ & _ & Ha). apply Hall in Hj as (w & ->).
    by rewrite (proj2 (proj2 (restarted_inert now w))) in Ha.
Qed.

(** ** The batch ledger *)

Definition due_ids (epoch : Z) (ws : Workers) (rs : Remotes) (bs : Batches) : list Z :=
  (filter (fun x => batch_due epoch ws rs x) (map_to_list bs)).*1.

Lemma elem_due epoch ws rs bs id :
  id ∈ due_ids epoch ws rs bs <-> exists b, bs !! id = Some b /\ batch_due epoch ws rs (id, b) = true.
Proof.
  unfold due_ids. rewrite list_elem_of_fmap. split.
  - intros ([i b] & -> & [Hd Hin%elem_of_map_to_list]%list_elem_of_filter). exists b. split; [done|]. by apply Is_true_true.
  - intros (b & Hb & Hd). exists (id, b). split; [done|]. apply list_elem_of_filter.
    split; [by apply Is_true_true|]. by apply elem_of_map_to_list.
Qed.

Lemma due_nodup epoch ws rs bs : NoDup (due_ids epoch ws rs bs).
Proof. apply nodup_filter_fst, NoDup_fst_map_to_list. Qed.

(** The report events of one batch. *)
Definition is_report {V} (id : Z) (f : Effect V) : bool :=
  match f with EBatchDone b _ _ => b =? id | _ => false end.
Definition reports {V} (id : Z) (eff : list (Effect V)) : Z := zlen (List.filter (is_report id) eff).

Lemma reports_app {V} id (a b : list (Effect V)) : reports id (a ++ b) = reports id a + reports id b.
Proof. unfold reports. by rewrite List.filter_app, zlen_app. Qed.

Section ledger.
Context {V : Type} (cf : Config) (e : Env) (rd : Z -> option V) (ws : Workers) (rs : Remotes).

(** What reporting one batch puts on the bus. *)
Definition report_events (id : Z) (b : BatchMeta) : list (Effect V) :=
  let rows := batch_rows cf ws rs id in
  EBatchDone id (b_parent b) rows
  :: (if is_worker_session (b_parent b) then [EPrompt (b_parent b) (WSubReport id rows)] else [])
  ++ match b_inline_ack b with
     | Some (session, call) => [EReply session call (Inlined (inline_report ws id rows))]
     | None => []
     end.

Lemma reports_report_events id i b : reports i (report_events id b) = Z.b2z (id =? i).
Proof.
  unfold report_events, reports. cbn [List.filter is_report].
  destruct (id =? i), (is_worker_session (b_parent b)), (b_inline_ack b) as [[? ?]|]; reflexivity.
Qed.

Lemma report_fold ids (bs : Batches) (eff home : list (Effect V)) :
  NoDup ids ->
  let r := foldl (report_batch cf rd ws rs) (bs, eff, home) ids in
  (forall id, r.1.1 !! id = if decide (id ∈ ids) then b_report <$> bs !! id else bs !! id) /\
  r.1.2 = eff ++ concat ((fun id => match bs !! id with Some b => report_events id b | None => [] end) <$> ids).
Proof.
  revert bs eff home. induction ids as [|id ids IH]; intros bs eff home Hnd; cbn [foldl fmap list_fmap concat].
  { split; [done|]. by rewrite app_nil_r. }
  apply NoDup_cons in Hnd as [Hid Hnd].
  destruct (report_batch cf rd ws rs (bs, eff, home) id) as [[bs1 eff1] home1] eqn:E1.
  unfold report_batch in E1.
  assert ((forall i, bs1 !! i = if decide (i = id) then b_report <$> bs !! i else bs !! i) /\
          eff1 = eff ++ match bs !! id with Some b => report_events id b | None => [] end) as [Hb1 He1].
  { destruct (bs !! id) as [b|] eqn:Eb; injection E1 as <- <- _.
    - split; [|done]. intros i. case_decide; subst; [by rewrite lookup_insert_eq, Eb|by rewrite lookup_insert_ne].
    - split; [|by rewrite app_nil_r]. intros i. case_decide; subst; [by rewrite Eb|done]. }
  destruct (IH bs1 eff1 home1 Hnd) as [IHb IHe]. split.
  - intros i. rewrite IHb, Hb1. destruct (decide (i = id)) as [->|Hne].
    + rewrite (decide_False (P := id ∈ ids)) by done. by rewrite decide_True by left.
    + destruct (decide (i ∈ ids)); [rewrite decide_True by (by right)|rewrite decide_False]; try done.
      rewrite elem_of_cons. tauto.
  - rewrite IHe, He1, <- app_assoc. do 2 f_equal. f_equal. apply list_fmap_ext. intros k i Hi.
    rewrite Hb1. rewrite decide_False; [done|]. intros ->. apply Hid. by eapply list_elem_of_lookup_2.
Qed.

Lemma check_batches_spec (bs : Batches) :
  let r := check_batches cf e rd ws rs bs in
  (forall id, r.1.1.1 !! id =
     (fun b => if batch_due (e_epoch e) ws rs (id, b) then b_report b else b) <$> bs !! id) /\
  r.1.1.2 = concat ((fun id => match bs !! id with Some b => report_events id b | None => [] end)
                      <$> due_ids (e_epoch e) ws rs bs).
Proof.
  unfold check_batches. cbn [fst].
  destruct (report_fold (due_ids (e_epoch e) ws rs bs) bs [] [] (due_nodup _ _ _ _)) as [Hb He].
  split; [|exact He]. intros id. rewrite Hb. destruct (bs !! id) as [b|] eqn:Eb; [|by case_decide].
  cbn. case_decide as Hd.
  - apply elem_due in Hd as (b' & Hb' & Hd). rewrite Eb in Hb'. injection Hb' as <-. by rewrite Hd.
  - destruct (batch_due _ ws rs (id, b)) eqn:E; [|done]. exfalso. apply Hd, elem_due. by exists b.
Qed.

(** A pass over the ledger reports exactly the unreported batches that are
    settled or past their deadline, each once, and marks them. *)
Lemma check_reports (bs : Batches) id :
  let r := check_batches cf e rd ws rs bs in
  reports id r.1.1.2 =
  match bs !! id with Some b => Z.b2z (batch_due (e_epoch e) ws rs (id, b)) | None => 0 end.
Proof.
  cbv zeta. destruct (check_batches_spec bs) as [_ ->].
  pose proof (due_nodup (e_epoch e) ws rs bs) as Hnd.
  assert (match bs !! id with Some b => Z.b2z (batch_due (e_epoch e) ws rs (id, b)) | None => 0 end
          = if decide (id ∈ due_ids (e_epoch e) ws rs bs) then 1 else 0) as ->.
  { case_decide as Hd.
    - apply elem_due in Hd as (b & -> & ->). done.
    - destruct (bs !! id) as [b|] eqn:Eb; [|done]. destruct (batch_due _ ws rs (id, b)) eqn:E; [|done].
      exfalso. apply Hd, elem_due. by exists b. }
  assert (forall i, i ∈ due_ids (e_epoch e) ws rs bs -> is_Some (bs !! i)) as Hin.
  { intros i (b & Hb & _)%elem_due. by exists b. }
  induction (due_ids (e_epoch e) ws rs bs) as [|i l IH]; [done|].
  apply NoDup_cons in Hnd as [Hi Hnd]. cbn [fmap list_fmap concat]. rewrite reports_app.
  rewrite IH by (try done; intros; apply Hin; by right).
  destruct (Hin i ltac:(left)) as [b ->]. rewrite reports_report_events.
  destruct (Z.eqb_spec i id) as [->|Hne].
  - rewrite (decide_False (P := id ∈ l)) by done. by rewrite decide_True by left.
  - case_decide; [rewrite decide_True by (by right)|rewrite decide_False by (rewrite elem_of_cons; intros [?|?]; [by apply Hne|done])];
      done.
Qed.
End ledger.

(** ** Reviews *)

Lemma running_live w : w_state w = WRunning -> posture_of w = Live.
Proof. intros Hr. unfold posture_of, holds_slot. rewrite Hr. cbn. by rewrite andb_false_r. Qed.

(** A review fails a running worker exactly when its step has outlived the
    timeout, parks a waiting one exactly past the idle limit, and touches a
    suspended turn never. *)
Lemma review_clocks (cf : Config) (e : Env) (w : Worker) (br : option bool) (ok : bool) :
  let r := review (build_review cf e w br ok).1 (build_review cf e w br ok).2 in
  (r = Fail_ <-> w_state w = WRunning /\ cf_step_timeout cf < elapsed e w) /\
  (r = Park <-> posture_of w = Waiting /\ cf_idle_ttl cf < elapsed e w).
Proof.
  cbv zeta. rewrite review_table. unfold build_review. cbn [fst snd wd_demand wd_progress].
  destruct (posture_of w) eqn:Ep.
  - unfold posture_of in Ep. destruct (is_terminal (w_state w)); [done|].
    destruct (_ && bool_decide (w_state w = WQueued)); [done|]. destruct (holds_slot w) eqn:Eh; [|done].
    unfold holds_slot in Eh. destruct (Z.leb_spec (elapsed e w) (cf_step_timeout cf)) as [Hle|Hlt].
    + rewrite orb_true_r. split; split; try done; intros [? ?]; lia || done.
    + rewrite orb_false_r. destruct (bool_decide (w_state w = WBlocked)) eqn:Eb; cbn [andb] in *.
      * apply bool_decide_eq_true in Eb. rewrite Eb in *. destruct (w_turn_inflight w); [|done]. split; split; try done; intros [? _]; done.
      * rewrite orb_false_r, bool_decide_eq_true in Eh. split; split; try done; intros [? _]; done.
  - unfold posture_of in Ep. destruct (is_terminal (w_state w)); [done|].
    destruct (_ && bool_decide (w_state w = WQueued)); [done|]. destruct (holds_slot w) eqn:Eh; [done|].
    unfold holds_slot in Eh. apply orb_false_iff in Eh as [Er _]. apply bool_decide_eq_false in Er.
    destruct (Z.leb_spec (elapsed e w) (cf_idle_ttl cf));
      (split; [split; [done|intros [? _]; by destruct Er]|]); split; try done; intros [_ ?]; lia.
  - destruct (negb _); split; split; try done; intros [Hr _]; try done; apply running_live in Hr; congruence.
  - split; split; try done; intros [Hr _]; try done; apply running_live in Hr; congruence.
Qed.

(** However long the ladder, the next look at a running worker is at most a
    period away and at most a tick past the instant its step times out. *)
Theorem next_review_bounds (cf : Config) (e : Env) (w : Worker) (wd : Word) (d : option Z) :
  w_state w = WRunning -> 0 <= cf_step_timeout cf ->
  exists t, w_next_review (schedule_next_review cf e w Live wd d) = Some t /\
    e_now e <= t <= e_now e + REVIEW_PERIOD /\
    t <= Z.max (e_now e) (Z.min (e_now e) (w_started w) + cf_step_timeout cf) + TICK.
Proof.
  intros Hr Ht. unfold schedule_next_review. rewrite Hr. cbn [is_terminal].
  eexists. split; [reflexivity|]. rewrite bool_decide_eq_true_2 by done.
  unfold sat_sub, elapsed, REVIEW_PERIOD, TICK. lia.
Qed.

(** ** Renewals conserve the tree's steps *)

Definition tree_steps (t : Cells) : Z := foldr (fun p s => bv_steps (cell_budget p.2) + s) 0 (map_to_list t).

Lemma steps_perm (l l' : list (text * CellRecord)) :
  l ≡ₚ l' ->
  foldr (fun p s => bv_steps (cell_budget p.2) + s) 0 l = foldr (fun p s => bv_steps (cell_budget p.2) + s) 0 l'.
Proof. induction 1; cbn [foldr]; lia. Qed.

Lemma tree_steps_insert t a c c' :
  t !! a = Some c ->
  tree_steps (<[a := c']> t) = tree_steps t - bv_steps (cell_budget c) + bv_steps (cell_budget c').
Proof.
  intros Ha.
  assert (forall x, tree_steps (<[a := x]> t) = bv_steps (cell_budget x) + tree_steps (delete a t)) as E.
  { intros x. unfold tree_steps. rewrite <- insert_delete_eq.
    rewrite (steps_perm _ _ (map_to_list_insert (delete a t) a x (lookup_delete_eq _ _))). done. }
  rewrite E. specialize (E c). rewrite insert_id in E by done. lia.
Qed.

Definition ring_steps (trees : Trees) (mid : Z) : Z := tree_steps (default ∅ (trees !! mid)).

Lemma update_cell_steps {V : Type} (trees : Trees) mid a f mid' :
  ring_steps (@update_cell V trees mid a f).1 mid' =
  match tree_cell trees mid a with
  | Some c => if decide (mid' = mid) then ring_steps trees mid - bv_steps (cell_budget c) + bv_steps (cell_budget (f c))
              else ring_steps trees mid'
  | None => ring_steps trees mid'
  end.
Proof.
  unfold update_cell. destruct (tree_cell trees mid a) as [c|] eqn:E; [|done]. cbn [fst].
  unfold ring_steps. case_decide as Hm; [subst mid'|by rewrite lookup_insert_ne].
  rewrite lookup_insert_eq. unfold tree_cell in E. destruct (trees !! mid) as [t|]; [|done].
  cbn [default from_option id]. by apply tree_steps_insert.
Qed.

(** What a second read of a cell sees after an update. *)
Lemma update_cell_lookup {V : Type} (trees : Trees) mid a f b :
  tree_cell (@update_cell V trees mid a f).1 mid b =
  if decide (b = a) then f <$> tree_cell trees mid b else tree_cell trees mid b.
Proof.
  unfold update_cell. destruct (tree_cell trees mid a) as [c|] eqn:E; cbn [fst].
  - unfold tree_cell at 1. rewrite lookup_insert_eq. cbn [mbind option_bind]. case_decide; subst.
    + rewrite lookup_insert_eq. by rewrite E.
    + rewrite lookup_insert_ne by done. unfold tree_cell. by destruct (trees !! mid).
  - case_decide; subst; [by rewrite E|done].
Qed.

Lemma renewal_grant_bounds ps h g : renewal_grant ps h = Some g -> 0 < g <= ps.
Proof.
  unfold renewal_grant. destruct (negb _ || (ps <? 2)) eqn:E; [done|]. intros [= <-].
  apply orb_false_iff in E as [_ E]. pose proof (Z.div_mod ps 2). pose proof (Z.mod_pos_bound ps 2). lia.
Qed.

(** A renewal is granted out of the steps of the effective parent. *)
Lemma renewed_from_parent now max_steps cx id w g :
  oc_renew (apply_verdict now max_steps cx id w) = Some g ->
  exists c ps h, cx = Some c /\ cx_parent_steps c = Some ps /\ renewal_grant ps h = Some g.
Proof.
  unfold apply_verdict. destruct (w_pending w) as [[steer m|s a m|r|]|]; try done.
  - unfold apply_continue. destruct (_ && _); [done|]. destruct (_ <=? _); [|done].
    destruct (ctx_is_r _); [|done]. destruct cx as [cx|]; [|done]. cbn [mbind option_bind].
    destruct (cx_parent_steps cx) as [ps|] eqn:Eps; [|done]. cbn [mbind option_bind].
    destruct (renewal_grant ps _) as [g'|] eqn:Eg; [|done]. intros [= <-]. eauto 6.
  - by destruct (w_errored _).
Qed.

Lemma cell_ctx_parent trees index id cx pa ps :
  cell_ctx trees index id = Some cx -> cx_parent cx = Some pa -> cx_parent_steps cx = Some ps ->
  (fun c => bv_steps (cell_budget c)) <$> tree_cell trees (cx_mandala cx) pa = Some ps.
Proof.
  unfold cell_ctx. destruct (index !! id) as [[m a]|]; [|done]. cbn [mbind option_bind].
  destruct (tree_cell trees m a) as [c|]; [|done]. cbn [mbind option_bind]. intros [= <-].
  cbn [cx_mandala cx_parent cx_parent_steps]. by intros ->.
Qed.

(** Recording a lap moves no steps. *)
Lemma push_lap_steps {V : Type} (trees : Trees) mid a m k b :
  let t := (@update_cell V trees mid a (push_lap m)).1 in
  ring_steps t k = ring_steps trees k /\
  (fun c => bv_steps (cell_budget c)) <$> tree_cell t mid b = (fun c => bv_steps (cell_budget c)) <$> tree_cell trees mid b.
Proof.
  cbn zeta. rewrite update_cell_steps, update_cell_lookup. split.
  - destruct (tree_cell trees mid a) as [c|]; [|done]. case_decide; subst; [cbn; lia|done].
  - case_decide; [|done]. by destruct (tree_cell trees mid b).
Qed.

(** What the parent spends, the cell may gain. *)
Lemma renew_steps {V : Type} (trees : Trees) mid a pa g ps k :
  (fun c => bv_steps (cell_budget c)) <$> tree_cell trees mid pa = Some ps -> 0 < g <= ps ->
  ring_steps (@update_cell V (@update_cell V trees mid pa (spend_steps g)).1 mid a (gain_steps g)).1 k <= ring_steps trees k.
Proof.
  intros Hp Hg. apply fmap_Some in Hp as (pc & Hpc & Hsteps).
  pose proof (update_cell_steps (V := V) trees mid pa (spend_steps g) k) as H1. rewrite Hpc in H1.
  set (t := (update_cell trees mid pa (spend_steps g)).1) in *.
  pose proof (update_cell_steps (V := V) t mid a (gain_steps g) k) as H2.
  assert (bv_steps (cell_budget (spend_steps g pc)) = bv_steps (cell_budget pc) - g) as Hs.
  { unfold spend_steps, set_budget_steps, sat_sub. cbn [cell_budget bv_steps]. lia. }
  destruct (decide (k = mid)) as [->|]; destruct (tree_cell t mid a) as [c|]; rewrite H2; try lia.
  assert (bv_steps (cell_budget (gain_steps g c)) <= bv_steps (cell_budget c) + g) by (cbn; lia). lia.
Qed.

Lemma lap_tree_steps {V : Type} (trees : Trees) index id parent now max_steps w mid :
  let cx := cell_ctx trees index id in
  ring_steps (@lap_tree V trees cx parent (apply_verdict now max_steps cx id w)).1 mid <= ring_steps trees mid.
Proof.
  cbn zeta. pose proof (renewed_from_parent now max_steps (cell_ctx trees index id) id w) as Hg.
  set (oc := apply_verdict _ _ _ _ _) in *. clearbody oc. unfold lap_tree.
  destruct (cell_ctx trees index id) as [cx|] eqn:Ecx; [|cbn; lia].
  set (t1 := match oc_measure oc with Some _ => _ | None => _ end).
  assert (forall k b, ring_steps t1.1 k = ring_steps trees k /\
            (fun c => bv_steps (cell_budget c)) <$> tree_cell t1.1 (cx_mandala cx) b =
            (fun c => bv_steps (cell_budget c)) <$> tree_cell trees (cx_mandala cx) b) as H1.
  { intros k b. unfold t1. destruct (oc_measure oc) as [m|]; [|done]. destruct (cx_is_r cx); [|done]. apply push_lap_steps. }
  destruct t1 as [t1 e1]. cbn [fst] in H1. destruct (H1 mid (cx_addr cx)) as [Hmid _].
  destruct (oc_renew oc) as [g|]; [|cbn; lia]. destruct (cx_parent cx) as [pa|] eqn:Epa; [|cbn; lia].
  destruct (Hg g eq_refl) as (cx' & ps & h & [= <-] & Hps & Hgr).
  pose proof (cell_ctx_parent _ _ _ _ _ _ Ecx Epa Hps) as Hp. rewrite <- (proj2 (H1 mid pa)) in Hp.
  pose proof (renew_steps (V := V) t1 (cx_mandala cx) (cx_addr cx) pa g ps mid Hp (renewal_grant_bounds _ _ _ Hgr)) as H3.
  destruct (update_cell t1 _ pa _) as [t2 e2]. cbn [fst] in H3.
  destruct (update_cell t2 _ _ _) as [t3 e3]. cbn [fst] in *. lia.
Qed.

(** A lap never creates steps, in any mandala: what a renewal gives the cell it
    takes from the effective parent. *)
Theorem renewal_conserves (V : Type) (cf : Config) (e : Env) (ws : Workers) (sh : Shared) (trees : Trees)
    (index : CellIndex) (session mid : Z) :
  ring_steps (@advance V cf e ws sh trees index session).1.1.2 mid <= ring_steps trees mid.
Proof.
  unfold advance. destruct (find_worker _ ws) as [[id w]|]; [|cbn; lia].
  pose proof (lap_tree_steps (V := V) trees index id (w_parent w) (e_now e) (cf_max_steps cf) w mid) as H. cbn zeta in H.
  by destruct (lap_tree _ _ _ _) as [trees' eff].
Qed.

(** ** The rows of a report *)

Lemma elem_rows (cf : Config) (ws : Workers) (rs : Remotes) batch row :
  row ∈ batch_rows cf ws rs batch <->
  (exists id w, ws !! id = Some w /\ w_batch w = batch /\
     row = mkRow id (w_state w) (if is_terminal (w_state w) then evidence_path cf id else [])
             (negb (is_terminal (w_state w))) None) \/
  (exists id r, rs !! id = Some r /\ rm_batch r = batch /\
     row = mkRow id (remote_row_state (rm_state_raw r)) (default [] (rm_evidence r)) (negb (rm_terminal r))
             (Some (rm_node r))).
Proof.
  unfold batch_rows. rewrite list_elem_of_fmap. setoid_rewrite merge_sort_Permutation.
  setoid_rewrite elem_of_app. setoid_rewrite list_elem_of_fmap. split.
  - intros ([i x] & -> & [([j w] & E & [Hb Hin%elem_of_map_to_list]%list_elem_of_filter)
                         |([j r] & E & [Hb Hin%elem_of_map_to_list]%list_elem_of_filter)]).
    + left. injection E as -> ->. by exists j, w.
    + right. injection E as -> ->. by exists j, r.
  - intros [(id & w & Hw & Hb & ->)|(id & r & Hr & Hb & ->)].
    + eexists (id, _). split; [reflexivity|]. left. exists (id, w). split; [done|].
      apply list_elem_of_filter. split; [done|]. by apply elem_of_map_to_list.
    + eexists (id, _). split; [reflexivity|]. right. exists (id, r). split; [done|].
      apply list_elem_of_filter. split; [done|]. by apply elem_of_map_to_list.
Qed.

(** A report names every member of its batch, local or remote, and no one
    else; a line without the straggler mark is terminal, and a local one
    points at its evidence. *)
Theorem report_is_honest (cf : Config) (ws : Workers) (rs : Remotes) (batch : Z) :
  (forall id, (exists row, row ∈ batch_rows cf ws rs batch /\ row_worker row = id) <->
     (exists w, ws !! id = Some w /\ w_batch w = batch) \/ (exists r, rs !! id = Some r /\ rm_batch r = batch)) /\
  (forall row, row ∈ batch_rows cf ws rs batch ->
     row_timed_out row = negb (is_terminal (row_state row)) /\
     (row_timed_out row = false -> row_node row = None -> row_evidence row = evidence_path cf (row_worker row))).
Proof.
  split.
  - intros id. split.
    + intros (row & [(i & w & Hw & Hb & ->)|(i & r & Hr & Hb & ->)]%elem_rows & <-); [left; by exists w|right; by exists r].
    + intros [(w & Hw & Hb)|(r & Hr & Hb)]; eexists; (split; [apply elem_rows|]).
      * left. exists id, w. done.
      * done.
      * right. exists id, r. done.
      * done.
  - intros row [(i & w & Hw & Hb & ->)|(i & r & Hr & Hb & ->)]%elem_rows; cbn [row_timed_out row_state row_node row_evidence row_worker].
    + split; [done|]. intros Ht _. apply negb_false_iff in Ht. by rewrite Ht.
    + split; [|done]. f_equal. unfold rm_terminal. destruct (is_terminal_state_str (rm_state_raw r)) eqn:E.
      * apply terminal_str_spec in E as (st & Hst & Ht). unfold remote_row_state. rewrite Hst. cbn.
        by destruct Ht as [->|[->| ->]].
      * destruct (is_terminal (remote_row_state (rm_state_raw r))) eqn:Et; [|done]. exfalso.
        unfold remote_row_state in Et. destruct (parse_state_tolerant _) as [st|] eqn:Est; [|done]. cbn in Et.
        assert (is_terminal_state_str (rm_state_raw r) = true) as Hc; [|congruence].
        apply terminal_str_spec. exists st. split; [done|]. destruct st; try done; tauto.
Qed.

(** ** A stray approval *)

(** An approval event for a worker that a verdict had blocked, with no turn in
    flight, makes it run: it takes a slot, no prompt is sent, a send will not
    wake it, and once the step timeout has passed the next review fails it. *)
Theorem stray_approval_runs_nothing (V : Type) (cf : Config) (e e' : Env) (ws : Workers) (session id : Z) (w : Worker)
    (br : option bool) (ok : bool) :
  find_worker (fun x => (w_session x.2 =? session) && bool_decide (w_state x.2 = WBlocked)) ws = Some (id, w) ->
  w_turn_inflight w = false ->
  e_now e + cf_step_timeout cf < e_now e' -> 0 <= cf_step_timeout cf ->
  let r := @resume_from_approval V e ws session in
  exists w', r.1.1 !! id = Some w' /\ w_state w' = WRunning /\ w_turn_inflight w' = false /\ holds_slot w' = true /\
    wakeable w' = false /\ (forall s d, EPrompt s d ∉ r.1.2) /\
    review (build_review cf e' w' br ok).1 (build_review cf e' w' br ok).2 = Fail_.
Proof.
  intros Hf Ht Hlate Hpos. unfold resume_from_approval. rewrite Hf. cbn [fst snd]. cbv zeta.
  eexists. split; [apply lookup_insert_eq|]. split_and!; try done.
  - intros s d Hin. by apply list_elem_of_singleton in Hin.
  - apply review_clocks. split; [done|]. unfold elapsed. cbn. lia.
Qed.
