(* ===== verification/WorkerTree.v ===== *)
(** * The worker fabric: the driver's side of the tree

    [agentd/crates/agentd/src/worker.rs], second part: planning the cells of a
    fan, binding them to workers, barriers, mirrored outcomes, closure,
    creation, epochs and the reload.  Trees are kept per mandala; what is
    written to a tree directory is an [ESaveCell] effect.  A slice that would
    panic on a hash shorter than twelve bytes is the refusal [HashTooShort]. *)
From S2P Require Import Prelude Text Confine Policy Protocol Mandala Review Remote Worker.

(** A literal with characters beyond ASCII, and a quotation mark. *)
Definition utf8 (s : string) : text := utf8_lossy (chars s).
Definition quoted (s : text) : text := 34 :: s ++ [34].
Definition nl : text := [10].

(** ** Plans *)

Record CellPlan := mkPlan {
  cp_addr : Addr;
  cp_budget : BudgetVec;
  cp_barrier_timeout_s : option Z;
  cp_measure : option text;
  cp_voucher : bool;
  cp_node : option text;
  cp_prompt : text;
  cp_model : option text
}.

Record CellsCtx := mkCells {
  cc_mandala : Z;
  cc_parent : Addr;
  cc_plans : list CellPlan;
  cc_invariant_hash : text;
  cc_arm_parent_branch : bool;
  cc_arm_gate_branch : bool;
  cc_deadline_cap_s : Z
}.

(** ** Injected blocks *)

Definition worktree_ritual (repo branch : text) : text :=
  nl ++ nl ++ utf8 "CODE CELL — repo: " ++ repo ++ nl ++ chars "Your branch: " ++ branch ++ nl
  ++ chars "FIRST call git_worktree{action:" ++ quoted (chars "add") ++ chars ", path:" ++ quoted repo
  ++ chars ", branch:" ++ quoted branch
  ++ utf8 "} and work ONLY inside the worktree directory it returns. Commit your work on your branch there before reporting done — uncommitted work is invisible to the join.".

Definition gate_note (timeout_s : Z) : text :=
  nl ++ nl ++ chars "You are this subtree's JOIN: a barrier holds you until your descendant cells settle (guard timeout "
  ++ dec_text timeout_s
  ++ utf8 "s). When your turn begins, their addresses, states and evidence paths will be appended to this work order — read the evidence files, integrate, and only then report done.".

Definition measure_ritual (cmd : text) : text :=
  nl ++ nl ++ chars "MEASURE (your lap gate): at the END of every lap run `" ++ cmd
  ++ chars "` through your normal tools and report the resulting non-negative integer with worker_report{status:"
  ++ quoted (chars "continue") ++ utf8 ", measure: N} — or status:" ++ quoted (chars "done")
  ++ utf8 " with the final measure on your last lap. The number must STRICTLY DECREASE every lap; two non-decreasing laps break your ring and escalate with the history attached. When it reaches 0, report done — looping at 0 counts as a stall.".

Definition voucher_block (mandala : Z) (a : Addr) : text :=
  nl ++ nl ++ utf8 "VOUCHER — you may SUB-CONDUCT: grow your OWN subtree with task_fanout{mandala: " ++ dec_text mandala
  ++ chars ", parent_cell: " ++ quoted a
  ++ utf8 " (or one of your descendants), tasks:[…], join?, measure?, voucher?}. Your cell's budget vector is your slice — children contract from it and renewals spend YOUR steps, so fan late and fan narrow. When a batch of your children settles, its report is delivered into your session: read the evidence files, integrate, then continue your own task.".

(** [branches.join(", ")]. *)
Fixpoint comma_join (l : list text) : text :=
  match l with [] => [] | [x] => x | x :: l => x ++ chars ", " ++ comma_join l end.

Definition merge_ritual (repo : text) (branches : list text) : text :=
  nl ++ nl ++ utf8 "MERGE RITUAL — repo: " ++ repo ++ nl ++ chars "Delivered cell branches: "
  ++ match branches with [] => chars "(none delivered)" | _ => comma_join branches end ++ nl
  ++ utf8 "Merge each delivered branch (git_merge), resolve conflicts, run the VERIFY command from the invariant through your normal tools, and commit the merged result before reporting done. Report done with the merged files declared in `artifacts` — the evidence rule reaches the join too.".

Definition mk_prompt (block : text) (a : Addr) (task extra : text) : text :=
  block ++ nl ++ nl ++ chars "CELL " ++ a ++ utf8 " — your task within the mandala:" ++ nl ++ task ++ extra.

(** ** Planning a fan *)

Section plan.
Context {V : Type} `{!JsonArgs V} `{!JsonNums V}.

(** [contract_child], [ring_width] and the ordinals of the parent decide. *)
Definition ring_room (l : Lattice) (tree : Cells) (parent : Addr) : Z * Z * Z :=
  let ring := addr_depth parent in (ring, ring_width l ring, next_child_ordinal tree parent).

(** The composition table, over each planned child, the join, and the
    parent's new form under its own parent. *)
Definition child_refused (gate_planned bare : bool) (parent_post : CellForm) (i : Z) (t : TaskSpecItem) : bool :=
  let is_the_gate := gate_planned && bare && (i =? 0) in
  let form := if is_the_gate then arm_join SPINE else SPINE in
  let form := if is_someb (ti_measure t) then arm_recur form else form in
  let vs := if gate_planned && negb is_the_gate then GATE else parent_post in
  bool_decide (compose vs form = Forbidden).

Fixpoint any_refused (gate_planned bare : bool) (parent_post : CellForm) (i : Z) (ts : list TaskSpecItem) : bool :=
  match ts with
  | [] => false
  | t :: ts => child_refused gate_planned bare parent_post i t || any_refused gate_planned bare parent_post (i + 1) ts
  end.

Definition composition_check (m : MandalaRecord) (tree : Cells) (parent : CellRecord) (parent_addr : Addr)
    (has_join has_barrier : bool) (tasks : list TaskSpecItem) : result unit Refusal :=
  let wide := 1 <? zlen tasks in
  let parent_post := if wide && negb has_join then arm_branch (cell_form parent) else cell_form parent in
  if any_refused (has_join || has_barrier) (negb has_join) parent_post 0 tasks then Err RoverR
  else if has_join && bool_decide (compose parent_post GATE = Forbidden) then Err RoverR
  else
    match (if wide then addr_parent parent_addr ≫= (fun gp => tree !! gp) else None) with
    | Some gp =>
        if bool_decide (compose (cell_form gp) (arm_branch (cell_form parent)) = Conditional)
           && negb (breadth_product_ok tree parent_addr (as_u8 (zlen tasks)) (bv_cells (md_budget m)))
        then Err BreadthProduct else Ok tt
    | None => Ok tt
    end.

(** The extra blocks of a ring cell. *)
Definition ring_extra (repo : option text) (wide : bool) (mid : Z) (a : Addr) (t : TaskSpecItem) : text :=
  (match repo with Some r => if wide then worktree_ritual r (addr_branch a) else [] | None => [] end)
  ++ (match ti_measure t with Some m => measure_ritual m | None => [] end)
  ++ (if ti_voucher t then voucher_block mid a else []).

(** The ring: one plan per task, addresses from [ordinal] on. *)
Fixpoint ring_plans (block : text) (repo : option text) (wide : bool) (mid : Z) (under : Addr) (budget : BudgetVec)
    (ordinal : Z) (ts : list TaskSpecItem) : list CellPlan :=
  match ts with
  | [] => []
  | t :: ts =>
      let a := addr_child under ordinal in
      mkPlan a budget None (ti_measure t) (ti_voucher t) (ti_node t)
        (mk_prompt block a (ti_prompt t) (ring_extra repo wide mid a t)) (ti_model t)
      :: ring_plans block repo wide mid under budget (as_u32 (ordinal + 1)) ts
  end.

Definition veto_first (is_gate repo : bool) (ts : list TaskSpecItem) : option Z :=
  head (omap (fun t => if is_someb (ti_node t)
                       then remote_cell_veto is_gate (is_someb (ti_measure t)) (ti_voucher t) repo else None) ts).

(** The gate of the fan, with its own knobs: model, measure, voucher. *)
Record GatePlan := mkGate { gp_task : text; gp_model : option text; gp_measure : option text; gp_voucher : bool }.

Definition plan_gate (m : MandalaRecord) (tree : Cells) (parent : CellRecord) (parent_addr : Addr)
    (barrier_arg : option Z) (g : GatePlan) (ring_tasks : list TaskSpecItem)
    : result (list CellPlan * bool * Z) Refusal :=
  let '(ring, width, ordinal) := ring_room (md_lattice m) tree parent_addr in
  if (width =? 0) || (width <=? ordinal) then Err (RingFull ring)
  else
    let gate_budget := contract_child (cell_budget parent) in
    if negb (admissible (cell_budget parent) gate_budget (width - ordinal)) then Err (DescentRefused parent_addr)
    else
      let gate_addr := addr_child parent_addr ordinal in
      let timeout := clamp 60 (Z.max (bv_deadline_s gate_budget) 60) (default DEFAULT_BARRIER_TIMEOUT_S barrier_arg) in
      let wide := 1 <? zlen ring_tasks in
      let ring2 := addr_depth gate_addr in
      let width2 := ring_width (md_lattice m) ring2 in
      let ring_budget := contract_child gate_budget in
      if negb (zlen ring_tasks =? 0) && (width2 <? zlen ring_tasks) then Err (RingFull ring2)
      else if negb (zlen ring_tasks =? 0) && negb (admissible gate_budget ring_budget width2)
      then Err (DescentRefused gate_addr)
      else
        match directive_block (md_invariant m) with
        | None => Err HashTooShort
        | Some block =>
            let extra := gate_note timeout
              ++ (match gp_measure g with Some c => measure_ritual c | None => [] end)
              ++ (if gp_voucher g then voucher_block (md_id m) gate_addr else []) in
            Ok (mkPlan gate_addr gate_budget (Some timeout) (gp_measure g) (gp_voucher g) None
                  (mk_prompt block gate_addr (gp_task g) extra) (gp_model g)
                :: ring_plans block (md_repo m) wide (md_id m) gate_addr ring_budget 0 ring_tasks,
                wide, bv_deadline_s gate_budget)
        end.

Definition plan_ring (m : MandalaRecord) (tree : Cells) (parent : CellRecord) (parent_addr : Addr)
    (ring_tasks : list TaskSpecItem) : result (list CellPlan * bool * Z) Refusal :=
  let '(ring, width, ordinal) := ring_room (md_lattice m) tree parent_addr in
  if (width =? 0) || (width <? as_u32 (ordinal + zlen ring_tasks)) then Err (RingFull ring)
  else
    let child_budget := contract_child (cell_budget parent) in
    if negb (admissible (cell_budget parent) child_budget (width - ordinal)) then Err (DescentRefused parent_addr)
    else
      match directive_block (md_invariant m) with
      | None => Err HashTooShort
      | Some block =>
          let wide := 1 <? zlen ring_tasks in
          Ok (ring_plans block (md_repo m) wide (md_id m) parent_addr child_budget ordinal ring_tasks,
              wide, bv_deadline_s child_budget)
      end.

(** The part of [prepare_mandala_cells] past the look-ups. *)
Definition plan_fan (args : V) (m : MandalaRecord) (tree : Cells) (parent : CellRecord) (parent_addr : Addr)
    (join_task : option text) (barrier_arg : option Z) (tasks : list TaskSpecItem) : result CellsCtx Refusal :=
  _ <-! composition_check m tree parent parent_addr (is_someb join_task) (is_someb barrier_arg) tasks;
  let bare_gate := is_noneb join_task && is_someb barrier_arg in
  let ring_tasks := if bare_gate then [] else tasks in
  match (match (if bare_gate then veto_first true (is_someb (md_repo m)) (take 1 tasks) else None) with
         | Some v => Some v
         | None => veto_first false (is_someb (md_repo m)) ring_tasks
         end) with
  | Some v => Err (RemoteVeto v)
  | None =>
      let gate :=
        match join_task, bare_gate, tasks with
        | Some j, _, _ => Some (mkGate j (trimmed 64 (arg_str args (chars "model"))) None false)
        | None, true, t :: _ => Some (mkGate (ti_prompt t) (ti_model t) (ti_measure t) (ti_voucher t))
        | None, _, _ => None
        end in
      let needed := zlen ring_tasks + Z.b2z (is_someb gate) in
      if bv_cells (md_budget m) <? open_cells tree + needed then Err (GeometryFull (open_cells tree) needed)
      else
        match gate with
        | Some g =>
            p <-! plan_gate m tree parent parent_addr barrier_arg g ring_tasks;
            let '(plans, wide, cap) := p in
            Ok (mkCells (md_id m) parent_addr plans (inv_hash (md_invariant m)) false
                  (negb (zlen ring_tasks =? 0) && wide) cap)
        | None =>
            p <-! plan_ring m tree parent parent_addr ring_tasks;
            let '(plans, wide, cap) := p in
            Ok (mkCells (md_id m) parent_addr plans (inv_hash (md_invariant m)) wide false cap)
        end
  end.

(** A trimmed, non-empty string argument. *)
Definition arg_trimmed (args : V) (k : text) : option text :=
  s ← arg_str args k; let s := trim s in if bool_decide (s = []) then None else Some s.

Definition prepare_mandala_cells (mandalas : gmap Z MandalaRecord) (trees : Trees) (session : Z) (args : V)
    (tasks : list TaskSpecItem) (inline : bool) (caller_cell : option Addr) : result (option CellsCtx) Refusal :=
  let join_task := arg_trimmed args (chars "join") in
  let barrier_arg := arg_u64 args (chars "barrier_timeout_s") in
  match arg_u64 args (chars "mandala") with
  | None =>
      if is_someb join_task || is_someb barrier_arg then Err JoinNeedsMandala
      else if existsb (fun t => is_someb (ti_measure t) || ti_voucher t) tasks then Err MeasureNeedsMandala
      else Ok None
  | Some mid =>
      match mandalas !! mid with
      | None => Err (NoMandala mid)
      | Some m =>
          if is_noneb caller_cell && negb (md_conductor m =? session) then Err (NotConductor (md_conductor m))
          else if bool_decide (md_state m = chars "closed") then Err (MandalaClosed mid)
          else if inline && (is_someb join_task || is_someb barrier_arg) then Err InlineJoin
          else if is_someb barrier_arg && is_noneb join_task && negb (zlen tasks =? 1) then Err AmbiguousBarrier
          else
            let tree := default ∅ (trees !! mid) in
            parent_addr <-! match arg_str args (chars "parent_cell") with
                            | None => Ok (default ROOT caller_cell)
                            | Some s => ok_or (addr_parse s) (BadAddress s)
                            end;
            if match caller_cell with Some own => negb (voucher_scope_ok own parent_addr) | None => false end
            then Err (OutOfScope (default [] caller_cell) parent_addr)
            else
              match tree !! parent_addr with
              | None => Err (NoCell parent_addr)
              | Some parent =>
                  ctx <-! plan_fan args m tree parent parent_addr join_task barrier_arg tasks;
                  Ok (Some ctx)
              end
      end
  end.
End plan.

(** ** Cells in the tree *)

Definition plan_form (ctx : CellsCtx) (p : CellPlan) : CellForm :=
  let form :=
    if is_someb (cp_barrier_timeout_s p)
    then (if cc_arm_gate_branch ctx then arm_branch (arm_join SPINE) else arm_join SPINE) else SPINE in
  if is_someb (cp_measure p) then arm_recur form else form.

Definition new_cell (epoch : Z) (ctx : CellsCtx) (p : CellPlan) (wid : Z) : CellRecord :=
  mkCell (cp_addr p) (plan_form ctx p) [] (cp_budget p) (cc_invariant_hash ctx) (Some wid) (chars "open") None None
    epoch (cp_barrier_timeout_s p) false (cp_measure p) [] (cp_voucher p) (cp_node p).

Definition put_cell (trees : Trees) (mid : Z) (c : CellRecord) : gmap Z Cells :=
  <[mid := <[cell_addr c := c]> (default ∅ (trees !! mid))]> trees.

Definition set_form (f : CellForm) (c : CellRecord) : CellRecord :=
  mkCell (cell_addr c) f (cell_task c) (cell_budget c) (cell_invariant_hash c) (cell_worker c) (cell_state c)
    (cell_evidence c) (cell_reparented_to c) (cell_created_epoch c) (cell_barrier_timeout_s c) (cell_barrier_opened c)
    (cell_measure c) (cell_measure_history c) (cell_voucher c) (cell_node c).

Definition set_cell_state (s : text) (ev : option text) (c : CellRecord) : CellRecord :=
  mkCell (cell_addr c) (cell_form c) (cell_task c) (cell_budget c) (cell_invariant_hash c) (cell_worker c) s
    ev (cell_reparented_to c) (cell_created_epoch c) (cell_barrier_timeout_s c) (cell_barrier_opened c)
    (cell_measure c) (cell_measure_history c) (cell_voucher c) (cell_node c).

Definition set_opened (c : CellRecord) : CellRecord :=
  mkCell (cell_addr c) (cell_form c) (cell_task c) (cell_budget c) (cell_invariant_hash c) (cell_worker c)
    (cell_state c) (cell_evidence c) (cell_reparented_to c) (cell_created_epoch c) (cell_barrier_timeout_s c) true
    (cell_measure c) (cell_measure_history c) (cell_voucher c) (cell_node c).

Section tree.
Context {V : Type}.

Definition bind_one (epoch : Z) (ctx : CellsCtx) (s : gmap Z Cells * gmap Z (Z * Addr) * list (Effect V))
    (x : CellPlan * Z) : gmap Z Cells * gmap Z (Z * Addr) * list (Effect V) :=
  let '(trees, index, eff) := s in
  let c := new_cell epoch ctx x.1 x.2 in
  (put_cell trees (cc_mandala ctx) c, <[x.2 := (cc_mandala ctx, cp_addr x.1)]> index,
   eff ++ [ESaveCell (cc_mandala ctx) c]).

Definition bind_cells (epoch : Z) (trees : Trees) (index : CellIndex) (ctx : CellsCtx) (wids : list Z)
    : gmap Z Cells * gmap Z (Z * Addr) * list (Effect V) :=
  let '(trees, index, eff) := foldl (bind_one epoch ctx) (trees, index, []) (zip (cc_plans ctx) wids) in
  match (if cc_arm_parent_branch ctx then tree_cell trees (cc_mandala ctx) (cc_parent ctx) else None) with
  | Some p =>
      if arm_branch (cell_form p) =? cell_form p then (trees, index, eff)
      else
        let '(trees, eff') := update_cell trees (cc_mandala ctx) (cc_parent ctx) (fun c => set_form (arm_branch (cell_form c)) c) in
        (trees, index, eff ++ eff')
  | None => (trees, index, eff)
  end.

(** Mirror the terminal state of one worker into its cell. *)
Definition sync_one (cf : Config) (ws : Workers) (s : gmap Z Cells * list (Effect V)) (x : Z * (Z * Addr))
    : gmap Z Cells * list (Effect V) :=
  let '(trees, eff) := s in
  let '(wid, (mid, a)) := x in
  match ws !! wid with
  | Some w =>
      if negb (is_terminal (w_state w)) then s
      else
        match tree_cell trees mid a with
        | Some c =>
            if bool_decide (cell_state c = state_str (w_state w)) then s
            else
              let '(trees, eff') := update_cell trees mid a
                (set_cell_state (state_str (w_state w)) (Some (evidence_path cf wid))) in
              (trees, eff ++ eff')
        | None => s
        end
  | None => s
  end.

Definition sync_cells (cf : Config) (trees : Trees) (index : CellIndex) (ws : Workers)
    : gmap Z Cells * list (Effect V) :=
  foldl (sync_one cf ws) (trees, []) (map_to_list index).

Definition sync_remote_one (rs : Remotes) (s : gmap Z Cells * list (Effect V)) (x : Z * (Z * Addr))
    : gmap Z Cells * list (Effect V) :=
  let '(trees, eff) := s in
  let '(wid, (mid, a)) := x in
  match rs !! wid with
  | Some r =>
      if negb (rm_terminal r) then s
      else
        match tree_cell trees mid a with
        | Some c =>
            if bool_decide (cell_state c = rm_state_raw r) && bool_decide (cell_evidence c = rm_evidence r) then s
            else
              let '(trees, eff') := update_cell trees mid a (set_cell_state (rm_state_raw r) (rm_evidence r)) in
              (trees, eff ++ eff')
        | None => s
        end
  | None => s
  end.

Definition sync_remote_cells (trees : Trees) (index : CellIndex) (rs : Remotes) : gmap Z Cells * list (Effect V) :=
  foldl (sync_remote_one rs) (trees, []) (map_to_list index).

(** ** Barriers *)

Definition barrier_line (tree : Cells) (a : Addr) : text :=
  match tree !! a with
  | Some c =>
      if is_open_state (cell_state c) then chars "- cell " ++ a ++ utf8 " [OPEN — not delivered]" ++ nl
      else chars "- cell " ++ a ++ chars " [" ++ cell_state c ++ chars "]: "
             ++ default (chars "no evidence file") (cell_evidence c) ++ nl
  | None => []
  end.

Definition cell_delivered (tree : Cells) (a : Addr) : bool :=
  match tree !! a with
  | Some c => negb (is_open_state (cell_state c)) && bool_decide (cell_state c = chars "done")
  | None => false
  end.

Definition barrier_block (tree : Cells) (gate : Addr) (timed_out : bool) (repo : option text) : text :=
  let all := descendants tree gate in
  nl ++ nl ++ chars "BARRIER OPEN ("
  ++ (if timed_out then utf8 "guard timeout — stragglers listed" else chars "subtree settled")
  ++ utf8 ") — your descendant cells:" ++ nl ++ concat (barrier_line tree <$> all)
  ++ chars "Read each evidence file (and the artifacts it declares) before integrating."
  ++ match repo with Some r => merge_ritual r (addr_branch <$> List.filter (cell_delivered tree) all) | None => [] end.

Definition barrier_settled (tree : Cells) (a : Addr) : bool :=
  (zlen (open_descendants tree a) =? 0) && negb (zlen (descendants tree a) =? 0).

Definition barrier_timed_out (epoch : Z) (c : CellRecord) : bool :=
  match cell_barrier_timeout_s c with
  | Some t => sat_add64 (cell_created_epoch c) t <=? epoch
  | None => false
  end.

(** [barrier_signals]: ready, and the milliseconds left of the guard. *)
Definition barrier_signals (epoch : Z) (trees : Trees) (index : CellIndex) (wid : Z) : option bool * option Z :=
  match index !! wid with
  | None => (None, None)
  | Some (mid, a) =>
      match trees !! mid with
      | None => (None, None)
      | Some tree =>
          match tree !! a with
          | None => (None, None)
          | Some c =>
              (Some (barrier_settled tree a || barrier_timed_out epoch c),
               (fun t => sat_sub (sat_add64 (cell_created_epoch c) t) epoch * 1000) <$> cell_barrier_timeout_s c)
          end
      end
  end.

Definition held (w : Worker) : bool := w_barrier_held w && bool_decide (w_state w = WQueued).

Record TreeState := mkTree { ts_workers : gmap Z Worker; ts_trees : gmap Z Cells; ts_eff : list (Effect V); ts_opened : bool }.

Definition check_one (epoch : Z) (index : CellIndex) (mandalas : gmap Z MandalaRecord) (s : TreeState) (wid : Z) : TreeState :=
  match index !! wid, ts_workers s !! wid with
  | Some (mid, a), Some w =>
      match ts_trees s !! mid ≫= (fun tree => c ← tree !! a; Some (tree, c)) with
      | None => s
      | Some (tree, c) =>
          let settled := barrier_settled tree a in
          let late := barrier_timed_out epoch c && negb settled in
          if negb (settled || barrier_timed_out epoch c) then s
          else
            let block := barrier_block tree a late (mandalas !! mid ≫= md_repo) in
            let w := w_set_barrier_held false (w_set_task (w_task w ++ block) w) in
            let '(trees, eff) := update_cell (ts_trees s) mid a set_opened in
            mkTree (<[wid := w]> (ts_workers s)) trees
              (ts_eff s ++ eff ++
               [emit_state wid w (if late then utf8 "barrier open — guard timeout, stragglers listed"
                                  else utf8 "barrier open — subtree settled")]) true
      end
  | _, _ => s
  end.

Definition check_barriers (e : Env) (ws : Workers) (trees : Trees) (index : CellIndex)
    (mandalas : gmap Z MandalaRecord) : TreeState :=
  foldl (check_one (e_epoch e) index mandalas) (mkTree ws trees [] false)
    (filter (fun x => held x.2) (map_to_list ws)).*1.

(** A send that woke a gate records its barrier as open. *)
Definition record_override (trees : Trees) (index : CellIndex) (wid : Z) : gmap Z Cells * list (Effect V) :=
  match index !! wid with
  | Some (mid, a) =>
      match tree_cell trees mid a with
      | Some c => if overridden_gate_open c then update_cell trees mid a set_opened else (trees, [])
      | None => (trees, [])
      end
  | None => (trees, [])
  end.

(** ** Closure *)

Definition mandala_closable (tree : Cells) : bool :=
  forallb (fun x => bool_decide (x.1 = ROOT) || negb (is_open_state (cell_state x.2))) (map_to_list tree).

Definition set_md_state (s : text) (m : MandalaRecord) : MandalaRecord :=
  mkMandala (md_id m) (md_conductor m) (md_lattice m) (md_budget m) (md_invariant m) s (md_repo m)
    (md_created_epoch m) (md_epoch m) (md_last_fingerprint m) (md_last_census m) (md_orbits m)
    (md_orbit_fingerprint m) (md_orbit_council m) (md_orbit_synthesis m).

Definition close_mandala (mandalas : gmap Z MandalaRecord) (trees : Trees) (mid : Z)
    : gmap Z MandalaRecord * gmap Z Cells * list (Effect V) :=
  let mandalas := alter (set_md_state (chars "closed")) mid mandalas in
  match tree_cell trees mid ROOT with
  | Some root =>
      if is_open_state (cell_state root) then
        let '(trees, eff) := update_cell trees mid ROOT (fun c => set_cell_state (chars "done") (cell_evidence c) c) in
        (mandalas, trees, eff)
      else (mandalas, trees, [])
  | None => (mandalas, trees, [])
  end.

Definition closable_for (trees : Trees) (conductor : Z) (m : MandalaRecord) : bool :=
  (md_conductor m =? conductor) && negb (bool_decide (md_state m = chars "closed"))
  && match trees !! md_id m with Some t => mandala_closable t | None => true end.

Definition try_close_for_conductor (mandalas : gmap Z MandalaRecord) (trees : Trees) (conductor : Z)
    : gmap Z MandalaRecord * gmap Z Cells * list (Effect V) * bool :=
  let ids := md_id <$> List.filter (closable_for trees conductor) (map_to_list mandalas).*2 in
  (foldl (fun s mid => let '(ms, ts, eff) := s in
            let '(ms, ts, eff') := close_mandala ms ts mid in (ms, ts, eff ++ eff'))
     (mandalas, trees, []) ids,
   negb (zlen ids =? 0)).

Definition open_non_root (tree : Cells) : list Addr :=
  (filter (fun x => negb (bool_decide (x.1 = ROOT)) && is_open_state (cell_state x.2)) (map_to_list tree)).*1.

Section requests.
Context `{!JsonArgs V} `{!JsonNums V}.

Definition close_mandala_request (mandalas : gmap Z MandalaRecord) (trees : Trees) (session call : Z) (args : V)
    : gmap Z MandalaRecord * gmap Z Cells * list (Effect V) * bool :=
  let refuse r := (mandalas, trees, [EReply session call (Refused r)], false) in
  if is_worker_session session then refuse WorkerCannotClose
  else
    match arg_u64 args (chars "mandala") with
    | None => refuse MandalaRequired
    | Some mid =>
        match mandalas !! mid with
        | None => refuse (NoMandala mid)
        | Some m =>
            if bool_decide (md_state m = chars "closed")
            then (mandalas, trees, [EReply session call (MandalaIsClosed mid true)], false)
            else
              let open := match trees !! mid with Some t => open_non_root t | None => [] end in
              if negb (zlen open =? 0) then refuse (CellsOpen (zlen open))
              else
                let '(ms, ts, eff) := close_mandala mandalas trees mid in
                (ms, ts, eff ++ [EReply session call (MandalaIsClosed mid false)], true)
        end
    end.

(** [args[k].as_u64().map(|n| (n as uN).clamp(lo, hi)).unwrap_or(d)]. *)
Definition clamped_arg (args : V) (k : text) (cast : Z -> Z) (lo hi d : Z) : Z :=
  match arg_u64 args k with Some n => clamp lo hi (cast n) | None => d end.

Definition mandala_budget (args : V) : BudgetVec :=
  mkBudget (clamped_arg args (chars "depth") as_u8 1 DEPTH_CEIL DEPTH_CEIL) CELLS_CEIL
    (clamped_arg args (chars "steps") as_u16 1 512 32)
    (clamped_arg args (chars "deadline_s") id 300 604800 86400).

Definition root_cell (epoch : Z) (objective hash : text) (budget : BudgetVec) : CellRecord :=
  mkCell ROOT SPINE objective budget hash None (chars "open") None None epoch None false None [] false None.

Definition create_mandala `{!FsOps} `{!Sha256} (cf : Config) (e : Env) (mandalas : gmap Z MandalaRecord) (trees : Trees)
    (next_id session call : Z) (args : V) : gmap Z MandalaRecord * gmap Z Cells * Z * list (Effect V) :=
  let refuse r := (mandalas, trees, next_id, [EReply session call (Refused r)]) in
  match arg_trimmed args (chars "objective"), arg_trimmed args (chars "done_when"), arg_trimmed args (chars "verify") with
  | Some objective, Some done_when, Some verify =>
      if is_worker_session session then refuse WorkerCannotOpen
      else
        match match arg_str args (chars "lattice") with None => Some LSpine | Some s => lattice_parse s end with
        | None => refuse UnknownLattice
        | Some lattice =>
            match match arg_trimmed args (chars "repo") with
                  | None => Ok None
                  | Some r => match confine_request (cf_workspace cf) r with
                              | Ok canon => Ok (Some (path_text canon)) | Err _ => Err BadRepo end
                  end with
            | Err r => refuse r
            | Ok repo =>
                let budget := mandala_budget args in
                let invariant := Invariant_new objective done_when verify in
                let root := root_cell (e_epoch e) objective (inv_hash invariant) budget in
                let m := mkMandala next_id session lattice budget invariant (chars "open") repo (e_epoch e) 0 None ∅ 0
                           None None None in
                (<[next_id := m]> mandalas, put_cell trees next_id root, as_u64 (next_id + 1),
                 [ESaveCell next_id root; EReply session call (MandalaOpened next_id)])
            end
        end
  | _, _, _ => refuse InvariantRequired
  end.
End requests.

(** ** Epochs *)

Definition roll_record (m : MandalaRecord) (census : gmap text Z) (fp : text) (orbit : bool) (council : text) : MandalaRecord :=
  mkMandala (md_id m) (md_conductor m) (md_lattice m) (md_budget m) (md_invariant m) (md_state m) (md_repo m)
    (md_created_epoch m) (as_u64 (md_epoch m + 1)) (Some fp) census
    (if orbit then as_u64 (md_orbits m + 1) else md_orbits m)
    (if orbit then Some fp else md_orbit_fingerprint m)
    (if orbit then Some council else md_orbit_council m)
    (if orbit then None else md_orbit_synthesis m).

(** The live wire states of the open remote-bodied cells. *)
Definition remote_states (rs : Remotes) (tree : Cells) : gmap text text :=
  list_to_map (omap (fun c => if is_someb (cell_node c) && is_open_state (cell_state c)
                              then (fun r => (cell_addr c, rm_state_raw r)) <$> (cell_worker c ≫= (fun w => rs !! w))
                              else None) (cell_values tree)).

Record EpochState := mkEpochs {
  es_mandalas : gmap Z MandalaRecord;
  es_censuses : gmap Z (gmap text Z);
  es_next : gmap Z Z;
  es_eff : list (Effect V);
  es_dirty : bool
}.

(** [read_file]: what an evidence file holds. *)
Definition roll_one `{!Sha256} (e : Env) (read_file : text -> option bytes) (trees : Trees) (rs : Remotes)
    (s : EpochState) (mid : Z) : EpochState :=
  match es_next s !! mid with
  | None => mkEpochs (es_mandalas s) (es_censuses s) (<[mid := e_now e + e_golden e mid EPOCH_PERIOD]> (es_next s))
              (es_eff s) (es_dirty s)
  | Some t =>
      if e_now e <? t then s
      else
        let next := <[mid := e_now e + EPOCH_PERIOD]> (es_next s) in
        let tree := default ∅ (trees !! mid) in
        match es_mandalas s !! mid with
        | None => s
        | Some m =>
            if open_cells tree =? 0 then mkEpochs (es_mandalas s) (es_censuses s) next (es_eff s) (es_dirty s)
            else
              let census := default ∅ (es_censuses s !! mid) in
              let digests := hex_digest <$> omap read_file (omap cell_evidence (cell_values tree)) in
              let fp := epoch_fingerprint (inv_hash (md_invariant m)) digests census (remote_states rs tree) in
              let orbit := is_orbit (md_last_fingerprint m) fp (open_cells tree)
                           && negb (bool_decide (md_orbit_fingerprint m = Some fp)) in
              let council := chars "mnd" ++ dec_text mid ++ 101 :: dec_text (as_u64 (md_epoch m + 1)) in
              mkEpochs (<[mid := roll_record m census fp orbit council]> (es_mandalas s)) (delete mid (es_censuses s))
                next
                (es_eff s ++ EReading mid (as_u64 (md_epoch m + 1)) fp orbit :: (if orbit then [EConvene council] else []))
                true
        end
  end.

Definition roll_due_epochs `{!Sha256} (e : Env) (read_file : text -> option bytes) (mandalas : gmap Z MandalaRecord)
    (trees : Trees) (rs : Remotes) (censuses : gmap Z (gmap text Z)) (next_epoch : gmap Z Z) : EpochState :=
  foldl (roll_one e read_file trees rs) (mkEpochs mandalas censuses next_epoch [] false) (map_to_list mandalas).*1.

(** The synthesis of an orbit council, banked on the mandala it names. *)
Definition council_mandala (council_id : text) : option Z :=
  head (split_on 101 (drop 3 council_id)) ≫= parse_u64.

Definition bank_synthesis (mandalas : gmap Z MandalaRecord) (council_id synthesis : text)
    : gmap Z MandalaRecord * bool :=
  if negb (starts_with (chars "mnd") council_id) then (mandalas, false)
  else
    match council_mandala council_id with
    | None => (mandalas, false)
    | Some mid =>
        match mandalas !! mid with
        | Some m =>
            if bool_decide (md_orbit_council m = Some council_id)
            then (<[mid := mkMandala (md_id m) (md_conductor m) (md_lattice m) (md_budget m) (md_invariant m) (md_state m)
                     (md_repo m) (md_created_epoch m) (md_epoch m) (md_last_fingerprint m) (md_last_census m)
                     (md_orbits m) (md_orbit_fingerprint m) (md_orbit_council m) (Some (take 300 synthesis))]> mandalas, true)
            else (mandalas, false)
        | None => (mandalas, false)
        end
    end.

(** ** Reload *)

(** One mandala's tree: healed cells are saved again, bound workers indexed. *)
Definition reload_tree `{!TreeJson} (dirs : gmap Z Dir) (s : gmap Z Cells * gmap Z (Z * Addr) * Z * list (Effect V)) (id : Z)
    : gmap Z Cells * gmap Z (Z * Addr) * Z * list (Effect V) :=
  let '(trees, index, next, eff) := s in
  let tree := load_tree (dirs !! id) in
  (<[id := tree]> trees,
   foldl (fun ix c => match cell_worker c with Some w => <[w := (id, cell_addr c)]> ix | None => ix end) index
     (cell_values tree),
   Z.max next (as_u64 (id + 1)),
   eff ++ concat ((fun c => if is_someb (cell_reparented_to c) then [ESaveCell id c] else []) <$> cell_values tree)).

Definition reload_mandalas `{!TreeJson} (file : option text) (dirs : gmap Z Dir) (index : CellIndex) (next : Z)
    : gmap Z MandalaRecord * (gmap Z Cells * gmap Z (Z * Addr) * Z * list (Effect V)) :=
  let mandalas := load_mandalas file in
  (mandalas, foldl (reload_tree dirs) (∅, index, next, []) (map_to_list mandalas).*1).
End tree.

