(* ===== verification/WorkerFan.v ===== *)
(** * The worker fabric: what the tree promises

    Theorems about [WorkerTree.v]: a planned fan fits the tree, the geometry
    budget holds for ever, barriers open when they may, terminal workers close
    their cells, closure waits for every cell, and one stillness convenes one
    council. *)
From S2P Require Import Prelude Text Confine Policy Protocol Mandala Review Remote Worker WorkerLife WorkerTree.

(** ** A planned fan *)

(** The addresses of a ring. *)
Definition ring_addrs (under : Addr) (ordinal : Z) (n : nat) : list Addr :=
  addr_child under <$> seqZ ordinal (Z.of_nat n).

(** A budget one step down the descent. *)
Definition descends (parent child : BudgetVec) : Prop :=
  child = contract_child parent /\ bv_depth child < bv_depth parent /\ 0 < bv_depth child /\
  0 < bv_steps child <= bv_steps parent.

(** What a plan promises the tree it was made for. *)
Record fan_ok (tree : Cells) (parent_addr : Addr) (parent : CellRecord) (plans : list CellPlan) : Prop := mkFanOk {
  fan_nodup : NoDup (cp_addr <$> plans);
  fan_fresh p : p ∈ plans -> tree !! cp_addr p = None /\ valid_addr (cp_addr p) /\
    is_ancestor_of parent_addr (cp_addr p) = true;
  fan_descends p : p ∈ plans ->
    (addr_parent (cp_addr p) = Some parent_addr /\ descends (cell_budget parent) (cp_budget p)) \/
    exists g, g ∈ plans /\ addr_parent (cp_addr p) = Some (cp_addr g) /\ descends (cp_budget g) (cp_budget p)
}.

Lemma admissible_descends p c r : c = contract_child p -> admissible p c r = true -> descends p c.
Proof. intros Hc (? & ? & ? & ? & ?)%admissible_spec. unfold descends. split_and!; [done|lia..]. Qed.

Lemma addr_child_inj a n n' : 0 <= n <= 9 -> 0 <= n' <= 9 -> addr_child a n = addr_child a n' -> n = n'.
Proof.
  intros Hn Hn' E. unfold addr_child in E. apply app_inv_head in E.
  rewrite !dec_text_digit in E by done. injection E. lia.
Qed.

Lemma addr_child_ancestor a n : is_ancestor_of a (addr_child a n) = true.
Proof. apply is_ancestor_spec. by eexists. Qed.

Lemma ring_plans_spec block repo wide mid under budget ts ord :
  0 <= ord -> ord + zlen ts <= 9 ->
  (cp_addr <$> ring_plans block repo wide mid under budget ord ts) = ring_addrs under ord (length ts) /\
  (forall p, p ∈ ring_plans block repo wide mid under budget ord ts -> cp_budget p = budget) /\
  zlen (ring_plans block repo wide mid under budget ord ts) = zlen ts.
Proof.
  unfold ring_addrs. revert ord. induction ts as [|t ts IH]; intros ord Hord Hle; cbn [ring_plans length].
  - split_and!; [done| |done]. by intros p ?%not_elem_of_nil.
  - rewrite zlen_cons in Hle. pose proof (zlen_nonneg ts).
    unfold as_u32. rewrite Z.mod_small by lia. destruct (IH (ord + 1)) as (Ha & Hb & Hl); [lia..|].
    rewrite seqZ_cons by lia. cbn [fmap list_fmap cp_addr].
    rewrite Ha. replace (Z.pred (Z.of_nat (S (length ts)))) with (Z.of_nat (length ts)) by lia.
    replace (Z.succ ord) with (ord + 1) by lia. rewrite !zlen_cons, Hl. split_and!; [done| |done].
    intros p [->|Hp]%elem_of_cons; [done|]. by apply Hb.
Qed.

Lemma ring_addrs_nodup under ord n : 0 <= ord -> ord + Z.of_nat n <= 9 -> NoDup (ring_addrs under ord n).
Proof.
  intros Ho Hn. unfold ring_addrs. apply NoDup_fmap_2_strong; [|apply NoDup_seqZ].
  intros x y Hx%elem_of_seqZ Hy%elem_of_seqZ. apply addr_child_inj; lia.
Qed.

Lemma elem_ring_addrs under ord n a : a ∈ ring_addrs under ord n <-> exists i, a = addr_child under i /\ ord <= i < ord + Z.of_nat n.
Proof.
  unfold ring_addrs. rewrite list_elem_of_fmap. split.
  - intros (i & -> & Hi%elem_of_seqZ). by exists i.
  - intros (i & -> & Hi). exists i. split; [done|]. by apply elem_of_seqZ.
Qed.

Section fan.
Context {V : Type} `{!JsonArgs V} `{!JsonNums V}.

Lemma plan_ring_ok (m : MandalaRecord) (tree : Cells) (parent : CellRecord) (pa : Addr) (ts : list TaskSpecItem)
    plans wide cap :
  wf_cells tree -> tree !! pa = Some parent -> zlen ts <= MAX_BATCH_TASKS ->
  plan_ring m tree parent pa ts = Ok (plans, wide, cap) ->
  fan_ok tree pa parent plans /\ zlen plans = zlen ts.
Proof.
  intros Hwf Hpa Hts. unfold plan_ring, ring_room. destruct (Hwf _ _ Hpa) as [_ Hv].
  pose proof (next_child_ordinal_bound tree pa Hwf Hv) as Hb. pose proof (zlen_nonneg ts).
  set (ord := next_child_ordinal tree pa) in *. set (width := ring_width (md_lattice m) (addr_depth pa)).
  destruct ((width =? 0) || _) eqn:Ew; [done|]. apply orb_false_iff in Ew as [Ew0 Ew].
  unfold MAX_BATCH_TASKS in Hts. unfold as_u32 in Ew. rewrite Z.mod_small in Ew by lia.
  destruct (ring_width_pos (md_lattice m) (addr_depth pa)) as [Hd Hw].
  { fold width. pose proof (lattice_fits (md_lattice m) 0 (addr_depth pa)) as [_ ?]. fold width in H0. lia. }
  fold width in Hw.
  destruct (negb (admissible _ _ _)) eqn:Ea; [done|]. apply negb_false_iff in Ea.
  destruct (directive_block _) as [block|]; [|done]. intros [= <- <- <-].
  destruct (ring_plans_spec block (md_repo m) (1 <? zlen ts) (md_id m) pa (contract_child (cell_budget parent)) ts ord)
    as (Haddr & Hbud & Hlen); [lia..|].
  split.
  - assert (forall p, p ∈ ring_plans block (md_repo m) (1 <? zlen ts) (md_id m) pa (contract_child (cell_budget parent)) ord ts ->
              exists i, cp_addr p = addr_child pa i /\ ord <= i <= 8) as Hin.
    { intros p Hp. apply (list_elem_of_fmap_2 cp_addr) in Hp. rewrite Haddr in Hp.
      apply elem_ring_addrs in Hp as (i & -> & Hi). exists i. split; [done|]. unfold zlen in *. lia. }
    split.
    + rewrite Haddr. apply ring_addrs_nodup; unfold zlen in *; lia.
    + intros p Hp. destruct (Hin p Hp) as (i & -> & Hi). destruct (valid_addr_child pa i Hv) as [Hvc _]; [lia..|].
      split_and!; [|done|apply addr_child_ancestor].
      destruct (tree !! addr_child pa i) as [c|] eqn:Ec; [|done].
      destruct (child_fresh_from tree pa (addr_child pa i) i Hwf Hv) as [? _]; [by rewrite Ec|fold ord; ulia|done].
    + intros p Hp. left. destruct (Hin p Hp) as (i & -> & Hi). rewrite (Hbud p Hp).
      split; [apply addr_child_parent; ulia|]. by eapply admissible_descends.
  - done.
Qed.

Lemma plan_gate_ok (m : MandalaRecord) (tree : Cells) (parent : CellRecord) (pa : Addr) barrier g (ts : list TaskSpecItem)
    plans wide cap :
  wf_cells tree -> tree !! pa = Some parent ->
  plan_gate m tree parent pa barrier g ts = Ok (plans, wide, cap) ->
  fan_ok tree pa parent plans /\ zlen plans = zlen ts + 1.
Proof.
  intros Hwf Hpa. unfold plan_gate, ring_room. destruct (Hwf _ _ Hpa) as [_ Hv].
  pose proof (next_child_ordinal_bound tree pa Hwf Hv) as Hb. pose proof (zlen_nonneg ts).
  set (ord := next_child_ordinal tree pa) in *. set (width := ring_width (md_lattice m) (addr_depth pa)).
  destruct ((width =? 0) || _) eqn:Ew; [done|]. apply orb_false_iff in Ew as [Ew0 Ew].
  destruct (ring_width_pos (md_lattice m) (addr_depth pa)) as [Hd Hw]; [fold width; lia|]. fold width in Hw.
  destruct (negb (admissible _ _ _)) eqn:Ea; [done|]. apply negb_false_iff in Ea.
  set (ga := addr_child pa ord). destruct (valid_addr_child pa ord Hv) as [Hvg Hdg]; [lia..|]. fold ga in Hvg, Hdg.
  destruct (negb (zlen ts =? 0) && _) eqn:Ew2; [done|].
  destruct (negb (zlen ts =? 0) && negb _) eqn:Ea2; [done|].
  destruct (directive_block _) as [block|]; [|done]. intros [= <- <- <-].
  assert (zlen ts <= 9 /\ (0 < zlen ts -> addr_depth ga < 6)) as [Hts Hdep].
  { destruct (Z.eqb_spec (zlen ts) 0) as [->|Hz]; cbn [negb andb] in Ew2; [lia|].
    destruct (ring_width_pos (md_lattice m) (addr_depth ga)); lia. }
  set (gb := contract_child (cell_budget parent)) in *.
  destruct (ring_plans_spec block (md_repo m) (1 <? zlen ts) (md_id m) ga (contract_child gb) ts 0)
    as (Haddr & Hbud & Hlen); [lia..|].
  set (rp := ring_plans _ _ _ _ _ _ _ _) in *.
  assert (forall p, p ∈ rp -> exists i, cp_addr p = addr_child ga i /\ 0 <= i <= 8 /\ 0 < zlen ts) as Hin.
  { intros p Hp. apply (list_elem_of_fmap_2 cp_addr) in Hp. rewrite Haddr in Hp.
    apply elem_ring_addrs in Hp as (i & -> & Hi). exists i. split; [done|]. unfold zlen in *. lia. }
  assert (tree !! ga = None /\ forall i, tree !! addr_child ga i = None) as [Hfg Hfr].
  { assert (forall k, is_Some (tree !! k) -> ga <> k /\ is_ancestor_of ga k = false) as Hf.
    { intros k Hk. apply (child_fresh_from tree pa k ord Hwf Hv Hk). fold ord. ulia. }
    split; [destruct (tree !! ga) eqn:E; [|done]; by destruct (Hf ga) as [? _]; [rewrite E|]|].
    intros i. destruct (tree !! addr_child ga i) eqn:E; [|done].
    destruct (Hf (addr_child ga i)) as [_ Ha']; [by rewrite E|]. by rewrite addr_child_ancestor in Ha'. }
  split.
  - split.
    + cbn [fmap list_fmap cp_addr]. rewrite Haddr. apply NoDup_cons. split; [|apply ring_addrs_nodup; unfold zlen in *; lia].
      intros (i & E & _)%elem_ring_addrs. pose proof (is_ancestor_length ga (addr_child ga i) (addr_child_ancestor ga i)).
      rewrite <- E in H0. lia.
    + intros p [->|Hp]%elem_of_cons; cbn [cp_addr].
      * split_and!; [done|done|apply addr_child_ancestor].
      * destruct (Hin p Hp) as (i & -> & Hi & Hz). destruct (valid_addr_child ga i Hvg) as [Hvc _]; [specialize (Hdep Hz); lia|lia|].
        split_and!; [done|done|]. eapply is_ancestor_trans; apply addr_child_ancestor.
    + intros p [->|Hp]%elem_of_cons; cbn [cp_addr cp_budget].
      * left. split; [apply addr_child_parent; ulia|]. by eapply admissible_descends.
      * right. eexists. split; [left|]. cbn [cp_addr cp_budget]. destruct (Hin p Hp) as (i & -> & Hi & Hz). rewrite (Hbud p Hp).
        split; [apply addr_child_parent; ulia|].
        destruct (Z.eqb_spec (zlen ts) 0); [lia|]. cbn [negb andb] in Ea2. apply negb_false_iff in Ea2.
        by eapply admissible_descends.
  - rewrite zlen_cons. lia.
Qed.
End fan.

(** ** Trees and what operations do to them *)

Definition tree_at (trees : Trees) (mid : Z) : Cells := default ∅ (trees !! mid).

Definition is_open (c : CellRecord) : bool := is_open_state (cell_state c).

(** An update that neither moves a cell nor opens it again. *)
Definition calm (c c' : CellRecord) : Prop :=
  cell_addr c' = cell_addr c /\ (is_open c' = true -> is_open c = true).

(** The same cells, each changed calmly. *)
Definition cells_evolve (t t' : Cells) : Prop :=
  forall a, match t !! a, t' !! a with Some c, Some c' => calm c c' | None, None => True | _, _ => False end.
Definition trees_evolve (trees trees' : Trees) : Prop := forall mid, cells_evolve (tree_at trees mid) (tree_at trees' mid).

(** Every tree is well formed and within its geometry budget. *)
Definition trees_ok (mandalas : gmap Z MandalaRecord) (trees : Trees) : Prop :=
  forall mid, wf_cells (tree_at trees mid) /\
    forall m, mandalas !! mid = Some m -> open_cells (tree_at trees mid) <= bv_cells (md_budget m).

Lemma open_cells_count (t : Cells) : open_cells t = count_map (fun e => is_open e.2) t.
Proof.
  unfold open_cells, cell_values, count_map. induction (map_to_list t) as [|x l IH]; [done|].
  cbn [fmap list_fmap]. rewrite !zlen_filter_cons, IH. done.
Qed.

Lemma calm_refl c : calm c c.
Proof. done. Qed.

Lemma cells_evolve_refl t : cells_evolve t t.
Proof. intros a. by destruct (t !! a). Qed.

Lemma cells_evolve_trans t t' t'' : cells_evolve t t' -> cells_evolve t' t'' -> cells_evolve t t''.
Proof.
  intros H1 H2 a. specialize (H1 a). specialize (H2 a).
  destruct (t !! a), (t' !! a), (t'' !! a); try done. destruct H1, H2. split; [congruence|auto].
Qed.

#[export] Instance trees_evolve_preorder : PreOrder trees_evolve.
Proof.
  split; [intros t mid; apply cells_evolve_refl|].
  intros t t' t'' H H' mid. by eapply cells_evolve_trans.
Qed.

Lemma cells_evolve_wf t t' : cells_evolve t t' -> wf_cells t -> wf_cells t'.
Proof.
  intros He Hwf k c' Hk. specialize (He k). rewrite Hk in He. destruct (t !! k) as [c|] eqn:E; [|done].
  destruct (Hwf _ _ E), He. split; congruence.
Qed.

Lemma cells_evolve_open t t' : cells_evolve t t' -> open_cells t' <= open_cells t.
Proof.
  intros He. rewrite !open_cells_count. apply count_map_mono. intros a c' Ha Hc'. specialize (He a).
  rewrite Ha in He. destruct (t !! a) as [c|]; [|done]. exists c. split; [done|]. by apply He.
Qed.

Lemma trees_evolve_ok mandalas trees trees' : trees_evolve trees trees' -> trees_ok mandalas trees -> trees_ok mandalas trees'.
Proof.
  intros He Hok mid. destruct (Hok mid) as [Hwf Ho]. split; [by eapply cells_evolve_wf|].
  intros m Hm. specialize (Ho m Hm). pose proof (cells_evolve_open _ _ (He mid)). lia.
Qed.

Lemma tree_cell_at trees mid a : tree_cell trees mid a = tree_at trees mid !! a.
Proof. unfold tree_cell, tree_at. destruct (trees !! mid); [done|]. cbn. by rewrite lookup_empty. Qed.

Lemma update_cell_at {V : Type} trees mid a f mid' :
  tree_at (@update_cell V trees mid a f).1 mid' =
  if decide (mid' = mid) then alter f a (tree_at trees mid) else tree_at trees mid'.
Proof.
  unfold update_cell. rewrite tree_cell_at. destruct (tree_at trees mid !! a) as [c|] eqn:E; cbn [fst].
  - unfold tree_at at 1. case_decide; subst.
    + rewrite lookup_insert_eq. cbn [default from_option id]. fold (tree_at trees mid).
      apply map_eq. intros k. destruct (decide (k = a)) as [->|].
      * by rewrite lookup_insert_eq, lookup_alter_eq, E.
      * by rewrite lookup_insert_ne, lookup_alter_ne.
    + by rewrite lookup_insert_ne.
  - case_decide; subst; [|done]. by rewrite alter_id by congruence.
Qed.

Lemma update_cell_evolve {V : Type} trees mid a f :
  (forall c, tree_cell trees mid a = Some c -> calm c (f c)) -> trees_evolve trees (@update_cell V trees mid a f).1.
Proof.
  intros Hf mid'. rewrite update_cell_at. case_decide as Hm; [subst|apply cells_evolve_refl].
  intros k. destruct (decide (k = a)) as [->|].
  - rewrite lookup_alter_eq. specialize (Hf). rewrite tree_cell_at in Hf.
    destruct (tree_at trees mid !! a); [by apply Hf|done].
  - rewrite lookup_alter_ne by done. by destruct (tree_at trees mid !! k).
Qed.

(** A step of a fold over a list evolves the trees when each item does. *)
Lemma foldl_evolve {S X : Type} (trees : S -> Trees) (f : S -> X -> S) (l : list X) (s : S) :
  (forall s x, trees_evolve (trees s) (trees (f s x))) -> trees_evolve (trees s) (trees (foldl f s l)).
Proof. intros Hf. revert s. induction l as [|x l IH]; intros s; [done|]. cbn [foldl]. by etrans; [apply Hf|]. Qed.

(** ** Binding *)

Definition plant (epoch : Z) (ctx : CellsCtx) (t : Cells) (x : CellPlan * Z) : Cells :=
  <[cp_addr x.1 := new_cell epoch ctx x.1 x.2]> t.

Lemma bind_fold {V : Type} epoch ctx l trees index eff :
  let r := foldl (@bind_one V epoch ctx) (trees, index, eff) l in
  (forall mid, tree_at r.1.1 mid = if decide (mid = cc_mandala ctx) then foldl (plant epoch ctx) (tree_at trees mid) l
                                   else tree_at trees mid) /\
  r.1.2 = foldl (fun ix x => <[x.2 := (cc_mandala ctx, cp_addr x.1)]> ix) index l.
Proof.
  revert trees index eff. induction l as [|x l IH]; intros trees index eff; cbn [foldl fst snd].
  - split; [|done]. intros mid. by case_decide.
  - unfold bind_one at 2 4. cbn [fst snd].
    destruct (IH (put_cell trees (cc_mandala ctx) (new_cell epoch ctx x.1 x.2))
                (<[x.2 := (cc_mandala ctx, cp_addr x.1)]> index)
                (eff ++ [ESaveCell (cc_mandala ctx) (new_cell epoch ctx x.1 x.2)])) as [H1 H2].
    split; [|exact H2]. intros mid. rewrite H1. unfold put_cell. case_decide as Hm.
    + subst mid. unfold tree_at at 1. rewrite lookup_insert_eq. done.
    + unfold tree_at at 1. by rewrite lookup_insert_ne.
Qed.

Lemma plant_wf epoch ctx l t :
  wf_cells t -> (forall x, x ∈ l -> valid_addr (cp_addr x.1)) -> wf_cells (foldl (plant epoch ctx) t l).
Proof.
  revert t. induction l as [|x l IH]; intros t Hwf Hv; [done|]. cbn [foldl]. apply IH; [|intros y Hy; apply Hv; by right].
  intros k c. unfold plant. intros [[<- <-]|[Hne Hk]]%lookup_insert_Some; [|by apply Hwf].
  split; [done|]. apply Hv. by left.
Qed.

Lemma plant_lookup epoch ctx l t a :
  NoDup (cp_addr ∘ fst <$> l) ->
  foldl (plant epoch ctx) t l !! a =
  match list_find (fun x => cp_addr x.1 = a) l with
  | Some (_, x) => Some (new_cell epoch ctx x.1 x.2)
  | None => t !! a
  end.
Proof.
  revert t. induction l as [|x l IH]; intros t Hnd; [done|]. apply NoDup_cons in Hnd as [Hx Hnd].
  cbn [foldl list_find]. rewrite IH by done. case_decide as Ha.
  - destruct (list_find _ l) as [[i y]|] eqn:E.
    + apply list_find_Some in E as (Hy & Hya & _). exfalso. apply Hx. apply list_elem_of_fmap.
      exists y. split; [cbn; congruence|by eapply list_elem_of_lookup_2].
    + cbn. unfold plant. rewrite <- Ha. apply lookup_insert_eq.
  - destruct (list_find _ l) as [[i y]|]; [done|]. cbn. unfold plant. by apply lookup_insert_ne.
Qed.

Lemma plant_open epoch ctx l t : open_cells (foldl (plant epoch ctx) t l) <= open_cells t + zlen l.
Proof.
  revert t. induction l as [|x l IH]; intros t; cbn [foldl]; [rewrite zlen_nil; lia|].
  rewrite zlen_cons. specialize (IH (plant epoch ctx t x)).
  assert (open_cells (plant epoch ctx t x) <= open_cells t + 1); [|lia].
  unfold plant. rewrite !open_cells_count. destruct (t !! cp_addr x.1) as [c|] eqn:E.
  - rewrite (count_map_insert _ _ _ _ _ E). repeat (destruct (is_open _)); cbn [Z.b2z]; lia.
  - rewrite count_map_insert_fresh by done. destruct (is_open _); cbn [Z.b2z]; lia.
Qed.

Section geometry.
Context {V : Type} `{!JsonArgs V} `{!JsonNums V}.

Lemma parse_items_length i bm bn items ts : parse_items i bm bn items = Ok ts -> zlen ts = zlen items.
Proof.
  revert i ts. induction items as [|x items IH]; intros i ts; cbn [parse_items]; [by intros [= <-]|].
  destruct (parse_task bm bn x); [|done]. destruct (parse_items _ _ _ _) as [ts'|] eqn:E; [|done].
  intros [= <-]. rewrite !zlen_cons. by erewrite IH.
Qed.

Lemma parse_tasks_length args ts : parse_tasks args = Ok ts -> 1 <= zlen ts <= MAX_BATCH_TASKS.
Proof.
  unfold parse_tasks. destruct (arg_array _ _) as [items|]; [|done].
  destruct (Z.eqb_spec (zlen items) 0); [done|]. destruct (Z.ltb_spec MAX_BATCH_TASKS (zlen items)); [done|].
  intros ->%parse_items_length. pose proof (zlen_nonneg items). lia.
Qed.

Lemma plan_fan_ok args m tree parent pa join barrier tasks ctx :
  wf_cells tree -> tree !! pa = Some parent -> zlen tasks <= MAX_BATCH_TASKS ->
  plan_fan args m tree parent pa join barrier tasks = Ok ctx ->
  fan_ok tree pa parent (cc_plans ctx) /\ cc_mandala ctx = md_id m /\ cc_parent ctx = pa /\
  open_cells tree + zlen (cc_plans ctx) <= bv_cells (md_budget m) /\ zlen (cc_plans ctx) <= MAX_BATCH_TASKS + 1.
Proof.
  intros Hwf Hpa Hts. unfold plan_fan.
  destruct (composition_check _ _ _ _ _ _ _); [|done]. cbn [rbind].
  destruct (match _ with Some v => Some v | None => _ end); [done|].
  set (ring := if is_noneb join && is_someb barrier then [] else tasks).
  assert (zlen ring <= MAX_BATCH_TASKS) as Hring.
  { unfold ring. destruct (_ && _); [rewrite zlen_nil; unfold MAX_BATCH_TASKS; lia|done]. }
  set (gate := match join with Some j => _ | None => _ end).
  destruct (Z.ltb_spec (bv_cells (md_budget m)) (open_cells tree + (zlen ring + Z.b2z (is_someb gate)))) as [|Hgeo]; [done|].
  destruct gate as [g|].
  - destruct (plan_gate _ _ _ _ _ _ _) as [[[plans wide] cap]|] eqn:E; [|done]. intros [= <-].
    apply plan_gate_ok in E as [Hok Hlen]; [|done..]. cbn [cc_plans cc_mandala cc_parent is_someb Z.b2z] in *.
    split_and!; [done..|lia|lia].
  - destruct (plan_ring _ _ _ _ _) as [[[plans wide] cap]|] eqn:E; [|done]. intros [= <-].
    apply plan_ring_ok in E as [Hok Hlen]; [|done..]. cbn [cc_plans cc_mandala cc_parent is_someb Z.b2z] in *.
    split_and!; [done..|lia|lia].
Qed.

Lemma prepare_ok mandalas trees session args tasks inline caller ctx :
  trees_ok mandalas trees -> (forall k m, mandalas !! k = Some m -> md_id m = k) -> zlen tasks <= MAX_BATCH_TASKS ->
  prepare_mandala_cells mandalas trees session args tasks inline caller = Ok (Some ctx) ->
  exists m parent, mandalas !! cc_mandala ctx = Some m /\ md_state m <> chars "closed" /\
    tree_at trees (cc_mandala ctx) !! cc_parent ctx = Some parent /\
    fan_ok (tree_at trees (cc_mandala ctx)) (cc_parent ctx) parent (cc_plans ctx) /\
    open_cells (tree_at trees (cc_mandala ctx)) + zlen (cc_plans ctx) <= bv_cells (md_budget m) /\
    (caller = None -> md_conductor m = session) /\
    (forall own, caller = Some own -> voucher_scope_ok own (cc_parent ctx) = true) /\
    zlen (cc_plans ctx) <= MAX_BATCH_TASKS + 1.
Proof.
  intros Hok Hids Hts. unfold prepare_mandala_cells. cbv zeta.
  destruct (arg_u64 args (chars "mandala")) as [mid|]; [|by repeat case_match].
  destruct (mandalas !! mid) as [m|] eqn:Em; [|done].
  destruct (is_noneb caller && _) eqn:Ec; [done|]. case_bool_decide as Hcl; [done|].
  destruct (inline && _); [done|]. destruct (_ && negb (zlen tasks =? 1)); [done|].
  destruct (match arg_str _ _ with Some _ => _ | None => _ end) as [pa|]; [|done]. cbn [rbind].
  destruct (match caller with Some _ => _ | None => _ end) eqn:Es; [done|].
  fold (tree_at trees mid). destruct (tree_at trees mid !! pa) as [parent|] eqn:Ep; [|done].
  destruct (plan_fan _ _ _ _ _ _ _ _) as [ctx'|] eqn:E; [|done]. intros [= <-].
  destruct (Hok mid) as [Hwf _]. apply plan_fan_ok in E as (Hf & Hmid & Hpar & Hgeo & Hlen); [|done..].
  rewrite (Hids _ _ Em) in Hmid. rewrite Hmid, Hpar. exists m, parent. split_and!; try done.
  - intros ->. cbn [is_noneb andb] in Ec. apply negb_false_iff, Z.eqb_eq in Ec. done.
  - intros own ->. by apply negb_false_iff in Es.
Qed.

Lemma zip_fst_addr (plans : list CellPlan) (wids : list Z) :
  length wids = length plans -> (cp_addr ∘ fst <$> zip plans wids) = (cp_addr <$> plans).
Proof. intros Hl. rewrite list_fmap_compose, fst_zip by lia. done. Qed.

Lemma index_lookup mid (l : list (CellPlan * Z)) (index : CellIndex) i x :
  NoDup l.*2 -> l !! i = Some x ->
  foldl (fun ix x => <[x.2 := (mid, cp_addr x.1)]> ix) index l !! x.2 = Some (mid, cp_addr x.1).
Proof.
  revert index i. induction l as [|y l IH]; intros index i Hnd Hi; [done|].
  apply NoDup_cons in Hnd as [Hy Hnd]. cbn [foldl]. destruct i as [|i]; cbn in Hi; [|by eapply IH].
  injection Hi as ->. assert (forall ix : CellIndex, foldl (fun ix x => <[x.2 := (mid, cp_addr x.1)]> ix) ix l !! x.2 = ix !! x.2) as ->.
  { clear IH Hnd. induction l as [|z l IH]; intros ix; [done|]. cbn in Hy. apply not_elem_of_cons in Hy as [Hz Hy].
    cbn [foldl]. rewrite IH by done. by apply lookup_insert_ne. }
  apply lookup_insert_eq.
Qed.

Lemma set_form_same c : set_form (cell_form c) c = c.
Proof. by destruct c. Qed.

(** The last step of a binding: the parent may gain its branch arm. *)
Lemma bind_cells_arm epoch trees index ctx wids :
  let s := foldl (@bind_one V epoch ctx) (trees, index, []) (zip (cc_plans ctx) wids) in
  let r := @bind_cells V epoch trees index ctx wids in
  r.1.2 = s.1.2 /\ trees_evolve s.1.1 r.1.1 /\
  forall mid a, tree_cell r.1.1 mid a = tree_cell s.1.1 mid a \/
    (mid = cc_mandala ctx /\ a = cc_parent ctx /\ exists f, tree_cell r.1.1 mid a = set_form f <$> tree_cell s.1.1 mid a).
Proof.
  unfold bind_cells. destruct (foldl _ _ _) as [[t1 i1] e1]. cbn zeta. cbn [fst snd].
  assert (trees_evolve t1 t1) as Hr by reflexivity.
  destruct (if cc_arm_parent_branch ctx then _ else _) as [p|]; [|by split_and!; [| |left]].
  destruct (_ =? _); [by split_and!; [| |left]|].
  pose proof (update_cell_evolve (V := V) t1 (cc_mandala ctx) (cc_parent ctx) (fun c => set_form (arm_branch (cell_form c)) c)
                ltac:(done)) as He.
  pose proof (update_cell_at (V := V) t1 (cc_mandala ctx) (cc_parent ctx) (fun c => set_form (arm_branch (cell_form c)) c)) as Hat.
  destruct (update_cell _ _ _ _) as [t2 e2]. cbn [fst snd] in *. split_and!; [done..|].
  intros mid a. rewrite !tree_cell_at, Hat. destruct (decide (mid = cc_mandala ctx)) as [->|]; [|by left].
  destruct (decide (a = cc_parent ctx)) as [->|]; [|left; by rewrite lookup_alter_ne].
  rewrite lookup_alter_eq. right. split_and!; [done..|].
  destruct (tree_at t1 (cc_mandala ctx) !! cc_parent ctx) as [c|]; cbn; [by exists (arm_branch (cell_form c))|by exists 0].
Qed.

(** A bound plan keeps every tree well formed and inside its budget. *)
Lemma bind_trees_ok mandalas trees index session args tasks inline caller ctx epoch wids :
  trees_ok mandalas trees -> (forall k m, mandalas !! k = Some m -> md_id m = k) -> parse_tasks args = Ok tasks ->
  prepare_mandala_cells mandalas trees session args tasks inline caller = Ok (Some ctx) ->
  length wids = length (cc_plans ctx) -> trees_ok mandalas (@bind_cells V epoch trees index ctx wids).1.1.
Proof.
  intros Hok Hids Hparse Hprep Hlen. apply parse_tasks_length in Hparse.
  apply prepare_ok in Hprep as (m & parent & Hm & _ & Hpar & [_ Hfresh _] & Hgeo & _); [|done|done|lia].
  destruct (bind_cells_arm epoch trees index ctx wids) as (_ & He & _).
  destruct (bind_fold (V := V) epoch ctx (zip (cc_plans ctx) wids) trees index []) as [Hat _].
  set (s := foldl _ _ _) in *. apply (trees_evolve_ok _ s.1.1); [done|].
  intros mid. rewrite Hat. case_decide as Hmid; [subst mid|apply Hok].
  destruct (Hok (cc_mandala ctx)) as [Hwf _]. split.
  - apply plant_wf; [done|]. intros x Hx. apply (Hfresh x.1).
    apply (list_elem_of_fmap_2 fst) in Hx. by rewrite fst_zip in Hx by lia.
  - intros m' [= ->]%(fun H => eq_trans (eq_sym Hm) H). pose proof (plant_open epoch ctx (zip (cc_plans ctx) wids) (tree_at trees (cc_mandala ctx))) as Ho.
    assert (zlen (zip (cc_plans ctx) wids) = zlen (cc_plans ctx)) as Hz by (unfold zlen; rewrite length_zip_with; lia). lia.
Qed.

(** A fan that is planned, minted and bound keeps every tree well formed and
    inside its geometry budget; each new cell takes a position no cell ever
    had, is bound to its worker in the tree and in the index, and no other cell
    changes but for the arms of its form. *)
Theorem fan_keeps_geometry (mandalas : gmap Z MandalaRecord) (trees : Trees) (index : CellIndex) (session : Z) (args : V)
    (tasks : list TaskSpecItem) (inline : bool) (caller : option Addr) (ctx : CellsCtx) (epoch : Z) (wids : list Z) :
  trees_ok mandalas trees -> (forall k m, mandalas !! k = Some m -> md_id m = k) -> parse_tasks args = Ok tasks ->
  prepare_mandala_cells mandalas trees session args tasks inline caller = Ok (Some ctx) ->
  length wids = length (cc_plans ctx) -> NoDup wids ->
  let r := @bind_cells V epoch trees index ctx wids in
  trees_ok mandalas r.1.1 /\
  (forall i p wid, cc_plans ctx !! i = Some p -> wids !! i = Some wid ->
     tree_cell trees (cc_mandala ctx) (cp_addr p) = None /\
     tree_cell r.1.1 (cc_mandala ctx) (cp_addr p) = Some (new_cell epoch ctx p wid) /\
     r.1.2 !! wid = Some (cc_mandala ctx, cp_addr p)) /\
  (forall mid a c, tree_cell trees mid a = Some c -> exists f, tree_cell r.1.1 mid a = Some (set_form f c)).
Proof.
  intros Hok Hids Hparse Hprep Hlen Hnd r. pose proof (parse_tasks_length _ _ Hparse) as Hts.
  destruct (prepare_ok _ _ _ _ _ _ _ _ Hok Hids (proj2 Hts) Hprep) as (m & parent & Hm & _ & Hpar & [Hnda Hfresh _] & Hgeo & _).
  destruct (bind_cells_arm epoch trees index ctx wids) as (Hix & He & Harm). fold r in Hix, He, Harm.
  destruct (bind_fold (V := V) epoch ctx (zip (cc_plans ctx) wids) trees index []) as [Hat Hfix].
  set (s := foldl _ _ _) in *. rewrite <- zip_fst_addr with (wids := wids) in Hnda by done.
  assert (forall i p wid, cc_plans ctx !! i = Some p -> wids !! i = Some wid -> zip (cc_plans ctx) wids !! i = Some (p, wid)) as Hzip.
  { intros i p wid Hp Hw. by rewrite lookup_zip_with, Hp, Hw. }
  assert (forall a, a ∉ (cp_addr ∘ fst <$> zip (cc_plans ctx) wids) -> list_find (fun x => cp_addr x.1 = a) (zip (cc_plans ctx) wids) = None) as Hnone.
  { intros a Ha. apply list_find_None, Forall_forall. intros x Hx <-. apply Ha. by apply (list_elem_of_fmap_2 (cp_addr ∘ fst)). }
  assert (forall a c, tree_at trees (cc_mandala ctx) !! a = Some c -> a ∉ (cp_addr ∘ fst <$> zip (cc_plans ctx) wids)) as Hold.
  { intros a c Hc. rewrite zip_fst_addr by done. intros (p & -> & Hp)%list_elem_of_fmap.
    destruct (Hfresh p Hp) as (? & _). congruence. }
  split_and!.
  - by eapply bind_trees_ok.
  - intros i p wid Hp Hw. rewrite !tree_cell_at. specialize (Hzip i p wid Hp Hw).
    destruct (Hfresh p) as (Hno & _); [by eapply list_elem_of_lookup_2|]. split_and!; [done| |].
    + assert (tree_cell s.1.1 (cc_mandala ctx) (cp_addr p) = Some (new_cell epoch ctx p wid)) as Hs.
      { rewrite tree_cell_at, Hat, decide_True, plant_lookup by done.
        destruct (list_find _ _) as [[j [p' w']]|] eqn:E.
        - apply list_find_Some in E as (Hj & Ha & _). cbn in Ha.
          assert (j = i) as ->; [|by rewrite Hzip in Hj; injection Hj as <- <-].
          eapply (NoDup_lookup _ _ _ _ Hnda); rewrite list_lookup_fmap; [by rewrite Hj|].
          rewrite Hzip. cbn. by rewrite Ha.
        - apply list_find_None in E. rewrite Forall_forall in E. destruct (E (p, wid)); [by eapply list_elem_of_lookup_2|done]. }
      rewrite <- tree_cell_at. destruct (Harm (cc_mandala ctx) (cp_addr p)) as [->|(_ & Ha & _)]; [done|].
      rewrite Ha in Hno. congruence.
    + rewrite Hix, Hfix. apply (index_lookup _ _ _ i (p, wid)); [|done]. by rewrite snd_zip by lia.
  - intros mid a c Hc. assert (tree_cell s.1.1 mid a = Some c) as Hs.
    { rewrite tree_cell_at in Hc |- *. rewrite Hat. case_decide as Hmid; [subst mid|done].
      rewrite plant_lookup by done. by rewrite Hnone by by eapply Hold. }
    destruct (Harm mid a) as [->|(_ & _ & f & ->)]; rewrite Hs; [|by exists f].
    exists (cell_form c). by rewrite set_form_same.
Qed.
End geometry.

(** ** What else touches a tree *)

Lemma closed_state s : is_open_state s = negb (is_terminal_state_str s).
Proof. done. Qed.

Lemma terminal_worker_closed w : is_terminal (w_state w) = true -> is_open_state (state_str (w_state w)) = false.
Proof. by destruct (w_state w). Qed.

Section touches.
Context {V : Type}.

Lemma lap_tree_evolve trees cx parent oc : trees_evolve trees (@lap_tree V trees cx parent oc).1.
Proof.
  unfold lap_tree. destruct cx as [cx|]; [|reflexivity].
  set (t1 := match oc_measure oc with Some _ => _ | None => _ end).
  assert (trees_evolve trees t1.1) as H1.
  { unfold t1. destruct (oc_measure oc), (cx_is_r cx); try reflexivity. by apply update_cell_evolve. }
  destruct t1 as [t1 e1]. cbn [fst] in *.
  destruct (oc_renew oc) as [g|]; [|done]. destruct (cx_parent cx) as [pa|]; [|done].
  pose proof (update_cell_evolve (V := V) t1 (cx_mandala cx) pa (spend_steps g) ltac:(done)) as H2.
  destruct (update_cell t1 _ _ _) as [t2 e2].
  pose proof (update_cell_evolve (V := V) t2 (cx_mandala cx) (cx_addr cx) (gain_steps g) ltac:(done)) as H3.
  destruct (update_cell t2 _ _ _) as [t3 e3]. cbn [fst] in *. by etrans; [exact H1|]; etrans.
Qed.

Lemma advance_evolve cf e ws sh trees index session :
  trees_evolve trees (@advance V cf e ws sh trees index session).1.1.2.
Proof.
  unfold advance. destruct (find_worker _ ws) as [[id w]|]; [|reflexivity].
  pose proof (lap_tree_evolve trees (cell_ctx trees index id) (w_parent w)
                (apply_verdict (e_now e) (cf_max_steps cf) (cell_ctx trees index id) id w)) as H.
  by destruct (lap_tree _ _ _ _) as [t eff].
Qed.

Lemma sync_one_evolve (cf : Config) (ws : Workers) (s : gmap Z Cells * list (Effect V)) x : trees_evolve s.1 (sync_one cf ws s x).1.
Proof.
  destruct s as [trees eff], x as [wid [mid a]]. unfold sync_one. destruct (ws !! wid) as [w|]; [|reflexivity].
  destruct (is_terminal (w_state w)) eqn:Et; [|reflexivity]. cbn [negb].
  destruct (tree_cell trees mid a) as [c|]; [|reflexivity]. case_bool_decide; [reflexivity|].
  pose proof (update_cell_evolve (V := V) trees mid a (set_cell_state (state_str (w_state w)) (Some (evidence_path cf wid)))) as H'.
  destruct (update_cell _ _ _ _) as [t e]. apply H'. intros c' _. split; [done|].
  unfold is_open. cbn [set_cell_state cell_state]. by rewrite terminal_worker_closed.
Qed.

Lemma sync_cells_evolve cf trees index ws : trees_evolve trees (@sync_cells V cf trees index ws).1.
Proof. apply (foldl_evolve fst (sync_one cf ws) _ (trees, [])). intros s x. apply sync_one_evolve. Qed.

Lemma sync_remote_cells_evolve trees index rs : trees_evolve trees (@sync_remote_cells V trees index rs).1.
Proof.
  apply (foldl_evolve fst (sync_remote_one rs) _ (trees, [])). intros [t eff] [wid [mid a]]. unfold sync_remote_one.
  destruct (rs !! wid) as [r|]; [|reflexivity]. destruct (rm_terminal r) eqn:Et; [|reflexivity]. cbn [negb].
  destruct (tree_cell t mid a) as [c|]; [|reflexivity]. destruct (_ && _); [reflexivity|].
  pose proof (update_cell_evolve (V := V) t mid a (set_cell_state (rm_state_raw r) (rm_evidence r))) as H'.
  destruct (update_cell _ _ _ _) as [t' e]. apply H'. intros c' _. split; [done|].
  unfold is_open. cbn [set_cell_state cell_state]. rewrite closed_state. unfold rm_terminal in Et. by rewrite Et.
Qed.

Lemma check_one_evolve epoch index mandalas (s : TreeState (V := V)) wid :
  trees_evolve (ts_trees s) (ts_trees (check_one epoch index mandalas s wid)).
Proof.
  unfold check_one. destruct (index !! wid) as [[mid a]|]; [|reflexivity]. destruct (ts_workers s !! wid); [|reflexivity].
  destruct (ts_trees s !! mid ≫= _) as [[tree c]|]; [|reflexivity]. destruct (negb _); [reflexivity|].
  pose proof (update_cell_evolve (V := V) (ts_trees s) mid a set_opened ltac:(done)) as H.
  by destruct (update_cell _ _ _ _).
Qed.

Lemma check_barriers_evolve e ws trees index mandalas :
  trees_evolve trees (ts_trees (@check_barriers V e ws trees index mandalas)).
Proof. apply (foldl_evolve ts_trees (check_one (e_epoch e) index mandalas) _ (mkTree ws trees [] false)). intros; apply check_one_evolve. Qed.

Lemma record_override_evolve trees index wid : trees_evolve trees (@record_override V trees index wid).1.
Proof.
  unfold record_override. destruct (index !! wid) as [[mid a]|]; [|reflexivity].
  destruct (tree_cell _ _ _) as [c|]; [|reflexivity]. destruct (overridden_gate_open c); [|reflexivity].
  by apply update_cell_evolve.
Qed.

Lemma close_mandala_evolve mandalas trees mid : trees_evolve trees (@close_mandala V mandalas trees mid).1.2.
Proof.
  unfold close_mandala. destruct (tree_cell _ _ _) as [root|]; [|reflexivity].
  destruct (is_open_state _); [|reflexivity].
  pose proof (update_cell_evolve (V := V) trees mid ROOT (fun c => set_cell_state (chars "done") (cell_evidence c) c) ltac:(done)) as H.
  by destruct (update_cell _ _ _ _).
Qed.
End touches.

(** ** Barriers *)

Definition settled (tree : Cells) (a : Addr) : Prop :=
  (exists k c, tree !! k = Some c /\ is_ancestor_of a k = true) /\
  (forall k c, tree !! k = Some c -> is_ancestor_of a k = true -> is_open c = false).

Definition timed_out (epoch : Z) (c : CellRecord) : Prop :=
  exists t, cell_barrier_timeout_s c = Some t /\ sat_add64 (cell_created_epoch c) t <= epoch.

Lemma barrier_timed_out_spec epoch c : barrier_timed_out epoch c = true <-> timed_out epoch c.
Proof.
  unfold barrier_timed_out, timed_out. destruct (cell_barrier_timeout_s c) as [t|].
  - rewrite Z.leb_le. split; [eauto|]. by intros (t' & [= <-] & ?).
  - split; [done|]. by intros (? & ? & _).
Qed.

Lemma elem_cell_values (tree : Cells) c : wf_cells tree -> c ∈ cell_values tree <-> tree !! cell_addr c = Some c.
Proof.
  intros Hwf. unfold cell_values. rewrite list_elem_of_fmap. split.
  - intros ([k c'] & -> & Hk%elem_of_map_to_list). destruct (Hwf _ _ Hk) as [E _]. cbn. by rewrite E.
  - intros Hc. exists (cell_addr c, c). split; [done|]. by apply elem_of_map_to_list.
Qed.

Lemma zlen_sort_zero l : zlen (sort_texts l) = 0 <-> l = [].
Proof.
  rewrite (zlen_perm _ _ (sort_texts_perm l)). split; [apply zlen_nil_inv|by intros ->].
Qed.

Lemma filter_nil_iff {A} (p : A -> bool) l : filter p l = [] <-> forall x, x ∈ l -> p x = false.
Proof.
  split.
  - intros E x Hx. destruct (p x) eqn:Ep; [|done].
    assert (x ∈ filter p l) as Hin by (apply list_elem_of_filter; by rewrite Ep). rewrite E in Hin. by apply not_elem_of_nil in Hin.
  - intros Hall. destruct (filter p l) as [|x l'] eqn:E; [done|].
    assert (x ∈ filter p l) as [Hp Hx]%list_elem_of_filter by (rewrite E; left). by rewrite (Hall x Hx) in Hp.
Qed.

Lemma barrier_settled_spec tree a : wf_cells tree -> barrier_settled tree a = true <-> settled tree a.
Proof.
  intros Hwf. unfold barrier_settled, settled, open_descendants, descendants.
  rewrite andb_true_iff, negb_true_iff, Z.eqb_eq, Z.eqb_neq, !zlen_sort_zero.
  assert (forall p : CellRecord -> bool, cell_addr <$> filter p (cell_values tree) = [] <->
            forall k c, tree !! k = Some c -> p c = false) as Hf.
  { intros p. split.
    - intros H%fmap_nil_inv k c Hk. destruct (Hwf _ _ Hk) as [E _]. rewrite filter_nil_iff in H. apply H.
      apply elem_cell_values; [done|]. by rewrite E.
    - intros H. replace (filter p (cell_values tree)) with (@nil CellRecord); [done|].
      symmetry. apply filter_nil_iff. intros c Hc. apply elem_cell_values in Hc; [|done]. by eapply H. }
  rewrite !Hf. split.
  - intros [Ho Hd]. split.
    + destruct (decide (map_Exists (fun k (_ : CellRecord) => is_ancestor_of a k = true) tree)) as [(k & c & ? & ?)|Hn]; [eauto|].
      exfalso. apply Hd. intros k c Hk. destruct (Hwf _ _ Hk) as [-> _]. apply not_true_iff_false. intros Ha. apply Hn. by exists k, c.
    + intros k c Hk Ha. specialize (Ho k c Hk). destruct (Hwf _ _ Hk) as [E _]. by rewrite E, Ha in Ho.
  - intros [(k & c & Hk & Ha) Hall]. split.
    + intros k' c' Hk'. destruct (Hwf _ _ Hk') as [E _]. rewrite E.
      destruct (is_ancestor_of a k') eqn:Ea; [|done]. by apply (Hall k').
    + intros Hd. destruct (Hwf _ _ Hk) as [E _]. specialize (Hd k c Hk). congruence.
Qed.

(** Whatever reads only what an opening leaves alone reads the same tree. *)
Lemma alter_values_perm {B} (h : CellRecord -> option B) (f : CellRecord -> CellRecord) (a : Addr) (t : Cells) :
  (forall c, h (f c) = h c) -> omap h (cell_values (alter f a t)) ≡ₚ omap h (cell_values t).
Proof.
  intros Hh. destruct (t !! a) as [c|] eqn:E; [|by rewrite alter_id by congruence].
  assert (forall x, omap h (cell_values (<[a := x]> t)) ≡ₚ omap h [x] ++ omap h (cell_values (delete a t))) as Hx.
  { intros x. unfold cell_values. rewrite <- insert_delete_eq, map_to_list_insert by apply lookup_delete_eq.
    cbn [fmap list_fmap]. change ((a, x).2 :: ?l) with ([x] ++ l). by rewrite omap_app. }
  assert (alter f a t = <[a := f c]> t) as ->.
  { apply map_eq. intros k. destruct (decide (k = a)) as [->|];
      [by rewrite lookup_alter_eq, lookup_insert_eq, E|by rewrite lookup_alter_ne, lookup_insert_ne]. }
  rewrite (Hx (f c)). rewrite <- (insert_id t a c) at 2 by done. rewrite (Hx c). cbn. by rewrite Hh.
Qed.

Lemma filter_fmap_omap {A B} (p : A -> bool) (f : A -> B) (l : list A) :
  f <$> filter p l = omap (fun x => if p x then Some (f x) else None) l.
Proof.
  induction l as [|x l IH]; [done|]. cbn [omap list_omap]. destruct (p x) eqn:E.
  - rewrite filter_cons_True by (by rewrite E). cbn [fmap list_fmap]. by rewrite <- IH.
  - rewrite filter_cons_False by (rewrite E; by intros []). done.
Qed.

Lemma opened_reads (t : Cells) (a b : Addr) :
  descendants (alter set_opened a t) b = descendants t b /\
  open_descendants (alter set_opened a t) b = open_descendants t b.
Proof.
  unfold descendants, open_descendants. split; apply sort_texts_unique; rewrite !filter_fmap_omap;
    by apply alter_values_perm.
Qed.

Lemma opened_block (t : Cells) (a b : Addr) late repo :
  barrier_block (alter set_opened a t) b late repo = barrier_block t b late repo.
Proof.
  unfold barrier_block. destruct (opened_reads t a b) as [-> _].
  assert (forall k, barrier_line (alter set_opened a t) k = barrier_line t k /\
                    cell_delivered (alter set_opened a t) k = cell_delivered t k) as Hl.
  { intros k. unfold barrier_line, cell_delivered. destruct (decide (k = a)) as [->|].
    - rewrite lookup_alter_eq. by destruct (t !! a).
    - by rewrite lookup_alter_ne. }
  rewrite (list_fmap_ext (barrier_line (alter set_opened a t)) (barrier_line t) (descendants t b)) by (intros; apply Hl).
  assert (forall l, List.filter (cell_delivered (alter set_opened a t)) l = List.filter (cell_delivered t) l) as Hd.
  { intros l. induction l as [|k l IH]; [done|]. cbn [List.filter]. by rewrite (proj2 (Hl k)), IH. }
  destruct repo as [r|]; [|done]. by rewrite Hd.
Qed.

Section barriers.
Context {V : Type} (e : Env) (index : CellIndex) (mandalas : gmap Z MandalaRecord).

(** The gate once its barrier has opened. *)
Definition opened_gate (trees : Trees) (mid : Z) (a : Addr) (c : CellRecord) (w : Worker) : Worker :=
  let tree := tree_at trees mid in
  w_set_barrier_held false
    (w_set_task (w_task w ++ barrier_block tree a (barrier_timed_out (e_epoch e) c && negb (barrier_settled tree a))
                              (mandalas !! mid ≫= md_repo)) w).

(** Trees that differ in opened flags only. *)
Inductive flags_only : Trees -> Trees -> Prop :=
  | flags_refl t : flags_only t t
  | flags_step t t' mid a : flags_only t t' -> flags_only t (@update_cell V t' mid a set_opened).1.

Lemma flags_only_reads trees trees' mid a c :
  flags_only trees trees' -> tree_cell trees mid a = Some c ->
  exists c', tree_cell trees' mid a = Some c' /\
    barrier_settled (tree_at trees' mid) a = barrier_settled (tree_at trees mid) a /\
    barrier_timed_out (e_epoch e) c' = barrier_timed_out (e_epoch e) c /\
    forall w, opened_gate trees' mid a c' w = opened_gate trees mid a c w.
Proof.
  intros Hf Hc. induction Hf as [t|t t' mid' a' _ IH]; [by exists c|].
  destruct (IH Hc) as (c' & Hc' & Hs & Ht & Hw). clear IH.
  assert (barrier_settled (tree_at (@update_cell V t' mid' a' set_opened).1 mid) a = barrier_settled (tree_at t' mid) a) as Hs'.
  { rewrite update_cell_at. case_decide; subst; [|done]. unfold barrier_settled.
    by destruct (opened_reads (tree_at t' mid') a' a) as [-> ->]. }
  assert (exists c'', tree_cell (@update_cell V t' mid' a' set_opened).1 mid a = Some c'' /\
            barrier_timed_out (e_epoch e) c'' = barrier_timed_out (e_epoch e) c') as (c'' & Hc'' & Ht').
  { rewrite tree_cell_at in Hc' |- *. rewrite update_cell_at. case_decide; subst; [|by eauto].
    destruct (decide (a = a')) as [->|]; [rewrite lookup_alter_eq, Hc'; cbn; by eauto|rewrite lookup_alter_ne; by eauto]. }
  exists c''. split_and!; [done|by rewrite Hs'|by rewrite Ht'|].
  intros w. rewrite <- Hw. unfold opened_gate. rewrite Hs', Ht', update_cell_at.
  case_decide; subst; [|done]. by rewrite opened_block.
Qed.

Definition ready (trees : Trees) (mid : Z) (a : Addr) (c : CellRecord) : bool :=
  barrier_settled (tree_at trees mid) a || barrier_timed_out (e_epoch e) c.

Lemma check_one_spec (s : TreeState (V := V)) wid w mid a c trees :
  flags_only trees (ts_trees s) -> index !! wid = Some (mid, a) -> ts_workers s !! wid = Some w ->
  tree_cell trees mid a = Some c ->
  let s' := check_one (e_epoch e) index mandalas s wid in
  ts_workers s' = (if ready trees mid a c then <[wid := opened_gate trees mid a c w]> (ts_workers s) else ts_workers s) /\
  ts_opened s' = ts_opened s || ready trees mid a c.
Proof.
  intros Hf Hi Hw Hc. destruct (flags_only_reads _ _ _ _ _ Hf Hc) as (c' & Hc' & Hs & Ht & Hg).
  unfold check_one. rewrite Hi, Hw. unfold tree_cell in Hc'.
  destruct (ts_trees s !! mid) as [tree|] eqn:Etree; [|done]. cbn [mbind option_bind] in Hc' |- *. rewrite Hc'.
  cbn [mbind option_bind]. assert (tree = tree_at (ts_trees s) mid) as Et by (unfold tree_at; by rewrite Etree).
  rewrite Et, Hs, Ht. fold (ready trees mid a c). destruct (ready trees mid a c); cbn [negb].
  - specialize (Hg w). destruct (update_cell _ _ _ _) as [t' eff]. cbn [ts_workers ts_opened]. rewrite orb_true_r.
    split; [|done]. rewrite <- Hg. unfold opened_gate. by rewrite Hs, Ht.
  - by rewrite orb_false_r.
Qed.

Lemma check_one_flags (s : TreeState (V := V)) wid trees :
  flags_only trees (ts_trees s) -> flags_only trees (ts_trees (check_one (e_epoch e) index mandalas s wid)).
Proof.
  intros Hf. unfold check_one. destruct (index !! wid) as [[mid a]|]; [|done]. destruct (ts_workers s !! wid); [|done].
  destruct (ts_trees s !! mid ≫= _) as [[tree c]|]; [|done]. destruct (negb _); [done|].
  pose proof (flags_step _ _ mid a Hf) as H. by destruct (update_cell _ _ _ _).
Qed.

Lemma check_one_other (s : TreeState (V := V)) wid i :
  i <> wid -> ts_workers (check_one (e_epoch e) index mandalas s wid) !! i = ts_workers s !! i.
Proof.
  intros Hne. unfold check_one. destruct (index !! wid) as [[mid a]|]; [|done]. destruct (ts_workers s !! wid); [|done].
  destruct (ts_trees s !! mid ≫= _) as [[tree c]|]; [|done]. destruct (negb _); [done|].
  destruct (update_cell _ _ _ _). cbn [ts_workers]. by apply lookup_insert_ne.
Qed.

Lemma check_fold ids (s : TreeState (V := V)) trees wid w mid a c :
  flags_only trees (ts_trees s) -> NoDup ids -> index !! wid = Some (mid, a) -> ts_workers s !! wid = Some w ->
  tree_cell trees mid a = Some c ->
  ts_workers (foldl (check_one (e_epoch e) index mandalas) s ids) !! wid =
  Some (if bool_decide (wid ∈ ids) && ready trees mid a c then opened_gate trees mid a c w else w).
Proof.
  intros Hf Hnd Hi Hw Hc. revert s w Hf Hw. induction ids as [|i ids IH]; intros s w Hf Hw; [done|].
  apply NoDup_cons in Hnd as [Hn Hnd]. cbn [foldl]. destruct (decide (i = wid)) as [->|Hne].
  - destruct (check_one_spec s wid w mid a c trees Hf Hi Hw Hc) as [Hs _].
    rewrite (IH Hnd _ (if ready trees mid a c then opened_gate trees mid a c w else w)); [|by apply check_one_flags|].
    + rewrite bool_decide_false by done. rewrite bool_decide_true by left. done.
    + rewrite Hs. destruct (ready trees mid a c); [by rewrite lookup_insert_eq|done].
  - rewrite (IH Hnd _ w); [|by apply check_one_flags|by rewrite check_one_other].
    assert (bool_decide (wid ∈ i :: ids) = bool_decide (wid ∈ ids)) as ->; [|done].
    apply bool_decide_ext. rewrite elem_of_cons. split; [intros [->|]; done|by right].
Qed.
End barriers.

(** C32: A barrier holds exactly as long as it must: a sweep lifts the barrier of a
    held gate when its subtree has cells and all of them are closed, or when
    its guard has run out, and of no other gate; the opened gate then competes
    for a slot with the outcome of its subtree in its work order. *)
Theorem barrier_opens_iff (V : Type) (e : Env) (ws : Workers) (trees : Trees) (index : CellIndex)
    (mandalas : gmap Z MandalaRecord) (wid mid : Z) (a : Addr) (w : Worker) (c : CellRecord) :
  ws !! wid = Some w -> held w = true -> index !! wid = Some (mid, a) -> tree_cell trees mid a = Some c ->
  wf_cells (tree_at trees mid) ->
  exists w', ts_workers (@check_barriers V e ws trees index mandalas) !! wid = Some w' /\
    (settled (tree_at trees mid) a \/ timed_out (e_epoch e) c -> w' = opened_gate e mandalas trees mid a c w /\ queued w' = true) /\
    (~ (settled (tree_at trees mid) a \/ timed_out (e_epoch e) c) -> w' = w).
Proof.
  intros Hw Hh Hi Hc Hwf. unfold check_barriers.
  assert (NoDup (filter (fun x => held x.2) (map_to_list ws)).*1) as Hnd by apply nodup_filter_fst, NoDup_fst_map_to_list.
  rewrite (check_fold e index mandalas _ (mkTree ws trees [] false) trees wid w mid a c (flags_refl _) Hnd Hi Hw Hc).
  eexists. split; [done|].
  rewrite bool_decide_true.
  2:{ apply list_elem_of_fmap. exists (wid, w). split; [done|]. apply list_elem_of_filter.
      split; [by apply Is_true_true|]. by apply elem_of_map_to_list. }
  assert (ready e trees mid a c = true <-> settled (tree_at trees mid) a \/ timed_out (e_epoch e) c) as Hr.
  { unfold ready. by rewrite orb_true_iff, barrier_settled_spec, barrier_timed_out_spec. }
  cbn [andb]. destruct (ready e trees mid a c); (split; intros H; [|try done]).
  - split; [done|]. unfold held in Hh. apply andb_true_iff in Hh as [_ Hq]. unfold queued, opened_gate. cbn. by rewrite Hq.
  - exfalso. apply H, Hr. done.
  - apply Hr in H. done.
Qed.

(** ** Concrete inputs *)

Definition toy_budget : BudgetVec := mkBudget 5 64 32 86400.
Definition toy_invariant : Invariant := Invariant_new (chars "ship") (chars "tests pass") (chars "run tests").
Definition toy_mandala : MandalaRecord :=
  mkMandala 1 7 LQuad toy_budget toy_invariant (chars "open") None 1000 0 None ∅ 0 None None None.
Definition toy_mandalas : gmap Z MandalaRecord := {[1 := toy_mandala]}.
Definition toy_root : CellRecord := root_cell 1000 (chars "ship") (inv_hash toy_invariant) toy_budget.
Definition toy_trees : gmap Z Cells := {[1 := {[ROOT := toy_root]}]}.

Lemma toy_trees_ok : trees_ok toy_mandalas toy_trees.
Proof.
  intros mid. unfold tree_at, toy_trees, toy_mandalas. destruct (decide (mid = 1)) as [->|Hne].
  - rewrite !lookup_singleton_eq. split.
    + apply map_Forall_singleton. split; [done|]. vm_compute. done.
    + intros m [= <-]. vm_compute. done.
  - rewrite !lookup_singleton_ne by done. by split; [|intros m].
Qed.

Lemma toy_mandala_ids k m : toy_mandalas !! k = Some m -> md_id m = k.
Proof. unfold toy_mandalas. by intros [<- <-]%lookup_singleton_Some. Qed.

(** One task and the gate that joins it. *)
Definition toy_fan_args : Toy :=
  ToyObj [(chars "mandala", ToyStr (chars "1")); (chars "join", ToyStr (chars "sum up"));
          (chars "tasks", ToyObj [([], ToyStr (chars "one"))])].
Definition toy_fan_tasks : list TaskSpecItem := match parse_tasks toy_fan_args with Ok ts => ts | Err _ => [] end.
Definition toy_ctx : CellsCtx :=
  match prepare_mandala_cells toy_mandalas toy_trees 7 toy_fan_args toy_fan_tasks false None with
  | Ok (Some c) => c | _ => mkCells 0 [] [] [] false false 0 end.

(** The bound fan: cell 0.1 is the gate of worker 1, cell 0.1.0 of worker 2. *)
Definition toy_bound : gmap Z Cells * gmap Z (Z * Addr) * list (Effect Toy) := bind_cells 1000 toy_trees ∅ toy_ctx [1; 2].

Lemma fan_keeps_geometry_witness :
  trees_ok toy_mandalas toy_bound.1.1 /\
  (forall i p wid, cc_plans toy_ctx !! i = Some p -> [1; 2] !! i = Some wid ->
     tree_cell toy_trees (cc_mandala toy_ctx) (cp_addr p) = None /\
     tree_cell toy_bound.1.1 (cc_mandala toy_ctx) (cp_addr p) = Some (new_cell 1000 toy_ctx p wid) /\
     toy_bound.1.2 !! wid = Some (cc_mandala toy_ctx, cp_addr p)) /\
  (forall mid a c, tree_cell toy_trees mid a = Some c -> exists f, tree_cell toy_bound.1.1 mid a = Some (set_form f c)).
Proof.
  apply (fan_keeps_geometry toy_mandalas toy_trees ∅ 7 toy_fan_args toy_fan_tasks false None toy_ctx 1000 [1; 2]).
  - exact toy_trees_ok.
  - exact toy_mandala_ids.
  - vm_compute. reflexivity.
  - vm_compute. reflexivity.
  - vm_compute. reflexivity.
  - repeat constructor; set_solver.
Defined.

(** A worker in the given state, holding a barrier or not. *)
Definition toy_cell_worker (s : WorkerState) (holds : bool) : Worker :=
  mkWorker 1 7 (WORKER_SESSION_BASE + 1) (chars "sum up") s 1 None [] None 0 None false false None false holds 10 None None 0.

(** The gate waits, its one descendant is done and mirrored. *)
Definition toy_gate : text := chars "0.0".
Definition toy_done_trees : gmap Z Cells :=
  (@sync_cells Toy (mkConfig 2 12 0 0 [] (mkPath [RootDir] false) [] true) toy_bound.1.1 toy_bound.1.2
     {[1 := toy_cell_worker WQueued true; 2 := toy_cell_worker WDone false]}).1.
Definition toy_gate_cell : CellRecord := default toy_root (tree_cell toy_done_trees 1 toy_gate).

Lemma barrier_opens_iff_witness :
  let e := mkEnv 0 1010 (fun _ _ => 0) (fun _ => None) in
  let ws := {[1 := toy_cell_worker WQueued true; 2 := toy_cell_worker WDone false]} in
  let w := toy_cell_worker WQueued true in
  exists w', ts_workers (@check_barriers Toy e ws toy_done_trees toy_bound.1.2 toy_mandalas) !! 1 = Some w' /\
    (settled (tree_at toy_done_trees 1) toy_gate \/ timed_out 1010 toy_gate_cell ->
       w' = opened_gate e toy_mandalas toy_done_trees 1 toy_gate toy_gate_cell w /\ queued w' = true) /\
    (~ (settled (tree_at toy_done_trees 1) toy_gate \/ timed_out 1010 toy_gate_cell) -> w' = w).
Proof.
  intros e ws w. apply (barrier_opens_iff Toy e ws toy_done_trees toy_bound.1.2 toy_mandalas 1 1 toy_gate w toy_gate_cell).
  - vm_compute. reflexivity.
  - vm_compute. reflexivity.
  - vm_compute. reflexivity.
  - vm_compute. reflexivity.
  - apply wf_cells_check. vm_compute. reflexivity.
Defined.
