(* ===== verification/WorkerEpoch.v ===== *)
(** * The worker fabric: gates, closure and epochs

    Compositions over the tree: finished workers settle their ring and lift the
    gate over it, closure waits for every cell, and one stillness convenes one
    council. *)
From S2P Require Import Prelude Text Confine Policy Protocol Mandala Review Remote Worker WorkerLife WorkerTree WorkerFan.

(** ** Inputs of an epoch *)

(** What one roll of a mandala reads. *)
Record EpochInput := mkInput {
  ei_env : Env;
  ei_read : text -> option bytes;
  ei_trees : gmap Z Cells;
  ei_remotes : gmap Z RemoteWorker;
  ei_census : gmap text Z
}.

Section inputs.
Context {V : Type} `{!Sha256}.

Definition roll_with (mid : Z) (s : EpochState (V := V)) (i : EpochInput) : EpochState (V := V) :=
  roll_one (ei_env i) (ei_read i) (ei_trees i) (ei_remotes i)
    (mkEpochs (es_mandalas s) (<[mid := ei_census i]> (es_censuses s)) (es_next s) (es_eff s) (es_dirty s)) mid.

Definition fingerprint_of (mid : Z) (hash : text) (i : EpochInput) : text :=
  let tree := tree_at (ei_trees i) mid in
  epoch_fingerprint hash (hex_digest <$> omap (ei_read i) (omap cell_evidence (cell_values tree))) (ei_census i)
    (remote_states (ei_remotes i) tree).

Definition is_convene (f : Effect V) : bool := match f with EConvene _ => true | _ => false end.
Definition convened (eff : list (Effect V)) : Z := zlen (List.filter is_convene eff).
End inputs.

(** ** Finished workers settle their cells *)

Section settle.
Context {V : Type} (cf : Config) (ws : Workers).

Lemma sync_one_closes (s : gmap Z Cells * list (Effect V)) wid mid a w c :
  ws !! wid = Some w -> is_terminal (w_state w) = true -> tree_cell s.1 mid a = Some c ->
  exists c', tree_cell (sync_one cf ws s (wid, (mid, a))).1 mid a = Some c' /\ is_open c' = false.
Proof.
  intros Hw Ht Hc. destruct s as [trees eff]. unfold sync_one. cbn [fst] in Hc. rewrite Hw, Ht, Hc. cbn [negb].
  case_bool_decide as Hs; cbn [fst].
  - exists c. split; [done|]. unfold is_open. rewrite Hs. by apply terminal_worker_closed.
  - pose proof (update_cell_lookup (V := V) trees mid a (set_cell_state (state_str (w_state w)) (Some (evidence_path cf wid))) a) as E.
    destruct (update_cell _ _ _ _) as [t e]. cbn [fst] in *. rewrite decide_True, Hc in E by done. eexists. split; [exact E|].
    unfold is_open. by apply terminal_worker_closed.
Qed.

Lemma evolve_closed (trees trees' : Trees) mid a c :
  trees_evolve trees trees' -> tree_cell trees mid a = Some c -> is_open c = false ->
  exists c', tree_cell trees' mid a = Some c' /\ is_open c' = false.
Proof.
  intros He Hc Ho. specialize (He mid a). rewrite tree_cell_at in *. rewrite Hc in He.
  destruct (tree_at trees' mid !! a) as [c'|]; [|done]. exists c'. split; [done|].
  destruct He as [_ He]. apply not_true_iff_false. intros Ho'. apply He in Ho'. congruence.
Qed.

Lemma evolve_some (trees trees' : Trees) mid a c :
  trees_evolve trees trees' -> tree_cell trees mid a = Some c -> exists c', tree_cell trees' mid a = Some c' /\ calm c c'.
Proof.
  intros He Hc. specialize (He mid a). rewrite tree_cell_at in *. rewrite Hc in He.
  destruct (tree_at trees' mid !! a) as [c'|]; [eauto|done].
Qed.

Lemma sync_closes (trees : Trees) (index : CellIndex) wid mid a w c :
  index !! wid = Some (mid, a) -> ws !! wid = Some w -> is_terminal (w_state w) = true ->
  tree_cell trees mid a = Some c ->
  exists c', tree_cell (@sync_cells V cf trees index ws).1 mid a = Some c' /\ is_open c' = false.
Proof.
  intros Hi Hw Ht Hc. unfold sync_cells.
  assert ((wid, (mid, a)) ∈ map_to_list index) as (l1 & l2 & ->)%list_elem_of_split by by apply elem_of_map_to_list.
  rewrite foldl_app. cbn [foldl].
  assert (forall l (s : gmap Z Cells * list (Effect V)), trees_evolve s.1 (foldl (sync_one cf ws) s l).1) as Hev.
  { intros l s. apply (foldl_evolve fst (sync_one cf ws)). intros; apply sync_one_evolve. }
  destruct (evolve_some _ _ _ _ _ (Hev l1 (trees, [])) Hc) as (c1 & Hc1 & _).
  destruct (sync_one_closes _ wid mid a w c1 Hw Ht Hc1) as (c2 & Hc2 & Ho2).
  eapply evolve_closed; [apply Hev|exact Hc2|exact Ho2].
Qed.
End settle.

(** Below [a] every cell is closed, or bound to a worker that has ended. *)
Definition ring_ended (ws : Workers) (trees : Trees) (index : CellIndex) (mid : Z) (a : Addr) : Prop :=
  forall k d, tree_cell trees mid k = Some d -> is_ancestor_of a k = true ->
    is_open d = false \/ exists i v, index !! i = Some (mid, k) /\ ws !! i = Some v /\ is_terminal (w_state v) = true.

(** A gate does not wait for ever: once every cell below it is closed or bound
    to a worker that has ended, the pass that follows a turn (mirror the
    workers, then sweep the barriers) lifts its barrier. *)
Theorem finished_ring_opens_gate (V : Type) (cf : Config) (e : Env) (ws : Workers) (trees : Trees) (index : CellIndex)
    (mandalas : gmap Z MandalaRecord) (wid mid : Z) (a k0 : Addr) (w : Worker) (c c0 : CellRecord) :
  ws !! wid = Some w -> held w = true -> index !! wid = Some (mid, a) -> tree_cell trees mid a = Some c ->
  wf_cells (tree_at trees mid) ->
  tree_cell trees mid k0 = Some c0 -> is_ancestor_of a k0 = true ->
  ring_ended ws trees index mid a ->
  let trees1 := (@sync_cells V cf trees index ws).1 in
  exists w', ts_workers (@check_barriers V e ws trees1 index mandalas) !! wid = Some w' /\
    queued w' = true /\ w_barrier_held w' = false.
Proof.
  intros Hw Hh Hi Hc Hwf Hk0 Ha0 Hall trees1.
  pose proof (sync_cells_evolve (V := V) cf trees index ws) as He. fold trees1 in He.
  destruct (evolve_some _ _ _ _ _ He Hc) as (c1 & Hc1 & _).
  assert (wf_cells (tree_at trees1 mid)) as Hwf1 by by eapply cells_evolve_wf.
  assert (settled (tree_at trees1 mid) a) as Hset.
  { split.
    - destruct (evolve_some _ _ _ _ _ He Hk0) as (c2 & Hc2 & _). exists k0, c2. by rewrite <- tree_cell_at.
    - intros k d1 Hd1 Hka. rewrite <- tree_cell_at in Hd1. pose proof (He mid k) as Hek. rewrite <- !tree_cell_at, Hd1 in Hek.
      destruct (tree_cell trees mid k) as [d|] eqn:Hd; [|done].
      destruct (Hall k d Hd Hka) as [Ho|(i & v & Hiv & Hv & Ht)].
      + destruct (evolve_closed _ _ _ _ _ He Hd Ho) as (d' & Hd' & Ho'). congruence.
      + destruct (sync_closes (V := V) cf ws trees index i mid k v d Hiv Hv Ht Hd) as (d' & Hd' & Ho').
        fold trees1 in Hd'. congruence. }
  assert (NoDup (filter (fun x => held x.2) (map_to_list ws)).*1) as Hnd by apply nodup_filter_fst, NoDup_fst_map_to_list.
  unfold check_barriers.
  rewrite (check_fold e index mandalas _ (mkTree ws trees1 [] false) trees1 wid w mid a c1 (flags_refl _) Hnd Hi Hw Hc1).
  rewrite bool_decide_true.
  2:{ apply list_elem_of_fmap. exists (wid, w). split; [done|]. apply list_elem_of_filter.
      split; [by apply Is_true_true|]. by apply elem_of_map_to_list. }
  unfold ready. rewrite (proj2 (barrier_settled_spec _ a Hwf1) Hset). cbn [orb andb].
  eexists. split; [done|]. unfold held in Hh. apply andb_true_iff in Hh as [_ Hq].
  unfold queued, opened_gate. cbn. by rewrite Hq.
Qed.

(** ** Closure *)

Definition cells_closed (tree : Cells) : Prop := forall a c, tree !! a = Some c -> a <> ROOT -> is_open c = false.

Lemma mandala_closable_spec tree : mandala_closable tree = true <-> cells_closed tree.
Proof.
  unfold mandala_closable, cells_closed. rewrite forallb_forall. split.
  - intros Hall a c Hc Ha. specialize (Hall (a, c) ltac:(by apply list_elem_of_In, elem_of_map_to_list)).
    cbn in Hall. rewrite bool_decide_false in Hall by done. by apply negb_true_iff in Hall.
  - intros Hall [a c] Hin%list_elem_of_In%elem_of_map_to_list. cbn. case_bool_decide; [done|].
    apply negb_true_iff. by eapply Hall.
Qed.

Lemma closable_tree_at trees conductor m :
  closable_for trees conductor m =
  (md_conductor m =? conductor) && negb (bool_decide (md_state m = chars "closed")) && mandala_closable (tree_at trees (md_id m)).
Proof. unfold closable_for, tree_at. by destruct (trees !! md_id m). Qed.

Lemma close_mandala_spec {V : Type} mandalas trees mid :
  let r := @close_mandala V mandalas trees mid in
  r.1.1 = alter (set_md_state (chars "closed")) mid mandalas /\
  forall c, tree_cell r.1.2 mid ROOT = Some c -> is_open c = false.
Proof.
  unfold close_mandala. destruct (tree_cell trees mid ROOT) as [root|] eqn:E; [|split; [done|]; cbn [fst snd]; intros c Hc; by rewrite E in Hc].
  destruct (is_open_state (cell_state root)) eqn:Eo.
  - pose proof (update_cell_lookup (V := V) trees mid ROOT (fun c => set_cell_state (chars "done") (cell_evidence c) c) ROOT) as H.
    destruct (update_cell _ _ _ _) as [t e]. cbn [fst snd] in *. split; [done|]. intros c. rewrite H, decide_True, E by done.
    by intros [= <-].
  - split; [done|]. cbn [fst snd]. rewrite E. by intros c [= <-].
Qed.

Section closure.
Context {V : Type}.

Definition close_step (s : gmap Z MandalaRecord * gmap Z Cells * list (Effect V)) (mid : Z) :
    gmap Z MandalaRecord * gmap Z Cells * list (Effect V) :=
  let '(ms, ts, eff) := s in let '(ms, ts, eff') := close_mandala ms ts mid in (ms, ts, eff ++ eff').

Lemma close_step_fst s mid :
  (close_step s mid).1.1 = alter (set_md_state (chars "closed")) mid s.1.1 /\ trees_evolve s.1.2 (close_step s mid).1.2 /\
  forall c, tree_cell (close_step s mid).1.2 mid ROOT = Some c -> is_open c = false.
Proof.
  destruct s as [[ms ts] eff]. unfold close_step. destruct (close_mandala_spec (V := V) ms ts mid) as [H1 H2].
  pose proof (close_mandala_evolve (V := V) ms ts mid) as H3.
  by destruct (close_mandala ms ts mid) as [[ms' ts'] eff'].
Qed.

Lemma close_fold ids s k :
  let r := foldl close_step s ids in
  r.1.1 !! k = (if bool_decide (k ∈ ids) then set_md_state (chars "closed") <$> s.1.1 !! k else s.1.1 !! k) /\
  trees_evolve s.1.2 r.1.2 /\
  (k ∈ ids -> forall c, tree_cell r.1.2 k ROOT = Some c -> is_open c = false).
Proof.
  revert s. induction ids as [|i ids IH]; intros s; cbn [foldl].
  { split_and!; [done|reflexivity|]. by intros ?%not_elem_of_nil. }
  destruct (close_step_fst s i) as (H1 & H2 & H3). destruct (IH (close_step s i)) as (I1 & I2 & I3).
  split_and!; [|by etrans|].
  - rewrite I1, H1. destruct (decide (k = i)) as [->|Hne].
    + rewrite lookup_alter_eq. rewrite (bool_decide_true (i ∈ i :: ids)) by left.
      case_bool_decide; [|done]. by destruct (s.1.1 !! i).
    + rewrite lookup_alter_ne by done. assert (bool_decide (k ∈ i :: ids) = bool_decide (k ∈ ids)) as ->; [|done].
      apply bool_decide_ext. rewrite elem_of_cons. split; [by intros [->|]|by right].
  - intros [->|Hin]%elem_of_cons; [|by apply I3]. destruct (decide (i ∈ ids)) as [Hin|Hn]; [by apply I3|].
    intros c Hc. destruct (tree_cell (close_step s i).1.2 i ROOT) as [c0|] eqn:E.
    + destruct (evolve_closed _ _ _ _ _ I2 E (H3 _ eq_refl)) as (c' & Hc' & Ho). congruence.
    + specialize (I2 i ROOT). rewrite <- !tree_cell_at, E, Hc in I2. done.
Qed.
End closure.

(** Closure is earned: when its conductor ends, an open mandala of it is closed
    exactly when no cell but the root is open, its root closes with it, and the
    mandalas of other conductors are left alone. *)
Theorem closure_is_earned (V : Type) (mandalas : gmap Z MandalaRecord) (trees : Trees) (conductor k : Z) (m : MandalaRecord) :
  mandalas !! k = Some m -> (forall i m, mandalas !! i = Some m -> md_id m = i) ->
  let r := @try_close_for_conductor V mandalas trees conductor in
  (md_conductor m = conductor /\ md_state m <> chars "closed" /\ cells_closed (tree_at trees k) ->
     r.1.1.1 !! k = Some (set_md_state (chars "closed") m) /\
     forall a c, tree_cell r.1.1.2 k a = Some c -> is_open c = false) /\
  (~ (md_conductor m = conductor /\ md_state m <> chars "closed" /\ cells_closed (tree_at trees k)) ->
     r.1.1.1 !! k = Some m).
Proof.
  intros Hm Hids r. unfold r, try_close_for_conductor.
  set (ids := md_id <$> _). change (foldl _ (mandalas, trees, []) ids) with (foldl (close_step (V := V)) (mandalas, trees, []) ids).
  destruct (close_fold (V := V) ids (mandalas, trees, []) k) as (H1 & H2 & H3).
  destruct (foldl _ _ _) as [[ms ts] eff]. cbn [fst snd] in *.
  assert (k ∈ ids <-> md_conductor m = conductor /\ md_state m <> chars "closed" /\ cells_closed (tree_at trees k)) as Hin.
  { unfold ids. rewrite list_elem_of_fmap. split.
    - intros (m' & -> & [Hin Hc]%list_elem_of_In%filter_In).
      apply list_elem_of_In, list_elem_of_fmap in Hin as ([i m''] & E & Hin%elem_of_map_to_list). cbn in E. subst m''.
      rewrite (Hids _ _ Hin) in *. assert (m' = m) as -> by congruence. rewrite closable_tree_at, (Hids _ _ Hm) in Hc.
      rewrite !andb_true_iff, Z.eqb_eq, negb_true_iff, bool_decide_eq_false, mandala_closable_spec in Hc. naive_solver.
    - intros (Hco & Hst & Hcl). exists m. split; [symmetry; by apply Hids|].
      apply list_elem_of_In, filter_In. split.
      + apply list_elem_of_In, list_elem_of_fmap. exists (k, m). split; [done|]. by apply elem_of_map_to_list.
      + rewrite closable_tree_at, (Hids _ _ Hm). rewrite !andb_true_iff, Z.eqb_eq, negb_true_iff, bool_decide_eq_false, mandala_closable_spec. done. }
  rewrite H1, Hm. split; intros Hcond.
  - rewrite bool_decide_true by by apply Hin. split; [done|]. intros a c Hc.
    destruct (decide (a = ROOT)) as [->|Ha]; [by apply H3; [apply Hin|]|].
    pose proof (H2 k a) as He. rewrite <- !tree_cell_at, Hc in He. destruct (tree_cell trees k a) as [c0|] eqn:E; [|done].
    destruct He as [_ He]. apply not_true_iff_false. intros Ho%He.
    destruct Hcond as (_ & _ & Hcl). rewrite tree_cell_at in E. by rewrite (Hcl a c0 E Ha) in Ho.
  - by rewrite bool_decide_false by by rewrite Hin.
Qed.

(** ** One stillness, one council *)

Section still.
Context {V : Type} `{!Sha256}.

Lemma convened_app (a b : list (Effect V)) : convened (a ++ b) = convened a + convened b.
Proof. unfold convened. by rewrite List.filter_app, zlen_app. Qed.

Lemma convened_reading mid n fp (b : bool) council :
  convened (EReading mid n fp b :: (if b then [EConvene council] else []) : list (Effect V)) = Z.b2z b.
Proof. by destruct b. Qed.

Definition still (mid : Z) (hash fp : text) (base : Z) (s : EpochState (V := V)) : Prop :=
  exists m, es_mandalas s !! mid = Some m /\ inv_hash (md_invariant m) = hash /\
    (convened (es_eff s) = base \/ (convened (es_eff s) = base + 1 /\ md_orbit_fingerprint m = Some fp)).

Lemma roll_still mid hash fp base s i :
  fingerprint_of mid hash i = fp -> still mid hash fp base s -> still mid hash fp base (roll_with mid s i).
Proof.
  intros Hfp (m & Hm & Hh & Hc). unfold roll_with, roll_one. cbn [es_next es_mandalas es_censuses es_eff].
  destruct (es_next s !! mid) as [t|]; [|by exists m]. destruct (_ <? t); [by exists m|]. rewrite Hm.
  unfold fingerprint_of, tree_at in Hfp. destruct (_ =? 0); [by exists m|].
  rewrite lookup_insert_eq, Hh. cbn [default from_option id]. cbn zeta. rewrite Hfp.
  destruct (is_orbit _ _ _) eqn:Eo; cbn [andb]; [case_bool_decide as Hof; cbn [negb]|].
  - exists (roll_record m (ei_census i) fp false (chars "mnd" ++ dec_text mid ++ 101 :: dec_text (as_u64 (md_epoch m + 1)))).
    cbn [es_mandalas es_eff]. rewrite lookup_insert_eq, convened_app, (convened_reading _ _ _ false []), Z.add_0_r. done.
  - eexists. cbn [es_mandalas es_eff]. rewrite lookup_insert_eq, convened_app, (convened_reading _ _ _ true). split_and!; [done..|].
    right. destruct Hc as [Hc|[_ Hc]]; [|done]. rewrite Hc. done.
  - eexists. cbn [es_mandalas es_eff]. rewrite lookup_insert_eq, convened_app, (convened_reading _ _ _ false []), Z.add_0_r. done.
Qed.
End still.

(** An orbit is read once: however many epochs pass over a mandala whose
    evidence, census and remote states keep one fingerprint, at most one
    council is convened for it. *)
Theorem one_council_per_stillness (V : Type) `{!Sha256} (mid : Z) (m : MandalaRecord) (s : EpochState (V := V))
    (inputs : list EpochInput) (fp : text) :
  es_mandalas s !! mid = Some m -> Forall (fun i => fingerprint_of mid (inv_hash (md_invariant m)) i = fp) inputs ->
  convened (es_eff s) <= convened (es_eff (foldl (roll_with mid) s inputs)) <= convened (es_eff s) + 1.
Proof.
  intros Hm Hall.
  assert (still mid (inv_hash (md_invariant m)) fp (convened (es_eff s)) (foldl (roll_with mid) s inputs)) as (m' & _ & _ & Hd).
  { assert (still mid (inv_hash (md_invariant m)) fp (convened (es_eff s)) s) as Hs by (exists m; auto).
    revert Hs. generalize (convened (es_eff s)) as base. clear Hm. intros base. revert s.
    induction Hall as [|i l Hi _ IH]; intros s Hs; [done|]. cbn [foldl]. apply IH. by apply roll_still. }
  destruct Hd as [->|[-> _]]; lia.
Qed.

(** ** Concrete inputs *)

Definition toy_config0 : Config := mkConfig 2 12 0 0 [] (mkPath [RootDir] false) [] true.
Definition toy_ws : gmap Z Worker := {[1 := toy_cell_worker WQueued true; 2 := toy_cell_worker WDone false]}.
Definition toy_env0 (now : Z) : Env := mkEnv now 1010 (fun _ _ => 0) (fun _ => None).
Definition toy_open_gate : CellRecord := default toy_root (tree_cell toy_bound.1.1 1 toy_gate).
Definition toy_ring_cell : CellRecord := default toy_root (tree_cell toy_bound.1.1 1 (chars "0.0.0")).

Lemma only_below (t : Cells) (a only k : Addr) d :
  forallb (fun x => negb (is_ancestor_of a x.1) || bool_decide (x.1 = only)) (map_to_list t) = true ->
  t !! k = Some d -> is_ancestor_of a k = true -> k = only.
Proof.
  rewrite forallb_forall. intros Hall Hd Ha. specialize (Hall (k, d)). cbn [fst] in Hall. rewrite Ha in Hall.
  eapply bool_decide_eq_true_1, Hall, list_elem_of_In, elem_of_map_to_list, Hd.
Qed.

Lemma finished_ring_opens_gate_witness :
  let trees1 := (@sync_cells Toy toy_config0 toy_bound.1.1 toy_bound.1.2 toy_ws).1 in
  exists w', ts_workers (@check_barriers Toy (toy_env0 0) toy_ws trees1 toy_bound.1.2 toy_mandalas) !! 1 = Some w' /\
    queued w' = true /\ w_barrier_held w' = false.
Proof.
  apply (finished_ring_opens_gate Toy toy_config0 (toy_env0 0) toy_ws toy_bound.1.1 toy_bound.1.2 toy_mandalas 1 1 toy_gate (chars "0.0.0")
           (toy_cell_worker WQueued true) toy_open_gate toy_ring_cell).
  - vm_compute. reflexivity.
  - vm_compute. reflexivity.
  - vm_compute. reflexivity.
  - vm_compute. reflexivity.
  - apply wf_cells_check. vm_compute. reflexivity.
  - vm_compute. reflexivity.
  - vm_compute. reflexivity.
  - intros k d Hd Ha. right. exists 2, (toy_cell_worker WDone false). 
    rewrite (only_below (tree_at toy_bound.1.1 1) toy_gate (chars "0.0.0") k d);
      [split_and!; vm_compute; reflexivity|vm_compute; reflexivity|by rewrite <- tree_cell_at|exact Ha].
Defined.

Lemma closure_is_earned_witness :
  let r := @try_close_for_conductor Toy toy_mandalas toy_trees 7 in
  (md_conductor toy_mandala = 7 /\ md_state toy_mandala <> chars "closed" /\ cells_closed (tree_at toy_trees 1) ->
     r.1.1.1 !! 1 = Some (set_md_state (chars "closed") toy_mandala) /\
     forall a c, tree_cell r.1.1.2 1 a = Some c -> is_open c = false) /\
  (~ (md_conductor toy_mandala = 7 /\ md_state toy_mandala <> chars "closed" /\ cells_closed (tree_at toy_trees 1)) ->
     r.1.1.1 !! 1 = Some toy_mandala).
Proof.
  apply (closure_is_earned Toy toy_mandalas toy_trees 7 1 toy_mandala); [vm_compute; reflexivity|].
  intros i m Hm. by apply (toy_mandala_ids i m).
Defined.

(** Three readings of the same stillness. *)
Definition toy_input (now : Z) : EpochInput := mkInput (toy_env0 now) (fun _ => None) toy_bound.1.1 ∅ ∅.
Definition toy_inputs : list EpochInput := [toy_input 0; toy_input EPOCH_PERIOD; toy_input (2 * EPOCH_PERIOD); toy_input (3 * EPOCH_PERIOD)].
Definition toy_epochs : EpochState := @mkEpochs Toy toy_mandalas ∅ ∅ [] false.

Lemma one_council_per_stillness_witness :
  convened (es_eff (foldl (roll_with 1) toy_epochs toy_inputs)) = 1 /\
  convened (es_eff toy_epochs) <= convened (es_eff (foldl (roll_with 1) toy_epochs toy_inputs)) <= convened (es_eff toy_epochs) + 1.
Proof.
  split; [vm_compute; reflexivity|].
  apply (one_council_per_stillness Toy 1 toy_mandala toy_epochs toy_inputs (fingerprint_of 1 (inv_hash toy_invariant) (toy_input 0))).
  - vm_compute. reflexivity.
  - repeat constructor.
Defined.
