(* ===== verification/Identity.v ===== *)
(** * Identities, bindings and hop counts

    [agentd/crates/core/src/identity.rs]: the registry of profiles and agents
    with its file, PINs, per-agent workspace roots, and the per-session maps
    (identity bindings, inbound mesh hops, model pins).  TOML is a class with
    the round trip serde promises; environment variables and the file system's
    answers are arguments. *)
From S2P Require Import Prelude Text Mandala.

(** ** Data *)

Definition DEFAULT_AGENT_ID : text := chars "APEX".
Definition DEFAULT_USER_ID : text := chars "owner".

Record User := mkUser {
  u_id : text;
  u_name : text;
  u_pin_hash : option text;
  u_pin_salt : option text;
  u_default_agent : option text;
  u_default_skin : option text
}.

Record AgentRecord := mkAgent {
  a_id : text;
  a_name : text;
  a_owner : text;
  a_soul_file : text;
  a_default_skin : option text
}.

Record Identities := mkIdentities {
  i_default_user : option text;
  i_users : list User;
  i_agents : list AgentRecord;
  i_persist_blocked : bool
}.

#[export] Instance User_eq_dec : EqDecision User.
Proof. solve_decision. Defined.
#[export] Instance AgentRecord_eq_dec : EqDecision AgentRecord.
Proof. solve_decision. Defined.
#[export] Instance Identities_eq_dec : EqDecision Identities.
Proof. solve_decision. Defined.

Definition Identities_default : Identities := mkIdentities None [] [] false.

(** ** The node *)

(** [$AGENTD_AGENT_ID] unless it is unset or blank. *)
Definition node_agent_id (env : option text) : text :=
  match env with
  | Some s => if bool_decide (trim s = []) then DEFAULT_AGENT_ID else s
  | None => DEFAULT_AGENT_ID
  end.

(** [$APEX_NODE_ID], else what [hostname] prints, else a name. *)
Definition node_id (env hostname : option text) : text :=
  match env with
  | Some s => if bool_decide (trim s = []) then default (chars "apexos")
      (h ← trim <$> hostname; if bool_decide (h = []) then None else Some h) else s
  | None => default (chars "apexos") (h ← trim <$> hostname; if bool_decide (h = []) then None else Some h)
  end.

Definition workspace_base (env : option text) : text :=
  match env with
  | Some s => if bool_decide (s = []) then chars "/var/lib/agentd/workspace" else s
  | None => chars "/var/lib/agentd/workspace"
  end.

Definition path_safe (agent_id : text) : bool :=
  negb (bool_decide (agent_id = [])) && forallb (fun c => is_ascii_alphanumeric c || (c =? 95) || (c =? 45)) agent_id.

(** [base.join("workspaces").join(agent_id)]. *)
Definition agent_workspace_root (base node_agent agent_id : text) : text :=
  if bool_decide (agent_id = node_agent) || negb (path_safe agent_id) then base
  else base ++ chars "/workspaces/" ++ agent_id.

(** ** PINs *)

Definition hash_pin `{Sha256} (pin salt_hex : text) : text := hex_digest (as_bytes salt_hex ++ as_bytes pin).

Definition has_pin (u : User) : bool := is_someb (u_pin_hash u).

(** [set_pin]: [salt] is what [gen_salt] drew. *)
Definition set_pin `{Sha256} (salt pin : text) (u : User) : User :=
  mkUser (u_id u) (u_name u) (Some (hash_pin pin salt)) (Some salt) (u_default_agent u) (u_default_skin u).

Definition clear_pin (u : User) : User :=
  mkUser (u_id u) (u_name u) None None (u_default_agent u) (u_default_skin u).

Definition verify_pin `{Sha256} (u : User) (pin : text) : bool :=
  match u_pin_hash u, u_pin_salt u with
  | Some hash, Some salt => bool_decide (as_bytes (hash_pin pin salt) = as_bytes hash)
  | _, _ => true
  end.

Definition valid_owner_pin (pin : text) : bool :=
  let n := str_len pin in (4 <=? n) && (n <=? 8) && forallb (fun b => (48 <=? b) && (b <=? 57)) (as_bytes pin).

(** ** The registry *)

Definition find_user (ids : Identities) (id : text) : option User :=
  List.find (fun u => bool_decide (u_id u = id)) (i_users ids).
Definition find_agent (ids : Identities) (id : text) : option AgentRecord :=
  List.find (fun a => bool_decide (a_id a = id)) (i_agents ids).

(** [user_mut(id)] and a change: the first user of that id. *)
Fixpoint map_first {A} (p : A -> bool) (f : A -> A) (l : list A) : list A :=
  match l with
  | [] => []
  | x :: l => if p x then f x :: l else x :: map_first p f l
  end.

Definition with_users (us : list User) (ids : Identities) : Identities :=
  mkIdentities (i_default_user ids) us (i_agents ids) (i_persist_blocked ids).
Definition with_agents (l : list AgentRecord) (ids : Identities) : Identities :=
  mkIdentities (i_default_user ids) (i_users ids) l (i_persist_blocked ids).
Definition with_default_user (d : option text) (ids : Identities) : Identities :=
  mkIdentities d (i_users ids) (i_agents ids) (i_persist_blocked ids).

Definition user_mut (id : text) (f : User -> User) (ids : Identities) : Identities :=
  with_users (map_first (fun u => bool_decide (u_id u = id)) f (i_users ids)) ids.

Definition agents_for (ids : Identities) (owner : text) : list AgentRecord :=
  List.filter (fun a => bool_decide (a_owner a = owner)) (i_agents ids).

Definition owner_claimed (ids : Identities) : bool :=
  match find_user ids DEFAULT_USER_ID with Some u => has_pin u | None => false end.

Definition seed_defaults (apex_soul_file : text) (ids : Identities) : Identities * bool :=
  let '(ids, c1) :=
    match find_user ids DEFAULT_USER_ID with
    | Some _ => (ids, false)
    | None => (with_users (i_users ids ++ [mkUser DEFAULT_USER_ID (chars "Owner") None None None None]) ids, true)
    end in
  match find_agent ids DEFAULT_AGENT_ID with
  | Some _ => (ids, c1)
  | None =>
      (with_agents (i_agents ids ++ [mkAgent DEFAULT_AGENT_ID DEFAULT_AGENT_ID DEFAULT_USER_ID apex_soul_file None]) ids, true)
  end.

(** ** The file *)

Class IdentToml := {
  ids_to_toml : Identities -> text;
  ids_of_toml : text -> option Identities
}.
Class IdentTomlLaws `{IdentToml} : Prop := {
  ids_toml_roundtrip ids :
    ids_of_toml (ids_to_toml ids) = Some (mkIdentities (i_default_user ids) (i_users ids) (i_agents ids) false)
}.

(** The directory of the registry: the file and what is set aside beside it. *)
Record ConfigDir := mkDir {
  cd_file : option text;
  cd_corrupt : option text;
  cd_corrupt_ts : gmap Z text
}.

(** How a read and a write of the file fare.  A failed write in place may leave
    a torn file. *)
Inductive ReadFault := ReadFine | ReadFault_.
Inductive WriteFault :=
  | WriteFine
  | TmpFailed
  | TmpDenied (in_place : option (option text)).

Inductive IdentitiesLoadError := NotFound | Io | Parse.

Definition with_file (f : option text) (d : ConfigDir) : ConfigDir := mkDir f (cd_corrupt d) (cd_corrupt_ts d).

(** Temp and rename; denied the directory, in place. *)
Definition write_config_atomic (w : WriteFault) (body : text) (d : ConfigDir) : ConfigDir * bool :=
  match w with
  | WriteFine => (with_file (Some body) d, true)
  | TmpFailed => (d, false)
  | TmpDenied None => (with_file (Some body) d, true)
  | TmpDenied (Some torn) => (with_file torn d, false)
  end.

Section file.
Context `{IdentToml}.

Definition try_load (r : ReadFault) (d : ConfigDir) : result Identities IdentitiesLoadError :=
  match cd_file d, r with
  | None, _ => Err NotFound
  | Some _, ReadFault_ => Err Io
  | Some s, ReadFine => ok_or (ids_of_toml s) Parse
  end.

(** [rename_ok]: whether the rename goes through. *)
Definition quarantine (rename_ok : bool) (ts : Z) (d : ConfigDir) : ConfigDir :=
  if rename_ok then
    match cd_file d with
    | None => d
    | Some s =>
        match cd_corrupt d with
        | Some _ => mkDir None (cd_corrupt d) (<[ts := s]> (cd_corrupt_ts d))
        | None => mkDir None (Some s) (cd_corrupt_ts d)
        end
    end
  else d.

Definition save (w : WriteFault) (ids : Identities) (d : ConfigDir) : ConfigDir * bool :=
  if i_persist_blocked ids then (d, false) else write_config_atomic w (ids_to_toml ids) d.

Definition commit (w : WriteFault) (self next : Identities) (d : ConfigDir) : Identities * ConfigDir * bool :=
  let '(d, ok) := save w next d in ((if ok then next else self), d, ok).

Definition boot_load (r : ReadFault) (w : WriteFault) (rename_ok : bool) (ts : Z) (apex_soul_file : text) (d : ConfigDir)
    : Identities * ConfigDir :=
  match try_load r d with
  | Ok ids =>
      let '(ids, changed) := seed_defaults apex_soul_file ids in
      (ids, if changed then (save w ids d).1 else d)
  | Err NotFound =>
      let ids := (seed_defaults apex_soul_file Identities_default).1 in (ids, (save w ids d).1)
  | Err Parse => (mkIdentities None [] [] true, quarantine rename_ok ts d)
  | Err Io => (mkIdentities None [] [] true, d)
  end.
End file.

(** ** Per-session maps *)

(** [None]: the lock is poisoned. *)
Definition resolve_agent_id (node_agent : text) (bindings : option (gmap Z text)) (session : Z) : text :=
  default node_agent (bindings ≫= (fun m => m !! session)).

Definition worker_model_for (models : option (gmap Z text)) (session : Z) : option text :=
  models ≫= (fun m => m !! session).

Definition MESH_HOP_LIMIT : Z := 3.

Inductive MeshHopsError := HopsMissing | HopsInvalid | HopsLimit.

Definition parse_mesh_hops (raw : option text) : result Z MeshHopsError :=
  match (s ← trim <$> raw; if bool_decide (s = []) then None else Some s) with
  | None => Err HopsMissing
  | Some s =>
      n <-! ok_or (parse_u32 s) HopsInvalid;
      if n =? 0 then Err HopsInvalid else if MESH_HOP_LIMIT <=? n then Err HopsLimit else Ok n
  end.

Definition next_mesh_hops (stored : Z) : result Z MeshHopsError :=
  let n := sat_add32 stored 1 in if MESH_HOP_LIMIT <=? n then Err HopsLimit else Ok n.

Definition mesh_hops_get (m : option (gmap Z Z)) (session : Z) : Z := default 0 (m ≫= (fun m => m !! session)).

Definition mesh_hops_set (m : option (gmap Z Z)) (session hops : Z) : option (gmap Z Z) := insert session hops <$> m.

(** ** The registry's promises *)

Lemma map_first_find {A} (p : A -> bool) (f : A -> A) (l : list A) x :
  (forall x, p (f x) = p x) -> List.find p l = Some x -> List.find p (map_first p f l) = Some (f x).
Proof.
  intros Hf. induction l as [|y l IH]; [done|]. cbn [List.find map_first].
  destruct (p y) eqn:E; cbn [List.find]; [rewrite Hf, E; by intros [= <-]|rewrite E; exact IH].
Qed.

Lemma find_app_r {A} (p : A -> bool) (l l' : list A) : List.find p l = None -> List.find p (l ++ l') = List.find p l'.
Proof. induction l as [|x l IH]; [done|]. cbn [app List.find]. by destruct (p x). Qed.

Lemma seed_defaults_spec soul ids :
  let ids' := (seed_defaults soul ids).1 in
  is_Some (find_user ids' DEFAULT_USER_ID) /\ is_Some (find_agent ids' DEFAULT_AGENT_ID) /\
  owner_claimed ids' = owner_claimed ids /\ i_persist_blocked ids' = i_persist_blocked ids /\
  ((seed_defaults soul ids).2 = false -> ids' = ids) /\
  (seed_defaults soul ids').2 = false.
Proof.
  unfold seed_defaults, owner_claimed.
  destruct (find_user ids DEFAULT_USER_ID) as [u|] eqn:Eu.
  - destruct (find_agent ids DEFAULT_AGENT_ID) as [a|] eqn:Ea; cbn [fst snd].
    + rewrite Eu, Ea. eauto 10.
    + assert (forall l, find_user (with_agents l ids) DEFAULT_USER_ID = Some u) as -> by done.
      assert (find_agent (with_agents (i_agents ids ++ [mkAgent DEFAULT_AGENT_ID DEFAULT_AGENT_ID DEFAULT_USER_ID soul None]) ids) DEFAULT_AGENT_ID
              = Some (mkAgent DEFAULT_AGENT_ID DEFAULT_AGENT_ID DEFAULT_USER_ID soul None)) as ->.
      { unfold find_agent. cbn [with_agents i_agents]. by rewrite find_app_r. }
      cbn. split_and!; eauto. done.
  - assert (find_user (with_users (i_users ids ++ [mkUser DEFAULT_USER_ID (chars "Owner") None None None None]) ids) DEFAULT_USER_ID
            = Some (mkUser DEFAULT_USER_ID (chars "Owner") None None None None)) as Hu.
    { unfold find_user. cbn [with_users i_users]. by rewrite find_app_r. }
    set (ids1 := with_users _ ids) in *.
    assert (find_agent ids1 DEFAULT_AGENT_ID = find_agent ids DEFAULT_AGENT_ID) as Ha by done.
    destruct (find_agent ids1 DEFAULT_AGENT_ID) as [a|] eqn:Ea; cbn [fst snd].
    + rewrite Hu, Ea. cbn. split_and!; eauto. done.
    + assert (forall l, find_user (with_agents l ids1) DEFAULT_USER_ID = find_user ids1 DEFAULT_USER_ID) as -> by done.
      rewrite Hu.
      assert (find_agent (with_agents (i_agents ids1 ++ [mkAgent DEFAULT_AGENT_ID DEFAULT_AGENT_ID DEFAULT_USER_ID soul None]) ids1) DEFAULT_AGENT_ID
              = Some (mkAgent DEFAULT_AGENT_ID DEFAULT_AGENT_ID DEFAULT_USER_ID soul None)) as ->.
      { unfold find_agent. cbn [with_agents i_agents]. by rewrite find_app_r. }
      cbn. split_and!; eauto. done.
Qed.

(** The bytes a directory holds, wherever they are. *)
Definition holds (d : ConfigDir) (s : text) : Prop :=
  cd_file d = Some s \/ cd_corrupt d = Some s \/ exists t, cd_corrupt_ts d !! t = Some s.

(** A daemon that started on a damaged file [s], and the writes it tried. *)
Inductive blocked_run `{IdentToml} (s : text) : Identities -> ConfigDir -> Prop :=
  | br_boot r w ok ts soul d :
      cd_file d = Some s -> r = ReadFault_ \/ ids_of_toml s = None ->
      blocked_run s (boot_load r w ok ts soul d).1 (boot_load r w ok ts soul d).2
  | br_commit w f self d :
      blocked_run s self d -> (forall i, i_persist_blocked (f i) = i_persist_blocked i) ->
      blocked_run s (commit w self (f self) d).1.1 (commit w self (f self) d).1.2.

(** Corruption is not absence: while a daemon runs that found its registry
    unreadable or unparseable, every write is refused, memory keeps the empty
    registry, the node cannot be claimed, and the damaged bytes stay in the
    directory. *)
Theorem corrupt_registry_is_kept `{IdentToml} (s : text) (self : Identities) (d : ConfigDir) :
  blocked_run s self d ->
  self = mkIdentities None [] [] true /\ owner_claimed self = false /\ holds d s.
Proof.
  intros Hrun. assert (self = mkIdentities None [] [] true /\ holds d s) as [-> Hh]; [|done].
  induction Hrun as [r w ok ts soul d Hf Hbad|w f self d _ [-> Hh] Hfun].
  - unfold boot_load, try_load. rewrite Hf.
    destruct r; [destruct Hbad as [?|Hbad]; [done|]; rewrite Hbad|]; cbn [ok_or fst snd]; (split; [done|]); [|by left].
    unfold quarantine, holds. rewrite Hf. destruct ok; [|by left].
    destruct (cd_corrupt d); cbn; [right; right; exists ts; apply lookup_insert_eq|by right; left].
  - unfold commit, save. by rewrite Hfun.
Qed.

(** One restart undoes it: the quarantine moved the file away, so the next
    start finds none, seeds a fresh owner without a PIN and stores it. *)
Theorem second_boot_reseeds `{IdentToml} (s soul : text) (w w' : WriteFault) (ts ts' : Z) (ok' : bool) (d : ConfigDir) :
  cd_file d = Some s -> ids_of_toml s = None ->
  let d1 := (boot_load ReadFine w true ts soul d).2 in
  let b2 := boot_load ReadFine w' ok' ts' soul d1 in
  cd_file d1 = None /\ i_persist_blocked b2.1 = false /\ is_Some (find_user b2.1 DEFAULT_USER_ID) /\
  owner_claimed b2.1 = false.
Proof.
  intros Hf Hbad d1 b2.
  assert (cd_file d1 = None) as Hd1.
  { unfold d1, boot_load, try_load. rewrite Hf, Hbad. cbn [ok_or snd]. unfold quarantine. rewrite Hf. by destruct (cd_corrupt d). }
  split; [done|]. unfold b2, boot_load, try_load. rewrite Hd1. cbn [fst].
  destruct (seed_defaults_spec soul Identities_default) as (Hu & _ & Hc & Hb & _). rewrite Hc, Hb. done.
Qed.

(** A commit is all or nothing in memory, and what it stored is what the next
    start loads. *)
Theorem commit_survives_restart `{IdentTomlLaws} (w w' : WriteFault) (ok ok' : bool) (ts : Z) (soul : text)
    (self next : Identities) (d : ConfigDir) :
  is_Some (find_user next DEFAULT_USER_ID) -> is_Some (find_agent next DEFAULT_AGENT_ID) ->
  let '(self', d', done) := commit w self next d in
  (done = true -> self' = next /\ boot_load ReadFine w' ok ts soul d' = (next, d')) /\ (done = false -> self' = self).
Proof.
  intros Hu Ha. unfold commit, save. destruct (i_persist_blocked next) eqn:Eb; [done|].
  destruct (write_config_atomic w (ids_to_toml next) d) as [d' fine] eqn:Ew. split; [|by intros ->]. intros ->. split; [done|].
  assert (cd_file d' = Some (ids_to_toml next)) as Hf.
  { unfold write_config_atomic in Ew. destruct w as [| |[]]; by injection Ew as <-. }
  unfold boot_load, try_load. rewrite Hf, ids_toml_roundtrip. cbn [ok_or].
  replace (mkIdentities (i_default_user next) (i_users next) (i_agents next) false) with next by (destruct next; cbn in *; congruence).
  unfold seed_defaults. destruct Hu as [u ->], Ha as [a ->]. done.
Qed.

(** A PIN that was set is accepted, and what is accepted hashes the same. *)
Lemma verify_set_pin `{Sha256} salt pin p u :
  verify_pin (set_pin salt pin u) p = true <-> as_bytes (hash_pin p salt) = as_bytes (hash_pin pin salt).
Proof. unfold verify_pin, set_pin. cbn. apply bool_decide_eq_true. Qed.

(** *** Workspaces *)

(** Whatever the id of an agent, its workspace is the node's base or a direct
    child of [base/workspaces] whose name has no separator and no dot. *)
Theorem workspace_root_confined (base node_agent agent_id : text) :
  let root := agent_workspace_root base node_agent agent_id in
  root = base \/
  (root = base ++ chars "/workspaces/" ++ agent_id /\ agent_id <> [] /\ agent_id <> node_agent /\
   Forall (fun c => c <> 47 /\ c <> 46 /\ c <> 0) agent_id).
Proof.
  unfold agent_workspace_root. case_bool_decide as Hn; [by left|]. cbn [orb].
  destruct (path_safe agent_id) eqn:E; [|by left]. right. unfold path_safe in E.
  apply andb_true_iff in E as [Hne Hall]. apply negb_true_iff, bool_decide_eq_false in Hne.
  split_and!; [done..|]. rewrite forallb_forall in Hall. apply Forall_forall. intros c Hc%list_elem_of_In%Hall.
  unfold is_ascii_alphanumeric in Hc. lia.
Qed.

(** *** Hop counts *)

Lemma parse_hops_dec n : 0 <= n <= 3 -> parse_mesh_hops (Some (dec_text n)) =
  if n =? 0 then Err HopsInvalid else if MESH_HOP_LIMIT <=? n then Err HopsLimit else Ok n.
Proof.
  intros Hn. assert (n = 0 \/ n = 1 \/ n = 2 \/ n = 3) as [->|[->|[->| ->]]] by lia; vm_compute; reflexivity.
Qed.

(** A chain of delegations: each session stores the count its request carried,
    and sends the next one. *)
Inductive delegated : nat -> Z -> Prop :=
  | dg_local : delegated 0 0
  | dg_hop n stored k stored' :
      delegated n stored -> next_mesh_hops stored = Ok k -> parse_mesh_hops (Some (dec_text k)) = Ok stored' ->
      delegated (S n) stored'.

(** Delegation over the mesh ends: the count is the length of the chain, no
    chain is longer than two hops, every count a node may send is accepted, and
    past the last one there is none to send and the limit itself is refused. *)
Theorem delegation_terminates (n : nat) (stored : Z) :
  delegated n stored ->
  stored = Z.of_nat n /\ (n <= 2)%nat /\
  (next_mesh_hops stored = Ok (stored + 1) /\ parse_mesh_hops (Some (dec_text (stored + 1))) = Ok (stored + 1) \/
   n = 2%nat /\ next_mesh_hops stored = Err HopsLimit /\ parse_mesh_hops (Some (dec_text MESH_HOP_LIMIT)) = Err HopsLimit).
Proof.
  intros Hd. assert (stored = Z.of_nat n /\ (n <= 2)%nat) as [-> Hn].
  { induction Hd as [|n stored k stored' _ [-> Hn] Hk Hp]; [lia|].
    unfold next_mesh_hops, sat_add32, MESH_HOP_LIMIT in Hk.
    destruct (Z.leb_spec 3 (Z.min (Z.of_nat n + 1) u32_max)); [done|]. injection Hk as <-. unfold u32_max in *.
    rewrite Z.min_l in Hp by lia. rewrite parse_hops_dec in Hp by lia. unfold MESH_HOP_LIMIT in Hp.
    destruct (Z.eqb_spec (Z.of_nat n + 1) 0); [done|]. destruct (Z.leb_spec 3 (Z.of_nat n + 1)); [done|]. injection Hp as <-. lia. }
  split_and!; [done..|]. do 3 (destruct n as [|n]; [first [left; vm_compute; by split|right; vm_compute; by split_and!]|]). lia.
Qed.

(** ** Concrete inputs *)

Definition user_tuple (u : User) := (u_id u, u_name u, u_pin_hash u, u_pin_salt u, u_default_agent u, u_default_skin u).
Definition agent_tuple (a : AgentRecord) := (a_id a, a_name a, a_owner a, a_soul_file a, a_default_skin a).

(** A codec: the number [countable] gives the stored fields. *)
#[export] Instance ToyIdent : IdentToml := {|
  ids_to_toml ids := code_json (i_default_user ids, user_tuple <$> i_users ids, agent_tuple <$> i_agents ids);
  ids_of_toml t :=
    '(d, us, ags) ← uncode_json t;
    Some (mkIdentities d ((fun '(a, b, c, e, f, g) => mkUser a b c e f g) <$> us)
            ((fun '(a, b, c, e, f) => mkAgent a b c e f) <$> ags) false)
|}.

#[export] Instance ToyIdentLaws : IdentTomlLaws.
Proof.
  split. intros ids. unfold ids_of_toml, ids_to_toml, ToyIdent. rewrite uncode_code. cbn [mbind option_bind].
  do 2 f_equal; rewrite <- list_fmap_compose; rewrite <- list_fmap_id; apply list_fmap_ext; by intros i [].
Qed.

Definition seeded : Identities := (seed_defaults (chars "apex.md") (mkIdentities None [] [] false)).1.
Definition empty_dir : ConfigDir := mkDir None None ∅.

Lemma corrupt_registry_is_kept_witness :
  let b := boot_load ReadFine WriteFine true 1000 (chars "apex.md") (mkDir (Some (chars "{")) None ∅) in
  let c := commit WriteFine b.1 (with_default_user (Some (chars "owner")) b.1) b.2 in
  c.1.1 = mkIdentities None [] [] true /\ owner_claimed c.1.1 = false /\ holds c.1.2 (chars "{").
Proof.
  intros b c. apply (corrupt_registry_is_kept (chars "{") c.1.1 c.1.2).
  apply (br_commit _ WriteFine (with_default_user (Some (chars "owner")))); [|done].
  apply br_boot; [done|]. right. vm_compute. reflexivity.
Defined.

Lemma commit_survives_restart_witness :
  let next := with_default_user (Some (chars "owner")) seeded in
  let '(self', d', done) := commit WriteFine seeded next empty_dir in
  (done = true -> self' = next /\ boot_load ReadFine WriteFine true 1000 (chars "apex.md") d' = (next, d')) /\ (done = false -> self' = seeded).
Proof.
  intros next. apply (commit_survives_restart WriteFine WriteFine true true 1000 (chars "apex.md") seeded next empty_dir);
    vm_compute; eauto.
Defined.

Lemma second_boot_reseeds_witness :
  let d1 := (boot_load ReadFine WriteFine true 1000 (chars "apex.md") (mkDir (Some (chars "{")) None ∅)).2 in
  let b2 := boot_load ReadFine WriteFine true 2000 (chars "apex.md") d1 in
  cd_file d1 = None /\ i_persist_blocked b2.1 = false /\ is_Some (find_user b2.1 DEFAULT_USER_ID) /\ owner_claimed b2.1 = false.
Proof.
  apply (second_boot_reseeds (chars "{") (chars "apex.md") WriteFine WriteFine 1000 2000 true (mkDir (Some (chars "{")) None ∅));
    vm_compute; reflexivity.
Defined.

Lemma delegation_terminates_witness :
  2 = Z.of_nat 2 /\ (2 <= 2)%nat /\
  (next_mesh_hops 2 = Ok 3 /\ parse_mesh_hops (Some (dec_text 3)) = Ok 3 \/
   2%nat = 2%nat /\ next_mesh_hops 2 = Err HopsLimit /\ parse_mesh_hops (Some (dec_text MESH_HOP_LIMIT)) = Err HopsLimit).
Proof.
  apply (delegation_terminates 2 2).
  apply (dg_hop 1 1 2 2); [|vm_compute; reflexivity|vm_compute; reflexivity].
  apply (dg_hop 0 0 1 1); [constructor|vm_compute; reflexivity|vm_compute; reflexivity].
Defined.
