(* ===== verification/Auth.v ===== *)
(** * Sessions, PINs and the gates of the gateway

    [agentd/crates/gateway/src/session_auth.rs] and the authentication half of
    [agentd/crates/gateway/src/lib.rs]: the token store, roles, the PIN
    lockout, the three middlewares, the route table, and the login, setup and
    identity handlers.  Instants are milliseconds.  Percent decoding and the
    random bytes are third-party; a handler's reply is its meaning. *)
From S2P Require Import Prelude Text Mandala Identity.

(** ** Roles *)

Definition SESSION_TTL_SECS : Z := 24 * 60 * 60.

Inductive AuthRole := Owner | UserRole.

#[export] Instance AuthRole_eq_dec : EqDecision AuthRole.
Proof. solve_decision. Defined.

Definition for_user_id (user_id : text) : AuthRole := if bool_decide (user_id = DEFAULT_USER_ID) then Owner else UserRole.

Definition role_privileged (r : AuthRole) : bool := match r with Owner => true | UserRole => false end.

Record SessionAuth := mkAuth { sa_user : text; sa_agent : text; sa_role : AuthRole }.

Definition SessionAuth_new (user_id agent_id : text) : SessionAuth := mkAuth user_id agent_id (for_user_id user_id).

(** What authorised a request: the node token, a login, or a peer's inbound
    mesh token ([MeshPeerAuth], set by the mesh gate only). *)
Inductive RequestAuth := Admin | Session (a : SessionAuth).

Definition is_privileged (r : RequestAuth) : bool := match r with Admin => true | Session a => role_privileged (sa_role a) end.

Definition lan_login_open (owner_claimed : bool) : bool := owner_claimed.

Definition setup_permitted (owner_claimed loopback admin_token : bool) : bool := negb owner_claimed && (loopback || admin_token).

Definition login_permitted (owner_claimed loopback profile_has_pin : bool) : bool :=
  if negb owner_claimed then false else profile_has_pin || loopback.

(** ** Who owns a session *)

(** The [.owner] files: a file of this id, its content. *)
Abbreviation Owners := (gmap Z text) (only parsing).

Definition write_session_owner (write_ok : bool) (owners : Owners) (id : Z) (user_id : text) : gmap Z text :=
  if bool_decide (user_id = []) then owners
  else match owners !! id with
       | Some _ => owners
       | None => if write_ok then <[id := user_id]> owners else owners
       end.

Definition read_session_owner (owners : Owners) (id : Z) : option text :=
  s ← trim <$> owners !! id; if bool_decide (s = []) then None else Some s.

Definition session_visible_to (owners : Owners) (id : Z) (auth : SessionAuth) : bool :=
  match read_session_owner owners id with
  | None => role_privileged (sa_role auth)
  | Some owner => bool_decide (owner = sa_user auth)
  end.

Definition session_ok (owners : Owners) (id : Z) (auth : RequestAuth) : bool :=
  match auth with Admin => true | Session a => session_visible_to owners id a end.

(** ** The token store *)

Record Entry := mkEntry { en_auth : SessionAuth; en_expires : Z }.
Abbreviation SessionStore := (gmap text Entry) (only parsing).

Definition store_insert (s : SessionStore) (token : text) (auth : SessionAuth) (now ttl : Z) : gmap text Entry :=
  <[token := mkEntry auth (now + ttl)]> s.

Definition store_verify (s : SessionStore) (token : text) (now : Z) : option SessionAuth :=
  if bool_decide (token = []) then None
  else match s !! token with Some e => if now <? en_expires e then Some (en_auth e) else None | None => None end.

Definition store_revoke (s : SessionStore) (token : text) : gmap text Entry * bool :=
  (delete token s, is_someb (s !! token)).

Definition store_sweep (s : SessionStore) (now : Z) : gmap text Entry :=
  filter (fun x => now < en_expires x.2) s.

Definition gate_agent_bind (auth : SessionAuth) (requested : text) (owned : list text) : option text :=
  let owns a := negb (bool_decide (a = [])) && bool_decide (a ∈ owned) in
  if owns requested then Some requested else if owns (sa_agent auth) then Some (sa_agent auth) else None.

(** [buf]: the 32 bytes read, if the read went through. *)
Definition gen_session_token (buf : option bytes) : text := concat (hex2 <$> default (repeat 0 32) buf).

(** ** The guess lockout *)

Record PinLockout := mkLockout { pl_fails : Z; pl_locked_until : option Z }.
Definition PinLockout_default : PinLockout := mkLockout 0 None.

Definition PIN_MAX_FAILS : Z := 5.
Definition PIN_LOCKOUT_SECS : Z := 300.

Definition locked_for (l : PinLockout) (now : Z) : option Z :=
  u ← pl_locked_until l; if now <? u then Some ((u - now) / 1000) else None.

Definition record (l : PinLockout) (ok : bool) (now : Z) : PinLockout :=
  if ok then mkLockout 0 None
  else
    let fails := pl_fails l + 1 in
    if PIN_MAX_FAILS <=? fails then mkLockout 0 (Some (now + PIN_LOCKOUT_SECS * 1000)) else mkLockout fails (pl_locked_until l).

Abbreviation Lockouts := (gmap text PinLockout) (only parsing).

Definition lock_check (lk : Lockouts) (user : text) (now : Z) : option Z := l ← lk !! user; locked_for l now.

(** [lk.entry(user).or_default().record(ok, now)], and what it leaves. *)
Definition lock_record (lk : Lockouts) (user : text) (ok : bool) (now : Z) : gmap text PinLockout * option Z :=
  let l := record (default PinLockout_default (lk !! user)) ok now in (<[user := l]> lk, locked_for l now).

(** ** Requests *)

(** The [Authorization] header that is a string, and the raw query. *)
Record Request := mkRequest { rq_auth_header : option text; rq_query : option text }.

Class PercentDecode := { percent_decode : text -> text }.

Definition tokens_match (provided expected : text) : bool := bool_decide (as_bytes provided = as_bytes expected).

Definition bearer_of (h : option text) : text := default [] (h ≫= strip_prefix (chars "Bearer ")).

Fixpoint find_map {A B} (f : A -> option B) (l : list A) : option B :=
  match l with [] => None | x :: l => match f x with Some y => Some y | None => find_map f l end end.

Section gates.
Context `{PercentDecode}.

Definition bearer_from_req (r : Request) : text * text :=
  (bearer_of (rq_auth_header r),
   percent_decode (default [] (find_map (strip_prefix (chars "token=")) (split_on 38 (default [] (rq_query r)))))).

(** [None] is 401. *)
Definition require_token (api_token : text) (sessions : SessionStore) (now : Z) (r : Request) : option RequestAuth :=
  if bool_decide (api_token = []) then Some Admin
  else
    let '(from_header, from_query) := bearer_from_req r in
    if tokens_match from_header api_token then Some Admin
    else if tokens_match from_query api_token then Some Admin
    else if negb (bool_decide (from_header = [])) || negb (bool_decide (from_query = [])) then
      Session <$> match store_verify sessions from_header now with
                  | Some a => Some a
                  | None => store_verify sessions from_query now
                  end
    else None.

Definition require_admin (auth : option RequestAuth) : bool :=
  match auth with Some a => is_privileged a | None => false end.

Definition request_is_admin_token (api_token : text) (r : Request) : bool :=
  if bool_decide (api_token = []) then false else tokens_match (bearer_of (rq_auth_header r)) api_token.

(** [peer_of]: which registered peer an inbound token belongs to. *)
Definition require_mesh_or_admin (api_token : text) (sessions : SessionStore) (peer_of : text -> option text) (now : Z)
    (r : Request) : option (RequestAuth + text) :=
  let '(from_header, from_query) := bearer_from_req r in
  if bool_decide (api_token = []) || tokens_match from_header api_token || tokens_match from_query api_token
  then Some (inl Admin)
  else
    match match store_verify sessions from_header now with
          | Some a => Some a
          | None => store_verify sessions from_query now
          end with
    | Some a => Some (inl (Session a))
    | None => inr <$> peer_of (if bool_decide (from_header = []) then from_query else from_header)
    end.

Definition resolve_req_auth (sessions : SessionStore) (now : Z) (r : Request) : option SessionAuth :=
  store_verify sessions (bearer_of (rq_auth_header r)) now.

Definition resolve_ws_auth (sessions : SessionStore) (now : Z) (r : Request) : option SessionAuth :=
  let '(from_header, from_query) := bearer_from_req r in
  match store_verify sessions from_header now with Some a => Some a | None => store_verify sessions from_query now end.
End gates.

(** ** The route table *)

Inductive Method := GET | POST | DELETE.
#[export] Instance Method_eq_dec : EqDecision Method.
Proof. solve_decision. Defined.

Abbreviation Route := (Method * string)%type (only parsing).

Definition user_gated : list Route :=
  [ (GET, "/ws"); (GET, "/api/status"); (GET, "/api/model"); (GET, "/api/models"); (GET, "/api/cache");
    (GET, "/api/history"); (GET, "/api/session-rag"); (GET, "/api/usage"); (GET, "/api/thermal/frame");
    (GET, "/api/backend"); (GET, "/api/soul"); (GET, "/api/evolution/history"); (GET, "/api/evolution/stats");
    (GET, "/api/sessions"); (GET, "/api/sessions/active"); (GET, "/api/events/recent");
    (DELETE, "/api/sessions/{id}"); (POST, "/api/sessions/{id}/archive"); (POST, "/api/sessions/{id}/consolidate");
    (POST, "/api/sessions/{id}/image"); (GET, "/api/workspace/images"); (GET, "/api/workspace/texts");
    (GET, "/api/workspace/list"); (GET, "/api/workspace/read"); (GET, "/api/workspace/download");
    (POST, "/api/workspace/upload"); (POST, "/api/workspace/mkdir"); (POST, "/api/workspace/delete");
    (POST, "/api/workspace/rename"); (POST, "/api/workspace/move"); (POST, "/api/workspace/copy");
    (GET, "/api/media/candidates"); (GET, "/api/snapshot"); (GET, "/api/sonus/files"); (GET, "/api/sonus/stream");
    (POST, "/api/sonus/play"); (POST, "/api/sonus/stop"); (POST, "/api/transcribe"); (POST, "/api/record/start");
    (POST, "/api/record/stop"); (POST, "/api/wake"); (POST, "/api/speak"); (POST, "/api/tts"); (GET, "/api/council");
    (GET, "/api/council/{id}"); (GET, "/api/capabilities"); (GET, "/api/sensors/config"); (GET, "/api/voice");
    (GET, "/api/imaginarium"); (GET, "/api/courier/status"); (GET, "/api/mesh/nodes"); (GET, "/api/mesh/peers");
    (GET, "/api/mesh/inbox"); (POST, "/api/mesh/inbox/read"); (GET, "/api/mesh/pair/status"); (GET, "/api/vast/recipes");
    (GET, "/api/vast/status"); (GET, "/api/vast/offers"); (GET, "/api/vast/hf-search"); (GET, "/api/audio/files");
    (POST, "/api/audio/analyze"); (POST, "/api/audio/waveform"); (POST, "/api/audio/process"); (GET, "/api/notes");
    (POST, "/api/notes/read"); (POST, "/api/notes/write"); (POST, "/api/sketch"); (GET, "/api/sketch/latest");
    (POST, "/api/auth/logout"); (GET, "/api/auth/me") ]%string.

Definition admin_gated : list Route :=
  [ (GET, "/terminal-ws"); (POST, "/api/key"); (GET, "/api/keys"); (POST, "/api/keys"); (POST, "/api/model");
    (POST, "/api/cache"); (POST, "/api/history"); (POST, "/api/session-rag"); (POST, "/api/backend");
    (GET, "/api/compute/discover"); (POST, "/api/policy"); (GET, "/api/policy/rules"); (POST, "/api/soul");
    (POST, "/api/power"); (POST, "/api/sessions/export"); (POST, "/api/media/eject"); (POST, "/api/media/plugged");
    (POST, "/api/media/prep"); (POST, "/api/run"); (POST, "/api/council"); (POST, "/api/council/{id}/butt-in");
    (POST, "/api/sensors/config"); (POST, "/api/voice"); (POST, "/api/mesh/peers"); (DELETE, "/api/mesh/peers/{id}");
    (POST, "/api/mesh/pair/start"); (POST, "/api/mesh/pair/redeem"); (POST, "/api/mesh/gossip");
    (POST, "/api/vast/recipes"); (GET, "/api/identities"); (POST, "/api/identities/user");
    (POST, "/api/identities/agent"); (POST, "/api/identities/verify"); (POST, "/api/auth/default") ]%string.

Definition mesh_in : list Route :=
  [ (POST, "/api/sessions/{id}/message"); (POST, "/api/spawn"); (POST, "/api/worker/fanout"); (POST, "/api/worker/query");
    (POST, "/api/worker/cancel"); (POST, "/api/worker/report"); (POST, "/api/mesh/file"); (POST, "/api/courier/manifest");
    (POST, "/api/courier/receipt"); (POST, "/api/mesh/memory"); (POST, "/api/mesh/recall") ]%string.

Definition open_routes : list Route :=
  [ (GET, "/sensor-bridge"); (GET, "/mesh-bridge"); (POST, "/api/mesh/pair/claim"); (POST, "/api/mesh/pair/confirm");
    (POST, "/api/auth/login"); (POST, "/api/auth/setup"); (GET, "/api/auth/profiles"); (GET, "/api/ping");
    (GET, "/api/connectivity") ]%string.

(** Whether a request reaches the handler of a route of the table. *)
Definition reaches `{PercentDecode} (api_token : text) (sessions : SessionStore) (peer_of : text -> option text) (now : Z)
    (r : Request) (route : Route) : bool :=
  if bool_decide (route ∈ user_gated) then is_someb (require_token api_token sessions now r)
  else if bool_decide (route ∈ admin_gated) then require_admin (require_token api_token sessions now r)
  else if bool_decide (route ∈ mesh_in) then is_someb (require_mesh_or_admin api_token sessions peer_of now r)
  else true.

(** ** Handlers *)

(** What the identity handlers share. *)
Record AuthState := mkState {
  st_ids : Identities;
  st_dir : ConfigDir;
  st_locks : gmap text PinLockout;
  st_sessions : gmap text Entry;
  st_souls : list text
}.

Definition with_ids (ids : Identities) (d : ConfigDir) (s : AuthState) : AuthState :=
  mkState ids d (st_locks s) (st_sessions s) (st_souls s).
Definition with_locks (l : gmap text PinLockout) (s : AuthState) : AuthState :=
  mkState (st_ids s) (st_dir s) l (st_sessions s) (st_souls s).
Definition with_sessions (l : gmap text Entry) (s : AuthState) : AuthState :=
  mkState (st_ids s) (st_dir s) (st_locks s) l (st_souls s).

(** [trim_matches(c)]. *)
Fixpoint trim_start_matches (c : Z) (s : text) : text :=
  match s with x :: r => if x =? c then trim_start_matches c r else s | [] => [] end.
Definition trim_matches (c : Z) (s : text) : text := rev (trim_start_matches c (rev (trim_start_matches c s))).

(** After the mapping only ASCII is left, so the case maps are ASCII's. *)
Definition ascii_upper (c : Z) : Z := if (97 <=? c) && (c <=? 122) then c - 32 else c.
Definition slug (name : text) (upper : bool) : text :=
  let s := trim_matches 95 ((fun c => if is_ascii_alphanumeric c then c else 95) <$> name) in
  let s := if upper then ascii_upper <$> s else to_ascii_lowercase s in
  if bool_decide (s = []) then chars "x" else s.

Inductive IdReply :=
  | BadName | Exists (id : text) | UnknownOwner | PersistFailed
  | UserCreated (id : text) (pin : bool) | AgentCreated (id : text)
  | VerifyLocked (secs : Z) | VerifyOk | VerifyFailed (locked : option Z)
  | Forbidden (setup_required : bool) | BadPin | SetupDone | NoSuchProfile | DefaultSet (d : option text)
  | LoggedIn (token : text) (auth : SessionAuth) | LoggedOut.

Section handlers.
Context `{Sha256} `{IdentToml}.

Definition identities_create_user (w : WriteFault) (salt name : text) (pin default_agent default_skin : option text)
    (s : AuthState) : AuthState * IdReply :=
  if bool_decide (trim name = []) then (s, BadName)
  else
    let id := slug name false in
    match find_user (st_ids s) id with
    | Some _ => (s, Exists id)
    | None =>
        let u := mkUser id name None None default_agent default_skin in
        let u := match pin with Some p => if bool_decide (trim p = []) then u else set_pin salt p u | None => u end in
        let '(ids, dir, ok) := commit w (st_ids s) (with_users (i_users (st_ids s) ++ [u]) (st_ids s)) (st_dir s) in
        (with_ids ids dir s, if ok then UserCreated id (has_pin u) else PersistFailed)
    end.

(** [soul_ok]: whether the soul file was seeded; [soul_file] its path. *)
Definition identities_create_agent (w : WriteFault) (soul_ok : bool) (souls_dir name owner : text)
    (default_skin : option text) (s : AuthState) : AuthState * IdReply :=
  if bool_decide (trim name = []) then (s, BadName)
  else
    let id := slug name true in
    match find_user (st_ids s) owner with
    | None => (s, UnknownOwner)
    | Some _ =>
        match find_agent (st_ids s) id with
        | Some _ => (s, Exists id)
        | None =>
            let soul_file := souls_dir ++ 47 :: id ++ chars ".md" in
            let souls := if soul_ok then soul_file :: st_souls s else st_souls s in
            let '(ids, dir, ok) := commit w (st_ids s)
              (with_agents (i_agents (st_ids s) ++ [mkAgent id name owner soul_file default_skin]) (st_ids s)) (st_dir s) in
            (mkState ids dir (st_locks s) (st_sessions s) souls, if ok then AgentCreated id else PersistFailed)
        end
    end.

(** The last part of the PIN check, and the check alone. *)
Definition verify_finish (now : Z) (user : text) (ok : bool) (s : AuthState) : AuthState * IdReply :=
  let '(lk, locked) := lock_record (st_locks s) user ok now in
  (with_locks lk s, if ok then VerifyOk else VerifyFailed locked).

Definition identities_verify_pin (now : Z) (user pin : text) (s : AuthState) : AuthState * IdReply :=
  match lock_check (st_locks s) user now with
  | Some secs => (s, VerifyLocked secs)
  | None =>
      verify_finish now user (match find_user (st_ids s) user with Some u => verify_pin u pin | None => false end) s
  end.

(** The login handler, in the three parts its locks divide it into. *)
Definition login_check (s : AuthState) (user : text) (now : Z) : option IdReply :=
  VerifyLocked <$> lock_check (st_locks s) user now.

(** What the second part reads: exists, ok, agent, has a PIN, claimed. *)
Definition login_read (s : AuthState) (user pin : text) : bool * bool * text * bool * bool :=
  let claimed := owner_claimed (st_ids s) in
  match find_user (st_ids s) user with
  | Some u => (true, verify_pin u pin, default [] (u_default_agent u), has_pin u, claimed)
  | None => (false, false, [], false, claimed)
  end.

Definition login_finish (now : Z) (buf : option bytes) (user : text) (read : bool * bool * text * bool * bool) (s : AuthState)
    : AuthState * IdReply :=
  let '(exists_, ok, agent, _, _) := read in
  let '(lk, locked) := lock_record (st_locks s) user (ok && exists_) now in
  let s := with_locks lk s in
  if negb exists_ || negb ok then (s, VerifyFailed locked)
  else
    let auth := SessionAuth_new user agent in
    let token := gen_session_token buf in
    (with_sessions (store_insert (store_sweep (st_sessions s) now) token auth now (SESSION_TTL_SECS * 1000)) s,
     LoggedIn token auth).

Definition auth_login (now : Z) (loopback : bool) (buf : option bytes) (user pin : text) (s : AuthState)
    : AuthState * IdReply :=
  match login_check s user now with
  | Some r => (s, r)
  | None =>
      let read := login_read s user pin in
      let '(exists_, _, _, pinned, claimed) := read in
      if exists_ && negb (login_permitted claimed loopback pinned) then (s, Forbidden (negb claimed))
      else login_finish now buf user read s
  end.

Definition auth_setup (w : WriteFault) (loopback admin : bool) (salt pin : text) (s : AuthState) : AuthState * IdReply :=
  let claimed := owner_claimed (st_ids s) in
  if negb (setup_permitted claimed loopback admin) then (s, Forbidden (negb claimed))
  else if negb (valid_owner_pin pin) then (s, BadPin)
  else
    let next := (seed_defaults (chars "/etc/agentd/soul.md") (st_ids s)).1 in
    match find_user next DEFAULT_USER_ID with
    | None => (s, PersistFailed)
    | Some _ =>
        let '(ids, dir, ok) := commit w (st_ids s) (user_mut DEFAULT_USER_ID (set_pin salt pin) next) (st_dir s) in
        (with_ids ids dir s, if ok then SetupDone else PersistFailed)
    end.

Definition auth_logout (token : text) (s : AuthState) : AuthState * IdReply :=
  (with_sessions (store_revoke (st_sessions s) token).1 s, LoggedOut).

Definition auth_default (w : WriteFault) (user_id : text) (s : AuthState) : AuthState * IdReply :=
  let id := trim user_id in
  let set d :=
    let '(ids, dir, ok) := commit w (st_ids s) (with_default_user d (st_ids s)) (st_dir s) in
    (with_ids ids dir s, if ok then DefaultSet (i_default_user ids) else PersistFailed) in
  if bool_decide (id = []) then set None
  else match find_user (st_ids s) id with Some _ => set (Some id) | None => (s, NoSuchProfile) end.
End handlers.

(** What an unclaimed node shows a stranger on the LAN: nothing. *)
Definition auth_profiles (loopback admin : bool) (ids : Identities) : list (text * text * bool) * option text * bool * bool :=
  let setup_required := negb (owner_claimed ids) in
  if setup_required && negb loopback && negb admin then ([], None, true, false)
  else ((fun u => (u_id u, u_name u, has_pin u)) <$> i_users ids, i_default_user ids, setup_required, true).

(** ** Requests at the login doors *)

(** The two requests that try a PIN. *)
Inductive PinRequest :=
  | ReqLogin (loopback : bool) (buf : option bytes) (user pin : text)
  | ReqVerify (user pin : text).

Definition req_user (q : PinRequest) : text := match q with ReqLogin _ _ u _ | ReqVerify u _ => u end.
Definition req_pin (q : PinRequest) : text := match q with ReqLogin _ _ _ p | ReqVerify _ p => p end.

(** A request between its locks, with the instant it took at its start: past
    the check of the lockout, or past the registry's read as well. *)
Inductive Flight :=
  | Checked (now : Z) (q : PinRequest)
  | Looked (now : Z) (q : PinRequest) (read : bool * bool * text * bool * bool).

Definition flight_user (f : Flight) : text := match f with Checked _ q | Looked _ q _ => req_user q end.
Definition flight_now (f : Flight) : Z := match f with Checked n _ | Looked n _ _ => n end.

(** The shared state and the requests, in the order they came; [None]: answered. *)
Record AuthDoors := mkDoors { ad_state : AuthState; ad_flights : list (option Flight) }.

(** A request comes in and checks the lockout; it reads the registry; it
    records the outcome and is answered; a logout; what the other handlers do,
    none of which touches the lockouts. *)
Inductive AuthEvent :=
  | EvArrive (now : Z) (q : PinRequest)
  | EvLook (i : nat)
  | EvAnswer (i : nat)
  | EvLogout (token : text)
  | EvOther (f : AuthState -> AuthState).

Section events.
Context `{Sha256} `{IdentToml}.

Definition finish_request (now : Z) (q : PinRequest) (read : bool * bool * text * bool * bool) (s : AuthState)
    : AuthState * IdReply :=
  match q with
  | ReqLogin _ buf user _ => login_finish now buf user read s
  | ReqVerify user _ => verify_finish now user (let '(_, ok, _, _, _) := read in ok) s
  end.

(** Refused between the read and the record: a login that is not permitted. *)
Definition refused_request (q : PinRequest) (read : bool * bool * text * bool * bool) : option IdReply :=
  let '(exists_, _, _, pinned, claimed) := read in
  match q with
  | ReqLogin loopback _ _ _ => if exists_ && negb (login_permitted claimed loopback pinned) then Some (Forbidden (negb claimed)) else None
  | ReqVerify _ _ => None
  end.

Definition auth_event (d : AuthDoors) (e : AuthEvent) : AuthDoors * option IdReply :=
  let s := ad_state d in
  let fl := ad_flights d in
  match e with
  | EvArrive now q =>
      match lock_check (st_locks s) (req_user q) now with
      | Some secs => (mkDoors s (fl ++ [None]), Some (VerifyLocked secs))
      | None => (mkDoors s (fl ++ [Some (Checked now q)]), None)
      end
  | EvLook i =>
      match fl !! i with
      | Some (Some (Checked now q)) =>
          let read := login_read s (req_user q) (req_pin q) in
          match refused_request q read with
          | Some r => (mkDoors s (<[i := None]> fl), Some r)
          | None => (mkDoors s (<[i := Some (Looked now q read)]> fl), None)
          end
      | _ => (d, None)
      end
  | EvAnswer i =>
      match fl !! i with
      | Some (Some (Looked now q read)) =>
          let '(s, r) := finish_request now q read s in (mkDoors s (<[i := None]> fl), Some r)
      | _ => (d, None)
      end
  | EvLogout token => let '(s, r) := auth_logout token s in (mkDoors s fl, Some r)
  | EvOther f => (mkDoors (with_locks (st_locks s) (f s)) fl, None)
  end.

(** A request that meets no other in between is its handler. *)
Definition alone (now : Z) (q : PinRequest) (s : AuthState) : AuthState * option IdReply :=
  let '(d1, r1) := auth_event (mkDoors s []) (EvArrive now q) in
  let '(d2, r2) := auth_event d1 (EvLook 0) in
  let '(d3, r3) := auth_event d2 (EvAnswer 0) in
  (ad_state d3, match r1, r2 with Some r, _ | None, Some r => Some r | None, None => r3 end).

Lemma request_alone now q s :
  alone now q s =
  let '(s', r) := match q with
                  | ReqLogin loopback buf user pin => auth_login now loopback buf user pin s
                  | ReqVerify user pin => identities_verify_pin now user pin s
                  end in (s', Some r).
Proof.
  unfold alone, auth_event, refused_request.
  destruct q as [loopback buf user pin|user pin]; cbn -[lock_check login_read login_permitted login_finish verify_finish lock_record].
  - unfold auth_login, login_check. destruct (lock_check (st_locks s) user now) as [secs|]; [done|].
    cbn -[lock_check login_read login_permitted login_finish verify_finish lock_record].
    destruct (login_read s user pin) as [[[[ex ok] ag] hp] cl]. destruct (ex && negb (login_permitted cl loopback hp)); [done|].
    cbn -[login_finish]. by destruct (login_finish _ _ _ _ _).
  - unfold identities_verify_pin. destruct (lock_check (st_locks s) user now) as [secs|]; [done|].
    cbn -[lock_check login_read login_permitted login_finish verify_finish lock_record]. unfold login_read.
    destruct (find_user (st_ids s) user); cbn -[verify_finish]; by destruct (verify_finish _ _ _ _).
Qed.

(** What the event answers about a PIN of [user]: [Some b] when one was looked
    at, and whether it was right. *)
Definition looked_at (user : text) (d : AuthDoors) (e : AuthEvent) : option bool :=
  match e with
  | EvAnswer i =>
      match ad_flights d !! i with
      | Some (Some (Looked _ q _)) =>
          if bool_decide (req_user q = user)
          then match (auth_event d e).2 with Some (VerifyFailed _) => Some false | _ => Some true end
          else None
      | _ => None
      end
  | _ => None
  end.

Fixpoint guesses (user : text) (d : AuthDoors) (l : list AuthEvent) : list bool :=
  match l with
  | [] => []
  | e :: l => match looked_at user d e with Some b => [b] | None => [] end ++ guesses user (auth_event d e).1 l
  end.

(** ** The lockout *)

Definition lockouts_ok (lk : Lockouts) : Prop := forall u l, lk !! u = Some l -> 0 <= pl_fails l < PIN_MAX_FAILS.

Lemma record_ok lk user ok now : lockouts_ok lk -> lockouts_ok (lock_record lk user ok now).1.
Proof.
  intros Hok u l. unfold lock_record. cbn [fst]. intros [[<- <-]|[Hne Hl]]%lookup_insert_Some; [|by eapply Hok].
  unfold record, PIN_MAX_FAILS. destruct ok; cbn; [lia|].
  assert (0 <= pl_fails (default PinLockout_default (lk !! user))) as Hp.
  { destruct (lk !! user) as [l|] eqn:E; cbn; [apply (Hok _ _ E)|lia]. }
  destruct (Z.leb_spec 5 (pl_fails (default PinLockout_default (lk !! user)) + 1)); cbn; lia.
Qed.

Definition is_flight_of (user : text) (o : option Flight) : bool :=
  match o with Some f => bool_decide (flight_user f = user) | None => false end.
Definition under_way_of (user : text) (fl : list (option Flight)) : Z := zlen (filter (is_flight_of user) fl).

(** Locked for the whole window. *)
Definition armed (l : PinLockout) (until : Z) : bool :=
  match pl_locked_until l with Some u => until <=? u | None => false end.

(** What is left to try before [until], when no more than [k] requests are
    between their locks at a time. *)
Definition budget (k : Z) (user : text) (d : AuthDoors) (until : Z) : Z :=
  let l := default PinLockout_default (st_locks (ad_state d) !! user) in
  if armed l until then under_way_of user (ad_flights d) else PIN_MAX_FAILS - pl_fails l + (k - 1).

Lemma under_way_insert user fl i o o' :
  fl !! i = Some o -> under_way_of user (<[i := o']> fl) = under_way_of user fl - Z.b2z (is_flight_of user o) + Z.b2z (is_flight_of user o').
Proof.
  intros Hi. unfold under_way_of. rewrite <- (take_drop_middle fl i o Hi) at 2. rewrite insert_take_drop by (by eapply lookup_lt_Some).
  rewrite !filter_app, !zlen_app, !zlen_filter_cons. lia.
Qed.

Lemma under_way_snoc user fl o : under_way_of user (fl ++ [o]) = under_way_of user fl + Z.b2z (is_flight_of user o).
Proof. unfold under_way_of. rewrite filter_app, zlen_app, zlen_filter_cons, filter_nil, zlen_nil. lia. Qed.

Lemma under_way_nonneg user fl : 0 <= under_way_of user fl.
Proof. apply zlen_nonneg. Qed.

Lemma fails_ok lk user : lockouts_ok lk -> 0 <= pl_fails (default PinLockout_default (lk !! user)) < PIN_MAX_FAILS.
Proof. intros Hok. destruct (lk !! user) as [l|] eqn:E; cbn [default from_option id]; [apply (Hok _ _ E)|unfold PIN_MAX_FAILS; cbn; lia]. Qed.

Lemma budget_bounds k user d until :
  lockouts_ok (st_locks (ad_state d)) -> 1 <= k -> under_way_of user (ad_flights d) <= k -> budget k user d until <= PIN_MAX_FAILS + (k - 1).
Proof.
  intros Hok Hk Hf. pose proof (fails_ok _ user Hok). unfold budget, PIN_MAX_FAILS in *. destruct (armed _ _); lia.
Qed.

Lemma finish_locks now q read s :
  let ok := let '(exists_, ok, _, _, _) := read in match q with ReqLogin _ _ _ _ => ok && exists_ | ReqVerify _ _ => ok end in
  st_locks (finish_request now q read s).1 = (lock_record (st_locks s) (req_user q) ok now).1 /\
  (ok = false -> exists l, (finish_request now q read s).2 = VerifyFailed l) /\
  (forall l, (finish_request now q read s).2 = VerifyFailed l -> ok = false).
Proof.
  destruct read as [[[[ex ok] ag] hp] cl]. unfold finish_request, login_finish, verify_finish. destruct q as [lb buf u p|u p]; cbn [req_user].
  - destruct (lock_record _ _ _ _) as [lk l]. cbn [fst snd]. destruct ex, ok; cbn; split_and!; try done; by eexists.
  - destruct (lock_record _ _ _ _) as [lk l]. cbn [fst snd]. destruct ok; cbn; split_and!; try done; by eexists.
Qed.

(** A wrong PIN that is recorded costs one of the budget; the lock, once it is
    there for the whole window, stays. *)
Lemma wrong_record k lk user now until (n : Z) :
  lockouts_ok lk -> until <= now + PIN_LOCKOUT_SECS * 1000 -> 1 <= n <= k ->
  let old := default PinLockout_default (lk !! user) in
  let new := default PinLockout_default ((lock_record lk user false now).1 !! user) in
  (if armed new until then n - 1 else PIN_MAX_FAILS - pl_fails new + (k - 1)) + 1
  <= (if armed old until then n else PIN_MAX_FAILS - pl_fails old + (k - 1)).
Proof.
  intros Hok Hw Hn old new. pose proof (fails_ok lk user Hok) as Hf. fold old in Hf.
  assert (new = record old false now) as -> by (unfold new, lock_record; cbn [fst]; by rewrite lookup_insert_eq).
  unfold record, armed, PIN_MAX_FAILS, PIN_LOCKOUT_SECS in *.
  destruct (Z.leb_spec 5 (pl_fails old + 1)); cbn [pl_locked_until pl_fails].
  - destruct (Z.leb_spec until (now + 300 * 1000)); [|lia]. destruct (pl_locked_until old) as [u|]; [destruct (until <=? u)|]; lia.
  - destruct (pl_locked_until old) as [u|]; [destruct (until <=? u)|]; lia.
Qed.

(** The requests of the profile started within the window. *)
Definition within (user : text) (from until : Z) (fl : list (option Flight)) : Prop :=
  Forall (fun o => forall f, o = Some f -> flight_user f = user -> from <= flight_now f < until) fl.

Lemma within_insert user from until fl i o :
  within user from until fl -> (forall f, o = Some f -> flight_user f = user -> from <= flight_now f < until) -> within user from until (<[i := o]> fl).
Proof. intros Hw Ho. by apply Forall_insert. Qed.

(** One event: the lockouts stay sound, and a wrong PIN costs one. *)
Lemma auth_event_budget k user from until d e :
  lockouts_ok (st_locks (ad_state d)) -> within user from until (ad_flights d) -> until <= from + PIN_LOCKOUT_SECS * 1000 ->
  (forall now q, e = EvArrive now q -> req_user q = user -> from <= now < until) ->
  under_way_of user (ad_flights d) <= k -> looked_at user d e <> Some true ->
  let d' := (auth_event d e).1 in
  lockouts_ok (st_locks (ad_state d')) /\ within user from until (ad_flights d') /\
  budget k user d' until + (match looked_at user d e with Some _ => 1 | None => 0 end) <= budget k user d until.
Proof.
  intros Hok Hw Hu Harr Hk Hr d'. pose proof (under_way_nonneg user (ad_flights d)) as Hnn. destruct e as [now q|i|i|token|f]; unfold d'; clear d'.
  - cbn [auth_event looked_at]. destruct (lock_check (st_locks (ad_state d)) (req_user q) now) as [secs|] eqn:Hck; cbn [fst ad_state ad_flights].
    + split_and!; [done|apply Forall_app; split; [done|by repeat constructor]|]. unfold budget. cbn [ad_state ad_flights].
      rewrite under_way_snoc. cbn [is_flight_of Z.b2z]. destruct (armed _ _); lia.
    + split_and!; [done|apply Forall_app; split; [done|constructor; [intros f [= <-]; cbn; by apply Harr|constructor]]|].
      unfold budget. cbn [ad_state ad_flights]. rewrite under_way_snoc. cbn [is_flight_of flight_user].
      case_bool_decide as Eu; cbn [Z.b2z]; [|destruct (armed _ _); lia]. rewrite Eu in Hck. specialize (Harr now q eq_refl Eu).
      assert (armed (default PinLockout_default (st_locks (ad_state d) !! user)) until = false) as ->; [|lia].
      unfold lock_check, locked_for, armed in *. destruct (st_locks (ad_state d) !! user) as [l|]; cbn in *; [|done].
      destruct (pl_locked_until l) as [t|]; [|done]. cbn in Hck. destruct (Z.ltb_spec now t); [done|]. lia.
  - cbn [auth_event looked_at]. destruct (ad_flights d !! i) as [[[now q|now q read]|]|] eqn:Ei; cbn [fst]; try (split_and!; [done..|lia]).
    destruct (refused_request q _) as [r|]; cbn [fst ad_state ad_flights].
    + split_and!; [done|by apply within_insert|]. unfold budget. cbn [ad_state ad_flights].
      rewrite (under_way_insert _ _ _ _ _ Ei). destruct (is_flight_of user (Some (Checked now q))); cbn [is_flight_of Z.b2z]; destruct (armed _ _); lia.
    + split_and!; [done| |].
      * apply within_insert; [done|]. intros f [= <-]. cbn. intros E. by apply (Forall_lookup_1 _ _ _ _ Hw Ei (Checked now q) eq_refl).
      * unfold budget. cbn [ad_state ad_flights]. rewrite (under_way_insert _ _ _ _ _ Ei). cbn [is_flight_of flight_user].
        destruct (bool_decide _); cbn [Z.b2z]; destruct (armed _ _); lia.
  - unfold looked_at in Hr |- *. cbn [auth_event] in Hr |- *.
    destruct (ad_flights d !! i) as [[[now q|now q read]|]|] eqn:Ei; cbn [fst]; try (split_and!; [done..|lia]).
    pose proof (finish_locks now q read (ad_state d)) as Hfin. cbv zeta in Hfin. destruct Hfin as (El & Hf1 & Hf2).
    destruct (finish_request now q read (ad_state d)) as [s' r]. cbn [fst snd ad_state ad_flights] in *.
    split_and!; [rewrite El; by apply record_ok|by apply within_insert|]. unfold budget. cbn [ad_state ad_flights].
    rewrite (under_way_insert _ _ _ _ _ Ei). cbn [is_flight_of flight_user] in *. case_bool_decide as Eu; cbn [Z.b2z].
    + assert (exists l, r = VerifyFailed l) as [l ->] by (destruct r; try done; by eexists).
      specialize (Hf2 l eq_refl). rewrite Hf2, Eu in El. rewrite El.
      assert (1 <= under_way_of user (ad_flights d)) as H1.
      { pose proof (under_way_insert user (ad_flights d) i _ None Ei) as E. cbn [is_flight_of flight_user] in E.
        rewrite bool_decide_true in E by done. pose proof (under_way_nonneg user (<[i:=None]> (ad_flights d))). cbn in E. lia. }
      pose proof (Forall_lookup_1 _ _ _ _ Hw Ei (Looked now q read) eq_refl Eu) as Hn. cbn in Hn.
      pose proof (wrong_record k (st_locks (ad_state d)) user now until (under_way_of user (ad_flights d)) Hok) as Hb. cbv zeta in Hb.
      rewrite Z.add_0_r. apply Hb; lia.
    + rewrite El. unfold lock_record. cbn [fst]. rewrite lookup_insert_ne by done. destruct (armed _ _); lia.
  - split_and!; [done..|]. rewrite Z.add_0_r. reflexivity.
  - split_and!; [done..|]. rewrite Z.add_0_r. reflexivity.
Qed.

(** No more than [k] requests of the profile between their locks, ever. *)
Fixpoint at_most (k : Z) (user : text) (d : AuthDoors) (l : list AuthEvent) : Prop :=
  under_way_of user (ad_flights d) <= k /\
  match l with [] => True | e :: l => at_most k user (auth_event d e).1 l end.
End events.

(** C24: The lockout bounds guessing: within any five minutes in which no right PIN
    of a profile is given, the node looks at no more than 4 + [k] wrong ones,
    where [k] is the largest number of requests of that profile that are at one
    time between their check of the lockout and their record - five, the limit
    meant, when they come one after the other.  The window begins with no
    request of the profile under way; logins and PIN checks of all profiles,
    logouts and the other handlers interleave at will.  (A right PIN starts the
    count again; [parallel_guesses_are_all_tried] shows that the bound with
    [k] is reached.) *)
Theorem lockout_bounds_guesses `{Sha256} `{IdentToml} (user : text) (d : AuthDoors) (l : list AuthEvent) (from until k : Z) :
  lockouts_ok (st_locks (ad_state d)) -> until <= from + PIN_LOCKOUT_SECS * 1000 -> 1 <= k ->
  under_way_of user (ad_flights d) = 0 -> at_most k user d l ->
  Forall (fun e => forall now q, e = EvArrive now q -> req_user q = user -> from <= now < until) l ->
  Forall (fun b => b = false) (guesses user d l) ->
  zlen (guesses user d l) <= PIN_MAX_FAILS + (k - 1).
Proof.
  intros Hok Hw Hk Hnone Hm Hall Hwrong.
  assert (within user from until (ad_flights d)) as Hin.
  { apply Forall_forall. intros o Ho f -> Hf. exfalso. apply list_elem_of_lookup in Ho as [i Hi].
    pose proof (under_way_insert user (ad_flights d) i _ None Hi) as E. cbn [is_flight_of] in E. rewrite bool_decide_true in E by done.
    pose proof (under_way_nonneg user (<[i:=None]> (ad_flights d))). cbn in E. lia. }
  assert (under_way_of user (ad_flights d) <= k) as Hk0 by lia. clear Hnone.
  enough (zlen (guesses user d l) <= budget k user d until) as Hg by (pose proof (budget_bounds k user d until Hok Hk Hk0); lia).
  clear Hk0. revert d Hok Hin Hm Hwrong. induction l as [|e l IH]; intros d Hok Hin Hm Hwrong.
  { cbn [guesses]. rewrite zlen_nil. pose proof (fails_ok _ user Hok). pose proof (under_way_nonneg user (ad_flights d)). unfold budget, PIN_MAX_FAILS in *.
    destruct (armed _ _); lia. }
  apply Forall_cons in Hall as [He Hall]. destruct Hm as [Hk0 Hm]. cbn [guesses] in Hwrong |- *. apply Forall_app in Hwrong as [Hw1 Hw2].
  destruct (auth_event_budget k user from until d e Hok Hin Hw He Hk0) as (Hok' & Hin' & Hb).
  { destruct (looked_at user d e) as [[]|]; try done. by apply Forall_cons in Hw1 as [? _]. }
  specialize (IH Hall (auth_event d e).1 Hok' Hin' Hm Hw2). rewrite zlen_app.
  destruct (looked_at user d e); unfold zlen in *; cbn in *; lia.
Qed.

(** ** Routes *)

Definition in_routes (l : list Route) (r : Route) : bool := bool_decide (r ∈ l).

(** The gated parts of the table share no route. *)
Lemma routes_disjoint :
  forallb (fun r => negb (in_routes admin_gated r) && negb (in_routes mesh_in r) && negb (in_routes open_routes r)) user_gated
  && forallb (fun r => negb (in_routes mesh_in r) && negb (in_routes open_routes r)) admin_gated
  && forallb (fun r => negb (in_routes open_routes r)) mesh_in = true.
Proof. vm_compute. reflexivity. Qed.


Section routes.
Context `{PercentDecode}.

(** A request whose only credential is one bearer token. *)
Definition bearing (tok : text) : Request := mkRequest (Some (chars "Bearer " ++ tok)) None.

End routes.


(** ** Logins and claims *)

(** What a login that is let in leaves in the store. *)
Lemma login_minted `{Sha256} `{IdentToml} now loopback buf user pin s s' token auth :
  auth_login now loopback buf user pin s = (s', LoggedIn token auth) ->
  token = gen_session_token buf /\ sa_user auth = user /\ (sa_role auth = Owner <-> user = DEFAULT_USER_ID) /\
  forall t, store_verify (st_sessions s') token t =
    if bool_decide (token <> []) && (t <? now + SESSION_TTL_SECS * 1000) then Some auth else None.
Proof.
  unfold auth_login, login_check. destruct (lock_check _ _ _); [done|]. cbn [fmap option_fmap option_map].
  destruct (login_read s user pin) as [[[[ex ok] ag] hp] cl]. destruct (ex && negb _); [done|].
  unfold login_finish. destruct (lock_record _ _ _ _) as [lk locked]. destruct (negb ex || negb ok); [done|].
  intros [= <- <- <-]. split_and!; [done|done|unfold SessionAuth_new, for_user_id; cbn; by case_bool_decide|].
  intros t. cbn [with_sessions st_sessions]. unfold store_verify, store_insert. rewrite lookup_insert_eq. cbn [en_expires en_auth].
  case_bool_decide; case_bool_decide; done.
Qed.

(** A login is let in exactly when the profile exists, is not locked, the node
    is claimed, the PIN is right, and the profile has a PIN or the caller sits
    at the node; the token minted then is good for a day and for that profile,
    with the owner's role for the owner alone. *)
Theorem login_exact `{Sha256} `{IdentToml} (now : Z) (loopback : bool) (buf : option bytes) (user pin : text) (s : AuthState) :
  let '(s', r) := auth_login now loopback buf user pin s in
  let let_in := exists u, find_user (st_ids s) user = Some u /\ lock_check (st_locks s) user now = None /\
    owner_claimed (st_ids s) = true /\ verify_pin u pin = true /\ (has_pin u = true \/ loopback = true) in
  (let_in <-> exists auth, r = LoggedIn (gen_session_token buf) auth) /\
  (forall token auth, r = LoggedIn token auth ->
     sa_user auth = user /\ (sa_role auth = Owner <-> user = DEFAULT_USER_ID) /\
     forall t, store_verify (st_sessions s') token t =
       if bool_decide (token <> []) && (t <? now + SESSION_TTL_SECS * 1000) then Some auth else None) /\
  (~ let_in -> st_sessions s' = st_sessions s).
Proof.
  pose proof (fun token auth => login_minted now loopback buf user pin s (auth_login now loopback buf user pin s).1 token auth) as Hmint.
  destruct (auth_login now loopback buf user pin s) as [s' r] eqn:E. cbn [fst] in Hmint.
  assert (forall token auth, r = LoggedIn token auth -> sa_user auth = user /\ (sa_role auth = Owner <-> user = DEFAULT_USER_ID) /\
     forall t, store_verify (st_sessions s') token t =
       if bool_decide (token <> []) && (t <? now + SESSION_TTL_SECS * 1000) then Some auth else None) as Hm.
  { intros token auth ->. destruct (Hmint token auth eq_refl) as (_ & ? & ? & ?). done. }
  clear Hmint. enough (((exists u, find_user (st_ids s) user = Some u /\ lock_check (st_locks s) user now = None /\
    owner_claimed (st_ids s) = true /\ verify_pin u pin = true /\ (has_pin u = true \/ loopback = true)) <->
     exists auth, r = LoggedIn (gen_session_token buf) auth) /\
    ((forall auth, r <> LoggedIn (gen_session_token buf) auth) -> st_sessions s' = st_sessions s)) as [Hiff Hsame].
  { split_and!; [done|done|]. intros Hn. apply Hsame. intros auth ->. apply Hn, Hiff. by eexists. }
  clear Hm. revert E. unfold auth_login, login_check.
  destruct (lock_check (st_locks s) user now) as [secs|] eqn:Hck; cbn [fmap option_fmap option_map].
  { intros [= <- <-]. split; [|done]. split; [intros (u & _ & ? & _); done|by intros (? & ?)]. }
  unfold login_read. destruct (find_user (st_ids s) user) as [u|] eqn:Eu; cbn [andb].
  - destruct (login_permitted (owner_claimed (st_ids s)) loopback (has_pin u)) eqn:Ep; cbn [negb].
    + assert (owner_claimed (st_ids s) = true /\ (has_pin u = true \/ loopback = true)) as [Hc Hp].
      { unfold login_permitted in Ep. destruct (owner_claimed _); [|done]. apply orb_true_iff in Ep. done. }
      unfold login_finish. destruct (lock_record _ _ _ _) as [lk locked]. destruct (verify_pin u pin) eqn:Ev; cbn [negb orb].
      * intros [= <- <-]. split; [split; [by eexists|by intros _; exists u]|]. intros Hn. by destruct (Hn _ eq_refl).
      * intros [= <- <-]. split; [|done]. split; [intros (u' & [= <-] & _ & _ & ? & _); congruence|by intros (? & ?)].
    + intros [= <- <-]. split; [|done]. split; [|by intros (? & ?)]. intros (u' & [= <-] & _ & Hc & _ & Hp).
      unfold login_permitted in Ep. rewrite Hc in Ep. cbn in Ep. apply orb_false_iff in Ep as [? ?]. destruct Hp; congruence.
  - unfold login_finish. destruct (lock_record _ _ _ _) as [lk locked]. cbn [negb orb].
    intros [= <- <-]. split; [|done]. split; [by intros (? & ? & _)|by intros (? & ?)].
Qed.

Lemma valid_pin_set `{Sha256} (ids : Identities) (salt pin : text) u :
  find_user ids DEFAULT_USER_ID = Some u ->
  find_user (user_mut DEFAULT_USER_ID (set_pin salt pin) ids) DEFAULT_USER_ID = Some (set_pin salt pin u).
Proof. intros Hu. unfold find_user, user_mut in *. cbn [with_users i_users]. by apply map_first_find. Qed.

(** A node is claimed once: setup goes through only on an unclaimed node, from
    the node itself or with its token, with four to eight digits; after it the
    owner's PIN is the one that was set and setup is refused to everyone. *)
Theorem setup_claims_once `{Sha256} `{IdentToml} (w w' : WriteFault) (loopback admin loopback' admin' : bool)
    (salt salt' pin pin' : text) (s : AuthState) :
  let '(s', r) := auth_setup w loopback admin salt pin s in
  (r = SetupDone ->
     owner_claimed (st_ids s) = false /\ (loopback = true \/ admin = true) /\ valid_owner_pin pin = true /\
     owner_claimed (st_ids s') = true /\
     (exists u, find_user (st_ids s') DEFAULT_USER_ID = Some u /\ verify_pin u pin = true) /\
     auth_setup w' loopback' admin' salt' pin' s' = (s', Forbidden false)) /\
  (r <> SetupDone -> st_ids s' = st_ids s).
Proof.
  unfold auth_setup. destruct (setup_permitted _ _ _) eqn:Ep; cbn [negb]; [|by split].
  destruct (valid_owner_pin pin) eqn:Ev; cbn [negb]; [|by split].
  destruct (seed_defaults_spec (chars "/etc/agentd/soul.md") (st_ids s)) as ([u Hu] & _). rewrite Hu.
  unfold commit. destruct (save _ _ _) as [d ok]. destruct ok; [|by split].
  split; [|done]. intros _. unfold setup_permitted in Ep. apply andb_true_iff in Ep as [Hc Hl].
  apply negb_true_iff in Hc. apply orb_true_iff in Hl.
  pose proof (valid_pin_set _ salt pin u Hu) as Hu'. cbn [with_ids st_ids].
  set (ids' := user_mut _ _ _) in *.
  assert (owner_claimed ids' = true) as Hcl by (unfold owner_claimed; by rewrite Hu').
  split_and!; [done..| |].
  - exists (set_pin salt pin u). split; [done|]. by apply verify_set_pin.
  - by rewrite Hcl.
Qed.

(** When the random source fails the token is known to everyone: it is sixty
    four zeros, and the store honours it like any other. *)
Theorem failed_randomness_is_honoured `{Sha256} `{IdentToml} (now t : Z) (loopback : bool) (user pin : text) (s : AuthState)
    (auth : SessionAuth) (token : text) :
  (auth_login now loopback None user pin s).2 = LoggedIn token auth -> t < now + SESSION_TTL_SECS * 1000 ->
  token = repeat 48 64 /\ store_verify (st_sessions (auth_login now loopback None user pin s).1) token t = Some auth.
Proof.
  intros Hr Ht. destruct (auth_login now loopback None user pin s) as [s' r] eqn:E. cbn [fst snd] in *. subst r.
  destruct (login_minted _ _ _ _ _ _ _ _ _ E) as (-> & _ & _ & Hv). split; [reflexivity|].
  rewrite Hv, (proj2 (Z.ltb_lt _ _) Ht). reflexivity.
Qed.

(** ** Concrete inputs *)

(** Nothing is escaped in the tokens of the witnesses. *)
#[export] Instance ToyPercent : PercentDecode := { percent_decode s := s }.

(** A node whose owner has the PIN 1234. *)
Definition claimed_ids : Identities := user_mut DEFAULT_USER_ID (set_pin (chars "salt") (chars "1234")) seeded.
Definition claimed_node : AuthState := mkState claimed_ids empty_dir ∅ ∅ [].

(** Seven wrong guesses, one after the other. *)
Definition guess_at (i : nat) (now : Z) : list AuthEvent :=
  [EvArrive now (ReqVerify DEFAULT_USER_ID (chars "0000")); EvLook i; EvAnswer i].
Definition wrong_guesses : list AuthEvent := concat ((fun i => guess_at i (Z.of_nat i)) <$> seq 0 7).

Lemma lockout_bounds_guesses_witness :
  zlen (guesses DEFAULT_USER_ID (mkDoors claimed_node []) wrong_guesses) = PIN_MAX_FAILS /\
  zlen (guesses DEFAULT_USER_ID (mkDoors claimed_node []) wrong_guesses) <= PIN_MAX_FAILS + (1 - 1).
Proof.
  split; [vm_compute; reflexivity|].
  apply (lockout_bounds_guesses DEFAULT_USER_ID (mkDoors claimed_node []) wrong_guesses 0 30000 1).
  - by intros u l Hl.
  - vm_compute. discriminate.
  - lia.
  - reflexivity.
  - vm_compute. repeat split; discriminate.
  - unfold wrong_guesses, guess_at. cbn [concat fmap list_fmap seq app].
    repeat (apply Forall_cons; split; [intros now q [= <- <-] _; lia|apply Forall_cons; split; [by intros|apply Forall_cons; split; [by intros|]]]).
    constructor.
  - vm_compute. repeat constructor.
Defined.

(** The lockout is checked and the failure recorded under two locks with the
    registry's read between them: after four wrong guesses eight more come in
    together, all pass the check, and all twelve are looked at. *)
Definition parallel_guesses : list AuthEvent :=
  concat ((fun i => guess_at i (Z.of_nat i)) <$> seq 0 4)
  ++ replicate 8 (EvArrive 4 (ReqLogin false None DEFAULT_USER_ID (chars "0000"))) ++ (EvLook <$> seq 4 8) ++ (EvAnswer <$> seq 4 8).
Example parallel_guesses_are_all_tried :
  guesses DEFAULT_USER_ID (mkDoors claimed_node []) parallel_guesses = replicate 12 false /\ 12 = PIN_MAX_FAILS + (8 - 1).
Proof. split; vm_compute; reflexivity. Qed.

(** A guest asks for the route that edits the policy. *)
Definition guest_sessions : SessionStore := {[chars "guest" := mkEntry (mkAuth (chars "ann") (chars "apex") UserRole) 1000]}.

(** A guest's token passes the gate in front of the workspace's deletes and of
    the node's soul. *)
Example guest_beyond_chat :
  (fun route => reaches (chars "admin") guest_sessions (fun _ => None) 10 (bearing (chars "guest")) route)
    <$> [(POST, "/api/workspace/delete"%string); (GET, "/api/soul"%string); (POST, "/api/policy"%string)] = [true; true; false].
Proof. vm_compute. reflexivity. Qed.

