(* ===== verification/Peers.v ===== *)
(** * Mesh peers: the registry, pairing and what peers may post

    [agentd/crates/gateway/src/mesh.rs] and the peer-facing handlers of
    [agentd/crates/gateway/src/lib.rs].  The file is TOML written by hand with
    Rust's debug strings and read by a TOML parser: both are a class, with the
    round trip on printable ASCII.  HTTP answers and random bytes are
    arguments. *)
From S2P Require Import Prelude Text Policy Protocol Mandala Identity Auth.

(** ** The registry *)

Inductive PeerRole := RoleFull | RoleSensor | RoleThin.

Record PeerRecord := mkPeer {
  pr_node_id : text;
  pr_ws_url : text;
  pr_role : PeerRole;
  pr_status : text;
  pr_token : option text;
  pr_inbound_token : option text;
  pr_radio_id : option Z
}.

Abbreviation Registry := (list PeerRecord) (only parsing).

Definition role_text (r : PeerRole) : text := chars match r with RoleFull => "full" | RoleSensor => "sensor" | RoleThin => "thin" end.

(** [{:?}] of a string, and the parser. *)
Class PeersToml := { debug_str : text -> text; peers_of_toml : text -> option (list PeerRecord) }.

Definition contains (reg : Registry) (node_id : text) : bool := existsb (fun p => bool_decide (pr_node_id p = node_id)) reg.

Definition find_peer (reg : Registry) (node_id : text) : option PeerRecord :=
  List.find (fun p => bool_decide (pr_node_id p = node_id)) reg.

Definition is_node_admin_token (candidate admin : text) : bool :=
  if bool_decide (candidate = []) || bool_decide (admin = []) then false else tokens_match candidate admin.

(** The scan goes on past a match: the last one counts. *)
Definition peer_id_for_inbound_token (reg : Registry) (token : text) : option text :=
  if bool_decide (token = []) then None
  else foldl (fun found p => match pr_inbound_token p with
                             | Some t => if tokens_match token t then Some (pr_node_id p) else found
                             | None => found end) None reg.

Definition quoted_line (key : text) (v : text) : text := key ++ v ++ [10].

Section peers.
Context `{PeersToml}.

Definition peer_text (p : PeerRecord) : text :=
  [10] ++ chars "[[peer]]" ++ [10]
  ++ quoted_line (chars "node_id = ") (debug_str (pr_node_id p)) ++ quoted_line (chars "ws_url  = ") (debug_str (pr_ws_url p))
  ++ quoted_line (chars "role    = ") (debug_str (role_text (pr_role p))) ++ quoted_line (chars "status  = ") (debug_str (pr_status p))
  ++ match pr_token p with Some t => quoted_line (chars "token   = ") (debug_str t) | None => [] end
  ++ match pr_inbound_token p with Some t => quoted_line (chars "inbound_token = ") (debug_str t) | None => [] end
  ++ match pr_radio_id p with Some id => quoted_line (chars "radio_id = ") (dec_text id) | None => [] end.

Definition peers_text (reg : Registry) : text :=
  utf8_lossy (chars "# ApexOS mesh peers — managed by agentd") ++ [10] ++ concat (peer_text <$> reg).

Definition peers_load (file : option text) : list PeerRecord := default [] (file ≫= peers_of_toml).

Definition peers_save (w : WriteFault) (reg : Registry) (file : option text) : option text * bool :=
  let '(d, ok) := write_config_atomic w (peers_text reg) (mkDir file None ∅) in (cd_file d, ok).

(** Memory changes first; a failed save is reported, not undone. *)
Definition peers_add (w : WriteFault) (record : PeerRecord) (reg : Registry) (file : option text)
    : list PeerRecord * option text * bool :=
  let reg := if contains reg (pr_node_id record)
             then map_first (fun p => bool_decide (pr_node_id p = pr_node_id record)) (fun _ => record) reg
             else reg ++ [record] in
  let '(file, ok) := peers_save w reg file in (reg, file, ok).

Definition peers_remove (w : WriteFault) (node_id : text) (reg : Registry) (file : option text)
    : list PeerRecord * option text * result bool unit :=
  let reg' := List.filter (fun p => negb (bool_decide (pr_node_id p = node_id))) reg in
  if negb (zlen reg' =? zlen reg) then
    let '(file, ok) := peers_save w reg' file in (reg', file, if ok then Ok true else Err tt)
  else (reg, file, Ok false).

Definition peer_set_status (s : text) (p : PeerRecord) : PeerRecord :=
  mkPeer (pr_node_id p) (pr_ws_url p) (pr_role p) s (pr_token p) (pr_inbound_token p) (pr_radio_id p).

Definition peers_set_status (w : WriteFault) (node_id status : text) (reg : Registry) (file : option text)
    : list PeerRecord * option text * bool :=
  let reg := map_first (fun p => bool_decide (pr_node_id p = node_id)) (peer_set_status status) reg in
  let '(file, ok) := peers_save w reg file in (reg, file, ok).

(** [POST /api/mesh/peers]: the token and the inbound token survive a re-add. *)
Definition mesh_peers_post (w : WriteFault) (api_token : text) (node_id ws_url role token : option text)
    (reg : Registry) (file : option text) : list PeerRecord * option text * bool :=
  match (s ← node_id; if bool_decide (s = []) then None else Some s), (s ← ws_url; if bool_decide (s = []) then None else Some s) with
  | Some node_id, Some ws_url =>
      let role := match role with
                  | Some r => if bool_decide (r = chars "sensor") then RoleSensor
                              else if bool_decide (r = chars "thin") then RoleThin else RoleFull
                  | None => RoleFull end in
      let token_in := s ← token; if bool_decide (s = []) then None else Some s in
      if match token_in with Some t => is_node_admin_token t api_token | None => false end
      then (reg, file, false)
      else
        let token := match token_in with Some t => Some t | None => find_peer reg node_id ≫= pr_token end in
        peers_add w (mkPeer node_id ws_url role (chars "online") token (find_peer reg node_id ≫= pr_inbound_token) None) reg file
  | _, _ => (reg, file, false)
  end.
End peers.

(** ** Tokens and URLs *)

Definition gen_mesh_token (buf : option bytes) : text := gen_session_token buf.

Definition is_mesh_token_shape (s : text) : bool := (str_len s =? 64) && forallb is_ascii_hexdigit (as_bytes s).

Definition trim_end_slashes (s : text) : text := rev (trim_start_matches 47 (rev s)).

Definition mesh_http_base (ws_url : text) : option text :=
  let s := trim ws_url in
  http ← match strip_prefix (chars "ws://") s with
         | Some rest => Some (chars "http://" ++ rest)
         | None => match strip_prefix (chars "wss://") s with
                   | Some rest => Some (chars "https://" ++ rest)
                   | None => if starts_with (chars "http://") s || starts_with (chars "https://") s then Some s else None
                   end
         end;
  rest ← match strip_prefix (chars "https://") http with Some r => Some r | None => strip_prefix (chars "http://") http end;
  let host := default [] (head (split_on 47 rest)) in
  if bool_decide (host = []) || bool_decide (64 ∈ host) || bool_decide (32 ∈ host) then None
  else Some (trim_end_slashes http).

(** [format!("{n:06}")] of four random bytes. *)
Definition pad6 (n : Z) : text := repeat 48 (6 - length (dec_text n)) ++ dec_text n.
Definition gen_pair_code (buf : option bytes) : text := pad6 (default 0 (of_le <$> buf) mod 1000000).

(** ** Pairing *)

Definition PAIR_TTL_SECS : Z := 300.
Definition PAIR_MAX_ATTEMPTS : Z := 5.

Record Pairing := mkPairing { pg_code : text; pg_expires : Z; pg_attempts : Z }.
Record RedeemFlight := mkFlight { rf_peer_http : text; rf_nonce : text; rf_expires : Z }.

Definition pair_start (now : Z) (buf : option bytes) : Pairing := mkPairing (gen_pair_code buf) (now + PAIR_TTL_SECS * 1000) 0.

Definition pair_status (now : Z) (p : option Pairing) : option (text * Z) :=
  p ← p; if now <? pg_expires p then Some (pg_code p, (pg_expires p - now) / 1000) else None.

(** The guess at a code. *)
Definition claim_code (now : Z) (code : text) (p : option Pairing) : option Pairing * bool :=
  match p with
  | Some offer =>
      if pg_expires offer <=? now then (None, false)
      else if bool_decide (pg_code offer = code) then (None, true)
      else
        let attempts := as_u8 (pg_attempts offer + 1) in
        if PAIR_MAX_ATTEMPTS <=? attempts then (None, false) else (Some (mkPairing (pg_code offer) (pg_expires offer) attempts), false)
  | None => (None, false)
  end.

(** A node, as pairing sees it. *)
Record MeshNode := mkNode {
  mn_id : text;
  mn_url : text;
  mn_api_token : text;
  mn_reg : list PeerRecord;
  mn_file : option text;
  mn_pairing : option Pairing;
  mn_flight : option RedeemFlight
}.

Definition mn_with_reg (r : list PeerRecord * option text * bool) (n : MeshNode) : MeshNode :=
  mkNode (mn_id n) (mn_url n) (mn_api_token n) r.1.1 r.1.2 (mn_pairing n) (mn_flight n).
Definition mn_with_pairing (p : option Pairing) (n : MeshNode) : MeshNode :=
  mkNode (mn_id n) (mn_url n) (mn_api_token n) (mn_reg n) (mn_file n) p (mn_flight n).
Definition mn_with_flight (f : option RedeemFlight) (n : MeshNode) : MeshNode :=
  mkNode (mn_id n) (mn_url n) (mn_api_token n) (mn_reg n) (mn_file n) (mn_pairing n) f.

(** The claim's fields and what it answers: node, URL, token. *)
Record Claim := mkClaim { cl_code : text; cl_node : text; cl_url : text; cl_nonce : text }.

Section pairing.
Context `{PeersToml}.

(** Before the call back: whether the claim is good. *)
Definition pair_claim_check (now : Z) (c : Claim) (n : MeshNode) : MeshNode * bool :=
  let node := trim (cl_node c) in
  let url := trim (cl_url c) in
  let nonce := trim (cl_nonce c) in
  if bool_decide (cl_code c = []) || bool_decide (node = []) || bool_decide (url = []) || bool_decide (nonce = [])
     || is_noneb (mesh_http_base url) then (n, false)
  else let '(p, ok) := claim_code now (cl_code c) (mn_pairing n) in (mn_with_pairing p n, ok).

(** After it: [outbound] is the token the claimer minted, if it answered. *)
Definition pair_claim_finish (w : WriteFault) (buf : option bytes) (c : Claim) (outbound : text) (n : MeshNode)
    : MeshNode * option (text * text * text) :=
  if negb (is_mesh_token_shape outbound) || is_node_admin_token outbound (mn_api_token n) then (n, None)
  else
    let inbound := gen_mesh_token buf in
    (mn_with_reg (peers_add w (mkPeer (trim (cl_node c)) (trim (cl_url c)) RoleFull (chars "online") (Some outbound) (Some inbound) None)
                    (mn_reg n) (mn_file n)) n,
     Some (mn_id n, mn_url n, inbound)).

Definition pair_confirm (w : WriteFault) (now : Z) (buf : option bytes) (nonce peer_node peer_url : text) (n : MeshNode)
    : MeshNode * option text :=
  let peer_node := trim peer_node in
  let peer_url := trim peer_url in
  if bool_decide (nonce = []) || bool_decide (peer_node = []) then (n, None)
  else
    match mn_flight n with
    | Some f =>
        if (now <? rf_expires f) && bool_decide (rf_nonce f = nonce) then
          let n := mn_with_flight None n in
          let inbound := gen_mesh_token buf in
          if bool_decide (peer_url = []) then (n, Some inbound)
          else
            let old := find_peer (mn_reg n) peer_node in
            (mn_with_reg (peers_add w (mkPeer peer_node peer_url RoleFull (chars "online") (old ≫= pr_token) (Some inbound)
                                         (old ≫= pr_radio_id)) (mn_reg n) (mn_file n)) n,
             Some inbound)
        else (n, None)
    | None => (n, None)
    end.

(** The initiator: what it sends. *)
Definition pair_redeem_start (now : Z) (buf : option bytes) (peer_ws code : text) (self_ws : option text) (n : MeshNode)
    : MeshNode * option Claim :=
  if bool_decide (peer_ws = []) || bool_decide (code = []) then (n, None)
  else
    match mesh_http_base peer_ws with
    | None => (n, None)
    | Some base =>
        let self := default (mn_url n) (s ← trim <$> self_ws; if bool_decide (s = []) then None else Some s) in
        if is_noneb (mesh_http_base self) then (n, None)
        else
          let nonce := gen_mesh_token buf in
          (mn_with_flight (Some (mkFlight base nonce (now + 30000))) n, Some (mkClaim code (mn_id n) self nonce))
    end.

(** And what it does with the answer. *)
Definition pair_redeem_finish (w : WriteFault) (nonce peer_ws : text) (answer : option (text * option text * text)) (n : MeshNode)
    : MeshNode * bool :=
  let n := match mn_flight n with
           | Some f => if bool_decide (rf_nonce f = nonce) then mn_with_flight None n else n
           | None => n end in
  match answer with
  | None => (n, false)
  | Some (node, url, tok) =>
      if bool_decide (node = []) || negb (is_mesh_token_shape tok) || is_node_admin_token tok (mn_api_token n) then (n, false)
      else
        let old := find_peer (mn_reg n) node in
        (mn_with_reg (peers_add w (mkPeer node (default peer_ws url) RoleFull (chars "online") (Some tok) (old ≫= pr_inbound_token)
                                     (old ≫= pr_radio_id)) (mn_reg n) (mn_file n)) n, true)
  end.
End pairing.

(** ** What peers post *)

(** [mesh_session_alloc]: the peer's own thread. *)
Definition mesh_session_alloc (m : gmap text Z) (counter : Z) (peer : text) : gmap text Z * Z * Z * bool :=
  match m !! peer with
  | Some s => (m, counter, s, false)
  | None => (<[peer := counter]> m, as_u64 (counter + 1), counter, true)
  end.

Record MeshUnread := mkUnread { mu_node : text; mu_unread : Z; mu_preview : text; mu_last_ts : Z }.

Definition mesh_unread_bump (m : gmap Z MeshUnread) (session : Z) (node preview : text) (now : Z) : gmap Z MeshUnread :=
  let old := match m !! session with Some e => mu_unread e | None => 0 end in
  <[session := mkUnread node (sat_add32 old 1) preview now]> m.

Definition mesh_unread_clear (m : gmap Z MeshUnread) (session : Z) : gmap Z MeshUnread * bool :=
  match m !! session with
  | Some e => if mu_unread e =? 0 then (m, false)
              else (<[session := mkUnread (mu_node e) 0 (mu_preview e) (mu_last_ts e)]> m, true)
  | None => (m, false)
  end.

Definition a2a_prompt_text (from : option text) (origin_session : option Z) (message : text) : text :=
  match from, origin_session with
  | Some peer, Some o =>
      chars "[from " ++ peer ++ utf8_lossy (chars " — to reply: send_to_agent(node=") ++ 34 :: peer ++ 34 :: chars ", session_id="
      ++ dec_text o ++ chars ")]: " ++ message
  | Some peer, None => chars "[from " ++ peer ++ chars "]: " ++ message
  | None, _ => message
  end.

Inductive WorkerMeshKind := Fanout | Query | Cancel | Report.
#[export] Instance WorkerMeshKind_eq_dec : EqDecision WorkerMeshKind.
Proof. solve_decision. Defined.

Inductive PeerRefusal := MeshOff | MissingFrom | NotRegistered (from : text) | HopLimit | HopRequired | NotYours | NoMessage.

Section posts.
Context {V : Type} `{!JsonArgs V} `{!JsonNums V}.

(** The sender a message is attributed to. *)
Definition message_from (reg : Registry) (mesh_peer : option text) (body : V) : option text :=
  match mesh_peer with
  | Some node => Some node
  | None =>
      f ← trim <$> arg_str body (chars "from");
      if bool_decide (f = []) then None else if contains reg f then Some f else None
  end.

(** [session_message_handler]: the landing session and the prompt. *)
Definition session_message (owners : Owners) (reg : Registry) (threads : gmap text Z) (counter : Z)
    (mesh_peer : option text) (auth : option RequestAuth) (id : Z) (body : V)
    : gmap text Z * Z * result (Z * text * option text) PeerRefusal :=
  if is_noneb mesh_peer && negb (match auth with Some a => session_ok owners id a | None => false end)
  then (threads, counter, Err NotYours)
  else
    match arg_str body (chars "message") with
    | Some message =>
        if bool_decide (trim message = []) then (threads, counter, Err NoMessage)
        else
          let from := message_from reg mesh_peer body in
          let '(threads, counter, session) :=
            match from with
            | Some peer =>
                if id =? 0 then let '(t, c, s, _) := mesh_session_alloc threads counter peer in (t, c, s) else (threads, counter, id)
            | None => (threads, counter, id)
            end in
          let origin := o ← arg_u64 body (chars "origin_session"); if o =? 0 then None else Some o in
          (threads, counter, Ok (session, a2a_prompt_text from origin message, from))
    | None => (threads, counter, Err NoMessage)
    end.

(** The whole handler: a message with a sender also bumps that thread's
    unread row, with the head of the message. *)
Definition session_message_post (owners : Owners) (reg : Registry) (threads : gmap text Z) (counter now : Z)
    (unread : gmap Z MeshUnread) (mesh_peer : option text) (auth : option RequestAuth) (id : Z) (body : V)
    : gmap text Z * Z * gmap Z MeshUnread * result (Z * text * option text) PeerRefusal :=
  let '(threads, counter, r) := session_message owners reg threads counter mesh_peer auth id body in
  (threads, counter,
   match r with
   | Ok (session, _, Some peer) =>
       mesh_unread_bump unread session peer (take 140 (default [] (arg_str body (chars "message")))) now
   | _ => unread
   end, r).

(** [worker_mesh_request]: what reaches the worker driver. *)
Record WorkerMeshReq := mkMeshReq {
  mq_kind : WorkerMeshKind;
  mq_from : text;
  mq_body : V;
  mq_parent : option Z;
  mq_hops : Z
}.

Definition worker_mesh_request (enabled : bool) (reg : Registry) (threads : gmap text Z) (counter : Z)
    (kind : WorkerMeshKind) (body : V) (hops : Z) : gmap text Z * Z * result WorkerMeshReq PeerRefusal :=
  if negb enabled then (threads, counter, Err MeshOff)
  else
    match (f ← arg_str body (chars "from"); if bool_decide (trim f = []) then None else Some f) with
    | None => (threads, counter, Err MissingFrom)
    | Some from =>
        if negb (contains reg from) then (threads, counter, Err (NotRegistered from))
        else
          match kind with
          | Fanout => let '(t, c, s, _) := mesh_session_alloc threads counter from in
                      (t, c, Ok (mkMeshReq kind from body (Some s) hops))
          | _ => (threads, counter, Ok (mkMeshReq kind from body None hops))
          end
    end.

Definition worker_fanout_post (enabled : bool) (reg : Registry) (threads : gmap text Z) (counter : Z) (header : option text)
    (body : V) : gmap text Z * Z * result WorkerMeshReq PeerRefusal :=
  match parse_mesh_hops header with
  | Ok n => worker_mesh_request enabled reg threads counter Fanout body n
  | Err HopsLimit => (threads, counter, Err HopLimit)
  | Err _ => (threads, counter, Err HopRequired)
  end.

(** *** Memories from peers *)

Definition FED_MEMORY_MAX_CHARS : Z := 60000.
Definition FED_NOTE_MAX_CHARS : nat := 500.
Definition FED_MAX_TAGS : nat := 16.
Definition FED_TAG_MAX_CHARS : Z := 48.
Definition FED_HIT_SNIPPET_CHARS : nat := 300.

Record FedMemory := mkFed {
  fm_content : text;
  fm_agent : text;
  fm_tags : list text;
  fm_visibility : text;
  fm_type : option text;
  fm_salience : option V
}.

Definition provenance_shaped (t : text) : bool :=
  bool_decide (t = chars "colony") || starts_with (chars "from:") t || starts_with (chars "origin:") t.

Definition sender_tags (mem : V) : list text :=
  take FED_MAX_TAGS
    (List.filter (fun t => negb (provenance_shaped t))
      (List.filter (fun t => negb (bool_decide (t = [])) && (zlen t <=? FED_TAG_MAX_CHARS))
        (trim <$> omap json_as_str (default [] (arg_array mem (chars "tags")))))).

Definition memory_types : list text :=
  chars <$> ["episodic"; "semantic"; "procedural"; "affective"; "prospective"; "schematic"]%string.

(** [clamp01]: a number clamped to the unit interval, [None] if it is none.
    Indexing a missing [memory] reads as null, on which every access fails. *)
Definition federated_remember_args (clamp01 : V -> option V) (from_node agent_id : text) (body : V)
    : result (FedMemory * text) text :=
  let mem := json_get body (chars "memory") in
  let content := trim (default [] (mem ≫= (fun m : V => arg_str m (chars "content")))) in
  if bool_decide (content = []) then Err (chars "memory.content (non-empty string) required")
  else if FED_MEMORY_MAX_CHARS <? zlen content then Err (chars "memory.content exceeds the cap")
  else
    let tags := match mem with Some m => sender_tags m | None => [] end
                ++ [chars "colony"; chars "from:" ++ from_node]
                ++ match arg_str body (chars "origin_memory_id") with
                   | Some o => if bool_decide (trim o = []) then [] else [chars "origin:" ++ trim o]
                   | None => [] end in
    let note := n ← trim <$> arg_str body (chars "note"); if bool_decide (n = []) then None else Some (take FED_NOTE_MAX_CHARS n) in
    let full := content ++ match note with
                           | Some n => [10; 10] ++ chars "[note from " ++ from_node ++ chars "]: " ++ n
                           | None => [] end in
    let memory_type := t ← (mem ≫= (fun m : V => arg_str m (chars "memory_type")));
                       if bool_decide (t ∈ memory_types) then Some t else None in
    let salience := if bool_decide (memory_type = Some (chars "procedural")) then None
                    else (mem ≫= (fun m : V => json_get m (chars "salience"))) ≫= clamp01 in
    Ok (mkFed full agent_id tags (chars "private") memory_type salience, take 120 content).

(** A hit: the snippet, and the fields passed through. *)
Definition federated_hit (entry : V) : option (text * V) :=
  mem ← json_get entry (chars "memory");
  content ← arg_str mem (chars "content");
  if bool_decide (trim content = []) then None else Some (take FED_HIT_SNIPPET_CHARS content, entry).

Definition federated_recall_hits (recall_out : V) (cap : nat) : list (text * V) :=
  take cap (omap federated_hit (default [] (json_as_array recall_out))).
End posts.
Arguments WorkerMeshReq : clear implicits.
Arguments FedMemory : clear implicits.

(** ** Discovery *)

Definition strip_suffixes (suf s : text) : text :=
  (fix go (fuel : nat) (s : text) := match fuel with
     | O => s
     | S fuel => match strip_prefix (rev suf) (rev s) with Some r => go fuel (rev r) | None => s end
     end) (length s) s.

Definition parse_avahi_line (line : text) : option (text * text) :=
  if negb (starts_with [61] line) then None
  else
    let parts := split_on 59 line in
    if zlen parts <? 9 then None
    else
      let hostname := strip_suffixes (chars ".local") (nth 6 parts []) in
      let ip := nth 7 parts [] in
      if bool_decide (58 ∈ ip) then None
      else if bool_decide (ip = []) || bool_decide (hostname = []) then None else Some (hostname, ip).

Definition parse_avahi_output (raw : text) : list (text * text) := omap parse_avahi_line (lines raw).

(** ** The whole handshake *)

Section handshake.
Context `{PeersToml}.

(** The initiator [a] redeems [code] at [b], whose call back it answers. *)
Definition handshake (w : WriteFault) (now : Z) (nonce_buf a_buf b_buf : option bytes) (peer_ws code : text)
    (self_ws : option text) (a b : MeshNode) : MeshNode * MeshNode * bool :=
  match pair_redeem_start now nonce_buf peer_ws code self_ws a with
  | (a, None) => (a, b, false)
  | (a, Some c) =>
      match pair_claim_check now c b with
      | (b, false) => let '(a, ok) := pair_redeem_finish w (cl_nonce c) peer_ws None a in (a, b, ok)
      | (b, true) =>
          let '(a, outbound) := pair_confirm w now a_buf (trim (cl_nonce c)) (mn_id b) (mn_url b) a in
          let '(b, answer) := pair_claim_finish w b_buf c (default [] outbound) b in
          let '(a, ok) := pair_redeem_finish w (cl_nonce c) peer_ws
                            ((fun x => let '(node, url, tok) := x in (node, Some url, tok)) <$> answer) a in
          (a, b, ok)
      end
  end.
End handshake.

(** ** Registry lemmas *)

Lemma contains_find reg id : contains reg id = is_someb (find_peer reg id).
Proof.
  unfold contains, find_peer. induction reg as [|p reg IH]; [done|]. cbn [existsb List.find]. by case_bool_decide.
Qed.

Lemma find_replace reg (r : PeerRecord) id :
  contains reg (pr_node_id r) = true ->
  find_peer (map_first (fun p => bool_decide (pr_node_id p = pr_node_id r)) (fun _ => r) reg) id =
  if bool_decide (id = pr_node_id r) then Some r else find_peer reg id.
Proof.
  unfold contains, find_peer. induction reg as [|p reg IH]; [done|]. cbn [existsb map_first List.find].
  destruct (decide (pr_node_id p = pr_node_id r)) as [E|E].
  - rewrite !(bool_decide_true (pr_node_id p = pr_node_id r)) by done. intros _. cbn [List.find]. rewrite E.
    case_bool_decide as Hid; [by rewrite bool_decide_true|]. by rewrite !bool_decide_false by congruence.
  - rewrite !(bool_decide_false (pr_node_id p = pr_node_id r)) by done. intros Hc. cbn [List.find]. rewrite (IH Hc).
    destruct (decide (id = pr_node_id r)) as [->|]; [by rewrite !bool_decide_false by congruence|].
    by rewrite !(bool_decide_false (id = pr_node_id r)) by done.
Qed.

Lemma find_add `{PeersToml} w r reg file id :
  find_peer (peers_add w r reg file).1.1 id = if bool_decide (id = pr_node_id r) then Some r else find_peer reg id.
Proof.
  unfold peers_add. destruct (contains reg (pr_node_id r)) eqn:Hc; destruct (peers_save _ _ _); cbn [fst].
  - by apply find_replace.
  - unfold find_peer. rewrite contains_find in Hc. unfold find_peer in Hc.
    destruct (List.find _ reg) as [p|] eqn:Ef; [done|].
    destruct (decide (id = pr_node_id r)) as [->|Hne].
    + rewrite bool_decide_true by done. rewrite find_app_r by done. cbn. by rewrite bool_decide_true.
    + rewrite bool_decide_false by done. clear Hc Ef. induction reg as [|q reg IH]; cbn; [by rewrite bool_decide_false|].
      case_bool_decide; [done|exact IH].
Qed.

(** What the scan finds, when one record alone carries the token. *)
Lemma inbound_unique reg token r :
  token <> [] -> r ∈ reg -> pr_inbound_token r = Some token ->
  (forall p t, p ∈ reg -> pr_inbound_token p = Some t -> tokens_match token t = true -> pr_node_id p = pr_node_id r) ->
  peer_id_for_inbound_token reg token = Some (pr_node_id r).
Proof.
  intros Hne Hin Ht Hall. unfold peer_id_for_inbound_token. rewrite bool_decide_false by done.
  assert (forall acc, (acc = Some (pr_node_id r) \/ r ∈ reg) ->
    foldl (fun found p => match pr_inbound_token p with
             | Some t => if tokens_match token t then Some (pr_node_id p) else found | None => found end) acc reg = Some (pr_node_id r)) as Hgen;
    [|apply Hgen; by right].
  clear Hin. induction reg as [|p reg IH]; intros acc Hacc; cbn [foldl].
  { destruct Hacc as [->|?%not_elem_of_nil]; done. }
  apply IH; [intros q t Hq; apply (Hall q t); by right|].
  destruct Hacc as [->|[->|Hin]%elem_of_cons]; [| |by right].
  - left. destruct (pr_inbound_token p) as [t|] eqn:Ep; [|done]. destruct (tokens_match token t) eqn:Em; [|done].
    f_equal. apply (Hall p t); [left|done|done].
  - left. rewrite Ht. unfold tokens_match. by rewrite bool_decide_true.
Qed.

(** *** Tokens *)

Lemma hex2_shape b : is_u8 b -> Forall (fun c => is_ascii_hexdigit c = true /\ 0 <= c < 128) (hex2 b).
Proof.
  intros Hb. unfold hex2, hex_nibble, is_ascii_hexdigit. pose proof (Z.mod_pos_bound b 16 ltac:(lia)).
  assert (0 <= b / 16 < 16) by (unfold is_u8, u8_max in Hb; split; [apply Z.div_pos; lia|apply Z.div_lt_upper_bound; lia]).
  repeat constructor; case_all; lia.
Qed.

Lemma ascii_bytes s : Forall (fun c => 0 <= c < 128) s -> as_bytes s = s /\ str_len s = zlen s.
Proof.
  intros Hs. induction Hs as [|c s Hc _ [IH1 IH2]]; [done|]. unfold as_bytes in *. cbn [fmap list_fmap concat str_len].
  rewrite IH1, IH2, zlen_cons. unfold utf8_char, len_utf8. destruct (Z.ltb_spec c 128); [|lia]. done.
Qed.

Lemma gen_token_shape buf : is_bytes buf -> length buf = 32%nat ->
  is_mesh_token_shape (gen_mesh_token (Some buf)) = true /\ trim (gen_mesh_token (Some buf)) = gen_mesh_token (Some buf) /\
  gen_mesh_token (Some buf) <> [].
Proof.
  intros Hb Hl. unfold gen_mesh_token, gen_session_token. cbn [default from_option id].
  assert (Forall (fun c => is_ascii_hexdigit c = true /\ 0 <= c < 128) (concat (hex2 <$> buf)) /\
          zlen (concat (hex2 <$> buf)) = 2 * zlen buf) as [Hf Hz].
  { clear Hl. induction Hb as [|b buf Hb _ [IH1 IH2]]; [done|]. cbn [fmap list_fmap concat]. split.
    - apply Forall_app. split; [by apply hex2_shape|done].
    - rewrite zlen_app, IH2, zlen_cons. change (zlen (hex2 b)) with 2. lia. }
  set (s := concat _) in *. assert (zlen s = 64) as Hz' by (rewrite Hz; unfold zlen; lia).
  destruct (ascii_bytes s) as [Hby Hsl]; [eapply Forall_impl; [exact Hf|]; naive_solver|].
  assert (Forall (fun c => is_whitespace c = false) s) as Hws.
  { eapply Forall_impl; [exact Hf|]. intros c [Hc _]. unfold is_ascii_hexdigit in Hc. unfold is_whitespace. lia. }
  assert (forall l, Forall (fun c => is_whitespace c = false) l -> trim_start l = l) as Hts.
  { intros [|c l] H; [done|]. apply Forall_inv in H. cbn. by rewrite H. }
  split_and!.
  - unfold is_mesh_token_shape. rewrite Hsl, Hz', Hby. cbn. apply forallb_forall. intros c Hc%list_elem_of_In.
    rewrite Forall_forall in Hf. by apply Hf.
  - unfold trim, trim_end. rewrite (Hts s) by done. rewrite Hts by by apply Forall_rev. apply rev_involutive.
  - intros E. rewrite E in Hz'. done.
Qed.

(** *** Pairing *)

(** Claims against one offer: how many codes were compared, how many taken. *)
Definition claim_step (s : option Pairing * Z * Z) (x : Z * text) : option Pairing * Z * Z :=
  let '(p, seen, won) := s in
  let compared := match p with Some o => negb (pg_expires o <=? x.1) | None => false end in
  let '(p, ok) := claim_code x.1 x.2 p in (p, seen + Z.b2z compared, won + Z.b2z ok).
Definition claim_run (l : list (Z * text)) (p : option Pairing) : option Pairing * Z * Z := foldl claim_step (p, 0, 0) l.

(** The offer is gone, or it is as old as its wrong guesses. *)
Definition offer_inv (offer : Pairing) (s : option Pairing * Z * Z) : Prop :=
  let '(p, seen, won) := s in
  p = None /\ 0 <= seen <= PAIR_MAX_ATTEMPTS /\ 0 <= won <= 1 \/
  exists n, p = Some (mkPairing (pg_code offer) (pg_expires offer) n) /\ won = 0 /\ seen = n /\ 0 <= n < PAIR_MAX_ATTEMPTS.

Lemma claim_step_inv offer s x : offer_inv offer s -> offer_inv offer (claim_step s x).
Proof.
  destruct s as [[p seen] won], x as [now code]. unfold offer_inv, claim_step, PAIR_MAX_ATTEMPTS. cbn [fst snd].
  intros [(-> & Hs & Hw)|(n & -> & -> & -> & Hn)]; [left; cbn; split_and!; [done|lia..]|].
  unfold claim_code. cbn [pg_expires pg_code pg_attempts].
  destruct (Z.leb_spec (pg_expires offer) now); cbn [negb Z.b2z]; [left; split_and!; [done|lia..]|].
  case_bool_decide; cbn [negb Z.b2z]; [left; split_and!; [done|lia..]|].
  unfold as_u8, PAIR_MAX_ATTEMPTS. rewrite Z.mod_small by lia.
  destruct (Z.leb_spec 5 (n + 1)); [left; split_and!; [done|lia..]|right; exists (n + 1); split_and!; [done|lia..]].
Qed.

(** A pairing code is guessed at no more than five times and taken at most
    once: the fifth wrong guess, the first right one and the deadline each end
    the offer. *)
Theorem pair_code_guesses (now0 : Z) (buf : option bytes) (l : list (Z * text)) :
  let '(p, seen, won) := claim_run l (Some (pair_start now0 buf)) in
  seen <= PAIR_MAX_ATTEMPTS /\ won <= 1 /\ (won = 1 -> p = None) /\
  (forall now code, (claim_code now code p).2 = true -> now < now0 + PAIR_TTL_SECS * 1000).
Proof.
  assert (offer_inv (pair_start now0 buf) (claim_run l (Some (pair_start now0 buf)))) as Hinv.
  { unfold claim_run. assert (offer_inv (pair_start now0 buf) (Some (pair_start now0 buf), 0, 0)) as H0.
    { right. exists 0. unfold PAIR_MAX_ATTEMPTS. split_and!; [done|lia..]. }
    revert H0. generalize (Some (pair_start now0 buf), 0, 0).
    induction l as [|x l IH]; intros s Hs; [done|]. cbn [foldl]. by apply IH, claim_step_inv. }
  destruct (claim_run _ _) as [[p seen] won]. unfold offer_inv, PAIR_MAX_ATTEMPTS in *.
  destruct Hinv as [(-> & Hs & Hw)|(n & -> & -> & -> & Hn)]; (split_and!; [lia|lia|done|]); intros now code; [done|].
  unfold claim_code. cbn [pg_expires pair_start]. destruct (Z.leb_spec (now0 + PAIR_TTL_SECS * 1000) now); [done|]. lia.
Qed.

Section mutual.
Context `{PeersToml} (w : WriteFault) (now : Z) (nonce_buf a_buf b_buf : bytes) (peer_ws code : text) (a b : MeshNode) (offer : Pairing).

(** What the operators and the random source provide. *)
Record pairing_setup : Prop := mkSetup {
  ps_bytes : is_bytes nonce_buf /\ is_bytes a_buf /\ is_bytes b_buf;
  ps_lens : length nonce_buf = 32%nat /\ length a_buf = 32%nat /\ length b_buf = 32%nat;
  ps_offer : mn_pairing b = Some offer /\ pg_code offer = code /\ now < pg_expires offer /\ code <> [];
  ps_ids : trim (mn_id a) = mn_id a /\ mn_id a <> [] /\ trim (mn_id b) = mn_id b /\ mn_id b <> [];
  ps_urls : is_Some (mesh_http_base (mn_url a)) /\ trim (mn_url a) = mn_url a /\ mn_url a <> [] /\
            is_Some (mesh_http_base peer_ws) /\ peer_ws <> [] /\ trim (mn_url b) <> [];
  ps_admin : is_node_admin_token (gen_mesh_token (Some a_buf)) (mn_api_token b) = false /\
             is_node_admin_token (gen_mesh_token (Some b_buf)) (mn_api_token a) = false
}.

Lemma handshake_result :
  pairing_setup ->
  exists a' b', handshake w now (Some nonce_buf) (Some a_buf) (Some b_buf) peer_ws code None a b = (a', b', true) /\
    mn_pairing b' = None /\ mn_flight a' = None /\
    (exists r, find_peer (mn_reg a') (mn_id b) = Some r /\ pr_token r = Some (gen_mesh_token (Some b_buf)) /\
       pr_inbound_token r = Some (gen_mesh_token (Some a_buf))) /\
    (exists r, find_peer (mn_reg b') (mn_id a) = Some r /\ pr_token r = Some (gen_mesh_token (Some a_buf)) /\
       pr_inbound_token r = Some (gen_mesh_token (Some b_buf))).
Proof.
  intros [(Hn & Ha & Hb) (Hln & Hla & Hlb) (Ho & Hc & Hexp & Hc0) (Hia & Hia0 & Hib & Hib0) ([ba Hba] & Hta & Hua0 & [bp Hbp] & Hp0 & Hub0) (Had1 & Had2)].
  destruct (gen_token_shape nonce_buf Hn Hln) as (_ & Htn & Hn0).
  destruct (gen_token_shape a_buf Ha Hla) as (Hsa & _ & _). destruct (gen_token_shape b_buf Hb Hlb) as (Hsb & _ & _).
  unfold handshake, pair_redeem_start. rewrite (bool_decide_false (peer_ws = [])), (bool_decide_false (code = [])) by done.
  cbn [orb]. rewrite Hbp. cbn [fmap option_fmap option_map mbind option_bind default from_option]. unfold id. rewrite Hba. cbn [is_noneb].
  set (nonce := gen_mesh_token (Some nonce_buf)) in *.
  unfold pair_claim_check. cbn [cl_code cl_node cl_url cl_nonce]. rewrite Htn, Hia, Hta, Hba.
  rewrite (bool_decide_false (code = [])), (bool_decide_false (mn_id a = [])), (bool_decide_false (mn_url a = [])), (bool_decide_false (nonce = [])) by done.
  cbn [orb is_noneb]. rewrite Ho. unfold claim_code. destruct (Z.leb_spec (pg_expires offer) now); [lia|].
  rewrite bool_decide_true by done.
  unfold pair_confirm. cbn [mn_with_pairing mn_id mn_url]. rewrite Hib, (bool_decide_false (nonce = [])), (bool_decide_false (mn_id b = [])) by done. cbn [orb mn_with_flight mn_flight rf_expires rf_nonce].
  destruct (Z.ltb_spec now (now + 30000)); [|lia]. rewrite bool_decide_true by done. cbn [andb].
  rewrite (bool_decide_false (trim (mn_url b) = [])) by done. cbn [default from_option]. unfold id.
  unfold pair_claim_finish. rewrite Hsa. cbn [negb orb mn_with_pairing mn_api_token]. rewrite Had1. cbn [fmap option_fmap option_map].
  unfold pair_redeem_finish. cbn [mn_with_reg mn_with_flight mn_flight mn_reg mn_file mn_api_token mn_id].
  rewrite (bool_decide_false (mn_id b = [])), Hsb, Had2 by done. cbn [negb orb].
  eexists _, _. split; [reflexivity|]. cbn [mn_with_reg mn_with_pairing mn_pairing mn_flight mn_reg mn_id cl_node cl_url].
  split_and!; [done|done| |].
  - rewrite find_add. cbn [pr_node_id]. rewrite bool_decide_true by done. eexists. split; [done|]. cbn [pr_token pr_inbound_token].
    rewrite find_add. cbn [pr_node_id]. by rewrite bool_decide_true.
  - rewrite find_add. cbn [pr_node_id]. rewrite Hia, bool_decide_true by done. by eexists.
Qed.
End mutual.

(** Pairing is mutual: a redeemed code leaves each node holding, for the other,
    the token the other minted and the token it minted itself, never a node's
    own admin token, with the offer and the redeem spent; and the token a node
    received opens the other's mesh routes in that node's own name. *)
Theorem pairing_mutual `{PeersToml} (w : WriteFault) (now : Z) (nonce_buf a_buf b_buf : bytes) (peer_ws code : text)
    (a b : MeshNode) (offer : Pairing) :
  pairing_setup now nonce_buf a_buf b_buf peer_ws code a b offer ->
  exists a' b', handshake w now (Some nonce_buf) (Some a_buf) (Some b_buf) peer_ws code None a b = (a', b', true) /\
    mn_pairing b' = None /\ mn_flight a' = None /\
    (exists r r', find_peer (mn_reg a') (mn_id b) = Some r /\ find_peer (mn_reg b') (mn_id a) = Some r' /\
       pr_token r = pr_inbound_token r' /\ pr_token r' = pr_inbound_token r /\
       is_Some (pr_token r) /\ is_Some (pr_token r') /\
       ((forall p t, p ∈ mn_reg b' -> pr_inbound_token p = Some t ->
           tokens_match (gen_mesh_token (Some b_buf)) t = true -> pr_node_id p = pr_node_id r') ->
        forall t, pr_token r = Some t -> peer_id_for_inbound_token (mn_reg b') t = Some (mn_id a))).
Proof.
  intros Hs. destruct (handshake_result w now nonce_buf a_buf b_buf peer_ws code a b offer Hs)
    as (a' & b' & Hh & Hp & Hf & (r & Hr & Hrt & Hri) & (r' & Hr' & Hrt' & Hri')).
  exists a', b'. split_and!; [done..|]. exists r, r'. split_and!; [done..|by rewrite Hrt, Hri'|by rewrite Hrt', Hri|by rewrite Hrt|by rewrite Hrt'|].
  intros Huniq t Ht. rewrite Hrt in Ht. injection Ht as <-.
  apply find_some in Hr' as [Hin Hid]. apply bool_decide_eq_true in Hid. rewrite <- Hid.
  destruct Hs as [(_ & _ & Hb) (_ & _ & Hlb) _ _ _ _].
  apply inbound_unique; [by apply gen_token_shape|by apply list_elem_of_In|done|done].
Qed.

(** *** What peers can claim *)

Section claims.
Context {V : Type} `{!JsonArgs V} `{!JsonNums V}.

Lemma sender_tags_spec (mem : V) :
  (length (sender_tags mem) <= FED_MAX_TAGS)%nat /\
  Forall (fun t => provenance_shaped t = false /\ t <> [] /\ zlen t <= FED_TAG_MAX_CHARS) (sender_tags mem).
Proof.
  unfold sender_tags. split; [rewrite length_take; lia|]. apply Forall_forall. intros t Ht%elem_of_take.
  destruct Ht as (i & Ht & _). apply list_elem_of_lookup_2, list_elem_of_In, filter_In in Ht as [Ht Hp].
  apply filter_In in Ht as [_ Ht]. apply negb_true_iff in Hp. apply andb_true_iff in Ht as [Hne Hlen].
  apply negb_true_iff, bool_decide_eq_false in Hne. split_and!; [done..|lia].
Qed.
End claims.

(** A memory that arrives over the mesh carries the provenance the receiver
    stamps and no other: whatever the sender put in the body, the tags of
    provenance shape are [colony], the node it came from and its own memory id,
    the memory is private, and its tags are bounded. *)
Theorem federated_provenance (V : Type) `{!JsonArgs V} `{!JsonNums V} (clamp01 : V -> option V) (from_node agent_id : text)
    (body : V) (m : FedMemory V) (preview : text) :
  federated_remember_args clamp01 from_node agent_id body = Ok (m, preview) ->
  fm_visibility m = chars "private" /\ fm_agent m = agent_id /\ chars "colony" ∈ fm_tags m /\
  chars "from:" ++ from_node ∈ fm_tags m /\
  (forall t, t ∈ fm_tags m -> starts_with (chars "from:") t = true -> t = chars "from:" ++ from_node) /\
  (length (fm_tags m) <= FED_MAX_TAGS + 3)%nat /\
  (fm_type m = Some (chars "procedural") -> fm_salience m = None).
Proof.
  unfold federated_remember_args. set (mem := json_get body (chars "memory")).
  case_bool_decide; [done|]. destruct (_ <? _); [done|]. intros [= <- _]. cbn [fm_visibility fm_agent fm_tags fm_type fm_salience].
  assert (forall t, t ∈ match mem with Some m => sender_tags m | None => [] end -> provenance_shaped t = false) as Hs.
  { intros t Ht. destruct mem as [mv|]; [|by apply not_elem_of_nil in Ht].
    destruct (sender_tags_spec mv) as [_ Hall]. rewrite Forall_forall in Hall. by apply Hall. }
  assert (length (match mem with Some m => sender_tags m | None => [] end) <= FED_MAX_TAGS)%nat as Hlen.
  { destruct mem as [mv|]; [apply sender_tags_spec|cbn; lia]. }
  set (st := match mem with Some m => sender_tags m | None => [] end) in *.
  split_and!; [done|done| | | | |].
  - apply elem_of_app. right. left.
  - apply elem_of_app. right. right. left.
  - intros t [Ht|Ht]%elem_of_app Hf.
    + apply Hs in Ht. unfold provenance_shaped in Ht. rewrite Hf in Ht. by destruct (bool_decide _).
    + apply elem_of_cons in Ht as [->|[->|Ht]%elem_of_cons]; [done|done|].
      destruct (arg_str body _) as [o|]; [|by apply not_elem_of_nil in Ht].
      case_bool_decide; [by apply not_elem_of_nil in Ht|]. apply list_elem_of_singleton in Ht as ->. done.
  - rewrite !length_app. cbn [length]. unfold FED_MAX_TAGS in *. destruct (arg_str _ _); [case_bool_decide|]; cbn [length]; lia.
  - intros ->. by rewrite bool_decide_true.
Qed.

(** The worker routes take the sender's word: a request let in by one peer's
    mesh token that names another registered peer is handed to the driver as
    that peer's, while an a2a message is attributed to the token's owner
    whatever its body says. *)
Theorem worker_wire_impersonates (V : Type) `{!JsonArgs V} `{!JsonNums V} (reg : Registry) (threads : gmap text Z)
    (counter : Z) (kind : WorkerMeshKind) (token_owner named : text) (body : V) (hops : Z) :
  arg_str body (chars "from") = Some named -> trim named <> [] -> contains reg named = true ->
  message_from reg (Some token_owner) body = Some token_owner /\
  exists t c q, worker_mesh_request true reg threads counter kind body hops = (t, c, Ok q) /\ mq_from q = named /\ mq_kind q = kind.
Proof.
  intros Hf Hne Hc. split; [done|]. unfold worker_mesh_request. rewrite Hf. cbn [negb mbind option_bind].
  rewrite bool_decide_false, Hc by done. cbn [negb].
  destruct kind; [|by eexists _, _, _..]. destruct (mesh_session_alloc _ _ _) as [[[t c] s] f]. by eexists _, _, _.
Qed.

(** Threads: each peer its own session, below the counter. *)
Definition threads_ok (m : gmap text Z) (counter : Z) : Prop :=
  (forall p s, m !! p = Some s -> 0 <= s < counter) /\ (forall p q s, m !! p = Some s -> m !! q = Some s -> p = q).

(** Each peer keeps one thread: the session a peer's messages land in is the
    same every time, no other peer's, and was not given out before. *)
Theorem thread_is_the_peers (m : gmap text Z) (counter : Z) (peer : text) :
  threads_ok m counter -> 0 <= counter < u64_max ->
  let '(m', counter', s, fresh) := mesh_session_alloc m counter peer in
  threads_ok m' counter' /\ m' !! peer = Some s /\ s < counter' /\
  (forall q t, m !! q = Some t -> m' !! q = Some t) /\
  (fresh = true <-> m !! peer = None) /\ (fresh = true -> s = counter) /\
  mesh_session_alloc m' counter' peer = (m', counter', s, false).
Proof.
  intros [Hr Hi] Hc. unfold mesh_session_alloc. destruct (m !! peer) as [s|] eqn:E.
  - rewrite E. split_and!; [done|done|by apply Hr in E as [_ ?]|done|done|done|done].
  - rewrite lookup_insert_eq. unfold as_u64. rewrite Z.mod_small by ulia. split_and!; [|done|lia| |done|done|done].
    + split.
      * intros p s [[<- <-]|[_ Hp]]%lookup_insert_Some; [lia|]. apply Hr in Hp. lia.
      * intros p q s [[<- <-]|[Hne Hp]]%lookup_insert_Some [[<- Hq]|[Hne' Hq]]%lookup_insert_Some; try done.
        -- apply Hr in Hq. lia.
        -- apply Hr in Hp. lia.
        -- by eapply Hi.
    + intros q t Hq. rewrite lookup_insert_ne; [done|]. intros <-. congruence.
Qed.

(** Adding a peer again by hand forgets its radio: the record is rebuilt with
    no radio id, though its tokens are kept. *)
Lemma readd_forgets_radio `{PeersToml} w api id url role reg file :
  id <> [] -> url <> [] ->
  exists r, find_peer (mesh_peers_post w api (Some id) (Some url) role None reg file).1.1 id = Some r /\
    pr_radio_id r = None /\ pr_token r = find_peer reg id ≫= pr_token /\
    pr_inbound_token r = find_peer reg id ≫= pr_inbound_token.
Proof.
  intros Hi Hu. unfold mesh_peers_post. cbn [mbind option_bind]. rewrite !bool_decide_false by done.
  rewrite find_add. cbn [pr_node_id]. rewrite bool_decide_true by done. by eexists.
Qed.

(** A registry that does not parse is an empty one, and the next change writes
    over it. *)
Lemma damaged_registry_is_forgotten `{PeersToml} w s r :
  peers_of_toml s = None -> w = WriteFine ->
  peers_load (Some s) = [] /\ (peers_add w r (peers_load (Some s)) (Some s)).1.2 = Some (peers_text [r]).
Proof. intros Hs ->. unfold peers_load. cbn [mbind option_bind]. by rewrite Hs. Qed.

(** ** Concrete inputs *)

#[export] Instance toy_peers : PeersToml := {| debug_str s := s; peers_of_toml _ := None |}.

Definition toy_claimer : MeshNode := mkNode (chars "kitchen") (chars "ws://10.0.0.1:8787") (chars "admin-a") [] None None None.
Definition toy_offerer : MeshNode :=
  mkNode (chars "attic") (chars "ws://10.0.0.2:8787") (chars "admin-b") [] None (Some (mkPairing (chars "123456") 5000 0)) None.

Lemma pairing_mutual_witness :
  exists a' b', handshake WriteFine 0 (Some (repeat 1 32)) (Some (repeat 2 32)) (Some (repeat 3 32))
      (chars "ws://10.0.0.2:8787") (chars "123456") None toy_claimer toy_offerer = (a', b', true).
Proof.
  destruct (pairing_mutual WriteFine 0 (repeat 1 32) (repeat 2 32) (repeat 3 32) (chars "ws://10.0.0.2:8787") (chars "123456")
    toy_claimer toy_offerer (mkPairing (chars "123456") 5000 0)) as (a' & b' & H & _).
  - constructor.
    + split_and!; apply Forall_forall; intros x ->%list_elem_of_In%repeat_spec; done.
    + done.
    + split_and!; done.
    + split_and!; done.
    + split_and!; [by eexists|done|done|by eexists|done|done].
    + done.
  - exists a', b'. exact H.
Defined.

Definition toy_named : Toy := ToyObj [(chars "from", ToyStr (chars "attic"))].
Definition toy_attic : PeerRecord := mkPeer (chars "attic") (chars "ws://10.0.0.2:8787") RoleFull (chars "online") None None None.

Lemma worker_wire_impersonates_witness :
  exists t c q, worker_mesh_request true [toy_attic] ∅ 7 Fanout toy_named 0 = (t, c, Ok q) /\ mq_from q = chars "attic".
Proof.
  destruct (worker_wire_impersonates Toy [toy_attic] ∅ 7 Fanout (chars "kitchen") (chars "attic") toy_named 0)
    as (_ & t & c & q & H & Hf & _); [done..|].
  exists t, c, q. by split.
Defined.

(** A sender that forges its provenance. *)
Definition toy_memory : Toy :=
  ToyObj [(chars "memory", ToyObj [(chars "content", ToyStr (chars "the tap drips"));
            (chars "tags", ToyObj [([], ToyStr (chars "from:cellar")); ([], ToyStr (chars "water"))])])].

Lemma federated_provenance_witness :
  exists m, federated_remember_args (fun _ => None) (chars "attic") (chars "APEX") toy_memory = Ok (m, chars "the tap drips") /\
    fm_tags m = [chars "water"; chars "colony"; chars "from:attic"] /\ fm_visibility m = chars "private".
Proof.
  destruct (federated_remember_args (fun _ => None) (chars "attic") (chars "APEX") toy_memory) as [[m p]|err] eqn:E;
    [|vm_compute in E; discriminate].
  destruct (federated_provenance Toy (fun _ => None) (chars "attic") (chars "APEX") toy_memory m p E) as (Hv & _).
  exists m. vm_compute in E. injection E as <- <-. done.
Defined.
