(* ===== verification/WorkerMesh.v ===== *)
(** * The worker fabric over the mesh

    [agentd/crates/agentd/src/worker.rs], third part: the driver's whole state,
    minting, [task_fanout], mirror rows and their polls, and the requests peers
    make.  HTTP exchanges are effects and their outcomes arguments; a peer is
    reachable and dark as the environment says. *)
From S2P Require Import Prelude Text Confine Policy Protocol Identity Auth Peers Mandala Review Remote Worker WorkerTree.

(** ** The driver *)

Record PollTarget := mkPoll {
  po_next : Z;
  po_attempt : Z;
  po_fingerprint : Z;
  po_inflight : bool
}.

Record Driver := mkDriver {
  d_workers : gmap Z Worker;
  d_batches : gmap Z BatchMeta;
  d_remotes : gmap Z RemoteWorker;
  d_polls : gmap (Z * text) PollTarget;
  d_mandalas : gmap Z MandalaRecord;
  d_trees : gmap Z Cells;
  d_index : gmap Z (Z * Addr);
  d_ids : Counters;
  d_next_mandala : Z;
  d_seq : Z;
  d_shared : Shared;
  d_hops : option (gmap Z Z);
  d_censuses : gmap Z (gmap text Z);
  d_next_epoch : gmap Z Z;
  d_spawn_log : gmap Z (list Z)
}.

(** One update per field. *)
Definition d_set_workers (x : gmap Z Worker) (d : Driver) : Driver :=
  mkDriver
    x (d_batches d) (d_remotes d) (d_polls d) (d_mandalas d) (d_trees d) (d_index d) (d_ids d)
    (d_next_mandala d) (d_seq d) (d_shared d) (d_hops d) (d_censuses d) (d_next_epoch d) (d_spawn_log d).
Definition d_set_batches (x : gmap Z BatchMeta) (d : Driver) : Driver :=
  mkDriver
    (d_workers d) x (d_remotes d) (d_polls d) (d_mandalas d) (d_trees d) (d_index d) (d_ids d)
    (d_next_mandala d) (d_seq d) (d_shared d) (d_hops d) (d_censuses d) (d_next_epoch d) (d_spawn_log d).
Definition d_set_remotes (x : gmap Z RemoteWorker) (d : Driver) : Driver :=
  mkDriver
    (d_workers d) (d_batches d) x (d_polls d) (d_mandalas d) (d_trees d) (d_index d) (d_ids d)
    (d_next_mandala d) (d_seq d) (d_shared d) (d_hops d) (d_censuses d) (d_next_epoch d) (d_spawn_log d).
Definition d_set_polls (x : gmap (Z * text) PollTarget) (d : Driver) : Driver :=
  mkDriver
    (d_workers d) (d_batches d) (d_remotes d) x (d_mandalas d) (d_trees d) (d_index d) (d_ids d)
    (d_next_mandala d) (d_seq d) (d_shared d) (d_hops d) (d_censuses d) (d_next_epoch d) (d_spawn_log d).
Definition d_set_mandalas (x : gmap Z MandalaRecord) (d : Driver) : Driver :=
  mkDriver
    (d_workers d) (d_batches d) (d_remotes d) (d_polls d) x (d_trees d) (d_index d) (d_ids d)
    (d_next_mandala d) (d_seq d) (d_shared d) (d_hops d) (d_censuses d) (d_next_epoch d) (d_spawn_log d).
Definition d_set_trees (x : gmap Z Cells) (d : Driver) : Driver :=
  mkDriver
    (d_workers d) (d_batches d) (d_remotes d) (d_polls d) (d_mandalas d) x (d_index d) (d_ids d)
    (d_next_mandala d) (d_seq d) (d_shared d) (d_hops d) (d_censuses d) (d_next_epoch d) (d_spawn_log d).
Definition d_set_index (x : gmap Z (Z * Addr)) (d : Driver) : Driver :=
  mkDriver
    (d_workers d) (d_batches d) (d_remotes d) (d_polls d) (d_mandalas d) (d_trees d) x (d_ids d)
    (d_next_mandala d) (d_seq d) (d_shared d) (d_hops d) (d_censuses d) (d_next_epoch d) (d_spawn_log d).
Definition d_set_ids (x : Counters) (d : Driver) : Driver :=
  mkDriver
    (d_workers d) (d_batches d) (d_remotes d) (d_polls d) (d_mandalas d) (d_trees d) (d_index d) x
    (d_next_mandala d) (d_seq d) (d_shared d) (d_hops d) (d_censuses d) (d_next_epoch d) (d_spawn_log d).
Definition d_set_next_mandala (x : Z) (d : Driver) : Driver :=
  mkDriver
    (d_workers d) (d_batches d) (d_remotes d) (d_polls d) (d_mandalas d) (d_trees d) (d_index d) (d_ids d) x
    (d_seq d) (d_shared d) (d_hops d) (d_censuses d) (d_next_epoch d) (d_spawn_log d).
Definition d_set_seq (x : Z) (d : Driver) : Driver :=
  mkDriver
    (d_workers d) (d_batches d) (d_remotes d) (d_polls d) (d_mandalas d) (d_trees d) (d_index d) (d_ids d)
    (d_next_mandala d) x (d_shared d) (d_hops d) (d_censuses d) (d_next_epoch d) (d_spawn_log d).
Definition d_set_shared (x : Shared) (d : Driver) : Driver :=
  mkDriver
    (d_workers d) (d_batches d) (d_remotes d) (d_polls d) (d_mandalas d) (d_trees d) (d_index d) (d_ids d)
    (d_next_mandala d) (d_seq d) x (d_hops d) (d_censuses d) (d_next_epoch d) (d_spawn_log d).
Definition d_set_hops (x : option (gmap Z Z)) (d : Driver) : Driver :=
  mkDriver
    (d_workers d) (d_batches d) (d_remotes d) (d_polls d) (d_mandalas d) (d_trees d) (d_index d) (d_ids d)
    (d_next_mandala d) (d_seq d) (d_shared d) x (d_censuses d) (d_next_epoch d) (d_spawn_log d).
Definition d_set_censuses (x : gmap Z (gmap text Z)) (d : Driver) : Driver :=
  mkDriver
    (d_workers d) (d_batches d) (d_remotes d) (d_polls d) (d_mandalas d) (d_trees d) (d_index d) (d_ids d)
    (d_next_mandala d) (d_seq d) (d_shared d) (d_hops d) x (d_next_epoch d) (d_spawn_log d).
Definition d_set_next_epoch (x : gmap Z Z) (d : Driver) : Driver :=
  mkDriver
    (d_workers d) (d_batches d) (d_remotes d) (d_polls d) (d_mandalas d) (d_trees d) (d_index d) (d_ids d)
    (d_next_mandala d) (d_seq d) (d_shared d) (d_hops d) (d_censuses d) x (d_spawn_log d).
Definition d_set_spawn_log (x : gmap Z (list Z)) (d : Driver) : Driver :=
  mkDriver
    (d_workers d) (d_batches d) (d_remotes d) (d_polls d) (d_mandalas d) (d_trees d) (d_index d) (d_ids d)
    (d_next_mandala d) (d_seq d) (d_shared d) (d_hops d) (d_censuses d) (d_next_epoch d) x.

Definition d_set_ws (x : gmap Z Worker * Shared) (d : Driver) : Driver := d_set_workers x.1 (d_set_shared x.2 d).

(** What a step finds outside: whether the ledger write with a sequence number
    goes through, evidence documents and files, which peers are registered and
    dark, the time stamp of a mirror, the snapshot hash. *)
Record World (V : Type) := mkWorld {
  wo_txn_ok : Z -> bool;
  wo_read_doc : Z -> option V;
  wo_read_file : text -> option bytes;
  wo_peer : text -> bool;
  wo_dark : text -> bool;
  wo_stamp : text;
  wo_hash : list (Z * text * bool * bool) -> Z
}.
Arguments wo_txn_ok {V}. Arguments wo_read_doc {V}. Arguments wo_read_file {V}. Arguments wo_peer {V}.
Arguments wo_dark {V}. Arguments wo_stamp {V}. Arguments wo_hash {V}.

Section mesh.
Context {V : Type} `{!JsonArgs V} `{!JsonNums V}.

(** [save_worker_state]: a failed write is logged. *)
Definition save_worker_state (wo : World V) (d : Driver) : Driver * list (Effect V) :=
  let '(seq, eff) := persist_worker_txn (wo_txn_ok wo (sat_add64 (d_seq d) 1)) (d_workers d) (d_batches d) (d_seq d) in
  (d_set_seq seq d, [eff]).

(** ** Minting *)

Definition mint_worker (e : Env) (wid sid batch parent : Z) (task : text) (model : option text) (yolo held : bool)
    (ceiling : Z) : Worker :=
  mkWorker batch parent sid task WQueued 1 None [] None (e_now e) None false yolo model false held ceiling
    (if held then Some (e_now e + e_golden e wid REVIEW_PERIOD) else None) None 0.

(** [mint_local_worker]: the worker's id and session. *)
Definition mint_local_worker (e : Env) (batch parent : Z) (task : text) (model : option text) (yolo held : bool) (ceiling : Z)
    (ws : gmap Z Worker) (c : Counters) : gmap Z Worker * Counters * (Z * Z) :=
  let wid := next_worker_id c in
  let sid := next_worker_sid c in
  (<[wid := mint_worker e wid sid batch parent task model yolo held ceiling]> ws,
   mkCounters (as_u64 (wid + 1)) (next_batch_id c) (as_u64 (sid + 1)), (wid, sid)).

(** The per-node assign groups, in the order the nodes first appear. *)
Abbreviation Groups := (list (text * list Z * list RemoteTaskItem)) (only parsing).

Definition group_push (node : text) (wid : Z) (item : RemoteTaskItem) (gs : Groups) : list (text * list Z * list RemoteTaskItem) :=
  if existsb (fun g => bool_decide (g.1.1 = node)) gs
  then map_first (fun g => bool_decide (g.1.1 = node)) (fun g => (g.1.1, g.1.2 ++ [wid], g.2 ++ [item])) gs
  else gs ++ [(node, [wid], [item])].

Definition mint_remote_row (e : Env) (batch parent : Z) (node prompt : text) (model : option text) (steps : option Z)
    (rs : gmap Z RemoteWorker) (gs : Groups) (c : Counters)
    : gmap Z RemoteWorker * list (text * list Z * list RemoteTaskItem) * Counters * Z :=
  let wid := next_worker_id c in
  (<[wid := mkRemote batch parent node prompt model None None None STATE_ASSIGNING None None (e_epoch e)]> rs,
   group_push node wid (mkRemoteTask prompt model steps) gs,
   mkCounters (as_u64 (wid + 1)) (next_batch_id c) (next_worker_sid c), wid).

(** What a fan mints: local rows, mirror rows, and every id in plan order. *)
Record Minting := mkMinting {
  mt_workers : gmap Z Worker;
  mt_remotes : gmap Z RemoteWorker;
  mt_groups : list (text * list Z * list RemoteTaskItem);
  mt_ids : Counters;
  mt_minted : list (Z * Z);
  mt_cells : list Z
}.

Definition mint_plan (e : Env) (batch parent : Z) (yolo : bool) (s : Minting) (p : CellPlan) : Minting :=
  match cp_node p with
  | Some node =>
      let '(rs, gs, c, wid) := mint_remote_row e batch parent node (cp_prompt p) (cp_model p) (Some (bv_steps (cp_budget p)))
                                 (mt_remotes s) (mt_groups s) (mt_ids s) in
      mkMinting (mt_workers s) rs gs c (mt_minted s) (mt_cells s ++ [wid])
  | None =>
      let '(ws, c, m) := mint_local_worker e batch parent (cp_prompt p) (cp_model p) yolo
                           (holds_at_mint (cp_barrier_timeout_s p) (cp_measure p)) (clamp 1 100 (bv_steps (cp_budget p)))
                           (mt_workers s) (mt_ids s) in
      mkMinting ws (mt_remotes s) (mt_groups s) c (mt_minted s ++ [m]) (mt_cells s ++ [m.1])
  end.

Definition mint_task (e : Env) (batch parent : Z) (yolo : bool) (s : Minting) (t : TaskSpecItem) : Minting :=
  let '(ws, c, m) := mint_local_worker e batch parent (ti_prompt t) (ti_model t) yolo false 0 (mt_workers s) (mt_ids s) in
  mkMinting ws (mt_remotes s) (mt_groups s) c (mt_minted s ++ [m]) (mt_cells s).

Definition mint_remote_task (e : Env) (batch parent : Z) (s : Minting) (t : TaskSpecItem) : Minting :=
  let '(rs, gs, c, _) := mint_remote_row e batch parent (default [] (ti_node t)) (ti_prompt t) (ti_model t) None
                           (mt_remotes s) (mt_groups s) (mt_ids s) in
  mkMinting (mt_workers s) rs gs c (mt_minted s) (mt_cells s).

Definition mint_all (e : Env) (batch parent : Z) (yolo : bool) (ctx : option CellsCtx) (tasks : list TaskSpecItem) (s : Minting)
    : Minting :=
  match ctx with
  | Some c => foldl (mint_plan e batch parent yolo) s (cc_plans c)
  | None =>
      let s := foldl (mint_task e batch parent yolo) s (List.filter (fun t => is_noneb (ti_node t)) tasks) in
      foldl (mint_remote_task e batch parent) s (List.filter (fun t => is_someb (ti_node t)) tasks)
  end.

Definition emit_remote_state (id : Z) (r : RemoteWorker) (detail : text) : Effect V :=
  EWorkerState id (rm_batch r) (rm_parent r) 0 (take 80 (rm_task r)) (remote_row_state (rm_state_raw r))
    (if bool_decide (detail = []) then rm_state_raw r ++ chars " @ " ++ rm_node r else detail) false (Some (rm_node r)).

(** ** [task_fanout] *)

(** The voucher gate. *)
Definition caller_cell (d : Driver) (session : Z) (args : V) (inline : bool) : result (option Addr) Refusal :=
  if is_worker_session session then
    match find_worker (fun x => w_session x.2 =? session) (d_workers d) ≫= (fun x => d_index d !! x.1) with
    | None => Err NoVoucher
    | Some (mid, addr) =>
        if negb (match tree_cell (d_trees d) mid addr with Some c => cell_voucher c | None => false end) then Err CellNoVoucher
        else if negb (bool_decide (arg_u64 args (chars "mandala") = Some mid)) then Err (WrongMandala mid)
        else if inline then Err SubConductInline
        else Ok (Some addr)
    end
  else Ok None.

Definition remote_nodes (tasks : list TaskSpecItem) : list text := remove_dups (sort_texts (omap ti_node tasks)).

Definition remote_gate (cf : Config) (wo : World V) (inline : bool) (nodes : list text) : result unit Refusal :=
  if bool_decide (nodes = []) then Ok tt
  else if negb (cf_mesh_enabled cf) then Err MeshDisabled
  else if inline then Err NodeInline
  else match List.find (fun n => negb (wo_peer wo n)) nodes with Some n => Err (UnknownPeer n) | None => Ok tt end.

Definition parse_mode (args : V) : result bool Refusal :=
  match arg_str args (chars "mode") with
  | None => Ok false
  | Some m => if bool_decide (m = chars "async") then Ok false
              else if bool_decide (m = chars "inline") then Ok true else Err (UnknownMode m)
  end.

(** Everything that is decided before a row exists. *)
Definition fanout_request (cf : Config) (wo : World V) (d : Driver) (session : Z) (args : V)
    : result (bool * list TaskSpecItem * option CellsCtx) Refusal :=
  inline <-! parse_mode args;
  tasks <-! parse_tasks args;
  if inline && (INLINE_MAX_TASKS <? zlen tasks) then Err (InlineTooWide (zlen tasks))
  else
    caller <-! caller_cell d session args inline;
    _ <-! remote_gate cf wo inline (remote_nodes tasks);
    ctx <-! prepare_mandala_cells (d_mandalas d) (d_trees d) session args tasks inline caller;
    Ok (inline, tasks, ctx).

Definition assign_one (cf : Config) (wo : World V) (d : Driver) (session batch deadline_s : Z)
    (g : text * list Z * list RemoteTaskItem) : Effect V :=
  let '(node, wids, items) := g in
  if wo_dark wo node then EAssignFailed batch node wids true
  else if wo_peer wo node then
    EAssign node wids (build_fanout_body (cf_node_id cf) batch deadline_s items)
      (match next_mesh_hops (mesh_hops_get (d_hops d) session) with Ok n => n | Err _ => MESH_HOP_LIMIT end)
  else EAssignFailed batch node wids false.

Definition group_ids (gs : Groups) : list Z := concat ((fun g : text * list Z * list RemoteTaskItem => g.1.2) <$> gs).

Definition fan_cards (s : Minting) : list (Effect V) :=
  omap (fun m : Z * Z => w ← mt_workers s !! m.1;
          Some (emit_state m.1 w (if w_barrier_held w then utf8 "barrier armed — waiting on descendants" else chars "queued")))
    (mt_minted s)
  ++ omap (fun wid => r ← mt_remotes s !! wid; Some (emit_remote_state wid r (chars "assigning to " ++ rm_node r)))
       (group_ids (mt_groups s)).

(** The minted rows with their ledger written, or the fan undone.  The result
    carries the plans and the worker of each. *)
Definition fanout (cf : Config) (e : Env) (wo : World V) (d : Driver) (session call : Z) (args : V)
    : Driver * list (Effect V) * option (option CellsCtx * list Z) :=
  match fanout_request cf wo d session args with
  | Err r => (d, [EReply session call (Refused r)], None)
  | Ok (inline, tasks, ctx) =>
      let yolo := bool_decide (arg_str args (chars "yolo") = Some (chars "inherit")) && session_armed (d_shared d) session in
      let batch := next_batch_id (d_ids d) in
      let c0 := mkCounters (next_worker_id (d_ids d)) (as_u64 (batch + 1)) (next_worker_sid (d_ids d)) in
      let deadline_s := parse_batch_deadline args in
      let deadline_s := if inline then Z.min deadline_s INLINE_DEADLINE_CEIL_S else deadline_s in
      let deadline_s := match ctx with Some c => Z.min deadline_s (cc_deadline_cap_s c) | None => deadline_s end in
      let bs := <[batch := mkBatch session (e_epoch e) deadline_s false (if inline then Some (session, call) else None) None]> (d_batches d) in
      let s := mint_all e batch session yolo ctx tasks (mkMinting (d_workers d) (d_remotes d) [] c0 [] []) in
      let ok := wo_txn_ok wo (sat_add64 (d_seq d) 1) in
      let '(seq, txn) := persist_worker_txn ok (mt_workers s) bs (d_seq d) in
      if negb ok then
        (d_set_workers (foldr delete (mt_workers s) (mt_minted s).*1)
           (d_set_remotes (foldr delete (mt_remotes s) (group_ids (mt_groups s)))
              (d_set_batches (delete batch bs) (d_set_ids (mt_ids s) (d_set_seq seq d)))),
         [txn; EReply session call (Refused (NotPersisted batch))], None)
      else
        let d := d_set_workers (mt_workers s) (d_set_remotes (mt_remotes s) (d_set_batches bs (d_set_ids (mt_ids s) (d_set_seq seq d)))) in
        let admitted_now := Z.min (Z.max (cf_cap cf - slots_used (mt_workers s)) 0) (zlen (mt_minted s)) in
        let ack :=
          if inline then []
          else [EReply session call (Fanned batch (mt_minted s)
                  (concat ((fun g : text * list Z * list RemoteTaskItem => (fun w => (w, g.1.1)) <$> g.1.2) <$> mt_groups s))
                  admitted_now (zlen (mt_minted s) - admitted_now) deadline_s yolo
                  (match ctx with Some c => cp_addr <$> cc_plans c | None => [] end))] in
        let '(ws, sh, eff) := admit_queued cf e (d_workers d) (d_shared d) in
        (d_set_ws (ws, sh) d,
         txn :: fan_cards s ++ ack ++ eff ++ (assign_one cf wo d session batch deadline_s <$> mt_groups s),
         Some (ctx, mt_cells s))
  end.

(** ** Mirror rows *)

Definition mirror_of (wo : World V) (wid : Z) (r : RemoteWorker) (doc : option V) : Effect V :=
  EMirror wid (fold_remote_evidence (compose_mirror_doc wid r (wo_stamp wo)) doc).

Definition fail_remote_row (cf : Config) (wo : World V) (cause : text) (s : gmap Z RemoteWorker * list (Effect V)) (wid : Z)
    : gmap Z RemoteWorker * list (Effect V) :=
  let '(rs, eff) := s in
  match rs !! wid with
  | None => s
  | Some r =>
      if rm_terminal r then s
      else
        let r := rm_with_summary (rm_with_state r (chars "failed")) (Some (chars "remote assignment failed: " ++ cause)) in
        let r' := rm_with_evidence r (Some (evidence_path cf wid)) in
        (<[wid := r']> rs, eff ++ [mirror_of wo wid r None; emit_remote_state wid r' (chars "assign failed: " ++ cause)])
  end.

Definition fail_remote_rows (cf : Config) (wo : World V) (cause : text) (rs : Remotes) (wids : list Z)
    : gmap Z RemoteWorker * list (Effect V) :=
  foldl (fail_remote_row cf wo cause) (rs, []) wids.

Definition accept_one (node : text) (peer_batch : Z) (wids : list Z) (s : gmap Z RemoteWorker * list (Effect V)) (ar : AcceptedRow)
    : gmap Z RemoteWorker * list (Effect V) :=
  let '(rs, eff) := s in
  match wids !! Z.to_nat (ar_index ar) with
  | None => s
  | Some wid =>
      match rs !! wid with
      | None => s
      | Some r =>
          let r := rm_with_state (rm_with_ids r peer_batch (ar_worker ar) (ar_session ar)) (chars "queued") in
          (<[wid := r]> rs,
           eff ++ [emit_remote_state wid r (chars "assigned to " ++ node ++ chars " (worker " ++ dec_text (ar_worker ar)
                     ++ chars ", session " ++ dec_text (ar_session ar) ++ chars ")")])
      end
  end.

Definition handle_assign_outcome (cf : Config) (e : Env) (wo : World V) (d : Driver) (batch : Z) (node : text) (wids : list Z)
    (answer : result V text) : Driver * list (Effect V) :=
  match rbind answer parse_fanout_accept with
  | Ok (peer_batch, rows) =>
      let '(rs, eff) := foldl (accept_one node peer_batch wids) (d_remotes d, []) rows in
      (d_set_remotes rs
         (d_set_polls (<[(batch, node) := mkPoll (e_now e + e_golden e (default batch (head wids)) REVIEW_PERIOD) 0 0 false]> (d_polls d)) d),
       eff)
  | Err cause => let '(rs, eff) := fail_remote_rows cf wo cause (d_remotes d) wids in (d_set_remotes rs d, eff)
  end.

(** One row of a snapshot, on the first mirror row it names. *)
Definition apply_wire_row (cf : Config) (wo : World V) (batch : Z) (node : text)
    (s : gmap Z RemoteWorker * list (Effect V) * bool) (wire : WireRow V) : gmap Z RemoteWorker * list (Effect V) * bool :=
  let '(rs, eff, changed) := s in
  match List.find (fun x : Z * RemoteWorker => (rm_batch x.2 =? batch) && bool_decide (rm_node x.2 = node)
                     && bool_decide (rm_remote_worker x.2 = Some (wr_worker wire))) (map_to_list rs) with
  | None => s
  | Some (wid, r0) =>
      let state_changed := negb (bool_decide (rm_state_raw r0 = wr_state wire)) in
      let r := if state_changed then rm_with_state r0 (wr_state wire) else r0 in
      let sum_changed := is_someb (wr_summary wire) && negb (bool_decide (rm_summary r = wr_summary wire)) in
      let r := if sum_changed then rm_with_summary r (wr_summary wire) else r in
      let mirror := rm_terminal r && is_noneb (rm_evidence r) in
      let eff1 := if mirror then [mirror_of wo wid r (wr_evidence_doc wire)] else [] in
      let r := if mirror then rm_with_evidence r (Some (evidence_path cf wid)) else r in
      (<[wid := r]> rs, eff ++ eff1 ++ (if state_changed then [emit_remote_state wid r []] else []),
       changed || state_changed || sum_changed || mirror)
  end.

Definition apply_wire_rows (cf : Config) (wo : World V) (rs : Remotes) (batch : Z) (node : text) (rows : list (WireRow V))
    : gmap Z RemoteWorker * list (Effect V) * bool :=
  foldl (apply_wire_row cf wo batch node) (rs, [], false) rows.

Definition climb (now : Z) (p : PollTarget) (inflight : bool) : PollTarget :=
  let attempt := sat_add32 (po_attempt p) 1 in
  mkPoll (now + next_poll_in attempt false REVIEW_PERIOD) attempt (po_fingerprint p) inflight.

Definition handle_poll_outcome `{!WireRowJson V} (cf : Config) (e : Env) (wo : World V) (d : Driver) (batch : Z) (node : text)
    (answer : result V text) : Driver * list (Effect V) * bool :=
  match d_polls d !! (batch, node) with
  | None => (d, [], false)
  | Some t =>
      match answer with
      | Ok v =>
          let rows := parse_rows v in
          let fp := rows_fingerprint (wo_hash wo) rows in
          let '(rs, eff, changed) := apply_wire_rows cf wo (d_remotes d) batch node rows in
          let moved := negb (fp =? po_fingerprint t) || changed in
          let attempt := if moved then 0 else sat_add32 (po_attempt t) 1 in
          (d_set_remotes rs
             (d_set_polls (<[(batch, node) := mkPoll (e_now e + next_poll_in attempt moved REVIEW_PERIOD) attempt fp false]> (d_polls d)) d),
           eff, changed)
      | Err _ => (d_set_polls (<[(batch, node) := climb (e_now e) t false]> (d_polls d)) d, [], false)
      end
  end.

Definition poll_one (e : Env) (wo : World V) (rs : Remotes) (bs : Batches) (s : gmap (Z * text) PollTarget * list (Effect V))
    (key : Z * text) : gmap (Z * text) PollTarget * list (Effect V) :=
  let '(polls, eff) := s in
  let '(batch, node) := key in
  let group := List.filter (fun r => (rm_batch r =? batch) && bool_decide (rm_node r = node)) (map_to_list rs).*2 in
  let all_terminal := negb (bool_decide (group = [])) && forallb rm_terminal group in
  let reported := match bs !! batch with Some b => b_reported b | None => true end in
  if bool_decide (group = []) || (all_terminal && reported) then (delete key polls, eff)
  else
    match find_map rm_remote_batch group with
    | None => (delete key polls, eff)
    | Some peer_batch =>
        match polls !! key with
        | None => s
        | Some t =>
            if wo_dark wo node || negb (wo_peer wo node) then (<[key := climb (e_now e) t (po_inflight t)]> polls, eff)
            else (<[key := mkPoll (po_next t) (po_attempt t) (po_fingerprint t) true]> polls, eff ++ [EPoll node batch peer_batch])
        end
    end.

Definition run_due_polls (e : Env) (wo : World V) (d : Driver) : Driver * list (Effect V) :=
  let due := (filter (fun x : Z * text * PollTarget => negb (po_inflight x.2) && (po_next x.2 <=? e_now e)) (map_to_list (d_polls d))).*1 in
  let '(polls, eff) := foldl (poll_one e wo (d_remotes d) (d_batches d)) (d_polls d, []) due in
  (d_set_polls polls d, eff).

(** [spawn_report_home]: the reports whose origin is still registered. *)
Definition spawn_report_home (wo : World V) (home : list (Effect V)) : list (Effect V) :=
  List.filter (fun f => match f with EReportHome node _ => wo_peer wo node | _ => true end) home.

Definition relay_one (s : gmap Z RemoteWorker * gmap (Z * text) (option Z * list Z) * list (Effect V)) (id : Z)
    : gmap Z RemoteWorker * gmap (Z * text) (option Z * list Z) * list (Effect V) :=
  let '(rs, groups, eff) := s in
  match rs !! id with
  | None => s
  | Some r =>
      if rm_terminal r then s
      else
        let r := rm_with_state r STATE_CANCEL_REQUESTED in
        let key := (rm_batch r, rm_node r) in
        let g := default (rm_remote_batch r, []) (groups !! key) in
        (<[id := r]> rs,
         <[key := (g.1, g.2 ++ match rm_remote_worker r with Some w => [w] | None => [] end)]> groups,
         eff ++ [emit_remote_state id r (chars "cancel relayed to " ++ rm_node r)])
  end.

Definition relay_remote_cancels (wo : World V) (rs : Remotes) (ids : list Z) : gmap Z RemoteWorker * list (Effect V) :=
  let '(rs, groups, eff) := foldl relay_one (rs, ∅, []) ids in
  (rs, eff ++ omap (fun x : Z * text * (option Z * list Z) =>
                      let '(_, node, (remote_batch, workers)) := x in
                      rb ← remote_batch; if wo_peer wo node then Some (ECancelRelay node rb workers) else None) (map_to_list groups)).

(** ** Requests of peers *)

(** The tasks of a hosted batch: prompt, model, ceiling. *)
Fixpoint hosted_tasks (from : text) (origin_batch : Z) (items : list V) : option (list (text * option text * Z)) :=
  match items with
  | [] => Some []
  | it :: items =>
      let prompt := trim (default [] (arg_str it (chars "prompt"))) in
      if bool_decide (prompt = []) then None
      else
        rest ← hosted_tasks from origin_batch items;
        Some ((provenance_prefix from origin_batch prompt, trimmed 64 (arg_str it (chars "model")),
               hosted_step_ceiling (arg_u64 it (chars "steps"))) :: rest)
  end.

Definition mint_hosted (e : Env) (batch parent hops : Z) (s : gmap Z Worker * Counters * option (gmap Z Z) * list (Z * Z))
    (t : text * option text * Z) : gmap Z Worker * Counters * option (gmap Z Z) * list (Z * Z) :=
  let '(ws, c, hm, minted) := s in
  let '(task, model, ceiling) := t in
  let '(ws, c, m) := mint_local_worker e batch parent task model false false ceiling ws c in
  (ws, c, mesh_hops_set hm m.2 hops, minted ++ [m]).

Definition host_fanout (cf : Config) (e : Env) (wo : World V) (d : Driver) (q : WorkerMeshReq V)
    : Driver * list (Effect V) * bool :=
  let refuse why := (d, [EMeshRefused why], false) in
  let origin_batch := default 0 (arg_u64 (mq_body q) (chars "origin_batch")) in
  match mq_parent q with
  | None => refuse (chars "no landing session resolved")
  | Some parent =>
      let items := default [] (arg_array (mq_body q) (chars "tasks")) in
      if bool_decide (items = []) || (MAX_BATCH_TASKS <? zlen items) then refuse (chars "tasks must be 1..=32")
      else
        match hosted_tasks (mq_from q) origin_batch items with
        | None => refuse (chars "a task has no prompt")
        | Some tasks =>
            let deadline_s := match arg_u64 (mq_body q) (chars "deadline_s") with
                              | Some n => clamp 60 86400 n | None => DEFAULT_BATCH_DEADLINE_S end in
            let batch := next_batch_id (d_ids d) in
            let c0 := mkCounters (next_worker_id (d_ids d)) (as_u64 (batch + 1)) (next_worker_sid (d_ids d)) in
            let bs := <[batch := mkBatch parent (e_epoch e) deadline_s false None (Some (mq_from q, origin_batch))]> (d_batches d) in
            let '(ws, c, hm, minted) := foldl (mint_hosted e batch parent (mq_hops q)) (d_workers d, c0, d_hops d, []) tasks in
            let ok := wo_txn_ok wo (sat_add64 (d_seq d) 1) in
            let '(seq, txn) := persist_worker_txn ok ws bs (d_seq d) in
            let d := d_set_ids c (d_set_hops hm (d_set_seq seq d)) in
            if negb ok then
              (d_set_workers (foldr delete ws minted.*1) (d_set_batches (delete batch bs) d),
               [txn; EMeshRefused (chars "could not persist hosted batch")], false)
            else
              let cards := omap (fun m : Z * Z => w ← ws !! m.1; Some (emit_state m.1 w (chars "queued (mesh)"))) minted in
              let '(ws, sh, eff) := admit_queued cf e ws (d_shared d) in
              let admitted := zlen (List.filter (fun m : Z * Z =>
                  match ws !! m.1 with Some w => bool_decide (w_state w = WRunning) | None => false end) minted) in
              (d_set_ws (ws, sh) (d_set_batches bs d),
               txn :: cards ++ eff ++ [EMeshFanned batch minted admitted (zlen minted - admitted)], true)
        end
  end.

(** Whether the batch is hosted for this sender. *)
Definition hosted_for (d : Driver) (from : text) (batch : Z) : bool :=
  match d_batches d !! batch with
  | Some b => match b_origin b with Some (n, _) => bool_decide (n = from) | None => false end
  | None => false
  end.

Definition host_query (cf : Config) (wo : World V) (d : Driver) (q : WorkerMeshReq V) : Driver * list (Effect V) * bool :=
  match arg_u64 (mq_body q) (chars "batch") with
  | None => (d, [EMeshRefused (chars "missing batch")], false)
  | Some batch =>
      if negb (hosted_for d (mq_from q) batch) then (d, [EMeshRefused (chars "not your hosted batch")], false)
      else
        let origin_batch := match d_batches d !! batch ≫= b_origin with Some (_, ob) => ob | None => 0 end in
        (d, [EMeshRows (build_rows_body (cf_node_id cf) origin_batch batch (wire_rows_for_batch (wo_read_doc wo) (d_workers d) batch))], false)
  end.

Definition host_cancel (cf : Config) (e : Env) (d : Driver) (q : WorkerMeshReq V) : Driver * list (Effect V) * bool :=
  match arg_u64 (mq_body q) (chars "batch") with
  | None => (d, [EMeshRefused (chars "missing batch")], false)
  | Some batch =>
      if negb (hosted_for d (mq_from q) batch) then (d, [EMeshRefused (chars "not your hosted batch")], false)
      else
        let asked := (fun a : list V => omap json_as_u64 a) <$> arg_array (mq_body q) (chars "workers") in
        let ids := (filter (fun x : Z * Worker => (w_batch x.2 =? batch) && negb (is_terminal (w_state x.2))
                      && match asked with Some a => bool_decide (x.1 ∈ a) | None => true end) (map_to_list (d_workers d))).*1 in
        if bool_decide (ids = []) then (d, [EMeshCancelled []], false)
        else
          let '(ws, sh, eff) := cancel_workers e (d_workers d) (d_shared d) ids in
          let '(ws, sh, eff') := admit_queued cf e ws sh in
          (d_set_ws (ws, sh) d, eff ++ eff' ++ [EMeshCancelled ids], true)
  end.

Definition receive_report `{!WireRowJson V} (cf : Config) (e : Env) (wo : World V) (d : Driver) (q : WorkerMeshReq V)
    : Driver * list (Effect V) * bool :=
  match arg_u64 (mq_body q) (chars "origin_batch") with
  | None => (d, [EMeshRefused (chars "missing origin_batch")], false)
  | Some batch =>
      if negb (existsb (fun r => (rm_batch r =? batch) && bool_decide (rm_node r = mq_from q)) (map_to_list (d_remotes d)).*2)
      then (d, [EMeshRefused (chars "no such remote batch here")], false)
      else
        let rows := parse_rows (mq_body q) in
        let '(rs, eff, changed) := apply_wire_rows cf wo (d_remotes d) batch (mq_from q) rows in
        let polls := alter (fun t => mkPoll (e_now e + REVIEW_PERIOD) 0 (po_fingerprint t) (po_inflight t)) (batch, mq_from q) (d_polls d) in
        (d_set_remotes rs (d_set_polls polls d), eff ++ [EMeshApplied (zlen rows)], changed)
  end.

Definition handle_mesh_req `{!WireRowJson V} (cf : Config) (e : Env) (wo : World V) (d : Driver) (q : WorkerMeshReq V)
    : Driver * list (Effect V) * bool :=
  match mq_kind q with
  | Fanout => host_fanout cf e wo d q
  | Query => host_query cf wo d q
  | Peers.Cancel => host_cancel cf e d q
  | Report => receive_report cf e wo d q
  end.

(** ** [worker_cancel] *)

Definition live_worker (w : Worker) : bool := negb (is_terminal (w_state w)).
Definition live_remote (r : RemoteWorker) : bool := negb (rm_terminal r).

(** The ids of the live entries that satisfy a test. *)
Definition select {A} (live : A -> bool) (p : A -> bool) (m : gmap Z A) : list Z :=
  (filter (fun x : Z * A => p x.2 && live x.2) (map_to_list m)).*1.

Definition cancel_targets (d : Driver) (args : V) : option (list Z * list Z) :=
  match arg_u64 args (chars "worker"), arg_u64 args (chars "batch") with
  | Some w, None =>
      Some (match d_workers d !! w with Some wk => if live_worker wk then [w] else [] | None => [] end,
            match d_remotes d !! w with Some r => if live_remote r then [w] else [] | None => [] end)
  | None, Some b => Some (select live_worker (fun w => w_batch w =? b) (d_workers d), select live_remote (fun r => rm_batch r =? b) (d_remotes d))
  | _, _ => None
  end.

Definition cancel_request (e : Env) (wo : World V) (d : Driver) (session call : Z) (args : V) : Driver * list (Effect V) * bool :=
  match cancel_targets d args with
  | None => (d, [EReply session call (Refused OneSelector)], false)
  | Some (ids, remote_ids) =>
      if bool_decide (ids = []) && bool_decide (remote_ids = []) then (d, [EReply session call (Refused NoMatchingWorker)], false)
      else
        let '(ws, sh, eff) := cancel_workers e (d_workers d) (d_shared d) ids in
        let '(rs, eff') := relay_remote_cancels wo (d_remotes d) remote_ids in
        (d_set_remotes rs (d_set_ws (ws, sh) d), eff ++ eff' ++ [EReply session call (CancelledIds ids remote_ids)], true)
  end.

(** ** Boot *)

Definition reload_remote (x : Z * RemoteWorker) : RemoteWorker :=
  if bool_decide (rm_state_raw x.2 = []) then rm_with_state x.2 STATE_ASSIGNING else x.2.

Definition resume_poll (e : Env) (bs : Batches) (polls : gmap (Z * text) PollTarget) (x : Z * RemoteWorker) : gmap (Z * text) PollTarget :=
  let '(id, r) := x in
  if is_noneb (rm_remote_batch r) then polls
  else if negb (rm_terminal r) || match bs !! rm_batch r with Some b => negb (b_reported b) | None => false end then
    match polls !! (rm_batch r, rm_node r) with
    | Some _ => polls
    | None => <[(rm_batch r, rm_node r) := mkPoll (e_now e + e_golden e id REVIEW_PERIOD) 0 0 false]> polls
    end
  else polls.

Definition reload_remotes `{RemotesJson} (e : Env) (file : option text) (d : Driver) : Driver * list (Effect V) :=
  let loaded := load_remotes file in
  if bool_decide (loaded = []) then (d, [])
  else
    let c := foldl (fun c x => mkCounters (Z.max (next_worker_id c) (as_u64 (x.1 + 1)))
                                 (Z.max (next_batch_id c) (as_u64 (rm_batch x.2 + 1))) (next_worker_sid c)) (d_ids d) loaded in
    let rs := foldl (fun m x => <[x.1 := reload_remote x]> m) (d_remotes d) loaded in
    (d_set_remotes rs (d_set_ids c (d_set_polls (foldl (resume_poll e (d_batches d)) (d_polls d) (map_to_list rs)) d)),
     (fun x => emit_remote_state x.1 x.2 []) <$> by_id rs).
End mesh.

(** ** Concrete inputs *)

Definition toy_config : Config :=
  mkConfig 2 12 STEP_TIMEOUT IDLE_TTL (chars "agents") (mkPath [RootDir] false) (chars "here") true.

Definition toy_env (epoch : Z) : Env := mkEnv (epoch * 1000) epoch (fun _ _ => 0) (fun _ => None).

(** Writes go through as [ok] says; the one peer is [far]. *)
Definition toy_world (ok : bool) : World Toy :=
  mkWorld Toy (fun _ => ok) (fun _ => None) (fun _ => None) (fun n => bool_decide (n = chars "far")) (fun _ => false) [] (fun _ => 0).

Definition toy_driver : Driver :=
  mkDriver ∅ ∅ ∅ ∅ ∅ ∅ ∅ (mkCounters 1 1 WORKER_SESSION_BASE) 1 0 (mkShared (Some ∅) (Some ∅)) (Some ∅) ∅ ∅ ∅.

(** Two tasks, the second for the peer. *)
Definition toy_fan (remote : bool) : Toy :=
  ToyObj [(chars "tasks", ToyObj [([], ToyObj [(chars "prompt", ToyStr (chars "one"))]);
    ([], ToyObj ((chars "prompt", ToyStr (chars "two")) :: if remote then [(chars "node", ToyStr (chars "far"))] else []))])].
