(* ===== verification/WorkerHush.v ===== *)
(** * What the worker driver announces

    A batch is announced once when it is accepted and once when it is reported.
    The operations between announce nothing: their effects are taken apart here,
    and shared by the invariants of runs. *)
From S2P Require Import Prelude Text Confine Policy Protocol Goal Identity Auth Peers Mandala Review Remote Worker WorkerLife WorkerTree WorkerFan WorkerMesh.

(** ** Effects that report no batch and accept none *)

Section hush.
Context {V : Type}.

Definition acks (f : Effect V) : bool :=
  match f with EReply _ _ (Fanned _ _ _ _ _ _ _ _) | EMeshFanned _ _ _ _ => true | _ => false end.
Definition speaks (f : Effect V) : bool := acks f || match f with EBatchDone _ _ _ => true | _ => false end.
Definition hush (eff : list (Effect V)) : Prop := Forall (fun f => speaks f = false) eff.

Lemma hush_nil : hush [].
Proof. constructor. Qed.
Lemma hush_cons f eff : speaks f = false -> hush eff -> hush (f :: eff).
Proof. by constructor. Qed.
Lemma hush_app a b : hush a -> hush b -> hush (a ++ b).
Proof. apply Forall_app_2. Qed.
Lemma hush_if (b : bool) x y : hush x -> hush y -> hush (if b then x else y).
Proof. by destruct b. Qed.
Lemma hush_opt {A} (o : option A) (f : A -> list (Effect V)) :
  (forall x, hush (f x)) -> hush (match o with Some x => f x | None => [] end).
Proof. intros H. destruct o; [apply H|apply hush_nil]. Qed.
Lemma hush_fmap {A} (f : A -> Effect V) l : (forall x, speaks (f x) = false) -> hush (f <$> l).
Proof. intros Hf. apply Forall_fmap, Forall_forall. intros x _. apply Hf. Qed.
Lemma hush_omap {A} (f : A -> option (Effect V)) l : (forall x y, f x = Some y -> speaks y = false) -> hush (omap f l).
Proof.
  intros Hf. induction l as [|x l IH]; [constructor|]. cbn. destruct (f x) as [y|] eqn:E; [|done].
  constructor; [by eapply Hf|done].
Qed.
Lemma hush_filter (p : Effect V -> bool) eff : hush eff -> hush (List.filter p eff).
Proof. intros H. induction H as [|f eff Hf H IH]; [constructor|]. cbn. destruct (p f); [by constructor|done]. Qed.

Lemma reports_hush id eff : hush eff -> reports id eff = 0.
Proof.
  intros H. induction H as [|f eff Hf H IH]; [done|]. unfold reports in *. cbn [List.filter].
  destruct f; try done.
Qed.

Definition no_acks (eff : list (Effect V)) : Prop := Forall (fun f => acks f = false) eff.

Lemma no_acks_app a b : no_acks a -> no_acks b -> no_acks (a ++ b).
Proof. apply Forall_app_2. Qed.

Lemma no_acks_hush eff : hush eff -> no_acks eff.
Proof. intros H. eapply Forall_impl; [exact H|]. by intros f [Hf _]%orb_false_iff. Qed.

(** A fold hushes when each item does. *)
Lemma hush_fold {S X : Type} (out : S -> list (Effect V)) (f : S -> X -> S) (l : list X) (s : S) :
  (forall s x, hush (out s) -> hush (out (f s x))) -> hush (out s) -> hush (out (foldl f s l)).
Proof. intros Hf. revert s. induction l as [|x l IH]; intros s Hs; [done|]. cbn [foldl]. apply IH. by apply Hf. Qed.
End hush.

Create HintDb hush.

(** Take a list of effects apart. *)
Ltac hush :=
  cbn [fst snd];
  repeat first [assumption | apply hush_nil | apply hush_app | solve [eauto 2 with hush] | apply hush_cons; [reflexivity|]
               | apply hush_if | apply hush_opt | apply hush_filter].

Section silent.
Context {V : Type} (cf : Config) (e : Env).

Lemma finalize_hush id w : hush (@finalize_terminal V id w).
Proof. unfold finalize_terminal. destruct (w_episode w); hush. Qed.
#[local] Hint Resolve finalize_hush : hush.

Lemma update_cell_hush trees mid a f : hush (@update_cell V trees mid a f).2.
Proof. unfold update_cell. repeat case_match; hush. Qed.

Lemma admit_hush ws sh : hush (@admit_queued V cf e ws sh).2.
Proof.
  unfold admit_queued. assert (forall fuel ws sh eff, hush eff -> hush (@admit_loop V fuel cf e ws sh eff).2) as H; [|apply H; hush].
  clear ws sh. induction fuel as [|fuel IH]; intros ws sh eff He; cbn [admit_loop]; [done|].
  destruct (_ <=? _); [done|]. destruct (next_queued ws); [|done]. destruct (ws !! z); [|done].
  apply IH. hush.
Qed.

Lemma record_report_hush `{!FsOps} `{!JsonArgs V} `{!JsonNums V} ws session call args :
  hush (record_report cf ws session call args).2.
Proof. unfold record_report, record_verdict. repeat case_match; hush. Qed.

Lemma update_cell_hush_eq trees mid a f r : @update_cell V trees mid a f = r -> hush r.2.
Proof. intros <-. apply update_cell_hush. Qed.

Lemma lap_tree_hush trees cx parent oc : hush (@lap_tree V trees cx parent oc).2.
Proof.
  unfold lap_tree. destruct cx as [cx|]; [|apply hush_nil].
  repeat case_match; simplify_eq; cbn [snd];
    repeat match goal with H : update_cell _ _ _ _ = _ |- _ => apply update_cell_hush_eq in H; cbn [snd] in H end; hush.
Qed.

Lemma advance_hush ws sh trees index session : hush (@advance V cf e ws sh trees index session).1.2.
Proof.
  unfold advance. destruct (find_worker _ ws) as [[id w]|]; [|apply hush_nil].
  pose proof (lap_tree_hush trees (cell_ctx trees index id) (w_parent w)
                (apply_verdict (e_now e) (cf_max_steps cf) (cell_ctx trees index id) id w)) as H.
  destruct (lap_tree _ _ _ _) as [t eff]. cbn [fst snd] in *.
  hush. intros d. hush.
Qed.

Lemma wake_hush ws sh session : hush (@wake_on_send V e ws sh session).1.2.
Proof. unfold wake_on_send. case_match; [case_match|]; hush. Qed.
Lemma block_hush ws session tool : hush (@block_on_approval V ws session tool).1.2.
Proof. unfold block_on_approval. case_match; [case_match|]; hush. Qed.
Lemma resume_hush ws session : hush (@resume_from_approval V e ws session).1.2.
Proof. unfold resume_from_approval. case_match; [case_match|]; hush. Qed.

Lemma cancel_workers_hush ws sh ids : hush (@cancel_workers V e ws sh ids).2.
Proof.
  unfold cancel_workers. apply (hush_fold snd); [|apply hush_nil]. intros [[ws' sh'] eff] id H. unfold cancel_one.
  cbn [snd] in *. case_match; [case_match|]; hush.
Qed.

Lemma remediate_hush ws sh id w r : hush (@remediate V e ws sh id w r).2.
Proof. destruct r; cbn [remediate]; try case_match; hush; apply cancel_workers_hush. Qed.

Lemma pb1_hush log parent : hush (@pb1_track V e log parent).2.
Proof. unfold pb1_track. case_match; [hush|]. case_match; hush. Qed.
End silent.

Section silent_tree.
Context {V : Type} (cf : Config) (e : Env).

#[local] Hint Resolve update_cell_hush : hush.

Lemma update_cell_hush_r {trees mid a f t eff} : @update_cell V trees mid a f = (t, eff) -> hush eff.
Proof. intros H%update_cell_hush_eq. exact H. Qed.
#[local] Hint Resolve update_cell_hush_r : hush.

(** Splits a definition by its matches and hushes each branch. *)
Ltac hush_cases := repeat (case_match; simplify_eq); hush.

Lemma bind_cells_hush epoch trees index ctx wids : hush (@bind_cells V epoch trees index ctx wids).2.
Proof.
  unfold bind_cells.
  pose proof (hush_fold snd (bind_one epoch ctx) (zip (cc_plans ctx) wids) (trees, index, @nil (Effect V))) as H.
  destruct (foldl _ _ _) as [[t ix] eff]. cbn [snd] in H.
  assert (hush eff) as Hh by (apply H; [intros [[? ?] ?] x Hx; cbn; hush|hush]). hush_cases.
Qed.

Lemma sync_cells_hush trees index ws : hush (@sync_cells V cf trees index ws).2.
Proof. apply (hush_fold snd); [|hush]. intros [t eff] [wid [mid a]] H. unfold sync_one. cbn [snd] in H. hush_cases. Qed.

Lemma sync_remote_cells_hush trees index rs : hush (@sync_remote_cells V trees index rs).2.
Proof. apply (hush_fold snd); [|hush]. intros [t eff] [wid [mid a]] H. unfold sync_remote_one. cbn [snd] in H. hush_cases. Qed.

Lemma check_barriers_hush ws trees index mandalas : hush (ts_eff (@check_barriers V e ws trees index mandalas)).
Proof.
  apply (hush_fold ts_eff); [|hush]. intros s wid H. unfold check_one.
  destruct (index !! wid) as [[mid a]|]; [|done]. destruct (ts_workers s !! wid); [|done].
  destruct (ts_trees s !! mid ≫= _) as [[tree c]|]; [|done]. destruct (negb _); [done|].
  destruct (update_cell _ _ _ _) eqn:E. cbn [ts_eff]. hush.
Qed.

Lemma record_override_hush trees index wid : hush (@record_override V trees index wid).2.
Proof. unfold record_override. hush_cases. Qed.

Lemma close_mandala_hush mandalas trees mid : hush (@close_mandala V mandalas trees mid).2.
Proof. unfold close_mandala. hush_cases. Qed.

Lemma try_close_hush mandalas trees k : hush (@try_close_for_conductor V mandalas trees k).1.2.
Proof.
  unfold try_close_for_conductor. cbn [fst]. apply (hush_fold snd); [|hush]. intros [[ms ts] eff] mid H. cbn [snd] in H.
  pose proof (close_mandala_hush ms ts mid) as Hc. destruct (close_mandala _ _ _) as [[? ?] ?]. hush.
Qed.

Lemma close_request_hush `{!JsonArgs V} `{!JsonNums V} mandalas trees session call args :
  hush (close_mandala_request mandalas trees session call args).1.2.
Proof.
  unfold close_mandala_request. destruct (is_worker_session _); [hush|].
  destruct (arg_u64 _ _) as [mid|]; [|hush]. destruct (mandalas !! mid); [|hush]. destruct (bool_decide _); [hush|].
  destruct (negb _); [hush|]. pose proof (close_mandala_hush mandalas trees mid) as Hc.
  destruct (close_mandala _ _ _) as [[? ?] ?]. hush.
Qed.

Lemma create_mandala_hush `{!JsonArgs V} `{!JsonNums V} `{!FsOps} `{!Sha256} mandalas trees next session call args :
  hush (@create_mandala V _ _ _ _ cf e mandalas trees next session call args).2.
Proof. unfold create_mandala. hush_cases. Qed.

Lemma roll_hush `{!Sha256} rf mandalas trees rs cs nx : hush (es_eff (@roll_due_epochs V _ e rf mandalas trees rs cs nx)).
Proof.
  apply (hush_fold es_eff); [|hush]. intros s mid Hs. unfold roll_one. hush_cases.
Qed.
End silent_tree.
