(* ===== verification/WorkerMint.v ===== *)
(** * Minting workers

    What a fan adds to the driver: fresh ids below the counters, workers that
    wait, mirror rows that are being assigned; and the durability of what a fan
    acknowledges. *)
From S2P Require Import Prelude Text Confine Policy Protocol Identity Auth Peers Mandala Review Remote Worker WorkerLife WorkerTree WorkerFan WorkerMesh WorkerHush.

(** ** Ids below the counters *)

(** [n] more ids of each kind can be issued. *)
Definition room (n : Z) (c : Counters) : Prop :=
  0 <= next_worker_id c /\ next_worker_id c + n < 2 ^ 64 /\ 0 <= next_batch_id c /\ next_batch_id c + n < 2 ^ 64 /\
  WORKER_SESSION_BASE <= next_worker_sid c /\ next_worker_sid c + n <= SPAWN_SESSION_BASE.

(** Everything issued lies below the counters, and the worker invariants hold. *)
Record pool_ok (ws : Workers) (rs : Remotes) (sh : Shared) (c : Counters) : Prop := mkPool {
  pl_sessions : sessions_ok ws;
  pl_shared : shared_ok ws sh;
  pl_workers : forall id w, ws !! id = Some w ->
    id < next_worker_id c /\ w_session w < next_worker_sid c /\ w_batch w < next_batch_id c;
  pl_remotes : forall id r, rs !! id = Some r -> id < next_worker_id c /\ rm_batch r < next_batch_id c
}.

Lemma room_le n m c : m <= n -> room n c -> room m c.
Proof. unfold room. lia. Qed.

Lemma as_u64_small n : 0 <= n < 2 ^ 64 -> as_u64 n = n.
Proof. intros H. unfold as_u64. by apply Z.mod_small. Qed.

(** A worker that is not resident leaves the shared maps alone. *)
Lemma shared_insert_fresh ws sh id w :
  ws !! id = None -> active w = false -> shared_ok ws sh -> shared_ok (<[id := w]> ws) sh.
Proof.
  intros Hid Ha [Hy Hm]. split.
  - intros ys s Hys Hin Hr. destruct (Hy ys s Hys Hin Hr) as (i & v & Hi & Hv). exists i, v.
    rewrite lookup_insert_ne; [done|]. intros ->. congruence.
  - intros mm s m Hmm Hr. rewrite (Hm mm s m Hmm Hr). split; intros (i & v & Hi & Hv).
    + exists i, v. rewrite lookup_insert_ne; [done|]. intros ->. congruence.
    + apply lookup_insert_Some in Hi as [[<- <-]|[_ Hi]]; [|by exists i, v]. destruct Hv as (_ & _ & ?). congruence.
Qed.

Section mint.
Context (e : Env) (sh : Shared).

(** The counters after a local worker and after a mirror row. *)
Definition next_local (c : Counters) : Counters :=
  mkCounters (as_u64 (next_worker_id c + 1)) (next_batch_id c) (as_u64 (next_worker_sid c + 1)).
Definition next_row (c : Counters) : Counters := mkCounters (as_u64 (next_worker_id c + 1)) (next_batch_id c) (next_worker_sid c).

Lemma sid_bound n c : room n c -> 0 <= n -> 0 <= next_worker_sid c + n < 2 ^ 64.
Proof. unfold room, WORKER_SESSION_BASE, SPAWN_SESSION_BASE. lia. Qed.

Lemma room_next_local n c : 1 <= n -> room n c -> room (n - 1) (next_local c).
Proof.
  intros Hn Hr. pose proof (sid_bound n c Hr ltac:(lia)). unfold room in *. cbn [next_local next_worker_id next_batch_id next_worker_sid].
  unfold WORKER_SESSION_BASE in *. rewrite !as_u64_small by lia. lia.
Qed.

Lemma room_next_row n c : 1 <= n -> room n c -> room (n - 1) (next_row c).
Proof.
  intros Hn Hr. unfold room in *. cbn [next_row next_worker_id next_batch_id next_worker_sid].
  rewrite !as_u64_small by lia. lia.
Qed.

(** A local worker minted with the next ids. *)
Lemma mint_local_ok ws rs c w :
  pool_ok ws rs sh c -> room 1 c -> w_session w = next_worker_sid c -> w_batch w < next_batch_id c -> active w = false ->
  ws !! next_worker_id c = None /\ pool_ok (<[next_worker_id c := w]> ws) rs sh (next_local c).
Proof.
  intros [[Hr Hd] Hsh Hw Hrs] Hroom Hs Hb Ha. pose proof (sid_bound 1 c Hroom ltac:(lia)).
  assert (as_u64 (next_worker_id c + 1) = next_worker_id c + 1 /\ as_u64 (next_worker_sid c + 1) = next_worker_sid c + 1) as [E1 E2].
  { unfold room in Hroom. by rewrite !as_u64_small by lia. }
  assert (ws !! next_worker_id c = None) as Hf.
  { destruct (ws !! next_worker_id c) as [v|] eqn:E; [|done]. destruct (Hw _ _ E). lia. }
  split; [done|]. split.
  - split.
    + intros i v [[<- <-]|[_ Hv]]%lookup_insert_Some; [|by eapply Hr].
      rewrite Hs. unfold is_worker_session, room in *. lia.
    + intros i j v u [[<- <-]|[Hi Hv]]%lookup_insert_Some [[<- <-]|[Hj Hu]]%lookup_insert_Some; [done| | |by eapply Hd].
      * intros E. destruct (Hw _ _ Hu) as (_ & ? & _). lia.
      * intros E. destruct (Hw _ _ Hv) as (_ & ? & _). lia.
  - by apply shared_insert_fresh.
  - cbn [next_local next_worker_id next_batch_id next_worker_sid]. rewrite E1, E2.
    intros i v [[<- <-]|[_ Hv]]%lookup_insert_Some; [lia|]. destruct (Hw _ _ Hv) as (? & ? & ?). lia.
  - cbn [next_local next_worker_id next_batch_id next_worker_sid]. rewrite E1.
    intros i r Hi. destruct (Hrs _ _ Hi). lia.
Qed.

Lemma mint_row_ok ws rs c r :
  pool_ok ws rs sh c -> room 1 c -> rm_batch r < next_batch_id c ->
  rs !! next_worker_id c = None /\ pool_ok ws (<[next_worker_id c := r]> rs) sh (next_row c).
Proof.
  intros [Hss Hsh Hw Hrs] Hroom Hb.
  assert (as_u64 (next_worker_id c + 1) = next_worker_id c + 1) as E1.
  { unfold room in Hroom. by rewrite !as_u64_small by lia. }
  split.
  { destruct (rs !! next_worker_id c) as [v|] eqn:E; [|done]. destruct (Hrs _ _ E). lia. }
  split; [done|done|..]; cbn [next_row next_worker_id next_batch_id next_worker_sid]; rewrite E1.
  - intros i v Hv. destruct (Hw _ _ Hv) as (? & ? & ?). lia.
  - intros i v [[<- <-]|[_ Hv]]%lookup_insert_Some; [lia|]. destruct (Hrs _ _ Hv). lia.
Qed.
End mint.

(** ** What a fan has minted *)

(** A worker waiting for its first slot, and a row waiting for its peer. *)
Definition waits (batch parent : Z) (w : Worker) : Prop :=
  w_batch w = batch /\ w_parent w = parent /\ w_state w = WQueued.
Definition awaits (batch parent : Z) (r : RemoteWorker) : Prop :=
  rm_batch r = batch /\ rm_parent r = parent /\ rm_state_raw r = STATE_ASSIGNING.

Record minted_from (batch parent : Z) (ws0 : Workers) (rs0 : Remotes) (s : Minting) : Prop := mkMinted {
  mf_workers id : id ∉ (mt_minted s).*1 -> mt_workers s !! id = ws0 !! id;
  mf_fresh id : id ∈ (mt_minted s).*1 -> ws0 !! id = None;
  mf_each m : m ∈ mt_minted s -> exists w, mt_workers s !! m.1 = Some w /\ w_session w = m.2 /\ waits batch parent w;
  mf_rows id : id ∉ group_ids (mt_groups s) -> mt_remotes s !! id = rs0 !! id;
  mf_rows_fresh id : id ∈ group_ids (mt_groups s) -> rs0 !! id = None;
  mf_each_row id : id ∈ group_ids (mt_groups s) -> exists r, mt_remotes s !! id = Some r /\ awaits batch parent r
}.

Lemma group_push_ids node wid item gs id :
  id ∈ group_ids (group_push node wid item gs) <-> id ∈ group_ids gs \/ id = wid.
Proof.
  unfold group_push, group_ids. destruct (existsb _ gs) eqn:Ex.
  - induction gs as [|[[n ws] its] gs IH]; [done|]. cbn [map_first existsb fst snd] in *. case_bool_decide as Hn.
    + cbn [fmap list_fmap concat fst snd]. rewrite !elem_of_app, list_elem_of_singleton. tauto.
    + cbn [orb] in Ex. specialize (IH Ex). cbn [fmap list_fmap concat fst snd] in *. rewrite !elem_of_app, IH. tauto.
  - rewrite fmap_app, concat_app, elem_of_app. cbn. by rewrite list_elem_of_singleton.
Qed.

Section fan.
Context (e : Env) (sh : Shared) (batch parent : Z) (ws0 : Workers) (rs0 : Remotes).

(** A fan in progress, with [n] mints ahead. *)
Record minting (n : Z) (s : Minting) : Prop := mkFanning {
  mg_pool : pool_ok (mt_workers s) (mt_remotes s) sh (mt_ids s);
  mg_room : room n (mt_ids s);
  mg_batch : batch < next_batch_id (mt_ids s);
  mg_from : minted_from batch parent ws0 rs0 s
}.

Lemma minting_le n m s : m <= n -> minting n s -> minting m s.
Proof. intros H [? ? ? ?]. split; [done|by eapply room_le|done..]. Qed.

Lemma minting_local n s w cells :
  1 <= n -> minting n s -> w_session w = next_worker_sid (mt_ids s) -> waits batch parent w ->
  minting (n - 1) (mkMinting (<[next_worker_id (mt_ids s) := w]> (mt_workers s)) (mt_remotes s) (mt_groups s)
    (next_local (mt_ids s)) (mt_minted s ++ [(next_worker_id (mt_ids s), next_worker_sid (mt_ids s))]) cells).
Proof.
  intros Hn [Hp Hr Hb [H1 H2 H3 H4 H5 H6]] Hs (Wb & Wp & Wq).
  destruct (mint_local_ok sh _ _ _ w Hp (room_le _ 1 _ Hn Hr) Hs) as [Hfr Hp']; [lia|unfold active; by rewrite Wq|].
  set (wid := next_worker_id (mt_ids s)) in *.
  assert (wid ∉ (mt_minted s).*1) as Hni.
  { intros (m & -> & Hm)%list_elem_of_fmap. destruct (H3 m Hm) as (v & Hv & _). congruence. }
  split; [done|by apply room_next_local|done|]. cbn [mt_workers mt_remotes mt_groups mt_ids mt_minted]. split; cbn [mt_workers mt_remotes mt_groups mt_minted].
  - intros id. rewrite fmap_app. cbn. intros Hid. rewrite lookup_insert_ne by set_solver. apply H1. set_solver.
  - intros id. rewrite fmap_app, elem_of_app. cbn. intros [Hid|Hid%list_elem_of_singleton]; [by apply H2|subst id]. by rewrite <- H1.
  - intros m [Hm|Hm%list_elem_of_singleton]%elem_of_app; [|subst m]; cbn [fst snd].
    + destruct (H3 m Hm) as (v & Hv & ?). exists v. rewrite lookup_insert_ne; [done|]. intros E. congruence.
    + exists w. by rewrite lookup_insert_eq.
  - done.
  - done.
  - done.
Qed.

Lemma minting_row n s r node item cells :
  1 <= n -> minting n s -> awaits batch parent r ->
  minting (n - 1) (mkMinting (mt_workers s) (<[next_worker_id (mt_ids s) := r]> (mt_remotes s))
    (group_push node (next_worker_id (mt_ids s)) item (mt_groups s)) (next_row (mt_ids s)) (mt_minted s) cells).
Proof.
  intros Hn [Hp Hr Hb [H1 H2 H3 H4 H5 H6]] (Wb & Wp & Wq).
  destruct (mint_row_ok sh _ _ _ r Hp (room_le _ 1 _ Hn Hr)) as [Hfr Hp']; [lia|].
  set (wid := next_worker_id (mt_ids s)) in *.
  assert (wid ∉ group_ids (mt_groups s)) as Hni.
  { intros Hm. destruct (H6 _ Hm) as (v & Hv & _). congruence. }
  split; [done|by apply room_next_row|done|]. split; cbn [mt_workers mt_remotes mt_groups mt_minted]; try done.
  - intros id. rewrite group_push_ids. intros Hid. rewrite lookup_insert_ne by naive_solver. apply H4. naive_solver.
  - intros id. rewrite group_push_ids. intros [Hid| ->]; [by apply H5|]. by rewrite <- H4.
  - intros id. rewrite group_push_ids. intros [Hid| ->].
    + destruct (H6 id Hid) as (v & Hv & ?). exists v. rewrite lookup_insert_ne; [done|]. intros E. congruence.
    + exists r. by rewrite lookup_insert_eq.
Qed.

Lemma minting_fold {X : Type} (f : Minting -> X -> Minting) l n s :
  (forall n s x, 1 <= n -> minting n s -> minting (n - 1) (f s x)) -> zlen l <= n -> minting n s ->
  minting (n - zlen l) (foldl f s l).
Proof.
  intros Hf. revert n s. induction l as [|x l IH]; intros n s Hl Hs; cbn [foldl].
  - rewrite zlen_nil. by replace (n - 0) with n by lia.
  - rewrite zlen_cons in *. pose proof (zlen_nonneg l). replace (n - (1 + zlen l)) with (n - 1 - zlen l) by lia.
    apply IH; [lia|]. apply Hf; [lia|done].
Qed.

Lemma minting_plan yolo n s p : 1 <= n -> minting n s -> minting (n - 1) (mint_plan e batch parent yolo s p).
Proof.
  intros Hn Hs. unfold mint_plan. destruct (cp_node p) as [node|].
  - by apply minting_row.
  - by apply minting_local.
Qed.

Lemma minting_task yolo n s t : 1 <= n -> minting n s -> minting (n - 1) (mint_task e batch parent yolo s t).
Proof. intros Hn Hs. by apply minting_local. Qed.

Lemma minting_remote_task n s t : 1 <= n -> minting n s -> minting (n - 1) (mint_remote_task e batch parent s t).
Proof. intros Hn Hs. by apply minting_row. Qed.

Lemma zlen_filter_split {A} (p q : A -> bool) l :
  (forall x, q x = negb (p x)) -> zlen (List.filter p l) + zlen (List.filter q l) = zlen l.
Proof.
  intros Hq. induction l as [|x l IH]; [done|]. cbn [List.filter]. rewrite Hq.
  destruct (p x); cbn [negb]; rewrite !zlen_cons; lia.
Qed.

(** The whole fan. *)
Lemma minting_all yolo ctx tasks n s :
  match ctx with Some c => zlen (cc_plans c) | None => zlen tasks end <= n -> minting n s ->
  minting 0 (mint_all e batch parent yolo ctx tasks s).
Proof.
  intros Hl Hs. unfold mint_all. destruct ctx as [c|].
  - eapply minting_le; [|apply (minting_fold _ _ n); [apply minting_plan|exact Hl|exact Hs]]. lia.
  - pose proof (zlen_filter_split (fun t => is_noneb (ti_node t)) (fun t => is_someb (ti_node t)) tasks) as Hsp.
    specialize (Hsp ltac:(intros x; cbn beta; by destruct (ti_node x))).
    pose proof (zlen_nonneg (List.filter (fun t => is_someb (ti_node t)) tasks)).
    eapply minting_le; [|apply (minting_fold _ _ (n - zlen (List.filter (fun t => is_noneb (ti_node t)) tasks)));
      [apply minting_remote_task|lia|apply minting_fold; [apply minting_task|lia|exact Hs]]]. lia.
Qed.
End fan.

(** ** The fan *)

Lemma lookup_foldr_delete {A} (m : gmap Z A) (l : list Z) i : foldr delete m l !! i = if decide (i ∈ l) then None else m !! i.
Proof.
  induction l as [|x l IH]; [done|]. cbn [foldr]. destruct (decide (i = x)) as [->|Hne].
  - rewrite lookup_delete_eq, decide_True by left. done.
  - rewrite lookup_delete_ne, IH by done. destruct (decide (i ∈ l)); [rewrite decide_True by (by right)|rewrite decide_False]; try done.
    rewrite elem_of_cons. tauto.
Qed.

(** Taking a fan back gives the maps it started from. *)
Lemma minted_undone batch parent ws rs s :
  minted_from batch parent ws rs s ->
  foldr delete (mt_workers s) (mt_minted s).*1 = ws /\ foldr delete (mt_remotes s) (group_ids (mt_groups s)) = rs.
Proof.
  intros [H1 H2 _ H4 H5 _]. split; apply map_eq; intros i; rewrite lookup_foldr_delete; case_decide; auto.
  - by rewrite H2.
  - by rewrite H5.
Qed.

(** The transaction holds a worker and its open batch. *)
Definition on_ledger (t : WorkerTxn) (batch : Z) (m : Z * Z) : Prop :=
  exists pw pb, pw ∈ tx_workers t /\ pw_id pw = m.1 /\ pw_session pw = m.2 /\ pw_batch pw = batch /\
    pb ∈ tx_batches t /\ pb_batch pb = batch /\ pb_parent pb = pw_parent pw /\ pb_reported pb = false.

Lemma txn_holds v seq batch parent (ws : Workers) (bs : Batches) (m : Z * Z) w b :
  ws !! m.1 = Some w -> w_session w = m.2 -> waits batch parent w ->
  bs !! batch = Some b -> b_parent b = parent -> b_reported b = false ->
  on_ledger (mkTxn v seq (snapshot_workers ws) (snapshot_batches bs)) batch m.
Proof.
  intros Hw Hs (Wb & Wp & _) Hb Bp Br. eexists _, _. split_and!.
  - apply (list_elem_of_fmap_2 _ _ (m.1, w)). by apply elem_by_id.
  - done.
  - done.
  - done.
  - apply (list_elem_of_fmap_2 _ _ (batch, b)). by apply elem_by_id.
  - done.
  - by cbn; congruence.
  - done.
Qed.

(** ** Acknowledgements *)

Definition acked {V} (f : Effect V) : option (Z * list (Z * Z)) :=
  match f with
  | EReply _ _ (Fanned b minted _ _ _ _ _ _) => Some (b, minted)
  | EMeshFanned b minted _ _ => Some (b, minted)
  | _ => None
  end.

(** Every worker acknowledged was written before, with its batch. *)
Definition durable {V} (eff : list (Effect V)) : Prop :=
  forall pre f post b ms, eff = pre ++ f :: post -> acked f = Some (b, ms) ->
    exists t, ETxn true t ∈ pre /\ Forall (on_ledger t b) ms.

Lemma durable_no_acks {V} (eff : list (Effect V)) : no_acks eff -> durable eff.
Proof.
  intros Hn pre f post b ms -> Hf. apply Forall_app in Hn as [_ Hn]. apply Forall_cons in Hn as [Hn _].
  destruct f; try done. match goal with r : Reply |- _ => by destruct r end.
Qed.

Lemma durable_app {V} (a b : list (Effect V)) : durable a -> durable b -> durable (a ++ b).
Proof.
  intros Ha Hb pre f post bt ms E Hf. apply app_eq_inv in E as [(k & E1 & E2)|(k & E1 & E2)].
  - destruct k as [|f' k].
    + cbn in E2. destruct (Hb [] f post bt ms) as (t & Ht & _); [done|done|]. by apply elem_of_nil in Ht.
    + cbn in E2. injection E2 as <- E2. destruct (Ha pre f k bt ms) as (t & Ht & Hl); [done|done|]. by exists t.
  - destruct (Hb k f post bt ms) as (t & Ht & Hl); [done|done|]. exists t. split; [|done]. subst pre. set_solver.
Qed.

(** A written transaction covers the acknowledgements after it. *)
Lemma durable_txn {V} (t : WorkerTxn) (eff : list (Effect V)) :
  (forall f b ms, f ∈ eff -> acked f = Some (b, ms) -> Forall (on_ledger t b) ms) -> durable (ETxn true t :: eff).
Proof.
  intros H pre f post b ms E Hf. destruct pre as [|f' pre]; injection E as <- E; [done|].
  exists t. split; [left|]. apply (H f); [|done]. rewrite E. set_solver.
Qed.

Section fanout.
Context {V : Type} `{!JsonArgs V} `{!JsonNums V}.
Context (cf : Config) (e : Env) (wo : World V).

(** The batches lie below the counter too. *)
Definition ledger_below (bs : Batches) (c : Counters) : Prop := forall id b, bs !! id = Some b -> id < next_batch_id c.

Lemma fanout_request_ok d session args inline tasks ctx :
  fanout_request cf wo d session args = Ok (inline, tasks, ctx) ->
  parse_tasks args = Ok tasks /\
  exists caller, prepare_mandala_cells (d_mandalas d) (d_trees d) session args tasks inline caller = Ok ctx.
Proof.
  unfold fanout_request. destruct (parse_mode args) as [inl|]; [|done]. cbn [rbind].
  destruct (parse_tasks args) as [ts|] eqn:Ep; [|done]. cbn [rbind]. destruct (_ && _); [done|].
  destruct (caller_cell _ _ _ _) as [caller|]; [|done]. cbn [rbind]. destruct (remote_gate _ _ _ _); [|done]. cbn [rbind].
  destruct (prepare_mandala_cells _ _ _ _ _ _ _) as [c|] eqn:Ec; [|done]. cbn [rbind]. intros [= <- <- <-].
  split; [done|]. by exists caller.
Qed.

(** What a fan is before its rows are written. *)
Definition fan_minting (d : Driver) (session : Z) (args : V) (tasks : list TaskSpecItem) (ctx : option CellsCtx) : Minting :=
  let batch := next_batch_id (d_ids d) in
  mint_all e batch session (bool_decide (arg_str args (chars "yolo") = Some (chars "inherit")) && session_armed (d_shared d) session)
    ctx tasks (mkMinting (d_workers d) (d_remotes d) []
      (mkCounters (next_worker_id (d_ids d)) (as_u64 (batch + 1)) (next_worker_sid (d_ids d))) [] []).

Definition ids_ok (d : Driver) : Prop :=
  pool_ok (d_workers d) (d_remotes d) (d_shared d) (d_ids d) /\ ledger_below (d_batches d) (d_ids d).

Lemma bump_batch n c : 1 <= n -> room n c ->
  as_u64 (next_batch_id c + 1) = next_batch_id c + 1 /\
  room (n - 1) (mkCounters (next_worker_id c) (as_u64 (next_batch_id c + 1)) (next_worker_sid c)).
Proof.
  intros Hn Hr. unfold room in *. cbn [next_worker_id next_batch_id next_worker_sid]. rewrite as_u64_small by lia. lia.
Qed.

Lemma pool_bump ws rs sh c b : next_batch_id c <= b -> pool_ok ws rs sh c -> pool_ok ws rs sh (mkCounters (next_worker_id c) b (next_worker_sid c)).
Proof.
  intros Hb [H1 H2 H3 H4]. split; [done|done|..]; cbn [next_worker_id next_batch_id next_worker_sid].
  - intros id w Hw. destruct (H3 _ _ Hw) as (?&?&?). lia.
  - intros id w Hw. destruct (H4 _ _ Hw). lia.
Qed.

(** The trees a fan is planned on. *)
Definition trees_known (d : Driver) : Prop :=
  trees_ok (d_mandalas d) (d_trees d) /\ forall k m, d_mandalas d !! k = Some m -> md_id m = k.

Lemma minting_start sh ws rs c b parent n :
  1 <= n -> room n c -> pool_ok ws rs sh c -> b = next_batch_id c ->
  minting sh b parent ws rs (n - 1)
    (mkMinting ws rs [] (mkCounters (next_worker_id c) (as_u64 (b + 1)) (next_worker_sid c)) [] []).
Proof.
  intros Hn Hr Hp ->. destruct (bump_batch n c Hn Hr) as [E Hr']. rewrite E in *. split; cbn [mt_workers mt_remotes mt_ids].
  - apply pool_bump; [lia|done].
  - done.
  - cbn. lia.
  - split; cbn [mt_workers mt_remotes mt_minted mt_groups]; try done; set_solver.
Qed.

Lemma fan_minting_ok d session args inline tasks ctx :
  ids_ok d -> trees_known d -> room 64 (d_ids d) -> fanout_request cf wo d session args = Ok (inline, tasks, ctx) ->
  minting (d_shared d) (next_batch_id (d_ids d)) session (d_workers d) (d_remotes d) 0 (fan_minting d session args tasks ctx).
Proof.
  intros [Hp _] [Hok Hids] Hr (Hts & caller & Hprep)%fanout_request_ok. apply parse_tasks_length in Hts.
  unfold fan_minting. eapply (minting_all e _ _ _ _ _ _ _ _ 63); [|by apply (minting_start _ _ _ _ _ _ 64)].
  unfold MAX_BATCH_TASKS in *. destruct ctx as [c|]; [|lia].
  apply prepare_ok in Hprep as (m & p & _ & _ & _ & _ & _ & _ & _ & Hl); [|done|done|unfold MAX_BATCH_TASKS; lia].
  unfold MAX_BATCH_TASKS in Hl. lia.
Qed.

(** *** The outcome of a fan *)

(** Only the counters and the sequence number moved. *)
Definition same_books (d d' : Driver) : Prop := d' = d_set_ids (d_ids d') (d_set_seq (d_seq d') d).

(** The old workers, evolved. *)
Definition survive (ws ws' : Workers) : Prop :=
  forall id w, ws !! id = Some w -> exists w', ws' !! id = Some w' /\ evolves w w'.

(** What a state after an accepted fan keeps of the one before. *)
Record fanned (d d' : Driver) (eff : list (Effect V)) : Prop := mkFanned {
  fn_ids : ids_ok d';
  fn_workers : survive (d_workers d) (d_workers d');
  fn_batches id b : d_batches d !! id = Some b -> d_batches d' !! id = Some b;
  fn_new id b : d_batches d' !! id = Some b -> d_batches d !! id = Some b \/ (d_batches d !! id = None /\ b_reported b = false);
  fn_trees : d_trees d' = d_trees d /\ d_mandalas d' = d_mandalas d /\ d_next_mandala d' = d_next_mandala d;
  fn_durable : durable eff;
  fn_reports id : reports id eff = 0
}.

Lemma admit_pool ws rs sh c :
  pool_ok ws rs sh c ->
  let r := @admit_queued V cf e ws sh in
  pool_ok r.1.1 rs r.1.2 c /\ ws_evolves ws r.1.1.
Proof.
  intros [H1 H2 H3 H4] r. destruct (admit_queued_good (V := V) cf e ws sh H1 H2) as [He Hs]. fold r in He, Hs.
  split; [|done]. split; [by eapply sessions_ok_evolves|done| |done].
  intros id w Hw. destruct (ws_evolves_Some_inv _ _ _ _ He Hw) as (w0 & Hw0 & E).
  rewrite (ev_session _ _ E), (ev_batch _ _ E). by apply H3.
Qed.

Lemma pool_ledger bs c b : ledger_below bs c -> b = next_batch_id c -> bs !! b = None.
Proof. intros H ->. destruct (bs !! next_batch_id c) as [x|] eqn:E; [|done]. specialize (H _ _ E). lia. Qed.

Lemma survive_mint batch parent ws rs s ws' :
  minted_from batch parent ws rs s -> ws_evolves (mt_workers s) ws' -> survive ws ws'.
Proof.
  intros [H1 H2 _ _ _ _] He id w Hw. apply (ws_evolves_Some _ _ _ _ He). rewrite H1; [done|].
  intros Hin. rewrite (H2 _ Hin) in Hw. done.
Qed.

Lemma ledger_mint batch parent ws rs s b v seq bs :
  minted_from batch parent ws rs s -> b_parent b = parent -> b_reported b = false ->
  Forall (on_ledger (mkTxn v seq (snapshot_workers (mt_workers s)) (snapshot_batches (<[batch := b]> bs))) batch) (mt_minted s).
Proof.
  intros Hm Hp Hr. apply Forall_forall. intros m Hin. destruct (mf_each _ _ _ _ _ Hm m Hin) as (w & Hw & Hs & Hwt).
  eapply txn_holds; [done|done|done|apply lookup_insert_eq|done|done].
Qed.

Lemma fan_cards_hush s : hush (@fan_cards V s).
Proof.
  unfold fan_cards. apply hush_app; apply hush_omap.
  - intros m y. cbn. destruct (mt_workers s !! m.1); cbn; [|done]. by intros [= <-].
  - intros m y. cbn. destruct (mt_remotes s !! m); cbn; [|done]. by intros [= <-].
Qed.

Lemma assign_hush d session batch dl gs : hush (assign_one cf wo d session batch dl <$> gs).
Proof. apply hush_fmap. intros [[node wids] items]. unfold assign_one. by destruct (wo_dark wo node), (wo_peer wo node). Qed.

(** The ids of the state before are below the counters after. *)
Lemma pool_back batch parent ws rs sh n s :
  minting sh batch parent ws rs n s -> pool_ok ws rs sh (mt_ids s) <-> sessions_ok ws /\ shared_ok ws sh.
Proof.
  intros [[_ _ H3 H4] _ _ [M1 M2 _ M4 M5 _]]. split; [by intros []|]. intros [Hs Hsh]. split; [done|done|..].
  - intros id w Hw. apply H3. rewrite M1; [done|]. intros Hin. rewrite (M2 _ Hin) in Hw. done.
  - intros id r Hr. apply H4. rewrite M4; [done|]. intros Hin. rewrite (M5 _ Hin) in Hr. done.
Qed.

Lemma refused_books d c seq ws rs bs :
  ws = d_workers d -> rs = d_remotes d -> bs = d_batches d ->
  same_books d (d_set_workers ws (d_set_remotes rs (d_set_batches bs (d_set_ids c (d_set_seq seq d))))).
Proof. intros -> -> ->. by destruct d. Qed.

Definition only_refuses (session call : Z) (eff : list (Effect V)) : Prop :=
  exists why, eff = [EReply session call (Refused why)] \/ exists t, eff = [ETxn false t; EReply session call (Refused why)].

Lemma mint_cells_length batch parent yolo ctx s :
  length (mt_cells (foldl (mint_plan e batch parent yolo) s ctx)) = (length (mt_cells s) + length ctx)%nat.
Proof.
  revert s. induction ctx as [|p l IH]; intros s; cbn [foldl length]; [lia|]. rewrite IH.
  unfold mint_plan. destruct (cp_node p); cbn; rewrite length_app; cbn; lia.
Qed.

(** Reads a field through updates. *)
Ltac books :=
  cbn [d_workers d_remotes d_shared d_ids d_batches d_trees d_mandalas d_next_mandala d_index d_hops d_polls d_set_ws d_set_shared
       d_set_workers d_set_remotes d_set_batches d_set_ids d_set_seq d_set_hops fst snd].

(** The effects of an accepted fan: the write, cards, the acknowledgement, the
    rest. *)
Lemma fan_effects t batch ms (cards ack rest : list (Effect V)) :
  hush cards -> hush rest -> Forall (on_ledger t batch) ms ->
  (forall f, f ∈ ack -> acked f = Some (batch, ms)) ->
  durable (ETxn true t :: cards ++ ack ++ rest) /\ forall id, reports id (ETxn true t :: cards ++ ack ++ rest) = 0.
Proof.
  intros Hc Hr Hl Ha. assert (forall eff f b m, hush eff -> f ∈ eff -> acked (V := V) f = Some (b, m) -> False) as Hno.
  { intros eff f b m Hh Hf Hm. apply (proj1 (Forall_forall _ _)) with (x := f) in Hh; [|done].
    destruct f; try done. match goal with r : Reply |- _ => by destruct r end. }
  split.
  - apply durable_txn. intros f b m [Hf|[Hf|Hf]%elem_of_app]%elem_of_app Hm.
    + by destruct (Hno cards f b m).
    + rewrite (Ha f Hf) in Hm. injection Hm as <- <-. done.
    + by destruct (Hno rest f b m).
  - intros id. assert (reports id ack = 0) as Hz.
    { clear Hl. induction ack as [|f ack IH]; [done|]. specialize (Ha f ltac:(left)) as Hf. unfold reports in *. cbn [List.filter].
      assert (is_report id f = false) as -> by by destruct f. apply IH. intros g Hg. apply Ha. by right. }
    change (ETxn true t :: ?l) with ([ETxn true t] ++ l).
    rewrite !reports_app, Hz, (reports_hush id cards), (reports_hush id rest) by done. done.
Qed.

Lemma fanout_outcome d session call args :
  ids_ok d -> trees_known d -> room 64 (d_ids d) ->
  let r := fanout cf e wo d session call args in
  match r.2 with
  | None => same_books d r.1.1 /\ ids_ok r.1.1 /\ only_refuses session call r.1.2
  | Some (ctx, wids) =>
      fanned d r.1.1 r.1.2 /\ d_index r.1.1 = d_index d /\
      exists inline tasks, fanout_request cf wo d session args = Ok (inline, tasks, ctx) /\
        match ctx with Some c => length wids = length (cc_plans c) | None => True end
  end.
Proof.
  intros Hids Hk Hroom. unfold fanout. destruct (fanout_request cf wo d session args) as [[[inline tasks] ctx]|why] eqn:Ereq.
  2: { split_and!; [by destruct d|done|]. exists why. by left. }
  pose proof (fan_minting_ok d session args inline tasks ctx Hids Hk Hroom Ereq) as Hm. unfold fan_minting in Hm.
  set (batch := next_batch_id (d_ids d)) in *. set (s := mint_all _ _ _ _ _ _ _) in *.
  destruct (minted_undone _ _ _ _ _ (mg_from _ _ _ _ _ _ _ Hm)) as [Uw Ur]. destruct Hids as [Hp Hl].
  pose proof (pool_ledger _ _ batch Hl eq_refl) as Hfresh. pose proof (mg_batch _ _ _ _ _ _ _ Hm) as Hlt.
  set (b := mkBatch session (e_epoch e) _ false _ None). unfold persist_worker_txn.
  destruct (wo_txn_ok wo _) eqn:Eok; cbn [negb].
  2: { cbn [fst snd]. split_and!.
       - apply refused_books; [exact Uw|exact Ur|by apply delete_insert_id].
       - unfold ids_ok, ledger_below. books. split.
         + rewrite Uw, Ur. apply (pool_back _ _ _ _ _ _ _ Hm). by destruct Hp.
         + rewrite delete_insert_id by done. intros i x Hx. specialize (Hl _ _ Hx). lia.
       - eexists. right. by eexists. }
  destruct (admit_pool (mt_workers s) (mt_remotes s) (d_shared d) (mt_ids s) (mg_pool _ _ _ _ _ _ _ Hm)) as [Hpool He].
  pose proof (admit_hush (V := V) cf e (mt_workers s) (d_shared d)) as Hah.
  cbn [d_workers d_shared d_set_workers d_set_remotes d_set_batches d_set_ids d_set_seq].
  destruct (admit_queued cf e (mt_workers s) (d_shared d)) as [[ws sh] eff]. cbn [fst snd] in *.
  split_and!; [|done|exists inline, tasks; split; [done|]].
  2: { destruct ctx as [c|]; [|done]. unfold s. cbn [mint_all]. by rewrite mint_cells_length. }
  set (ack := if inline then [] else _). match goal with |- fanned _ _ (ETxn true ?t :: ?cards ++ ack ++ ?rest) =>
    destruct (fan_effects t batch (mt_minted s) cards ack rest) as [Hdur Hrep] end.
  { apply fan_cards_hush. }
  { apply hush_app; [exact Hah|apply assign_hush]. }
  { by eapply ledger_mint; [exact (mg_from _ _ _ _ _ _ _ Hm)|..]. }
  { unfold ack. intros f Hf. destruct inline; [by apply elem_of_nil in Hf|]. by apply list_elem_of_singleton in Hf as ->. }
  split; books.
  - split; [exact Hpool|]. unfold ledger_below. books. intros i x [[<- <-]|[_ Hx]]%lookup_insert_Some; [exact Hlt|].
    specialize (Hl _ _ Hx). lia.
  - by eapply survive_mint; [exact (mg_from _ _ _ _ _ _ _ Hm)|].
  - intros i x Hx. rewrite lookup_insert_ne; [done|]. intros <-. congruence.
  - intros i x [[<- <-]|[_ Hx]]%lookup_insert_Some; [by right|by left].
  - done.
  - exact Hdur.
  - exact Hrep.
Qed.

(** *** A hosted fan *)

Lemma mint_hosted_fold sh batch parent ws0 rs0 hops l n ws rs c hm minted :
  zlen l <= n -> minting sh batch parent ws0 rs0 n (mkMinting ws rs [] c minted []) ->
  let r := foldl (mint_hosted e batch parent hops) (ws, c, hm, minted) l in
  minting sh batch parent ws0 rs0 (n - zlen l) (mkMinting r.1.1.1 rs [] r.1.1.2 r.2 []).
Proof.
  revert n ws c hm minted. induction l as [|[[task model] ceiling] l IH]; intros n ws c hm minted Hl Hm; cbn [foldl].
  - rewrite zlen_nil. by replace (n - 0) with n by lia.
  - rewrite zlen_cons in *. pose proof (zlen_nonneg l). replace (n - (1 + zlen l)) with (n - 1 - zlen l) by lia.
    unfold mint_hosted at 2 4 6. cbn [mint_local_worker]. apply IH; [lia|].
    apply (minting_local sh batch parent ws0 rs0 n _ (mint_worker e (next_worker_id c) (next_worker_sid c) batch parent task model false false ceiling) [] ltac:(lia) Hm); done.
Qed.

Lemma hosted_tasks_length from ob items tasks : hosted_tasks from ob items = Some tasks -> zlen tasks = zlen items.
Proof.
  revert tasks. induction items as [|it items IH]; intros tasks; cbn [hosted_tasks]; [by intros [= <-]|].
  case_bool_decide; [done|]. destruct (hosted_tasks from ob items) as [rest|]; [|done]. cbn [mbind option_bind]. intros <-%(inj Some).
  rewrite !zlen_cons. by rewrite (IH rest).
Qed.

Lemma host_outcome d q :
  ids_ok d -> room 64 (d_ids d) ->
  let r := host_fanout cf e wo d q in
  if r.2 then fanned d r.1.1 r.1.2
  else r.1.1 = d_set_ids (d_ids r.1.1) (d_set_hops (d_hops r.1.1) (d_set_seq (d_seq r.1.1) d)) /\ ids_ok r.1.1 /\ hush r.1.2.
Proof.
  intros [Hp Hl] Hroom. unfold host_fanout. destruct (mq_parent q) as [parent|]; [|cbn [fst snd]; split_and!; [by destruct d|done|hush]].
  destruct (bool_decide (_ = [])) eqn:En; [cbn [fst snd]; split_and!; [by destruct d|done|hush]|]. cbn [orb].
  destruct (Z.ltb_spec MAX_BATCH_TASKS (zlen (default [] (arg_array (mq_body q) (chars "tasks"))))) as [|Hlen];
    [cbn [fst snd]; split_and!; [by destruct d|done|hush]|].
  destruct (hosted_tasks _ _ _) as [tasks|] eqn:Et; [|cbn [fst snd]; split_and!; [by destruct d|done|hush]].
  apply hosted_tasks_length in Et. unfold MAX_BATCH_TASKS in Hlen.
  set (batch := next_batch_id (d_ids d)) in *.
  pose proof (mint_hosted_fold (d_shared d) batch parent (d_workers d) (d_remotes d) (mq_hops q) tasks 63 (d_workers d) (d_remotes d) _ (d_hops d) []
    ltac:(lia) (minting_start _ _ _ _ batch parent 64 ltac:(lia) Hroom Hp eq_refl)) as Hm.
  destruct (foldl _ _ _) as [[[ws c] hm] minted]. cbn [fst snd] in Hm.
  pose proof (mg_from _ _ _ _ _ _ _ Hm) as Hfrom. destruct (minted_undone _ _ _ _ _ Hfrom) as [Uw _].
  cbn [mt_workers mt_minted] in Uw. pose proof (pool_ledger _ _ batch Hl eq_refl) as Hfresh.
  pose proof (mg_batch _ _ _ _ _ _ _ Hm) as Hlt. cbn [mt_ids] in Hlt. unfold persist_worker_txn.
  set (b := mkBatch parent (e_epoch e) _ false None _). destruct (wo_txn_ok wo _); cbn [negb].
  2: { cbn [fst snd]. unfold b. rewrite Uw, delete_insert_id by done. split_and!; [by destruct d| |hush].
       unfold ids_ok, ledger_below. books. split; [apply (pool_back _ _ _ _ _ _ _ Hm); by destruct Hp|].
       intros i x Hx. specialize (Hl _ _ Hx). lia. }
  destruct (admit_pool ws (d_remotes d) (d_shared d) c (mg_pool _ _ _ _ _ _ _ Hm)) as [Hpool He].
  pose proof (admit_hush (V := V) cf e ws (d_shared d)) as Hah. books.
  destruct (admit_queued cf e ws (d_shared d)) as [[ws' sh] eff]. cbn [fst snd] in *.
  match goal with |- fanned _ _ (ETxn true ?t :: ?cards ++ eff ++ ?ack) =>
    destruct (fan_effects t batch minted (cards ++ eff) ack []) as [Hdur Hrep] end.
  { apply hush_app; [|exact Hah]. apply hush_omap. intros m y. cbn. destruct (ws !! m.1); cbn; [|done]. by intros [= <-]. }
  { hush. }
  { by eapply (ledger_mint batch parent _ _ (mkMinting ws (d_remotes d) [] c minted [])). }
  { intros f Hf. by apply list_elem_of_singleton in Hf as ->. }
  rewrite app_nil_r, <- app_assoc in Hdur, Hrep. split; books.
  - split; [exact Hpool|]. unfold ledger_below. books. intros i x [[<- <-]|[_ Hx]]%lookup_insert_Some; [exact Hlt|].
    specialize (Hl _ _ Hx). lia.
  - by eapply (survive_mint _ _ _ _ _ _ Hfrom).
  - intros i x Hx. rewrite lookup_insert_ne; [done|]. intros <-. congruence.
  - intros i x [[<- <-]|[_ Hx]]%lookup_insert_Some; [by right|by left].
  - done.
  - exact Hdur.
  - exact Hrep.
Qed.
End fanout.
