(* ===== verification/WorkerWire.v ===== *)
(** * Workers across the wire

    What a peer can reach on this node, and what a cancel and an accept do to a
    mirror row when they cross. *)
From S2P Require Import Prelude Text Confine Policy Protocol Identity Auth Peers Mandala Review Remote Worker WorkerLife WorkerTree WorkerMesh.

Section wire.
Context {V : Type} `{!JsonArgs V} `{!JsonNums V} `{!WireRowJson V}.
Context (cf : Config) (e : Env) (wo : World V).

(** ** Rows *)

(** The rows of other nodes and batches are left as they are. *)
Lemma wire_row_scope batch node s wire id r :
  s.1.1 !! id = Some r -> ~ (rm_batch r = batch /\ rm_node r = node) ->
  (apply_wire_row cf wo batch node s wire).1.1 !! id = Some r.
Proof.
  destruct s as [[rs eff] ch]. cbn [fst]. intros Hr Hn. unfold apply_wire_row.
  destruct (List.find _ _) as [[wid r0]|] eqn:Ef; [|done]. cbn [fst].
  rewrite lookup_insert_ne; [done|]. intros ->. apply Hn. apply find_some in Ef as [Hin Hp].
  apply list_elem_of_In, elem_of_map_to_list in Hin. cbn [snd] in Hp. rewrite !andb_true_iff, !bool_decide_eq_true, Z.eqb_eq in Hp.
  rewrite Hr in Hin. injection Hin as <-. tauto.
Qed.

Lemma wire_rows_scope rs batch node rows id r :
  rs !! id = Some r -> ~ (rm_batch r = batch /\ rm_node r = node) ->
  (apply_wire_rows cf wo rs batch node rows).1.1 !! id = Some r.
Proof.
  unfold apply_wire_rows. intros Hr Hn.
  assert (forall s : gmap Z RemoteWorker * list (Effect V) * bool, s.1.1 !! id = Some r ->
    (foldl (apply_wire_row cf wo batch node) s rows).1.1 !! id = Some r) as H; [|by apply (H (rs, [], false))].
  clear rs Hr. induction rows as [|w rows IH]; intros s Hs; [done|]. cbn [foldl]. apply IH. by apply wire_row_scope.
Qed.

(** ** What a peer reaches *)

Lemma cancelled_only ws sh ids id w :
  ws !! id = Some w -> id ∉ ids -> (@cancel_workers V e ws sh ids).1.1 !! id = Some w.
Proof.
  unfold cancel_workers. intros Hw Hid.
  assert (forall s : gmap Z Worker * Shared * list (Effect V), s.1.1 !! id = Some w -> (foldl (cancel_one e) s ids).1.1 !! id = Some w) as H;
    [|by apply (H (ws, sh, []))].
  clear ws sh Hw. induction ids as [|i ids IH]; intros s Hs; [done|]. apply not_elem_of_cons in Hid as [Hne Hid].
  cbn [foldl]. apply IH; [done|]. destruct s as [[ws sh] eff]. unfold cancel_one. cbn [fst snd] in *.
  destruct (ws !! i) as [w'|]; [|done]. destruct (is_terminal (w_state w')); [done|]. cbn [fst]. by rewrite lookup_insert_ne.
Qed.

(** Admission moves no worker that was admitted or ended. *)
Lemma admit_keeps ws sh id w :
  ws !! id = Some w -> (@admit_queued V cf e ws sh).1.1 !! id = Some w \/
  (queued w = true /\ (@admit_queued V cf e ws sh).1.1 !! id = Some (admitted e id w)).
Proof.
  intros Hw. assert (admission e (cf_cap cf) ws (@admit_queued V cf e ws sh).1.1) as [Ha _ _ _].
  { apply admit_loop_spec. unfold queue_len. pose proof (count_map_le (fun x => queued x.2) ws). lia. }
  destruct (Ha id) as [->|(w' & Hw' & Hq & ->)]; [by left|right]. rewrite Hw in Hw'. injection Hw' as <-. done.
Qed.

(** The workers a step of a peer may have moved: admitted ones, and those of
    its own batches. *)
Definition spared (d : Driver) (from : text) (d' : Driver) : Prop :=
  forall id w, d_workers d !! id = Some w -> hosted_for d from (w_batch w) = false ->
    exists w', d_workers d' !! id = Some w' /\ (w' = w \/ w' = admitted e id w).

Lemma spared_refl d from d' : d_workers d' = d_workers d -> spared d from d'.
Proof. intros E id w Hw _. rewrite E. exists w. auto. Qed.

Lemma host_cancel_spares d q : spared d (mq_from q) (host_cancel cf e d q).1.1 /\
  d_remotes (host_cancel cf e d q).1.1 = d_remotes d /\ d_batches (host_cancel cf e d q).1.1 = d_batches d.
Proof.
  unfold host_cancel. destruct (arg_u64 _ _) as [b|]; [|by split; [apply spared_refl|]].
  destruct (hosted_for d (mq_from q) b) eqn:Eh; [|by split; [apply spared_refl|]]. cbn [negb].
  set (ids := (filter _ _).*1). destruct (bool_decide (ids = [])); [by split; [apply spared_refl|]|].
  destruct (cancel_workers e (d_workers d) (d_shared d) ids) as [[ws sh] eff] eqn:Ec.
  destruct (admit_queued cf e ws sh) as [[ws' sh'] eff'] eqn:Ea. cbn [fst]. split; [|done].
  intros id w Hw Hn. assert (id ∉ ids) as Hid.
  { unfold ids. intros ([i w'] & -> & [Hp Hin%elem_of_map_to_list]%list_elem_of_filter)%list_elem_of_fmap. cbn [fst snd] in *.
    rewrite Hw in Hin. injection Hin as <-. apply Is_true_true in Hp. rewrite !andb_true_iff, Z.eqb_eq in Hp.
    destruct Hp as [[E _] _]. congruence. }
  pose proof (cancelled_only (d_workers d) (d_shared d) ids id w Hw Hid) as Hc. rewrite Ec in Hc. cbn [fst] in Hc.
  destruct (admit_keeps ws sh id w Hc) as [Hk|[_ Hk]]; rewrite Ea in Hk; cbn [fst] in Hk; eexists; (split; [exact Hk|auto]).
Qed.

Lemma receive_report_rows d q id r :
  d_remotes d !! id = Some r -> rm_node r <> mq_from q -> d_remotes (receive_report cf e wo d q).1.1 !! id = Some r.
Proof.
  intros Hr Hn. unfold receive_report. destruct (arg_u64 _ _) as [b|]; [|done]. destruct (negb _); [done|].
  pose proof (wire_rows_scope (d_remotes d) b (mq_from q) (parse_rows (mq_body q)) id r Hr) as Hs.
  destruct (apply_wire_rows _ _ _ _ _ _) as [[rs eff] ch]. cbn [fst] in *. apply Hs. tauto.
Qed.

Lemma receive_report_frame d q :
  d_workers (receive_report cf e wo d q).1.1 = d_workers d /\ d_batches (receive_report cf e wo d q).1.1 = d_batches d.
Proof.
  unfold receive_report. destruct (arg_u64 _ _) as [b|]; [|done]. destruct (negb _); [done|].
  by destruct (apply_wire_rows _ _ _ _ _ _) as [[rs eff] ch].
Qed.

(** A peer reaches only what it owns, by the name its request carries: its
    cancel ends no worker of a batch that was not hosted for it, its query is
    answered for no such batch, its report moves no mirror row assigned to
    another node, and none of them touches the ledger of batches. *)
Theorem peer_reaches_its_own (d : Driver) (q : WorkerMeshReq V) :
  mq_kind q <> Fanout ->
  let r := handle_mesh_req cf e wo d q in
  spared d (mq_from q) r.1.1 /\
  (forall id rm, d_remotes d !! id = Some rm -> rm_node rm <> mq_from q -> d_remotes r.1.1 !! id = Some rm) /\
  (mq_kind q = Query -> forall body, EMeshRows body ∈ r.1.2 -> hosted_for d (mq_from q) (rb_peer_batch body) = true) /\
  d_batches r.1.1 = d_batches d.
Proof.
  intros Hk. unfold handle_mesh_req. destruct (mq_kind q); [done|..]; cbn [fst].
  - unfold host_query. destruct (arg_u64 _ _) as [b|].
    2: { split_and!; try done; [by apply spared_refl|]. intros _ body Hin. by apply list_elem_of_singleton in Hin. }
    destruct (hosted_for d (mq_from q) b) eqn:Eh; cbn [negb fst snd]; (split_and!; try done; [by apply spared_refl|]);
      intros _ body Hin; apply list_elem_of_singleton in Hin; [|done]. by injection Hin as ->.
  - destruct (host_cancel_spares d q) as (H1 & H2 & H3). split_and!; try done. by rewrite H2.
  - destruct (receive_report_frame d q) as [H1 H2]. split_and!; try done; [by apply spared_refl|].
    intros id rm. apply receive_report_rows.
Qed.

(** ** Crossings *)

Definition relays (f : Effect V) : bool := match f with ECancelRelay _ _ _ => true | _ => false end.

(** A cancel that crosses the accept is lost: on a row that is still being
    assigned the cancel relays nothing, and the accept that arrives after it
    puts the row back to queued, relays nothing either, and leaves the task
    running on the peer. *)
Theorem cancel_before_accept_is_lost (d : Driver) (batch wid peer_batch worker session : Z) (r : RemoteWorker) (answer : V) :
  d_remotes d !! wid = Some r -> rm_terminal r = false -> rm_remote_batch r = None ->
  parse_fanout_accept answer = Ok (peer_batch, [mkAccepted 0 worker session]) ->
  let '(rs, eff) := relay_remote_cancels wo (d_remotes d) [wid] in
  rs !! wid = Some (rm_with_state r STATE_CANCEL_REQUESTED) /\ forallb (fun f => negb (relays f)) eff = true /\
  let '(d', eff') := handle_assign_outcome cf e wo (d_set_remotes rs d) batch (rm_node r) [wid] (Ok answer) in
  (exists r', d_remotes d' !! wid = Some r' /\ rm_state_raw r' = chars "queued" /\ rm_remote_worker r' = Some worker) /\
  forallb (fun f => negb (relays f)) eff' = true.
Proof.
  intros Hr Ht Hb Ha. unfold relay_remote_cancels. cbn [foldl]. unfold relay_one. rewrite Hr, Ht.
  rewrite lookup_empty. cbn [default from_option fst snd].
  change (rm_remote_batch (rm_with_state r STATE_CANCEL_REQUESTED)) with (rm_remote_batch r). rewrite Hb.
  rewrite insert_empty, map_to_list_singleton. cbn [omap list_omap mbind option_bind].
  split_and!; [apply lookup_insert_eq|done|]. unfold handle_assign_outcome. cbn [rbind]. rewrite Ha.
  cbn [foldl d_remotes d_set_remotes]. unfold accept_one. cbn [ar_index].
  change ([wid] !! Z.to_nat 0) with (Some wid). cbn iota. rewrite lookup_insert_eq.
  cbn [d_remotes d_set_remotes]. split; [|done]. eexists. by rewrite lookup_insert_eq.
Qed.

(** An answer taken before a report arrived reopens the row the report
    closed. *)
Lemma stale_answer_reopens (batch wid worker session : Z) (r : RemoteWorker) :
  rm_batch r = batch -> rm_remote_worker r = Some worker -> rm_terminal r = true ->
  let '(rs, _, _) := apply_wire_rows cf wo {[wid := r]} batch (rm_node r) [mkWireRow worker session (chars "running") false None None] in
  exists r', rs !! wid = Some r' /\ rm_terminal r' = false.
Proof.
  intros Hb Hw Ht. unfold apply_wire_rows. cbn [foldl]. unfold apply_wire_row. rewrite map_to_list_singleton. cbn [List.find snd wr_worker].
  rewrite Hb, Z.eqb_refl, !bool_decide_true by done. cbn [andb]. eexists. rewrite lookup_insert_eq. split; [done|].
  cbn [wr_state wr_summary is_someb andb]. destruct (bool_decide (rm_state_raw r = chars "running")) eqn:E; cbn [negb].
  - apply bool_decide_eq_true in E. unfold rm_terminal in Ht. by rewrite E in Ht.
  - unfold rm_with_evidence. case_match; done.
Qed.
End wire.

(** ** Concrete inputs *)

(** A cancel of a batch nobody hosts here. *)
Definition toy_cancel : WorkerMeshReq Toy :=
  mkMeshReq Peers.Cancel (chars "far") (ToyObj [(chars "batch", ToyStr (chars "1"))]) None 1.

(** The state after a fan with a task on the peer. *)
Definition toy_remote : Driver := (fanout toy_config (toy_env 1000) (toy_world true) toy_driver 7 9 (toy_fan true)).1.1.

Lemma peer_reaches_its_own_witness :
  let r := handle_mesh_req toy_config (toy_env 1010) (toy_world true) toy_remote toy_cancel in
  spared (toy_env 1010) toy_remote (chars "far") r.1.1 /\
  (forall id rm, d_remotes toy_remote !! id = Some rm -> rm_node rm <> chars "far" -> d_remotes r.1.1 !! id = Some rm) /\
  (mq_kind toy_cancel = Query -> forall body, EMeshRows body ∈ r.1.2 -> hosted_for toy_remote (chars "far") (rb_peer_batch body) = true) /\
  d_batches r.1.1 = d_batches toy_remote.
Proof. apply (peer_reaches_its_own toy_config (toy_env 1010) (toy_world true) toy_remote toy_cancel). discriminate. Defined.

(** The peer accepts task 0 as its worker 5. *)
Definition toy_accept : Toy :=
  ToyObj [(chars "batch", ToyStr (chars "3")); (chars "ok", ToyBool true);
    (chars "workers", ToyObj [([], ToyObj [(chars "index", ToyStr (chars "0")); (chars "worker", ToyStr (chars "5"));
                                          (chars "session", ToyStr (chars "6"))])])].

Definition toy_row : RemoteWorker := mkRemote 1 7 (chars "far") (chars "two") None None None None STATE_ASSIGNING None None 1000.

Lemma cancel_before_accept_is_lost_witness :
  let '(rs, eff) := relay_remote_cancels (toy_world true) (d_remotes toy_remote) [2] in
  rs !! 2 = Some (rm_with_state toy_row STATE_CANCEL_REQUESTED) /\ forallb (fun f => negb (relays f)) eff = true /\
  let '(d', eff') := handle_assign_outcome toy_config (toy_env 1010) (toy_world true) (d_set_remotes rs toy_remote) 1 (chars "far") [2] (Ok toy_accept) in
  (exists r', d_remotes d' !! 2 = Some r' /\ rm_state_raw r' = chars "queued" /\ rm_remote_worker r' = Some 5) /\
  forallb (fun f => negb (relays f)) eff' = true.
Proof.
  apply (cancel_before_accept_is_lost toy_config (toy_env 1010) (toy_world true) toy_remote 1 2 3 5 6 toy_row toy_accept);
    vm_compute; reflexivity.
Defined.
