(* ===== verification/WorkerDriver.v ===== *)
(** * The worker driver

    [agentd/crates/agentd/src/worker.rs], [spawn_worker_driver]: the boot, and
    one arm of the loop per input, composed of the operations of the other
    worker files in the order the arm calls them.  A step answers with the new
    state and what it sends, writes and spawns, in order. *)
From S2P Require Import Prelude Text Confine Policy Protocol Goal Identity Auth Peers Mandala Review Remote Worker WorkerTree WorkerMesh.

(** ** Inputs *)

(** What wakes the loop: a tool request, a peer's request, the answer of a
    spawned call, a bus event, the tick. *)
Inductive Input (V : Type) :=
  | IRequest (session call : Z) (tool : text) (args : V)
  | IMesh (q : WorkerMeshReq V)
  | IAssign (batch : Z) (node : text) (wids : list Z) (answer : result V text)
  | IPoll (batch : Z) (node : text) (answer : result V text)
  | ITurnComplete (session : Z)
  | IApprovalPending (session : Z) (tool : text)
  | IUserApproval (session : Z)
  | IUserPrompt (session : Z)
  | IError (session : option Z)
  | IGoalState (state : GoalState) (session : option Z)
  | ISubAgentStarted (parent : Z)
  | ICouncilComplete (council_id synthesis : text)
  | ITick.
Arguments IRequest {V}. Arguments IMesh {V}. Arguments IAssign {V}. Arguments IPoll {V}.
Arguments ITurnComplete {V}. Arguments IApprovalPending {V}. Arguments IUserApproval {V}.
Arguments IUserPrompt {V}. Arguments IError {V}. Arguments IGoalState {V}. Arguments ISubAgentStarted {V}.
Arguments ICouncilComplete {V}. Arguments ITick {V}.

(** ** Sequencing *)

Section seq.
Context {V : Type}.

(** A part of an arm: the state, and what it adds to the effects. *)
Definition and_then (s : Driver * list (Effect V)) (f : Driver -> Driver * list (Effect V)) : Driver * list (Effect V) :=
  let r := f s.1 in (r.1, s.2 ++ r.2).

Definition skip (d : Driver) : Driver * list (Effect V) := (d, []).

Definition when (b : bool) (f : Driver -> Driver * list (Effect V)) : Driver -> Driver * list (Effect V) :=
  if b then f else skip.
End seq.

Declare Scope driver_scope.
Notation "s >>> f" := (and_then s f) (at level 50, left associativity) : driver_scope.
#[local] Open Scope driver_scope.

(** ** The arms *)

Section driver.
Context {V : Type} `{!JsonArgs V} `{!JsonNums V} `{!WireRowJson V} `{!FsOps} `{!Sha256}.
Context (cf : Config) (e : Env) (wo : World V).

Definition do_save (d : Driver) : Driver * list (Effect V) := save_worker_state wo d.
Definition do_save_remotes (d : Driver) : Driver * list (Effect V) := (d, [ESaveRemotes (d_remotes d)]).
Definition do_save_mandalas (d : Driver) : Driver * list (Effect V) := (d, [ESaveMandalas (d_mandalas d)]).

Definition do_sync (d : Driver) : Driver * list (Effect V) :=
  let '(trees, eff) := sync_cells cf (d_trees d) (d_index d) (d_workers d) in (d_set_trees trees d, eff).

Definition do_sync_remote (d : Driver) : Driver * list (Effect V) :=
  let '(trees, eff) := sync_remote_cells (d_trees d) (d_index d) (d_remotes d) in (d_set_trees trees d, eff).

(** Whether a gate opened decides what follows. *)
Definition do_barriers (opened : Driver -> Driver * list (Effect V)) (d : Driver) : Driver * list (Effect V) :=
  let s := check_barriers e (d_workers d) (d_trees d) (d_index d) (d_mandalas d) in
  (d_set_workers (ts_workers s) (d_set_trees (ts_trees s) d), ts_eff s) >>> when (ts_opened s) opened.

Definition do_admit (d : Driver) : Driver * list (Effect V) :=
  let '(ws, sh, eff) := admit_queued cf e (d_workers d) (d_shared d) in (d_set_ws (ws, sh) d, eff).

(** [check_batches], the save if a batch was reported, then the reports home. *)
Definition do_batches (d : Driver) : Driver * list (Effect V) :=
  let '(bs, eff, home, changed) := check_batches cf e (wo_read_doc wo) (d_workers d) (d_remotes d) (d_batches d) in
  (d_set_batches bs d, eff) >>> when changed do_save >>> (fun d => (d, spawn_report_home wo home)).

(** *** Tool requests *)

Definition on_fanout (d : Driver) (session call : Z) (args : V) : Driver * list (Effect V) :=
  let '(d, eff, minted) := fanout cf e wo d session call args in
  match minted with
  | None => (d, eff)
  | Some (ctx, wids) =>
      let bound d :=
        match ctx with
        | Some c =>
            let '(trees, index, eff) := bind_cells (e_epoch e) (d_trees d) (d_index d) c wids in
            (d_set_trees trees (d_set_index index d), eff)
        | None => (d, [])
        end in
      (d, eff) >>> bound >>> do_save >>> do_save >>> do_save_remotes
  end.

Definition on_worker_cancel (d : Driver) (session call : Z) (args : V) : Driver * list (Effect V) :=
  let '(d, eff, cancelled) := cancel_request e wo d session call args in
  (d, eff) >>> when cancelled (fun d =>
    do_sync d >>> do_barriers skip >>> do_admit >>> do_batches >>> do_save >>> do_save_remotes).

Definition on_mandala_close (d : Driver) (session call : Z) (args : V) : Driver * list (Effect V) :=
  let '(ms, ts, eff, closed) := close_mandala_request (d_mandalas d) (d_trees d) session call args in
  (d_set_mandalas ms (d_set_trees ts d), eff) >>> when closed do_save_mandalas.

Definition on_mandala_create (d : Driver) (session call : Z) (args : V) : Driver * list (Effect V) :=
  let '(ms, ts, next, eff) := create_mandala cf e (d_mandalas d) (d_trees d) (d_next_mandala d) session call args in
  (d_set_mandalas ms (d_set_trees ts (d_set_next_mandala next d)), eff) >>> do_save_mandalas.

Definition on_report (d : Driver) (session call : Z) (args : V) : Driver * list (Effect V) :=
  let '(ws, eff) := record_report cf (d_workers d) session call args in (d_set_workers ws d, eff).

Definition on_request (d : Driver) (session call : Z) (tool : text) (args : V) : Driver * list (Effect V) :=
  if bool_decide (tool = chars "task_fanout") then on_fanout d session call args
  else if bool_decide (tool = chars "mandala_close") then on_mandala_close d session call args
  else if bool_decide (tool = chars "mandala_create") then on_mandala_create d session call args
  else if bool_decide (tool = chars "mandala_status") then (d, [EReply session call MandalaStatus])
  else if bool_decide (tool = chars "worker_report") then on_report d session call args
  else if bool_decide (tool = chars "worker_cancel") then on_worker_cancel d session call args
  else if bool_decide (tool = chars "list_workers") then (d, [EReply session call Listed])
  else (d, []).

(** *** The mesh *)

Definition on_mesh (d : Driver) (q : WorkerMeshReq V) : Driver * list (Effect V) :=
  let '(d, eff, saved) := handle_mesh_req cf e wo d q in
  (d, eff) >>> when saved (fun d =>
    do_sync_remote d >>> do_barriers do_admit >>> do_save >>> do_save >>> do_save_remotes >>> do_batches).

(** What both outcomes share once rows may have moved. *)
Definition on_outcome (d : Driver) : Driver * list (Effect V) :=
  do_sync_remote d >>> do_barriers (fun d => do_admit d >>> do_save) >>> do_batches >>> do_save_remotes.

Definition on_assign (d : Driver) (batch : Z) (node : text) (wids : list Z) (answer : result V text) : Driver * list (Effect V) :=
  handle_assign_outcome cf e wo d batch node wids answer >>> on_outcome.

Definition on_poll (d : Driver) (batch : Z) (node : text) (answer : result V text) : Driver * list (Effect V) :=
  let '(d, eff, changed) := handle_poll_outcome cf e wo d batch node answer in
  (d, eff) >>> when changed on_outcome.

(** *** Bus events *)

Definition on_turn_complete (d : Driver) (session : Z) : Driver * list (Effect V) :=
  let '(ws, sh, trees, eff, moved) := advance cf e (d_workers d) (d_shared d) (d_trees d) (d_index d) session in
  (d_set_ws (ws, sh) (d_set_trees trees d), eff) >>> when moved (fun d =>
    do_sync d >>> do_barriers skip >>> do_admit >>> do_batches >>> do_save).

Definition on_blocked (d : Driver) (session : Z) (tool : text) : Driver * list (Effect V) :=
  let '(ws, eff, blocked) := block_on_approval (d_workers d) session tool in
  (d_set_workers ws d, eff) >>> when blocked do_save.

Definition on_approved (d : Driver) (session : Z) : Driver * list (Effect V) :=
  let '(ws, eff, resumed) := resume_from_approval e (d_workers d) session in
  (d_set_workers ws d, eff) >>> when resumed do_save.

(** An episode opens for a revived worker that never had one. *)
Definition open_episode (wid : Z) (d : Driver) : Driver * list (Effect V) :=
  match d_workers d !! wid with
  | Some w =>
      if is_noneb (w_episode w) && is_someb (e_episode e wid)
      then (d_set_workers (<[wid := w_set_episode (e_episode e wid) w]> (d_workers d)) d, [])
      else (d, [])
  | None => (d, [])
  end.

Definition on_woken (session : Z) (d : Driver) : Driver * list (Effect V) :=
  match find_worker (fun x => w_session x.2 =? session) (d_workers d) with
  | Some (wid, _) =>
      let '(trees, eff) := record_override (d_trees d) (d_index d) wid in
      (d_set_trees trees d, eff) >>> open_episode wid
  | None => (d, [])
  end.

Definition on_prompt (d : Driver) (session : Z) : Driver * list (Effect V) :=
  let '(ws, sh, eff, woke) := wake_on_send e (d_workers d) (d_shared d) session in
  (d_set_ws (ws, sh) d, eff) >>> when woke (fun d => on_woken session d >>> do_save).

Definition on_error (d : Driver) (session : Z) : Driver * list (Effect V) :=
  (d_set_workers (mark_errored (d_workers d) session) d, []).

(** The cascade of a cancelled conductor goal. *)
Definition cascade (d : Driver) (parent : Z) : Driver * list (Effect V) :=
  let ids := select live_worker (fun w => w_parent w =? parent) (d_workers d) in
  let remote_ids := select live_remote (fun r => rm_parent r =? parent) (d_remotes d) in
  if bool_decide (ids = []) && bool_decide (remote_ids = []) then (d, [])
  else
    let '(ws, sh, eff) := cancel_workers e (d_workers d) (d_shared d) ids in
    let '(rs, eff') := relay_remote_cancels wo (d_remotes d) remote_ids in
    (d_set_remotes rs (d_set_ws (ws, sh) d), eff ++ eff')
      >>> do_admit >>> do_batches >>> do_sync >>> do_save >>> do_save_remotes.

Definition do_close (parent : Z) (d : Driver) : Driver * list (Effect V) :=
  let '(ms, ts, eff, closed) := try_close_for_conductor (d_mandalas d) (d_trees d) parent in
  (d_set_mandalas ms (d_set_trees ts d), eff) >>> when closed do_save_mandalas.

Definition on_goal_state (d : Driver) (state : GoalState) (parent : Z) : Driver * list (Effect V) :=
  match state with
  | Goal.Cancelled => cascade d parent >>> do_close parent
  | Goal.Done | Goal.Failed => do_close parent d
  | _ => (d, [])
  end.

Definition on_spawn (d : Driver) (parent : Z) : Driver * list (Effect V) :=
  let '(log, eff) := pb1_track e (d_spawn_log d) parent in (d_set_spawn_log log d, eff).

Definition on_council (d : Driver) (council_id synthesis : text) : Driver * list (Effect V) :=
  let '(ms, banked) := bank_synthesis (d_mandalas d) council_id synthesis in
  (d_set_mandalas ms d, []) >>> when banked do_save_mandalas.

(** *** The tick *)

(** The review of the due workers: the state and the flags failed, parked,
    reaped, barriers due. *)
Record Flags := mkFlags { fl_failed : bool; fl_parked : bool; fl_reaped : bool; fl_barriers : bool }.

Definition raise (r : Remediation) (w : Worker) (f : Flags) : Flags :=
  match r with
  | Fail_ => mkFlags true (fl_parked f) (fl_reaped f) (fl_barriers f)
  | Park => mkFlags (fl_failed f) (fl_parked f || negb (bool_decide (w_state w = WParked))) (fl_reaped f) (fl_barriers f)
  | Reap => mkFlags (fl_failed f) (fl_parked f) true (fl_barriers f)
  | OpenBarrier => mkFlags (fl_failed f) (fl_parked f) (fl_reaped f) true
  | Healthy | Review.Cancel => f
  end.

Definition bump_census (mid : Z) (key : text) (cs : gmap Z (gmap text Z)) : gmap Z (gmap text Z) :=
  let c := default ∅ (cs !! mid) in
  <[mid := <[key := as_u64 (default 0 (c !! key) + 1)]> c]> cs.

Definition batch_deadline_ok (bs : Batches) (batch : Z) : bool :=
  match bs !! batch with
  | Some b => b_reported b || (e_epoch e <? sat_add64 (b_created_epoch b) (b_deadline_s b))
  | None => true
  end.

Definition review_one (s : Driver * list (Effect V) * Flags) (wid : Z) : Driver * list (Effect V) * Flags :=
  let '(d, eff, fl) := s in
  match d_workers d !! wid with
  | None => s
  | Some w =>
      let '(barrier_ready, barrier_deadline_in) :=
        if w_barrier_held w then barrier_signals (e_epoch e) (d_trees d) (d_index d) wid else (None, None) in
      let '(posture, word) := build_review cf e w barrier_ready (batch_deadline_ok (d_batches d) (w_batch w)) in
      let cs := match d_index d !! wid with
                | Some (mid, _) => bump_census mid (census_key posture word) (d_censuses d)
                | None => d_censuses d
                end in
      let r := review posture word in
      let '(ws, sh, eff') := remediate e (d_workers d) (d_shared d) wid w r in
      let ws := alter (fun w => schedule_next_review cf e w posture word barrier_deadline_in) wid ws in
      (d_set_ws (ws, sh) (d_set_censuses cs d), eff ++ eff', raise r w fl)
  end.

Definition review_due (w : Worker) : bool := match w_next_review w with Some t => t <=? e_now e | None => false end.

Definition due_reviews (d : Driver) : list Z := (filter (fun x => review_due x.2) (map_to_list (d_workers d))).*1.

Definition do_polls (d : Driver) : Driver * list (Effect V) := run_due_polls e wo d.

Definition do_epochs (d : Driver) : Driver * list (Effect V) :=
  let s := roll_due_epochs e (wo_read_file wo) (d_mandalas d) (d_trees d) (d_remotes d) (d_censuses d) (d_next_epoch d) in
  (d_set_mandalas (es_mandalas s) (d_set_censuses (es_censuses s) (d_set_next_epoch (es_next s) d)), es_eff s)
    >>> when (es_dirty s) do_save_mandalas.

Definition on_tick (d : Driver) : Driver * list (Effect V) :=
  let '(d, eff, fl) := foldl review_one (d, [], mkFlags false false false false) (due_reviews d) in
  (d, eff) >>> when (fl_barriers fl) (do_barriers do_admit) >>> when (fl_failed fl) do_admit >>> do_batches
    >>> when (fl_failed fl || fl_reaped fl) do_sync >>> when (fl_failed fl || fl_parked fl) do_save
    >>> do_polls >>> do_epochs.

(** *** The loop *)

Definition driver_step (d : Driver) (i : Input V) : Driver * list (Effect V) :=
  match i with
  | IRequest session call tool args => on_request d session call tool args
  | IMesh q => on_mesh d q
  | IAssign batch node wids answer => on_assign d batch node wids answer
  | IPoll batch node answer => on_poll d batch node answer
  | ITurnComplete s => if is_worker_session s then on_turn_complete d s else (d, [])
  | IApprovalPending s tool => if is_worker_session s then on_blocked d s tool else (d, [])
  | IUserApproval s => if is_worker_session s then on_approved d s else (d, [])
  | IUserPrompt s => if is_worker_session s then on_prompt d s else (d, [])
  | IError (Some s) => if is_worker_session s then on_error d s else (d, [])
  | IError None => (d, [])
  | IGoalState state (Some parent) => on_goal_state d state parent
  | IGoalState _ None => (d, [])
  | ISubAgentStarted parent => on_spawn d parent
  | ICouncilComplete id synthesis => on_council d id synthesis
  | ITick => on_tick d
  end.
End driver.

(** ** Boot *)

(** What the daemon finds on disk: the transaction file, the split files, the
    mandala file with the tree directories, the mirror rows; each as what it
    decodes to. *)
Record Disk := mkDisk {
  dk_txn : option WorkerTxn;
  dk_workers : list PersistedWorker;
  dk_batches : list PersistedBatch;
  dk_mandalas : option text;
  dk_dirs : gmap Z Dir;
  dk_remotes : option text
}.

Section boot.
Context {V : Type} `{!TreeJson} `{!RemotesJson}.

Definition emit_reloaded_workers (ws : Workers) : list (Effect V) :=
  (fun x => emit_state x.1 x.2 (if bool_decide (w_state x.2 = WParked) then chars "parked by daemon restart" else [])) <$> by_id ws.

(** The ledger: the transaction file if its version is known, else the split
    files. *)
Definition reload_ledger (now : Z) (dk : Disk) : Z * gmap Z Worker * gmap Z BatchMeta * Counters * list (Effect V) :=
  let c := mkCounters 1 1 WORKER_SESSION_BASE in
  match load_worker_txn (dk_txn dk) with
  | Some t =>
      let '(ws, c) := hydrate_workers now ∅ (tx_workers t) c in
      let '(bs, c) := hydrate_batches ∅ (tx_batches t) c in
      (tx_seq t, ws, bs, c, emit_reloaded_workers ws)
  | None =>
      let '(ws, c) := hydrate_workers now ∅ (dk_workers dk) c in
      let '(bs, c) := hydrate_batches ∅ (dk_batches dk) c in
      (0, ws, bs, c, emit_reloaded_workers ws)
  end.

Definition driver_boot (e : Env) (sh : Shared) (dk : Disk) : Driver * list (Effect V) :=
  let '(seq, ws, bs, c, eff) := reload_ledger (e_now e) dk in
  let bs := reconcile_batches (e_epoch e) ws bs in
  let '(ms, (trees, index, next, eff')) := reload_mandalas (dk_mandalas dk) (dk_dirs dk) ∅ 1 in
  let d := mkDriver ws bs ∅ ∅ ms trees index c next seq sh (Some ∅) ∅ ∅ ∅ in
  let '(d, eff'') := reload_remotes e (dk_remotes dk) d in
  (d, eff ++ eff' ++ eff'').
End boot.
