(* ===== verification/WorkerRun.v ===== *)
(** * Runs of the worker driver

    Invariants of [WorkerDriver.driver_step] over every input: workers keep
    their identity and move along the edges of their state machine, the shared
    maps follow residency, trees stay in their geometry, and a batch is
    reported at most once. *)
From S2P Require Import Prelude Text Confine Policy Protocol Goal Identity Auth Peers Mandala Review Remote Worker WorkerLife WorkerTree WorkerFan WorkerMesh WorkerHush WorkerMint WorkerDriver.
#[local] Open Scope driver_scope.

(** ** What a part of an arm keeps *)

(** Batches keep their key and origin; reporting is for good. *)
Definition bs_evolve (bs bs' : Batches) : Prop :=
  forall id, match bs !! id, bs' !! id with
             | Some b, Some b' => b' = b \/ b' = b_report b
             | None, None => True
             | _, _ => False
             end.

(** Mirror rows keep whose they are. *)
Definition same_row (r r' : RemoteWorker) : Prop :=
  rm_batch r' = rm_batch r /\ rm_parent r' = rm_parent r /\ rm_node r' = rm_node r.
Definition rs_evolve (rs rs' : Remotes) : Prop :=
  forall id, match rs !! id, rs' !! id with
             | Some r, Some r' => same_row r r'
             | None, None => True
             | _, _ => False
             end.

(** Mandalas keep their number and budget. *)
Definition same_mandala (m m' : MandalaRecord) : Prop := md_budget m' = md_budget m /\ md_id m' = md_id m.
Definition ms_evolve (ms ms' : gmap Z MandalaRecord) : Prop :=
  forall id, match ms !! id, ms' !! id with
             | Some m, Some m' => same_mandala m m'
             | None, None => True
             | _, _ => False
             end.

#[export] Instance bs_evolve_preorder : PreOrder bs_evolve.
Proof.
  split; [intros b i; destruct (b !! i); tauto|].
  intros a b c H1 H2 i. specialize (H1 i). specialize (H2 i).
  destruct (a !! i) as [x|], (b !! i) as [y|], (c !! i) as [z|]; try done.
  destruct H1 as [->| ->], H2 as [->| ->]; tauto.
Qed.

#[export] Instance rs_evolve_preorder : PreOrder rs_evolve.
Proof.
  split; [intros b i; by destruct (b !! i)|].
  intros a b c H1 H2 i. specialize (H1 i). specialize (H2 i).
  destruct (a !! i), (b !! i), (c !! i); try done. destruct H1 as (?&?&?), H2 as (?&?&?). repeat split; congruence.
Qed.

#[export] Instance ms_evolve_preorder : PreOrder ms_evolve.
Proof.
  split; [intros b i; by destruct (b !! i)|].
  intros a b c H1 H2 i. specialize (H1 i). specialize (H2 i).
  destruct (a !! i), (b !! i), (c !! i); try done. destruct H1, H2. split; congruence.
Qed.

Lemma rs_evolve_insert rs id r r' : rs !! id = Some r -> same_row r r' -> rs_evolve rs (<[id := r']> rs).
Proof.
  intros Hr Hs i. destruct (decide (i = id)) as [->|Hne]; [by rewrite lookup_insert_eq, Hr|].
  rewrite lookup_insert_ne by done. by destruct (rs !! i).
Qed.

Lemma ms_evolve_alter ms id f : (forall m, same_mandala m (f m)) -> ms_evolve ms (alter f id ms).
Proof.
  intros Hf i. destruct (decide (i = id)) as [->|Hne]; [rewrite lookup_alter_eq|rewrite lookup_alter_ne by done];
    destruct (ms !! _); cbn; auto; done.
Qed.

Lemma ms_evolve_insert ms id m m' : ms !! id = Some m -> same_mandala m m' -> ms_evolve ms (<[id := m']> ms).
Proof.
  intros Hm Hb i. destruct (decide (i = id)) as [->|Hne]; [by rewrite lookup_insert_eq, Hm|].
  rewrite lookup_insert_ne by done. by destruct (ms !! i).
Qed.

(** A fold evolves what each item evolves. *)
Lemma fold_evolves {A S X : Type} (R : A -> A -> Prop) `{!PreOrder R} (get : S -> A) (f : S -> X -> S) (l : list X) (s : S) :
  (forall s x, R (get s) (get (f s x))) -> R (get s) (get (foldl f s l)).
Proof. intros Hf. revert s. induction l as [|x l IH]; intros s; [reflexivity|]. cbn [foldl]. etrans; [apply Hf|apply IH]. Qed.

(** From one state to the next: nothing is minted or forgotten. *)
Record moves (d d' : Driver) : Prop := mkMoves {
  mv_workers : good_op (d_workers d) (d_shared d) (d_workers d') (d_shared d');
  mv_batches : bs_evolve (d_batches d) (d_batches d');
  mv_remotes : rs_evolve (d_remotes d) (d_remotes d');
  mv_trees : trees_evolve (d_trees d) (d_trees d');
  mv_mandalas : ms_evolve (d_mandalas d) (d_mandalas d');
  mv_ids : d_ids d' = d_ids d;
  mv_next : d_next_mandala d' = d_next_mandala d
}.

#[export] Instance moves_preorder : PreOrder moves.
Proof.
  split; [intros d; split; try reflexivity; apply w_good_refl|].
  intros a b c [] []. split; try congruence; try (etrans; eassumption). by eapply good_trans.
Qed.

(** Whether a batch is marked reported. *)
Definition mark (d : Driver) (id : Z) : Z := match d_batches d !! id with Some b => Z.b2z (b_reported b) | None => 0 end.

(** What is said of a batch is what is marked. *)
Definition says {V} (d : Driver) (r : Driver * list (Effect V)) : Prop :=
  forall id, mark r.1 id = mark d id + reports id r.2.

Record part {V} (d : Driver) (r : Driver * list (Effect V)) : Prop := mkPart {
  pt_moves : moves d r.1;
  pt_says : says d r;
  pt_acks : no_acks r.2
}.

Section parts.
Context {V : Type}.

Lemma part_then d (s : Driver * list (Effect V)) f : part d s -> (forall d, part d (f d)) -> part d (s >>> f).
Proof.
  intros [Hm Hs Ha] Hf. destruct (Hf s.1) as [Hm' Hs' Ha']. split; [by etrans| |by apply no_acks_app].
  intros id. specialize (Hs id). specialize (Hs' id). cbn [and_then fst snd]. rewrite reports_app. lia.
Qed.

Lemma part_skip d : part d (d, @nil (Effect V)).
Proof. split; [reflexivity| |by apply no_acks_hush, hush_nil]. intros id. cbn [fst snd]. rewrite (reports_hush id []) by apply hush_nil. lia. Qed.

Lemma part_when (b : bool) (f : Driver -> Driver * list (Effect V)) d : (b = true -> forall d, part d (f d)) -> part d (when b f d).
Proof. intros Hf. unfold when. destruct b; [by apply Hf|apply part_skip]. Qed.

(** A part that neither reports nor marks. *)
Lemma part_hush d d' (eff : list (Effect V)) : moves d d' -> d_batches d' = d_batches d -> hush eff -> part d (d', eff).
Proof. intros Hm Hb He. split; [done| |by apply no_acks_hush]. intros id. cbn [fst snd]. rewrite (reports_hush id eff He). unfold mark. rewrite Hb. lia. Qed.
End parts.

Create HintDb part.

(** ** The parts of the arms *)

Section arms.
Context {V : Type} `{!JsonArgs V} `{!JsonNums V} `{!WireRowJson V} `{!FsOps} `{!Sha256}.
Context (cf : Config) (e : Env) (wo : World V).

Ltac moved := split; try reflexivity; try apply w_good_refl.

Lemma part_save d : part d (do_save wo d).
Proof. apply part_hush; [moved|done|hush]. Qed.

Lemma part_save_remotes d : part d (@do_save_remotes V d).
Proof. apply part_hush; [moved|done|hush]. Qed.

Lemma part_save_mandalas d : part d (@do_save_mandalas V d).
Proof. apply part_hush; [moved|done|hush]. Qed.

Lemma part_sync d : part d (@do_sync V cf d).
Proof.
  unfold do_sync. pose proof (sync_cells_evolve (V := V) cf (d_trees d) (d_index d) (d_workers d)) as He.
  pose proof (sync_cells_hush (V := V) cf (d_trees d) (d_index d) (d_workers d)) as Hh.
  destruct (sync_cells _ _ _ _). apply part_hush; [moved; exact He|done|exact Hh].
Qed.

Lemma part_sync_remote d : part d (@do_sync_remote V d).
Proof.
  unfold do_sync_remote. pose proof (sync_remote_cells_evolve (V := V) (d_trees d) (d_index d) (d_remotes d)) as He.
  pose proof (sync_remote_cells_hush (V := V) (d_trees d) (d_index d) (d_remotes d)) as Hh.
  destruct (sync_remote_cells _ _ _). apply part_hush; [moved; exact He|done|exact Hh].
Qed.

Lemma check_barriers_good ws sh trees index mandalas :
  good_op ws sh (ts_workers (@check_barriers V e ws trees index mandalas)) sh.
Proof.
  unfold check_barriers. set (s := mkTree ws trees [] false). change ws with (ts_workers s) at 1.
  generalize s as s0. generalize ((filter (fun x : Z * Worker => held x.2) (map_to_list ws)).*1) as l. clear s.
  induction l as [|wid l IH]; intros s; cbn [foldl]; [apply w_good_refl|].
  eapply good_trans; [|apply IH]. unfold check_one.
  destruct (index !! wid) as [[mid a]|]; [|apply w_good_refl]. destruct (ts_workers s !! wid) as [w|] eqn:Ew; [|apply w_good_refl].
  destruct (ts_trees s !! mid ≫= _) as [[tree c]|]; [|apply w_good_refl]. destruct (negb _); [apply w_good_refl|].
  destruct (update_cell _ _ _ _). cbn [ts_workers]. apply (good_quiet _ _ _ w); [done|by apply quiet_evolves].
Qed.

Lemma part_barriers (f : Driver -> Driver * list (Effect V)) d : (forall d, part d (f d)) -> part d (do_barriers e f d).
Proof.
  intros Hf. unfold do_barriers. apply part_then; [|intros d'; apply part_when; intros _ d''; apply Hf].
  apply part_hush; [|done|apply check_barriers_hush].
  moved; [apply check_barriers_good|apply (check_barriers_evolve (V := V))].
Qed.

Lemma part_admit d : part d (@do_admit V cf e d).
Proof.
  unfold do_admit. pose proof (admit_queued_good (V := V) cf e (d_workers d) (d_shared d)) as Hg.
  pose proof (admit_hush (V := V) cf e (d_workers d) (d_shared d)) as Hh.
  destruct (admit_queued _ _ _ _) as [[ws sh] eff]. apply part_hush; [moved; exact Hg|done|exact Hh].
Qed.

Lemma report_home_hush ws rs read (bs : Batches) ids (eff home : list (Effect V)) :
  hush home -> hush (foldl (report_batch cf read ws rs) (bs, eff, home) ids).2.
Proof.
  intros Hs. apply (hush_fold snd); [|exact Hs]. intros [[bs' eff'] home'] id Hh. unfold report_batch. cbn [snd] in Hh.
  destruct (bs' !! id) as [b|]; [|done]. destruct (b_origin b) as [[? ?]|]; hush.
Qed.

Lemma report_events_acks ws rs id b : no_acks (@report_events V cf ws rs id b).
Proof.
  unfold report_events. constructor; [done|]. apply no_acks_hush. destruct (b_inline_ack b) as [[? ?]|]; hush.
Qed.

Lemma part_batches d : part d (do_batches cf e wo d).
Proof.
  unfold do_batches. destruct (check_batches_spec cf e (wo_read_doc wo) (d_workers d) (d_remotes d) (d_batches d)) as [Hb He].
  pose proof (check_reports cf e (wo_read_doc wo) (d_workers d) (d_remotes d) (d_batches d)) as Hr.
  assert (hush (check_batches cf e (wo_read_doc wo) (d_workers d) (d_remotes d) (d_batches d)).1.2) as Hh.
  { unfold check_batches. cbn [fst]. apply report_home_hush, hush_nil. }
  destruct (check_batches _ _ _ _ _ _) as [[[bs eff] home] changed]. cbn [fst snd] in *.
  apply part_then; [apply part_then|].
  - split.
    + moved. intros id. cbn [fst d_set_batches d_batches]. rewrite Hb. destruct (d_batches d !! id) as [b|]; [|done]. cbn.
      destruct (batch_due _ _ _ _); tauto.
    + intros id. unfold mark. cbn [fst snd d_set_batches d_batches]. rewrite Hb, Hr. destruct (d_batches d !! id) as [b|]; [|done].
      cbn. destruct (batch_due _ _ _ _) eqn:E; [|lia]. unfold batch_due in E. cbn in E.
      apply andb_true_iff in E as [->%negb_true_iff _]. done.
    + cbn [snd]. rewrite He. apply Forall_concat, Forall_fmap, Forall_forall. intros i _. cbn.
      destruct (d_batches d !! i); [apply report_events_acks|constructor].
  - intros d'. apply part_when. intros _ d''. apply part_save.
  - intros d'. apply part_hush; [reflexivity|done|]. by apply hush_filter.
Qed.
End arms.

#[export] Hint Resolve part_save part_save_remotes part_save_mandalas part_sync part_sync_remote part_admit part_batches : part.

(** Take an arm apart into its parts. *)
Ltac part :=
  repeat first [solve [eauto 2 with part] | apply part_barriers; intros ? | apply part_then; [|intros ?]
               | apply part_when; intros _ ? | apply part_skip].

(** *** Mirror rows *)

Section rows.
Context {V : Type} `{!JsonArgs V} `{!JsonNums V} `{!WireRowJson V}.
Context (cf : Config) (e : Env) (wo : World V).

Lemma relay_one_row s id : rs_evolve s.1.1 (@relay_one V s id).1.1 /\ (hush s.2 -> hush (@relay_one V s id).2).
Proof.
  destruct s as [[rs g] eff]. unfold relay_one. destruct (rs !! id) as [r|] eqn:Er; [|by split].
  destruct (rm_terminal r); [by split|]. cbn [fst snd]. split; [by eapply rs_evolve_insert|intros H; hush].
Qed.

Lemma relay_rows rs ids :
  rs_evolve rs (relay_remote_cancels wo rs ids).1 /\ hush (relay_remote_cancels wo rs ids).2.
Proof.
  unfold relay_remote_cancels.
  pose proof (fold_evolves rs_evolve (fun s => s.1.1) (@relay_one V) ids (rs, ∅, []) (fun s x => proj1 (relay_one_row s x))) as He.
  pose proof (hush_fold snd (@relay_one V) ids (rs, ∅, []) (fun s x => proj2 (relay_one_row s x)) (hush_nil (V := V))) as Hh.
  destruct (foldl _ _ _) as [[rs' g] eff]. cbn [fst snd] in *. split; [exact He|]. hush.
  apply hush_omap. intros [[? node] [rb ws]] y. cbn. destruct rb; cbn; [|done]. destruct (wo_peer wo node); [|done]. by intros [= <-].
Qed.

Lemma fail_row cause s wid :
  rs_evolve s.1 (fail_remote_row cf wo cause s wid).1 /\ (hush s.2 -> hush (fail_remote_row cf wo cause s wid).2).
Proof.
  destruct s as [rs eff]. unfold fail_remote_row. destruct (rs !! wid) as [r|] eqn:Er; [|by split].
  destruct (rm_terminal r); [by split|]. cbn [fst snd]. split; [by eapply rs_evolve_insert|intros H; hush].
Qed.

Lemma accept_row node pb wids s ar :
  rs_evolve s.1 (@accept_one V node pb wids s ar).1 /\ (hush s.2 -> hush (@accept_one V node pb wids s ar).2).
Proof.
  destruct s as [rs eff]. unfold accept_one. destruct (wids !! _) as [wid|]; [|by split].
  destruct (rs !! wid) as [r|] eqn:Er; [|by split]. cbn [fst snd]. split; [by eapply rs_evolve_insert|intros H; hush].
Qed.

Lemma assign_rows d batch node wids answer :
  let r := handle_assign_outcome cf e wo d batch node wids answer in
  rs_evolve (d_remotes d) (d_remotes r.1) /\ hush r.2 /\
  r.1 = d_set_remotes (d_remotes r.1) (d_set_polls (d_polls r.1) d).
Proof.
  unfold handle_assign_outcome. destruct (rbind answer parse_fanout_accept) as [[pb rows]|cause].
  - pose proof (fold_evolves rs_evolve fst (@accept_one V node pb wids) rows (d_remotes d, []) (fun s x => proj1 (accept_row node pb wids s x))) as He.
    pose proof (hush_fold snd (@accept_one V node pb wids) rows (d_remotes d, []) (fun s x => proj2 (accept_row node pb wids s x)) (hush_nil (V := V))) as Hh.
    destruct (foldl _ _ _) as [rs eff]. by destruct d.
  - unfold fail_remote_rows.
    pose proof (fold_evolves rs_evolve fst (fail_remote_row cf wo cause) wids (d_remotes d, []) (fun s x => proj1 (fail_row cause s x))) as He.
    pose proof (hush_fold snd (fail_remote_row cf wo cause) wids (d_remotes d, []) (fun s x => proj2 (fail_row cause s x)) (hush_nil (V := V))) as Hh.
    destruct (foldl _ _ _) as [rs eff]. by destruct d.
Qed.

Lemma find_row_Some (p : Z * RemoteWorker -> bool) (rs : Remotes) wid r :
  List.find p (map_to_list rs) = Some (wid, r) -> rs !! wid = Some r.
Proof. intros [Hin _]%find_some. apply elem_of_map_to_list. by apply list_elem_of_In. Qed.

Lemma wire_row batch node s wire :
  rs_evolve s.1.1 (apply_wire_row cf wo batch node s wire).1.1 /\
  (hush s.1.2 -> hush (apply_wire_row cf wo batch node s wire).1.2).
Proof.
  destruct s as [[rs eff] ch]. unfold apply_wire_row. destruct (List.find _ _) as [[wid r]|] eqn:Ef; [|by split].
  apply find_row_Some in Ef. cbn [fst snd]. split; [|intros H; hush].
  eapply rs_evolve_insert; [exact Ef|]. destruct (negb (bool_decide (rm_state_raw r = wr_state wire)));
  repeat match goal with |- context [if ?b then _ else _] => destruct b end; done.
Qed.

Lemma wire_rows rs batch node rows :
  rs_evolve rs (apply_wire_rows cf wo rs batch node rows).1.1 /\ hush (apply_wire_rows cf wo rs batch node rows).1.2.
Proof.
  unfold apply_wire_rows. split.
  - apply (fold_evolves rs_evolve (fun s : gmap Z RemoteWorker * list (Effect V) * bool => s.1.1) _ rows (rs, [], false)).
    intros s x. apply wire_row.
  - apply (hush_fold (fun s : gmap Z RemoteWorker * list (Effect V) * bool => s.1.2)); [|apply hush_nil].
    intros s x. apply wire_row.
Qed.

Lemma poll_rows d batch node answer :
  let r := handle_poll_outcome cf e wo d batch node answer in
  rs_evolve (d_remotes d) (d_remotes r.1.1) /\ hush r.1.2 /\
  r.1.1 = d_set_remotes (d_remotes r.1.1) (d_set_polls (d_polls r.1.1) d).
Proof.
  unfold handle_poll_outcome. destruct (d_polls d !! _) as [t|]; [|split_and!; [reflexivity|hush|by destruct d]]. destruct answer as [v|c].
  - destruct (wire_rows (d_remotes d) batch node (parse_rows v)) as [He Hh].
    destruct (apply_wire_rows _ _ _ _ _ _) as [[rs eff] ch]. by destruct d.
  - cbn. split_and!; [reflexivity|hush|by destruct d].
Qed.

Lemma polls_hush d : hush (run_due_polls e wo d).2 /\ (run_due_polls e wo d).1 = d_set_polls (d_polls (run_due_polls e wo d).1) d.
Proof.
  unfold run_due_polls. set (l := (filter _ _).*1).
  pose proof (hush_fold snd (poll_one e wo (d_remotes d) (d_batches d)) l (d_polls d, [])) as Hh.
  destruct (foldl _ _ _) as [polls eff]. cbn [fst snd] in *. split; [|by destruct d]. apply Hh; [|hush].
  intros [p eff'] [b n] H. cbn [snd] in H. unfold poll_one. repeat (case_match; simplify_eq); hush.
Qed.
End rows.

(** *** The arms that mint nothing *)

Section plain_arms.
Context {V : Type} `{!JsonArgs V} `{!JsonNums V} `{!WireRowJson V} `{!FsOps} `{!Sha256}.
Context (cf : Config) (e : Env) (wo : World V).

Ltac moved := split; try reflexivity; try apply w_good_refl.

(** The mirror rows and polls alone. *)
Lemma part_rows d rs polls (eff : list (Effect V)) :
  rs_evolve (d_remotes d) rs -> hush eff -> part d (d_set_remotes rs (d_set_polls polls d), eff).
Proof. intros He Hh. apply part_hush; [moved; exact He|done|exact Hh]. Qed.

Lemma part_outcome d : part d (on_outcome cf e wo d).
Proof. unfold on_outcome. part. Qed.

Lemma part_assign d batch node wids answer : part d (on_assign cf e wo d batch node wids answer).
Proof.
  unfold on_assign. destruct (assign_rows cf e wo d batch node wids answer) as (He & Hh & E).
  destruct (handle_assign_outcome _ _ _ _ _ _ _ _) as [d' eff]. cbn [fst snd] in *.
  apply part_then; [rewrite E; by apply part_rows|apply part_outcome].
Qed.

Lemma part_poll d batch node answer : part d (on_poll cf e wo d batch node answer).
Proof.
  unfold on_poll. destruct (poll_rows cf e wo d batch node answer) as (He & Hh & E).
  destruct (handle_poll_outcome _ _ _ _ _ _ _) as [[d' eff] ch]. cbn [fst snd] in *.
  apply part_then; [rewrite E; by apply part_rows|]. intros d0. apply part_when. intros _ d1. apply part_outcome.
Qed.

Lemma part_cancel d ids rids :
  let '(ws, sh, eff) := @cancel_workers V e (d_workers d) (d_shared d) ids in
  let '(rs, eff') := relay_remote_cancels wo (d_remotes d) rids in
  part d (d_set_remotes rs (d_set_ws (ws, sh) d), eff ++ eff').
Proof.
  pose proof (cancel_workers_good (V := V) e (d_workers d) (d_shared d) ids) as Hg.
  pose proof (cancel_workers_hush (V := V) e (d_workers d) (d_shared d) ids) as Hh.
  destruct (cancel_workers _ _ _ _) as [[ws sh] eff]. destruct (relay_rows wo (d_remotes d) rids) as [He Hh'].
  destruct (relay_remote_cancels _ _ _) as [rs eff']. apply part_hush; [moved; [exact Hg|exact He]|done|by apply hush_app].
Qed.

Lemma part_reply d session call r : speaks (@EReply V session call r) = false -> part d (d, [@EReply V session call r]).
Proof. intros Hr. apply part_hush; [reflexivity|done|]. apply hush_cons; [exact Hr|apply hush_nil]. Qed.

Lemma part_worker_cancel d session call args : part d (on_worker_cancel cf e wo d session call args).
Proof.
  unfold on_worker_cancel, cancel_request. destruct (cancel_targets d args) as [[ids rids]|].
  2: { apply part_then; [by apply part_reply|intros ?; part]. }
  destruct (_ && _); [apply part_then; [by apply part_reply|intros ?; part]|].
  pose proof (part_cancel d ids rids) as Hp. destruct (cancel_workers _ _ _ _) as [[ws sh] eff].
  destruct (relay_remote_cancels _ _ _) as [rs eff']. apply part_then; [|intros d'; part].
  rewrite (app_assoc eff). destruct Hp as [Hm Hs Ha].
  split; [exact Hm| |apply no_acks_app; [exact Ha|by apply no_acks_hush; hush]]. intros id. specialize (Hs id). cbn [fst snd] in *.
  rewrite reports_app, (reports_hush id [_]) by hush. unfold mark in *. lia.
Qed.

Lemma close_mandala_ms (ms : gmap Z MandalaRecord) (ts : Trees) mid :
  ms_evolve ms (@close_mandala V ms ts mid).1.1.
Proof.
  unfold close_mandala. destruct (tree_cell ts mid ROOT) as [root|]; [destruct (is_open_state _); [destruct (update_cell _ _ _ _)|]|];
    by apply ms_evolve_alter.
Qed.

Lemma part_mandala_close d session call args : part d (@on_mandala_close V _ _ d session call args).
Proof.
  unfold on_mandala_close. pose proof (close_request_hush (V := V) (d_mandalas d) (d_trees d) session call args) as Hh.
  assert (ms_evolve (d_mandalas d) (close_mandala_request (d_mandalas d) (d_trees d) session call args).1.1.1 /\
          trees_evolve (d_trees d) (close_mandala_request (d_mandalas d) (d_trees d) session call args).1.1.2) as [Hm Ht].
  { unfold close_mandala_request. destruct (is_worker_session _); [done|]. destruct (arg_u64 _ _) as [mid|]; [|done].
    destruct (d_mandalas d !! mid); [|done]. destruct (bool_decide _); [done|]. destruct (negb _); [done|].
    pose proof (close_mandala_ms (d_mandalas d) (d_trees d) mid) as Hm.
    pose proof (close_mandala_evolve (V := V) (d_mandalas d) (d_trees d) mid) as Ht. by destruct (close_mandala _ _ _) as [[? ?] ?]. }
  destruct (close_mandala_request _ _ _ _ _) as [[[ms ts] eff] b]. apply part_then; [|intros d'; part].
  apply part_hush; [moved; [exact Ht|exact Hm]|done|exact Hh].
Qed.

Lemma part_report d session call args : part d (on_report cf d session call args).
Proof.
  unfold on_report. pose proof (record_report_good (V := V) cf (d_workers d) (d_shared d) session call args) as Hg.
  pose proof (record_report_hush (V := V) cf (d_workers d) session call args) as Hh.
  destruct (record_report _ _ _ _ _). apply part_hush; [moved; exact Hg|done|exact Hh].
Qed.

Lemma part_turn_complete d session : part d (on_turn_complete cf e wo d session).
Proof.
  unfold on_turn_complete. pose proof (w_advance_good (V := V) cf e (d_workers d) (d_shared d) (d_trees d) (d_index d) session) as Hg.
  pose proof (advance_hush (V := V) cf e (d_workers d) (d_shared d) (d_trees d) (d_index d) session) as Hh.
  pose proof (advance_evolve (V := V) cf e (d_workers d) (d_shared d) (d_trees d) (d_index d) session) as Ht.
  destruct (advance _ _ _ _ _ _ _) as [[[[ws sh] trees] eff] moved']. cbn [fst snd] in *.
  apply part_then; [apply part_hush; [moved; [exact Hg|exact Ht]|done|exact Hh]|intros d'; part].
Qed.

Lemma part_workers d ws (eff : list (Effect V)) (b : bool) :
  good_op (d_workers d) (d_shared d) ws (d_shared d) -> hush eff -> part d ((d_set_workers ws d, eff) >>> when b (do_save wo)).
Proof. intros Hg Hh. apply part_then; [apply part_hush; [moved; exact Hg|done|exact Hh]|intros; part]. Qed.

Lemma part_blocked d session tool : part d (on_blocked wo d session tool).
Proof.
  unfold on_blocked. pose proof (block_good (V := V) (d_workers d) (d_shared d) session tool) as Hg.
  pose proof (block_hush (V := V) (d_workers d) session tool) as Hh.
  destruct (block_on_approval _ _ _) as [[ws eff] b]. by apply part_workers.
Qed.

Lemma part_approved d session : part d (on_approved e wo d session).
Proof.
  unfold on_approved. pose proof (w_resume_good (V := V) e (d_workers d) (d_shared d) session) as Hg.
  pose proof (resume_hush (V := V) e (d_workers d) session) as Hh.
  destruct (resume_from_approval _ _ _) as [[ws eff] b]. by apply part_workers.
Qed.

Lemma part_woken d session : part d (@on_woken V e session d).
Proof.
  unfold on_woken. destruct (find_worker _ _) as [[wid w]|]; [|apply part_skip].
  pose proof (record_override_evolve (V := V) (d_trees d) (d_index d) wid) as Ht.
  pose proof (record_override_hush (V := V) (d_trees d) (d_index d) wid) as Hh.
  destruct (record_override _ _ _) as [t eff]. cbn [fst snd] in *.
  apply part_then; [apply part_hush; [moved; exact Ht|done|exact Hh]|]. clear. intros d. unfold open_episode.
  destruct (d_workers d !! wid) as [w'|] eqn:Ew; [|apply part_skip]. destruct (_ && _); [|apply part_skip].
  apply part_hush; [moved|done|hush]. apply (good_quiet _ _ _ w'); [done|by apply quiet_evolves].
Qed.

Lemma part_prompt d session : part d (on_prompt e wo d session).
Proof.
  unfold on_prompt. pose proof (wake_good (V := V) e (d_workers d) (d_shared d) session) as Hg.
  pose proof (wake_hush (V := V) e (d_workers d) (d_shared d) session) as Hh.
  destruct (wake_on_send _ _ _ _) as [[[ws sh] eff] b]. cbn [fst snd] in *.
  apply part_then; [apply part_hush; [moved; exact Hg|done|exact Hh]|]. intros d'. apply part_when. intros _ d''.
  apply part_then; [apply part_woken|intros; part].
Qed.

Lemma part_error d session : part d (@on_error V d session).
Proof. apply part_hush; [moved; apply mark_errored_good|done|hush]. Qed.

Lemma part_cascade d parent : part d (cascade cf e wo d parent).
Proof.
  unfold cascade. destruct (_ && _); [apply part_skip|].
  match goal with |- context [cancel_workers _ _ _ ?a] => match goal with |- context [relay_remote_cancels _ _ ?b] =>
    pose proof (part_cancel d a b) as Hp end end.
  destruct (cancel_workers _ _ _ _) as [[ws sh] eff]. destruct (relay_remote_cancels _ _ _) as [rs eff']. part.
Qed.

Lemma part_close d parent : part d (@do_close V parent d).
Proof.
  unfold do_close. pose proof (try_close_hush (V := V) (d_mandalas d) (d_trees d) parent) as Hh.
  assert (ms_evolve (d_mandalas d) (@try_close_for_conductor V (d_mandalas d) (d_trees d) parent).1.1.1 /\
          trees_evolve (d_trees d) (@try_close_for_conductor V (d_mandalas d) (d_trees d) parent).1.1.2) as [Hm Ht].
  { unfold try_close_for_conductor. cbn [fst]. split.
    - apply (fold_evolves ms_evolve (fun s : gmap Z MandalaRecord * gmap Z Cells * list (Effect V) => s.1.1) _ _ (_, _, [])).
      intros [[ms ts] eff] mid. pose proof (close_mandala_ms ms ts mid). by destruct (close_mandala ms ts mid) as [[? ?] ?].
    - apply (fold_evolves trees_evolve (fun s : gmap Z MandalaRecord * gmap Z Cells * list (Effect V) => s.1.2) _ _ (_, _, [])).
      intros [[ms ts] eff] mid. pose proof (close_mandala_evolve (V := V) ms ts mid). by destruct (close_mandala ms ts mid) as [[? ?] ?]. }
  destruct (try_close_for_conductor _ _ _) as [[[ms ts] eff] b]. apply part_then; [|intros d'; part].
  apply part_hush; [moved; [exact Ht|exact Hm]|done|exact Hh].
Qed.

Lemma part_goal_state d state parent : part d (on_goal_state cf e wo d state parent).
Proof.
  destruct state; try apply part_skip; try apply part_close. apply part_then; [apply part_cascade|intros; apply part_close].
Qed.

Lemma part_spawn d parent : part d (@on_spawn V e d parent).
Proof.
  unfold on_spawn. pose proof (pb1_hush (V := V) e (d_spawn_log d) parent) as Hh. destruct (pb1_track _ _ _).
  apply part_hush; [moved|done|exact Hh].
Qed.

Lemma part_council d id synthesis : part d (@on_council V d id synthesis).
Proof.
  unfold on_council. assert (ms_evolve (d_mandalas d) (bank_synthesis (d_mandalas d) id synthesis).1) as Hm.
  { unfold bank_synthesis. destruct (negb _); [done|]. destruct (council_mandala id) as [mid|]; [|done].
    destruct (d_mandalas d !! mid) as [m|] eqn:E; [|done]. case_bool_decide; [|done]. by eapply ms_evolve_insert. }
  destruct (bank_synthesis _ _ _) as [ms b]. apply part_then; [apply part_hush; [moved; exact Hm|done|hush]|intros; part].
Qed.
End plain_arms.

(** *** The tick *)

Section tick.
Context {V : Type} `{!JsonArgs V} `{!JsonNums V} `{!WireRowJson V} `{!FsOps} `{!Sha256}.
Context (cf : Config) (e : Env) (wo : World V).

Ltac moved := split; try reflexivity; try apply w_good_refl.

Lemma good_alter_quiet ws sh wid f :
  (forall w, evolves w (f w) /\ active (f w) = active w) -> good_op ws sh (alter f wid ws) sh.
Proof.
  intros Hf. destruct (ws !! wid) as [w|] eqn:Ew.
  - assert (alter f wid ws = <[wid := f w]> ws) as ->; [|by apply (good_quiet _ _ _ w)].
    apply map_eq. intros i. destruct (decide (i = wid)) as [->|Hne].
    + by rewrite lookup_alter_eq, lookup_insert_eq, Ew.
    + by rewrite lookup_alter_ne, lookup_insert_ne.
  - assert (alter f wid ws = ws) as ->; [|apply w_good_refl].
    apply map_eq. intros i. destruct (decide (i = wid)) as [->|Hne]; [by rewrite lookup_alter_eq, Ew|by rewrite lookup_alter_ne].
Qed.

Lemma part_review d0 s wid : part d0 s.1 -> part d0 (@review_one V cf e s wid).1.
Proof.
  destruct s as [[d eff] fl]. intros Hp. unfold review_one. destruct (d_workers d !! wid) as [w|] eqn:Ew; [|done].
  destruct (if w_barrier_held w then _ else _) as [br bd].
  pose proof (remediate_good (V := V) cf e (d_workers d) (d_shared d) wid w br (batch_deadline_ok e (d_batches d) (w_batch w)) Ew) as Hg.
  cbv zeta in Hg. destruct (build_review cf e w br _) as [p wd]. cbn [fst snd] in Hg.
  pose proof (remediate_hush (V := V) e (d_workers d) (d_shared d) wid w (review p wd)) as Hh.
  destruct (remediate _ _ _ _ _ _) as [[ws sh] eff']. cbn [fst snd] in *.
  assert (part d (d_set_ws (alter (fun w => schedule_next_review cf e w p wd bd) wid ws, sh)
    (d_set_censuses (match d_index d !! wid with Some (mid, _) => bump_census mid (census_key p wd) (d_censuses d) | None => d_censuses d end) d), eff')) as Hp'.
  { apply part_hush; [moved|done|exact Hh]. eapply good_trans; [exact Hg|]. apply good_alter_quiet. intros w'. apply schedule_quiet. }
  destruct Hp as [Hm Hs Ha], Hp' as [Hm' Hs' Ha']. split; [by etrans| |by apply no_acks_app].
  intros id. specialize (Hs id). specialize (Hs' id). cbn [fst snd] in *. rewrite reports_app. lia.
Qed.

Lemma part_reviews d0 s l : part d0 s.1 -> part d0 (foldl (@review_one V cf e) s l).1.
Proof. revert s. induction l as [|x l IH]; intros s Hs; [done|]. cbn [foldl]. apply IH. by apply part_review. Qed.

Lemma roll_ms rf (ms : gmap Z MandalaRecord) trees rs cs nx :
  ms_evolve ms (es_mandalas (@roll_due_epochs V _ e rf ms trees rs cs nx)).
Proof.
  apply (fold_evolves ms_evolve es_mandalas _ _ (mkEpochs ms cs nx [] false)).
  intros s mid. unfold roll_one. destruct (es_next s !! mid) as [t|]; [|reflexivity]. destruct (_ <? _); [reflexivity|].
  destruct (es_mandalas s !! mid) as [m|] eqn:E; [|reflexivity]. destruct (_ =? 0); [reflexivity|]. by eapply ms_evolve_insert.
Qed.

Lemma part_polls d : part d (do_polls e wo d).
Proof.
  unfold do_polls. destruct (polls_hush e wo d) as [Hh E]. destruct (run_due_polls e wo d) as [d' eff]. cbn [fst snd] in *.
  rewrite E. apply part_hush; [moved|done|exact Hh].
Qed.

Lemma part_epochs d : part d (do_epochs e wo d).
Proof.
  unfold do_epochs. apply part_then; [|intros; part].
  apply part_hush; [moved; apply roll_ms|done|apply roll_hush].
Qed.

Lemma part_tick d : part d (on_tick cf e wo d).
Proof.
  unfold on_tick.
  pose proof (part_reviews d (d, [], mkFlags false false false false) (due_reviews e d) (part_skip d)) as Hp.
  destruct (foldl _ _ _) as [[d' eff] fl]. cbn [fst] in Hp.
  apply part_then; [|apply part_epochs]. apply part_then; [|apply part_polls]. part.
Qed.
End tick.

(** ** The invariant of the driver *)

(** Sessions and shared maps, ids below the counters, trees in their geometry,
    mandalas below theirs. *)
Record driver_ok (d : Driver) : Prop := mkDriverOk {
  dv_ids : ids_ok d;
  dv_trees : trees_known d;
  dv_next mid : d_next_mandala d <= mid -> d_mandalas d !! mid = None /\ tree_at (d_trees d) mid = ∅
}.

(** Enough ids are left for one more request. *)
Definition has_room (d : Driver) : Prop :=
  room 64 (d_ids d) /\ 0 <= d_next_mandala d /\ d_next_mandala d + 1 < 2 ^ 64.

Lemma cells_evolve_empty t : cells_evolve ∅ t -> t = ∅.
Proof. intros H. apply map_eq. intros a. specialize (H a). rewrite lookup_empty in *. by destruct (t !! a). Qed.

Lemma moves_ok d d' : moves d d' -> driver_ok d -> driver_ok d'.
Proof.
  intros [Hg Hb Hr Ht Hm Hi Hn] [[[P1 P2 P3 P4] Hl] [Hok Hk] Hnx]. destruct (Hg P1 P2) as [He Hs]. split.
  - unfold ids_ok. rewrite Hi. split; [split|].
    + by eapply sessions_ok_evolves.
    + done.
    + intros id w Hw. destruct (ws_evolves_Some_inv _ _ _ _ He Hw) as (w0 & Hw0 & E).
      rewrite (ev_session _ _ E), (ev_batch _ _ E). by apply P3.
    + intros id r Hr'. specialize (Hr id). rewrite Hr' in Hr. destruct (d_remotes d !! id) as [r0|] eqn:E; [|done].
      destruct Hr as (-> & _). by apply P4 in E.
    + intros id b Hb'. specialize (Hb id). rewrite Hb' in Hb. destruct (d_batches d !! id) eqn:E; [|done]. by eapply Hl.
  - split.
    + intros mid. destruct (trees_evolve_ok _ _ _ Ht Hok mid) as [Hwf Ho]. split; [done|]. intros m Hm'.
      specialize (Hm mid). rewrite Hm' in Hm. destruct (d_mandalas d !! mid) as [m0|] eqn:E; [|done].
      destruct Hm as [-> _]. by apply Ho.
    + intros k m Hm'. specialize (Hm k). rewrite Hm' in Hm. destruct (d_mandalas d !! k) as [m0|] eqn:E; [|done].
      destruct Hm as [_ ->]. by apply Hk.
  - intros mid. rewrite Hn. intros Hlt. destruct (Hnx mid Hlt) as [E1 E2]. split.
    + specialize (Hm mid). rewrite E1 in Hm. by destruct (d_mandalas d' !! mid).
    + apply cells_evolve_empty. rewrite <- E2. apply Ht.
Qed.

(** What one step guarantees. *)
Record stepped {V} (d : Driver) (r : Driver * list (Effect V)) : Prop := mkStepped {
  st_ok : driver_ok r.1;
  st_workers : survive (d_workers d) (d_workers r.1);
  st_says : says d r;
  st_durable : durable r.2
}.

Section stepped.
Context {V : Type}.

Lemma survive_evolves ws ws' ws'' : survive ws ws' -> ws_evolves ws' ws'' -> survive ws ws''.
Proof.
  intros Hs He id w Hw. destruct (Hs id w Hw) as (w' & Hw' & E). destruct (ws_evolves_Some _ _ _ _ He Hw') as (w'' & Hw'' & E').
  exists w''. split; [done|]. by etrans.
Qed.

Lemma survive_refl ws : survive ws ws.
Proof. intros id w Hw. by exists w. Qed.

Lemma part_evolves d (r : Driver * list (Effect V)) : driver_ok d -> part d r -> ws_evolves (d_workers d) (d_workers r.1).
Proof. intros [[[P1 P2 _ _] _] _ _] [[Hg _ _ _ _ _ _] _ _]. by apply (Hg P1 P2). Qed.

Lemma part_stepped d (r : Driver * list (Effect V)) : driver_ok d -> part d r -> stepped d r.
Proof.
  intros Hok Hp. split.
  - eapply moves_ok; [|done]. apply Hp.
  - eapply survive_evolves; [apply survive_refl|by apply part_evolves].
  - apply Hp.
  - apply durable_no_acks, Hp.
Qed.

Lemma stepped_then d (s : Driver * list (Effect V)) f : stepped d s -> part s.1 (f s.1) -> stepped d (s >>> f).
Proof.
  intros [Ho Hs Hy Hd] Hp. split; cbn [and_then fst snd].
  - eapply moves_ok; [|done]. apply Hp.
  - eapply survive_evolves; [done|by apply part_evolves].
  - intros id. specialize (Hy id). pose proof (pt_says _ _ Hp id). cbn [and_then fst snd]. rewrite reports_app. lia.
  - apply durable_app; [done|]. apply durable_no_acks, Hp.
Qed.

Lemma hush_stepped d d' (eff : list (Effect V)) :
  driver_ok d' -> d_workers d' = d_workers d -> d_batches d' = d_batches d -> hush eff -> stepped d (d', eff).
Proof.
  intros Ho Hw Hb Hh. split; cbn [fst snd]; [done|rewrite Hw; apply survive_refl| |by apply durable_no_acks, no_acks_hush].
  intros id. cbn [fst snd]. rewrite (reports_hush id eff Hh). unfold mark. rewrite Hb. lia.
Qed.

Lemma fanned_stepped d d' (eff : list (Effect V)) : driver_ok d -> fanned d d' eff -> stepped d (d', eff).
Proof.
  intros Hok [F1 F2 F3 F4 (T1 & T2 & T3) F5 F6]. split; cbn [fst snd]; [|done| |done].
  - destruct Hok as [_ Hk Hn]. split; [done|unfold trees_known|]; rewrite ?T1, ?T2, ?T3; done.
  - intros id. cbn [fst snd]. rewrite F6. unfold mark. destruct (d_batches d !! id) as [b|] eqn:E.
    + rewrite (F3 _ _ E). lia.
    + destruct (d_batches d' !! id) as [b|] eqn:E'; [|lia]. destruct (F4 _ _ E') as [?|[_ ->]]; [congruence|]. cbn. lia.
Qed.
End stepped.

(** *** The arms that mint *)

Section mint_arms.
Context {V : Type} `{!JsonArgs V} `{!JsonNums V} `{!WireRowJson V} `{!FsOps} `{!Sha256}.
Context (cf : Config) (e : Env) (wo : World V).

Lemma stepped_trans d (s : Driver * list (Effect V)) f : stepped d s -> stepped s.1 (f s.1) -> stepped d (s >>> f).
Proof.
  intros [Ho Hs Hy Hd] [Ho' Hs' Hy' Hd']. split; cbn [and_then fst snd]; [done| | |by apply durable_app].
  - intros id w Hw. destruct (Hs id w Hw) as (w' & Hw' & E). destruct (Hs' id w' Hw') as (w'' & Hw'' & E').
    exists w''. split; [done|]. by etrans.
  - intros id. specialize (Hy id). specialize (Hy' id). cbn [and_then fst snd]. rewrite reports_app. lia.
Qed.

Lemma stepped_refuse d d' (eff : list (Effect V)) session call :
  driver_ok d -> same_books d d' -> ids_ok d' -> only_refuses session call eff -> stepped d (d', eff).
Proof.
  intros [_ Hk Hn] Hs Hids (why & He). apply hush_stepped.
  - rewrite Hs in Hids |- *. by split.
  - by rewrite Hs.
  - by rewrite Hs.
  - destruct He as [->|(t & ->)]; hush.
Qed.

(** Binding the cells of a planned fan. *)
Lemma stepped_bind d session args tasks inline caller ctx wids :
  driver_ok d -> parse_tasks args = Ok tasks ->
  prepare_mandala_cells (d_mandalas d) (d_trees d) session args tasks inline caller = Ok (Some ctx) ->
  length wids = length (cc_plans ctx) ->
  stepped d (let '(trees, index, eff) := @bind_cells V (e_epoch e) (d_trees d) (d_index d) ctx wids in
             (d_set_trees trees (d_set_index index d), eff)).
Proof.
  intros [Hids [Hok Hk] Hnx] Hp Hprep Hl.
  pose proof (bind_trees_ok (d_mandalas d) (d_trees d) (d_index d) session args tasks inline caller ctx (e_epoch e) wids Hok Hk Hp Hprep Hl) as Hb.
  pose proof (bind_cells_hush (V := V) (e_epoch e) (d_trees d) (d_index d) ctx wids) as Hh.
  destruct (bind_cells_arm (V := V) (e_epoch e) (d_trees d) (d_index d) ctx wids) as (_ & He & _).
  destruct (bind_fold (V := V) (e_epoch e) ctx (zip (cc_plans ctx) wids) (d_trees d) (d_index d) []) as [Hat _].
  destruct (bind_cells _ _ _ _ _) as [[trees index] eff]. cbn [fst snd] in *. apply hush_stepped; [|done|done|exact Hh].
  split; [done|done|]. intros mid Hlt. destruct (Hnx mid Hlt) as [E1 E2]. split; [done|]. cbn [d_trees d_set_trees d_set_index].
  apply cells_evolve_empty. rewrite <- E2. specialize (He mid). rewrite Hat in He. rewrite decide_False in He; [done|].
  intros ->. apply parse_tasks_length in Hp. apply prepare_ok in Hprep as (m & _ & Hm & _); [|done|done|lia]. congruence.
Qed.

Lemma stepped_fanout d session call args :
  driver_ok d -> room 64 (d_ids d) -> stepped d (on_fanout cf e wo d session call args).
Proof.
  intros Hok Hr. pose proof (fanout_outcome cf e wo d session call args) as Ho. cbv zeta in Ho.
  specialize (Ho (dv_ids _ Hok) (dv_trees _ Hok) Hr). unfold on_fanout.
  destruct (fanout cf e wo d session call args) as [[d1 eff] [[ctx wids]|]]; cbn [fst snd] in Ho.
  2: { destruct Ho as (Hs & Hi & He). by eapply stepped_refuse. }
  destruct Ho as (Hf & Hix & inline & tasks & Hreq & Hlen). pose proof (fn_trees _ _ _ Hf) as (T1 & T2 & T3).
  assert (stepped d (d1, eff)) as Hs by by apply fanned_stepped.
  apply stepped_then; [apply stepped_then; [apply stepped_then; [apply stepped_trans; [exact Hs|]|]|]|]; cbn [fst]; try part.
  apply fanout_request_ok in Hreq as (Hp & caller & Hprep).
  destruct ctx as [c|]; [|apply part_stepped; [apply Hs|apply part_skip]].
  rewrite <- T1, <- T2 in Hprep. eapply stepped_bind; [apply Hs|done|exact Hprep|exact Hlen].
Qed.

(** A creation is refused, or roots a tree at the next number. *)
Lemma create_cases (ms : gmap Z MandalaRecord) trees next session call args :
  let r := create_mandala cf e ms trees next session call args in
  r.1 = (ms, trees, next) \/
  exists m objective hash, md_id m = next /\ bv_cells (md_budget m) = CELLS_CEIL /\
    r.1 = (<[next := m]> ms, put_cell trees next (root_cell (e_epoch e) objective hash (md_budget m)), as_u64 (next + 1)).
Proof.
  unfold create_mandala. destruct (arg_trimmed args (chars "objective")) as [o|]; [|by left].
  destruct (arg_trimmed args (chars "done_when")) as [dw|]; [|by left].
  destruct (arg_trimmed args (chars "verify")) as [v|]; [|by left].
  destruct (is_worker_session session); [by left|].
  destruct (match arg_str _ _ with None => _ | Some _ => _ end) as [lat|]; [|by left].
  destruct (match arg_trimmed args _ with None => _ | Some _ => _ end) as [repo|]; [|by left].
  right. by exists (mkMandala next session lat (mandala_budget args) (Invariant_new o dw v) (chars "open") repo (e_epoch e) 0 None ∅ 0
    None None None), o, (inv_hash (Invariant_new o dw v)).
Qed.

Lemma create_ok d m objective hash :
  driver_ok d -> has_room d -> md_id m = d_next_mandala d -> bv_cells (md_budget m) = CELLS_CEIL ->
  driver_ok (d_set_mandalas (<[d_next_mandala d := m]> (d_mandalas d))
    (d_set_trees (put_cell (d_trees d) (d_next_mandala d) (root_cell (e_epoch e) objective hash (md_budget m)))
      (d_set_next_mandala (as_u64 (d_next_mandala d + 1)) d))).
Proof.
  intros [Hids [Hok Hk] Hnx] (Hr & Hn0 & Hn1) Hid Hb. destruct (Hnx (d_next_mandala d)) as [E1 E2]; [lia|]. split; [done|split|].
  - intros mid. cbn [d_mandalas d_trees d_set_mandalas d_set_trees]. unfold put_cell, tree_at.
    destruct (decide (mid = d_next_mandala d)) as [->|Hne].
    + rewrite !lookup_insert_eq. cbn [default]. change (default ∅ (d_trees d !! d_next_mandala d)) with (tree_at (d_trees d) (d_next_mandala d)).
      rewrite E2, insert_empty. split.
      * apply map_Forall_singleton. split; [done|]. vm_compute. done.
      * intros m' [= <-]. rewrite Hb, open_cells_count.
        etrans; [apply count_map_le|]. unfold id. rewrite map_size_singleton. done.
    + rewrite !lookup_insert_ne by done. apply Hok.
  - intros k m'. cbn [d_mandalas d_set_mandalas]. intros [[<- <-]|[_ Hm]]%lookup_insert_Some; [done|by apply Hk].
  - intros mid. cbn [d_next_mandala d_mandalas d_trees d_set_mandalas d_set_trees d_set_next_mandala].
    rewrite as_u64_small by lia. intros Hlt. destruct (Hnx mid) as [F1 F2]; [lia|]. unfold put_cell, tree_at.
    rewrite !lookup_insert_ne by lia. done.
Qed.

Lemma stepped_create d session call args :
  driver_ok d -> has_room d -> stepped d (on_mandala_create cf e d session call args).
Proof.
  intros Hok Hr. unfold on_mandala_create.
  pose proof (create_mandala_hush (V := V) cf e (d_mandalas d) (d_trees d) (d_next_mandala d) session call args) as Hh.
  pose proof (create_cases (d_mandalas d) (d_trees d) (d_next_mandala d) session call args) as Hc. cbv zeta in Hc.
  destruct (create_mandala _ _ _ _ _ _ _ _) as [[[ms ts] next] eff]. cbn [fst snd] in *.
  apply stepped_then; [|part]. destruct Hc as [[= -> -> ->]|(m & o & h & H1 & H2 & [= -> -> ->])].
  - apply hush_stepped; [by destruct d|done..].
  - apply hush_stepped; [by apply create_ok|done..].
Qed.
End mint_arms.

(** *** Requests of peers, and the step *)

Section step.
Context {V : Type} `{!JsonArgs V} `{!JsonNums V} `{!WireRowJson V} `{!FsOps} `{!Sha256}.
Context (cf : Config) (e : Env) (wo : World V).

Ltac moved := split; try reflexivity; try apply w_good_refl.

Lemma part_unchanged d (eff : list (Effect V)) : hush eff -> part d (d, eff).
Proof. intros Hh. by apply part_hush. Qed.

Lemma part_host_query d q : part d (host_query cf wo d q).1.
Proof. unfold host_query. destruct (arg_u64 _ _) as [b|]; [destruct (negb _)|]; apply part_unchanged; hush. Qed.

Lemma part_host_cancel d q : part d (host_cancel cf e d q).1.
Proof.
  unfold host_cancel. destruct (arg_u64 _ _) as [b|]; [|apply part_unchanged; hush].
  destruct (negb _); [apply part_unchanged; hush|]. set (ids := (filter _ _).*1).
  destruct (bool_decide (ids = [])); [apply part_unchanged; hush|].
  pose proof (cancel_workers_good (V := V) e (d_workers d) (d_shared d) ids) as Hg.
  pose proof (cancel_workers_hush (V := V) e (d_workers d) (d_shared d) ids) as Hh.
  destruct (cancel_workers _ _ _ _) as [[ws sh] eff]. cbn [fst snd] in *.
  pose proof (admit_queued_good (V := V) cf e ws sh) as Hg'. pose proof (admit_hush (V := V) cf e ws sh) as Hh'.
  destruct (admit_queued _ _ _ _) as [[ws' sh'] eff']. cbn [fst snd] in *.
  apply part_hush; [moved; by eapply good_trans|done|hush].
Qed.

Lemma part_receive d q : part d (receive_report cf e wo d q).1.
Proof.
  unfold receive_report. destruct (arg_u64 _ _) as [b|]; [|apply part_unchanged; hush].
  destruct (negb _); [apply part_unchanged; hush|].
  destruct (wire_rows cf wo (d_remotes d) b (mq_from q) (parse_rows (mq_body q))) as [He Hh].
  destruct (apply_wire_rows _ _ _ _ _ _) as [[rs eff] ch]. apply part_rows; [exact He|hush].
Qed.

Lemma stepped_hosted d d' (eff : list (Effect V)) :
  driver_ok d -> d' = d_set_ids (d_ids d') (d_set_hops (d_hops d') (d_set_seq (d_seq d') d)) -> ids_ok d' -> hush eff ->
  stepped d (d', eff).
Proof. intros [_ Hk Hn] Hs Hids Hh. apply hush_stepped; [|by rewrite Hs..|done]. rewrite Hs in Hids |- *. by split. Qed.

Lemma stepped_mesh d q : driver_ok d -> room 64 (d_ids d) -> stepped d (on_mesh cf e wo d q).
Proof.
  intros Hok Hr. unfold on_mesh.
  assert (stepped d (handle_mesh_req cf e wo d q).1) as Hs.
  { unfold handle_mesh_req. destruct (mq_kind q).
    - pose proof (host_outcome cf e wo d q (dv_ids _ Hok) Hr) as Ho. cbv zeta in Ho.
      destruct (host_fanout cf e wo d q) as [[d1 eff] saved]. cbn [fst snd] in *. destruct saved.
      + by apply fanned_stepped.
      + destruct Ho as (H1 & H2 & H3). by apply stepped_hosted.
    - apply part_stepped; [done|apply part_host_query].
    - apply part_stepped; [done|apply part_host_cancel].
    - apply part_stepped; [done|apply part_receive]. }
  destruct (handle_mesh_req _ _ _ _ _) as [[d1 eff] saved]. apply stepped_then; [exact Hs|]. cbn [fst].
  apply part_when. intros _ d'. part.
Qed.

(** Any input. *)
Lemma step_stepped d i : driver_ok d -> has_room d -> stepped d (driver_step cf e wo d i).
Proof.
  intros Hok Hr. assert (stepped d (d, @nil (Effect V))) as Hskip by (apply part_stepped; [done|apply part_skip]).
  destruct i as [session call tool args|q|b n ws a|b n a|s|s t|s|s|[s|]|st [p|]|p|c s|]; cbn [driver_step]; try exact Hskip;
    try (destruct (is_worker_session s); [|exact Hskip]).
  3-13: (apply part_stepped; [done|]).
  - unfold on_request. destruct (bool_decide _); [apply stepped_fanout; [done|apply Hr]|].
    destruct (bool_decide _); [apply part_stepped; [done|apply part_mandala_close]|].
    destruct (bool_decide _); [by apply stepped_create|].
    destruct (bool_decide _); [apply part_stepped; [done|by apply part_reply]|].
    destruct (bool_decide _); [apply part_stepped; [done|apply part_report]|].
    destruct (bool_decide _); [apply part_stepped; [done|apply part_worker_cancel]|].
    destruct (bool_decide _); [apply part_stepped; [done|by apply part_reply]|done].
  - apply stepped_mesh; [done|apply Hr].
  - apply part_assign.
  - apply part_poll.
  - apply part_turn_complete.
  - apply part_blocked.
  - apply part_approved.
  - apply part_prompt.
  - apply part_error.
  - apply part_goal_state.
  - apply part_spawn.
  - apply part_council.
  - apply part_tick.
Qed.
End step.

(** ** Runs *)

(** What the outside brings to a step. *)
Record Turn (V : Type) := mkTurn { tn_env : Env; tn_world : World V; tn_input : Input V }.
Arguments mkTurn {V}. Arguments tn_env {V}. Arguments tn_world {V}. Arguments tn_input {V}.

Section runs.
Context {V : Type} `{!JsonArgs V} `{!JsonNums V} `{!WireRowJson V} `{!FsOps} `{!Sha256}.
Context (cf : Config).

(** The state and the effects after a list of turns. *)
Fixpoint run (d : Driver) (ts : list (Turn V)) : Driver * list (Effect V) :=
  match ts with
  | [] => (d, [])
  | t :: ts => driver_step cf (tn_env t) (tn_world t) d (tn_input t) >>> fun d => run d ts
  end.

(** Ids are left before every turn. *)
Fixpoint roomy (d : Driver) (ts : list (Turn V)) : Prop :=
  match ts with
  | [] => True
  | t :: ts => has_room d /\ roomy (driver_step cf (tn_env t) (tn_world t) d (tn_input t)).1 ts
  end.

Lemma stepped_refl d : driver_ok d -> stepped d (d, @nil (Effect V)).
Proof. intros Hok. apply part_stepped; [done|apply part_skip]. Qed.

Lemma run_stepped d ts : driver_ok d -> roomy d ts -> stepped d (run d ts).
Proof.
  revert d. induction ts as [|t ts IH]; intros d Hok Hr; [by apply stepped_refl|]. destruct Hr as [Hroom Hr].
  cbn [run]. pose proof (step_stepped cf (tn_env t) (tn_world t) d (tn_input t) Hok Hroom) as Hs.
  apply stepped_trans; [exact Hs|]. apply IH; [apply Hs|done].
Qed.

(** C1: The life of a worker, over any run: it is never forgotten, it keeps its
    batch, parent, session, grant and model, its state moves along the edges of
    the state machine, and once it is terminal it stays as it ended. *)
Theorem worker_lifecycle (d : Driver) (ts : list (Turn V)) (id : Z) (w : Worker) :
  driver_ok d -> roomy d ts -> d_workers d !! id = Some w ->
  exists w', d_workers (run d ts).1 !! id = Some w' /\ evolves w w' /\
    (is_terminal (w_state w) = true -> w_state w' = w_state w).
Proof.
  intros Hok Hr Hw. destruct (st_workers _ _ (run_stepped d ts Hok Hr) id w Hw) as (w' & Hw' & He).
  exists w'. split_and!; [done..|]. intros Ht. apply rtc_edge_terminal; [apply He|done].
Qed.

(** C15: Over any run sessions stay distinct worker sessions, a worker session
    auto-approves only while a resident worker with an inherited grant has it,
    the pinned models are those of the resident workers, and every mandala tree
    is well formed and inside its cell budget. *)
Theorem residency_is_mirrored (d : Driver) (ts : list (Turn V)) :
  driver_ok d -> roomy d ts ->
  let d' := (run d ts).1 in
  sessions_ok (d_workers d') /\ shared_ok (d_workers d') (d_shared d') /\ trees_ok (d_mandalas d') (d_trees d').
Proof. intros Hok Hr. destruct (st_ok _ _ (run_stepped d ts Hok Hr)) as [[[H1 H2 _ _] _] [H3 _] _]. done. Qed.

(** C2: Over any run a batch is reported at most once, never if it was reported
    before, and exactly when the run marks it reported. *)
Theorem batch_reported_once (d : Driver) (ts : list (Turn V)) (id : Z) :
  driver_ok d -> roomy d ts ->
  let r := run d ts in
  0 <= reports id r.2 <= 1 /\ (mark d id = 1 -> reports id r.2 = 0) /\ (reports id r.2 = 1 <-> mark d id = 0 /\ mark r.1 id = 1).
Proof.
  intros Hok Hr r. pose proof (st_says _ _ (run_stepped d ts Hok Hr) id) as Hs. fold r in Hs.
  pose proof (zlen_nonneg (List.filter (is_report id) r.2)) as Hp. fold (reports id r.2) in Hp.
  assert (forall d, mark d id = 0 \/ mark d id = 1) as Hb.
  { intros d0. unfold mark. destruct (d_batches d0 !! id) as [b|]; [destruct (b_reported b)|]; auto. }
  destruct (Hb d), (Hb r.1); lia.
Qed.

(** C8: Every acknowledgement of a fan, to a conductor or to a peer, comes after
    the ledger transaction that holds each local worker it names, with its open
    batch. *)
Theorem ack_is_durable (d : Driver) (ts : list (Turn V)) (pre post : list (Effect V)) (f : Effect V) (batch : Z)
    (minted : list (Z * Z)) :
  driver_ok d -> roomy d ts -> (run d ts).2 = pre ++ f :: post -> acked f = Some (batch, minted) ->
  exists t, ETxn true t ∈ pre /\ Forall (on_ledger t batch) minted.
Proof. intros Hok Hr. apply (st_durable _ _ (run_stepped d ts Hok Hr)). Qed.
End runs.

(** ** Nothing due is left *)

Section due.
Context {V : Type} `{!JsonArgs V} `{!JsonNums V} `{!WireRowJson V} `{!FsOps} `{!Sha256}.
Context (cf : Config) (e : Env) (wo : World V).

(** Every batch that is settled or past its deadline is marked. *)
Definition nothing_due (d : Driver) : Prop :=
  forall id b, d_batches d !! id = Some b -> batch_due (e_epoch e) (d_workers d) (d_remotes d) (id, b) = false.

Definition same_ledger (d d' : Driver) : Prop :=
  d_batches d' = d_batches d /\ d_workers d' = d_workers d /\ d_remotes d' = d_remotes d.

Lemma nothing_due_same d d' : same_ledger d d' -> nothing_due d -> nothing_due d'.
Proof. intros (H1 & H2 & H3) Hn id b. rewrite H1, H2, H3. apply Hn. Qed.

Lemma due_then (s : Driver * list (Effect V)) f :
  nothing_due s.1 -> (forall d, same_ledger d (f d).1) -> nothing_due (s >>> f).1.
Proof. intros Hn Hf. by eapply nothing_due_same; [apply Hf|]. Qed.

Lemma when_same (b : bool) (f : Driver -> Driver * list (Effect V)) : (forall d, same_ledger d (f d).1) -> forall d, same_ledger d (when b f d).1.
Proof. intros Hf d. destruct b; [apply Hf|done]. Qed.

Lemma save_same d : same_ledger d (do_save wo d).1.
Proof. done. Qed.

Lemma sync_same d : same_ledger d (@do_sync V cf d).1.
Proof. unfold do_sync. by destruct (sync_cells _ _ _ _). Qed.

Lemma polls_same d : same_ledger d (do_polls e wo d).1.
Proof. unfold do_polls. destruct (polls_hush e wo d) as [_ ->]. done. Qed.

Lemma epochs_same d : same_ledger d (do_epochs e wo d).1.
Proof. unfold do_epochs, when. by destruct (es_dirty _). Qed.

Lemma batches_clear d : nothing_due (do_batches cf e wo d).1.
Proof.
  unfold do_batches. destruct (check_batches_spec cf e (wo_read_doc wo) (d_workers d) (d_remotes d) (d_batches d)) as [Hb _].
  destruct (check_batches _ _ _ _ _ _) as [[[bs eff] home] changed]. cbn [fst snd] in *.
  apply due_then; [apply due_then|done].
  - intros id b'. cbn [fst d_set_batches d_batches d_workers d_remotes]. rewrite Hb.
    destruct (d_batches d !! id) as [b|]; [|done]. cbn. destruct (batch_due _ _ _ (id, b)) eqn:E; [|by intros [= <-]].
    intros [= <-]. unfold batch_due. done.
  - apply when_same. intros d'. apply save_same.
Qed.

Lemma tick_clear d : nothing_due (on_tick cf e wo d).1.
Proof.
  unfold on_tick. destruct (foldl _ _ _) as [[d' eff] fl].
  apply due_then; [|apply epochs_same]. apply due_then; [|apply polls_same].
  apply due_then; [|apply when_same, save_same]. apply due_then; [|apply when_same, sync_same]. apply batches_clear.
Qed.

(** The report is never lost: at the next tick a batch that is not reported is
    reported exactly if by then it is settled or its deadline has passed, and
    a batch past its deadline is reported whatever its workers do. *)
Theorem tick_reports_what_is_due (d : Driver) (id : Z) (b : BatchMeta) :
  driver_ok d -> has_room d -> d_batches d !! id = Some b -> b_reported b = false ->
  let r := driver_step cf e wo d ITick in
  (batch_expired (e_epoch e) b = true -> reports id r.2 = 1) /\
  (reports id r.2 = 0 -> batch_expired (e_epoch e) b = false /\ batch_settled (d_workers r.1) (d_remotes r.1) id = false) /\
  (reports id r.2 = 0 \/ reports id r.2 = 1).
Proof.
  intros Hok Hr Hb Hu r. pose proof (part_tick cf e wo d) as [[_ He _ _ _ _ _] Hs _].
  pose proof (tick_clear d id) as Hd. specialize (Hs id). specialize (He id). cbn [driver_step] in r. fold r in Hs, He, Hd.
  unfold mark in Hs. rewrite Hb in *. rewrite Hu in Hs. destruct (d_batches r.1 !! id) as [b'|]; [|done].
  specialize (Hd b' eq_refl). unfold batch_due in Hd. cbn [fst snd] in Hd.
  assert (batch_expired (e_epoch e) b' = batch_expired (e_epoch e) b) as Hx by by destruct He as [->| ->].
  rewrite Hx in Hd. destruct (b_reported b'); cbn [negb andb Z.b2z] in *.
  - split_and!; [lia..|by right; lia].
  - apply orb_false_iff in Hd as [-> ->]. split_and!; [done|done|left; lia].
Qed.
End due.

(** ** Refusals *)

(** A fan that is refused leaves no trace: whatever the reason, it answers once,
    with the refusal, and workers, mirror rows, batches, trees, mandalas and
    shared maps are as before; a ledger that cannot be written is such a
    reason. *)
Theorem refused_fan_leaves_no_trace {V : Type} `{!JsonArgs V} `{!JsonNums V} (cf : Config) (e : Env) (wo : World V) (d : Driver)
    (session call : Z) (args : V) :
  driver_ok d -> has_room d ->
  let r := fanout cf e wo d session call args in
  (wo_txn_ok wo (sat_add64 (d_seq d) 1) = false -> r.2 = None) /\
  (r.2 = None -> same_books d r.1.1 /\ driver_ok r.1.1 /\ only_refuses session call r.1.2).
Proof.
  intros Hok [Hr _] r. split.
  - intros Hw. unfold r, fanout. destruct (fanout_request cf wo d session args) as [[[inline tasks] ctx]|why]; [|done].
    by rewrite Hw.
  - intros Hn. pose proof (fanout_outcome cf e wo d session call args (dv_ids _ Hok) (dv_trees _ Hok) Hr) as Ho.
    cbv zeta in Ho. fold r in Ho. rewrite Hn in Ho. destruct Ho as (Hs & Hi & He). split_and!; [done| |done].
    destruct Hok as [_ Hk Hx]. rewrite Hs in Hi |- *. by split.
Qed.

(** ** Concrete inputs *)

Lemma toy_driver_ok : driver_ok toy_driver.
Proof.
  split; [split; [split|]|split|].
  - by split.
  - split; cbn.
    + by intros ys s [= <-].
    + intros mm s m [= <-] _. rewrite lookup_empty. split; [done|]. by intros (? & ? & ? & _).
  - done.
  - done.
  - done.
  - intros mid. split; [done|]. by intros m.
  - done.
  - done.
Qed.

(** A turn of the concrete world. *)
Definition toy_turn (epoch : Z) (i : Input Toy) : Turn Toy := mkTurn (toy_env epoch) (toy_world true) i.

(** A fan of two tasks. *)
Definition toy_fan_turn : Turn Toy := toy_turn 1000 (IRequest 7 9 (chars "task_fanout") (toy_fan false)).
Definition toy_fanned : Driver := (run toy_config toy_driver [toy_fan_turn]).1.

Definition room_b (c : Counters) : bool :=
  (0 <=? next_worker_id c) && (next_worker_id c + 64 <? 2 ^ 64) && (0 <=? next_batch_id c) && (next_batch_id c + 64 <? 2 ^ 64)
  && (WORKER_SESSION_BASE <=? next_worker_sid c) && (next_worker_sid c + 64 <=? SPAWN_SESSION_BASE).
Definition has_room_b (d : Driver) : bool :=
  room_b (d_ids d) && (0 <=? d_next_mandala d) && (d_next_mandala d + 1 <? 2 ^ 64).
Lemma has_room_spec d : has_room_b d = true -> has_room d.
Proof. unfold has_room_b, room_b, has_room, room. rewrite !andb_true_iff, !Z.leb_le, !Z.ltb_lt. tauto. Qed.

Ltac roomy := repeat (split; [apply has_room_spec; vm_compute; reflexivity|]); exact I.

Lemma toy_fanned_ok : driver_ok toy_fanned.
Proof. apply (run_stepped toy_config); [exact toy_driver_ok|roomy]. Qed.

(** The first worker ends its turn, the second is cancelled. *)
Definition toy_life : list (Turn Toy) :=
  [toy_turn 1010 (ITurnComplete WORKER_SESSION_BASE);
   toy_turn 1020 (IRequest 7 10 (chars "worker_cancel") (ToyObj [(chars "worker", ToyStr (chars "2"))]));
   toy_turn 1030 ITick].

Definition toy_worker : Worker := default (mint_worker (toy_env 0) 0 0 0 0 [] None false false 0) (d_workers toy_fanned !! 1).

Lemma worker_lifecycle_witness :
  exists w', d_workers (run toy_config toy_fanned toy_life).1 !! 1 = Some w' /\ evolves toy_worker w' /\
    (is_terminal (w_state toy_worker) = true -> w_state w' = w_state toy_worker).
Proof.
  apply (worker_lifecycle toy_config toy_fanned toy_life 1 toy_worker); [exact toy_fanned_ok|roomy|vm_compute; reflexivity].
Defined.

Lemma residency_is_mirrored_witness :
  let d' := (run toy_config toy_fanned toy_life).1 in
  sessions_ok (d_workers d') /\ shared_ok (d_workers d') (d_shared d') /\ trees_ok (d_mandalas d') (d_trees d').
Proof. apply (residency_is_mirrored toy_config toy_fanned toy_life); [exact toy_fanned_ok|roomy]. Defined.

Lemma batch_reported_once_witness :
  let r := run toy_config toy_fanned toy_life in
  reports 1 r.2 = 1 /\
  (0 <= reports 1 r.2 <= 1 /\ (mark toy_fanned 1 = 1 -> reports 1 r.2 = 0) /\ (reports 1 r.2 = 1 <-> mark toy_fanned 1 = 0 /\ mark r.1 1 = 1)).
Proof.
  split; [vm_compute; reflexivity|]. apply (batch_reported_once toy_config toy_fanned toy_life 1); [exact toy_fanned_ok|roomy].
Defined.

Lemma ack_is_durable_witness :
  let l := (run toy_config toy_driver [toy_fan_turn]).2 in
  exists t, ETxn true t ∈ take 3 l /\ Forall (on_ledger t 1) [(1, WORKER_SESSION_BASE); (2, WORKER_SESSION_BASE + 1)].
Proof.
  apply (ack_is_durable toy_config toy_driver [toy_fan_turn] _ (drop 4 (run toy_config toy_driver [toy_fan_turn]).2)
    (EReply 7 9 (Fanned 1 [(1, WORKER_SESSION_BASE); (2, WORKER_SESSION_BASE + 1)] [] 2 0 3600 false []))).
  - exact toy_driver_ok.
  - roomy.
  - vm_compute. reflexivity.
  - reflexivity.
Defined.

Lemma tick_reports_what_is_due_witness :
  let b := mkBatch 7 1000 3600 false None None in
  let r := driver_step toy_config (toy_env 5000) (toy_world true) toy_fanned ITick in
  (batch_expired 5000 b = true -> reports 1 r.2 = 1) /\
  (reports 1 r.2 = 0 -> batch_expired 5000 b = false /\ batch_settled (d_workers r.1) (d_remotes r.1) 1 = false) /\
  (reports 1 r.2 = 0 \/ reports 1 r.2 = 1).
Proof.
  apply (tick_reports_what_is_due toy_config (toy_env 5000) (toy_world true) toy_fanned 1 (mkBatch 7 1000 3600 false None None)).
  - exact toy_fanned_ok.
  - apply has_room_spec. vm_compute. reflexivity.
  - vm_compute. reflexivity.
  - reflexivity.
Defined.

Lemma refused_fan_leaves_no_trace_witness :
  let r := fanout toy_config (toy_env 1000) (toy_world false) toy_driver 7 9 (toy_fan true) in
  (wo_txn_ok (toy_world false) 1 = false -> r.2 = None) /\
  (r.2 = None -> same_books toy_driver r.1.1 /\ driver_ok r.1.1 /\ only_refuses 7 9 r.1.2).
Proof.
  apply (refused_fan_leaves_no_trace toy_config (toy_env 1000) (toy_world false) toy_driver 7 9 (toy_fan true)).
  - exact toy_driver_ok.
  - apply has_room_spec. vm_compute. reflexivity.
Defined.

(** The acknowledgement of a task on a peer comes before the file of the mirror
    rows is written: the transaction before it does not hold the row, so a
    crash between the two forgets the id that was acknowledged. *)
Example remote_ack_before_disk :
  let l := (run toy_config toy_driver [toy_turn 1000 (IRequest 7 9 (chars "task_fanout") (toy_fan true))]).2 in
  position (fun f => match f with EReply _ _ (Fanned _ _ [(2, _)] _ _ _ _ _) => true | _ => false end) l = Some 3%nat /\
  position (fun f => match f with ESaveRemotes _ => true | _ => false end) l = Some 9%nat /\
  Forall (fun f => match f with ETxn _ t => 2 ∉ (pw_id <$> tx_workers t) | _ => True end) l.
Proof. vm_compute. split_and!; [done|done|]. repeat constructor; set_solver. Qed.
