(* ===== verification/Scheduler.v ===== *)
(** * The scheduler: crons and wakeups

    [agentd/crates/agentd/src/scheduler.rs] and the identity gate in front of
    it ([plugins/src/supervisor.rs]).  The state is the task list behind the
    scheduler's lock, the id counter of the process and [schedules.jsonl];
    every handler and every tick of [run_scheduler] holds the lock from its
    first read to its last write, so each is one step.  A step reads the clock
    once, in nanoseconds; the environment of the process is the record
    [SchedEnv].  [Fired] is the line logged (which tells a one-shot from a cron)
    and the [UserPrompt] emitted for a task.  Third-party: the cron and chrono crates ([CronOps], [Chrono]) and
    the JSON form of a task ([TaskJson]). *)
From S2P Require Import Prelude Text Policy Protocol Mandala Identity.

(** ** Data *)

Record ScheduledTask := mkTask {
  st_id : text;
  st_cron : text;
  st_prompt : text;
  st_session_id : option Z;
  st_created_at : Z;
  st_last_run : option Z;
  st_at : option Z;
  st_wakeup : bool
}.

#[export] Instance ScheduledTask_eq_dec : EqDecision ScheduledTask.
Proof. solve_decision. Defined.

Definition WAKEUP_MIN_DELAY_SECS : Z := 60.
Definition WAKEUP_MAX_HORIZON_SECS : Z := 90 * 86400.
Definition WAKEUP_FIRED_RETENTION_SECS : Z := 48 * 3600.

(** [AGENTD_WAKEUP], [AGENTD_WAKEUP_MAX_PENDING], [AGENTD_WAKEUP_DAILY_CAP]. *)
Record SchedEnv := mkSchedEnv {
  env_wakeup : option text;
  env_wakeup_max_pending : option text;
  env_wakeup_daily_cap : option text
}.

(** [to_lowercase] of the standard library maps no other character to one of
    the letters of these words. *)
Definition wakeup_enabled (env : SchedEnv) : bool :=
  let v := to_ascii_lowercase (default [] (env_wakeup env)) in
  negb (bool_decide (v = chars "0") || bool_decide (v = chars "false") || bool_decide (v = chars "off")).

Definition wakeup_max_pending (env : SchedEnv) : Z :=
  default 16 (env_wakeup_max_pending env ≫= parse_u64).
Definition wakeup_daily_cap (env : SchedEnv) : Z :=
  default 24 (env_wakeup_daily_cap env ≫= parse_u64).

Definition utc_day (t : Z) : Z := t / 86400.

(** [t as i64]. *)
Definition as_i64 (t : Z) : Z := if t <? 2 ^ 63 then t else t - 2 ^ 64.

(** chrono: the timestamp an RFC 3339 text names, whether a timestamp is in
    range ([timestamp_opt]), and how one in range prints. *)
Class Chrono := {
  parse_rfc3339 : text -> option Z;
  timestamp_ok : Z -> bool;
  print_rfc3339 : Z -> text
}.

(** cron: the schedule an expression names, and its first event after an
    instant. *)
Class CronOps := {
  CronSchedule : Type;
  parse_cron : text -> option CronSchedule;
  next_after : CronSchedule -> Z -> option Z
}.

Class CronLaws `{!CronOps} : Prop := {
  next_after_later s t n : next_after s t = Some n -> t < n
}.

(** serde_json on one task. *)
Class TaskJson := {
  task_to_json : ScheduledTask -> option text;
  task_of_json : text -> option ScheduledTask
}.

(** A task prints as one line, an object, that reads back; nothing shorter
    than the whole object is JSON. *)
Class TaskJsonLaws `{!TaskJson} : Prop := {
  task_json_back t : task_to_json t ≫= task_of_json = Some t;
  task_json_line t s : task_to_json t = Some s -> 10 ∉ s;
  task_json_brace t s : task_to_json t = Some s -> exists r, s = r ++ [125];
  task_json_prefix t s n : task_to_json t = Some s -> (n < length s)%nat -> task_of_json (take n s) = None
}.

Record Scheduler := mkScheduler {
  sc_tasks : list ScheduledTask;
  sc_seq : Z;
  sc_file : option text
}.

Definition with_tasks (s : Scheduler) (ts : list ScheduledTask) : Scheduler :=
  mkScheduler ts (sc_seq s) (sc_file s).

Definition mark_run (t : ScheduledTask) (now : Z) : ScheduledTask :=
  mkTask (st_id t) (st_cron t) (st_prompt t) (st_session_id t) (st_created_at t) (Some now) (st_at t) (st_wakeup t).

Inductive FireError := AtUnparsed (s : text) | BothGiven | NoneGiven | TooSoon | TooFar.

Record WakeupInfo := mkWakeupInfo {
  wi_id : text;
  wi_fires_at : text;
  wi_fires_in : Z;
  wi_fires_into : option Z;
  wi_pending : Z;
  wi_fired_today : Z;
  wi_daily_cap : Z
}.

(** Rows of the listings. *)
Record ScheduleRow := mkScheduleRow {
  sr_id : text; sr_cron : text; sr_prompt : text; sr_session_id : option Z;
  sr_created_at : Z; sr_last_run : option Z
}.
Record PendingRow := mkPendingRow {
  pr_id : text; pr_note : text; pr_fires_at : option text; pr_fires_in : option Z;
  pr_scheduled_at : text; pr_fires_into : option Z
}.
Record FiredRow := mkFiredRow { fr_id : text; fr_note : text; fr_fired_at : option text }.

(** The content of a tool's answer. *)
Inductive SchedReply :=
  | UnknownTool
  | CronRequired | PromptRequired | InvalidCron (c : text) | Scheduled (id : text)
  | Schedules (rows : list ScheduleRow)
  | ScheduleIdRequired | ScheduleNotFound (id : text) | ScheduleCancelled (id : text)
  | WakeupsDisabled | NoteRequired | NoteTooLong | BadFireAt (e : FireError)
  | PendingCapReached (pending cap : Z) | DailyCapReached (today cap : Z) | WakeupScheduled (i : WakeupInfo)
  | Wakeups (pending : list PendingRow) (fired : list FiredRow) (fired_today daily_cap pending_cap : Z)
  | WakeupIdRequired | NoPendingWakeup (id : text) | WakeupCancelled (id : text)
  | GuestRefused | SchedulerUnavailable | SchedulerUninitialized.

(** The [ok] field. *)
Definition reply_ok (r : SchedReply) : bool :=
  match r with
  | Scheduled _ | Schedules _ | ScheduleCancelled _ | WakeupScheduled _ | Wakeups _ _ _ _ _ | WakeupCancelled _ => true
  | _ => false
  end.

Inductive SchedEffect :=
  | Fired (one_shot : bool) (id : text) (session : Z) (prompt : text)
  | SchedResult (session call : Z) (r : SchedReply).

(** ** Pure parts *)

Definition rfc3339 `{!Chrono} (t : Z) : text :=
  if timestamp_ok (as_i64 t) then print_rfc3339 (as_i64 t) else dec_text t.

(** Hexadecimal without leading zeros, [{:x}]; 32 digits hold 128 bits. *)
Fixpoint hex_digits (fuel : nat) (n : Z) (acc : text) : text :=
  match fuel with
  | O => acc
  | S fuel =>
      let acc := hex_nibble (n mod 16) :: acc in
      if n <? 16 then acc else hex_digits fuel (n / 16) acc
  end.
Definition hex_text (n : Z) : text := hex_digits 32 n [].

Definition unique_id (nanos seq : Z) : text :=
  chars "sched_" ++ hex_text nanos ++ chars "_" ++ hex_text seq.

Definition wakeup_home_session (scheduler : Z) : option Z :=
  if (scheduler =? 0) || is_worker_session scheduler || is_spawn_session scheduler then None else Some scheduler.

Definition wakeup_fire_session (t : ScheduledTask) (root : Z) : Z :=
  match st_session_id t with
  | Some s => if negb (s =? 0) && negb (is_worker_session s) && negb (is_spawn_session s) then s else root
  | None => root
  end.

Definition is_pending (t : ScheduledTask) : bool := st_wakeup t && is_noneb (st_last_run t).

Definition pending_wakeups (ts : list ScheduledTask) : Z := zlen (filter is_pending ts).

Definition fired_on (day : Z) (t : ScheduledTask) : bool :=
  st_wakeup t && match st_last_run t with Some r => utc_day r =? day | None => false end.

Definition fired_today (ts : list ScheduledTask) (now : Z) : Z := zlen (filter (fired_on (utc_day now)) ts).

Definition expired (now : Z) (t : ScheduledTask) : bool :=
  st_wakeup t &&
  match st_last_run t with Some r => WAKEUP_FIRED_RETENTION_SECS <? sat_sub now r | None => false end.

Definition prune_fired_wakeups (ts : list ScheduledTask) (now : Z) : list ScheduledTask * bool :=
  let kept := filter (fun t => negb (expired now t)) ts in
  (kept, negb (zlen kept =? zlen ts)).

Definition wakeup_frame `{!Chrono} (t : ScheduledTask) (now : Z) : text :=
  let late := sat_sub now (default now (st_at t)) in
  let late_note :=
    if 120 <? late
    then chars " " ++ [8212] ++ chars " fired " ++ dec_text (late / 60) ++ chars "m late (the daemon was down or busy)"
    else [] in
  chars "[wakeup " ++ st_id t ++ chars " " ++ [8212] ++ chars " a note you scheduled for yourself at "
    ++ rfc3339 (st_created_at t) ++ late_note ++ chars "]: " ++ st_prompt t.

Section args.
Context {V : Type} `{!JsonArgs V} `{!JsonNums V} `{!Chrono}.

Definition at_arg (args : V) : result (option Z) FireError :=
  match arg_u64 args (chars "at") with
  | Some n => Ok (Some n)
  | None =>
      match arg_str args (chars "at") with
      | Some s => match parse_rfc3339 s with Some ts => Ok (Some (Z.max ts 0)) | None => Err (AtUnparsed s) end
      | None => Ok None
      end
  end.

Definition resolve_fire_at (args : V) (now : Z) : result Z FireError :=
  let delay := arg_u64 args (chars "delay_secs") in
  att <-! at_arg args;
  fire <-! match delay, att with
           | Some d, None => Ok (sat_add64 now d)
           | None, Some t => Ok t
           | Some _, Some _ => Err BothGiven
           | None, None => Err NoneGiven
           end;
  if fire <? sat_add64 now WAKEUP_MIN_DELAY_SECS then Err TooSoon
  else if sat_add64 now WAKEUP_MAX_HORIZON_SECS <? fire then Err TooFar
  else Ok fire.
End args.

(** ** The file *)

Section file.
Context `{!TaskJson}.

Definition schedules_content (ts : list ScheduledTask) : text := terminated (omap task_to_json ts).

(** A file that cannot be read (missing, or not UTF-8) is an empty list. *)
Definition load_schedules (file : option text) : list ScheduledTask :=
  match file with
  | None => []
  | Some t => omap task_of_json (filter (fun l => negb (bool_decide (trim l = []))) (lines t))
  end.

(** [std::fs::write] truncates the file and writes it in place. *)
Definition save_schedules (w : FsWrite) (ts : list ScheduledTask) (file : option text) : option text :=
  match w with
  | WroteAll => Some (schedules_content ts)
  | WroteNone => file
  | WroteCut n => Some (take n (schedules_content ts))
  end.

Definition save_state (w : FsWrite) (s : Scheduler) : Scheduler :=
  mkScheduler (sc_tasks s) (sc_seq s) (save_schedules w (sc_tasks s) (sc_file s)).

(** [main.rs]: a new process reads the file and starts counting again. *)
Definition sched_boot (file : option text) : Scheduler := mkScheduler (load_schedules file) 0 file.
End file.

(** ** One tick of [run_scheduler] *)

Section tick.
Context `{!Chrono} `{!CronOps} `{!TaskJson}.

(** The instant the loop compares with; a timestamp out of range is replaced
    by another reading of the clock. *)
Definition now_dt (now : Z) : Z := if timestamp_ok (as_i64 now) then as_i64 now else now.
Definition last_dt (t : ScheduledTask) (now : Z) : Z :=
  let last := as_i64 (default (st_created_at t) (st_last_run t)) in
  if timestamp_ok last then last else now - 120.

Definition cron_due (t : ScheduledTask) (now : Z) : bool :=
  match parse_cron (st_cron t) with
  | None => false
  | Some s =>
      match next_after s (last_dt t now) with
      | Some next => next <=? now_dt now
      | None => false
      end
  end.

(** A one-shot entry: has a fire time, has not run, and is due. *)
Definition one_shot_due (env : SchedEnv) (t : ScheduledTask) (now : Z) : bool :=
  match st_at t with
  | None => false
  | Some due => negb (st_wakeup t && negb (wakeup_enabled env)) && is_noneb (st_last_run t) && (due <=? now)
  end.

Definition task_session (root : Z) (t : ScheduledTask) : Z :=
  if is_someb (st_at t) && st_wakeup t then wakeup_fire_session t root else default root (st_session_id t).

Definition fire_prompt (t : ScheduledTask) (now : Z) : text :=
  if is_someb (st_at t) && st_wakeup t then wakeup_frame t now else st_prompt t.

(** The body of the loop over the tasks. *)
Definition run_task (env : SchedEnv) (root now : Z) (t : ScheduledTask) : ScheduledTask * list SchedEffect :=
  if (if is_someb (st_at t) then one_shot_due env t now else cron_due t now)
  then (mark_run t now, [Fired (is_someb (st_at t)) (st_id t) (task_session root t) (fire_prompt t now)])
  else (t, []).

Definition tick (env : SchedEnv) (root now : Z) (w : FsWrite) (s : Scheduler) : Scheduler * list SchedEffect :=
  let out := run_task env root now <$> sc_tasks s in
  let fired := concat (snd <$> out) in
  let '(kept, pruned) := prune_fired_wakeups (fst <$> out) now in
  let s := with_tasks s kept in
  (if negb (bool_decide (fired = [])) || pruned then save_state w s else s, fired).
End tick.

(** ** The handlers *)

Section handlers.
Context {V : Type} `{!JsonArgs V} `{!JsonNums V} `{!Chrono} `{!CronOps} `{!TaskJson}.

(** [unique_id]: takes the next number of the counter. *)
Definition take_id (nanos : Z) (s : Scheduler) : text * Scheduler :=
  (unique_id nanos (sc_seq s), mkScheduler (sc_tasks s) (as_u64 (sc_seq s + 1)) (sc_file s)).

Definition push_task (w : FsWrite) (t : ScheduledTask) (s : Scheduler) : Scheduler :=
  save_state w (with_tasks s (sc_tasks s ++ [t])).

Definition handle_schedule_task (nanos : Z) (w : FsWrite) (s : Scheduler) (args : V) : Scheduler * SchedReply :=
  match arg_str args (chars "cron") with
  | None => (s, CronRequired)
  | Some cron =>
      match arg_str args (chars "prompt") with
      | None => (s, PromptRequired)
      | Some prompt =>
          match parse_cron cron with
          | None => (s, InvalidCron cron)
          | Some _ =>
              let '(id, s) := take_id nanos s in
              let t := mkTask id cron prompt (arg_u64 args (chars "session_id")) (nanos / 1000000000) None None false in
              (push_task w t s, Scheduled id)
          end
      end
  end.

Definition schedule_row (t : ScheduledTask) : ScheduleRow :=
  mkScheduleRow (st_id t) (st_cron t) (st_prompt t) (st_session_id t) (st_created_at t) (st_last_run t).

Definition handle_list_schedules (s : Scheduler) : Scheduler * SchedReply :=
  (s, Schedules (schedule_row <$> sc_tasks s)).

(** [tasks.retain(keep)], refused when nothing goes. *)
Definition retain_tasks (w : FsWrite) (keep : ScheduledTask -> bool) (gone missing : SchedReply) (s : Scheduler)
    : Scheduler * SchedReply :=
  let kept := filter keep (sc_tasks s) in
  if zlen kept =? zlen (sc_tasks s) then (with_tasks s kept, missing)
  else (save_state w (with_tasks s kept), gone).

Definition handle_cancel_schedule (w : FsWrite) (s : Scheduler) (args : V) : Scheduler * SchedReply :=
  match arg_str args (chars "schedule_id") with
  | None => (s, ScheduleIdRequired)
  | Some id =>
      retain_tasks w (fun t => negb (bool_decide (st_id t = id))) (ScheduleCancelled id) (ScheduleNotFound id) s
  end.

Definition handle_cancel_wakeup (w : FsWrite) (s : Scheduler) (args : V) : Scheduler * SchedReply :=
  match arg_str args (chars "wakeup_id") with
  | None => (s, WakeupIdRequired)
  | Some id =>
      retain_tasks w (fun t => negb (is_pending t && bool_decide (st_id t = id)))
        (WakeupCancelled id) (NoPendingWakeup id) s
  end.

(** [args["note"].as_str().map(str::trim).filter(|n| !n.is_empty())]. *)
Definition note_arg (args : V) : option text :=
  n ← arg_str args (chars "note");
  if bool_decide (trim n = []) then None else Some (trim n).

Definition wakeup_info (env : SchedEnv) (now fire : Z) (id : text) (home : option Z) (pending today : Z) : WakeupInfo :=
  mkWakeupInfo id (rfc3339 fire) (sat_sub fire now) home (pending + 1) today (wakeup_daily_cap env).

Definition handle_schedule_wakeup (env : SchedEnv) (nanos : Z) (w : FsWrite) (s : Scheduler) (session : Z) (args : V)
    : Scheduler * SchedReply :=
  let now := nanos / 1000000000 in
  if negb (wakeup_enabled env) then (s, WakeupsDisabled)
  else match note_arg args with
  | None => (s, NoteRequired)
  | Some note =>
      if 4000 <? str_len note then (s, NoteTooLong)
      else match resolve_fire_at args now with
      | Err e => (s, BadFireAt e)
      | Ok fire =>
          let pending := pending_wakeups (sc_tasks s) in
          let today := fired_today (sc_tasks s) now in
          if wakeup_max_pending env <=? pending then (s, PendingCapReached pending (wakeup_max_pending env))
          else if wakeup_daily_cap env <=? today then (s, DailyCapReached today (wakeup_daily_cap env))
          else
            let home := wakeup_home_session session in
            let '(id, s) := take_id nanos s in
            (push_task w (mkTask id [] note home now None (Some fire) true) s,
             WakeupScheduled (wakeup_info env now fire id home pending today))
      end
  end.

Definition pending_row (now : Z) (t : ScheduledTask) : PendingRow :=
  mkPendingRow (st_id t) (st_prompt t) (rfc3339 <$> st_at t) ((fun a => sat_sub a now) <$> st_at t)
    (rfc3339 (st_created_at t)) (st_session_id t).
Definition fired_row (t : ScheduledTask) : FiredRow :=
  mkFiredRow (st_id t) (st_prompt t) (rfc3339 <$> st_last_run t).
Definition is_fired (t : ScheduledTask) : bool := st_wakeup t && is_someb (st_last_run t).

Definition handle_list_wakeups (env : SchedEnv) (now : Z) (s : Scheduler) : Scheduler * SchedReply :=
  let ts := sc_tasks s in
  (s, Wakeups (pending_row now <$> filter is_pending ts) (fired_row <$> filter is_fired ts)
        (fired_today ts now) (wakeup_daily_cap env) (wakeup_max_pending env)).

(** The loop body of [spawn_scheduler_handler]. *)
Definition sched_handle (env : SchedEnv) (nanos : Z) (w : FsWrite) (s : Scheduler) (session : Z) (tool : text) (args : V)
    : Scheduler * SchedReply :=
  if bool_decide (tool = chars "schedule_task") then handle_schedule_task nanos w s args
  else if bool_decide (tool = chars "list_schedules") then handle_list_schedules s
  else if bool_decide (tool = chars "cancel_schedule") then handle_cancel_schedule w s args
  else if bool_decide (tool = chars "schedule_wakeup") then handle_schedule_wakeup env nanos w s session args
  else if bool_decide (tool = chars "list_wakeups") then handle_list_wakeups env (nanos / 1000000000) s
  else if bool_decide (tool = chars "cancel_wakeup") then handle_cancel_wakeup w s args
  else (s, UnknownTool).

(** *** The supervisor's side: who may touch the wakeups *)

Definition guest_mutator (tool : text) : bool :=
  bool_decide (tool = chars "schedule_wakeup") || bool_decide (tool = chars "cancel_wakeup").

(** How the channel to the scheduler task is: not wired, closed, open. *)
Inductive SchedChannel := ChannelUnset | ChannelClosed | ChannelOpen.

(** A call of one of the six tools, routed and handled. *)
Definition route_schedule (node_agent : text) (bindings : option (gmap Z text)) (ch : SchedChannel)
    (env : SchedEnv) (nanos : Z) (w : FsWrite) (s : Scheduler) (session call : Z) (tool : text) (args : V)
    : Scheduler * list SchedEffect :=
  if guest_mutator tool && negb (bool_decide (resolve_agent_id node_agent bindings session = node_agent))
  then (s, [SchedResult session call GuestRefused])
  else match ch with
  | ChannelUnset => (s, [SchedResult session call SchedulerUninitialized])
  | ChannelClosed => (s, [SchedResult session call SchedulerUnavailable])
  | ChannelOpen =>
      let '(s, r) := sched_handle env nanos w s session tool args in
      (s, [SchedResult session call r])
  end.

(** ** Runs *)

Inductive SchedEvent :=
  | SchedTick
  | SchedCall (session call : Z) (tool : text) (args : V)
  | SchedRestart.

(** One event at an instant, with what its write does; [root] is session 0. *)
Definition sched_step (env : SchedEnv) (e : Z * FsWrite * SchedEvent) (s : Scheduler) : Scheduler * list SchedEffect :=
  let '(nanos, w, ev) := e in
  match ev with
  | SchedTick => tick env 0 (nanos / 1000000000) w s
  | SchedCall session call tool args =>
      let '(s, r) := sched_handle env nanos w s session tool args in (s, [SchedResult session call r])
  | SchedRestart => (sched_boot (sc_file s), [])
  end.

(** A run, with the instant of each effect. *)
Fixpoint sched_run (env : SchedEnv) (es : list (Z * FsWrite * SchedEvent)) (s : Scheduler)
    : Scheduler * list (Z * SchedEffect) :=
  match es with
  | [] => (s, [])
  | e :: es =>
      let '(s, out) := sched_step env e s in
      let '(s', outs) := sched_run env es s in
      (s', ((fun f => (e.1.1 / 1000000000, f)) <$> out) ++ outs)
  end.
End handlers.

(** ** Identifiers *)

Definition hex_value (c : Z) : Z := if c <? 58 then c - 48 else c - 87.
Definition read_hex (s : text) : Z := foldl (fun a c => a * 16 + hex_value c) 0 s.
Definition is_hex (c : Z) : Prop := 48 <= c <= 57 \/ 97 <= c <= 102.

Lemma hex_nibble_ok n : 0 <= n < 16 -> is_hex (hex_nibble n) /\ hex_value (hex_nibble n) = n.
Proof. unfold hex_nibble, hex_value, is_hex. intros. destruct (Z.ltb_spec n 10); case_match; lia. Qed.

Lemma hex_digits_spec fuel n acc :
  0 <= n < 16 ^ Z.of_nat fuel -> (0 < fuel)%nat ->
  exists ds, hex_digits fuel n acc = ds ++ acc /\ Forall is_hex ds /\ read_hex ds = n.
Proof.
  revert n acc; induction fuel as [|fuel IH]; intros n acc Hn Hf; [lia|]. cbn [hex_digits].
  pose proof (Z.mod_pos_bound n 16). pose proof (Z.div_mod n 16).
  destruct (hex_nibble_ok (n mod 16)) as [Hx Hv]; [lia|].
  destruct (Z.ltb_spec n 16).
  - exists [hex_nibble (n mod 16)]. split_and!; [done|by constructor|].
    unfold read_hex. cbn [foldl]. rewrite Hv, Z.mod_small; lia.
  - rewrite Nat2Z.inj_succ, Z.pow_succ_r in Hn by lia.
    assert (0 < fuel)%nat. { destruct fuel; [|lia]. change (16 ^ Z.of_nat 0) with 1 in Hn. lia. }
    destruct (IH (n / 16) (hex_nibble (n mod 16) :: acc)) as (ds & E & Hds & Hr); [|lia|].
    { split; [apply Z.div_pos; lia|apply Z.div_lt_upper_bound; lia]. }
    exists (ds ++ [hex_nibble (n mod 16)]). rewrite E, <- app_assoc. split_and!; [done| |].
    + apply Forall_app. split; [done|by constructor].
    + unfold read_hex in *. rewrite foldl_app. cbn [foldl]. rewrite Hr, Hv. lia.
Qed.

Lemma hex_text_spec n : 0 <= n < 2 ^ 128 -> Forall is_hex (hex_text n) /\ read_hex (hex_text n) = n.
Proof.
  intros Hn. destruct (hex_digits_spec 32 n []) as (ds & E & Hds & Hr); [|lia|].
  { replace (16 ^ Z.of_nat 32) with (2 ^ 128) by reflexivity. done. }
  unfold hex_text. by rewrite E, app_nil_r.
Qed.

Lemma app_sep_inj (c : Z) (a b a' b' : text) :
  c ∉ a -> c ∉ a' -> a ++ c :: b = a' ++ c :: b' -> a = a' /\ b = b'.
Proof.
  revert a'; induction a as [|x a IH]; intros [|y a'] Ha Ha' E; cbn in E.
  - by injection E.
  - injection E as -> _. destruct Ha'. constructor.
  - injection E as -> _. destruct Ha. constructor.
  - injection E as -> E. apply not_elem_of_cons in Ha as [_ Ha]. apply not_elem_of_cons in Ha' as [_ Ha'].
    destruct (IH a' Ha Ha' E) as [-> ->]. done.
Qed.

Lemma hex_no_sep s : Forall is_hex s -> 95 ∉ s.
Proof. intros Hs Hin. rewrite Forall_forall in Hs. specialize (Hs _ Hin). unfold is_hex in Hs. lia. Qed.

Lemma unique_id_inj n q n' q' :
  0 <= n < 2 ^ 128 -> 0 <= q < 2 ^ 128 -> 0 <= n' < 2 ^ 128 -> 0 <= q' < 2 ^ 128 ->
  unique_id n q = unique_id n' q' -> n = n' /\ q = q'.
Proof.
  intros Hn Hq Hn' Hq' E. unfold unique_id in E.
  destruct (hex_text_spec n Hn) as [F1 R1], (hex_text_spec q Hq) as [F2 R2],
    (hex_text_spec n' Hn') as [F3 R3], (hex_text_spec q' Hq') as [F4 R4].
  apply app_inv_head in E. change (chars "_") with [95] in E.
  apply app_sep_inj in E as [E1 E2]; [|by apply hex_no_sep..]. cbn [app] in E2. split; congruence.
Qed.

(** ** The file *)

Section file_lemmas.
Context `{!TaskJson} `{!TaskJsonLaws}.

Lemma task_json_some t : exists r, task_to_json t = Some (r ++ [125]) /\ task_of_json (r ++ [125]) = Some t /\ (10 ∉ r).
Proof.
  pose proof (task_json_back t) as Hb. pose proof (task_json_brace t) as Hr. pose proof (task_json_line t) as Hl.
  destruct (task_to_json t) as [s|]; [|done]. destruct (Hr s eq_refl) as [r ->]. specialize (Hl _ eq_refl).
  exists r. split_and!; [done..|]. intros Hin. apply Hl, elem_of_app. by left.
Qed.

(** The line a task is written as. *)
Lemma task_line t :
  exists s, task_to_json t = Some s /\ task_of_json s = Some t /\ (10 ∉ s) /\ strip_cr s = s /\ trim s <> [].
Proof.
  destruct (task_json_some t) as (r & E & Hb & Hl). exists (r ++ [125]). split_and!; [done|done| | |].
  - rewrite elem_of_app, list_elem_of_singleton. intros [?|?]; [done|lia].
  - by apply strip_cr_snoc.
  - intros Ht. unfold trim, trim_end in Ht. apply (f_equal (@rev Z)) in Ht. rewrite rev_involutive in Ht.
    assert (exists x, trim_start (r ++ [125]) = x ++ [125]) as [x Hx].
    { clear -r. induction r as [|y r [x IH]]; [by exists []|]. cbn. destruct (is_whitespace y); [by exists x|].
      by exists (y :: r). }
    rewrite Hx, rev_unit in Ht. done.
Qed.

(** What the lines of a file load as. *)
Definition load_lines (ls : list text) : list ScheduledTask :=
  omap task_of_json (filter (fun l => negb (bool_decide (trim l = []))) ls).

Lemma load_lines_cons t s ls : task_of_json s = Some t -> trim s <> [] -> load_lines (s :: ls) = t :: load_lines ls.
Proof.
  intros Hs Ht. unfold load_lines. rewrite filter_cons_True by (rewrite bool_decide_eq_false_2; done).
  cbn [omap list_omap]. by rewrite Hs.
Qed.

Lemma load_lines_one s : load_lines [s] = if bool_decide (trim s = []) then [] else option_list (task_of_json s).
Proof.
  unfold load_lines. case_bool_decide as E.
  - rewrite filter_cons_False; [done|]. rewrite bool_decide_eq_true_2 by done. intros [].
  - rewrite filter_cons_True by by rewrite bool_decide_eq_false_2. cbn. by destruct (task_of_json s).
Qed.

Lemma load_content_lines ts p :
  10 ∉ p ->
  load_schedules (Some (schedules_content ts ++ p)) = ts ++ match p with [] => [] | _ => load_lines [p] end.
Proof.
  intros Hp. unfold load_schedules, schedules_content. rewrite lines_terminated_tail; [|clear p Hp|done].
  - fold (load_lines ((strip_cr <$> omap task_to_json ts) ++ match p with [] => [] | _ => [p] end)).
    induction ts as [|t ts IH]; cbn [omap list_omap]; [by destruct p|].
    destruct (task_line t) as (s & E & Hb & _ & Hs & Ht). rewrite E. cbn [fmap list_fmap app].
    rewrite Hs, load_lines_cons with (t := t) by done. by rewrite IH.
  - induction ts as [|t ts IH]; [constructor|]. cbn [omap list_omap].
    destruct (task_line t) as (s & E & _ & Hl & _). rewrite E. by constructor.
Qed.

Lemma load_content ts : load_schedules (Some (schedules_content ts)) = ts.
Proof.
  pose proof (load_content_lines ts [] ltac:(apply not_elem_of_nil)) as E. by rewrite !app_nil_r in E.
Qed.

(** Cutting the file cuts the list of tasks. *)
Lemma cut_content ts n : exists k, load_schedules (Some (take n (schedules_content ts))) = take k ts.
Proof.
  assert (exists k p, take n (schedules_content ts) = schedules_content (take k ts) ++ p /\
    (p = [] \/ exists t s j, ts !! k = Some t /\ task_to_json t = Some s /\ p = take j s)) as (k & p & E & Hp).
  { revert n; induction ts as [|t ts IH]; intros n.
    { exists 0%nat, []. split; [apply take_nil|by left]. }
    unfold schedules_content in *. cbn [omap list_omap]. destruct (task_line t) as (s & Es & _). rewrite Es.
    unfold terminated. cbn [fmap list_fmap concat]. fold (terminated (omap task_to_json ts)).
    destruct (decide (n <= length s)%nat).
    - exists 0%nat, (take n s). rewrite <- app_assoc, take_app_le by done. split; [done|]. right. by exists t, s, n.
    - destruct (IH (n - length (s ++ [10%Z]))%nat) as (k & p & E & Hp). exists (S k), p. rewrite firstn_cons.
      cbn [omap list_omap]. rewrite Es. cbn [fmap list_fmap concat]. split; [|done].
      rewrite take_app_ge by (rewrite length_app; cbn; lia). rewrite <- (app_assoc _ _ p). f_equal. exact E. }
  rewrite E. destruct Hp as [->|(t & s & j & Ht & Es & ->)].
  { exists k. by rewrite app_nil_r, load_content. }
  destruct (task_line t) as (s' & Es' & Hb & Hl & _ & Htr). assert (s' = s) as -> by congruence.
  rewrite load_content_lines.
  2: { intros (i & Hi & _)%elem_of_take. apply Hl. by eapply list_elem_of_lookup_2. }
  destruct (decide (j < length s)%nat) as [Hj|Hj].
  - exists k. assert (match take j s with [] => [] | _ => load_lines [take j s] end = []) as ->; [|apply app_nil_r].
    destruct (take j s) as [|x r] eqn:Ej; [done|]. rewrite <- Ej, load_lines_one, (task_json_prefix t s j Es Hj).
    by case_bool_decide.
  - exists (S k). rewrite (take_ge s) by lia. rewrite (take_S_r _ _ _ Ht). f_equal.
    destruct s as [|x r]; [done|]. rewrite load_lines_one, bool_decide_eq_false_2, Hb by done. done.
Qed.
End file_lemmas.

(** Discharge an arithmetic premise. *)
Ltac spec_z H := match type of H with ?P -> _ => let X := fresh in assert P as X by ulia; specialize (H X); clear X end.

(** ** What a step does to the tasks *)

Section steps.
Context {V : Type} `{!JsonArgs V} `{!JsonNums V} `{!Chrono} `{!CronOps} `{!TaskJson} `{!TaskJsonLaws}.
Implicit Types (s : Scheduler) (t : ScheduledTask) (ts : list ScheduledTask).

(** The call names the task it takes away. *)
Definition cancels (tool : text) (args : V) (t : ScheduledTask) : Prop :=
  (tool = chars "cancel_schedule" /\ arg_str args (chars "schedule_id") = Some (st_id t)) \/
  (tool = chars "cancel_wakeup" /\ arg_str args (chars "wakeup_id") = Some (st_id t) /\ is_pending t = true).

(** A new task: its name, that it has not run, and the caps a wakeup met. *)
Record new_task (env : SchedEnv) (nanos : Z) (s : Scheduler) (t : ScheduledTask) : Prop := {
  nt_id : st_id t = unique_id nanos (sc_seq s);
  nt_run : st_last_run t = None;
  nt_kind : is_someb (st_at t) = st_wakeup t;
  nt_caps : st_wakeup t = true ->
    pending_wakeups (sc_tasks s) < wakeup_max_pending env /\
    fired_today (sc_tasks s) (nanos / 1000000000) < wakeup_daily_cap env
}.

(** Everything a call can do: nothing, add one task, take some away. *)
Inductive sched_move (env : SchedEnv) (nanos : Z) (w : FsWrite) (tool : text) (args : V) (s : Scheduler)
    : Scheduler -> SchedReply -> Prop :=
  | MoveStay r : (forall i, r <> WakeupScheduled i) -> sched_move env nanos w tool args s s r
  | MovePush t r : new_task env nanos s t ->
      (forall i, r = WakeupScheduled i -> wi_id i = st_id t /\ st_wakeup t = true) ->
      sched_move env nanos w tool args s (push_task w t (take_id nanos s).2) r
  | MoveDrop keep r : (forall t, keep t = false -> cancels tool args t) -> (forall i, r <> WakeupScheduled i) ->
      sched_move env nanos w tool args s (save_state w (with_tasks s (filter keep (sc_tasks s)))) r.

Lemma filter_one {A} (f : A -> bool) (x : A) : filter f [x] = if f x then [x] else [].
Proof. rewrite filter_cons. by destruct (f x). Qed.

Lemma filter_same_length {A} (f : A -> bool) (l : list A) : zlen (filter f l) = zlen l -> filter f l = l.
Proof.
  unfold zlen. intros E. apply Nat2Z.inj in E. revert E. induction l as [|x l IH]; [done|].
  rewrite filter_cons. destruct (decide _); cbn [length]; intros E.
  - f_equal. apply IH. lia.
  - pose proof (length_filter f l). lia.
Qed.

Lemma retain_move env nanos w tool args s keep gone missing :
  (forall t, keep t = false -> cancels tool args t) ->
  (forall i, gone <> WakeupScheduled i) -> (forall i, missing <> WakeupScheduled i) ->
  sched_move env nanos w tool args s (retain_tasks w keep gone missing s).1 (retain_tasks w keep gone missing s).2.
Proof.
  intros Hk Hg Hm. unfold retain_tasks. destruct (Z.eqb_spec (zlen (filter keep (sc_tasks s))) (zlen (sc_tasks s))) as [E|E].
  - apply filter_same_length in E. rewrite E. destruct s as [ts q f]. by apply MoveStay.
  - by apply MoveDrop.
Qed.

Lemma sched_handle_move env nanos w s session tool args :
  sched_move env nanos w tool args s (sched_handle env nanos w s session tool args).1
    (sched_handle env nanos w s session tool args).2.
Proof.
  unfold sched_handle.
  destruct (bool_decide_reflect (tool = chars "schedule_task")).
  { unfold handle_schedule_task. destruct (arg_str args _) as [cron|]; [|by apply MoveStay].
    destruct (arg_str args _) as [prompt|]; [|by apply MoveStay].
    destruct (parse_cron cron); [|by apply MoveStay]. cbn [take_id fst snd].
    apply (MovePush env nanos w tool args s (mkTask _ _ _ _ _ _ _ _)); [by constructor|done]. }
  destruct (bool_decide _); [by apply MoveStay|].
  destruct (bool_decide_reflect (tool = chars "cancel_schedule")).
  { unfold handle_cancel_schedule. case_match eqn:E; [|by apply MoveStay]. apply retain_move; [|done..].
    intros t' Ht. left. split; [done|]. case_bool_decide; [congruence|done]. }
  destruct (bool_decide_reflect (tool = chars "schedule_wakeup")).
  { unfold handle_schedule_wakeup. destruct (wakeup_enabled env); [|by apply MoveStay]. cbn [negb].
    destruct (note_arg args) as [note|]; [|by apply MoveStay].
    destruct (_ <? _); [by apply MoveStay|]. destruct (resolve_fire_at _ _) as [fire|err]; [|by apply MoveStay].
    destruct (Z.leb_spec (wakeup_max_pending env) (pending_wakeups (sc_tasks s))); [by apply MoveStay|].
    destruct (Z.leb_spec (wakeup_daily_cap env) (fired_today (sc_tasks s) (nanos / 1000000000)));
      [by apply MoveStay|]. cbn [take_id fst snd].
    apply (MovePush env nanos w tool args s (mkTask _ _ _ _ _ _ _ _)); [by constructor|].
    intros i [= <-]. by split. }
  destruct (bool_decide _); [by apply MoveStay|].
  destruct (bool_decide_reflect (tool = chars "cancel_wakeup")); [|by apply MoveStay].
  unfold handle_cancel_wakeup. case_match eqn:E; [|by apply MoveStay]. apply retain_move; [|done..].
  intros t' Ht. right. apply negb_false_iff, andb_true_iff in Ht as [Hp Hi].
  split_and!; [done| |done]. case_bool_decide; [congruence|done].
Qed.

(** *** The file mirrors the tasks *)

Definition synced (s : Scheduler) : Prop := load_schedules (sc_file s) = sc_tasks s.

Lemma synced_save s : synced (save_state WroteAll s).
Proof. apply load_content. Qed.

Lemma prune_spec ts now :
  prune_fired_wakeups ts now =
  (filter (fun t => negb (expired now t)) ts, negb (zlen (filter (fun t => negb (expired now t)) ts) =? zlen ts)).
Proof. done. Qed.

Lemma tick_tasks env root now w s :
  sc_tasks (tick env root now w s).1 =
  filter (fun t => negb (expired now t)) ((run_task env root now <$> sc_tasks s).*1).
Proof. unfold tick. rewrite prune_spec. cbn [fst snd]. by destruct (_ || _). Qed.

Lemma tick_effects env root now w s :
  (tick env root now w s).2 = concat ((run_task env root now <$> sc_tasks s).*2).
Proof. unfold tick. by rewrite prune_spec. Qed.

Lemma tick_seq env root now w s : sc_seq (tick env root now w s).1 = sc_seq s.
Proof. unfold tick. rewrite prune_spec. by destruct (_ || _). Qed.

(** A task that does not fire is left as it was. *)
Lemma run_task_quiet env root now t : (run_task env root now t).2 = [] -> (run_task env root now t).1 = t.
Proof. unfold run_task. by destruct (if is_someb _ then _ else _). Qed.

Lemma run_quiet env root now ts :
  concat ((run_task env root now <$> ts).*2) = [] -> (run_task env root now <$> ts).*1 = ts.
Proof.
  induction ts as [|t ts IH]; [done|]. cbn [fmap list_fmap concat]. intros [E1 E2]%app_eq_nil.
  f_equal; [by apply run_task_quiet with (env := env) (root := root) (now := now)|by apply IH].
Qed.

Lemma tick_synced env root now s : synced s -> synced (tick env root now WroteAll s).1.
Proof.
  intros Hs. unfold tick. rewrite prune_spec. cbn [fst snd].
  destruct (bool_decide_reflect (concat ((run_task env root now <$> sc_tasks s).*2) = [])) as [E|E]; cbn [negb orb];
    [|apply synced_save].
  destruct (Z.eqb_spec (zlen (filter (fun t => negb (expired now t)) ((run_task env root now <$> sc_tasks s).*1)))
    (zlen ((run_task env root now <$> sc_tasks s).*1))) as [El|El]; cbn [negb]; [|apply synced_save].
  apply filter_same_length in El. unfold synced. cbn [with_tasks sc_file sc_tasks]. rewrite El, run_quiet by done. done.
Qed.

Lemma step_synced env nanos ev s : synced s -> synced (sched_step env (nanos, WroteAll, ev) s).1.
Proof.
  intros Hs. unfold sched_step. destruct ev as [|session call tool args|]; [by apply tick_synced| |done].
  pose proof (sched_handle_move env nanos WroteAll s session tool args) as Hm.
  destruct (sched_handle _ _ _ _ _ _ _) as [s' r]. cbn [fst snd] in *.
  inversion Hm; subst; [done|apply synced_save..].
Qed.

(** *** Runs whose writes land and whose clock does not go back *)

(** A restart takes at least an instant; nanoseconds fit 128 bits. *)
Fixpoint clock_ok (last : Z) (es : list (Z * FsWrite * SchedEvent (V := V))) : Prop :=
  match es with
  | [] => True
  | (n, w, ev) :: es =>
      (match ev with SchedRestart => last < n | _ => last <= n end) /\ n < 2 ^ 128 /\ w = WroteAll /\ clock_ok n es
  end.

Record sound_run (last : Z) (es : list (Z * FsWrite * SchedEvent (V := V))) (s : Scheduler) : Prop := {
  sr_clock : clock_ok last es;
  sr_start : 0 <= last;
  sr_seq : 0 <= sc_seq s;
  sr_room : sc_seq s + zlen es <= u64_max;
  sr_synced : synced s
}.

Lemma step_seq env nanos w ev s :
  0 <= sc_seq s < u64_max ->
  match ev with
  | SchedRestart => sc_seq (sched_step env (nanos, w, ev) s).1 = 0
  | _ => sc_seq s <= sc_seq (sched_step env (nanos, w, ev) s).1 <= sc_seq s + 1
  end.
Proof.
  intros Hs. unfold sched_step. destruct ev as [|session call tool args|]; [rewrite tick_seq; lia| |done].
  pose proof (sched_handle_move env nanos w s session tool args) as Hm.
  destruct (sched_handle _ _ _ _ _ _ _) as [s' r]. cbn [fst snd] in *.
  inversion Hm; subst; cbn; [lia| |lia]. unfold as_u64; rewrite Z.mod_small; ulia.
Qed.

Lemma sound_step env last e es s : sound_run last (e :: es) s -> sound_run e.1.1 es (sched_step env e s).1.
Proof.
  destruct e as [[n w] ev]. intros [(Hl & Hn & -> & Hc) Hl0 Hq Hr Hs]. cbn [fst].
  rewrite zlen_cons in Hr. pose proof (zlen_nonneg es).
  pose proof (step_seq env n WroteAll ev s) as Hq'. spec_z Hq'.
  split; [done| | | |by apply step_synced]; destruct ev; lia.
Qed.

Lemma run_cons env e es s :
  sched_run env (e :: es) s =
  ((sched_run env es (sched_step env e s).1).1,
   ((fun f => (e.1.1 / 1000000000, f)) <$> (sched_step env e s).2) ++ (sched_run env es (sched_step env e s).1).2).
Proof. cbn [sched_run]. destruct (sched_step env e s) as [s1 o]. cbn [fst snd]. by destruct (sched_run env es s1). Qed.

Lemma run_app env es1 es2 s :
  sched_run env (es1 ++ es2) s =
  ((sched_run env es2 (sched_run env es1 s).1).1, (sched_run env es1 s).2 ++ (sched_run env es2 (sched_run env es1 s).1).2).
Proof.
  revert s; induction es1 as [|e es1 IH]; intros s; [cbn [app sched_run fst snd]; by destruct (sched_run env es2 s)|].
  rewrite <- app_comm_cons, !run_cons, IH. cbn [fst snd]. by rewrite app_assoc.
Qed.

(** The instant and the counter of the process order the names issued. *)
Definition issued_before (n q last seq : Z) : Prop := n < last \/ (n = last /\ q < seq).

Lemma issued_before_step env last e es s n q :
  sound_run last (e :: es) s -> issued_before n q last (sc_seq s) ->
  issued_before n q e.1.1 (sc_seq (sched_step env e s).1).
Proof.
  destruct e as [[m w] ev]. intros [(Hl & Hn & -> & Hc) Hl0 Hq Hr Hs] Hb. cbn [fst].
  rewrite zlen_cons in Hr. pose proof (zlen_nonneg es).
  pose proof (step_seq env m WroteAll ev s) as Hq'. spec_z Hq'.
  unfold issued_before in *. destruct ev; lia.
Qed.

(** *** One firing per wakeup *)

Definition fires_id (id : text) (f : SchedEffect) : bool :=
  match f with Fired _ i _ _ => bool_decide (i = id) | _ => false end.

(** How often a run fired the task named [id]. *)
Definition fire_count (id : text) (out : list (Z * SchedEffect)) : Z := zlen (filter (fun e => fires_id id e.2) out).

Lemma fire_count_app id a b : fire_count id (a ++ b) = fire_count id a + fire_count id b.
Proof. unfold fire_count. by rewrite filter_app, zlen_app. Qed.

(** Entries named [x] are one-shots that have run. *)
Definition spent (x : text) (ts : list ScheduledTask) : Prop :=
  Forall (fun t => st_id t = x -> is_someb (st_at t) = true /\ is_someb (st_last_run t) = true) ts.

(** One entry named [x] is a one-shot that has not. *)
Definition armed (x : text) (ts : list ScheduledTask) : Prop :=
  exists l t r, ts = l ++ t :: r /\ is_someb (st_at t) = true /\ spent x l /\ spent x r.

(** At most [k] more firings are left to [x]. *)
Definition quota (x : text) (k : Z) (ts : list ScheduledTask) : Prop :=
  (0 <= k /\ spent x ts) \/ (1 <= k /\ armed x ts).

Lemma spent_app x a b : spent x (a ++ b) <-> spent x a /\ spent x b.
Proof. apply Forall_app. Qed.

Lemma quota_filter x k (keep : ScheduledTask -> bool) ts : quota x k ts -> quota x k (filter keep ts).
Proof.
  assert (forall l, spent x l -> spent x (filter keep l)) as Hf.
  { intros l. unfold spent. rewrite !Forall_forall. intros Hl u [_ Hu]%list_elem_of_filter. by apply Hl. }
  intros [[Hk Hs]|[Hk (l & t & r & -> & Ha & Hl & Hr)]]; [left; by auto|].
  rewrite filter_app, filter_cons. destruct (decide (keep t)).
  - right. split; [done|]. exists (filter keep l), t, (filter keep r). auto.
  - left. split; [lia|]. apply spent_app. auto.
Qed.

Lemma quota_snoc x k ts t : st_id t <> x -> quota x k ts -> quota x k (ts ++ [t]).
Proof.
  intros Ht. assert (spent x [t]) as Ht1 by (constructor; [done|constructor]).
  intros [[Hk Hs]|[Hk (l & u & r & -> & Ha & Hl & Hr)]].
  - left. split; [done|]. by apply spent_app.
  - right. split; [done|]. exists l, u, (r ++ [t]). rewrite <- app_assoc. split_and!; [done..|by apply spent_app].
Qed.

Lemma run_task_spent env root now x t :
  (st_id t = x -> is_someb (st_at t) = true /\ is_someb (st_last_run t) = true) ->
  let r := run_task env root now t in
  zlen (filter (fires_id x) r.2) = 0 /\
  (st_id r.1 = x -> is_someb (st_at r.1) = true /\ is_someb (st_last_run r.1) = true).
Proof.
  intros Ht. unfold run_task. destruct (if is_someb (st_at t) then _ else _) eqn:E; [|done]. cbn [fst snd mark_run].
  destruct (decide (st_id t = x)) as [Hx|Hx].
  - destruct (Ht Hx) as [Ha Hl]. rewrite Ha in E. unfold one_shot_due in E.
    destruct (st_at t), (st_last_run t); cbn in *; try done. by rewrite andb_false_r in E.
  - split; [|done]. unfold fires_id. by rewrite filter_one, bool_decide_eq_false_2.
Qed.

Lemma run_task_armed env root now x t :
  is_someb (st_at t) = true ->
  let r := run_task env root now t in
  is_someb (st_at r.1) = true /\
  (r.2 = [] \/ (zlen (filter (fires_id x) r.2) <= 1 /\ is_someb (st_last_run r.1) = true)).
Proof.
  intros Ha. unfold run_task. rewrite Ha. destruct (one_shot_due env t now); cbn [fst snd mark_run]; [|by auto].
  split; [done|]. right. split; [|done]. rewrite filter_one. by destruct (fires_id _ _).
Qed.

Lemma spent_run env root now x ts :
  spent x ts ->
  zlen (filter (fires_id x) (concat ((run_task env root now <$> ts).*2))) = 0 /\
  spent x (run_task env root now <$> ts).*1.
Proof.
  induction 1 as [|t ts Ht _ [IHc IHs]]; [by split; [|constructor]|].
  pose proof (run_task_spent env root now x t Ht) as [Hc Hs]. cbn [fmap list_fmap concat].
  rewrite filter_app, zlen_app, Hc, IHc. split; [done|]. by constructor.
Qed.

Lemma quota_run env root now x k ts :
  quota x k ts ->
  quota x (k - zlen (filter (fires_id x) (concat ((run_task env root now <$> ts).*2)))) (run_task env root now <$> ts).*1.
Proof.
  intros [[Hk Hs]|[Hk (l & t & r & -> & Ha & Hl & Hr)]].
  - left. destruct (spent_run env root now x ts Hs) as [-> ?]. split; [lia|done].
  - destruct (spent_run env root now x l Hl) as [Cl Sl], (spent_run env root now x r Hr) as [Cr Sr].
    destruct (run_task_armed env root now x t Ha) as [Ha' Hq].
    rewrite !fmap_app, concat_app, filter_app, zlen_app, Cl. cbn [fmap list_fmap concat].
    rewrite filter_app, zlen_app, Cr. destruct Hq as [->|[Hc Hlr]].
    + right. rewrite filter_nil, (@zlen_nil SchedEffect). split; [lia|]. eexists _, _, _. done.
    + left. split; [lia|]. apply spent_app. split; [done|]. by constructor.
Qed.

Lemma fire_count_tag x now out : fire_count x ((fun f => (now, f)) <$> out) = zlen (filter (fires_id x) out).
Proof.
  unfold fire_count. induction out as [|f out IH]; [done|]. cbn [fmap list_fmap]. rewrite !filter_cons. cbn [snd].
  destruct (decide _); rewrite ?zlen_cons; by rewrite IH.
Qed.

(** A name issued: by an instant and a number in their ranges. *)
Definition issued (x : text) (last seq : Z) : Prop :=
  exists n q, x = unique_id n q /\ 0 <= n < 2 ^ 128 /\ 0 <= q <= u64_max /\ issued_before n q last seq.

(** The name a step would issue is not one issued before. *)
Lemma issued_fresh last n seq x :
  last <= n -> 0 <= n < 2 ^ 128 -> 0 <= seq <= u64_max -> issued x last seq -> unique_id n seq <> x.
Proof.
  intros Hl Hn Hq (m & p & -> & Hm & Hp & Hb) E.
  apply unique_id_inj in E as [-> ->]; unfold issued_before in *; unfold_int; lia.
Qed.

Lemma issued_step env last e es s x :
  sound_run last (e :: es) s -> issued x last (sc_seq s) -> issued x e.1.1 (sc_seq (sched_step env e s).1).
Proof.
  intros Hs (n & q & -> & Hn & Hq & Hb). exists n, q. split_and!; [done| | | | |]; try lia.
  by eapply issued_before_step.
Qed.

(** A call leaves the firings owed as they were, when it issues another name. *)
Lemma quota_step env last e es s x k :
  sound_run last (e :: es) s -> issued x last (sc_seq s) -> quota x k (sc_tasks s) ->
  quota x (k - zlen (filter (fires_id x) (sched_step env e s).2)) (sc_tasks (sched_step env e s).1).
Proof.
  intros Hs Hx Hk. destruct e as [[n w] ev]. destruct Hs as [(Hl & Hn & -> & Hc) Hl0 Hq Hr Hsy].
  unfold sched_step. destruct ev as [|session call tool args|].
  - rewrite tick_tasks, tick_effects. by apply quota_filter, quota_run.
  - pose proof (sched_handle_move env n WroteAll s session tool args) as Hm.
    destruct (sched_handle _ _ _ _ _ _ _) as [s' r]. cbn [fst snd] in *.
    rewrite filter_one. cbn [fires_id]. rewrite zlen_nil, Z.sub_0_r.
    inversion Hm as [| t ? Ht ? | ]; subst; [done| |by apply quota_filter].
    cbn. apply quota_snoc; [|done]. rewrite (nt_id _ _ _ _ Ht).
    rewrite zlen_cons in Hr. pose proof (zlen_nonneg es). apply (issued_fresh last); (done || lia).
  - cbn [fst snd]. rewrite filter_nil, zlen_nil, Z.sub_0_r. cbn [sched_boot sc_tasks]. by rewrite Hsy.
Qed.

Lemma quota_bounds_run env es : forall last s x k,
  sound_run last es s -> issued x last (sc_seq s) -> quota x k (sc_tasks s) ->
  fire_count x (sched_run env es s).2 <= k.
Proof.
  induction es as [|e es IH]; intros last s x k Hs Hx Hk.
  { change (0 <= k). destruct Hk as [[? _]|[? _]]; lia. }
  rewrite run_cons. cbn [snd]. rewrite fire_count_app, fire_count_tag.
  enough (fire_count x (sched_run env es (sched_step env e s).1).2
          <= k - zlen (filter (fires_id x) (sched_step env e s).2)) by lia.
  apply (IH e.1.1); [by eapply sound_step|by eapply issued_step|by eapply quota_step].
Qed.

(** *** Names in use *)

(** Every name in the list was in the file or has been issued. *)
Definition known_name (base : list text) (last : Z) (s : Scheduler) (x : text) : Prop := x ∈ base \/ issued x last (sc_seq s).

Lemma known_step env base last e es s x :
  sound_run last (e :: es) s -> known_name base last s x -> known_name base e.1.1 (sched_step env e s).1 x.
Proof. intros Hs [?|?]; [by left|right; by eapply issued_step]. Qed.

Lemma run_task_id env root now t : st_id (run_task env root now t).1 = st_id t.
Proof. unfold run_task. by destruct (if is_someb _ then _ else _). Qed.

Lemma tasks_known_step env base last e es s :
  sound_run last (e :: es) s -> Forall (fun t => known_name base last s (st_id t)) (sc_tasks s) ->
  Forall (fun t => known_name base e.1.1 (sched_step env e s).1 (st_id t)) (sc_tasks (sched_step env e s).1).
Proof.
  intros Hs Hk. assert (forall x, known_name base last s x -> known_name base e.1.1 (sched_step env e s).1 x) as Hm.
  { intros x. by eapply known_step. }
  assert (forall ts, (forall t, t ∈ ts -> exists u, u ∈ sc_tasks s /\ st_id t = st_id u) ->
    Forall (fun t => known_name base e.1.1 (sched_step env e s).1 (st_id t)) ts) as Hsub.
  { intros ts Hts. apply Forall_forall. intros t Ht. destruct (Hts t Ht) as (u & Hu & ->).
    rewrite Forall_forall in Hk. by apply Hm, Hk. }
  destruct e as [[n w] ev]. pose proof Hs as [(Hl & Hn & -> & Hc) Hl0 Hq Hr Hsy]. cbn [fst] in *.
  destruct ev as [|session call tool args|].
  - apply Hsub. unfold sched_step. rewrite tick_tasks. intros t [_ Ht]%list_elem_of_filter.
    rewrite <- list_fmap_compose in Ht. apply list_elem_of_fmap in Ht as (u & -> & Hu). exists u.
    split; [done|apply run_task_id].
  - revert Hm Hsub. unfold sched_step. pose proof (sched_handle_move env n WroteAll s session tool args) as Hm.
    destruct (sched_handle _ _ _ _ _ _ _) as [s' r]. cbn [fst snd] in *. intros Hmono Hsub.
    inversion Hm as [| t ? Ht ? | keep]; subst.
    + apply Hsub. intros t Ht. by exists t.
    + cbn [push_task save_state with_tasks sc_tasks]. apply Forall_app. split; [apply Hsub; intros u Hu; by exists u|].
      constructor; [|constructor]. right. rewrite (nt_id _ _ _ _ Ht).
      rewrite zlen_cons in Hr. pose proof (zlen_nonneg es).
      exists n, (sc_seq s). split_and!; [done|lia..|]. right. cbn. unfold as_u64. rewrite Z.mod_small; ulia.
    + apply Hsub. intros t [_ Ht]%list_elem_of_filter. by exists t.
  - apply Hsub. unfold sched_step. cbn [fst sched_boot sc_tasks]. rewrite Hsy. intros t Ht. by exists t.
Qed.

Fixpoint last_instant (last : Z) (es : list (Z * FsWrite * SchedEvent (V := V))) : Z :=
  match es with [] => last | e :: es => last_instant e.1.1 es end.

Lemma clock_between es1 e es2 : forall last,
  clock_ok last (es1 ++ e :: es2) -> last <= last_instant last es1 /\ last_instant last es1 <= e.1.1 < 2 ^ 128.
Proof.
  induction es1 as [|[[n w] ev] es1 IH]; intros last; cbn.
  - destruct e as [[n w] ev]. intros (Hl & Hn & _). cbn. destruct ev; lia.
  - intros (Hl & Hn & _ & Hc). specialize (IH n Hc). destruct ev; lia.
Qed.

Lemma sound_run_app env es1 es2 : forall last s,
  sound_run last (es1 ++ es2) s -> sound_run (last_instant last es1) es2 (sched_run env es1 s).1.
Proof.
  induction es1 as [|e es1 IH]; intros last s Hs; [done|]. rewrite run_cons. apply IH.
  by apply sound_step with (last := last).
Qed.

Lemma tasks_known_run env base es1 es2 : forall last s,
  sound_run last (es1 ++ es2) s -> Forall (fun t => known_name base last s (st_id t)) (sc_tasks s) ->
  Forall (fun t => known_name base (last_instant last es1) (sched_run env es1 s).1 (st_id t)) (sc_tasks (sched_run env es1 s).1).
Proof.
  induction es1 as [|e es1 IH]; intros last s Hs Hk; [done|]. rewrite run_cons. apply IH.
  - by apply sound_step with (last := last).
  - by eapply tasks_known_step.
Qed.

(** A name no task carries is not fired in this step. *)
Lemma unknown_unfired env e s x :
  Forall (fun t => st_id t <> x) (sc_tasks s) -> zlen (filter (fires_id x) (sched_step env e s).2) = 0.
Proof.
  intros Hx. destruct e as [[n w] ev]. unfold sched_step. destruct ev as [|session call tool args|]; [|by destruct (sched_handle _ _ _ _ _ _ _)|done].
  rewrite tick_effects. apply (spent_run env 0 (n / 1000000000) x). eapply Forall_impl; [exact Hx|]. naive_solver.
Qed.

Lemma known_run env base x es1 es2 : forall last s,
  sound_run last (es1 ++ es2) s -> known_name base last s x ->
  known_name base (last_instant last es1) (sched_run env es1 s).1 x.
Proof.
  induction es1 as [|e es1 IH]; intros last s Hs Hk; [done|]. rewrite run_cons. apply IH.
  - by apply sound_step with (last := last).
  - by eapply known_step.
Qed.

Lemma unknown_unfired_run env base x es1 es2 : forall last s,
  sound_run last (es1 ++ es2) s -> Forall (fun t => known_name base last s (st_id t)) (sc_tasks s) ->
  ~ known_name base (last_instant last es1) (sched_run env es1 s).1 x ->
  fire_count x (sched_run env es1 s).2 = 0.
Proof.
  induction es1 as [|e es1 IH]; intros last s Hs Hk Hx; [done|]. rewrite run_cons in *. cbn [fst snd last_instant] in *.
  assert (sound_run e.1.1 (es1 ++ es2) (sched_step env e s).1) as Hs' by by eapply sound_step.
  assert (~ known_name base last s x) as Hn.
  { intros Hn. eapply Hx, known_run, known_step; done. }
  rewrite fire_count_app, fire_count_tag, (IH e.1.1), unknown_unfired; [done| |done| |done].
  - eapply Forall_impl; [exact Hk|]. intros t Ht E. apply Hn. by rewrite <- E.
  - by eapply tasks_known_step.
Qed.

(** The step that schedules a wakeup names and arms it. *)
Lemma wakeup_armed env e es last s c1 c2 i :
  sound_run last (e :: es) s -> SchedResult c1 c2 (WakeupScheduled i) ∈ (sched_step env e s).2 ->
  wi_id i = unique_id e.1.1 (sc_seq s) /\
  (Forall (fun t => st_id t <> wi_id i) (sc_tasks s) -> quota (wi_id i) 1 (sc_tasks (sched_step env e s).1)) /\
  sc_seq (sched_step env e s).1 = sc_seq s + 1.
Proof.
  intros Hs Hin. destruct e as [[n w] ev]. destruct Hs as [(Hl & Hn & -> & Hc) Hl0 Hq Hr Hsy].
  unfold sched_step in *. destruct ev as [|session call tool args|].
  - rewrite tick_effects in Hin. exfalso. revert Hin. generalize (sc_tasks s). intros ts.
    induction ts as [|t ts IH]; cbn [fmap list_fmap concat]; [by intros ?%elem_of_nil|].
    intros [Hin|Hin]%elem_of_app; [|done]. unfold run_task in Hin.
    destruct (if is_someb _ then _ else _); cbn [snd] in Hin; [|by apply elem_of_nil in Hin].
    by apply list_elem_of_singleton in Hin.
  - pose proof (sched_handle_move env n WroteAll s session tool args) as Hm.
    destruct (sched_handle _ _ _ _ _ _ _) as [s' r]. cbn [fst snd] in *.
    apply list_elem_of_singleton in Hin. injection Hin as -> -> <-.
    inversion Hm as [r Hr' | t r Ht Hi | keep r Hk Hr']; subst; [by destruct (Hr' i)| |by destruct (Hr' i)].
    destruct (Hi i eq_refl) as [-> Hw]. split_and!; [apply (nt_id _ _ _ _ Ht)| |].
    + intros Hx. right. split; [lia|]. exists (sc_tasks s), t, []. split_and!; [done|by rewrite (nt_kind _ _ _ _ Ht)| |constructor].
      destruct (Hi i eq_refl) as [Ei _]. eapply Forall_impl; [exact Hx|]. cbn. intros u Hu Hut. congruence.
    + cbn. rewrite zlen_cons in Hr. pose proof (zlen_nonneg es). unfold as_u64. rewrite Z.mod_small; ulia.
  - by apply elem_of_nil in Hin.
Qed.

(** C23: A wakeup fires at most once: the name it was given when it was scheduled
    is fired no more than once in the whole run, whatever ticks, calls and
    restarts come before and after.  The run: the writes of the ledger all land;
    the clock never goes back and over a restart it moves forward by at least a
    nanosecond; there are at most 2^64 - 1 events; and no entry of the file it
    starts from has a name that this run's clock and counter could give out. *)
Theorem wakeup_fires_at_most_once env file start es1 e es2 c1 c2 i
    (Hclock : clock_ok start (es1 ++ e :: es2)) (Hstart : 0 <= start) (Hlen : zlen (es1 ++ e :: es2) <= u64_max)
    (Hold : forall t n q, t ∈ load_schedules file -> start <= n < 2 ^ 128 -> 0 <= q <= u64_max -> st_id t <> unique_id n q)
    (Hin : SchedResult c1 c2 (WakeupScheduled i) ∈ (sched_step env e (sched_run env es1 (sched_boot file)).1).2) :
  fire_count (wi_id i) (sched_run env (es1 ++ e :: es2) (sched_boot file)).2 <= 1.
Proof.
  set (base := st_id <$> load_schedules file).
  assert (sound_run start (es1 ++ e :: es2) (sched_boot file)) as Hs by (split; cbn; try done; lia).
  assert (Forall (fun t => known_name base start (sched_boot file) (st_id t)) (sc_tasks (sched_boot file))) as Hk.
  { apply Forall_forall. intros t Ht. left. by apply list_elem_of_fmap_2. }
  pose proof (sound_run_app env _ _ _ _ Hs) as Hs1. pose proof (tasks_known_run env base _ _ _ _ Hs Hk) as Hk1.
  destruct (wakeup_armed env e es2 _ _ c1 c2 i Hs1 Hin) as (Hname & Harm & Hseq).
  assert (start <= last_instant start es1 /\ last_instant start es1 <= e.1.1 < 2 ^ 128) as [Hls Hle] by by eapply clock_between.
  assert (~ known_name base (last_instant start es1) (sched_run env es1 (sched_boot file)).1 (wi_id i)) as Hnew.
  { rewrite Hname. destruct Hs1 as [_ Hl0 Hq Hr _]. rewrite zlen_cons in Hr. pose proof (zlen_nonneg es2).
    intros [(t & E & Ht)%list_elem_of_fmap|Hi]; [eapply Hold; [exact Ht| | |by rewrite E]; lia|].
    eapply issued_fresh; [| | |exact Hi|done]; lia. }
  rewrite run_app. cbn [snd]. rewrite fire_count_app, (unknown_unfired_run env base _ _ _ _ _ Hs Hk Hnew).
  rewrite run_cons. cbn [snd]. rewrite fire_count_app, fire_count_tag, unknown_unfired.
  2: { eapply Forall_impl; [exact Hk1|]. intros t Ht E. apply Hnew. by rewrite <- E. }
  apply (quota_bounds_run env es2 e.1.1); [by eapply sound_step| |].
  - rewrite Hname. destruct Hs1 as [_ Hl0 Hq Hr _]. rewrite zlen_cons in Hr. pose proof (zlen_nonneg es2).
    exists e.1.1, (sc_seq (sched_run env es1 (sched_boot file)).1). split_and!; [done|lia..|]. right. lia.
  - apply Harm. eapply Forall_impl; [exact Hk1|]. intros t Ht E. apply Hnew. by rewrite <- E.
Qed.

(** *** Wakeups ring *)

(** An event that neither reaches the due time nor cancels the task. *)
Definition spares (t : ScheduledTask) (due : Z) (e : Z * FsWrite * SchedEvent (V := V)) : Prop :=
  match e.2 with
  | SchedTick => e.1.1 / 1000000000 < due
  | SchedCall _ _ tool args => ~ cancels tool args t
  | SchedRestart => True
  end.

Lemma pending_spared env t due e s :
  st_at t = Some due -> st_last_run t = None -> e.1.2 = WroteAll -> spares t due e -> synced s -> t ∈ sc_tasks s ->
  t ∈ sc_tasks (sched_step env e s).1.
Proof.
  intros Ha Hl Hw Hsp Hs Ht. destruct e as [[n w] ev]. cbn in Hw. subst w. unfold spares in Hsp. cbn in Hsp.
  unfold sched_step. destruct ev as [|session call tool args|].
  - rewrite tick_tasks. apply list_elem_of_filter. split; [unfold expired; by rewrite Hl, andb_false_r|].
    rewrite <- list_fmap_compose. apply list_elem_of_fmap. exists t. split; [|done]. cbn.
    unfold run_task, one_shot_due. rewrite Ha. cbn [is_someb].
    destruct (Z.leb_spec due (n / 1000000000)); [lia|]. by rewrite andb_false_r.
  - pose proof (sched_handle_move env n WroteAll s session tool args) as Hm.
    destruct (sched_handle _ _ _ _ _ _ _) as [s' r]. cbn [fst snd] in *.
    inversion Hm as [| |keep r' Hk]; subst; [done|apply elem_of_app; by left|].
    cbn. apply list_elem_of_filter. split; [|done]. destruct (keep t) eqn:E; [done|]. by destruct (Hsp (Hk t E)).
  - cbn. by rewrite Hs.
Qed.

Lemma pending_spared_run env t due es : forall s,
  st_at t = Some due -> st_last_run t = None -> Forall (fun e => e.1.2 = WroteAll /\ spares t due e) es -> synced s ->
  t ∈ sc_tasks s -> t ∈ sc_tasks (sched_run env es s).1.
Proof.
  induction es as [|e es IH]; intros s Ha Hl Hes Hs Ht; [done|]. rewrite run_cons. inversion Hes as [|? ? [Hw Hsp] Hes']; subst.
  destruct e as [[n w] ev]. cbn in Hw. subst w.
  apply IH; [done..|by apply step_synced|by eapply pending_spared].
Qed.

Lemma run_task_due env root now t due :
  wakeup_enabled env = true -> st_at t = Some due -> st_last_run t = None -> due <= now ->
  run_task env root now t = (mark_run t now, [Fired true (st_id t) (task_session root t) (fire_prompt t now)]).
Proof.
  intros He Ha Hl Hd. unfold run_task, one_shot_due. rewrite Ha, He, Hl. cbn [is_someb is_noneb negb].
  destruct (Z.leb_spec due now); [|lia]. by rewrite andb_false_r.
Qed.

(** A pending wakeup rings at the first tick at or after its time, whatever
    calls and restarts come before, unless one of them cancels it; it rings in
    the session it was scheduled for and is then marked as run. *)
Theorem wakeup_rings_when_due env s es t due n w
    (Hen : wakeup_enabled env = true) (Hs : synced s) (Ht : t ∈ sc_tasks s) (Hw : st_wakeup t = true)
    (Hat : st_at t = Some due) (Hlr : st_last_run t = None)
    (Hes : Forall (fun e => e.1.2 = WroteAll /\ spares t due e) es) (Hdue : due <= n / 1000000000) :
  let now := n / 1000000000 in
  (now, Fired true (st_id t) (wakeup_fire_session t 0) (wakeup_frame t now)) ∈ (sched_run env (es ++ [(n, w, SchedTick)]) s).2 /\
  mark_run t now ∈ sc_tasks (sched_run env (es ++ [(n, w, SchedTick)]) s).1.
Proof.
  intros now. pose proof (pending_spared_run env t due es s Hat Hlr Hes Hs Ht) as Hp.
  rewrite run_app, run_cons. cbn [fst snd sched_run]. unfold sched_step. fold now. split.
  - apply elem_of_app. right. rewrite app_nil_r, tick_effects. apply list_elem_of_fmap_2.
    apply list_elem_of_In, in_concat. exists [Fired true (st_id t) (wakeup_fire_session t 0) (wakeup_frame t now)]. split; [|by left].
    apply list_elem_of_In. rewrite <- list_fmap_compose. apply list_elem_of_fmap. exists t. split; [|done].
    unfold Basics.compose. rewrite (run_task_due env 0 _ t due) by done. cbn [snd]. unfold task_session, fire_prompt. by rewrite Hat, Hw.
  - rewrite tick_tasks. apply list_elem_of_filter. split.
    { unfold expired. cbn [mark_run st_wakeup st_last_run]. unfold sat_sub, WAKEUP_FIRED_RETENTION_SECS.
      destruct (Z.ltb_spec (48 * 3600) (Z.max (now - now) 0)); [lia|]. by rewrite andb_false_r. }
    rewrite <- list_fmap_compose. apply list_elem_of_fmap. exists t. split; [|done]. unfold Basics.compose.
    by rewrite (run_task_due env 0 _ t due) by done.
Qed.

Lemma run_task_fires env root now t f :
  f ∈ (run_task env root now t).2 <->
  f = Fired (is_someb (st_at t)) (st_id t) (task_session root t) (fire_prompt t now) /\
  (if is_someb (st_at t) then one_shot_due env t now else cron_due t now) = true.
Proof.
  unfold run_task. destruct (if is_someb _ then _ else _); cbn [snd]; rewrite ?list_elem_of_singleton, ?elem_of_nil.
  - by split; [|intros [? _]].
  - by split; [|intros [_ ?]].
Qed.

Lemma task_due_iff env now t :
  (if is_someb (st_at t) then one_shot_due env t now else cron_due t now) = true <->
  match st_at t with
  | Some due => (st_wakeup t = true -> wakeup_enabled env = true) /\ st_last_run t = None /\ due <= now
  | None => exists c next, parse_cron (st_cron t) = Some c /\ next_after c (last_dt t now) = Some next /\ next <= now_dt now
  end.
Proof.
  unfold one_shot_due, cron_due. destruct (st_at t) as [due|]; cbn [is_someb].
  - destruct (Z.leb_spec due now), (st_wakeup t), (wakeup_enabled env), (st_last_run t); cbn;
      split; try done; intros (He & Hl & Hd); try lia; try done; by specialize (He eq_refl).
  - destruct (parse_cron (st_cron t)) as [c|]; [|by split; [|intros (? & ? & ? & _)]].
    destruct (next_after c (last_dt t now)) as [next|] eqn:E.
    + rewrite Z.leb_le. split; [by exists c, next|]. intros (c' & next' & [= <-] & E' & ?). congruence.
    + split; [done|]. intros (c' & next' & [= <-] & E' & _). congruence.
Qed.

(** What a tick fires: the one-shots that are due and have not run (a wakeup
    only while wakeups are enabled), and the crons whose next event after their
    last run has come; and a wakeup is never fired into a worker's or a
    spawned session, whatever the file says. *)
Theorem tick_fires_exactly env now w s f :
  (f ∈ (tick env 0 now w s).2 <->
   exists t, t ∈ sc_tasks s /\ f = Fired (is_someb (st_at t)) (st_id t) (task_session 0 t) (fire_prompt t now) /\
     match st_at t with
     | Some due => (st_wakeup t = true -> wakeup_enabled env = true) /\ st_last_run t = None /\ due <= now
     | None => exists c next, parse_cron (st_cron t) = Some c /\ next_after c (last_dt t now) = Some next /\ next <= now_dt now
     end) /\
  (forall t, t ∈ sc_tasks s -> st_wakeup t = true -> is_someb (st_at t) = true ->
     is_worker_session (task_session 0 t) = false /\ is_spawn_session (task_session 0 t) = false).
Proof.
  split.
  - rewrite tick_effects, list_elem_of_In, in_concat. setoid_rewrite <- list_elem_of_In. split.
    + intros (l & Hl & Hf). rewrite <- list_fmap_compose in Hl. apply list_elem_of_fmap in Hl as (t & -> & Ht).
      apply run_task_fires in Hf as [-> Hf]. exists t. by rewrite <- task_due_iff.
    + intros (t & Ht & -> & Hd). exists (run_task env 0 now t).2. rewrite run_task_fires, task_due_iff. split; [|done].
      rewrite <- list_fmap_compose. by apply (list_elem_of_fmap_2 (snd ∘ run_task env 0 now)).
  - intros t _ Hw Ha. unfold task_session. rewrite Ha, Hw. cbn [andb]. unfold wakeup_fire_session.
    destruct (st_session_id t) as [x|]; [|by split].
    destruct (x =? 0), (is_worker_session x) eqn:E1, (is_spawn_session x) eqn:E2; by split.
Qed.

(** A cron that fired does not fire again at the same instant. *)
Lemma cron_not_twice `{!CronLaws} env root now t :
  st_at t = None -> timestamp_ok (as_i64 now) = true -> run_task env root now (mark_run t now) = (mark_run t now, []).
Proof.
  intros Ha Ho. unfold run_task, cron_due, last_dt, now_dt. cbn [mark_run st_at st_cron st_last_run]. rewrite Ha, Ho.
  cbn [is_someb default]. unfold id. rewrite Ho. destruct (parse_cron _) as [c|]; [|done].
  destruct (next_after c _) as [next|] eqn:E; [|done]. apply next_after_later in E.
  destruct (Z.leb_spec next (as_i64 now)); [lia|done].
Qed.

(** *** The daily cap *)

Definition one_shot_fired (f : SchedEffect) : bool := match f with Fired b _ _ _ => b | _ => false end.

(** The one-shots a run fired on a UTC day. *)
Definition fires_on (day : Z) (out : list (Z * SchedEffect)) : Z :=
  zlen (filter (fun e => one_shot_fired e.2 && (utc_day e.1 =? day)) out).

Lemma fires_on_app day a b : fires_on day (a ++ b) = fires_on day a + fires_on day b.
Proof. unfold fires_on. by rewrite filter_app, zlen_app. Qed.

Lemma fires_on_tag day now out :
  fires_on day ((fun f => (now, f)) <$> out) = if utc_day now =? day then zlen (filter one_shot_fired out) else 0.
Proof.
  unfold fires_on. induction out as [|f out IH]; [by destruct (_ =? _)|]. cbn [fmap list_fmap].
  rewrite !filter_cons. cbn [fst snd]. destruct (utc_day now =? day); [rewrite andb_true_r|rewrite andb_false_r].
  - destruct (decide _); rewrite ?zlen_cons; by rewrite IH.
  - rewrite decide_False by tauto. done.
Qed.

(** How many entries satisfy [f]. *)
Definition count (f : ScheduledTask -> bool) (ts : list ScheduledTask) : Z := zlen (filter f ts).

Lemma count_app f a b : count f (a ++ b) = count f a + count f b.
Proof. unfold count. by rewrite filter_app, zlen_app. Qed.
Lemma count_cons f t ts : count f (t :: ts) = (if f t then 1 else 0) + count f ts.
Proof. unfold count. rewrite filter_cons. destruct (f t); [apply zlen_cons|done]. Qed.

Lemma count_filter f (keep : ScheduledTask -> bool) ts :
  (forall t, t ∈ ts -> f t = true -> keep t = true) -> count f (filter keep ts) = count f ts.
Proof.
  induction ts as [|t ts IH]; intros Hk; [done|]. rewrite filter_cons, count_cons, <- IH by (intros; apply Hk; [by right|done]).
  destruct (decide (keep t)) as [Ht|Ht]; [by rewrite count_cons|].
  destruct (f t) eqn:E; [|lia]. exfalso. apply Ht. rewrite (Hk t); [done|by left|done].
Qed.

Lemma count_filter_le f (keep : ScheduledTask -> bool) ts : count f (filter keep ts) <= count f ts.
Proof.
  induction ts as [|t ts IH]; [done|]. rewrite filter_cons, count_cons.
  destruct (decide _); rewrite ?count_cons; destruct (f t); lia.
Qed.

(** Entries as the handlers make them: the one-shots are the wakeups. *)
Definition made (ts : list ScheduledTask) : Prop := Forall (fun t => is_someb (st_at t) = st_wakeup t) ts.

Lemma run_task_ledger env root now day t :
  is_someb (st_at t) = st_wakeup t ->
  let r := run_task env root now t in
  let k := zlen (filter one_shot_fired r.2) in
  is_someb (st_at r.1) = st_wakeup r.1 /\
  (if is_pending r.1 then 1 else 0) + k = (if is_pending t then 1 else 0) /\
  (if fired_on day r.1 then 1 else 0) = (if fired_on day t then 1 else 0) + (if utc_day now =? day then k else 0).
Proof.
  intros Hm. unfold run_task. destruct (if is_someb (st_at t) then _ else _) eqn:E; cbn [fst snd].
  2: { change (zlen (filter _ [])) with 0. destruct (utc_day now =? day); split_and!; (done || lia). }
  rewrite filter_one. cbn [one_shot_fired mark_run st_at st_wakeup].
  unfold is_pending, fired_on. cbn [mark_run st_last_run st_wakeup is_noneb].
  rewrite Hm in E |- *. destruct (st_wakeup t) eqn:Hw; cbn [andb].
  - unfold one_shot_due in E. destruct (st_at t); [|done]. destruct (st_last_run t); [by rewrite andb_false_r in E|].
    cbn. destruct (utc_day now =? day); split_and!; (done || lia).
  - change (zlen (@nil SchedEffect)) with 0. destruct (utc_day now =? day); split_and!; (done || lia).
Qed.

Lemma run_ledger env root now day ts :
  made ts ->
  let k := zlen (filter one_shot_fired (concat ((run_task env root now <$> ts).*2))) in
  made (run_task env root now <$> ts).*1 /\
  count is_pending (run_task env root now <$> ts).*1 + k = count is_pending ts /\
  count (fired_on day) (run_task env root now <$> ts).*1 = count (fired_on day) ts + (if utc_day now =? day then k else 0).
Proof.
  induction 1 as [|t ts Ht _ IH].
  { split_and!; [constructor|reflexivity|]. destruct (utc_day now =? day); reflexivity. }
  cbn [fmap list_fmap concat] in *.
  destruct IH as (Im & Ip & If). destruct (run_task_ledger env root now day t Ht) as (Hm & Hp & Hf).
  rewrite filter_app, zlen_app, !count_cons. split_and!; [by constructor|lia|].
  destruct (utc_day now =? day); lia.
Qed.

(** The most wakeups that can fire on one UTC day. *)
Definition day_bound (env : SchedEnv) : Z := Z.max 0 (wakeup_max_pending env + wakeup_daily_cap env - 1).

(** [acc] one-shots have fired on [day] by the instant [last]. *)
Record ledger (env : SchedEnv) (day last acc : Z) (s : Scheduler) : Prop := {
  lg_bound : acc <= day_bound env;
  lg_before : utc_day (last / 1000000000) < day -> acc = 0 /\ count (fired_on day) (sc_tasks s) = 0;
  lg_during : utc_day (last / 1000000000) <= day ->
    acc = count (fired_on day) (sc_tasks s) /\ count is_pending (sc_tasks s) + acc <= day_bound env;
  lg_made : made (sc_tasks s)
}.

Lemma day_le a b : a <= b -> utc_day (a / 1000000000) <= utc_day (b / 1000000000).
Proof. intros. unfold utc_day. by repeat apply Z.div_le_mono. Qed.

Lemma made_filter (keep : ScheduledTask -> bool) ts : made ts -> made (filter keep ts).
Proof. unfold made. rewrite !Forall_forall. intros Hm t [_ Ht]%list_elem_of_filter. by apply Hm. Qed.

(** Pruning never touches what was fired today or later. *)
Lemma unexpired now day t : utc_day now <= day -> fired_on day t = true -> negb (expired now t) = true.
Proof.
  unfold fired_on, expired. destruct (st_last_run t) as [r|]; [|by rewrite andb_false_r].
  intros Hd [_ Hr]%andb_true_iff. unfold utc_day, WAKEUP_FIRED_RETENTION_SECS, sat_sub in *.
  destruct (Z.ltb_spec (48 * 3600) (Z.max (now - r) 0)); [|by rewrite andb_false_r].
  apply Z.eqb_eq in Hr. pose proof (Z.div_le_mono (r + 86400) now 86400). 
  replace (r + 86400) with (r + 1 * 86400) in * by lia. rewrite Z.div_add in * by lia. lia.
Qed.

Lemma ledger_tick env day last n w acc s :
  last <= n -> ledger env day last acc s ->
  ledger env day n (acc + (if utc_day (n / 1000000000) =? day
    then zlen (filter one_shot_fired (tick env 0 (n / 1000000000) w s).2) else 0))
    (tick env 0 (n / 1000000000) w s).1.
Proof.
  intros Hln [Hb Hbef Hdur Hm]. apply day_le in Hln. set (now := n / 1000000000) in *.
  rewrite tick_effects. destruct (run_ledger env 0 now day (sc_tasks s) Hm) as (Im & Ip & If).
  set (ts' := (run_task env 0 now <$> sc_tasks s).*1) in *.
  set (k := zlen (filter one_shot_fired _)) in *.
  assert (utc_day now <= day -> count (fired_on day) (filter (fun t => negb (expired now t)) ts') = count (fired_on day) ts') as Hkeep.
  { intros Hd. apply count_filter. intros t _. by apply unexpired. }
  pose proof (count_filter_le is_pending (fun t => negb (expired now t)) ts') as Hle. cbv beta in Hle.
  assert (0 <= k) by apply zlen_nonneg.
  split; rewrite ?tick_tasks; fold ts'; [| | |by apply made_filter].
  - destruct (Z.eqb_spec (utc_day now) day); [|lia]. destruct Hdur as [-> ?]; [lia|].
    assert (0 <= count is_pending ts') by apply zlen_nonneg. lia.
  - intros Hd; fold now in Hd. rewrite Hkeep, If by lia. destruct (Z.eqb_spec (utc_day now) day); [lia|]. destruct Hbef as [-> ?]; lia.
  - intros Hd; fold now in Hd. rewrite Hkeep, If by lia. destruct Hdur as [-> ?]; [lia|]. destruct (Z.eqb_spec (utc_day now) day); lia.
Qed.

Definition no_cancel_schedule (e : Z * FsWrite * SchedEvent (V := V)) : Prop :=
  match e.2 with SchedCall _ _ tool _ => tool <> chars "cancel_schedule" | _ => True end.

Lemma ledger_call env day last n w acc s session tool args :
  last <= n -> tool <> chars "cancel_schedule" -> ledger env day last acc s ->
  ledger env day n acc (sched_handle env n w s session tool args).1.
Proof.
  intros Hln Ht [Hb Hbef Hdur Hm]. apply day_le in Hln. set (now := n / 1000000000) in *.
  pose proof (sched_handle_move env n w s session tool args) as Hmv.
  destruct (sched_handle _ _ _ _ _ _ _) as [s' r]. cbn [fst snd] in *.
  inversion Hmv as [| t r' Hn _ |keep r' Hk _]; subst.
  - split; [done| | |done]; intros Hd; fold now in Hd; [apply Hbef|apply Hdur]; lia.
  - pose proof (nt_kind _ _ _ _ Hn) as Hkind. pose proof (nt_caps _ _ _ _ Hn) as Hcaps. pose proof (nt_run _ _ _ _ Hn) as Hrun.
    assert (fired_on day t = false) as Hf by (unfold fired_on; rewrite Hrun; apply andb_false_r).
    split; cbn [push_task take_id save_state with_tasks sc_tasks snd]; rewrite ?count_app, ?count_cons, ?Hf.
    + done.
    + intros Hd; fold now in Hd. destruct Hbef as [-> ?]; [lia|]. split; [done|]. change (count (fired_on day) []) with 0. lia.
    + intros Hd; fold now in Hd. change (count (fired_on day) []) with 0. change (count is_pending []) with 0. fold now in Hcaps.
      destruct Hdur as [Ha Hp]; [lia|]. split; [lia|].
      assert (is_pending t = st_wakeup t) as -> by (unfold is_pending; rewrite Hrun; apply andb_true_r).
      destruct (st_wakeup t); [|lia]. specialize (Hcaps eq_refl) as [Hc1 Hc2].
      change (pending_wakeups (sc_tasks s)) with (count is_pending (sc_tasks s)) in Hc1.
      change (fired_today (sc_tasks s) now) with (count (fired_on (utc_day now)) (sc_tasks s)) in Hc2.
      assert (0 <= count (fired_on (utc_day now)) (sc_tasks s)) by apply zlen_nonneg. unfold day_bound in *.
      destruct (decide (utc_day now = day)) as [Heq|Hne]; [rewrite Heq in Hc2; lia|]. destruct Hbef as [-> ?]; lia.
    + apply Forall_app. split; [done|]. by repeat constructor.
  - assert (count (fired_on day) (filter keep (sc_tasks s)) = count (fired_on day) (sc_tasks s)) as Hc.
    { apply count_filter. intros t _ Hf. destruct (keep t) eqn:E; [done|].
      destruct (Hk t E) as [[? _]|(_ & _ & Hp)]; [done|]. unfold is_pending, fired_on in *.
      destruct (st_last_run t); [by rewrite andb_false_r in Hp|by rewrite andb_false_r in Hf]. }
    pose proof (count_filter_le is_pending keep (sc_tasks s)).
    split; cbn [save_state with_tasks sc_tasks]; rewrite ?Hc; [done| | |by apply made_filter];
      intros Hd; fold now in Hd; [apply Hbef; lia|]. destruct Hdur as [-> ?]; lia.
Qed.

Lemma ledger_step env day last e es s acc :
  sound_run last (e :: es) s -> no_cancel_schedule e -> ledger env day last acc s ->
  ledger env day e.1.1 (acc + fires_on day ((fun f => (e.1.1 / 1000000000, f)) <$> (sched_step env e s).2)) (sched_step env e s).1.
Proof.
  intros Hs Hn Hl. rewrite fires_on_tag. destruct e as [[n w] ev]. destruct Hs as [(Hln & _ & -> & _) _ _ _ Hsy].
  unfold sched_step, no_cancel_schedule in *. cbn [fst snd] in *. destruct ev as [|session call tool args|].
  - by apply ledger_tick with (last := last).
  - pose proof (ledger_call env day last n WroteAll acc s session tool args Hln Hn Hl) as Hc.
    destruct (sched_handle _ _ _ _ _ _ _) as [s' r]. cbn [fst snd] in *. rewrite filter_one. cbn [one_shot_fired].
    rewrite zlen_nil. destruct (_ =? _); by rewrite Z.add_0_r.
  - cbn [fst snd]. change (zlen (filter one_shot_fired [])) with 0.
    replace (acc + (if utc_day (n / 1000000000) =? day then 0 else 0)) with acc by (destruct (_ =? _); lia).
    destruct Hl as [Hb Hbef Hdur Hm]. assert (last <= n) as Hle%day_le by lia.
    split; cbn [sched_boot sc_tasks]; rewrite ?Hsy; [done| | |done]; intros Hd; [apply Hbef|apply Hdur]; lia.
Qed.

Lemma ledger_run env day es : forall last s acc,
  sound_run last es s -> Forall no_cancel_schedule es -> ledger env day last acc s ->
  acc + fires_on day (sched_run env es s).2 <= day_bound env.
Proof.
  induction es as [|e es IH]; intros last s acc Hs Hn Hl.
  { change (acc + 0 <= day_bound env). destruct Hl. lia. }
  rewrite run_cons. cbn [snd]. rewrite fires_on_app, Z.add_assoc. inversion Hn; subst.
  apply (IH e.1.1); [by eapply sound_step|done|by eapply ledger_step].
Qed.

(** On one UTC day at most [pending cap + daily cap - 1] wakeups fire: the
    daily cap is only asked when one is scheduled, so those still pending when
    it is reached fire as well.  No call of [cancel_schedule] is among them
    (see [cancel_schedule_edits_the_ledger]). *)
Theorem wakeups_of_a_day_bounded env start es day
    (Hclock : clock_ok start es) (Hstart : 0 <= start) (Hlen : zlen es <= u64_max)
    (Hnc : Forall no_cancel_schedule es) :
  fires_on day (sched_run env es (sched_boot None)).2 <= day_bound env.
Proof.
  apply (ledger_run env day es start (sched_boot None) 0); [by split|done|].
  assert (0 <= day_bound env) by (unfold day_bound; lia).
  split; [done|by intros _|intros _; split; [done|]|constructor].
  change (0 + 0 <= day_bound env). lia.
Qed.

(** *** Who may take a wakeup away *)

Lemma retain_spec w keep gone missing s :
  Exists (fun t => keep t = false) (sc_tasks s) ->
  (retain_tasks w keep gone missing s).2 = gone /\
  sc_tasks (retain_tasks w keep gone missing s).1 = filter keep (sc_tasks s).
Proof.
  intros He. unfold retain_tasks.
  destruct (Z.eqb_spec (zlen (filter keep (sc_tasks s))) (zlen (sc_tasks s))) as [E|E]; [|by split].
  apply filter_same_length in E. apply Exists_exists in He as (t & Ht & Hk). rewrite <- E in Ht.
  apply list_elem_of_filter in Ht as [Hk' _]. by rewrite Hk in Hk'.
Qed.

(** A task named in a call of [cancel_schedule] is gone, wakeup or cron. *)
Lemma cancel_schedule_removes w s args id :
  arg_str args (chars "schedule_id") = Some id ->
  Exists (fun t => st_id t = id) (sc_tasks s) ->
  (handle_cancel_schedule w s args).2 = ScheduleCancelled id /\
  sc_tasks (handle_cancel_schedule w s args).1 = filter (fun t => negb (bool_decide (st_id t = id))) (sc_tasks s).
Proof.
  intros Ha He. unfold handle_cancel_schedule. rewrite Ha. apply retain_spec.
  eapply Exists_impl; [exact He|]. intros t Hid. by rewrite bool_decide_eq_true_2.
Qed.

(** The gate keeps a guest from [schedule_wakeup] and [cancel_wakeup], which
    leave everything as it was; but [cancel_schedule] goes through for anyone
    and takes a pending wakeup like any other entry. *)
Theorem guest_gate_has_a_side_door node bindings env nanos w s session call args t
    (Hguest : resolve_agent_id node bindings session <> node) (Ht : t ∈ sc_tasks s)
    (Hid : arg_str args (chars "schedule_id") = Some (st_id t)) :
  (forall tool args', guest_mutator tool = true ->
     route_schedule node bindings ChannelOpen env nanos w s session call tool args' = (s, [SchedResult session call GuestRefused])) /\
  let out := route_schedule node bindings ChannelOpen env nanos w s session call (chars "cancel_schedule") args in
  out.2 = [SchedResult session call (ScheduleCancelled (st_id t))] /\ t ∉ sc_tasks out.1.
Proof.
  split.
  - intros tool args' Hg. unfold route_schedule. by rewrite Hg, bool_decide_eq_false_2.
  - assert (Exists (fun u => st_id u = st_id t) (sc_tasks s)) as He by (apply Exists_exists; by exists t).
    destruct (cancel_schedule_removes w s args (st_id t) Hid He) as [Hr Hts].
    assert (route_schedule node bindings ChannelOpen env nanos w s session call (chars "cancel_schedule") args =
      ((handle_cancel_schedule w s args).1, [SchedResult session call (handle_cancel_schedule w s args).2])) as ->.
    { unfold route_schedule. change (guest_mutator (chars "cancel_schedule")) with false. cbn [andb].
      change (sched_handle env nanos w s session (chars "cancel_schedule") args) with (handle_cancel_schedule w s args).
      by destruct (handle_cancel_schedule w s args). }
    cbn [fst snd]. rewrite Hr, Hts. split; [done|]. intros [Hk _]%list_elem_of_filter.
    rewrite bool_decide_eq_true_2 in Hk by done. destruct Hk.
Qed.

(** The fired entries are the daily cap's ledger, and [cancel_schedule] edits
    it: cancelling one fired today makes room for another. *)
Lemma cancel_schedule_edits_the_ledger w s args now t :
  t ∈ sc_tasks s -> fired_on (utc_day now) t = true -> arg_str args (chars "schedule_id") = Some (st_id t) ->
  fired_today (sc_tasks (handle_cancel_schedule w s args).1) now < fired_today (sc_tasks s) now.
Proof.
  intros Ht Hf Ha. destruct (cancel_schedule_removes w s args (st_id t) Ha) as [_ ->].
  { apply Exists_exists. by exists t. }
  change (count (fired_on (utc_day now)) (filter (fun u => negb (bool_decide (st_id u = st_id t))) (sc_tasks s))
          < count (fired_on (utc_day now)) (sc_tasks s)).
  apply list_elem_of_split in Ht as (l & r & ->). rewrite filter_app, !count_app, filter_cons, count_cons, Hf.
  rewrite decide_False by (rewrite bool_decide_eq_true_2 by done; by intros []).
  pose proof (count_filter_le (fired_on (utc_day now)) (fun u => negb (bool_decide (st_id u = st_id t))) l) as H1l.
  pose proof (count_filter_le (fired_on (utc_day now)) (fun u => negb (bool_decide (st_id u = st_id t))) r) as H1r.
  cbv beta in H1l, H1r. lia.
Qed.

(** What the next process reads, whatever the write did: all the tasks, the
    old file's, or, if power failed part way, a prefix of them; never a task
    that was not there. *)
Theorem schedules_survive_a_write w s :
  exists k, load_schedules (sc_file (save_state w s)) =
  match w with
  | WroteAll => sc_tasks s
  | WroteNone => load_schedules (sc_file s)
  | WroteCut _ => take k (sc_tasks s)
  end.
Proof.
  destruct w as [| |n]; cbn [save_state sc_file save_schedules].
  - exists 0%nat. apply load_content.
  - by exists 0%nat.
  - apply cut_content.
Qed.
End steps.

(** ** Concrete instances and runs *)

#[export] Instance ToyChrono : Chrono :=
  {| parse_rfc3339 := parse_u64; timestamp_ok _ := true; print_rfc3339 t := dec_text (Z.abs t) |}.

#[export] Instance ToyCron : CronOps :=
  {| CronSchedule := nat;
     parse_cron s := Z.to_nat <$> parse_u64 s;
     next_after p t := Some (t + 1 + Z.of_nat p) |}.

#[export] Instance ToyCronLaws : CronLaws.
Proof. split. cbn. intros s t n [= <-]. lia. Qed.

Definition task_tuple (t : ScheduledTask) :=
  (st_id t, st_cron t, st_prompt t, st_session_id t, st_created_at t, st_last_run t, st_at t, st_wakeup t).
Definition tuple_task (x : text * text * text * option Z * Z * option Z * option Z * bool) : ScheduledTask :=
  let '(i, c, p, s, k, l, a, w) := x in mkTask i c p s k l a w.

#[export] Instance ScheduledTask_countable : Countable ScheduledTask.
Proof. apply (inj_countable' task_tuple tuple_task). by intros []. Defined.

(** A task is a line of bits. *)
#[export] Instance ToyTaskJson : TaskJson :=
  {| task_to_json t := Some (bit_text (encode t)); task_of_json s := read_bits s ≫= decode |}.

#[export] Instance ToyTaskJsonLaws : TaskJsonLaws.
Proof.
  split; cbn.
  - intros t. rewrite read_bit_text. apply decode_encode.
  - intros t s [= <-]. apply bit_text_shape.
  - intros t s [= <-]. apply bit_text_shape.
  - intros t s n [= <-] Hn. by rewrite read_bits_prefix.
Qed.

Definition sched_env : SchedEnv := mkSchedEnv None (Some (chars "2")) (Some (chars "2")).

Definition wake_args (delay : string) : Toy :=
  ToyObj [(chars "note", ToyStr (chars "look again")); (chars "delay_secs", ToyStr (chars delay))].

Definition wake_call (delay : string) : SchedEvent (V := Toy) := SchedCall 5 1 (chars "schedule_wakeup") (wake_args delay).

Definition giga : Z := 1000000000.

(** One fires; then two more are scheduled before the cap of two is met. *)
Definition busy_day : list (Z * FsWrite * SchedEvent (V := Toy)) :=
  [(100 * giga, WroteAll, wake_call "60"); (160 * giga, WroteAll, SchedTick);
   (170 * giga, WroteAll, wake_call "60"); (171 * giga, WroteAll, wake_call "60");
   (240 * giga, WroteAll, SchedTick)].

(** Three wakeups on a day whose cap is two. *)
Example daily_cap_exceeded :
  fires_on 0 (sched_run sched_env busy_day (sched_boot None)).2 = 3 /\ wakeup_daily_cap sched_env = 2.
Proof. split; vm_compute; reflexivity. Qed.

Definition toy_first : list (Z * FsWrite * SchedEvent (V := Toy)) :=
  [(160 * giga, WroteAll, SchedRestart); (161 * giga, WroteAll, SchedTick); (220 * giga, WroteAll, SchedTick)].

Definition toy_info : WakeupInfo :=
  mkWakeupInfo (unique_id (100 * giga) 0) (rfc3339 160) 60 (Some 5) 1 0 2.

Lemma wakeup_fires_at_most_once_witness :
  fire_count (wi_id toy_info)
    (sched_run sched_env ([] ++ (100 * giga, WroteAll, wake_call "60") :: toy_first) (sched_boot None)).2 <= 1.
Proof.
  apply (wakeup_fires_at_most_once sched_env None 0 [] (100 * giga, WroteAll, wake_call "60") toy_first 5 1 toy_info).
  - vm_compute. repeat split; discriminate.
  - lia.
  - vm_compute. discriminate.
  - by intros t n q ?%elem_of_nil.
  - apply list_elem_of_singleton. vm_compute. reflexivity.
Defined.

Definition toy_pending : ScheduledTask :=
  mkTask (chars "sched_1_0") [] (chars "look again") (Some 5) 100 None (Some 160) true.
Definition toy_state : Scheduler := mkScheduler [toy_pending] 1 (Some (schedules_content [toy_pending])).

Lemma wakeup_rings_when_due_witness :
  (200 * giga / 1000000000, Fired true (st_id toy_pending) (wakeup_fire_session toy_pending 0)
    (wakeup_frame toy_pending (200 * giga / 1000000000))) ∈
  (sched_run sched_env ([(150 * giga, WroteAll, SchedTick); (170 * giga, WroteAll, SchedRestart (V := Toy))]
     ++ [(200 * giga, WroteCut 3, SchedTick)]) toy_state).2.
Proof.
  refine (proj1 (wakeup_rings_when_due sched_env toy_state
    [(150 * giga, WroteAll, SchedTick); (170 * giga, WroteAll, SchedRestart)] toy_pending 160 (200 * giga) (WroteCut 3)
    _ _ _ _ _ _ _ _)).
  - vm_compute. reflexivity.
  - exact (load_content [toy_pending]).
  - by left.
  - reflexivity.
  - reflexivity.
  - reflexivity.
  - repeat constructor.
  - vm_compute. discriminate.
Defined.

Lemma wakeups_of_a_day_bounded_witness :
  fires_on 0 (sched_run sched_env busy_day (sched_boot None)).2 <= 3.
Proof.
  apply (wakeups_of_a_day_bounded sched_env 0 busy_day 0).
  - vm_compute. repeat split; discriminate.
  - lia.
  - vm_compute. discriminate.
  - repeat constructor; vm_compute; discriminate.
Defined.

Definition guest_args : Toy := ToyObj [(chars "schedule_id", ToyStr (chars "sched_1_0"))].

Lemma guest_gate_has_a_side_door_witness :
  sc_tasks (route_schedule (chars "apex") (Some {[ 7 := chars "guest" ]}) ChannelOpen sched_env 0 WroteAll toy_state 7 1
    (chars "cancel_schedule") guest_args).1 = [].
Proof.
  destruct (guest_gate_has_a_side_door (chars "apex") (Some {[ 7 := chars "guest" ]}) sched_env 0 WroteAll toy_state 7 1
    guest_args toy_pending) as [_ [_ Hn]].
  - vm_compute. discriminate.
  - by left.
  - reflexivity.
  - vm_compute. reflexivity.
Defined.

Lemma schedules_survive_a_write_witness :
  exists k, load_schedules (sc_file (save_state (WroteCut 20) toy_state)) = take k [toy_pending].
Proof. exact (schedules_survive_a_write (WroteCut 20) toy_state). Defined.
