(* ===== verification/Turn.v ===== *)
(** * The turn engine

    [agentd/crates/agent/src/turn.rs] with the image shim it uses
    ([core/src/vision.rs]).  A turn alternates provider rounds and tool rounds.
    What the world does in one round is the record [Round]: whether the permit
    was granted, the stream's chunks (before each, how many action ids other
    turns drew), what the bus delivered and when.  Times are milliseconds.
    Effects are listed in the order they happen.  Third-party: JSON
    ([JsonArgs], [JsonNums], [JsonValue], [JsonDoc]), the image and base64
    crates ([ImageOps]); files are read through [read_bytes]. *)
From S2P Require Import Prelude Text Confine Policy Connectivity Protocol Gate History.

(** ** The image shim *)

Definition DEFAULT_MAX_EDGE : Z := 1024.
Definition TOKEN_PIXEL_DIVISOR : Z := 750.

(** The decoder may fail, or panic (the outer [Err], what the join error
    says); encoders may fail. *)
Class ImageOps := {
  Img : Type;
  load_from_memory : bytes -> result (result Img text) text;
  img_width : Img -> Z;
  img_height : Img -> Z;
  img_resize : Z -> Z -> Img -> Img;
  has_alpha : Img -> bool;
  write_png : Img -> result bytes text;
  encode_jpeg : Img -> result bytes text;
  b64_encode : bytes -> text;
  b64_decode : text -> result bytes text
}.

(** [resize] fits the image into the box; dimensions are [u32]. *)
Class ImageLaws `{!ImageOps} : Prop := {
  resize_fits w h i : 0 < w -> 0 < h -> 0 <= img_width (img_resize w h i) <= w /\ 0 <= img_height (img_resize w h i) <= h;
  dims_u32 i : is_u32 (img_width i) /\ is_u32 (img_height i)
}.

Record PreparedImage := mkPrepared {
  pi_media_type : text;
  pi_b64 : text;
  pi_width : Z;
  pi_height : Z;
  pi_est_tokens : Z
}.

(** [n.clamp(128, 4096)] of [VISION_MAX_EDGE] when it parses as a [u32]. *)
Definition max_edge_from_env (var : option text) : Z :=
  match var ≫= (fun s => parse_u64 (trim s)) with
  | Some n => if n <=? u32_max then Z.min (Z.max n 128) 4096 else DEFAULT_MAX_EDGE
  | None => DEFAULT_MAX_EDGE
  end.

Section vision.
Context `{!ImageOps}.

Definition shrink (max_edge : Z) (img : Img) : Img :=
  if max_edge <? Z.max (img_width img) (img_height img) then img_resize max_edge max_edge img else img.

Definition est_tokens (width height : Z) : Z := Z.min (div_ceil (width * height) TOKEN_PIXEL_DIVISOR) u32_max.

Definition prepare_image_with_max_edge (data : bytes) (max_edge : Z) : result (result PreparedImage text) text :=
  match load_from_memory data with
  | Err p => Err p
  | Ok r => Ok (
      img <-! map_err (fun e => chars "decode image: " ++ e) r;
      let img := shrink max_edge img in
      enc <-! (if has_alpha img
               then out <-! map_err (fun e => chars "encode png: " ++ e) (write_png img); Ok (out, chars "image/png")
               else out <-! map_err (fun e => chars "encode jpeg: " ++ e) (encode_jpeg img); Ok (out, chars "image/jpeg"));
      Ok (mkPrepared enc.2 (b64_encode enc.1) (img_width img) (img_height img) (est_tokens (img_width img) (img_height img))))
  end.

Definition prepare_image (edge_var : option text) (data : bytes) : result (result PreparedImage text) text :=
  prepare_image_with_max_edge data (max_edge_from_env edge_var).

Definition prepare_b64 (edge_var : option text) (data : text) : result (result PreparedImage text) text :=
  match map_err (fun e => chars "decode base64: " ++ e) (b64_decode (trim data)) with
  | Ok b => prepare_image edge_var b
  | Err e => Ok (Err e)
  end.

Definition load_and_prepare (edge_var : option text) (read_bytes : text -> result bytes text) (path : text)
    : result (result PreparedImage text) text :=
  match map_err (fun e => chars "read " ++ path ++ chars ": " ++ e) (read_bytes path) with
  | Ok b => prepare_image edge_var b
  | Err e => Ok (Err e)
  end.
End vision.

(** ** Documents *)

(** [serde_json::from_str], arrays and the two literal blocks of the shim. *)
Class JsonDoc (V : Type) := {
  json_parse : text -> option V;
  json_array : list V -> V;
  json_image_block : text -> text -> V;
  json_text_block : text -> V
}.

Class JsonDocLaws (V : Type) `{!JsonArgs V} `{!JsonNums V} `{!JsonDoc V} : Prop := {
  json_array_back l : json_as_array (json_array (V := V) l) = Some l;
  image_block_type m d : json_get (json_image_block (V := V) m d) (chars "type") ≫= json_as_str = Some (chars "image")
}.

Section rewrite.
Context {V : Type} `{!JsonArgs V} `{!JsonNums V} `{!JsonValue V} `{!JsonDoc V} `{!ImageOps}.

Definition contains_image_block (v : V) : bool :=
  match json_as_array v with
  | Some a => existsb (fun e => bool_decide (arg_str e (chars "type") = Some (chars "image"))) a
  | None => false
  end.

Definition anthropic_tool_result_content (p : PreparedImage) (caption : option text) : V :=
  json_array (json_image_block (pi_media_type p) (pi_b64 p) ::
    match caption with
    | Some t => if bool_decide (t = []) then [] else [json_text_block t]
    | None => []
    end).

Definition has_vision (v : V) : bool := is_someb (json_get v (chars "vision")).

(** A text that decodes to a sentinel. *)
Definition parsed_sentinel (s : text) : option V :=
  match json_parse s with Some v => if has_vision v then Some v else None | None => None end.

(** The sentinel of one item of an MCP content array. *)
Definition item_sentinel (item : V) : option V :=
  if bool_decide (arg_str item (chars "type") = Some (chars "text"))
  then match arg_str item (chars "text") with Some s => parsed_sentinel s | None => None end
  else None.

Definition find_vision_sentinel (content : V) : option V :=
  if has_vision content then Some content
  else match match json_as_str content with Some s => parsed_sentinel s | None => None end with
  | Some v => Some v
  | None => match json_as_array content with Some arr => head (omap (M := list) item_sentinel arr) | None => None end
  end.

Definition vision_rewrite (edge_var : option text) (read_bytes : text -> result bytes text) (content : V) : V :=
  match find_vision_sentinel content with
  | None => content
  | Some sentinel =>
      let field k := json_get sentinel (chars "vision") ≫= (fun v => arg_str v k) in
      let caption := arg_str sentinel (chars "text") in
      let done (prepared : result (result PreparedImage text) text) :=
        match prepared with
        | Ok (Ok img) => anthropic_tool_result_content img caption
        | Ok (Err e) => json_of_str (chars "[vision] could not load image: " ++ e)
        | Err e => json_of_str (chars "[vision] image task panicked: " ++ e)
        end in
      match field (chars "path") with
      | Some path => done (load_and_prepare edge_var read_bytes path)
      | None =>
          match field (chars "b64") with
          | Some b64 => done (prepare_b64 edge_var b64)
          | None => json_of_str (chars "[vision] tool-result had a `vision` field but neither `path` nor `b64`")
          end
      end
  end.
End rewrite.

(** ** Prompt composition and the clock *)

Definition compose_system (soul embodiment priming style : text) : text :=
  let parts := filter (fun s => negb (bool_decide (s = []))) (trim <$> [soul; embodiment; priming; style]) in
  concat (match parts with [] => [] | p :: ps => p :: ((fun s => [10; 10] ++ s) <$> ps) end).

(** [AGENTD_AMBIENT_GAP_SECS], in milliseconds. *)
Definition ambient_gap (var : option text) : Z := 1000 * default 600 (var ≫= parse_u64).

(** [duration_since] saturates at zero. *)
Definition should_inject_ambient_at (gap : Z) (seen : gmap Z Z) (session now : Z) : bool * gmap Z Z :=
  let inject := match seen !! session with
                | None => true
                | Some last => gap <=? sat_sub now last
                end in
  (inject, if inject then <[session := now]> seen else seen).

(** [AGENTD_TOOL_RESULT_TIMEOUT_SECS]. *)
Definition tool_timeout_secs (var : option text) : Z := default 1800 (var ≫= parse_u64).

(** ** Waiting for tools *)

Inductive WaitPhase := Dispatched | AwaitingApproval | Approved.

Definition missing_result_message (tool : text) (phase : WaitPhase) (phase_age_secs : Z) (lagged : bool) (window_secs : Z)
    : text :=
  let dash := [8212] in
  if lagged then
    chars "no result received for tool '" ++ tool ++ chars "' " ++ dash
    ++ chars " the event bus lagged and the result may have been dropped in transit, so the tool MAY have completed. Verify its effects before retrying."
  else match phase with
  | AwaitingApproval =>
      chars "tool '" ++ tool ++ chars "' is still awaiting operator approval " ++ dash ++ chars " "
      ++ dec_text phase_age_secs
      ++ chars "s with no response (this is NOT a decline and NOT a tool failure; the operator may be away). Proceed another way if you can, or retry later and ask for a decision."
  | Approved =>
      chars "tool '" ++ tool ++ chars "' was approved by the operator " ++ dec_text phase_age_secs
      ++ chars "s ago but returned no result within the " ++ dec_text window_secs ++ chars "s window " ++ dash
      ++ chars " it may still be running, or hung. Its effects may land later; verify before retrying."
  | Dispatched =>
      chars "tool '" ++ tool ++ chars "' was dispatched but returned no result within " ++ dec_text window_secs ++ chars "s "
      ++ dash
      ++ chars " the plugin may be hung, or the work genuinely outlasted the window (it was never waiting on approval and was not declined). Its effects may still land; verify before retrying."
  end.

Record ToolOutput (V : Type) := mkOutput { out_ok : bool; out_content : V }.
Arguments mkOutput {V}. Arguments out_ok {V}. Arguments out_content {V}.

(** What [rx.recv()] yields. *)
Inductive BusItem (V : Type) :=
  | BusResult (session call : Z) (out : ToolOutput V)
  | BusPending (call : Z)
  | BusApproval (action : Z) (granted : bool)
  | BusOther
  | BusLagged
  | BusClosed.
Arguments BusResult {V}. Arguments BusPending {V}. Arguments BusApproval {V}. Arguments BusOther {V}.
Arguments BusLagged {V}. Arguments BusClosed {V}.

(** The locals of [collect_tool_results]. *)
Record Waiting (V : Type) := mkWaiting {
  wt_remaining : gset Z;
  wt_results : gmap Z (ToolOutput V);
  wt_phases : gmap Z (WaitPhase * Z)
}.
Arguments mkWaiting {V}. Arguments wt_remaining {V}. Arguments wt_results {V}. Arguments wt_phases {V}.

Inductive CollectEnd := AllIn | LagDropped | ChannelGone | TimedOut.

#[export] Instance CollectEnd_eq_dec : EqDecision CollectEnd.
Proof. solve_decision. Defined.

Section collect.
Context {V : Type} `{!JsonArgs V} `{!JsonNums V} `{!JsonValue V} `{!JsonDoc V} `{!ImageOps}.

Definition waiting_new (now : Z) (pending : list (ToolCall V)) : Waiting V :=
  mkWaiting (list_to_set (call_id <$> pending)) ∅ (list_to_map ((fun c => (call_id c, (Dispatched, now))) <$> pending)).

(** One arm of the [match] on an item that is not an error. *)
Definition on_item (session now : Z) (w : Waiting V) (i : BusItem V) : Waiting V :=
  match i with
  | BusResult s call out =>
      if (s =? session) && bool_decide (call ∈ wt_remaining w)
      then mkWaiting (wt_remaining w ∖ {[ call ]}) (<[call := out]> (wt_results w)) (wt_phases w)
      else w
  | BusPending call =>
      if bool_decide (call ∈ wt_remaining w)
      then mkWaiting (wt_remaining w) (wt_results w) (<[call := (AwaitingApproval, now)]> (wt_phases w))
      else w
  | BusApproval action granted =>
      if granted && bool_decide (action ∈ wt_remaining w)
      then mkWaiting (wt_remaining w) (wt_results w) (<[action := (Approved, now)]> (wt_phases w))
      else w
  | _ => w
  end.

(** The loop under its timeout: what comes after [deadline] is not seen, and
    a bus that stays silent is a timeout.  The state and when it ended. *)
Fixpoint collect_loop (session deadline : Z) (w : Waiting V) (now : Z) (items : list (Z * BusItem V))
    : Waiting V * CollectEnd * Z :=
  if bool_decide (wt_remaining w = ∅) then (w, AllIn, now)
  else match items with
  | [] => (w, TimedOut, Z.max now deadline)
  | (t, i) :: items =>
      if deadline <? t then (w, TimedOut, Z.max now deadline)
      else match i with
      | BusLagged => (w, LagDropped, Z.max now t)
      | BusClosed => (w, ChannelGone, Z.max now t)
      | _ => collect_loop session deadline (on_item session t w i) (Z.max now t) items
      end
  end.

(** The block for one call: its result, or an error that says how far it got. *)
Definition result_block (edge_var : option text) (read_bytes : text -> result bytes text) (lagged : bool)
    (window_secs now : Z) (w : Waiting V) (id_map : gmap Z text) (c : ToolCall V) : ContentBlock V :=
  let output := match wt_results w !! call_id c with
    | Some o => o
    | None =>
        let '(phase, since) := default (Dispatched, now) (wt_phases w !! call_id c) in
        mkOutput false (json_of_str (missing_result_message (call_tool c) phase (sat_sub now since / 1000) lagged window_secs))
    end in
  ToolResult (default [] (id_map !! call_id c))
    (if out_ok output then vision_rewrite edge_var read_bytes (out_content output) else out_content output)
    (negb (out_ok output)).

(** [None]: the bus closed while results were missing.  [results.remove]
    takes an entry once; ids are distinct, so it is a lookup. *)
Definition collect_tool_results (edge_var : option text) (read_bytes : text -> result bytes text) (window_secs : Z)
    (session start : Z) (pending : list (ToolCall V)) (id_map : gmap Z text) (items : list (Z * BusItem V))
    : option (list (ContentBlock V)) :=
  let '(w, e, now) := collect_loop session (start + 1000 * window_secs) (waiting_new start pending) start items in
  match e with
  | ChannelGone => None
  | _ => Some (result_block edge_var read_bytes (bool_decide (e = LagDropped)) window_secs now w id_map <$> pending)
  end.
End collect.

(** ** The turn *)

Inductive Chunk (V : Type) :=
  | CTextDelta (t : text)
  | CThinkingDelta (t : text)
  | CTextBlock (t : text)
  | CThinkingBlock (thinking signature : text)
  | CToolUse (id name : text) (input : V)
  | CDone
  | CError.
Arguments CTextDelta {V}. Arguments CThinkingDelta {V}. Arguments CTextBlock {V}. Arguments CThinkingBlock {V}.
Arguments CToolUse {V}. Arguments CDone {V}. Arguments CError {V}.

Inductive TurnEffect (V : Type) :=
  | PermitTaken
  | AskProvider (outbound : list (Message V)) (system : option text)
  | TextOut (t : text)
  | ThinkingOut (t : text)
  | PermitDropped
  | RequestTool (call : ToolCall V)
  | TurnDone.
Arguments PermitTaken {V}. Arguments AskProvider {V}. Arguments TextOut {V}. Arguments ThinkingOut {V}.
Arguments PermitDropped {V}. Arguments RequestTool {V}. Arguments TurnDone {V}.

(** The prompt parts and the clock, as read when the round starts. *)
Record Prompts := mkPrompts { pr_soul : text; pr_embodiment : text; pr_priming : text; pr_style : text; pr_ambient : text }.

Record Round (V : Type) := mkRound {
  rd_permit : bool;
  rd_prompts : Prompts;
  rd_stream : option (list (Z * Chunk V));
  rd_start : Z;
  rd_bus : list (Z * BusItem V)
}.
Arguments mkRound {V}. Arguments rd_permit {V}. Arguments rd_prompts {V}. Arguments rd_stream {V}.
Arguments rd_start {V}. Arguments rd_bus {V}.

(** What one stream produced: the blocks, the calls, the map from action ids
    to the provider's, the shared id counter, what was emitted. *)
Record RoundReply (V : Type) := mkReply {
  rp_blocks : list (ContentBlock V);
  rp_calls : list (ToolCall V);
  rp_ids : gmap Z text;
  rp_next_id : Z;
  rp_out : list (TurnEffect V)
}.
Arguments mkReply {V}. Arguments rp_blocks {V}. Arguments rp_calls {V}. Arguments rp_ids {V}.
Arguments rp_next_id {V}. Arguments rp_out {V}.

Inductive TurnEnd (V : Type) :=
  | TurnOk (history : list (Message V))
  | TurnErr
  | TurnRunning (history : list (Message V)).
Arguments TurnOk {V}. Arguments TurnErr {V}. Arguments TurnRunning {V}.

Section turn.
Context {V : Type} `{!JsonArgs V} `{!JsonNums V} `{!JsonValue V} `{!JsonDoc V} `{!ImageOps}.

Definition inject_ambient (history : list (Message V)) (ambient : text) : list (Message V) :=
  if bool_decide (ambient = []) then history
  else match last history with
  | Some (User c) => removelast history ++ [User (c ++ [Text ambient])]
  | _ => history
  end.

(** [fetch_add] on the counter all turns share. *)
Definition next_action_id (next : Z) : Z * Z := (next, as_u64 (next + 1)).

(** One chunk; [None]: [chunk?] fails, the turn with it. *)
Definition on_chunk (r : RoundReply V) (c : Chunk V) : option (RoundReply V) :=
  match c with
  | CTextDelta t => Some (mkReply (rp_blocks r) (rp_calls r) (rp_ids r) (rp_next_id r) (rp_out r ++ [TextOut t]))
  | CThinkingDelta t => Some (mkReply (rp_blocks r) (rp_calls r) (rp_ids r) (rp_next_id r) (rp_out r ++ [ThinkingOut t]))
  | CTextBlock t => Some (mkReply (rp_blocks r ++ [Text t]) (rp_calls r) (rp_ids r) (rp_next_id r) (rp_out r))
  | CThinkingBlock th sg => Some (mkReply (rp_blocks r ++ [Thinking th sg]) (rp_calls r) (rp_ids r) (rp_next_id r) (rp_out r))
  | CToolUse id name input =>
      let '(a, next) := next_action_id (rp_next_id r) in
      Some (mkReply (rp_blocks r ++ [ToolUse id name input]) (rp_calls r ++ [mkCall a name input false])
                    (<[a := id]> (rp_ids r)) next (rp_out r))
  | CDone | CError => None
  end.

(** The stream's loop: the reply and whether it ended well. *)
Fixpoint read_stream (r : RoundReply V) (items : list (Z * Chunk V)) : RoundReply V * bool :=
  match items with
  | [] => (r, true)
  | (others, c) :: items =>
      let r := mkReply (rp_blocks r) (rp_calls r) (rp_ids r) (as_u64 (rp_next_id r + others)) (rp_out r) in
      match c with
      | CDone => (r, true)
      | _ => match on_chunk r c with Some r => read_stream r items | None => (r, false) end
      end
  end.

Definition empty_reply : list (ContentBlock V) := [Text ([8856] ++ chars " (empty reply)")].

(** The provider half of a round: the permit is held from the first effect to
    the last, whatever happens in between. *)
Definition ask (clock : bool) (history : list (Message V)) (ids : gmap Z text) (next_id : Z) (rd : Round V)
    : RoundReply V * bool :=
  let p := rd_prompts rd in
  let r0 := mkReply [] [] ids next_id [] in
  if negb (rd_permit rd) then (r0, false)
  else
    let sys := compose_system (pr_soul p) (pr_embodiment p) (pr_priming p) (pr_style p) in
    let outbound := inject_ambient history (if clock then pr_ambient p else []) in
    let r := mkReply [] [] ids next_id [PermitTaken; AskProvider outbound (if bool_decide (sys = []) then None else Some sys)] in
    let '(r, ok) := match rd_stream rd with Some items => read_stream r items | None => (r, false) end in
    (mkReply (rp_blocks r) (rp_calls r) (rp_ids r) (rp_next_id r) (rp_out r ++ [PermitDropped]), ok).

(** [run_turn]'s loop, one [Round] per iteration; [TurnRunning]: still going
    when the rounds given are used up.  The id counter and the effects too. *)
Fixpoint run_turn (edge_var : option text) (read_bytes : text -> result bytes text) (window_secs session : Z)
    (clock : bool) (history : list (Message V)) (ids : gmap Z text) (next_id : Z) (rounds : list (Round V))
    : TurnEnd V * Z * list (TurnEffect V) :=
  match rounds with
  | [] => (TurnRunning history, next_id, [])
  | rd :: rounds =>
      let '(r, ok) := ask clock history ids next_id rd in
      let blocks := rp_blocks r in
      let pending := rp_calls r in
      if negb ok then (TurnErr, rp_next_id r, rp_out r)
      else if bool_decide (blocks = []) && bool_decide (pending = [])
      then (TurnOk (history ++ [Assistant empty_reply]), rp_next_id r, rp_out r ++ [TurnDone])
      else
        let history := history ++ [Assistant blocks] in
        if bool_decide (pending = []) then (TurnOk history, rp_next_id r, rp_out r ++ [TurnDone])
        else
          let out := rp_out r ++ (RequestTool <$> pending) in
          match collect_tool_results edge_var read_bytes window_secs session (rd_start rd) pending (rp_ids r) (rd_bus rd) with
          | None => (TurnErr, rp_next_id r, out)
          | Some results =>
              let '(e, next, outs) := run_turn edge_var read_bytes window_secs session false (history ++ [User results])
                                        (rp_ids r) (rp_next_id r) rounds in
              (e, next, out ++ outs)
          end
  end.
End turn.

(** ** The image budget *)

Lemma est_tokens_le w h m : 0 <= w <= m -> 0 <= h <= m -> est_tokens w h <= div_ceil (m * m) TOKEN_PIXEL_DIVISOR.
Proof.
  intros Hw Hh. unfold est_tokens, div_ceil, TOKEN_PIXEL_DIVISOR.
  assert (w * h <= m * m) as Hle by nia.
  pose proof (Z.div_le_mono _ _ 750 ltac:(lia) Hle). pose proof (Z.mod_pos_bound (w * h) 750 ltac:(lia)).
  pose proof (Z.mod_pos_bound (m * m) 750 ltac:(lia)).
  pose proof (Z.div_mod (w * h) 750 ltac:(lia)). pose proof (Z.div_mod (m * m) 750 ltac:(lia)).
  destruct (Z.ltb_spec 0 (w * h mod 750)), (Z.ltb_spec 0 ((m * m) mod 750)); lia.
Qed.

Lemma max_edge_range var : 128 <= max_edge_from_env var <= 4096.
Proof. unfold max_edge_from_env, DEFAULT_MAX_EDGE. repeat case_match; lia. Qed.

(** No prepared image is larger than the configured edge or costs more than a
    square of that edge would, whatever was decoded: at most 1399 tokens by
    default, and never more than 22370. *)
Theorem prepared_image_within_budget `{!ImageOps} `{!ImageLaws} (var : option text) (data : bytes) (p : PreparedImage)
    (Hp : prepare_image var data = Ok (Ok p)) :
  let edge := max_edge_from_env var in
  0 <= pi_width p <= edge /\ 0 <= pi_height p <= edge /\
  pi_est_tokens p <= div_ceil (edge * edge) TOKEN_PIXEL_DIVISOR <= 22370 /\
  (var = None -> pi_est_tokens p <= 1399).
Proof.
  intros edge. pose proof (max_edge_range var) as He. fold edge in He.
  unfold prepare_image, prepare_image_with_max_edge in Hp. fold edge in Hp.
  destruct (load_from_memory data) as [[img|e]|e]; [|done..]. cbn [map_err rbind] in Hp.
  assert (0 <= img_width (shrink edge img) <= edge /\ 0 <= img_height (shrink edge img) <= edge) as [Hw Hh].
  { unfold shrink. destruct (dims_u32 img) as [Hdw Hdh]. destruct (Z.ltb_spec edge (Z.max (img_width img) (img_height img))).
    - apply resize_fits; lia.
    - unfold_int. lia. }
  assert (p = mkPrepared (pi_media_type p) (pi_b64 p) (img_width (shrink edge img)) (img_height (shrink edge img))
    (est_tokens (img_width (shrink edge img)) (img_height (shrink edge img)))) as ->.
  { destruct (has_alpha _); [destruct (write_png _)|destruct (encode_jpeg _)]; cbn in Hp; by simplify_eq. }
  cbn [pi_width pi_height pi_est_tokens]. pose proof (est_tokens_le _ _ _ Hw Hh) as Ht.
  split_and!; try lia.
  - unfold div_ceil, TOKEN_PIXEL_DIVISOR in *. pose proof (Z.div_le_mono (edge * edge) (4096 * 4096) 750 ltac:(lia) ltac:(nia)).
    change (4096 * 4096 / 750) with 22369 in *. destruct (_ <? _); lia.
  - intros ->. exact Ht.
Qed.

(** ** Histories *)

Section histories.
Context {V : Type} `{!JsonArgs V} `{!JsonNums V} `{!JsonValue V} `{!JsonDoc V} `{!ImageOps}.
Implicit Types (h : list (Message V)) (c : list (ContentBlock V)).

(** A valid tail may follow a valid tail. *)
Lemma api_tail_app h r : api_tail h = true -> api_tail r = true -> api_tail (h ++ r) = true.
Proof.
  intros Hh Hr. remember (length h) as n eqn:Hn. revert h Hn Hh.
  induction (lt_wf n) as [n _ IH]. intros [|m h] -> Hh; [done|]. cbn [app api_tail] in *.
  apply andb_true_iff in Hh as [Hne Hh]. rewrite Hne. cbn [andb]. destruct (tool_use_ids m) as [|i ids].
  - apply andb_true_iff in Hh as [Hm Hh]. rewrite Hm. cbn [andb]. apply (IH (length h)); [cbn; lia|done..].
  - destruct h as [|[c|c] h]; try done. cbn [app]. apply andb_true_iff in Hh as [Hc Hh]. rewrite Hc. cbn [andb].
    apply (IH (length h)); [cbn; lia|done..].
Qed.

Lemma api_valid_app h r : h <> [] -> api_valid h = true -> api_tail r = true -> api_valid (h ++ r) = true.
Proof.
  unfold api_valid. rewrite !andb_true_iff. intros Hne [Ht Hf] Hr. split; [by apply api_tail_app|].
  by destruct h as [|[c|c] h].
Qed.

Lemma results_then_text c t :
  forallb (fun b => negb (is_result b)) (skip_while is_result c) = true ->
  forallb (fun b => negb (is_result b)) (skip_while is_result (c ++ [Text t])) = true.
Proof.
  induction c as [|b c IH]; [done|]. cbn [app skip_while]. destruct (is_result b) eqn:E; [done|].
  cbn [forallb]. rewrite E. cbn. rewrite forallb_app. intros ->. done.
Qed.

Lemma canonical_text ids c t : canonical ids c = true -> canonical ids (c ++ [Text t]) = true.
Proof.
  unfold canonical. rewrite omap_app. cbn [omap list_omap result_id]. rewrite app_nil_r, !andb_true_iff.
  intros [[Hr Ha] Hf]. split_and!; [by apply results_then_text|done..].
Qed.

(** Text may be added to the last user message. *)
Lemma api_tail_last_text h c t : api_tail (h ++ [User c]) = true -> api_tail (h ++ [User (c ++ [Text t])]) = true.
Proof.
  remember (length h) as n eqn:Hn. revert h Hn. induction (lt_wf n) as [n _ IH]. intros [|m h] -> Hh.
  - cbn in *. rewrite andb_true_r in *. apply andb_true_iff in Hh as [Hne Hx]. apply andb_true_iff. split; [by destruct c|].
    rewrite existsb_app. cbn. rewrite orb_false_r. exact Hx.
  - cbn [app api_tail] in *. apply andb_true_iff in Hh as [Hne Hh]. rewrite Hne. cbn [andb].
    destruct (tool_use_ids m) as [|i ids].
    + apply andb_true_iff in Hh as [Hm Hh]. rewrite Hm. apply (IH (length h)); [cbn; lia|done..].
    + destruct h as [|m' h]; cbn [app] in *.
      * rewrite andb_true_r in *. by apply canonical_text.
      * destruct m' as [c'|c']; [|done]. apply andb_true_iff in Hh as [Hc Hh]. rewrite Hc.
        apply (IH (length h)); [cbn; lia|done..].
Qed.

(** A history that is valid and waits for the model. *)
Definition awaits_reply h : Prop := api_valid h = true /\ exists h0 c, h = h0 ++ [User c].

Lemma inject_valid h t : awaits_reply h -> api_valid (inject_ambient h t) = true.
Proof.
  intros [Hv (h0 & c & ->)]. unfold inject_ambient. case_bool_decide; [done|]. rewrite last_snoc, removelast_last.
  unfold api_valid in *. apply andb_true_iff in Hv as [Ht Hf]. apply andb_true_iff. split; [by apply api_tail_last_text|].
  by destruct h0 as [|[]].
Qed.

Lemma awaits_extend h blocks results :
  awaits_reply h -> blocks <> [] -> omap use_id blocks <> [] -> canonical (omap use_id blocks) results = true ->
  awaits_reply (h ++ [Assistant blocks; User results]).
Proof.
  intros [Hv (h0 & c & ->)] Hb Hu Hc. split.
  - apply api_valid_app; [by destruct h0|done|]. cbn [api_tail tool_use_ids content_of].
    assert (is_nil blocks = false) as -> by by destruct blocks. revert Hu Hc.
    destruct (omap use_id blocks) as [|i ids]; [done|]. intros _ Hc. rewrite Hc. done.
  - exists ((h0 ++ [User c]) ++ [Assistant blocks]), results. by rewrite <- (app_assoc _ [Assistant blocks]).
Qed.

Lemma finished_valid h blocks :
  awaits_reply h -> blocks <> [] -> omap use_id blocks = [] -> api_valid (h ++ [Assistant blocks]) = true.
Proof.
  intros [Hv (h0 & c & ->)] Hb Hu. apply api_valid_app; [by destruct h0|done|].
  cbn [api_tail tool_use_ids content_of]. rewrite Hu.
  assert (is_nil blocks = false) as -> by by destruct blocks. done.
Qed.
End histories.

(** ** Streams *)

Section streams.
Context {V : Type} `{!JsonArgs V} `{!JsonNums V} `{!JsonValue V} `{!JsonDoc V} `{!ImageOps}.

(** An upper bound on the ids drawn while a stream is read. *)
Definition draws (items : list (Z * Chunk V)) : Z := foldr (fun e a => e.1 + 1 + a) 0 items.

Definition sane_items (items : list (Z * Chunk V)) : Prop := Forall (fun e => 0 <= e.1) items.

Lemma draws_nonneg items : sane_items items -> 0 <= draws items.
Proof. unfold draws. induction 1; cbn [foldr]; lia. Qed.

(** Ids less than 2^64 draws apart differ. *)
Lemma as_u64_window n i j : 0 <= i < j -> j < 2 ^ 64 -> as_u64 (n + i) <> as_u64 (n + j).
Proof.
  intros Hi Hj E. unfold as_u64 in E. change 18446744073709551616 with (2 ^ 64) in E.
  assert ((j - i) mod 2 ^ 64 = 0) as Hm.
  { replace (j - i) with ((n + j) - (n + i)) by lia. rewrite Zminus_mod, E, Z.sub_diag. done. }
  rewrite Z.mod_small in Hm by lia. lia.
Qed.

Lemma as_u64_add n a b : as_u64 (as_u64 (n + a) + b) = as_u64 (n + (a + b)).
Proof. unfold as_u64. rewrite Zplus_mod_idemp_l. f_equal. lia. Qed.

(** [a] is one of the first [k] ids drawn from [n0]. *)
Definition drawn (n0 k a : Z) : Prop := exists j, 0 <= j < k /\ a = as_u64 (n0 + j).

Lemma drawn_mono n0 k k' a : drawn n0 k a -> k <= k' -> drawn n0 k' a.
Proof. intros (j & Hj & ->) Hk. exists j. split; [lia|done]. Qed.

(** A reply in progress: its calls have ids of their own, drawn so far, and
    stand for the tool uses of its blocks, in order. *)
Record good_reply (prev : list Z) (n0 k : Z) (r : RoundReply V) : Prop := {
  gr_next : rp_next_id r = as_u64 (n0 + k);
  gr_drawn : Forall (drawn n0 k) (prev ++ (call_id <$> rp_calls r));
  gr_nodup : NoDup (prev ++ (call_id <$> rp_calls r));
  gr_uses : omap use_id (rp_blocks r) = (fun c => default [] (rp_ids r !! call_id c)) <$> rp_calls r
}.

Lemma good_skip prev n0 k r others :
  0 <= others -> good_reply prev n0 k r ->
  good_reply prev n0 (k + others) (mkReply (rp_blocks r) (rp_calls r) (rp_ids r) (as_u64 (rp_next_id r + others)) (rp_out r)).
Proof.
  intros Ho [Hn Hd Hnd Hu]. split; cbn; [by rewrite Hn, as_u64_add| |done..].
  eapply Forall_impl; [exact Hd|]. intros a Ha. eapply drawn_mono; [exact Ha|lia].
Qed.

Lemma good_chunk prev n0 k r c r' :
  0 <= k < 2 ^ 64 -> good_reply prev n0 k r -> on_chunk r c = Some r' ->
  exists k', k <= k' <= k + 1 /\ good_reply prev n0 k' r'.
Proof.
  intros Hk [Hn Hd Hnd Hu] Hc.
  destruct c as [t|t|t|th sg|id name input| |]; cbn in Hc; try discriminate; injection Hc as <-;
    try (exists k; split; [lia|]; split; cbn; rewrite ?omap_app; cbn; rewrite ?app_nil_r; done).
  exists (k + 1). split; [lia|]. rewrite Hn.
  assert (as_u64 (n0 + k) ∉ prev ++ (call_id <$> rp_calls r)) as Hfresh.
  { intros Hin. rewrite Forall_forall in Hd. destruct (Hd _ Hin) as (j & Hj & E).
    symmetry in E. revert E. apply as_u64_window; lia. }
  split; cbn.
  - apply (as_u64_add n0 k 1).
  - rewrite fmap_app, app_assoc. apply Forall_app. split.
    + eapply Forall_impl; [exact Hd|]. intros a Ha. eapply drawn_mono; [exact Ha|lia].
    + cbn. constructor; [|constructor]. exists k. split; [lia|done].
  - rewrite fmap_app, app_assoc. apply NoDup_app. split_and!; [done| |by apply NoDup_singleton].
    intros a Ha Hs. cbn in Hs. apply list_elem_of_singleton in Hs as ->. done.
  - rewrite omap_app, fmap_app, Hu. cbn. rewrite lookup_insert_eq. cbn. f_equal.
    apply list_fmap_ext. intros i c Hc. rewrite lookup_insert_ne; [done|]. intros E. apply Hfresh.
    rewrite E. apply elem_of_app. right. apply list_elem_of_fmap_2. by eapply list_elem_of_lookup_2.
Qed.

Lemma good_stream prev n0 items : forall k r,
  0 <= k -> sane_items items -> k + draws items <= 2 ^ 64 -> good_reply prev n0 k r ->
  exists k', k <= k' <= k + draws items /\ good_reply prev n0 k' (read_stream r items).1.
Proof.
  induction items as [|[others c] items IH]; intros k r Hk Hs Hd Hr; [exists k; split; [cbn; lia|done]|].
  inversion Hs as [|? ? Ho Hs']; subst. cbn in Ho. pose proof (draws_nonneg items Hs') as Hn.
  cbn [read_stream draws foldr fst] in *. fold (draws items) in *.
  pose proof (good_skip prev n0 k r others Ho Hr) as Hr1.
  set (r1 := mkReply _ _ _ _ _) in *.
  assert (exists k', k <= k' <= k + (others + 1 + draws items) /\ good_reply prev n0 k' r1) as Hstop
    by (exists (k + others); split; [lia|done]).
  destruct c; try exact Hstop;
    (destruct (on_chunk r1 _) as [r2|] eqn:E; [|exact Hstop];
     destruct (good_chunk prev n0 (k + others) r1 _ r2 ltac:(lia) Hr1 E) as (k2 & Hk2 & Hr2);
     destruct (IH k2 r2 ltac:(lia) Hs' ltac:(lia) Hr2) as (k3 & Hk3 & Hr3); exists k3; split; [lia|exact Hr3]).
Qed.

Definition round_draws (rd : Round V) : Z := match rd_stream rd with Some items => draws items | None => 0 end.
Definition sane_round (rd : Round V) : Prop := match rd_stream rd with Some items => sane_items items | None => True end.

Lemma round_draws_nonneg rd : sane_round rd -> 0 <= round_draws rd.
Proof. unfold sane_round, round_draws. destruct (rd_stream rd); [apply draws_nonneg|done]. Qed.

Lemma good_ask prev n0 k clock h ids rd :
  0 <= k -> sane_round rd -> k + round_draws rd <= 2 ^ 64 -> Forall (drawn n0 k) prev -> NoDup prev ->
  exists k', k <= k' <= k + round_draws rd /\ good_reply prev n0 k' (ask clock h ids (as_u64 (n0 + k)) rd).1.
Proof.
  intros Hk Hs Hd Hp Hn. pose proof (round_draws_nonneg rd Hs). unfold ask.
  assert (forall out, good_reply prev n0 k (mkReply [] [] ids (as_u64 (n0 + k)) out)) as Hg.
  { intros out. split; cbn; rewrite ?app_nil_r; done. }
  destruct (rd_permit rd); cbn [negb]; [|exists k; split; [lia|apply Hg]].
  unfold round_draws, sane_round in *. destruct (rd_stream rd) as [items|].
  - cbv zeta. set (r0 := mkReply [] [] ids (as_u64 (n0 + k)) _).
    destruct (good_stream prev n0 items k r0 Hk Hs Hd (Hg _)) as (k' & Hk' & Hr).
    exists k'. split; [done|]. destruct (read_stream r0 items) as [r ok]. destruct Hr. by split.
  - exists k. split; [lia|]. apply Hg.
Qed.
End streams.

(** ** Waiting *)

Section waiting.
Context {V : Type} `{!JsonArgs V} `{!JsonNums V} `{!JsonValue V} `{!JsonDoc V} `{!ImageOps}.

(** The first result the bus carries for a call of the session. *)
Fixpoint first_result (session call : Z) (seen : list (Z * BusItem V)) : option (ToolOutput V) :=
  match seen with
  | [] => None
  | (_, BusResult s c o) :: seen => if (s =? session) && (c =? call) then Some o else first_result session call seen
  | _ :: seen => first_result session call seen
  end.

Definition is_bus_end (i : BusItem V) : bool := match i with BusLagged | BusClosed => true | _ => false end.

Lemma on_item_other session now (w : Waiting V) i c :
  first_result session c [(now, i)] = None ->
  ((c ∈ wt_remaining (on_item session now w i)) <-> (c ∈ wt_remaining w)) /\
  wt_results (on_item session now w i) !! c = wt_results w !! c.
Proof.
  intros Hf. destruct i as [s call out|call|action granted| | |]; cbn in Hf |- *; try done.
  - destruct (s =? session); cbn [andb] in *; [|done]. destruct (Z.eqb_spec call c) as [->|Hne]; [done|].
    case_bool_decide; [cbn|done]. rewrite lookup_insert_ne by done. split; [set_solver|done].
  - by case_bool_decide.
  - by destruct (granted && _).
Qed.

Lemma on_item_result session now (w : Waiting V) i c o :
  first_result session c [(now, i)] = Some o -> c ∈ wt_remaining w ->
  (c ∉ wt_remaining (on_item session now w i)) /\ wt_results (on_item session now w i) !! c = Some o.
Proof.
  destruct i as [s call out|call|action granted| | |]; cbn; try done.
  destruct (s =? session); cbn [andb]; [|done]. destruct (Z.eqb_spec call c) as [->|Hne]; [|done].
  intros [= ->] Hc. rewrite bool_decide_eq_true_2 by done. cbn. rewrite lookup_insert_eq. split; [set_solver|done].
Qed.

(** Once answered, an answer stays. *)
Lemma on_item_settled session now (w : Waiting V) i c :
  c ∉ wt_remaining w ->
  (c ∉ wt_remaining (on_item session now w i)) /\ wt_results (on_item session now w i) !! c = wt_results w !! c.
Proof.
  intros Hc. destruct i as [s call out|call|action granted| | |]; cbn; try done.
  - destruct (s =? session); cbn [andb]; [|done]. case_bool_decide; [cbn|done].
    rewrite lookup_insert_ne by (intros ->; done). split; [set_solver|done].
  - by case_bool_decide.
  - by destruct (granted && _).
Qed.

Lemma loop_settled session deadline items : forall (w : Waiting V) now c,
  c ∉ wt_remaining w ->
  (c ∉ wt_remaining (collect_loop session deadline w now items).1.1) /\
  wt_results (collect_loop session deadline w now items).1.1 !! c = wt_results w !! c.
Proof.
  induction items as [|[t i] items IH]; intros w now c Hc; cbn [collect_loop]; case_bool_decide; try done.
  destruct (deadline <? t); [done|]. destruct (on_item_settled session t w i c Hc) as [Hc' Hr].
  destruct i; try done; (destruct (IH (on_item session t w _) (Z.max now t) c Hc') as [IH1 IH2]; by rewrite IH2).
Qed.

(** Why the loop ended, after the first [n] items. *)
Definition ended (deadline : Z) (w : Waiting V) (e : CollectEnd) (items : list (Z * BusItem V)) (n : nat) : Prop :=
  match e with
  | AllIn => wt_remaining w = ∅
  | TimedOut => (n = length items)%nat \/ exists t i, items !! n = Some (t, i) /\ deadline < t
  | LagDropped => exists t, items !! n = Some (t, BusLagged) /\ t <= deadline
  | ChannelGone => wt_remaining w <> ∅ /\ exists t, items !! n = Some (t, BusClosed) /\ t <= deadline
  end.

Lemma Forall2_map_self {A B} (R : A -> B -> Prop) (f : A -> B) (l : list A) :
  (forall x, x ∈ l -> R x (f x)) -> Forall2 R l (f <$> l).
Proof.
  induction l as [|x l IH]; intros Hl; [constructor|]. constructor; [apply Hl; by left|].
  apply IH. intros y Hy. apply Hl. by right.
Qed.

(** A step of the loop, for the induction over the items. *)
Lemma collect_step session deadline (w : Waiting V) now t i items :
  wt_remaining w <> ∅ -> t <= deadline -> is_bus_end i = false ->
  collect_loop session deadline w now ((t, i) :: items) = collect_loop session deadline (on_item session t w i) (Z.max now t) items.
Proof.
  intros Hw Ht Hi. cbn [collect_loop]. rewrite bool_decide_eq_false_2 by done.
  destruct (Z.ltb_spec deadline t); [lia|]. by destruct i.
Qed.

Lemma collect_loop_spec session deadline items : forall (w : Waiting V) now,
  exists n, let r := collect_loop session deadline w now items in
    ended deadline r.1.1 r.1.2 items n /\
    forall c, c ∈ wt_remaining w ->
      match first_result session c (take n items) with
      | Some o => (c ∉ wt_remaining r.1.1) /\ wt_results r.1.1 !! c = Some o
      | None => (c ∈ wt_remaining r.1.1) /\ wt_results r.1.1 !! c = wt_results w !! c
      end.
Proof.
  induction items as [|[t i] items IH]; intros w now.
  { exists 0%nat. cbn [collect_loop]. case_bool_decide; (split; [by try left|by split]). }
  destruct (decide (wt_remaining w = ∅)) as [He|He].
  { exists 0%nat. cbn [collect_loop]. rewrite bool_decide_eq_true_2 by done. split; [done|by split]. }
  destruct (decide (deadline < t)) as [Hd|Hd].
  { exists 0%nat. cbn [collect_loop]. rewrite bool_decide_eq_false_2 by done.
    destruct (Z.ltb_spec deadline t); [|lia]. split; [right; by exists t, i|by split]. }
  destruct (is_bus_end i) eqn:Hi.
  { exists 0%nat. cbn [collect_loop]. rewrite bool_decide_eq_false_2 by done.
    destruct (Z.ltb_spec deadline t); [lia|]. destruct i; try done; (split; [|by split]); cbn.
    - exists t. split; [done|lia].
    - split; [done|]. exists t. split; [done|lia]. }
  rewrite collect_step by (done || lia). destruct (IH (on_item session t w i) (Z.max now t)) as (n & Hend & Hall).
  exists (S n). split.
  { revert Hend. unfold ended. destruct (collect_loop _ _ _ _ _).1.2; [done|done|done|].
    intros [->|Hx]; [by left|by right]. }
  intros c Hc. rewrite firstn_cons.
  assert (first_result session c ((t, i) :: take n items) =
    match first_result session c [(t, i)] with Some o => Some o | None => first_result session c (take n items) end) as ->.
  { destruct i; try done. cbn. by destruct (_ && _). }
  destruct (first_result session c [(t, i)]) as [o|] eqn:E.
  - destruct (on_item_result session t w i c o E Hc) as [Hn Hr].
    destruct (loop_settled session deadline items (on_item session t w i) (Z.max now t) c Hn) as [Hn' Hr'].
    by rewrite Hr', Hr.
  - destruct (on_item_other session t w i c E) as [Hm Hr]. specialize (Hall c (proj2 Hm Hc)). by rewrite Hr in Hall.
Qed.

(** C22: Each call of a tool round is answered once, in order, by the first result
    the bus carried for it; a call is declared missing only when the bus stayed
    silent past the window or dropped messages; and the round fails only when
    the bus closed under it. *)
Theorem collect_answers_each_call (edge_var : option text) (read_bytes : text -> result bytes text)
    (window_secs session start : Z) (pending : list (ToolCall V)) (id_map : gmap Z text) (items : list (Z * BusItem V)) :
  let deadline := start + 1000 * window_secs in
  exists n, let answer c := first_result session (call_id c) (take n items) in
  match collect_tool_results edge_var read_bytes window_secs session start pending id_map items with
  | Some out =>
      Forall2 (fun c b => exists msg, b = ToolResult (default [] (id_map !! call_id c))
        match answer c with
        | Some o => if out_ok o then vision_rewrite edge_var read_bytes (out_content o) else out_content o
        | None => json_of_str msg
        end (match answer c with Some o => negb (out_ok o) | None => true end)) pending out /\
      (Exists (fun c => answer c = None) pending ->
       (n = length items)%nat \/ exists t i, items !! n = Some (t, i) /\ (deadline < t \/ i = BusLagged))
  | None => Exists (fun c => answer c = None) pending /\ exists t, items !! n = Some (t, BusClosed) /\ t <= deadline
  end.
Proof.
  intros deadline. destruct (collect_loop_spec session deadline items (waiting_new start pending) start) as (n & Hend & Hall).
  exists n. unfold collect_tool_results. fold deadline.
  destruct (collect_loop session deadline (waiting_new start pending) start items) as [[w e] now] eqn:Eloop.
  cbn [fst snd] in *.
  assert (forall c, c ∈ pending -> call_id c ∈ wt_remaining (waiting_new start pending)) as Hin.
  { intros c Hc. cbn. apply elem_of_list_to_set. by apply list_elem_of_fmap_2. }
  assert (forall c, c ∈ pending -> wt_results w !! call_id c = first_result session (call_id c) (take n items) /\
    (first_result session (call_id c) (take n items) = None -> call_id c ∈ wt_remaining w)) as Hres.
  { intros c Hc. specialize (Hall _ (Hin c Hc)).
    destruct (first_result session (call_id c) (take n items)); destruct Hall as [H1c H2c]; rewrite H2c; [done|].
    cbn. rewrite lookup_empty. done. }
  assert (Exists (fun c => first_result session (call_id c) (take n items) = None) pending -> wt_remaining w <> ∅) as Hne.
  { intros (c & Hc & Hf)%Exists_exists E. destruct (Hres c Hc) as [_ Hr]. specialize (Hr Hf). set_solver. }
  destruct (decide (e = ChannelGone)) as [->|He].
  - destruct Hend as [Hrem Hend]. split; [|done]. destruct (set_choose_L _ Hrem) as [x Hx].
    destruct (decide (x ∈ wt_remaining (waiting_new start pending))) as [Hx0|Hx0].
    + cbn in Hx0. apply elem_of_list_to_set, list_elem_of_fmap in Hx0 as (c & -> & Hc).
      apply Exists_exists. exists c. split; [done|]. specialize (Hall _ (Hin c Hc)).
      destruct (first_result _ _ _); [by destruct Hall|done].
    + destruct (loop_settled session deadline items _ start x Hx0) as [Hn _]. by rewrite Eloop in Hn.
  - assert (match e with ChannelGone => None | _ => Some (result_block edge_var read_bytes (bool_decide (e = LagDropped))
      window_secs now w id_map <$> pending) end = Some (result_block edge_var read_bytes (bool_decide (e = LagDropped))
      window_secs now w id_map <$> pending)) as -> by by destruct e.
    split.
    + apply Forall2_map_self. intros c Hc. destruct (Hres c Hc) as [Hr _].
      unfold result_block. rewrite Hr. destruct (first_result _ _ _) as [o|]; [by exists []|].
      destruct (default (Dispatched, now) _) as [phase since]. by eexists.
    + intros Hex. specialize (Hne Hex). destruct e; cbn in Hend; [done| |done|].
      * destruct Hend as (t & Ht & Hle). right. exists t, BusLagged. auto.
      * destruct Hend as [?|(t & i & Ht & Hlt)]; [by left|]. right. exists t, i. auto.
Qed.
End waiting.

(** ** Turns *)

Section turns.
Context {V : Type} `{!JsonArgs V} `{!JsonNums V} `{!JsonValue V} `{!JsonDoc V} `{!ImageOps}.
Variables (edge_var : option text) (read_bytes : text -> result bytes text) (window_secs session : Z).
Implicit Types (h : list (Message V)) (out : list (TurnEffect V)).

Let turn := run_turn (V := V) edge_var read_bytes window_secs session.

Definition is_delta (f : TurnEffect V) : bool := match f with TextOut _ | ThinkingOut _ => true | _ => false end.

Lemma stream_out items : forall (r : RoundReply V),
  exists mid, rp_out (read_stream r items).1 = rp_out r ++ mid /\ Forall (fun f => is_delta f = true) mid.
Proof.
  induction items as [|[others c] items IH]; intros r; [exists []; by rewrite app_nil_r|].
  cbn [read_stream]. set (r1 := mkReply _ _ _ _ _).
  assert (exists mid, rp_out r1 = rp_out r ++ mid /\ Forall (fun f => is_delta f = true) mid) as Hstop
    by (exists []; by rewrite app_nil_r).
  destruct c; try exact Hstop; cbn [on_chunk next_action_id];
    match goal with |- context [read_stream ?r' items] => destruct (IH r') as (mid & -> & Hm) end; cbn [rp_out].
  1, 2: rewrite <- app_assoc; eexists; split; [done|by constructor].
  all: by exists mid.
Qed.

(** The effects of one provider round: nothing when the permit is refused,
    else the request, what was streamed, and the permit back. *)
Lemma ask_out clock h ids next (rd : Round V) :
  (ask clock h ids next rd = (mkReply [] [] ids next [], false)) \/
  exists sys mid, rp_out (ask clock h ids next rd).1 =
    PermitTaken :: AskProvider (inject_ambient h (if clock then pr_ambient (rd_prompts rd) else [])) sys :: mid ++ [PermitDropped] /\
    Forall (fun f => is_delta f = true) mid.
Proof.
  unfold ask. destruct (rd_permit rd); cbn [negb]; [right|by left].
  set (r0 := mkReply [] [] ids next _). destruct (rd_stream rd) as [items|].
  - destruct (stream_out items r0) as (mid & E & Hm). destruct (read_stream r0 items) as [r ok]. cbn [fst rp_out] in *.
    eexists _, mid. split; [|done]. rewrite E. done.
  - eexists _, []. done.
Qed.

(** The results of a round are one block per call, in order. *)
Lemma collect_shape start pending ids items results :
  collect_tool_results edge_var read_bytes window_secs session start pending ids items = Some results ->
  Forall (fun b => is_result b = true) results /\
  omap result_id results = (fun c => default [] (ids !! call_id c)) <$> pending.
Proof.
  unfold collect_tool_results. destruct (collect_loop _ _ _ _ _) as [[w e] now]. intros E.
  assert (exists lag, results = result_block edge_var read_bytes lag window_secs now w ids <$> pending) as [lag ->].
  { destruct e; try done; injection E as <-; by eexists. }
  clear E. split.
  - apply Forall_forall. intros b (c & -> & Hc)%list_elem_of_fmap. unfold result_block.
    destruct (wt_results w !! _); [done|]. by destruct (default (Dispatched, now) _).
  - induction pending as [|c pending IH]; [done|]. cbn [fmap list_fmap]. rewrite <- IH. unfold result_block.
    destruct (wt_results w !! _); [done|]. by destruct (default (Dispatched, now) _).
Qed.

Lemma results_canonical ids c :
  Forall (fun b : ContentBlock V => is_result b = true) c -> omap result_id c = ids -> canonical ids c = true.
Proof.
  intros Hr <-. unfold canonical. rewrite !andb_true_iff. split_and!.
  - assert (skip_while is_result c = []) as ->; [|done]. induction Hr as [|b c Hb _ IH]; [done|]. cbn. by rewrite Hb.
  - apply forallb_forall_elem. intros i. by rewrite mem_spec.
  - apply forallb_forall_elem. intros i. by rewrite mem_spec.
Qed.

(** The ids of the calls announced on the bus. *)
Definition requested (out : list (TurnEffect V)) : list Z :=
  omap (fun f => match f with RequestTool c => Some (call_id c) | _ => None end) out.

Lemma requested_app a b : requested (a ++ b) = requested a ++ requested b.
Proof. apply omap_app. Qed.

Lemma requested_calls (cs : list (ToolCall V)) : requested (RequestTool <$> cs) = call_id <$> cs.
Proof. induction cs as [|c cs IH]; [done|]. cbn. by f_equal. Qed.

Lemma requested_deltas mid : Forall (fun f => is_delta f = true) mid -> requested mid = [].
Proof. induction 1 as [|f mid Hf _ IH]; [done|]. destruct f; try done. Qed.

(** What is asked of the provider. *)
Definition asked (out : list (TurnEffect V)) : list (list (Message V)) :=
  omap (fun f => match f with AskProvider o _ => Some o | _ => None end) out.

Lemma asked_app a b : asked (a ++ b) = asked a ++ asked b.
Proof. apply omap_app. Qed.
Lemma asked_calls (cs : list (ToolCall V)) : asked (RequestTool <$> cs) = [].
Proof. induction cs as [|c cs IH]; [done|]. exact IH. Qed.
Lemma asked_deltas mid : Forall (fun f => is_delta f = true) mid -> asked mid = [].
Proof. induction 1 as [|f mid Hf _ IH]; [done|]. destruct f; try done. Qed.

Lemma ask_facts clock h ids next (rd : Round V) :
  awaits_reply h ->
  Forall (fun o => api_valid o = true) (asked (rp_out (ask clock h ids next rd).1)) /\
  requested (rp_out (ask clock h ids next rd).1) = [].
Proof.
  intros Hh. destruct (ask_out clock h ids next rd) as [->|(sys & mid & -> & Hm)]; [by split; [constructor|]|].
  split.
  - cbn. fold (asked (mid ++ [PermitDropped])). rewrite asked_app, asked_deltas by done.
    constructor; [by apply inject_valid|constructor].
  - cbn. fold (requested (mid ++ [PermitDropped])). by rewrite requested_app, requested_deltas.
Qed.

Definition all_draws (rounds : list (Round V)) : Z := foldr (fun rd a => round_draws rd + a) 0 rounds.

Lemma all_draws_nonneg rounds : Forall sane_round rounds -> 0 <= all_draws rounds.
Proof. unfold all_draws. induction 1 as [|rd rounds Hr _ IH]; cbn [foldr]; [lia|]. pose proof (round_draws_nonneg rd Hr). lia. Qed.

(** What holds of a turn that ended with [e] and did [out]. *)
Record turn_ok (h : list (Message V)) (prev : list Z) (e : TurnEnd V) (out : list (TurnEffect V)) : Prop := {
  tk_asked : Forall (fun o => api_valid o = true) (asked out);
  tk_ids : NoDup (prev ++ requested out);
  tk_end : match e with
    | TurnOk h' => api_valid h' = true /\ (exists r blocks, h' = h ++ r ++ [Assistant blocks] /\ omap use_id blocks = [])
    | TurnRunning h' => awaits_reply h' /\ exists r, h' = h ++ r
    | TurnErr => True
    end
}.

Lemma turn_main rounds : forall clock h ids prev n0 k,
  awaits_reply h -> 0 <= k -> Forall sane_round rounds -> k + all_draws rounds <= 2 ^ 64 ->
  Forall (drawn n0 k) prev -> NoDup prev ->
  let r := turn clock h ids (as_u64 (n0 + k)) rounds in turn_ok h prev r.1.1 r.2.
Proof.
  induction rounds as [|rd rounds IH]; intros clock h ids prev n0 k Hh Hk Hs Hd Hp Hn.
  { split; cbn; [constructor|by rewrite app_nil_r|]. split; [done|]. exists []. by rewrite app_nil_r. }
  inversion Hs as [|? ? Hs1 Hs2]; subst. pose proof (all_draws_nonneg rounds Hs2) as Hrest.
  change (all_draws (rd :: rounds)) with (round_draws rd + all_draws rounds) in Hd.
  destruct (good_ask prev n0 k clock h ids rd Hk Hs1 ltac:(lia) Hp Hn) as (k1 & Hk1 & [Gn Gd Gnd Gu]).
  destruct (ask_facts clock h ids (as_u64 (n0 + k)) rd Hh) as [Fa Fr].
  unfold turn in *. cbn [run_turn]. destruct (ask clock h ids (as_u64 (n0 + k)) rd) as [r ok]. cbn [fst snd] in *.
  assert (forall e, match e with TurnErr => True | _ => False end -> turn_ok h prev e (rp_out r)) as Herr.
  { intros e He. split; [done|by rewrite Fr, app_nil_r|by destruct e]. }
  destruct ok; cbn [negb]; [|by apply Herr].
  destruct (bool_decide_reflect (rp_calls r = [])) as [Ec|Ec].
  - rewrite Ec in Gu. cbn in Gu.
    assert (forall blocks, blocks <> [] -> omap use_id blocks = [] ->
      turn_ok h prev (TurnOk (h ++ [Assistant blocks])) (rp_out r ++ [TurnDone])) as Hdone.
    { intros blocks Hb Hu. split; [by rewrite asked_app, app_nil_r|by rewrite requested_app, Fr, app_nil_r|].
      split; [by apply finished_valid|]. by exists [], blocks. }
    destruct (bool_decide_reflect (rp_blocks r = [])); cbn [andb]; by apply Hdone.
  - rewrite andb_false_r. destruct (collect_tool_results _ _ _ _ _ _ _ _) as [results|] eqn:E.
    + destruct (collect_shape _ _ _ _ _ E) as [Hres Hids].
      assert (omap use_id (rp_blocks r) <> []) as Hu by (rewrite Gu; by destruct (rp_calls r)).
      assert (awaits_reply (h ++ [Assistant (rp_blocks r); User results])) as Hh'.
      { apply awaits_extend; [done| |done|apply results_canonical; [done|congruence]]. intros Eb. apply Hu. by rewrite Eb. }
      specialize (IH false (h ++ [Assistant (rp_blocks r); User results]) (rp_ids r) (prev ++ (call_id <$> rp_calls r)) n0 k1
        Hh' ltac:(lia) Hs2 ltac:(lia) Gd Gnd).
      rewrite <- app_assoc, Gn. cbn [app].
      destruct (run_turn edge_var read_bytes window_secs session false _ _ _ rounds) as [[e nx] outs].
      cbn [fst snd] in *. destruct IH as [Ta Ti Te]. split.
      * rewrite !asked_app, asked_calls, app_nil_r. by apply Forall_app.
      * rewrite !requested_app, Fr, requested_calls, app_assoc. done.
      * destruct e as [h'| |h']; [|done|].
        -- destruct Te as [Hv (x & b & -> & Hb)]. split; [done|].
           exists ([Assistant (rp_blocks r); User results] ++ x), b. by rewrite <- !app_assoc.
        -- destruct Te as [Hv (x & ->)]. split; [done|]. eexists. by rewrite <- app_assoc.
    + cbn [fst snd]. split; [by rewrite asked_app, asked_calls, app_nil_r| |done].
      by rewrite requested_app, Fr, requested_calls.
Qed.

Lemma turn_from (clock : bool) h (ids : gmap Z text) (next_id : Z) (rounds : list (Round V)) :
  awaits_reply h -> is_u64 next_id -> Forall sane_round rounds -> all_draws rounds <= 2 ^ 64 ->
  let r := run_turn edge_var read_bytes window_secs session clock h ids next_id rounds in turn_ok h [] r.1.1 r.2.
Proof.
  intros Hh Hid Hs Hd.
  pose proof (turn_main rounds clock h ids [] next_id 0 Hh ltac:(lia) Hs ltac:(lia) ltac:(constructor) ltac:(constructor)) as Hm.
  unfold turn in Hm. rewrite Z.add_0_r in Hm. assert (as_u64 next_id = next_id) as E.
  { unfold as_u64. apply Z.mod_small. ulia. }
  by rewrite E in Hm.
Qed.

(** Whatever the provider streams and the tools answer, a turn that starts on
    a valid history waiting for a reply asks only valid requests, announces
    each call under an id of its own, and, if it ends well, returns the history
    extended by a valid remainder that ends on an answer without open calls. *)
Theorem turn_stays_valid (clock : bool) h (ids : gmap Z text) (next_id : Z) (rounds : list (Round V))
    (Hh : awaits_reply h) (Hid : is_u64 next_id) (Hs : Forall sane_round rounds) (Hd : all_draws rounds <= 2 ^ 64) :
  let r := run_turn edge_var read_bytes window_secs session clock h ids next_id rounds in
  Forall (fun o => api_valid o = true) (asked r.2) /\ NoDup (requested r.2) /\
  match r.1.1 with
  | TurnOk h' => api_valid h' = true /\ exists x blocks, h' = h ++ x ++ [Assistant blocks] /\ omap use_id blocks = []
  | TurnRunning h' => awaits_reply h' /\ exists x, h' = h ++ x
  | TurnErr => True
  end.
Proof.
  by destruct (turn_from clock h ids next_id rounds Hh Hid Hs Hd).
Qed.

(** *** The permit *)

(** The permit is taken once per request, held while the stream is read, and
    not held when a tool is announced or the turn ends. *)
Fixpoint permit_ok (held : bool) (out : list (TurnEffect V)) : bool :=
  match out with
  | [] => negb held
  | PermitTaken :: out => negb held && permit_ok true out
  | PermitDropped :: out => held && permit_ok false out
  | AskProvider _ _ :: out | TextOut _ :: out | ThinkingOut _ :: out => held && permit_ok held out
  | RequestTool _ :: out | TurnDone :: out => negb held && permit_ok held out
  end.

Lemma permit_deltas mid out : Forall (fun f => is_delta f = true) mid -> permit_ok true (mid ++ out) = permit_ok true out.
Proof. induction 1 as [|f mid Hf _ IH]; [done|]. by destruct f. Qed.

Lemma permit_ask clock h ids next (rd : Round V) out :
  permit_ok false (rp_out (ask clock h ids next rd).1 ++ out) = permit_ok false out.
Proof.
  destruct (ask_out clock h ids next rd) as [->|(sys & mid & -> & Hm)]; [done|]. cbn.
  rewrite <- app_assoc, permit_deltas by done. done.
Qed.

Lemma permit_calls (cs : list (ToolCall V)) out : permit_ok false ((RequestTool <$> cs) ++ out) = permit_ok false out.
Proof. induction cs as [|c cs IH]; [done|]. exact IH. Qed.

(** The concurrency permit spans exactly the provider calls: a turn that waits
    for tools or for a human holds none, and no way out of a turn leaks one. *)
Theorem permit_only_while_streaming (clock : bool) h (ids : gmap Z text) (next_id : Z) (rounds : list (Round V)) :
  permit_ok false (run_turn edge_var read_bytes window_secs session clock h ids next_id rounds).2 = true.
Proof.
  revert clock h ids next_id. induction rounds as [|rd rounds IH]; intros clock h ids next; [done|]. cbn [run_turn].
  pose proof (permit_ask clock h ids next rd) as Ha. destruct (ask clock h ids next rd) as [r ok]. cbn [fst] in Ha.
  destruct ok; cbn [negb]; [|specialize (Ha []); by rewrite app_nil_r in Ha].
  destruct (_ && _); [cbn [snd]; by rewrite Ha|]. destruct (bool_decide _); [cbn [snd]; by rewrite Ha|].
  destruct (collect_tool_results _ _ _ _ _ _ _ _) as [results|].
  - specialize (IH false ((h ++ [Assistant (rp_blocks r)]) ++ [User results]) (rp_ids r) (rp_next_id r)).
    destruct (run_turn _ _ _ _ _ _ _ _ rounds) as [[e nx] outs]. cbn [snd] in *. by rewrite <- app_assoc, Ha, permit_calls.
  - cbn [snd]. rewrite Ha. by rewrite <- (app_nil_r (RequestTool <$> _)), permit_calls.
Qed.

(** *** Completion *)

Definition is_done (f : TurnEffect V) : bool := match f with TurnDone => true | _ => false end.

Lemma ask_not_done clock h ids next (rd : Round V) : existsb is_done (rp_out (ask clock h ids next rd).1) = false.
Proof.
  destruct (ask_out clock h ids next rd) as [->|(sys & mid & -> & Hm)]; [done|]. cbn.
  rewrite existsb_app. cbn. rewrite orb_false_r. induction Hm as [|f mid Hf _ IH]; [done|]. cbn. rewrite IH. by destruct f.
Qed.

(** A turn announces its completion once, as the last thing it does, when it
    ends well, and not otherwise. *)
Lemma turn_done_last clock h ids next_id rounds :
  let r := turn clock h ids next_id rounds in
  match r.1.1 with
  | TurnOk _ => exists out, r.2 = out ++ [TurnDone] /\ existsb is_done out = false
  | _ => existsb is_done r.2 = false
  end.
Proof.
  unfold turn. revert clock h ids next_id. induction rounds as [|rd rounds IH]; intros clock h ids next; [done|]. cbn [run_turn].
  pose proof (ask_not_done clock h ids next rd) as Ha. destruct (ask clock h ids next rd) as [r ok]. cbn [fst] in Ha.
  destruct ok; cbn [negb]; [|done]. destruct (_ && _); [by eexists|]. destruct (bool_decide _); [by eexists|].
  assert (existsb is_done (rp_out r ++ (RequestTool <$> rp_calls r)) = false) as Hc.
  { rewrite existsb_app, Ha. cbn. induction (rp_calls r) as [|c cs IHc]; [done|exact IHc]. }
  destruct (collect_tool_results _ _ _ _ _ _ _ _) as [results|]; [|done].
  specialize (IH false ((h ++ [Assistant (rp_blocks r)]) ++ [User results]) (rp_ids r) (rp_next_id r)).
  destruct (run_turn _ _ _ _ _ _ _ _ rounds) as [[e nx] outs]. cbn [fst snd] in *. destruct e.
  - destruct IH as (out & -> & Ho). exists ((rp_out r ++ (RequestTool <$> rp_calls r)) ++ out). split; [by rewrite !app_assoc|].
    by rewrite existsb_app, Hc.
  - by rewrite existsb_app, Hc.
  - by rewrite existsb_app, Hc.
Qed.
End turns.

(** A shimmed image is what the providers pass through as an image. *)
Lemma shimmed_result_is_multimodal {V : Type} `{!JsonArgs V} `{!JsonNums V} `{!JsonDoc V} `{!JsonDocLaws V}
    (p : PreparedImage) (caption : option text) :
  contains_image_block (V := V) (anthropic_tool_result_content p caption) = true.
Proof.
  unfold contains_image_block, anthropic_tool_result_content. rewrite json_array_back. cbn [existsb].
  unfold arg_str. rewrite image_block_type. by rewrite bool_decide_eq_true_2.
Qed.

(** The clock is shown to a session at most once per idle gap. *)
Lemma ambient_spaced gap seen session t1 t2 :
  0 < gap -> (should_inject_ambient_at gap seen session t1).1 = true ->
  (should_inject_ambient_at gap (should_inject_ambient_at gap seen session t1).2 session t2).1 = (gap <=? sat_sub t2 t1).
Proof. unfold should_inject_ambient_at. cbn. intros Hg ->. by rewrite lookup_insert_eq. Qed.

(** ** Concrete runs *)

#[export] Instance ToyJsonValue : JsonValue Toy := {| json_text v := match v with ToyStr s => s | _ => [] end; json_of_str := ToyStr |}.

#[export] Instance ToyDoc : JsonDoc Toy := {|
  json_parse s := None;
  json_array l := ToyObj (pair [] <$> l);
  json_image_block m d := ToyObj [(chars "type", ToyStr (chars "image")); (chars "media_type", ToyStr m); (chars "data", ToyStr d)];
  json_text_block t := ToyObj [(chars "type", ToyStr (chars "text")); (chars "text", ToyStr t)]
|}.

#[export] Instance ToyDocLaws : JsonDocLaws Toy.
Proof.
  split; [|reflexivity]. intros l. cbn. assert (forallb (fun e => bool_decide (e.1 = [])) (pair (B := Toy) (@nil Z) <$> l) = true) as ->.
  { induction l; [done|]. cbn. done. }
  f_equal. induction l as [|x l IH]; [done|]. cbn. by f_equal.
Qed.

(** A picture is its two dimensions. *)
#[export] Instance ToyImages : ImageOps := {|
  Img := Z * Z;
  load_from_memory b := match b with [w; h] => Ok (Ok (w, h)) | _ => Ok (Err (chars "not an image")) end;
  img_width i := Z.min (Z.max i.1 0) u32_max;
  img_height i := Z.min (Z.max i.2 0) u32_max;
  img_resize w h i := (Z.min w i.1, Z.min h i.2);
  has_alpha _ := false;
  write_png _ := Ok [];
  encode_jpeg _ := Ok [];
  b64_encode b := b;
  b64_decode s := Ok s
|}.

#[export] Instance ToyImageLaws : ImageLaws.
Proof. split; cbn; intros; unfold_int; lia. Qed.

Lemma prepared_image_within_budget_witness :
  pi_est_tokens (mkPrepared (chars "image/jpeg") [] 200 100 27) <= 1399.
Proof.
  pose proof (prepared_image_within_budget None [200; 100] (mkPrepared (chars "image/jpeg") [] 200 100 27)) as Hw.
  assert (prepare_image None [200; 100] = Ok (Ok (mkPrepared (chars "image/jpeg") [] 200 100 27))) as Hp
    by (vm_compute; reflexivity).
  specialize (Hw Hp). cbv zeta in Hw. destruct Hw as [_ Hw]. destruct Hw as [_ Hw]. destruct Hw as [_ Hw].
  exact (Hw eq_refl).
Defined.

Definition toy_question : list (Message Toy) := [User [Text (chars "how warm is it?")]].
Definition toy_prompts : Prompts := mkPrompts (chars "soul") [] [] [] (chars "noon").

Definition toy_rounds : list (Round Toy) :=
  [mkRound true toy_prompts
     (Some [(0, CTextDelta (chars "let me see")); (0, CTextBlock (chars "let me see"));
            (2, CToolUse (chars "toolu_1") (chars "read_sensor") (ToyObj []));
            (0, CToolUse (chars "toolu_2") (chars "read_clock") (ToyObj [])); (0, CDone)]) 1000
     [(1200, BusResult 5 10 (mkOutput true (ToyStr (chars "20C")))); (1300, BusResult 4 9 (mkOutput true (ToyStr (chars "21C"))));
      (1400, BusPending 10)];
   mkRound true toy_prompts (Some [(0, CTextBlock (chars "21 degrees"))]) 3000000 []].

Lemma toy_question_awaits : awaits_reply toy_question.
Proof. split; [reflexivity|]. by exists [], [Text (chars "how warm is it?")]. Qed.

Lemma turn_stays_valid_witness :
  NoDup (requested (run_turn None (fun _ => Err []) 1800 4 true toy_question ∅ 7 toy_rounds).2).
Proof.
  assert (Forall sane_round toy_rounds) as Hs by (repeat constructor; cbn; lia).
  assert (is_u64 7) as Hid by (unfold is_u64, u64_max; lia).
  assert (all_draws toy_rounds <= 2 ^ 64) as Hd by (vm_compute; discriminate).
  pose proof (turn_stays_valid None (fun _ => Err []) 1800 4 true toy_question ∅ 7 toy_rounds toy_question_awaits Hid Hs Hd) as Ht.
  cbv zeta in Ht. destruct Ht as [_ [Ht _]]. exact Ht.
Defined.

(** The second call is parked at the gate until the window closes; the other
    session's result is not taken for it. *)
Example toy_turn_outcome :
  let r := run_turn None (fun _ => Err []) 1800 4 true toy_question ∅ 7 toy_rounds in
  requested r.2 = [9; 10] /\
  match r.1.1 with
  | TurnOk [_; _; User [ToolResult i1 c1 e1; ToolResult i2 _ e2]; Assistant [Text t]] =>
      i1 = chars "toolu_1" /\ c1 = ToyStr (chars "21C") /\ e1 = false /\ i2 = chars "toolu_2" /\ e2 = true /\ t = chars "21 degrees"
  | _ => False
  end.
Proof. vm_compute. by repeat split. Qed.
