(* ===== verification/Sse.v ===== *)
(** * Reading a provider's event stream

    The loop [sse_to_chunks] of [agent/src/oai.rs] and of
    [agent/src/anthropic.rs] have in common: the network's byte chunks are
    decoded as UTF-8 with a carry, cut into lines, and the data of each line is
    handed to the provider's own handler.  The handler is a parameter; Oai.v and
    Anthropic.v supply theirs.  Building a request's document is a class.  The
    last section compares the incremental loop with a batch reading of all bytes
    at once. *)
From S2P Require Import Prelude Text Policy Protocol History Turn.

(** ** [std::str::from_utf8] *)

Fixpoint utf8_cont (n : nat) (acc : Z) (b : bytes) : option (Z * bytes) :=
  match n, b with
  | O, _ => Some (acc, b)
  | S n, x :: r => if (128 <=? x) && (x <=? 191) then utf8_cont n (acc * 64 + (x - 128)) r else None
  | S _, [] => None
  end.

(** One complete character at the head. *)
Definition utf8_next (b : bytes) : option (Z * bytes) :=
  match b with
  | [] => None
  | x :: r =>
      if x <? 128 then Some (x, r)
      else
        match utf8_lead x, r with
        | Some (lo, hi, n, acc), y :: r =>
            if (lo <=? y) && (y <=? hi) then utf8_cont n (acc * 64 + (y - 128)) r else None
        | _, _ => None
        end
  end.

(** [valid_up_to]: the text of the longest valid prefix, and what is after it. *)
Fixpoint utf8_upto (fuel : nat) (b : bytes) : text * bytes :=
  match fuel with
  | O => ([], b)
  | S fuel =>
      match utf8_next b with
      | Some (c, r) => let '(s, r) := utf8_upto fuel r in (c :: s, r)
      | None => ([], b)
      end
  end.

Definition from_utf8 (b : bytes) : text * bytes := utf8_upto (length b) b.

(** ** Documents *)

(** [json!({...})], [Value::Null] and numbers; [is_null]. *)
Class JsonBuild (V : Type) := {
  json_obj : list (text * V) -> V; json_nul : V; json_num : Z -> V; json_is_null : V -> bool
}.

(** What is read back from a built document. *)
Class JsonBuildLaws (V : Type) `{!JsonArgs V} `{!JsonNums V} `{!JsonValue V} `{!JsonBuild V} : Prop := {
  json_obj_nil k : json_get (json_obj (V := V) []) k = None;
  json_obj_get k v l k' : k ∉ l.*1 ->
    json_get (json_obj (V := V) ((k, v) :: l)) k' = if bool_decide (k = k') then Some v else json_get (json_obj l) k';
  json_obj_object l : json_is_object (json_obj (V := V) l) = true;
  json_insert_object v k x : json_is_object (json_insert (V := V) v k x) = json_is_object v;
  json_str_back s : json_as_str (json_of_str (V := V) s) = Some s;
  json_str_no_array s : json_as_array (json_of_str (V := V) s) = None;
  json_nul_back : json_is_null (json_nul (V := V)) = true;
  json_nul_no_str : json_as_str (json_nul (V := V)) = None;
  json_num_back n : 0 <= n <= u64_max -> json_as_u64 (json_num (V := V) n) = Some n
}.

Lemma json_obj_hit {V} `{JsonBuildLaws V} k (v : V) l : k ∉ l.*1 -> json_get (json_obj ((k, v) :: l)) k = Some v.
Proof. intros Hk. by rewrite json_obj_get, bool_decide_eq_true_2. Qed.

Lemma json_obj_miss {V} `{JsonBuildLaws V} k k' (v : V) l :
  k ∉ l.*1 -> k <> k' -> json_get (json_obj ((k, v) :: l)) k' = json_get (json_obj l) k'.
Proof. intros Hk Hne. by rewrite json_obj_get, bool_decide_eq_false_2. Qed.

(** Fields of built objects with literal keys. *)
Ltac literal_keys := solve [ by apply (bool_decide_unpack _); vm_compute ].
Ltac json_fields :=
  repeat first
    [ rewrite json_obj_hit by literal_keys
    | rewrite json_obj_miss by literal_keys
    | rewrite json_obj_nil
    | rewrite json_get_insert by (rewrite ?json_insert_object; apply json_obj_object)
    | rewrite json_get_insert_ne by literal_keys ].

(** A tool as the model is told of it. *)
Record ToolSpec (V : Type) := mkToolSpec { ts_name : text; ts_description : text; ts_input_schema : V }.
Arguments mkToolSpec {V}. Arguments ts_name {V}. Arguments ts_description {V}. Arguments ts_input_schema {V}.

(** What a POST comes back with: no answer, a refusal, or a body as it arrives. *)
Inductive HttpReply := HttpFailed | HttpRefused (status : Z) (body : text) | HttpBody (items : list (option bytes)).

(** ** The loop *)

(** [s.trim_end_matches('\r')]. *)
Fixpoint drop_crs (s : text) : text :=
  match s with c :: r => if c =? 13 then drop_crs r else s | [] => [] end.
Definition trim_end_crs (s : text) : text := rev (drop_crs (rev s)).

(** The event a line carries. *)
Definition line_data (l : text) : option text := strip_prefix (chars "data: ") (trim_end_crs l).
Definition line_event {V} `{!JsonDoc V} (l : text) : option V := line_data l ≫= json_parse.

(** What a line's handler does with the stream: go on, [done = true; break],
    or [?] on an error. *)
Inductive Next := Go | Stop | Broken.

Section reader.
Context {V S : Type} (on_data : S -> text -> S * list (Chunk V) * Next).

Record Reader := mkReader { sr_buf : text; sr_carry : bytes; sr_done : bool; sr_state : S }.

Definition reader_new (s : S) : Reader := mkReader [] [] false s.

(** One line of the stream. *)
Definition on_line (s : S) (line : text) : S * list (Chunk V) * Next :=
  match line_data line with
  | Some data => on_data s data
  | None => (s, [], Go)
  end.

Fixpoint on_lines (s : S) (ls : list text) : S * list (Chunk V) * Next :=
  match ls with
  | [] => (s, [], Go)
  | l :: ls =>
      match on_line s l with
      | (s, out, Go) => let '(s, out', n) := on_lines s ls in (s, out ++ out', n)
      | (s, out, n) => (s, out, n)
      end
  end.

(** [while let Some(pos) = buf.find('\n')]: the complete lines, and the rest. *)
Definition complete_lines (buf : text) : list text := removelast (split_on 10 buf).
Definition partial_line (buf : text) : text := default [] (last (split_on 10 buf)).

(** One byte chunk. *)
Definition on_bytes (r : Reader) (b : bytes) : Reader * list (Chunk V) * Next :=
  let '(s, carry) := from_utf8 (sr_carry r ++ b) in
  let buf := sr_buf r ++ s in
  let '(st, out, n) := on_lines (sr_state r) (complete_lines buf) in
  (mkReader (partial_line buf) carry (match n with Stop => true | _ => false end) st, out, n).

(** [while let Some(bytes) = byte_stream.next().await]; an item is [None] when
    the transport failed.  The handler's state, the chunks, and whether the
    stream reached its end (else its last item is the error). *)
Fixpoint sse (r : Reader) (items : list (option bytes)) : S * list (Chunk V) * bool :=
  match items with
  | [] => (sr_state r, [], true)
  | i :: items =>
      if sr_done r then (sr_state r, [], true)
      else
        match i with
        | None => (sr_state r, [CError], false)
        | Some b =>
            match on_bytes r b with
            | (r, out, Broken) => (sr_state r, out ++ [CError], false)
            | (r, out, _) => let '(s, out', ok) := sse r items in (s, out ++ out', ok)
            end
        end
  end.

(** ** The same in one go *)

(** The bytes before the transport failed, and whether it did. *)
Fixpoint received (items : list (option bytes)) : bytes * bool :=
  match items with
  | [] => ([], false)
  | None :: _ => ([], true)
  | Some b :: items => let '(bs, cut) := received items in (b ++ bs, cut)
  end.

(** All bytes decoded, all complete lines handled. *)
Definition sse_batch (s : S) (bs : bytes) (cut : bool) : S * list (Chunk V) * bool :=
  match on_lines s (complete_lines (from_utf8 bs).1) with
  | (s, out, Broken) => (s, out ++ [CError], false)
  | (s, out, Stop) => (s, out, true)
  | (s, out, Go) => if cut then (s, out ++ [CError], false) else (s, out, true)
  end.
End reader.

Arguments mkReader {S}. Arguments sr_buf {S}. Arguments sr_carry {S}. Arguments sr_done {S}. Arguments sr_state {S}.

(** ** UTF-8 *)

Lemma utf8_cont_app n : forall acc b c r x, utf8_cont n acc b = Some (c, r) -> utf8_cont n acc (b ++ x) = Some (c, r ++ x).
Proof.
  induction n as [|n IH]; intros acc b c r x; cbn [utf8_cont]; [by intros [= <- <-]|].
  destruct b as [|y b]; [done|]. cbn [app]. destruct ((128 <=? y) && (y <=? 191)); [|done]. apply IH.
Qed.

Lemma utf8_cont_length n : forall acc b c r, utf8_cont n acc b = Some (c, r) -> length b = (n + length r)%nat.
Proof.
  induction n as [|n IH]; intros acc b c r; cbn [utf8_cont]; [by intros [= _ <-]|].
  destruct b as [|y b]; [done|]. destruct ((128 <=? y) && (y <=? 191)); [|done].
  intros E%IH. cbn [length]. lia.
Qed.

Lemma utf8_next_app b c r x : utf8_next b = Some (c, r) -> utf8_next (b ++ x) = Some (c, r ++ x).
Proof.
  destruct b as [|y b]; [done|]. cbn [utf8_next app]. destruct (y <? 128); [by intros [= <- <-]|].
  destruct (utf8_lead y) as [[[[lo hi] n] acc]|]; [|done]. destruct b as [|z b]; [done|]. cbn [app].
  destruct ((lo <=? z) && (z <=? hi)); [|done]. apply utf8_cont_app.
Qed.

Lemma utf8_next_shorter b c r : utf8_next b = Some (c, r) -> (length r < length b)%nat.
Proof.
  destruct b as [|y b]; [done|]. cbn [utf8_next length]. destruct (y <? 128); [intros [= _ <-]; lia|].
  destruct (utf8_lead y) as [[[[lo hi] n] acc]|]; [|done]. destruct b as [|z b]; [done|].
  destruct ((lo <=? z) && (z <=? hi)); [|done]. intros E%utf8_cont_length. cbn [length]. lia.
Qed.

Lemma utf8_upto_fuel b : forall f g, (length b <= f)%nat -> (length b <= g)%nat -> utf8_upto f b = utf8_upto g b.
Proof.
  induction b as [b IH] using (induction_ltof1 _ (@length Z)); unfold ltof in IH. intros f g Hf Hg.
  destruct b as [|x b']; [destruct f, g; done|]. destruct f as [|f], g as [|g]; cbn [length] in *; try lia.
  cbn [utf8_upto]. destruct (utf8_next (x :: b')) as [[c r]|] eqn:E; [|done].
  pose proof (utf8_next_shorter _ _ _ E) as Hr. cbn [length] in Hr.
  by rewrite (IH r ltac:(lia) f g) by lia.
Qed.

Lemma from_utf8_step b :
  from_utf8 b = match utf8_next b with Some (c, r) => let '(s, r) := from_utf8 r in (c :: s, r) | None => ([], b) end.
Proof.
  unfold from_utf8 at 1. destruct b as [|x b]; [done|]. cbn [utf8_upto length].
  destruct (utf8_next (x :: b)) as [[c r]|] eqn:E; [|done]. unfold from_utf8.
  apply utf8_next_shorter in E. cbn [length] in E. by rewrite (utf8_upto_fuel r (length b) (length r)) by lia.
Qed.

(** The valid prefix does not depend on where the bytes were cut. *)
Lemma from_utf8_app b : forall x,
  from_utf8 (b ++ x) = let '(s, r) := from_utf8 b in let '(s', r') := from_utf8 (r ++ x) in (s ++ s', r').
Proof.
  induction b as [b IH] using (induction_ltof1 _ (@length Z)); unfold ltof in IH. intros x.
  rewrite (from_utf8_step b). destruct (utf8_next b) as [[c r]|] eqn:E.
  - rewrite (from_utf8_step (b ++ x)), (utf8_next_app _ _ _ _ E), IH by (by eapply utf8_next_shorter).
    destruct (from_utf8 r) as [s r']. by destruct (from_utf8 (r' ++ x)).
  - by destruct (from_utf8 (b ++ x)).
Qed.

Definition is_scalar (c : Z) : bool := ((0 <=? c) && (c <? 55296)) || ((57344 <=? c) && (c <? 1114112)).

(** [lia] with division and remainder, and a boolean test that it decides. *)
#[local] Ltac Zify.zify_post_hook ::= Z.to_euclidean_division_equations.

Ltac decide_bool b :=
  first [ replace b with true by lia | replace b with false by lia ].

Lemma utf8_cont_1 acc y x :
  utf8_cont 1 acc (128 + y mod 64 :: x) = Some (acc * 64 + y mod 64, x).
Proof.
  cbn [utf8_cont]. decide_bool ((128 <=? 128 + y mod 64) && (128 + y mod 64 <=? 191)). do 2 f_equal. lia.
Qed.

Lemma utf8_cont_2 acc y z x :
  utf8_cont 2 acc (128 + y mod 64 :: 128 + z mod 64 :: x) = Some ((acc * 64 + y mod 64) * 64 + z mod 64, x).
Proof.
  change (utf8_cont 2 acc (128 + y mod 64 :: 128 + z mod 64 :: x))
    with (if (128 <=? 128 + y mod 64) && (128 + y mod 64 <=? 191)
          then utf8_cont 1 (acc * 64 + (128 + y mod 64 - 128)) (128 + z mod 64 :: x) else None).
  decide_bool ((128 <=? 128 + y mod 64) && (128 + y mod 64 <=? 191)). rewrite utf8_cont_1. do 2 f_equal. lia.
Qed.

(** The lead byte of a sequence, by the character's range. *)
Lemma utf8_lead_2 q : 2 <= q < 32 -> utf8_lead (192 + q) = Some (128, 191, 0%nat, q).
Proof. intros Hq. unfold utf8_lead. decide_bool ((194 <=? 192 + q) && (192 + q <=? 223)). do 2 f_equal. lia. Qed.

Lemma utf8_lead_3 q y : 0 <= q < 16 -> 0 <= y < 64 -> (q = 0 -> 32 <= y) -> (q = 13 -> y < 32) ->
  exists lo hi, utf8_lead (224 + q) = Some (lo, hi, 1%nat, q) /\ (lo <=? 128 + y) && (128 + y <=? hi) = true.
Proof.
  intros Hq Hy H0 H13. unfold utf8_lead.
  assert (q = 0 \/ q = 13 \/ 1 <= q < 13 \/ 13 < q) as [->|[->|[H|H]]] by lia.
  - exists 160, 191. split; [done|]. specialize (H0 eq_refl). lia.
  - exists 128, 159. split; [done|]. specialize (H13 eq_refl). lia.
  - exists 128, 191. split; [|lia].
    decide_bool ((194 <=? 224 + q) && (224 + q <=? 223)). decide_bool (224 + q =? 224).
    decide_bool (((225 <=? 224 + q) && (224 + q <=? 236)) || ((238 <=? 224 + q) && (224 + q <=? 239))).
    do 2 f_equal. lia.
  - exists 128, 191. split; [|lia].
    decide_bool ((194 <=? 224 + q) && (224 + q <=? 223)). decide_bool (224 + q =? 224).
    decide_bool (((225 <=? 224 + q) && (224 + q <=? 236)) || ((238 <=? 224 + q) && (224 + q <=? 239))).
    do 2 f_equal. lia.
Qed.

Lemma utf8_lead_4 q y : 0 <= q < 5 -> 0 <= y < 64 -> (q = 0 -> 16 <= y) -> (q = 4 -> y < 16) ->
  exists lo hi, utf8_lead (240 + q) = Some (lo, hi, 2%nat, q) /\ (lo <=? 128 + y) && (128 + y <=? hi) = true.
Proof.
  intros Hq Hy H0 H4. assert (q = 0 \/ q = 1 \/ q = 2 \/ q = 3 \/ q = 4) as Hc by lia.
  destruct Hc as [->|[->|[->|[->| ->]]]]; eexists _, _; (split; [reflexivity|lia]).
Qed.

(** Decoding what [as_bytes] wrote. *)
Lemma utf8_next_char c x : is_scalar c = true -> utf8_next (utf8_char c ++ x) = Some (c, x).
Proof.
  unfold is_scalar. intros Hc. assert (0 <= c < 1114112 /\ (c < 55296 \/ 57344 <= c)) as [Hr Hs] by lia. clear Hc.
  unfold utf8_char. destruct (Z.ltb_spec c 128) as [H1|H1]; [cbn [app utf8_next]; by decide_bool (c <? 128)|].
  destruct (Z.ltb_spec c 2048) as [H2|H2]; [|destruct (Z.ltb_spec c 65536) as [H3|H3]]; cbn [app utf8_next].
  - decide_bool (192 + c / 64 <? 128). rewrite utf8_lead_2 by lia.
    decide_bool ((128 <=? 128 + c mod 64) && (128 + c mod 64 <=? 191)). cbn [utf8_cont]. do 2 f_equal. lia.
  - decide_bool (224 + c / 4096 <? 128).
    destruct (utf8_lead_3 (c / 4096) (c / 64 mod 64)) as (lo & hi & -> & ->); [lia..|].
    rewrite utf8_cont_1. do 2 f_equal. lia.
  - decide_bool (240 + c / 262144 <? 128).
    destruct (utf8_lead_4 (c / 262144) (c / 4096 mod 64)) as (lo & hi & -> & ->); [lia..|].
    rewrite utf8_cont_2. do 2 f_equal. lia.
Qed.

Lemma from_utf8_bytes s : Forall (fun c => is_scalar c = true) s -> from_utf8 (as_bytes s) = (s, []).
Proof.
  induction 1 as [|c s Hc _ IH]; [done|]. unfold as_bytes in *. cbn [fmap list_fmap concat].
  by rewrite from_utf8_step, utf8_next_char, IH.
Qed.

(** What follows the valid prefix starts with no complete character. *)
Lemma from_utf8_rest b : from_utf8 (from_utf8 b).2 = ([], (from_utf8 b).2).
Proof.
  induction b as [b IH] using (induction_ltof1 _ (@length Z)); unfold ltof in IH.
  rewrite (from_utf8_step b). destruct (utf8_next b) as [[c r]|] eqn:E.
  - specialize (IH r (utf8_next_shorter _ _ _ E)). by destruct (from_utf8 r).
  - cbn [snd]. by rewrite from_utf8_step, E.
Qed.

(** ** Lines *)

Lemma split_on_nonempty c s : exists l ls, split_on c s = l :: ls.
Proof.
  induction s as [|x s [l [ls IH]]]; cbn [split_on]; [by eexists _, _|].
  destruct (x =? c); [by eexists _, _|]. rewrite IH. by eexists _, _.
Qed.

Lemma split_on_join c a b :
  split_on c (a ++ b) = removelast (split_on c a) ++ split_on c (default [] (last (split_on c a)) ++ b).
Proof.
  induction a as [|x a IH]; [done|]. cbn [app split_on]. rewrite IH.
  destruct (split_on_nonempty c a) as (l & ls & E). rewrite E. destruct (x =? c) eqn:Ex; [done|].
  destruct ls as [|l' ls]; [|done]. cbn. by rewrite Ex.
Qed.

Lemma complete_lines_app a b : complete_lines (a ++ b) = complete_lines a ++ complete_lines (partial_line a ++ b).
Proof.
  unfold complete_lines, partial_line. rewrite split_on_join.
  destruct (split_on_nonempty 10 (default [] (last (split_on 10 a)) ++ b)) as (l & ls & E).
  by rewrite E, removelast_app.
Qed.

Lemma partial_line_app a b : partial_line (a ++ b) = partial_line (partial_line a ++ b).
Proof.
  unfold partial_line. rewrite split_on_join at 1.
  destruct (split_on_nonempty 10 (default [] (last (split_on 10 a)) ++ b)) as (l & ls & ->).
  by rewrite last_app_cons.
Qed.

Lemma complete_partial s : complete_lines (partial_line s) = [].
Proof.
  pose proof (complete_lines_app s []) as E. rewrite !app_nil_r in E.
  apply (f_equal length) in E. rewrite length_app in E. apply nil_length_inv. lia.
Qed.

Section readerLemmas.
Context {V S : Type} (on_data : S -> text -> S * list (Chunk V) * Next).

Lemma on_lines_app s a b :
  on_lines on_data s (a ++ b) =
  match on_lines on_data s a with
  | (s, out, Go) => let '(s, out', n) := on_lines on_data s b in (s, out ++ out', n)
  | r => r
  end.
Proof.
  revert s. induction a as [|l a IH]; intros s; cbn [app on_lines].
  - by destruct (on_lines on_data s b) as [[??]?].
  - destruct (on_line on_data s l) as [[s1 o1] [| |]]; [|done..]. rewrite IH.
    destruct (on_lines on_data s1 a) as [[s2 o2] [| |]]; [|done..].
    destruct (on_lines on_data s2 b) as [[s3 o3] n]. by rewrite app_assoc.
Qed.

Lemma sse_done (r : Reader (S := S)) items : sr_done r = true -> sse on_data r items = (sr_state r, [], true).
Proof. intros E. destruct items; [done|]. cbn [sse]. by rewrite E. Qed.

(** From any point of a stream. *)
Lemma sse_from items : forall (r : Reader (S := S)),
  sr_done r = false -> complete_lines (sr_buf r) = [] -> from_utf8 (sr_carry r) = ([], sr_carry r) ->
  sse on_data r items =
  match on_lines on_data (sr_state r) (complete_lines (sr_buf r ++ (from_utf8 (sr_carry r ++ (received items).1)).1)) with
  | (s, out, Broken) => (s, out ++ [CError], false)
  | (s, out, Stop) => (s, out, true)
  | (s, out, Go) => if (received items).2 then (s, out ++ [CError], false) else (s, out, true)
  end.
Proof.
  induction items as [|[b|] items IH]; intros r Hd Hb Hc; cbn [sse received]; rewrite ?Hd.
  - cbn [fst snd]. by rewrite app_nil_r, Hc, app_nil_r, Hb.
  - destruct (received items) as [bs cut]. cbn [fst snd] in *. unfold on_bytes. rewrite app_assoc, (from_utf8_app (sr_carry r ++ b) bs).
    pose proof (from_utf8_rest (sr_carry r ++ b)) as Hrest.
    destruct (from_utf8 (sr_carry r ++ b)) as [t carry]. cbn [snd] in Hrest.
    destruct (from_utf8 (carry ++ bs)) as [t' rest] eqn:E'. cbn [fst].
    rewrite (app_assoc (sr_buf r)), (complete_lines_app (sr_buf r ++ t) t'), on_lines_app.
    destruct (on_lines on_data (sr_state r) (complete_lines (sr_buf r ++ t))) as [[s1 o1] [| |]]; cbv beta iota.
    + rewrite IH by (cbn [sr_done sr_buf sr_carry]; try done; apply complete_partial). cbn [sr_state sr_buf sr_carry].
      rewrite E'. cbn [fst].
      destruct (on_lines on_data s1 _) as [[s2 o2] [| |]]; destruct cut; by rewrite ?app_assoc.
    + rewrite sse_done by done. by rewrite app_nil_r.
    + done.
  - cbn [fst snd]. by rewrite app_nil_r, Hc, app_nil_r, Hb.
Qed.

(** C25: However the network cut the bytes, what the loop hands on is what reading
    all of them at once would: no line is lost, split or read twice at a chunk
    boundary, no character is damaged there, and a failing transport is
    reported after everything that arrived before it unless the provider had
    said the stream was over. *)
Theorem cut_is_invisible (s : S) (items : list (option bytes)) :
  sse on_data (reader_new s) items = sse_batch on_data s (received items).1 (received items).2.
Proof. by rewrite sse_from. Qed.

(** A stream of whole lines reaches the handler line by line. *)
Lemma sse_lines (s : S) (ls : list text) (bss : list bytes) :
  Forall (fun l => 10 ∉ l) ls -> Forall (fun c => is_scalar c = true) (terminated ls) ->
  concat bss = as_bytes (terminated ls) ->
  sse on_data (reader_new s) (Some <$> bss) =
  match on_lines on_data s ls with
  | (s, out, Broken) => (s, out ++ [CError], false)
  | (s, out, _) => (s, out, true)
  end.
Proof.
  intros Hls Hsc E. rewrite sse_from by done. cbn [sr_state sr_buf sr_carry reader_new app].
  assert (received (Some <$> bss) = (concat bss, false)) as ->.
  { clear E. induction bss as [|b bss IH]; [done|]. cbn [fmap list_fmap received concat]. by rewrite IH. }
  cbn [fst snd]. rewrite E, from_utf8_bytes by done. cbn [fst]. unfold complete_lines.
  rewrite split_on_terminated, removelast_last by done. by destruct (on_lines on_data s ls) as [[??] [| |]].
Qed.

(** *** The end of a stream *)

Definition is_end (c : Chunk V) : bool := match c with CDone | CError => true | _ => false end.
Definition endless (out : list (Chunk V)) : Prop := Forall (fun c => is_end c = false) out.

(** Chunks that end once, with [CDone] or [CError]. *)
Definition ends_once (out : list (Chunk V)) : Prop :=
  exists body e, out = body ++ [e] /\ endless body /\ (e = CDone \/ e = CError).

Context (Hquiet : forall s data, endless (on_data s data).1.2).

Lemma on_lines_endless ls : forall s, endless (on_lines on_data s ls).1.2.
Proof.
  induction ls as [|l ls IH]; intros s; cbn [on_lines]; [constructor|]. unfold on_line.
  destruct (line_data l) as [d|].
  - pose proof (Hquiet s d) as Hq. destruct (on_data s d) as [[s1 o1] [| |]]; try exact Hq.
    specialize (IH s1). destruct (on_lines on_data s1 ls) as [[s2 o2] n]. by apply Forall_app.
  - specialize (IH s). by destruct (on_lines on_data s ls) as [[s2 o2] n].
Qed.

(** The loop emits no end of its own but the error it stops at. *)
Lemma sse_ends s items :
  let '(_, out, ok) := sse on_data (reader_new s) items in
  if ok then endless out else exists body, out = body ++ [CError] /\ endless body.
Proof.
  rewrite sse_from by done. cbn [sr_state sr_buf sr_carry reader_new app].
  match goal with |- context [on_lines on_data s ?ls] => pose proof (on_lines_endless ls s) as H;
    destruct (on_lines on_data s ls) as [[s1 o1] [| |]] end; [|exact H|by exists o1].
  destruct (received items).2; [by exists o1|exact H].
Qed.
End readerLemmas.
Arguments ends_once {V}. Arguments endless {V}. Arguments is_end {V}.

(** A byte that is no UTF-8 stops the stream for good: nothing that arrives
    after it is read. *)
Lemma bad_byte_stalls x : from_utf8 (255 :: x) = ([], 255 :: x).
Proof. by rewrite from_utf8_step. Qed.
