(* ===== verification/Oai.v ===== *)
(** * OpenAI-compatible providers

    [agentd/crates/agent/src/oai.rs] and the dispatch of [routing.rs]: which key
    goes with which backend, the request built from a session's history, and the
    handler of the reply's events over the loop of Sse.v.  The environment's
    [AGENTD_XAI_REASONING_EFFORT] is an argument, the POST an argument of
    [messages_stream].  An index of a tool call is a [usize], 64 bits wide.

    The theorems: a history the Anthropic API would accept becomes a request
    that passes OpenAI's rules, written here as a check of any document, just
    where no assistant message is of thoughts alone; and what the turn is given
    of a reply, for any bytes that arrive. *)
From S2P Require Import Prelude Text Policy Protocol History Turn Sse.

(** ** Keys *)

Record OaiKeyRing := mkRing { kr_oai : text; kr_openrouter : text; kr_xai : text }.

Definition ring_default : OaiKeyRing := mkRing [] [] [].

Definition slot_for_backend (backend : text) : text :=
  if bool_decide (backend = chars "openrouter") then chars "openrouter"
  else if bool_decide (backend = chars "xai") then chars "xai"
  else chars "oai".

Definition for_backend (r : OaiKeyRing) (backend : text) : text :=
  let slot := slot_for_backend backend in
  if bool_decide (slot = chars "openrouter") then kr_openrouter r
  else if bool_decide (slot = chars "xai") then kr_xai r
  else kr_oai r.

Definition set_slot (r : OaiKeyRing) (slot key : text) : OaiKeyRing :=
  if bool_decide (slot = chars "openrouter") then mkRing (kr_oai r) key (kr_xai r)
  else if bool_decide (slot = chars "xai") then mkRing (kr_oai r) (kr_openrouter r) key
  else mkRing key (kr_openrouter r) (kr_xai r).

Definition set_for_backend (r : OaiKeyRing) (backend key : text) : OaiKeyRing :=
  set_slot r (slot_for_backend backend) key.

Definition slot_set (r : OaiKeyRing) (slot : text) : bool :=
  negb (is_nil (if bool_decide (slot = chars "openrouter") then kr_openrouter r
                else if bool_decide (slot = chars "xai") then kr_xai r
                else kr_oai r)).

Definition backend_key_set (r : OaiKeyRing) (backend : text) : bool := negb (is_nil (for_backend r backend)).

(** ** Reasoning effort *)

Definition xai_reasoning_effort_for (model : text) (env_effort : option text) : option text :=
  let m := to_ascii_lowercase (trim model) in
  if starts_with (chars "grok-4.5") m then
    let effort := to_ascii_lowercase (trim (default (chars "low") env_effort)) in
    if bool_decide (effort = chars "low") then Some (chars "low")
    else if bool_decide (effort = chars "medium") then Some (chars "medium")
    else if bool_decide (effort = chars "high") then Some (chars "high")
    else None
  else None.

(** ** The request *)

(** [parts.join("\n")]. *)
Fixpoint join_lines (ls : list text) : text :=
  match ls with [] => [] | [l] => l | l :: ls => l ++ 10 :: join_lines ls end.

Section request.
Context {V : Type} `{!JsonArgs V} `{!JsonNums V} `{!JsonValue V} `{!JsonDoc V} `{!JsonBuild V}.

Definition lit (s : string) : V := json_of_str (chars s).

(** An [image_url] item. *)
Definition image_url (media_type data : text) : V :=
  json_obj [(chars "type", lit "image_url");
            (chars "image_url",
             json_obj [(chars "url", json_of_str (chars "data:" ++ media_type ++ chars ";base64," ++ data))])].

(** One item of a vision result: the caption and the pictures so far. *)
Definition vision_item (acc : text * list V) (item : V) : text * list V :=
  let kind := arg_str item (chars "type") in
  let field k := json_get item (chars "source") ≫= (fun s => arg_str s k) in
  if bool_decide (kind = Some (chars "text")) then
    match arg_str item (chars "text") with Some t => (acc.1 ++ t, acc.2) | None => acc end
  else if bool_decide (kind = Some (chars "image")) then
    match field (chars "media_type"), field (chars "data") with
    | Some mt, Some data => (acc.1, acc.2 ++ [image_url mt data])
    | _, _ => acc
    end
  else acc.

(** The text a tool message carries, and the pictures it puts off. *)
Definition result_body (c : V) (is_error : bool) : text * list V :=
  if contains_image_block c then
    let '(caption, pictures) := foldl vision_item ([], []) (default [] (json_as_array c)) in
    (if is_nil caption then chars "[image returned in the following message]" else caption, pictures)
  else
    let body := match json_as_str c with Some s => s | None => json_text c end in
    (if is_error then chars "[ERROR] " ++ body else body, []).

Definition tool_message (id body : text) : V :=
  json_obj [(chars "role", lit "tool"); (chars "tool_call_id", json_of_str id); (chars "content", json_of_str body)].

Definition user_message (content : V) : V := json_obj [(chars "role", lit "user"); (chars "content", content)].

Definition text_part (t : text) : V := json_obj [(chars "type", lit "text"); (chars "text", json_of_str t)].

(** What the loop over a user message's blocks gathers. *)
Record UserParts := mkParts {
  up_results : list V; up_texts : list text; up_vision : list V; up_images : list V
}.

Definition user_block (u : UserParts) (b : ContentBlock V) : UserParts :=
  match b with
  | ToolResult id c is_error =>
      let '(body, pictures) := result_body c is_error in
      mkParts (up_results u ++ [tool_message id body]) (up_texts u) (up_vision u ++ pictures) (up_images u)
  | Text t => mkParts (up_results u) (up_texts u ++ [t]) (up_vision u) (up_images u)
  | Image mt data => mkParts (up_results u) (up_texts u) (up_vision u) (up_images u ++ [image_url mt data])
  | _ => u
  end.

(** The user's words and pictures, if any: one message. *)
Definition spoken_message (texts : list text) (images : list V) : list V :=
  match texts, images with
  | [], [] => []
  | _, [] => [user_message (json_of_str (join_lines texts))]
  | [], _ => [user_message (json_array images)]
  | _, _ => [user_message (json_array (text_part (join_lines texts) :: images))]
  end.

(** The pictures tools returned: a message of their own. *)
Definition vision_message (vision : list V) : list V :=
  match vision with
  | [] => []
  | _ => [user_message (json_array (text_part (chars "Image(s) returned by the preceding tool call:") :: vision))]
  end.

Definition user_messages (content : list (ContentBlock V)) : list V :=
  let u := foldl user_block (mkParts [] [] [] []) content in
  up_results u ++ spoken_message (up_texts u) (up_images u) ++ vision_message (up_vision u).

Definition call_json (id name : text) (input : V) : V :=
  json_obj [(chars "id", json_of_str id); (chars "type", lit "function");
            (chars "function", json_obj [(chars "name", json_of_str name);
                                         (chars "arguments", json_of_str (json_text input))])].

Definition assistant_block (acc : text * list V) (b : ContentBlock V) : text * list V :=
  match b with
  | Text t => (acc.1 ++ t, acc.2)
  | ToolUse id name input => (acc.1, acc.2 ++ [call_json id name input])
  | _ => acc
  end.

Definition assistant_message (content : list (ContentBlock V)) : V :=
  let '(txt, calls) := foldl assistant_block ([], []) content in
  let msg := json_insert (json_obj [(chars "role", lit "assistant")]) (chars "content")
               (if is_nil txt then json_nul else json_of_str txt) in
  match calls with [] => msg | _ => json_insert msg (chars "tool_calls") (json_array calls) end.

Definition oai_messages_of (m : Message V) : list V :=
  match m with User c => user_messages c | Assistant c => [assistant_message c] end.

Definition oai_messages (system : option text) (history : list (Message V)) : list V :=
  match system with
  | Some sys => [json_obj [(chars "role", lit "system"); (chars "content", json_of_str sys)]]
  | None => []
  end ++ concat (oai_messages_of <$> history).

Definition oai_tool (t : ToolSpec V) : V :=
  json_obj [(chars "type", lit "function");
            (chars "function", json_obj [(chars "name", json_of_str (ts_name t));
                                         (chars "description", json_of_str (ts_description t));
                                         (chars "parameters", ts_input_schema t)])].

Definition oai_build_body (effort : option text) (model : text) (history : list (Message V)) (tools : list (ToolSpec V))
    (system : option text) : V :=
  let body := json_obj [(chars "model", json_of_str model); (chars "messages", json_array (oai_messages system history));
                        (chars "stream", json_bool true); (chars "max_tokens", json_num 16000)] in
  let body := match tools with
              | [] => body
              | _ => json_insert (json_insert body (chars "tools") (json_array (oai_tool <$> tools)))
                       (chars "tool_choice") (lit "auto")
              end in
  match xai_reasoning_effort_for model effort with
  | Some e => json_insert body (chars "reasoning_effort") (json_of_str e)
  | None => body
  end.

(** ** The reply *)

Record ToolCallState := mkCallState { tc_id : text; tc_name : text; tc_args : text }.

Record OaiState := mkOai { oa_text : text; oa_calls : gmap Z ToolCallState }.

(** One fragment of a call: its index and what it brings. *)
Definition fragment_call (tc : V) : Z := default 0 (arg_u64 tc (chars "index")).

Definition add_fragment (calls : gmap Z ToolCallState) (tc : V) : gmap Z ToolCallState :=
  let idx := fragment_call tc in
  let entry := default (mkCallState [] [] []) (calls !! idx) in
  let function k := json_get tc (chars "function") ≫= (fun f => arg_str f k) in
  <[idx := mkCallState (default (tc_id entry) (arg_str tc (chars "id")))
                       (default (tc_name entry) (function (chars "name")))
                       (tc_args entry ++ default [] (function (chars "arguments")))]> calls.

(** The event in one line of data. *)
Definition oai_event (st : OaiState) (val : V) : OaiState * list (Chunk V) :=
  match arg_array val (chars "choices") with
  | None | Some [] => (st, [])
  | Some (choice :: _) =>
      let delta := json_get choice (chars "delta") in
      let said := default [] (delta ≫= (fun d => arg_str d (chars "content"))) in
      let calls := default [] (delta ≫= (fun d => arg_array d (chars "tool_calls"))) in
      (mkOai (oa_text st ++ said) (foldl add_fragment (oa_calls st) calls),
       if is_nil said then [] else [CTextDelta said])
  end.

Definition oai_on_data (st : OaiState) (data : text) : OaiState * list (Chunk V) * Next :=
  if bool_decide (trim data = chars "[DONE]") then (st, [], Stop)
  else
    match json_parse data with
    | None => (st, [], Go)
    | Some val => (oai_event st val, Go)
    end.

(** The calls in the order of their indices; a bad argument text ends it. *)
Fixpoint emit_calls (l : list ToolCallState) : list (Chunk V) :=
  match l with
  | [] => [CDone]
  | tc :: l =>
      if is_nil (tc_name tc) then emit_calls l
      else
        match (if is_nil (tc_args tc) then Some (json_obj []) else json_parse (tc_args tc)) with
        | Some input => CToolUse (tc_id tc) (tc_name tc) input :: emit_calls l
        | None => [CError]
        end
  end.

Definition calls_in_order (calls : gmap Z ToolCallState) : list ToolCallState :=
  omap (fun i => calls !! i) (merge_sort Z.le (elements (dom calls))).

(** What follows the last event. *)
Definition oai_finish (st : OaiState) : list (Chunk V) :=
  (if is_nil (oa_text st) then [] else [CTextBlock (oa_text st)]) ++ emit_calls (calls_in_order (oa_calls st)).

Definition oai_stream (items : list (option bytes)) : list (Chunk V) :=
  let '(st, out, ok) := sse oai_on_data (reader_new (mkOai [] ∅)) items in
  if ok then out ++ oai_finish st else out.

(** ** One call of the provider *)

(** [base_url.trim_end_matches('/')]. *)
Fixpoint drop_slashes (s : text) : text :=
  match s with c :: r => if c =? 47 then drop_slashes r else s | [] => [] end.

(** What is sent: where, with which [authorization] header, and the body. *)
Record OaiPost := mkPost { po_url : text; po_authorization : option text; po_body : V }.

Definition oai_post (effort : option text) (ring : OaiKeyRing) (backend model base_url : text)
    (history : list (Message V)) (tools : list (ToolSpec V)) (system : option text) : OaiPost :=
  let api_key := for_backend ring backend in
  mkPost (rev (drop_slashes (rev base_url)) ++ chars "/chat/completions")
         (if is_nil api_key then None else Some (chars "Bearer " ++ api_key))
         (oai_build_body effort model history tools system).

(** [None]: the call fails before anything streams. *)
Definition oai_messages_stream (send : OaiPost -> HttpReply) (effort : option text) (ring : OaiKeyRing)
    (backend model base_url : text) (history : list (Message V)) (tools : list (ToolSpec V)) (system : option text)
    : option (list (Chunk V)) :=
  match send (oai_post effort ring backend model base_url history tools system) with
  | HttpBody items => Some (oai_stream items)
  | _ => None
  end.
End request.
Arguments UserParts : clear implicits.
Arguments OaiPost : clear implicits.

(** [RoutingProvider]: which of the two providers a backend name selects. *)
Definition is_oai_backend (backend : text) : bool :=
  existsb (fun n => bool_decide (backend = n))
    [chars "ollama"; chars "vllm"; chars "openrouter"; chars "oai"; chars "xai"].

(** ** What OpenAI's API asks of a request *)

Section rules.
Context {V : Type} `{!JsonArgs V} `{!JsonNums V} `{!JsonValue V} `{!JsonDoc V} `{!JsonBuild V}.

(** A field that is this word; a field that is a string. *)
Definition says (v : V) (k w : string) : bool := bool_decide (arg_str v (chars k) = Some (chars w)).
Definition has_str (v : V) (k : string) : bool := is_someb (arg_str v (chars k)).

(** A non-empty array whose items are all in order. *)
Definition some_of (ok : V -> bool) (v : V) : bool :=
  match json_as_array v with Some (x :: xs) => forallb ok (x :: xs) | _ => false end.

(** A part of a user message. *)
Definition part_ok (v : V) : bool :=
  (says v "type" "text" && has_str v "text")
  || (says v "type" "image_url" && match json_get v (chars "image_url") with Some u => has_str u "url" | None => false end).

(** A call an assistant message makes. *)
Definition call_ok (v : V) : bool :=
  has_str v "id" && says v "type" "function"
  && match json_get v (chars "function") with Some f => has_str f "name" && has_str f "arguments" | None => false end.

Definition user_content_ok (m : V) : bool :=
  match json_get m (chars "content") with Some c => is_someb (json_as_str c) || some_of part_ok c | None => false end.

(** Text, or calls beside text or [null]. *)
Definition assistant_ok (m : V) : bool :=
  match json_get m (chars "tool_calls") with
  | None => has_str m "content"
  | Some calls =>
      some_of call_ok calls
      && match json_get m (chars "content") with Some c => is_someb (json_as_str c) || json_is_null c | None => true end
  end.

Definition message_ok (m : V) : bool :=
  (says m "role" "system" && has_str m "content")
  || (says m "role" "user" && user_content_ok m)
  || (says m "role" "tool" && has_str m "tool_call_id" && has_str m "content")
  || (says m "role" "assistant" && assistant_ok m).

(** The calls a message makes. *)
Definition asked_by (m : V) : list text :=
  omap (M := list) (fun c => arg_str c (chars "id")) (default [] (arg_array m (chars "tool_calls"))).

Definition covered (asked answered : list text) : bool := forallb (fun i => mem i answered) asked.

(** A tool message answers a call of the message that made calls last, with
    only tool messages in between; every call is answered before anything else
    is said. *)
Fixpoint paired (asked answered : list text) (ms : list V) : bool :=
  match ms with
  | [] => covered asked answered
  | m :: ms =>
      if says m "role" "tool" then
        match arg_str m (chars "tool_call_id") with
        | Some i => mem i asked && paired asked (i :: answered) ms
        | None => false
        end
      else covered asked answered && paired (asked_by m) [] ms
  end.

Definition tool_ok (t : V) : bool :=
  says t "type" "function"
  && match json_get t (chars "function") with
     | Some f => has_str f "name" && has_str f "description"
                 && match json_get f (chars "parameters") with Some s => json_is_object s | None => false end
     | None => false
     end.

(** A whole request: the model, the messages, the tools if any, the effort if
    any. *)
Definition oai_accepts (body : V) : bool :=
  has_str body "model"
  && match json_get body (chars "messages") with
     | Some ms => some_of message_ok ms && paired [] [] (default [] (json_as_array ms))
     | None => false
     end
  && match json_get body (chars "tools") with
     | Some ts => some_of tool_ok ts
     | None => negb (is_someb (json_get body (chars "tool_choice")))
     end
  && match json_get body (chars "reasoning_effort") with
     | Some _ => says body "reasoning_effort" "low" || says body "reasoning_effort" "medium"
                 || says body "reasoning_effort" "high"
     | None => true
     end.

(** What of a history can be sent: words or calls of the assistant; and that
    there is anything at all. *)
Definition worded (m : Message V) : bool :=
  match m with
  | Assistant c => existsb (fun b => match b with Text t => negb (is_nil t) | ToolUse _ _ _ => true | _ => false end) c
  | User _ => true
  end.

Definition sendable (m : Message V) : bool :=
  match m with
  | Assistant _ => true
  | User c => existsb (fun b => match b with Text _ | ToolResult _ _ _ | Image _ _ => true | _ => false end) c
  end.

(** A message that neither makes nor answers a call. *)
Definition plain (m : V) : Prop := says m "role" "tool" = false /\ asked_by m = [].
End rules.

(** ** The request is valid *)

Section requestLemmas.
Context {V : Type} `{!JsonArgs V} `{!JsonArgsLaws V} `{!JsonNums V} `{!JsonValue V} `{!JsonDoc V} `{!JsonDocLaws V}
  `{!JsonBuild V} `{!JsonBuildLaws V}.

(** *** Reading back what was built *)

Lemma has_str_at (v : V) k s : json_get v (chars k) = Some (json_of_str s) -> has_str v k = true.
Proof. unfold has_str, arg_str. intros ->. cbn [mbind option_bind]. by rewrite json_str_back. Qed.

Lemma says_at (v : V) k w s : json_get v (chars k) = Some (json_of_str s) -> says v k w = bool_decide (s = chars w).
Proof.
  unfold says, arg_str. intros ->. cbn [mbind option_bind]. rewrite json_str_back.
  apply bool_decide_ext. split; [by intros [= ->]|by intros ->].
Qed.

(** The tests on a literal field. *)
Ltac word_tests :=
  repeat first
    [ rewrite bool_decide_eq_true_2 by done
    | rewrite bool_decide_eq_false_2 by literal_keys ];
  cbn [andb orb].

Lemma some_of_array (ok : V -> bool) l : some_of ok (json_array l) = negb (is_nil l) && forallb ok l.
Proof. unfold some_of. rewrite json_array_back. by destruct l. Qed.

Lemma role_user (m : V) : json_get m (chars "role") = Some (lit "user") ->
  message_ok m = user_content_ok m /\ says m "role" "tool" = false.
Proof.
  unfold lit, message_ok. intros E. rewrite !(says_at m "role" _ _ E). word_tests. by rewrite !orb_false_r.
Qed.

Lemma role_assistant (m : V) : json_get m (chars "role") = Some (lit "assistant") ->
  message_ok m = assistant_ok m /\ says m "role" "tool" = false.
Proof. unfold lit, message_ok. intros E. rewrite !(says_at m "role" _ _ E). by word_tests. Qed.

Lemma image_part_ok mt d : part_ok (image_url (V := V) mt d) = true.
Proof.
  unfold part_ok. apply orb_true_iff. right. rewrite (says_at _ "type" _ (chars "image_url")) by (unfold image_url, lit; by json_fields).
  word_tests. unfold image_url. json_fields. eapply has_str_at. by json_fields.
Qed.

Lemma text_part_ok t : part_ok (text_part (V := V) t) = true.
Proof.
  unfold part_ok. rewrite (says_at _ "type" "text" (chars "text")) by (unfold text_part, lit; by json_fields).
  word_tests. rewrite (has_str_at _ "text" t) by (unfold text_part; by json_fields). done.
Qed.

Lemma user_message_ok (c : V) :
  message_ok (user_message c) = is_someb (json_as_str c) || some_of part_ok c /\ plain (user_message c).
Proof.
  destruct (role_user (user_message c)) as [-> Ht]; [unfold user_message; by json_fields|]. split.
  - unfold user_content_ok, user_message. by json_fields.
  - split; [done|]. unfold asked_by, arg_array, user_message. by json_fields.
Qed.

Lemma tool_message_ok id body : message_ok (tool_message (V := V) id body) = true /\
  says (tool_message (V := V) id body) "role" "tool" = true /\
  arg_str (tool_message (V := V) id body) (chars "tool_call_id") = Some id.
Proof.
  unfold message_ok. rewrite !(says_at (tool_message id body) "role" _ (chars "tool")) by (unfold tool_message, lit; by json_fields).
  word_tests. rewrite (has_str_at _ "tool_call_id" id), (has_str_at _ "content" body) by (unfold tool_message; by json_fields).
  split_and!; [done..|]. unfold arg_str, tool_message. json_fields. cbn [mbind option_bind]. by rewrite json_str_back.
Qed.

Lemma call_json_ok id name input : call_ok (call_json (V := V) id name input) = true /\
  arg_str (call_json (V := V) id name input) (chars "id") = Some id.
Proof.
  split; [|unfold arg_str, call_json; json_fields; cbn [mbind option_bind]; by rewrite json_str_back].
  unfold call_ok. rewrite (has_str_at _ "id" id), (says_at _ "type" _ (chars "function")) by (unfold call_json, lit; by json_fields).
  word_tests. unfold call_json. json_fields.
  rewrite (has_str_at _ "name" name), (has_str_at _ "arguments" (json_text input)) by (by json_fields). done.
Qed.

Lemma system_ok s : let m := json_obj (V := V) [(chars "role", lit "system"); (chars "content", json_of_str s)] in
  message_ok m = true /\ plain m.
Proof.
  intros m. unfold message_ok, plain. rewrite !(says_at m "role" _ (chars "system")) by (unfold m, lit; by json_fields).
  word_tests. rewrite (has_str_at m "content" s) by (unfold m; by json_fields).
  split_and!; [done..|]. unfold asked_by, arg_array, m. by json_fields.
Qed.

(** *** What a message's blocks become *)

Definition calls_of (c : list (ContentBlock V)) : list V :=
  omap (M := list) (fun b => match b with ToolUse id name input => Some (call_json id name input) | _ => None end) c.

Definition answers_of (c : list (ContentBlock V)) : list V :=
  omap (M := list) (fun b => match b with ToolResult id r e => Some (tool_message id (result_body r e).1) | _ => None end) c.

Definition words_of (c : list (ContentBlock V)) : list text :=
  omap (M := list) (fun b => match b with Text t => Some t | _ => None end) c.

Definition images_of (c : list (ContentBlock V)) : list V :=
  omap (M := list) (fun b => match b with Image mt d => Some (image_url mt d) | _ => None end) c.

Definition pictures_of (c : list (ContentBlock V)) : list V :=
  concat (omap (M := list) (fun b => match b with ToolResult _ r e => Some (result_body r e).2 | _ => None end) c).

Lemma assistant_fold c : forall acc, foldl assistant_block acc c = (acc.1 ++ concat (words_of c), acc.2 ++ calls_of c).
Proof.
  induction c as [|b c IH]; intros [t l]; [cbn; by rewrite !app_nil_r|]. cbn [foldl]. rewrite IH.
  destruct b; cbn [assistant_block fst snd calls_of words_of omap list_omap concat]; rewrite <- ?app_assoc; done.
Qed.

Lemma user_fold c : forall u, foldl user_block u c =
  mkParts (up_results u ++ answers_of c) (up_texts u ++ words_of c) (up_vision u ++ pictures_of c) (up_images u ++ images_of c).
Proof.
  induction c as [|b c IH]; intros [rs ts vs ims]; [cbn; by rewrite !app_nil_r|]. cbn [foldl]. rewrite IH.
  unfold answers_of, words_of, pictures_of, images_of.
  destruct b as [| | |id r e|]; cbn [user_block omap list_omap]; try destruct (result_body r e) as [body pictures];
    cbn [up_results up_texts up_vision up_images fst snd concat]; by rewrite <- ?app_assoc.
Qed.

Lemma user_messages_split c :
  user_messages c = answers_of c ++ spoken_message (words_of c) (images_of c) ++ vision_message (pictures_of c).
Proof. unfold user_messages. cbv zeta. by rewrite user_fold. Qed.

Lemma assistant_message_of c :
  assistant_message c =
  let msg := json_insert (json_obj [(chars "role", lit "assistant")]) (chars "content")
               (if is_nil (concat (words_of c)) then json_nul else json_of_str (concat (words_of c))) in
  match calls_of c with [] => msg | _ => json_insert msg (chars "tool_calls") (json_array (calls_of c)) end.
Proof. unfold assistant_message. by rewrite assistant_fold. Qed.

Lemma vision_items_ok l : forall acc, forallb part_ok acc.2 = true -> forallb (part_ok (V := V)) (foldl vision_item acc l).2 = true.
Proof.
  induction l as [|v l IH]; intros [t ps] Hp; [done|]. cbn [foldl]. apply IH. cbn [snd] in Hp. unfold vision_item. cbv zeta.
  destruct (bool_decide _); [by destruct (arg_str v (chars "text"))|]. destruct (bool_decide _); [|done].
  destruct (_ ≫= _) as [mt|]; [|done]. destruct (_ ≫= _) as [d|]; [|done].
  cbn [snd]. rewrite forallb_app, Hp. cbn [forallb andb]. by rewrite image_part_ok.
Qed.

Lemma pictures_ok c : forallb (part_ok (V := V)) (pictures_of c) = true.
Proof.
  unfold pictures_of. induction c as [|b c IH]; [done|].
  destruct b as [| | |id r e|]; try exact IH. cbn [omap list_omap concat]. rewrite forallb_app. apply andb_true_iff. split; [|exact IH].
  unfold result_body. destruct (contains_image_block r); [|done].
  pose proof (vision_items_ok (default [] (json_as_array r)) ([], []) eq_refl) as H.
  by destruct (foldl vision_item _ _).
Qed.

Lemma images_ok c : forallb (part_ok (V := V)) (images_of c) = true.
Proof.
  unfold images_of. induction c as [|b c IH]; [done|]. destruct b; try exact IH. cbn [omap list_omap forallb].
  by rewrite image_part_ok.
Qed.

(** The messages of a user's words and pictures. *)
Lemma spoken_ok ts (ims : list V) : forallb part_ok ims = true ->
  forallb message_ok (spoken_message ts ims) = true /\ Forall plain (spoken_message ts ims).
Proof.
  intros Hi. assert (forall c : V, is_someb (json_as_str c) || some_of part_ok c = true ->
    forallb message_ok [user_message c] = true /\ Forall plain [user_message c]) as Hm.
  { intros c Hc. destruct (user_message_ok c) as [E Hp]. cbn [forallb]. rewrite E, Hc. split; [done|by apply Forall_singleton]. }
  unfold spoken_message. destruct ts as [|t ts], ims as [|i ims]; [done|..]; apply Hm; rewrite ?json_str_back; try done;
    rewrite some_of_array; cbn [is_nil negb forallb andb] in *; rewrite ?text_part_ok, Hi; apply orb_true_r.
Qed.

Lemma vision_ok vs : forallb part_ok vs = true ->
  forallb message_ok (vision_message (V := V) vs) = true /\ Forall plain (vision_message vs).
Proof.
  intros Hv. unfold vision_message. destruct vs as [|v vs]; [done|].
  match goal with |- forallb _ [user_message ?c] = _ /\ _ => destruct (user_message_ok c) as [E Hp] end.
  cbn [forallb]. rewrite E, some_of_array. cbn [is_nil negb forallb andb] in *.
  rewrite text_part_ok, Hv, orb_true_r. split; [done|by apply Forall_singleton].
Qed.

Lemma answers_ok c : forallb message_ok (answers_of c) = true.
Proof.
  unfold answers_of. induction c as [|b c IH]; [done|]. destruct b as [| | |id r e|]; try exact IH.
  cbn [omap list_omap forallb]. destruct (tool_message_ok id (result_body r e).1) as (-> & _). exact IH.
Qed.

(** The words and pictures of a user message, tool pictures last. *)
Definition rest_of (c : list (ContentBlock V)) : list V :=
  spoken_message (words_of c) (images_of c) ++ vision_message (pictures_of c).

Lemma rest_ok c : forallb message_ok (rest_of c) = true /\ Forall plain (rest_of c).
Proof.
  destruct (spoken_ok (words_of c) _ (images_ok c)), (vision_ok _ (pictures_ok c)).
  unfold rest_of. rewrite forallb_app. split; [by apply andb_true_iff|by apply Forall_app].
Qed.

Lemma call_ids c : omap (M := list) (fun v => arg_str v (chars "id")) (calls_of c) = omap (M := list) use_id c.
Proof.
  induction c as [|b c IH]; [done|]. destruct b as [| |id name input| |]; try exact IH.
  change (calls_of (ToolUse id name input :: c)) with (call_json id name input :: calls_of c).
  cbn [omap list_omap use_id]. rewrite (proj2 (call_json_ok _ _ _)). f_equal. exact IH.
Qed.

Lemma calls_ok c : forallb call_ok (calls_of c) = true.
Proof.
  unfold calls_of. induction c as [|b c IH]; [done|]. destruct b as [| |id name input| |]; try exact IH.
  cbn [omap list_omap forallb]. destruct (call_json_ok id name input) as [-> _]. exact IH.
Qed.

Lemma worded_calls c : worded (V := V) (Assistant c) = negb (is_nil (concat (words_of c))) || negb (is_nil (calls_of c)).
Proof.
  cbn [worded]. unfold words_of, calls_of. induction c as [|b c IH]; [done|]. cbn [existsb omap list_omap].
  destruct b as [t| | | |]; cbn [orb]; try exact IH.
  - rewrite IH. cbn [concat]. by destruct t.
  - by rewrite orb_true_r.
Qed.

(** An assistant message says something exactly where it has words or calls. *)
Lemma assistant_message_ok c :
  message_ok (assistant_message c) = worded (Assistant c) /\
  says (assistant_message c) "role" "tool" = false /\ asked_by (assistant_message c) = omap (M := list) use_id c.
Proof.
  destruct (role_assistant (assistant_message c)) as [-> ->].
  { rewrite assistant_message_of. cbv zeta. destruct (calls_of c); by json_fields. }
  rewrite worded_calls, <- call_ids, assistant_message_of. cbv zeta. pose proof (calls_ok c) as Hk.
  unfold assistant_ok, asked_by, has_str, arg_str, arg_array. destruct (calls_of c) as [|v vs].
  - json_fields. cbn [mbind option_bind is_nil negb]. rewrite orb_false_r.
    destruct (concat (words_of c)); cbn [is_nil negb]; by rewrite ?json_nul_no_str, ?json_str_back.
  - json_fields. cbn [mbind option_bind is_nil negb]. rewrite orb_true_r, some_of_array, json_array_back, Hk.
    cbn [is_nil negb andb]. split_and!; [|done..].
    destruct (is_nil (concat (words_of c))); rewrite ?json_nul_back, ?json_str_back; [apply orb_true_r|done].
Qed.

Lemma messages_ok_of m : forallb message_ok (oai_messages_of m) = worded m.
Proof.
  destruct m as [c|c]; cbn [oai_messages_of].
  - rewrite user_messages_split, forallb_app, answers_ok. apply (proj1 (rest_ok c)).
  - cbn [forallb]. rewrite andb_true_r. apply assistant_message_ok.
Qed.

Lemma is_nil_app {A} (a b : list A) : is_nil (a ++ b) = is_nil a && is_nil b.
Proof. by destruct a. Qed.

Lemma spoken_nil ts (ims : list V) : is_nil (spoken_message ts ims) = is_nil ts && is_nil ims.
Proof. by destruct ts, ims. Qed.

Lemma messages_of_nil m : is_nil (oai_messages_of m) = negb (sendable m).
Proof.
  destruct m as [c|c]; cbn [oai_messages_of sendable]; [|done]. rewrite user_messages_split.
  rewrite !is_nil_app, spoken_nil. unfold answers_of, words_of, images_of, pictures_of.
  induction c as [|b c IH]; [done|]. cbn [existsb].
  destruct b; cbn [omap list_omap orb negb is_nil]; try exact IH; by rewrite ?andb_false_r.
Qed.

(** *** Calls and answers *)

Lemma paired_none answered (ms : list V) : paired [] answered ms = paired [] [] ms.
Proof. destruct ms as [|m ms]; [done|]. cbn [paired]. destruct (says m "role" "tool"); [|done]. by destruct (arg_str m _). Qed.

Lemma paired_covered asked answered (ms : list V) :
  covered asked answered = true -> paired [] [] ms = true -> paired asked answered ms = true.
Proof.
  intros Hc. destruct ms as [|m ms]; [done|]. cbn [paired]. destruct (says m "role" "tool").
  - by destruct (arg_str m _).
  - by rewrite Hc.
Qed.

Lemma paired_plain (ps ms : list V) : Forall plain ps -> paired [] [] ms = true -> paired [] [] (ps ++ ms) = true.
Proof.
  intros Hps Hms. induction Hps as [|p ps [Ht Ha] _ IH]; [done|]. cbn [app paired]. by rewrite Ht, Ha.
Qed.

(** Tool messages before the rest of a request. *)
Lemma paired_answers asked (ms : list V) c : forall answered,
  forallb (fun i => mem i asked) (omap (M := list) result_id c) = true ->
  (forall answered', (forall i, i ∈ answered \/ i ∈ omap (M := list) result_id c -> i ∈ answered') ->
     paired asked answered' ms = true) ->
  paired asked answered (answers_of c ++ ms) = true.
Proof.
  induction c as [|b c IH]; intros answered Hids Hms; [apply Hms; set_solver|].
  destruct b as [| | |id r e|]; cbn [omap list_omap result_id answers_of] in *; try (by apply IH).
  cbn [forallb app paired] in *. apply andb_true_iff in Hids as [Hid Hids].
  destruct (tool_message_ok id (result_body r e).1) as (_ & -> & ->). rewrite Hid. cbn [andb].
  apply IH; [done|]. intros answered' Ha. apply Hms. intros i Hi. apply Ha. set_solver.
Qed.

Lemma no_answers c : existsb is_result c = false -> answers_of c = [].
Proof.
  intros Hc. induction c as [|b c IH]; [done|]. cbn [existsb] in Hc. apply orb_false_iff in Hc as [Hb Hc].
  destruct b; try done; exact (IH Hc).
Qed.

(** A user message that answers exactly the calls before it. *)
Lemma answered_message ids c (ms : list V) :
  canonical ids c = true -> paired [] [] ms = true -> paired ids [] (user_messages c ++ ms) = true.
Proof.
  intros Hc Hms. unfold canonical in Hc. apply andb_true_iff in Hc as [[_ Halien]%andb_true_iff Hfull].
  rewrite user_messages_split, <- app_assoc. apply paired_answers; [done|]. intros answered Ha.
  apply paired_covered.
  - apply forallb_forall_elem. intros i Hi. apply mem_spec, Ha. right.
    apply mem_spec. by apply (proj1 (forallb_forall_elem _ _) Hfull).
  - apply paired_plain; [apply rest_ok|done].
Qed.

Lemma paired_history n : forall h : list (Message V),
  (length h <= n)%nat -> api_tail h = true -> paired [] [] (concat (oai_messages_of <$> h)) = true.
Proof.
  induction n as [|n IH]; intros [|m h] Hn Hv; try done; cbn [length] in Hn; [lia|].
  cbn [api_tail] in Hv. apply andb_true_iff in Hv as [_ Hv]. cbn [fmap list_fmap concat].
  destruct m as [c|c]; cbn [tool_use_ids oai_messages_of] in *.
  - apply andb_true_iff in Hv as [Hr Hv]. rewrite user_messages_split, no_answers by (by apply negb_true_iff).
    apply paired_plain; [apply rest_ok|]. apply IH; [lia|done].
  - cbn [app paired]. destruct (assistant_message_ok c) as (_ & -> & Ha). rewrite Ha. cbn [covered forallb andb].
    destruct (omap (M := list) use_id c) as [|i ids]; [apply IH; [lia|done]|].
    destruct h as [|[c'|c'] h]; try done. apply andb_true_iff in Hv as [Hcan Hv].
    cbn [fmap list_fmap concat oai_messages_of]. apply answered_message; [done|]. apply IH; [cbn [length] in Hn; lia|done].
Qed.

(** *** The request *)

Lemma messages_ok system (h : list (Message V)) : api_tail h = true ->
  some_of message_ok (json_array (oai_messages system h)) = (is_someb system || existsb sendable h) && forallb worded h /\
  paired [] [] (oai_messages system h) = true.
Proof.
  intros Hv. assert (forallb message_ok (concat (oai_messages_of <$> h)) = forallb worded h) as Hok.
  { clear Hv. induction h as [|m h IH]; [done|]. cbn [fmap list_fmap concat forallb]. by rewrite forallb_app, messages_ok_of, IH. }
  assert (is_nil (concat (oai_messages_of <$> h)) = negb (existsb sendable h)) as Hnil.
  { clear Hv Hok. induction h as [|m h IH]; [done|]. cbn [fmap list_fmap concat existsb]. pose proof (messages_of_nil m) as Hm.
    destruct (oai_messages_of m); cbn [app is_nil] in *; destruct (sendable m); done. }
  pose proof (paired_history (length h) h ltac:(lia) Hv) as Hp.
  rewrite some_of_array. unfold oai_messages. destruct system as [s|]; cbn [app is_someb orb].
  - cbn [is_nil negb forallb]. destruct (system_ok s) as [E [Ht Ha]]. cbv zeta in E. rewrite E, Hok. split; [done|].
    cbn [paired]. by rewrite Ht, Ha.
  - by rewrite Hok, Hnil, negb_involutive.
Qed.

Lemma tools_ok (tools : list (ToolSpec V)) :
  forallb tool_ok (oai_tool <$> tools) = forallb (fun t => json_is_object (ts_input_schema t)) tools.
Proof.
  induction tools as [|t tools IH]; [done|]. cbn [fmap list_fmap forallb]. rewrite IH. f_equal.
  unfold tool_ok. rewrite (says_at _ "type" _ (chars "function")) by (unfold oai_tool, lit; by json_fields).
  word_tests. unfold oai_tool. json_fields.
  rewrite (has_str_at _ "name" (ts_name t)), (has_str_at _ "description" (ts_description t)) by (by json_fields). done.
Qed.

Lemma effort_known model effort e : xai_reasoning_effort_for model effort = Some e ->
  e = chars "low" \/ e = chars "medium" \/ e = chars "high".
Proof. unfold xai_reasoning_effort_for. cbv zeta. repeat case_match; intros [= <-]; auto. Qed.

Lemma effort_ok (body : V) e : e = chars "low" \/ e = chars "medium" \/ e = chars "high" ->
  json_get body (chars "reasoning_effort") = Some (json_of_str e) ->
  says body "reasoning_effort" "low" || says body "reasoning_effort" "medium" || says body "reasoning_effort" "high" = true.
Proof. intros He E. rewrite !(says_at _ _ _ _ E). destruct He as [->|[->| ->]]; by word_tests. Qed.

(** C26: A session's history, once it is valid for the Anthropic API, which is
    what [repair_history] makes of any, is sent to an OpenAI-compatible backend
    as a request that passes a check of OpenAI's own rules for the fields used,
    written apart from the code: every role, content, part, call, answer and
    tool has the fields and types it must have, each tool message answers a
    call of the message that made calls last and nothing else is said before
    all are answered, and the effort is one of the three words.  The check
    passes exactly where there is a message at all, every tool's schema is an
    object, and every assistant message of the history has words or a call: a
    message of thoughts alone becomes one with neither, which those rules
    refuse. *)
Theorem oai_request_is_valid effort model (h : list (Message V)) (tools : list (ToolSpec V)) (system : option text) :
  api_tail h = true ->
  oai_accepts (oai_build_body effort model h tools system) =
  (is_someb system || existsb sendable h) && forallb worded h && forallb (fun t => json_is_object (ts_input_schema t)) tools.
Proof.
  intros Hv. destruct (messages_ok system h Hv) as [Hm Hp].
  pose proof (effort_known model effort) as He. pose proof (tools_ok tools) as Ht. unfold oai_accepts.
  set (body := oai_build_body effort model h tools system).
  assert (json_get body (chars "model") = Some (json_of_str model)) as Em
    by (unfold body, oai_build_body; destruct tools, (xai_reasoning_effort_for model effort); by json_fields).
  assert (json_get body (chars "messages") = Some (json_array (oai_messages system h))) as ->
    by (unfold body, oai_build_body; destruct tools, (xai_reasoning_effort_for model effort); by json_fields).
  rewrite (has_str_at _ _ _ Em), Hm, json_array_back. cbn [default from_option id]. rewrite Hp, andb_true_r. cbn [andb].
  rewrite <- andb_assoc. f_equal.
  assert (json_get body (chars "reasoning_effort") = json_of_str <$> xai_reasoning_effort_for model effort) as Ee
    by (unfold body, oai_build_body; destruct tools, (xai_reasoning_effort_for model effort); by json_fields).
  transitivity (match json_get body (chars "tools") with
                | Some ts => some_of tool_ok ts
                | None => negb (is_someb (json_get body (chars "tool_choice"))) end && true).
  { f_equal. rewrite Ee. destruct (xai_reasoning_effort_for model effort) as [e|]; [|done]. cbn [fmap option_fmap option_map].
    by apply (effort_ok _ e (He e eq_refl)). }
  rewrite andb_true_r. unfold body, oai_build_body. destruct tools as [|t ts].
  - destruct (xai_reasoning_effort_for model effort); by json_fields.
  - destruct (xai_reasoning_effort_for model effort); json_fields; by rewrite some_of_array.
Qed.
End requestLemmas.

(** ** The reply is delivered whole *)

Section reply.
Context {V : Type} `{!JsonArgs V} `{!JsonNums V} `{!JsonValue V} `{!JsonDoc V} `{!JsonBuild V}.

(** The line that ends the stream. *)
Definition is_done_line (l : text) : bool :=
  match line_data l with Some d => bool_decide (trim d = chars "[DONE]") | None => false end.

(** What one event says, and the fragments of calls it brings. *)
Definition event_delta (val : V) : option V :=
  match arg_array val (chars "choices") with
  | Some (choice :: _) => json_get choice (chars "delta")
  | _ => None
  end.
Definition event_said (val : V) : text := default [] (event_delta val ≫= (fun d => arg_str d (chars "content"))).
Definition event_fragments (val : V) : list V :=
  default [] (event_delta val ≫= (fun d => arg_array d (chars "tool_calls"))).

Definition fragment_fn (tc : V) (k : text) : option text := json_get tc (chars "function") ≫= (fun f => arg_str f k).

Definition fragments_at (i : Z) (frs : list V) : list V := List.filter (fun tc => fragment_call tc =? i) frs.

(** The call at an index: the last id and name given, all argument text. *)
Definition assembled (frs : list V) (i : Z) : ToolCallState :=
  let mine := fragments_at i frs in
  mkCallState (default [] (last (omap (M := list) (fun tc => arg_str tc (chars "id")) mine)))
              (default [] (last (omap (M := list) (fun tc => fragment_fn tc (chars "name")) mine)))
              (concat (omap (M := list) (fun tc => fragment_fn tc (chars "arguments")) mine)).

Definition call_indices (frs : list V) : list Z := merge_sort Z.le (remove_dups (fragment_call <$> frs)).

(** A list up to the first item that meets a test. *)
Fixpoint until {A} (p : A -> bool) (l : list A) : list A :=
  match l with [] => [] | x :: l => if p x then [] else x :: until p l end.

(** The arguments of a call; no text at all is the empty object. *)
Definition call_input (tc : ToolCallState) : option V :=
  match tc_args tc with [] => Some (json_obj []) | s => json_parse s end.

Definition unreadable (tc : ToolCallState) : bool := negb (is_someb (call_input tc)).

(** The calls that were given a name. *)
Definition named_calls (frs : list V) : list ToolCallState :=
  List.filter (fun tc => negb (is_nil (tc_name tc))) (assembled frs <$> call_indices frs).

(** Each named call up to the first with unreadable arguments, and how the
    reply ends. *)
Definition calls_told (frs : list V) : list (Chunk V) :=
  omap (M := list) (fun tc => CToolUse (tc_id tc) (tc_name tc) <$> call_input tc) (until unreadable (named_calls frs))
  ++ [if existsb unreadable (named_calls frs) then CError else CDone].

Lemma fragments_at_snoc i frs tc :
  fragments_at i (frs ++ [tc]) = fragments_at i frs ++ (if fragment_call tc =? i then [tc] else []).
Proof. unfold fragments_at. by rewrite List.filter_app. Qed.

Lemma assembled_snoc i frs tc :
  assembled (frs ++ [tc]) i =
  if fragment_call tc =? i then
    mkCallState (default (tc_id (assembled frs i)) (arg_str tc (chars "id")))
                (default (tc_name (assembled frs i)) (fragment_fn tc (chars "name")))
                (tc_args (assembled frs i) ++ default [] (fragment_fn tc (chars "arguments")))
  else assembled frs i.
Proof.
  unfold assembled. rewrite fragments_at_snoc. destruct (fragment_call tc =? i); [|by rewrite app_nil_r].
  cbn [tc_id tc_name tc_args]. rewrite !omap_app. cbn [omap list_omap].
  destruct (arg_str tc (chars "id")), (fragment_fn tc (chars "name")), (fragment_fn tc (chars "arguments"));
    rewrite ?app_nil_r, ?last_snoc, ?concat_app; cbn [default from_option concat]; by rewrite ?app_nil_r.
Qed.

(** The state after any fragments. *)
Lemma fragments_lookup frs i :
  foldl add_fragment ∅ frs !! i = if is_nil (fragments_at i frs) then None else Some (assembled frs i).
Proof.
  revert i. induction frs as [|tc frs IH] using rev_ind; intros i; [done|].
  rewrite foldl_app. cbn [foldl]. unfold add_fragment at 1. cbv zeta.
  assert (forall j, default (mkCallState [] [] []) (foldl add_fragment ∅ frs !! j) = assembled frs j) as Hd.
  { intros j. rewrite IH. unfold assembled. by destruct (fragments_at j frs). }
  rewrite Hd, fragments_at_snoc, assembled_snoc. destruct (Z.eqb_spec (fragment_call tc) i) as [->|Hne].
  - rewrite lookup_insert_eq. by destruct (fragments_at i frs).
  - by rewrite lookup_insert_ne, IH, app_nil_r.
Qed.

Lemma fragments_at_some i frs : is_nil (fragments_at i frs) = false <-> i ∈ fragment_call <$> frs.
Proof.
  unfold fragments_at. rewrite list_elem_of_fmap. split.
  - destruct (List.filter _ frs) as [|tc r] eqn:E; [done|]. intros _. exists tc.
    assert (tc ∈ List.filter (fun tc => fragment_call tc =? i) frs) as [H1 H2]%elem_of_bfilter by (rewrite E; left).
    split; [lia|done].
  - intros (tc & -> & Htc). destruct (List.filter _ frs) as [|x r] eqn:E; [|done].
    assert (tc ∈ List.filter (fun x => fragment_call x =? fragment_call tc) frs) as Hin
      by (apply elem_of_bfilter; split; [done|lia]).
    rewrite E in Hin. by apply elem_of_nil in Hin.
Qed.

Lemma calls_in_order_assembled frs :
  calls_in_order (foldl add_fragment ∅ frs) = assembled frs <$> call_indices frs.
Proof.
  unfold calls_in_order, call_indices.
  assert (forall i, i ∈ dom (foldl add_fragment ∅ frs) <-> i ∈ fragment_call <$> frs) as Hdom.
  { intros i. rewrite elem_of_dom, fragments_lookup, <- fragments_at_some.
    destruct (is_nil (fragments_at i frs)); split; done. }
  assert (elements (dom (foldl add_fragment ∅ frs)) ≡ₚ remove_dups (fragment_call <$> frs)) as Hp.
  { apply NoDup_Permutation; [apply NoDup_elements|apply NoDup_remove_dups|].
    intros i. by rewrite elem_of_elements, elem_of_remove_dups. }
  assert (merge_sort Z.le (elements (dom (foldl add_fragment ∅ frs))) =
          merge_sort Z.le (remove_dups (fragment_call <$> frs))) as ->.
  { apply (Sorted_unique Z.le); [apply (Sorted_merge_sort _)..|]. by rewrite !merge_sort_Permutation. }
  assert (forall i, i ∈ merge_sort Z.le (remove_dups (fragment_call <$> frs)) ->
          foldl add_fragment ∅ frs !! i = Some (assembled frs i)) as Hl.
  { intros i Hi. rewrite merge_sort_Permutation, elem_of_remove_dups in Hi.
    apply fragments_at_some in Hi. by rewrite fragments_lookup, Hi. }
  induction (merge_sort Z.le _) as [|i l IHl]; [done|]. cbn [omap list_omap fmap list_fmap].
  rewrite Hl by left. f_equal. apply IHl. intros j Hj. apply Hl. by right.
Qed.

Lemma oai_event_says st val :
  oai_event st val =
  (mkOai (oa_text st ++ event_said val) (foldl add_fragment (oa_calls st) (event_fragments val)),
   CTextDelta <$> List.filter (fun t => negb (is_nil t)) [event_said val]).
Proof.
  unfold oai_event, event_said, event_fragments, event_delta. destruct st as [t calls].
  destruct (arg_array val (chars "choices")) as [[|choice cs]|]; cbn [oa_text oa_calls mbind option_bind default from_option].
  - by rewrite app_nil_r.
  - cbv zeta. unfold id. cbn [List.filter]. by destruct (is_nil _).
  - by rewrite app_nil_r.
Qed.

Lemma oai_line st l : is_done_line l = false ->
  on_line oai_on_data st l = (match line_event l with Some val => oai_event st val | None => (st, []) end, Go).
Proof.
  unfold on_line, is_done_line, line_event, oai_on_data.
  destruct (line_data l) as [d|]; [|done]. intros ->.
  cbn [mbind option_bind]. by destruct (json_parse d).
Qed.

Lemma oai_lines ls : forall st, forallb (fun l => negb (is_done_line l)) ls = true ->
  on_lines oai_on_data st ls =
  (mkOai (oa_text st ++ concat (event_said <$> omap (M := list) line_event ls))
         (foldl add_fragment (oa_calls st) (concat (event_fragments <$> omap (M := list) line_event ls))),
   CTextDelta <$> List.filter (fun t => negb (is_nil t)) (event_said <$> omap (M := list) line_event ls), Go).
Proof.
  induction ls as [|l ls IH]; intros st Hls; cbn [forallb on_lines] in *.
  { destruct st. cbn. by rewrite app_nil_r. }
  apply andb_true_iff in Hls as [Hl%negb_true_iff Hls]. rewrite oai_line by done. cbn [omap list_omap].
  destruct (line_event l) as [val|]; [|by rewrite IH]. rewrite oai_event_says, IH by done.
  cbn [oa_text oa_calls fmap list_fmap concat]. rewrite <- !app_assoc, foldl_app.
  do 2 f_equal. cbn [List.filter]. by destruct (is_nil (event_said val)).
Qed.

Lemma on_lines_until ls st :
  on_lines oai_on_data st ls =
  let vals := omap (M := list) line_event (until is_done_line ls) in
  (mkOai (oa_text st ++ concat (event_said <$> vals)) (foldl add_fragment (oa_calls st) (concat (event_fragments <$> vals))),
   CTextDelta <$> List.filter (fun t => negb (is_nil t)) (event_said <$> vals),
   if existsb is_done_line ls then Stop else Go).
Proof.
  assert (forallb (fun l => negb (is_done_line l)) (until is_done_line ls) = true) as Hu.
  { induction ls as [|l ls IH]; [done|]. cbn [until]. destruct (is_done_line l) eqn:E; [done|]. cbn [forallb]. by rewrite E. }
  assert (exists rest, ls = until is_done_line ls ++ rest /\ existsb is_done_line ls = negb (is_nil rest) /\
            match rest with [] => True | l :: _ => is_done_line l = true end) as (rest & E & Hex & Hrest).
  { clear Hu. induction ls as [|l ls (rest & E & Hex & Hr)]; [by exists []|]. cbn [until existsb].
    destruct (is_done_line l) eqn:El; [by exists (l :: ls)|]. exists rest. split_and!; [|done..]. cbn [app]. by f_equal. }
  rewrite Hex. rewrite E at 1. rewrite on_lines_app, oai_lines by done. cbv zeta.
  destruct rest as [|l rest]; [cbn [on_lines is_nil negb]; by rewrite app_nil_r|]. cbn [on_lines is_nil negb].
  unfold on_line, oai_on_data. unfold is_done_line in Hrest. destruct (line_data l) as [d|]; [|done].
  rewrite Hrest. by rewrite app_nil_r.
Qed.

Lemma emit_calls_told l :
  emit_calls l =
  let named := List.filter (fun tc => negb (is_nil (tc_name tc))) l in
  omap (M := list) (fun tc => CToolUse (tc_id tc) (tc_name tc) <$> call_input tc) (until unreadable named)
  ++ [if existsb unreadable named then CError else CDone].
Proof.
  cbv zeta. induction l as [|tc l IH]; [done|]. cbn [emit_calls List.filter]. destruct (is_nil (tc_name tc)) eqn:En; [exact IH|].
  cbn [negb until existsb].
  assert ((if is_nil (tc_args tc) then Some (json_obj []) else json_parse (tc_args tc)) = call_input tc) as ->
    by (unfold call_input; by destruct (tc_args tc)).
  assert (unreadable tc = negb (is_someb (call_input tc))) as -> by done.
  destruct (call_input tc) as [input|] eqn:Ei; cbn [is_someb negb orb]; [|done].
  cbn [omap list_omap]. rewrite Ei. cbn [fmap option_fmap option_map app]. by rewrite IH.
Qed.

(** C28: For whatever arrives, in whatever pieces, the turn is given exactly this.
    The bytes are read up to the first that is no UTF-8, in whole lines, up to
    the [DONE] line or the failure of the transport; each line of data that is
    JSON is an event.  Every non-empty piece of text comes as it was sent.
    Then, where the transport failed before [DONE], an error and nothing more;
    else the whole text as one block and the calls in the order of their
    indices, each with the last id and the last name it was given and all of
    its argument text, parsed, none meaning the empty object.  A call that was
    never given a name is left out; at the first whose arguments are not JSON
    the reply ends in an error, and it ends well otherwise. *)
Theorem oai_reply_exact (items : list (option bytes)) :
  let lines := complete_lines (from_utf8 (received items).1).1 in
  let vals := omap (M := list) line_event (until is_done_line lines) in
  let said := event_said <$> vals in
  oai_stream items =
  (CTextDelta <$> List.filter (fun t => negb (is_nil t)) said)
  ++ (if (received items).2 && negb (existsb is_done_line lines) then [CError]
      else (if is_nil (concat said) then [] else [CTextBlock (concat said)])
           ++ calls_told (concat (event_fragments <$> vals))).
Proof.
  cbv zeta. unfold oai_stream. rewrite sse_from by done. cbn [sr_state sr_buf sr_carry reader_new app].
  rewrite on_lines_until. cbn [oa_text oa_calls app]. cbv zeta.
  assert (forall vals : list V, oai_finish (mkOai (concat (event_said <$> vals)) (foldl add_fragment ∅ (concat (event_fragments <$> vals)))) =
    (if is_nil (concat (event_said <$> vals)) then [] else [CTextBlock (concat (event_said <$> vals))])
      ++ calls_told (concat (event_fragments <$> vals))) as Hf.
  { intros vals. unfold oai_finish. cbn [oa_text oa_calls]. by rewrite calls_in_order_assembled, emit_calls_told. }
  destruct (existsb is_done_line _); cbn [negb]; rewrite ?andb_false_r, ?andb_true_r; [by rewrite Hf|].
  destruct (received items).2; [done|]. by rewrite Hf.
Qed.

(** The calls end with one [CDone] or one [CError]. *)
Lemma emit_calls_ends l : ends_once (emit_calls (V := V) l).
Proof.
  induction l as [|tc l (out & e & E & Hout & He)]; [exists [], CDone; split_and!; [done|constructor|by left]|].
  cbn [emit_calls]. rewrite E. destruct (is_nil (tc_name tc)); [by exists out, e|].
  destruct (if is_nil (tc_args tc) then _ else _) as [input|]; [|exists [], CError; split_and!; [done|constructor|by right]].
  exists (CToolUse (tc_id tc) (tc_name tc) input :: out), e. split_and!; [done|by constructor|done].
Qed.

(** Whatever arrives, a stream ends once. *)
Lemma oai_stream_ends items : ends_once (oai_stream (V := V) items).
Proof.
  assert (forall st data, endless (oai_on_data (V := V) st data).1.2) as Hq.
  { intros st data. unfold oai_on_data. destruct (bool_decide _); [constructor|].
    destruct (json_parse data) as [val|]; [|constructor]. rewrite oai_event_says. cbn [fst snd List.filter].
    destruct (is_nil (event_said val)); repeat constructor. }
  unfold oai_stream. pose proof (sse_ends oai_on_data Hq (mkOai [] ∅) items) as H.
  destruct (sse oai_on_data _ items) as [[st out] [|]].
  - destruct (emit_calls_ends (calls_in_order (oa_calls st))) as (body & e & E & Hb & He). unfold oai_finish. rewrite E.
    exists (out ++ (if is_nil (oa_text st) then [] else [CTextBlock (oa_text st)]) ++ body), e.
    split_and!; [by rewrite !app_assoc| |done].
    apply Forall_app; split; [done|]. apply Forall_app; split; [|done]. destruct (is_nil (oa_text st)); repeat constructor.
  - destruct H as (body & -> & Hb). exists body, CError. split_and!; [done|done|by right].
Qed.

(** *** Keys *)

(** The three slots, and the tests on them computed. *)
Lemma slot_cases b :
  slot_for_backend b = chars "openrouter" \/ slot_for_backend b = chars "xai" \/ slot_for_backend b = chars "oai".
Proof. unfold slot_for_backend. repeat case_bool_decide; auto. Qed.

Lemma ring_slot_back r b key : for_backend (set_for_backend r b key) b = key.
Proof. unfold for_backend, set_for_backend. by destruct (slot_cases b) as [->|[->| ->]]. Qed.

Lemma ring_slot_apart r b b' key :
  slot_for_backend b <> slot_for_backend b' -> for_backend (set_for_backend r b key) b' = for_backend r b'.
Proof.
  unfold for_backend, set_for_backend.
  by destruct (slot_cases b) as [->|[->| ->]], (slot_cases b') as [->|[->| ->]]; intros Hne.
Qed.
End reply.
