(* ===== verification/Anthropic.v ===== *)
(** * The Anthropic provider

    [agentd/crates/agent/src/anthropic.rs], the cache settings of [cache.rs] and
    the token accounting of [usage.rs].  The environment's variables and the POST
    are arguments; the figures the parser prints to the journal and the hit rate
    the gateway shows (floating point) are not modelled.  Token totals are [u64]
    and wrap, as a release build's do.

    The theorems: a request carries no more cache marks than the API takes, but
    for those tools put into results with a picture, none of its own on the turn
    that carries the clock, and marking changes nothing else; a reply streamed
    block by block is delivered block by block, signatures included, among any
    other fields and events; the tools part of a request does not depend on the order tools
    were gathered in. *)
From S2P Require Import Prelude Text Policy Protocol History Turn Sse.

(** ** Cache settings *)

Inductive CacheTtl := FiveMin | OneHour.

Definition ttl_str (t : CacheTtl) : option text := match t with FiveMin => None | OneHour => Some (chars "1h") end.
Definition ttl_label (t : CacheTtl) : text := match t with FiveMin => chars "5m" | OneHour => chars "1h" end.

Record CacheConfig := mkCache { cc_enabled : bool; cc_conversation : bool; cc_ttl : CacheTtl }.

Definition cache_default : CacheConfig := mkCache true true OneHour.

Definition lowered_in (s : text) (l : list text) : bool := existsb (fun n => bool_decide (s = n)) l.

Definition env_off (v : text) : bool :=
  lowered_in (to_ascii_lowercase (trim v)) [chars "0"; chars "false"; chars "off"; chars "no"].

(** [AGENTD_CACHE], [AGENTD_CACHE_CONVERSATION] and [AGENTD_CACHE_TTL]. *)
Definition cache_from_env (cache conversation ttl : option text) : CacheConfig :=
  mkCache (match cache with Some v => negb (env_off v) | None => cc_enabled cache_default end)
          (match conversation with Some v => negb (env_off v) | None => cc_conversation cache_default end)
          (match ttl with
           | Some v =>
               if lowered_in (to_ascii_lowercase (trim v)) [chars "1h"; chars "1hr"; chars "hour"; chars "3600"]
               then OneHour else FiveMin
           | None => cc_ttl cache_default
           end).

Definition cache_summary (c : CacheConfig) : text :=
  if negb (cc_enabled c) then chars "off"
  else chars "on " ++ [183] ++ chars " conversation=" ++ (if cc_conversation c then chars "yes" else chars "no")
       ++ chars " " ++ [183] ++ chars " ttl=" ++ ttl_label (cc_ttl c).

(** ** Token accounting *)

Record UsageStats := mkUsage {
  us_turns : Z; us_input : Z; us_cache_read : Z; us_cache_creation : Z; us_output : Z
}.

Definition usage_zero : UsageStats := mkUsage 0 0 0 0 0.

Definition total_input (s : UsageStats) : Z := as_u64 (as_u64 (us_input s + us_cache_read s) + us_cache_creation s).

Definition record_turn_usage (s : UsageStats) (input cache_read cache_creation output : Z) : UsageStats :=
  mkUsage (as_u64 (us_turns s + 1)) (as_u64 (us_input s + input)) (as_u64 (us_cache_read s + cache_read))
          (as_u64 (us_cache_creation s + cache_creation)) (as_u64 (us_output s + output)).

(** ** The request *)

Definition supports_adaptive_thinking (model : text) : bool :=
  existsb (fun p => starts_with p model) [chars "claude-fable-5"; chars "claude-opus-5"; chars "claude-sonnet-5"].

Definition STRIDE : Z := 15.
Definition MAX_BP : Z := 3.

Section request.
Context {V : Type} `{!JsonArgs V} `{!JsonNums V} `{!JsonValue V} `{!JsonDoc V} `{!JsonBuild V}.

Definition slit (s : string) : V := json_of_str (chars s).

Definition cache_control (c : CacheConfig) : V :=
  match ttl_str (cc_ttl c) with
  | Some ttl => json_obj [(chars "type", slit "ephemeral"); (chars "ttl", json_of_str ttl)]
  | None => json_obj [(chars "type", slit "ephemeral")]
  end.

Definition block_to_json (b : ContentBlock V) : V :=
  match b with
  | Text t => json_obj [(chars "type", slit "text"); (chars "text", json_of_str t)]
  | Thinking th sg =>
      json_obj [(chars "type", slit "thinking"); (chars "thinking", json_of_str th); (chars "signature", json_of_str sg)]
  | ToolUse id name input =>
      json_obj [(chars "type", slit "tool_use"); (chars "id", json_of_str id); (chars "name", json_of_str name);
                (chars "input", input)]
  | ToolResult id content is_error =>
      let safe_content :=
        if is_someb (json_as_str content) || contains_image_block content then content
        else json_of_str (json_text content) in
      json_obj [(chars "type", slit "tool_result"); (chars "tool_use_id", json_of_str id);
                (chars "content", safe_content); (chars "is_error", json_bool is_error)]
  | Image mt data =>
      json_obj [(chars "type", slit "image");
                (chars "source", json_obj [(chars "type", slit "base64"); (chars "media_type", json_of_str mt);
                                           (chars "data", json_of_str data)])]
  end.

Definition msg_to_json (m : Message V) : V :=
  match m with
  | User c => json_obj [(chars "role", slit "user"); (chars "content", json_array (block_to_json <$> c))]
  | Assistant c => json_obj [(chars "role", slit "assistant"); (chars "content", json_array (block_to_json <$> c))]
  end.

Definition tool_to_json (t : ToolSpec V) : V :=
  json_obj [(chars "name", json_of_str (ts_name t)); (chars "description", json_of_str (ts_description t));
            (chars "input_schema", ts_input_schema t)].

(** The mark goes on the last block of a message whose content is an array
    that ends in an object. *)
Definition mark_last (control msg : V) : option V :=
  match arg_array msg (chars "content") with
  | Some blocks =>
      match last blocks with
      | Some b =>
          if json_is_object b
          then Some (json_insert msg (chars "content")
                       (json_array (removelast blocks ++ [json_insert b (chars "cache_control") control])))
          else None
      | None => None
      end
  | None => None
  end.

(** The walk back over the stable messages, newest first. *)
Fixpoint mark_back (control : V) (msgs : list V) (placed blocks_since : Z) : list V :=
  match msgs with
  | [] => []
  | msg :: rest =>
      if MAX_BP <=? placed then msg :: rest
      else
        let n := match arg_array msg (chars "content") with Some a => zlen a | None => 0 end in
        let blocks_since := sat_add64 blocks_since n in
        if STRIDE <=? blocks_since then
          match mark_last control msg with
          | Some msg => msg :: mark_back control rest (placed + 1) 0
          | None => msg :: mark_back control rest placed blocks_since
          end
        else msg :: mark_back control rest placed blocks_since
  end.

Definition apply_conversation_cache (control : V) (messages : list V) : list V :=
  match last messages with
  | Some current =>
      if (length messages <? 2)%nat then messages
      else rev (mark_back control (rev (removelast messages)) 0 STRIDE) ++ [current]
  | None => messages
  end.

Definition by_name (a b : ToolSpec V) : bool := text_leb (ts_name a) (ts_name b).

Definition build_body (model : text) (history : list (Message V)) (tools : list (ToolSpec V)) (system : option text)
    (cache : CacheConfig) : V :=
  let messages := msg_to_json <$> history in
  let messages := if cc_enabled cache && cc_conversation cache
                  then apply_conversation_cache (cache_control cache) messages else messages in
  let body := json_obj [(chars "model", json_of_str model); (chars "max_tokens", json_num 16000);
                        (chars "messages", json_array messages); (chars "stream", json_bool true)] in
  let body := if supports_adaptive_thinking model
              then json_insert body (chars "thinking") (json_obj [(chars "type", slit "adaptive")]) else body in
  let body := match system with
              | Some sys =>
                  json_insert body (chars "system")
                    (if cc_enabled cache
                     then json_array [json_obj [(chars "type", slit "text"); (chars "text", json_of_str sys);
                                                (chars "cache_control", cache_control cache)]]
                     else json_of_str sys)
              | None => body
              end in
  match tools with
  | [] => body
  | _ => json_insert body (chars "tools") (json_array (tool_to_json <$> merge_sort by_name tools))
  end.

(** ** The reply *)

Inductive BlockKind := KText | KThinking | KToolUse.

Record BlockState := mkBlock {
  bs_kind : BlockKind; bs_text : text; bs_thinking : text; bs_signature : text;
  bs_tool_id : text; bs_tool_name : text; bs_input_json : text
}.

(** The blocks under way, this turn's token counts, the process's totals. *)
Record AnthState := mkAnth {
  an_blocks : gmap Z BlockState; an_in : Z; an_cr : Z; an_cw : Z; an_out : Z; an_stats : UsageStats
}.

Definition anth_new (stats : UsageStats) : AnthState := mkAnth ∅ 0 0 0 0 stats.

Definition with_blocks (st : AnthState) (blocks : gmap Z BlockState) : AnthState :=
  mkAnth blocks (an_in st) (an_cr st) (an_cw st) (an_out st) (an_stats st).

(** [v[k].as_str().unwrap_or("")]. *)
Definition str_or_empty (v : option V) (k : text) : text := default [] (v ≫= (fun v => arg_str v k)).

Definition start_block (cb : option V) : BlockState :=
  let kind := str_or_empty cb (chars "type") in
  if bool_decide (kind = chars "thinking") then mkBlock KThinking [] [] [] [] [] []
  else if bool_decide (kind = chars "tool_use")
  then mkBlock KToolUse [] [] [] (str_or_empty cb (chars "id")) (str_or_empty cb (chars "name")) []
  else mkBlock KText [] [] [] [] [] [].

(** A delta for a block under way: the block, and what is emitted. *)
Definition block_delta (s : BlockState) (delta : option V) : BlockState * list (Chunk V) :=
  let kind := str_or_empty delta (chars "type") in
  if bool_decide (kind = chars "text_delta") then
    let t := str_or_empty delta (chars "text") in
    (mkBlock (bs_kind s) (bs_text s ++ t) (bs_thinking s) (bs_signature s) (bs_tool_id s) (bs_tool_name s) (bs_input_json s),
     [CTextDelta t])
  else if bool_decide (kind = chars "thinking_delta") then
    let t := str_or_empty delta (chars "thinking") in
    (mkBlock (bs_kind s) (bs_text s) (bs_thinking s ++ t) (bs_signature s) (bs_tool_id s) (bs_tool_name s) (bs_input_json s),
     [CThinkingDelta t])
  else if bool_decide (kind = chars "signature_delta") then
    (mkBlock (bs_kind s) (bs_text s) (bs_thinking s) (bs_signature s ++ str_or_empty delta (chars "signature"))
       (bs_tool_id s) (bs_tool_name s) (bs_input_json s), [])
  else if bool_decide (kind = chars "input_json_delta") then
    (mkBlock (bs_kind s) (bs_text s) (bs_thinking s) (bs_signature s) (bs_tool_id s) (bs_tool_name s)
       (bs_input_json s ++ str_or_empty delta (chars "partial_json")), [])
  else (s, []).

(** The chunk a finished block becomes; [None]: its input is no JSON. *)
Definition finish_block (s : BlockState) : option (Chunk V) :=
  match bs_kind s with
  | KText => Some (CTextBlock (bs_text s))
  | KThinking => Some (CThinkingBlock (bs_thinking s) (bs_signature s))
  | KToolUse =>
      input ← (if is_nil (bs_input_json s) then Some (json_obj []) else json_parse (bs_input_json s));
      Some (CToolUse (bs_tool_id s) (bs_tool_name s) input)
  end.

Definition event_index (val : V) : Z := default 0 (arg_u64 val (chars "index")).

Definition anth_event (st : AnthState) (val : V) : AnthState * list (Chunk V) * Next :=
  let kind := default [] (arg_str val (chars "type")) in
  if bool_decide (kind = chars "message_start") then
    let u := json_get val (chars "message") ≫= (fun m => json_get m (chars "usage")) in
    let count k := default 0 (u ≫= (fun u => arg_u64 u k)) in
    (mkAnth (an_blocks st) (count (chars "input_tokens")) (count (chars "cache_read_input_tokens"))
       (count (chars "cache_creation_input_tokens")) (an_out st) (an_stats st), [], Go)
  else if bool_decide (kind = chars "message_delta") then
    let o := json_get val (chars "usage") ≫= (fun u => arg_u64 u (chars "output_tokens")) in
    (mkAnth (an_blocks st) (an_in st) (an_cr st) (an_cw st) (default (an_out st) o) (an_stats st), [], Go)
  else if bool_decide (kind = chars "content_block_start") then
    (with_blocks st (<[event_index val := start_block (json_get val (chars "content_block"))]> (an_blocks st)), [], Go)
  else if bool_decide (kind = chars "content_block_delta") then
    match an_blocks st !! event_index val with
    | Some s =>
        let '(s, out) := block_delta s (json_get val (chars "delta")) in
        (with_blocks st (<[event_index val := s]> (an_blocks st)), out, Go)
    | None => (st, [], Go)
    end
  else if bool_decide (kind = chars "content_block_stop") then
    match an_blocks st !! event_index val with
    | Some s =>
        let st := with_blocks st (delete (event_index val) (an_blocks st)) in
        match finish_block s with Some c => (st, [c], Go) | None => (st, [], Broken) end
    | None => (st, [], Go)
    end
  else if bool_decide (kind = chars "message_stop") then
    (mkAnth (an_blocks st) (an_in st) (an_cr st) (an_cw st) (an_out st)
       (record_turn_usage (an_stats st) (an_in st) (an_cr st) (an_cw st) (an_out st)), [], Stop)
  else (st, [], Go).

Definition anth_on_data (st : AnthState) (data : text) : AnthState * list (Chunk V) * Next :=
  match json_parse data with Some val => anth_event st val | None => (st, [], Go) end.

(** The chunks of a stream, and the process's totals after it. *)
Definition anthropic_stream (stats : UsageStats) (items : list (option bytes)) : list (Chunk V) * UsageStats :=
  let '(st, out, ok) := sse anth_on_data (reader_new (anth_new stats)) items in
  (if ok then out ++ [CDone] else out, an_stats st).

(** [None]: the call fails before anything streams; without a key it is never
    sent. *)
Definition anthropic_messages_stream (send : text -> V -> HttpReply) (api_key model : text) (cache : CacheConfig)
    (stats : UsageStats) (history : list (Message V)) (tools : list (ToolSpec V)) (system : option text)
    : option (list (Chunk V)) * UsageStats :=
  let body := build_body model history tools system cache in
  if is_nil api_key then (None, stats)
  else
    match send api_key body with
    | HttpBody items => let '(out, stats) := anthropic_stream stats items in (Some out, stats)
    | _ => (None, stats)
    end.
End request.

(** ** Cache marks *)

Section marks.
Context {V : Type} `{!JsonArgs V} `{!JsonNums V} `{!JsonValue V} `{!JsonDoc V} `{!JsonBuild V}.

Definition marked (b : V) : bool := is_someb (json_get b (chars "cache_control")).

Definition marks_in (blocks : list V) : Z := zlen (List.filter marked blocks).

Definition content_blocks (m : V) : list V := default [] (arg_array m (chars "content")).

Definition message_marks (m : V) : Z := marks_in (content_blocks m).

Definition total_marks (ms : list V) : Z := foldr Z.add 0 (message_marks <$> ms).

(** The marks on the items of a result's content. *)
Definition nested_marks (b : V) : Z := marks_in (default [] (arg_array b (chars "content"))).

Definition total_nested (ms : list V) : Z :=
  foldr Z.add 0 ((fun m => foldr Z.add 0 (nested_marks <$> content_blocks m)) <$> ms).

(** Every mark of a request: on the tools, on the system block, on the blocks of
    the messages and on the items inside those that are results. *)
Definition body_marks (body : V) : Z :=
  marks_in (default [] (arg_array body (chars "tools")))
  + marks_in (default [] (arg_array body (chars "system")))
  + total_marks (default [] (arg_array body (chars "messages")))
  + total_nested (default [] (arg_array body (chars "messages"))).

(** The marks a tool put on the items of its result, where the result is sent
    as it is: a list with a picture in it. *)
Definition result_marks (b : ContentBlock V) : Z :=
  match b with
  | ToolResult _ c _ =>
      if is_someb (json_as_str c) || contains_image_block c then marks_in (default [] (json_as_array c)) else 0
  | _ => 0
  end.

Definition brought_in (h : list (Message V)) : Z :=
  foldr Z.add 0 ((fun m => foldr Z.add 0 (result_marks <$> content_of m)) <$> h).

(** The same block, marked or not. *)
Definition same_block (b b' : V) : Prop := forall k, k <> chars "cache_control" -> json_get b' k = json_get b k.

(** The same message up to marks on its blocks. *)
Definition same_message (m m' : V) : Prop :=
  (forall k, k <> chars "content" -> json_get m' k = json_get m k) /\
  Forall2 same_block (content_blocks m) (content_blocks m').
End marks.

Section marksLemmas.
Context {V : Type} `{!JsonArgs V} `{!JsonArgsLaws V} `{!JsonNums V} `{!JsonValue V} `{!JsonDoc V} `{!JsonDocLaws V}
  `{!JsonBuild V} `{!JsonBuildLaws V}.
Implicit Types m : V.

Lemma marks_in_app (a b : list V) : marks_in (a ++ b) = marks_in a + marks_in b.
Proof. unfold marks_in. by rewrite List.filter_app, zlen_app. Qed.

Lemma marks_in_one (b : V) : marks_in [b] = if marked b then 1 else 0.
Proof. unfold marks_in. cbn [List.filter]. by destruct (marked b). Qed.

Lemma total_marks_cons m (ms : list V) : total_marks (m :: ms) = message_marks m + total_marks ms.
Proof. done. Qed.

Lemma total_marks_app (a b : list V) : total_marks (a ++ b) = total_marks a + total_marks b.
Proof. induction a as [|m a IH]; [done|]. cbn [app]. rewrite !total_marks_cons, IH. lia. Qed.

Lemma total_marks_nonneg (a : list V) : 0 <= total_marks a.
Proof.
  induction a as [|m a IH]; [done|]. rewrite total_marks_cons. unfold message_marks, marks_in.
  pose proof (zlen_nonneg (List.filter marked (content_blocks m))). lia.
Qed.

Lemma total_marks_rev (a : list V) : total_marks (rev a) = total_marks a.
Proof.
  induction a as [|m a IH]; [done|]. cbn [rev]. rewrite total_marks_app, IH, !total_marks_cons. cbn. lia.
Qed.

Lemma same_block_refl (b : V) : same_block b b.
Proof. by intros k Hk. Qed.

Lemma same_message_refl m : same_message m m.
Proof. split; [done|]. apply Forall_Forall2_diag, Forall_forall. intros b _. apply same_block_refl. Qed.

(** What [mark_last] does to a message. *)
Lemma mark_last_spec control m m' : mark_last control m = Some m' ->
  same_message m m' /\ exists bs b, content_blocks m = bs ++ [b] /\
    content_blocks m' = bs ++ [json_insert b (chars "cache_control") control] /\ json_is_object b = true.
Proof.
  unfold mark_last. destruct (arg_array m (chars "content")) as [blocks|] eqn:Ea; [|done].
  destruct (last blocks) as [b|] eqn:El; [|done]. destruct (json_is_object b) eqn:Eb; [|done]. intros [= <-].
  apply last_Some in El as (bs & ->). rewrite removelast_last.
  assert (json_is_object m = true) as Hm.
  { destruct (json_is_object m) eqn:E; [done|]. unfold arg_array in Ea. by rewrite json_get_object in Ea. }
  set (m' := json_insert _ _ _).
  assert (content_blocks m' = bs ++ [json_insert b (chars "cache_control") control]) as E'.
  { unfold content_blocks, arg_array, m'. rewrite json_get_insert by done. cbn [mbind option_bind].
    by rewrite json_array_back. }
  assert (content_blocks m = bs ++ [b]) as E by (unfold content_blocks; by rewrite Ea).
  split; [split|by exists bs, b].
  - intros k Hk. by apply json_get_insert_ne.
  - rewrite E, E'. apply Forall2_app.
    + apply Forall_Forall2_diag, Forall_forall. intros x _. apply same_block_refl.
    + constructor; [|done]. intros k Hk. by apply json_get_insert_ne.
Qed.

Lemma mark_last_marks control m m' : mark_last control m = Some m' -> message_marks m' <= message_marks m + 1.
Proof.
  intros (_ & bs & b & E & E' & _)%mark_last_spec. unfold message_marks. rewrite E, E', !marks_in_app.
  rewrite !marks_in_one. destruct (marked _), (marked b); lia.
Qed.

Lemma mark_back_same control msgs : forall placed since, Forall2 same_message msgs (mark_back control msgs placed since).
Proof.
  assert (forall ms : list V, Forall2 same_message ms ms) as Hrefl.
  { intros ms. apply Forall_Forall2_diag, Forall_forall. intros m _. apply same_message_refl. }
  induction msgs as [|m rest IH]; intros placed since; [done|]. cbn [mark_back]. cbv zeta.
  destruct (MAX_BP <=? placed); [apply Hrefl|].
  destruct (STRIDE <=? _); [destruct (mark_last control m) as [m'|] eqn:E|];
    constructor; try apply IH; try apply same_message_refl. by apply mark_last_spec in E as [? _].
Qed.

Lemma mark_back_marks control msgs : forall placed since, placed <= MAX_BP ->
  total_marks (mark_back control msgs placed since) <= total_marks msgs + (MAX_BP - placed).
Proof.
  induction msgs as [|m rest IH]; intros placed since Hp; cbn [mark_back]; cbv zeta; [cbn; lia|].
  destruct (Z.leb_spec MAX_BP placed) as [?|Hlt]; [lia|].
  rewrite (total_marks_cons m). destruct (STRIDE <=? _); [destruct (mark_last control m) as [m'|] eqn:E|].
  - rewrite total_marks_cons. apply mark_last_marks in E. specialize (IH (placed + 1) 0 ltac:(lia)). lia.
  - rewrite total_marks_cons. specialize (IH placed (sat_add64 since match arg_array m (chars "content") with Some a => zlen a | None => 0 end) Hp). lia.
  - rewrite total_marks_cons. specialize (IH placed (sat_add64 since match arg_array m (chars "content") with Some a => zlen a | None => 0 end) Hp). lia.
Qed.

(** *** Fresh messages carry no mark *)

Lemma block_unmarked (b : ContentBlock V) : marked (block_to_json b) = false /\ json_is_object (block_to_json b) = true.
Proof.
  split; [|by destruct b; apply json_obj_object].
  unfold marked. destruct b; unfold block_to_json; cbv zeta; by json_fields.
Qed.

Lemma msg_content (m : Message V) : content_blocks (msg_to_json m) = block_to_json <$> content_of m.
Proof.
  unfold content_blocks, arg_array, msg_to_json, slit.
  destruct m as [c|c]; json_fields; cbn [mbind option_bind]; by rewrite json_array_back.
Qed.

Lemma msg_unmarked (m : Message V) : message_marks (msg_to_json m) = 0.
Proof.
  unfold message_marks. rewrite msg_content. unfold marks_in. induction (content_of m) as [|b c IH]; [done|].
  cbn [fmap list_fmap List.filter]. by rewrite (proj1 (block_unmarked b)).
Qed.

Lemma fresh_marks (h : list (Message V)) : total_marks (msg_to_json <$> h) = 0.
Proof. induction h as [|m h IH]; [done|]. cbn [fmap list_fmap]. by rewrite total_marks_cons, msg_unmarked, IH. Qed.

(** *** The walk over a conversation *)

Lemma apply_cache_shape control (ms : list V) :
  apply_conversation_cache control ms = ms \/
  exists m current ms', ms = rev (m :: ms') ++ [current] /\
    apply_conversation_cache control ms = rev (mark_back control (m :: ms') 0 STRIDE) ++ [current].
Proof.
  unfold apply_conversation_cache. destruct (last ms) as [current|] eqn:El; [|by left].
  apply last_Some in El as (stable & ->). rewrite removelast_last.
  destruct (Nat.ltb_spec (length (stable ++ [current])) 2) as [?|Hlen]; [by left|right].
  destruct (rev stable) as [|m ms'] eqn:Er.
  - apply (f_equal length) in Er. rewrite length_rev in Er. rewrite length_app in Hlen. cbn in *. lia.
  - exists m, current, ms'. by rewrite <- Er, rev_involutive.
Qed.

Lemma Forall2_rev_same (a b : list V) : Forall2 same_message a b -> Forall2 same_message (rev a) (rev b).
Proof. induction 1; cbn [rev]; [done|]. apply Forall2_app; [done|]. constructor; [done|constructor]. Qed.

Lemma apply_cache_spec control (ms : list V) :
  Forall2 same_message ms (apply_conversation_cache control ms) /\
  total_marks (apply_conversation_cache control ms) <= total_marks ms + MAX_BP /\
  last (apply_conversation_cache control ms) = last ms.
Proof.
  destruct (apply_cache_shape control ms) as [->|(m & current & ms' & -> & ->)].
  { split_and!; [|unfold MAX_BP; lia|done].
    apply Forall_Forall2_diag, Forall_forall. intros m _. apply same_message_refl. }
  split_and!.
  - apply Forall2_app; [|constructor; [apply same_message_refl|constructor]]. apply Forall2_rev_same, mark_back_same.
  - rewrite !total_marks_app, !total_marks_rev.
    pose proof (mark_back_marks control (m :: ms') 0 STRIDE ltac:(unfold MAX_BP; lia)). lia.
  - by rewrite !last_snoc.
Qed.

(** The newest stable message is marked whenever it has a block. *)
Lemma newest_marked control (h : list (Message V)) (m : Message V) (current : Message V) :
  content_of m <> [] ->
  exists m', apply_conversation_cache control (msg_to_json <$> (h ++ [m; current])) !! length h = Some m' /\
    0 < message_marks m'.
Proof.
  intros Hm. set (ms := msg_to_json <$> _).
  assert (ms = rev (msg_to_json m :: rev (msg_to_json <$> h)) ++ [msg_to_json current]) as E.
  { unfold ms. cbn [rev]. rewrite rev_involutive, fmap_app, <- app_assoc. done. }
  unfold apply_conversation_cache. rewrite E, last_snoc, removelast_last, rev_involutive.
  rewrite (proj2 (Nat.ltb_ge _ _)) by (rewrite length_app, length_rev; cbn; lia).
  cbn [mark_back]. cbv zeta. change (MAX_BP <=? 0) with false. cbv iota.
  assert (forall n, 0 <= n -> (STRIDE <=? sat_add64 STRIDE n) = true) as Hs.
  { intros n Hn. unfold STRIDE in *. unfold_int. lia. }
  rewrite Hs by (destruct (arg_array _ _); [apply zlen_nonneg|lia]).
  assert (exists m', mark_last control (msg_to_json m) = Some m') as [m' Em'].
  { pose proof (msg_content m) as Ec. unfold mark_last. unfold content_blocks in Ec.
    destruct (content_of m) as [|b0 c0 _] eqn:Ecm using rev_ind; [done|]. rewrite fmap_app in Ec.
    destruct (arg_array (msg_to_json m) (chars "content")) as [bs|]; cbn [default from_option id fmap list_fmap] in Ec;
      [|by destruct (block_to_json <$> c0)].
    unfold id in Ec. subst bs. rewrite last_snoc, (proj2 (block_unmarked b0)). by eexists. }
  rewrite Em'. exists m'. split.
  - cbn [rev]. rewrite <- app_assoc. rewrite lookup_app_r; rewrite length_rev.
    + assert (length (mark_back control (rev (msg_to_json <$> h)) (0 + 1) 0) = length h) as ->.
      { pose proof (Forall2_length _ _ _ (mark_back_same control (rev (msg_to_json <$> h)) (0 + 1) 0)) as El.
        by rewrite <- El, length_rev, length_fmap. }
      by rewrite Nat.sub_diag.
    + pose proof (Forall2_length _ _ _ (mark_back_same control (rev (msg_to_json <$> h)) (0 + 1) 0)) as El.
      rewrite length_rev, length_fmap in El. lia.
  - apply mark_last_spec in Em' as (_ & bs & b & _ & E' & Hb). unfold message_marks.
    rewrite E', marks_in_app, marks_in_one. unfold marked. rewrite json_get_insert by done. cbn.
    assert (0 <= marks_in bs) by apply zlen_nonneg. lia.
Qed.

(** *** The request *)

(** The messages of a request, marked or not. *)
Definition request_messages (history : list (Message V)) (cache : CacheConfig) : list V :=
  if cc_enabled cache && cc_conversation cache
  then apply_conversation_cache (cache_control cache) (msg_to_json <$> history)
  else msg_to_json <$> history.

Lemma build_body_messages model h tools system cache :
  arg_array (build_body model h tools system cache) (chars "messages") = Some (request_messages h cache).
Proof.
  unfold arg_array, build_body. cbv zeta. fold (request_messages h cache).
  destruct (supports_adaptive_thinking model), system, tools; json_fields; cbn [mbind option_bind];
    by rewrite json_array_back.
Qed.

Lemma build_body_system model h tools system cache :
  json_get (build_body model h tools system cache) (chars "system") =
  match system with
  | Some sys =>
      Some (if cc_enabled cache
            then json_array [json_obj [(chars "type", slit "text"); (chars "text", json_of_str sys);
                                       (chars "cache_control", cache_control cache)]]
            else json_of_str sys)
  | None => None
  end.
Proof.
  unfold build_body. cbv zeta. fold (request_messages h cache).
  by destruct (supports_adaptive_thinking model), system, tools; json_fields.
Qed.

Lemma build_body_tools model h tools system cache :
  arg_array (build_body model h tools system cache) (chars "tools") =
  match tools with [] => None | _ => Some (tool_to_json <$> merge_sort by_name tools) end.
Proof.
  unfold arg_array, build_body. cbv zeta. fold (request_messages h cache).
  destruct (supports_adaptive_thinking model), system, tools; json_fields; cbn [mbind option_bind]; try done;
    by rewrite json_array_back.
Qed.

Lemma tools_unmarked (tools : list (ToolSpec V)) : marks_in (tool_to_json <$> tools) = 0.
Proof.
  unfold marks_in. induction tools as [|t tools IH]; [done|]. cbn [fmap list_fmap List.filter].
  assert (marked (tool_to_json t) = false) as -> by (unfold marked, tool_to_json; by json_fields). exact IH.
Qed.

Lemma system_marks model h tools system cache :
  marks_in (default [] (arg_array (build_body (V := V) model h tools system cache) (chars "system"))) =
  if cc_enabled cache && is_someb system then 1 else 0.
Proof.
  unfold arg_array. rewrite build_body_system. destruct system as [sys|]; [|by destruct (cc_enabled cache)].
  destruct (cc_enabled cache); cbn [mbind option_bind andb is_someb]; [|by rewrite json_str_no_array].
  rewrite json_array_back. cbn [default from_option id]. rewrite marks_in_one. unfold marked, slit. by json_fields.
Qed.

(** Marking leaves the items of results alone. *)
Lemma same_nested (ms ms' : list V) : Forall2 same_message ms ms' -> total_nested ms' = total_nested ms.
Proof.
  unfold total_nested. induction 1 as [|m m' ms ms' [_ Hb] _ IH]; [done|]. cbn [fmap list_fmap foldr].
  rewrite IH. f_equal. clear IH. induction Hb as [|b b' bs bs' Hb _ IH]; [done|]. cbn [fmap list_fmap foldr].
  rewrite IH. f_equal. unfold nested_marks, arg_array. rewrite Hb; [done|literal_keys].
Qed.

Lemma block_nested (b : ContentBlock V) : nested_marks (block_to_json b) = result_marks b.
Proof.
  unfold nested_marks, arg_array, block_to_json, result_marks. destruct b as [| | |id c e|]; cbv zeta; json_fields; try done.
  cbn [mbind option_bind]. destruct (is_someb (json_as_str c) || contains_image_block c); [done|].
  by rewrite json_str_no_array.
Qed.

Lemma fresh_nested (h : list (Message V)) : total_nested (msg_to_json <$> h) = brought_in h.
Proof.
  unfold total_nested, brought_in. induction h as [|m h IH]; [done|]. cbn [fmap list_fmap foldr].
  f_equal; [|exact IH]. rewrite msg_content. induction (content_of m) as [|b c IHc]; [done|].
  cbn [fmap list_fmap foldr]. by rewrite block_nested, <- IHc.
Qed.

(** C29: A request carries at most four cache marks of the program's own, as many
    as the API takes, and none with caching switched off: the marks anywhere in
    it, on the tools, the system block, the messages' blocks and the items
    inside results, are those placed, at most four, and those that tools had
    put on the items of results holding a picture, which are sent as they came.
    Marking changes no message but by the marks on its blocks, leaves the last
    one, which carries the clock, as it is, and where conversations are cached
    reaches the message before it unless that has no content. *)
Theorem cache_marks_bounded model (h : list (Message V)) (tools : list (ToolSpec V)) (system : option text) (cache : CacheConfig) :
  let body := build_body model h tools system cache in
  exists ms placed, arg_array body (chars "messages") = Some ms /\
    Forall2 same_message (msg_to_json <$> h) ms /\ last ms = last (msg_to_json <$> h) /\
    body_marks body = placed + brought_in h /\ 0 <= placed <= 4 /\ (cc_enabled cache = false -> placed = 0) /\
    (cc_enabled cache && cc_conversation cache = true ->
     forall h0 (newest current : Message V), h = h0 ++ [newest; current] -> content_of newest <> [] ->
     exists m', ms !! length h0 = Some m' /\ 0 < message_marks m').
Proof.
  intros body. exists (request_messages h cache). unfold body, body_marks.
  rewrite build_body_messages, build_body_tools, system_marks. cbn [default from_option id].
  exists ((if cc_enabled cache && is_someb system then 1 else 0) + total_marks (request_messages h cache)).
  assert (Forall2 same_message (msg_to_json <$> h) (request_messages h cache) /\
    total_marks (request_messages h cache) <= (if cc_enabled cache && cc_conversation cache then MAX_BP else 0) /\
    last (request_messages h cache) = last (msg_to_json <$> h)) as (Hs & Hm & Hl).
  { pose proof (fresh_marks h) as Hf. unfold request_messages. destruct (cc_enabled cache && cc_conversation cache).
    - pose proof (apply_cache_spec (cache_control cache) (msg_to_json <$> h)) as (? & ? & ?). split_and!; [done|lia|done].
    - split_and!; [|lia|done]. apply Forall_Forall2_diag, Forall_forall. intros m _. apply same_message_refl. }
  assert (marks_in (default [] match tools with [] => None | _ => Some (tool_to_json <$> merge_sort by_name tools) end) = 0) as ->
    by (destruct tools; [done|apply tools_unmarked]).
  rewrite (same_nested _ _ Hs), fresh_nested. assert (0 <= total_marks (request_messages h cache)) as Hpos by apply total_marks_nonneg.
  unfold MAX_BP in Hm. split_and!; try done; try lia.
  - destruct (_ && is_someb system); lia.
  - destruct (_ && cc_conversation cache), (_ && is_someb system); lia.
  - intros E. rewrite E in *. cbn [andb] in *. lia.
  - intros Ec h0 newest current -> Hne. unfold request_messages. rewrite Ec. by apply newest_marked.
Qed.

(** *** Tools *)

#[local] Instance by_name_trans : Transitive (fun a b : ToolSpec V => Is_true (by_name a b)).
Proof. intros a b c Hab Hbc. eapply (text_leb_trans (ts_name a) (ts_name b) (ts_name c)); done. Qed.
#[local] Instance by_name_total : Total (fun a b : ToolSpec V => Is_true (by_name a b)).
Proof. intros a b. apply (text_leb_total (ts_name a) (ts_name b)). Qed.

Lemma sorted_tools_unique (ts ts' : list (ToolSpec V)) : NoDup (ts_name <$> ts) -> ts ≡ₚ ts' ->
  merge_sort by_name ts = merge_sort by_name ts'.
Proof.
  intros Hnd Hp.
  assert (forall l : list (ToolSpec V), NoDup (ts_name <$> l) -> Sorted (fun a b => Is_true (by_name a b)) l ->
            forall l', l ≡ₚ l' -> Sorted (fun a b => Is_true (by_name a b)) l' -> l = l') as Huniq.
  { intros l Hl Hs l' Hll Hs'. revert l' Hll Hs'.
    apply (Sorted_StronglySorted _) in Hs. induction Hs as [|t l Hs IH Ht]; intros l' Hll Hs'.
    - by apply Permutation_nil in Hll.
    - destruct l' as [|t' l']; [by apply Permutation_sym, Permutation_nil in Hll|].
      cbn [fmap list_fmap] in Hl. apply NoDup_cons in Hl as [Hnin Hl].
      assert (t = t') as <-.
      { apply (Sorted_StronglySorted _) in Hs'. inversion Hs' as [|?? _ Ht']; subst.
        assert (t ∈ t' :: l') as [->|Hin]%elem_of_cons by (rewrite <- Hll; left); [done|].
        assert (t' ∈ t :: l) as [->|Hin']%elem_of_cons by (rewrite Hll; left); [done|].
        rewrite Forall_forall in Ht, Ht'. exfalso. apply Hnin. apply list_elem_of_fmap. exists t'. split; [|done].
        apply (text_leb_antisymm); [by apply Ht|by apply Ht']. }
      f_equal. apply IH; [done|by apply Permutation_cons_inv in Hll|]. by apply Sorted_inv in Hs' as [? _]. }
  apply Huniq.
  - by rewrite (merge_sort_Permutation by_name ts).
  - apply (Sorted_merge_sort _).
  - by rewrite !merge_sort_Permutation.
  - apply (Sorted_merge_sort _).
Qed.

(** A request does not depend on the order in which tools were gathered. *)
Lemma tools_order_irrelevant model h (ts ts' : list (ToolSpec V)) system cache :
  NoDup (ts_name <$> ts) -> ts ≡ₚ ts' -> build_body model h ts system cache = build_body model h ts' system cache.
Proof.
  intros Hnd Hp. unfold build_body. cbv zeta. rewrite (sorted_tools_unique ts ts' Hnd Hp).
  destruct ts as [|t ts], ts' as [|t' ts']; try done.
  - by apply Permutation_nil in Hp.
  - by apply Permutation_sym, Permutation_nil in Hp.
Qed.

(** The content of a result is a text or a list with a picture in it. *)
Lemma result_content_shape id content e :
  exists c, json_get (block_to_json (V := V) (ToolResult id content e)) (chars "content") = Some c /\
    (is_someb (json_as_str c) = true \/ contains_image_block c = true).
Proof.
  unfold block_to_json, slit. cbv zeta. eexists. split; [by json_fields|].
  destruct (is_someb (json_as_str content)) eqn:Es; [by left|]. cbn [orb].
  destruct (contains_image_block content) eqn:Ei; [by right|]. left. by rewrite json_str_back.
Qed.
End marksLemmas.

(** ** A reply is delivered block by block *)

(** The API's side: the blocks of a reply, each in the pieces it is streamed in. *)
Inductive Streamed :=
| SText (pieces : list text)
| SThinking (pieces signature : list text)
| SCall (id name : text) (pieces : list text).

Section streamed.
Context {V : Type} `{!JsonArgs V} `{!JsonNums V} `{!JsonValue V} `{!JsonDoc V} `{!JsonBuild V}.

(** An event is told by the fields the documentation gives it, whatever other
    fields it has. *)
Definition of_type (kind : string) (v : V) : Prop := arg_str v (chars "type") = Some (chars kind).

Definition at_index (i : Z) (v : V) : Prop := arg_u64 v (chars "index") = Some i.

(** The head of a block, still empty. *)
Definition is_head (s : Streamed) (cb : V) : Prop :=
  match s with
  | SText _ => of_type "text" cb /\ arg_str cb (chars "text") = Some []
  | SThinking _ _ => of_type "thinking" cb /\ arg_str cb (chars "thinking") = Some []
  | SCall id name _ => of_type "tool_use" cb /\ arg_str cb (chars "id") = Some id /\ arg_str cb (chars "name") = Some name
  end.

Definition is_start (i : Z) (s : Streamed) (v : V) : Prop :=
  of_type "content_block_start" v /\ at_index i v /\ exists cb, json_get v (chars "content_block") = Some cb /\ is_head s cb.

(** One piece of a block: the delta's type, the field it comes in. *)
Definition is_piece (i : Z) (kind field : string) (t : text) (v : V) : Prop :=
  of_type "content_block_delta" v /\ at_index i v /\
  exists d, json_get v (chars "delta") = Some d /\ of_type kind d /\ arg_str d (chars field) = Some t.

Definition is_stop (i : Z) (v : V) : Prop := of_type "content_block_stop" v /\ at_index i v.

(** The tokens of the prompt; a count that is absent or null is 0. *)
Definition is_message_start (input cache_read cache_creation : Z) (v : V) : Prop :=
  of_type "message_start" v /\
  exists m u, json_get v (chars "message") = Some m /\ json_get m (chars "usage") = Some u /\
    default 0 (arg_u64 u (chars "input_tokens")) = input /\
    default 0 (arg_u64 u (chars "cache_read_input_tokens")) = cache_read /\
    default 0 (arg_u64 u (chars "cache_creation_input_tokens")) = cache_creation.

(** The tokens written so far. *)
Definition is_message_delta (output : Z) (v : V) : Prop :=
  of_type "message_delta" v /\ exists u, json_get v (chars "usage") = Some u /\ arg_u64 u (chars "output_tokens") = Some output.

Definition known_types : list text :=
  chars <$> ["message_start"%string; "message_delta"%string; "message_stop"%string; "content_block_start"%string;
             "content_block_delta"%string; "content_block_stop"%string].

(** A [ping], or a type this client does not know yet. *)
Definition is_aside (v : V) : Prop :=
  exists k, arg_str v (chars "type") = Some k /\ (k ∉ known_types) /\ k <> chars "error".

Definition block_deltas (i : Z) (s : Streamed) : list (V -> Prop) :=
  match s with
  | SText ps => is_piece i "text_delta" "text" <$> ps
  | SThinking ps sg => (is_piece i "thinking_delta" "thinking" <$> ps) ++ (is_piece i "signature_delta" "signature" <$> sg)
  | SCall _ _ ps => is_piece i "input_json_delta" "partial_json" <$> ps
  end.

Fixpoint blocks_shape (i : Z) (bs : list Streamed) : list (V -> Prop) :=
  match bs with [] => [] | s :: bs => is_start i s :: (block_deltas i s ++ (is_stop i :: blocks_shape (i + 1) bs)) end.

Definition reply_shape (input cache_read cache_creation : Z) (bs : list Streamed) (outputs : list Z) : list (V -> Prop) :=
  is_message_start input cache_read cache_creation
  :: (blocks_shape 0 bs ++ (is_message_delta <$> outputs) ++ [of_type "message_stop"]).

(** Events of the given shapes in their order, with others anywhere among them. *)
Inductive streams : list (V -> Prop) -> list V -> Prop :=
| streams_end : streams [] []
| streams_aside ps v vs : is_aside v -> streams ps vs -> streams ps (v :: vs)
| streams_event (p : V -> Prop) ps v vs : p v -> streams ps vs -> streams (p :: ps) (v :: vs).

(** What the turn is to be given for a block. *)
Definition call_input (pieces : list text) : option V :=
  if is_nil (concat pieces) then Some (json_obj []) else json_parse (concat pieces).

Definition block_chunks (s : Streamed) : list (Chunk V) :=
  match s with
  | SText ps => (CTextDelta <$> ps) ++ [CTextBlock (concat ps)]
  | SThinking ps sg => (CThinkingDelta <$> ps) ++ [CThinkingBlock (concat ps) (concat sg)]
  | SCall id name ps => match call_input ps with Some input => [CToolUse id name input] | None => [] end
  end.

Definition call_reads (s : Streamed) : Prop :=
  match s with SCall _ _ ps => is_Some (call_input ps) | _ => True end.

(** What a piece of each kind adds to a block. *)
Definition add_text (b : BlockState) (t : text) : BlockState :=
  mkBlock (bs_kind b) (bs_text b ++ t) (bs_thinking b) (bs_signature b) (bs_tool_id b) (bs_tool_name b) (bs_input_json b).
Definition add_thinking (b : BlockState) (t : text) : BlockState :=
  mkBlock (bs_kind b) (bs_text b) (bs_thinking b ++ t) (bs_signature b) (bs_tool_id b) (bs_tool_name b) (bs_input_json b).
Definition add_signature (b : BlockState) (t : text) : BlockState :=
  mkBlock (bs_kind b) (bs_text b) (bs_thinking b) (bs_signature b ++ t) (bs_tool_id b) (bs_tool_name b) (bs_input_json b).
Definition add_json (b : BlockState) (t : text) : BlockState :=
  mkBlock (bs_kind b) (bs_text b) (bs_thinking b) (bs_signature b) (bs_tool_id b) (bs_tool_name b) (bs_input_json b ++ t).

(** The handler over events instead of lines. *)
Fixpoint on_events (st : AnthState) (vals : list V) : AnthState * list (Chunk V) * Next :=
  match vals with
  | [] => (st, [], Go)
  | v :: vals =>
      match anth_event st v with
      | (st, out, Go) => let '(st, out', n) := on_events st vals in (st, out ++ out', n)
      | r => r
      end
  end.

(** Handling some events leaves this state, these chunks, those events. *)
Definition leads (st : AnthState) (vs : list V) (st' : AnthState) (out : list (Chunk V)) (vs' : list V) : Prop :=
  on_events st vs = let '(s, o, n) := on_events st' vs' in (s, out ++ o, n).
End streamed.

(** Tests of literal strings, outermost first. *)
Ltac literal_tests :=
  repeat first [ rewrite bool_decide_eq_true_2 by reflexivity
               | rewrite bool_decide_eq_false_2 by literal_keys ].

Section streamedLemmas.
Context {V : Type} `{!JsonArgs V} `{!JsonNums V} `{!JsonValue V} `{!JsonDoc V} `{!JsonBuild V}.
Implicit Types (st : AnthState) (m : gmap Z BlockState) (v : V) (ps : list (V -> Prop)).

Lemma on_lines_events ls : forall st : AnthState,
  on_lines (V := V) anth_on_data st ls = on_events st (omap (M := list) line_event ls).
Proof.
  induction ls as [|l ls IH]; intros st; [done|]. cbn [on_lines omap list_omap]. unfold on_line, line_event at 1, anth_on_data.
  destruct (line_data l) as [d|]; cbn [mbind option_bind].
  - destruct (json_parse d) as [v|]; [cbn [on_events]|].
    + destruct (anth_event st v) as [[st' out] [| |]]; [by rewrite IH|done..].
    + fold (anth_on_data (V := V)). rewrite IH. by destruct (on_events _ _) as [[??]?].
  - fold (anth_on_data (V := V)). rewrite IH. by destruct (on_events _ _) as [[??]?].
Qed.

Lemma leads_refl st vs : leads st vs st [] vs.
Proof. unfold leads. by destruct (on_events st vs) as [[??]?]. Qed.

Lemma leads_trans st1 vs1 st2 o1 vs2 st3 o2 vs3 :
  leads st1 vs1 st2 o1 vs2 -> leads st2 vs2 st3 o2 vs3 -> leads st1 vs1 st3 (o1 ++ o2) vs3.
Proof.
  unfold leads. intros -> ->. destruct (on_events st3 vs3) as [[s o] n]. by rewrite app_assoc.
Qed.

(** *** One event at a time *)

Lemma aside_step st v : is_aside v -> anth_event st v = (st, [], Go).
Proof.
  intros (k & Ek & Hk & _). unfold anth_event. cbv zeta. rewrite Ek. cbn [default from_option id].
  assert (forall x, x ∈ known_types -> k <> x) as Hne by (by intros x Hx ->).
  rewrite !bool_decide_eq_false_2 by (apply Hne; literal_keys). done.
Qed.

(** The next event of a stream, past what stands before it. *)
Lemma streams_step (p : V -> Prop) ps vs : streams (p :: ps) vs ->
  exists v vs', p v /\ streams ps vs' /\
    forall st, on_events st vs = on_events st (v :: vs').
Proof.
  intros Hs. remember (p :: ps) as qs eqn:E. induction Hs as [|qs v vs Ha Hs IH|q qs v vs Hp Hs _]; [done| |].
  - destruct (IH E) as (v' & vs' & Hp & Hs' & Hon). exists v', vs'. split_and!; [done..|]. intros st.
    rewrite <- Hon. cbn [on_events]. rewrite aside_step by done. by destruct (on_events st vs) as [[??]?].
  - injection E as -> ->. by exists v, vs.
Qed.

Lemma step_leads (p : V -> Prop) ps vs st st' out : streams (p :: ps) vs ->
  (forall v, p v -> anth_event st v = (st', out, Go)) ->
  exists vs', streams ps vs' /\ leads st vs st' out vs'.
Proof.
  intros (v & vs' & Hp & Hs & Hon)%streams_step Hv. exists vs'. split; [done|]. unfold leads. rewrite Hon.
  cbn [on_events]. by rewrite Hv.
Qed.

Ltac event_type E := unfold of_type in E; unfold anth_event; cbv zeta; rewrite E; cbn [default from_option id]; literal_tests.

Lemma index_of i v : at_index i v -> event_index v = i.
Proof. unfold at_index, event_index. by intros ->. Qed.

(** The block its head makes. *)
Definition headed (s : Streamed) : BlockState :=
  match s with
  | SText _ => mkBlock KText [] [] [] [] [] []
  | SThinking _ _ => mkBlock KThinking [] [] [] [] [] []
  | SCall id name _ => mkBlock KToolUse [] [] [] id name []
  end.

Lemma start_step st i s v : is_start i s v ->
  anth_event st v = (with_blocks st (<[i := headed s]> (an_blocks st)), [], Go).
Proof.
  intros (Et & Hi%index_of & cb & Ecb & Hh). event_type Et. rewrite Hi, Ecb. do 4 f_equal.
  unfold start_block, str_or_empty. cbn [mbind option_bind].
  destruct s as [?|? ?|tool name ?]; cbn [is_head] in Hh; destruct Hh as [Ek Hh]; unfold of_type in Ek; rewrite Ek; cbn [default from_option id];
    literal_tests; [done..|]. by destruct Hh as [-> ->].
Qed.

Lemma piece_step st i kind field t v b add emit :
  (forall d, of_type kind d -> arg_str d (chars field) = Some t -> block_delta b (Some d) = (add b t, emit t)) ->
  an_blocks st !! i = Some b -> is_piece i kind field t v ->
  anth_event st v = (with_blocks st (<[i := add b t]> (an_blocks st)), emit t, Go).
Proof.
  intros Hd Hb (Et & Hi%index_of & d & Ed & Hk & Hf). event_type Et. by rewrite Hi, Hb, Ed, (Hd d Hk Hf).
Qed.

Lemma stop_step st i b v c : an_blocks st !! i = Some b -> finish_block (V := V) b = Some c -> is_stop i v ->
  anth_event st v = (with_blocks st (delete i (an_blocks st)), [c], Go).
Proof. intros Hb Hc (Et & Hi%index_of). event_type Et. by rewrite Hi, Hb, Hc. Qed.

Lemma message_start_step st input cr cw v : is_message_start input cr cw v ->
  anth_event st v = (mkAnth (an_blocks st) input cr cw (an_out st) (an_stats st), [], Go).
Proof.
  intros (Et & m & u & Em & Eu & E1 & E2 & E3). event_type Et. rewrite Em. cbn [mbind option_bind]. rewrite Eu.
  cbn [mbind option_bind]. by rewrite E1, E2, E3.
Qed.

Lemma message_delta_step st output v : is_message_delta output v ->
  anth_event st v = (mkAnth (an_blocks st) (an_in st) (an_cr st) (an_cw st) output (an_stats st), [], Go).
Proof. intros (Et & u & Eu & Eo). event_type Et. rewrite Eu. cbn [mbind option_bind]. by rewrite Eo. Qed.

Lemma message_stop_step st v : of_type "message_stop" v ->
  anth_event st v = (mkAnth (an_blocks st) (an_in st) (an_cr st) (an_cw st) (an_out st)
     (record_turn_usage (an_stats st) (an_in st) (an_cr st) (an_cw st) (an_out st)), [], Stop).
Proof. intros Et. by event_type Et. Qed.

(** *** Pieces *)

Ltac piece_kind :=
  intros b t d Ek Ef; unfold of_type in Ek; unfold block_delta, str_or_empty; cbn [mbind option_bind];
  rewrite Ek; cbn [default from_option id]; cbv zeta; literal_tests; by rewrite Ef.

Lemma block_delta_text b t (d : V) : of_type "text_delta" d -> arg_str d (chars "text") = Some t ->
  block_delta b (Some d) = (add_text b t, [CTextDelta t]).
Proof. revert b t d. piece_kind. Qed.

Lemma block_delta_thinking b t (d : V) : of_type "thinking_delta" d -> arg_str d (chars "thinking") = Some t ->
  block_delta b (Some d) = (add_thinking b t, [CThinkingDelta t]).
Proof. revert b t d. piece_kind. Qed.

Lemma block_delta_signature b t (d : V) : of_type "signature_delta" d -> arg_str d (chars "signature") = Some t ->
  block_delta b (Some d) = (add_signature b t, []).
Proof. revert b t d. piece_kind. Qed.

Lemma block_delta_json b t (d : V) : of_type "input_json_delta" d -> arg_str d (chars "partial_json") = Some t ->
  block_delta b (Some d) = (add_json b t, []).
Proof. revert b t d. piece_kind. Qed.

Lemma with_blocks_id st : with_blocks st (an_blocks st) = st.
Proof. by destruct st. Qed.

Lemma with_blocks_twice st m m' : with_blocks (with_blocks st m) m' = with_blocks st m'.
Proof. done. Qed.

(** Pieces of one kind, one after the other. *)
Lemma pieces_run kind field (add : BlockState -> text -> BlockState) (emit : text -> list (Chunk V)) i qs ts :
  (forall b t d, of_type kind d -> arg_str d (chars field) = Some t -> block_delta b (Some d) = (add b t, emit t)) ->
  forall st b vs, an_blocks st !! i = Some b -> streams ((is_piece i kind field <$> ts) ++ qs) vs ->
  exists vs', streams qs vs' /\
    leads st vs (with_blocks st (<[i := foldl add b ts]> (an_blocks st))) (concat (emit <$> ts)) vs'.
Proof.
  intros Hf. induction ts as [|t ts IH]; intros st b vs Hb Hs; cbn [fmap list_fmap foldl concat app] in *.
  - exists vs. split; [done|]. rewrite insert_id, with_blocks_id by done. apply leads_refl.
  - destruct (step_leads _ _ _ st _ _ Hs (fun v => piece_step st i _ _ t v b add emit (Hf b t) Hb)) as (vs1 & Hs1 & Hl1).
    destruct (IH (with_blocks st (<[i:=add b t]> (an_blocks st))) (add b t) vs1 (lookup_insert_eq _ _ _) Hs1) as (vs' & Hs' & Hl').
    exists vs'. split; [done|]. cbn [an_blocks with_blocks] in Hl'. rewrite with_blocks_twice, insert_insert_eq in Hl'.
    by eapply leads_trans.
Qed.

Lemma fold_text ts : forall b, foldl add_text b ts =
  mkBlock (bs_kind b) (bs_text b ++ concat ts) (bs_thinking b) (bs_signature b) (bs_tool_id b) (bs_tool_name b) (bs_input_json b).
Proof. induction ts as [|t ts IH]; intros []; cbn; rewrite ?app_nil_r, ?IH; cbn; by rewrite <- ?app_assoc. Qed.
Lemma fold_thinking ts : forall b, foldl add_thinking b ts =
  mkBlock (bs_kind b) (bs_text b) (bs_thinking b ++ concat ts) (bs_signature b) (bs_tool_id b) (bs_tool_name b) (bs_input_json b).
Proof. induction ts as [|t ts IH]; intros []; cbn; rewrite ?app_nil_r, ?IH; cbn; by rewrite <- ?app_assoc. Qed.
Lemma fold_signature ts : forall b, foldl add_signature b ts =
  mkBlock (bs_kind b) (bs_text b) (bs_thinking b) (bs_signature b ++ concat ts) (bs_tool_id b) (bs_tool_name b) (bs_input_json b).
Proof. induction ts as [|t ts IH]; intros []; cbn; rewrite ?app_nil_r, ?IH; cbn; by rewrite <- ?app_assoc. Qed.
Lemma fold_json ts : forall b, foldl add_json b ts =
  mkBlock (bs_kind b) (bs_text b) (bs_thinking b) (bs_signature b) (bs_tool_id b) (bs_tool_name b) (bs_input_json b ++ concat ts).
Proof. induction ts as [|t ts IH]; intros []; cbn; rewrite ?app_nil_r, ?IH; cbn; by rewrite <- ?app_assoc. Qed.

Lemma concat_singletons {A B} (f : A -> B) (l : list A) : concat ((fun x => [f x]) <$> l) = f <$> l.
Proof. induction l as [|x l IH]; [done|]. cbn. by rewrite <- IH. Qed.

Lemma concat_nils {A B} (l : list A) : concat ((fun _ => @nil B) <$> l) = [].
Proof. induction l as [|x l IH]; [done|]. exact IH. Qed.

(** *** One block *)

(** The deltas of a block: the block they make and what they show. *)
Definition grown (s : Streamed) : BlockState :=
  match s with
  | SText ts => mkBlock KText (concat ts) [] [] [] [] []
  | SThinking ts sg => mkBlock KThinking [] (concat ts) (concat sg) [] [] []
  | SCall id name ts => mkBlock KToolUse [] [] [] id name (concat ts)
  end.

Definition shown (s : Streamed) : list (Chunk V) :=
  match s with
  | SText ts => CTextDelta <$> ts
  | SThinking ts _ => CThinkingDelta <$> ts
  | SCall _ _ _ => []
  end.

Lemma deltas_run st i s qs vs : an_blocks st !! i = Some (headed s) -> streams (block_deltas i s ++ qs) vs ->
  exists vs', streams qs vs' /\ leads st vs (with_blocks st (<[i := grown s]> (an_blocks st))) (shown s) vs'.
Proof.
  destruct s as [ts|ts sg|id name ts]; intros Hb Hs; cbn [block_deltas grown shown headed] in *.
  - destruct (pieces_run _ _ _ _ i qs ts block_delta_text _ _ _ Hb Hs) as (vs' & Hs' & Hl). exists vs'. split; [done|].
    by rewrite fold_text, concat_singletons in Hl.
  - rewrite <- app_assoc in Hs.
    destruct (pieces_run _ _ _ _ i _ ts block_delta_thinking _ _ _ Hb Hs) as (vs1 & Hs1 & Hl1).
    destruct (pieces_run _ _ _ _ i qs sg block_delta_signature
      (with_blocks st (<[i := foldl add_thinking (headed (SThinking ts sg)) ts]> (an_blocks st))) _ _ (lookup_insert_eq _ _ _) Hs1) as (vs' & Hs' & Hl).
    exists vs'. split; [done|]. pose proof (leads_trans _ _ _ _ _ _ _ _ Hl1 Hl) as Ht.
    rewrite fold_signature, fold_thinking, concat_nils, app_nil_r, concat_singletons in Ht. cbn [an_blocks with_blocks] in Ht.
    by rewrite with_blocks_twice, insert_insert_eq in Ht.
  - destruct (pieces_run _ _ _ _ i qs ts block_delta_json _ _ _ Hb Hs) as (vs' & Hs' & Hl). exists vs'. split; [done|].
    by rewrite fold_json, concat_nils in Hl.
Qed.

Lemma finish_grown s : call_reads (V := V) s ->
  exists c, finish_block (V := V) (grown s) = Some c /\ block_chunks s = shown s ++ [c].
Proof.
  destruct s as [ts|ts sg|id name ts]; intros Hc; [by eexists|by eexists|]. destruct Hc as [input E].
  exists (CToolUse id name input). cbn [block_chunks]. rewrite E. split; [|done].
  unfold finish_block, grown. cbn [bs_kind bs_input_json]. unfold call_input in E. by rewrite E.
Qed.

Lemma blocks_run bs : forall st i qs vs, an_blocks st = ∅ -> Forall (call_reads (V := V)) bs ->
  streams (blocks_shape i bs ++ qs) vs ->
  exists vs', streams qs vs' /\ leads st vs st (concat (block_chunks (V := V) <$> bs)) vs'.
Proof.
  induction bs as [|s bs IH]; intros st i qs vs He Hc Hs; [exists vs; split; [done|apply leads_refl]|].
  apply Forall_cons in Hc as [Hr Hc]. cbn [blocks_shape app] in Hs. rewrite <- app_assoc in Hs.
  destruct (step_leads _ _ _ st _ _ Hs (fun v => start_step st i s v)) as (vs1 & Hs1 & Hl1).
  destruct (deltas_run (with_blocks st (<[i := headed s]> (an_blocks st))) i s _ _ (lookup_insert_eq _ _ _) Hs1) as (vs2 & Hs2 & Hl2).
  cbn [an_blocks with_blocks app] in Hl2, Hs2. rewrite with_blocks_twice, insert_insert_eq in Hl2.
  destruct (finish_grown s Hr) as (c & Ec & Eb).
  destruct (step_leads _ _ _ (with_blocks st (<[i := grown s]> (an_blocks st))) _ _ Hs2
              (fun v => stop_step (with_blocks st (<[i := grown s]> (an_blocks st))) i (grown s) v c (lookup_insert_eq _ _ _) Ec)) as (vs3 & Hs3 & Hl3).
  cbn [an_blocks with_blocks] in Hl3. rewrite with_blocks_twice, delete_insert_id, with_blocks_id in Hl3 by (by rewrite He).
  destruct (IH st _ _ _ He Hc Hs3) as (vs' & Hs' & Hl'). exists vs'. split; [done|].
  cbn [fmap list_fmap concat]. rewrite Eb, <- app_assoc.
  apply (leads_trans _ _ _ [] _ _ _ _ Hl1). eapply leads_trans; [exact Hl2|]. by eapply leads_trans.
Qed.

Lemma outputs_run os : forall st qs vs, streams ((is_message_delta <$> os) ++ qs) vs ->
  exists vs', streams qs vs' /\
    leads st vs (mkAnth (an_blocks st) (an_in st) (an_cr st) (an_cw st) (default (an_out st) (last os)) (an_stats st)) [] vs'.
Proof.
  induction os as [|o os IH]; intros st qs vs Hs; [exists vs; split; [done|destruct st; apply leads_refl]|].
  destruct (step_leads _ _ _ st _ _ Hs (fun v => message_delta_step st o v)) as (vs1 & Hs1 & Hl1).
  destruct (IH (mkAnth (an_blocks st) (an_in st) (an_cr st) (an_cw st) o (an_stats st)) qs vs1 Hs1) as (vs' & Hs' & Hl').
  exists vs'. split; [done|]. pose proof (leads_trans _ _ _ _ _ _ _ _ Hl1 Hl') as Ht. cbn [an_blocks an_in an_cr an_cw an_out an_stats app] in Ht.
  by rewrite last_cons; destruct (last os).
Qed.

(** C27: What the API streams is what the turn gets.  Take any arrival of bytes
    whose lines, up to some point, carry the events the API documents for a
    reply: its start with the prompt's tokens, for each block its start, its
    pieces and its stop under the block's index, the tokens written, as often
    as they are told, and the end.  Events may have any other fields, pings and
    events of types the client does not know may stand anywhere between, and
    whatever comes after the end makes no difference.  If the arguments of each
    call, put together, are JSON, then the turn is given each block whole with
    its pieces before it as they came, a thought's signature and a call's
    arguments put together, nothing else, and one [Done]; and the tokens, the
    last count of those written, are added to the totals once. *)
Theorem anthropic_reply_roundtrip (items : list (option bytes)) (ls rest : list text) (bs : list Streamed)
    (stats : UsageStats) (input cache_read cache_creation : Z) (outputs : list Z) :
  complete_lines (from_utf8 (received items).1).1 = ls ++ rest ->
  streams (reply_shape input cache_read cache_creation bs outputs) (omap (M := list) (line_event (V := V)) ls) ->
  Forall (call_reads (V := V)) bs ->
  anthropic_stream (V := V) stats items =
  (concat (block_chunks <$> bs) ++ [CDone],
   record_turn_usage stats input cache_read cache_creation (default 0 (last outputs))).
Proof.
  intros E Hs Hc. unfold anthropic_stream. rewrite sse_from by done. cbn [sr_state sr_buf sr_carry reader_new app].
  rewrite E, on_lines_app, on_lines_events. unfold reply_shape in Hs.
  destruct (step_leads _ _ _ (anth_new stats) _ _ Hs (fun v => message_start_step _ _ _ _ v)) as (vs1 & Hs1 & Hl1).
  destruct (blocks_run bs _ 0 _ _ (eq_refl : an_blocks (mkAnth ∅ input cache_read cache_creation 0 stats) = ∅) Hc Hs1)
    as (vs2 & Hs2 & Hl2).
  destruct (outputs_run outputs (mkAnth ∅ input cache_read cache_creation 0 stats) _ _ Hs2) as (vs3 & Hs3 & Hl3).
  pose proof (leads_trans _ _ _ _ _ _ _ _ Hl1 (leads_trans _ _ _ _ _ _ _ _ Hl2 Hl3)) as Hl. unfold leads in Hl. rewrite Hl.
  destruct (streams_step _ _ _ Hs3) as (v & vs4 & Hv & _ & Hon). rewrite Hon. cbn [on_events].
  rewrite message_stop_step by done. cbn [an_blocks an_in an_cr an_cw an_out an_stats app]. by rewrite !app_nil_r.
Qed.

(** Whatever arrives, a stream ends once. *)
Lemma anthropic_stream_ends stats items : ends_once (anthropic_stream (V := V) stats items).1.
Proof.
  assert (forall st data, endless (anth_on_data (V := V) st data).1.2) as Hq.
  { intros st data. unfold anth_on_data. destruct (json_parse data) as [val|]; [|constructor].
    unfold anth_event. cbv zeta. repeat case_bool_decide; try constructor.
    - destruct (an_blocks st !! event_index val) as [b|]; [|constructor].
      unfold block_delta. cbv zeta. repeat case_bool_decide; repeat constructor.
    - destruct (an_blocks st !! event_index val) as [b|]; [|constructor].
      unfold finish_block. destruct (bs_kind b); [repeat constructor..|].
      destruct (if is_nil (bs_input_json b) then _ else _); repeat constructor. }
  unfold anthropic_stream. pose proof (sse_ends anth_on_data Hq (anth_new stats) items) as Hs.
  destruct (sse anth_on_data _ items) as [[st out] [|]]; cbn [fst].
  - exists out, CDone. split_and!; [done|done|by left].
  - destruct Hs as (body & -> & Hb). exists body, CError. split_and!; [done|done|by right].
Qed.
End streamedLemmas.
