(* ===== verification/ProviderRuns.v ===== *)
(** * Concrete replies and requests of the providers

    A JSON with a text of its own, the witnesses of Oai.v and Anthropic.v on it, and the runs
    that show what the readers of the event streams take for a reply. *)
From S2P Require Import Prelude Text Policy Protocol History Turn Sse Oai Anthropic.

(** ** Documents *)

Inductive Doc :=
| DNul | DBool (b : bool) | DNum (n : Z) | DStr (s : text) | DArr (l : list Doc) | DObj (fs : list (text * Doc)).

(** A text of it: each value behind a tag, lists and strings behind their
    length as one character. *)
Fixpoint print_doc (d : Doc) : text :=
  match d with
  | DNul => [110]
  | DBool b => [if b then 116 else 102]
  | DNum n => [35; 1000 + n]
  | DStr s => 34 :: 1000 + zlen s :: s
  | DArr l => 91 :: 1000 + zlen l :: concat (print_doc <$> l)
  | DObj fs => 123 :: 1000 + zlen fs :: concat ((fun e => 1000 + zlen e.1 :: e.1 ++ print_doc e.2) <$> fs)
  end.

Fixpoint read_many {A} (read : text -> option (A * text)) (n : nat) (s : text) : option (list A * text) :=
  match n with
  | O => Some ([], s)
  | S n => x ← read s; xs ← read_many read n x.2; Some (x.1 :: xs.1, xs.2)
  end.

Fixpoint read_doc (fuel : nat) (s : text) : option (Doc * text) :=
  match fuel, s with
  | S fuel, tag :: s =>
      if tag =? 110 then Some (DNul, s)
      else if tag =? 116 then Some (DBool true, s)
      else if tag =? 102 then Some (DBool false, s)
      else match s with
      | n :: s =>
          let n := n - 1000 in
          if tag =? 35 then Some (DNum n, s)
          else if tag =? 34 then Some (DStr (take (Z.to_nat n) s), drop (Z.to_nat n) s)
          else if tag =? 91 then r ← read_many (read_doc fuel) (Z.to_nat n) s; Some (DArr r.1, r.2)
          else if tag =? 123 then
            r ← read_many (fun s => match s with
                                    | k :: s =>
                                        let k := Z.to_nat (k - 1000) in
                                        v ← read_doc fuel (drop k s); Some ((take k s, v.1), v.2)
                                    | [] => None
                                    end) (Z.to_nat n) s;
            Some (DObj r.1, r.2)
          else None
      | [] => None
      end
  | _, _ => None
  end.

Definition parse_doc (s : text) : option Doc :=
  match read_doc (length s) s with Some (d, []) => Some d | _ => None end.

Definition doc_field (fs : list (text * Doc)) (k : text) : option Doc :=
  snd <$> List.find (fun e => bool_decide (e.1 = k)) fs.
Definition doc_without (k : text) (fs : list (text * Doc)) : list (text * Doc) :=
  List.filter (fun e => negb (bool_decide (e.1 = k))) fs.

#[export] Instance doc_args : JsonArgs Doc := {|
  json_get d k := match d with DObj fs => doc_field fs k | _ => None end;
  json_as_str d := match d with DStr s => Some s | _ => None end;
  json_as_bool d := match d with DBool b => Some b | _ => None end;
  json_is_object d := match d with DObj _ => true | _ => false end;
  json_remove d k := match d with DObj fs => DObj (doc_without k fs) | _ => d end;
  json_insert d k x := match d with DObj fs => DObj ((k, x) :: doc_without k fs) | _ => d end;
  json_bool := DBool |}.
#[export] Instance doc_nums : JsonNums Doc := {|
  json_as_u64 d := match d with DNum n => if (0 <=? n) && (n <=? u64_max) then Some n else None | _ => None end;
  json_as_array d := match d with DArr l => Some l | _ => None end |}.
#[export] Instance doc_value : JsonValue Doc := {|
  json_text := print_doc; json_of_str := DStr |}.
#[export] Instance doc_doc : JsonDoc Doc := {|
  json_parse := parse_doc;
  json_array := DArr;
  json_image_block m d := DObj [(chars "type", DStr (chars "image")); (chars "media_type", DStr m); (chars "data", DStr d)];
  json_text_block t := DObj [(chars "type", DStr (chars "text")); (chars "text", DStr t)] |}.
#[export] Instance doc_build : JsonBuild Doc := {|
  json_obj := DObj; json_nul := DNul; json_num := DNum; json_is_null d := match d with DNul => true | _ => false end |}.

Lemma doc_field_without k k' fs :
  doc_field (doc_without k fs) k' = if bool_decide (k = k') then None else doc_field fs k'.
Proof.
  unfold doc_field, doc_without. induction fs as [|[n v] fs IH]; cbn [List.filter List.find fst]; [by case_bool_decide|].
  destruct (bool_decide (n = k)) eqn:E; cbn [negb List.find fst].
  - apply bool_decide_eq_true in E as ->. rewrite IH. by case_bool_decide.
  - apply bool_decide_eq_false in E. repeat case_bool_decide; try congruence; by rewrite IH, ?bool_decide_eq_false_2.
Qed.

#[export] Instance doc_args_laws : JsonArgsLaws Doc.
Proof.
  constructor; try done.
  - intros [] k; try done. cbn. by rewrite doc_field_without, bool_decide_eq_true_2.
  - intros [] k k' Hk; try done. cbn. by rewrite doc_field_without, bool_decide_eq_false_2.
  - intros [] k x Ho; try done. cbn. unfold doc_field. cbn. by rewrite bool_decide_eq_true_2.
  - intros [] k k' x Hk; try done. cbn. unfold doc_field. cbn. rewrite bool_decide_eq_false_2 by done.
    change (doc_field (doc_without k fs) k' = doc_field fs k'). by rewrite doc_field_without, bool_decide_eq_false_2.
  - by intros [] k.
  - by intros [] k Ho.
Qed.

#[export] Instance doc_doc_laws : JsonDocLaws Doc.
Proof. by constructor. Qed.

#[export] Instance doc_build_laws : JsonBuildLaws Doc.
Proof.
  constructor; try done.
  - intros k v l k' Hk. cbn. unfold doc_field. cbn. by case_bool_decide.
  - by intros [].
  - intros n Hn. cbn. by rewrite (proj2 (andb_true_iff _ _)) by lia.
Qed.

(** ** An OpenAI-compatible reply *)

Definition jobj (fs : list (string * Doc)) : Doc := DObj ((fun e => (chars e.1, e.2)) <$> fs).
Definition jstr (s : string) : Doc := DStr (chars s).

(** One streamed event with this delta. *)
Definition oai_delta (fs : list (string * Doc)) : Doc := jobj [("choices"%string, DArr [jobj [("delta"%string, jobj fs)]])].
Definition data_line (d : Doc) : text := chars "data: " ++ json_text d.
Definition done_line : text := chars "data: [DONE]".

(** A call's fragment. *)
Definition oai_fragment (idx : Z) (head : list (string * Doc)) (name : list (string * Doc)) (args : text) : Doc :=
  jobj (("index"%string, DNum idx) :: head ++ [("function"%string, jobj (name ++ [("arguments"%string, DStr args)]))]).

Definition weather_args : Doc := jobj [("city"%string, jstr "Oslo")].
Definition weather_text : text := json_text weather_args.

(** Two pieces of text, then a call in three fragments among which a second
    call is announced. *)
Definition weather_reply : list Doc :=
  [oai_delta [("content"%string, jstr "Looking ")]; oai_delta [("content"%string, jstr "it up.")];
   oai_delta [("tool_calls"%string, DArr [oai_fragment 0 [("id"%string, jstr "call_1")] [("name"%string, jstr "weather")] []])];
   oai_delta [("tool_calls"%string, DArr [oai_fragment 0 [] [] (take 9 weather_text);
                                          oai_fragment 1 [("id"%string, jstr "call_2")] [("name"%string, jstr "clock")] []])];
   oai_delta [("tool_calls"%string, DArr [oai_fragment 0 [] [] (drop 9 weather_text)])]].

Definition weather_lines : list text := (data_line <$> weather_reply) ++ [chars ": keep-alive"; []].
Definition weather_bytes : bytes := as_bytes (terminated (weather_lines ++ [done_line])).

Definition weather_chunks : list (Chunk Doc) :=
  [CTextDelta (chars "Looking "); CTextDelta (chars "it up."); CTextBlock (chars "Looking it up.");
   CToolUse (chars "call_1") (chars "weather") weather_args; CToolUse (chars "call_2") (chars "clock") (DObj []); CDone].

Lemma oai_reply_exact_witness :
  oai_stream [Some (take 7 weather_bytes); Some (drop 7 weather_bytes); None] = weather_chunks.
Proof. rewrite oai_reply_exact. vm_compute. reflexivity. Defined.

(** The same reply, failing before [DONE]: what was said, and an error. *)
Example failed_transport_is_an_error :
  oai_stream [Some (as_bytes (terminated weather_lines)); None] =
  [CTextDelta (chars "Looking "); CTextDelta (chars "it up."); CError (V := Doc)].
Proof. vm_compute. reflexivity. Qed.

(** A call without a name is left out, one with unreadable arguments ends the
    reply. *)
Example nameless_and_unreadable_calls :
  oai_stream (V := Doc)
    [Some (as_bytes (terminated (data_line <$>
       [oai_delta [("tool_calls"%string, DArr [oai_fragment 0 [("id"%string, jstr "a")] [] (chars "x");
                                               oai_fragment 1 [("id"%string, jstr "b")] [("name"%string, jstr "clock")] [];
                                               oai_fragment 2 [("id"%string, jstr "c")] [("name"%string, jstr "lock")] (chars "x");
                                               oai_fragment 3 [("id"%string, jstr "d")] [("name"%string, jstr "light")] []])]])))]
  = [CToolUse (chars "b") (chars "clock") (DObj []); CError].
Proof. vm_compute. reflexivity. Qed.

(** A connection that closes before [DONE] gives the same chunks: a reply cut
    short is a complete reply. *)
Example cut_reply_looks_complete :
  oai_stream (V := Doc) [Some (as_bytes (terminated [data_line (oai_delta [("content"%string, jstr "The dose is 5")])]))]
  = [CTextDelta (chars "The dose is 5"); CTextBlock (chars "The dose is 5"); CDone].
Proof. vm_compute. reflexivity. Qed.

(** A byte that is no UTF-8 ends the reply early, without an error. *)
Example bad_byte_ends_the_reply :
  oai_stream (V := Doc)
    [Some (as_bytes (terminated [data_line (oai_delta [("content"%string, jstr "yes")])])); Some [255];
     Some (as_bytes (terminated [data_line (oai_delta [("content"%string, jstr ", but not today")])]))]
  = [CTextDelta (chars "yes"); CTextBlock (chars "yes"); CDone].
Proof. vm_compute. reflexivity. Qed.

(** Calls sent without an index are one call: the last name, both arguments. *)
Example calls_without_index_merge :
  oai_stream (V := Doc)
    [Some (as_bytes (terminated (data_line <$>
       [oai_delta [("tool_calls"%string, DArr [jobj [("id"%string, jstr "a"); ("function"%string, jobj [("name"%string, jstr "lock")])];
                                               jobj [("id"%string, jstr "b"); ("function"%string, jobj [("name"%string, jstr "light")])]])]])))]
  = [CToolUse (chars "b") (chars "light") (DObj []); CDone].
Proof. vm_compute. reflexivity. Qed.

(** ** A request *)

Definition busy_history : list (Message Doc) :=
  [User [Text (chars "weather and time, please")];
   Assistant [Thinking (chars "two calls") (chars "sig"); ToolUse (chars "t1") (chars "weather") weather_args;
              ToolUse (chars "t2") (chars "camera") (DObj [])];
   User [ToolResult (chars "t2") (DArr [json_image_block (chars "image/png") (chars "AAAA"); json_text_block (chars "sky")]) false;
         ToolResult (chars "t1") (DStr (chars "rain")) false; Text (chars "and hurry")];
   Assistant [Text (chars "It rains.")]].

Definition clock_tool : ToolSpec Doc := mkToolSpec (chars "clock") (chars "the time") (DObj []).

Lemma oai_request_is_valid_witness :
  oai_accepts (oai_build_body None (chars "grok-4.5") busy_history [clock_tool] (Some (chars "soul"))) = true.
Proof. rewrite oai_request_is_valid by reflexivity. vm_compute. reflexivity. Defined.

(** An assistant message of thoughts alone is sent with neither words nor
    calls, which no such API accepts. *)
Example thoughts_alone_are_an_empty_message :
  oai_messages_of (V := Doc) (Assistant [Thinking (chars "hm") (chars "sig")]) =
    [DObj [(chars "content", DNul); (chars "role", DStr (chars "assistant"))]]
  /\ api_tail (V := Doc) [User [Text (chars "hi")]; Assistant [Thinking (chars "hm") (chars "sig")]; User [Text (chars "so?")]] = true
  /\ oai_accepts (V := Doc) (oai_build_body None (chars "llama3")
       [User [Text (chars "hi")]; Assistant [Thinking (chars "hm") (chars "sig")]; User [Text (chars "so?")]] [] None) = false.
Proof. vm_compute. auto. Qed.

(** The failure mark of a result that holds a picture is not sent. *)
Example failed_picture_is_sent_as_success :
  result_body (DArr [json_image_block (chars "image/png") (chars "AAAA"); json_text_block (chars "half a frame")]) true
  = (chars "half a frame", []).
Proof. vm_compute. reflexivity. Qed.

(** ** An Anthropic reply *)

(** A thought, some words and a call, in pieces. *)
Definition spoken_blocks : list Streamed :=
  [SThinking [chars "Rain "; chars "first."] [chars "c2ln"]; SText [chars "Looking "; chars "it up."];
   SCall (chars "toolu_1") (chars "weather") [take 9 weather_text; drop 9 weather_text]; SCall (chars "toolu_2") (chars "clock") []].

(** Events as the API sends them, with the fields this client does not read. *)
Definition an_event (kind : string) (fs : list (string * Doc)) : Doc := jobj (("type"%string, jstr kind) :: fs).
Definition an_start (i : Z) (kind : string) (fs : list (string * Doc)) : Doc :=
  an_event "content_block_start" [("index"%string, DNum i); ("content_block"%string, an_event kind fs)].
Definition an_delta (i : Z) (kind field : string) (t : text) : Doc :=
  an_event "content_block_delta" [("index"%string, DNum i); ("delta"%string, an_event kind [(field, DStr t)])].
Definition an_stop (i : Z) : Doc := an_event "content_block_stop" [("index"%string, DNum i)].
Definition an_message_start : Doc :=
  an_event "message_start" [("message"%string, jobj
    [("id"%string, jstr "msg_1"); ("type"%string, jstr "message"); ("role"%string, jstr "assistant"); ("content"%string, DArr []);
     ("model"%string, jstr "claude-opus-5"); ("stop_reason"%string, DNul); ("stop_sequence"%string, DNul);
     ("usage"%string, jobj [("input_tokens"%string, DNum 12); ("cache_creation_input_tokens"%string, DNum 40);
                            ("cache_read_input_tokens"%string, DNum 900); ("output_tokens"%string, DNum 1)])])].
Definition an_message_delta (output : Z) : Doc :=
  an_event "message_delta" [("delta"%string, jobj [("stop_reason"%string, jstr "tool_use"); ("stop_sequence"%string, DNul)]);
                            ("usage"%string, jobj [("output_tokens"%string, DNum output)])].
Definition an_ping : Doc := an_event "ping" [].

Definition anthropic_reply : list Doc :=
  [an_message_start;
   an_start 0 "thinking" [("thinking"%string, jstr ""); ("signature"%string, jstr "")]; an_ping;
   an_delta 0 "thinking_delta" "thinking" (chars "Rain "); an_delta 0 "thinking_delta" "thinking" (chars "first.");
   an_delta 0 "signature_delta" "signature" (chars "c2ln"); an_stop 0;
   an_start 1 "text" [("text"%string, jstr ""); ("citations"%string, DNul)];
   an_delta 1 "text_delta" "text" (chars "Looking "); an_event "new_kind" [("index"%string, DNum 1)];
   an_delta 1 "text_delta" "text" (chars "it up."); an_stop 1;
   an_start 2 "tool_use" [("id"%string, jstr "toolu_1"); ("name"%string, jstr "weather"); ("input"%string, jobj [])];
   an_delta 2 "input_json_delta" "partial_json" (take 9 weather_text); an_ping;
   an_delta 2 "input_json_delta" "partial_json" (drop 9 weather_text); an_stop 2;
   an_start 3 "tool_use" [("id"%string, jstr "toolu_2"); ("name"%string, jstr "clock"); ("input"%string, jobj [])]; an_stop 3;
   an_message_delta 30; an_message_delta 77; an_event "message_stop" []].

Definition anthropic_lines : list text := concat ((fun d => [chars "event: x"; data_line d; []]) <$> anthropic_reply).
Definition anthropic_bytes : bytes := as_bytes (terminated anthropic_lines).

(** One event of a stream against its shape. *)
Ltac event_shape :=
  unfold is_message_start, is_start, is_piece, is_stop, is_message_delta, of_type, at_index; cbn [is_head];
  repeat first [ reflexivity | split | eexists ].
Ltac aside_shape := eexists; split; [reflexivity|]; by split; apply (bool_decide_unpack _); vm_compute.

Lemma anthropic_reply_roundtrip_witness :
  anthropic_stream (V := Doc) usage_zero [Some (take 500 anthropic_bytes); Some (drop 500 anthropic_bytes); Some [255]; None] =
  ([CThinkingDelta (chars "Rain "); CThinkingDelta (chars "first."); CThinkingBlock (chars "Rain first.") (chars "c2ln");
    CTextDelta (chars "Looking "); CTextDelta (chars "it up."); CTextBlock (chars "Looking it up.");
    CToolUse (chars "toolu_1") (chars "weather") weather_args; CToolUse (chars "toolu_2") (chars "clock") (DObj []); CDone],
   mkUsage 1 12 900 40 77).
Proof.
  rewrite (anthropic_reply_roundtrip _ anthropic_lines [] spoken_blocks usage_zero 12 900 40 [30; 77]).
  - vm_compute. reflexivity.
  - vm_compute. reflexivity.
  - replace (omap (M := list) line_event anthropic_lines) with anthropic_reply by (vm_compute; reflexivity).
    unfold anthropic_reply, spoken_blocks. cbn [reply_shape blocks_shape block_deltas fmap list_fmap app].
    repeat first [ apply streams_event; [solve [event_shape]|] | apply streams_aside; [aside_shape|] | apply streams_end ].
  - repeat constructor; vm_compute; eexists; reflexivity.
Defined.

(** An error the API reports inside the stream is not an event the reader
    knows: the reply ends as an empty, complete one. *)
Example error_event_is_an_empty_reply :
  anthropic_stream (V := Doc) usage_zero
    [Some (as_bytes (terminated [data_line (jobj [("type"%string, jstr "error");
       ("error"%string, jobj [("type"%string, jstr "overloaded_error")])])]))] = ([CDone], usage_zero).
Proof. vm_compute. reflexivity. Qed.

(** A connection that drops inside a block loses the block: its pieces were
    shown, the turn gets none of it, and the stream ends well. *)
Example unfinished_block_is_lost :
  (anthropic_stream (V := Doc) usage_zero
    [Some (as_bytes (terminated (data_line <$>
       [an_start 0 "text" [("text"%string, jstr "")]; an_delta 0 "text_delta" "text" (chars "The dose is 5")])))]).1
  = [CTextDelta (chars "The dose is 5"); CDone].
Proof. vm_compute. reflexivity. Qed.

(** A turn cut off before [message_stop] is counted nowhere. *)
Example unfinished_turn_is_not_counted :
  (anthropic_stream (V := Doc) usage_zero
    [Some (as_bytes (terminated (data_line <$> [an_message_start; an_message_delta 77])))]).2 = usage_zero.
Proof. vm_compute. reflexivity. Qed.

Definition long_history : list (Message Doc) :=
  [User [Text (chars "a")]; Assistant (replicate 20 (Text (chars "b"))); User (replicate 20 (Text (chars "c")));
   Assistant (replicate 20 (Text (chars "d"))); User [Text (chars "e")]; Assistant [Text (chars "f")]; User [Text (chars "g")]].

(** The newest stable message is marked, then one every fifteen blocks until
    the marks run out. *)
Example marks_of_a_long_request : message_marks <$> request_messages long_history cache_default = [0; 0; 1; 1; 0; 1; 0].
Proof. vm_compute. reflexivity. Qed.

Definition marked_request : Doc := build_body (chars "claude-opus-5") long_history [] (Some (chars "soul")) cache_default.

Lemma cache_marks_bounded_witness : body_marks marked_request <= 4 /\ body_marks marked_request = 4.
Proof.
  destruct (cache_marks_bounded (chars "claude-opus-5") long_history [] (Some (chars "soul")) cache_default)
    as (ms & placed & _ & _ & _ & Hb & Hp & _).
  split; [|vm_compute; reflexivity]. unfold marked_request. rewrite Hb.
  replace (brought_in long_history) with 0 by (vm_compute; reflexivity). lia.
Defined.

(** A tool that marks the items of a picture's result takes the request past
    the four the API takes, for as long as the result is in the history. *)
Example tool_marks_exceed_the_cap :
  body_marks (build_body (V := Doc) (chars "claude-opus-5")
    (long_history ++
       [Assistant [ToolUse (chars "t") (chars "camera") (DObj [])];
        User [ToolResult (chars "t") (DArr [json_insert (json_image_block (chars "image/png") (chars "AAAA"))
                                              (chars "cache_control") (jobj [("type"%string, jstr "ephemeral")])]) false]])
    [] (Some (chars "soul")) cache_default) = 5.
Proof. vm_compute. reflexivity. Qed.
