(* ===== verification/SelfUpdate.v ===== *)
(** * The self-update pipeline

    [agentd/src/self_update.rs]: the gates an update of the daemon's own binary
    passes before a swap is requested.  The programs it runs (git, cargo,
    sha256sum), the file system around them and the reviewing model are one
    world that answers commands; what was run and answered is kept in a log.
    The request file and the build lock are of this model's state: nobody else
    writes them while an update runs.  A slice inside a character is a panic,
    which ends the handler's task. *)
From S2P Require Import Prelude Text Confine Policy Protocol Turn.

(** ** Text *)

(** [&s[n..]]: [None] inside a character or past the end. *)
Fixpoint drop_bytes (n : Z) (s : text) : option text :=
  if n <=? 0 then (if n =? 0 then Some s else None)
  else match s with [] => None | c :: r => drop_bytes (n - len_utf8 c) r end.

(** [&s[..end]] for the largest boundary [end] within [n]. *)
Fixpoint take_bytes (n : Z) (s : text) : text :=
  match s with
  | [] => []
  | c :: r => if len_utf8 c <=? n then c :: take_bytes (n - len_utf8 c) r else []
  end.

(** [s.find(p)], in bytes. *)
Fixpoint find_str (p s : text) : option Z :=
  if starts_with p s then Some 0
  else match s with [] => None | c :: r => Z.add (len_utf8 c) <$> find_str p r end.

Fixpoint trim_start_by (p : Z -> bool) (s : text) : text :=
  match s with c :: r => if p c then trim_start_by p r else s | [] => [] end.

(** The last [max] bytes of what a command printed. *)
Definition keep_tail (s : text) (max : Z) : option text :=
  if str_len s <=? max then Some s
  else (fun t => (8230 :: chars "(truncated)" ++ [8230; 10]) ++ t) <$> drop_bytes (str_len s - max) s.

Definition keep_head (s : text) (max : Z) : text :=
  if str_len s <=? max then s
  else take_bytes max s ++ [10; 8230] ++ chars "(diff truncated at " ++ dec_text max ++ chars " chars)" ++ [8230].

Definition non_blank (var : option text) : option text := s ← var; if bool_decide (trim s = []) then None else Some s.

(** ** Settings *)

Definition build_timeout (var : option text) : Z := default 1800 (v ← var; parse_u64 (trim v)).
Definition probe_timeout (var : option text) : Z := default 120 (v ← var; parse_u64 (trim v)).
Definition self_update_repo (var : option text) : Path :=
  path_new (default (chars "/var/lib/agentd/self-update/ApexOS-RS") (non_blank var)).
Definition cargo_bin (var : option text) : text := default (chars "cargo") (non_blank var).
Definition cargo_target_dir (var : option text) : option text := non_blank var.
Definition update_dir (var : option text) : Path := path_new (default (chars "/var/lib/agentd/update") (non_blank var)).
Definition review_enabled (var : option text) : bool :=
  negb (bool_decide (var = Some (chars "0")) || bool_decide (var = Some (chars "false")) || bool_decide (var = Some (chars "no"))).

Definition is_full_git_sha (s : text) : bool := (str_len s =? 40) && forallb is_ascii_hexdigit (as_bytes s).

Definition isolated_src_dir (dir : Path) (resolved : text) : Path :=
  path_push dir (chars "src-" ++ take 12 (List.filter is_ascii_hexdigit resolved)).

Definition isolated_target_dir (target_var : option text) (dir repo : Path) : Path :=
  let beside := match parent_of repo with
                | Some p => path_push p (chars "isolated-target")
                | None => path_push dir (chars "isolated-target")
                end in
  match cargo_target_dir target_var with
  | Some t => if negb (path_starts_with (path_new t) repo) then path_new t else beside
  | None => beside
  end.

Definition CARGO_ENV_ALLOW : list text := chars <$>
  ["PATH"; "HOME"; "USER"; "LOGNAME"; "SHELL"; "TMPDIR"; "TEMP"; "TMP"; "LANG"; "LC_ALL"; "LC_CTYPE"; "LC_MESSAGES";
   "TERM"; "CARGO_HOME"; "RUSTUP_HOME"; "RUSTUP_TOOLCHAIN"; "RUSTUP_IO_THREADS"; "CARGO_BUILD_JOBS"; "CARGO_INCREMENTAL";
   "CARGO_PROFILE_RELEASE_OPT_LEVEL"; "CARGO_PROFILE_RELEASE_LTO"; "CARGO_PROFILE_RELEASE_CODEGEN_UNITS"; "HTTP_PROXY";
   "HTTPS_PROXY"; "ALL_PROXY"; "NO_PROXY"; "http_proxy"; "https_proxy"; "all_proxy"; "no_proxy"; "SSL_CERT_FILE";
   "SSL_CERT_DIR"]%string.

(** What cargo's environment is: the variables, and [CARGO_TARGET_DIR] as the path
    it is. *)
Record ScrubbedEnv := mkScrubbed { sc_vars : list (text * text); sc_target : Path }.

Definition collect_scrubbed_env (env : text -> option text) (target : Path) : ScrubbedEnv :=
  mkScrubbed
    (omap (fun k => v ← env k; if bool_decide (v = []) then None else Some (k, v)) CARGO_ENV_ALLOW
     ++ [(chars "CARGO_TERM_COLOR", chars "never")])
    target.

(** ** The reviewer's verdict *)

(** The Unicode tables of [char]. *)
Class CharTables := { char_upper : Z -> text; char_alphabetic : Z -> bool }.
Class CharTablesLaws `{!CharTables} : Prop := {
  char_upper_ascii c : 0 <= c < 128 -> char_upper c = [if (97 <=? c) && (c <=? 122) then c - 32 else c]
}.

Inductive ReviewVerdict := VSafe (note : text) | VBlock (why : text).

Definition VERDICT : text := chars "VERDICT:".

Section verdict.
Context `{!CharTables}.

Definition to_uppercase (s : text) : text := concat (char_upper <$> s).

Definition is_line_mark (c : Z) : bool := (c =? 42) || (c =? 35) || (c =? 62) || (c =? 32).
Definition is_dash_mark (c : Z) : bool := (c =? 8212) || (c =? 45) || (c =? 58) || (c =? 32).

(** One line: no verdict on it, a verdict, or a panic. *)
Definition line_verdict (line : text) : option (option ReviewVerdict) :=
  let l := trim_start_by is_line_mark (trim line) in
  match find_str VERDICT (to_uppercase l) with
  | None => Some None
  | Some idx =>
      after ← drop_bytes (idx + 8) l;
      let rest := trim after in
      let rest_up := to_uppercase rest in
      if starts_with (chars "SAFE") rest_up then Some (Some (VSafe rest))
      else if starts_with (chars "BLOCK") rest_up then
        let why := trim (trim_start_by is_dash_mark (trim_start_by char_alphabetic rest)) in
        Some (Some (VBlock (if bool_decide (why = []) then chars "reviewer blocked the change" else why)))
      else Some None
  end.

Fixpoint first_verdict (ls : list text) : option (option ReviewVerdict) :=
  match ls with
  | [] => Some None
  | l :: ls => v ← line_verdict l; match v with Some v => Some (Some v) | None => first_verdict ls end
  end.

(** The lines from the last one up. *)
Definition parse_verdict (t : text) : option ReviewVerdict :=
  v ← first_verdict (rev (lines t));
  Some (default (VBlock (chars "reviewer produced no parseable VERDICT line " ++ 8212 :: chars " failing closed. Tail: " ++ keep_head (trim t) 300)) v).
End verdict.

(** What the stream of the reviewing model adds up to. *)
Fixpoint collect_completion {V} (acc : text) (stream : list (Chunk V)) : result text unit :=
  match stream with
  | [] => Ok acc
  | CTextDelta t :: s => collect_completion (acc ++ t) s
  | CTextBlock t :: _ => Ok t
  | CDone :: _ => Ok acc
  | CError :: _ => Err tt
  | _ :: s => collect_completion acc s
  end.

(** ** Commands *)

Record SelfUpdateRequest := mkRequest {
  rq_staged_sha256 : text; rq_target_commit : text; rq_prev_commit : text; rq_created_at : Z; rq_timeout : Z; rq_reason : text
}.

Inductive Cmd :=
  | RepoThere | GitStatus | GitHead | GitVerify (rev : text) | CargoVersion
  | GitDiff (range : text) | GitShow (rev : text)
  | MakeWritable (dest : Path) | WorktreeRemove (dest : Path) | RemoveTree (dest : Path)
  | MakeParent (dest : Path) | WorktreeAdd (dest : Path) (rev : text) | CloneLocal (dest : Path)
  | CheckoutAt (dest : Path) (rev : text) | HeadAt (dest : Path) | CargoLockAt (dest : Path) | MakeReadonly (dest : Path)
  | MakeTarget (dir : Path) | CargoTest (src : Path) (env : ScrubbedEnv) | CargoBuild (src : Path) (env : ScrubbedEnv)
  | BuiltThere (path : Path) | Sha256 (path : Path)
  | MakeUpdateDir | CopyStaged (from : Path) | ChmodStaged | RemoveStaged
  | WriteLock | RemoveLock | WriteRequestTmp (q : SelfUpdateRequest) | RenameRequest (q : SelfUpdateRequest)
  | CallTool (name : text).

(** How a command ended: with what it printed, or not at all (it could not be
    started, timed out, or the system call failed). *)
Inductive Exit := Exited (ok : bool) (stdout stderr : text) | NotRun (why : text).
Definition exit_ok (x : Exit) : bool := match x with Exited ok _ _ => ok | NotRun _ => false end.

(** What happened, as the log keeps it. *)
Inductive Ev := Ran (c : Cmd) (x : Exit) | Asked (user : text) (answer : result text unit).

Class UpdateWorld (W : Type) := {
  answer : W -> Cmd -> W * Exit;
  review : W -> text -> W * result (list (Chunk unit)) unit
}.

Record UpdateState (W : Type) := mkUpdate {
  us_world : W; us_lock : bool; us_request : option SelfUpdateRequest; us_log : list Ev
}.
Arguments mkUpdate {W}. Arguments us_world {W}. Arguments us_lock {W}. Arguments us_request {W}. Arguments us_log {W}.

Inductive UpdateReply :=
  | NeedArgs | InFlight | NoRepo | DirtyTree (out : text) | StatusFailed (e : text) | HeadFailed (e : text)
  | NoSuchCommit | NotHead (resolved head : text) | NotSha (resolved : text) | NoCargo
  | ReviewBlocked (why : text) | CheckoutFailed (e : text) | TargetDirFailed | TestsFailed (e : text) | BuildFailed (e : text)
  | NoBinary | DryRunOk | AttestFailed (e : text) | Filed | RequestFailed.

(** ** Computations that run commands, and may reply early or panic *)

Inductive Flow (A : Type) := Go (a : A) | Reply (r : UpdateReply) | Panicked.
Arguments Go {A}. Arguments Reply {A}. Arguments Panicked {A}.

Definition Upd (W A : Type) : Type := UpdateState W -> UpdateState W * Flow A.

Section monad.
Context {W : Type}.

Definition ret {A} (a : A) : Upd W A := fun u => (u, Go a).
Definition reply {A} (r : UpdateReply) : Upd W A := fun u => (u, Reply r).
Definition seq {A B} (c : Upd W A) (k : A -> Upd W B) : Upd W B :=
  fun u => let '(u, f) := c u in
           match f with Go a => k a u | Reply r => (u, Reply r) | Panicked => (u, Panicked) end.
(** A slice: [None] panics. *)
Definition sliced {A} (o : option A) : Upd W A := fun u => (u, match o with Some a => Go a | None => Panicked end).
End monad.

Notation "'let*' x := c 'in' k" := (seq c (fun x => k)) (at level 10, x name, c at level 200, k at level 200).
Notation "'do*' c 'in' k" := (seq c (fun _ => k)) (at level 10, c at level 200, k at level 200).

Section pipeline.
Context {W : Type} `{!UpdateWorld W} `{!CharTables}.

Definition exec_cmd (c : Cmd) : Upd W Exit := fun u =>
  let '(w, x) := answer (us_world u) c in (mkUpdate w (us_lock u) (us_request u) (us_log u ++ [Ran c x]), Go x).

Definition run_ok (c : Cmd) : Upd W bool := let* x := exec_cmd c in ret (exit_ok x).

(** [run_cmd]: what is printed, the tail of it when the command failed. *)
Definition run_cmd (c : Cmd) : Upd W (result text text) :=
  let* x := exec_cmd c in
  match x with
  | Exited true o e => ret (Ok (o ++ e))
  | Exited false o e => let* t := sliced (keep_tail (o ++ [10] ++ e) 4000) in ret (Err t)
  | NotRun why => ret (Err why)
  end.

Definition git (c : Cmd) : Upd W (result text text) :=
  let* r := run_cmd c in ret (match r with Ok s => Ok (trim s) | Err e => Err e end).

Definition set_lock (b : bool) : Upd W unit := fun u => (mkUpdate (us_world u) b (us_request u) (us_log u), Go tt).
Definition set_request (q : SelfUpdateRequest) : Upd W unit :=
  fun u => (mkUpdate (us_world u) (us_lock u) (Some q) (us_log u), Go tt).

Definition take_lock : Upd W unit :=
  do* exec_cmd MakeUpdateDir in
  let* ok := run_ok WriteLock in
  if ok then set_lock true else ret tt.
Definition clear_lock : Upd W unit :=
  let* ok := run_ok RemoveLock in
  if ok then set_lock false else ret tt.

Definition in_flight (u : UpdateState W) : bool := is_someb (us_request u) || us_lock u.

(** ** The settings of one run *)

Record UpdateCfg := mkCfg {
  uc_repo : Path; uc_dir : Path; uc_target_var : option text; uc_review_var : option text; uc_env : text -> option text;
  uc_build_commit : text; uc_now : Z; uc_timeout_var : option text
}.
Variable cfg : UpdateCfg.

(** ** Stage 1: the review *)

Definition collect_diff (prev target : text) : Upd W text :=
  let* v := git (GitVerify (prev ++ chars "^{commit}")) in
  let* d := git (match v with Ok _ => GitDiff (prev ++ chars ".." ++ target) | Err _ => GitShow target end) in
  ret (match d with
       | Ok s => keep_head s 12000
       | Err e => chars "(could not compute diff: " ++ e ++ chars ")"
       end).

Definition review_prompt (target reason diff : text) : text :=
  chars "Reason for this self-update: " ++ reason ++ [10] ++ chars "Target commit: " ++ target ++ [10; 10]
  ++ chars "Diff being swapped in:" ++ [10] ++ chars "```diff" ++ [10] ++ diff ++ [10] ++ chars "```".

Definition ask_reviewer (user : text) : Upd W (result text unit) := fun u =>
  let '(w, s) := review (us_world u) user in
  let a := match s with Ok l => collect_completion [] l | Err e => Err e end in
  (mkUpdate w (us_lock u) (us_request u) (us_log u ++ [Asked user a]), Go a).

Definition review_diff (target reason diff : text) : Upd W ReviewVerdict :=
  if bool_decide (trim diff = []) then ret (VSafe (chars "empty diff (same-commit rebuild) " ++ 8212 :: chars " nothing to review"))
  else
    let* a := ask_reviewer (review_prompt target reason diff) in
    match a with
    | Ok t => sliced (parse_verdict t)
    | Err _ => ret (VBlock (chars "reviewer unavailable " ++ 8212 :: chars " failing closed"))
    end.

Definition review_stage (resolved reason : text) : Upd W unit :=
  if review_enabled (uc_review_var cfg) then
    let* diff := collect_diff (uc_build_commit cfg) resolved in
    let* v := review_diff resolved reason diff in
    match v with
    | VSafe _ => ret tt
    | VBlock why => do* clear_lock in reply (ReviewBlocked why)
    end
  else ret tt.

(** ** Stage 2: the isolated checkout and the locked build *)

Definition cleanup_isolated_src (dest : Path) : Upd W unit :=
  do* exec_cmd (MakeWritable dest) in do* git (WorktreeRemove dest) in do* exec_cmd (RemoveTree dest) in ret tt.

(** The worktree, or a clone when there can be none. *)
Definition checkout_tree (dest : Path) (resolved : text) : Upd W (result unit text) :=
  let* wt := git (WorktreeAdd dest resolved) in
  match wt with
  | Ok _ => ret (Ok tt)
  | Err wt_err =>
      do* cleanup_isolated_src dest in
      let* c := run_cmd (CloneLocal dest) in
      match c with
      | Err e => ret (Err (chars "isolated checkout failed (worktree: " ++ wt_err ++ chars "; clone: " ++ e ++ chars ")"))
      | Ok _ =>
          let* k := git (CheckoutAt dest resolved) in
          ret (match k with
               | Ok _ => Ok tt
               | Err e => Err (chars "isolated clone checkout " ++ resolved ++ chars " failed: " ++ e)
               end)
      end
  end.

Definition prepare_isolated_checkout (resolved : text) : Upd W (result Path text) :=
  if negb (is_full_git_sha resolved) then ret (Err (chars "refusing isolated checkout of non-sha `" ++ resolved ++ chars "`"))
  else
    let dest := isolated_src_dir (uc_dir cfg) resolved in
    do* cleanup_isolated_src dest in
    let* made := run_ok (MakeParent dest) in
    if negb made then ret (Err (chars "mkdir isolated src parent"))
    else
      let* tree := checkout_tree dest resolved in
      match tree with
      | Err e => ret (Err e)
      | Ok _ =>
          let* got := git (HeadAt dest) in
          match got with
          | Err e => ret (Err e)
          | Ok got =>
              if negb (bool_decide (got = resolved)) then
                do* cleanup_isolated_src dest in
                ret (Err (chars "isolated HEAD " ++ got ++ chars " != requested " ++ resolved))
              else
                let* locked := run_ok (CargoLockAt dest) in
                if negb locked then do* cleanup_isolated_src dest in ret (Err (chars "isolated checkout has no Cargo.lock"))
                else
                  let* ro := run_ok (MakeReadonly dest) in
                  ret (if ro then Ok dest else Err (chars "make isolated src read-only"))
          end
      end.

(** A failed gate once the lock is held. *)
Definition refuse {A} (r : UpdateReply) : Upd W A := do* clear_lock in reply r.
Definition refuse_clean {A} (src : Path) (r : UpdateReply) : Upd W A := do* cleanup_isolated_src src in refuse r.

Definition built_path (target : Path) : Path := path_push (path_push target (chars "release")) (chars "agentd").

Definition build_stage (resolved : text) : Upd W (Path * Path) :=
  let* prepared := prepare_isolated_checkout resolved in
  match prepared with
  | Err e => refuse (CheckoutFailed e)
  | Ok src =>
      let target := isolated_target_dir (uc_target_var cfg) (uc_dir cfg) (uc_repo cfg) in
      let* made := run_ok (MakeTarget target) in
      if negb made then refuse_clean src TargetDirFailed
      else
        let env := collect_scrubbed_env (uc_env cfg) target in
        let* t := run_cmd (CargoTest src env) in
        match t with
        | Err e => refuse_clean src (TestsFailed e)
        | Ok _ =>
            let* b := run_cmd (CargoBuild src env) in
            match b with
            | Err e => refuse_clean src (BuildFailed e)
            | Ok _ =>
                let* there := run_ok (BuiltThere (built_path target)) in
                if there then ret (src, built_path target) else refuse_clean src NoBinary
            end
        end
  end.

(** ** Stage 3: the attested copy *)

Definition staged_path : Path := path_push (uc_dir cfg) (chars "agentd.staged").

Definition sha256_file (p : Path) : Upd W (result text text) :=
  let* x := exec_cmd (Sha256 p) in
  ret (match x with
       | NotRun e => Err e
       | Exited false _ e => Err e
       | Exited true o _ => match first_word o with Some h => Ok h | None => Err (chars "empty sha256sum output") end
       end).

Definition is_sha256 (h : text) : bool := (str_len h =? 64) && forallb is_ascii_hexdigit (as_bytes h).

Definition stage_binary (built : Path) : Upd W bool :=
  let* d := run_ok MakeUpdateDir in
  if negb d then ret false
  else let* c := run_ok (CopyStaged built) in if negb c then ret false else run_ok ChmodStaged.

Definition attest_and_stage (built : Path) : Upd W (result text text) :=
  let* a := sha256_file built in
  match a with
  | Err e => ret (Err e)
  | Ok sha_built =>
      if negb (is_sha256 sha_built) then ret (Err (chars "sha256 of built binary looks wrong: " ++ sha_built))
      else
        let* s := stage_binary built in
        if negb s then ret (Err (chars "stage"))
        else
          let* b := sha256_file staged_path in
          match b with
          | Err e => ret (Err e)
          | Ok sha_staged =>
              if bool_decide (sha_staged = sha_built) then ret (Ok sha_staged)
              else do* exec_cmd RemoveStaged in
                   ret (Err (chars "staged sha " ++ sha_staged ++ chars " != built sha " ++ sha_built))
          end
  end.

(** Temp file and rename: the request appears whole or not at all. *)
Definition write_request (q : SelfUpdateRequest) : Upd W bool :=
  let* d := run_ok MakeUpdateDir in
  if negb d then ret false
  else
    let* t := run_ok (WriteRequestTmp q) in
    if negb t then ret false
    else
      let* r := run_ok (RenameRequest q) in
      if r then do* set_request q in ret true else ret false.

Definition save_resume_state : Upd W unit :=
  do* exec_cmd (CallTool (chars "session_save")) in do* exec_cmd (CallTool (chars "store_intention")) in ret tt.

(** ** The run *)

(** Stage 0; the commit that will be built. *)
Definition preconditions (commit reason : text) : Upd W text :=
  if bool_decide (commit = []) || bool_decide (reason = []) then reply NeedArgs
  else
    let* flying := (fun u => (u, Go (in_flight u))) in
    if flying then reply InFlight
    else
      let* repo := run_ok RepoThere in
      if negb repo then reply NoRepo
      else
        let* st := git GitStatus in
        match st with
        | Err e => reply (StatusFailed e)
        | Ok (_ :: _ as s) => let* t := sliced (keep_tail s 1000) in reply (DirtyTree t)
        | Ok [] =>
            let* h := git GitHead in
            match h with
            | Err e => reply (HeadFailed e)
            | Ok head =>
                let* r := git (GitVerify (commit ++ chars "^{commit}")) in
                match r with
                | Err _ => reply NoSuchCommit
                | Ok resolved =>
                    if negb (bool_decide (resolved = head)) then reply (NotHead resolved head)
                    else if negb (is_full_git_sha resolved) then reply (NotSha resolved)
                    else
                      let* v := run_cmd CargoVersion in
                      match v with Err _ => reply NoCargo | Ok _ => ret resolved end
                end
            end
        end.

Definition stage_and_file (src built : Path) (resolved reason : text) : Upd W unit :=
  let* a := attest_and_stage built in
  match a with
  | Err e => refuse_clean src (AttestFailed e)
  | Ok sha =>
      do* cleanup_isolated_src src in
      do* save_resume_state in
      do* clear_lock in
      let* ok := write_request (mkRequest sha resolved (uc_build_commit cfg) (uc_now cfg) (probe_timeout (uc_timeout_var cfg)) reason) in
      reply (if ok then Filed else RequestFailed)
  end.

Definition run_update {V} `{!JsonArgs V} (args : V) : Upd W unit :=
  let commit := trim (default [] (arg_str args (chars "commit"))) in
  let reason := trim (default [] (arg_str args (chars "reason"))) in
  let dry_run := default false (arg_bool args (chars "dry_run")) in
  let* resolved := preconditions commit reason in
  do* take_lock in
  do* review_stage resolved reason in
  let* paths := build_stage resolved in
  if dry_run then refuse_clean paths.1 DryRunOk
  else stage_and_file paths.1 paths.2 resolved reason.

(** The handler's task: one call after the other, until one panics. *)
Fixpoint serve {V} `{!JsonArgs V} (calls : list V) (u : UpdateState W) : UpdateState W * list UpdateReply :=
  match calls with
  | [] => (u, [])
  | args :: calls =>
      let '(u, f) := run_update args u in
      match f with
      | Reply r => let '(u, rs) := serve calls u in (u, r :: rs)
      | _ => (u, [])
      end
  end.
End pipeline.

(** ** Reasoning about runs *)

Section reasoning.
Context {W : Type} `{!UpdateWorld W} `{!CharTables}.
Implicit Types (u : UpdateState W) (l : list Ev).

(** When the computation goes on with [a], the log grew by some [l] with [Q a l]. *)
Definition wp {A} (c : Upd W A) (Q : A -> list Ev -> Prop) : Prop :=
  forall u, match c u with
            | (u', Go a) => exists l, us_log u' = us_log u ++ l /\ Q a l
            | _ => True
            end.

Lemma wp_ret {A} (a : A) (Q : A -> list Ev -> Prop) : Q a [] -> wp (ret a) Q.
Proof. intros HQ u. exists []. by rewrite app_nil_r. Qed.

Lemma wp_reply {A} r (Q : A -> list Ev -> Prop) : wp (reply r) Q.
Proof. done. Qed.

Lemma wp_seq {A B} (c : Upd W A) (k : A -> Upd W B) Q1 Q2 :
  wp c Q1 -> (forall a l, Q1 a l -> wp (k a) (fun b l' => Q2 b (l ++ l'))) -> wp (seq c k) Q2.
Proof.
  intros Hc Hk u. unfold seq. specialize (Hc u). destruct (c u) as [u1 [a|r|]]; [|done..].
  destruct Hc as (l & E & HQ). specialize (Hk a l HQ u1). destruct (k a u1) as [u2 [b|r|]]; [|done..].
  destruct Hk as (l' & E' & HQ'). exists (l ++ l'). by rewrite E', E, app_assoc.
Qed.

Lemma wp_weaken {A} (c : Upd W A) (Q Q' : A -> list Ev -> Prop) : wp c Q -> (forall a l, Q a l -> Q' a l) -> wp c Q'.
Proof. intros Hc Hq u. specialize (Hc u). destruct (c u) as [u1 [a|r|]]; [|done..]. destruct Hc as (l & E & HQ). eauto. Qed.

Lemma wp_sliced {A} (o : option A) (Q : A -> list Ev -> Prop) : (forall a, o = Some a -> Q a []) -> wp (sliced o) Q.
Proof. intros Ho u. unfold sliced. destruct o; [|done]. exists []. rewrite app_nil_r. eauto. Qed.

Lemma wp_run c : wp (exec_cmd c) (fun x l => l = [Ran c x]).
Proof. intros u. unfold exec_cmd. destruct (answer _ c) as [w x]. by exists [Ran c x]. Qed.

Lemma wp_run_ok c : wp (run_ok c) (fun b l => exists x, l = [Ran c x] /\ b = exit_ok x).
Proof. eapply wp_seq; [apply wp_run|]. intros x l ->. apply wp_ret. exists x. by rewrite app_nil_r. Qed.

(** A command that ended well, and what it said. *)
Definition succeeded (c : Cmd) l : Prop := exists o e, Ran c (Exited true o e) ∈ l.
Definition said (c : Cmd) (s : text) l : Prop := exists o e, Ran c (Exited true o e) ∈ l /\ trim (o ++ e) = s.

Lemma said_mono c s l l' : said c s l -> l ⊆ l' -> said c s l'.
Proof. intros (o & e & Hi & Hs) Hl. exists o, e. set_solver. Qed.

Lemma wp_run_cmd c :
  wp (run_cmd c) (fun r l => exists x, l = [Ran c x] /\ forall s, r = Ok s -> exists o e, x = Exited true o e /\ s = o ++ e).
Proof.
  eapply wp_seq; [apply wp_run|]. intros x l ->. destruct x as [[|] o e|why].
  - apply wp_ret. eexists. split; [done|]. intros s [= <-]. eauto.
  - eapply wp_seq; [apply (wp_sliced _ (fun _ l => l = []))|]; [done|]. intros t l ->. apply wp_ret. eexists. by split.
  - apply wp_ret. eexists. by split.
Qed.

Lemma wp_git c : wp (git c) (fun r l => (exists x, l = [Ran c x]) /\ forall s, r = Ok s -> said c s l).
Proof.
  eapply wp_seq; [apply wp_run_cmd|]. intros r l (x & -> & Hr). apply wp_ret. rewrite app_nil_r. split; [eauto|].
  intros s Es. destruct r as [t|]; [|done]. destruct (Hr t eq_refl) as (o & e & -> & ->). injection Es as <-. exists o, e. set_solver.
Qed.

(** What no part of a gate but the build does. *)
Definition builds (ev : Ev) : bool :=
  match ev with Ran (CargoTest _ _) _ | Ran (CargoBuild _ _) _ => true | _ => false end.
Definition stages (ev : Ev) : bool := match ev with Ran (CopyStaged _) _ => true | _ => false end.
Definition calm l : Prop := Forall (fun ev => builds ev = false /\ stages ev = false) l.

Lemma calm_app l l' : calm l -> calm l' -> calm (l ++ l').
Proof. apply Forall_app_2. Qed.

(** Computations that leave the request alone. *)
Definition silent {A} (c : Upd W A) : Prop := forall u, us_request (c u).1 = us_request u.

Lemma silent_seq {A B} (c : Upd W A) (k : A -> Upd W B) : silent c -> (forall a, silent (k a)) -> silent (seq c k).
Proof.
  intros Hc Hk u. unfold seq. specialize (Hc u). destruct (c u) as [u1 [a|r|]]; cbn in *; [|done..]. rewrite <- Hc. apply Hk.
Qed.
Lemma silent_run c : silent (exec_cmd c).
Proof. intros u. unfold exec_cmd. by destruct (answer _ c). Qed.
Lemma silent_now {A} (f : UpdateState W -> Flow A) : silent (fun u => (u, f u)).
Proof. by intros u. Qed.
Lemma silent_ask user : silent (ask_reviewer user).
Proof. intros u. unfold ask_reviewer. by destruct (review _ user). Qed.

(** Computations that answer early only with the lock released, if removing the
    lock never fails. *)
Definition releases {A} (c : Upd W A) : Prop :=
  forall u, match c u with (u', Reply _) => us_lock u' = false | _ => True end.

Lemma releases_seq {A B} (c : Upd W A) (k : A -> Upd W B) : releases c -> (forall a, releases (k a)) -> releases (seq c k).
Proof.
  intros Hc Hk u. unfold seq. specialize (Hc u). destruct (c u) as [u1 [a|r|]]; [apply Hk|done..].
Qed.
Lemma releases_ret {A} (a : A) : releases (ret a).
Proof. by intros u. Qed.
Lemma releases_sliced {A} (o : option A) : releases (sliced o).
Proof. intros u. by destruct o. Qed.
Lemma releases_run c : releases (exec_cmd c).
Proof. intros u. unfold exec_cmd. by destruct (answer _ c). Qed.
Lemma releases_ask user : releases (ask_reviewer user).
Proof. intros u. unfold ask_reviewer. by destruct (review _ user). Qed.
Lemma releases_set_lock b : releases (set_lock b).
Proof. by intros u. Qed.
Lemma releases_set_request q : releases (set_request q).
Proof. by intros u. Qed.
End reasoning.

(** Both judgements go through a computation by its structure. *)
Create HintDb update.
#[export] Hint Resolve silent_run silent_ask releases_ret releases_sliced releases_run releases_ask releases_set_lock
  releases_set_request : update.
Ltac update_step :=
  first [ assumption | solve [eauto with update]
        | apply silent_seq; [|intros] | apply releases_seq; [|intros]
        | apply silent_now | progress case_match ].

Section gates.
Context {W : Type} `{!UpdateWorld W} `{!CharTables}.
Variable cfg : UpdateCfg.
Implicit Types (u : UpdateState W) (l : list Ev).

(** *** The request *)

Lemma silent_run_ok c : silent (run_ok c).
Proof. unfold run_ok. repeat update_step. Qed.
Lemma silent_run_cmd c : silent (run_cmd c).
Proof. unfold run_cmd. repeat update_step. Qed.
Lemma silent_git c : silent (git c).
Proof. pose proof (silent_run_cmd c). unfold git. repeat update_step. Qed.
Hint Resolve silent_run_ok silent_run_cmd silent_git : update.

Lemma silent_take_lock : silent take_lock.
Proof. unfold take_lock. repeat update_step. by intros u. Qed.
Lemma silent_clear_lock : silent clear_lock.
Proof. unfold clear_lock. repeat update_step. by intros u. Qed.
Hint Resolve silent_take_lock silent_clear_lock : update.
Lemma silent_cleanup dest : silent (cleanup_isolated_src dest).
Proof. unfold cleanup_isolated_src. repeat update_step. Qed.
Hint Resolve silent_cleanup : update.
Lemma silent_refuse {A} r : silent (refuse (A := A) r).
Proof. unfold refuse. repeat update_step. Qed.
Hint Resolve silent_refuse : update.
Lemma silent_refuse_clean {A} src r : silent (refuse_clean (A := A) src r).
Proof. unfold refuse_clean. repeat update_step. Qed.
Hint Resolve silent_refuse_clean : update.
Lemma silent_review resolved reason : silent (review_stage cfg resolved reason).
Proof. unfold review_stage, collect_diff, review_diff. repeat update_step. Qed.
Lemma silent_build resolved : silent (build_stage cfg resolved).
Proof. unfold build_stage, prepare_isolated_checkout, checkout_tree. repeat update_step. Qed.
Lemma silent_attest built : silent (attest_and_stage cfg built).
Proof. unfold attest_and_stage, sha256_file, stage_binary. repeat update_step. Qed.
Lemma silent_preconditions commit reason : silent (preconditions commit reason).
Proof. unfold preconditions. repeat update_step. Qed.
Lemma silent_resume : silent save_resume_state.
Proof. unfold save_resume_state. repeat update_step. Qed.
End gates.
#[export] Hint Resolve silent_run_ok silent_run_cmd silent_git silent_take_lock silent_clear_lock silent_cleanup silent_refuse
  silent_refuse_clean silent_review silent_build silent_attest silent_preconditions silent_resume : update.

Section evidence.
Context {W : Type} `{!UpdateWorld W} `{!CharTables}.
Variable cfg : UpdateCfg.
Implicit Types (u : UpdateState W) (l : list Ev).

(** A step of a straight-line computation: what the next call logs is forgotten,
    except that it is no build and no copy. *)
Definition plain (c : Cmd) : Prop := forall x, builds (Ran c x) = false /\ stages (Ran c x) = false.

Lemma calm_one c x : plain c -> calm [Ran c x].
Proof. intros Hp. constructor; [apply Hp|constructor]. Qed.

Lemma wp_plain c : plain c -> wp (W := W) (exec_cmd c) (fun _ l => calm l).
Proof. intros Hp. eapply wp_weaken; [apply wp_run|]. intros x l ->. by apply calm_one. Qed.
Lemma wp_plain_ok c : plain c -> wp (W := W) (run_ok c) (fun b l => calm l /\ (b = true -> exists o e, Ran c (Exited true o e) ∈ l)).
Proof.
  intros Hp. eapply wp_weaken; [apply wp_run_ok|]. intros b l (x & -> & ->). split; [by apply calm_one|].
  destruct x as [[|] o e|]; [|done..]. exists o, e. set_solver.
Qed.
Lemma wp_plain_git c : plain c -> wp (W := W) (git c) (fun r l => calm l /\ forall s, r = Ok s -> said c s l).
Proof. intros Hp. eapply wp_weaken; [apply wp_git|]. intros r l ((x & ->) & Hr). split; [by apply calm_one|done]. Qed.

Lemma wp_cleanup dest : wp (W := W) (cleanup_isolated_src dest) (fun _ l => calm l).
Proof.
  unfold cleanup_isolated_src. eapply wp_seq; [by apply wp_plain|]. intros ? l1 H1.
  eapply wp_seq; [by apply wp_plain_git|]. intros ? l2 [H2 _]. eapply wp_seq; [by apply wp_plain|]. intros ? l3 H3.
  apply wp_ret. rewrite app_nil_r. by repeat apply calm_app.
Qed.

Lemma wp_set_lock b : wp (W := W) (set_lock b) (fun _ l => l = []).
Proof. intros u. exists []. by rewrite app_nil_r. Qed.
Lemma wp_clear_lock : wp (W := W) clear_lock (fun _ l => calm l).
Proof.
  eapply wp_seq; [by apply wp_plain_ok|]. intros b l [Hc _]. destruct b.
  - eapply wp_weaken; [apply wp_set_lock|]. intros [] l' ->. by rewrite app_nil_r.
  - apply wp_ret. by rewrite app_nil_r.
Qed.
Lemma wp_take_lock : wp (W := W) take_lock (fun _ l => calm l).
Proof.
  eapply wp_seq; [by apply wp_plain|]. intros ? l1 H1. eapply wp_seq; [by apply wp_plain_ok|]. intros b l2 [H2 _].
  destruct b; [eapply wp_weaken; [apply wp_set_lock|]; intros [] l' ->|apply wp_ret]; rewrite app_nil_r; by apply calm_app.
Qed.
Lemma wp_resume : wp (W := W) save_resume_state (fun _ l => calm l).
Proof.
  eapply wp_seq; [by apply wp_plain|]. intros ? l1 H1. eapply wp_seq; [by apply wp_plain|]. intros ? l2 H2.
  apply wp_ret. rewrite app_nil_r. by apply calm_app.
Qed.

(** An early answer: nothing to show. *)
Lemma wp_refuse {A} r (Q : A -> list Ev -> Prop) : wp (W := W) (refuse r) Q.
Proof. eapply wp_seq; [apply wp_clear_lock|]. intros; apply wp_reply. Qed.
Lemma wp_refuse_clean {A} src r (Q : A -> list Ev -> Prop) : wp (W := W) (refuse_clean src r) Q.
Proof. eapply wp_seq; [apply wp_cleanup|]. intros; apply wp_refuse. Qed.

(** *** Stage 0 *)

Definition checked (commit resolved : text) l : Prop :=
  said GitStatus [] l /\ said GitHead resolved l /\ said (GitVerify (commit ++ chars "^{commit}")) resolved l /\
  is_full_git_sha resolved = true /\ succeeded CargoVersion l.

Lemma wp_preconditions commit reason :
  wp (W := W) (preconditions commit reason) (fun resolved l => checked commit resolved l /\ calm l).
Proof.
  unfold preconditions. destruct (_ || _); [apply wp_reply|].
  eapply (wp_seq _ _ (fun _ l => l = [])); [intros u; exists []; by rewrite app_nil_r|]. intros b l0 ->. cbn [app].
  destruct b; [apply wp_reply|]. eapply wp_seq; [by apply wp_plain_ok|]. intros b l1 [C1 _]. destruct (negb b); [apply wp_reply|].
  eapply wp_seq; [by apply wp_plain_git|]. intros r l2 [C2 S2]. destruct r as [[|c s]|e]; [|..|apply wp_reply].
  2:{ eapply wp_seq; [by apply (wp_sliced _ (fun _ _ => True))|]. intros; apply wp_reply. }
  eapply wp_seq; [by apply wp_plain_git|]. intros r l3 [C3 S3]. destruct r as [head|e]; [|apply wp_reply].
  eapply wp_seq; [by apply wp_plain_git|]. intros r l4 [C4 S4]. destruct r as [resolved|e]; [|apply wp_reply].
  case_bool_decide as Eh; cbn [negb]; [subst head|apply wp_reply]. destruct (is_full_git_sha resolved) eqn:Esha; cbn [negb]; [|apply wp_reply].
  eapply wp_seq; [apply wp_run_cmd|]. intros r l5 (x & -> & S5). destruct r as [o|e]; [|apply wp_reply].
  apply wp_ret. destruct (S5 o eq_refl) as (o' & e' & -> & ->). rewrite app_nil_r. split.
  - split_and!; [| | |done|exists o', e'; set_solver].
    + eapply said_mono; [by apply S2|set_solver].
    + eapply said_mono; [by apply S3|set_solver].
    + eapply said_mono; [by apply S4|set_solver].
  - repeat apply calm_app; try done. by apply calm_one.
Qed.

(** *** Stage 1 *)

(** The diff put before the reviewer: its first 12000 bytes, of the commits
    since the running build or, when that build is unknown to the repository,
    of the last commit alone; a diff that could not be had is its message. *)
Definition diff_of (resolved diff : text) l : Prop :=
  (exists s, said (GitDiff (uc_build_commit cfg ++ chars ".." ++ resolved)) s l /\ diff = keep_head s 12000) \/
  (exists s, said (GitShow resolved) s l /\ diff = keep_head s 12000) \/
  (exists e, diff = chars "(could not compute diff: " ++ e ++ chars ")").

Definition reviewed (resolved reason : text) l : Prop :=
  review_enabled (uc_review_var cfg) = false \/
  exists diff, diff_of resolved diff l /\
    (trim diff = [] \/
     exists t note, Asked (review_prompt resolved reason diff) (Ok t) ∈ l /\ parse_verdict t = Some (VSafe note)).

Lemma diff_of_mono resolved diff l l' : diff_of resolved diff l -> l ⊆ l' -> diff_of resolved diff l'.
Proof. intros [(s & Hs & E)|[(s & Hs & E)|He]] Hl; [left|right; left|by right; right]; exists s; split; eauto using said_mono. Qed.

Lemma wp_collect_diff resolved :
  wp (W := W) (collect_diff (uc_build_commit cfg) resolved) (fun diff l => diff_of resolved diff l /\ calm l).
Proof.
  eapply wp_seq; [by apply wp_plain_git|]. intros v l1 [C1 _].
  eapply (wp_seq _ _ (fun r l => calm l /\ match r with Ok s => diff_of resolved (keep_head s 12000) l | Err _ => True end)).
  { destruct v; (eapply wp_weaken; [by apply wp_plain_git|]; intros r l [C2 S2]; split; [done|]; destruct r as [s|]; [|done]).
    - left. eauto.
    - right; left. eauto. }
  intros r l2 [C2 S2]. apply wp_ret. rewrite app_nil_r. split; [|by apply calm_app]. destruct r as [s|e].
  - eapply diff_of_mono; [exact S2|set_solver].
  - right; right. eauto.
Qed.

Lemma wp_ask user : wp (W := W) (ask_reviewer user) (fun a l => l = [Asked user a]).
Proof. intros u. unfold ask_reviewer. destruct (review _ user) as [w s]. by eexists. Qed.

Lemma wp_review resolved reason :
  wp (W := W) (review_stage cfg resolved reason) (fun _ l => reviewed resolved reason l /\ calm l).
Proof.
  unfold review_stage, reviewed. destruct (review_enabled _); [|apply wp_ret; split; [by left|constructor]].
  eapply wp_seq; [apply wp_collect_diff|]. intros diff l1 [D1 C1]. unfold review_diff.
  case_bool_decide as Eb.
  { eapply (wp_seq _ _ (fun _ l => l = [])); [by apply wp_ret|]. intros v l2 ->. destruct v.
    - apply wp_ret. rewrite app_nil_r. split; [right; exists diff; eauto|done].
    - eapply wp_seq; [apply wp_clear_lock|]. intros; apply wp_reply. }
  eapply (wp_seq _ _ (fun v l => calm l /\ forall note, v = VSafe note ->
    exists t, Asked (review_prompt resolved reason diff) (Ok t) ∈ l /\ parse_verdict t = Some (VSafe note))).
  { eapply wp_seq; [apply wp_ask|]. intros a l ->. destruct a as [t|e].
    - apply wp_sliced. intros v Ev. rewrite app_nil_r. split; [by repeat constructor|]. intros note ->. exists t. split; [set_solver|done].
    - apply wp_ret. rewrite app_nil_r. split; [by repeat constructor|done]. }
  intros v l2 [C2 S2]. destruct v as [note|why].
  - apply wp_ret. rewrite app_nil_r. split; [|by apply calm_app]. right. exists diff. split; [eapply diff_of_mono; [exact D1|set_solver]|].
    right. destruct (S2 note eq_refl) as (t & Ht & E). exists t, note. split; [set_solver|done].
  - eapply wp_seq; [apply wp_clear_lock|]. intros; apply wp_reply.
Qed.

(** *** Stage 2 *)

Lemma wp_checkout_tree dest resolved : wp (W := W) (checkout_tree dest resolved) (fun _ l => calm l).
Proof.
  eapply wp_seq; [by apply wp_plain_git|]. intros wt l1 [C1 _]. destruct wt as [s|wt]; [apply wp_ret; by rewrite app_nil_r|].
  eapply wp_seq; [apply wp_cleanup|]. intros ? l2 C2.
  eapply wp_seq; [apply wp_run_cmd|]. intros c l3 (x & -> & _).
  assert (calm [Ran (CloneLocal dest) x]) as C3 by (by apply calm_one). destruct c as [s|e].
  - eapply wp_seq; [by apply wp_plain_git|]. intros k l4 [C4 _]. apply wp_ret. rewrite app_nil_r. by repeat apply calm_app.
  - apply wp_ret. rewrite app_nil_r. by repeat apply calm_app.
Qed.

(** The tree of exactly that commit, locked, and made read-only. *)
Definition checked_out (src : Path) (resolved : text) l : Prop :=
  said (HeadAt src) resolved l /\ succeeded (CargoLockAt src) l /\ succeeded (MakeReadonly src) l /\ calm l.

Lemma wp_prepare resolved :
  wp (W := W) (prepare_isolated_checkout cfg resolved)
    (fun r l => forall src, r = Ok src -> src = isolated_src_dir (uc_dir cfg) resolved /\ checked_out src resolved l).
Proof.
  unfold prepare_isolated_checkout. destruct (is_full_git_sha resolved); cbn [negb]; [|by apply wp_ret].
  set (dest := isolated_src_dir (uc_dir cfg) resolved). eapply wp_seq; [apply wp_cleanup|]. intros ? l1 C1.
  eapply wp_seq; [by apply wp_plain_ok|]. intros b l2 [C2 _]. destruct b; cbn [negb]; [|by apply wp_ret].
  eapply wp_seq; [apply wp_checkout_tree|]. intros tree l3 C3. destruct tree as [[]|e]; [|by apply wp_ret].
  eapply wp_seq; [by apply wp_plain_git|]. intros got l4 [C4 S4]. destruct got as [got|e]; [|by apply wp_ret].
  case_bool_decide as Eg; cbn [negb]; [subst got|eapply wp_seq; [apply wp_cleanup|]; intros; by apply wp_ret].
  eapply wp_seq; [by apply wp_plain_ok|]. intros b l5 [C5 S5].
  destruct b; cbn [negb]; [|eapply wp_seq; [apply wp_cleanup|]; intros; by apply wp_ret].
  eapply wp_seq; [by apply wp_plain_ok|]. intros b l6 [C6 S6]. destruct b; [|by apply wp_ret]. apply wp_ret.
  intros src [= <-]. rewrite app_nil_r. split; [done|]. split_and!.
  - eapply said_mono; [by apply S4|set_solver].
  - destruct S5 as (o & e & Hi); [done|]. exists o, e. set_solver.
  - destruct S6 as (o & e & Hi); [done|]. exists o, e. set_solver.
  - by repeat apply calm_app.
Qed.

(** The build: after the checkout nothing but the tests and the build of that
    tree, in the scrubbed environment, both of which succeed. *)
Definition built_from (resolved : text) l : Prop :=
  let src := isolated_src_dir (uc_dir cfg) resolved in
  let target := isolated_target_dir (uc_target_var cfg) (uc_dir cfg) (uc_repo cfg) in
  let env := collect_scrubbed_env (uc_env cfg) target in
  exists l1 x1 o2 e2 o3 e3 x4, checked_out src resolved l1 /\ exit_ok x1 = true /\ exit_ok x4 = true /\
    l = l1 ++ [Ran (MakeTarget target) x1; Ran (CargoTest src env) (Exited true o2 e2);
               Ran (CargoBuild src env) (Exited true o3 e3); Ran (BuiltThere (built_path target)) x4].

Lemma wp_build resolved :
  wp (W := W) (build_stage cfg resolved)
    (fun p l => p = (isolated_src_dir (uc_dir cfg) resolved,
                     built_path (isolated_target_dir (uc_target_var cfg) (uc_dir cfg) (uc_repo cfg))) /\ built_from resolved l).
Proof.
  eapply wp_seq; [apply wp_prepare|]. intros r l1 S1. destruct r as [src|e]; [|apply wp_refuse].
  destruct (S1 src eq_refl) as [-> Hc]. eapply wp_seq; [apply wp_run_ok|]. intros b l2 (x1 & -> & Eb).
  destruct b; cbn [negb]; [|apply wp_refuse_clean].
  eapply wp_seq; [apply wp_run_cmd|]. intros t l3 (x2 & -> & S3). destruct t as [t|e]; [|apply wp_refuse_clean].
  eapply wp_seq; [apply wp_run_cmd|]. intros b l4 (x3 & -> & S4). destruct b as [b|e]; [|apply wp_refuse_clean].
  eapply wp_seq; [apply wp_run_ok|]. intros there l5 (x4 & -> & Et). destruct there; [|apply wp_refuse_clean].
  apply wp_ret. split; [done|]. destruct (S3 t eq_refl) as (o2 & e2 & -> & _). destruct (S4 b eq_refl) as (o3 & e3 & -> & _).
  exists l1, x1, o2, e2, o3, e3, x4. split_and!; [done..|]. by rewrite app_nil_r.
Qed.

(** *** Stage 3 *)

(** The built binary hashed, copied, and the copy hashed to the same value. *)
Definition attested (built : Path) (h : text) l : Prop :=
  is_sha256 h = true /\ exists o1 e1 x2 x3 x4 o5 e5,
    l = [Ran (Sha256 built) (Exited true o1 e1); Ran MakeUpdateDir x2; Ran (CopyStaged built) x3; Ran ChmodStaged x4;
         Ran (Sha256 (staged_path cfg)) (Exited true o5 e5)] /\
    first_word o1 = Some h /\ first_word o5 = Some h /\ exit_ok x3 = true /\ exit_ok x4 = true.

Lemma wp_sha p :
  wp (W := W) (sha256_file p) (fun r l => forall h, r = Ok h -> exists o e, l = [Ran (Sha256 p) (Exited true o e)] /\ first_word o = Some h).
Proof.
  eapply wp_seq; [apply wp_run|]. intros x l ->. apply wp_ret. intros h Eh. destruct x as [[|] o e|w]; [|done..].
  destruct (first_word o) as [h'|] eqn:Ef; [|done]. injection Eh as <-. eauto.
Qed.

Lemma wp_stage_binary built :
  wp (W := W) (stage_binary built) (fun b l => b = true -> exists x2 x3 x4,
    l = [Ran MakeUpdateDir x2; Ran (CopyStaged built) x3; Ran ChmodStaged x4] /\ exit_ok x3 = true /\ exit_ok x4 = true).
Proof.
  eapply wp_seq; [apply wp_run_ok|]. intros b l2 (x2 & -> & _). destruct b; cbn [negb]; [|by apply wp_ret].
  eapply wp_seq; [apply wp_run_ok|]. intros b l3 (x3 & -> & E3). destruct b; cbn [negb]; [|by apply wp_ret].
  eapply wp_weaken; [apply wp_run_ok|]. intros b l4 (x4 & -> & ->) E4. by exists x2, x3, x4.
Qed.

Lemma wp_attest built : wp (W := W) (attest_and_stage cfg built) (fun r l => forall h, r = Ok h -> attested built h l).
Proof.
  eapply wp_seq; [apply wp_sha|]. intros a l1 S1. destruct a as [h|e]; [|by apply wp_ret].
  destruct (is_sha256 h) eqn:Eh; cbn [negb]; [|by apply wp_ret].
  eapply wp_seq; [apply wp_stage_binary|]. intros s l2 S2. destruct s; cbn [negb]; [|by apply wp_ret].
  eapply wp_seq; [apply wp_sha|]. intros b l3 S3. destruct b as [h'|e]; [|by apply wp_ret].
  case_bool_decide as E; [subst h'|eapply wp_seq; [apply wp_run|]; intros; by apply wp_ret].
  apply wp_ret. intros h' [= <-]. destruct (S1 h eq_refl) as (o1 & e1 & -> & F1).
  destruct (S2 eq_refl) as (x2 & x3 & x4 & -> & E3 & E4). destruct (S3 h eq_refl) as (o5 & e5 & -> & F5).
  split; [done|]. by exists o1, e1, x2, x3, x4, o5, e5.
Qed.
End evidence.

(** ** A swap is requested only after every gate *)

Section filed.
Context {W : Type} `{!UpdateWorld W} `{!CharTables}.
Variable cfg : UpdateCfg.
Implicit Types (u : UpdateState W) (l : list Ev).

Lemma preconditions_flying commit reason u :
  in_flight u = true -> exists r, preconditions commit reason u = (u, Reply r).
Proof. intros Hf. unfold preconditions, seq. destruct (_ || _); [by eexists|]. rewrite Hf. by eexists. Qed.

Lemma write_request_spec q u :
  exists b l, write_request q u = (mkUpdate (us_world (write_request q u).1) (us_lock u)
                                     (if b : bool then Some q else us_request u) (us_log u ++ l), Go b) /\ calm l.
Proof.
  unfold write_request, run_ok, exec_cmd, seq, set_request, ret. destruct u as [w k rq lg]. cbn.
  destruct (answer w MakeUpdateDir) as [w1 x1]. cbn. destruct (exit_ok x1); cbn.
  2:{ exists false, [Ran MakeUpdateDir x1]. split; [done|by apply calm_one]. }
  destruct (answer w1 (WriteRequestTmp q)) as [w2 x2]. cbn. destruct (exit_ok x2); cbn.
  2:{ exists false, [Ran MakeUpdateDir x1; Ran (WriteRequestTmp q) x2]. rewrite <- app_assoc. split; [done|by repeat constructor]. }
  destruct (answer w2 (RenameRequest q)) as [w3 x3]. cbn.
  exists (exit_ok x3), [Ran MakeUpdateDir x1; Ran (WriteRequestTmp q) x2; Ran (RenameRequest q) x3]. rewrite <- !app_assoc.
  split; [by destruct (exit_ok x3)|by repeat constructor].
Qed.

(** Going through a computation that leaves the request alone. *)
Lemma seq_changes {A B} (c : Upd W A) (k : A -> Upd W B) Q u u' f :
  silent c -> wp c Q -> seq c k u = (u', f) -> us_request u' <> us_request u ->
  exists a u1 l, c u = (u1, Go a) /\ us_request u1 = us_request u /\ us_log u1 = us_log u ++ l /\ Q a l /\ k a u1 = (u', f).
Proof.
  intros Hs Hw E Hr. unfold seq in E. specialize (Hs u). specialize (Hw u). destruct (c u) as [u1 [a|r|]]; cbn in *.
  - destruct Hw as (l & El & HQ). eexists a, u1, l. done.
  - injection E as <- <-. congruence.
  - injection E as <- <-. congruence.
Qed.

(** the last stage, once the binary is there. *)
Lemma stage_and_file_files src built resolved reason u u' f :
  stage_and_file cfg src built resolved reason u = (u', f) -> us_request u' <> us_request u ->
  exists h l3 l4, f = Reply Filed /\
    us_request u' = Some (mkRequest h resolved (uc_build_commit cfg) (uc_now cfg) (probe_timeout (uc_timeout_var cfg)) reason) /\
    us_log u' = us_log u ++ l3 ++ l4 /\ attested cfg built h l3 /\ calm l4.
Proof.
  intros E Hr. unfold stage_and_file in E.
  eapply seq_changes in E; [|apply silent_attest|apply wp_attest|done]. destruct E as (a & u1 & l3 & _ & R1 & L1 & HA & E).
  rewrite <- R1 in Hr. destruct a as [h|e].
  2:{ exfalso. apply Hr. change u' with (u', f).1. rewrite <- E. apply silent_refuse_clean. }
  eapply seq_changes in E; [|apply silent_cleanup|apply wp_cleanup|done]. destruct E as (a & u2 & k1 & _ & R2 & L2 & C1 & E). rewrite <- R2 in Hr.
  eapply seq_changes in E; [|apply silent_resume|apply wp_resume|done]. destruct E as (b & u3 & k2 & _ & R3 & L3 & C2 & E). rewrite <- R3 in Hr.
  eapply seq_changes in E; [|apply silent_clear_lock|apply wp_clear_lock|done]. destruct E as (c & u4 & k3 & _ & R4 & L4 & C3 & E). rewrite <- R4 in Hr.
  set (q := mkRequest _ _ _ _ _ _) in E. destruct (write_request_spec q u4) as (ok & k4 & Ew & C4).
  unfold seq in E. rewrite Ew in E. injection E as <- <-. cbn in *. destruct ok; [|done].
  exists h, l3, (k1 ++ k2 ++ k3 ++ k4). split_and!; [done|done| |by apply HA|by repeat apply calm_app].
  by rewrite L4, L3, L2, L1, <- !app_assoc.
Qed.

(** C5: A swap request is filed only after every gate, in order.  If a run changes
    the request file, then no update was in flight, the call was no dry run, and
    its log is: the preconditions (a clean tree whose HEAD is the commit asked
    for, a full sha); the review of the diff, answered SAFE (or switched off, or
    of an empty diff), with nothing built before it; the tests and the build of
    a read-only checkout of exactly that commit, in a scrubbed environment, both
    successful; the binary hashed, copied and hashed again to the same value;
    and then no further build or copy.  The request names that hash and that
    commit. *)
Theorem filed_only_after_gates {V} `{!JsonArgs V} (args : V) u u' f :
  run_update cfg args u = (u', f) -> us_request u' <> us_request u ->
  let commit := trim (default [] (arg_str args (chars "commit"))) in
  let reason := trim (default [] (arg_str args (chars "reason"))) in
  let built := built_path (isolated_target_dir (uc_target_var cfg) (uc_dir cfg) (uc_repo cfg)) in
  f = Reply Filed /\ us_request u = None /\ us_lock u = false /\ default false (arg_bool args (chars "dry_run")) = false /\
  exists resolved h l0 l1 l2 l3 l4,
    us_request u' = Some (mkRequest h resolved (uc_build_commit cfg) (uc_now cfg) (probe_timeout (uc_timeout_var cfg)) reason) /\
    us_log u' = us_log u ++ l0 ++ l1 ++ l2 ++ l3 ++ l4 /\
    checked commit resolved l0 /\ reviewed cfg resolved reason l1 /\ calm (l0 ++ l1) /\
    built_from cfg resolved l2 /\ attested cfg built h l3 /\ calm l4.
Proof.
  intros E Hr commit reason built. unfold run_update in E. fold commit reason in E.
  eapply seq_changes in E; [|apply silent_preconditions|apply wp_preconditions|done]. destruct E as (resolved & u1 & l0 & E1 & R1 & L1 & [K C0] & E).
  assert (in_flight u = false) as Hf.
  { destruct (in_flight u) eqn:Hf; [|done]. destruct (preconditions_flying commit reason u Hf) as [r E0]. congruence. }
  apply orb_false_iff in Hf as [Hq Hk]. rewrite <- R1 in Hr.
  eapply seq_changes in E; [|apply silent_take_lock|apply wp_take_lock|done]. destruct E as (a & u2 & k & _ & R2 & L2 & Ck & E). rewrite <- R2 in Hr.
  eapply seq_changes in E; [|apply silent_review|apply wp_review|done]. destruct E as (b & u3 & l1 & _ & R3 & L3 & [Rv C1] & E). rewrite <- R3 in Hr.
  eapply seq_changes in E; [|apply silent_build|apply wp_build|done]. destruct E as (p & u4 & l2 & _ & R4 & L4 & [-> B] & E). rewrite <- R4 in Hr.
  destruct (default false (arg_bool args (chars "dry_run"))).
  { exfalso. apply Hr. change u' with (u', f).1. rewrite <- E. apply silent_refuse_clean. }
  apply stage_and_file_files in E as (h & l3 & l4 & -> & Eq & L5 & A & C4); [|done].
  split_and!; [done|by destruct (us_request u)|done|done|].
  exists resolved, h, (l0 ++ k), l1, l2, l3, l4. split_and!; try done.
  - by rewrite L5, L4, L3, L2, L1, <- !app_assoc.
  - destruct K as (K1 & K2 & K3 & K4 & (o & e & K5)). split_and!; [eapply said_mono; [done|set_solver]..|done|exists o, e; set_solver].
  - repeat apply calm_app; done.
Qed.
End filed.

(** ** A refusal leaves nothing behind *)

#[export] Instance SelfUpdateRequest_eq_dec : EqDecision SelfUpdateRequest.
Proof. solve_decision. Defined.

Section refused.
Context {W : Type} `{!UpdateWorld W} `{!CharTables}.
Variable cfg : UpdateCfg.
Implicit Types (u : UpdateState W).

(** Either the request is untouched or the answer is that it was filed. *)
Definition files_only {A} (c : Upd W A) : Prop := forall u, us_request (c u).1 = us_request u \/ (c u).2 = Reply Filed.

Lemma files_only_silent {A} (c : Upd W A) : silent c -> files_only c.
Proof. intros Hs u. left. apply Hs. Qed.

Lemma files_only_seq {A B} (c : Upd W A) (k : A -> Upd W B) : silent c -> (forall a, files_only (k a)) -> files_only (seq c k).
Proof.
  intros Hs Hk u. unfold seq. specialize (Hs u). destruct (c u) as [u1 [a|r|]]; cbn in *; [|by left..].
  rewrite <- Hs. apply Hk.
Qed.

Lemma files_only_stage src built resolved reason : files_only (stage_and_file cfg src built resolved reason).
Proof.
  intros u. destruct (decide (us_request (stage_and_file cfg src built resolved reason u).1 = us_request u)) as [E|E]; [by left|right].
  destruct (stage_and_file cfg src built resolved reason u) as [u' f] eqn:Es. apply stage_and_file_files in Es; [|done].
  by destruct Es as (? & ? & ? & -> & _).
Qed.

Lemma files_only_update {V} `{!JsonArgs V} (args : V) : files_only (run_update cfg args).
Proof.
  unfold run_update. repeat (apply files_only_seq; [eauto with update|intros]). case_match.
  - apply files_only_silent. eauto with update.
  - apply files_only_stage.
Qed.

(** Stage 0 does not touch the lock. *)
Definition lock_kept {A} (c : Upd W A) : Prop := forall u, us_lock (c u).1 = us_lock u.
Lemma lock_kept_seq {A B} (c : Upd W A) (k : A -> Upd W B) : lock_kept c -> (forall a, lock_kept (k a)) -> lock_kept (seq c k).
Proof.
  intros Hc Hk u. unfold seq. specialize (Hc u). destruct (c u) as [u1 [a|r|]]; cbn in *; [|done..]. rewrite <- Hc. apply Hk.
Qed.
Lemma lock_kept_now {A} (f : UpdateState W -> Flow A) : lock_kept (fun u => (u, f u)).
Proof. by intros u. Qed.
Lemma lock_kept_run c : lock_kept (exec_cmd c).
Proof. intros u. unfold exec_cmd. by destruct (answer _ c). Qed.
Ltac kept_step := first [apply lock_kept_run | apply lock_kept_seq; [|intros] | apply lock_kept_now | progress case_match].
Lemma lock_kept_preconditions commit reason : lock_kept (preconditions commit reason).
Proof. unfold preconditions, git, run_cmd, run_ok. repeat kept_step. Qed.

Hypothesis removable : forall w : W, exit_ok (answer w RemoveLock).2 = true.

Lemma clear_lock_clears u : us_lock (clear_lock u).1 = false /\ (clear_lock u).2 = Go tt.
Proof.
  unfold clear_lock, run_ok, exec_cmd, seq, set_lock, ret. specialize (removable (us_world u)).
  destruct (answer (us_world u) RemoveLock) as [w x]. cbn in *. by rewrite removable.
Qed.

Lemma releases_refuse {A} r : releases (refuse (A := A) r).
Proof.
  intros u. unfold refuse, seq. destruct (clear_lock_clears u) as [Hk Hg]. destruct (clear_lock u) as [u1 f]. cbn in *. by subst f.
Qed.
Lemma releases_run_ok c : releases (run_ok (W := W) c).
Proof. unfold run_ok. repeat update_step. Qed.
Lemma releases_run_cmd c : releases (run_cmd (W := W) c).
Proof. unfold run_cmd. repeat update_step. Qed.
Hint Resolve releases_run_ok releases_run_cmd releases_refuse : update.
Lemma releases_git c : releases (git (W := W) c).
Proof. unfold git. repeat update_step. Qed.
Hint Resolve releases_git : update.
Lemma releases_cleanup dest : releases (cleanup_isolated_src (W := W) dest).
Proof. unfold cleanup_isolated_src. repeat update_step. Qed.
Hint Resolve releases_cleanup : update.
Lemma releases_refuse_clean {A} src r : releases (refuse_clean (A := A) src r).
Proof. unfold refuse_clean. repeat update_step. Qed.
Hint Resolve releases_refuse_clean : update.

Lemma releases_review resolved reason : releases (review_stage cfg resolved reason).
Proof. unfold review_stage, collect_diff, review_diff. repeat update_step; apply releases_refuse. Qed.
Lemma releases_build resolved : releases (build_stage cfg resolved).
Proof. unfold build_stage, prepare_isolated_checkout, checkout_tree. repeat update_step. Qed.

Lemma releases_file q : releases (let* ok := (do* clear_lock in write_request q) in reply (A := unit) (if ok : bool then Filed else RequestFailed)).
Proof.
  intros u. unfold seq. destruct (clear_lock_clears u) as [Hk Hg]. destruct (clear_lock u) as [u1 f]. cbn in *. subst f.
  destruct (write_request_spec q u1) as (b & l & E & _). rewrite E. cbn. exact Hk.
Qed.

Lemma releases_stage src built resolved reason : releases (stage_and_file cfg src built resolved reason).
Proof.
  unfold stage_and_file, attest_and_stage, sha256_file, stage_binary.
  apply releases_seq; [by repeat update_step|]. intros [h|e]; [|apply releases_refuse_clean].
  apply releases_seq; [apply releases_cleanup|]. intros ?.
  apply releases_seq; [unfold save_resume_state; repeat update_step|]. intros ? u. set (q := mkRequest _ _ _ _ _ _).
  pose proof (releases_file q u) as Hf. revert Hf. unfold seq. by destruct (clear_lock u) as [u1 [?|?|]].
Qed.

(** C35: A run that answers anything but [Filed] leaves the request file as it was,
    and, where a file can be removed, no run that answers leaves the build lock
    behind. *)
Theorem refused_update_leaves_nothing {V} `{!JsonArgs V} (args : V) u u' r :
  us_lock u = false -> run_update cfg args u = (u', Reply r) ->
  us_lock u' = false /\ (r <> Filed -> us_request u' = us_request u).
Proof.
  intros Hk E. split.
  - unfold run_update, seq at 1 in E. pose proof (lock_kept_preconditions
      (trim (default [] (arg_str args (chars "commit")))) (trim (default [] (arg_str args (chars "reason")))) u) as Hp.
    destruct (preconditions _ _ u) as [u1 [resolved|r1|]]; cbn in Hp; [|injection E as <- _; congruence|done].
    set (rest := seq take_lock _) in E. assert (releases rest) as Hr.
    { unfold rest, take_lock. apply releases_seq; [repeat update_step|]. intros _.
      apply releases_seq; [apply releases_review|]. intros _. apply releases_seq; [apply releases_build|]. intros p.
      case_match; [apply releases_refuse_clean|apply releases_stage]. }
    specialize (Hr u1). by rewrite E in Hr.
  - intros Hne. pose proof (files_only_update args u) as [Hs|Hs]; rewrite E in Hs; [done|]. cbn in Hs. congruence.
Qed.
End refused.

(** ** What nobody removes *)

(** A lock left behind, by a crash or a panic during a build, refuses every later
    update: nothing but the end of a run removes it. *)
Lemma stale_lock_refuses {W} `{!UpdateWorld W} `{!CharTables} {V} `{!JsonArgs V} cfg (calls : list V) (u : UpdateState W) :
  us_lock u = true ->
  exists rs, serve cfg calls u = (u, rs) /\ Forall (fun r => r = InFlight \/ r = NeedArgs) rs.
Proof.
  intros Hk. induction calls as [|args calls (rs & E & Hr)]; [by exists []|]. cbn [serve].
  unfold run_update, seq at 1, preconditions, seq at 1.
  set (commit := trim _). set (reason := trim _). destruct (_ || _); [|cbn; unfold in_flight; rewrite Hk, orb_true_r];
    cbn; rewrite E; eexists; (split; [done|]); constructor; eauto.
Qed.

(** ** Concrete runs *)

#[local] Instance ascii_tables : CharTables := {|
  char_upper c := [if (97 <=? c) && (c <=? 122) then c - 32 else c];
  char_alphabetic c := ((65 <=? c) && (c <=? 90)) || ((97 <=? c) && (c <=? 122)) |}.
Lemma ascii_tables_laws : CharTablesLaws.
Proof. by split. Qed.

(** The reviewer's last line is a BLOCK in bold; the line above it mentions the
    other verdict, and the update is taken for safe. *)
Example bold_block_reads_safe :
  parse_verdict (chars "It cannot be VERDICT: SAFE as it stands." ++ [10] ++ chars "VERDICT: **BLOCK** the marker is never written")
  = Some (VSafe (chars "SAFE as it stands.")).
Proof. vm_compute. reflexivity. Qed.

Example safety_is_not_safe :
  parse_verdict (chars "VERDICT: SAFETY of rollback is gone, so BLOCK") = Some (VSafe (chars "SAFETY of rollback is gone, so BLOCK")).
Proof. vm_compute. reflexivity. Qed.

(** A node whose git, cargo and reviewer answer well; [test_out] is what a
    failing test run prints, if it fails. *)
Definition node_sha : text := replicate 40 97.
Definition node_hash : text := replicate 64 98.
Record BuildNode := mkBuildNode { node_tests : option text }.
#[local] Instance node_update : UpdateWorld BuildNode := {|
  answer w c := (w, match c with
                    | GitHead | GitVerify _ | HeadAt _ => Exited true node_sha []
                    | GitDiff _ => Exited true (chars "+ a line") []
                    | Sha256 _ => Exited true (node_hash ++ chars "  agentd") []
                    | CargoTest _ _ => match node_tests w with Some out => Exited false out [] | None => Exited true [] [] end
                    | _ => Exited true [] []
                    end);
  review w _ := (w, Ok [CTextDelta (chars "Fine."); CTextDelta (10 :: chars "VERDICT: SAFE"); CDone]) |}.

Record CallArgs := mkCallArgs { ta_commit : text; ta_reason : text }.
#[local] Instance call_args : JsonArgs (text + CallArgs) := {|
  json_get v k := match v with
                  | inr a => if bool_decide (k = chars "commit") then Some (inl (ta_commit a))
                             else if bool_decide (k = chars "reason") then Some (inl (ta_reason a)) else None
                  | inl _ => None
                  end;
  json_as_str v := match v with inl t => Some t | _ => None end;
  json_as_bool _ := None; json_is_object _ := false; json_remove v _ := v; json_insert v _ _ := v; json_bool _ := inl [] |}.

Definition node_cfg : UpdateCfg :=
  mkCfg (path_new (chars "/r/repo")) (path_new (chars "/r/update")) None None (fun _ => None) (chars "old") 7 None.
Definition node_call : text + CallArgs := inr (mkCallArgs (chars "HEAD") (chars "fix")).
Definition node_state (tests : option text) : UpdateState BuildNode := mkUpdate (mkBuildNode tests) false None [].

Lemma filed_only_after_gates_witness :
  exists h, us_request (run_update node_cfg node_call (node_state None)).1
            = Some (mkRequest h node_sha (chars "old") 7 120 (chars "fix")).
Proof.
  destruct (run_update node_cfg node_call (node_state None)) as [u' f] eqn:E.
  destruct (filed_only_after_gates node_cfg node_call (node_state None) u' f E) as (_ & _ & _ & _ & resolved & h & H).
  - vm_compute in E. injection E as <- _. discriminate.
  - exists h. destruct H as (l0 & l1 & l2 & l3 & l4 & Hq & _).
    assert (us_request u' = Some (mkRequest node_hash node_sha (chars "old") 7 120 (chars "fix"))) as Hc.
    { vm_compute in E. injection E as <- _. vm_compute. reflexivity. }
    cbn [fst]. rewrite Hc in Hq |- *. apply (f_equal (fmap rq_staged_sha256)) in Hq. injection Hq as <-. reflexivity.
Defined.

Lemma refused_update_leaves_nothing_witness :
  us_request (run_update node_cfg node_call (node_state (Some (chars "1 test failed")))).1 = None.
Proof.
  destruct (run_update node_cfg node_call (node_state (Some (chars "1 test failed")))) as [u' f] eqn:E.
  assert (f = Reply (TestsFailed (chars "1 test failed" ++ [10]))) as ->.
  { vm_compute in E. injection E as _ <-. vm_compute. reflexivity. }
  assert (forall w : BuildNode, exit_ok (answer w RemoveLock).2 = true) as Hrm by (intros w; reflexivity).
  destruct (refused_update_leaves_nothing node_cfg Hrm node_call (node_state (Some (chars "1 test failed"))) u' _ eq_refl E) as [_ Hs].
  cbn [fst]. rewrite Hs; [reflexivity|discriminate].
Defined.

(** The tests fail and print more than the tail keeps, in characters of three
    bytes: the cut falls inside one, the handler's task panics, the lock stays,
    and the calls behind it are never answered. *)
Definition wide_output : text := replicate 2000 8212 ++ [97].
Example failing_tests_end_the_handler :
  let s := serve node_cfg [node_call; node_call] (node_state (Some wide_output)) in (us_lock s.1, s.2) = (true, []).
Proof. vm_compute. reflexivity. Qed.
