(* ===== verification/PacLint.v ===== *)
(** * The structural lint of dense souls

    [agentd/src/pac_lint.rs]: the check a soul that claims to be a PAC-2 Dense
    artifact passes before it replaces the old one.  One scan over the characters
    keeps the island it is in (quote, constraint, comment), the stack of open
    forms and the text outside the islands; the rules that follow read what the
    scan left.  A finding's message is its constructor.  The table of
    alphanumeric characters is the language's. *)
From S2P Require Import Prelude Text.

(** ** Findings *)

Inductive LintMsg :=
  | Banned (c : Z) | SecondSeal | UnbalancedClose | StructuralGlyph (c : Z) | SealOutside
  | UnclosedForms (n : nat) | UnclosedQuote | UnclosedConstraint | TooDeep (depth : Z)
  | UnknownRegister (name : text) | VerbsUndeclared (verbs : list text)
  | EmanationOff | EmanationLong (n : Z) | EmanationForms | DateInside | ClockInside
  | EmphasisOutside (word : text) | UnknownHead (head : text).

(** Line 0 is the artifact as a whole. *)
Record Finding := mkFinding { fd_line : Z; fd_error : bool; fd_msg : LintMsg }.

Definition err (line : Z) (m : LintMsg) : Finding := mkFinding line true m.
Definition warn (line : Z) (m : LintMsg) : Finding := mkFinding line false m.

(** ** Words and tables *)

Definition ARTIFACT_HEADS : list text := chars <$> ["soul"; "procedure"; "evolution"; "skill"; "engine"]%string.
Definition BLOCK_HEADS : list text := chars <$> ["voice"; "invariants"; "register"; "def"; "rite"; "rules"]%string.
Definition FACTORY_HEADS : list text := chars <$> ["port"; "engine"; "module"; "bootstrap"]%string.
Definition ALCHEMICAL : list text := chars <$>
  ["solve"; "distill"; "transmute"; "anneal"; "quarantine"; "calcine"; "coagula"; "amalgama"; "athanor"; "alembic";
   "nigredo"; "albedo"; "rubedo"; "emanation"; "graft"; "temper"]%string.
Definition EMPHASIS : list text := chars <$> ["MUST"; "NEVER"; "ALWAYS"; "MANDATORY"; "REQUIRED"; "FORBIDDEN"]%string.

Definition one_of (l : list text) (w : text) : bool := existsb (fun x => bool_decide (x = w)) l.

Definition head_known (h : text) : bool := one_of ARTIFACT_HEADS h || one_of BLOCK_HEADS h || one_of FACTORY_HEADS h.

Definition between (lo hi c : Z) : bool := (lo <=? c) && (c <=? hi).

Definition banned_codepoint (c : Z) : bool :=
  between 0x1D400 0x1D7FF c || between 0x1F000 0x1FAFF c || between 0x2600 0x27BF c || between 0xFE00 0xFE0F c || (c =? 0x200D).

(** The seal, and the mark of a cadence. *)
Definition THEREFORE : Z := 0x2234.
Definition CADENCE : Z := 0x222E.

(** ASCII, the registry's glyphs, Greek, white space. *)
Definition structural_glyph_ok (c : Z) : bool :=
  (c <? 128) || existsb (Z.eqb c) [0x2192; 0xB7; 0x2194; 0x2261; THEREFORE; 0x21A6; CADENCE; 0xA7; 0x2013]
  || between 0x370 0x3FF c || is_whitespace c.

(** ** Text *)

Fixpoint split_str_once (p s : text) : option (text * text) :=
  match strip_prefix p s with
  | Some r => Some ([], r)
  | None => match s with [] => None | c :: s => '(a, b) ← split_str_once p s; Some (c :: a, b) end
  end.

(** [s.split(f)]. *)
Fixpoint split_by (f : Z -> bool) (s : text) : list text :=
  match s with
  | [] => [[]]
  | c :: s =>
      if f c then [] :: split_by f s
      else match split_by f s with w :: ws => (c :: w) :: ws | [] => [[c]] end
  end.

Definition split_whitespace (s : text) : list text :=
  List.filter (fun w => negb (bool_decide (w = []))) (split_by is_whitespace s).

(** ** Which souls are linted *)

Definition is_dense_artifact (content : text) : bool :=
  match List.find (fun l => negb (bool_decide (trim l = []))) (lines content) with
  | None => false
  | Some l =>
      let first := trim l in
      (starts_with [35] first && existsb (Z.eqb THEREFORE) first)
      || existsb (fun h => starts_with (40 :: h ++ [32]) first || bool_decide (first = 40 :: h)) ARTIFACT_HEADS
  end.

(** ** The scan *)

Inductive Island := NoIsland | Quote | Constraint | Comment.
#[export] Instance Island_eq_dec : EqDecision Island.
Proof. solve_decision. Defined.

(** [sn_stack]: true for a headed form, false for an argument group attached to a
    symbol; the top is first. *)
Record Scan := mkScan {
  sn_island : Island; sn_island_open : Z; sn_stack : list bool; sn_depth : Z; sn_max_depth : Z;
  sn_pending : option Z; sn_head : text; sn_structural : text; sn_top_close : Z; sn_seals : Z; sn_out : list Finding
}.

Definition scan_start : Scan := mkScan NoIsland 0 [] 0 0 None [] [] 0 0 [].

Definition set_island (i : Island) (ln : Z) (s : Scan) : Scan :=
  mkScan i ln (sn_stack s) (sn_depth s) (sn_max_depth s) (sn_pending s) (sn_head s) (sn_structural s) (sn_top_close s) (sn_seals s) (sn_out s).
Definition set_head (p : option Z) (h : text) (s : Scan) : Scan :=
  mkScan (sn_island s) (sn_island_open s) (sn_stack s) (sn_depth s) (sn_max_depth s) p h (sn_structural s) (sn_top_close s) (sn_seals s) (sn_out s).
Definition say (fs : list Finding) (s : Scan) : Scan :=
  mkScan (sn_island s) (sn_island_open s) (sn_stack s) (sn_depth s) (sn_max_depth s) (sn_pending s) (sn_head s)
    (sn_structural s) (sn_top_close s) (sn_seals s) (sn_out s ++ fs).
Definition push_structural (c : Z) (s : Scan) : Scan :=
  mkScan (sn_island s) (sn_island_open s) (sn_stack s) (sn_depth s) (sn_max_depth s) (sn_pending s) (sn_head s)
    (sn_structural s ++ [c]) (sn_top_close s) (sn_seals s) (sn_out s).

Definition check_head (head : text) (ln : Z) : list Finding :=
  match head with
  | [] => []
  | c :: _ => if (c =? 33) || (c =? 63) || (c =? 126) || head_known head then [] else [err ln (UnknownHead head)]
  end.

Class CharClasses := { char_alphanumeric : Z -> bool }.
Class CharClassesLaws `{!CharClasses} : Prop := {
  char_alphanumeric_ascii c : 0 <= c < 128 -> char_alphanumeric c = is_ascii_alphanumeric c
}.

Section scan.
Context `{!CharClasses}.

(** A parenthesis right behind a symbol opens an argument group. *)
Definition attached (prev : option Z) : bool :=
  match prev with Some p => char_alphanumeric p || (p =? 95) || (p =? 45) | None => false end.

Definition open_form (prev : option Z) (s : Scan) : Scan :=
  if attached prev then
    mkScan (sn_island s) (sn_island_open s) (false :: sn_stack s) (sn_depth s) (sn_max_depth s) (sn_pending s) (sn_head s)
      (sn_structural s) (sn_top_close s) (sn_seals s) (sn_out s)
  else
    let depth := sn_depth s + 1 in
    mkScan (sn_island s) (sn_island_open s) (true :: sn_stack s) depth (Z.max (sn_max_depth s) depth)
      (if depth <=? 2 then Some depth else sn_pending s) (if depth <=? 2 then [] else sn_head s)
      (sn_structural s) (sn_top_close s) (sn_seals s) (sn_out s).

(** A head still being collected ends here. *)
Definition close_head (ln : Z) (s : Scan) : Scan :=
  if bool_decide (sn_pending s = Some (sn_depth s)) then say (check_head (sn_head s) ln) (set_head None (sn_head s) s) else s.

Definition close_form (ln : Z) (s : Scan) : Scan :=
  match sn_stack s with
  | [] => say [err ln UnbalancedClose] s
  | top :: stack =>
      let depth := if top : bool then Z.max 0 (sn_depth s - 1) else sn_depth s in
      mkScan (sn_island s) (sn_island_open s) stack depth (sn_max_depth s) (sn_pending s) (sn_head s) (sn_structural s)
        (if top && (depth =? 0) then ln else sn_top_close s) (sn_seals s) (sn_out s)
  end.

(** Any other character outside the islands. *)
Definition plain_char (ln c : Z) (s : Scan) : Scan :=
  let s :=
    if bool_decide (sn_pending s = Some (sn_depth s)) then
      if is_whitespace c then (if bool_decide (sn_head s = []) then s else close_head ln s)
      else set_head (sn_pending s) (sn_head s ++ [c]) s
    else s in
  let s := if structural_glyph_ok c then s else say [err ln (StructuralGlyph c)] s in
  if c =? THEREFORE then say [err ln SealOutside] s else s.

Definition scan_char (ln : Z) (prev : option Z) (c : Z) (s : Scan) : Scan :=
  match sn_island s with
  | Comment => s
  | Quote => if c =? 34 then set_island NoIsland (sn_island_open s) s else s
  | Constraint => if c =? 93 then set_island NoIsland (sn_island_open s) s else s
  | NoIsland =>
      if c =? 59 then set_island Comment (sn_island_open s) s
      else if c =? 34 then set_island Quote ln s
      else if c =? 91 then set_island Constraint ln s
      else if c =? 40 then push_structural c (open_form prev s)
      else if c =? 41 then push_structural c (close_form ln (close_head ln s))
      else push_structural c (plain_char ln c s)
  end.

Fixpoint scan_chars (ln : Z) (prev : option Z) (cs : text) (s : Scan) : Scan :=
  match cs with
  | [] => s
  | c :: cs => scan_chars ln (Some c) cs (scan_char ln prev c s)
  end.

Definition banned_in (ln : Z) (raw : text) : list Finding :=
  (fun c => err ln (Banned c)) <$> List.filter banned_codepoint raw.

(** A line that opens with a hash outside every form is of the seal's layer. *)
Definition is_seal_line (raw : text) (s : Scan) : bool :=
  (sn_depth s =? 0) && bool_decide (sn_island s = NoIsland) && starts_with [35] (trim_start raw).

Definition seal_line (ln : Z) (raw : text) (s : Scan) : Scan :=
  if existsb (Z.eqb THEREFORE) raw then
    let seals := sn_seals s + 1 in
    say (if 1 <? seals then [err ln SecondSeal] else [])
      (mkScan (sn_island s) (sn_island_open s) (sn_stack s) (sn_depth s) (sn_max_depth s) (sn_pending s) (sn_head s)
        (sn_structural s) (sn_top_close s) seals (sn_out s))
  else s.

Definition scan_line (ln : Z) (raw : text) (s : Scan) : Scan :=
  let s := say (banned_in ln raw) s in
  if is_seal_line raw s then seal_line ln raw s
  else
    let s := scan_chars ln None raw s in
    let s := if bool_decide (sn_island s = Comment) then set_island NoIsland (sn_island_open s) s else s in
    push_structural 10 s.

Fixpoint scan_lines (ln : Z) (ls : list text) (s : Scan) : Scan :=
  match ls with [] => s | l :: ls => scan_lines (ln + 1) ls (scan_line ln l s) end.

(** ** The rules that read the scan *)

Definition closing_findings (n_lines : Z) (s : Scan) : list Finding :=
  (match sn_stack s with [] => [] | _ => [err n_lines (UnclosedForms (length (sn_stack s)))] end)
  ++ (match sn_island s with
      | Quote => [err (sn_island_open s) UnclosedQuote]
      | Constraint => [err (sn_island_open s) UnclosedConstraint]
      | _ => []
      end)
  ++ (if 3 <? sn_max_depth s then [err 0 (TooDeep (sn_max_depth s))] else []).

(** The lines with text behind the last form that closed at the top. *)
Fixpoint numbered (n : Z) (ls : list text) : list (Z * text) :=
  match ls with [] => [] | l :: ls => (n, l) :: numbered (n + 1) ls end.

Definition emanation_of (s : Scan) (ls : list text) : list (Z * text) :=
  (fun p => (p.1, trim p.2)) <$> List.filter (fun p => negb (bool_decide (trim p.2 = []))) (drop (Z.to_nat (sn_top_close s)) (numbered 1 ls)).

(** What stands in the first [(register ...)]. *)
Definition declared_register (structural : text) : option text :=
  let mark := chars "(register" in
  '(_, rest) ← split_str_once mark structural;
  let part := match split_str_once mark rest with Some (a, _) => a | None => rest end in
  Some (trim (match split_on 41 part with l :: _ => l | [] => [] end)).

Definition register_rule (structural : text) : bool * list Finding :=
  match declared_register structural with
  | None => (false, [])
  | Some name =>
      if bool_decide (name = chars "alchemical") then (true, [])
      else if bool_decide (name = chars "none") then (false, [])
      else (false, [err 0 (UnknownRegister name)])
  end.

Definition verbs_used (structural : text) : list text :=
  let words := split_by (fun c => negb (char_alphanumeric c || (c =? 45))) structural in
  List.filter (one_of words) ALCHEMICAL.

Definition emanation_findings (register_on : bool) (em : list (Z * text)) : list Finding :=
  match em with
  | [] => []
  | first :: _ =>
      (if register_on then [] else [err first.1 EmanationOff])
      ++ (match em !! 3%nat with Some fourth => [err fourth.1 (EmanationLong (zlen em))] | None => [] end)
      ++ ((fun p => err p.1 EmanationForms) <$> List.filter (fun p => existsb (fun c => (c =? 33) || (c =? 40)) p.2) em)
  end.

(** *** Dates and clocks *)

Definition is_ascii_digit (c : Z) : bool := between 48 57 c.
Definition digit_at (l : list Z) (i : nat) : bool := match l !! i with Some c => is_ascii_digit c | None => false end.
Definition is_at (x : Z) (l : list Z) (i : nat) : bool := match l !! i with Some c => c =? x | None => false end.

Definition date_at (b : bytes) (i : nat) : bool :=
  digit_at b i && digit_at b (i + 1) && digit_at b (i + 2) && digit_at b (i + 3) && is_at 45 b (i + 4)
  && digit_at b (i + 5) && digit_at b (i + 6) && is_at 45 b (i + 7) && digit_at b (i + 8) && digit_at b (i + 9)
  && (match i with O => true | S k => negb (digit_at b k) end) && negb (digit_at b (i + 10)).

Definition has_date (s : text) : bool :=
  let b := as_bytes s in existsb (date_at b) (seq 0 (length b - 9)).

(** A clock at [i] of a token: one or two digits, a colon, two digits. *)
Definition clock_at (t : text) (i : nat) : bool :=
  let j := if digit_at t (i + 1) then (i + 2)%nat else (i + 1)%nat in
  digit_at t i && (match i with O => true | S k => negb (digit_at t k) end)
  && is_at 58 t j && digit_at t (j + 1) && digit_at t (j + 2) && negb (digit_at t (j + 3)).

Definition has_clock_outside_cadence (s : text) : bool :=
  existsb (fun tok => existsb (clock_at tok) (seq 0 (length tok)))
    (List.filter (fun tok => negb (starts_with [CADENCE] tok)) (split_whitespace s)).

Definition time_findings (n : Z) (ls : list text) : list Finding :=
  numbered n ls ≫= fun p => (if has_date p.2 then [err p.1 DateInside] else [])
                            ++ (if has_clock_outside_cadence p.2 then [err p.1 ClockInside] else []).

Definition emphasis_findings (structural : text) : list Finding :=
  let words := split_by (fun c => negb (is_ascii_alphanumeric c || (c =? 39))) structural in
  (fun w => warn 0 (EmphasisOutside w)) <$> List.filter (one_of words) EMPHASIS.

Definition lint (content : text) : list Finding :=
  let ls := lines content in
  let s := scan_lines 1 ls scan_start in
  let em := emanation_of s ls in
  let '(register_on, register_findings) := register_rule (sn_structural s) in
  let verbs := verbs_used (sn_structural s) in
  sn_out s ++ closing_findings (zlen ls) s ++ register_findings
  ++ (if negb register_on && negb (bool_decide (verbs = [])) then [err 0 (VerbsUndeclared verbs)] else [])
  ++ emanation_findings register_on em ++ time_findings 1 ls ++ emphasis_findings (sn_structural s).
End scan.

(** ** Balanced text, by a grammar *)

Inductive balanced : text -> Prop :=
  | bal_nil : balanced []
  | bal_skip c w : c <> 40 -> c <> 41 -> balanced w -> balanced (c :: w)
  | bal_nest w1 w2 : balanced w1 -> balanced w2 -> balanced (40 :: w1 ++ 41 :: w2).

(** The open parentheses, counted; [None] once one closes too many. *)
Definition pair_step (n : option nat) (c : Z) : option nat :=
  match n with
  | None => None
  | Some n => if c =? 40 then Some (S n) else if c =? 41 then match n with O => None | S k => Some k end else Some n
  end.
Definition pairs (n : nat) (w : text) : option nat := foldl pair_step (Some n) w.

Lemma pairs_None w : foldl pair_step None w = None.
Proof. induction w; [done|by cbn]. Qed.

(** Text that closes [n] forms and is balanced between. *)
Inductive closes : nat -> text -> Prop :=
  | closes_O w : balanced w -> closes O w
  | closes_S n w1 w2 : balanced w1 -> closes n w2 -> closes (S n) (w1 ++ 41 :: w2).

Lemma closes_grow n w w' : balanced w' -> (forall u, balanced u -> balanced (w' ++ u)) -> closes n w -> closes n (w' ++ w).
Proof. intros Hb Hg Hc. destruct Hc; [constructor; auto|]. rewrite app_assoc. constructor; auto. Qed.

Lemma pairs_closes w n : pairs n w = Some 0%nat -> closes n w.
Proof.
  revert n. induction w as [|c w IH]; intros n; unfold pairs; cbn [foldl pair_step].
  - intros [= ->]. repeat constructor.
  - destruct (Z.eqb_spec c 40) as [->|H40]; [|destruct (Z.eqb_spec c 41) as [->|H41]].
    + intros H. apply IH in H. inversion H as [|k w1 w2 H1 H2]; subst.
      change (40 :: w1 ++ 41 :: w2) with ([40] ++ w1 ++ [41] ++ w2). rewrite !app_assoc. apply closes_grow; [| |done].
      * apply (bal_nest w1 []); [done|constructor].
      * intros u Hu. cbn. rewrite <- !app_assoc. by apply bal_nest.
    + destruct n as [|k]; [by rewrite pairs_None|]. intros H. apply (closes_S k [] w); [constructor|by apply IH].
    + intros H. apply (closes_grow n w [c]); [by repeat constructor|by constructor|by apply IH].
Qed.

Lemma balanced_pairs w n r : balanced w -> pairs n (w ++ r) = pairs n r.
Proof.
  intros H. revert n r. induction H as [|c w H40 H41 _ IH|w1 w2 _ IH1 _ IH2]; intros n r; [done|..].
  - unfold pairs in *. cbn [foldl pair_step app]. rewrite (proj2 (Z.eqb_neq _ _) H40), (proj2 (Z.eqb_neq _ _) H41). apply IH.
  - replace ((40 :: w1 ++ 41 :: w2) ++ r) with (40 :: w1 ++ 41 :: (w2 ++ r)) by (by rewrite <- app_comm_cons, <- app_assoc).
    change (pairs (S n) (w1 ++ 41 :: w2 ++ r) = pairs n r). rewrite IH1. apply IH2.
Qed.

Lemma pairs_exact w : pairs 0 w = Some 0%nat <-> balanced w.
Proof.
  split.
  - intros H. apply pairs_closes in H. by inversion H.
  - intros H. by rewrite <- (app_nil_r w), balanced_pairs.
Qed.

(** ** The scan keeps count *)

Section lemmas.
Context `{!CharClasses}.
Implicit Types (s : Scan) (ln : Z).

Definition stray (f : Finding) : bool :=
  fd_error f && match fd_msg f with UnbalancedClose | UnclosedForms _ => true | _ => false end.

(** The stack is what the structural text leaves open, unless a close was stray,
    and that was found. *)
Definition counts s : Prop :=
  (pairs 0 (sn_structural s) = None /\ Exists (fun f => stray f = true) (sn_out s))
  \/ (pairs 0 (sn_structural s) = Some (length (sn_stack s)) /\ Forall (fun f => stray f = false) (sn_out s)).

Lemma pairs_snoc w c : pairs 0 (w ++ [c]) = pair_step (pairs 0 w) c.
Proof. unfold pairs. by rewrite foldl_app. Qed.

(** A step that leaves text and stack alone and finds nothing stray. *)
Lemma counts_say fs s : Forall (fun f => stray f = false) fs -> counts s -> counts (say fs s).
Proof.
  intros Hf [[Hp Ho]|[Hp Ho]]; [left|right]; (split; [exact Hp|]); cbn; [apply Exists_app; by left|by apply Forall_app].
Qed.

Lemma counts_push c s : c <> 40 -> c <> 41 -> counts s -> counts (push_structural c s).
Proof.
  intros H1 H2 Hc. unfold counts. cbn [push_structural sn_structural sn_out sn_stack]. rewrite pairs_snoc.
  destruct Hc as [[-> Ho]|[-> Ho]]; [by left|right]. unfold pair_step.
  by rewrite (proj2 (Z.eqb_neq _ _) H1), (proj2 (Z.eqb_neq _ _) H2).
Qed.

Lemma check_head_stray head ln : Forall (fun f => stray f = false) (check_head head ln).
Proof. unfold check_head. destruct head as [|c h]; [done|]. case_match; by repeat constructor. Qed.

Lemma counts_set_head p h s : counts s -> counts (set_head p h s).
Proof. done. Qed.

Lemma counts_close_head ln s : counts s -> counts (close_head ln s).
Proof. intros Hc. unfold close_head. case_bool_decide; [|done]. apply counts_say; [apply check_head_stray|done]. Qed.

Lemma counts_open prev s : counts s -> counts (push_structural 40 (open_form prev s)).
Proof.
  intros Hc. unfold counts. assert (sn_structural (open_form prev s) = sn_structural s /\ sn_out (open_form prev s) = sn_out s
    /\ length (sn_stack (open_form prev s)) = S (length (sn_stack s))) as (E1 & E2 & E3) by (unfold open_form; by case_match).
  cbn [push_structural sn_structural sn_out sn_stack]. rewrite pairs_snoc, E1, E2, E3.
  destruct Hc as [[-> Ho]|[-> Ho]]; [by left|by right].
Qed.

Lemma counts_close ln s : counts s -> counts (push_structural 41 (close_form ln s)).
Proof.
  intros Hc. unfold counts, close_form. destruct (sn_stack s) as [|top stack] eqn:Es;
    cbn [push_structural say sn_structural sn_out sn_stack]; rewrite pairs_snoc; unfold counts in Hc; rewrite Es in Hc;
    destruct Hc as [[-> Ho]|[-> Ho]]; cbn.
  - left. split; [done|]. apply Exists_app. by left.
  - left. split; [done|]. apply Exists_app. right. by constructor.
  - by left.
  - by right.
Qed.

Lemma counts_plain ln c s : counts s -> counts (plain_char ln c s).
Proof.
  intros Hc. unfold plain_char. set (s1 := if bool_decide (sn_pending s = _) then _ else s).
  assert (counts s1) as H1 by (unfold s1; repeat case_match; auto using counts_close_head, counts_set_head).
  set (s2 := if structural_glyph_ok c then s1 else _).
  assert (counts s2) as H2 by (unfold s2; case_match; [done|]; apply counts_say; [by repeat constructor|done]).
  case_match; [apply counts_say; [by repeat constructor|done]|done].
Qed.

Lemma counts_char ln prev c s : counts s -> counts (scan_char ln prev c s).
Proof.
  intros Hc. unfold scan_char. destruct (sn_island s); [|by case_match..|done].
  destruct (c =? 59); [exact Hc|]. destruct (c =? 34); [exact Hc|].
  destruct (c =? 91); [exact Hc|].
  destruct (Z.eqb_spec c 40) as [->|H40]; [by apply counts_open|].
  destruct (Z.eqb_spec c 41) as [->|H41]; [by apply counts_close, counts_close_head|].
  by apply counts_push, counts_plain.
Qed.

Lemma counts_chars ln prev cs s : counts s -> counts (scan_chars ln prev cs s).
Proof. revert prev s. induction cs as [|c cs IH]; intros prev s Hc; cbn; [done|]. by apply IH, counts_char. Qed.

Lemma banned_stray ln raw : Forall (fun f => stray f = false) (banned_in ln raw).
Proof. unfold banned_in. apply Forall_fmap, Forall_forall. by intros c _. Qed.

Lemma counts_line ln raw s : counts s -> counts (scan_line ln raw s).
Proof.
  intros Hc. unfold scan_line. assert (counts (say (banned_in ln raw) s)) as H0 by (by apply counts_say; [apply banned_stray|]).
  case_match.
  - unfold seal_line. case_match; [|done]. apply counts_say; [case_match; by repeat constructor|done].
  - apply counts_push; [done..|]. case_match; [change (counts (scan_chars ln None raw (say (banned_in ln raw) s)))|]; by apply counts_chars.
Qed.

Lemma counts_lines ln ls s : counts s -> counts (scan_lines ln ls s).
Proof. revert ln s. induction ls as [|l ls IH]; intros ln s Hc; cbn; [done|]. by apply IH, counts_line. Qed.

Definition scanned (content : text) : Scan := scan_lines 1 (lines content) scan_start.

Lemma counts_scanned content : counts (scanned content).
Proof. apply counts_lines. right. by split; [|constructor]. Qed.
End lemmas.

(** ** What stands outside quotes, constraints and comments *)

(** A line cut at its islands, from the island it begins in to the one it ends
    in: the characters outside.  A comment reaches to the end of its line. *)
Inductive cut : Island -> text -> text -> Island -> Prop :=
  | cut_end i : cut i [] [] i
  | cut_comment l : cut NoIsland (59 :: l) [] NoIsland
  | cut_open_quote l out i : cut Quote l out i -> cut NoIsland (34 :: l) out i
  | cut_quoted c l out i : c <> 34 -> cut Quote l out i -> cut Quote (c :: l) out i
  | cut_close_quote l out i : cut NoIsland l out i -> cut Quote (34 :: l) out i
  | cut_open_constraint l out i : cut Constraint l out i -> cut NoIsland (91 :: l) out i
  | cut_constrained c l out i : c <> 93 -> cut Constraint l out i -> cut Constraint (c :: l) out i
  | cut_close_constraint l out i : cut NoIsland l out i -> cut Constraint (93 :: l) out i
  | cut_outside c l out i : c <> 59 -> c <> 34 -> c <> 91 -> cut NoIsland l out i -> cut NoIsland (c :: l) (c :: out) i.

(** A line that begins with a hash. *)
Definition hash_line (l : text) : Prop := exists r, trim_start l = 35 :: r.

(** The lines of an artifact; those marked are headers, left out whole. *)
Inductive laid : Island -> list text -> list bool -> text -> Island -> Prop :=
  | laid_end i : laid i [] [] [] i
  | laid_header l ls marks out j :
      hash_line l -> laid NoIsland ls marks out j -> laid NoIsland (l :: ls) (true :: marks) out j
  | laid_line i m l ls marks o out j :
      cut i l o m -> laid m ls marks out j -> laid i (l :: ls) (false :: marks) (o ++ 10 :: out) j.

Section outside.
Context `{!CharClasses}.
Implicit Types (s : Scan) (ln : Z).

(** A step that changes neither the island nor the text outside. *)
Definition keeps s s' : Prop := sn_structural s' = sn_structural s /\ sn_island s' = sn_island s.

Lemma keeps_open prev s : keeps s (open_form prev s).
Proof. unfold open_form. by destruct (attached prev). Qed.
Lemma keeps_close_head ln s : keeps s (close_head ln s).
Proof. unfold close_head. by case_bool_decide. Qed.
Lemma keeps_close ln s : keeps s (close_form ln s).
Proof. unfold close_form. by destruct (sn_stack s). Qed.
Lemma keeps_plain ln c s : keeps s (plain_char ln c s).
Proof.
  unfold plain_char. set (s1 := if bool_decide (sn_pending s = _) then _ else s).
  assert (keeps s s1) as [E1 E2] by (unfold s1; repeat case_match; auto using keeps_close_head; done).
  cbv zeta. destruct (structural_glyph_ok c), (c =? THEREFORE); by split.
Qed.

(** The island a line leaves to the next. *)
Definition line_end (i : Island) : Island := match i with Comment => NoIsland | _ => i end.

Lemma comment_stays ln prev cs s : sn_island s = Comment -> scan_chars ln prev cs s = s.
Proof.
  revert prev. induction cs as [|c cs IH]; intros prev Hs; cbn [scan_chars]; [done|].
  unfold scan_char. rewrite Hs. by apply IH.
Qed.

Lemma chars_cut ln cs : forall prev s, sn_island s <> Comment ->
  exists out, cut (sn_island s) cs out (line_end (sn_island (scan_chars ln prev cs s))) /\
    sn_structural (scan_chars ln prev cs s) = sn_structural s ++ out.
Proof.
  induction cs as [|c cs IH]; intros prev s Hs; cbn [scan_chars].
  { exists []. rewrite app_nil_r. split; [|done]. destruct (sn_island s); [apply cut_end..|done]. }
  unfold scan_char. destruct (sn_island s) eqn:Ei; [|destruct (Z.eqb_spec c 34) as [->|Hc]|destruct (Z.eqb_spec c 93) as [->|Hc]|done].
  - destruct (Z.eqb_spec c 59) as [->|H59].
    { rewrite comment_stays by done. exists []. rewrite app_nil_r. split; [apply cut_comment|done]. }
    destruct (Z.eqb_spec c 34) as [->|H34].
    { destruct (IH (Some 34) (set_island Quote ln s)) as (out & Hc & E); [done|]. exists out. by split; [apply cut_open_quote|]. }
    destruct (Z.eqb_spec c 91) as [->|H91].
    { destruct (IH (Some 91) (set_island Constraint ln s)) as (out & Hc & E); [done|]. exists out. by split; [apply cut_open_constraint|]. }
    set (s1 := if c =? 40 then _ else _).
    assert (sn_structural s1 = sn_structural s ++ [c] /\ sn_island s1 = NoIsland) as [E1 E2].
    { unfold s1. destruct (keeps_open prev s), (keeps_plain ln c s), (keeps_close ln (close_head ln s)), (keeps_close_head ln s).
      destruct (c =? 40); [|destruct (c =? 41)]; cbn [push_structural sn_structural sn_island]; split; congruence. }
    destruct (IH (Some c) s1) as (out & Hc & E); [by rewrite E2|]. rewrite E2 in Hc. exists (c :: out).
    split; [by apply cut_outside|]. by rewrite E, E1, <- app_assoc.
  - destruct (IH (Some 34) (set_island NoIsland (sn_island_open s) s)) as (out & Hc & E); [done|]. exists out. by split; [apply cut_close_quote|].
  - destruct (IH (Some c) s) as (out & Hcut & E); [by rewrite Ei|]. rewrite Ei in Hcut. exists out. by split; [apply cut_quoted|].
  - destruct (IH (Some 93) (set_island NoIsland (sn_island_open s) s)) as (out & Hc & E); [done|]. exists out. by split; [apply cut_close_constraint|].
  - destruct (IH (Some c) s) as (out & Hcut & E); [by rewrite Ei|]. rewrite Ei in Hcut. exists out. by split; [apply cut_constrained|].
Qed.

Lemma seal_keeps ln raw s : keeps s (seal_line ln raw s).
Proof. unfold seal_line. by destruct (existsb _ raw). Qed.

Lemma starts_hash l : starts_with [35] l = true <-> exists r, l = 35 :: r.
Proof.
  destruct l as [|c l]; [split; [done|by intros [? ?]]|]. change (starts_with [35] (c :: l)) with ((35 =? c) && true).
  rewrite andb_true_r, Z.eqb_eq. split.
  - intros <-. by exists l.
  - intros [r [= -> _]]. done.
Qed.

(** One line, as the scan takes it. *)
Lemma line_laid ln raw s : sn_island s <> Comment ->
  sn_island (scan_line ln raw s) <> Comment /\
  if is_seal_line raw s
  then hash_line raw /\ sn_island s = NoIsland /\ keeps s (scan_line ln raw s)
  else exists o, cut (sn_island s) raw o (sn_island (scan_line ln raw s)) /\
         sn_structural (scan_line ln raw s) = sn_structural s ++ o ++ [10].
Proof.
  intros Hs. unfold scan_line. change (is_seal_line raw (say (banned_in ln raw) s)) with (is_seal_line raw s).
  destruct (is_seal_line raw s) eqn:Eh.
  - destruct (seal_keeps ln raw (say (banned_in ln raw) s)) as [E1 E2]. cbn [say sn_structural sn_island] in E1, E2.
    rewrite E2. split; [done|]. unfold is_seal_line in Eh. rewrite !andb_true_iff, bool_decide_eq_true in Eh.
    destruct Eh as [[_ Hi] Hh%starts_hash]. by split_and!.
  - destruct (chars_cut ln raw None (say (banned_in ln raw) s) Hs) as (o & Hc & E).
    set (s1 := scan_chars ln None raw (say (banned_in ln raw) s)) in *. cbn [say sn_structural sn_island] in Hc, E.
    destruct (sn_island s1) eqn:Ei; cbn [line_end] in Hc; rewrite ?bool_decide_eq_true_2, ?bool_decide_eq_false_2 by done;
      cbn [push_structural set_island sn_island sn_structural]; rewrite ?Ei; (split; [done|]); exists o; rewrite E, <- app_assoc; done.
Qed.

Lemma lines_laid ls : forall ln s, sn_island s <> Comment ->
  exists marks out, laid (sn_island s) ls marks out (sn_island (scan_lines ln ls s)) /\
    sn_structural (scan_lines ln ls s) = sn_structural s ++ out /\ sn_island (scan_lines ln ls s) <> Comment /\
    forall k l, ls !! k = Some l -> marks !! k = Some (is_seal_line l (scan_lines ln (take k ls) s)).
Proof.
  induction ls as [|l ls IH]; intros ln s Hs; cbn [scan_lines].
  { exists [], []. rewrite app_nil_r. split_and!; [constructor|done|done|]. by intros k l. }
  destruct (line_laid ln l s Hs) as [Hn Hl].
  destruct (IH (ln + 1) (scan_line ln l s) Hn) as (marks & out & Hlaid & E & He & Hm).
  destruct (is_seal_line l s) eqn:Eh.
  - destruct Hl as (Hh & Hi & E1 & E2). exists (true :: marks), out. rewrite E2, Hi in Hlaid. rewrite Hi, E, E1.
    split_and!; [by constructor|done|done|]. intros [|k] x; cbn; [intros [= <-]; by rewrite Eh|apply Hm].
  - destruct Hl as (o & Hc & E1). exists (false :: marks), (o ++ 10 :: out). split_and!; [by econstructor| |done|].
    + by rewrite E, E1, <- !app_assoc.
    + intros [|k] x; cbn; [intros [= <-]; by rewrite Eh|apply Hm].
Qed.
End outside.

(** The ranges no line may use: mathematical letters, the emoji of the
    supplementary plane, miscellaneous symbols and dingbats, variation
    selectors, the joiner. *)
Definition BANNED_RANGES : list (Z * Z) :=
  [(0x1D400, 0x1D7FF); (0x1F000, 0x1FAFF); (0x2600, 0x27BF); (0xFE00, 0xFE0F); (0x200D, 0x200D)].

Definition in_banned_range (c : Z) : Prop := Exists (fun r => r.1 <= c <= r.2) BANNED_RANGES.

Lemma banned_exact c : banned_codepoint c = true <-> in_banned_range c.
Proof.
  unfold banned_codepoint, in_banned_range, BANNED_RANGES, between. rewrite !Exists_cons, Exists_nil. cbn [fst snd]. lia.
Qed.

(** ** Dates, by their shape *)

(** Four digits, two, two, between hyphens, in no longer run of digits. *)
Definition dated (b : bytes) : Prop :=
  exists pre y m d post, b = pre ++ y ++ 45 :: m ++ 45 :: d ++ post /\
    length y = 4%nat /\ length m = 2%nat /\ length d = 2%nat /\ Forall (fun c => is_ascii_digit c = true) (y ++ m ++ d) /\
    (forall c, last pre = Some c -> is_ascii_digit c = false) /\ (forall c, head post = Some c -> is_ascii_digit c = false).

Lemma digit_at_Some l i : digit_at l i = true <-> exists c, l !! i = Some c /\ is_ascii_digit c = true.
Proof. unfold digit_at. destruct (l !! i); split; [eauto|by intros (? & [= <-] & ?)|done|by intros (? & ? & _)]. Qed.

Lemma digit_at_false l i : digit_at l i = false <-> forall c, l !! i = Some c -> is_ascii_digit c = false.
Proof. unfold digit_at. destruct (l !! i) as [x|]; split; [by intros ? ? [= <-]|by intros H; apply H|done|done]. Qed.

Lemma is_at_Some x l i : is_at x l i = true <-> l !! i = Some x.
Proof. unfold is_at. destruct (l !! i) as [c|]; [|done]. rewrite Z.eqb_eq. naive_solver. Qed.

Lemma digit_at_drop l i k : digit_at l (i + k) = digit_at (drop i l) k.
Proof. unfold digit_at. by rewrite lookup_drop. Qed.
Lemma is_at_drop x l i k : is_at x l (i + k) = is_at x (drop i l) k.
Proof. unfold is_at. by rewrite lookup_drop. Qed.

(** The ten places of a date, then the character behind it. *)
Lemma date_places l :
  digit_at l 0 && digit_at l 1 && digit_at l 2 && digit_at l 3 && is_at 45 l 4 && digit_at l 5 && digit_at l 6 && is_at 45 l 7
    && digit_at l 8 && digit_at l 9 && negb (digit_at l 10) = true
  <-> exists y m d post, l = y ++ 45 :: m ++ 45 :: d ++ post /\ length y = 4%nat /\ length m = 2%nat /\ length d = 2%nat /\
      Forall (fun c => is_ascii_digit c = true) (y ++ m ++ d) /\ (forall c, head post = Some c -> is_ascii_digit c = false).
Proof.
  split.
  - destruct l as [|a0 [|a1 [|a2 [|a3 [|a4 [|a5 [|a6 [|a7 [|a8 [|a9 post]]]]]]]]]];
      unfold digit_at, is_at; cbn [lookup list_lookup]; rewrite ?andb_false_r; try done.
    rewrite !andb_true_iff, !Z.eqb_eq, negb_true_iff. intros H. destruct_and? H. subst.
    exists [a0; a1; a2; a3], [a5; a6], [a8; a9], post. split_and!; [done..| |].
    + cbn. by repeat constructor.
    + intros c Ec. destruct post as [|x post]; [done|]. by injection Ec as ->.
  - intros (y & m & d & post & -> & Ly & Lm & Ld & Hd & Hp).
    destruct y as [|? [|? [|? [|? [|]]]]]; try done. destruct m as [|? [|? [|]]]; try done. destruct d as [|? [|? [|]]]; try done.
    cbn in Hd. rewrite !Forall_cons in Hd. destruct_and? Hd. unfold digit_at, is_at. cbn [app lookup list_lookup].
    repeat match goal with E : is_ascii_digit _ = true |- _ => rewrite E; clear E end. cbn.
    destruct post as [|x post]; [done|]. cbn. by rewrite (Hp x eq_refl).
Qed.

Lemma date_at_exact b i :
  (i < length b)%nat ->
  date_at b i = true <->
  (exists y m d post, drop i b = y ++ 45 :: m ++ 45 :: d ++ post /\ length y = 4%nat /\ length m = 2%nat /\ length d = 2%nat /\
     Forall (fun c => is_ascii_digit c = true) (y ++ m ++ d) /\ (forall c, head post = Some c -> is_ascii_digit c = false)) /\
  (forall c, last (take i b) = Some c -> is_ascii_digit c = false).
Proof.
  intros Hi. rewrite <- date_places. unfold date_at. rewrite <- (Nat.add_0_r i) at 1. rewrite !digit_at_drop, !is_at_drop.
  set (before := match i with O => true | S k => negb (digit_at b k) end).
  assert (before = true <-> forall c, last (take i b) = Some c -> is_ascii_digit c = false) as <-.
  { unfold before. destruct i as [|k]; [done|]. destruct (lookup_lt_is_Some_2 b k ltac:(lia)) as [x Ex].
    rewrite (take_S_r b k x Ex), last_snoc, negb_true_iff, digit_at_false, Ex. naive_solver. }
  rewrite !andb_true_iff. tauto.
Qed.

Lemma has_date_exact s : has_date s = true <-> dated (as_bytes s).
Proof.
  unfold has_date. rewrite existsb_exists. set (b := as_bytes s). split.
  - intros (i & Hi & Hd). apply in_seq in Hi. apply date_at_exact in Hd as [(y & m & d & post & E & H) Hb]; [|lia].
    exists (take i b), y, m, d, post. rewrite <- E, take_drop. naive_solver.
  - intros (pre & y & m & d & post & E & Ly & Lm & Ld & Hd & Hb & Hp).
    assert (length b = (length pre + 10 + length post)%nat) as Hl.
    { rewrite E. rewrite !length_app. cbn [length]. rewrite !length_app. cbn [length]. rewrite !length_app. lia. }
    exists (length pre). split; [apply in_seq; lia|]. apply date_at_exact; [lia|]. rewrite E, drop_app_length, take_app_length.
    split; [|done]. by exists y, m, d, post.
Qed.

(** ** A scan only adds *)

Create HintDb lint.

(** The headed forms that are open. *)
Definition headed (stack : list bool) : Z := zlen (List.filter id stack).

Lemma headed_cons t stack : headed (t :: stack) = Z.b2z t + headed stack.
Proof. unfold headed. destruct t; cbn [List.filter id Z.b2z]; [rewrite zlen_cons; lia|lia]. Qed.

Section grows.
Context `{!CharClasses}.
Implicit Types (s : Scan) (ln : Z).

Definition depth_ok s : Prop := sn_depth s = headed (sn_stack s) /\ sn_depth s <= sn_max_depth s.

Record moves s s' : Prop := {
  mv_depth : depth_ok s -> depth_ok s';
  mv_max : sn_max_depth s <= sn_max_depth s';
  mv_out : sn_out s `prefix_of` sn_out s'
}.

#[local] Instance moves_preorder : PreOrder moves.
Proof.
  split; [by intros s; split|]. intros s1 s2 s3 [D1 M1 O1] [D2 M2 O2]. split; [auto|lia|by etrans].
Qed.

Lemma moves_set_head p h s : moves s (set_head p h s).
Proof. by split. Qed.
Lemma moves_set_island i ln s : moves s (set_island i ln s).
Proof. by split. Qed.
Lemma moves_push c s : moves s (push_structural c s).
Proof. by split. Qed.
Lemma moves_say fs s : moves s (say fs s).
Proof. split; [done|done|by exists fs]. Qed.
Lemma moves_if (b : bool) s s1 s2 : moves s s1 -> moves s s2 -> moves s (if b then s1 else s2).
Proof. by destruct b. Qed.
Hint Resolve moves_set_head moves_set_island moves_push moves_say moves_if : lint.
Hint Extern 0 (moves ?s ?s) => reflexivity : lint.

Lemma moves_open prev s : moves s (open_form prev s).
Proof.
  unfold open_form. destruct (attached prev).
  - split; cbn; [|lia|done]. unfold depth_ok. cbn. rewrite headed_cons. cbn. lia.
  - split; cbn; [|lia|done]. unfold depth_ok. cbn. rewrite headed_cons. cbn. lia.
Qed.

Lemma moves_close_head ln s : moves s (close_head ln s).
Proof. unfold close_head. apply moves_if; [|auto with lint]. etrans; [apply moves_set_head|apply moves_say]. Qed.

Lemma moves_close ln s : moves s (close_form ln s).
Proof.
  unfold close_form. destruct (sn_stack s) as [|top stack] eqn:Es; [apply moves_say|].
  split; cbn; [|lia|done]. unfold depth_ok. cbn. rewrite Es, headed_cons. pose proof (zlen_nonneg (List.filter id stack)).
  unfold headed in *. destruct top; cbn [Z.b2z]; lia.
Qed.

Lemma moves_plain ln c s : moves s (plain_char ln c s).
Proof.
  unfold plain_char. set (s1 := if bool_decide (sn_pending s = _) then _ else s).
  assert (moves s s1) as H1 by (unfold s1; apply moves_if; [apply moves_if; [apply moves_if|]|]; auto using moves_close_head with lint).
  set (s2 := if structural_glyph_ok c then s1 else _).
  assert (moves s s2) as H2 by (etrans; [exact H1|unfold s2; auto with lint]).
  etrans; [exact H2|]. auto with lint.
Qed.

Lemma moves_char ln prev c s : moves s (scan_char ln prev c s).
Proof.
  unfold scan_char. destruct (sn_island s); [|auto with lint..].
  repeat (apply moves_if; [solve [auto with lint]|]).
  apply moves_if; [etrans; [apply moves_open|apply moves_push]|].
  apply moves_if; [etrans; [apply moves_close_head|etrans; [apply moves_close|apply moves_push]]|].
  etrans; [apply moves_plain|apply moves_push].
Qed.

Lemma moves_chars ln prev cs s : moves s (scan_chars ln prev cs s).
Proof. revert prev s. induction cs as [|c cs IH]; intros prev s; cbn; [done|]. etrans; [apply moves_char|apply IH]. Qed.

(** What the scan of a line adds to the findings of the banned characters. *)
Lemma moves_line ln raw s : moves (say (banned_in ln raw) s) (scan_line ln raw s).
Proof.
  unfold scan_line. apply moves_if.
  - unfold seal_line. apply moves_if; [|done]. split; [done|done|by eexists].
  - set (s1 := scan_chars _ _ _ _). assert (moves (say (banned_in ln raw) s) s1) by apply moves_chars.
    etrans; [|apply moves_push]. apply moves_if; [|done]. etrans; [done|apply moves_set_island].
Qed.

Lemma moves_lines ln ls s : moves s (scan_lines ln ls s).
Proof.
  revert ln s. induction ls as [|l ls IH]; intros ln s; cbn; [done|]. etrans; [|apply IH]. etrans; [apply moves_say|apply moves_line].
Qed.

Lemma scan_lines_app ln ls1 ls2 s : scan_lines ln (ls1 ++ ls2) s = scan_lines (ln + zlen ls1) ls2 (scan_lines ln ls1 s).
Proof.
  revert ln s. induction ls1 as [|l ls1 IH]; intros ln s; cbn [app scan_lines]; [f_equal; unfold zlen; cbn; lia|].
  rewrite IH, zlen_cons. f_equal. lia.
Qed.

(** Findings of banned characters stay. *)
Lemma banned_found ln ls s l :
  l ∈ ls -> Forall (fun f => fd_error f = false) (sn_out (scan_lines ln ls s)) -> Forall (fun c => banned_codepoint c = false) l.
Proof.
  intros Hl Hf. apply list_elem_of_split in Hl as (ls1 & ls2 & ->). rewrite scan_lines_app in Hf. cbn [scan_lines] in Hf.
  set (s1 := scan_lines ln ls1 s) in Hf. set (n := ln + zlen ls1) in Hf.
  destruct (moves_lines (n + 1) ls2 (scan_line n l s1)) as [_ _ [fs E]]. rewrite E in Hf. apply Forall_app in Hf as [Hf _].
  destruct (moves_line n l s1) as [_ _ [fs' E']]. rewrite E' in Hf. apply Forall_app in Hf as [Hf _]. cbn in Hf.
  apply Forall_app in Hf as [_ Hf]. unfold banned_in in Hf. rewrite Forall_fmap in Hf. apply Forall_forall. intros c Hc.
  destruct (banned_codepoint c) eqn:Eb; [|done]. rewrite Forall_forall in Hf. by apply (Hf c), list_elem_of_In, filter_In; rewrite <- list_elem_of_In.
Qed.

(** Without an error the text outside closes what it opens. *)
Lemma balanced_of_errors content :
  Forall (fun f => fd_error f = false) (sn_out (scanned content)) ->
  Forall (fun f => fd_error f = false)
    (match sn_stack (scanned content) with [] => [] | _ => [err (zlen (lines content)) (UnclosedForms (length (sn_stack (scanned content))))] end) ->
  pairs 0 (sn_structural (scanned content)) = Some 0%nat.
Proof.
  intros Ho Hs. destruct (counts_scanned content : counts (scanned content)) as [[_ He]|[-> _]].
  - apply Exists_exists in He as (f & Hin & E). rewrite Forall_forall in Ho. specialize (Ho f Hin). unfold stray in E. by rewrite Ho in E.
  - destruct (sn_stack (scanned content)); [done|]. by inversion Hs.
Qed.

Lemma date_found n ls l :
  l ∈ ls -> Forall (fun f => fd_error f = false) (time_findings n ls) -> has_date l = false.
Proof.
  revert n. induction ls as [|x ls IH]; intros n Hl Hf; [by inversion Hl|].
  unfold time_findings in Hf. cbn [numbered] in Hf. rewrite bind_cons in Hf. apply Forall_app in Hf as [Hx Hf].
  apply elem_of_cons in Hl as [->|Hl]; [|by apply (IH (n + 1))]. cbn [fst snd] in Hx. apply Forall_app in Hx as [Hx _].
  destruct (has_date x); [|done]. by inversion Hx.
Qed.

(** C36: A soul the lint finds no error in is well formed.  No line holds a
    character of the five banned ranges, quotes and comments included: the
    mathematical letters, U+1F000 to U+1FAFF, U+2600 to U+27BF, the variation
    selectors and the joiner; emoji outside these, such as U+2B50, are not among
    them.  Cut at its quotes, constraints and comments, with the header lines
    left out, the rest of the text is balanced by the grammar, and no quote or
    constraint stays open.  A header line is any line that begins with a hash,
    white space aside, where no headed form is open and no island goes on; what stands in one is
    looked at for banned characters and dates only.  At the end of no line are
    more than three headed forms open, and no line holds a date. *)
Theorem linted_soul_is_well_formed content :
  Forall (fun f => fd_error f = false) (lint content) ->
  let at_line k := scan_lines 1 (take k (lines content)) scan_start in
  Forall (Forall (fun c => ~ in_banned_range c)) (lines content) /\
  (exists marks out, laid NoIsland (lines content) marks out NoIsland /\ balanced out /\
     forall k l, lines content !! k = Some l ->
       (marks !! k = Some true <-> hash_line l /\ headed (sn_stack (at_line k)) = 0 /\ sn_island (at_line k) = NoIsland)) /\
  (forall k, headed (sn_stack (at_line k)) <= 3) /\
  Forall (fun l => ~ dated (as_bytes l)) (lines content).
Proof.
  intros Hf at_line. unfold lint in Hf. fold (scanned content) in Hf. set (s := scanned content) in Hf.
  destruct (register_rule _) as [on fs].
  apply Forall_app in Hf as [Ho Hf]. apply Forall_app in Hf as [Hc Hf]. apply Forall_app in Hf as [_ Hf].
  apply Forall_app in Hf as [_ Hf]. apply Forall_app in Hf as [_ Hf]. apply Forall_app in Hf as [Ht _].
  unfold closing_findings in Hc. apply Forall_app in Hc as [Hs Hc]. apply Forall_app in Hc as [Hi Hd].
  assert (forall k, depth_ok (at_line k)) as Hdepth.
  { intros k. destruct (moves_lines 1 (take k (lines content)) scan_start) as [D _ _]. by apply D. }
  split_and!.
  - apply Forall_forall. intros l Hl. pose proof (banned_found 1 (lines content) scan_start l Hl Ho) as Hb.
    eapply Forall_impl; [exact Hb|]. intros c Ec Hr%banned_exact. by rewrite Ec in Hr.
  - destruct (lines_laid (lines content) 1 scan_start) as (marks & out & Hlaid & E & He & Hm); [done|].
    exists marks, out. split_and!.
    + replace NoIsland with (sn_island (scan_lines 1 (lines content) scan_start)) at 2; [done|].
      change (sn_island s = NoIsland). change (sn_island s <> Comment) in He. destruct (sn_island s); [done|by inversion Hi..|done].
    + apply pairs_exact. change (sn_structural s = out) in E. rewrite <- E. by apply balanced_of_errors.
    + intros k l Hl. rewrite (Hm k l Hl). fold (at_line k). destruct (Hdepth k) as [<- _]. unfold is_seal_line, hash_line.
      rewrite <- starts_hash. destruct (starts_with [35] (trim_start l)), (Z.eqb_spec (sn_depth (at_line k)) 0),
        (bool_decide_reflect (sn_island (at_line k) = NoIsland)); cbn [andb]; naive_solver.
  - intros k. destruct (Z.ltb_spec 3 (sn_max_depth s)) as [|Hm]; [by inversion Hd|].
    pose proof (scan_lines_app 1 (take k (lines content)) (drop k (lines content)) scan_start) as E. rewrite take_drop in E.
    fold (scanned content) s (at_line k) in E.
    destruct (moves_lines (1 + zlen (take k (lines content))) (drop k (lines content)) (at_line k)) as [_ M _]. rewrite <- E in M.
    destruct (Hdepth k). lia.
  - apply Forall_forall. intros l Hl Hd'. apply has_date_exact in Hd'. rewrite (date_found 1 (lines content) l Hl Ht) in Hd'. done.
Qed.
End grows.

(** ** Concrete artifacts *)

#[local] Instance ascii_classes : CharClasses := {| char_alphanumeric := is_ascii_alphanumeric |}.
Lemma ascii_classes_laws : CharClassesLaws.
Proof. by split. Qed.

Definition quoted_word (s : string) : text := 34 :: chars s ++ [34].
Definition clean_soul : text :=
  chars "(soul X (register alchemical) (voice " ++ quoted_word "steady heat" ++ chars ") (rules (?t !find(:limit 3))))" ++ [10]
  ++ chars "*From steady heat the athanor holds its shape.*".

Example clean_soul_passes : (is_dense_artifact clean_soul, lint clean_soul) = (true, []).
Proof. vm_compute. reflexivity. Qed.

Lemma linted_soul_is_well_formed_witness :
  exists marks out, laid NoIsland (lines clean_soul) marks out NoIsland /\ balanced out.
Proof.
  destruct (linted_soul_is_well_formed clean_soul) as (_ & (marks & out & Hl & Hb & _) & _); [vm_compute; repeat constructor|].
  by exists marks, out.
Defined.

(** A star and a clock, emoji outside the ranges, are found neither by this lint
    nor by the reference it follows. *)
Example some_emoji_pass :
  lint (chars "(soul X (voice " ++ [34; 0x2B50; 0x23F0; 34] ++ chars "))") = [] /\
  (fun f => fd_msg f) <$> lint (chars "(soul X (voice " ++ [34; 0x1F525; 34] ++ chars "))") = [Banned 0x1F525].
Proof. vm_compute. split; reflexivity. Qed.

(** A line that begins with a hash is a header wherever no form is open, and
    what it holds is not balanced. *)
Example hash_line_is_not_read :
  lint (chars "# (" ++ [10] ++ chars "(soul X (voice x))" ++ [10] ++ chars "# )" ++ [10] ++ chars "(soul Y (voice y))") = [].
Proof. vm_compute. reflexivity. Qed.

(** Ops behind the last form, on its own line, are refused; on the line that form
    closes on they are not looked at. *)
Example same_line_is_no_emanation :
  (lint (chars "(soul X (voice x)) !wipe" ), (fun f => fd_msg f) <$> lint (chars "(soul X (voice x))" ++ [10] ++ chars "!wipe"))
  = ([], [EmanationOff; EmanationForms]).
Proof. vm_compute. reflexivity. Qed.

(** A comment behind the last form counts as an emanation. *)
Example comment_is_an_emanation :
  (fun f => fd_msg f) <$> lint (chars "(soul X (voice x))" ++ [10] ++ chars "; end of file") = [EmanationOff].
Proof. vm_compute. reflexivity. Qed.

(** Of a dense soul whose first line is a comment nothing is checked. *)
Example commented_soul_is_not_linted : is_dense_artifact (chars "; v2" ++ [10] ++ chars "(soul X (voice x)") = false.
Proof. vm_compute. reflexivity. Qed.
