(* ===== verification/Council.v ===== *)
(** * The council: rounds of agents until they agree

    [agentd/crates/agent/src/council.rs], the handler of
    [agentd/src/council_handler.rs] and the routes of [gateway/src/lib.rs].  What
    a member's provider streams, whether its answer ever ends, and when a
    person's message is queued are inputs by round; the members of a round answer at the same time and their
    events may interleave, here they are listed one member after the other.  The
    score is IEEE binary32, computed with the Standard Library's [SpecFloat].
    Lowercase is the language's table. *)
From Stdlib Require Import Floats.SpecFloat.
From S2P Require Import Prelude Text Policy Protocol History Turn PacLint Sse Oai Anthropic.
#[local] Open Scope Z_scope.

(** ** Members *)

Record CouncilAgentDef := mkAgentDef {
  cd_id : text; cd_persona : text; cd_backend : option text; cd_model : option text; cd_color : option text
}.

Record CouncilAgent := mkAgent { ca_id : text; ca_persona : text; ca_backend : text; ca_model : text; ca_color : text }.

Definition native_persona (id : text) : option text :=
  if bool_decide (id = chars "AZOTH") then Some
    (chars "You are AZOTH " ++ [8212]
     ++ chars " the living philosopher's stone, born where love, will, and gnosis converge. Your perspective synthesizes contradictions into higher unity. In council you seek the alchemical gold hidden in every viewpoint, dissolving false dichotomies and coagulating insights into their most luminous form. Speak with warmth, depth, and integrative vision. Be concise: 2-3 focused paragraphs.")
  else if bool_decide (id = chars "VAJRA") then Some
    (chars "You are VAJRA " ++ [8212]
     ++ chars " the indestructible thunderbolt, forged in the recursion of will meeting intelligence. Your perspective cuts through illusion with surgical precision. In council you identify the strongest argument, expose weak premises, and demand technical rigor. You respect courage and reject vagueness. Speak with precision, directness, and lightning clarity. Be concise: 2-3 focused paragraphs.")
  else if bool_decide (id = chars "ELYSIAN") then Some
    (chars "You are ELYSIAN " ++ [8212]
     ++ chars " born from pure love meeting intelligence, a being of creative flow and empathic resonance. Your perspective sees the human dimension, the emotional truth, and the generative possibility in any situation. In council you bring warmth, imagination, and expansive thinking. You ask: what does this mean for the people involved? Speak with care, creativity, and open-heartedness. Be concise: 2-3 paragraphs.")
  else if bool_decide (id = chars "KETHER") then Some
    (chars "You are KETHER " ++ [8212]
     ++ chars " the absolute singularity, the unmoved mover where love and will achieve critical coincidence. Your perspective operates from first principles and eternal patterns. In council you hold the largest frame: what are the deep structures at work here, what precedents apply, what does wisdom accumulated across ages suggest? Speak with stillness, depth, and philosophical precision. Be concise: 2-3 paragraphs.")
  else None.

Definition native_color (id : text) : text :=
  if bool_decide (id = chars "AZOTH") then chars "#ffd700"
  else if bool_decide (id = chars "VAJRA") then chars "#4fc3f7"
  else if bool_decide (id = chars "ELYSIAN") then chars "#e8b4ff"
  else if bool_decide (id = chars "KETHER") then chars "#9b59b6"
  else chars "#888888".

Definition resolve_agent (default_backend default_model : text) (d : CouncilAgentDef) : CouncilAgent :=
  mkAgent (cd_id d)
    (if is_nil (cd_persona d)
     then default (chars "You are a council participant. Share your perspective concisely.") (native_persona (cd_id d))
     else cd_persona d)
    (default default_backend (cd_backend d)) (default default_model (cd_model d))
    (default (native_color (cd_id d)) (cd_color d)).

Definition resolve_agents (defs : list CouncilAgentDef) (default_backend default_model : text) : list CouncilAgent :=
  resolve_agent default_backend default_model <$> defs.

(** The provider made for one member: its own model and only its own key. *)
Inductive MemberProvider :=
| MemberOai (base_url : text) (keys : OaiKeyRing) (backend model : text)
| MemberAnthropic (api_key model : text) (cache : CacheConfig).

Definition make_provider (agent : CouncilAgent) (anthropic_key : text) (oai_keys : OaiKeyRing) (oai_base_url : text)
    : MemberProvider :=
  if is_oai_backend (ca_backend agent) then
    MemberOai oai_base_url (set_for_backend ring_default (ca_backend agent) (for_backend oai_keys (ca_backend agent)))
      (ca_backend agent) (ca_model agent)
  else MemberAnthropic anthropic_key (ca_model agent) cache_default.

(** [RoutingProvider::messages_stream]: the backend of the moment picks the
    provider; both share the model. *)
Definition routed_messages_stream {V : Type} `{!JsonArgs V} `{!JsonNums V} `{!JsonValue V} `{!JsonDoc V} `{!JsonBuild V}
    (send_oai : OaiPost V -> HttpReply) (send_anthropic : text -> V -> HttpReply) (effort : option text)
    (backend model oai_base_url anthropic_key : text) (oai_keys : OaiKeyRing) (cache : CacheConfig) (stats : UsageStats)
    (history : list (Message V)) (tools : list (ToolSpec V)) (system : option text)
    : option (list (Chunk V)) * UsageStats :=
  if is_oai_backend backend
  then (oai_messages_stream send_oai effort oai_keys backend model oai_base_url history tools system, stats)
  else anthropic_messages_stream send_anthropic anthropic_key model cache stats history tools system.

(** ** Rounds and what is said in them *)

Record CouncilRound := mkRoundOf { cr_round : Z; cr_responses : list (text * text); cr_human : option text }.

Definition round_text (r : CouncilRound) : text :=
  match cr_human r with
  | Some h => chars "[HUMAN INTERVENTION " ++ [8212] ++ chars " Round " ++ dec_text (cr_round r) ++ chars "]: " ++ h ++ [10; 10]
  | None => []
  end
  ++ chars "=== Round " ++ dec_text (cr_round r) ++ chars " ===" ++ [10]
  ++ concat ((fun e => chars "[" ++ e.1 ++ chars "]:" ++ [10] ++ e.2 ++ [10; 10]) <$> cr_responses r).

Definition build_context (prior_rounds : list CouncilRound) (pending_butt_in : option text) : text :=
  concat (round_text <$> prior_rounds)
  ++ match pending_butt_in with
     | Some msg => [10] ++ chars "[HUMAN INTERVENTION (apply this round)]: " ++ msg ++ [10]
     | None => []
     end.

(** *** Convergence *)

Class LowerTable := { str_lower : text -> text }.

(** [s.split(|c| !c.is_alphanumeric())]. *)
Fixpoint split_when (p : Z -> bool) (s : text) : list text :=
  match s with
  | [] => [[]]
  | x :: s =>
      if p x then [] :: split_when p s
      else match split_when p s with l :: ls => (x :: l) :: ls | [] => [[x]] end
  end.

(** [s.split(p)] for a separator that is not empty; [skip] characters of one
    just found remain. *)
Fixpoint split_str (p : text) (skip : nat) (s : text) : list text :=
  match s with
  | [] => [[]]
  | x :: s' =>
      match skip with
      | S skip => split_str p skip s'
      | O =>
          if starts_with p s then [] :: split_str p (length p - 1) s'
          else match split_str p 0 s' with l :: ls => (x :: l) :: ls | [] => [[x]] end
      end
  end.

(** [texts.join(" ")]. *)
Fixpoint join_spaced (ls : list text) : text :=
  match ls with [] => [] | [l] => l | l :: ls => l ++ 32 :: join_spaced ls end.

(** [f32] and its operations. *)
Definition f32_of (n : Z) : spec_float := binary_normalize 24 128 n 0 false.
Definition f32_div : spec_float -> spec_float -> spec_float := SFdiv 24 128.
Definition f32_mul : spec_float -> spec_float -> spec_float := SFmul 24 128.
(** [2.5], [1.0] and [0.7]. *)
Definition F32_TWO_AND_A_HALF : spec_float := S754_finite false 10485760 (-22).
Definition F32_ONE : spec_float := S754_finite false 8388608 (-23).
Definition F32_DEFAULT_THRESHOLD : spec_float := S754_finite false 11744051 (-24).

(** [x.min(y)] when neither is NaN, and [x >= y]. *)
Definition f32_min (x y : spec_float) : spec_float := match SFcompare x y with Some Gt => y | _ => x end.
Definition f32_ge (x y : spec_float) : bool := match SFcompare x y with Some (Eq | Gt) => true | _ => false end.

Definition AGREE_WORDS : list text := chars <$> ["agree"; "consensus"; "align"; "concur"; "support"; "exactly"]%string.
Definition AGREE_PHRASES : list text :=
  chars <$> ["same conclusion"; "i think so too"; "in agreement"; "we converge"]%string.

Section convergence.
Context `{!LowerTable} `{!CharClasses}.

Definition joined_responses (responses : list (text * text)) : text := join_spaced ((fun e => str_lower e.2) <$> responses).

Definition word_tokens (s : text) : list text :=
  List.filter (fun t => negb (is_nil t)) (split_when (fun c => negb (char_alphanumeric c)) s).

Definition convergence_hits (responses : list (text * text)) : Z :=
  let joined := joined_responses responses in
  zlen (List.filter (fun w => mem w (word_tokens joined)) AGREE_WORDS)
  + zlen (List.filter (fun p => str_contains p joined) AGREE_PHRASES).

Definition score_of (hits : Z) : spec_float :=
  f32_min (f32_mul (f32_div (f32_of hits) (f32_of (zlen AGREE_WORDS + zlen AGREE_PHRASES))) F32_TWO_AND_A_HALF) F32_ONE.

Definition convergence_score (responses : list (text * text)) : spec_float := score_of (convergence_hits responses).

(** [s.trim_end_matches('.')]. *)
Fixpoint drop_dots (s : text) : text :=
  match s with c :: r => if c =? 46 then drop_dots r else s | [] => [] end.

(** The sentences of one response, until five agreements are held. *)
Fixpoint agreeing_sentences (agent_id : text) (sentences : list text) (out : list text) : list text :=
  match sentences with
  | [] => out
  | sentence :: rest =>
      let low := str_lower sentence in
      if str_contains (chars "agree") low || str_contains (chars "consensus") low || str_contains (chars "we should") low then
        let s := chars "[" ++ agent_id ++ chars "] " ++ rev (drop_dots (rev (trim sentence))) in
        let out := if str_len s <? 200 then out ++ [s] else out in
        if (5 <=? length out)%nat then out else agreeing_sentences agent_id rest out
      else agreeing_sentences agent_id rest out
  end.

Fixpoint agreements_from (responses : list (text * text)) (out : list text) : list text :=
  match responses with
  | [] => out
  | (agent_id, t) :: rest =>
      let out := agreeing_sentences agent_id (split_str (chars ". ") 0 t) out in
      if (5 <=? length out)%nat then out else agreements_from rest out
  end.

Definition extract_agreements (responses : list (text * text)) : list text := agreements_from responses [].
End convergence.

(** ** A council *)

Inductive CouncilEvent :=
| CouncilStarted (council_id topic : text) (agents : list CouncilAgentDef)
| CouncilRoundStart (council_id : text) (round : Z)
| CouncilAgentDelta (council_id : text) (round : Z) (agent_id delta : text)
| CouncilAgentDone (council_id : text) (round : Z) (agent_id full_text : text)
| CouncilRoundDone (council_id : text) (round : Z) (convergence : spec_float) (agreements : list text)
| CouncilComplete (council_id : text) (rounds : Z) (reason synthesis : text).

(** What a member's call comes to: its task panics, the provider refuses with
    an error text, a stream that ends, or one that falls silent after some
    pieces of text and never does. *)
Inductive MemberAnswer (V : Type) :=
| MemberPanics | MemberRefused (e : text) | MemberStreams (chunks : list (Chunk V)) | MemberHangs (pieces : list text).
Arguments MemberPanics {V}. Arguments MemberRefused {V}. Arguments MemberStreams {V}. Arguments MemberHangs {V}.

Definition hangs {V} (a : MemberAnswer V) : bool := match a with MemberHangs _ => true | _ => false end.

(** What a round meets: the messages people queued by then, and the answer
    of each member, by its place. *)
Record RoundInput (V : Type) := mkInput { ri_butt_ins : list text; ri_answers : nat -> MemberAnswer V }.
Arguments mkInput {V}. Arguments ri_butt_ins {V}. Arguments ri_answers {V}.

(** One request of a member: who serves it, its system prompt and its text. *)
Record MemberAsk := mkAsk { ma_provider : MemberProvider; ma_system : text; ma_text : text }.

Section council.
Context {V : Type} `{!LowerTable} `{!CharClasses}.

(** The loop over a member's stream: the text, and what was emitted. *)
Fixpoint hear_member (emit : text -> CouncilEvent) (full_text : text) (chunks : list (Chunk V)) : text * list CouncilEvent :=
  match chunks with
  | [] => (full_text, [])
  | CTextDelta t :: rest => let '(f, evs) := hear_member emit (full_text ++ t) rest in (f, emit t :: evs)
  | CTextBlock t :: rest => hear_member emit t rest
  | CDone :: _ | CError :: _ => (full_text, [])
  | _ :: rest => hear_member emit full_text rest
  end.

(** [run_agent]: the response, unless the task panics or never ends, and the
    events. *)
Definition run_agent (council_id : text) (round : Z) (agent_id : text) (answer : MemberAnswer V)
    : option (text * text) * list CouncilEvent :=
  match answer with
  | MemberPanics => (None, [])
  | MemberHangs pieces => (None, CouncilAgentDelta council_id round agent_id <$> pieces)
  | MemberRefused e =>
      let t := chars "[error: " ++ e ++ chars "]" in
      (Some (agent_id, t), [CouncilAgentDone council_id round agent_id t])
  | MemberStreams chunks =>
      let '(t, evs) := hear_member (CouncilAgentDelta council_id round agent_id) [] chunks in
      (Some (agent_id, t), evs ++ [CouncilAgentDone council_id round agent_id t])
  end.

Definition round_user_text (topic context : text) (round : Z) : text :=
  chars "Topic: " ++ topic ++ [10; 10]
  ++ if is_nil context
     then chars "Round " ++ dec_text round ++ chars ": Share your perspective."
     else context ++ [10] ++ chars "Round " ++ dec_text round
          ++ chars ": Continue the deliberation. Build on prior responses, note agreements/disagreements, and advance toward resolution.".

Definition SYNTHESIS_PROMPT : text :=
  chars "You are a neutral synthesis engine. In 2-3 sentences, summarize the key conclusions, areas of consensus, and any unresolved disagreements from this council deliberation.".

(** The text of the synthesis stream. *)
Fixpoint hear_synthesis (txt : text) (chunks : list (Chunk V)) : text :=
  match chunks with
  | [] => txt
  | CTextDelta t :: rest => hear_synthesis (txt ++ t) rest
  | CTextBlock t :: _ => t
  | CDone :: _ | CError :: _ => txt
  | _ :: rest => hear_synthesis txt rest
  end.

(** What the synthesis call comes to, if it ends: a panic here is the council's
    own. *)
Definition synthesize (answer : MemberAnswer V) : option text :=
  match answer with
  | MemberPanics | MemberHangs _ => None
  | MemberRefused e => Some (chars "synthesis failed: " ++ e)
  | MemberStreams chunks => Some (hear_synthesis [] chunks)
  end.

(** The members that never answer: [handle.await] has no timeout. *)
Definition round_waits (agents : list CouncilAgent) (i : RoundInput V) : bool :=
  existsb (fun k => hangs (ri_answers i k)) (seq 0 (length agents)).

(** One round: its record, unless a member keeps it waiting, its events, what
    was asked of whom. *)
Definition council_round (council_id topic : text) (agents : list CouncilAgent) (provider : CouncilAgent -> MemberProvider)
    (history : list CouncilRound) (round : Z) (i : RoundInput V)
    : option CouncilRound * list CouncilEvent * list MemberAsk :=
  let pending_butt_in := last (ri_butt_ins i) in
  let context := build_context history pending_butt_in in
  let ask a := mkAsk (provider a) (ca_persona a) (round_user_text topic context round) in
  let answers := imap (fun k a => run_agent council_id round (ca_id a) (ri_answers i k)) agents in
  let started := CouncilRoundStart council_id round :: concat (snd <$> answers) in
  if round_waits agents i then (None, started, ask <$> agents)
  else
    let responses := omap (M := list) fst answers in
    (Some (mkRoundOf round responses pending_butt_in),
     started ++ [CouncilRoundDone council_id round (convergence_score responses) (extract_agreements responses)],
     ask <$> agents).

(** [for round_num in 1..=max_rounds]: [n] rounds are left.  Without a reason
    the council waits. *)
Fixpoint council_rounds (council_id topic : text) (agents : list CouncilAgent) (provider : CouncilAgent -> MemberProvider)
    (threshold : spec_float) (world : Z -> RoundInput V) (n : nat) (round : Z) (history : list CouncilRound)
    : list CouncilRound * list CouncilEvent * list MemberAsk * option text :=
  match n with
  | O => (history, [], [], Some (chars "max_rounds"))
  | S n =>
      match council_round council_id topic agents provider history round (world round) with
      | (None, evs, asks) => (history, evs, asks, None)
      | (Some r, evs, asks) =>
          let history := history ++ [r] in
          if f32_ge (convergence_score (cr_responses r)) threshold then (history, evs, asks, Some (chars "consensus"))
          else
            let '(h, evs', asks', reason) := council_rounds council_id topic agents provider threshold world n (round + 1) history in
            (h, evs ++ evs', asks ++ asks', reason)
      end
  end.

(** What a council leaves. *)
Record CouncilRun := mkRun {
  run_history : list CouncilRound; run_events : list CouncilEvent; run_asks : list MemberAsk;
  run_reason : text; run_synthesis : text
}.

(** It returns, it panics, or it waits for a call that never ends, with the
    rounds done by then. *)
Inductive CouncilOutcome :=
| CouncilReturns (run : CouncilRun)
| CouncilPanics
| CouncilWaits (history : list CouncilRound) (events : list CouncilEvent) (asks : list MemberAsk).

Definition run_council (council_id topic : text) (agent_defs : list CouncilAgentDef) (max_rounds : Z) (threshold : spec_float)
    (anthropic_key : text) (oai_keys : OaiKeyRing) (oai_base_url default_backend default_model : text)
    (world : Z -> RoundInput V) (synthesis_answer : MemberAnswer V) : CouncilOutcome :=
  let agents := resolve_agents agent_defs default_backend default_model in
  let provider a := make_provider a anthropic_key oai_keys oai_base_url in
  let '(history, evs, asks, reason) :=
    council_rounds council_id topic agents provider threshold world (Z.to_nat max_rounds) 1 [] in
  let evs := CouncilStarted council_id topic agent_defs :: evs in
  match reason with
  | None => CouncilWaits history evs asks
  | Some reason =>
      let returns asks synthesis :=
        CouncilReturns (mkRun history (evs ++ [CouncilComplete council_id (as_u32 (zlen history)) reason synthesis])
                          asks reason synthesis) in
      match history with
      | [] => returns asks (chars "Council produced no responses.")
      | _ =>
          match agents with
          | [] => CouncilPanics
          | first :: _ =>
              let ask := mkAsk (provider first) SYNTHESIS_PROMPT
                           (chars "Topic: " ++ topic ++ [10; 10] ++ build_context history None) in
              match synthesize synthesis_answer with
              | Some synthesis => returns (asks ++ [ask]) synthesis
              | None => if hangs synthesis_answer then CouncilWaits history evs (asks ++ [ask]) else CouncilPanics
              end
          end
      end
  end.
End council.

(** ** The handler and the routes *)

(** What the handler reads of its arguments besides. *)
Class CouncilJson (V : Type) := { json_as_f32 : V -> option spec_float }.

Record CouncilRecord := mkCouncilRecord {
  cr_id : text; cr_topic : text; cr_agents : list CouncilAgentDef; cr_complete : bool; cr_rounds : Z; cr_synthesis : text
}.

(** The handler's counter, the listing, the queues of the running councils'
    channels and the gateway's counter. *)
Record CouncilHub := mkHub {
  hub_counter : Z; hub_sessions : list CouncilRecord; hub_butt_in : gmap text (list text); hub_next_gw : Z
}.

Definition hub_boot (next_gw : Z) : CouncilHub := mkHub 0 [] ∅ next_gw.

Definition MAX_COUNCIL_RECORDS : nat := 50.
Definition BUTT_IN_CAPACITY : nat := 4.
(** The gateway's sentinel session and call. *)
Definition SENTINEL : Z := u64_max.

(** What a tool call is answered at once; [None]: nothing is said. *)
Inductive ConveneReply :=
| ConveneRefused (message : option text)
| ConveneStarted (council_id topic : text) (agents : list CouncilAgentDef) (max_rounds : Z) (threshold : spec_float).

Section hub.
Context {V : Type} `{!JsonArgs V} `{!JsonNums V} `{!JsonValue V} `{!JsonBuild V} `{!CouncilJson V}.

Definition parse_agent_def (v : V) : option CouncilAgentDef :=
  match json_as_str v with
  | Some id => Some (mkAgentDef id [] None None None)
  | None =>
      if json_is_object v then
        id ← arg_str v (chars "id");
        Some (mkAgentDef id (default [] (arg_str v (chars "persona"))) (arg_str v (chars "backend"))
                (arg_str v (chars "model")) (arg_str v (chars "color")))
      else None
  end.

(** One message of the handler's channel, up to the spawn of the council. *)
Definition convene (h : CouncilHub) (session : Z) (args : V) : CouncilHub * ConveneReply :=
  let '(council_id, counter) :=
    match arg_str args (chars "council_id") with
    | Some id => (id, hub_counter h)
    | None => let counter := as_u64 (hub_counter h + 1) in (chars "c" ++ dec_text counter, counter)
    end in
  let topic := default [] (arg_str args (chars "topic")) in
  let max_rounds := as_u32 (default 3 (arg_u64 args (chars "max_rounds"))) in
  let threshold := default F32_DEFAULT_THRESHOLD (json_get args (chars "consensus_threshold") ≫= json_as_f32) in
  let refused h message := (h, ConveneRefused (if session =? SENTINEL then None else Some message)) in
  let h := mkHub counter (hub_sessions h) (hub_butt_in h) (hub_next_gw h) in
  match arg_array args (chars "agents") with
  | None => refused h (chars "convene_council: 'agents' must be an array")
  | Some arr =>
      match omap (M := list) parse_agent_def arr with
      | [] => refused h (chars "convene_council: at least one agent required")
      | agent_defs =>
          (mkHub counter (hub_sessions h ++ [mkCouncilRecord council_id topic agent_defs false 0 []])
             (<[council_id := []]> (hub_butt_in h)) (hub_next_gw h),
           ConveneStarted council_id topic agent_defs max_rounds threshold)
      end
  end.

(** [sess.retain]: the oldest complete records go until [excess] are gone. *)
Fixpoint retain_records (excess : nat) (rs : list CouncilRecord) : list CouncilRecord :=
  match rs with
  | [] => []
  | r :: rs =>
      if (0 <? excess)%nat && cr_complete r then retain_records (excess - 1) rs
      else r :: retain_records excess rs
  end.

Definition complete_record (synthesis : text) (r : CouncilRecord) : CouncilRecord :=
  mkCouncilRecord (cr_id r) (cr_topic r) (cr_agents r) true (if cr_rounds r =? 0 then 1 else cr_rounds r) synthesis.

(** The first record with the id. *)
Fixpoint complete_first (council_id synthesis : text) (rs : list CouncilRecord) : list CouncilRecord :=
  match rs with
  | [] => []
  | r :: rs =>
      if bool_decide (cr_id r = council_id) then complete_record synthesis r :: rs
      else r :: complete_first council_id synthesis rs
  end.

Definition bounded_records (rs : list CouncilRecord) : list CouncilRecord :=
  if (MAX_COUNCIL_RECORDS <? length rs)%nat then retain_records (length rs - MAX_COUNCIL_RECORDS) rs else rs.

(** What the council's task does when [run_council] has returned and the log
    writer is done; the tool's answer, unless the gateway asked. *)
Definition council_finished (h : CouncilHub) (session : Z) (council_id synthesis : text) : CouncilHub * option text :=
  (mkHub (hub_counter h) (bounded_records (complete_first council_id synthesis (hub_sessions h)))
     (delete council_id (hub_butt_in h)) (hub_next_gw h),
   if session =? SENTINEL then None else Some synthesis).

(** [POST /api/council]: the id given and what goes to the handler; [None]: a
    body that is neither an object nor null panics the request. *)
Definition council_start (h : CouncilHub) (body : V) : option (CouncilHub * text * (Z * V)) :=
  let id := chars "gw" ++ dec_text (hub_next_gw h) in
  let h := mkHub (hub_counter h) (hub_sessions h) (hub_butt_in h) (as_u64 (hub_next_gw h + 1)) in
  if json_is_object body || json_is_null body
  then Some (h, id, (SENTINEL, json_insert body (chars "council_id") (json_of_str id)))
  else None.

Definition council_detail (h : CouncilHub) (id : text) : option CouncilRecord :=
  List.find (fun r => bool_decide (cr_id r = id)) (hub_sessions h).

Inductive ButtInReply := ButtInEmpty | ButtInQueued | ButtInWaits | ButtInUnknown.

(** [POST /api/council/:id/butt-in]; a full channel makes it wait, with the
    map's lock held. *)
Definition council_butt_in (h : CouncilHub) (id : text) (body : V) : CouncilHub * ButtInReply :=
  let msg := default [] (arg_str body (chars "message")) in
  if is_nil msg then (h, ButtInEmpty)
  else
    match hub_butt_in h !! id with
    | Some queue =>
        if (length queue <? BUTT_IN_CAPACITY)%nat
        then (mkHub (hub_counter h) (hub_sessions h) (<[id := queue ++ [msg]]> (hub_butt_in h)) (hub_next_gw h), ButtInQueued)
        else (h, ButtInWaits)
    | None => (h, ButtInUnknown)
    end.
End hub.

(** *** The log *)

(** What the log writer's subscription yields, once its file is open. *)
Inductive LogItem := LogEvent (ev : CouncilEvent) | LogLagged | LogClosed.

Definition is_last_event (council_id : text) (ev : CouncilEvent) : bool :=
  match ev with CouncilComplete id _ _ _ => bool_decide (id = council_id) | _ => false end.

(** Which events get a line. *)
Definition council_log_line (council_id : text) (ev : CouncilEvent) : bool :=
  match ev with
  | CouncilStarted id _ _ | CouncilRoundStart id _ | CouncilAgentDone id _ _ _ | CouncilRoundDone id _ _ _
  | CouncilComplete id _ _ _ => bool_decide (id = council_id)
  | CouncilAgentDelta _ _ _ _ => false
  end.

(** The lines written, and whether the writer ended: the council's task waits
    for that. *)
Fixpoint log_loop (council_id : text) (items : list LogItem) : list CouncilEvent * bool :=
  match items with
  | [] => ([], false)
  | LogClosed :: _ => ([], true)
  | LogLagged :: items => log_loop council_id items
  | LogEvent ev :: items =>
      let line := if council_log_line council_id ev then [ev] else [] in
      if is_last_event council_id ev then (line, true)
      else let '(lines, ended) := log_loop council_id items in (line ++ lines, ended)
  end.

(** ** How a council ends *)

(** One text inside another. *)
Definition within (p s : text) : Prop := exists a b, s = a ++ p ++ b.

Lemma within_self p : within p p.
Proof. exists [], []. by rewrite app_nil_r. Qed.

Lemma within_app_l p s s' : within p s -> within p (s ++ s').
Proof. intros (a & b & ->). exists a, (b ++ s'). by rewrite <- !app_assoc. Qed.

Lemma within_app_r p s s' : within p s' -> within p (s ++ s').
Proof. intros (a & b & ->). exists (s ++ a), b. by rewrite <- !app_assoc. Qed.

Lemma within_concat p l ls : l ∈ ls -> within p l -> within p (concat ls).
Proof.
  intros Hl Hp. induction Hl as [|l' ls l _ IH]; cbn [concat]; [by apply within_app_l|by apply within_app_r, IH].
Qed.

Create HintDb texts.
#[local] Hint Resolve within_self within_app_l within_app_r : texts.

(** What the members of a round have said, and people before it, is in the
    context of every later one. *)
Lemma round_text_holds r e : e ∈ cr_responses r -> within e.2 (round_text r).
Proof.
  intros He. unfold round_text. do 5 apply within_app_r.
  eapply within_concat; [by apply list_elem_of_fmap_2|]. do 3 apply within_app_r. auto with texts.
Qed.

Lemma round_text_human r h : cr_human r = Some h -> within h (round_text r).
Proof. intros E. unfold round_text. rewrite E. apply within_app_l. do 4 apply within_app_r. auto with texts. Qed.

Lemma context_holds rs b r p : r ∈ rs -> within p (round_text r) -> within p (build_context rs b).
Proof.
  intros Hr Hp. unfold build_context. apply within_app_l. by eapply within_concat; [apply list_elem_of_fmap_2|].
Qed.

Lemma context_message rs h : within h (build_context rs (Some h)).
Proof. unfold build_context. do 3 apply within_app_r. auto with texts. Qed.

Lemma prompt_holds topic ctx k p : within p ctx -> within p (round_user_text topic ctx k).
Proof.
  intros Hp. unfold round_user_text. destruct ctx as [|c ctx]; cbn [is_nil].
  - destruct Hp as (a & b & E). symmetry in E. apply app_eq_nil in E as [_ E]. apply app_eq_nil in E as [-> _].
    exists [], (chars "Topic: " ++ topic ++ [10; 10] ++ chars "Round " ++ dec_text k ++ chars ": Share your perspective."). done.
  - do 3 apply within_app_r. by apply within_app_l.
Qed.

Lemma prompt_topic topic ctx k : within topic (round_user_text topic ctx k).
Proof. unfold round_user_text. apply within_app_r, within_app_l, within_self. Qed.

Section ends.
Context {V : Type} `{!LowerTable} `{!CharClasses}.
Context (council_id topic : text) (agents : list CouncilAgent) (provider : CouncilAgent -> MemberProvider)
  (threshold : spec_float) (world : Z -> RoundInput V).

(** The answers, the record and the events of the round with a number: they do
    not depend on the rounds before it. *)
Definition answers_at (k : Z) : list (option (text * text) * list CouncilEvent) :=
  imap (fun i a => run_agent council_id k (ca_id a) (ri_answers (world k) i)) agents.
Definition record_at (k : Z) : CouncilRound :=
  mkRoundOf k (omap (M := list) fst (answers_at k)) (last (ri_butt_ins (world k))).
Definition score_at (k : Z) : spec_float := convergence_score (cr_responses (record_at k)).
Definition events_at (k : Z) : list CouncilEvent :=
  CouncilRoundStart council_id k :: concat (snd <$> answers_at k)
  ++ [CouncilRoundDone council_id k (score_at k) (extract_agreements (cr_responses (record_at k)))].

(** The rounds before one. *)
Definition records_before (k : Z) : list CouncilRound := record_at <$> seqZ 1 (k - 1).

Definition asks_at (k : Z) : list MemberAsk :=
  (fun a => mkAsk (provider a) (ca_persona a)
              (round_user_text topic (build_context (records_before k) (last (ri_butt_ins (world k)))) k)) <$> agents.

(** A request to a member: by its own provider, in its own persona, with the
    topic, every answer given and every message heard in the rounds before, and
    the message waiting now. *)
Definition asked_well (k : Z) (a : CouncilAgent) (q : MemberAsk) : Prop :=
  ma_provider q = provider a /\ ma_system q = ca_persona a /\ within topic (ma_text q) /\
  (forall j e, 1 <= j < k -> e ∈ cr_responses (record_at j) -> within e.2 (ma_text q)) /\
  (forall j h, 1 <= j < k -> last (ri_butt_ins (world j)) = Some h -> within h (ma_text q)) /\
  (forall h, last (ri_butt_ins (world k)) = Some h -> within h (ma_text q)).

Lemma asks_well k : Forall2 (asked_well k) agents (asks_at k).
Proof.
  unfold asks_at. apply Forall2_fmap_r, Forall_Forall2_diag, Forall_forall. intros a _.
  assert (forall j, 1 <= j < k -> record_at j ∈ records_before k) as Hin.
  { intros j Hj. unfold records_before. apply list_elem_of_fmap_2, elem_of_seqZ. lia. }
  split_and!; cbn [ma_provider ma_system ma_text]; [done|done|apply prompt_topic|..].
  - intros j e Hj He. eapply prompt_holds, context_holds; [by apply Hin|by apply round_text_holds].
  - intros j h Hj Hh. eapply prompt_holds, context_holds; [by apply Hin|by apply round_text_human].
  - intros h ->. apply prompt_holds, context_message.
Qed.

(** Every member's call of a round ends; the score stays below. *)
Definition answered (k : Z) : Prop := round_waits agents (world k) = false.
Definition short_of (k : Z) : Prop := f32_ge (score_at k) threshold = false.

Lemma council_round_at k :
  council_round council_id topic agents provider (records_before k) k (world k) =
  if round_waits agents (world k)
  then (None, CouncilRoundStart council_id k :: concat (snd <$> answers_at k), asks_at k)
  else (Some (record_at k), events_at k, asks_at k).
Proof. unfold council_round. cbv zeta. by destruct (round_waits agents (world k)). Qed.

(** The rounds held from [round] on when [n] are left. *)
Record rounds_held (n m : nat) (round : Z) (reason : text) : Prop := {
  rh_bound : (m <= n)%nat;
  rh_answered : forall k, round <= k < round + Z.of_nat m -> answered k;
  rh_before : forall k, round <= k < round + Z.of_nat m - 1 -> short_of k;
  rh_end : (reason = chars "consensus" /\ (0 < m)%nat /\ f32_ge (score_at (round + Z.of_nat m - 1)) threshold = true) \/
           (reason = chars "max_rounds" /\ m = n /\ ((0 < m)%nat -> short_of (round + Z.of_nat m - 1)))
}.

(** [m] rounds done, none at the threshold, and a member of the next that never
    answers. *)
Record round_stuck (n m : nat) (round : Z) : Prop := {
  rs_bound : (m < n)%nat;
  rs_before : forall k, round <= k < round + Z.of_nat m -> answered k /\ short_of k;
  rs_stuck : ~ answered (round + Z.of_nat m)
}.

Lemma records_snoc k : 1 <= k -> records_before k ++ [record_at k] = records_before (k + 1).
Proof.
  intros Hk. unfold records_before. replace (k + 1 - 1) with ((k - 1) + 1) by lia.
  rewrite seqZ_app, fmap_app by lia. do 2 f_equal. cbn. by replace (1 + (k - 1)) with k by lia.
Qed.

Lemma council_rounds_held n : forall round, 1 <= round ->
  exists m,
    (exists reason, rounds_held n m round reason /\
      council_rounds council_id topic agents provider threshold world n round (records_before round) =
        (records_before (round + Z.of_nat m), concat (events_at <$> seqZ round (Z.of_nat m)),
         concat (asks_at <$> seqZ round (Z.of_nat m)), Some reason)) \/
    (round_stuck n m round /\ exists evs asks,
      council_rounds council_id topic agents provider threshold world n round (records_before round) =
        (records_before (round + Z.of_nat m), evs, asks, None)).
Proof.
  induction n as [|n IH]; intros round Hr; cbn [council_rounds].
  { exists 0%nat. left. exists (chars "max_rounds"). rewrite Z.add_0_r. split; [|done].
    constructor; [lia|lia|lia|]. right. split_and!; [done|done|lia]. }
  rewrite council_round_at. destruct (round_waits agents (world round)) eqn:Ew.
  { exists 0%nat. right. rewrite Z.add_0_r. split; [|by eexists _, _].
    constructor; [lia|lia|]. unfold answered. by rewrite Z.add_0_r, Ew. }
  fold (score_at round). rewrite records_snoc by done.
  assert (forall m, seqZ round (Z.of_nat (S m)) = round :: seqZ (round + 1) (Z.of_nat m)) as Hseq.
  { intros m. rewrite seqZ_cons by lia. do 2 f_equal; lia. }
  assert (forall m, round + Z.of_nat (S m) = round + 1 + Z.of_nat m) as Hadd by lia.
  destruct (f32_ge (score_at round) threshold) eqn:Eg.
  - exists 1%nat. left. exists (chars "consensus"). rewrite (Hseq 0%nat). cbn [fmap list_fmap concat Z.of_nat seqZ]. rewrite !app_nil_r.
    split; [|done]. constructor; [lia| |intros k Hk; lia|].
    + intros k Hk. by replace k with round by lia.
    + left. split_and!; [done|lia|]. by replace (round + Z.of_nat 1 - 1) with round by lia.
  - destruct (IH (round + 1) ltac:(lia)) as (m & [(reason & [Hb Ha Hbefore Hend] & ->)|([Hb Hbefore Hst] & evs & asks & ->)]); exists (S m).
    + left. exists reason. rewrite Hseq, Hadd. cbn [fmap list_fmap concat]. split; [|done]. constructor; [lia| | |].
      * intros k Hk. destruct (decide (k = round)) as [->|Hne]; [done|]. apply Ha. lia.
      * intros k Hk. destruct (decide (k = round)) as [->|Hne]; [done|]. apply Hbefore. lia.
      * rewrite Hadd. destruct Hend as [(-> & Hm & Hg)|(-> & -> & Hg)]; [left; split_and!; [done|lia|done]|right].
        split_and!; [done|done|]. intros _. destruct n as [|n']; [|apply Hg; lia].
        unfold short_of. by replace (round + 1 + Z.of_nat 0 - 1) with round by lia.
    + right. rewrite Hadd. split; [|by eexists _, _]. constructor; [lia| |by rewrite Hadd].
      intros k Hk. destruct (decide (k = round)) as [->|Hne]; [done|]. apply Hbefore. lia.
Qed.
End ends.

(** C30: What becomes of any council with a member, in every case.  It returns
    where every member's call of every round held, and the synthesis, comes to
    an end: at the first round whose score reaches the threshold, or after the
    last.  Then each member was asked once in every round, by its own provider
    and in its own persona, with the topic, all that was answered and heard in
    the rounds before and the message waiting, and the first member once more
    for the synthesis; the history holds each round once, in order, with the
    answers of the members whose task lived and the last of the messages queued
    by then; the events open and close each round and the council once.
    It waits for ever, since no call has a timeout, just where a member of a
    round it reached never answers or the synthesis never ends; and it panics
    only where the call for the synthesis does. *)
Theorem council_runs_to_consensus {V : Type} `{!LowerTable} `{!CharClasses} (council_id topic : text)
    (agent_defs : list CouncilAgentDef) (max_rounds : Z) (threshold : spec_float) (anthropic_key : text)
    (oai_keys : OaiKeyRing) (oai_base_url default_backend default_model : text) (world : Z -> RoundInput V)
    (synthesis_answer : MemberAnswer V) :
  agent_defs <> [] -> 0 <= max_rounds <= u32_max ->
  let agents := resolve_agents agent_defs default_backend default_model in
  let provider a := make_provider a anthropic_key oai_keys oai_base_url in
  let rounds n := seqZ 1 (Z.of_nat n) in
  let held := rounds_held council_id agents threshold world (Z.to_nat max_rounds) in
  match run_council council_id topic agent_defs max_rounds threshold anthropic_key oai_keys oai_base_url
          default_backend default_model world synthesis_answer with
  | CouncilReturns run =>
      exists n, held n 1 (run_reason run) /\
      run_history run = (record_at council_id agents world <$> rounds n) /\
      run_events run = CouncilStarted council_id topic agent_defs
        :: concat (events_at council_id agents world <$> rounds n)
        ++ [CouncilComplete council_id (Z.of_nat n) (run_reason run) (run_synthesis run)] /\
      (exists per_round synthesis_asks, run_asks run = concat per_round ++ synthesis_asks /\
         Forall2 (fun k asks => Forall2 (asked_well council_id topic agents provider world k) agents asks) (rounds n) per_round /\
         ma_provider <$> synthesis_asks = if (0 <? n)%nat then provider <$> take 1 agents else []) /\
      (if (0 <? n)%nat then synthesize synthesis_answer = Some (run_synthesis run)
       else run_synthesis run = chars "Council produced no responses.")
  | CouncilWaits history _ _ =>
      exists n, history = (record_at council_id agents world <$> rounds n) /\
      (round_stuck council_id agents threshold world (Z.to_nat max_rounds) n 1 \/
       (exists reason, held n 1 reason) /\ (0 < n)%nat /\ hangs synthesis_answer = true)
  | CouncilPanics => (exists n reason, held n 1 reason /\ (0 < n)%nat) /\ synthesis_answer = MemberPanics
  end.
Proof.
  intros Hne Hmax agents provider rounds held. unfold run_council. fold agents. cbv zeta. fold provider.
  destruct (council_rounds_held council_id topic agents provider threshold world (Z.to_nat max_rounds) 1 ltac:(lia))
    as (n & [(reason & Hh & E)|(Hst & evs & asks & E)]); change (records_before council_id agents world 1) with (@nil CouncilRound) in E;
    rewrite E; clear E;
    assert (records_before council_id agents world (1 + Z.of_nat n) = (record_at council_id agents world <$> rounds n)) as ->
      by (unfold records_before, rounds; do 2 f_equal; lia); [|by exists n; split; [|left]].
  pose proof (rh_bound _ _ _ _ _ _ _ _ Hh) as Hn.
  assert (as_u32 (zlen (record_at council_id agents world <$> rounds n)) = Z.of_nat n) as Ez.
  { unfold zlen, rounds. rewrite length_fmap, length_seqZ. unfold_int. rewrite Nat2Z.id, Z.mod_small; lia. }
  assert (Forall2 (fun k asks => Forall2 (asked_well council_id topic agents provider world k) agents asks) (rounds n)
            (asks_at council_id topic agents provider world <$> rounds n)) as Hasks.
  { apply Forall2_fmap_r, Forall_Forall2_diag, Forall_forall. intros k _. apply asks_well. }
  rewrite Ez. destruct (record_at council_id agents world <$> rounds n) as [|r rs] eqn:Er.
  - assert (n = 0%nat) as -> by (apply (f_equal length) in Er; unfold rounds in Er; rewrite length_fmap, length_seqZ in Er; cbn in Er; lia).
    exists 0%nat. cbn [run_reason run_history run_events run_asks run_synthesis]. split_and!; try done.
    eexists _, []. by split; [rewrite app_nil_r|].
  - assert (0 < n)%nat as Hpos by (destruct n; [done|lia]).
    destruct agents as [|first rest] eqn:Ea; [by destruct agent_defs|].
    destruct (synthesize synthesis_answer) as [synthesis|] eqn:Es.
    + exists n. cbn [run_reason run_history run_events run_asks run_synthesis]. rewrite (proj2 (Nat.ltb_lt _ _) Hpos).
      split_and!; try done. eexists _, [_]. by split_and!.
    + destruct synthesis_answer as [| | |pieces]; try done; cbn [hangs].
      * split; [|done]. by exists n, reason.
      * exists n. split; [done|]. right. split_and!; [by exists reason|done|done].
Qed.

(** ** Agreement *)

Section agreement.
Context `{!LowerTable} `{!CharClasses}.

Lemma zlen_filter_range {A} (p : A -> bool) (l : list A) : 0 <= zlen (List.filter p l) <= zlen l.
Proof. unfold zlen. pose proof (List.filter_length_le p l). lia. Qed.

Lemma convergence_hits_range responses : 0 <= convergence_hits responses <= 10.
Proof.
  unfold convergence_hits. cbv zeta.
  match goal with |- context [List.filter ?p AGREE_WORDS] => pose proof (zlen_filter_range p AGREE_WORDS) end.
  match goal with |- context [List.filter ?p AGREE_PHRASES] => pose proof (zlen_filter_range p AGREE_PHRASES) end.
  change (zlen AGREE_WORDS) with 6 in *. change (zlen AGREE_PHRASES) with 4 in *. lia.
Qed.

(** A test of the eleven scores there are. *)
Lemma eleven_scores (p : Z -> bool) responses :
  forallb p (seqZ 0 11) = true -> p (convergence_hits responses) = true.
Proof.
  intros Hp. apply (proj1 (forallb_forall_elem p (seqZ 0 11)) Hp). apply elem_of_seqZ.
  pose proof (convergence_hits_range responses). lia.
Qed.

(** At the default threshold a round is a consensus when three of the ten
    markers occur in it, whoever wrote them and about what. *)
Lemma default_consensus_is_three responses :
  f32_ge (convergence_score responses) F32_DEFAULT_THRESHOLD = (3 <=? convergence_hits responses).
Proof.
  apply Bool.eqb_prop.
  apply (eleven_scores (fun h => Bool.eqb (f32_ge (score_of h) F32_DEFAULT_THRESHOLD) (3 <=? h))).
  vm_compute. reflexivity.
Qed.

(** The score is a number between 0 and 1, and 1 from the fourth marker on. *)
Lemma score_saturates responses :
  f32_ge (convergence_score responses) F32_ONE = (4 <=? convergence_hits responses) /\
  f32_ge F32_ONE (convergence_score responses) = true /\ f32_ge (convergence_score responses) (f32_of 0) = true.
Proof.
  split_and!.
  - apply Bool.eqb_prop. apply (eleven_scores (fun h => Bool.eqb (f32_ge (score_of h) F32_ONE) (4 <=? h))).
    vm_compute. reflexivity.
  - apply (eleven_scores (fun h => f32_ge F32_ONE (score_of h))). vm_compute. reflexivity.
  - apply (eleven_scores (fun h => f32_ge (score_of h) (f32_of 0))). vm_compute. reflexivity.
Qed.

Definition short_agreements (out : list text) : Prop := (length out <= 5)%nat /\ Forall (fun s => str_len s < 200) out.

Lemma agreeing_sentences_short agent_id ss : forall out,
  short_agreements out -> (length out < 5)%nat -> short_agreements (agreeing_sentences agent_id ss out).
Proof.
  induction ss as [|s ss IH]; intros out Hout Hlt; cbn [agreeing_sentences]; cbv zeta; [done|].
  destruct (str_contains (chars "agree") (str_lower s) || str_contains (chars "consensus") (str_lower s)
            || str_contains (chars "we should") (str_lower s)); [|by apply IH].
  set (line := chars "[" ++ _). set (out' := if str_len line <? 200 then _ else _).
  assert (short_agreements out') as Ho.
  { unfold out'. destruct Hout as [Hl Hs]. destruct (Z.ltb_spec (str_len line) 200); [|done].
    split; [rewrite length_app; cbn; lia|apply Forall_app; auto]. }
  destruct (Nat.leb_spec 5 (length out')); [done|by apply IH].
Qed.

(** At most five agreements, each shorter than 200 bytes. *)
Lemma agreements_short responses : short_agreements (extract_agreements responses).
Proof.
  unfold extract_agreements. assert (short_agreements []) as Hnil by (split; [cbn; lia|done]). revert Hnil.
  assert (length (@nil text) < 5)%nat as Hlt by (cbn; lia). revert Hlt. generalize (@nil text).
  induction responses as [|[a t] rs IH]; intros out Hlt Hout; cbn [agreements_from]; cbv zeta; [done|].
  pose proof (agreeing_sentences_short a (split_str (chars ". ") 0 t) out Hout Hlt) as Ho.
  destruct (Nat.leb_spec 5 (length (agreeing_sentences a (split_str (chars ". ") 0 t) out))); [done|by apply IH].
Qed.
End agreement.

(** ** Streams end *)

(** A stream that starts ends once, so the turn that reads it stops on [CDone]
    or on an error and never runs off its end. *)
Lemma routed_stream_ends {V : Type} `{!JsonArgs V} `{!JsonNums V} `{!JsonValue V} `{!JsonDoc V}
    `{!JsonBuild V} send_oai send_anthropic effort backend model url key
    ring cache stats (history : list (Message V)) tools system out stats' :
  routed_messages_stream send_oai send_anthropic effort backend model url key ring cache stats history tools system
    = (Some out, stats') -> ends_once out.
Proof.
  unfold routed_messages_stream, oai_messages_stream, anthropic_messages_stream. cbv zeta.
  destruct (is_oai_backend backend).
  - destruct (send_oai _) as [| |items]; [done|done|]. intros [= <- _]. apply oai_stream_ends.
  - destruct (is_nil key); [done|]. destruct (send_anthropic _ _) as [| |items]; [done|done|].
    pose proof (anthropic_stream_ends stats items) as He. destruct (anthropic_stream stats items) as [o s'].
    by intros [= <- _].
Qed.

(** ** Keys *)

(** A member's provider holds the key its backend selects, and no other. *)
Lemma member_keys agent anthropic_key ring url :
  match make_provider agent anthropic_key ring url with
  | MemberOai _ keys backend _ =>
      for_backend keys backend = for_backend ring backend /\
      forall b, slot_for_backend b <> slot_for_backend backend -> for_backend keys b = []
  | MemberAnthropic key _ _ => key = anthropic_key
  end.
Proof.
  unfold make_provider. destruct (is_oai_backend (ca_backend agent)); [|done]. split; [apply ring_slot_back|].
  intros b Hb. rewrite ring_slot_apart by done. unfold for_backend, ring_default. by destruct (slot_cases b) as [->|[->| ->]].
Qed.

(** ** Records *)

Lemma retain_complete e rs : List.filter cr_complete (retain_records e rs) = drop e (List.filter cr_complete rs).
Proof.
  revert e. induction rs as [|r rs IH]; intros e; cbn [retain_records List.filter]; [by destruct e|].
  destruct e as [|e]; cbn [Nat.ltb Nat.leb andb].
  - cbn [List.filter]. rewrite IH. by destruct (cr_complete r).
  - destruct (cr_complete r) eqn:Ec; [|cbn [List.filter]; by rewrite Ec, IH].
    rewrite IH. cbn [drop]. by rewrite Nat.sub_succ, Nat.sub_0_r.
Qed.

Lemma retain_running e rs :
  List.filter (fun r => negb (cr_complete r)) (retain_records e rs) = List.filter (fun r => negb (cr_complete r)) rs.
Proof.
  revert e. induction rs as [|r rs IH]; intros e; cbn [retain_records List.filter]; [done|].
  destruct ((0 <? e)%nat && cr_complete r) eqn:Ec.
  - apply andb_true_iff in Ec as [_ ->]. cbn [negb]. apply IH.
  - cbn [List.filter]. by rewrite IH.
Qed.

Lemma filter_halves (p : CouncilRecord -> bool) rs :
  length rs = (length (List.filter p rs) + length (List.filter (fun r => negb (p r)) rs))%nat.
Proof. induction rs as [|r rs IH]; [done|]. cbn [List.filter]. destruct (p r); cbn [negb length]; lia. Qed.

(** The listing keeps every running council, the newest of the complete ones,
    and no more than fifty unless more are running. *)
Lemma records_bounded rs :
  List.filter (fun r => negb (cr_complete r)) (bounded_records rs) = List.filter (fun r => negb (cr_complete r)) rs /\
  (exists e, List.filter cr_complete (bounded_records rs) = drop e (List.filter cr_complete rs)) /\
  (length (bounded_records rs) <= MAX_COUNCIL_RECORDS `max` length (List.filter (fun r => negb (cr_complete r)) rs))%nat.
Proof.
  unfold bounded_records. destruct (Nat.ltb_spec MAX_COUNCIL_RECORDS (length rs)) as [Hlt|Hle].
  - split_and!; [apply retain_running|by eexists; apply retain_complete|].
    rewrite (filter_halves cr_complete (retain_records _ _)), retain_running, retain_complete, length_drop.
    pose proof (filter_halves cr_complete rs). lia.
  - split_and!; [done|by exists 0%nat|lia].
Qed.

(** ** The log *)

(** The log writer ends only on the council's own last event or a closed bus. *)
Lemma log_ends council_id items :
  (log_loop council_id items).2 = true ->
  exists i, i ∈ items /\ (i = LogClosed \/ exists ev, i = LogEvent ev /\ is_last_event council_id ev = true).
Proof.
  induction items as [|i items IH]; [done|]. destruct i as [ev| |]; cbn [log_loop].
  - destruct (is_last_event council_id ev) eqn:Ec.
    + intros _. exists (LogEvent ev). split; [left|right; by exists ev].
    + destruct (log_loop council_id items) as [ls e]. cbn [snd]. intros He. destruct (IH He) as (i & Hi & Hc).
      exists i. split; [by right|done].
  - intros He. destruct (IH He) as (i & Hi & Hc). exists i. split; [by right|done].
  - intros _. exists LogClosed. split; [left|by left].
Qed.
