(* ===== verification/CouncilRuns.v ===== *)
(** * Concrete councils

    The witness of Council.v and the runs that show what its score, its queue of
    interventions and its log do at their edges.  The character tables are the
    ASCII ones. *)
From Stdlib Require Import Floats.SpecFloat.
From S2P Require Import Prelude Text Policy Protocol History Turn PacLint Sse Oai Anthropic ProviderRuns Council.
#[local] Open Scope Z_scope.

#[export] Instance ascii_lower_table : LowerTable := {| str_lower := to_ascii_lowercase |}.
#[export] Instance ascii_classes : CharClasses := {| char_alphanumeric := is_ascii_alphanumeric |}.
#[export] Instance doc_council : CouncilJson Doc :=
  {| json_as_f32 _ := None |}.

(** Two members; the second one's task panics in the second round. *)
Definition two_members : list CouncilAgentDef :=
  [mkAgentDef (chars "VAJRA") [] (Some (chars "xai")) None None; mkAgentDef (chars "sage") (chars "be brief") None None None].

Definition member_says (s : string) : MemberAnswer Doc := MemberStreams [CTextDelta (chars s); CTextBlock (chars s); CDone].

(** The answers of two members. *)
Definition both (first second : MemberAnswer Doc) (i : nat) : MemberAnswer Doc := match i with O => first | _ => second end.

Definition two_rounds (k : Z) : RoundInput Doc :=
  if k =? 1 then mkInput [] (both (member_says "Tear it down.") (member_says "Keep it."))
  else mkInput [chars "hurry"; chars "mind the cost"]
         (both (member_says "I agree, and I support keeping it. It is exactly right.") MemberPanics).

Definition run_two : CouncilOutcome :=
  run_council (chars "c1") (chars "the wall") two_members 5 F32_DEFAULT_THRESHOLD (chars "ant")
    (mkRing (chars "k1") (chars "k2") (chars "k3")) (chars "http://x/v1") (chars "anthropic") (chars "m") two_rounds (member_says "Keep the wall.").

(** It returns in the second round of five. *)
Lemma council_runs_to_consensus_witness :
  match run_two with
  | CouncilReturns run => run_reason run = chars "consensus" /\ zlen (run_history run) = 2 /\ length (run_asks run) = 5%nat /\
      exists n, rounds_held (chars "c1") (resolve_agents two_members (chars "anthropic") (chars "m")) F32_DEFAULT_THRESHOLD two_rounds 5 n 1
                  (run_reason run)
  | _ => False
  end.
Proof.
  pose proof (council_runs_to_consensus (V := Doc) (chars "c1") (chars "the wall") two_members 5 F32_DEFAULT_THRESHOLD (chars "ant")
    (mkRing (chars "k1") (chars "k2") (chars "k3")) (chars "http://x/v1") (chars "anthropic") (chars "m") two_rounds
    (member_says "Keep the wall.") ltac:(discriminate) ltac:(split; vm_compute; discriminate)) as H. cbv zeta in H. fold run_two in H.
  assert (exists r, run_two = CouncilReturns r /\ run_reason r = chars "consensus" /\ zlen (run_history r) = 2 /\ length (run_asks r) = 5%nat)
    as (r & E & E1 & E2 & E3) by (eexists; split; [vm_compute; reflexivity|split_and!; vm_compute; reflexivity]).
  rewrite E in *. destruct H as (n & Hn & _). split_and!; [exact E1|exact E2|exact E3|exists n; exact Hn].
Defined.

(** A member that falls silent keeps the council waiting, whatever the others
    said: there is no timeout on the call. *)
Example silent_member_holds_the_council :
  match run_council (chars "c1") (chars "the wall") two_members 5 F32_DEFAULT_THRESHOLD (chars "ant") ring_default
          (chars "http://x/v1") (chars "anthropic") (chars "m")
          (fun _ => mkInput [] (both (member_says "I agree, I support it, exactly.") (MemberHangs [chars "Well"]))) (member_says "Keep the wall.") with
  | CouncilWaits history _ _ => history = []
  | _ => False
  end.
Proof. vm_compute. reflexivity. Qed.

(** Of two messages queued before a round only the last one is heard. *)
Example earlier_intervention_is_dropped :
  match run_two with CouncilReturns run => cr_human <$> last (run_history run) | _ => None end = Some (Some (chars "mind the cost")).
Proof. vm_compute. reflexivity. Qed.

(** Three markers are a consensus, also in a refusal. *)
Example refusal_is_a_consensus :
  f32_ge (convergence_score [(chars "a", chars "I cannot support this: it does not align with anything, exactly the opposite.")])
    F32_DEFAULT_THRESHOLD = true.
Proof. vm_compute. reflexivity. Qed.

(** "disagree" is no marker of the score, but a sentence with it is listed as
    an agreement. *)
Example disagreement_is_listed_as_agreement :
  let r := [(chars "a", chars "I disagree. It is late")] in
  convergence_hits r = 0 /\ extract_agreements r = [chars "[a] I disagree"].
Proof. vm_compute. split; reflexivity. Qed.

(** A council without members is refused, so that [agents[0]] exists. *)
Example empty_council_is_refused :
  (convene (hub_boot 0) 7 (jobj [("agents"%string, DArr [DNum 3])])).2 = ConveneRefused (Some (chars "convene_council: at least one agent required")).
Proof. vm_compute. reflexivity. Qed.

Definition convene_as (fs : list (string * Doc)) (h : CouncilHub) : CouncilHub :=
  (convene h 7 (jobj (fs ++ [("agents"%string, DArr [jstr "VAJRA"])]))).1.

(** An id a caller chose and the handler's own can be the same: one queue and
    the first record stand for two councils, and the first to end takes the
    queue away from both. *)
Example council_ids_collide :
  let h := convene_as [] (convene_as [("council_id"%string, jstr "c1")] (hub_boot 0)) in
  (cr_id <$> hub_sessions h) = [chars "c1"; chars "c1"] /\
  let h := (council_finished h 7 (chars "c1") (chars "done")).1 in
  (cr_complete <$> hub_sessions h) = [true; false] /\
  (council_butt_in h (chars "c1") (jobj [("message"%string, jstr "wait")])).2 = ButtInUnknown.
Proof. vm_compute. split; [reflexivity|]. split; reflexivity. Qed.

(** The fifth message waits, with the map locked. *)
Example fifth_message_waits :
  let say h := (council_butt_in h (chars "c1") (jobj [("message"%string, jstr "x")])).1 in
  let h := say (say (say (say (convene_as [] (hub_boot 0))))) in
  (council_butt_in h (chars "c1") (jobj [("message"%string, jstr "x")])).2 = ButtInWaits.
Proof. vm_compute. reflexivity. Qed.

(** A body that is a list panics the request. *)
Example list_body_panics : council_start (hub_boot 0) (DArr []) = None.
Proof. reflexivity. Qed.

(** A last event that the bus dropped is waited for: the council never becomes
    complete and the tool call is never answered. *)
Example lost_last_event_hangs :
  log_loop (chars "c1") [LogEvent (CouncilRoundStart (chars "c1") 1); LogLagged] = ([CouncilRoundStart (chars "c1") 1], false).
Proof. vm_compute. reflexivity. Qed.
