(* ===== verification/Evolution.v ===== *)
(** * The evolution applier

    [agentd/src/evolution.rs], and [spawn_evolution_applier] with what it calls in
    [agentd/src/main.rs]: an agent proposes a change of its own soul, of the
    policy or of the plugins; the applier snapshots what the change overwrites,
    applies it, answers with the real outcome, and can roll it back.  Messages are
    served one at a time.  The memory service answers tool calls, and a write of
    a file ends in one of its ways; both are the world's.  [toml_edit]
    ([TomlDoc]), [toml] ([Policy.PolicyTomlOps]) and JSON are third-party. *)
From Stdlib Require Import QArith.
From S2P Require Import Prelude Text Policy Protocol Identity Turn PacLint.
#[local] Open Scope Z_scope.

(** ** Data *)

Inductive Subsystem := SubPlugins | SubPolicy | SubAgent | SubGateway.

(** [env] in the order the map iterates. *)
Inductive EvolutionProposal :=
  | RegisterMcpServer (name command : text) (env : list (text * text)) (reason : text)
  | UnregisterMcpServer (name reason : text)
  | UpdatePolicyRule (tool_pattern : text) (new_rule : Rule) (reason : text)
  | UpdateSystemPrompt (content reason : text)
  | HotReloadSubsystem (subsystem : Subsystem)
  | RequestHardware (part capability reason bus source : text).

Definition rule_toml_str (r : Rule) : text :=
  match r with RuleAllow => chars "allow" | RuleAsk => chars "ask" | RuleWorkspace => chars "workspace" end.
Definition rule_from_toml (s : text) : option Rule :=
  if bool_decide (s = chars "allow") then Some RuleAllow
  else if bool_decide (s = chars "ask") then Some RuleAsk
  else if bool_decide (s = chars "workspace") then Some RuleWorkspace
  else None.

Definition kind (p : EvolutionProposal) : text :=
  match p with
  | RegisterMcpServer _ _ _ _ => chars "register_mcp_server"
  | UnregisterMcpServer _ _ => chars "unregister_mcp_server"
  | UpdatePolicyRule _ _ _ => chars "update_policy_rule"
  | UpdateSystemPrompt _ _ => chars "update_system_prompt"
  | HotReloadSubsystem _ => chars "hot_reload_subsystem"
  | RequestHardware _ _ _ _ _ => chars "request_hardware"
  end.

Definition parse_evolution_id_from_title (title : text) : option Z :=
  rest ← strip_prefix (chars "evolution ") title;
  '(n, _) ← split_str_once [58] rest;
  parse_u64 (trim n).

(** ** The rollback record and its lines *)

Definition GLOBAL_SOUL_TARGET : text := chars "global".

Record RollbackRecord := mkRecord { rr_undo : EvolutionProposal; rr_owner : text; rr_target : text }.

Definition encode_soul_target (path : option text) : text :=
  match path with
  | None => GLOBAL_SOUL_TARGET
  | Some p => match lines p with (c :: l) :: _ => c :: l | _ => GLOBAL_SOUL_TARGET end
  end.

Definition decode_soul_target (s : text) : option text :=
  let t := trim s in
  if bool_decide (t = []) || bool_decide (t = GLOBAL_SOUL_TARGET) then None else Some t.

Definition rollback_authorized (caller owner node_agent : text) : bool :=
  let owner := trim owner in
  if bool_decide (owner = []) then bool_decide (caller = node_agent)
  else bool_decide (caller = owner) || bool_decide (caller = node_agent).

Definition complete_legacy_record (r : RollbackRecord) (episode_agent : option text) (node_agent : text) : RollbackRecord :=
  mkRecord (rr_undo r)
    (if bool_decide (trim (rr_owner r) = []) then
       default node_agent (a ← episode_agent; if bool_decide (trim a = []) then None else Some (trim a))
     else rr_owner r)
    (if bool_decide (trim (rr_target r) = []) then GLOBAL_SOUL_TARGET else rr_target r).

Definition first_line (s : text) : text := trim (match lines s with l :: _ => l | [] => [] end).

(** What stands behind the first occurrence of a marker, to the end of its line. *)
Definition marker_line (t marker : text) : option text :=
  '(_, rest) ← split_str_once marker t;
  Some (trim (match split_on 10 rest with l :: _ => l | [] => [] end)).

Definition UNDO_SNAPSHOT : text := chars "undo_snapshot: ".
Definition UNDO_OWNER : text := chars "undo_owner: ".
Definition UNDO_TARGET : text := chars "undo_target: ".

(** [serde_json] of a proposal: compact, on one line. *)
Class ProposalCodec := { proposal_json : EvolutionProposal -> text; proposal_of_json : text -> option EvolutionProposal }.
Class ProposalCodecLaws `{!ProposalCodec} : Prop := {
  proposal_back p : proposal_of_json (proposal_json p) = Some p;
  proposal_one_line p : 10 ∉ proposal_json p;
  proposal_trimmed p : trim (proposal_json p) = proposal_json p
}.

Section codec.
Context `{!ProposalCodec}.

Definition undo_step_line (summary : text) (undo : EvolutionProposal) (owner target : text) : text :=
  chars "evolution apply: " ++ summary ++ 10 :: UNDO_SNAPSHOT ++ proposal_json undo
  ++ 10 :: UNDO_OWNER ++ first_line owner ++ 10 :: UNDO_TARGET ++ first_line target.

Definition parse_undo_snapshot_from_text (t : text) : option EvolutionProposal :=
  raw ← marker_line t UNDO_SNAPSHOT; proposal_of_json raw.

Definition parse_rollback_record_from_text (t : text) : option RollbackRecord :=
  undo ← parse_undo_snapshot_from_text t;
  Some (mkRecord undo (default [] (marker_line t UNDO_OWNER)) (default GLOBAL_SOUL_TARGET (marker_line t UNDO_TARGET))).
End codec.

(** ** Memory nodes *)

(** What the applier reads of JSON beyond [JsonArgs] and [JsonNums]; an [f64] is
    the rational it stands for. *)
Class EvoJson (V : Type) := {
  value_of_text : text -> option V;
  value_text : V -> text;
  value_f64 : V -> option Q;
  value_is_null : V -> bool
}.

Section nodes.
Context {V : Type} `{!JsonArgs V} `{!JsonNums V} `{!EvoJson V} `{!ProposalCodec}.

Definition array_of (t : text) : option (list V) := v ← value_of_text t; json_as_array v.

Fixpoint first_record (nodes : list V) : option RollbackRecord :=
  match nodes with
  | [] => None
  | n :: nodes =>
      match arg_str n (chars "content") ≫= parse_rollback_record_from_text with
      | None => first_record nodes
      | Some r =>
          let owner := match rr_owner r with
                       | [] => match arg_str n (chars "agent_id") with Some a => trim a | None => [] end
                       | o => o
                       end in
          Some (mkRecord (rr_undo r) owner (rr_target r))
      end
  end.

Definition parse_rollback_from_episode_memories (mems : text) : option RollbackRecord := array_of mems ≫= first_record.

Definition heal_legacy_target (r : RollbackRecord) (node_agent : text) (soul_file : option text) : RollbackRecord :=
  match rr_undo r with
  | UpdateSystemPrompt _ _ =>
      if (bool_decide (trim (rr_target r) = []) || bool_decide (rr_target r = GLOBAL_SOUL_TARGET))
         && negb (bool_decide (rr_owner r = node_agent)) then
        match (p ← soul_file; if bool_decide (trim p = []) then None else Some (trim p)) with
        | Some path => mkRecord (rr_undo r) (rr_owner r) path
        | None => r
        end
      else r
  | _ => r
  end.

Definition snapshot_is_linked (mems memory_id : text) : bool :=
  match array_of mems with
  | None => false
  | Some nodes =>
      existsb (fun n => bool_decide (arg_str n (chars "id") = Some memory_id)
                        && is_someb (arg_str n (chars "content") ≫= parse_rollback_record_from_text)) nodes
  end.

(** *** Fossils: snapshots stored before they were private, tagged and faint *)

(** What the check reads of a node. *)
Record FossilNode := mkFossil {
  fn_content : option text; fn_id : option text; fn_tags : list text; fn_private : bool; fn_owned : bool; fn_salience : Q
}.

Definition read_node (n : V) : FossilNode :=
  mkFossil (arg_str n (chars "content")) (arg_str n (chars "id"))
    (omap json_as_str (default [] (arg_array n (chars "tags"))))
    (bool_decide (arg_str n (chars "visibility") = Some (chars "private")))
    (match json_get n (chars "agent_id") with Some v => negb (value_is_null v) | None => false end)
    (default 1%Q (json_get n (chars "salience") ≫= value_f64)).

Record HealArgs := mkHeal {
  ha_memory_id : text; ha_agent_id : text; ha_tags : list text; ha_salience : Q; ha_set_agent_id : option text
}.

(** The new tags behind the old ones, each once. *)
Definition with_tag (t : text) (tags : list text) : list text := if existsb (fun x => bool_decide (x = t)) tags then tags else tags ++ [t].

Definition fossil_heal_args (n : FossilNode) (agent_id : text) : option HealArgs :=
  content ← fn_content n;
  if negb (str_contains UNDO_SNAPSHOT content) then None
  else
    id ← fn_id n;
    if existsb (fun x => bool_decide (x = chars "undo_snapshot")) (fn_tags n) && fn_private n && fn_owned n && Qle_bool (fn_salience n) (3 # 10)
    then None
    else Some (mkHeal id agent_id (with_tag (chars "undo_snapshot") (with_tag (chars "evolution") (fn_tags n)))
                 (if Qle_bool (fn_salience n) (1 # 4) then fn_salience n else (1 # 4))
                 (if fn_owned n then None else Some agent_id)).
End nodes.

(** ** The inverse of a proposal *)

Record Prior := mkPrior { pr_old_soul : option text; pr_old_policy_rule : option Rule; pr_old_plugin_cmd : option text }.
Definition no_prior : Prior := mkPrior None None None.

Definition invert (p : EvolutionProposal) (prior : Prior) : option EvolutionProposal :=
  match p with
  | UpdateSystemPrompt _ _ => s ← pr_old_soul prior; Some (UpdateSystemPrompt s (chars "rollback"))
  | UpdatePolicyRule tool_pattern _ _ => r ← pr_old_policy_rule prior; Some (UpdatePolicyRule tool_pattern r (chars "rollback"))
  | RegisterMcpServer name _ _ _ => Some (UnregisterMcpServer name (chars "rollback"))
  | UnregisterMcpServer name _ => c ← pr_old_plugin_cmd prior; Some (RegisterMcpServer name c [] (chars "rollback"))
  | HotReloadSubsystem _ | RequestHardware _ _ _ _ _ => None
  end.

(** ** TOML edits *)

(** What the edits use of [toml_edit]: the root's items, tables of strings, arrays
    of tables. *)
Class TomlDoc (D T : Type) := {
  doc_parse : text -> option D;
  doc_text : D -> text;
  doc_has : D -> text -> bool;
  doc_table : D -> text -> option T;
  doc_set_table : D -> text -> T -> D;
  doc_tables : D -> text -> option (list T);
  doc_set_tables : D -> text -> list T -> D;
  table_new : T;
  table_str : T -> text -> option text;
  table_put : T -> text -> text -> T;
  table_put_inline : T -> text -> list (text * text) -> T
}.

Inductive EvoError := WriteErr (why : text) | ReadErr | TomlErr | RejectedPolicy | SupervisorGone.

Section toml.
Context {D T : Type} `{!TomlDoc D T} `{!PolicyTomlOps}.

Definition rules_key : text := chars "rules".
Definition plugin_key : text := chars "plugin".
Definition id_key : text := chars "id".

Definition policy_rule_from_toml (t tool_pattern : text) : option Rule :=
  doc ← doc_parse t; rules ← doc_table doc rules_key; s ← table_str rules tool_pattern; rule_from_toml s.

Definition has_id (name : text) (t : T) : bool := bool_decide (table_str t id_key = Some name).

Definition plugin_cmd_from_toml (t name : text) : option text :=
  doc ← doc_parse t; arr ← doc_tables doc plugin_key; tbl ← List.find (has_id name) arr; table_str tbl (chars "cmd").

(** The edit is validated before it can reach the file. *)
Definition policy_toml_set_rule (t tool_pattern : text) (r : Rule) : result (text * PolicyConfig) EvoError :=
  match doc_parse t with
  | None => Err TomlErr
  | Some doc =>
      let doc := if doc_has doc rules_key then doc else doc_set_table doc rules_key table_new in
      let doc := match doc_table doc rules_key with
                 | Some rules => doc_set_table doc rules_key (table_put rules tool_pattern (rule_toml_str r))
                 | None => doc
                 end in
      match policy_parse (doc_text doc) with
      | None => Err RejectedPolicy
      | Some config => Ok (doc_text doc, config)
      end
  end.

Definition new_plugin (name command : text) (env : list (text * text)) : T :=
  let tbl := table_put (table_put (table_put table_new id_key name) (chars "cmd") command) (chars "restart") (chars "always") in
  if bool_decide (env = []) then tbl else table_put_inline tbl (chars "env") env.

Definition plugins_toml_add (t name command : text) (env : list (text * text)) : result text EvoError :=
  match doc_parse t with
  | None => Err TomlErr
  | Some doc =>
      Ok (doc_text (match doc_tables doc plugin_key with
                    | Some arr => doc_set_tables doc plugin_key (arr ++ [new_plugin name command env])
                    | None => doc
                    end))
  end.

Fixpoint remove_first {A} (f : A -> bool) (l : list A) : list A :=
  match l with [] => [] | x :: l => if f x then l else x :: remove_first f l end.

Definition plugins_toml_remove (t name : text) : result text EvoError :=
  match doc_parse t with
  | None => Err TomlErr
  | Some doc =>
      Ok (doc_text (match doc_tables doc plugin_key with
                    | Some arr => if existsb (has_id name) arr then doc_set_tables doc plugin_key (remove_first (has_id name) arr) else doc
                    | None => doc
                    end))
  end.
End toml.

Definition WISHLIST_HEADER : text :=
  chars "# ApexOS hardware wishlist" ++ [10; 10]
  ++ chars "APEX's request-to-incarnate queue (EDK, docs/edk.md). Each entry is a part" ++ [10]
  ++ chars "APEX asked for; a human seats it, reboots, and the embodiment probe confirms" ++ [10]
  ++ chars "the new sense live. Remove an entry once it's installed." ++ [10].

Definition wishlist_append (existing : option text) (id : Z) (part capability reason bus source : text) : text :=
  default WISHLIST_HEADER existing
  ++ [10] ++ chars "## [#" ++ dec_text id ++ chars "] " ++ part ++ chars " " ++ 8594 :: chars " " ++ capability ++ [10]
  ++ (if bool_decide (bus = []) then [] else chars "- attaches: " ++ bus ++ [10])
  ++ (if bool_decide (source = []) then [] else chars "- source: " ++ source ++ [10])
  ++ chars "- why: " ++ reason ++ [10]
  ++ chars "- status: REQUESTED " ++ 8212 :: chars " seat it, reboot; the embodiment probe confirms it live" ++ [10].

(** ** The applier's world *)

Inductive CerebroCall :=
  | EpisodeStart (id : Z) (kind agent : text)
  | MemoryStore (content agent : text)
  | EpisodeAddStep (episode memory summary : text)
  | EpisodeMemories (episode : text) (agent : option text)
  | EpisodeEnd (episode : text) (outcome : result text EvoError)
  | ListEpisodes
  | UpdateMemory (args : HealArgs)
  | MemorySearch.

Inductive SvCmd := SpawnPlugin (name command : text) (env : list (text * text)) | KillPlugin (name : text).

(** How [write_atomic] can go: the temporary file renamed into place, or an error,
    and what a write in place would do. *)
Inductive WriteWay := Renamed | WriteFailed (why : text) (in_place : FsWrite).

Class EvoWorld (W V : Type) := {
  call_tool : W -> CerebroCall -> W * option (ToolOutput V);
  write_way : W -> text -> W * WriteWay;
  supervisor_open : W -> bool
}.

Inductive EvoReply :=
  | LintRefused (errs : list Finding) | NoPriorSoul | SnapshotNotStored
  | EvoOk (id : Z) (summary : text) | EvoFailed (e : EvoError)
  | NoRollbackSnapshot (id : Z) | NotTheOwner (id : Z) (owner caller : text)
  | RolledBackOk (summary : text) | RollbackFailed (e : EvoError).

Inductive EvoEv (V : Type) :=
  | Called (c : CerebroCall) (r : option (ToolOutput V))
  | Wrote (path content : text)
  | Told (session call : Z) (r : EvoReply)
  | EvolutionApplied (id session : Z)
  | EvolutionRolledBack (id session : Z)
  | EvolutionError (id session : Z).
Arguments Called {V}. Arguments Wrote {V}. Arguments Told {V}. Arguments EvolutionApplied {V}.
Arguments EvolutionRolledBack {V}. Arguments EvolutionError {V}.

(** The soul of the node is in memory and on disk. *)
Record Evo (W V : Type) := mkEvo {
  es_world : W; es_files : gmap text text; es_soul : text; es_policy : PolicyConfig; es_sent : list SvCmd;
  es_store : gmap Z RollbackRecord; es_log : list (EvoEv V)
}.
Arguments mkEvo {W V}. Arguments es_world {W V}. Arguments es_files {W V}. Arguments es_soul {W V}. Arguments es_policy {W V}.
Arguments es_sent {W V}. Arguments es_store {W V}. Arguments es_log {W V}.

Record EvoCfg := mkEvoCfg {
  ec_soul_path : text; ec_policy_path : text; ec_plugins_path : text; ec_wishlist : option text; ec_node_agent : text
}.

Section applier.
Context {W V D T : Type} `{!EvoWorld W V} `{!JsonArgs V} `{!JsonNums V} `{!EvoJson V} `{!ProposalCodec}.
Context `{!TomlDoc D T} `{!PolicyTomlOps} `{!CharClasses}.
Variable cfg : EvoCfg.
Implicit Types (s : Evo W V).

Definition logged (ev : EvoEv V) s : Evo W V :=
  mkEvo (es_world s) (es_files s) (es_soul s) (es_policy s) (es_sent s) (es_store s) (es_log s ++ [ev]).
Definition set_world (w : W) s : Evo W V :=
  mkEvo w (es_files s) (es_soul s) (es_policy s) (es_sent s) (es_store s) (es_log s).
Definition set_file (path content : text) s : Evo W V :=
  mkEvo (es_world s) (<[path := content]> (es_files s)) (es_soul s) (es_policy s) (es_sent s) (es_store s) (es_log s).
Definition set_soul (content : text) s : Evo W V :=
  mkEvo (es_world s) (es_files s) content (es_policy s) (es_sent s) (es_store s) (es_log s).
Definition set_policy (c : PolicyConfig) s : Evo W V :=
  mkEvo (es_world s) (es_files s) (es_soul s) c (es_sent s) (es_store s) (es_log s).
Definition sent (c : SvCmd) s : Evo W V :=
  mkEvo (es_world s) (es_files s) (es_soul s) (es_policy s) (es_sent s ++ [c]) (es_store s) (es_log s).
Definition set_store (m : gmap Z RollbackRecord) s : Evo W V :=
  mkEvo (es_world s) (es_files s) (es_soul s) (es_policy s) (es_sent s) m (es_log s).

(** A tool call: nothing when the transport failed. *)
Definition proxy_call (c : CerebroCall) s : Evo W V * option (ToolOutput V) :=
  let '(w, r) := call_tool (es_world s) c in (logged (Called c r) (set_world w s), r).

(** Its output when it is there and ok. *)
Definition ok_output (r : option (ToolOutput V)) : option V := o ← r; if out_ok o then Some (out_content o) else None.

(** ** Episodes *)

Definition mcp_text (content : V) : option text :=
  match json_as_array content with
  | Some blocks => head (omap (fun b => arg_str b (chars "text")) blocks)
  | None => match json_as_str content with Some t => Some t | None => Some (value_text content) end
  end.

Definition parse_cerebro_id (content : V) (json_key : text) : option text :=
  t ← mcp_text content;
  match (v ← value_of_text t; arg_str v json_key) with
  | Some id => Some id
  | None => '(_, r) ← split_str_once (chars "(ID: ") t; '(id, _) ← split_str_once [41] r; Some id
  end.

Definition episode_start (id : Z) (kind agent : text) s : Evo W V * option text :=
  let '(s, r) := proxy_call (EpisodeStart id kind agent) s in (s, c ← ok_output r; parse_cerebro_id c (chars "episode_id")).

Definition episode_end (episode : option text) (outcome : result text EvoError) s : Evo W V :=
  match episode with None => s | Some e => (proxy_call (EpisodeEnd e outcome) s).1 end.

(** Stored, linked and read back, or nothing. *)
Definition persist_rollback_snapshot (episode : text) (r : RollbackRecord) (summary : text) s : Evo W V * option text :=
  let content := undo_step_line summary (rr_undo r) (rr_owner r) (rr_target r) in
  let '(s, r1) := proxy_call (MemoryStore content (rr_owner r)) s in
  match (c ← ok_output r1; parse_cerebro_id c (chars "id")) with
  | None => (s, None)
  | Some mid =>
      let '(s, r2) := proxy_call (EpisodeAddStep episode mid summary) s in
      match ok_output r2 with
      | None => (s, None)
      | Some _ =>
          let '(s, r3) := proxy_call (EpisodeMemories episode (Some (rr_owner r))) s in
          match ok_output r3 ≫= mcp_text with
          | Some t => (s, if snapshot_is_linked t mid then Some mid else None)
          | None => (s, None)
          end
      end
  end.

(** ** What a change overwrites *)

Definition compute_undo (p : EvolutionProposal) (agent_soul : option text) s : option EvolutionProposal :=
  invert p
    (match p with
     | UpdateSystemPrompt _ _ =>
         mkPrior (match agent_soul with Some path => es_files s !! path | None => Some (es_soul s) end) None None
     | UpdatePolicyRule tool_pattern _ _ =>
         mkPrior None (t ← es_files s !! ec_policy_path cfg; policy_rule_from_toml t tool_pattern) None
     | UnregisterMcpServer name _ =>
         mkPrior None None (t ← es_files s !! ec_plugins_path cfg; plugin_cmd_from_toml t name)
     | _ => no_prior
     end).

(** ** The change *)

Definition is_perm (why : text) : bool := str_contains (chars "Permission denied") why || str_contains (chars "os error 13") why.

(** Only a denied directory falls back to a write in place, which can stop part
    way. *)
Definition write_atomic (path content : text) s : Evo W V * result unit EvoError :=
  let '(w, way) := write_way (es_world s) path in
  let s := set_world w s in
  let done := logged (Wrote path content) (set_file path content s) in
  match way with
  | Renamed => (done, Ok tt)
  | WriteFailed why in_place =>
      if negb (is_perm why) then (s, Err (WriteErr why))
      else match in_place with
           | WroteAll => (done, Ok tt)
           | WroteNone => (s, Err (WriteErr why))
           | WroteCut n => (logged (Wrote path (take n content)) (set_file path (take n content) s), Err (WriteErr why))
           end
  end.

Definition chars_of (content : text) : text := chars " (" ++ dec_text (str_len content) ++ chars " chars)".

Definition to_supervisor (c : SvCmd) (summary : text) s : Evo W V * result text EvoError :=
  if supervisor_open (es_world s) then (sent c s, Ok summary) else (s, Err SupervisorGone).

Definition apply_system_prompt (content : text) (agent_soul : option text) s : Evo W V * result text EvoError :=
  match agent_soul with
  | Some path =>
      let '(s, r) := write_atomic path content s in
      match r with Err e => (s, Err e) | Ok _ => (s, Ok (chars "agent soul updated" ++ chars_of content)) end
  | None =>
      let '(s, r) := write_atomic (ec_soul_path cfg) content s in
      match r with Err e => (s, Err e) | Ok _ => (set_soul content s, Ok (chars "system prompt updated" ++ chars_of content)) end
  end.

Definition apply_policy_rule (tool_pattern : text) (rule : Rule) s : Evo W V * result text EvoError :=
  match es_files s !! ec_policy_path cfg with
  | None => (s, Err ReadErr)
  | Some t =>
      match policy_toml_set_rule t tool_pattern rule with
      | Err e => (s, Err e)
      | Ok (new_toml, config) =>
          let '(s, r) := write_atomic (ec_policy_path cfg) new_toml s in
          match r with
          | Err e => (s, Err e)
          | Ok _ => (set_policy config s,
                     Ok (chars "policy rule '" ++ tool_pattern ++ chars "' set to '" ++ rule_toml_str rule ++ chars "'"))
          end
      end
  end.

(** The plugins file edited, then the supervisor told. *)
Definition apply_plugins (edit : text -> result text EvoError) (c : SvCmd) (summary : text) s : Evo W V * result text EvoError :=
  match es_files s !! ec_plugins_path cfg with
  | None => (s, Err ReadErr)
  | Some t =>
      match edit t with
      | Err e => (s, Err e)
      | Ok new_toml =>
          let '(s, r) := write_atomic (ec_plugins_path cfg) new_toml s in
          match r with Err e => (s, Err e) | Ok _ => to_supervisor c summary s end
      end
  end.

Definition hot_reload (sub : Subsystem) s : Evo W V * result text EvoError :=
  match sub with
  | SubAgent => (set_soul (default [] (es_files s !! ec_soul_path cfg)) s, Ok (chars "reloaded agent system prompt from disk"))
  | SubPolicy =>
      match es_files s !! ec_policy_path cfg with
      | None => (s, Err ReadErr)
      | Some t => match policy_parse t with
                  | None => (s, Err TomlErr)
                  | Some c => (set_policy c s, Ok (chars "reloaded policy from disk"))
                  end
      end
  | SubPlugins => (s, Ok (chars "plugins hot-reload: use register_mcp_server / unregister_mcp_server for individual plugins"))
  | SubGateway => (s, Ok (chars "gateway hot-reload not supported without daemon restart"))
  end.

Definition file_hardware (id : Z) (part capability reason bus source : text) s : Evo W V * result text EvoError :=
  let path := default (chars "hardware-wishlist.md") (ec_wishlist cfg) in
  let '(s, r) := write_atomic path (wishlist_append (es_files s !! path) id part capability reason bus source) s in
  match r with
  | Err e => (s, Err e)
  | Ok _ => (s, Ok (chars "hardware request filed: " ++ part ++ chars " " ++ 8594 :: chars " " ++ capability
                    ++ chars ". A human must seat it; the next-boot embodiment probe will confirm it. (logged to " ++ path ++ chars ")"))
  end.

Definition apply_evolution (id : Z) (p : EvolutionProposal) (agent_soul : option text) s : Evo W V * result text EvoError :=
  match p with
  | UpdateSystemPrompt content _ => apply_system_prompt content agent_soul s
  | UpdatePolicyRule tool_pattern rule _ => apply_policy_rule tool_pattern rule s
  | RegisterMcpServer name command env _ =>
      apply_plugins (fun t => plugins_toml_add t name command env) (SpawnPlugin name command env)
        (chars "registered MCP server '" ++ name ++ chars "'") s
  | UnregisterMcpServer name _ =>
      apply_plugins (fun t => plugins_toml_remove t name) (KillPlugin name) (chars "unregistered MCP server '" ++ name ++ chars "'") s
  | HotReloadSubsystem sub => hot_reload sub s
  | RequestHardware part capability reason bus source => file_hardware id part capability reason bus source s
  end.

(** ** A proposal *)

(** The soul a session's agent owns: none for the node's own, and for an agent
    that is not registered. *)
Definition soul_target_for (bindings : option (gmap Z text)) (ids : Identities) (session : Z) : option text :=
  let agent := resolve_agent_id (ec_node_agent cfg) bindings session in
  if bool_decide (agent = ec_node_agent cfg) then None else a_soul_file <$> find_agent ids agent.

(** The lint of a soul that claims to be dense; its warnings. *)
Definition lint_gate (p : EvolutionProposal) : result (list Finding) (list Finding) :=
  match p with
  | UpdateSystemPrompt content _ =>
      if is_dense_artifact content then
        let findings := lint content in
        match List.filter fd_error findings with
        | [] => Ok (List.filter (fun f => negb (fd_error f)) findings)
        | errs => Err errs
        end
      else Ok []
  | _ => Ok []
  end.

Definition warning_text (f : Finding) : text :=
  match fd_msg f with
  | EmphasisOutside w => chars "hard-rule marker '" ++ w ++ chars "' outside a [ " ++ 8230 :: chars " ] constraint "
                         ++ 8212 :: chars " put it in the constraint of the form it governs"
  | _ => []
  end.

Fixpoint join (sep : text) (l : list text) : text :=
  match l with [] => [] | [x] => x | x :: l => x ++ sep ++ join sep l end.

Definition with_warnings (warnings : list Finding) (r : result text EvoError) : result text EvoError :=
  match r, warnings with
  | Ok t, _ :: _ => Ok (t ++ chars " " ++ 183 :: chars " pac2lint warnings: " ++ join (chars " | ") (warning_text <$> warnings))
  | r, _ => r
  end.

Definition is_soul_rewrite (p : EvolutionProposal) : bool := match p with UpdateSystemPrompt _ _ => true | _ => false end.

(** A soul rewrite needs its snapshot stored first; the episode it is in. *)
Definition snapshot_gate (id : Z) (p : EvolutionProposal) (agent : text) (record : option RollbackRecord) s
    : Evo W V * result (option text) EvoReply :=
  if negb (is_soul_rewrite p) then (s, Ok None)
  else match record with
       | None => (s, Err NoPriorSoul)
       | Some r =>
           let '(s, eid) := episode_start id (kind p) agent s in
           match eid with
           | None => (s, Err SnapshotNotStored)
           | Some e =>
               let '(s, stored) := persist_rollback_snapshot e r (chars "pre-apply rollback snapshot") s in
               (s, if is_someb stored then Ok (Some e) else Err SnapshotNotStored)
           end
       end.

Definition tell (session call : Z) (r : EvoReply) s : Evo W V := logged (Told session call r) s.

(** After the answer: the episode, the store, the bus. *)
Definition keep_record (id : Z) (p : EvolutionProposal) (record : option RollbackRecord) (episode : option text) (summary : text) s : Evo W V :=
  match record with
  | None => s
  | Some r =>
      let s := if is_soul_rewrite p then s
               else match episode with Some e => (persist_rollback_snapshot e r summary s).1 | None => s end in
      set_store (<[id := r]> (es_store s)) s
  end.

Definition bookkeeping (session id : Z) (p : EvolutionProposal) (agent : text) (record : option RollbackRecord)
    (pre_episode : option text) (r : result text EvoError) s : Evo W V :=
  let '(s, episode) := match pre_episode with Some e => (s, Some e) | None => episode_start id (kind p) agent s end in
  match r with
  | Ok summary =>
      let s := keep_record id p record episode summary s in
      logged (EvolutionApplied id session) (episode_end episode (Ok summary) s)
  | Err e => logged (EvolutionError id session) (episode_end episode (Err e) s)
  end.

Definition record_of (p : EvolutionProposal) (agent : text) (agent_soul : option text) s : option RollbackRecord :=
  (fun u => mkRecord u agent (encode_soul_target agent_soul)) <$> compute_undo p agent_soul s.

Definition on_propose (session call id : Z) (p : EvolutionProposal) (bindings : option (gmap Z text)) (ids : Identities) s : Evo W V :=
  let agent_soul := soul_target_for bindings ids session in
  let agent := resolve_agent_id (ec_node_agent cfg) bindings session in
  match lint_gate p with
  | Err errs => tell session call (LintRefused errs) s
  | Ok warnings =>
      let record := record_of p agent agent_soul s in
      let '(s, gate) := snapshot_gate id p agent record s in
      match gate with
      | Err refusal => tell session call refusal s
      | Ok pre_episode =>
          let '(s, r) := apply_evolution id p agent_soul s in
          let r := with_warnings warnings r in
          let s := tell session call (match r with Ok summary => EvoOk id summary | Err e => EvoFailed e end) s in
          bookkeeping session id p agent record pre_episode r s
      end
  end.

(** ** A rollback *)

Definition on_rollback (session call id : Z) (bindings : option (gmap Z text)) s : Evo W V :=
  match es_store s !! id with
  | None => tell session call (NoRollbackSnapshot id) s
  | Some r =>
      let caller := resolve_agent_id (ec_node_agent cfg) bindings session in
      if negb (rollback_authorized caller (rr_owner r) (ec_node_agent cfg)) then
        tell session call (NotTheOwner id (rr_owner r) caller) s
      else
        let '(s, result) := apply_evolution id (rr_undo r) (decode_soul_target (rr_target r)) s in
        match result with
        | Ok summary =>
            tell session call (RolledBackOk summary) (logged (EvolutionRolledBack id session) (set_store (delete id (es_store s)) s))
        | Err e => tell session call (RollbackFailed e) s
        end
  end.

(** ** The loop *)

Inductive EvoMsg :=
  | Propose (session call id : Z) (p : EvolutionProposal) (bindings : option (gmap Z text)) (ids : Identities)
  | Rollback (session call id : Z) (bindings : option (gmap Z text)).

Definition applier_step s (m : EvoMsg) : Evo W V :=
  match m with
  | Propose session call id p bindings ids => on_propose session call id p bindings ids s
  | Rollback session call id bindings => on_rollback session call id bindings s
  end.

Definition applier_run (ms : list EvoMsg) s : Evo W V := foldl applier_step s ms.

(** ** Evolution ids *)

Definition seed_evolution_id (next min_next : Z) : Z := Z.max next min_next.
Definition alloc_evolution_id (next : Z) : Z * Z := (next, (next + 1) mod 2 ^ 64).

(** ** The restore at a cold start *)

(** Nodes that need healing are healed; the count is of those that were. *)
Definition heal_nodes (nodes : list V) s : Evo W V :=
  foldl (fun s n => match fossil_heal_args (read_node n) (ec_node_agent cfg) with
                    | Some a => (proxy_call (UpdateMemory a) s).1
                    | None => s
                    end) s nodes.

Definition restore_episode (ids : Identities) (acc : Evo W V * Z) (ep : V) : Evo W V * Z :=
  let '(s, max_id) := acc in
  match arg_str ep (chars "id"), arg_str ep (chars "title") with
  | Some episode, Some title =>
      if negb (starts_with (chars "evolution ") title) then acc
      else match parse_evolution_id_from_title title with
           | None => acc
           | Some evo_id =>
               let max_id := Z.max max_id evo_id in
               let '(s, r) := proxy_call (EpisodeMemories episode None) s in
               match ok_output r ≫= mcp_text with
               | None => (s, max_id)
               | Some mems =>
                   let s := match parse_rollback_from_episode_memories mems with
                            | None => s
                            | Some rec =>
                                let rec := complete_legacy_record rec (arg_str ep (chars "agent_id")) (ec_node_agent cfg) in
                                let rec := heal_legacy_target rec (ec_node_agent cfg) (a_soul_file <$> find_agent ids (rr_owner rec)) in
                                set_store (<[evo_id := rec]> (es_store s)) s
                            end in
                   (heal_nodes (default [] (array_of mems)) s, max_id)
               end
           end
  | _, _ => acc
  end.

(** A search hit wraps its node. *)
Definition hit_node (r : V) : V :=
  match json_get r (chars "memory") with Some m => if json_is_object m then m else r | None => r end.

(** The state after the restore, and the next evolution id. *)
Definition restore_rollback_store (ids : Identities) (next : Z) s : Evo W V * Z :=
  let '(s, r) := proxy_call ListEpisodes s in
  match ok_output r ≫= mcp_text with
  | None => (s, next)
  | Some t =>
      let '(s, max_id) := foldl (restore_episode ids) (s, 0) (default [] (array_of t)) in
      let '(s, r) := proxy_call MemorySearch s in
      let s := match (t ← ok_output r ≫= mcp_text; array_of t) with
               | Some hits => heal_nodes (hit_node <$> hits) s
               | None => s
               end in
      (s, if 0 <? max_id then seed_evolution_id next ((max_id + 1) mod 2 ^ 64) else next)
  end.
End applier.

(** ** What the parts change *)

Section frames.
Context {W V D T : Type} `{!EvoWorld W V} `{!JsonArgs V} `{!JsonNums V} `{!EvoJson V} `{!ProposalCodec}.
Context `{!TomlDoc D T} `{!PolicyTomlOps} `{!CharClasses}.
Variable cfg : EvoCfg.
Implicit Types (s : Evo W V) (l : list (EvoEv V)).

Definition is_talk (ev : EvoEv V) : bool := match ev with Called _ _ | Told _ _ _ => true | _ => false end.

(** Only the world and the log move: tools were called and answers given, nothing
    was written. *)
Record asks s s' l : Prop := {
  ak_files : es_files s' = es_files s; ak_soul : es_soul s' = es_soul s; ak_policy : es_policy s' = es_policy s;
  ak_sent : es_sent s' = es_sent s; ak_store : es_store s' = es_store s;
  ak_log : es_log s' = es_log s ++ l; ak_quiet : Forall (fun ev => is_talk ev = true) l
}.

Lemma asks_refl s : asks s s [].
Proof. split; try done. by rewrite app_nil_r. Qed.

Lemma asks_trans s1 s2 s3 l1 l2 : asks s1 s2 l1 -> asks s2 s3 l2 -> asks s1 s3 (l1 ++ l2).
Proof.
  intros [] []. split; try congruence; [by rewrite app_assoc; congruence|by apply Forall_app].
Qed.

Lemma asks_call c s : asks s (proxy_call c s).1 [Called c (proxy_call c s).2].
Proof. unfold proxy_call. destruct (call_tool (es_world s) c) as [w r]. split; try done. by repeat constructor. Qed.

Lemma asks_tell session call r s : asks s (tell session call r s) [Told session call r].
Proof. split; try done. by repeat constructor. Qed.

Lemma asks_episode_start id k agent s : exists l, asks s (episode_start id k agent s).1 l.
Proof.
  unfold episode_start. pose proof (asks_call (EpisodeStart id k agent) s) as Ha. destruct (proxy_call _ s) as [s' r]. by eexists.
Qed.

Lemma asks_episode_end e o s : exists l, asks s (episode_end e o s) l.
Proof. unfold episode_end. destruct e; [eexists; apply asks_call|eexists; apply asks_refl]. Qed.

(** The record was stored with an answer that names its memory, linked, and found
    again in the episode. *)
Definition stored_and_read_back (r : RollbackRecord) l : Prop :=
  exists episode mid summary o1 o2 o3 t,
    Called (MemoryStore (undo_step_line summary (rr_undo r) (rr_owner r) (rr_target r)) (rr_owner r)) (Some (mkOutput true o1)) ∈ l /\
    parse_cerebro_id o1 (chars "id") = Some mid /\
    Called (EpisodeAddStep episode mid summary) (Some (mkOutput true o2)) ∈ l /\
    Called (EpisodeMemories episode (Some (rr_owner r))) (Some (mkOutput true o3)) ∈ l /\
    mcp_text o3 = Some t /\ snapshot_is_linked t mid = true.

Lemma ok_output_Some (r : option (ToolOutput V)) o : ok_output r = Some o -> r = Some (mkOutput true o).
Proof. unfold ok_output. destruct r as [[[|] x]|]; cbn; congruence. Qed.

Lemma asks_persist e r summary s :
  exists l, asks s (persist_rollback_snapshot e r summary s).1 l /\
            (is_Some (persist_rollback_snapshot e r summary s).2 -> stored_and_read_back r l).
Proof.
  unfold persist_rollback_snapshot. set (c1 := MemoryStore _ _). pose proof (asks_call c1 s) as A1.
  destruct (proxy_call c1 s) as [s1 r1]. cbn [fst snd] in *.
  destruct (ok_output r1) as [o1|] eqn:E1; [|by eexists; split; [exact A1|intros [? ?]]].
  cbn [mbind option_bind]. destruct (parse_cerebro_id o1 _) as [mid|] eqn:Em; [|by eexists; split; [exact A1|intros [? ?]]].
  pose proof (asks_call (EpisodeAddStep e mid summary) s1) as A2. destruct (proxy_call _ s1) as [s2 r2]. cbn [fst snd] in *.
  pose proof (asks_trans _ _ _ _ _ A1 A2) as A12.
  destruct (ok_output r2) as [o2|] eqn:E2; [|by eexists; split; [exact A12|intros [? ?]]].
  pose proof (asks_call (EpisodeMemories e (Some (rr_owner r))) s2) as A3. destruct (proxy_call _ s2) as [s3 r3]. cbn [fst snd] in *.
  pose proof (asks_trans _ _ _ _ _ A12 A3) as A123. exists (([Called c1 r1] ++ [Called (EpisodeAddStep e mid summary) r2])
    ++ [Called (EpisodeMemories e (Some (rr_owner r))) r3]).
  destruct (ok_output r3 ≫= mcp_text) as [t|] eqn:E3; (split; [exact A123|]); [|by intros [? ?]].
  destruct (snapshot_is_linked t mid) eqn:El; [|by intros [? ?]]. intros _.
  apply bind_Some in E3 as (o3 & E3 & Et). apply ok_output_Some in E1 as ->, E2 as ->, E3 as ->.
  exists e, mid, summary, o1, o2, o3, t. split_and!; try done; set_solver.
Qed.

(** A file is written, or cut; everything but that file and the log stays. *)
Lemma write_atomic_spec path content s :
  let s' := (write_atomic path content s).1 in
  es_soul s' = es_soul s /\ es_policy s' = es_policy s /\ es_sent s' = es_sent s /\ es_store s' = es_store s /\
  (exists l, es_log s' = es_log s ++ l) /\ (forall p, p <> path -> es_files s' !! p = es_files s !! p) /\
  ((write_atomic path content s).2 = Ok tt -> es_files s' = <[path := content]> (es_files s)).
Proof.
  cbn zeta. unfold write_atomic. destruct (write_way (es_world s) path) as [w way].
  assert (exists l, es_log s = es_log s ++ l) as Hnil by (exists []; by rewrite app_nil_r).
  destruct way as [|why [| |n]]; [|destruct (is_perm why); cbn..]; cbn; split_and!; try done; eauto;
    intros p Hp; by rewrite lookup_insert_ne.
Qed.

(** The soul a rewrite replaces, and the file it is in. *)
Definition prior_soul (agent_soul : option text) s : option text :=
  match agent_soul with Some path => es_files s !! path | None => Some (es_soul s) end.
Definition target_path (agent_soul : option text) : text := default (ec_soul_path cfg) agent_soul.

Lemma apply_system_prompt_spec content agent_soul s :
  let s' := (apply_system_prompt cfg content agent_soul s).1 in
  es_policy s' = es_policy s /\ es_sent s' = es_sent s /\ es_store s' = es_store s /\ (exists l, es_log s' = es_log s ++ l) /\
  (forall p, p <> target_path agent_soul -> es_files s' !! p = es_files s !! p) /\ (agent_soul <> None -> es_soul s' = es_soul s) /\
  (forall t, (apply_system_prompt cfg content agent_soul s).2 = Ok t ->
     es_files s' = <[target_path agent_soul := content]> (es_files s) /\ (agent_soul = None -> es_soul s' = content)).
Proof.
  cbn zeta. unfold apply_system_prompt, target_path. destruct agent_soul as [path|]; cbn [default];
    [pose proof (write_atomic_spec path content s) as Hs|pose proof (write_atomic_spec (ec_soul_path cfg) content s) as Hs];
    cbn zeta in Hs; destruct (write_atomic _ content s) as [s' [[]|e]];
    cbn [fst snd set_soul es_files es_soul es_policy es_sent es_store es_log] in *; destruct Hs as (? & ? & ? & ? & ? & ? & ?);
    split_and!; naive_solver.
Qed.

(** The store is the applier's own: a change does not touch it. *)
Lemma apply_evolution_store id p agent_soul s :
  let s' := (apply_evolution cfg id p agent_soul s).1 in
  es_store s' = es_store s /\ exists l, es_log s' = es_log s ++ l.
Proof.
  cbn zeta. assert (exists l, es_log s = es_log s ++ l) as Hnil by (exists []; by rewrite app_nil_r).
  assert (forall path c, es_store (write_atomic path c s).1 = es_store s /\ exists l, es_log (write_atomic path c s).1 = es_log s ++ l) as Hw.
  { intros path c. pose proof (write_atomic_spec path c s) as Hs. cbn zeta in Hs. naive_solver. }
  assert (forall edit c t, es_store (apply_plugins cfg edit c t s).1 = es_store s /\ exists l, es_log (apply_plugins cfg edit c t s).1 = es_log s ++ l) as Hp.
  { intros edit c t. unfold apply_plugins, to_supervisor. destruct (es_files s !! _) as [t'|]; [|done]. destruct (edit t') as [new|]; [|done].
    specialize (Hw (ec_plugins_path cfg) new). destruct (write_atomic _ new s) as [s' [[]|e]]; [|done]. by case_match. }
  destruct p as [| |pat r ?|content ?|sub|part cap rs bus src]; cbn [apply_evolution]; [apply Hp|apply Hp|..].
  - unfold apply_policy_rule. destruct (es_files s !! _) as [t|]; [|done]. destruct (policy_toml_set_rule t pat r) as [[new c]|]; [|done].
    specialize (Hw (ec_policy_path cfg) new). destruct (write_atomic _ new s) as [s' [[]|e]]; done.
  - pose proof (apply_system_prompt_spec content agent_soul s) as Hs. cbn zeta in Hs. naive_solver.
  - unfold hot_reload. destruct sub; [done| |done|done]. destruct (es_files s !! _) as [t|]; [|done]. by destruct (policy_parse t).
  - unfold file_hardware. set (path := default _ _). set (doc := wishlist_append _ _ _ _ _ _ _).
    specialize (Hw path doc). destruct (write_atomic path doc s) as [s' [[]|e]]; done.
Qed.
End frames.

(** ** A soul rewrite *)

Section rewrite.
Context {W V D T : Type} `{HW : !EvoWorld W V} `{HA : !JsonArgs V} `{HN : !JsonNums V} `{HJ : !EvoJson V} `{HC : !ProposalCodec}.
Context `{HT : !TomlDoc D T} `{HP : !PolicyTomlOps} `{HK : !CharClasses}.
Variable cfg : EvoCfg.
Implicit Types (s : Evo W V) (l : list (EvoEv V)).

Definition lint_clean (content : text) : Prop :=
  is_dense_artifact content = true -> Forall (fun f => fd_error f = false) (lint content).

Lemma lint_gate_clean content reason w : lint_gate (UpdateSystemPrompt content reason) = Ok w -> lint_clean content.
Proof.
  unfold lint_gate, lint_clean. intros E Hd. rewrite Hd in E. destruct (List.filter fd_error (lint content)) eqn:Ef; [|done].
  apply Forall_forall. intros f Hf. destruct (fd_error f) eqn:Ee; [|done].
  assert (f ∈ List.filter fd_error (lint content)) as Hin by (apply list_elem_of_In, filter_In; by rewrite <- list_elem_of_In).
  rewrite Ef in Hin. by inversion Hin.
Qed.

(** What the gate lets through has its snapshot in the log. *)
Lemma snapshot_gate_asks id p agent record s :
  exists l, asks s (snapshot_gate id p agent record s).1 l /\
    (forall e, (snapshot_gate id p agent record s).2 = Ok e -> is_soul_rewrite p = true ->
       exists r, record = Some r /\ stored_and_read_back r l).
Proof.
  unfold snapshot_gate. destruct (is_soul_rewrite p); cbn [negb]; [|exists []; split; [apply asks_refl|done]].
  destruct record as [r|]; [|exists []; split; [apply asks_refl|done]].
  destruct (asks_episode_start id (kind p) agent s) as [l1 A1]. destruct (episode_start id (kind p) agent s) as [s1 [e|]]; cbn [fst snd] in *;
    [|by exists l1].
  destruct (asks_persist e r (chars "pre-apply rollback snapshot") s1) as (l2 & A2 & Hs).
  destruct (persist_rollback_snapshot e r _ s1) as [s2 stored]. cbn [fst snd] in *. exists (l1 ++ l2). split; [by eapply asks_trans|].
  destruct stored as [mid|]; [|done]. intros _ _ _. exists r. split; [done|]. destruct (Hs ltac:(eauto)) as (x1&x2&x3&x4&x5&x6&x7&Hx).
  exists x1, x2, x3, x4, x5, x6, x7. destruct_and! Hx. split_and!; try done; set_solver.
Qed.

(** The bookkeeping after the answer writes no file; it keeps the record of what
    was applied. *)
Lemma bookkeeping_spec session id p agent record pre r s :
  let s' := bookkeeping session id p agent record pre r s in
  es_files s' = es_files s /\ es_soul s' = es_soul s /\ es_policy s' = es_policy s /\ es_sent s' = es_sent s /\
  (exists l, es_log s' = es_log s ++ l) /\
  es_store s' = match r, record with Ok _, Some rec => <[id := rec]> (es_store s) | _, _ => es_store s end.
Proof.
  cbn zeta. unfold bookkeeping. set (start := match pre with Some e => (s, Some e) | None => _ end).
  assert (exists l, asks s start.1 l) as [l1 A1].
  { unfold start. destruct pre; [eexists; apply asks_refl|apply asks_episode_start]. }
  destruct start as [s1 episode]. cbn [fst] in A1. destruct A1 as [F1 S1 P1 N1 T1 L1 _]. destruct r as [summary|e].
  - assert (exists l s2, asks s1 s2 l /\ keep_record id p record episode summary s1
      = match record with Some rec => set_store (<[id := rec]> (es_store s2)) s2 | None => s2 end) as (l2 & s2 & A2 & ->).
    { unfold keep_record. destruct record as [rec|]; [|exists [], s1; split; [apply asks_refl|done]].
      destruct (is_soul_rewrite p); [exists [], s1; split; [apply asks_refl|done]|].
      destruct episode as [e|]; [|exists [], s1; split; [apply asks_refl|done]].
      destruct (asks_persist e rec summary s1) as (l & A & _). by exists l, (persist_rollback_snapshot e rec summary s1).1. }
    destruct A2 as [F2 S2 P2 N2 T2 L2 _]. set (s3 := match record with Some _ => _ | None => _ end).
    destruct (asks_episode_end episode (Ok summary) s3) as [l3 [F3 S3 P3 N3 T3 L3 _]].
    cbn [logged es_files es_soul es_policy es_sent es_store es_log]. rewrite F3, S3, P3, N3, T3, L3. unfold s3.
    destruct record; cbn [set_store es_files es_soul es_policy es_sent es_store es_log]; split_and!; try congruence;
      rewrite L2, L1, <- !app_assoc; by eexists.
  - destruct (asks_episode_end episode (Err e) s1) as [l3 [F3 S3 P3 N3 T3 L3 _]].
    cbn [logged es_files es_soul es_policy es_sent es_store es_log]. rewrite F3, S3, P3, N3, T3, L3. split_and!; try congruence;
      rewrite L1, <- !app_assoc; by eexists.
Qed.

Lemma with_warnings_Ok w r t : with_warnings w r = Ok t -> exists t', r = Ok t'.
Proof. destruct r as [x|e]; [eauto|by destruct w]. Qed.

Definition undo_of_soul (agent : text) (agent_soul : option text) (old : text) : RollbackRecord :=
  mkRecord (UpdateSystemPrompt old (chars "rollback")) agent (encode_soul_target agent_soul).

(** A proposal to rewrite a soul: refused with nothing changed, or let through
    with its snapshot in the log before anything else. *)
Lemma propose_rewrite session call id content reason bindings ids s :
  let agent_soul := soul_target_for cfg bindings ids session in
  let s' := on_propose cfg session call id (UpdateSystemPrompt content reason) bindings ids s in
  (exists l, asks s s' l) \/
  exists old l1 l2,
    let r := undo_of_soul (resolve_agent_id (ec_node_agent cfg) bindings session) agent_soul old in
    prior_soul agent_soul s = Some old /\ es_log s' = es_log s ++ l1 ++ l2 /\ Forall (fun ev => is_talk ev = true) l1 /\
    stored_and_read_back r l1 /\ lint_clean content /\
    es_policy s' = es_policy s /\ es_sent s' = es_sent s /\
    (forall p, p <> target_path cfg agent_soul -> es_files s' !! p = es_files s !! p) /\ (agent_soul <> None -> es_soul s' = es_soul s) /\
    (es_store s' = es_store s \/
     es_store s' = <[id := r]> (es_store s) /\ es_files s' = <[target_path cfg agent_soul := content]> (es_files s) /\
     (agent_soul = None -> es_soul s' = content)).
Proof.
  cbn zeta. unfold on_propose. set (agent_soul := soul_target_for cfg bindings ids session). set (agent := resolve_agent_id _ _ _).
  destruct (lint_gate (UpdateSystemPrompt content reason)) as [w|errs] eqn:El; [|left; eexists; apply asks_tell].
  apply lint_gate_clean in El. set (p := UpdateSystemPrompt content reason). set (record := record_of cfg p agent agent_soul s).
  destruct (snapshot_gate_asks id p agent record s) as (l1 & A1 & Hgate).
  destruct (snapshot_gate id p agent record s) as [s1 [pre|refusal]]; cbn [fst snd] in *;
    [|left; eexists; eapply asks_trans; [exact A1|apply asks_tell]].
  destruct (Hgate pre eq_refl eq_refl) as (r & Er & Hst). right. clear Hgate.
  assert (exists old, prior_soul agent_soul s = Some old /\ r = undo_of_soul agent agent_soul old) as (old & Ho & ->).
  { unfold record, record_of, compute_undo, p in Er. apply fmap_Some in Er as (u & Eu & ->).
    apply bind_Some in Eu as (old & Eo & [= <-]). by exists old. }
  pose proof (apply_system_prompt_spec cfg content agent_soul s1) as Ha. cbn zeta in Ha. change (apply_evolution cfg id p agent_soul s1)
    with (apply_system_prompt cfg content agent_soul s1). destruct (apply_system_prompt cfg content agent_soul s1) as [s2 res].
  cbn [fst snd] in Ha. destruct Ha as (P2 & N2 & T2 & [l2 L2] & F2 & S2 & Hok).
  set (s3 := tell session call _ s2). pose proof (bookkeeping_spec session id p agent record pre (with_warnings w res) s3) as Hb.
  cbn zeta in Hb. destruct Hb as (F4 & S4 & P4 & N4 & [l4 L4] & T4). destruct A1 as [F1 S1 P1 N1 T1 L1 Q1].
  cbn [s3 tell logged es_files es_soul es_policy es_sent es_store es_log] in F4, S4, P4, N4, L4, T4.
  set (s4 := bookkeeping session id p agent record pre (with_warnings w res) s3) in *.
  exists old, l1, (l2 ++ [Told session call (match with_warnings w res with Ok summary => EvoOk id summary | Err e => EvoFailed e end)] ++ l4).
  split_and!; try done; try congruence.
  - by rewrite L4, L2, L1, <- !app_assoc.
  - intros q Hq. rewrite F4, F2, F1; done.
  - intros Hne. rewrite S4, S2, S1; done.
  - rewrite T4, T2, T1. destruct (with_warnings w res) as [t|e] eqn:Ew; [|by left]. right. rewrite Er.
    apply with_warnings_Ok in Ew as [t' Et]. destruct (Hok t' Et) as [Hf Hs]. split_and!; [done|by rewrite F4, Hf, F1|].
    intros Hn. by rewrite S4, Hs.
Qed.

(** C6: A soul is rewritten only after its undo is safe.  If a proposal to rewrite a
    soul changes any file or the node's soul in memory, then the soul it replaces
    was readable, and before anything was written its undo, with the owner and the
    exact target, was stored, linked, and read back in the episode as a record that
    parses; a soul that claims to be dense was linted without an error; and no file
    but the target was touched, the node's soul in memory only when it is the
    target. *)
Theorem rewrite_needs_stored_undo session call id content reason bindings ids s :
  let agent_soul := soul_target_for cfg bindings ids session in
  let s' := on_propose cfg session call id (UpdateSystemPrompt content reason) bindings ids s in
  es_files s' <> es_files s \/ es_soul s' <> es_soul s ->
  exists old l1 l2,
    prior_soul agent_soul s = Some old /\ es_log s' = es_log s ++ l1 ++ l2 /\ Forall (fun ev => is_talk ev = true) l1 /\
    stored_and_read_back (undo_of_soul (resolve_agent_id (ec_node_agent cfg) bindings session) agent_soul old) l1 /\
    (is_dense_artifact content = true -> Forall (fun f => fd_error f = false) (lint content)) /\
    es_policy s' = es_policy s /\
    (forall p, p <> target_path cfg agent_soul -> es_files s' !! p = es_files s !! p) /\ (agent_soul <> None -> es_soul s' = es_soul s).
Proof.
  intros agent_soul s' Hch. destruct (propose_rewrite session call id content reason bindings ids s) as [[l [F S _ _ _ _ _]]|Hr].
  - fold s' in F, S. naive_solver.
  - destruct Hr as (old & l1 & l2 & H1 & H2 & H3 & H4 & H5 & H6 & _ & H8 & H9 & _). exists old, l1, l2. by split_and!.
Qed.
End rewrite.

(** ** The way back *)

(** A path the target line can carry. *)
Definition carried (path : text) : Prop :=
  path <> [] /\ (10 ∉ path) /\ trim path = path /\ path <> GLOBAL_SOUL_TARGET.

Lemma soul_target_back agent_soul :
  (forall p, agent_soul = Some p -> carried p) -> decode_soul_target (encode_soul_target agent_soul) = agent_soul.
Proof.
  intros Hc. destruct agent_soul as [p|]; [|reflexivity]. destruct (Hc p eq_refl) as (Hne & Hn & Ht & Hg).
  unfold encode_soul_target. rewrite lines_one by done. destruct p as [|c p]; [done|]. unfold decode_soul_target.
  rewrite Ht, !bool_decide_false by done. done.
Qed.

Section rollback.
Context {W V D T : Type} `{HW : !EvoWorld W V} `{HA : !JsonArgs V} `{HN : !JsonNums V} `{HJ : !EvoJson V} `{HC : !ProposalCodec}.
Context `{HT : !TomlDoc D T} `{HP : !PolicyTomlOps} `{HK : !CharClasses}.
Variable cfg : EvoCfg.
Implicit Types (s : Evo W V) (l : list (EvoEv V)).

Definition msg_id (m : EvoMsg) : Z := match m with Propose _ _ id _ _ _ => id | Rollback _ _ id _ => id end.

(** A message touches the store at its own id only. *)
Lemma applier_step_store s m i : i <> msg_id m -> es_store (applier_step cfg s m) !! i = es_store s !! i.
Proof.
  intros Hi. destruct m as [session call id p bindings ids|session call id bindings]; cbn [applier_step msg_id] in *.
  - unfold on_propose. destruct (lint_gate p) as [w|]; [|done]. set (agent := resolve_agent_id _ _ _). set (soul := soul_target_for _ _ _ _).
    set (record := record_of cfg p agent soul s). destruct (snapshot_gate_asks id p agent record s) as (l & A & _).
    destruct (snapshot_gate id p agent record s) as [s1 [pre|refusal]]; cbn [fst] in A; [|by rewrite <- (ak_store _ _ _ A)].
    pose proof (apply_evolution_store cfg id p soul s1) as [T2 _]. destruct (apply_evolution cfg id p soul s1) as [s2 r]. cbn [fst] in T2.
    set (s3 := tell session call _ s2). pose proof (bookkeeping_spec session id p agent record pre (with_warnings w r) s3) as Hb.
    cbn zeta in Hb. destruct Hb as (_ & _ & _ & _ & _ & ->). cbn [s3 tell logged es_store]. rewrite T2, (ak_store _ _ _ A).
    destruct (with_warnings w r), record; [by rewrite lookup_insert_ne|done..].
  - unfold on_rollback. destruct (es_store s !! id) as [r|]; [|done]. destruct (negb _); [done|].
    pose proof (apply_evolution_store cfg id (rr_undo r) (decode_soul_target (rr_target r)) s) as [T2 _].
    destruct (apply_evolution _ _ _ _ s) as [s2 [t|e]]; cbn [fst tell logged set_store es_store] in *; [|by rewrite T2].
    by rewrite lookup_delete_ne, T2.
Qed.

Lemma applier_run_store ms s i : Forall (fun m => msg_id m <> i) ms -> es_store (applier_run cfg ms s) !! i = es_store s !! i.
Proof.
  unfold applier_run. intros Hm. revert s. induction Hm as [|m ms Hi _ IH]; intros s; cbn; [done|]. rewrite IH. by apply applier_step_store.
Qed.

(** C7: A rolled back soul is the soul from before.  Once a rewrite was applied under a
    fresh id, and whatever else is proposed and rolled back meanwhile under other
    ids, a rollback that succeeds (its snapshot is gone) leaves exactly the
    replaced text in exactly the file that was rewritten, and in memory when it was
    the node's soul, whoever asked for it and whatever soul is theirs now.  The
    soul rewritten is the node's, or an agent's whose path the one line of the
    record can carry: not empty, without a line break, without blanks at its
    ends, and not the word that stands for the node's soul - a file of that name
    is rolled back onto the node's soul
    ([EvolutionRuns.sentinel_path_rolls_back_the_node]). *)
Theorem rollback_restores session call id content reason bindings ids s ms session' call' bindings' :
  let agent_soul := soul_target_for cfg bindings ids session in
  let s1 := on_propose cfg session call id (UpdateSystemPrompt content reason) bindings ids s in
  let s2 := applier_run cfg ms s1 in
  let s3 := on_rollback cfg session' call' id bindings' s2 in
  (forall p, agent_soul = Some p -> carried p) ->
  es_store s !! id = None -> is_Some (es_store s1 !! id) -> Forall (fun m => msg_id m <> id) ms -> es_store s3 !! id = None ->
  exists old, prior_soul agent_soul s = Some old /\ es_files s3 !! target_path cfg agent_soul = Some old /\
              (agent_soul = None -> es_soul s3 = old).
Proof.
  intros agent_soul s1 s2 s3 Hc Hfresh Happ Hms Hgone.
  destruct (propose_rewrite cfg session call id content reason bindings ids s) as [[l A]|Hr].
  { fold s1 in A. rewrite (ak_store _ _ _ A), Hfresh in Happ. by destruct Happ. }
  destruct Hr as (old & _ & _ & Ho & _ & _ & _ & _ & _ & _ & _ & _ & Hst). fold agent_soul in Ho, Hst. fold s1 in Hst.
  destruct Hst as [Hst|[Hst _]]; [rewrite Hst, Hfresh in Happ; by destruct Happ|]. exists old. split; [done|].
  assert (es_store s2 !! id = Some (undo_of_soul (resolve_agent_id (ec_node_agent cfg) bindings session) agent_soul old)) as H2.
  { unfold s2. rewrite applier_run_store, Hst by done. apply lookup_insert_eq. }
  revert Hgone. unfold s3, on_rollback. rewrite H2. cbn [undo_of_soul rr_owner rr_undo rr_target apply_evolution].
  rewrite soul_target_back by done. destruct (negb _); [cbn [tell logged es_store]; congruence|].
  pose proof (apply_system_prompt_spec cfg old agent_soul s2) as Ha. cbn zeta in Ha.
  destruct (apply_system_prompt cfg old agent_soul s2) as [s4 [t|e]]; cbn [fst snd] in Ha;
    destruct Ha as (_ & _ & T4 & _ & _ & _ & Hok); cbn [tell logged set_store es_store es_files es_soul]; [|congruence].
  intros _. destruct (Hok t eq_refl) as [-> Hs]. split; [apply lookup_insert_eq|done].
Qed.

(** A rollback is the owner's.  With no snapshot under the id, or for a caller who
    is neither its owner nor the node's agent, nothing changes but one answer.
    Otherwise the stored undo is applied; the snapshot goes exactly when that
    succeeds, and a soul undo touches no file but the stored target. *)
Theorem rollback_is_the_owners session call id bindings s :
  let s' := on_rollback cfg session call id bindings s in
  let caller := resolve_agent_id (ec_node_agent cfg) bindings session in
  match es_store s !! id with
  | Some r =>
      if rollback_authorized caller (rr_owner r) (ec_node_agent cfg) then
        let target := decode_soul_target (rr_target r) in
        let applied := apply_evolution cfg id (rr_undo r) target s in
        es_files s' = es_files applied.1 /\ es_soul s' = es_soul applied.1 /\ es_policy s' = es_policy applied.1 /\
        es_store s' = (match applied.2 with Ok _ => delete id (es_store s) | Err _ => es_store s end) /\
        (is_soul_rewrite (rr_undo r) = true -> forall p, p <> target_path cfg target -> es_files s' !! p = es_files s !! p)
      else asks s s' [Told session call (NotTheOwner id (rr_owner r) caller)]
  | None => asks s s' [Told session call (NoRollbackSnapshot id)]
  end.
Proof.
  intros s' caller. unfold s', on_rollback. fold caller. destruct (es_store s !! id) as [r|]; [|apply asks_tell].
  destruct (rollback_authorized _ _ _); cbn [negb]; [|apply asks_tell].
  set (target := decode_soul_target (rr_target r)). cbn zeta.
  pose proof (apply_evolution_store cfg id (rr_undo r) target s) as [T2 _].
  assert (is_soul_rewrite (rr_undo r) = true -> forall p, p <> target_path cfg target ->
    es_files (apply_evolution cfg id (rr_undo r) target s).1 !! p = es_files s !! p) as Hf.
  { intros Hs p Hp. destruct (rr_undo r) as [| | |content ?| |]; try done.
    pose proof (apply_system_prompt_spec cfg content target s) as Ha. cbn zeta in Ha. naive_solver. }
  destruct (apply_evolution cfg id (rr_undo r) target s) as [s2 [t|e]]; cbn [fst snd tell logged set_store es_files es_soul es_policy es_store] in *;
    split_and!; try done; congruence.
Qed.
End rollback.

(** ** The record's lines read back *)

Lemma strip_prefix_within m w r x : 10 ∉ m -> strip_prefix m (w ++ 10 :: r) = Some x -> starts_with m w = true.
Proof.
  revert w. induction m as [|c m IH]; intros w Hm H; [done|]. destruct w as [|y w]; cbn in H.
  - destruct (Z.eqb_spec c 10) as [->|]; [set_solver|done].
  - cbn. destruct (Z.eqb_spec c y) as [->|]; [|done]. eapply IH; [set_solver|done].
Qed.

Lemma split_str_once_here m r : split_str_once m (m ++ r) = Some ([], r).
Proof.
  assert (strip_prefix m (m ++ r) = Some r) as E by (by apply strip_prefix_Some). destruct (m ++ r); cbn [split_str_once]; by rewrite E.
Qed.

(** A marker that no earlier line holds is found at the start of its own. *)
Lemma split_str_once_line m w r :
  10 ∉ m -> m <> [] -> str_contains m w = false -> split_str_once m (w ++ 10 :: m ++ r) = Some (w ++ [10], r).
Proof.
  intros Hm Hne. induction w as [|c w IH]; intros Hc.
  - cbn [app split_str_once]. destruct m as [|x m]; [done|]. cbn [strip_prefix].
    rewrite (proj2 (Z.eqb_neq x 10)) by set_solver. by rewrite split_str_once_here.
  - cbn [str_contains] in Hc. apply orb_false_iff in Hc as [Hs Hc]. cbn [app split_str_once].
    destruct (strip_prefix m (c :: w ++ 10 :: m ++ r)) as [x|] eqn:E.
    + apply (strip_prefix_within m (c :: w)) in E; [congruence|done].
    + by rewrite IH.
Qed.

Lemma starts_with_line m a b : 10 ∉ m -> starts_with m (a ++ 10 :: b) = starts_with m a.
Proof.
  revert a. induction m as [|c m IH]; intros a Hm; [by destruct a|]. destruct a as [|y a]; cbn.
  - rewrite (proj2 (Z.eqb_neq c 10)) by set_solver. done.
  - rewrite IH by set_solver. done.
Qed.

Lemma str_contains_lines m a b : 10 ∉ m -> m <> [] -> str_contains m (a ++ 10 :: b) = str_contains m a || str_contains m b.
Proof.
  intros Hm Hne. induction a as [|y a IH].
  - cbn [app str_contains]. change (10 :: b) with ([] ++ 10 :: b) at 1. rewrite starts_with_line by done. by destruct m.
  - cbn [app str_contains]. change (y :: a ++ 10 :: b) with ((y :: a) ++ 10 :: b). rewrite starts_with_line, IH by done. by rewrite orb_assoc.
Qed.

Lemma marker_at m w v rest :
  10 ∉ m -> m <> [] -> str_contains m w = false -> 10 ∉ v ->
  marker_line (w ++ 10 :: m ++ v ++ 10 :: rest) m = Some (trim v).
Proof. intros. unfold marker_line. rewrite split_str_once_line by done. cbn. by rewrite split_on_line. Qed.

Lemma marker_at_end m w v :
  10 ∉ m -> m <> [] -> str_contains m w = false -> 10 ∉ v -> marker_line (w ++ 10 :: m ++ v) m = Some (trim v).
Proof. intros. unfold marker_line. rewrite split_str_once_line by done. cbn. by rewrite split_on_no. Qed.

Lemma first_line_one s : 10 ∉ first_line s.
Proof.
  unfold first_line. intros Hin%trim_subset. pose proof (lines_no_newline s) as Hl. destruct (lines s); [set_solver|]. by inversion Hl.
Qed.

Lemma first_line_trimmed s : trim (first_line s) = first_line s.
Proof. apply trim_idem. Qed.

Section codec_back.
Context `{!ProposalCodec, !ProposalCodecLaws}.

(** A stored record reads back.  The lines of a snapshot parse to the undo, the
    owner's first line and the target's, as long as no marker stands in a line
    before its own: in the summary, in the undo's JSON, or in the owner. *)
Theorem record_reads_back summary undo owner target :
  str_contains UNDO_SNAPSHOT (chars "evolution apply: " ++ summary) = false ->
  str_contains UNDO_OWNER (chars "evolution apply: " ++ summary) = false ->
  str_contains UNDO_OWNER (UNDO_SNAPSHOT ++ proposal_json undo) = false ->
  str_contains UNDO_TARGET (chars "evolution apply: " ++ summary) = false ->
  str_contains UNDO_TARGET (UNDO_SNAPSHOT ++ proposal_json undo) = false ->
  str_contains UNDO_TARGET (UNDO_OWNER ++ first_line owner) = false ->
  parse_rollback_record_from_text (undo_step_line summary undo owner target)
  = Some (mkRecord undo (first_line owner) (first_line target)).
Proof.
  intros S1 O1 O2 T1 T2 T3. unfold undo_step_line, parse_rollback_record_from_text, parse_undo_snapshot_from_text.
  set (a := chars "evolution apply: ") in *. rewrite (app_assoc a).
  assert ((10 ∉ UNDO_SNAPSHOT) /\ (10 ∉ UNDO_OWNER) /\ (10 ∉ UNDO_TARGET)) as (N1 & N2 & N3).
  { split_and!; apply (bool_decide_unpack _); vm_compute; exact I. }
  rewrite (marker_at UNDO_SNAPSHOT (a ++ summary)) by (done || apply proposal_one_line).
  rewrite proposal_trimmed. cbn [mbind option_bind]. rewrite proposal_back. cbn [mbind option_bind].
  assert (forall m v, (a ++ summary) ++ 10 :: UNDO_SNAPSHOT ++ proposal_json undo ++ 10 :: m ++ v
    = ((a ++ summary) ++ 10 :: UNDO_SNAPSHOT ++ proposal_json undo) ++ 10 :: m ++ v) as E1.
  { intros m v. by rewrite <- !app_assoc, <- !app_comm_cons, <- !app_assoc. }
  rewrite E1, (marker_at UNDO_OWNER) by (done || apply first_line_one || (rewrite str_contains_lines, O1 by done; exact O2)).
  assert (forall w v, w ++ 10 :: UNDO_OWNER ++ first_line owner ++ 10 :: UNDO_TARGET ++ v
    = (w ++ 10 :: UNDO_OWNER ++ first_line owner) ++ 10 :: UNDO_TARGET ++ v) as E2.
  { intros w v. by rewrite <- !app_assoc, <- !app_comm_cons, <- !app_assoc. }
  rewrite E2, (marker_at_end UNDO_TARGET) by (done || apply first_line_one || (rewrite !str_contains_lines, T1, T2 by done; exact T3)).
  by rewrite !first_line_trimmed.
Qed.
End codec_back.

(** ** A policy rule and back *)

(** [toml_edit] keeps its tables over a print and a parse, and a put is what a
    later look finds. *)
Class TomlDocLaws (D T : Type) `{!TomlDoc D T} : Prop := {
  doc_reparse d : exists d', doc_parse (doc_text d) = Some d' /\
    forall k, doc_has d' k = doc_has d k /\
      match doc_table d k, doc_table d' k with
      | Some t, Some t' => forall x, table_str t' x = table_str t x
      | None, None => True
      | _, _ => False
      end;
  doc_table_set d k t : doc_table (doc_set_table d k t) k = Some t;
  doc_has_table d k t : doc_table d k = Some t -> doc_has d k = true;
  table_put_same t k v : table_str (table_put t k v) k = Some v;
  table_put_other t k k' v : k <> k' -> table_str (table_put t k v) k' = table_str t k'
}.

Lemma rule_from_to r : rule_from_toml (rule_toml_str r) = Some r.
Proof. by destruct r. Qed.

Section rule_back.
Context {D T : Type} `{HT : !TomlDoc D T} `{HL : !TomlDocLaws D T} `{HP : !PolicyTomlOps}.

(** After an edit of a file that has the table, the rule is the new one and every
    other is what it was. *)
Lemma set_rule_spec t pat r new c doc rules :
  doc_parse t = Some doc -> doc_table doc rules_key = Some rules -> policy_toml_set_rule t pat r = Ok (new, c) ->
  (exists doc' rules', doc_parse new = Some doc' /\ doc_table doc' rules_key = Some rules' /\
     (forall x, table_str rules' x = if decide (x = pat) then Some (rule_toml_str r) else table_str rules x)) /\ policy_parse new = Some c.
Proof.
  intros Hd Hr. unfold policy_toml_set_rule. rewrite Hd, (doc_has_table _ _ _ Hr). cbn zeta iota. rewrite Hr.
  set (edited := doc_set_table doc rules_key (table_put rules pat (rule_toml_str r))).
  destruct (policy_parse (doc_text edited)) as [c'|] eqn:Ec; [|done]. intros [= <- <-]. split; [|done].
  destruct (doc_reparse edited) as (d' & Hd' & Hk). destruct (Hk rules_key) as [_ Ht]. unfold edited in Ht at 1.
  rewrite doc_table_set in Ht. destruct (doc_table d' rules_key) as [rules'|] eqn:Er; [|done]. exists d', rules'. split_and!; [done|done|].
  intros x. rewrite Ht. case_decide; [subst; apply table_put_same|by apply table_put_other].
Qed.

Lemma rule_lookup t doc rules pat :
  doc_parse t = Some doc -> doc_table doc rules_key = Some rules ->
  policy_rule_from_toml t pat = (s ← table_str rules pat; rule_from_toml s).
Proof. intros Hd Hr. unfold policy_rule_from_toml. rewrite Hd. cbn [mbind option_bind]. by rewrite Hr. Qed.
End rule_back.

Section policy_back.
Context {W V D T : Type} `{HW : !EvoWorld W V} `{HA : !JsonArgs V} `{HN : !JsonNums V} `{HJ : !EvoJson V} `{HC : !ProposalCodec}.
Context `{HT : !TomlDoc D T} `{HL : !TomlDocLaws D T} `{HP : !PolicyTomlOps} `{HK : !CharClasses}.
Variable cfg : EvoCfg.
Implicit Types (s : Evo W V).

Lemma apply_policy_spec pat r s t :
  (apply_policy_rule cfg pat r s).2 = Ok t ->
  exists old new c, es_files s !! ec_policy_path cfg = Some old /\ policy_toml_set_rule old pat r = Ok (new, c) /\
    es_files (apply_policy_rule cfg pat r s).1 !! ec_policy_path cfg = Some new /\ es_policy (apply_policy_rule cfg pat r s).1 = c /\
    es_store (apply_policy_rule cfg pat r s).1 = es_store s.
Proof.
  unfold apply_policy_rule. destruct (es_files s !! _) as [old|]; [|done]. destruct (policy_toml_set_rule old pat r) as [[new c]|] eqn:Es; [|done].
  pose proof (write_atomic_spec (ec_policy_path cfg) new s) as Hs. cbn zeta in Hs.
  destruct (write_atomic _ new s) as [s' [[]|e]]; cbn [fst snd set_policy es_files es_policy es_store] in *; [|done].
  destruct Hs as (_ & _ & _ & Hst & _ & _ & Hf). intros _. exists old, new, c. split_and!; try done. rewrite Hf by done. apply lookup_insert_eq.
Qed.

(** A change of a rule that was applied under a fresh id. *)
Lemma propose_rule session call id pat r reason bindings ids s :
  let s1 := on_propose cfg session call id (UpdatePolicyRule pat r reason) bindings ids s in
  es_store s !! id = None -> is_Some (es_store s1 !! id) ->
  exists before mid old rec c, es_files s !! ec_policy_path cfg = Some before /\ es_files s1 !! ec_policy_path cfg = Some mid /\
    policy_toml_set_rule before pat r = Ok (mid, c) /\ policy_rule_from_toml before pat = Some old /\
    es_store s1 !! id = Some rec /\ rr_undo rec = UpdatePolicyRule pat old (chars "rollback").
Proof.
  cbn zeta. intros Hfresh Happ. unfold on_propose, snapshot_gate in *. cbn [lint_gate is_soul_rewrite negb apply_evolution] in *.
  set (agent := resolve_agent_id _ _ _) in *. set (soul := soul_target_for _ _ _ _) in *. set (record := record_of _ _ _ _ _) in *.
  pose proof (apply_evolution_store cfg id (UpdatePolicyRule pat r reason) soul s) as [Hsa _]. cbn [apply_evolution] in Hsa.
  pose proof (apply_policy_spec pat r s) as Ha. destruct (apply_policy_rule cfg pat r s) as [sa ra]. cbn [fst snd] in Hsa, Ha.
  set (sb := tell session call _ sa) in *.
  pose proof (bookkeeping_spec session id (UpdatePolicyRule pat r reason) agent record None (with_warnings [] ra) sb) as Hb. cbn zeta in Hb.
  destruct Hb as (F & _ & _ & _ & _ & St). rewrite St in Happ |- *. rewrite F. unfold sb in *. cbn [tell logged es_files es_store] in *.
  rewrite Hsa in *. destruct ra as [ta|e]; cbn [with_warnings] in *; [|rewrite Hfresh in Happ; by destruct Happ].
  destruct record as [rec|] eqn:Er; [|rewrite Hfresh in Happ; by destruct Happ].
  destruct (Ha ta eq_refl) as (before & mid & c & H0 & E1 & F1 & _). unfold record, record_of, compute_undo in Er.
  rewrite H0 in Er. cbn [mbind option_bind] in Er. apply fmap_Some in Er as (u & Eu & ->).
  apply bind_Some in Eu as (old & Eo & [= <-]). exists before, mid, old, (mkRecord (UpdatePolicyRule pat old (chars "rollback")) agent (encode_soul_target soul)), c.
  split_and!; try done. apply lookup_insert_eq.
Qed.

(** A policy rule comes back.  When a proposal changed a rule that was there and
    its rollback succeeds right after, every rule of the file reads as before, and
    the live policy is the parse of that file. *)
Theorem policy_rollback_restores_rules session call id pat r reason bindings ids s session' call' bindings' :
  let s1 := on_propose cfg session call id (UpdatePolicyRule pat r reason) bindings ids s in
  let s2 := on_rollback cfg session' call' id bindings' s1 in
  es_store s !! id = None -> is_Some (es_store s1 !! id) -> es_store s2 !! id = None ->
  exists before after, es_files s !! ec_policy_path cfg = Some before /\ es_files s2 !! ec_policy_path cfg = Some after /\
    (forall x, policy_rule_from_toml after x = policy_rule_from_toml before x) /\ policy_parse after = Some (es_policy s2).
Proof.
  intros s1 s2 Hfresh Happ Hgone. destruct (propose_rule session call id pat r reason bindings ids s Hfresh Happ)
    as (before & mid & old & rec & c & H0 & F1 & E1 & Eo & Hrec & Hu). fold s1 in F1, Hrec.
  revert Hgone. unfold s2, on_rollback. rewrite Hrec. destruct (negb _); [cbn [tell logged es_store]; congruence|].
  rewrite Hu. cbn [apply_evolution]. pose proof (apply_policy_spec pat old s1) as Ha.
  pose proof (apply_evolution_store cfg id (rr_undo rec) (decode_soul_target (rr_target rec)) s1) as [Hst _]. rewrite Hu in Hst. cbn [apply_evolution] in Hst.
  destruct (apply_policy_rule cfg pat old s1) as [sb [tb|e]]; cbn [fst snd tell logged set_store es_store es_files es_policy] in *;
    [intros _|congruence]. destruct (Ha tb eq_refl) as (mid' & after & c' & F1' & E2 & F2 & <- & _).
  rewrite F1 in F1'. injection F1' as <-. exists before, after. split; [done|]. split; [done|].
  unfold policy_rule_from_toml in Eo. apply bind_Some in Eo as (doc & Hd & Eo). apply bind_Some in Eo as (rules & Hr & Eo).
  destruct (set_rule_spec before pat r mid c doc rules Hd Hr E1) as [(doc1 & rules1 & Hd1 & Hr1 & L1) _].
  destruct (set_rule_spec mid pat old after (es_policy sb) doc1 rules1 Hd1 Hr1 E2) as [(doc2 & rules2 & Hd2 & Hr2 & L2) Hparse].
  split; [|done]. intros x. rewrite (rule_lookup after doc2 rules2), (rule_lookup before doc rules) by done.
  rewrite L2. case_decide as Hx; [subst x|by rewrite L1, decide_False]. cbn [mbind option_bind]. by rewrite rule_from_to, <- Eo.
Qed.
End policy_back.

(** ** Fossils heal once *)

(** What [update_memory] makes of a node. *)
Definition healed (n : FossilNode) (a : HealArgs) : FossilNode :=
  mkFossil (fn_content n) (fn_id n) (ha_tags a) true (fn_owned n || is_someb (ha_set_agent_id a)) (ha_salience a).

Lemma with_tag_has t tags : existsb (fun x => bool_decide (x = t)) (with_tag t tags) = true.
Proof.
  unfold with_tag. destruct (existsb _ tags) eqn:E; [done|]. rewrite existsb_app. cbn. by rewrite bool_decide_true, orb_true_r.
Qed.

(** A healed node is clean: it is private, owned, tagged and faint, and is left
    alone from then on. *)
Lemma fossil_heals_once (n : FossilNode) agent a : fossil_heal_args n agent = Some a -> fossil_heal_args (healed n a) agent = None.
Proof.
  unfold fossil_heal_args. intros H. apply bind_Some in H as (content & Ec & H). destruct (str_contains UNDO_SNAPSHOT content) eqn:Es; [|done].
  cbn [negb] in H. apply bind_Some in H as (i & Ei & H). destruct (_ && _) in H; [done|]. injection H as <-.
  unfold healed. cbn [fn_content fn_id fn_tags fn_private fn_owned fn_salience ha_tags ha_salience ha_set_agent_id]. rewrite Ec, Ei. cbn [mbind option_bind].
  rewrite Es. cbn [negb]. rewrite with_tag_has. cbn [andb].
  assert ((fn_owned n || is_someb (if fn_owned n then None else Some agent)) = true) as -> by (by destruct (fn_owned n)). cbn [andb].
  assert (Qle_bool (if Qle_bool (fn_salience n) (1 # 4) then fn_salience n else 1 # 4) (3 # 10) = true) as ->; [|done].
  destruct (Qle_bool (fn_salience n) (1 # 4)) eqn:Eq; [|done]. apply Qle_bool_iff in Eq. apply Qle_bool_iff.
  eapply Qle_trans; [exact Eq|]. by vm_compute.
Qed.

(** ** Restored ids stay below the next one *)

Section restored.
Context {W V D T : Type} `{HW : !EvoWorld W V} `{HA : !JsonArgs V} `{HN : !JsonNums V} `{HJ : !EvoJson V} `{HC : !ProposalCodec}.
Variable cfg : EvoCfg.
Implicit Types (s : Evo W V).

Definition bounded s (m : Z) : Prop := forall i r, es_store s !! i = Some r -> i <= m.

Lemma proxy_call_store c s : es_store (proxy_call c s).1 = es_store s.
Proof. unfold proxy_call. by destruct (call_tool (es_world s) c). Qed.

Lemma heal_nodes_store (nodes : list V) s : es_store (heal_nodes cfg nodes s) = es_store s.
Proof.
  unfold heal_nodes. revert s. induction nodes as [|n nodes IH]; intros s; cbn [foldl]; [done|]. rewrite IH. case_match; [apply proxy_call_store|done].
Qed.

Lemma bounded_mono s m m' : bounded s m -> m <= m' -> bounded s m'.
Proof. intros Hb Hm i r E. specialize (Hb i r E). lia. Qed.

Lemma bounded_store s s' m : es_store s' = es_store s -> bounded s m -> bounded s' m.
Proof. unfold bounded. by intros ->. Qed.

Lemma restore_episode_bounded ids s m ep :
  bounded s m -> let '(s', m') := restore_episode cfg ids (s, m) ep in m <= m' /\ bounded s' m'.
Proof.
  intros Hb. unfold restore_episode. destruct (arg_str ep (chars "id")) as [episode|]; [|done]. destruct (arg_str ep (chars "title")) as [title|]; [|done].
  destruct (negb _); [done|]. destruct (parse_evolution_id_from_title title) as [evo|]; [|done].
  pose proof (proxy_call_store (EpisodeMemories episode None) s) as Hs. destruct (proxy_call _ s) as [s1 r]. cbn [fst] in Hs.
  assert (bounded s1 (Z.max m evo)) as H1 by (eapply bounded_mono; [eapply bounded_store; [exact Hs|exact Hb]|lia]).
  destruct (ok_output r ≫= mcp_text) as [mems|]; [|split; [lia|done]]. split; [lia|].
  eapply bounded_store; [apply heal_nodes_store|]. destruct (parse_rollback_from_episode_memories mems) as [rec|]; [|done].
  intros i x. cbn [set_store es_store]. rewrite lookup_insert_Some. intros [[<- _]|[_ E]]; [lia|by apply (H1 i x)].
Qed.

Lemma restore_episodes_bounded ids eps s m :
  bounded s m -> let '(s', m') := foldl (restore_episode cfg ids) (s, m) eps in m <= m' /\ bounded s' m'.
Proof.
  revert s m. induction eps as [|ep eps IH]; intros s m Hb; cbn [foldl]; [done|].
  pose proof (restore_episode_bounded ids s m ep Hb) as H1. destruct (restore_episode cfg ids (s, m) ep) as [s1 m1]. destruct H1 as [Hm H1].
  pose proof (IH s1 m1 H1) as H2. destruct (foldl _ _ eps) as [s2 m2]. destruct H2. split; [lia|done].
Qed.

(** No id is used twice over a restart: after the restore into an empty store,
    every restored id is below the id the next proposal gets, unless an episode
    carries the largest id of 64 bits, from which the next one wraps to 0 and
    counts for nothing. *)
Lemma restored_ids_are_fresh ids next s :
  es_store s = ∅ -> 1 <= next ->
  let '(s', next') := restore_rollback_store cfg ids next s in
  next <= next' /\ (bounded s' (next' - 1) \/ exists m, next' = Z.max next ((m + 1) mod 2 ^ 64) /\ 2 ^ 64 <= m + 1 /\ bounded s' m).
Proof.
  intros He Hn. unfold restore_rollback_store. pose proof (proxy_call_store ListEpisodes s) as Hs.
  destruct (proxy_call ListEpisodes s) as [s1 r]. cbn [fst] in Hs. rewrite He in Hs.
  assert (bounded s1 0) as H0 by (intros i x; rewrite Hs, lookup_empty; done).
  destruct (ok_output r ≫= mcp_text) as [t|]; [|split; [lia|left; eapply bounded_mono; [exact H0|lia]]].
  pose proof (restore_episodes_bounded ids (default [] (array_of t)) s1 0 H0) as H1. destruct (foldl _ _ _) as [s2 m]. destruct H1 as [Hm H1].
  pose proof (proxy_call_store MemorySearch s2) as Hs3. destruct (proxy_call MemorySearch s2) as [s3 r3]. cbn [fst] in Hs3.
  set (s4 := match _ with Some hits => _ | None => s3 end).
  assert (bounded s4 m) as H4.
  { eapply bounded_store; [|exact H1]. unfold s4. case_match; [rewrite heal_nodes_store|]; done. }
  unfold seed_evolution_id. destruct (Z.ltb_spec 0 m) as [Hp|Hp]; [|split; [lia|left; eapply bounded_mono; [exact H4|lia]]].
  split; [lia|]. destruct (Z.lt_ge_cases (m + 1) (2 ^ 64)) as [Hlt|Hge]; [left|right; by exists m].
  eapply bounded_mono; [exact H4|]. rewrite Z.mod_small by lia. lia.
Qed.
End restored.
