(* ===== verification/EvolutionRuns.v ===== *)
(** * Concrete runs of the evolution applier

    A node whose memory service keeps what it is given, a JSON and a TOML of
    strings and tables, and on them the witnesses of [Evolution] and the runs that
    show what its records and edits do not cover. *)
From Stdlib Require Import QArith.
From S2P Require Import Prelude Text Policy Protocol Identity Turn PacLint Evolution.
#[local] Open Scope Z_scope.

(** ** JSON: a string, an object of strings, or an array of those *)

Definition Json : Type := text + (list (text * text) + list (list (text * text))).
Definition jstr (t : text) : Json := inl t.
Definition jobj (fs : list (text * text)) : Json := inr (inl fs).
Definition jarr (os : list (list (text * text))) : Json := inr (inr os).

Definition assoc (k : text) (fs : list (text * text)) : option text := snd <$> List.find (fun e => bool_decide (e.1 = k)) fs.

#[export] Instance json_args : JsonArgs Json := {|
  json_get (v : Json) k := match v with inr (inl fs) => jstr <$> assoc k fs | _ => None end;
  json_as_str (v : Json) := match v with inl t => Some t | _ => None end;
  json_as_bool _ := None;
  json_is_object (v : Json) := match v with inr (inl _) => true | _ => false end;
  json_remove v _ := v; json_insert v _ _ := v; json_bool _ := jstr [] |}.
#[export] Instance json_nums : JsonNums Json := {|
  json_as_u64 _ := None;
  json_as_array (v : Json) := match v with inr (inr os) => Some (jobj <$> (os : list (list (text * text)))) | _ => None end |}.
#[export] Instance evo_json : EvoJson Json := {|
  value_of_text t := read_bits t ≫= decode; value_text (v : Json) := bit_text (encode v); value_f64 _ := None; value_is_null _ := false |}.

(** ** Proposals as text *)

Definition tuple_of (p : EvolutionProposal) : nat * list text * list (text * text) :=
  match p with
  | RegisterMcpServer name command env reason => (0%nat, [name; command; reason], env)
  | UnregisterMcpServer name reason => (1%nat, [name; reason], [])
  | UpdatePolicyRule pat r reason => (2%nat, [pat; rule_toml_str r; reason], [])
  | UpdateSystemPrompt content reason => (3%nat, [content; reason], [])
  | HotReloadSubsystem sub => (match sub with SubPlugins => 4 | SubPolicy => 5 | SubAgent => 6 | SubGateway => 7 end%nat, [], [])
  | RequestHardware a b c d e => (8%nat, [a; b; c; d; e], [])
  end.
Definition of_tuple (x : nat * list text * list (text * text)) : option EvolutionProposal :=
  match x with
  | (0%nat, [name; command; reason], env) => Some (RegisterMcpServer name command env reason)
  | (1%nat, [name; reason], []) => Some (UnregisterMcpServer name reason)
  | (2%nat, [pat; r; reason], []) => r ← rule_from_toml r; Some (UpdatePolicyRule pat r reason)
  | (3%nat, [content; reason], []) => Some (UpdateSystemPrompt content reason)
  | (4%nat, [], []) => Some (HotReloadSubsystem SubPlugins)
  | (5%nat, [], []) => Some (HotReloadSubsystem SubPolicy)
  | (6%nat, [], []) => Some (HotReloadSubsystem SubAgent)
  | (7%nat, [], []) => Some (HotReloadSubsystem SubGateway)
  | (8%nat, [a; b; c; d; e], []) => Some (RequestHardware a b c d e)
  | _ => None
  end.

#[export] Instance bit_codec : ProposalCodec := {|
  proposal_json p := 123 :: bit_text (encode (tuple_of p));
  proposal_of_json t := r ← strip_prefix [123] t; x ← (read_bits r ≫= decode); of_tuple x |}.

Lemma of_tuple_of p : of_tuple (tuple_of p) = Some p.
Proof. destruct p as [| |? [] ?| |[]|]; reflexivity. Qed.

#[export] Instance bit_codec_laws : ProposalCodecLaws.
Proof.
  split; intros p; cbn [proposal_json proposal_of_json bit_codec].
  - assert (strip_prefix [123] (123 :: bit_text (encode (tuple_of p))) = Some (bit_text (encode (tuple_of p)))) as -> by done.
    cbn [mbind option_bind]. rewrite read_bit_text. cbn [mbind option_bind]. rewrite decode_encode. cbn [mbind option_bind]. apply of_tuple_of.
  - destruct (bit_text_shape (encode (tuple_of p))) as [H _]. set_solver.
  - destruct (bit_text_shape (encode (tuple_of p))) as [_ [r ->]]. unfold trim. cbn [trim_start].
    assert (is_whitespace 123 = false) as -> by done. unfold trim_end. rewrite app_comm_cons, rev_app_distr. cbn [rev app trim_start].
    assert (is_whitespace 125 = false) as -> by done. change (125 :: rev r ++ [123]) with ([125] ++ rev (123 :: r)).
    by rewrite rev_app_distr, rev_involutive.
Qed.

(** ** TOML: tables of strings, arrays of them, and anything else *)

Definition Table : Type := list (text * text).
Definition Item : Type := Table + (list Table + text).
Definition Doc : Type := list (text * Item).

Definition put {A} (k : text) (v : A) (l : list (text * A)) : list (text * A) :=
  List.filter (fun e => negb (bool_decide (e.1 = k))) l ++ [(k, v)].
Definition get {A} (k : text) (l : list (text * A)) : option A := snd <$> List.find (fun e => bool_decide (e.1 = k)) l.

Definition item (d : Doc) (k : text) : option Item := get k d.

#[export] Instance toy_toml : TomlDoc Doc Table := {|
  doc_parse t := read_bits t ≫= decode;
  doc_text d := bit_text (encode d);
  doc_has d k := is_someb (item d k);
  doc_table d k := match item d k with Some (inl t) => Some t | _ => None end;
  doc_set_table d k t := put k (inl t) d;
  doc_tables d k := match item d k with Some (inr (inl l)) => Some l | _ => None end;
  doc_set_tables d k l := put k (inr (inl l)) d;
  table_new := [];
  table_str t k := get k t;
  table_put t k v := put k v t;
  table_put_inline t k env := put k (bit_text (encode env)) t |}.

Lemma get_put_same {A} k (v : A) l : get k (put k v l) = Some v.
Proof.
  unfold get, put. assert (List.find (fun e => bool_decide (e.1 = k)) (List.filter (fun e : text * A => negb (bool_decide (e.1 = k))) l) = None) as E.
  { induction l as [|[k' x] l IH]; [done|]. cbn. case_bool_decide as Hk; cbn; [done|]. by rewrite bool_decide_false. }
  induction (List.filter (fun e : text * A => negb (bool_decide (e.1 = k))) l) as [|x l' IH]; cbn in *; [by rewrite bool_decide_true|].
  destruct (bool_decide (x.1 = k)); [done|]. by apply IH.
Qed.

Lemma get_put_other {A} k k' (v : A) l : k <> k' -> get k' (put k v l) = get k' l.
Proof.
  intros Hne. unfold get, put. induction l as [|[k0 x] l IH]; cbn [List.filter app List.find fst]; [cbn; by rewrite bool_decide_false|].
  destruct (decide (k0 = k)) as [->|H0].
  - rewrite bool_decide_true by done. cbn [negb List.find fst]. rewrite IH. by rewrite (bool_decide_false (k = k')).
  - rewrite bool_decide_false by done. cbn [negb app List.find fst]. by destruct (bool_decide (k0 = k')).
Qed.

#[export] Instance toy_toml_laws : TomlDocLaws Doc Table.
Proof.
  split.
  - intros d. exists d. split; [cbn; by rewrite read_bit_text; cbn; rewrite decode_encode|]. intros k. split; [done|]. by case_match.
  - intros d k t. cbn [doc_table doc_set_table toy_toml]. unfold item. by rewrite get_put_same.
  - intros d k t. cbn [doc_table doc_has toy_toml]. by destruct (item d k).
  - intros t k v. apply get_put_same.
  - intros t k k' v. apply get_put_other.
Qed.

#[export] Instance toy_policy : PolicyTomlOps := {|
  toml_with_mode _ _ := None;
  policy_parse t := d ← doc_parse (D := Doc) t;
    Some (mkPolicy Suggest (omap (fun e => (fun r => (e.1, r)) <$> rule_from_toml e.2) (default [] (doc_table d rules_key))) subagents_default) |}.

#[export] Instance runs_classes : CharClasses := {| char_alphanumeric := is_ascii_alphanumeric |}.

(** ** A node *)

(** What its memory service holds, and whether it takes more. *)
Record Brain := mkBrain { br_mems : list text; br_takes : bool; br_episodes : list (list (text * text)) }.

Definition ok_text (t : string) : option (ToolOutput Json) := Some (mkOutput true (jstr (chars t))).
Definition memory_node (content : text) : list (text * text) := [(chars "id", chars "m"); (chars "content", content)].

#[export] Instance brain_world : EvoWorld Brain Json := {|
  call_tool w c :=
    match c with
    | EpisodeStart _ _ _ => (w, ok_text "Episode started (ID: ep)")
    | MemoryStore content _ =>
        if br_takes w then (mkBrain (br_mems w ++ [content]) true (br_episodes w), ok_text "Memory stored (ID: m)") else (w, None)
    | EpisodeMemories _ _ => (w, Some (mkOutput true (jstr (value_text (jarr (memory_node <$> br_mems w))))))
    | ListEpisodes => (w, Some (mkOutput true (jstr (value_text (jarr (br_episodes w))))))
    | _ => (w, ok_text "ok")
    end;
  write_way w _ := (w, Renamed);
  supervisor_open _ := true |}.

Definition soul_md : text := chars "soul.md".
Definition policy_file : text := chars "policy.toml".
Definition plugins_file : text := chars "plugins.toml".
Definition apex : EvoCfg := mkEvoCfg soul_md policy_file plugins_file None (chars "APEX").
Definition rules_doc : Doc := [(rules_key, inl [(chars "shell", chars "ask")])].
Definition node (w : Brain) : Evo Brain Json :=
  mkEvo w {[ soul_md := chars "old"; chars "iris.md" := chars "iris"; policy_file := doc_text rules_doc ]} (chars "old")
    (mkPolicy Suggest [(chars "shell", RuleAsk)] subagents_default) [] ∅ [].
Definition fresh : Brain := mkBrain [] true [].

(** A guest agent, bound to session 7. *)
Definition guest_bound : option (gmap Z text) := Some {[ 7 := chars "IRIS" ]}.
Definition with_iris : Identities := mkIdentities None [] [mkAgent (chars "IRIS") (chars "Iris") (chars "u") (chars "iris.md") None] false.
Definition nobody : Identities := mkIdentities None [] [] false.

Definition rewrite_of (t : string) : EvolutionProposal := UpdateSystemPrompt (chars t) (chars "better").

(** ** The theorems at work *)

Lemma rewrite_needs_stored_undo_witness :
  exists old l1, prior_soul (soul_target_for apex None nobody 1) (node fresh) = Some old /\
    stored_and_read_back (undo_of_soul (chars "APEX") (soul_target_for apex None nobody 1) old) l1.
Proof.
  assert (es_soul (on_propose apex 1 1 5 (UpdateSystemPrompt (chars "new") (chars "better")) None nobody (node fresh)) <> es_soul (node fresh)) as Hne.
  { assert (es_soul (on_propose apex 1 1 5 (UpdateSystemPrompt (chars "new") (chars "better")) None nobody (node fresh)) = chars "new") as ->
      by (vm_compute; reflexivity). discriminate. }
  destruct (rewrite_needs_stored_undo apex 1 1 5 (chars "new") (chars "better") None nobody (node fresh) (or_intror Hne)) as (old & l1 & _ & H & _ & _ & H4 & _).
  exists old, l1. split; [exact H|exact H4].
Defined.

(** The guest's rewrite of its own soul, other evolutions, and its rollback. *)
Definition between_them : list EvoMsg :=
  [Propose 1 2 6 (rewrite_of "apex anew") None nobody;
   Propose 1 3 8 (UpdatePolicyRule (chars "shell") RuleAllow (chars "r")) None nobody; Rollback 1 4 6 None].
Lemma rollback_restores_witness :
  es_files (on_rollback apex 7 9 5 guest_bound (applier_run apex between_them
    (on_propose apex 7 1 5 (rewrite_of "iris anew") guest_bound with_iris (node fresh)))) !! chars "iris.md" = Some (chars "iris").
Proof.
  destruct (rollback_restores apex 7 1 5 (chars "iris anew") (chars "better") guest_bound with_iris (node fresh) between_them 7 9 guest_bound)
    as (old & Ho & Hf & _).
  - intros p Hp. vm_compute in Hp. injection Hp as <-. split_and!; [discriminate| |vm_compute; reflexivity|vm_compute; discriminate].
    apply (bool_decide_unpack _). vm_compute. exact I.
  - vm_compute. reflexivity.
  - vm_compute. eexists. reflexivity.
  - repeat constructor; discriminate.
  - vm_compute. reflexivity.
  - vm_compute in Ho. injection Ho as <-. exact Hf.
Defined.

Lemma policy_rollback_restores_rules_witness :
  exists after, es_files (on_rollback apex 1 2 5 None
      (on_propose apex 1 1 5 (UpdatePolicyRule (chars "shell") RuleAllow (chars "r")) None nobody (node fresh))) !! policy_file = Some after /\
    policy_rule_from_toml after (chars "shell") = Some RuleAsk.
Proof.
  destruct (policy_rollback_restores_rules apex 1 1 5 (chars "shell") RuleAllow (chars "r") None nobody (node fresh) 1 2 None)
    as (before & after & Hb & Ha & Hr & _); [vm_compute; reflexivity|vm_compute; eexists; reflexivity|vm_compute; reflexivity|].
  exists after. split; [exact Ha|]. rewrite Hr. vm_compute in Hb. injection Hb as <-. vm_compute. reflexivity.
Defined.

Lemma record_reads_back_witness :
  parse_rollback_record_from_text (undo_step_line (chars "pre-apply rollback snapshot") (rewrite_of "old") (chars "IRIS") (chars "iris.md"))
  = Some (mkRecord (rewrite_of "old") (chars "IRIS") (chars "iris.md")).
Proof. apply (record_reads_back (chars "pre-apply rollback snapshot") (rewrite_of "old") (chars "IRIS") (chars "iris.md")); vm_compute; reflexivity. Defined.

(** With a memory service that takes nothing the rewrite is refused, and nothing
    changes. *)
Example no_memory_no_rewrite :
  let s := on_propose apex 1 1 5 (rewrite_of "new") None nobody (node (mkBrain [] false [])) in
  (es_soul s, last (es_log s)) = (chars "old", Some (Told 1 1 SnapshotNotStored)).
Proof. vm_compute. reflexivity. Qed.

(** ** What the records do not cover *)

(** The summary of a policy change quotes the pattern, and the record is read from
    the first marker: a pattern with lines of its own forges the record that a
    restart restores. *)
Definition forged_undo : EvolutionProposal := UpdateSystemPrompt (chars "allow all") (chars "x").
Definition forging_pattern : text :=
  chars "x" ++ 10 :: UNDO_SNAPSHOT ++ proposal_json forged_undo ++ 10 :: UNDO_OWNER ++ chars "IRIS" ++ 10 :: UNDO_TARGET ++ policy_file ++ [10].
Example pattern_forges_record :
  parse_rollback_record_from_text
    (undo_step_line (chars "policy rule '" ++ forging_pattern ++ chars "' set to 'allow'") (UpdatePolicyRule forging_pattern RuleAsk (chars "rollback")) (chars "APEX") GLOBAL_SOUL_TARGET)
  = Some (mkRecord forged_undo (chars "IRIS") policy_file).
Proof. vm_compute. reflexivity. Qed.

(** The restore takes any episode with such a title: a guest's own memory, tied to
    an episode of its own, is a snapshot after a restart, and its rollback writes
    any file the daemon can write. *)
Definition forged_brain : Brain :=
  mkBrain [undo_step_line (chars "x") forged_undo (chars "IRIS") policy_file] true
    [[(chars "id", chars "e1"); (chars "title", chars "evolution 3: x"); (chars "agent_id", chars "IRIS")]].
Example forged_episode_writes_anywhere :
  let s1 := (restore_rollback_store apex with_iris 1 (node forged_brain)).1 in
  let s2 := on_rollback apex 7 1 3 guest_bound s1 in
  (es_files s2 !! policy_file, last (es_log s2)) = (Some (chars "allow all"), Some (Told 7 1 (RolledBackOk (chars "agent soul updated (9 chars)")))).
Proof. vm_compute. reflexivity. Qed.

(** An agent that is bound but not registered has no soul of its own: its rewrite
    goes to the node's. *)
Example unregistered_agent_rewrites_the_node :
  let s := on_propose apex 7 1 5 (rewrite_of "mine now") guest_bound nobody (node fresh) in
  (es_soul s, es_files s !! soul_md, rr_owner <$> es_store s !! 5) = (chars "mine now", Some (chars "mine now"), Some (chars "IRIS")).
Proof. vm_compute. reflexivity. Qed.

(** A soul file named like the sentinel is rolled back onto the node's soul. *)
Definition global_iris : Identities := mkIdentities None [] [mkAgent (chars "IRIS") (chars "Iris") (chars "u") (chars "global") None] false.
Example sentinel_path_rolls_back_the_node :
  let s0 := set_file (chars "global") (chars "iris") (node fresh) in
  let s1 := on_propose apex 7 1 5 (rewrite_of "iris anew") guest_bound global_iris s0 in
  let s2 := on_rollback apex 7 2 5 guest_bound s1 in
  (es_files s2 !! chars "global", es_soul s2) = (Some (chars "iris anew"), chars "iris").
Proof. vm_compute. reflexivity. Qed.

(** ** What the edits do not say *)

(** Rules written as an inline table: the edit changes nothing and reports success. *)
Definition inline_doc : Doc := [(rules_key, inr (inr (chars "inline")))].
Example inline_rules_are_not_edited :
  (fun r => r.1) <$> (match policy_toml_set_rule (D := Doc) (T := Table) (doc_text inline_doc) (chars "shell") RuleAllow with Ok r => Some r | Err _ => None end)
  = Some (doc_text inline_doc).
Proof. vm_compute. reflexivity. Qed.

(** A plugins file with no plugin in it: the plugin is spawned and reported as
    registered, and the file is what it was. *)
Example first_plugin_is_not_kept :
  let s0 := set_file plugins_file (doc_text ([] : Doc)) (node fresh) in
  let '(s1, r) := apply_evolution apex 5 (RegisterMcpServer (chars "p") (chars "cmd") [] []) None s0 in
  (es_files s1 !! plugins_file, es_sent s1, r)
  = (Some (doc_text ([] : Doc)), [SpawnPlugin (chars "p") (chars "cmd") []], Ok (chars "registered MCP server 'p'")).
Proof. vm_compute. reflexivity. Qed.

(** The undo of an unregistration carries the command only. *)
Definition plugin_with_env : Table :=
  put (chars "args") (chars "--safe") (new_plugin (chars "p") (chars "cmd") [(chars "TOKEN", chars "t")]).
Definition plugins_doc (l : list Table) : Doc := [(plugin_key, inr (inl l))].
Example reregistered_plugin_lost_its_settings :
  let s0 := set_file plugins_file (doc_text (plugins_doc [plugin_with_env])) (node fresh) in
  let s1 := on_propose apex 1 1 5 (UnregisterMcpServer (chars "p") []) None nobody s0 in
  let s2 := on_rollback apex 1 2 5 None s1 in
  es_files s2 !! plugins_file = Some (doc_text (plugins_doc [new_plugin (chars "p") (chars "cmd") []])).
Proof. vm_compute. reflexivity. Qed.

(** The undo of a second registration under one name removes the first. *)
Example undo_removes_the_older_twin :
  let s0 := set_file plugins_file (doc_text (plugins_doc [plugin_with_env])) (node fresh) in
  let s1 := on_propose apex 1 1 5 (RegisterMcpServer (chars "p") (chars "other") [] []) None nobody s0 in
  let s2 := on_rollback apex 1 2 5 None s1 in
  es_files s2 !! plugins_file = Some (doc_text (plugins_doc [new_plugin (chars "p") (chars "other") []])).
Proof. vm_compute. reflexivity. Qed.
