(* ===== verification/Sessions.v ===== *)
(** * Session transcripts on disk

    [agentd/crates/agentd/src/session_store.rs] with the gzip of idle files
    ([core/src/session_gzip.rs]).  A session's file is JSON lines, one per
    message.  The two directories (live and archive) are maps from session ids
    to texts; file operations take what the file system answers.  The search
    index is a best-effort overlay and is left out.  Third-party: serde_json on
    a message ([MessageJson]); gzip keeps the text it is given. *)
From S2P Require Import Prelude Text Protocol History.

Class MessageJson (V : Type) := {
  msg_to_json : Message V -> option text;
  msg_of_json : text -> option (Message V)
}.

(** A message prints as one line, an object, that reads back. *)
Class MessageJsonLaws (V : Type) `{!MessageJson V} : Prop := {
  msg_json_back (m : Message V) : msg_to_json m ≫= msg_of_json = Some m;
  msg_json_line (m : Message V) s : msg_to_json m = Some s -> 10 ∉ s;
  msg_json_brace (m : Message V) s : msg_to_json m = Some s -> exists r, s = r ++ [125]
}.

(** One directory: [<id>.jsonl] and [<id>.jsonl.gz]. *)
Record SessionDir := mkDir { sd_jsonl : gmap Z text; sd_gz : gmap Z text }.

Record SessionStore := mkStore {
  ss_live : SessionDir;
  ss_archive : SessionDir;
  ss_tombstones : gset Z
}.

Definition with_live (s : SessionStore) (d : SessionDir) : SessionStore := mkStore d (ss_archive s) (ss_tombstones s).

Definition tombstone (s : SessionStore) (id : Z) : SessionStore :=
  mkStore (ss_live s) (ss_archive s) ({[ id ]} ∪ ss_tombstones s).
Definition is_tombstoned (s : SessionStore) (id : Z) : bool := bool_decide (id ∈ ss_tombstones s).

(** [remove_file]; [ok]: whether an existing file could be removed. *)
Definition remove_file (ok : bool) (s : SessionStore) (id : Z) : SessionStore * bool :=
  let d := ss_live s in
  if ok && is_someb (sd_jsonl d !! id) then (with_live s (mkDir (delete id (sd_jsonl d)) (sd_gz d)), true) else (s, false).

(** [archive_file]: [Err] when the directory cannot be made; renaming
    replaces what the archive held under the name. *)
Definition archive_file (mkdir_ok rename_ok : bool) (s : SessionStore) (id : Z) : SessionStore * result bool unit :=
  if negb mkdir_ok then (s, Err tt)
  else match sd_jsonl (ss_live s) !! id with
  | Some t =>
      if rename_ok
      then (mkStore (mkDir (delete id (sd_jsonl (ss_live s))) (sd_gz (ss_live s)))
                    (mkDir (<[id := t]> (sd_jsonl (ss_archive s))) (sd_gz (ss_archive s))) (ss_tombstones s), Ok true)
      else (s, Ok false)
  | None => (s, Ok false)
  end.

(** [exists]. *)
Definition on_file (s : SessionStore) (id : Z) : bool :=
  is_someb (sd_jsonl (ss_live s) !! id) || is_someb (sd_gz (ss_live s) !! id).

Section store.
Context {V : Type} `{!JsonValue V} `{!MessageJson V}.

(** Opening for append creates the file; [w]: what [write_all] did. *)
Definition append_line (w : FsWrite) (d : SessionDir) (id : Z) (line : text) : SessionDir :=
  let old := default [] (sd_jsonl d !! id) in
  match w with
  | WroteAll => mkDir (<[id := old ++ line]> (sd_jsonl d)) (sd_gz d)
  | WroteNone => d
  | WroteCut n => mkDir (<[id := old ++ take n line]> (sd_jsonl d)) (sd_gz d)
  end.

Definition append (w : FsWrite) (s : SessionStore) (id : Z) (m : Message V) : SessionStore :=
  if is_spawn_session id then s
  else if is_tombstoned s id then s
  else match msg_to_json m with
  | Some line => with_live s (append_line w (ss_live s) id (line ++ [10]))
  | None => s
  end.

(** The lines that parse. *)
Definition parse_transcript (t : text) : list (Message V) := omap msg_of_json (lines t).

Definition repaired (t : text) : option (list (Message V)) :=
  match (repair_history (parse_transcript t)).1 with [] => None | h => Some h end.

(** [load_one]; [read_ok]: the live file, when there, is readable. *)
Definition load_one (read_ok : bool) (s : SessionStore) (id : Z) : option (list (Message V)) :=
  match (if read_ok then sd_jsonl (ss_live s) !! id else None) with
  | Some t => repaired t
  | None => sd_gz (ss_live s) !! id ≫= repaired
  end.

(** [load_all]: at boot, without the workers' files. *)
Definition load_all (s : SessionStore) : gmap Z (list (Message V)) :=
  map_imap (fun id t => if is_worker_session id then None else repaired t) (sd_jsonl (ss_live s)).
End store.

(** ** Idle files *)

(** [should_gzip]. *)
Definition should_gzip (id : Z) (loaded : gset Z) (age ttl : Z) : bool :=
  if ttl =? 0 then false
  else if id =? 0 then false
  else if is_worker_session id || is_spawn_session id then false
  else if bool_decide (id ∈ loaded) then false
  else ttl <=? age.

(** [gzip_jsonl]; [ok]: reading, compressing and renaming succeed.  Returns
    whether the walk goes on. *)
Definition gzip_jsonl (ok : bool) (d : SessionDir) (id : Z) : SessionDir * bool :=
  match sd_gz d !! id with
  | Some _ => (mkDir (delete id (sd_jsonl d)) (sd_gz d), true)
  | None =>
      match sd_jsonl d !! id with
      | Some t => if ok then (mkDir (delete id (sd_jsonl d)) (<[id := t]> (sd_gz d)), true) else (d, false)
      | None => (d, false)
      end
  end.

(** [gzip_idle_one_dir] over the directory's [.jsonl] entries, each with its
    age and how its compression goes. *)
Fixpoint gzip_idle_one_dir (loaded : gset Z) (ttl : Z) (entries : list (Z * Z * bool)) (d : SessionDir) : SessionDir * bool :=
  match entries with
  | [] => (d, true)
  | (id, age, ok) :: entries =>
      if negb (should_gzip id loaded age ttl) then gzip_idle_one_dir loaded ttl entries d
      else let '(d, go) := gzip_jsonl ok d id in
           if go then gzip_idle_one_dir loaded ttl entries d else (d, false)
  end.

(** [gzip_idle_dir]: the live directory, then the archive. *)
Definition gzip_idle (loaded : gset Z) (ttl : Z) (live archive : list (Z * Z * bool)) (s : SessionStore) : SessionStore :=
  if ttl =? 0 then s
  else
    let '(l, go) := gzip_idle_one_dir loaded ttl live (ss_live s) in
    let a := if go then (gzip_idle_one_dir loaded ttl archive (ss_archive s)).1 else ss_archive s in
    mkStore l a (ss_tombstones s).

(** What [open_jsonl_or_gz] reads: the plain file first. *)
Definition open_transcript (d : SessionDir) (id : Z) : option text :=
  match sd_jsonl d !! id with Some t => Some t | None => sd_gz d !! id end.

(** ** Lemmas *)

Section transcripts.
Context {V : Type} `{!JsonValue V} `{!MessageJson V} `{!MessageJsonLaws V}.
Implicit Types (m : Message V) (ms : list (Message V)).

(** The text of a conversation, one line per message. *)
Definition transcript ms : text := terminated (omap msg_to_json ms).

Lemma msg_line m :
  exists s, msg_to_json m = Some s /\ msg_of_json s = Some m /\ (10 ∉ s) /\ strip_cr s = s.
Proof.
  pose proof (msg_json_back m) as Hb. pose proof (msg_json_line m) as Hl. pose proof (msg_json_brace m) as Hr.
  destruct (msg_to_json m) as [s|]; [|done]. destruct (Hr s eq_refl) as [r ->].
  exists (r ++ [125]). split_and!; [done|exact Hb|by apply Hl|by apply strip_cr_snoc].
Qed.

Lemma transcript_app ms1 ms2 : transcript (ms1 ++ ms2) = transcript ms1 ++ transcript ms2.
Proof. unfold transcript, terminated. by rewrite omap_app, fmap_app, concat_app. Qed.

Lemma parse_transcript_back ms : parse_transcript (transcript ms) = ms.
Proof.
  unfold parse_transcript, transcript. rewrite lines_terminated.
  - induction ms as [|m ms IH]; [done|]. cbn [omap list_omap]. destruct (msg_line m) as (s & -> & Hb & _ & Hs).
    cbn [fmap list_fmap omap list_omap]. rewrite Hs, Hb. by f_equal.
  - induction ms as [|m ms IH]; [constructor|]. cbn [omap list_omap]. destruct (msg_line m) as (s & -> & _ & Hl & _).
    by constructor.
Qed.

(** An append that lands adds the message to the conversation. *)
Lemma append_transcript s id m ms :
  is_spawn_session id = false -> is_tombstoned s id = false ->
  default [] (sd_jsonl (ss_live s) !! id) = transcript ms ->
  sd_jsonl (ss_live (append WroteAll s id m)) !! id = Some (transcript (ms ++ [m])).
Proof.
  intros Hsp Ht Hf. unfold append. rewrite Hsp, Ht. destruct (msg_line m) as (l & E & _ & _ & _). rewrite E.
  cbn. rewrite lookup_insert_eq, Hf. f_equal. rewrite transcript_app. f_equal.
  unfold transcript, terminated. cbn. rewrite E. cbn. by rewrite app_nil_r.
Qed.

Lemma append_other w s id m i : i <> id -> sd_jsonl (ss_live (append w s id m)) !! i = sd_jsonl (ss_live s) !! i.
Proof.
  intros Hi. unfold append. destruct (is_spawn_session id); [done|]. destruct (is_tombstoned s id); [done|].
  destruct (msg_to_json m); [|done]. destruct w; cbn; [by rewrite lookup_insert_ne|done|by rewrite lookup_insert_ne].
Qed.

Lemma append_tombstones w s id m : ss_tombstones (append w s id m) = ss_tombstones s.
Proof. unfold append. by repeat (case_match; try done). Qed.

(** A conversation on disk loads as its repair, a valid one as it is. *)
Lemma load_transcript s id ms :
  sd_jsonl (ss_live s) !! id = Some (transcript ms) ->
  load_one true s id = match (repair_history ms).1 with [] => None | h => Some h end.
Proof. intros Hf. unfold load_one. rewrite Hf. unfold repaired. by rewrite parse_transcript_back. Qed.

(** A line torn by a crash shares its line with the next message. *)
Lemma torn_line_swallows ms m1 m2 l1 l2 n :
  msg_to_json m1 = Some l1 -> msg_to_json m2 = Some l2 -> (n <= length l1)%nat ->
  lines (transcript ms ++ take n (l1 ++ [10]) ++ (l2 ++ [10])) =
  (strip_cr <$> omap msg_to_json ms) ++ [strip_cr (take n l1 ++ l2)].
Proof.
  intros E1 E2 Hn. rewrite take_app_le by done.
  assert (transcript ms ++ take n l1 ++ l2 ++ [10] = terminated (omap msg_to_json ms ++ [take n l1 ++ l2])) as ->.
  { unfold transcript. by rewrite terminated_snoc, <- !app_assoc. }
  rewrite lines_terminated, fmap_app; [done|]. apply Forall_app. split.
  - induction ms as [|m ms IH]; [constructor|]. cbn [omap list_omap]. destruct (msg_line m) as (s & -> & _ & Hl & _).
    by constructor.
  - constructor; [|constructor]. rewrite elem_of_app. intros [(i & Hi & _)%elem_of_take|Hin].
    + apply (msg_json_line m1 l1 E1). by eapply list_elem_of_lookup_2.
    + by apply (msg_json_line m2 l2 E2).
Qed.
End transcripts.

(** *** Gzip *)

(** No id has both forms. *)
Definition one_form (d : SessionDir) : Prop := forall id, is_someb (sd_jsonl d !! id) && is_someb (sd_gz d !! id) = false.

Lemma gzip_jsonl_keeps ok d id i :
  one_form d -> open_transcript (gzip_jsonl ok d id).1 i = open_transcript d i /\ one_form (gzip_jsonl ok d id).1.
Proof.
  intros Hone. pose proof (Hone id) as Hid. unfold gzip_jsonl, open_transcript.
  destruct (sd_gz d !! id) as [g|] eqn:Eg.
  - destruct (sd_jsonl d !! id) as [t|] eqn:Ej; [done|]. cbn. rewrite delete_id by done. split; [done|exact Hone].
  - destruct (sd_jsonl d !! id) as [t|] eqn:Ej; [|done]. destruct ok; [|done]. cbn. split.
    + destruct (decide (i = id)) as [->|Hne]; [by rewrite lookup_delete_eq, lookup_insert_eq, Ej|].
      by rewrite lookup_delete_ne, lookup_insert_ne by done.
    + intros j. cbn. destruct (decide (j = id)) as [->|Hne]; [by rewrite lookup_delete_eq|].
      rewrite lookup_delete_ne, lookup_insert_ne by done. apply Hone.
Qed.

Lemma gzip_dir_keeps loaded ttl entries : forall d i,
  one_form d ->
  open_transcript (gzip_idle_one_dir loaded ttl entries d).1 i = open_transcript d i /\
  one_form (gzip_idle_one_dir loaded ttl entries d).1.
Proof.
  induction entries as [|[[id age] ok] entries IH]; intros d i Hd; [done|]. cbn [gzip_idle_one_dir].
  destruct (negb _); [by apply IH|]. destruct (gzip_jsonl_keeps ok d id i Hd) as [E Hd'].
  destruct (gzip_jsonl ok d id) as [d' go]. cbn [fst] in *. destruct go; [|done].
  destruct (IH d' i Hd') as [E' Hd'']. by rewrite E', E.
Qed.

(** Compressing idle files changes no transcript, live or archived, and never
    touches the live file of the root, of a worker or of a loaded session. *)
Theorem gzip_keeps_transcripts loaded ttl live archive s
    (Hlive : one_form (ss_live s)) (Harch : one_form (ss_archive s)) :
  let s' := gzip_idle loaded ttl live archive s in
  (forall id, open_transcript (ss_live s') id = open_transcript (ss_live s) id /\
     open_transcript (ss_archive s') id = open_transcript (ss_archive s) id) /\
  (forall id, id = 0 \/ is_worker_session id = true \/ id ∈ loaded ->
     sd_jsonl (ss_live s') !! id = sd_jsonl (ss_live s) !! id).
Proof.
  cbv zeta. unfold gzip_idle. destruct (ttl =? 0); [done|].
  pose proof (gzip_dir_keeps loaded ttl live (ss_live s)) as Hl.
  pose proof (gzip_dir_keeps loaded ttl archive (ss_archive s)) as Ha.
  assert (forall entries d id, id = 0 \/ is_worker_session id = true \/ id ∈ loaded ->
    sd_jsonl (gzip_idle_one_dir loaded ttl entries d).1 !! id = sd_jsonl d !! id) as Hkeep.
  { clear. induction entries as [|[[i age] ok] entries IH]; intros d id Hid; [done|]. cbn [gzip_idle_one_dir].
    destruct (should_gzip i loaded age ttl) eqn:E; cbn [negb]; [|by apply IH].
    assert (i <> id) as Hne.
    { intros ->. unfold should_gzip in E. destruct (ttl =? 0); [done|]. destruct (Z.eqb_spec id 0); [done|].
      destruct (is_worker_session id) eqn:Ew; [done|]. destruct (is_spawn_session id); [done|].
      case_bool_decide; [done|]. destruct Hid as [?|[?|?]]; done. }
    assert (sd_jsonl (gzip_jsonl ok d i).1 !! id = sd_jsonl d !! id) as Eg.
    { unfold gzip_jsonl. destruct (sd_gz d !! i); [by cbn; rewrite lookup_delete_ne|].
      destruct (sd_jsonl d !! i); [|done]. destruct ok; [|done]. cbn. by rewrite lookup_delete_ne. }
    destruct (gzip_jsonl ok d i) as [d' go]. cbn [fst] in Eg. destruct go; [|done]. by rewrite IH. }
  specialize (Hkeep live (ss_live s)).
  destruct (gzip_idle_one_dir loaded ttl live (ss_live s)) as [l go]. cbn [fst] in *.
  split; [|exact Hkeep]. intros id. split; [by apply Hl|]. destruct go; [by apply Ha|done].
Qed.

(** Archiving an id a second time replaces the first archive; and when the
    first was already compressed, compressing removes the second. *)
Lemma rearchived_transcript_is_lost loaded ttl age s id t1 t2 :
  should_gzip id loaded age ttl = true ->
  sd_gz (ss_archive s) !! id = Some t1 -> sd_jsonl (ss_live s) !! id = Some t2 ->
  let s1 := (archive_file true true s id).1 in
  let s2 := gzip_idle loaded ttl [] [(id, age, true)] s1 in
  open_transcript (ss_archive s1) id = Some t2 /\ open_transcript (ss_archive s2) id = Some t1 /\
  open_transcript (ss_live s2) id = sd_gz (ss_live s) !! id.
Proof.
  intros Hg Ha Hl. unfold archive_file. cbn [negb]. rewrite Hl. cbn [fst]. unfold gzip_idle.
  assert ((ttl =? 0) = false) as ->. { unfold should_gzip in Hg. by destruct (ttl =? 0). }
  cbn [gzip_idle_one_dir]. rewrite Hg. cbn [negb]. unfold gzip_jsonl. cbn [ss_archive sd_gz sd_jsonl]. rewrite Ha.
  unfold open_transcript. cbn. rewrite lookup_insert_eq, !lookup_delete_eq. done.
Qed.

Definition idle_store : SessionStore := mkStore (mkDir {[ 7 := chars "{}" ]} ∅) (mkDir ∅ {[ 8 := chars "[]" ]}) ∅.

Lemma gzip_keeps_transcripts_witness :
  sd_gz (ss_live (gzip_idle ∅ 10 [(7, 20, true)] [] idle_store)) !! 7 = Some (chars "{}") /\
  open_transcript (ss_live (gzip_idle ∅ 10 [(7, 20, true)] [] idle_store)) 7 = open_transcript (ss_live idle_store) 7.
Proof.
  split; [reflexivity|].
  refine (proj1 (proj1 (gzip_keeps_transcripts ∅ 10 [(7, 20, true)] [] idle_store _ _) 7)); intros id; cbn; rewrite lookup_empty;
    [by destruct (is_someb _)|done].
Defined.
