(* ===== verification/AgentRouter.v ===== *)
(** * The agent router

    [spawn_agent_router] of [agentd/crates/agentd/src/main.rs] with the turn
    gate, the session tracker and the tasks it spawns.  The router is one task
    that handles one event at a time ([router_step]); what it awaits inline is
    part of the event's step.  A turn runs as a task of its own, kept in the
    order of spawning with the stage it has reached: it touches the router's
    maps only between its awaits, so each such stretch is a step ([RTask]).  An
    aborted task may still take steps until it is dropped ([RDrop]); an append
    it had under way may then land later ([RLate]).  An append is taken to be
    on disk when its [write_all] returns.  [None]: the router never returns
    from the event.  Prompts that the router puts on the bus itself come back as
    inputs. *)
From S2P Require Import Prelude Text Policy Protocol Identity History Sessions Turn.

(** ** The turn gate *)

Record ImageSource := mkImageSource { img_media_type : text; img_data : text }.
Definition TurnPayload : Type := (text * list ImageSource)%type.

Record TurnGate := mkTurnGate {
  tg_busy : gset Z;
  tg_queued : gmap Z (list TurnPayload);
  tg_retired : gset Z
}.

Definition queue_of (g : TurnGate) (session : Z) : list TurnPayload := default [] (tg_queued g !! session).

(** [TurnGate::admit]. *)
Definition gate_admit (g : TurnGate) (session : Z) (p : TurnPayload) : TurnGate * option TurnPayload :=
  if bool_decide (session ∈ tg_retired g) then (g, None)
  else if bool_decide (session ∈ tg_busy g)
  then (mkTurnGate (tg_busy g) (<[session := queue_of g session ++ [p]]> (tg_queued g)) (tg_retired g), None)
  else (mkTurnGate ({[ session ]} ∪ tg_busy g) (tg_queued g) (tg_retired g), Some p).

Definition gate_free (g : TurnGate) (session : Z) : TurnGate :=
  mkTurnGate (tg_busy g ∖ {[ session ]}) (delete session (tg_queued g)) (tg_retired g).

(** [TurnGate::complete]. *)
Definition gate_complete (g : TurnGate) (session : Z) : TurnGate * option TurnPayload :=
  if bool_decide (session ∈ tg_retired g) then (gate_free g session, None)
  else match queue_of g session with
  | p :: q => (mkTurnGate (tg_busy g) (<[session := q]> (tg_queued g)) (tg_retired g), Some p)
  | [] => (gate_free g session, None)
  end.

(** [TurnGate::cancel]. *)
Definition gate_cancel (g : TurnGate) (session : Z) : TurnGate :=
  mkTurnGate (tg_busy g) (delete session (tg_queued g)) (tg_retired g).

(** [TurnGate::retire]. *)
Definition gate_retire (g : TurnGate) (session : Z) : TurnGate :=
  mkTurnGate (tg_busy g) (delete session (tg_queued g)) ({[ session ]} ∪ tg_retired g).

(** ** The session tracker *)

(** The handles hold the turn's generation and the task they abort. *)
Record SessionTracker := mkTracker {
  tr_handles : gmap Z (Z * nat);
  tr_children : gmap Z (list Z);
  tr_depths : gmap Z Z
}.

Definition children_of (t : SessionTracker) (session : Z) : list Z := default [] (tr_children t !! session).

(** [SessionTracker::finish]. *)
Definition tracker_finish (t : SessionTracker) (sid gen : Z) : SessionTracker :=
  match tr_handles t !! sid with
  | Some (g, _) => if g =? gen then mkTracker (delete sid (tr_handles t)) (tr_children t) (tr_depths t) else t
  | None => t
  end.

(** [SessionTracker::finish_child]. *)
Definition tracker_finish_child (t : SessionTracker) (child parent gen : Z) : SessionTracker :=
  let t := tracker_finish t child gen in
  mkTracker (tr_handles t)
    (alter (fun v => filter (fun c => negb (c =? child)) v) parent (delete child (tr_children t)))
    (delete child (tr_depths t)).

(** The walk of [cascade_cancel]: [i] runs through the list it extends. *)
Fixpoint cascade_walk (fuel : nat) (t : SessionTracker) (to_cancel : list Z) (i : nat) : option (list Z) :=
  match to_cancel !! i with
  | None => Some to_cancel
  | Some s =>
      match fuel with
      | O => None
      | S fuel => cascade_walk fuel t (to_cancel ++ children_of t s) (S i)
      end
  end.

(** All entries of the child lists. *)
Definition all_children (t : SessionTracker) : list Z := concat (map_to_list (tr_children t)).*2.

(** Who is cancelled with a session. *)
Definition cascade_targets (t : SessionTracker) (session : Z) : option (list Z) :=
  cascade_walk (S (length (all_children t))) t [session] 0.

(** [SPAWN_SESSION_BASE] and up by one; an [AtomicU64]. *)
Definition fetch_next (n : Z) : Z := as_u64 (n + 1).

(** ** Tasks *)

Section router.
Context {V : Type} `{!JsonArgs V} `{!JsonNums V} `{!JsonValue V} `{!JsonDoc V} `{!ImageOps} `{!MessageJson V}.

Inductive TaskKind :=
  | RootTurn
  | ChildTurn (parent call : Z).

(** [Turning]: in [run_turn] on the snapshot.  [Persisting]: the messages of
    the delta still to append; the flag: the next one's append is past its
    tombstone check.  [Storing]: the child's reply is in.  [Reporting]: the
    [ToolResult] for the parent is due.  [Closing]: the tracker is.  *)
Inductive TurnStage :=
  | Turning (history : list (Message V))
  | Persisting (updated todo : list (Message V)) (checked : bool)
  | Storing (updated : list (Message V))
  | Reporting (ok : bool) (content : text)
  | Closing
  | Gone.

Record TurnTask := mkTurnTask {
  tt_session : Z;
  tt_kind : TaskKind;
  tt_gen : Z;
  tt_stage : TurnStage;
  tt_aborted : bool
}.

Definition with_stage (t : TurnTask) (s : TurnStage) : TurnTask := mkTurnTask (tt_session t) (tt_kind t) (tt_gen t) s (tt_aborted t).
Definition abort_task (t : TurnTask) : TurnTask := mkTurnTask (tt_session t) (tt_kind t) (tt_gen t) (tt_stage t) true.

(** ** The router's state *)

Record AgentRouter := mkRouter {
  ar_store : SessionStore;
  ar_histories : gmap Z (list (Message V));
  ar_gate : TurnGate;
  ar_done : list Z;
  ar_tasks : list TurnTask;
  ar_late : list (Z * Message V);
  ar_tracker : SessionTracker;
  ar_hops : option (gmap Z Z);
  ar_next_child : Z;
  ar_next_gen : Z
}.

Definition with_store (r : AgentRouter) (s : SessionStore) : AgentRouter :=
  mkRouter s (ar_histories r) (ar_gate r) (ar_done r) (ar_tasks r) (ar_late r) (ar_tracker r) (ar_hops r) (ar_next_child r) (ar_next_gen r).
Definition with_histories (r : AgentRouter) (h : gmap Z (list (Message V))) : AgentRouter :=
  mkRouter (ar_store r) h (ar_gate r) (ar_done r) (ar_tasks r) (ar_late r) (ar_tracker r) (ar_hops r) (ar_next_child r) (ar_next_gen r).
Definition with_gate (r : AgentRouter) (g : TurnGate) : AgentRouter :=
  mkRouter (ar_store r) (ar_histories r) g (ar_done r) (ar_tasks r) (ar_late r) (ar_tracker r) (ar_hops r) (ar_next_child r) (ar_next_gen r).
Definition with_done (r : AgentRouter) (d : list Z) : AgentRouter :=
  mkRouter (ar_store r) (ar_histories r) (ar_gate r) d (ar_tasks r) (ar_late r) (ar_tracker r) (ar_hops r) (ar_next_child r) (ar_next_gen r).
Definition with_tasks (r : AgentRouter) (ts : list TurnTask) : AgentRouter :=
  mkRouter (ar_store r) (ar_histories r) (ar_gate r) (ar_done r) ts (ar_late r) (ar_tracker r) (ar_hops r) (ar_next_child r) (ar_next_gen r).
Definition with_late (r : AgentRouter) (l : list (Z * Message V)) : AgentRouter :=
  mkRouter (ar_store r) (ar_histories r) (ar_gate r) (ar_done r) (ar_tasks r) l (ar_tracker r) (ar_hops r) (ar_next_child r) (ar_next_gen r).
Definition with_tracker (r : AgentRouter) (t : SessionTracker) : AgentRouter :=
  mkRouter (ar_store r) (ar_histories r) (ar_gate r) (ar_done r) (ar_tasks r) (ar_late r) t (ar_hops r) (ar_next_child r) (ar_next_gen r).
Definition with_hops (r : AgentRouter) (h : option (gmap Z Z)) : AgentRouter :=
  mkRouter (ar_store r) (ar_histories r) (ar_gate r) (ar_done r) (ar_tasks r) (ar_late r) (ar_tracker r) h (ar_next_child r) (ar_next_gen r).
Definition with_next (r : AgentRouter) (child gen : Z) : AgentRouter :=
  mkRouter (ar_store r) (ar_histories r) (ar_gate r) (ar_done r) (ar_tasks r) (ar_late r) (ar_tracker r) (ar_hops r) child gen.

Inductive SessionRetireKind := RetireDelete | RetireArchive.

Inductive RouterEffect :=
  | RouterError (session : option Z) (message : text)
  | RouterToolResult (session call : Z) (ok : bool) (content : text)
  | SubAgentStarted (parent child : Z) (prompt : text)
  | PromptEmitted (session : Z) (prompt : text)
  | MessageAck (msg_id from : Z)
  | TurnEnded (session : Z)
  | TurnStarted (session : Z) (p : TurnPayload)
  | TurnOutput (session : Z) (out : list (TurnEffect V))
  | RetireReply (session : Z) (kind : SessionRetireKind) (moved : result bool unit).

(** ** Spawning *)

(** [tokio::spawn] with its abort handle registered. *)
Definition spawn_task (r : AgentRouter) (session : Z) (kind : TaskKind) (snapshot : list (Message V)) : AgentRouter :=
  let gen := ar_next_gen r in
  let id := length (ar_tasks r) in
  let r := with_next r (ar_next_child r) (fetch_next gen) in
  let r := with_tasks r (ar_tasks r ++ [mkTurnTask session kind gen (Turning snapshot) false]) in
  let t := ar_tracker r in
  with_tracker r (mkTracker (<[session := (gen, id)]> (tr_handles t)) (tr_children t) (tr_depths t)).

(** [entry(session).or_insert(0)]. *)
Definition depth_entry (t : SessionTracker) (session : Z) : SessionTracker :=
  match tr_depths t !! session with
  | Some _ => t
  | None => mkTracker (tr_handles t) (tr_children t) (<[session := 0]> (tr_depths t))
  end.

Definition user_content (p : TurnPayload) : list (ContentBlock V) :=
  let content := (if bool_decide (p.1 = []) then [] else [Text p.1])
                 ++ ((fun img => Image (img_media_type img) (img_data img)) <$> p.2) in
  if bool_decide (length content = 0)%nat then [Text []] else content.

(** The body that starts a chosen turn; [w]: how the user line is written. *)
Definition start_turn (budget : Z) (w : FsWrite) (session : Z) (p : TurnPayload) (r : AgentRouter) : AgentRouter * list RouterEffect :=
  let r := with_tracker r (depth_entry (ar_tracker r) session) in
  let user_msg := User (user_content p) in
  let history := trim_history (default [] (ar_histories r !! session) ++ [user_msg]) budget in
  let r := with_histories r (<[session := history]> (ar_histories r)) in
  let r := with_store r (append w (ar_store r) session user_msg) in
  (spawn_task r session RootTurn history, [TurnStarted session p]).

Definition start_chosen (budget : Z) (w : FsWrite) (session : Z) (to_run : option TurnPayload) (r : AgentRouter)
    : AgentRouter * list RouterEffect :=
  match to_run with Some p => start_turn budget w session p r | None => (r, []) end.

(** ** Events *)

(** A parked worker comes back from its file before its prompt is taken. *)
Definition revive (read_ok : bool) (session : Z) (r : AgentRouter) : AgentRouter * list RouterEffect * bool :=
  if is_tombstoned (ar_store r) session then (r, [], false)
  else if is_worker_session session && is_noneb (ar_histories r !! session) && on_file (ar_store r) session
  then match load_one read_ok (ar_store r) session with
    | Some h => (with_histories r (<[session := h]> (ar_histories r)), [], true)
    | None => (r, [RouterError None (chars "worker session " ++ dec_text session
                      ++ chars " could not be revived (unreadable history)")], false)
    end
  else (r, [], true).

(** [Event::UserPrompt]. *)
Definition user_prompt (budget : Z) (read_ok : bool) (w : FsWrite) (session : Z) (p : TurnPayload) (r : AgentRouter)
    : AgentRouter * list RouterEffect :=
  let '(r, out, revive_ok) := revive read_ok session r in
  if is_tombstoned (ar_store r) session
  then (r, out ++ [RouterError (Some session) (chars "session " ++ dec_text session ++ chars " has been deleted or archived")])
  else if revive_ok then
    let '(g, to_run) := gate_admit (ar_gate r) session p in
    let '(r, out') := start_chosen budget w session to_run (with_gate r g) in
    (r, out ++ out')
  else (r, out).

(** [Event::SpawnAgent]. *)
Definition spawn_agent (max_depth : Z) (parent call : Z) (prompt : text) (r : AgentRouter) : AgentRouter * list RouterEffect :=
  let parent_depth := default 0 (tr_depths (ar_tracker r) !! parent) in
  if max_depth <=? parent_depth
  then (r, [RouterToolResult parent call false (chars "max sub-agent depth exceeded")])
  else
    let child := ar_next_child r in
    let r := with_next r (fetch_next child) (ar_next_gen r) in
    let t := ar_tracker r in
    let r := with_tracker r (mkTracker (tr_handles t)
               (<[parent := children_of t parent ++ [child]]> (tr_children t))
               (<[child := parent_depth + 1]> (tr_depths t))) in
    let r := with_hops r (mesh_hops_set (ar_hops r) child (mesh_hops_get (ar_hops r) parent)) in
    let child_history := [User [Text prompt]] in
    let r := with_histories r (<[child := child_history]> (ar_histories r)) in
    (spawn_task r child (ChildTurn parent call) child_history, [SubAgentStarted parent child (take 120 prompt)]).

(** [Event::AgentMessage]. *)
Definition agent_message (from to : Z) (body : text) (msg_id : Z) (r : AgentRouter) : AgentRouter * list RouterEffect :=
  (r, [PromptEmitted to (chars "[Agent " ++ dec_text from ++ chars "]: " ++ body); MessageAck msg_id from]).

(** One session of [cascade_cancel]'s second loop. *)
Definition abort_session (s : Z) (r : AgentRouter) : AgentRouter :=
  let t := ar_tracker r in
  match tr_handles t !! s with
  | Some (_, id) =>
      with_tracker (with_tasks r (alter abort_task id (ar_tasks r)))
        (mkTracker (delete s (tr_handles t)) (tr_children t) (tr_depths t))
  | None => r
  end.

Definition cascade_cancel (session : Z) (r : AgentRouter) : option AgentRouter :=
  to_cancel ← cascade_targets (ar_tracker r) session;
  Some (fold_left (fun r s => abort_session s r) to_cancel r).

Definition cancel_marker_needed (history : list (Message V)) : bool :=
  match last history with Some (User _) => true | _ => false end.

Definition cancel_marker : Message V := Assistant [Text ([8856] ++ chars " turn cancelled")].

(** [Event::UserCancel]. *)
Definition user_cancel (w : FsWrite) (session : Z) (r : AgentRouter) : option AgentRouter :=
  r ← cascade_cancel session r;
  let r := with_gate r (gate_cancel (ar_gate r) session) in
  Some (if is_tombstoned (ar_store r) session then r
        else match ar_histories r !! session with
        | Some h =>
            if cancel_marker_needed h
            then let r := with_histories r (<[session := h ++ [cancel_marker]]> (ar_histories r)) in
                 with_store r (append w (ar_store r) session cancel_marker)
            else r
        | None => r
        end).

(** [Event::WorkerStateChanged] to [Parked]. *)
Definition worker_parked (session : Z) (r : AgentRouter) : AgentRouter :=
  if is_worker_session session then with_histories r (delete session (ar_histories r)) else r.

(** The turn-done arm. *)
Definition turn_done (budget : Z) (w : FsWrite) (r : AgentRouter) : AgentRouter * list RouterEffect :=
  match ar_done r with
  | [] => (r, [])
  | session :: ds =>
      let '(g, to_run) := gate_complete (ar_gate r) session in
      start_chosen budget w session to_run (with_gate (with_done r ds) g)
  end.

(** [apply_session_retire]. *)
Definition apply_session_retire (mkdir_ok fs_ok : bool) (session : Z) (kind : SessionRetireKind) (r : AgentRouter)
    : AgentRouter * list RouterEffect :=
  match kind with
  | RetireDelete =>
      let '(s, removed) := remove_file fs_ok (ar_store r) session in
      (with_histories (with_store r s) (delete session (ar_histories r)), [RetireReply session kind (Ok removed)])
  | RetireArchive =>
      let '(s, moved) := archive_file mkdir_ok fs_ok (ar_store r) session in
      (match moved with
       | Ok true => with_histories (with_store r s) (delete session (ar_histories r))
       | _ => with_store r s
       end, [RetireReply session kind moved])
  end.

(** The retire arm. *)
Definition session_retire (mkdir_ok fs_ok : bool) (session : Z) (kind : SessionRetireKind) (r : AgentRouter)
    : option (AgentRouter * list RouterEffect) :=
  let r := with_store r (tombstone (ar_store r) session) in
  let r := with_gate r (gate_retire (ar_gate r) session) in
  r ← cascade_cancel session r;
  Some (apply_session_retire mkdir_ok fs_ok session kind r).

(** ** Steps of the tasks *)

Definition text_of (b : ContentBlock V) : option text := match b with Text t => Some t | _ => None end.

(** The last reply with a text. *)
Definition extract_final_text (history : list (Message V)) : text :=
  default [] (head (omap (fun m => match m with
    | Assistant content =>
        let t := concat (omap text_of content) in
        if bool_decide (t = []) then None else Some t
    | User _ => None
    end) (rev history))).

(** What a turn meets on its way: the configuration, the shared id counter
    when it starts, its rounds, and what its error would say. *)
Record TurnWorld := mkTurnWorld {
  tw_edge_var : option text;
  tw_read_bytes : text -> result bytes text;
  tw_window_secs : Z;
  tw_clock : bool;
  tw_next_id : Z;
  tw_rounds : list (Round V);
  tw_error : text
}.

Inductive TaskInput :=
  | TurnEnds (world : TurnWorld)
  | AppendLands (w : FsWrite)
  | TaskGo.

(** The turn is over: [root_turn] goes on to persist the delta, [child_turn]
    to store its reply. *)
Definition turn_ends (world : TurnWorld) (t : TurnTask) (history : list (Message V)) : option (TurnTask * list RouterEffect) :=
  let '(e, _, out) := run_turn (tw_edge_var world) (tw_read_bytes world) (tw_window_secs world) (tt_session t)
                        (tw_clock world) history ∅ (tw_next_id world) (tw_rounds world) in
  let outs := [TurnOutput (tt_session t) out] in
  match e, tt_kind t with
  | TurnRunning _, _ => None
  | TurnOk updated, RootTurn => Some (with_stage t (Persisting updated (drop (length history) updated) false), outs)
  | TurnErr, RootTurn =>
      Some (with_stage t Closing, outs ++ [RouterError (Some (tt_session t)) (tw_error world); TurnEnded (tt_session t)])
  | TurnOk updated, ChildTurn _ _ => Some (with_stage t (Storing updated), outs)
  | TurnErr, ChildTurn _ _ => Some (with_stage t (Reporting false (tw_error world)), outs)
  end.

(** The append of [m] would return before it opens the file. *)
Definition append_skips (s : SessionStore) (session : Z) (m : Message V) : bool :=
  is_spawn_session session || is_tombstoned s session || is_noneb (msg_to_json m).

(** The append past its check. *)
Definition land (w : FsWrite) (s : SessionStore) (session : Z) (m : Message V) : SessionStore :=
  match msg_to_json m with
  | Some line => with_live s (append_line w (ss_live s) session (line ++ [10]))
  | None => s
  end.

(** The next stretch of task [i]; the second component: what it does to the
    router's shared state. *)
Definition task_goes (t : TurnTask) (r : AgentRouter) : option (TurnTask * AgentRouter * list RouterEffect) :=
  let sid := tt_session t in
  match tt_stage t, tt_kind t with
  | Persisting updated (m :: todo) false, _ =>
      Some (with_stage t (if append_skips (ar_store r) sid m then Persisting updated todo false
                          else Persisting updated (m :: todo) true), r, [])
  | Persisting updated [] _, _ =>
      Some (with_stage t Closing,
            (if is_tombstoned (ar_store r) sid then r else with_histories r (<[sid := updated]> (ar_histories r))), [])
  | Storing updated, ChildTurn _ _ =>
      Some (with_stage t (Reporting true (extract_final_text updated)),
            with_histories r (<[sid := updated]> (ar_histories r)), [])
  | Reporting ok content, ChildTurn parent call =>
      Some (with_stage t Closing, r, [RouterToolResult parent call ok content])
  | Closing, RootTurn =>
      Some (with_stage t Gone, with_done (with_tracker r (tracker_finish (ar_tracker r) sid (tt_gen t))) (ar_done r ++ [sid]), [])
  | Closing, ChildTurn parent _ =>
      Some (with_stage t Gone, with_tracker r (tracker_finish_child (ar_tracker r) sid parent (tt_gen t)), [])
  | _, _ => None
  end.

Definition set_task (i : nat) (t : TurnTask) (r : AgentRouter) : AgentRouter := with_tasks r (<[i := t]> (ar_tasks r)).

Definition task_step (i : nat) (input : TaskInput) (r : AgentRouter) : AgentRouter * list RouterEffect :=
  match ar_tasks r !! i with
  | None => (r, [])
  | Some t =>
      match input, tt_stage t with
      | TurnEnds world, Turning history =>
          match turn_ends world t history with Some (t, out) => (set_task i t r, out) | None => (r, []) end
      | AppendLands w, Persisting updated (m :: todo) true =>
          (set_task i (with_stage t (Persisting updated todo false)) (with_store r (land w (ar_store r) (tt_session t) m)), [])
      | TaskGo, _ => match task_goes t r with Some (t, r, out) => (set_task i t r, out) | None => (r, []) end
      | _, _ => (r, [])
      end
  end.

Definition is_gone (t : TurnTask) : bool := match tt_stage t with Gone => true | _ => false end.

(** The append a dropped task had under way; the signal of its slot guard. *)
Definition late_of (t : TurnTask) : list (Z * Message V) :=
  match tt_stage t with Persisting _ (m :: _) true => [(tt_session t, m)] | _ => [] end.
Definition slot_signal (t : TurnTask) : list Z := match tt_kind t with RootTurn => [tt_session t] | _ => [] end.

(** An aborted task is dropped where it stands. *)
Definition drop_task (i : nat) (r : AgentRouter) : AgentRouter :=
  match ar_tasks r !! i with
  | Some t =>
      if tt_aborted t && negb (is_gone t)
      then set_task i (with_stage t Gone) (with_done (with_late r (ar_late r ++ late_of t)) (ar_done r ++ slot_signal t))
      else r
  | None => r
  end.

(** A late append lands, or is given up. *)
Definition late_step (j : nat) (w : FsWrite) (r : AgentRouter) : AgentRouter :=
  match ar_late r !! j with
  | Some (session, m) => with_late (with_store r (land w (ar_store r) session m)) (take j (ar_late r) ++ drop (S j) (ar_late r))
  | None => r
  end.

(** ** The router *)

Inductive RouterIn :=
  | RPrompt (budget : Z) (read_ok : bool) (w : FsWrite) (session : Z) (p : TurnPayload)
  | RSpawn (parent call : Z) (prompt : text)
  | RMessage (from to : Z) (body : text) (msg_id : Z)
  | RCancel (w : FsWrite) (session : Z)
  | RParked (session : Z)
  | RTurnDone (budget : Z) (w : FsWrite)
  | RRetire (mkdir_ok fs_ok : bool) (session : Z) (kind : SessionRetireKind)
  | RTask (i : nat) (input : TaskInput)
  | RDrop (i : nat)
  | RLate (j : nat) (w : FsWrite).

Definition router_step (max_depth : Z) (i : RouterIn) (r : AgentRouter) : option (AgentRouter * list RouterEffect) :=
  match i with
  | RPrompt budget read_ok w session p => Some (user_prompt budget read_ok w session p r)
  | RSpawn parent call prompt => Some (spawn_agent max_depth parent call prompt r)
  | RMessage from to body msg_id => Some (agent_message from to body msg_id r)
  | RCancel w session => r ← user_cancel w session r; Some (r, [])
  | RParked session => Some (worker_parked session r, [])
  | RTurnDone budget w => Some (turn_done budget w r)
  | RRetire mkdir_ok fs_ok session kind => session_retire mkdir_ok fs_ok session kind r
  | RTask i input => Some (task_step i input r)
  | RDrop i => Some (drop_task i r, [])
  | RLate j w => Some (late_step j w r, [])
  end.

Fixpoint router_run (max_depth : Z) (ins : list RouterIn) (r : AgentRouter) : option (AgentRouter * list RouterEffect) :=
  match ins with
  | [] => Some (r, [])
  | i :: ins =>
      '(r, out) ← router_step max_depth i r;
      '(r, outs) ← router_run max_depth ins r;
      Some (r, out ++ outs)
  end.

(** At start: the files' histories, empty maps, counters at their bases. *)
Definition router_boot (store : SessionStore) (hops : option (gmap Z Z)) : AgentRouter :=
  mkRouter store (load_all store) (mkTurnGate ∅ ∅ ∅) [] [] [] (mkTracker ∅ ∅ ∅) hops SPAWN_SESSION_BASE 1.
End router.

(** ** How a task moves *)

Section moves.
Context {V : Type} `{!JsonArgs V} `{!JsonNums V} `{!JsonValue V} `{!JsonDoc V} `{!ImageOps} `{!MessageJson V}.
Implicit Types (r : AgentRouter (V := V)) (t : TurnTask (V := V)) (s : TurnStage (V := V)).

Inductive task_moves r t (input : TaskInput (V := V)) : TurnStage -> AgentRouter -> list RouterEffect -> Prop :=
  | moves_turn world h s out :
      input = TurnEnds world -> tt_stage t = Turning h -> turn_ends world t h = Some (with_stage t s, out) -> task_moves r t input s r out
  | moves_check u m todo :
      tt_stage t = Persisting u (m :: todo) false ->
      task_moves r t input (if append_skips (ar_store r) (tt_session t) m then Persisting u todo false
                      else Persisting u (m :: todo) true) r []
  | moves_append u m todo w :
      input = AppendLands w -> tt_stage t = Persisting u (m :: todo) true ->
      task_moves r t input (Persisting u todo false) (with_store r (land w (ar_store r) (tt_session t) m)) []
  | moves_store u checked :
      tt_stage t = Persisting u [] checked ->
      task_moves r t input Closing (if is_tombstoned (ar_store r) (tt_session t) then r
                              else with_histories r (<[tt_session t := u]> (ar_histories r))) []
  | moves_reply u parent call :
      tt_stage t = Storing u -> tt_kind t = ChildTurn parent call ->
      task_moves r t input (Reporting true (extract_final_text u)) (with_histories r (<[tt_session t := u]> (ar_histories r))) []
  | moves_report ok content parent call :
      tt_stage t = Reporting ok content -> tt_kind t = ChildTurn parent call ->
      task_moves r t input Closing r [RouterToolResult parent call ok content]
  | moves_close_root :
      tt_stage t = Closing -> tt_kind t = RootTurn ->
      task_moves r t input Gone (with_done (with_tracker r (tracker_finish (ar_tracker r) (tt_session t) (tt_gen t)))
                             (ar_done r ++ [tt_session t])) []
  | moves_close_child parent call :
      tt_stage t = Closing -> tt_kind t = ChildTurn parent call ->
      task_moves r t input Gone (with_tracker r (tracker_finish_child (ar_tracker r) (tt_session t) parent (tt_gen t))) [].

Lemma turn_ends_stage world t h t' out :
  turn_ends world t h = Some (t', out) -> exists s, t' = with_stage t s.
Proof. unfold turn_ends. destruct (run_turn _ _ _ _ _ _ _ _ _) as [[e n] o]. destruct e, (tt_kind t); intros [=]; subst; by eexists. Qed.

Lemma task_step_moves i input r r' out :
  task_step i input r = (r', out) ->
  (r' = r /\ out = []) \/
  exists t s r1, ar_tasks r !! i = Some t /\ task_moves r t input s r1 out /\ r' = set_task i (with_stage t s) r1.
Proof.
  unfold task_step. destruct (ar_tasks r !! i) as [t|] eqn:Ei; [|intros [=]; by left].
  destruct input as [world|w|].
  - destruct (tt_stage t) as [h| | | | |] eqn:Es; try (intros [=]; by left).
    destruct (turn_ends world t h) as [[t' o]|] eqn:E; [|intros [=]; by left]. intros [= <- <-]. right.
    destruct (turn_ends_stage _ _ _ _ _ E) as [s ->]. exists t, s, r. split_and!; [done| |done]. by eapply moves_turn.
  - destruct (tt_stage t) as [|u [|m todo] [|]| | | |] eqn:Es; try (intros [=]; by left). intros [= <- <-]. right.
    do 3 eexists. split_and!; [done|by apply moves_append|done].
  - unfold task_goes.
    destruct (tt_stage t) as [|u [|m todo] b|u|ok content| |] eqn:Es; try (intros [=]; by left).
    + intros [= <- <-]. right. do 3 eexists. split_and!; [done|by eapply moves_store|]. done.
    + destruct b; [intros [=]; by left|]. intros [= <- <-]. right.
      do 3 eexists. split_and!; [done|by apply moves_check|done].
    + destruct (tt_kind t) as [|parent call] eqn:Ek; [intros [=]; by left|]. intros [= <- <-]. right.
      do 3 eexists. split_and!; [done|by eapply moves_reply|done].
    + destruct (tt_kind t) as [|parent call] eqn:Ek; [intros [=]; by left|]. intros [= <- <-]. right.
      do 3 eexists. split_and!; [done|by eapply moves_report|done].
    + destruct (tt_kind t) as [|parent call] eqn:Ek; intros [= <- <-]; right; do 3 eexists;
        (split_and!; [done| |done]); [by apply moves_close_root|by eapply moves_close_child].
Qed.

Lemma task_moves_tasks r t input s r1 out : task_moves r t input s r1 out -> ar_tasks r1 = ar_tasks r /\ ar_gate r1 = ar_gate r.
Proof. intros []; try done. by destruct (is_tombstoned _ _). Qed.

Lemma drop_task_moves i r :
  drop_task i r = r \/
  exists t, ar_tasks r !! i = Some t /\ tt_aborted t = true /\ is_gone t = false /\
    drop_task i r = set_task i (with_stage t Gone)
      (with_done (with_late r (ar_late r ++ late_of t)) (ar_done r ++ slot_signal t)).
Proof.
  unfold drop_task. destruct (ar_tasks r !! i) as [t|]; [|by left].
  destruct (tt_aborted t) eqn:Ea; [|by left]. destruct (is_gone t) eqn:Eg; [by left|]. right. by exists t.
Qed.
End moves.

(** ** One turn at a time *)

Section gates.
Context {V : Type} `{!JsonArgs V} `{!JsonNums V} `{!JsonValue V} `{!JsonDoc V} `{!ImageOps} `{!MessageJson V}.
Implicit Types (r : AgentRouter (V := V)) (t : TurnTask (V := V)).

(** A root turn of the session that is not over. *)
Definition root_live (session : Z) t : bool :=
  match tt_kind t with RootTurn => tt_session t =? session | _ => false end && negb (is_gone t).

Definition live_roots (session : Z) (ts : list (TurnTask (V := V))) : Z := zlen (filter (root_live session) ts).
Definition signals (session : Z) (ds : list Z) : Z := zlen (filter (fun d => d =? session) ds).

(** The slot is taken exactly while one turn runs or its signal is on the
    way, and only behind a taken slot is anything queued. *)
Definition one_turn (g : TurnGate) (ts : list (TurnTask (V := V))) (ds : list Z) : Prop :=
  forall s, live_roots s ts + signals s ds = Z.b2z (bool_decide (s ∈ tg_busy g)) /\
       (queue_of g s <> [] -> s ∈ tg_busy g).

Lemma live_roots_insert s ts i t t' :
  ts !! i = Some t ->
  live_roots s (<[i := t']> ts) = live_roots s ts - Z.b2z (root_live s t) + Z.b2z (root_live s t').
Proof.
  intros Hi. unfold live_roots. rewrite <- (take_drop_middle ts i t Hi) at 2.
  rewrite insert_take_drop by (by eapply lookup_lt_Some).
  rewrite !filter_app, !zlen_app, !zlen_filter_cons. lia.
Qed.

Lemma live_roots_snoc s ts t : live_roots s (ts ++ [t]) = live_roots s ts + Z.b2z (root_live s t).
Proof. unfold live_roots. rewrite filter_app, zlen_app, zlen_filter_cons, filter_nil, zlen_nil. lia. Qed.

Lemma alter_as_insert {A} (f : A -> A) i (l : list A) :
  alter f i l = match l !! i with Some x => <[i := f x]> l | None => l end.
Proof.
  revert i. induction l as [|y l IH]; intros [|i]; try done. cbn. change (alter f i l) with (alter f i l).
  rewrite IH. by destruct (l !! i).
Qed.

Lemma live_roots_abort s ts i : live_roots s (alter abort_task i ts) = live_roots s ts.
Proof.
  rewrite alter_as_insert. destruct (ts !! i) as [t|] eqn:E; [|done].
  rewrite (live_roots_insert s ts i t) by done. change (root_live s (abort_task t)) with (root_live s t). lia.
Qed.

Lemma signals_snoc s ds d : signals s (ds ++ [d]) = signals s ds + Z.b2z (d =? s).
Proof. unfold signals. rewrite filter_app, zlen_app, (zlen_filter_cons (fun d => d =? s)), filter_nil, zlen_nil. lia. Qed.

Lemma signals_cons s ds d : signals s (d :: ds) = Z.b2z (d =? s) + signals s ds.
Proof. unfold signals. by rewrite (zlen_filter_cons (fun d => d =? s)). Qed.

Lemma signals_elem s ds : 0 < signals s ds -> s ∈ ds.
Proof.
  intros Hp. unfold signals in Hp. destruct (filter (fun d => d =? s) ds) as [|d l] eqn:E; [by change (0 < 0) in Hp; lia|].
  assert (d ∈ filter (fun d => d =? s) ds) as Hin by (rewrite E; left).
  apply list_elem_of_filter in Hin as [Hds Hin]. apply Is_true_true, Z.eqb_eq in Hds. by subst.
Qed.

Lemma queue_insert b (q : gmap Z (list TurnPayload)) z s l s' :
  queue_of (mkTurnGate b (<[s := l]> q) z) s' = if decide (s' = s) then l else queue_of (mkTurnGate b q z) s'.
Proof.
  unfold queue_of. cbn. case_decide as E; [by rewrite E, lookup_insert_eq|by rewrite lookup_insert_ne].
Qed.

Lemma queue_delete b (q : gmap Z (list TurnPayload)) z s s' :
  queue_of (mkTurnGate b (delete s q) z) s' = if decide (s' = s) then [] else queue_of (mkTurnGate b q z) s'.
Proof.
  unfold queue_of. cbn. case_decide as E; [by rewrite E, lookup_delete_eq|by rewrite lookup_delete_ne].
Qed.

(** The pieces of a step. *)
Lemma one_turn_cancel g ts ds s : one_turn g ts ds -> one_turn (gate_cancel g s) ts ds.
Proof.
  intros Hg x. destruct (Hg x) as [Hn Hq]. split; [exact Hn|]. unfold gate_cancel. rewrite queue_delete.
  destruct (decide (x = s)); [done|exact Hq].
Qed.

Lemma one_turn_retire g ts ds s : one_turn g ts ds -> one_turn (gate_retire g s) ts ds.
Proof. apply one_turn_cancel. Qed.

Lemma one_turn_admit g ts ds s p gen h g' o :
  one_turn g ts ds -> gate_admit g s p = (g', o) ->
  one_turn g' (match o with Some _ => ts ++ [mkTurnTask s RootTurn gen (Turning h) false] | None => ts end) ds.
Proof.
  intros Hg. unfold gate_admit. case_bool_decide as Hr; [by intros [= <- <-]|]. case_bool_decide as Hb; intros [= <- <-] x.
  - destruct (Hg x) as [Hn Hq]. split; [exact Hn|]. rewrite queue_insert. cbn. destruct (decide (x = s)) as [E|]; [by subst|exact Hq].
  - destruct (Hg x) as [Hn Hq]. cbn [tg_busy]. rewrite live_roots_snoc. split.
    + unfold root_live, is_gone. cbn [tt_kind tt_session tt_stage negb]. rewrite andb_true_r.
      destruct (Z.eqb_spec s x) as [->|Hne].
      * rewrite bool_decide_eq_false_2 in Hn by done. rewrite bool_decide_eq_true_2 by set_solver. cbn in *. lia.
      * cbn. rewrite (bool_decide_ext (x ∈ {[s]} ∪ tg_busy g) (x ∈ tg_busy g)) by set_solver. lia.
    + intros H0. apply elem_of_union_r. by apply Hq.
Qed.

Lemma one_turn_complete g ts ds s gen h g' o :
  one_turn g ts (s :: ds) -> gate_complete g s = (g', o) ->
  one_turn g' (match o with Some _ => ts ++ [mkTurnTask s RootTurn gen (Turning h) false] | None => ts end) ds.
Proof.
  intros Hg Hc. assert (forall x, live_roots x ts + signals x ds = Z.b2z (bool_decide (x ∈ tg_busy g)) - Z.b2z (s =? x)) as Hn.
  { intros x. destruct (Hg x) as [Hn _]. rewrite signals_cons in Hn. lia. }
  assert (s ∈ tg_busy g) as Hs.
  { destruct (Hg s) as [E _]. specialize (Hn s). rewrite Z.eqb_refl in Hn. case_bool_decide; [done|]. cbn in Hn.
    pose proof (zlen_nonneg (filter (root_live s) ts)). pose proof (zlen_nonneg (filter (fun d => d =? s) ds)).
    unfold live_roots, signals in Hn. lia. }
  assert (forall g0, g0 = gate_free g s -> one_turn g0 ts ds) as Hfree.
  { intros g0 -> x. specialize (Hn x). destruct (Hg x) as [_ Hq]. unfold gate_free. cbn [tg_busy]. split.
    - destruct (Z.eqb_spec s x) as [->|Hne].
      + rewrite bool_decide_eq_true_2 in Hn by done. rewrite bool_decide_eq_false_2 by set_solver. cbn in *. lia.
      + rewrite (bool_decide_ext (x ∈ tg_busy g ∖ {[s]}) (x ∈ tg_busy g)) by set_solver. cbn in *. lia.
    - rewrite queue_delete. destruct (decide (x = s)); [done|]. intros ?%Hq. set_solver. }
  unfold gate_complete in Hc. case_bool_decide; [injection Hc as <- <-; by apply Hfree|].
  destruct (queue_of g s) as [|p q] eqn:Eq; injection Hc as <- <-; [by apply Hfree|]. intros x. specialize (Hn x).
  destruct (Hg x) as [_ Hq]. cbn [tg_busy]. rewrite live_roots_snoc. split.
  - unfold root_live, is_gone. cbn [tt_kind tt_session tt_stage negb]. rewrite andb_true_r. lia.
  - rewrite queue_insert. destruct (decide (x = s)) as [E|]; [by rewrite E|exact Hq].
Qed.

(** *** What each operation leaves alone *)

Lemma with_histories_same r : with_histories r (ar_histories r) = r.
Proof. by destruct r. Qed.

Lemma revive_frame read_ok s r :
  exists h, (revive read_ok s r).1.1 = with_histories r h /\
    (h = ar_histories r \/ exists x, load_one read_ok (ar_store r) s = Some x /\ h = <[s := x]> (ar_histories r)).
Proof.
  unfold revive. destruct (is_tombstoned _ _); [exists (ar_histories r); rewrite with_histories_same; by split; [|left]|].
  destruct (is_worker_session s && _ && _); [|exists (ar_histories r); rewrite with_histories_same; by split; [|left]].
  destruct (load_one read_ok (ar_store r) s) as [x|].
  - exists (<[s := x]> (ar_histories r)). split; [done|]. right. by exists x.
  - exists (ar_histories r). rewrite with_histories_same. by split; [|left].
Qed.

Lemma start_chosen_frame budget w s o r :
  let r' := (start_chosen budget w s o r).1 in
  ar_gate r' = ar_gate r /\ ar_done r' = ar_done r /\ ar_late r' = ar_late r /\ ar_next_child r' = ar_next_child r /\
  exists h, h = trim_history (default [] (ar_histories r !! s) ++ [User (user_content (default ([], []) o))]) budget /\
    ar_tasks r' = match o with Some _ => ar_tasks r ++ [mkTurnTask s RootTurn (ar_next_gen r) (Turning h) false] | None => ar_tasks r end /\
    ar_histories r' = match o with Some _ => <[s := h]> (ar_histories r) | None => ar_histories r end /\
    ar_store r' = match o with Some p => append w (ar_store r) s (User (user_content p)) | None => ar_store r end.
Proof. cbv zeta. destruct o as [p|]; cbn [start_chosen]; [|split_and!; [done..|]; by eexists]. do 4 (split; [done|]). by eexists. Qed.

(** A task list some of whose tasks have been aborted. *)
Definition aborted_in (ts ts' : list (TurnTask (V := V))) : Prop := Forall2 (fun t t' => t' = t \/ t' = abort_task t) ts ts'.

Lemma aborted_in_refl ts : aborted_in ts ts.
Proof. apply Forall_Forall2_diag, Forall_true. by left. Qed.

Lemma aborted_in_alter ts ts' i : aborted_in ts ts' -> aborted_in ts (alter abort_task i ts').
Proof.
  intros Ht. rewrite alter_as_insert. destruct (ts' !! i) as [t'|] eqn:E; [|done].
  destruct (Forall2_lookup_r _ _ _ _ _ Ht E) as (t & Hi & Hor).
  rewrite <- (list_insert_id ts i t Hi). apply Forall2_insert; [done|]. right. by destruct Hor as [->| ->].
Qed.

Lemma cascade_frame s r r' :
  cascade_cancel s r = Some r' ->
  exists ts tr, r' = with_tracker (with_tasks r ts) tr /\ aborted_in (ar_tasks r) ts /\
    tr_children tr = tr_children (ar_tracker r) /\ tr_depths tr = tr_depths (ar_tracker r).
Proof.
  unfold cascade_cancel. destruct (cascade_targets _ _) as [l|]; [|done]. intros [= <-].
  set (P := fun r' => exists ts tr, r' = with_tracker (with_tasks r ts) tr /\ aborted_in (ar_tasks r) ts /\
    tr_children tr = tr_children (ar_tracker r) /\ tr_depths tr = tr_depths (ar_tracker r)).
  assert (P r) as Hr.
  { exists (ar_tasks r), (ar_tracker r). split_and!; [by destruct r|apply aborted_in_refl|done..]. }
  change (P (fold_left (fun r0 s0 => abort_session s0 r0) l r)). revert Hr. generalize r at 1 2.
  induction l as [|x l IH]; intros r0 Hr; [done|]. cbn [fold_left]. apply IH. clear IH.
  destruct Hr as (ts & tr & -> & Ha & Hc & Hd). unfold abort_session. cbn [ar_tracker with_tracker].
  destruct (tr_handles tr !! x) as [[g id]|]; [|by exists ts, tr].
  exists (alter abort_task id ts), (mkTracker (delete x (tr_handles tr)) (tr_children tr) (tr_depths tr)).
  split_and!; [done|by apply aborted_in_alter|done..].
Qed.

Lemma aborted_live s ts ts' : aborted_in ts ts' -> live_roots s ts' = live_roots s ts.
Proof.
  unfold live_roots. induction 1 as [|t t' ts ts' Ht _ IH]; [done|]. rewrite !zlen_filter_cons, IH. f_equal.
  by destruct Ht as [->| ->].
Qed.

Lemma aborted_one_turn g ts ts' ds : one_turn g ts ds -> aborted_in ts ts' -> one_turn g ts' ds.
Proof. intros Hg Ha s. destruct (Hg s) as [Hn Hq]. by rewrite (aborted_live s ts ts' Ha). Qed.

Definition turns_serial r : Prop := one_turn (ar_gate r) (ar_tasks r) (ar_done r).

Lemma user_cancel_frame w s r r' :
  user_cancel w s r = Some r' ->
  exists r1, cascade_cancel s r = Some r1 /\ ar_gate r' = gate_cancel (ar_gate r) s /\ ar_done r' = ar_done r /\
    ar_tasks r' = ar_tasks r1 /\ ar_late r' = ar_late r /\ ar_tracker r' = ar_tracker r1 /\ ar_next_child r' = ar_next_child r /\
    match ar_histories r !! s with
    | Some h => if negb (is_tombstoned (ar_store r) s) && cancel_marker_needed h
                then ar_histories r' = <[s := h ++ [cancel_marker]]> (ar_histories r) /\
                     ar_store r' = append w (ar_store r) s cancel_marker
                else ar_histories r' = ar_histories r /\ ar_store r' = ar_store r
    | None => ar_histories r' = ar_histories r /\ ar_store r' = ar_store r
    end.
Proof.
  unfold user_cancel. destruct (cascade_cancel s r) as [r1|] eqn:E; [|done]. cbn [mbind option_bind]. intros [= <-].
  exists r1. destruct (cascade_frame _ _ _ E) as (ts & tr & -> & _).
  cbn [with_gate with_tracker with_tasks ar_gate ar_histories ar_store].
  destruct (is_tombstoned (ar_store r) s); destruct (ar_histories r !! s) as [h|]; cbn [negb andb]; try (by split_and!);
    destruct (cancel_marker_needed h); by split_and!.
Qed.

Lemma retire_frame mk ok s k r r' out :
  session_retire mk ok s k r = Some (r', out) ->
  exists r1, cascade_cancel s (with_gate (with_store r (tombstone (ar_store r) s)) (gate_retire (ar_gate r) s)) = Some r1 /\
    ar_gate r' = gate_retire (ar_gate r) s /\ ar_done r' = ar_done r /\ ar_tasks r' = ar_tasks r1 /\ ar_late r' = ar_late r /\
    ar_tracker r' = ar_tracker r1 /\ ar_next_child r' = ar_next_child r /\
    (ar_histories r' = ar_histories r \/ ar_histories r' = delete s (ar_histories r)) /\
    ar_store r' = match k with RetireDelete => (remove_file ok (tombstone (ar_store r) s) s).1
                             | RetireArchive => (archive_file mk ok (tombstone (ar_store r) s) s).1 end.
Proof.
  unfold session_retire. set (r0 := with_gate _ _). destruct (cascade_cancel s r0) as [r1|] eqn:E; [|done].
  cbn [mbind option_bind]. intros [= Er]. exists r1. destruct (cascade_frame _ _ _ E) as (ts & tr & -> & _). split; [done|].
  unfold apply_session_retire in Er. destruct k.
  - cbn [with_tracker with_tasks ar_store r0 with_gate with_store] in Er. destruct (remove_file _ _ _) as [st b].
    injection Er as <- <-. split_and!; try done. by right.
  - cbn [with_tracker with_tasks ar_store r0 with_gate with_store] in Er. destruct (archive_file _ _ _ _) as [st b].
    injection Er as <- <-. destruct b as [[|]|]; split_and!; try done; [by right|by left..].
Qed.

Lemma user_prompt_frame budget read_ok w s p r r' out :
  user_prompt budget read_ok w s p r = (r', out) ->
  exists h out0, (h = ar_histories r \/ exists x, load_one read_ok (ar_store r) s = Some x /\ h = <[s := x]> (ar_histories r)) /\
    let r0 := with_histories r h in
    (r' = r0 /\ out = out0 \/
     exists g o, gate_admit (ar_gate r) s p = (g, o) /\ is_tombstoned (ar_store r) s = false /\
       r' = (start_chosen budget w s o (with_gate r0 g)).1 /\ out = out0 ++ (start_chosen budget w s o (with_gate r0 g)).2) /\
    Forall (fun e => match e with RouterError _ _ => True | _ => False end) out0.
Proof.
  unfold user_prompt. destruct (revive_frame read_ok s r) as (h & Eh & Hh).
  assert (Forall (fun e => match e with RouterError _ _ => True | _ => False end) (revive read_ok s r).1.2) as Hout.
  { unfold revive. destruct (is_tombstoned _ _); [constructor|]. destruct (_ && _); [|constructor].
    destruct (load_one _ _ _); [constructor|by repeat constructor]. }
  destruct (revive read_ok s r) as [[r0 out0] ok]. cbn [fst snd] in *. subst r0.
  change (ar_store (with_histories r h)) with (ar_store r). change (ar_gate (with_histories r h)) with (ar_gate r).
  destruct (is_tombstoned (ar_store r) s) eqn:Et.
  - intros [= <- <-]. eexists h, _. split_and!; [done|by left|]. apply Forall_app. by repeat constructor.
  - destruct ok; [|intros [= <- <-]; exists h, out0; split_and!; [done|by left|done]].
    destruct (gate_admit (ar_gate r) s p) as [g o]. intros E. exists h, out0. split_and!; [done| |done]. right. exists g, o.
    destruct (start_chosen budget w s o (with_gate (with_histories r h) g)) as [r1 out1]. injection E as <- <-. by split_and!.
Qed.

(** What a task's move does to the slot accounts. *)
Lemma moves_one_turn r i t input st r1 out :
  ar_tasks r !! i = Some t -> task_moves r t input st r1 out -> turns_serial r -> turns_serial (set_task i (with_stage t st) r1).
Proof.
  intros Hi Hm Hs x. destruct (Hs x) as [Hn Hq]. destruct (task_moves_tasks _ _ _ _ _ _ Hm) as [Et Eg].
  unfold set_task. cbn [ar_gate ar_tasks ar_done with_tasks]. rewrite Et, Eg. split; [|done].
  rewrite (live_roots_insert x (ar_tasks r) i t) by done.
  assert (forall a, is_gone t = false -> is_gone (with_stage t st) = false -> ar_done r1 = ar_done r ->
    a + live_roots x (ar_tasks r) - Z.b2z (root_live x t) + Z.b2z (root_live x (with_stage t st)) + signals x (ar_done r1) =
    a + live_roots x (ar_tasks r) + signals x (ar_done r)) as Hsame.
  { intros a H1 H2 ->. unfold root_live. rewrite H1, H2. cbn [with_stage tt_kind tt_session]. lia. }
  specialize (Hsame 0). unfold is_gone in Hsame. cbn [with_stage tt_stage] in Hsame.
  destruct Hm as [world h s out _ Es Ee|u m todo Es|u m todo w _ Es|u checked Es|u parent call Es Ek|ok content parent call Es Ek|Es Ek|parent call Es Ek];
    rewrite Es in Hsame.
  - assert (match s with Gone => true | _ => false end = false) as Eg'.
    { unfold turn_ends in Ee. destruct (run_turn _ _ _ _ _ _ _ _ _) as [[e n] o].
      destruct e, (tt_kind t); try done; by injection Ee as <-. }
    specialize (Hsame eq_refl Eg' eq_refl). lia.
  - destruct (append_skips _ _ _); specialize (Hsame eq_refl eq_refl eq_refl); lia.
  - specialize (Hsame eq_refl eq_refl eq_refl). lia.
  - destruct (is_tombstoned _ _); specialize (Hsame eq_refl eq_refl eq_refl); lia.
  - specialize (Hsame eq_refl eq_refl eq_refl). lia.
  - specialize (Hsame eq_refl eq_refl eq_refl). lia.
  - cbn [with_done ar_done with_tracker]. rewrite signals_snoc. unfold root_live, is_gone. cbn [with_stage tt_kind tt_stage tt_session].
    rewrite Es, Ek. cbn [negb]. rewrite andb_true_r, andb_false_r. cbn [Z.b2z]. lia.
  - unfold root_live, is_gone. cbn [with_stage tt_kind tt_stage tt_session ar_done with_tracker]. rewrite Ek. cbn [andb Z.b2z]. lia.
Qed.

Lemma drop_one_turn i r : turns_serial r -> turns_serial (drop_task i r).
Proof.
  intros Hs. destruct (drop_task_moves i r) as [->|(t & Hi & _ & Hg & ->)]; [done|]. intros x. destruct (Hs x) as [Hn Hq].
  unfold set_task. cbn [ar_gate ar_tasks ar_done with_tasks with_done with_late]. split; [|done].
  rewrite (live_roots_insert x (ar_tasks r) i t) by done. unfold root_live. rewrite Hg. unfold is_gone, slot_signal.
  cbn [with_stage tt_kind tt_stage tt_session]. destruct (tt_kind t); cbn [negb].
  - rewrite signals_snoc, andb_true_r, andb_false_r. cbn [Z.b2z]. lia.
  - rewrite app_nil_r. cbn [andb Z.b2z]. lia.
Qed.

Lemma late_frame j w r :
  ar_gate (late_step j w r) = ar_gate r /\ ar_tasks (late_step j w r) = ar_tasks r /\ ar_done (late_step j w r) = ar_done r /\
  ar_histories (late_step j w r) = ar_histories r /\ ar_tracker (late_step j w r) = ar_tracker r /\
  ar_next_child (late_step j w r) = ar_next_child r.
Proof. unfold late_step. by destruct (ar_late r !! j) as [[s m]|]. Qed.

Lemma step_serial md i r r' out : router_step md i r = Some (r', out) -> turns_serial r -> turns_serial r'.
Proof.
  intros Hstep Hs. destruct i as [b ok w s p|parent call prompt|from to body mid|w s|s|b w|mk ok s k|i input|i|j w];
    cbn [router_step] in Hstep.
  - injection Hstep as Hstep. destruct (user_prompt_frame _ _ _ _ _ _ _ _ Hstep) as (h & out0 & _ & Hor & _).
    destruct Hor as [[-> _]|(g & o & Ea & _ & -> & _)]; [exact Hs|].
    destruct (start_chosen_frame b w s o (with_gate (with_histories r h) g)) as (E1 & E2 & _ & _ & hh & _ & E3 & _).
    unfold turns_serial. rewrite E1, E2, E3. cbn [with_gate with_histories ar_gate ar_done ar_tasks ar_next_gen].
    eapply one_turn_admit; [exact Hs|exact Ea].
  - injection Hstep as Hstep. unfold spawn_agent in Hstep. destruct (md <=? _); [by injection Hstep as <- _|].
    injection Hstep as <- _. intros x. destruct (Hs x) as [Hn Hq]. cbn. rewrite live_roots_snoc. split; [|exact Hq].
    unfold root_live at 1. cbn. lia.
  - by injection Hstep as <- _.
  - destruct (user_cancel w s r) as [r1|] eqn:E; [|done]. injection Hstep as <- _.
    destruct (user_cancel_frame _ _ _ _ E) as (r2 & Ec & Eg & Ed & Et & _). unfold turns_serial. rewrite Eg, Ed, Et.
    apply one_turn_cancel. destruct (cascade_frame _ _ _ Ec) as (ts & tr & -> & Ha & _).
    by eapply aborted_one_turn.
  - injection Hstep as <- _. unfold worker_parked. by destruct (is_worker_session s).
  - injection Hstep as Hstep. unfold turn_done in Hstep. destruct (ar_done r) as [|s ds] eqn:Ed; [by injection Hstep as <- _|].
    destruct (gate_complete (ar_gate r) s) as [g o] eqn:Ec.
    destruct (start_chosen_frame b w s o (with_gate (with_done r ds) g)) as (E1 & E2 & _ & _ & hh & _ & E3 & _).
    rewrite Hstep in E1, E2, E3. cbn [fst] in *. unfold turns_serial. rewrite E1, E2, E3.
    cbn [with_gate with_done ar_gate ar_done ar_tasks ar_next_gen].
    unfold turns_serial in Hs. rewrite Ed in Hs. by eapply one_turn_complete.
  - destruct (retire_frame _ _ _ _ _ _ _ Hstep) as (r1 & Ec & Eg & Ed & Et & _). unfold turns_serial. rewrite Eg, Ed, Et.
    destruct (cascade_frame _ _ _ Ec) as (ts & tr & -> & Ha & _). eapply aborted_one_turn; [by apply one_turn_retire|exact Ha].
  - injection Hstep as Hstep. destruct (task_step_moves _ _ _ _ _ Hstep) as [[-> _]|(t & st & r1 & Hi & Hm & ->)]; [done|].
    by eapply moves_one_turn.
  - injection Hstep as <- _. by apply drop_one_turn.
  - injection Hstep as <- _. destruct (late_frame j w r) as (E1 & E2 & E3 & _). unfold turns_serial. by rewrite E1, E2, E3.
Qed.

End gates.

(** ** Runs *)

Section runs.
Context {V : Type} `{!JsonArgs V} `{!JsonNums V} `{!JsonValue V} `{!JsonDoc V} `{!ImageOps} `{!MessageJson V}.
Implicit Types (r : AgentRouter (V := V)).

(** An invariant of the steps on the inputs given is one of the run. *)
Lemma run_keeps (md : Z) (P : AgentRouter (V := V) -> Prop) (good : RouterIn -> Prop) ins : forall r r' out,
  (forall i r r' out, good i -> P r -> router_step md i r = Some (r', out) -> P r') ->
  Forall good ins -> P r -> router_run md ins r = Some (r', out) -> P r'.
Proof.
  induction ins as [|i ins IH]; intros r r' out Hstep Hg Hr; cbn [router_run]; [by intros [= <- _]|].
  inversion Hg as [|? ? Hi Hg']; subst. destruct (router_step md i r) as [[r1 o]|] eqn:E; [|done]. cbn [mbind option_bind].
  destruct (router_run md ins r1) as [[r2 o2]|] eqn:E2; [|done]. cbn [mbind option_bind]. intros [= <- _].
  by eapply IH; [exact Hstep|exact Hg'|eapply Hstep|exact E2].
Qed.

(** The same with a property of the effects. *)
Lemma run_emits (md : Z) (P : AgentRouter (V := V) -> Prop) (Q : RouterEffect (V := V) -> Prop) (good : RouterIn -> Prop) ins :
  forall r r' out,
  (forall i r r' out, good i -> P r -> router_step md i r = Some (r', out) -> P r' /\ Forall Q out) ->
  Forall good ins -> P r -> router_run md ins r = Some (r', out) -> P r' /\ Forall Q out.
Proof.
  induction ins as [|i ins IH]; intros r r' out Hstep Hg Hr; cbn [router_run]; [by intros [= <- <-]|].
  inversion Hg as [|? ? Hi Hg']; subst. destruct (router_step md i r) as [[r1 o]|] eqn:E; [|done]. cbn [mbind option_bind].
  destruct (router_run md ins r1) as [[r2 o2]|] eqn:E2; [|done]. cbn [mbind option_bind]. intros [= <- <-].
  destruct (Hstep _ _ _ _ Hi Hr E) as [Hr1 Ho]. destruct (IH _ _ _ Hstep Hg' Hr1 E2) as [Hr2 Ho2].
  split; [done|]. by apply Forall_app.
Qed.

Lemma run_serial (md : Z) (store : SessionStore) (hops : option (gmap Z Z)) ins r out :
  router_run md ins (router_boot store hops) = Some (r, out) -> turns_serial r.
Proof.
  intros Hrun. eapply (run_keeps md turns_serial (fun _ => True)); [intros i r0 r1 o _ H0 E; by eapply step_serial|by apply Forall_true| |exact Hrun].
  intros x. split; [by rewrite bool_decide_eq_false_2|done].
Qed.
End runs.

(** ** Valid conversations *)

Section conversations.
Context {V : Type} `{!JsonArgs V} `{!JsonNums V} `{!JsonValue V} `{!JsonDoc V} `{!ImageOps} `{!MessageJson V}.
Implicit Types (r : AgentRouter (V := V)) (t : TurnTask (V := V)) (h : list (Message V)).

Lemma user_content_says p : user_content (V := V) p <> [] /\ existsb is_result (user_content (V := V) p) = false.
Proof.
  assert (existsb is_result (((fun img => Image (img_media_type img) (img_data img)) <$> p.2) : list (ContentBlock V)) = false) as Hi.
  { induction p.2 as [|img l IH]; done. }
  unfold user_content. case_bool_decide as E; [done|]. split; [by intros E0; rewrite E0 in E|].
  rewrite existsb_app, Hi, orb_false_r. by case_bool_decide.
Qed.

Lemma user_says_tail p : api_tail [User (user_content (V := V) p)] = true.
Proof.
  destruct (user_content_says p) as [Hn Hr]. cbn [api_tail content_of tool_use_ids]. rewrite Hr.
  by destruct (user_content p).
Qed.

Lemma prompt_awaits h p : api_valid h = true -> awaits_reply (h ++ [User (user_content p)]).
Proof.
  intros Hv. split; [|by eexists _, _]. destruct h as [|m h].
  - unfold api_valid. cbn [app]. by rewrite user_says_tail.
  - apply api_valid_app; [done|done|apply user_says_tail].
Qed.

(** Trimming keeps the last message. *)
Lemma trim_awaits h budget : awaits_reply h -> awaits_reply (trim_history h budget).
Proof.
  intros [Hv (h0 & c & ->)]. split; [by apply trim_keeps_valid|].
  pose proof (trim_history_spec (h0 ++ [User c]) budget) as Hs. cbv zeta in Hs. destruct Hs as [Hsame Hcut].
  destruct (decide (budget = 0 \/ estimate_history (h0 ++ [User c]) <= trim_trigger budget)) as [Hb|Hb].
  { rewrite Hsame by done. by eexists _, _. }
  destruct Hcut as (cut & Hbest & Hr); [lia|by destruct h0|lia|].
  destruct cut as [[|k]|]; [rewrite Hr; by eexists _, _| |rewrite Hr; by eexists _, _].
  destruct Hr as [-> _]. destruct Hbest as [(mc & Hk & _) _].
  apply lookup_lt_Some in Hk. rewrite length_app in Hk. cbn in Hk.
  rewrite drop_app_le by lia. eexists (_ :: _), c. done.
Qed.

Definition sane_world (w : TurnWorld (V := V)) : Prop :=
  is_u64 (tw_next_id w) /\ Forall sane_round (tw_rounds w) /\ all_draws (tw_rounds w) <= 2 ^ 64.
Definition sane_input (i : RouterIn (V := V)) : Prop := match i with RTask _ (TurnEnds w) => sane_world w | _ => True end.

(** What the provider is asked is valid, and calls have ids of their own. *)
Definition asks_valid (e : RouterEffect (V := V)) : Prop :=
  match e with
  | TurnOutput _ out => Forall (fun o => api_valid o = true) (asked out) /\ NoDup (requested out)
  | _ => True
  end.

Definition stage_valid (s : TurnStage (V := V)) : Prop :=
  match s with
  | Turning h => awaits_reply h
  | Persisting u _ _ | Storing u => api_valid u = true
  | _ => True
  end.

Definition all_valid r : Prop :=
  map_Forall (fun _ h => api_valid h = true) (ar_histories r) /\ Forall (fun t => stage_valid (tt_stage t)) (ar_tasks r).

Lemma turn_ends_spec world t h st out :
  sane_world world -> awaits_reply h -> turn_ends world t h = Some (with_stage t st, out) ->
  Forall asks_valid out /\
  match st with
  | Persisting u todo checked => tt_kind t = RootTurn /\ checked = false /\ u = h ++ todo /\ api_valid u = true
  | Storing u => api_valid u = true
  | Turning _ | Gone => False
  | _ => True
  end.
Proof.
  intros (Hid & Hs & Hd) Hh Ht. unfold turn_ends in Ht.
  pose proof (turn_from (tw_edge_var world) (tw_read_bytes world) (tw_window_secs world) (tt_session t) (tw_clock world)
    h ∅ (tw_next_id world) (tw_rounds world) Hh Hid Hs Hd) as Hok. cbv zeta in Hok.
  destruct (run_turn _ _ _ _ _ _ _ _ _) as [[e n] o]. cbn [fst snd] in Hok. destruct Hok as [Ha Hi He].
  assert (asks_valid (TurnOutput (tt_session t) o)) as Ho by done.
  destruct e as [u| |h'], (tt_kind t) as [|parent call]; try done; injection Ht as <- <-;
    (split; [by repeat constructor|]); try done; destruct He as (Hv & x & blocks & -> & _); [|done].
  split_and!; [done..| |done]. by rewrite drop_app_length.
Qed.

Lemma moves_valid r i t input st r1 out :
  task_moves r t input st r1 out -> ar_tasks r !! i = Some t -> all_valid r -> sane_input (RTask i input) ->
  all_valid (set_task i (with_stage t st) r1) /\ Forall asks_valid out.
Proof.
  intros Hm Hi [Hh Ht] Hw. pose proof (Forall_lookup_1 _ _ _ _ Ht Hi) as Hst. cbv beta in Hst.
  assert (forall u, api_valid u = true -> map_Forall (fun _ h => api_valid h = true) (<[tt_session t := u]> (ar_histories r))) as Hins.
  { intros u Hu. by apply map_Forall_insert_2. }
  assert (forall r1 s, ar_tasks r1 = ar_tasks r -> map_Forall (fun _ h => api_valid h = true) (ar_histories r1) -> stage_valid s ->
    all_valid (set_task i (with_stage t s) r1)) as Hset.
  { intros r2 s E Hh2 Hs. split; [exact Hh2|]. unfold set_task. cbn [ar_tasks with_tasks]. rewrite E. by apply Forall_insert. }
  destruct Hm as [world h s out Ein Es Ee|u m todo Es|u m todo w _ Es|u checked Es|u parent call Es Ek|ok content parent call Es Ek|Es Ek|parent call Es Ek];
    rewrite Es in Hst; cbn [stage_valid] in Hst.
  - rewrite Ein in Hw. destruct (turn_ends_spec _ _ _ _ _ Hw Hst Ee) as [Ho Hs]. split; [|done]. apply Hset; [done..|].
    destruct s; try done. by destruct Hs as (_ & _ & _ & Hs).
  - split; [|constructor]. apply Hset; [done..|]. by destruct (append_skips _ _ _).
  - split; [|constructor]. by apply Hset.
  - split; [|constructor]. destruct (is_tombstoned _ _); apply Hset; try done. by apply Hins.
  - split; [|constructor]. apply Hset; try done. by apply Hins.
  - split; [|by repeat constructor]. by apply Hset.
  - split; [|constructor]. by apply Hset.
  - split; [|constructor]. by apply Hset.
Qed.

Lemma start_chosen_valid b w s o r :
  all_valid r -> all_valid (start_chosen b w s o r).1 /\ Forall asks_valid (start_chosen b w s o r).2.
Proof.
  intros [Hh Ht]. split; [|destruct o; [by repeat constructor|constructor]].
  destruct (start_chosen_frame b w s o r) as (_ & _ & _ & _ & h & Eh & E1 & E2 & _). destruct o as [p|]; [|by split].
  assert (awaits_reply h) as Hw.
  { rewrite Eh. apply trim_awaits, prompt_awaits. destruct (ar_histories r !! s) as [h0|] eqn:E; [|done].
    exact (Hh _ _ E). }
  unfold all_valid. rewrite E1, E2. split; [by apply map_Forall_insert_2; [apply Hw|]|].
  apply Forall_app. split; [done|]. by apply Forall_singleton.
Qed.

Lemma marker_valid h : api_valid h = true -> cancel_marker_needed h = true -> api_valid (h ++ [cancel_marker]) = true.
Proof.
  intros Hv Hc. apply finished_valid; [|done|done]. split; [done|]. unfold cancel_marker_needed in Hc.
  destruct (last h) as [[c|c]|] eqn:E; try done. apply last_Some in E as [h0 ->]. by eexists _, _.
Qed.

Lemma aborted_valid ts ts' :
  aborted_in ts ts' -> Forall (fun t => stage_valid (tt_stage t)) ts -> Forall (fun t => stage_valid (tt_stage t)) ts'.
Proof.
  induction 1 as [|t t' ts ts' Ht _ IH]; [done|]. intros [Hs Hr]%Forall_cons. apply Forall_cons.
  split; [by destruct Ht as [->| ->]|by apply IH].
Qed.

Lemma step_valid md i r r' out :
  sane_input i -> all_valid r -> router_step md i r = Some (r', out) -> all_valid r' /\ Forall asks_valid out.
Proof.
  intros Hi [Hh Ht] Hstep. destruct i as [b ok w s p|parent call prompt|from to body mid|w s|s|b w|mk ok s k|i input|i|j w];
    cbn [router_step] in Hstep.
  - injection Hstep as Hstep. destruct (user_prompt_frame _ _ _ _ _ _ _ _ Hstep) as (h & out0 & Eh & Hor & Ho).
    assert (Forall asks_valid out0) as Ho'. { eapply Forall_impl; [exact Ho|]. by intros []. }
    assert (map_Forall (fun _ h => api_valid h = true) h) as Hh'.
    { destruct Eh as [->|(x & Hx & ->)]; [done|]. apply map_Forall_insert_2; [|done]. revert Hx.
      assert (forall o : option text, o ≫= repaired = Some x -> api_valid x = true) as Hrep.
      { intros [y|]; [|done]. cbn. unfold repaired. pose proof (repair_output_valid (parse_transcript (V := V) y)) as Hv.
        destruct (repair_history _).1; [done|]. by intros [= <-]. }
      unfold load_one. destruct (if ok then _ else _) as [y|]; [apply (Hrep (Some y))|apply Hrep]. }
    destruct Hor as [[-> ->]|(g & o & _ & _ & -> & ->)]; [done|].
    destruct (start_chosen_valid b w s o (with_gate (with_histories r h) g)) as [Hv Ho2]; [done|].
    split; [done|]. by apply Forall_app.
  - injection Hstep as Hstep. unfold spawn_agent in Hstep. destruct (md <=? _); injection Hstep as <- <-.
    { split; [done|]. by repeat constructor. }
    assert (awaits_reply [User [Text prompt] : Message V]) as Hw by (split; [done|by exists [], [Text prompt]]).
    split; [|by repeat constructor]. split; cbn.
    + by apply map_Forall_insert_2; [apply Hw|].
    + apply Forall_app. split; [done|]. by apply Forall_singleton.
  - injection Hstep as <- <-. split; [done|]. by repeat constructor.
  - destruct (user_cancel w s r) as [r1|] eqn:E; [|done]. injection Hstep as <- <-. split; [|constructor].
    destruct (user_cancel_frame _ _ _ _ E) as (r2 & Ec & _ & _ & Et & _ & _ & _ & Hm).
    destruct (cascade_frame _ _ _ Ec) as (ts & tr & -> & Ha & _). unfold all_valid. rewrite Et. split; [|by eapply aborted_valid].
    destruct (ar_histories r !! s) as [h|] eqn:Es; [|by destruct Hm as [-> _]].
    destruct (negb _); cbn [andb] in Hm; [|by destruct Hm as [-> _]].
    destruct (cancel_marker_needed h) eqn:Em; [|by destruct Hm as [-> _]]. destruct Hm as [-> _].
    apply map_Forall_insert_2; [|done]. by apply marker_valid; [exact (Hh _ _ Es)|].
  - injection Hstep as <- <-. split; [|constructor]. unfold worker_parked. destruct (is_worker_session s); [|done].
    split; [|done]. by apply map_Forall_delete.
  - injection Hstep as Hstep. unfold turn_done in Hstep. destruct (ar_done r) as [|s ds]; [by injection Hstep as <- <-|].
    destruct (gate_complete (ar_gate r) s) as [g o].
    pose proof (start_chosen_valid b w s o (with_gate (with_done r ds) g)) as Hv. rewrite Hstep in Hv. by apply Hv.
  - destruct (retire_frame _ _ _ _ _ _ _ Hstep) as (r1 & Ec & _ & _ & Et & _ & _ & _ & Ehh & _).
    assert (Forall asks_valid out) as Ho.
    { unfold session_retire in Hstep. destruct (cascade_cancel _ _); [|done]. cbn [mbind option_bind] in Hstep.
      unfold apply_session_retire in Hstep. destruct k; [destruct (remove_file _ _ _)|destruct (archive_file _ _ _ _)];
        injection Hstep as _ <-; by repeat constructor. }
    destruct (cascade_frame _ _ _ Ec) as (ts & tr & -> & Ha & _). split; [|done]. unfold all_valid. rewrite Et.
    split; [|by eapply aborted_valid]. destruct Ehh as [->| ->]; [done|by apply map_Forall_delete].
  - injection Hstep as Hstep. destruct (task_step_moves _ _ _ _ _ Hstep) as [[-> ->]|(t & st & r1 & Hl & Hm & ->)].
    { split; [done|constructor]. }
    by eapply moves_valid.
  - injection Hstep as <- <-. split; [|constructor]. destruct (drop_task_moves i r) as [->|(t & Hl & _ & _ & ->)]; [done|].
    split; [done|]. by apply Forall_insert.
  - injection Hstep as <- <-. split; [|constructor]. destruct (late_frame j w r) as (_ & E1 & _ & E2 & _).
    unfold all_valid. by rewrite E1, E2.
Qed.

Lemma boot_valid store hops : all_valid (router_boot store hops).
Proof.
  split; [|constructor]. intros id h Hl. cbn in Hl. unfold load_all in Hl. rewrite map_lookup_imap in Hl.
  destruct (sd_jsonl (ss_live store) !! id) as [t|]; [|done]. cbn in Hl.
  destruct (is_worker_session id); [done|]. unfold repaired in Hl.
  pose proof (repair_output_valid (parse_transcript (V := V) t)) as Hv. destruct (repair_history _).1; [done|]. by injection Hl as <-.
Qed.

(** C3: Whatever is on disk at start, and however prompts, spawned sub-agents,
    cancels, retirements, revivals and turns interleave, every request the
    daemon makes of the provider is a valid conversation, and so is every
    history it holds in memory: no aborted turn, torn transcript or trimmed
    window wedges a session. *)
Theorem every_request_is_valid (md : Z) (store : SessionStore) (hops : option (gmap Z Z)) (ins : list RouterIn) r
    (out : list RouterEffect) (Hsane : Forall sane_input ins) (Hrun : router_run md ins (router_boot store hops) = Some (r, out)) :
  Forall asks_valid out /\ map_Forall (fun _ h => api_valid h = true) (ar_histories r).
Proof.
  destruct (run_emits md all_valid asks_valid sane_input ins (router_boot store hops) r out) as [[Hh _] Ho]; [|done| |done|done].
  - intros i r0 r1 o Hi H0 E. by eapply step_valid.
  - apply boot_valid.
Qed.

End conversations.

(** ** Order, and retirement *)

Section order.
Context {V : Type} `{!JsonArgs V} `{!JsonNums V} `{!JsonValue V} `{!JsonDoc V} `{!ImageOps} `{!MessageJson V}.
Implicit Types (r : AgentRouter (V := V)) (t : TurnTask (V := V)) (out : list (RouterEffect (V := V))).

Definition retires (i : RouterIn (V := V)) : gset Z := match i with RRetire _ _ s _ => {[ s ]} | _ => ∅ end.

Lemma land_tombstones w st s (m : Message V) : ss_tombstones (land w st s m) = ss_tombstones st.
Proof. unfold land. by destruct (msg_to_json m). Qed.

Lemma moves_tombstones r t input s r1 out : task_moves r t input s r1 out -> ss_tombstones (ar_store r1) = ss_tombstones (ar_store r).
Proof. intros []; try done; [apply land_tombstones|by destruct (is_tombstoned _ _)]. Qed.

Lemma gate_retired (g : TurnGate) s p :
  tg_retired (gate_admit g s p).1 = tg_retired g /\ tg_retired (gate_complete g s).1 = tg_retired g.
Proof.
  unfold gate_admit, gate_complete. destruct (bool_decide (s ∈ tg_retired g)); [done|].
  destruct (bool_decide _), (queue_of g s); done.
Qed.

Lemma start_chosen_tombstones b w s o r : ss_tombstones (ar_store (start_chosen b w s o r).1) = ss_tombstones (ar_store r).
Proof.
  destruct (start_chosen_frame b w s o r) as (_ & _ & _ & _ & h & _ & _ & _ & ->). destruct o; [apply append_tombstones|done].
Qed.

Lemma step_retired md i r r' out :
  router_step md i r = Some (r', out) ->
  ss_tombstones (ar_store r') = retires i ∪ ss_tombstones (ar_store r) /\
  tg_retired (ar_gate r') = retires i ∪ tg_retired (ar_gate r).
Proof.
  intros Hstep. destruct i as [b ok w s p|parent call prompt|from to body mid|w s|s|b w|mk ok s k|i input|i|j w];
    cbn [router_step retires] in *; rewrite ?(left_id_L ∅ (∪)).
  - injection Hstep as Hstep. destruct (user_prompt_frame _ _ _ _ _ _ _ _ Hstep) as (h & out0 & _ & Hor & _).
    destruct Hor as [[-> _]|(g & o & Ea & _ & -> & _)]; [done|]. rewrite start_chosen_tombstones.
    destruct (start_chosen_frame b w s o (with_gate (with_histories r h) g)) as (-> & _). split; [done|]. cbn [ar_gate with_gate].
    pose proof (proj1 (gate_retired (ar_gate r) s p)) as E. by rewrite Ea in E.
  - injection Hstep as Hstep. unfold spawn_agent in Hstep. by destruct (md <=? _); injection Hstep as <- _.
  - by injection Hstep as <- _.
  - destruct (user_cancel w s r) as [r1|] eqn:E; [|done]. injection Hstep as <- _.
    destruct (user_cancel_frame _ _ _ _ E) as (r2 & _ & -> & _ & _ & _ & _ & _ & Hm). split; [|done].
    destruct (ar_histories r !! s); [|by destruct Hm as [_ ->]].
    destruct (_ && _); destruct Hm as [_ ->]; [apply append_tombstones|done].
  - injection Hstep as <- _. unfold worker_parked. by destruct (is_worker_session s).
  - injection Hstep as Hstep. unfold turn_done in Hstep. destruct (ar_done r) as [|s ds]; [by injection Hstep as <- _|].
    destruct (gate_complete (ar_gate r) s) as [g o] eqn:Ec.
    pose proof (start_chosen_tombstones b w s o (with_gate (with_done r ds) g)) as Ht.
    destruct (start_chosen_frame b w s o (with_gate (with_done r ds) g)) as (Eg & _). rewrite Hstep in Ht, Eg.
    cbn [fst] in *. rewrite Ht, Eg. split; [done|]. cbn [ar_gate with_gate].
    pose proof (proj2 (gate_retired (ar_gate r) s ([], []))) as E. by rewrite Ec in E.
  - destruct (retire_frame _ _ _ _ _ _ _ Hstep) as (r1 & _ & -> & _ & _ & _ & _ & _ & _ & ->). split; [|done].
    destruct k; unfold remove_file, archive_file; repeat (case_match; try done).
  - injection Hstep as Hstep. destruct (task_step_moves _ _ _ _ _ Hstep) as [[-> _]|(t & st & r1 & _ & Hm & ->)]; [done|].
    destruct (task_moves_tasks _ _ _ _ _ _ Hm) as [_ Eg]. cbn. rewrite Eg. split; [by eapply moves_tombstones|done].
  - injection Hstep as <- _. by destruct (drop_task_moves i r) as [->|(t & _ & _ & _ & ->)].
  - injection Hstep as <- _. unfold late_step. destruct (ar_late r !! j) as [[s m]|]; [|done]. split; [|done]. apply land_tombstones.
Qed.

(** What was started, and what was asked for, in a session. *)
Definition started (s : Z) out : list TurnPayload :=
  omap (fun e => match e with TurnStarted s' p => if s' =? s then Some p else None | _ => None end) out.
Definition prompts (s : Z) (ins : list (RouterIn (V := V))) : list TurnPayload :=
  omap (fun i => match i with RPrompt _ _ _ s' p => if s' =? s then Some p else None | _ => None end) ins.

(** No cancel and no retirement of the session. *)
Definition spares (s : Z) (i : RouterIn (V := V)) : Prop :=
  match i with RCancel _ s' | RRetire _ _ s' _ => s' <> s | _ => True end.

Lemma started_app s out1 out2 : started s (out1 ++ out2) = started s out1 ++ started s out2.
Proof. apply omap_app. Qed.

Lemma started_moves r t input st r1 out s : task_moves r t input st r1 out -> started s out = [].
Proof.
  intros [world h x o _ _ Ee| | | | | | | ]; try done. unfold turn_ends in Ee.
  destruct (run_turn _ _ _ _ _ _ _ _ _) as [[e n] o']. destruct e, (tt_kind t); try done; by injection Ee as _ <-.
Qed.

(** The ordinary session under watch. *)
Record watched (s : Z) r : Prop := {
  wa_serial : turns_serial r;
  wa_ordinary : is_worker_session s = false;
  wa_open : is_tombstoned (ar_store r) s = false;
  wa_taken : s ∉ tg_retired (ar_gate r)
}.

Lemma step_watched md i s r r' out : spares s i -> watched s r -> router_step md i r = Some (r', out) -> watched s r'.
Proof.
  intros Hi [Hs Hw Ho Ht] Hstep. destruct (step_retired _ _ _ _ _ Hstep) as [E1 E2].
  assert (s ∉ retires i) as Hn by (destruct i; cbn in *; set_solver).
  apply bool_decide_eq_false in Ho.
  split; [by eapply step_serial|done|apply bool_decide_eq_false; rewrite E1; set_solver|rewrite E2; set_solver].
Qed.

Definition chosen (s s' : Z) (o : option TurnPayload) : list TurnPayload :=
  match o with Some p => if s' =? s then [p] else [] | None => [] end.

Lemma queue_same b (q : gmap Z (list TurnPayload)) z b' z' s : queue_of (mkTurnGate b q z) s = queue_of (mkTurnGate b' q z') s.
Proof. done. Qed.

Lemma admit_order g s s' p g' o :
  gate_admit g s' p = (g', o) -> (queue_of g s <> [] -> s ∈ tg_busy g) -> s ∉ tg_retired g ->
  chosen s s' o ++ queue_of g' s = queue_of g s ++ (if s' =? s then [p] else []).
Proof.
  intros Ha Hq Ht. unfold gate_admit in Ha. destruct g as [bs q z]. cbn [tg_busy tg_queued tg_retired] in *.
  destruct (Z.eqb_spec s' s) as [->|Hne].
  - rewrite bool_decide_eq_false_2 in Ha by done. case_bool_decide as Hb; injection Ha as <- <-; cbn [chosen].
    + rewrite queue_insert, decide_True by done. done.
    + rewrite Z.eqb_refl. change (queue_of (mkTurnGate ({[s]} ∪ bs) q z) s) with (queue_of (mkTurnGate bs q z) s).
      destruct (queue_of (mkTurnGate bs q z) s) as [|x l]; [done|]. by destruct (Hb (Hq ltac:(done))).
  - rewrite app_nil_r. destruct (bool_decide (s' ∈ z)); [by injection Ha as <- <-|].
    destruct (bool_decide (s' ∈ bs)); injection Ha as <- <-; cbn [chosen].
    + by rewrite queue_insert, decide_False.
    + by apply Z.eqb_neq in Hne as ->.
Qed.

Lemma complete_order g s s' g' o :
  gate_complete g s' = (g', o) -> s ∉ tg_retired g -> chosen s s' o ++ queue_of g' s = queue_of g s.
Proof.
  intros Hc Ht. unfold gate_complete, gate_free in Hc. destruct g as [bs q z]. cbn [tg_busy tg_queued tg_retired] in *.
  destruct (decide (s = s')) as [<-|Hne].
  - rewrite bool_decide_eq_false_2 in Hc by done.
    destruct (queue_of (mkTurnGate bs q z) s) as [|p l] eqn:Eq; injection Hc as <- <-; cbn [chosen].
    + by rewrite queue_delete, decide_True.
    + by rewrite Z.eqb_refl, queue_insert, decide_True.
  - assert ((s' =? s) = false) as E by (by apply Z.eqb_neq).
    destruct (bool_decide (s' ∈ z)); [injection Hc as <- <-; cbn [chosen]; by rewrite queue_delete, decide_False|].
    destruct (queue_of (mkTurnGate bs q z) s') as [|p l]; injection Hc as <- <-; cbn [chosen]; rewrite ?E.
    + by rewrite queue_delete, decide_False.
    + by rewrite queue_insert, decide_False.
Qed.

Lemma start_chosen_started b w s s' o r : started s (start_chosen b w s' o r).2 = chosen s s' o.
Proof. destruct o as [p|]; [|done]. cbn. by destruct (s' =? s). Qed.

Lemma prompt_order b ok w s s' p r r' out :
  watched s r -> user_prompt b ok w s' p r = (r', out) ->
  started s out ++ queue_of (ar_gate r') s = queue_of (ar_gate r) s ++ (if s' =? s then [p] else []).
Proof.
  intros [Hs Hw Ho Ht] Hstep. destruct (Hs s) as [_ Hq]. destruct (decide (s' = s)) as [->|Hne].
  - unfold user_prompt, revive in Hstep. rewrite Ho, Hw in Hstep. cbn [andb] in Hstep. rewrite Ho in Hstep.
    destruct (gate_admit (ar_gate r) s p) as [g o] eqn:Ea.
    pose proof (start_chosen_started b w s s o (with_gate r g)) as Es.
    destruct (start_chosen_frame b w s o (with_gate r g)) as [Eg _].
    destruct (start_chosen b w s o (with_gate r g)) as [r1 o1]. injection Hstep as <- <-. cbn [fst snd app] in *.
    rewrite Es, Eg. cbn [ar_gate with_gate]. rewrite (admit_order _ _ _ _ _ _ Ea Hq Ht). done.
  - destruct (user_prompt_frame _ _ _ _ _ _ _ _ Hstep) as (h & out0 & _ & Hor & Ho0).
    assert (started s out0 = []) as E0. { clear -Ho0. induction Ho0 as [|e l He _ IH]; [done|]. by destruct e. }
    assert ((s' =? s) = false) as E by (by apply Z.eqb_neq).
    destruct Hor as [[-> ->]|(g & o & Ea & _ & -> & ->)]; [by rewrite E0, E, app_nil_r|].
    rewrite started_app, E0, start_chosen_started.
    destruct (start_chosen_frame b w s' o (with_gate (with_histories r h) g)) as [-> _]. cbn [app ar_gate with_gate].
    apply (admit_order _ _ _ _ _ _ Ea Hq Ht).
Qed.

Lemma step_order md i s r r' out :
  spares s i -> watched s r -> router_step md i r = Some (r', out) ->
  started s out ++ queue_of (ar_gate r') s = queue_of (ar_gate r) s ++ prompts s [i].
Proof.
  intros Hi Hwa Hstep. destruct i as [b ok w s' p|parent call prompt|from to body mid|w s'|s'|b w|mk ok s' k|i input|i|j w];
    cbn [router_step] in *; unfold prompts; cbn [omap list_omap]; rewrite ?app_nil_r.
  - injection Hstep as Hstep. rewrite (prompt_order _ _ _ _ _ _ _ _ _ Hwa Hstep). by destruct (s' =? s).
  - injection Hstep as Hstep. unfold spawn_agent in Hstep. by destruct (md <=? _); injection Hstep as <- <-.
  - by injection Hstep as <- <-.
  - destruct (user_cancel w s' r) as [r1|] eqn:E; [|done]. injection Hstep as <- <-.
    destruct (user_cancel_frame _ _ _ _ E) as (r2 & _ & -> & _). cbn [started omap list_omap app].
    unfold gate_cancel. rewrite queue_delete, decide_False by done. done.
  - injection Hstep as <- <-. unfold worker_parked. by destruct (is_worker_session s').
  - injection Hstep as Hstep. unfold turn_done in Hstep. destruct (ar_done r) as [|d ds]; [by injection Hstep as <- <-|].
    destruct (gate_complete (ar_gate r) d) as [g o] eqn:Ec.
    pose proof (start_chosen_started b w s d o (with_gate (with_done r ds) g)) as Es.
    destruct (start_chosen_frame b w d o (with_gate (with_done r ds) g)) as [Eg _]. rewrite Hstep in Es, Eg. cbn [fst snd] in *.
    rewrite Es, Eg. apply (complete_order _ _ _ _ _ Ec). apply Hwa.
  - destruct (retire_frame _ _ _ _ _ _ _ Hstep) as (r1 & _ & -> & _). unfold gate_retire.
    rewrite queue_delete, decide_False by (cbn in Hi; done).
    assert (started s out = []) as ->; [|done]. unfold session_retire in Hstep. destruct (cascade_cancel _ _); [|done].
    cbn [mbind option_bind] in Hstep. unfold apply_session_retire in Hstep.
    destruct k; [destruct (remove_file _ _ _)|destruct (archive_file _ _ _ _)]; by injection Hstep as _ <-.
  - injection Hstep as Hstep. destruct (task_step_moves _ _ _ _ _ Hstep) as [[-> ->]|(t & st & r1 & _ & Hm & ->)]; [done|].
    rewrite (started_moves _ _ _ _ _ _ _ Hm). destruct (task_moves_tasks _ _ _ _ _ _ Hm) as [_ Eg]. cbn. by rewrite Eg.
  - injection Hstep as <- <-. by destruct (drop_task_moves i r) as [->|(t & _ & _ & _ & ->)].
  - injection Hstep as <- <-. destruct (late_frame j w r) as [-> _]. done.
Qed.

Lemma run_order md s ins : forall r r' out,
  Forall (spares s) ins -> watched s r -> router_run md ins r = Some (r', out) ->
  started s out ++ queue_of (ar_gate r') s = queue_of (ar_gate r) s ++ prompts s ins /\ watched s r'.
Proof.
  induction ins as [|i ins IH]; intros r r' out Hg Hr; cbn [router_run].
  { intros [= <- <-]. split; [|done]. cbn. by rewrite app_nil_r. }
  inversion Hg as [|? ? Hi Hg']; subst. destruct (router_step md i r) as [[r1 o]|] eqn:E; [|done]. cbn [mbind option_bind].
  destruct (router_run md ins r1) as [[r2 o2]|] eqn:E2; [|done]. cbn [mbind option_bind]. intros [= <- <-].
  pose proof (step_order _ _ _ _ _ _ Hi Hr E) as H1. pose proof (step_watched _ _ _ _ _ _ Hi Hr E) as Hr1.
  destruct (IH _ _ _ Hg' Hr1 E2) as [H2 Hr2]. split; [|done].
  rewrite started_app, <- app_assoc, H2, app_assoc, H1, <- app_assoc. f_equal.
  change (i :: ins) with ([i] ++ ins). unfold prompts. by rewrite omap_app.
Qed.

(** C16: Prompts of a session are served in the order they came and none is lost.
    For a session that is not a worker's, was not deleted or archived before,
    and that the run neither cancels nor retires: the turns started so far,
    followed by what still waits, are exactly the prompts received; and when no
    turn of the session runs or is being released, all have been started.  (A
    prompt for a parked worker whose file cannot be read is refused:
    [RouterRuns.unreadable_worker_is_refused].) *)
Theorem prompts_in_order (md : Z) (store : SessionStore) (hops : option (gmap Z Z)) (ins : list RouterIn) r out (s : Z)
    (Hrun : router_run md ins (router_boot store hops) = Some (r, out)) (Hord : is_worker_session s = false)
    (Hopen : is_tombstoned store s = false) (Hspare : Forall (spares s) ins) :
  started s out ++ queue_of (ar_gate r) s = prompts s ins /\
  (live_roots s (ar_tasks r) = 0 -> s ∉ ar_done r -> started s out = prompts s ins).
Proof.
  assert (watched s (router_boot store hops)) as Hw.
  { split; [|done..]. intros x. split; [by rewrite bool_decide_eq_false_2|done]. }
  destruct (run_order md s ins _ _ _ Hspare Hw Hrun) as [E [Hs _ _ _]].
  change (queue_of (ar_gate (router_boot store hops)) s) with (@nil TurnPayload) in E. cbn [app] in E. split; [exact E|].
  intros Hl Hd. rewrite <- E. destruct (Hs s) as [Hn Hq]. destruct (queue_of (ar_gate r) s) as [|p q]; [by rewrite app_nil_r|].
  assert (s ∈ tg_busy (ar_gate r)) as Hb by by apply Hq. rewrite bool_decide_eq_true_2, Hl in Hn by done. cbn in Hn.
  exfalso. apply Hd. by apply signals_elem; lia.
Qed.
End order.
