(* ===== verification/RouterTree.v ===== *)
(** * The tree of sub-agents

    What [spawn_agent], the session tracker and [cascade_cancel] of the agent
    router ([AgentRouter]) keep true of the handles, the children and the
    depths, and what a cancel reaches.  Child ids are drawn from a 64-bit
    counter that starts at 2^63, so fewer than 2^63 steps are considered. *)
From S2P Require Import Prelude Text Policy Protocol Identity History Sessions Turn AgentRouter.

Section tree.
Context {V : Type} `{!JsonArgs V} `{!JsonNums V} `{!JsonValue V} `{!JsonDoc V} `{!ImageOps} `{!MessageJson V}.
Implicit Types (r : AgentRouter (V := V)) (t : TurnTask (V := V)) (tr : SessionTracker).

Definition edge tr (p c : Z) : Prop := c ∈ children_of tr p.

(** [n] more steps are to come; [md]: the depth allowed. *)
Record tree_ok (md : Z) (n : nat) r : Prop := {
  to_base : SPAWN_SESSION_BASE <= ar_next_child r;
  to_room : ar_next_child r + Z.of_nat n <= u64_max;
  to_range p c : edge (ar_tracker r) p c -> SPAWN_SESSION_BASE <= c < ar_next_child r;
  to_nodup p : NoDup (children_of (ar_tracker r) p);
  to_unique p q c : edge (ar_tracker r) p c -> edge (ar_tracker r) q c -> p = q;
  to_tasks t parent call : t ∈ ar_tasks r -> tt_kind t = ChildTurn parent call -> SPAWN_SESSION_BASE <= tt_session t < ar_next_child r;
  to_handles s g id : tr_handles (ar_tracker r) !! s = Some (g, id) -> exists t, ar_tasks r !! id = Some t /\ tt_session t = s;
  to_depths s d : tr_depths (ar_tracker r) !! s = Some d -> 0 <= d <= Z.max md 0
}.

(** *** Trackers that only lose entries *)

(** [tr'] has no handle, child or depth that [tr] has not, but depth 0. *)
Definition shrinks tr tr' : Prop :=
  (forall s h, tr_handles tr' !! s = Some h -> tr_handles tr !! s = Some h) /\
  (forall p, children_of tr' p `sublist_of` children_of tr p) /\
  (forall s d, tr_depths tr' !! s = Some d -> tr_depths tr !! s = Some d \/ d = 0).

Lemma shrinks_refl tr : shrinks tr tr.
Proof. split; [done|]. split; [done|]. intros s d Hd. left. exact Hd. Qed.

Lemma shrinks_trans tr1 tr2 tr3 : shrinks tr1 tr2 -> shrinks tr2 tr3 -> shrinks tr1 tr3.
Proof.
  intros (H1 & C1 & D1) (H2 & C2 & D2). split_and!; [by eauto|intros p; etrans; [apply C2|apply C1]|].
  intros s d [Hd| ->]%D2; [by apply D1|by right].
Qed.

Lemma finish_shrinks tr sid gen : shrinks tr (tracker_finish tr sid gen).
Proof.
  unfold tracker_finish. destruct (tr_handles tr !! sid) as [[g id]|]; [|apply shrinks_refl].
  destruct (g =? gen); [|apply shrinks_refl]. split_and!; [|done|intros s d ?; by left]. intros s h. cbn.
  by intros [_ ?]%lookup_delete_Some.
Qed.

Lemma finish_child_shrinks tr child parent gen : shrinks tr (tracker_finish_child tr child parent gen).
Proof.
  eapply shrinks_trans; [apply (finish_shrinks tr child gen)|]. unfold tracker_finish_child. set (t := tracker_finish tr child gen).
  split_and!; cbn; [done| |intros s d [_ ?]%lookup_delete_Some; by left].
  intros p. unfold children_of. cbn. destruct (decide (p = parent)) as [->|Hp].
  - rewrite lookup_alter_eq. destruct (decide (parent = child)) as [->|Hc].
    + rewrite lookup_delete_eq. cbn. apply sublist_nil_l.
    + rewrite lookup_delete_ne by done. destruct (tr_children t !! parent); cbn; [|done]. apply sublist_filter.
  - rewrite lookup_alter_ne by done. destruct (decide (p = child)) as [->|Hc].
    + rewrite lookup_delete_eq. cbn. apply sublist_nil_l.
    + by rewrite lookup_delete_ne.
Qed.

(** What a step that spawns no child keeps. *)
Lemma tree_shrinks md n r r' :
  tree_ok md (S n) r -> shrinks (ar_tracker r) (ar_tracker r') -> ar_next_child r' = ar_next_child r ->
  Forall2 (fun t t' => tt_session t' = tt_session t /\ tt_kind t' = tt_kind t) (ar_tasks r) (ar_tasks r') ->
  tree_ok md n r'.
Proof.
  intros [Hb Hr Hg Hn Hu Ht Hh Hd] (Sh & Sc & Sd) En Hts.
  assert (forall p c, edge (ar_tracker r') p c -> edge (ar_tracker r) p c) as He.
  { intros p c. unfold edge. intros Hc. eapply elem_of_sublist; [exact Hc|apply Sc]. }
  split; rewrite ?En.
  - done.
  - lia.
  - intros p c Hc. by eapply Hg, He.
  - intros p. eapply sublist_NoDup; [apply Hn|apply Sc].
  - intros p q c H1 H2. eapply Hu; by apply He.
  - intros t' parent call [i Hi]%list_elem_of_lookup Hk.
    destruct (Forall2_lookup_r _ _ _ _ _ Hts Hi) as (t & Hi' & Es & Ek). rewrite Es. rewrite Ek in Hk.
    eapply Ht; [by eapply list_elem_of_lookup_2|done].
  - intros s g id Hs. destruct (Hh s g id (Sh _ _ Hs)) as (t & Hi & Es).
    destruct (Forall2_lookup_l _ _ _ _ _ Hts Hi) as (t' & Hi' & Es' & _). exists t'. by rewrite Es'.
  - intros s d Hs. destruct (Sd s d Hs) as [Hs'| ->]; [by eapply Hd|lia].
Qed.
(** *** Steps *)

Lemma same_tasks (ts : list (TurnTask (V := V))) : Forall2 (fun t t' => tt_session t' = tt_session t /\ tt_kind t' = tt_kind t) ts ts.
Proof. by apply Forall_Forall2_diag, Forall_true. Qed.

Lemma aborted_tasks (ts ts' : list (TurnTask (V := V))) :
  aborted_in ts ts' -> Forall2 (fun t t' => tt_session t' = tt_session t /\ tt_kind t' = tt_kind t) ts ts'.
Proof. intros Ha. eapply Forall2_impl; [exact Ha|]. by intros t t' [->| ->]. Qed.

Lemma staged_tasks (ts : list (TurnTask (V := V))) i t st :
  ts !! i = Some t ->
  Forall2 (fun t t' => tt_session t' = tt_session t /\ tt_kind t' = tt_kind t) ts (<[i := with_stage t st]> ts).
Proof.
  intros Hi. rewrite <- (list_insert_id ts i t Hi) at 1. by apply Forall2_insert; [apply same_tasks|].
Qed.

Lemma depth_entry_shrinks tr s : shrinks tr (depth_entry tr s).
Proof.
  unfold depth_entry. destruct (tr_depths tr !! s); [apply shrinks_refl|]. split; [done|]. split; [done|].
  intros x d. cbn. intros [[_ <-]|[_ Hx]]%lookup_insert_Some; [by right|by left].
Qed.

Lemma depth_entry_children tr s : tr_children (depth_entry tr s) = tr_children tr.
Proof. unfold depth_entry. by destruct (tr_depths tr !! s). Qed.

(** A root turn joins. *)
Lemma tree_start md n b w s p r : tree_ok md n r -> tree_ok md n (start_turn b w s p r).1.
Proof.
  intros [Hb Hr Hg Hn Hu Ht Hh Hd]. unfold start_turn, spawn_task. cbn [fst].
  destruct (depth_entry_shrinks (ar_tracker r) s) as (Sh & _ & Sd).
  split; cbn; rewrite ?depth_entry_children.
  - done.
  - done.
  - exact Hg.
  - exact Hn.
  - exact Hu.
  - intros t parent call [Hin|Hin]%elem_of_app Hk; [by eapply Ht|]. apply list_elem_of_singleton in Hin as ->. done.
  - intros x g id [[-> [= <- <-]]|[_ Hx]]%lookup_insert_Some.
    + eexists. split; [by apply list_lookup_middle|done].
    + destruct (Hh x g id (Sh _ _ Hx)) as (t & Hi & E). exists t. split; [by apply lookup_app_l_Some|done].
  - intros x d Hx. destruct (Sd x d Hx) as [Hx'| ->]; [by eapply Hd|lia].
Qed.

Lemma tree_chosen md n b w s o r : tree_ok md n r -> tree_ok md n (start_chosen b w s o r).1.
Proof. destruct o; [apply tree_start|done]. Qed.

(** A child joins. *)
Lemma tree_spawn md n parent call prompt r :
  tree_ok md (S n) r -> tree_ok md n (spawn_agent md parent call prompt r).1.
Proof.
  intros Hok. destruct Hok as [Hb Hr Hg Hn Hu Ht Hh Hd]. unfold spawn_agent. destruct (Z.leb_spec md (default 0 (tr_depths (ar_tracker r) !! parent))) as [Hm|Hm].
  { eapply tree_shrinks; [by constructor|apply shrinks_refl|done|apply same_tasks]. }
  unfold spawn_task. cbn [fst]. set (child := ar_next_child r).
  assert (fetch_next child = child + 1) as En.
  { unfold fetch_next, as_u64. apply Z.mod_small. subst child. unfold SPAWN_SESSION_BASE in Hb. ulia. }
  set (tr2 := mkTracker _ (<[parent := _]> _) _).
  assert (forall p, children_of tr2 p = children_of (ar_tracker r) p ++ (if decide (p = parent) then [child] else [])) as Ec.
  { intros p. unfold children_of, tr2. cbn. destruct (decide (p = parent)) as [->|Hne].
    - by rewrite lookup_insert_eq.
    - by rewrite lookup_insert_ne, app_nil_r. }
  assert (forall p c, edge tr2 p c <-> edge (ar_tracker r) p c \/ p = parent /\ c = child) as Ee.
  { intros p c. unfold edge. rewrite Ec, elem_of_app. destruct (decide (p = parent)); set_solver. }
  assert (forall p, child ∉ children_of (ar_tracker r) p) as Hfresh by (intros p Hc; pose proof (Hg p child Hc); subst child; lia).
  split; cbn; rewrite ?En; fold child in Hb, Hr, Hg, Ht.
  - lia.
  - lia.
  - intros p c [?%Hg|[_ ->]]%Ee; lia.
  - intros p. change (NoDup (children_of tr2 p)). rewrite Ec.
    apply NoDup_app. split_and!; [apply Hn| |destruct (decide _); [apply NoDup_singleton|constructor]].
    intros c Hc. destruct (decide (p = parent)); [|apply not_elem_of_nil]. intros ->%list_elem_of_singleton. by eapply Hfresh.
  - intros p q c [H1|[-> ->]]%Ee [H2|[-> H2]]%Ee; [by eapply Hu| | |done]; exfalso; eapply Hfresh; [subst; exact H1|exact H2].
  - intros t p' c' [Hin|Hin]%elem_of_app Hk; [pose proof (Ht _ _ _ Hin Hk); lia|]. apply list_elem_of_singleton in Hin as ->. cbn. lia.
  - intros x g id [[-> [= <- <-]]|[_ Hx]]%lookup_insert_Some.
    + eexists. split; [by apply list_lookup_middle|done].
    + destruct (Hh x g id Hx) as (t & Hi & E). exists t. split; [by apply lookup_app_l_Some|done].
  - intros x d [[_ <-]|[_ Hx]]%lookup_insert_Some; [|by eapply Hd].
    destruct (tr_depths (ar_tracker r) !! parent) as [d|] eqn:E; cbn in Hm |- *; [pose proof (Hd _ _ E)|]; lia.
Qed.

Lemma tree_weaken md n r : tree_ok md (S n) r -> tree_ok md n r.
Proof. intros Hok. eapply tree_shrinks; [done|apply shrinks_refl|done|apply same_tasks]. Qed.

Lemma tree_tasks md n r i t st r1 out input :
  tree_ok md (S n) r -> ar_tasks r !! i = Some t -> task_moves r t input st r1 out -> tree_ok md n (set_task i (with_stage t st) r1).
Proof.
  intros Hok Hi Hm. destruct (task_moves_tasks _ _ _ _ _ _ Hm) as [Et _].
  assert (forall r2, ar_tasks r2 = ar_tasks r -> shrinks (ar_tracker r) (ar_tracker r2) -> ar_next_child r2 = ar_next_child r ->
    tree_ok md n (set_task i (with_stage t st) r2)) as Hset.
  { intros r2 E Hs En. eapply tree_shrinks; [exact Hok|exact Hs|exact En|]. unfold set_task. cbn. rewrite E. by apply staged_tasks. }
  destruct Hm; try (apply Hset; [done|apply shrinks_refl|done]).
  - destruct (is_tombstoned _ _); (apply Hset; [done|apply shrinks_refl|done]).
  - apply Hset; [done|apply finish_shrinks|done].
  - apply Hset; [done|apply finish_child_shrinks|done].
Qed.

Lemma abort_handles l : forall r s h,
  tr_handles (ar_tracker (fold_left (fun r s => abort_session s r) l r)) !! s = Some h <->
  tr_handles (ar_tracker r) !! s = Some h /\ s ∉ l.
Proof.
  induction l as [|x l IH]; intros r s h; cbn [fold_left]; [set_solver|]. rewrite IH. unfold abort_session.
  destruct (tr_handles (ar_tracker r) !! x) as [[g id]|] eqn:E; cbn.
  - rewrite lookup_delete_Some, elem_of_cons. naive_solver.
  - rewrite elem_of_cons. split; [|naive_solver]. intros [Hs Hn]. split; [done|]. intros [->|?]; [by rewrite E in Hs|done].
Qed.

Lemma cascade_shrinks s r r' : cascade_cancel s r = Some r' -> shrinks (ar_tracker r) (ar_tracker r').
Proof.
  intros Hc. destruct (cascade_frame _ _ _ Hc) as (ts & tr & E & _ & Ec & Ed). unfold cascade_cancel in Hc.
  destruct (cascade_targets _ _) as [l|]; [|done]. injection Hc as Hc. split; [|split].
  - intros x h Hx. rewrite <- Hc in Hx. by apply abort_handles in Hx as [? _].
  - intros p. subst r'. unfold children_of. cbn in E |- *. rewrite E. cbn. by rewrite Ec.
  - intros x d Hx. left. rewrite E in Hx. cbn in Hx. by rewrite Ed in Hx.
Qed.

Lemma step_tree md n i r r' out : tree_ok md (S n) r -> router_step md i r = Some (r', out) -> tree_ok md n r'.
Proof.
  intros Hok Hstep. destruct i as [b ok w s p|parent call prompt|from to body mid|w s|s|b w|mk ok s k|i input|i|j w];
    cbn [router_step] in Hstep.
  - injection Hstep as Hstep. destruct (user_prompt_frame _ _ _ _ _ _ _ _ Hstep) as (h & out0 & _ & Hor & _).
    destruct Hor as [[-> _]|(g & o & _ & _ & -> & _)]; [by apply tree_weaken in Hok; destruct Hok|].
    apply tree_chosen. apply tree_weaken in Hok. by destruct Hok.
  - injection Hstep as Hstep. pose proof (tree_spawn md n parent call prompt r Hok) as Ht. by rewrite Hstep in Ht.
  - injection Hstep as <- _. by apply tree_weaken.
  - destruct (user_cancel w s r) as [r1|] eqn:E; [|done]. injection Hstep as <- _.
    destruct (user_cancel_frame _ _ _ _ E) as (r2 & Ec & _ & _ & Et & _ & Etr & En & _).
    pose proof (cascade_shrinks _ _ _ Ec) as Hs. destruct (cascade_frame _ _ _ Ec) as (ts & tr & E2 & Ha & _).
    eapply tree_shrinks; [exact Hok|by rewrite Etr|done|]. rewrite Et, E2. by apply aborted_tasks.
  - injection Hstep as <- _. apply tree_weaken in Hok. unfold worker_parked. destruct (is_worker_session s); [by destruct Hok|done].
  - injection Hstep as Hstep. unfold turn_done in Hstep. apply tree_weaken in Hok.
    destruct (ar_done r) as [|s ds]; [by injection Hstep as <- _|]. destruct (gate_complete (ar_gate r) s) as [g o].
    pose proof (tree_chosen md n b w s o (with_gate (with_done r ds) g)) as Ht. rewrite Hstep in Ht. apply Ht. by destruct Hok.
  - destruct (retire_frame _ _ _ _ _ _ _ Hstep) as (r1 & Ec & _ & _ & Et & _ & Etr & En & _).
    pose proof (cascade_shrinks _ _ _ Ec) as Hs. destruct (cascade_frame _ _ _ Ec) as (ts & tr & E2 & Ha & _).
    eapply tree_shrinks; [exact Hok|by rewrite Etr|done|]. rewrite Et, E2. by apply aborted_tasks.
  - injection Hstep as Hstep. destruct (task_step_moves _ _ _ _ _ Hstep) as [[-> _]|(t & st & r1 & Hi & Hm & ->)].
    { by apply tree_weaken. }
    by eapply tree_tasks.
  - injection Hstep as <- _. destruct (drop_task_moves i r) as [->|(t & Hi & _ & _ & ->)]; [by apply tree_weaken|].
    eapply tree_shrinks; [exact Hok|apply shrinks_refl|done|]. by apply staged_tasks.
  - injection Hstep as <- _. destruct (late_frame j w r) as (_ & E1 & _ & _ & E2 & E3).
    eapply tree_shrinks; [exact Hok|rewrite E2; apply shrinks_refl|done|]. rewrite E1. apply same_tasks.
Qed.

Lemma boot_tree md n store hops : Z.of_nat n < 2 ^ 63 -> tree_ok md n (router_boot store hops).
Proof.
  intros Hn. unfold router_boot. split; cbn; unfold SPAWN_SESSION_BASE; try done; try (ulia).
  - unfold edge, children_of. cbn. intros p c. rewrite lookup_empty. by intros ?%elem_of_nil.
  - intros p. unfold children_of. cbn. rewrite lookup_empty. constructor.
  - intros p q c. unfold edge, children_of. cbn. rewrite lookup_empty. by intros ?%elem_of_nil.
  - by intros t p c ?%elem_of_nil.
Qed.

Lemma run_tree_more md k ins : forall r r' out,
  tree_ok md (length ins + k) r -> router_run md ins r = Some (r', out) -> tree_ok md k r'.
Proof.
  induction ins as [|i ins IH]; intros r r' out Hr; cbn [router_run]; [by intros [= <- _]|].
  destruct (router_step md i r) as [[r1 o]|] eqn:E; [|done]. cbn [mbind option_bind].
  destruct (router_run md ins r1) as [[r2 o2]|] eqn:E2; [|done]. cbn [mbind option_bind]. intros [= <- _].
  eapply IH; [by eapply step_tree|exact E2].
Qed.

Lemma run_tree md ins r r' out : tree_ok md (length ins) r -> router_run md ins r = Some (r', out) -> tree_ok md 0 r'.
Proof. rewrite <- (Nat.add_0_r (length ins)). apply run_tree_more. Qed.

(** Every depth recorded is one the policy allows. *)
Definition depths_within (md : Z) r : Prop := forall s d, tr_depths (ar_tracker r) !! s = Some d -> 0 <= d <= md.

(** No chain of sub-agents is deeper than the policy allows: depths stay
    within [max_depth], and a spawn at that depth is answered with an error and
    nothing else. *)
Theorem spawn_depth_bounded (md : Z) (store : SessionStore) (hops : option (gmap Z Z)) (ins : list RouterIn) r
    (out : list RouterEffect) (Hmd : 0 <= md) (Hlen : zlen ins < 2 ^ 63)
    (Hrun : router_run md ins (router_boot store hops) = Some (r, out)) :
  depths_within md r /\
  forall parent call prompt, default 0 (tr_depths (ar_tracker r) !! parent) = md ->
    spawn_agent md parent call prompt r = (r, [RouterToolResult parent call false (chars "max sub-agent depth exceeded")]).
Proof.
  assert (tree_ok md 0 r) as [_ _ _ _ _ _ _ Hd] by (eapply run_tree; [by apply boot_tree|exact Hrun]).
  split; [intros s d Hs; specialize (Hd s d Hs); lia|].
  intros parent call prompt E. unfold spawn_agent. by rewrite E, (proj2 (Z.leb_le _ _) (Z.le_refl md)).
Qed.

(** *** What a cancel reaches *)

(** Parents come before their children: no session has spawned under an id
    still to be drawn. *)
Definition rooted r : Prop := forall p c, edge (ar_tracker r) p c -> p < c.

(** The spawns of a run are made by sessions whose ids have been given out. *)
Fixpoint known_parents (md : Z) (ins : list RouterIn) r : Prop :=
  match ins with
  | [] => True
  | i :: ins =>
      match i with RSpawn parent _ _ => parent < ar_next_child r | _ => True end /\
      match router_step md i r with Some (r, _) => known_parents md ins r | None => True end
  end.

Lemma same_children_rooted r r' : (forall p, children_of (ar_tracker r') p `sublist_of` children_of (ar_tracker r) p) -> rooted r -> rooted r'.
Proof. intros Hs Hr p c Hc. apply Hr. eapply elem_of_sublist; [exact Hc|apply Hs]. Qed.

(** Only a spawn adds to the children. *)
Lemma step_children md i r r' out :
  router_step md i r = Some (r', out) -> match i with RSpawn _ _ _ => False | _ => True end ->
  forall p, children_of (ar_tracker r') p `sublist_of` children_of (ar_tracker r) p.
Proof.
  assert (forall b w s o r0 p, children_of (ar_tracker (start_chosen b w s o r0).1) p = children_of (ar_tracker r0) p) as Hst.
  { intros b w s [q|] r0 p; [|done]. unfold children_of. cbn. by rewrite depth_entry_children. }
  intros Hstep Hi p. destruct i as [b ok w s q|parent call prompt|from to body mid|w s|s|b w|mk ok s k|i input|i|j w];
    cbn [router_step] in Hstep; try done.
  - injection Hstep as Hstep. destruct (user_prompt_frame _ _ _ _ _ _ _ _ Hstep) as (h & out0 & _ & Hor & _).
    destruct Hor as [[-> _]|(g & o & _ & _ & -> & _)]; [done|]. by rewrite Hst.
  - by injection Hstep as <- _.
  - destruct (user_cancel w s r) as [r1|] eqn:E; [|done]. injection Hstep as <- _.
    destruct (user_cancel_frame _ _ _ _ E) as (r2 & Ec & _ & _ & _ & _ & -> & _). by apply cascade_shrinks in Ec as (_ & ? & _).
  - injection Hstep as <- _. unfold worker_parked. by destruct (is_worker_session s).
  - injection Hstep as Hstep. unfold turn_done in Hstep. destruct (ar_done r) as [|s ds]; [by injection Hstep as <- _|].
    destruct (gate_complete (ar_gate r) s) as [g o]. pose proof (Hst b w s o (with_gate (with_done r ds) g) p) as E.
    rewrite Hstep in E. cbn [fst] in E. by rewrite E.
  - destruct (retire_frame _ _ _ _ _ _ _ Hstep) as (r1 & Ec & _ & _ & _ & _ & -> & _). by apply cascade_shrinks in Ec as (_ & ? & _).
  - injection Hstep as Hstep. destruct (task_step_moves _ _ _ _ _ Hstep) as [[-> _]|(t & st & r1 & _ & Hm & ->)]; [done|].
    change (children_of (ar_tracker (set_task i (with_stage t st) r1)) p) with (children_of (ar_tracker r1) p).
    destruct Hm; try done; [by destruct (is_tombstoned _ _)|..].
    + by apply finish_shrinks.
    + by apply finish_child_shrinks.
  - injection Hstep as <- _. by destruct (drop_task_moves i r) as [->|(t & _ & _ & _ & ->)].
  - injection Hstep as <- _. by destruct (late_frame j w r) as (_ & _ & _ & _ & -> & _).
Qed.

Lemma spawn_rooted md parent call prompt r : parent < ar_next_child r -> rooted r -> rooted (spawn_agent md parent call prompt r).1.
Proof.
  intros Hp Hr. unfold spawn_agent. destruct (md <=? _); [done|]. intros p c. unfold edge, children_of. cbn.
  destruct (decide (p = parent)) as [->|Hne].
  - rewrite lookup_insert_eq. cbn. intros [Hc| ->%list_elem_of_singleton]%elem_of_app; [by apply Hr|done].
  - rewrite lookup_insert_ne by done. apply Hr.
Qed.

Lemma run_rooted md ins : forall r r' out, rooted r -> known_parents md ins r -> router_run md ins r = Some (r', out) -> rooted r'.
Proof.
  induction ins as [|i ins IH]; intros r r' out Hr Hk; cbn [router_run]; [by intros [= <- _]|].
  cbn [known_parents] in Hk. destruct Hk as [Hi Hk].
  destruct (router_step md i r) as [[r1 o]|] eqn:E; [|done]. cbn [mbind option_bind].
  destruct (router_run md ins r1) as [[r2 o2]|] eqn:E2; [|done]. cbn [mbind option_bind]. intros [= <- _].
  eapply IH; [|exact Hk|exact E2].
  destruct i; try (eapply same_children_rooted; [eapply step_children; [exact E|done]|done]).
  cbn [router_step] in E. injection E as E. pose proof (spawn_rooted md parent call prompt r Hi Hr) as Hs. by rewrite E in Hs.
Qed.

(** The walk: a queue without repetition that the root and the children of
    its processed part make up. *)
Record walking tr (s : Z) (l : list Z) (i : nat) : Prop := {
  wk_shape : l = s :: concat (children_of tr <$> take i l);
  wk_nodup : NoDup l;
  wk_done : (i <= length l)%nat;
  wk_reach x : x ∈ l -> rtc (edge tr) s x
}.

Lemma child_elem tr p c : edge tr p c -> c ∈ all_children tr.
Proof.
  unfold edge, children_of, all_children. destruct (tr_children tr !! p) as [l|] eqn:E; cbn; [|by intros ?%elem_of_nil].
  intros Hc. apply list_elem_of_In, in_concat. exists l. split; apply list_elem_of_In; [|done].
  apply list_elem_of_fmap. exists (p, l). split; [done|]. by apply elem_of_map_to_list.
Qed.

Lemma elem_children tr (l : list Z) c : c ∈ concat (children_of tr <$> l) <-> exists p, p ∈ l /\ edge tr p c.
Proof.
  induction l as [|x l IH]; cbn.
  - split; [by intros ?%elem_of_nil|]. by intros (p & ?%elem_of_nil & _).
  - rewrite elem_of_app, IH. unfold edge. split.
    + intros [Hc|(p & Hp & Hc)]; [exists x; split; [by left|done]|exists p; split; [by right|done]].
    + intros (p & [->|Hp]%elem_of_cons & Hc); [by left|right; by exists p].
Qed.

Lemma walk_length md n r s l i : tree_ok md n r -> walking (ar_tracker r) s l i -> (length l <= S (length (all_children (ar_tracker r))))%nat.
Proof.
  intros Hok [Hl Hn _ _]. rewrite Hl in Hn |- *. apply NoDup_cons in Hn as [_ Hn]. cbn [length]. apply le_n_S.
  apply submseteq_length, NoDup_submseteq; [done|]. intros c (p & _ & Hc)%elem_children. by eapply child_elem.
Qed.

(** Among its own descendants. *)
Definition own_descendant tr (s : Z) : Prop := tc (edge tr) s s.

Lemma walk_next md n r s l i x :
  tree_ok md n r -> walking (ar_tracker r) s l i -> l !! i = Some x ->
  own_descendant (ar_tracker r) s \/ walking (ar_tracker r) s (l ++ children_of (ar_tracker r) x) (S i).
Proof.
  intros Hok [Hl Hn Hd Hre] Hx. pose proof (lookup_lt_Some _ _ _ Hx) as Hlt.
  pose proof (list_elem_of_lookup_2 _ _ _ Hx) as Hin.
  destruct (decide (s ∈ children_of (ar_tracker r) x)) as [Hc|Hns].
  { left. eapply tc_rtc_l; [by apply Hre|by apply tc_once]. }
  right. split.
  - rewrite take_app_le by lia. rewrite (take_S_r _ _ _ Hx), fmap_app, concat_app. cbn. rewrite app_nil_r.
    rewrite Hl at 1. done.
  - apply NoDup_app. split_and!; [done| |apply (to_nodup _ _ _ Hok)]. intros c Hc Hcx. rewrite Hl in Hc.
    apply elem_of_cons in Hc as [->|(p & Hp & Hpc)%elem_children].
    + done.
    + assert (p = x) as -> by by eapply (to_unique _ _ _ Hok).
      apply list_elem_of_lookup in Hp as [k Hk]. apply lookup_take_Some in Hk as [Hk Hki].
      pose proof (NoDup_lookup _ _ _ _ Hn Hk Hx). lia.
  - rewrite length_app. lia.
  - intros c [Hc|Hc]%elem_of_app; [by apply Hre|]. eapply rtc_r; [by apply Hre|done].
Qed.

Lemma walk_ends md n r s fuel : forall l i,
  tree_ok md n r -> walking (ar_tracker r) s l i ->
  (S (length (all_children (ar_tracker r))) <= fuel + i)%nat ->
  own_descendant (ar_tracker r) s \/ exists l', cascade_walk fuel (ar_tracker r) l i = Some l' /\ walking (ar_tracker r) s l' (length l').
Proof.
  induction fuel as [|fuel IH]; intros l i Hok Hw Hf; cbn [cascade_walk];
    pose proof (walk_length _ _ _ _ _ _ Hok Hw) as Hlen; destruct (l !! i) as [x|] eqn:E.
  - apply lookup_lt_Some in E. lia.
  - right. exists l. apply lookup_ge_None in E. pose proof (wk_done _ _ _ _ Hw). by replace (length l) with i by lia.
  - destruct (walk_next _ _ _ _ _ _ _ Hok Hw E) as [Hc|Hw']; [by left|]. apply IH; [done..|lia].
  - right. exists l. apply lookup_ge_None in E. pose proof (wk_done _ _ _ _ Hw). by replace (length l) with i by lia.
Qed.

(** The walk terminates on the sessions below and including [s], unless
    [s] is among its own descendants. *)
Lemma targets_subtree md n r s :
  tree_ok md n r ->
  own_descendant (ar_tracker r) s \/
  exists l, cascade_targets (ar_tracker r) s = Some l /\ NoDup l /\ forall x, x ∈ l <-> rtc (edge (ar_tracker r)) s x.
Proof.
  intros Hok. destruct (walk_ends md n r s (S (length (all_children (ar_tracker r)))) [s] 0 Hok) as [Hc|(l & E & Hw)]; [|lia|by left|right].
  - split; [done|apply NoDup_singleton|cbn; lia|]. by intros x ->%list_elem_of_singleton.
  - exists l. split; [exact E|]. destruct Hw as [Hl Hn _ Hre]. rewrite take_ge in Hl by done. split; [done|].
    intros x. split; [apply Hre|]. revert x. apply rtc_ind_r; [rewrite Hl; left|].
    intros y z _ Hyz Hy. rewrite Hl. right. apply elem_children. by exists y.
Qed.

(** From a session on its way back to [s] the walk has always one to go: no
    fuel is enough. *)
Lemma own_descendant_never_ends tr s fuel : own_descendant tr s -> cascade_walk fuel tr [s] 0 = None.
Proof.
  intros Hc. assert (forall l i, (exists j y, (i <= j)%nat /\ l !! j = Some y /\ rtc (edge tr) y s) -> cascade_walk fuel tr l i = None) as Hw.
  { induction fuel as [|fuel IH]; intros l i (j & y & Hj & Hy & Hs); cbn [cascade_walk]; pose proof (lookup_lt_Some _ _ _ Hy);
      (destruct (l !! i) as [x|] eqn:E; [|apply lookup_ge_None in E; lia]); [done|]. apply IH.
    destruct (decide (i = j)) as [->|Hne]; [|exists j, y; split_and!; [lia|by apply lookup_app_l_Some|done]].
    rewrite Hy in E. injection E as <-. assert (exists z, edge tr y z /\ rtc (edge tr) z s) as (z & Hyz & Hz).
    { apply rtc_inv in Hs as [->|(z & H1 & H2)]; [|by exists z]. inversion Hc as [? ? H1|? z ? H1 H2]; subst; [by exists s|].
      exists z. split; [done|by apply tc_rtc]. }
    apply list_elem_of_lookup in Hyz as [k Hk]. exists (length l + k)%nat, z. split_and!; [lia| |done].
    rewrite lookup_app_r by lia. by replace (length l + k - length l)%nat with k by lia. }
  apply Hw. by exists 0%nat, s.
Qed.

Lemma rooted_no_cycle r s : rooted r -> ~ own_descendant (ar_tracker r) s.
Proof.
  intros Hr Hc. assert (forall x y, tc (edge (ar_tracker r)) x y -> x < y) as Hlt.
  { intros x y. induction 1 as [x y Hxy|x y z Hxy _ IH]; [by apply Hr|]. apply Hr in Hxy. lia. }
  specialize (Hlt _ _ Hc). lia.
Qed.

(** Handles point at tasks of their session. *)
Definition handles_ok r : Prop :=
  forall s g id, tr_handles (ar_tracker r) !! s = Some (g, id) -> exists t, ar_tasks r !! id = Some t /\ tt_session t = s.

Lemma abort_session_task x r i t :
  ar_tasks r !! i = Some t -> exists t', ar_tasks (abort_session x r) !! i = Some t' /\ tt_session t' = tt_session t /\
    (tt_aborted t = true -> tt_aborted t' = true).
Proof.
  intros Hi. unfold abort_session. destruct (tr_handles (ar_tracker r) !! x) as [[g id]|]; [|by exists t]. cbn.
  destruct (decide (i = id)) as [->|Hne].
  - exists (abort_task t). by rewrite list_lookup_alter_eq, Hi.
  - exists t. by rewrite list_lookup_alter_ne.
Qed.

Lemma abort_session_ok x r : handles_ok r -> handles_ok (abort_session x r).
Proof.
  intros Hok s g id Hs. assert (tr_handles (ar_tracker r) !! s = Some (g, id)) as Hs'.
  { revert Hs. unfold abort_session. destruct (tr_handles (ar_tracker r) !! x) as [[g' id']|]; [|done]. cbn.
    by intros [_ ?]%lookup_delete_Some. }
  destruct (Hok _ _ _ Hs') as (t & Hi & E). destruct (abort_session_task x r id t Hi) as (t' & Hi' & E' & _).
  exists t'. by rewrite E'.
Qed.

Lemma abort_fold_keeps l : forall r i t,
  ar_tasks r !! i = Some t -> exists t', ar_tasks (fold_left (fun r s => abort_session s r) l r) !! i = Some t' /\
    tt_session t' = tt_session t /\ (tt_aborted t = true -> tt_aborted t' = true).
Proof.
  induction l as [|x l IH]; intros r i t Hi; cbn [fold_left]; [by exists t|].
  destruct (abort_session_task x r i t Hi) as (t1 & H1 & E1 & A1). destruct (IH _ _ _ H1) as (t2 & H2 & E2 & A2).
  exists t2. split_and!; [done|by rewrite E2|auto].
Qed.

Lemma abort_fold_others l : forall r i t,
  handles_ok r -> ar_tasks r !! i = Some t -> tt_session t ∉ l ->
  ar_tasks (fold_left (fun r s => abort_session s r) l r) !! i = Some t.
Proof.
  induction l as [|x l IH]; intros r i t Hok Hi Hn; cbn [fold_left]; [done|]. apply not_elem_of_cons in Hn as [Hx Hn].
  apply IH; [by apply abort_session_ok| |done]. unfold abort_session.
  destruct (tr_handles (ar_tracker r) !! x) as [[g id]|] eqn:E; [|done]. cbn.
  destruct (Hok _ _ _ E) as (t0 & H0 & E0). destruct (decide (i = id)) as [->|Hne].
  - rewrite Hi in H0. injection H0 as <-. done.
  - by rewrite list_lookup_alter_ne.
Qed.

Lemma abort_fold_hits l : forall r d g id,
  handles_ok r -> d ∈ l -> tr_handles (ar_tracker r) !! d = Some (g, id) ->
  exists t, ar_tasks (fold_left (fun r s => abort_session s r) l r) !! id = Some t /\ tt_session t = d /\ tt_aborted t = true.
Proof.
  induction l as [|x l IH]; intros r d g id Hok Hd Hh; cbn [fold_left]; [by apply elem_of_nil in Hd|].
  destruct (decide (x = d)) as [->|Hne].
  - destruct (Hok _ _ _ Hh) as (t & Hi & E).
    assert (ar_tasks (abort_session d r) !! id = Some (abort_task t)) as Ht.
    { unfold abort_session. rewrite Hh. cbn. by rewrite list_lookup_alter_eq, Hi. }
    destruct (abort_fold_keeps l _ _ _ Ht) as (t' & H' & E' & A'). exists t'. split_and!; [done|by rewrite E'|by apply A'].
  - apply elem_of_cons in Hd as [->|Hd]; [done|]. apply (IH _ d g id); [by apply abort_session_ok|done|].
    unfold abort_session. destruct (tr_handles (ar_tracker r) !! x) as [[g' id']|]; [|done]. cbn. by rewrite lookup_delete_ne.
Qed.

(** C17: Whatever has happened (up to 2^63 events), a cancel does exactly one of
    two things.  Either the session is its own descendant - it spawned under an
    id that had not been given out yet - and the router never returns from the
    walk over its children; or the walk ends, each turn of the session and of
    every sub-agent below it that has still a handle is aborted and loses the
    handle, and the turns and handles of all other sessions are untouched.  The
    first cannot happen while every spawn is made by a session whose id was
    given out. *)
Theorem cancel_reaches_subtree (md : Z) (store : SessionStore) (hops : option (gmap Z Z)) (ins : list RouterIn) r
    (out : list RouterEffect) (w : FsWrite) (session : Z) (Hlen : zlen ins < 2 ^ 63)
    (Hrun : router_run md ins (router_boot store hops) = Some (r, out)) :
  (user_cancel w session r = None <-> own_descendant (ar_tracker r) session) /\
  (known_parents md ins (router_boot store hops) -> ~ own_descendant (ar_tracker r) session) /\
  (forall r', user_cancel w session r = Some r' ->
    (forall d, rtc (edge (ar_tracker r)) session d ->
       tr_handles (ar_tracker r') !! d = None /\
       forall g id, tr_handles (ar_tracker r) !! d = Some (g, id) ->
         exists t, ar_tasks r' !! id = Some t /\ tt_session t = d /\ tt_aborted t = true) /\
    (forall d, ~ rtc (edge (ar_tracker r)) session d ->
       tr_handles (ar_tracker r') !! d = tr_handles (ar_tracker r) !! d /\
       forall i t, ar_tasks r !! i = Some t -> tt_session t = d -> ar_tasks r' !! i = Some t)).
Proof.
  assert (tree_ok md 0 r) as Hok by (eapply run_tree; [by apply boot_tree|exact Hrun]).
  pose proof (to_handles _ _ _ Hok) as Hh. fold (handles_ok r) in Hh.
  assert (own_descendant (ar_tracker r) session -> user_cancel w session r = None) as Hnone.
  { intros Hc. unfold user_cancel, cascade_cancel, cascade_targets. by rewrite own_descendant_never_ends. }
  destruct (targets_subtree _ _ _ session Hok) as [Hc|(l & El & _ & Hl)].
  { split_and!; [by split; [|intros _; apply Hnone]| |by intros r' E; rewrite (Hnone Hc) in E]. intros Hknown. apply rooted_no_cycle.
    eapply run_rooted; [|exact Hknown|exact Hrun]. intros p c. unfold edge, children_of. cbn. rewrite lookup_empty. by intros ?%elem_of_nil. }
  split_and!.
  - split; [|exact Hnone]. unfold user_cancel, cascade_cancel. by rewrite El.
  - intros Hknown. apply rooted_no_cycle. eapply run_rooted; [|exact Hknown|exact Hrun]. intros p c. unfold edge, children_of. cbn.
    rewrite lookup_empty. by intros ?%elem_of_nil.
  - intros r' E. destruct (user_cancel_frame _ _ _ _ E) as (r1 & Ec & _ & _ & Et & _ & Etr & _).
    unfold cascade_cancel in Ec. rewrite El in Ec. injection Ec as Ec. rewrite Et, Etr, <- Ec. split.
    + intros d Hd%Hl. split.
      * destruct (tr_handles _ !! d) as [h|] eqn:Eh; [|done]. by apply abort_handles in Eh as [_ ?].
      * intros g id Hg. by eapply abort_fold_hits.
    + intros d Hd. assert (d ∉ l) as Hn by (by rewrite Hl). split; [|intros i t Hi <-; by apply abort_fold_others].
      apply option_eq. intros h. rewrite abort_handles. naive_solver.
Qed.

(** ** One turn at a time *)

(** The turns of an ordinary session are root turns. *)
Definition roots_only (s : Z) (ts : list (TurnTask (V := V))) : Prop :=
  forall t, t ∈ ts -> tt_session t = s -> tt_kind t = RootTurn.

Lemma roots_only_tree md n r s : tree_ok md n r -> is_spawn_session s = false -> roots_only s (ar_tasks r).
Proof.
  intros Hok Hs t Ht E. destruct (tt_kind t) as [|p c] eqn:Ek; [done|]. pose proof (to_tasks _ _ _ Hok _ _ _ Ht Ek) as Hb.
  unfold is_spawn_session in Hs. rewrite E in Hb. lia.
Qed.

(** The turns of the session that are not over, of either kind. *)
Definition turn_live (session : Z) t : bool := (tt_session t =? session) && negb (is_gone t).
Definition live_turns (session : Z) (ts : list (TurnTask (V := V))) : Z := zlen (filter (turn_live session) ts).

Lemma roots_only_live s ts : roots_only s ts -> live_turns s ts = live_roots s ts.
Proof.
  unfold live_turns, live_roots. induction ts as [|t ts IH]; intros Hro; [done|]. rewrite !zlen_filter_cons.
  rewrite IH by (intros t' Ht'; apply Hro; by right). do 2 f_equal. unfold turn_live, root_live.
  destruct (Z.eqb_spec (tt_session t) s) as [E|]; [|by destruct (tt_kind t)]. by rewrite (Hro t) by (done || left).
Qed.

(** C4: The gate lets at most one turn of a session run, whatever the order of
    prompts, spawns, cancels, retirements, completions and aborts: the slot of a
    session is taken exactly while one turn that the gate let in (a root turn) is
    alive or its release is on its way to the router, and a prompt waits only
    behind such a turn.  In a session outside the range of the spawned
    sub-agents this is every turn: over a run of less than 2^63 events it never
    has two in flight.  A sub-agent's own task is not the gate's, so its session
    may have one more ([RouterRuns.message_starts_second_turn]). *)
Theorem one_turn_per_session (md : Z) (store : SessionStore) (hops : option (gmap Z Z)) (ins : list RouterIn) r
    (out : list RouterEffect) (Hrun : router_run md ins (router_boot store hops) = Some (r, out)) (s : Z) :
  live_roots s (ar_tasks r) + signals s (ar_done r) = Z.b2z (bool_decide (s ∈ tg_busy (ar_gate r))) /\
  live_roots s (ar_tasks r) <= 1 /\
  (queue_of (ar_gate r) s <> [] -> live_roots s (ar_tasks r) = 1 \/ s ∈ ar_done r) /\
  (is_spawn_session s = false -> zlen ins < 2 ^ 63 -> live_turns s (ar_tasks r) = live_roots s (ar_tasks r)).
Proof.
  destruct (run_serial _ _ _ _ _ _ Hrun s) as [Hn Hq].
  pose proof (zlen_nonneg (filter (root_live s) (ar_tasks r))). pose proof (zlen_nonneg (filter (fun d => d =? s) (ar_done r))).
  split_and!; [done|unfold live_roots, signals in *; destruct (bool_decide _); cbn in Hn; lia| |].
  - intros Hne. rewrite bool_decide_eq_true_2 in Hn by by apply Hq. cbn in Hn.
    destruct (decide (s ∈ ar_done r)) as [|Hd]; [by right|left].
    assert (~ 0 < signals s (ar_done r)) by (intros ?; by apply Hd, signals_elem). unfold signals in *. lia.
  - intros Hs Hlen. apply roots_only_live. eapply roots_only_tree; [|exact Hs]. eapply run_tree; [by apply boot_tree|exact Hrun].
Qed.

End tree.
