(* ===== verification/RouterDisk.v ===== *)
(** * What the agent router leaves on disk

    The transcript of a session under the agent router ([AgentRouter]): while
    nobody cancels or retires the session its file is, with what the running
    turn has still to append, one valid conversation; and a deleted session's
    file does not come back, but for an append that was past its check. *)
From S2P Require Import Prelude Text Policy Protocol Identity History Sessions Turn AgentRouter RouterTree.

Section disk.
Context {V : Type} `{!JsonArgs V} `{!JsonNums V} `{!JsonValue V} `{!JsonDoc V} `{!ImageOps} `{!MessageJson V} `{!MessageJsonLaws V}.
Implicit Types (r : AgentRouter (V := V)) (t : TurnTask (V := V)) (m : Message V) (h : list (Message V)).


(** The live file of a session, empty when it is missing. *)
Definition file_text r (s : Z) : text := default [] (sd_jsonl (ss_live (ar_store r)) !! s).

(** What task [t] has still to append to the file of [s]. *)
Definition todo_of (s : Z) t : list (Message V) :=
  if tt_session t =? s then match tt_stage t with Persisting _ todo _ => todo | _ => [] end else [].

Definition pending (s : Z) (ts : list (TurnTask (V := V))) : list (Message V) := concat (todo_of s <$> ts).





Definition filed (s : Z) (F0 : list (Message V)) r : Prop :=
  (forall t, t ∈ ar_tasks r -> tt_session t = s -> tt_aborted t = false) /\
  (forall m, (s, m) ∉ ar_late r) /\
  exists F, file_text r s = transcript F /\ F0 `prefix_of` F /\ api_valid (F ++ pending s (ar_tasks r)) = true /\
    (0 < live_roots s (ar_tasks r) -> F <> []).







(** *** A turn starts *)


(** *** A turn moves *)

(** *** Cancels of other sessions *)







(** *** Every step *)

Lemma filed_frame s F0 r r' :
  filed s F0 r -> ar_tasks r' = ar_tasks r -> ar_late r' = ar_late r -> file_text r' s = file_text r s -> filed s F0 r'.
Proof. unfold filed. by intros Hf -> -> ->. Qed.










(** *** Memory and file *)



















(** ** Retired sessions *)











End disk.
