(* ===== verification/RouterRuns.v ===== *)
(** * Runs of the agent router

    Concrete runs of [AgentRouter]: the theorems about it applied, and runs in
    which it does what its comments say it does not. *)
From S2P Require Import Prelude Text Policy Protocol Identity History Sessions Turn AgentRouter RouterTree RouterDisk.

(** ** Toy values *)

(** A value is a note without structure; a message is a line of bits. *)
Inductive Note := ANote (s : text).

#[export] Instance Note_eq_dec : EqDecision Note.
Proof. solve_decision. Defined.
#[export] Instance Note_countable : Countable Note.
Proof. apply (inj_countable' (fun n => match n with ANote s => s end) ANote). by intros []. Defined.

#[export] Instance note_args : JsonArgs Note := {|
  json_get _ _ := None; json_as_str v := match v with ANote s => Some s end; json_as_bool _ := None;
  json_is_object _ := false; json_remove v _ := v; json_insert v _ _ := v; json_bool _ := ANote []
|}.
#[export] Instance note_nums : JsonNums Note := {| json_as_u64 _ := None; json_as_array _ := None |}.
#[export] Instance note_value : JsonValue Note := {| json_text v := match v with ANote s => s end; json_of_str := ANote |}.
#[export] Instance note_doc : JsonDoc Note := {|
  json_parse s := Some (ANote s); json_array _ := ANote []; json_image_block _ _ := ANote []; json_text_block := ANote
|}.

#[export] Instance block_eq_dec : EqDecision (ContentBlock Note).
Proof. solve_decision. Defined.
#[export] Instance message_eq_dec : EqDecision (Message Note).
Proof. solve_decision. Defined.

Definition block_sum (b : ContentBlock Note) : text + (text * text) + (text * text * Note) + (text * Note * bool) + (text * text) :=
  match b with
  | Text t => inl (inl (inl (inl t)))
  | Thinking a c => inl (inl (inl (inr (a, c))))
  | ToolUse a c v => inl (inl (inr (a, c, v)))
  | ToolResult a v e => inl (inr (a, v, e))
  | Image a c => inr (a, c)
  end.
Definition sum_block (x : text + (text * text) + (text * text * Note) + (text * Note * bool) + (text * text)) : ContentBlock Note :=
  match x with
  | inl (inl (inl (inl t))) => Text t
  | inl (inl (inl (inr (a, c)))) => Thinking a c
  | inl (inl (inr (a, c, v))) => ToolUse a c v
  | inl (inr (a, v, e)) => ToolResult a v e
  | inr (a, c) => Image a c
  end.

#[export] Instance block_countable : Countable (ContentBlock Note).
Proof. apply (inj_countable' block_sum sum_block). by intros []. Defined.
#[export] Instance message_countable : Countable (Message Note).
Proof.
  apply (inj_countable' (fun m => match m with User c => inl c | Assistant c => inr c end)
           (fun x => match x with inl c => User c | inr c => Assistant c end)). by intros [].
Defined.

#[export] Instance note_message_json : MessageJson Note :=
  {| msg_to_json m := Some (bit_text (encode m)); msg_of_json s := read_bits s ≫= decode |}.
#[export] Instance note_message_laws : MessageJsonLaws Note.
Proof.
  split; cbn.
  - intros m. rewrite read_bit_text. apply decode_encode.
  - intros m s [= <-]. apply bit_text_shape.
  - intros m s [= <-]. apply bit_text_shape.
Qed.

(** ** A day at the router *)

Definition world (permit : bool) (says : string) : TurnWorld (V := Note) :=
  mkTurnWorld None (fun _ => Err []) 1800 false 1
    [mkRound permit (mkPrompts (chars "soul") [] [] [] []) (Some [(0, CTextBlock (chars says)); (0, CDone)]) 0 []]
    (chars "permit gone").

Definition prompt (s : Z) (says : string) : RouterIn (V := Note) := RPrompt 0 true WroteAll s (chars says, []).

(** Task [i] runs its turn to the end. *)
Definition whole_turn (i : nat) (says : string) : list (RouterIn (V := Note)) :=
  [RTask i (TurnEnds (world true says)); RTask i TaskGo; RTask i (AppendLands WroteAll); RTask i TaskGo; RTask i TaskGo].

Definition empty_store : SessionStore := mkStore (mkDir ∅ ∅) (mkDir ∅ ∅) ∅.

(** Two prompts, a reply, the second prompt's turn, which spawns a child. *)
Definition a_day : list (RouterIn (V := Note)) :=
  [prompt 5 "a"; prompt 5 "b"] ++ whole_turn 0 "c" ++ [RTurnDone 0 WroteAll; RSpawn 5 1 (chars "d")].

Definition after_a_day : AgentRouter (V := Note) := default (router_boot empty_store None) (fst <$> router_run 2 a_day (router_boot empty_store None)).
Definition day_effects : list (RouterEffect (V := Note)) := default [] (snd <$> router_run 2 a_day (router_boot empty_store None)).

Lemma a_day_runs : router_run 2 a_day (router_boot empty_store None) = Some (after_a_day, day_effects).
Proof. vm_compute. reflexivity. Qed.

Lemma day_sane : Forall sane_input a_day.
Proof. repeat (apply Forall_cons; split; [first [exact I|split; [split; vm_compute; discriminate|split; [repeat constructor; vm_compute; discriminate|vm_compute; discriminate]]]|]). constructor. Qed.

Lemma one_turn_per_session_witness : live_turns 5 (ar_tasks after_a_day) = live_roots 5 (ar_tasks after_a_day).
Proof.
  destruct (one_turn_per_session 2 empty_store None a_day after_a_day day_effects a_day_runs 5) as (_ & _ & _ & H).
  apply H; vm_compute; reflexivity.
Defined.

Lemma every_request_is_valid_witness : Forall asks_valid day_effects.
Proof. exact (proj1 (every_request_is_valid 2 empty_store None a_day after_a_day day_effects day_sane a_day_runs)). Defined.

Lemma prompts_in_order_witness : started 5 day_effects ++ queue_of (ar_gate after_a_day) 5 = [(chars "a", []); (chars "b", [])].
Proof.
  refine (proj1 (prompts_in_order 2 empty_store None a_day after_a_day day_effects 5 a_day_runs _ _ _)).
  - reflexivity.
  - reflexivity.
  - repeat constructor.
Defined.

Lemma spawn_depth_bounded_witness :
  tr_depths (ar_tracker after_a_day) !! SPAWN_SESSION_BASE = Some 1 /\ 0 <= 1 <= 2.
Proof.
  split; [vm_compute; reflexivity|]. refine (proj1 (spawn_depth_bounded 2 empty_store None a_day after_a_day day_effects _ _ a_day_runs) SPAWN_SESSION_BASE 1 _).
  - lia.
  - vm_compute. reflexivity.
  - vm_compute. reflexivity.
Defined.

Lemma cancel_reaches_subtree_witness :
  exists r', user_cancel WroteAll 5 after_a_day = Some r' /\ tr_handles (ar_tracker r') !! 5 = None.
Proof.
  destruct (cancel_reaches_subtree 2 empty_store None a_day after_a_day day_effects WroteAll 5) as (Hn & Hk & Hc).
  - vm_compute. reflexivity.
  - exact a_day_runs.
  - destruct (user_cancel WroteAll 5 after_a_day) as [r'|].
    + exists r'. split; [reflexivity|]. apply (proj1 (Hc r' eq_refl) 5). apply rtc_refl.
    + exfalso. apply Hk; [vm_compute; repeat split; reflexivity|]. apply Hn. reflexivity.
Defined.






(** ** What the comments do not say *)

(** The tombstone is checked before the file is opened: an append that has
    passed the check when the session is deleted writes the file again. *)
Example append_past_its_check_resurrects :
  let ins := [prompt 5 "a"; RTask 0 (TurnEnds (world true "c")); RTask 0 TaskGo; RRetire true true 5 RetireDelete;
              RTask 0 (AppendLands WroteAll)] in
  (fun r => sd_jsonl (ss_live (ar_store r.1)) !! 5) <$> router_run 2 ins (router_boot empty_store None)
  = Some (Some (transcript [Assistant [Text (chars "c")] : Message Note])).
Proof. vm_compute. reflexivity. Qed.

(** A sub-agent deleted while it runs is back in memory when it ends: its task
    stores the history without a look at the tombstones. *)
Example deleted_child_is_remembered :
  let child := SPAWN_SESSION_BASE in
  let ins := [prompt 5 "a"; RSpawn 5 1 (chars "d"); RTask 1 (TurnEnds (world true "done")); RRetire true true child RetireDelete; RTask 1 TaskGo] in
  (fun r => is_someb (ar_histories r.1 !! child)) <$> router_run 2 ins (router_boot (V := Note) empty_store None) = Some true.
Proof. vm_compute. reflexivity. Qed.

(** The prompt of a parked worker whose file cannot be read is dropped. *)
Example unreadable_worker_is_refused :
  let w := WORKER_SESSION_BASE in
  let store := mkStore (mkDir {[ w := chars "{" ]} ∅) (mkDir ∅ ∅) ∅ in
  (fun r => (started w r.2, queue_of (ar_gate r.1) w)) <$>
    router_run 2 [RPrompt 0 false WroteAll w (chars "a", [])] (router_boot (V := Note) store None) = Some ([], []).
Proof. vm_compute. reflexivity. Qed.

(** A message to a running sub-agent starts a second turn in its session: the
    gate knows root turns only, and the child's abort handle is overwritten. *)
Example message_starts_second_turn :
  let child := SPAWN_SESSION_BASE in
  let ins := [prompt 5 "a"; RSpawn 5 1 (chars "d"); RMessage 5 child (chars "m") 9;
              RPrompt 0 true WroteAll child (chars "[Agent 5]: m", [])] in
  (fun r => (List.filter (fun t => (tt_session t =? child) && negb (is_gone t)) (ar_tasks r.1), tr_handles (ar_tracker r.1) !! child))
    <$> router_run 2 ins (router_boot empty_store None)
  = Some ([mkTurnTask child (ChildTurn 5 1) 2 (Turning [User [Text (chars "d")]]) false;
           mkTurnTask child RootTurn 3 (Turning [User [Text (chars "d")]; User [Text (chars "[Agent 5]: m")]]) false],
          Some (3, 2%nat)).
Proof. vm_compute. reflexivity. Qed.

(** A session that spawns under its own id is its own child (ids from the
    HTTP API are not range-checked); cancelling it never returns. *)
Example cancel_of_own_child_hangs :
  let x := SPAWN_SESSION_BASE in
  router_run 2 [prompt x "a"; RSpawn x 1 (chars "d"); RCancel WroteAll x] (router_boot (V := Note) empty_store None) = None /\
  (fun r => children_of (ar_tracker r.1) x) <$> router_run 2 [prompt x "a"; RSpawn x 1 (chars "d")] (router_boot (V := Note) empty_store None)
  = Some [x].
Proof. split; vm_compute; reflexivity. Qed.

(** The depth of a finished sub-agent is forgotten: prompted again, it may
    spawn although it was as deep as allowed; and its history stays in memory
    though its bookkeeping is torn down. *)
Example finished_child_starts_over :
  let child := SPAWN_SESSION_BASE in
  let before := [prompt 5 "a"; RSpawn 5 1 (chars "d")] in
  let ends := [RTask 1 (TurnEnds (world true "done")); RTask 1 TaskGo; RTask 1 TaskGo; RTask 1 TaskGo] in
  let again := [RPrompt 0 true WroteAll child (chars "[Agent 5]: more", []); RSpawn child 2 (chars "deeper")] in
  (fun r => is_someb (ar_histories r.1 !! child)) <$> router_run 1 (before ++ ends) (router_boot (V := Note) empty_store None) = Some true /\
  (fun r => r.2) <$> router_run 1 (before ++ [RSpawn child 2 (chars "deeper")]) (router_boot (V := Note) empty_store None)
  = Some [TurnStarted 5 (chars "a", []); SubAgentStarted 5 child (chars "d");
          RouterToolResult child 2 false (chars "max sub-agent depth exceeded")] /\
  (fun r => last r.2) <$> router_run 1 (before ++ ends ++ again) (router_boot (V := Note) empty_store None)
  = Some (Some (SubAgentStarted child (child + 1) (chars "deeper"))).
Proof. split_and!; vm_compute; reflexivity. Qed.

(** A turn that fails leaves its prompt unanswered: the next prompt follows it
    directly, which the cancel path takes care to avoid. *)
Example failed_turn_leaves_its_prompt :
  let ins := [prompt 5 "a"; RTask 0 (TurnEnds (world false "c")); RTask 0 TaskGo; RTurnDone 0 WroteAll; prompt 5 "b"] in
  (fun r => ar_histories r.1 !! 5) <$> router_run 2 ins (router_boot (V := Note) empty_store None)
  = Some (Some [User [Text (chars "a")]; User [Text (chars "b")]]).
Proof. vm_compute. reflexivity. Qed.
