(* ===== verification/Jsonl.v ===== *)
(** * Files of one JSON object per line

    What a file written line by line reads back as, whole or cut anywhere: for
    a printer and a parser of rows where a row prints on one line, ends in a
    brace, reads back, and nothing shorter than the whole row parses. *)
From S2P Require Import Prelude Text.

Section jsonl.
Context {A : Type} (print : A -> option text) (parse : text -> option A).
Hypothesis print_back : forall a, print a ≫= parse = Some a.
Hypothesis print_line : forall a s, print a = Some s -> 10 ∉ s.
Hypothesis print_brace : forall a s, print a = Some s -> exists r, s = r ++ [125].
Hypothesis print_prefix : forall a s n, print a = Some s -> (n < length s)%nat -> parse (take n s) = None.
Implicit Types (l : list A) (s : text).

Lemma print_some a : exists s, print a = Some s /\ parse s = Some a /\ (10 ∉ s) /\ strip_cr s = s.
Proof.
  pose proof (print_back a) as E. destruct (print a) as [s|] eqn:Es; [|done]. exists s.
  destruct (print_brace a s Es) as [r Er]. split_and!; [done|done|by eapply print_line|].
  subst s. by apply strip_cr_snoc.
Qed.

Lemma mapM_print l : mapM print l = Some (omap print l).
Proof.
  induction l as [|a l IH]; [done|]. cbn [mapM omap list_omap]. destruct (print_some a) as (s & E & _).
  rewrite E. cbn. rewrite IH. done.
Qed.

Lemma read_rows_tail l p :
  10 ∉ p -> omap parse (lines (terminated (omap print l) ++ p)) = l ++ match p with [] => [] | _ => option_list (parse p) end.
Proof.
  intros Hp. rewrite lines_terminated_tail; [|clear p Hp|done].
  - induction l as [|a l IH]; cbn [omap list_omap fmap list_fmap app].
    + destruct p as [|c p]; [done|]. cbn. by destruct (parse (c :: p)).
    + destruct (print_some a) as (s & E & Hb & _ & Hs). rewrite E. cbn [fmap list_fmap app omap list_omap].
      rewrite Hs, Hb. f_equal. exact IH.
  - induction l as [|a l IH]; [constructor|]. cbn [omap list_omap].
    destruct (print_some a) as (s & E & _ & Hl & _). rewrite E. by constructor.
Qed.

Lemma read_rows l : omap parse (lines (terminated (omap print l))) = l.
Proof. pose proof (read_rows_tail l [] ltac:(apply not_elem_of_nil)) as E. by rewrite !app_nil_r in E. Qed.

(** A cut falls inside a row (or at its end), after whole rows. *)
Lemma take_rows l n :
  exists k p, take n (terminated (omap print l)) = terminated (omap print (take k l)) ++ p /\
    (p = [] \/ exists a s j, l !! k = Some a /\ print a = Some s /\ p = take j s).
Proof.
  revert n; induction l as [|a l IH]; intros n.
  { exists 0%nat, []. split; [apply take_nil|by left]. }
  cbn [omap list_omap]. destruct (print_some a) as (s & Es & _). rewrite Es.
  unfold terminated. cbn [fmap list_fmap concat]. fold (terminated (omap print l)).
  destruct (decide (n <= length s)%nat).
  - exists 0%nat, (take n s). rewrite <- app_assoc, take_app_le by done. split; [done|]. right. by exists a, s, n.
  - destruct (IH (n - length (s ++ [10%Z]))%nat) as (k & p & E & Hp). exists (S k), p. rewrite firstn_cons.
    cbn [omap list_omap]. rewrite Es. cbn [fmap list_fmap concat]. split; [|done].
    rewrite take_app_ge by (rewrite length_app; cbn; lia). rewrite <- (app_assoc _ _ p). f_equal. exact E.
Qed.

(** Cutting the file cuts the list of rows. *)
Lemma read_cut l n : exists k, omap parse (lines (take n (terminated (omap print l)))) = take k l.
Proof.
  destruct (take_rows l n) as (k & p & E & Hp). rewrite E. destruct Hp as [->|(a & s & j & Ha & Es & ->)].
  { exists k. by rewrite app_nil_r, read_rows. }
  destruct (print_some a) as (s' & Es' & Hb & Hl & _). assert (s' = s) as -> by congruence.
  rewrite read_rows_tail by (intros (i & Hi & _)%elem_of_take; apply Hl; by eapply list_elem_of_lookup_2).
  destruct (decide (j < length s)%nat) as [Hj|Hj].
  - exists k. rewrite (print_prefix a s j Es Hj). cbn. destruct (take j s); apply app_nil_r.
  - exists (S k). rewrite (take_ge s) by lia. rewrite (take_S_r _ _ _ Ha), Hb. f_equal.
    destruct (print_brace a s Es) as [r ->]. by destruct r.
Qed.
End jsonl.
