(* ===== verification/Courier.v ===== *)
(** * The courier lane: what a stick carries

    The first half of [agentd/crates/plugins/src/courier.rs]: the key file, the
    marker that names a stick, the sealed lists of cargo and receipts, the names
    cargo may land under, and destinations as humans type them.  Third-party:
    TOML ([MarkerToml]), JSON ([EnvelopeJson], [JsonSlice], [EntriesJson]),
    base64 ([Base64]), the AEAD and the hash.  A file's content is [TextFile];
    random bytes are arguments. *)
From S2P Require Import Prelude Text Wire Replay Chunker Mandala.

(** ** Data *)

(** What [read_to_string] finds. *)
Inductive TextFile := Missing | Unreadable | Content (t : text).

Definition MAX_ARTIFACT_BYTES : Z := 256 * 1024 * 1024.

Record Marker := mkMarker { mk_version : Z; mk_name : text; mk_stick_id : option text }.

Record ManifestEntry := mkEntry {
  me_root : text; me_len : Z; me_name : text; me_class : text; me_origin : text; me_dest : text;
  me_epoch : Z; me_created_at : text; me_shipment_id : text
}.

Record Receipt := mkCourierReceipt {
  rc_root : text; rc_node : text; rc_accepted : bool; rc_at : text; rc_shipment_id : text
}.

#[export] Instance TextFile_eq_dec : EqDecision TextFile.
Proof. solve_decision. Defined.
#[export] Instance ManifestEntry_eq_dec : EqDecision ManifestEntry.
Proof. solve_decision. Defined.
#[export] Instance Receipt_eq_dec : EqDecision Receipt.
Proof. solve_decision. Defined.

(** toml: [version] as an integer, [name] and [stick_id] as strings, of a table. *)
Class MarkerToml := { marker_of_toml : text -> option (option Z * option text * option text) }.

(** serde_json on the envelope [{"v":1,"nonce":..,"ct":..}]: how it prints, and
    the three fields read back as an integer and two strings. *)
Class EnvelopeJson := {
  envelope_text : text -> text -> text;
  envelope_parse : text -> option (option Z * option text * option text)
}.
Class EnvelopeJsonLaws `{!EnvelopeJson} : Prop := {
  envelope_back n c : envelope_parse (envelope_text n c) = Some (Some 1, Some n, Some c)
}.

(** base64, the standard alphabet. *)
Class Base64 := { b64_std : bytes -> text; b64_std_decode : text -> option bytes }.
Class Base64Laws `{!Base64} : Prop := { b64_back b : b64_std_decode (b64_std b) = Some b }.

(** serde_json: a value as bytes. *)
Class JsonSlice (V : Type) := { json_to_vec : V -> option bytes; json_from_slice : bytes -> option V }.
Class JsonSliceLaws (V : Type) `{!JsonSlice V} : Prop := {
  json_vec_back v b : json_to_vec v = Some b -> json_from_slice b = Some v
}.

(** [{ "entries": [..] }] as a value, and its [entries] decoded. *)
Class EntriesJson (V T : Type) := { entries_value : list T -> V; value_entries : V -> option (list T) }.
Class EntriesJsonLaws (V T : Type) `{!EntriesJson V T} : Prop := {
  entries_back l : value_entries (entries_value l) = Some l
}.

Inductive SealError :=
  | EncodeFailed | SealFailed
  | EnvelopeNotJson | UnknownVersion | BadNonce | BadNonceHex | BadCt | AuthFailed | PayloadNotJson.
Inductive ListError := ListRead | ListSealed (e : SealError) | ListDecode | ListMkdir | ListWrite.

(** ** Hexadecimal *)

(** [{:02x}] of every byte: [hex32], the stick id and the nonce. *)
Definition hex_bytes (b : bytes) : text := concat (hex2 <$> b).
Definition hex32 (b : bytes) : text := hex_bytes b.

Definition hex_digit (c : Z) : option Z :=
  if (48 <=? c) && (c <=? 57) then Some (c - 48)
  else if (97 <=? c) && (c <=? 102) then Some (c - 87)
  else if (65 <=? c) && (c <=? 70) then Some (c - 55)
  else None.

(** [u8::from_str_radix(s, 16)] of two bytes: a leading [+] is allowed. *)
Definition hex_pair (a b : Z) : option Z :=
  if a =? 43 then hex_digit b
  else x ← hex_digit a; y ← hex_digit b; Some (16 * x + y).

Fixpoint hex_pairs (s : bytes) : option bytes :=
  match s with
  | [] => Some []
  | a :: b :: r => x ← hex_pair a b; l ← hex_pairs r; Some (x :: l)
  | [_] => None
  end.

(** ** The key *)

(** 64 bytes; [hex.get(..)?] is [None] inside a character, and so is a pair
    that is not hexadecimal. *)
Definition load_psk (file : option text) : option Psk :=
  raw ← file;
  let hex := trim raw in
  if negb (str_len hex =? 64) then None else mkPsk <$> hex_pairs (as_bytes hex).

(** ** The marker *)

Section marker.
Context `{!MarkerToml}.

Definition parse_marker (s : text) : option Marker :=
  '(version, name, stick_id) ← marker_of_toml s;
  let id := trim <$> stick_id in
  Some (mkMarker (default 1 version) (default [] name)
          (match id with Some (_ :: _) => id | _ => None end)).

Definition mint_stick_id (random : bytes) : text := hex_bytes random.

Definition is_version_line (line : text) : bool :=
  starts_with (chars "version") (trim_start line) && bool_decide (61 ∈ line).

Definition quoted (s : text) : text := 34 :: s ++ [34].

Definition identity_lines (stick_id node now_iso : text) : list text :=
  [ utf8_lossy (chars "# v2 courier identity — minted on plug by ") ++ node
      ++ utf8_lossy (chars " (docs/apexnet.md §7); never edit.");
    chars "stick_id  = " ++ quoted stick_id;
    chars "minted_by = " ++ quoted node;
    chars "minted_at = " ++ quoted now_iso ].

Definition upgraded_marker (existing stick_id node now_iso : text) : text :=
  terminated ((fun l => if is_version_line l then chars "version   = 2" else l) <$> lines existing)
  ++ terminated (identity_lines stick_id node now_iso).

Inductive MarkerError := MarkerRead | MarkerParse | MarkerWrite.

(** A file replaced by [std::fs::write]: its new content, and the answer. *)
Definition put_text (w : FsWrite) (new : text) (old : option text) : option text * bool :=
  match w with
  | WroteAll => (Some new, true)
  | WroteNone => (old, false)
  | WroteCut n => (Some (take n new), false)
  end.

Definition ensure_stick_id (w : FsWrite) (random : bytes) (node now_iso : text) (marker : option text)
    : option text * result text MarkerError :=
  match marker with
  | None => (marker, Err MarkerRead)
  | Some raw =>
      match parse_marker raw with
      | None => (marker, Err MarkerParse)
      | Some (mkMarker _ _ (Some id)) => (marker, Ok id)
      | Some (mkMarker _ _ None) =>
          let id := mint_stick_id random in
          let '(marker, ok) := put_text w (upgraded_marker raw id node now_iso) marker in
          (marker, if ok then Ok id else Err MarkerWrite)
      end
  end.
End marker.

(** ** The sealed envelope *)

Definition aad_for (stick_id domain : text) : bytes :=
  as_bytes (chars "apexos-courier:v1:" ++ domain ++ chars ":" ++ stick_id).

(** [&nonce_hex[i * 2..i * 2 + 2]] for the twelve pairs: [None] is the panic of
    a range that ends inside a character, [Some (Err _)] a pair that does not
    parse. *)
Fixpoint nonce_pairs (n : nat) (s : text) : option (result bytes SealError) :=
  match n with
  | O => Some (Ok [])
  | S n =>
      match s with
      | a :: r =>
          if len_utf8 a =? 2 then Some (Err BadNonceHex)
          else if negb (len_utf8 a =? 1) then None
          else
            match r with
            | b :: r =>
                if negb (len_utf8 b =? 1) then None
                else
                  match hex_pair a b with
                  | None => Some (Err BadNonceHex)
                  | Some x => rest ← nonce_pairs n r; Some (l <-! rest; Ok (x :: l))
                  end
            | [] => None
            end
      | [] => None
      end
  end.

Section sealed.
Context `{!AeadOps} `{!EnvelopeJson} `{!Base64} {V : Type} `{!JsonSlice V}.

Definition seal_json (psk : Psk) (nonce : bytes) (stick_id domain : text) (value : V) : result text SealError :=
  plain <-! ok_or (json_to_vec value) EncodeFailed;
  ct <-! map_err (fun _ => SealFailed) (seal_blob psk nonce (aad_for stick_id domain) plain);
  Ok (envelope_text (hex_bytes nonce) (b64_std ct)).

(** [None] is a panic. *)
Definition open_json (psk : Psk) (stick_id domain sealed : text) : option (result V SealError) :=
  match envelope_parse sealed with
  | None => Some (Err EnvelopeNotJson)
  | Some (v, nonce, ct) =>
      if negb (bool_decide (v = Some 1)) then Some (Err UnknownVersion)
      else
        let nonce_hex := default [] nonce in
        if negb (str_len nonce_hex =? 24) then Some (Err BadNonce)
        else
          nonce ← nonce_pairs 12 nonce_hex;
          Some (nonce <-! nonce;
                ct <-! ok_or (b64_std_decode (default [] ct)) BadCt;
                plain <-! map_err (fun _ => AuthFailed) (open_blob psk nonce (aad_for stick_id domain) ct);
                ok_or (json_from_slice plain) PayloadNotJson)
  end.

Section lists.
Context {T : Type} `{!EntriesJson V T}.

Definition read_sealed_list (psk : Psk) (stick_id domain : text) (file : TextFile) : option (result (list T) ListError) :=
  match file with
  | Missing => Some (Ok [])
  | Unreadable => Some (Err ListRead)
  | Content raw =>
      v ← open_json psk stick_id domain raw;
      Some (v <-! map_err ListSealed v; ok_or (value_entries v) ListDecode)
  end.

(** The directory is made first, then the file written. *)
Definition write_sealed_list (made : bool) (w : FsWrite) (psk : Psk) (nonce : bytes) (stick_id domain : text)
    (entries : list T) (file : TextFile) : TextFile * result unit ListError :=
  match seal_json psk nonce stick_id domain (entries_value entries) with
  | Err e => (file, Err (ListSealed e))
  | Ok sealed =>
      if negb made then (file, Err ListMkdir)
      else
        match w with
        | WroteAll => (Content sealed, Ok tt)
        | WroteNone => (file, Err ListWrite)
        | WroteCut n => (Content (take n sealed), Err ListWrite)
        end
  end.
End lists.

Context `{!EntriesJson V ManifestEntry} `{!EntriesJson V Receipt}.

Definition read_manifest (psk : Psk) (stick_id : text) (file : TextFile) : option (result (list ManifestEntry) ListError) :=
  read_sealed_list psk stick_id (chars "manifest") file.
Definition read_receipts (psk : Psk) (stick_id : text) (file : TextFile) : option (result (list Receipt) ListError) :=
  read_sealed_list psk stick_id (chars "receipts") file.
Definition write_manifest (made : bool) (w : FsWrite) (psk : Psk) (nonce : bytes) (stick_id : text)
    (entries : list ManifestEntry) (file : TextFile) : TextFile * result unit ListError :=
  write_sealed_list made w psk nonce stick_id (chars "manifest") entries file.
Definition write_receipts (made : bool) (w : FsWrite) (psk : Psk) (nonce : bytes) (stick_id : text)
    (receipts : list Receipt) (file : TextFile) : TextFile * result unit ListError :=
  write_sealed_list made w psk nonce stick_id (chars "receipts") receipts file.
End sealed.

(** ** Names *)

Inductive OriginError := OriginEmpty | OriginNotOne | OriginHidden | OriginTooLong | OriginIllegal.

Definition origin_char (c : Z) : bool := is_ascii_alphanumeric c || (c =? 45) || (c =? 95) || (c =? 46).

Definition safe_origin (origin : text) : result text OriginError :=
  let s := trim origin in
  if bool_decide (s = []) then Err OriginEmpty
  else if bool_decide (s = [46]) || bool_decide (s = [46; 46]) || bool_decide (47 ∈ s) || bool_decide (92 ∈ s)
  then Err OriginNotOne
  else if starts_with [46] s then Err OriginHidden
  else if 64 <? str_len s then Err OriginTooLong
  else if negb (forallb origin_char s) then Err OriginIllegal
  else Ok s.

(** [name.rsplit(['/', '\\']).next()]. *)
Fixpoint last_component (s : text) : text :=
  match s with
  | [] => []
  | c :: r => if existsb (fun c => (c =? 47) || (c =? 92)) s then last_component r else s
  end.

Definition name_char (c : Z) : bool := origin_char c || (c =? 32).

Fixpoint trim_dots (s : text) : text :=
  match s with c :: r => if c =? 46 then trim_dots r else s | [] => [] end.

(** Called with a root of hexadecimal digits, whose characters are bytes. *)
Definition safe_name (name root : text) : text :=
  let clean := trim_dots (trim (List.filter name_char (last_component name))) in
  if bool_decide (clean = []) then chars "cargo-" ++ take 12 root else clean.

(** [Path::join] on the text of paths. *)
Definition join (base p : text) : text :=
  if starts_with [47] p then p
  else if bool_decide (base = []) || ends_with [47] base then base ++ p else base ++ 47 :: p.

(** ** Destinations *)

Inductive DestResolution :=
  | Exact (id : text) | Resolved (id : text) | Ambiguous (ids : list text) | Unknown.

Definition normalize (s : text) : text := to_ascii_lowercase (List.filter is_ascii_alphanumeric s).

Fixpoint any_char (n : Z) (hay : text) : option text :=
  match hay with [] => None | c :: r => if c =? n then Some r else any_char n r end.

Fixpoint is_subsequence (needle hay : text) : bool :=
  match needle with
  | [] => true
  | n :: r => match any_char n hay with Some hay => is_subsequence r hay | None => false end
  end.

Definition pick (found : list text) (otherwise : DestResolution) : DestResolution :=
  match found with [] => otherwise | [p] => Resolved p | _ => Ambiguous found end.

Definition resolve_dest (query : text) (peers : list text) : DestResolution :=
  if existsb (fun p => bool_decide (p = query)) peers then Exact query
  else
    let nq := normalize query in
    if bool_decide (nq = []) then Unknown
    else
      pick (List.filter (fun p => bool_decide (normalize p = nq)) peers)
        (if 3 <=? str_len nq
         then pick (List.filter (fun p => is_subsequence nq (normalize p)) peers) Unknown
         else Unknown).

(** ** Lemmas: hexadecimal *)

Lemma hex_digit_nibble n : 0 <= n < 16 -> hex_digit (hex_nibble n) = Some n.
Proof.
  intros Hn. unfold hex_digit, hex_nibble.
  destruct (Z.ltb_spec n 10).
  - assert ((48 <=? 48 + n) && (48 + n <=? 57) = true) as -> by lia. f_equal. lia.
  - assert ((48 <=? 87 + n) && (87 + n <=? 57) = false) as -> by lia.
    assert ((97 <=? 87 + n) && (87 + n <=? 102) = true) as -> by lia. f_equal. lia.
Qed.

Lemma hex_nibble_range n : 0 <= n < 16 -> 48 <= hex_nibble n <= 102.
Proof. unfold hex_nibble. intros. destruct (Z.ltb_spec n 10); lia. Qed.

Lemma byte_nibbles b : is_u8 b -> 0 <= b / 16 < 16 /\ 0 <= b mod 16 < 16 /\ 16 * (b / 16) + b mod 16 = b.
Proof.
  intros Hb. pose proof (Z.div_mod b 16). pose proof (Z.mod_pos_bound b 16).
  ulia.
Qed.

Lemma hex_pair_byte b : is_u8 b -> hex_pair (hex_nibble (b / 16)) (hex_nibble (b mod 16)) = Some b.
Proof.
  intros (H1 & H2 & E)%byte_nibbles. unfold hex_pair.
  pose proof (hex_nibble_range _ H1). assert ((hex_nibble (b / 16) =? 43) = false) as -> by lia.
  rewrite !hex_digit_nibble by done. cbn. f_equal. exact E.
Qed.

Lemma hex_bytes_cons x b : hex_bytes (x :: b) = hex_nibble (x / 16) :: hex_nibble (x mod 16) :: hex_bytes b.
Proof. done. Qed.

Lemma hex_bytes_ascii b : is_bytes b -> Forall (fun c => 48 <= c <= 102) (hex_bytes b).
Proof.
  induction 1 as [|x b Hx _ IH]; [constructor|]. rewrite hex_bytes_cons.
  destruct (byte_nibbles x Hx) as (H1 & H2 & _). repeat constructor; [apply hex_nibble_range..|]; done.
Qed.

Lemma len_utf8_ascii c : 0 <= c < 128 -> len_utf8 c = 1.
Proof. intros. unfold len_utf8. assert ((c <? 128) = true) as -> by lia. done. Qed.

Lemma str_len_hex b : is_bytes b -> str_len (hex_bytes b) = 2 * zlen b.
Proof.
  induction 1 as [|x b Hx _ IH]; [done|]. rewrite hex_bytes_cons. cbn [str_len]. rewrite IH, zlen_cons.
  destruct (byte_nibbles x Hx) as (H1%hex_nibble_range & H2%hex_nibble_range & _).
  rewrite !len_utf8_ascii by lia. lia.
Qed.

Lemma hex_pairs_back b : is_bytes b -> hex_pairs (hex_bytes b) = Some b.
Proof.
  induction 1 as [|x b Hx _ IH]; [done|]. rewrite hex_bytes_cons. cbn [hex_pairs].
  rewrite hex_pair_byte by done. cbn. by rewrite IH.
Qed.

Lemma nonce_pairs_back b : is_bytes b -> nonce_pairs (length b) (hex_bytes b) = Some (Ok b).
Proof.
  induction 1 as [|x b Hx _ IH]; [done|]. rewrite hex_bytes_cons. cbn [length nonce_pairs].
  destruct (byte_nibbles x Hx) as (H1%hex_nibble_range & H2%hex_nibble_range & _).
  rewrite !len_utf8_ascii by lia. cbn. rewrite hex_pair_byte by done. by rewrite IH.
Qed.

Lemma hex_bytes_inj a b : is_bytes a -> is_bytes b -> hex_bytes a = hex_bytes b -> a = b.
Proof. intros Ha%hex_pairs_back Hb%hex_pairs_back E. rewrite E in Ha. congruence. Qed.

Lemma as_bytes_ascii s : Forall (fun c => 0 <= c < 128) s -> as_bytes s = s.
Proof.
  induction 1 as [|c s Hc _ IH]; [done|]. unfold as_bytes in *. cbn [fmap list_fmap concat]. rewrite IH.
  unfold utf8_char. assert ((c <? 128) = true) as -> by lia. done.
Qed.

(** ** The envelope: what is sealed for a slot opens in that slot *)

Section laws.
Context `{AeadLaws} `{EnvelopeJsonLaws} `{Base64Laws} {V : Type} `{JsonSliceLaws V}.

Lemma seal_json_opens psk nonce s d (v : V) t :
  is_bytes nonce -> length nonce = 12%nat ->
  seal_json psk nonce s d v = Ok t -> open_json psk s d t = Some (Ok v).
Proof.
  intros Hn Hl. unfold seal_json, seal_blob.
  destruct (json_to_vec v) as [p|] eqn:Ep; cbn; [|done].
  destruct (aead_encrypt _ _ _ _) as [ct|] eqn:Ec; cbn; [|done]. intros [= <-].
  unfold open_json. rewrite envelope_back. rewrite bool_decide_true by done. cbn [negb]. change (default [] (Some (hex_bytes nonce))) with (hex_bytes nonce).
  rewrite str_len_hex by done. unfold zlen. rewrite Hl. cbn [negb Z.of_nat]. change (2 * 12) with 24.
  rewrite Z.eqb_refl. cbn [negb]. rewrite <- Hl, nonce_pairs_back by done. cbn.
  rewrite b64_back. cbn. unfold open_blob. rewrite (aead_roundtrip _ _ _ _ _ Ec). cbn.
  by rewrite (json_vec_back _ _ Ep).
Qed.

Lemma sealed_list_reads_back {T} `{EntriesJsonLaws V T} psk nonce s d (l : list T) f f' made w :
  is_bytes nonce -> length nonce = 12%nat ->
  write_sealed_list made w psk nonce s d l f = (f', Ok tt) -> read_sealed_list psk s d f' = Some (Ok l).
Proof.
  intros Hn Hl. unfold write_sealed_list.
  destruct (seal_json psk nonce s d (entries_value l)) as [t|] eqn:Et; [|done].
  destruct made; [|done]. destruct w; [|done|done]. cbn. intros [= <-].
  unfold read_sealed_list. rewrite (seal_json_opens _ _ _ _ _ _ Hn Hl Et). cbn.
  by rewrite entries_back.
Qed.
End laws.

(** ** Names stay one component *)

(** A directory entry: not hidden, not a parent, no separator. *)
Definition one_component (s : text) : Prop :=
  s <> [] /\ (47 ∉ s) /\ (92 ∉ s) /\ starts_with [46] s = false.

Lemma safe_origin_ok o s :
  safe_origin o = Ok s -> s = trim o /\ one_component s /\ str_len s <= 64 /\ forallb origin_char s = true.
Proof.
  unfold safe_origin. repeat case_bool_decide; cbn [orb]; try done.
  destruct (starts_with [46] (trim o)) eqn:Es; [done|].
  destruct (Z.ltb_spec 64 (str_len (trim o))); [done|].
  destruct (forallb origin_char (trim o)) eqn:Ef; cbn; [|done]. intros [= <-]. done.
Qed.

Lemma trim_dots_suffix s : exists p, s = p ++ trim_dots s.
Proof.
  induction s as [|c s [p IH]]; cbn; [by exists []|].
  destruct (c =? 46); [|by exists []]. exists (c :: p). cbn. by f_equal.
Qed.

Lemma trim_dots_no_dot s : starts_with [46] (trim_dots s) = false.
Proof.
  induction s as [|c s IH]; [done|]. cbn [trim_dots]. destruct (Z.eqb_spec c 46) as [|Hne]; [done|].
  cbn [starts_with]. by destruct (Z.eqb_spec 46 c).
Qed.

Lemma safe_name_chars name root c :
  c ∈ safe_name name root -> name_char c = true \/ c ∈ take 12 root.
Proof.
  unfold safe_name. case_bool_decide.
  - intros Hc%elem_of_app. destruct Hc as [Hc|Hc]; [left|by right]. revert c Hc. apply Forall_forall. repeat constructor.
  - intros Hc. left. destruct (trim_dots_suffix (trim (List.filter name_char (last_component name)))) as [p E].
    assert (c ∈ trim (List.filter name_char (last_component name))) as Hin by (rewrite E; set_solver).
    apply trim_subset, list_elem_of_In, filter_In in Hin. apply Hin.
Qed.

Lemma safe_name_one_component name root :
  Forall (fun c => 48 <= c <= 102 /\ c <> 92) (take 12 root) -> one_component (safe_name name root).
Proof.
  intros Hr. rewrite Forall_forall in Hr. split_and!.
  - unfold safe_name. case_bool_decide; done.
  - intros [Hc|Hc]%safe_name_chars; [done|]. destruct (Hr 47 Hc). lia.
  - intros [Hc|Hc]%safe_name_chars; [done|]. destruct (Hr 92 Hc). lia.
  - unfold safe_name. case_bool_decide; [done|]. apply trim_dots_no_dot.
Qed.

(** ** Destinations *)

(** What a query that is not a registered id stands for. *)
Definition alias_of (query p : text) : Prop := normalize p = normalize query.
Definition abbreviation_of (query p : text) : Prop :=
  3 <= str_len (normalize query) /\ normalize query `sublist_of` normalize p.

Lemma any_char_spec n hay :
  match any_char n hay with
  | Some r => exists p, hay = p ++ n :: r /\ n ∉ p
  | None => n ∉ hay
  end.
Proof.
  induction hay as [|c hay IH]; cbn [any_char]; [apply not_elem_of_nil|].
  destruct (Z.eqb_spec c n) as [->|Hne].
  - exists []. split; [done|apply not_elem_of_nil].
  - destruct (any_char n hay) as [r|].
    + destruct IH as (p & -> & Hp). exists (c :: p). set_solver.
    + set_solver.
Qed.

Lemma sublist_cons_inv (n : Z) r p h : n :: r `sublist_of` p ++ n :: h -> n ∉ p -> r `sublist_of` h.
Proof.
  induction p as [|x p IH]; cbn; intros Hs Hp.
  - inversion Hs; subst; [done|]. etransitivity; [|done]. by constructor.
  - inversion Hs; subst; [set_solver|]. apply IH; [done|set_solver].
Qed.

Lemma is_subsequence_spec needle hay : is_subsequence needle hay = true <-> needle `sublist_of` hay.
Proof.
  revert hay; induction needle as [|n r IH]; intros hay; cbn [is_subsequence].
  - split; [intros _; apply sublist_nil_l|done].
  - pose proof (any_char_spec n hay) as Hs. destruct (any_char n hay) as [h|].
    + destruct Hs as (p & -> & Hp). rewrite IH. split.
      * intros Hr. apply sublist_inserts_l. by constructor.
      * intros Hr. by eapply sublist_cons_inv.
    + split; [done|]. intros Hr. exfalso. apply Hs. eapply elem_of_sublist; [|exact Hr]. set_solver.
Qed.

Lemma existsb_query (peers : list text) (query : text) : existsb (fun p => bool_decide (p = query)) peers = bool_decide (query ∈ peers).
Proof.
  induction peers as [|p peers IH]; cbn [existsb]; [done|]. rewrite IH.
  repeat case_bool_decide; subst; try done; set_solver.
Qed.

(** [pick] on a filter: nothing, exactly one peer, or all of the several. *)
Lemma pick_filter (f : text -> bool) (P : text -> Prop) peers otherwise :
  (forall p, f p = true <-> P p) ->
  (pick (List.filter f peers) otherwise = otherwise /\ forall p, p ∈ peers -> ~ P p) \/
  (exists p, pick (List.filter f peers) otherwise = Resolved p /\ p ∈ peers /\ P p /\ forall q, q ∈ peers -> P q -> q = p) \/
  (pick (List.filter f peers) otherwise = Ambiguous (List.filter f peers) /\
   (2 <= length (List.filter f peers))%nat /\ forall p, p ∈ List.filter f peers <-> p ∈ peers /\ P p).
Proof.
  intros Hf. assert (forall p, p ∈ List.filter f peers <-> p ∈ peers /\ P p) as Hin.
  { intros p. by rewrite !list_elem_of_In, filter_In, Hf. }
  destruct (List.filter f peers) as [|p [|q l]] eqn:E; cbn [pick].
  - left. split; [done|]. intros p Hp HP. destruct (Hin p) as [_ []%not_elem_of_nil]; done.
  - right; left. exists p. destruct (Hin p) as [[H1 H2] _]; [set_solver|]. split_and!; try done.
    intros q Hq HQ. destruct (Hin q) as [_ Hq']; [done..|]. set_solver.
  - right; right. split_and!; [done|cbn; lia|done].
Qed.

(** A destination resolves to itself when it is registered; otherwise to the
    only peer that spells the same up to case and punctuation, or, when none
    does, to the only peer the query (of three characters or more) abbreviates;
    several candidates are all reported, and an unknown destination matches no
    peer in either way. *)
Theorem resolve_dest_correct (query : text) (peers : list text) :
  match resolve_dest query peers with
  | Exact id => id = query /\ query ∈ peers
  | Resolved id =>
      (query ∉ peers) /\ id ∈ peers /\
      ((alias_of query id /\ forall p, p ∈ peers -> alias_of query p -> p = id) \/
       ((forall p, p ∈ peers -> ~ alias_of query p) /\ abbreviation_of query id /\
        forall p, p ∈ peers -> abbreviation_of query p -> p = id))
  | Ambiguous ids =>
      (query ∉ peers) /\ (2 <= length ids)%nat /\
      ((forall p, p ∈ ids <-> p ∈ peers /\ alias_of query p) \/
       ((forall p, p ∈ peers -> ~ alias_of query p) /\ forall p, p ∈ ids <-> p ∈ peers /\ abbreviation_of query p))
  | Unknown =>
      (query ∉ peers) /\
      (normalize query = [] \/ forall p, p ∈ peers -> ~ alias_of query p /\ ~ abbreviation_of query p)
  end.
Proof.
  unfold resolve_dest. rewrite existsb_query. case_bool_decide as Hq; [done|].
  case_bool_decide as Hn; [by split; [|left]|].
  assert (forall p, bool_decide (normalize p = normalize query) = true <-> alias_of query p) as Ha
    by (intros p; apply bool_decide_eq_true).
  destruct (pick_filter _ (alias_of query) peers
    (if 3 <=? str_len (normalize query)
     then pick (List.filter (fun p => is_subsequence (normalize query) (normalize p)) peers) Unknown else Unknown) Ha)
    as [[-> Hno]|[(p & -> & Hp & HP & Hu)|(-> & Hl & Hin)]];
    [|by split_and!; [..|left]|by split_and!; [..|left]].
  destruct (Z.leb_spec 3 (str_len (normalize query))) as [H3|H3].
  - assert (forall p, is_subsequence (normalize query) (normalize p) = true <-> abbreviation_of query p) as Hb.
    { intros p. rewrite is_subsequence_spec. unfold abbreviation_of. naive_solver. }
    destruct (pick_filter _ (abbreviation_of query) peers Unknown Hb)
      as [[-> Hno']|[(p & -> & Hp & HP & Hu)|(-> & Hl & Hin)]].
    + split; [done|]. right. intros p Hp. split; [by apply Hno|by apply Hno'].
    + split_and!; [done..|]. right. done.
    + split_and!; [done..|]. right. done.
  - split; [done|]. right. intros p Hp. split; [by apply Hno|]. intros [? _]. lia.
Qed.

Example abbreviated : resolve_dest (chars "apex2") [chars "ApexOS-1"; chars "ApexOS-2"] = Resolved (chars "ApexOS-2").
Proof. vm_compute. reflexivity. Qed.

(** ** The key and the marker *)

Lemma load_psk_back key : is_bytes key -> length key = 32%nat -> load_psk (Some (hex_bytes key ++ [10])) = Some (mkPsk key).
Proof.
  intros Hk Hl. pose proof (hex_bytes_ascii key Hk) as Hasc. unfold load_psk. cbn [mbind option_bind].
  assert (trim (hex_bytes key ++ [10]) = hex_bytes key) as ->.
  { unfold trim, trim_end.
    assert (forall c s, 48 <= c <= 102 -> trim_start (c :: s) = c :: s) as Hns.
    { intros c s Hc. cbn [trim_start]. assert (is_whitespace c = false) as ->; [|done]. unfold is_whitespace. lia. }
    destruct (hex_bytes key) as [|x s] eqn:E.
    { apply (f_equal str_len) in E. rewrite str_len_hex in E by done. unfold zlen in E. rewrite Hl in E. done. }
    cbn [app]. rewrite Hns by (by inversion Hasc). rewrite app_comm_cons, rev_app_distr.
    change (rev [10] ++ rev (x :: s)) with (10 :: rev (x :: s)). cbn [trim_start]. change (is_whitespace 10) with true. cbn iota.
    destruct (rev (x :: s)) as [|y r] eqn:Er; [by apply (f_equal (@length Z)) in Er; rewrite length_rev in Er|].
    rewrite Hns; [by rewrite <- Er, rev_involutive|].
    rewrite Forall_forall in Hasc. apply Hasc, in_rev_text. rewrite Er. set_solver. }
  rewrite str_len_hex by done. unfold zlen. rewrite Hl. cbn [negb Z.of_nat]. change (2 * Z.of_nat 32 =? 64) with true. cbn [negb].
  rewrite as_bytes_ascii by (eapply Forall_impl; [exact Hasc|cbn; lia]).
  by rewrite hex_pairs_back.
Qed.

(** The upgraded marker has the old lines, the version line replaced, and then
    the identity; what [lines] does not keep is the carriage returns. *)
Lemma upgraded_marker_lines existing id node now :
  (10 ∉ id) -> (10 ∉ node) -> (10 ∉ now) ->
  lines (upgraded_marker existing id node now)
  = strip_cr <$> (((fun l => if is_version_line l then chars "version   = 2" else l) <$> lines existing)
                  ++ identity_lines id node now).
Proof.
  intros Hi Hn Ht. unfold upgraded_marker.
  assert (forall a b, terminated a ++ terminated b = terminated (a ++ b)) as ->
    by (intros; unfold terminated; by rewrite fmap_app, concat_app).
  apply lines_terminated, Forall_app. split.
  - apply Forall_fmap. eapply Forall_impl; [apply lines_no_newline|]. intros l Hl. cbn.
    destruct (is_version_line l); [|done]. apply not_elem_of_cons. vm_compute. set_solver.
  - unfold identity_lines, quoted.
    assert (forall p, forallb (fun c => negb (c =? 10)) p = true -> 10 ∉ p) as Hlit.
    { intros p Hp Hin. apply forallb_forall with (x := 10) in Hp; [done|by apply list_elem_of_In]. }
    repeat constructor; rewrite ?not_elem_of_app, ?not_elem_of_cons, ?not_elem_of_app; split_and!; try done;
      try (by apply Hlit); try (apply not_elem_of_cons; split; [done|apply not_elem_of_nil]).
Qed.

(** A CRLF marker comes back with LF. *)
Example crlf_lost :
  take 17 (upgraded_marker (chars "name = 1" ++ [13; 10]) [] [] []) = chars "name = 1" ++ [10] ++ take 8 (chars "# v2 courier").
Proof. vm_compute. reflexivity. Qed.
