(* ===== verification/CourierPlug.v ===== *)
(** * The courier lane: outbox, ledger and the plug of a stick

    The second half of [agentd/crates/plugins/src/courier.rs].  [CourierDisk] is what
    the node keeps (the outbox, the ledger of gossip, and the files of its
    workspace by path), [Stick] what the human carries.  Every operation holds
    the courier's lock from its first read to its last write, so each is one
    function; [drain_outbox_over_lan], which lets go of it while a file is
    sent, is given what happened meanwhile.  The outcomes of the writes are a
    list consumed in order ([next]; an exhausted list succeeds); an operation
    reads the clock once.  The stick is apart from the node's files (see
    [process_plug]).  Third-party: the JSON of a row and of the ledger. *)
From S2P Require Import Prelude Text Jsonl Wire Replay Chunker Mandala Courier.

(** ** Data *)

Record OutboxEntry := mkOutbox {
  ob_id : Z; ob_dest : text; ob_path : text; ob_name : text; ob_root : text; ob_len : Z; ob_created_at : text;
  ob_loaded_on : option text; ob_receipted_at : option text; ob_shipment_id : text
}.

Record HeardManifest := mkHeardManifest {
  hm_stick : text; hm_root : text; hm_origin : text; hm_dest : text; hm_len : Z; hm_epoch : Z; hm_name : text;
  hm_heard_at : text; hm_shipment_id : text
}.

Record HeardReceipt := mkHeardReceipt {
  hr_stick : text; hr_root : text; hr_node : text; hr_accepted : bool; hr_heard_at : text; hr_shipment_id : text
}.

Record Ledger := mkLedger { lg_manifests : list HeardManifest; lg_receipts : list HeardReceipt }.

#[export] Instance OutboxEntry_eq_dec : EqDecision OutboxEntry.
Proof. solve_decision. Defined.

(** A row on a line; the ledger as one value. *)
Class OutboxJson := {
  row_json : OutboxEntry -> option text;
  json_row : text -> option OutboxEntry;
  ledger_json : Ledger -> option text;
  json_ledger : text -> option Ledger
}.

(** A row prints on one line, an object, and reads back; nothing shorter than
    the whole object is JSON. *)
Class OutboxJsonLaws `{!OutboxJson} : Prop := {
  row_json_back e : row_json e ≫= json_row = Some e;
  row_json_line e s : row_json e = Some s -> 10 ∉ s;
  row_json_brace e s : row_json e = Some s -> exists r, s = r ++ [125];
  row_json_prefix e s n : row_json e = Some s -> (n < length s)%nat -> json_row (take n s) = None;
  ledger_json_back l : ledger_json l ≫= json_ledger = Some l
}.

Record Stick := mkStick {
  sk_marker : option text;
  sk_manifest : TextFile;
  sk_receipts : TextFile;
  sk_cargo : gmap text bytes
}.

Record CourierDisk := mkCourierDisk {
  nd_outbox : option text;
  nd_ledger : option text;
  nd_files : gmap text bytes
}.

Definition with_outbox (f : option text) (d : CourierDisk) : CourierDisk := mkCourierDisk f (nd_ledger d) (nd_files d).
Definition with_ledger (f : option text) (d : CourierDisk) : CourierDisk := mkCourierDisk (nd_outbox d) f (nd_files d).
Definition with_files (f : gmap text bytes) (d : CourierDisk) : CourierDisk := mkCourierDisk (nd_outbox d) (nd_ledger d) f.

Definition with_receipted (at_ : text) (e : OutboxEntry) : OutboxEntry :=
  mkOutbox (ob_id e) (ob_dest e) (ob_path e) (ob_name e) (ob_root e) (ob_len e) (ob_created_at e)
    (ob_loaded_on e) (Some at_) (ob_shipment_id e).
Definition with_loaded_on (stick : text) (e : OutboxEntry) : OutboxEntry :=
  mkOutbox (ob_id e) (ob_dest e) (ob_path e) (ob_name e) (ob_root e) (ob_len e) (ob_created_at e)
    (Some stick) (ob_receipted_at e) (ob_shipment_id e).
Definition with_content (root : text) (len : Z) (e : OutboxEntry) : OutboxEntry :=
  mkOutbox (ob_id e) (ob_dest e) (ob_path e) (ob_name e) root len (ob_created_at e)
    (ob_loaded_on e) (ob_receipted_at e) (ob_shipment_id e).
Definition with_shipment (id : text) (e : OutboxEntry) : OutboxEntry :=
  mkOutbox (ob_id e) (ob_dest e) (ob_path e) (ob_name e) (ob_root e) (ob_len e) (ob_created_at e)
    (ob_loaded_on e) (ob_receipted_at e) id.

(** The outcome of the next file operation. *)
Definition next (io : list FsWrite) : FsWrite * list FsWrite :=
  match io with [] => (WroteAll, []) | w :: io => (w, io) end.
Definition done_all (w : FsWrite) : bool := match w with WroteAll => true | _ => false end.

Definition shipment_id_for (dest : text) (id : Z) : text := dest ++ 58 :: dec_text id.

(** ** The outbox *)

Section outbox.
Context `{!OutboxJson}.

Definition outbox_load (file : option text) : list OutboxEntry :=
  match file with Some s => omap json_row (lines s) | None => [] end.

(** The directory is made, then the file is written in place. *)
Definition save_text (io : list FsWrite) (new : option text) (old : option text) : option text * list FsWrite * bool :=
  match new with
  | None => (old, io, false)
  | Some new =>
      let '(made, io) := next io in
      if negb (done_all made) then (old, io, false)
      else let '(w, io) := next io in let '(file, ok) := put_text w new old in (file, io, ok)
  end.

Definition outbox_save (io : list FsWrite) (entries : list OutboxEntry) (file : option text) : option text * list FsWrite * bool :=
  save_text io (terminated <$> mapM row_json entries) file.

Inductive QueueError := SourceMissing | NotRegular | TooBig (len : Z) | SourceRead | OutboxWrite.

Definition max_id (entries : list OutboxEntry) : Z := foldr Z.max 0 (ob_id <$> entries).

(** [meta]: whether the source is a regular file, and its length; [content]:
    its bytes when it is read. *)
Definition queue_artifact `{!HashOps} (io : list FsWrite) (now : text) (meta : option (bool * Z)) (content : option bytes)
    (abs_path dest_node name : text) (d : CourierDisk) : CourierDisk * result OutboxEntry QueueError :=
  match meta with
  | None => (d, Err SourceMissing)
  | Some (false, _) => (d, Err NotRegular)
  | Some (true, len) =>
      if MAX_ARTIFACT_BYTES <? len then (d, Err (TooBig len))
      else
        match content with
        | None => (d, Err SourceRead)
        | Some b =>
            let root := hex32 (blob_root b) in
            let entries := outbox_load (nd_outbox d) in
            match List.find (fun e => bool_decide (ob_root e = root) && bool_decide (ob_dest e = dest_node)
                                      && is_noneb (ob_receipted_at e)) entries with
            | Some e => (d, Ok e)
            | None =>
                let id := inc64 (max_id entries) in
                let entry := mkOutbox id dest_node abs_path name root len now None None (shipment_id_for dest_node id) in
                let '(file, _, ok) := outbox_save io (entries ++ [entry]) (nd_outbox d) in
                (with_outbox file d, if ok then Ok entry else Err OutboxWrite)
            end
        end
  end.

Inductive CancelError := NoEntry (id : Z) | AlreadyDelivered (id : Z) (name : text) | CancelWrite.

(** The row taken out, and the stick that still carries a copy. *)
Definition outbox_cancel (io : list FsWrite) (id : Z) (d : CourierDisk) : CourierDisk * result (OutboxEntry * option text) CancelError :=
  let entries := outbox_load (nd_outbox d) in
  match position (fun e => ob_id e =? id) entries with
  | None => (d, Err (NoEntry id))
  | Some idx =>
      match entries !! idx with
      | None => (d, Err (NoEntry id))
      | Some entry =>
          if is_someb (ob_receipted_at entry) then (d, Err (AlreadyDelivered id (ob_name entry)))
          else
            let '(file, _, ok) := outbox_save io (delete idx entries) (nd_outbox d) in
            (with_outbox file d, if ok then Ok (entry, ob_loaded_on entry) else Err CancelWrite)
      end
  end.

(** ** The ledger of gossip *)

Definition ledger_load (file : option text) : Ledger := default (mkLedger [] []) (file ≫= json_ledger).

Definition ledger_save (io : list FsWrite) (l : Ledger) (file : option text) : option text * list FsWrite * bool :=
  save_text io (ledger_json l) file.

Definition ledger_hear_manifest (io : list FsWrite) (m : HeardManifest) (d : CourierDisk) : CourierDisk * bool :=
  let ledger := ledger_load (nd_ledger d) in
  if existsb (fun x => bool_decide (hm_stick x = hm_stick m) && bool_decide (hm_root x = hm_root m)
                       && bool_decide (hm_dest x = hm_dest m) && bool_decide (hm_shipment_id x = hm_shipment_id m))
       (lg_manifests ledger)
  then (d, false)
  else
    let '(file, _, _) := ledger_save io (mkLedger (lg_manifests ledger ++ [m]) (lg_receipts ledger)) (nd_ledger d) in
    (with_ledger file d, true).

Definition receipt_closes_outbox (e : OutboxEntry) (shipment_id dest stick root : text) : bool :=
  if is_someb (ob_receipted_at e) then false
  else if negb (bool_decide (ob_dest e = dest)) then false
  else if bool_decide (ob_shipment_id e = []) || bool_decide (shipment_id = [])
          || negb (bool_decide (ob_shipment_id e = shipment_id)) then false
  else if negb (bool_decide (root = [])) && negb (bool_decide (ob_root e = root)) then false
  else
    match ob_loaded_on e with
    | Some on => negb (negb (bool_decide (stick = [])) && negb (bool_decide (on = stick)))
    | None => true
    end.

(** The loop over the rows: the rows after it, and the name of the last closed. *)
Definition close_heard (r : HeardReceipt) (entries : list OutboxEntry) : list OutboxEntry * option text :=
  let closes e := receipt_closes_outbox e (hr_shipment_id r) (hr_node r) (hr_stick r) (hr_root r) in
  ((fun e => if closes e then with_receipted (hr_heard_at r) e else e) <$> entries,
   ob_name <$> last (List.filter closes entries)).

Definition ledger_hear_receipt (io : list FsWrite) (r : HeardReceipt) (d : CourierDisk) : CourierDisk * (bool * option text) :=
  let ledger := ledger_load (nd_ledger d) in
  let news := negb (existsb (fun x => bool_decide (hr_stick x = hr_stick r) && bool_decide (hr_root x = hr_root r)
                                      && bool_decide (hr_node x = hr_node r)
                                      && bool_decide (hr_shipment_id x = hr_shipment_id r)) (lg_receipts ledger)) in
  let '(lfile, io, _) :=
    if news then ledger_save io (mkLedger (lg_manifests ledger) (lg_receipts ledger ++ [r])) (nd_ledger d)
    else (nd_ledger d, io, true) in
  let d := with_ledger lfile d in
  if hr_accepted r then
    let '(rows, delivered) := close_heard r (outbox_load (nd_outbox d)) in
    let '(file, _, _) := if is_someb delivered then outbox_save io rows (nd_outbox d) else (nd_outbox d, io, true) in
    (with_outbox file d, (news, delivered))
  else (d, (news, None)).
End outbox.

(** ** The plug of a stick *)

Inductive PlugGossip :=
  | GossipReceipt (target stick root node : text) (accepted : bool) (shipment_id : text)
  | GossipManifest (target stick root origin dest : text) (len epoch : Z) (name shipment_id : text).

Definition gossip_target (g : PlugGossip) : text :=
  match g with GossipReceipt t _ _ _ _ _ => t | GossipManifest t _ _ _ _ _ _ _ _ => t end.

(** Why cargo was not ingested, and why a row was not loaded. *)
Inductive IngestError := BadOrigin (e : OriginError) | CargoRead | RootDiffers | IncomingMkdir | IncomingWrite.
Inductive LoadError := LoadSource | CargoMkdir | CargoWrite.

Inductive PlugNote :=
  | StickIdentity (e : MarkerError) | NoColonyPsk | SourceChanged (name : text) | LoadFailed (name : text) (e : LoadError)
  | ManifestWrite (e : ListError) | ReceiptsWrite (e : ListError).

Inductive SealedError := SealedManifest (e : ListError) | SealedReceipts (e : ListError).

Record PlugReport := mkReport {
  pr_stick_id : option text;
  pr_psk_missing : bool;
  pr_sealed_error : option SealedError;
  pr_verified : list (text * text);
  pr_failed : list (text * IngestError);
  pr_already : Z;
  pr_announced_matched : Z;
  pr_unannounced : Z;
  pr_loaded : list (text * text);
  pr_receipts_matched : Z;
  pr_in_transit : Z;
  pr_notes : list PlugNote
}.

Definition default_report : PlugReport := mkReport None false None [] [] 0 0 0 [] 0 0 [].

Record PlugOutcome := mkPlug { po_report : PlugReport; po_gossip : list PlugGossip }.

(** The environment of one plug: the node, its workspace, the clock, the random
    bytes drawn, and what a root that is not one path component would name. *)
Record PlugEnv := mkPlugEnv {
  pe_node : text;
  pe_workspace : text;
  pe_now : text;
  pe_epoch : Z;
  pe_random : bytes;
  pe_manifest_nonce : bytes;
  pe_receipts_nonce : bytes;
  pe_stray : text -> option bytes
}.

(** [mount/apexos-courier/cargo/<root>], the root as the manifest spells it. *)
Definition path_component (s : text) : bool :=
  negb (bool_decide (s = [])) && negb (bool_decide (s = [46])) && negb (bool_decide (s = [46; 46]))
  && negb (bool_decide (47 ∈ s)) && negb (bool_decide (0 ∈ s)).

Definition cargo_read (env : PlugEnv) (cargo : gmap text bytes) (root : text) : option bytes :=
  if path_component root then cargo !! root else pe_stray env root.

Definition incoming_path (workspace origin name : text) : text :=
  join (join (join (join workspace (chars "courier")) (chars "incoming")) origin) name.

Section plug.
Context `{!OutboxJson} `{!HashOps}.

(** The closure that verifies one entry. *)
Definition ingest_cargo (env : PlugEnv) (cargo : gmap text bytes) (e : ManifestEntry) (files : gmap text bytes)
    (io : list FsWrite) : gmap text bytes * list FsWrite * result unit IngestError :=
  match safe_origin (me_origin e) with
  | Err x => (files, io, Err (BadOrigin x))
  | Ok origin =>
      match cargo_read env cargo (me_root e) with
      | None => (files, io, Err CargoRead)
      | Some b =>
          if negb (bool_decide (hex32 (blob_root b) = me_root e)) then (files, io, Err RootDiffers)
          else
            let '(made, io) := next io in
            if negb (done_all made) then (files, io, Err IncomingMkdir)
            else
              let path := incoming_path (pe_workspace env) origin (safe_name (me_name e) (me_root e)) in
              let '(w, io) := next io in
              match w with
              | WroteAll => (<[path := b]> files, io, Ok tt)
              | WroteNone => (files, io, Err IncomingWrite)
              | WroteCut n => (<[path := take n b]> files, io, Err IncomingWrite)
              end
      end
  end.

(** A receipt of this node already answers for the entry. *)
Definition answers_for (node : text) (e : ManifestEntry) (r : Receipt) : bool :=
  bool_decide (rc_node r = node) && rc_accepted r
  && (if negb (bool_decide (rc_shipment_id r = [])) && negb (bool_decide (me_shipment_id e = []))
      then bool_decide (rc_shipment_id r = me_shipment_id e)
      else bool_decide (rc_root r = me_root e)).

Definition announced (stick_id : text) (e : ManifestEntry) (m : HeardManifest) : bool :=
  bool_decide (hm_stick m = stick_id) && bool_decide (hm_root m = me_root e)
  && (bool_decide (hm_shipment_id m = []) || bool_decide (me_shipment_id e = [])
      || bool_decide (hm_shipment_id m = me_shipment_id e)).

Record Ingest := mkIngest {
  in_receipts : list Receipt;
  in_files : gmap text bytes;
  in_io : list FsWrite;
  in_verified : list (text * text);
  in_failed : list (text * IngestError);
  in_already : Z;
  in_announced : Z;
  in_unannounced : Z;
  in_gossip : list PlugGossip;
  in_dirty : bool
}.

(** The loop body over the entries addressed to this node. *)
Definition ingest_entry (env : PlugEnv) (stick_id : text) (cargo : gmap text bytes) (ledger : Ledger) (st : Ingest)
    (e : ManifestEntry) : Ingest :=
  if existsb (answers_for (pe_node env) e) (in_receipts st)
  then mkIngest (in_receipts st) (in_files st) (in_io st) (in_verified st) (in_failed st) (in_already st + 1)
         (in_announced st) (in_unannounced st) (in_gossip st) (in_dirty st)
  else
    let known := existsb (announced stick_id e) (lg_manifests ledger) in
    let '(files, io, verdict) := ingest_cargo env cargo e (in_files st) (in_io st) in
    let accepted := is_ok verdict in
    mkIngest
      (in_receipts st ++ [mkCourierReceipt (me_root e) (pe_node env) accepted (pe_now env) (me_shipment_id e)])
      files io
      (match verdict with Ok _ => in_verified st ++ [(me_name e, me_origin e)] | Err _ => in_verified st end)
      (match verdict with Ok _ => in_failed st | Err x => in_failed st ++ [(me_name e, x)] end)
      (in_already st)
      (if known then in_announced st + 1 else in_announced st)
      (if known then in_unannounced st else in_unannounced st + 1)
      (in_gossip st ++ match safe_origin (me_origin e) with
                       | Ok origin => [GossipReceipt origin stick_id (me_root e) (pe_node env) accepted (me_shipment_id e)]
                       | Err _ => []
                       end)
      true.

Definition for_node (node : text) (e : ManifestEntry) : bool := bool_decide (me_dest e = node).

Definition ingest_all (env : PlugEnv) (stick_id : text) (cargo : gmap text bytes) (ledger : Ledger)
    (manifest : list ManifestEntry) (st : Ingest) : Ingest :=
  foldl (ingest_entry env stick_id cargo ledger) st (List.filter (for_node (pe_node env)) manifest).

(** Receipts riding home: each accepted one against every row. *)
Definition close_row (stick_id : text) (r : Receipt) (e : OutboxEntry) : OutboxEntry :=
  if receipt_closes_outbox e (rc_shipment_id r) (rc_node r) stick_id (rc_root r) then with_receipted (rc_at r) e else e.

Definition closes_row (stick_id : text) (r : Receipt) (e : OutboxEntry) : bool :=
  receipt_closes_outbox e (rc_shipment_id r) (rc_node r) stick_id (rc_root r).

Definition close_by (stick_id : text) (st : list OutboxEntry * Z) (r : Receipt) : list OutboxEntry * Z :=
  (close_row stick_id r <$> fst st, snd st + zlen (List.filter (closes_row stick_id r) (fst st))).

Definition close_rows (stick_id : text) (receipts : list Receipt) (rows : list OutboxEntry) : list OutboxEntry * Z :=
  foldl (close_by stick_id) (rows, 0) (List.filter rc_accepted receipts).

(** Loading: what the loop over the rows threads. *)
Record Loading := mkLoading {
  ld_manifest : list ManifestEntry;
  ld_manifest_dirty : bool;
  ld_cargo : gmap text bytes;
  ld_io : list FsWrite;
  ld_dirty : bool;
  ld_loaded : list (text * text);
  ld_notes : list PlugNote;
  ld_gossip : list PlugGossip
}.

Definition aboard (e : OutboxEntry) (m : ManifestEntry) : bool :=
  if negb (bool_decide (me_shipment_id m = [])) && negb (bool_decide (ob_shipment_id e = []))
  then bool_decide (me_shipment_id m = ob_shipment_id e)
  else bool_decide (me_root m = ob_root e) && bool_decide (me_dest m = ob_dest e).

(** The closure that puts one row's artifact aboard. *)
Definition load_cargo (env : PlugEnv) (files : gmap text bytes) (st : Loading) (e : OutboxEntry)
    : Loading * OutboxEntry * result unit LoadError :=
  match files !! ob_path e with
  | None => (st, e, Err LoadSource)
  | Some b =>
      let root := hex32 (blob_root b) in
      let changed := negb (bool_decide (root = ob_root e)) in
      let notes := if changed then ld_notes st ++ [SourceChanged (ob_name e)] else ld_notes st in
      let e := if changed then with_content root (zlen b) e else e in
      let '(made, io) := next (ld_io st) in
      let at_ cargo io dirty manifest mdirty := mkLoading manifest mdirty cargo io dirty (ld_loaded st) notes (ld_gossip st) in
      if negb (done_all made)
      then (at_ (ld_cargo st) io (ld_dirty st) (ld_manifest st) (ld_manifest_dirty st), e, Err CargoMkdir)
      else
        let '(cargo, io, wrote) :=
          match ld_cargo st !! ob_root e with
          | Some _ => (ld_cargo st, io, true)
          | None =>
              let '(w, io) := next io in
              match w with
              | WroteAll => (<[ob_root e := b]> (ld_cargo st), io, true)
              | WroteNone => (ld_cargo st, io, false)
              | WroteCut n => (<[ob_root e := take n b]> (ld_cargo st), io, false)
              end
          end in
        if negb wrote then (at_ cargo io (ld_dirty st) (ld_manifest st) (ld_manifest_dirty st), e, Err CargoWrite)
        else
          let stamp := bool_decide (ob_shipment_id e = []) in
          let e := if stamp then with_shipment (shipment_id_for (ob_dest e) (ob_id e)) e else e in
          let dirty := ld_dirty st || stamp in
          if existsb (aboard e) (ld_manifest st)
          then (at_ cargo io dirty (ld_manifest st) (ld_manifest_dirty st), e, Ok tt)
          else (at_ cargo io dirty
                  (ld_manifest st ++ [mkEntry (ob_root e) (ob_len e) (ob_name e) (chars "bulk") (pe_node env) (ob_dest e)
                                        (pe_epoch env) (pe_now env) (ob_shipment_id e)]) true, e, Ok tt)
  end.

Definition load_row (env : PlugEnv) (stick_id : text) (files : gmap text bytes) (st : Loading) (e : OutboxEntry)
    : Loading * OutboxEntry :=
  if is_someb (ob_receipted_at e) || bool_decide (ob_dest e = pe_node env) then (st, e)
  else
    let '(st, e, load) := load_cargo env files st e in
    match load with
    | Ok _ =>
        if bool_decide (ob_loaded_on e = Some stick_id) then (st, e)
        else
          let e := with_loaded_on stick_id e in
          (mkLoading (ld_manifest st) (ld_manifest_dirty st) (ld_cargo st) (ld_io st) true
             (ld_loaded st ++ [(ob_name e, ob_dest e)]) (ld_notes st)
             (ld_gossip st ++ [GossipManifest (ob_dest e) stick_id (ob_root e) (pe_node env) (ob_dest e) (ob_len e)
                                 (pe_epoch env) (ob_name e) (ob_shipment_id e)]), e)
    | Err x =>
        (mkLoading (ld_manifest st) (ld_manifest_dirty st) (ld_cargo st) (ld_io st) (ld_dirty st) (ld_loaded st)
           (ld_notes st ++ [LoadFailed (ob_name e) x]) (ld_gossip st), e)
    end.

Fixpoint load_rows (env : PlugEnv) (stick_id : text) (files : gmap text bytes) (st : Loading) (rows : list OutboxEntry)
    : Loading * list OutboxEntry :=
  match rows with
  | [] => (st, [])
  | e :: rows =>
      let '(st, e) := load_row env stick_id files st e in
      let '(st, rows) := load_rows env stick_id files st rows in
      (st, e :: rows)
  end.

Context `{!MarkerToml} `{!AeadOps} `{!EnvelopeJson} `{!Base64} {V : Type} `{!JsonSlice V}
  `{!EntriesJson V ManifestEntry} `{!EntriesJson V Receipt}.

(** The three numbered parts and the two writes, once both lists are read. *)
Definition plug_opened (env : PlugEnv) (io : list FsWrite) (psk : Psk) (stick_id : text) (manifest : list ManifestEntry)
    (receipts : list Receipt) (stick : Stick) (d : CourierDisk) : Stick * CourierDisk * PlugOutcome :=
  let ledger := ledger_load (nd_ledger d) in
  let st := ingest_all env stick_id (sk_cargo stick) ledger manifest
              (mkIngest receipts (nd_files d) io [] [] 0 0 0 [] false) in
  let in_transit := zlen (List.filter (fun e => negb (bool_decide (me_dest e = pe_node env))
                                               && negb (bool_decide (me_origin e = pe_node env))) manifest) in
  let d := with_files (in_files st) d in
  let '(rows, matched) := close_rows stick_id (in_receipts st) (outbox_load (nd_outbox d)) in
  let '(file, io, _) := if 0 <? matched then outbox_save (in_io st) rows (nd_outbox d) else (nd_outbox d, in_io st, true) in
  let d := with_outbox file d in
  let '(ld, rows) := load_rows env stick_id (nd_files d) (mkLoading manifest false (sk_cargo stick) io false [] [] [])
                       (outbox_load (nd_outbox d)) in
  let '(file, io, _) := if ld_dirty ld then outbox_save (ld_io ld) rows (nd_outbox d) else (nd_outbox d, ld_io ld, true) in
  let d := with_outbox file d in
  let '(mfile, io, mnotes) :=
    if ld_manifest_dirty ld then
      let '(made, io) := next io in
      let '(w, io) := next io in
      let '(f, r) := write_manifest (V := V) (done_all made) w psk (pe_manifest_nonce env) stick_id (ld_manifest ld) (sk_manifest stick) in
      (f, io, match r with Ok _ => [] | Err e => [ManifestWrite e] end)
    else (sk_manifest stick, io, []) in
  let '(rfile, rnotes) :=
    if in_dirty st then
      let '(made, io) := next io in
      let '(w, _) := next io in
      let '(f, r) := write_receipts (V := V) (done_all made) w psk (pe_receipts_nonce env) stick_id (in_receipts st) (sk_receipts stick) in
      (f, match r with Ok _ => [] | Err e => [ReceiptsWrite e] end)
    else (sk_receipts stick, []) in
  (mkStick (sk_marker stick) mfile rfile (ld_cargo ld), d,
   mkPlug (mkReport (Some stick_id) false None (in_verified st) (in_failed st) (in_already st) (in_announced st)
             (in_unannounced st) (ld_loaded ld) matched in_transit (ld_notes ld ++ mnotes ++ rnotes))
     (in_gossip st ++ ld_gossip ld)).

(** [None]: the thread panicked (a nonce that cannot be sliced).  The source's two
    directories, the mount and the workspace, are two arguments here as well.
    The daemon mounts the stick at [media/<label>] inside its workspace: the
    model is then that of rows whose source is not one of the stick's own files
    (its marker, its two lists, its cargo); any other file on the stick is among
    the node's files while it is plugged in. *)
Definition process_plug (env : PlugEnv) (io : list FsWrite) (psk : option Psk) (stick : Stick) (d : CourierDisk)
    : Stick * CourierDisk * option PlugOutcome :=
  let '(w, io) := match sk_marker stick ≫= parse_marker with
                  | Some (mkMarker _ _ None) => next io
                  | _ => (WroteAll, io)
                  end in
  let '(marker, id) := ensure_stick_id w (pe_random env) (pe_node env) (pe_now env) (sk_marker stick) in
  let stick := mkStick marker (sk_manifest stick) (sk_receipts stick) (sk_cargo stick) in
  match id with
  | Err e =>
      (stick, d, Some (mkPlug (mkReport None false None [] [] 0 0 0 [] 0 0 [StickIdentity e]) []))
  | Ok stick_id =>
      match psk with
      | None =>
          let notes := if bool_decide (sk_manifest stick = Missing) then [] else [NoColonyPsk] in
          (stick, d, Some (mkPlug (mkReport (Some stick_id) true None [] [] 0 0 0 [] 0 0 notes) []))
      | Some psk =>
          let unreadable e := mkPlug (mkReport (Some stick_id) false (Some e) [] [] 0 0 0 [] 0 0 []) [] in
          match read_manifest (V := V) psk stick_id (sk_manifest stick) with
          | None => (stick, d, None)
          | Some (Err e) => (stick, d, Some (unreadable (SealedManifest e)))
          | Some (Ok manifest) =>
              match read_receipts (V := V) psk stick_id (sk_receipts stick) with
              | None => (stick, d, None)
              | Some (Err e) => (stick, d, Some (unreadable (SealedReceipts e)))
              | Some (Ok receipts) =>
                  let '(stick, d, out) := plug_opened env io psk stick_id manifest receipts stick d in
                  (stick, d, Some out)
              end
          end
      end
  end.
End plug.

(** ** Draining over the LAN *)

Section drain.
Context `{!OutboxJson}.

(** The locked tail of one delivery. *)
Definition drain_mark (io : list FsWrite) (now : text) (id : Z) (d : CourierDisk) : CourierDisk :=
  let rows := outbox_load (nd_outbox d) in
  let rows := match position (fun e => ob_id e =? id) rows with
              | Some i => alter (with_receipted now) i rows
              | None => rows
              end in
  let '(file, _, _) := outbox_save io rows (nd_outbox d) in
  with_outbox file d.

(** For one row: is the destination a peer, did it answer yes, what the rest of
    the daemon did to the disk while the file was sent, and the writes. *)
Record DrainTurn := mkDrain { dr_peer : bool; dr_ok : bool; dr_meanwhile : CourierDisk -> CourierDisk; dr_io : list FsWrite }.

Definition drain_row (now : text) (entry : OutboxEntry) (t : DrainTurn) (d : CourierDisk) : CourierDisk * bool :=
  if is_someb (ob_receipted_at entry) then (d, false)
  else if negb (dr_peer t) then (d, false)
  else
    match nd_files d !! ob_path entry with
    | None => (d, false)
    | Some _ =>
        let d := dr_meanwhile t d in
        if dr_ok t then (drain_mark (dr_io t) now (ob_id entry) d, true) else (d, false)
    end.

Fixpoint drain_rows (now : text) (l : list (OutboxEntry * DrainTurn)) (d : CourierDisk) : CourierDisk * Z :=
  match l with
  | [] => (d, 0)
  | (entry, t) :: l =>
      let '(d, ok) := drain_row now entry t d in
      let '(d, n) := drain_rows now l d in
      (d, if ok then n + 1 else n)
  end.

(** The rows are those of the moment it starts. *)
Definition drain_outbox_over_lan (now : text) (turns : list DrainTurn) (d : CourierDisk) : CourierDisk * Z :=
  drain_rows now (zip (outbox_load (nd_outbox d)) turns) d.
End drain.

(** ** The notice and the status *)

Inductive NoticeLine :=
  | LineSealed (e : SealedError) | LineIngested (name origin : text) | LineFailed (name : text) (e : IngestError)
  | LineAlready (n : Z) | LineAnnounced (matched unannounced : Z) | LineReceipts (n : Z)
  | LineLoaded (name dest : text) | LineTransit (n : Z) | LineWarning (notes : list PlugNote) | LineNote (n : PlugNote).

Definition compose_plug_notice (r : PlugReport) : option (list NoticeLine) :=
  let lines :=
    match pr_sealed_error r with Some e => [LineSealed e] | None => [] end
    ++ ((fun '(n, o) => LineIngested n o) <$> pr_verified r)
    ++ ((fun '(n, e) => LineFailed n e) <$> pr_failed r)
    ++ (if 0 <? pr_already r then [LineAlready (pr_already r)] else [])
    ++ (if 0 <? pr_announced_matched r + pr_unannounced r
        then [LineAnnounced (pr_announced_matched r) (pr_unannounced r)] else [])
    ++ (if 0 <? pr_receipts_matched r then [LineReceipts (pr_receipts_matched r)] else [])
    ++ ((fun '(n, d) => LineLoaded n d) <$> pr_loaded r)
    ++ (if 0 <? pr_in_transit r then [LineTransit (pr_in_transit r)] else [])
    ++ (if pr_psk_missing r && negb (match pr_notes r with [] => true | _ => false end)
        then [LineWarning (pr_notes r)] else LineNote <$> pr_notes r) in
  match lines with [] => None | _ => Some lines end.

Inductive RowStatus := StatusWaiting | StatusOnStick (stick : text).

Record CourierStatus := mkStatus {
  cs_psk_present : bool;
  cs_pending : list (OutboxEntry * RowStatus);
  cs_delivered : Z;
  cs_inbound : list (HeardManifest * bool);
  cs_receipts_heard : Z
}.

Definition status_json `{!OutboxJson} (d : CourierDisk) (psk_present : bool) (node_id : text) : CourierStatus :=
  let outbox := outbox_load (nd_outbox d) in
  let ledger := ledger_load (nd_ledger d) in
  mkStatus psk_present
    ((fun e => (e, match ob_loaded_on e with Some s => StatusOnStick s | None => StatusWaiting end))
       <$> List.filter (fun e => is_noneb (ob_receipted_at e)) outbox)
    (zlen (List.filter (fun e => is_someb (ob_receipted_at e)) outbox))
    ((fun m => (m, existsb (fun r => bool_decide (hr_root r = hm_root m) && bool_decide (hr_node r = node_id)
                                     && hr_accepted r) (lg_receipts ledger)))
       <$> List.filter (fun m => bool_decide (hm_dest m = node_id)) (lg_manifests ledger))
    (zlen (lg_receipts ledger)).

(** Relaying the gossip: nothing to this node, nothing to a stranger, and for
    the rest the answer of the peer; what is returned is what failed. *)
Definition dispatch_gossip (node_id : text) (is_peer : text -> bool) (answer : PlugGossip -> bool) (l : list PlugGossip)
    : list PlugGossip * list PlugGossip :=
  let others := List.filter (fun g => negb (bool_decide (gossip_target g = node_id))) l in
  (List.filter (fun g => is_peer (gossip_target g)) others,
   List.filter (fun g => negb (is_peer (gossip_target g)) || negb (answer g)) others).

(** ** The files: what was saved is read back, a cut save is a prefix *)

Section saved.
Context `{OutboxJsonLaws}.
Implicit Types (rows : list OutboxEntry) (file : option text).

Lemma outbox_content rows : mapM row_json rows = Some (omap row_json rows).
Proof. apply (mapM_print row_json json_row); eauto using row_json_back, row_json_line, row_json_brace. Qed.

(** Rows that a save of [rows] over a file holding [old] may leave. *)
Definition saved_from (rows old got : list OutboxEntry) : Prop := got = old \/ exists k, got = take k rows.

Lemma outbox_save_load io rows file file' io' ok :
  outbox_save io rows file = (file', io', ok) ->
  saved_from rows (outbox_load file) (outbox_load file') /\
  (ok = true -> outbox_load file' = rows).
Proof.
  unfold outbox_save, save_text. rewrite outbox_content. cbn [fmap option_fmap option_map].
  destruct (next io) as [m io1]. destruct (done_all m); cbn; [|intros [= <- <- <-]; split; [by left|done]].
  destruct (next io1) as [w io2].
  assert (outbox_load (Some (terminated (omap row_json rows))) = rows) as Hall.
  { apply (read_rows row_json json_row); eauto using row_json_back, row_json_line, row_json_brace. }
  destruct w as [| |n]; cbn; intros [= <- <- <-].
  - split; [|done]. right. exists (length rows). rewrite Hall. by rewrite take_ge.
  - split; [by left|done].
  - split; [|done]. right. apply (read_cut row_json json_row); eauto using row_json_back, row_json_line, row_json_brace, row_json_prefix.
Qed.

Lemma saved_self rows got : saved_from rows rows got -> exists k, got = take k rows.
Proof. intros [->|[k ->]]; [|by exists k]. exists (length rows). by rewrite take_ge. Qed.
End saved.

(** ** One receipt closes one row *)

Lemma dec_text_u64_inj a b : is_u64 a -> is_u64 b -> dec_text a = dec_text b -> a = b.
Proof.
  intros Ha Hb E. pose proof (parse_trim_dec a Ha) as Pa. pose proof (parse_trim_dec b Hb) as Pb.
  rewrite E in Pa. congruence.
Qed.

(** A row as the operations make it: an id of its own, and a shipment id that is
    missing (an old row) or is the destination and that id. *)
Definition row_ok (bound : Z) (e : OutboxEntry) : Prop :=
  0 <= ob_id e <= bound /\ (ob_shipment_id e = [] \/ ob_shipment_id e = shipment_id_for (ob_dest e) (ob_id e)).
Definition rows_ok (bound : Z) (rows : list OutboxEntry) : Prop :=
  NoDup (ob_id <$> rows) /\ Forall (row_ok bound) rows.

Definition same_row (e e' : OutboxEntry) : Prop :=
  ob_id e' = ob_id e /\ ob_dest e' = ob_dest e /\
  (ob_shipment_id e' = ob_shipment_id e \/ ob_shipment_id e' = shipment_id_for (ob_dest e) (ob_id e)).

Lemma same_row_refl e : same_row e e.
Proof. split_and!; [done..|by left]. Qed.

Lemma rows_ok_same bound rows rows' : Forall2 same_row rows rows' -> rows_ok bound rows -> rows_ok bound rows'.
Proof.
  intros Hs [Hn Hr]. assert (ob_id <$> rows' = ob_id <$> rows) as E.
  { induction Hs as [|e e' l l' (Hi & _) _ IH]; [done|]. inversion Hn; inversion Hr; subst. cbn. f_equal; [done|by apply IH]. }
  split; [by rewrite E|]. clear Hn E. induction Hs as [|e e' l l' (Hi & Hd & Hsh) _ IH]; [constructor|].
  inversion Hr as [|? ? [Hb Ho] Hr']; subst. constructor; [|by apply IH]. split; [by rewrite Hi|]. rewrite Hi, Hd.
  destruct Hsh as [->| ->]; [done|by right].
Qed.

Lemma rows_ok_take bound k rows : rows_ok bound rows -> rows_ok bound (take k rows).
Proof.
  intros [Hn Hr]. split; [|by apply Forall_take]. rewrite fmap_take. eapply sublist_NoDup; [exact Hn|]. apply sublist_take.
Qed.

Lemma rows_ok_mono b b' rows : b <= b' -> rows_ok b rows -> rows_ok b' rows.
Proof. intros Hb [Hn Hr]. split; [done|]. eapply Forall_impl; [exact Hr|]. intros e [? ?]. split; [lia|done]. Qed.

Lemma rows_ok_saved bound rows old got :
  rows_ok bound old -> rows_ok bound rows -> saved_from rows old got -> rows_ok bound got.
Proof. intros Ho Hr [->|[k ->]]; [done|by apply rows_ok_take]. Qed.

Lemma closes_names e sh dest stick root :
  receipt_closes_outbox e sh dest stick root = true ->
  ob_receipted_at e = None /\ ob_dest e = dest /\ ob_shipment_id e = sh /\ sh <> [] /\ (root = [] \/ ob_root e = root).
Proof.
  unfold receipt_closes_outbox. destruct (ob_receipted_at e); cbn [is_someb]; [done|].
  repeat case_bool_decide; cbn [negb orb andb]; try done; subst; intros _; split_and!; try done; first [by left|by right].
Qed.

Lemma one_row_closed bound rows sh dest stick root :
  bound <= u64_max -> rows_ok bound rows ->
  (length (List.filter (fun e => receipt_closes_outbox e sh dest stick root) rows) <= 1)%nat.
Proof.
  intros Hb [Hn Hr].
  assert (forall e e', e ∈ rows -> e' ∈ rows -> receipt_closes_outbox e sh dest stick root = true ->
    receipt_closes_outbox e' sh dest stick root = true -> ob_id e = ob_id e') as Hid.
  { intros e e' He He' (_ & Hd & Hs & Hne & _)%closes_names (_ & Hd' & Hs' & _)%closes_names.
    rewrite Forall_forall in Hr. destruct (Hr e He) as [Hi Ho], (Hr e' He') as [Hi' Ho'].
    destruct Ho as [Ho|Ho]; [congruence|]. destruct Ho' as [Ho'|Ho']; [congruence|].
    assert (shipment_id_for dest (ob_id e) = shipment_id_for dest (ob_id e')) as E by congruence.
    unfold shipment_id_for in E. apply app_inv_head in E. apply dec_text_u64_inj; [ulia..|congruence]. }
  clear Hr. induction rows as [|e rows IH]; [cbn; lia|]. cbn [fmap list_fmap] in Hn. apply NoDup_cons in Hn as [Hni Hn].
  cbn [List.filter]. destruct (receipt_closes_outbox e sh dest stick root) eqn:E; [|apply IH; [done|set_solver]].
  assert (List.filter (fun e => receipt_closes_outbox e sh dest stick root) rows = []) as ->; [|cbn; lia].
  destruct (List.filter _ rows) as [|e' l] eqn:El; [done|]. exfalso. apply Hni.
  assert (e' ∈ List.filter (fun e => receipt_closes_outbox e sh dest stick root) rows) as Hin by (rewrite El; set_solver).
  apply list_elem_of_In, filter_In in Hin as [Hin Hc]. apply list_elem_of_In in Hin.
  rewrite (Hid e e'); [|set_solver|set_solver|done|done]. by apply list_elem_of_fmap_2.
Qed.

(** *** What each operation does to the rows *)

Lemma Forall2_same_refl rows : Forall2 same_row rows rows.
Proof. induction rows; constructor; [apply same_row_refl|done]. Qed.

Lemma same_row_trans e e' e'' : same_row e e' -> same_row e' e'' -> same_row e e''.
Proof.
  intros (I & D & S) (I' & D' & S'). split_and!; [congruence..|]. destruct S' as [->| ->]; [done|right]. by rewrite I, D.
Qed.

#[export] Instance same_row_transitive : Transitive same_row.
Proof. intros e e' e''. apply same_row_trans. Qed.

Lemma same_row_receipted at_ e : same_row e (with_receipted at_ e).
Proof. split_and!; [done..|by left]. Qed.

Lemma fmap_same_row (f : OutboxEntry -> OutboxEntry) rows : (forall e, same_row e (f e)) -> Forall2 same_row rows (f <$> rows).
Proof. intros Hf. induction rows; constructor; [apply Hf|done]. Qed.

Lemma close_heard_same r rows : Forall2 same_row rows (close_heard r rows).1.
Proof. apply fmap_same_row. intros e. case_match; [apply same_row_receipted|apply same_row_refl]. Qed.

Lemma close_row_same stick r e : same_row e (close_row stick r e).
Proof. unfold close_row. case_match; [apply same_row_receipted|apply same_row_refl]. Qed.

Lemma close_rows_same stick rs rows : Forall2 same_row rows (close_rows stick rs rows).1.
Proof.
  unfold close_rows. generalize 0. generalize (List.filter rc_accepted rs). intros l.
  revert rows. induction l as [|r l IH]; intros rows z; cbn [foldl]; [apply Forall2_same_refl|].
  unfold close_by at 2. cbn [fst snd]. etransitivity; [|apply IH].
  apply fmap_same_row. apply close_row_same.
Qed.

Section loading.
Context `{!OutboxJson} `{!HashOps}.

Lemma load_cargo_same env files st e st' e' r : load_cargo env files st e = (st', e', r) -> same_row e e'.
Proof.
  unfold load_cargo. intros E. assert (forall root len, same_row e (with_content root len e)) as Hc
    by (intros; split_and!; [done..|by left]).
  repeat (case_match; simplify_eq/=); try apply same_row_refl; try apply Hc;
    try (split_and!; [done..|by right]); try (split_and!; [done..|by left]).
Qed.

Lemma load_row_same env stick files st e st' e' : load_row env stick files st e = (st', e') -> same_row e e'.
Proof.
  unfold load_row. destruct (_ || _); [intros [= _ <-]; apply same_row_refl|].
  destruct (load_cargo env files st e) as [[st1 e1] r] eqn:E. apply load_cargo_same in E.
  destruct r; [case_bool_decide|]; intros [= _ <-]; [done| |done].
  etransitivity; [exact E|]. split_and!; [done..|by left].
Qed.

Lemma load_rows_same env stick files rows : forall st, Forall2 same_row rows (load_rows env stick files st rows).2.
Proof.
  induction rows as [|e rows IH]; intros st; cbn [load_rows]; [constructor|].
  destruct (load_row env stick files st e) as [st1 e1] eqn:E. apply load_row_same in E.
  specialize (IH st1). destruct (load_rows env stick files st1 rows) as [st2 l]. constructor; [done|exact IH].
Qed.
End loading.

(** ** Histories of the lane *)

Section history.
Context `{!OutboxJson} `{!HashOps} `{!MarkerToml} `{!AeadOps} `{!EnvelopeJson} `{!Base64} {V : Type} `{!JsonSlice V}
  `{!EntriesJson V ManifestEntry} `{!EntriesJson V Receipt}.

(** What happens to the node: the entry points of the module, the end of one
    delivery over the LAN, and changes of the workspace by anybody. *)
Inductive CourierOp :=
  | OpQueue (io : list FsWrite) (now : text) (meta : option (bool * Z)) (content : option bytes) (path dest name : text)
  | OpCancel (io : list FsWrite) (id : Z)
  | OpHearManifest (io : list FsWrite) (m : HeardManifest)
  | OpHearReceipt (io : list FsWrite) (r : HeardReceipt)
  | OpPlug (env : PlugEnv) (io : list FsWrite) (psk : option Psk) (stick : Stick)
  | OpDrained (io : list FsWrite) (now : text) (id : Z)
  | OpWorkspace (files : gmap text bytes).

Definition courier_do (d : CourierDisk) (op : CourierOp) : CourierDisk :=
  match op with
  | OpQueue io now meta content path dest name => (queue_artifact io now meta content path dest name d).1
  | OpCancel io id => (outbox_cancel io id d).1
  | OpHearManifest io m => (ledger_hear_manifest io m d).1
  | OpHearReceipt io r => (ledger_hear_receipt io r d).1
  | OpPlug env io psk stick => (process_plug (V := V) env io psk stick d).1.2
  | OpDrained io now id => drain_mark io now id d
  | OpWorkspace files => with_files files d
  end.

Definition courier_run (ops : list CourierOp) (d : CourierDisk) : CourierDisk := foldl courier_do d ops.
End history.

Section history_lemmas.
Context `{OutboxJsonLaws} `{!HashOps} `{!MarkerToml} `{!AeadOps} `{!EnvelopeJson} `{!Base64} {V : Type} `{!JsonSlice V}
  `{!EntriesJson V ManifestEntry} `{!EntriesJson V Receipt}.
Implicit Types (d : CourierDisk) (rows : list OutboxEntry).

Definition disk_rows d : list OutboxEntry := outbox_load (nd_outbox d).

(** A save of rows that are the old ones with fields changed. *)
Lemma save_same_rows bound io rows d file' io' ok :
  rows_ok bound (disk_rows d) -> Forall2 same_row (disk_rows d) rows ->
  outbox_save io rows (nd_outbox d) = (file', io', ok) -> rows_ok bound (outbox_load file').
Proof.
  intros Hok Hs [Hl _]%outbox_save_load. eapply rows_ok_saved; [exact Hok|by eapply rows_ok_same|exact Hl].
Qed.

Lemma max_id_le bound rows : 0 <= bound -> Forall (row_ok bound) rows -> 0 <= max_id rows <= bound.
Proof. intros Hb. unfold max_id. induction 1 as [|e rows [Hi _] _ IH]; cbn; lia. Qed.

Lemma max_id_fresh rows : Forall (fun e => ob_id e <= max_id rows) rows.
Proof.
  unfold max_id. induction rows as [|e rows IH]; [constructor|]. constructor; cbn; [lia|].
  eapply Forall_impl; [exact IH|]. cbn. lia.
Qed.

Lemma rows_ok_push bound rows e :
  0 <= bound < u64_max -> rows_ok bound rows -> ob_id e = inc64 (max_id rows) ->
  ob_shipment_id e = shipment_id_for (ob_dest e) (ob_id e) -> rows_ok (bound + 1) (rows ++ [e]).
Proof.
  intros Hb [Hn Hr] Hi Hs. pose proof (max_id_le bound rows ltac:(lia) Hr) as Hm.
  assert (ob_id e = max_id rows + 1) as Hi' by (rewrite Hi; unfold inc64, as_u64; rewrite Z.mod_small; ulia).
  split.
  - rewrite fmap_app. apply NoDup_app. split_and!; [done| |apply NoDup_singleton].
    intros i (e' & -> & He')%list_elem_of_fmap Hin. pose proof (max_id_fresh rows) as Hf. rewrite Forall_forall in Hf.
    specialize (Hf e' He'). cbn in Hf. apply list_elem_of_singleton in Hin. lia.
  - destruct (rows_ok_mono bound (bound + 1) rows) as [_ Hr']; [lia|done|].
    apply Forall_app. split; [done|]. constructor; [|constructor]. split; [lia|by right].
Qed.

Lemma queue_rows bound io now meta content path dest name d :
  0 <= bound < u64_max -> rows_ok bound (disk_rows d) ->
  rows_ok (bound + 1) (disk_rows (queue_artifact io now meta content path dest name d).1).
Proof.
  intros Hb Hok. pose proof (rows_ok_mono bound (bound + 1) _ ltac:(lia) Hok) as Hok'.
  unfold queue_artifact. destruct meta as [[[] len]|]; [|done..].
  destruct (_ <? _); [done|]. destruct content as [b|]; [|done]. destruct (List.find _ _); [done|].
  destruct (outbox_save _ _ _) as [[file io'] ok] eqn:E. cbn [fst].
  apply outbox_save_load in E as [Hl _]. eapply rows_ok_saved; [exact Hok'| |exact Hl].
  by apply rows_ok_push.
Qed.

Lemma cancel_rows bound io id d :
  rows_ok bound (disk_rows d) -> rows_ok bound (disk_rows (outbox_cancel io id d).1).
Proof.
  intros Hok. unfold outbox_cancel. destruct (position _ _) as [i|]; [|done].
  destruct (outbox_load (nd_outbox d) !! i) as [e|]; [|done]. destruct (is_someb _); [done|].
  destruct (outbox_save _ _ _) as [[file io'] ok] eqn:E. cbn [fst].
  apply outbox_save_load in E as [Hl _]. eapply rows_ok_saved; [exact Hok| |exact Hl].
  destruct Hok as [Hn Hr]. split; [|by apply Forall_delete]. eapply sublist_NoDup; [exact Hn|].
  apply fmap_sublist, sublist_delete.
Qed.

Lemma hear_receipt_rows bound io r d :
  rows_ok bound (disk_rows d) -> rows_ok bound (disk_rows (ledger_hear_receipt io r d).1).
Proof.
  intros Hok. unfold ledger_hear_receipt.
  set (lg := if _ : bool then _ else _). destruct lg as [[lfile io'] b]. cbn [nd_outbox with_ledger].
  destruct (hr_accepted r); [|done].
  destruct (close_heard r (outbox_load (nd_outbox d))) as [rows delivered] eqn:E.
  destruct (is_someb delivered); [|done].
  destruct (outbox_save io' rows (nd_outbox d)) as [[file io''] ok] eqn:Es. cbn [fst].
  eapply save_same_rows; [exact Hok| |exact Es]. pose proof (close_heard_same r (disk_rows d)) as Hs.
  unfold disk_rows in *. by rewrite E in Hs.
Qed.

Lemma alter_same_row now i rows : Forall2 same_row rows (alter (with_receipted now) i rows).
Proof.
  revert i. induction rows as [|e rows IH]; intros [|i]; cbn.
  - constructor.
  - constructor.
  - constructor; [apply same_row_receipted|apply Forall2_same_refl].
  - constructor; [apply same_row_refl|apply IH].
Qed.

Lemma drained_rows bound io now id d :
  rows_ok bound (disk_rows d) -> rows_ok bound (disk_rows (drain_mark io now id d)).
Proof.
  intros Hok. unfold drain_mark.
  destruct (outbox_save _ _ _) as [[file io'] ok] eqn:E. eapply save_same_rows; [exact Hok| |exact E].
  unfold disk_rows. destruct (position _ _) as [i|]; [|apply Forall2_same_refl]. apply alter_same_row.
Qed.

Lemma plug_opened_rows bound env io psk stick_id manifest receipts stick d :
  rows_ok bound (disk_rows d) ->
  rows_ok bound (disk_rows (plug_opened (V := V) env io psk stick_id manifest receipts stick d).1.2).
Proof.
  intros Hok. unfold plug_opened. set (st := ingest_all _ _ _ _ _ _).
  pose proof (close_rows_same stick_id (in_receipts st) (disk_rows d)) as Hc. unfold disk_rows in *. cbn [nd_outbox with_files].
  destruct (close_rows stick_id (in_receipts st) (outbox_load (nd_outbox d))) as [rows matched]. cbn [fst] in Hc.
  set (sv := if _ <? _ then _ else _). destruct sv as [[file io1] b] eqn:Esv. subst sv. cbn [nd_outbox nd_files with_outbox].
  assert (rows_ok bound (outbox_load file)) as Hok1.
  { destruct (0 <? matched); [|by simplify_eq/=]. by eapply (save_same_rows bound _ _ d). }
  match goal with |- context [load_rows ?a ?b ?f ?l ?r] =>
    pose proof (load_rows_same a b f r l) as Hl; destruct (load_rows a b f l r) as [ld rows2] end.
  set (sv := if ld_dirty ld then _ else _). destruct sv as [[file2 io2] b2] eqn:Esv2. subst sv.
  assert (rows_ok bound (outbox_load file2)) as Hok2.
  { destruct (ld_dirty ld); [|by simplify_eq/=].
    eapply (save_same_rows bound _ _ (mkCourierDisk file (nd_ledger d) (in_files st))); [exact Hok1|exact Hl|exact Esv2]. }
  repeat case_match; simplify_eq/=; done.
Qed.

Lemma plug_rows bound env io psk stick d :
  rows_ok bound (disk_rows d) -> rows_ok bound (disk_rows (process_plug (V := V) env io psk stick d).1.2).
Proof.
  intros Hok. unfold process_plug. destruct (match sk_marker stick ≫= parse_marker with Some (mkMarker _ _ None) => _ | _ => _ end) as [w io'].
  destruct (ensure_stick_id _ _ _ _ _) as [marker [id|e]]; [|done].
  destruct psk as [psk|]; [|done]. destruct (read_manifest _ _ _) as [[manifest|]|]; [|done..].
  destruct (read_receipts _ _ _) as [[receipts|]|]; [|done..].
  pose proof (plug_opened_rows bound env io' psk id manifest receipts
    (mkStick marker (sk_manifest (mkStick marker (sk_manifest stick) (sk_receipts stick) (sk_cargo stick)))
       (sk_receipts stick) (sk_cargo stick)) d Hok) as Hp.
  cbn [sk_manifest] in Hp. destruct (plug_opened _ _ _ _ _ _ _ _) as [[s' d'] out]. exact Hp.
Qed.

Lemma courier_do_rows bound d op :
  0 <= bound < u64_max -> rows_ok bound (disk_rows d) -> rows_ok (bound + 1) (disk_rows (courier_do (V := V) d op)).
Proof.
  intros Hb Hok. destruct op; cbn [courier_do].
  - by apply queue_rows.
  - eapply rows_ok_mono; [|by apply cancel_rows]. lia.
  - eapply (rows_ok_mono bound); [lia|]. unfold ledger_hear_manifest.
    destruct (existsb _ _); [done|]. destruct (ledger_save _ _ _) as [[f i] b]. exact Hok.
  - eapply rows_ok_mono; [|by apply hear_receipt_rows]. lia.
  - eapply rows_ok_mono; [|by apply plug_rows]. lia.
  - eapply rows_ok_mono; [|by apply drained_rows]. lia.
  - eapply rows_ok_mono; [|exact Hok]. lia.
Qed.

Lemma courier_run_rows ops d bound :
  0 <= bound -> bound + zlen ops <= u64_max -> rows_ok bound (disk_rows d) ->
  rows_ok (bound + zlen ops) (disk_rows (courier_run (V := V) ops d)).
Proof.
  revert d bound; induction ops as [|op ops IH]; intros d bound Hb Hl Hok.
  { eapply rows_ok_mono; [|exact Hok]. zlen_lia. }
  rewrite zlen_cons in *. pose proof (zlen_nonneg ops). replace (bound + (1 + zlen ops)) with (bound + 1 + zlen ops) by lia.
  apply IH; [lia|lia|]. apply courier_do_rows; [lia|done].
Qed.

(** Whatever happens on a node, plugs, gossip, cancellations, deliveries over
    the LAN and writes cut short included, the rows of the outbox keep ids of
    their own, and a receipt, from whatever stick or peer, answers for at most
    one of them: an undelivered row for the node that wrote the receipt, whose
    shipment id is that node and the row's id, and whose bytes are the receipt's
    when it names any. *)
Theorem one_receipt_one_row (ops : list (CourierOp)) d sh dest stick root :
  nd_outbox d = None -> zlen ops <= u64_max ->
  let rows := disk_rows (courier_run (V := V) ops d) in
  NoDup (ob_id <$> rows) /\
  (length (List.filter (fun e => receipt_closes_outbox e sh dest stick root) rows) <= 1)%nat /\
  forall e, e ∈ rows -> receipt_closes_outbox e sh dest stick root = true ->
    ob_receipted_at e = None /\ ob_dest e = dest /\ sh = shipment_id_for dest (ob_id e) /\ (root = [] \/ ob_root e = root).
Proof.
  intros Hd Hl rows.
  assert (rows_ok 0 (disk_rows d)) as Hz by (unfold disk_rows; rewrite Hd; split; [constructor|constructor]).
  pose proof (courier_run_rows ops d 0 ltac:(lia) ltac:(lia) Hz) as Hok. fold rows in Hok.
  split_and!; [apply Hok|by eapply one_row_closed; [|exact Hok]; lia|].
  intros e He (Hr & Hdest & Hs & Hne & Hroot)%closes_names. destruct Hok as [_ Hok]. rewrite Forall_forall in Hok.
  destruct (Hok e He) as [_ [Ho|Ho]]; [congruence|]. split_and!; [done..| |done]. congruence.
Qed.
End history_lemmas.

(** ** What a plug may write into the workspace *)

Section ingest.
Context `{!HashOps}.
Implicit Types (env : PlugEnv) (cargo : gmap text bytes) (e : ManifestEntry) (files : gmap text bytes).

(** The entry [e] may put [b] at [path]: the file of its safe name in the
    incoming directory of its origin, with bytes that start those its root
    names (all of them when the write was not cut short). *)
Definition may_land env cargo e (path : text) (b : bytes) : Prop :=
  exists origin c,
    safe_origin (me_origin e) = Ok origin /\
    path = incoming_path (pe_workspace env) origin (safe_name (me_name e) (me_root e)) /\
    cargo_read env cargo (me_root e) = Some c /\ hex32 (blob_root c) = me_root e /\ b `prefix_of` c.

Lemma ingest_cargo_spec env cargo e files io files' io' v :
  ingest_cargo env cargo e files io = (files', io', v) ->
  (files' = files /\ v <> Ok tt) \/
  (exists path b, may_land env cargo e path b /\ files' = <[path := b]> files /\
     (v = Ok tt -> cargo_read env cargo (me_root e) = Some b)).
Proof.
  unfold ingest_cargo. destruct (safe_origin (me_origin e)) as [o|x] eqn:Eo; [|intros [= <- <- <-]; by left].
  destruct (cargo_read env cargo (me_root e)) as [c|] eqn:Ec; [|intros [= <- <- <-]; by left].
  case_bool_decide as Er; cbn [negb]; [|intros [= <- <- <-]; by left].
  destruct (next io) as [m io1]. destruct (done_all m); cbn [negb]; [|intros [= <- <- <-]; by left].
  destruct (next io1) as [w io2]. assert (forall b, b `prefix_of` c -> may_land env cargo e
    (incoming_path (pe_workspace env) o (safe_name (me_name e) (me_root e))) b) as Hm by (intros b Hb; exists o, c; done).
  destruct w as [| |n]; intros [= <- <- <-].
  - right. exists (incoming_path (pe_workspace env) o (safe_name (me_name e) (me_root e))), c. split_and!; [by apply Hm|done|done].
  - by left.
  - right. exists (incoming_path (pe_workspace env) o (safe_name (me_name e) (me_root e))), (take n c).
    split_and!; [apply Hm, prefix_take|done|done].
Qed.

Lemma ingest_entry_files env stick cargo ledger st e p :
  in_files (ingest_entry env stick cargo ledger st e) !! p = in_files st !! p \/
  exists b, in_files (ingest_entry env stick cargo ledger st e) !! p = Some b /\ may_land env cargo e p b.
Proof.
  unfold ingest_entry. destruct (existsb _ _); [by left|].
  destruct (ingest_cargo env cargo e (in_files st) (in_io st)) as [[files io] v] eqn:E. cbn [in_files].
  destruct (ingest_cargo_spec _ _ _ _ _ _ _ _ E) as [[-> _]|(path & b & Hm & -> & _)]; [by left|].
  destruct (decide (path = p)) as [->|Hne]; [right|left; by rewrite lookup_insert_ne].
  exists b. by rewrite lookup_insert_eq.
Qed.

Lemma ingest_fold_files env stick cargo ledger l p : forall st,
  in_files (foldl (ingest_entry env stick cargo ledger) st l) !! p = in_files st !! p \/
  exists e b, e ∈ l /\ in_files (foldl (ingest_entry env stick cargo ledger) st l) !! p = Some b /\ may_land env cargo e p b.
Proof.
  induction l as [|e l IH]; intros st; cbn [foldl]; [by left|].
  destruct (IH (ingest_entry env stick cargo ledger st e)) as [->|(e' & b & He & Hl & Hm)].
  - destruct (ingest_entry_files env stick cargo ledger st e p) as [->|(b & Hb & Hm)]; [by left|].
    right. exists e, b. split_and!; [set_solver|done..].
  - right. exists e', b. split_and!; [set_solver|done..].
Qed.

(** What the report calls verified is in the list already or was ingested whole. *)
Lemma ingest_entry_receipts env stick cargo ledger st e r :
  r ∈ in_receipts (ingest_entry env stick cargo ledger st e) ->
  r ∈ in_receipts st \/
  (rc_node r = pe_node env /\ rc_root r = me_root e /\ rc_shipment_id r = me_shipment_id e /\
   (rc_accepted r = true -> exists c, cargo_read env cargo (me_root e) = Some c /\ hex32 (blob_root c) = me_root e)).
Proof.
  unfold ingest_entry. destruct (existsb _ _); [by left|].
  destruct (ingest_cargo env cargo e (in_files st) (in_io st)) as [[files io] v] eqn:E. cbn [in_receipts].
  intros [Hr|Hr]%elem_of_app; [by left|right]. apply list_elem_of_singleton in Hr as ->. cbn. split_and!; try done.
  destruct v as [[]|]; [|done]. intros _.
  destruct (ingest_cargo_spec _ _ _ _ _ _ _ _ E) as [[_ Hv]|(path & b & (o & c & _ & _ & Hc & Hh & _) & _)]; [done|].
  by exists c.
Qed.

Lemma ingest_fold_receipts env stick cargo ledger l r : forall st,
  r ∈ in_receipts (foldl (ingest_entry env stick cargo ledger) st l) ->
  r ∈ in_receipts st \/
  exists e, e ∈ l /\ rc_node r = pe_node env /\ rc_root r = me_root e /\ rc_shipment_id r = me_shipment_id e /\
   (rc_accepted r = true -> exists c, cargo_read env cargo (me_root e) = Some c /\ hex32 (blob_root c) = me_root e).
Proof.
  induction l as [|e l IH]; intros st; cbn [foldl]; [by left|].
  intros [Hr|(e' & He & Hr)]%IH; [|right; exists e'; split; [set_solver|done]].
  apply ingest_entry_receipts in Hr as [Hr|Hr]; [by left|]. right. exists e. split; [set_solver|done].
Qed.

(** A verified root is sixty-four hexadecimal digits, so the name the cargo
    lands under is one component. *)
Lemma landed_name_one_component c root name : is_bytes (blob_root c) -> hex32 (blob_root c) = root -> one_component (safe_name name root).
Proof.
  intros Hb <-. apply safe_name_one_component, Forall_take.
  unfold hex32. revert Hb. generalize (blob_root c). intros b. induction 1 as [|x b Hx _ IH]; [constructor|].
  rewrite hex_bytes_cons. destruct (byte_nibbles x Hx) as (H1 & H2 & _).
  assert (forall n, 0 <= n < 16 -> 48 <= hex_nibble n <= 102 /\ hex_nibble n <> 92) as Hn.
  { intros n. unfold hex_nibble. destruct (Z.ltb_spec n 10); lia. }
  repeat constructor; try (by apply Hn). exact IH.
Qed.
End ingest.

Section plugged.
Context `{!OutboxJson} `{!HashOps} `{!MarkerToml} `{!AeadOps} `{!EnvelopeJson} `{!Base64} {V : Type} `{!JsonSlice V}
  `{!EntriesJson V ManifestEntry} `{!EntriesJson V Receipt}.

(** The lists a plug works on, when it gets that far. *)
Definition opened_lists (psk : option Psk) (stick_id : text) (stick : Stick) : option (list ManifestEntry * list Receipt) :=
  psk ← psk;
  match read_manifest (V := V) psk stick_id (sk_manifest stick), read_receipts (V := V) psk stick_id (sk_receipts stick) with
  | Some (Ok m), Some (Ok r) => Some (m, r)
  | _, _ => None
  end.

(** Either nothing but the marker changes, or the plug runs on what was opened. *)
Lemma process_plug_cases env io psk stick d stick' d' out :
  process_plug (V := V) env io psk stick d = (stick', d', out) ->
  (d' = d /\ sk_manifest stick' = sk_manifest stick /\ sk_receipts stick' = sk_receipts stick /\
   sk_cargo stick' = sk_cargo stick /\
   forall o, out = Some o -> pr_verified (po_report o) = [] /\ po_gossip o = []) \/
  exists key id io' manifest receipts o, psk = Some key /\ out = Some o /\
    opened_lists psk id stick = Some (manifest, receipts) /\
    plug_opened (V := V) env io' key id manifest receipts (mkStick (sk_marker stick') (sk_manifest stick) (sk_receipts stick) (sk_cargo stick)) d
    = (stick', d', o).
Proof.
  unfold process_plug.
  destruct (match sk_marker stick ≫= parse_marker with Some (mkMarker _ _ None) => _ | _ => _ end) as [w io'].
  destruct (ensure_stick_id _ _ _ _ _) as [marker [id|e]]; [|intros [= <- <- <-]; left; split_and!; try done; by intros o [= <-]].
  destruct psk as [key|]; [|intros [= <- <- <-]; left; split_and!; try done; by intros o [= <-]].
  cbn [sk_manifest sk_receipts].
  destruct (read_manifest _ _ _) as [[manifest|]|] eqn:Em; [|intros [= <- <- <-]; left; split_and!; try done; by intros o [= <-]..].
  destruct (read_receipts _ _ _) as [[receipts|]|] eqn:Er; [|intros [= <- <- <-]; left; split_and!; try done; by intros o [= <-]..].
  destruct (plug_opened _ _ _ _ _ _ _ _) as [[s d1] o] eqn:Ep. intros [= <- <- <-]. right.
  exists key, id, io', manifest, receipts, o. split_and!; [done..| |].
  - unfold opened_lists. cbn [mbind option_bind]. by rewrite Em, Er.
  - assert (sk_marker s = marker) as ->; [|exact Ep].
    unfold plug_opened in Ep. repeat (case_match; simplify_eq/=); done.
Qed.

Lemma plug_opened_files env io psk id manifest receipts stick d stick' d' o :
  plug_opened (V := V) env io psk id manifest receipts stick d = (stick', d', o) ->
  exists st, st = ingest_all env id (sk_cargo stick) (ledger_load (nd_ledger d)) manifest
              (mkIngest receipts (nd_files d) io [] [] 0 0 0 [] false) /\
    nd_files d' = in_files st /\ nd_ledger d' = nd_ledger d /\
    pr_verified (po_report o) = in_verified st /\ pr_failed (po_report o) = in_failed st.
Proof.
  unfold plug_opened. intros E. eexists. split; [done|]. repeat (case_match; simplify_eq/=); done.
Qed.

(** C20: A plug changes the workspace only under [courier/incoming]: a file that
    differs afterwards is the safe name of an entry of the manifest that opened
    with the colony key for this stick, addressed to this node, in the incoming
    directory of the entry's origin, both one plain path component; and its
    bytes are those of the cargo that hashes to the entry's root, or a part of
    them where the write broke off.  Without a manifest that opens nothing
    changes at all. *)
Theorem ingest_sound env io psk stick d stick' d' out (hash_bytes : forall b, is_bytes (blob_root b)) :
  process_plug (V := V) env io psk stick d = (stick', d', out) ->
  forall p, nd_files d' !! p = nd_files d !! p \/
    exists id manifest receipts e origin name c b,
      opened_lists psk id stick = Some (manifest, receipts) /\ e ∈ manifest /\ me_dest e = pe_node env /\
      p = incoming_path (pe_workspace env) origin name /\ one_component origin /\ one_component name /\
      cargo_read env (sk_cargo stick) (me_root e) = Some c /\ hex32 (blob_root c) = me_root e /\
      nd_files d' !! p = Some b /\ b `prefix_of` c.
Proof.
  intros Hp p.
  destruct (process_plug_cases _ _ _ _ _ _ _ _ Hp) as [(-> & _)|(key & id & io' & manifest & receipts & o & _ & _ & Ho & Hpl)]; [by left|].
  destruct (plug_opened_files _ _ _ _ _ _ _ _ _ _ _ Hpl) as (st & -> & -> & _). cbn [sk_cargo].
  match goal with |- context [ingest_all ?a ?b ?c ?g ?m ?s] =>
    destruct (ingest_fold_files a b c g (List.filter (for_node (pe_node env)) m) p s)
      as [Hf|(e & b' & He & Hf & origin & c' & Hor & Hpa & Hc & Hh & Hpr)] end; [by left|right].
  apply list_elem_of_In, filter_In in He as [He Hd]. apply list_elem_of_In in He. apply bool_decide_eq_true in Hd.
  exists id, manifest, receipts, e, origin, (safe_name (me_name e) (me_root e)), c', b'.
  destruct (safe_origin_ok _ _ Hor) as (_ & Hoc & _). split_and!; try done.
  by apply (landed_name_one_component c').
Qed.

(** ** Cargo is ingested once *)

Lemma ingest_entry_keeps env sid cargo ledger st e r :
  r ∈ in_receipts st -> r ∈ in_receipts (ingest_entry env sid cargo ledger st e).
Proof.
  unfold ingest_entry. destruct (existsb _ _); [done|].
  destruct (ingest_cargo _ _ _ _ _) as [[files io] v]. cbn. set_solver.
Qed.

Lemma ingest_fold_keeps env sid cargo ledger l r : forall st,
  r ∈ in_receipts st -> r ∈ in_receipts (foldl (ingest_entry env sid cargo ledger) st l).
Proof. induction l as [|e l IH]; intros st Hr; [done|]. apply IH. by apply ingest_entry_keeps. Qed.

Lemma ingest_fold_failed env sid cargo ledger l : forall st,
  in_failed (foldl (ingest_entry env sid cargo ledger) st l) = [] -> in_failed st = [].
Proof.
  induction l as [|e l IH]; intros st; [done|]. cbn [foldl]. intros Hf%IH. revert Hf. unfold ingest_entry.
  destruct (existsb _ _); [done|]. destruct (ingest_cargo _ _ _ _ _) as [[files io] [[]|x]]; cbn; [done|].
  by destruct (in_failed st).
Qed.

Definition answered (node : text) (rs : list Receipt) (e : ManifestEntry) : Prop := exists r, r ∈ rs /\ answers_for node e r = true.

Lemma existsb_answered node rs e : existsb (answers_for node e) rs = true <-> answered node rs e.
Proof.
  rewrite existsb_exists. split; intros (r & Hr & Ha); exists r; (split; [|done]); by apply list_elem_of_In.
Qed.

Lemma own_receipt_answers env e v : v = true ->
  answers_for (pe_node env) e (mkCourierReceipt (me_root e) (pe_node env) v (pe_now env) (me_shipment_id e)) = true.
Proof.
  intros ->. unfold answers_for. cbn. rewrite bool_decide_true by done. cbn.
  destruct (_ && _); by rewrite bool_decide_true.
Qed.

Lemma ingest_fold_answers env sid cargo ledger l : forall st,
  in_failed (foldl (ingest_entry env sid cargo ledger) st l) = [] ->
  Forall (answered (pe_node env) (in_receipts (foldl (ingest_entry env sid cargo ledger) st l))) l.
Proof.
  induction l as [|e l IH]; intros st Hf; [constructor|]. cbn [foldl] in *. constructor; [|by apply IH].
  apply ingest_fold_failed in Hf.
  assert (answered (pe_node env) (in_receipts (ingest_entry env sid cargo ledger st e)) e) as (r & Hr & Ha).
  { revert Hf. unfold ingest_entry. destruct (existsb _ _) eqn:Ex; [intros _; by apply existsb_answered|].
    destruct (ingest_cargo _ _ _ _ _) as [[files io] [[]|x]]; cbn [in_failed in_receipts is_ok]; [|by destruct (in_failed st)].
    intros _. eexists. split; [apply elem_of_app; right; apply list_elem_of_singleton; reflexivity|by apply own_receipt_answers]. }
  exists r. split; [by apply ingest_fold_keeps|done].
Qed.

(** Entries answered for already leave everything but the count alone. *)
Lemma ingest_fold_answered env sid cargo ledger l : forall st,
  Forall (answered (pe_node env) (in_receipts st)) l ->
  foldl (ingest_entry env sid cargo ledger) st l
  = mkIngest (in_receipts st) (in_files st) (in_io st) (in_verified st) (in_failed st) (in_already st + zlen l)
      (in_announced st) (in_unannounced st) (in_gossip st) (in_dirty st).
Proof.
  induction l as [|e l IH]; intros st Hl; cbn [foldl].
  - rewrite zlen_nil, Z.add_0_r. by destruct st.
  - inversion Hl as [|? ? He Hl']; subst. apply existsb_answered in He.
    assert (ingest_entry env sid cargo ledger st e = mkIngest (in_receipts st) (in_files st) (in_io st) (in_verified st)
      (in_failed st) (in_already st + 1) (in_announced st) (in_unannounced st) (in_gossip st) (in_dirty st)) as ->
      by (unfold ingest_entry; by rewrite He).
    rewrite IH by done. cbn. f_equal. rewrite zlen_cons. lia.
Qed.

(** Loading announces nothing to the node itself. *)
Definition manifest_grows (node : text) (st st' : Loading) : Prop :=
  (ld_manifest st' = ld_manifest st /\ ld_manifest_dirty st' = ld_manifest_dirty st) \/
  (exists ext, ld_manifest st' = ld_manifest st ++ ext /\ Forall (fun e => me_dest e <> node) ext /\ ld_manifest_dirty st' = true).

Lemma manifest_grows_trans node a b c : manifest_grows node a b -> manifest_grows node b c -> manifest_grows node a c.
Proof.
  intros [[E D]|(x & E & Hx & D)] [[E' D']|(y & E' & Hy & D')].
  - left. split; congruence.
  - right. exists y. rewrite E', E. done.
  - right. exists x. rewrite E', D'. done.
  - right. exists (x ++ y). rewrite E', E, <- app_assoc. split_and!; [done|by apply Forall_app|done].
Qed.

Lemma load_cargo_manifest env files st e st' e' r :
  ob_dest e <> pe_node env -> load_cargo env files st e = (st', e', r) -> manifest_grows (pe_node env) st st'.
Proof.
  intros Hd. unfold load_cargo. intros E.
  repeat (case_match; simplify_eq/=); try (left; done);
    right; (eexists; split_and!; [done|repeat constructor; exact Hd|done]).
Qed.

Lemma load_row_manifest env sid files st e : manifest_grows (pe_node env) st (load_row env sid files st e).1.
Proof.
  unfold load_row. destruct (is_someb (ob_receipted_at e)); [by left|]. cbn [orb].
  case_bool_decide as Hd; [by left|].
  destruct (load_cargo env files st e) as [[st1 e1] r] eqn:E. apply load_cargo_manifest in E; [|done].
  destruct r; [case_bool_decide|]; exact E.
Qed.

Lemma load_rows_manifest env sid files rows : forall st,
  manifest_grows (pe_node env) st (load_rows env sid files st rows).1.
Proof.
  induction rows as [|e rows IH]; intros st; cbn [load_rows]; [by left|].
  pose proof (load_row_manifest env sid files st e) as He. destruct (load_row env sid files st e) as [st1 e1].
  specialize (IH st1). destruct (load_rows env sid files st1 rows) as [st2 l]. by eapply manifest_grows_trans.
Qed.

Lemma manifest_grows_filter node st st' :
  manifest_grows node st st' ->
  List.filter (for_node node) (ld_manifest st') = List.filter (for_node node) (ld_manifest st) /\
  (ld_manifest_dirty st' = false -> ld_manifest st' = ld_manifest st).
Proof.
  intros [[-> _]|(ext & -> & Hx & ->)]; [done|]. split; [|done]. rewrite List.filter_app.
  assert (List.filter (for_node node) ext = []) as ->; [|apply app_nil_r].
  induction Hx as [|e ext Hd _ IH]; [done|]. cbn. unfold for_node at 1. by rewrite bool_decide_false.
Qed.

Lemma ingest_fold_clean env sid cargo ledger l : forall st,
  in_dirty (foldl (ingest_entry env sid cargo ledger) st l) = false ->
  in_dirty st = false /\ in_receipts (foldl (ingest_entry env sid cargo ledger) st l) = in_receipts st.
Proof.
  induction l as [|e l IH]; intros st; cbn [foldl]; [done|]. intros [Hd ->]%IH. revert Hd.
  unfold ingest_entry. destruct (existsb _ _); [done|]. by destruct (ingest_cargo _ _ _ _ _) as [[files io] v].
Qed.

Definition written (o : PlugOutcome) : Prop :=
  forall n, n ∈ pr_notes (po_report o) -> match n with ManifestWrite _ | ReceiptsWrite _ => False | _ => True end.

Definition is_nonce (n : bytes) : Prop := is_bytes n /\ length n = 12%nat.
End plugged.

Section replug.
Context `{!OutboxJson} `{!HashOps} `{!MarkerToml} `{AeadLaws} `{EnvelopeJsonLaws} `{Base64Laws} {V : Type} `{JsonSliceLaws V}
  `{EM : EntriesJson V ManifestEntry} `{ER : EntriesJson V Receipt}
  `{!EntriesJsonLaws V ManifestEntry} `{!EntriesJsonLaws V Receipt}.

(** How a plug went, part by part, and what the stick holds after one whose two
    lists were written. *)
Record plug_parts env io key id manifest receipts stick d stick' d' (o : PlugOutcome) st file1 io1 ld rows2 : Prop := {
  pp_ingest : st = ingest_all env id (sk_cargo stick) (ledger_load (nd_ledger d)) manifest
                     (mkIngest receipts (nd_files d) io [] [] 0 0 0 [] false);
  pp_close : exists b, (if 0 <? (close_rows id (in_receipts st) (disk_rows d)).2
                        then outbox_save (in_io st) (close_rows id (in_receipts st) (disk_rows d)).1 (nd_outbox d)
                        else (nd_outbox d, in_io st, true)) = (file1, io1, b);
  pp_load : load_rows env id (in_files st) (mkLoading manifest false (sk_cargo stick) io1 false [] [] []) (outbox_load file1)
            = (ld, rows2);
  pp_save : exists io2 b, (if ld_dirty ld then outbox_save (ld_io ld) rows2 file1 else (file1, ld_io ld, true)) = (nd_outbox d', io2, b);
  pp_lists : opened_lists (V := V) (Some key) id stick' = Some (ld_manifest ld, in_receipts st);
  pp_marker : sk_marker stick' = sk_marker stick;
  pp_cargo : sk_cargo stick' = ld_cargo ld;
  pp_files : nd_files d' = in_files st;
  pp_failed : pr_failed (po_report o) = in_failed st;
  pp_verified : pr_verified (po_report o) = in_verified st
}.

Lemma plug_opened_parts env io key id manifest receipts stick d stick' d' o :
  is_nonce (pe_manifest_nonce env) -> is_nonce (pe_receipts_nonce env) ->
  opened_lists (V := V) (Some key) id stick = Some (manifest, receipts) ->
  plug_opened (V := V) env io key id manifest receipts stick d = (stick', d', o) -> written o ->
  exists st file1 io1 ld rows2, plug_parts env io key id manifest receipts stick d stick' d' o st file1 io1 ld rows2.
Proof.
  intros [Hn1 Hl1] [Hn2 Hl2] Ho. unfold opened_lists in Ho. cbn [mbind option_bind] in Ho.
  destruct (read_manifest key id (sk_manifest stick)) as [[m|]|] eqn:Em; [|done..].
  destruct (read_receipts key id (sk_receipts stick)) as [[rs|]|] eqn:Er; [|done..]. injection Ho as -> ->.
  unfold plug_opened. set (st := ingest_all _ _ _ _ _ _). cbn [nd_outbox nd_files with_files with_outbox].
  destruct (close_rows id (in_receipts st) (outbox_load (nd_outbox d))) as [rows matched] eqn:Ecr.
  set (sv := if _ <? _ then _ else _). destruct sv as [[file1 io1] b1] eqn:E1. subst sv. cbn [nd_outbox nd_files with_files with_outbox].
  match goal with |- context [load_rows ?a ?b ?f ?l ?r] =>
    pose proof (manifest_grows_filter _ _ _ (load_rows_manifest a b f r l)) as [_ Hcl];
    destruct (load_rows a b f l r) as [ld rows2] eqn:E2 end. cbn [fst ld_manifest] in Hcl.
  set (sv := if ld_dirty ld then _ else _). destruct sv as [[file2 io2] b2] eqn:E3. subst sv.
  intros E Hw. exists st, file1, io1, ld, rows2.
  set (mw := if ld_manifest_dirty ld then _ else _) in E. destruct mw as [[mfile io3] mnotes] eqn:Emw. subst mw.
  set (rw := if in_dirty st then _ else _) in E. destruct rw as [rfile rnotes] eqn:Erw. subst rw.
  injection E as <- <- <-. unfold written in Hw. cbn [po_report pr_notes] in Hw.
  assert (read_manifest key id mfile = Some (Ok (ld_manifest ld))) as Hrm.
  { destruct (ld_manifest_dirty ld); [|simplify_eq/=; by rewrite Em, Hcl].
    destruct (next io2) as [made io4]. destruct (next io4) as [w io5].
    destruct (write_manifest _ _ _ _ _ _ _) as [f [[]|x]] eqn:Ewm; simplify_eq/=.
    + unfold read_manifest, write_manifest in *. eapply sealed_list_reads_back; [exact Hn1|exact Hl1|exact Ewm].
    + destruct (Hw (ManifestWrite x)). set_solver. }
  assert (read_receipts key id rfile = Some (Ok (in_receipts st))) as Hrr.
  { destruct (in_dirty st) eqn:Ed.
    + destruct (next io3) as [made io4]. destruct (next io4) as [w io5].
      destruct (write_receipts _ _ _ _ _ _ _) as [f [[]|x]] eqn:Ewm; simplify_eq/=.
      * unfold read_receipts, write_receipts in *. eapply sealed_list_reads_back; [exact Hn2|exact Hl2|exact Ewm].
      * destruct (Hw (ReceiptsWrite x)). set_solver.
    + simplify_eq/=. apply ingest_fold_clean in Ed as [_ Ed]. unfold st, ingest_all. by rewrite Ed, Er. }
  split; cbn; try done.
  - exists b1. unfold disk_rows. rewrite Ecr. exact E1.
  - exists io2, b2. exact E3.
  - unfold opened_lists. cbn. by rewrite Hrm, Hrr.
Qed.

(** The plug of a stick with an identity reaches its lists when they open. *)
Lemma process_plug_opened env io key stick d mk id manifest receipts :
  sk_marker stick ≫= parse_marker = Some mk -> mk_stick_id mk = Some id ->
  opened_lists (V := V) (Some key) id stick = Some (manifest, receipts) ->
  process_plug (V := V) env io (Some key) stick d
  = let '(s, d, o) := plug_opened (V := V) env io key id manifest receipts stick d in (s, d, Some o).
Proof.
  intros Hm Hi. unfold opened_lists, process_plug, ensure_stick_id. rewrite Hm. cbn [mbind option_bind].
  destruct (sk_marker stick) as [raw|] eqn:Er; [|done]. cbn in Hm. rewrite Hm. destruct mk as [v n i]. cbn in Hi. subst i.
  cbn [sk_manifest sk_receipts].
  destruct (read_manifest key id (sk_manifest stick)) as [[m|]|]; [|done..].
  destruct (read_receipts key id (sk_receipts stick)) as [[rs|]|]; [|done..].
  intros [= <- <-]. rewrite <- Er. destruct stick. reflexivity.
Qed.

(** After a plug in which no cargo for this node failed, and whose lists were
    written, the stick's cargo for this node is spent: plugging it in again, at
    any later time and with whatever else happened to the node, ingests
    nothing, writes nothing into the workspace and fails nothing. *)
Theorem replug_ingests_nothing env io key stick d mk id lists stick' d' o :
  is_nonce (pe_manifest_nonce env) -> is_nonce (pe_receipts_nonce env) ->
  sk_marker stick ≫= parse_marker = Some mk -> mk_stick_id mk = Some id ->
  opened_lists (V := V) (Some key) id stick = Some lists ->
  process_plug (V := V) env io (Some key) stick d = (stick', d', Some o) ->
  written o -> pr_failed (po_report o) = [] ->
  forall env2 io2 d2, pe_node env2 = pe_node env ->
    exists stick3 d3 o2, process_plug (V := V) env2 io2 (Some key) stick' d2 = (stick3, d3, Some o2) /\
      pr_verified (po_report o2) = [] /\ pr_failed (po_report o2) = [] /\
      nd_files d3 = nd_files d2 /\
      pr_already (po_report o2) = zlen (List.filter (for_node (pe_node env)) lists.1).
Proof.
  destruct lists as [manifest receipts]. intros Hn1 Hn2 Hm Hi Ho Hp Hw Hf env2 io2 d2 Hnode.
  rewrite (process_plug_opened _ _ _ _ _ _ _ _ _ Hm Hi Ho) in Hp.
  destruct (plug_opened env io key id manifest receipts stick d) as [[s1 d1] o1] eqn:E1. injection Hp as -> -> ->.
  destruct (plug_opened_parts _ _ _ _ _ _ _ _ _ _ _ Hn1 Hn2 Ho E1 Hw) as (st & file1 & io1 & ld & rows2 & [-> _ Hld _ Ho' Hmk _ _ Hst _]).
  match type of Hld with load_rows ?a ?b ?f ?l ?r = _ => pose proof (load_rows_manifest a b f r l) as Hgr end.
  rewrite Hld in Hgr. cbn [fst] in Hgr. apply manifest_grows_filter in Hgr as [Hfl _]. cbn [ld_manifest] in Hfl. clear Hld.
  set (manifest' := ld_manifest ld) in *. clearbody manifest'.
  rewrite Hst in Hf. pose proof (ingest_fold_answers _ _ _ _ _ _ Hf) as Hans.
  unfold ingest_all in Ho'. set (rs := in_receipts _) in Hans, Ho'. clearbody rs. clear E1 Hf Hst.
  rewrite <- Hmk in Hm. rewrite (process_plug_opened _ _ _ _ _ _ _ _ _ Hm Hi Ho').
  destruct (plug_opened env2 io2 key id manifest' rs stick' d2) as [[s3 d3] o2] eqn:E2.
  exists s3, d3, o2. split; [done|]. cbn [fst]. rewrite <- Hnode, <- Hfl in *. unfold plug_opened, ingest_all in E2.
  rewrite ingest_fold_answered in E2 by exact Hans.
  repeat (case_match; simplify_eq/=); done.
Qed.
End replug.
