(* ===== verification/CourierLoop.v ===== *)
(** * The courier loop closes

    One artifact, three plugs of one stick: the origin loads it, the
    destination ingests it and leaves a receipt, the origin reads the receipt
    and closes the row.  The lemmas follow the artifact through the three loops
    of [process_plug]. *)
From S2P Require Import Prelude Text Jsonl Wire Replay Chunker Mandala Courier CourierPlug.

(** ** Receipts against rows, row by row *)

Definition close_row_all (stick_id : text) (rs : list Receipt) (e : OutboxEntry) : OutboxEntry :=
  foldl (fun e r => close_row stick_id r e) e rs.

Lemma close_rows_fmap sid rs rows :
  (close_rows sid rs rows).1 = close_row_all sid (List.filter rc_accepted rs) <$> rows.
Proof.
  unfold close_rows. generalize (List.filter rc_accepted rs). intros l. generalize 0.
  revert rows. induction l as [|r l IH]; intros rows z; cbn [foldl].
  - cbn. unfold close_row_all. cbn. by rewrite list_fmap_id.
  - unfold close_by at 2. cbn [fst snd]. rewrite IH, <- list_fmap_compose. done.
Qed.

Lemma close_row_receipted sid r e : is_someb (ob_receipted_at e) = true -> close_row sid r e = e.
Proof. intros He. unfold close_row, receipt_closes_outbox. by rewrite He. Qed.

Lemma close_row_all_receipted sid rs e : is_someb (ob_receipted_at e) = true -> close_row_all sid rs e = e.
Proof.
  intros He. unfold close_row_all. induction rs as [|r rs IH]; [done|]. cbn. by rewrite close_row_receipted.
Qed.

Lemma close_row_all_none sid rs e : Forall (fun r => closes_row sid r e = false) rs -> close_row_all sid rs e = e.
Proof.
  unfold close_row_all. induction 1 as [|r rs Hr _ IH]; [done|]. cbn. unfold close_row at 2.
  unfold closes_row in Hr. by rewrite Hr.
Qed.

Lemma close_row_all_closes sid rs e r :
  r ∈ rs -> closes_row sid r e = true -> is_someb (ob_receipted_at (close_row_all sid rs e)) = true.
Proof.
  unfold close_row_all. induction rs as [|r' rs IH]; intros Hin Hc; [by apply elem_of_nil in Hin|]. cbn.
  destruct (closes_row sid r' e) eqn:E.
  - assert (close_row sid r' e = with_receipted (rc_at r') e) as -> by (unfold close_row, closes_row in *; by rewrite E).
    fold (close_row_all sid rs (with_receipted (rc_at r') e)). by rewrite close_row_all_receipted.
  - assert (close_row sid r' e = e) as -> by (unfold close_row, closes_row in *; by rewrite E).
    apply elem_of_cons in Hin as [->|Hin]; [congruence|by apply IH].
Qed.

Lemma close_rows_matched sid rs rows :
  0 <= (close_rows sid rs rows).2 /\ ((close_rows sid rs rows).2 = 0 -> (close_rows sid rs rows).1 = rows).
Proof.
  unfold close_rows. generalize (List.filter rc_accepted rs). intros l.
  assert (forall z, 0 <= z -> z <= (foldl (close_by sid) (rows, z) l).2 /\
    ((foldl (close_by sid) (rows, z) l).2 = z -> (foldl (close_by sid) (rows, z) l).1 = rows)) as H; [|apply H; lia].
  revert rows. induction l as [|r l IH]; intros rows z Hz; cbn [foldl]; [cbn; split; [lia|done]|].
  unfold close_by at 2 4 6. cbn [fst snd]. set (k := zlen _). assert (0 <= k) by apply zlen_nonneg.
  destruct (IH (close_row sid r <$> rows) (z + k) ltac:(lia)) as [H1 H2]. split; [lia|]. intros E.
  rewrite H2 by lia. assert (k = 0) as Hk by lia. subst k. apply zlen_nil_inv in Hk.
  clear -Hk. induction rows as [|e rows IH]; [done|]. cbn [List.filter] in Hk.
  destruct (closes_row sid r e) eqn:Ec; [done|]. cbn. f_equal; [|by apply IH].
  unfold close_row, closes_row in *. by rewrite Ec.
Qed.

(** ** Loading *)

Section loading.
Context `{!OutboxJson} `{!HashOps}.
Implicit Types (st : Loading) (e : OutboxEntry).

Lemma load_rows_app env sid files l1 l2 : forall st,
  load_rows env sid files st (l1 ++ l2)
  = ((load_rows env sid files (load_rows env sid files st l1).1 l2).1,
     (load_rows env sid files st l1).2 ++ (load_rows env sid files (load_rows env sid files st l1).1 l2).2).
Proof.
  induction l1 as [|e l1 IH]; intros st; cbn [load_rows app].
  - cbn. by destruct (load_rows env sid files st l2).
  - destruct (load_row env sid files st e) as [st1 e1]. rewrite IH.
    destruct (load_rows env sid files st1 l1) as [st2 r]. cbn. done.
Qed.

(** A stick whose cargo is what its names say. *)
Definition honest (cargo : gmap text bytes) : Prop := forall n c, cargo !! n = Some c -> hex32 (blob_root c) = n.

Definition entry_of (env : PlugEnv) e : ManifestEntry :=
  mkEntry (ob_root e) (ob_len e) (ob_name e) (chars "bulk") (pe_node env) (ob_dest e) (pe_epoch env) (pe_now env) (ob_shipment_id e).

(** What loading rows does to the stick when every write succeeds: the cargo
    stays honest and is only added to, and the new entries have this node's
    shipment ids. *)
Definition shipped_by (env : PlugEnv) (files : gmap text bytes) (rows : list OutboxEntry) (x : ManifestEntry) : Prop :=
  me_origin x = pe_node env /\ exists e b, e ∈ rows /\ files !! ob_path e = Some b /\ me_root x = hex32 (blob_root b) /\
    me_name x = ob_name e /\ me_dest x = ob_dest e /\ me_shipment_id x <> [] /\
    (me_shipment_id x = ob_shipment_id e \/
     (ob_shipment_id e = [] /\ me_shipment_id x = shipment_id_for (ob_dest e) (ob_id e))).

Definition loads (env : PlugEnv) (files : gmap text bytes) (rows : list OutboxEntry) (st st' : Loading) : Prop :=
  (ld_io st = [] -> ld_io st' = []) /\
  (ld_io st = [] -> honest (ld_cargo st) -> honest (ld_cargo st')) /\
  (forall n c, ld_cargo st !! n = Some c -> ld_cargo st' !! n = Some c) /\
  (exists ext, ld_manifest st' = ld_manifest st ++ ext /\ Forall (shipped_by env files rows) ext) /\
  (ld_dirty st = true -> ld_dirty st' = true).

Lemma loads_refl env files rows st : loads env files rows st st.
Proof. split_and!; try done. exists []. by rewrite app_nil_r. Qed.

Lemma shipped_by_mono env files rows rows' x : rows ⊆ rows' -> shipped_by env files rows x -> shipped_by env files rows' x.
Proof. intros Hr (Ho & e & b & He & Hx). split; [done|]. exists e, b. split; [by apply Hr|done]. Qed.

Lemma loads_trans env files rows1 rows2 a b c :
  loads env files rows1 a b -> loads env files rows2 b c -> loads env files (rows1 ++ rows2) a c.
Proof.
  intros (I1 & H1 & C1 & (x1 & E1 & F1) & D1) (I2 & H2 & C2 & (x2 & E2 & F2) & D2). split_and!; auto.
  exists (x1 ++ x2). rewrite E2, E1, <- app_assoc. split; [done|]. apply Forall_app. split.
  - eapply Forall_impl; [exact F1|]. intros x. apply shipped_by_mono. set_solver.
  - eapply Forall_impl; [exact F2|]. intros x. apply shipped_by_mono. set_solver.
Qed.

Lemma shipment_id_nonempty d i : shipment_id_for d i <> [].
Proof. unfold shipment_id_for. by destruct d. Qed.

Lemma next_nil io w io' : next io = (w, io') -> io = [] -> w = WroteAll /\ io' = [].
Proof. intros E ->. by injection E as <- <-. Qed.

(** The write of the artifact, when it is not aboard yet. *)
Definition put_cargo (root : text) (b : bytes) (cargo : gmap text bytes) (io : list FsWrite) : gmap text bytes * list FsWrite * bool :=
  match cargo !! root with
  | Some _ => (cargo, io, true)
  | None =>
      let '(w, io) := next io in
      match w with
      | WroteAll => (<[root := b]> cargo, io, true)
      | WroteNone => (cargo, io, false)
      | WroteCut n => (<[root := take n b]> cargo, io, false)
      end
  end.

Lemma put_cargo_spec root b cargo io cargo' io' ok :
  put_cargo root b cargo io = (cargo', io', ok) ->
  (io = [] -> io' = [] /\ ok = true) /\
  (forall n c, cargo !! n = Some c -> cargo' !! n = Some c) /\
  (io = [] -> hex32 (blob_root b) = root -> honest cargo -> honest cargo') /\
  (ok = true -> is_Some (cargo' !! root)).
Proof.
  unfold put_cargo. destruct (cargo !! root) as [c0|] eqn:Ec; [intros [= <- <- <-]; split_and!; by eauto|].
  assert (forall x n c, cargo !! n = Some c -> <[root := x]> cargo !! n = Some c) as Hk
    by (intros x n c Hn; rewrite lookup_insert_ne; [done|congruence]).
  destruct (next io) as [w io1] eqn:En. pose proof (next_nil _ _ _ En) as Hn.
  destruct w as [| |n]; intros [= <- <- <-]; split_and!; eauto; try done.
  - intros E. split; [by apply Hn|done].
  - intros _ Hr Hh n c. destruct (decide (n = root)) as [->|Hne].
    + rewrite lookup_insert_eq. by intros [= <-].
    + rewrite lookup_insert_ne by done. apply Hh.
  - intros _. rewrite lookup_insert_eq. by eexists.
  - by intros [? _]%Hn.
  - by intros [? _]%Hn.
  - by intros [? _]%Hn.
Qed.

(** The row as the artifact aboard has it. *)
Definition loaded_row (b : bytes) e : OutboxEntry :=
  let e := if bool_decide (hex32 (blob_root b) = ob_root e) then e else with_content (hex32 (blob_root b)) (zlen b) e in
  if bool_decide (ob_shipment_id e = []) then with_shipment (shipment_id_for (ob_dest e) (ob_id e)) e else e.

Lemma loaded_row_shipment b e :
  ob_root (loaded_row b e) = hex32 (blob_root b) /\ ob_name (loaded_row b e) = ob_name e /\ ob_dest (loaded_row b e) = ob_dest e /\ ob_id (loaded_row b e) = ob_id e /\
  ob_loaded_on (loaded_row b e) = ob_loaded_on e /\ ob_receipted_at (loaded_row b e) = ob_receipted_at e /\
  ob_shipment_id (loaded_row b e) <> [] /\
  (ob_shipment_id (loaded_row b e) = ob_shipment_id e \/
   (ob_shipment_id e = [] /\ ob_shipment_id (loaded_row b e) = shipment_id_for (ob_dest e) (ob_id e))).
Proof.
  unfold loaded_row. pose proof (shipment_id_nonempty (ob_dest e) (ob_id e)).
  repeat case_bool_decide; cbn in *; split_and!; try done; try (by left); by right.
Qed.

Lemma load_cargo_loads env files st e st' e' r :
  load_cargo env files st e = (st', e', r) ->
  loads env files [e] st st' /\
  forall b, files !! ob_path e = Some b -> ld_io st = [] ->
    r = Ok tt /\ e' = loaded_row b e /\ is_Some (ld_cargo st' !! ob_root e') /\
    (existsb (aboard e') (ld_manifest st) = false -> entry_of env e' ∈ ld_manifest st').
Proof.
  unfold load_cargo. destruct (files !! ob_path e) as [b|] eqn:Ef; [|intros [= <- <- <-]; split; [apply loads_refl|done]].
  set (notes := if (_ : bool) then _ else ld_notes st). set (e1 := if negb (bool_decide (hex32 (blob_root b) = ob_root e)) then with_content (hex32 (blob_root b)) (zlen b) e else e).
  assert (e1 = if bool_decide (hex32 (blob_root b) = ob_root e) then e else with_content (hex32 (blob_root b)) (zlen b) e) as He1
    by (subst e1; by case_bool_decide).
  destruct (next (ld_io st)) as [m io1] eqn:En. pose proof (next_nil _ _ _ En) as Hn.
  assert (hex32 (blob_root b) = ob_root e1) as Hroot by (rewrite He1; by case_bool_decide).
  clearbody notes. destruct (done_all m) eqn:Em; cbn [negb].
  2:{ intros [= <- <- <-]. assert (ld_io st <> []) as Hne by (intros [-> _]%Hn; done). split; [|intros ? _ ?; done].
      split_and!; cbn; try done. exists []. by rewrite app_nil_r. }
  fold (put_cargo (ob_root e1) b (ld_cargo st) io1).
  destruct (put_cargo (ob_root e1) b (ld_cargo st) io1) as [[cargo io2] wrote] eqn:Ep.
  apply put_cargo_spec in Ep as (P1 & P2 & P3 & P4). destruct wrote; cbn [negb].
  2:{ intros [= <- <- <-]. assert (ld_io st <> []) as Hne by (intros [_ E]%Hn; by destruct (P1 E)). split; [|intros ? _ ?; done].
      split_and!; cbn; try done. exists []. by rewrite app_nil_r. }
  set (e2 := if bool_decide (ob_shipment_id e1 = []) then with_shipment _ e1 else e1).
  assert (e2 = loaded_row b e) as He2 by (unfold loaded_row; rewrite <- He1; done).
  destruct (loaded_row_shipment b e) as (R1 & Rn & R2 & R3 & _ & _ & R4 & R5). clearbody e2. subst e2.
  assert (shipped_by env files [e] (entry_of env (loaded_row b e))) as Hs.
  { split; [done|]. exists e, b. split_and!; [set_solver|done..]. }
  assert (forall dirty manifest mdirty ext, manifest = ld_manifest st ++ ext -> Forall (shipped_by env files [e]) ext ->
    loads env files [e] st (mkLoading manifest mdirty cargo io2 (ld_dirty st || dirty) (ld_loaded st) notes (ld_gossip st))) as Hl.
  { intros dirty manifest md ext -> Hx. split_and!; cbn; [by intros [_ E]%Hn; apply P1| |exact P2|by exists ext|by intros ->].
    intros [_ E]%Hn Hh. by apply P3. }
  destruct (existsb _ _) eqn:Ea; intros [= <- <- <-]; (split; [|intros b' [= <-] Hi; split_and!; try done; cbn; [rewrite R1, Hroot; by apply P4|]]).
  - apply (Hl _ _ _ []); [by rewrite app_nil_r|done].
  - congruence.
  - apply (Hl _ _ _ [entry_of env (loaded_row b e)]); [done|by constructor].
  - intros _. apply elem_of_app. right. apply list_elem_of_singleton. done.
Qed.

Lemma load_row_loads env sid files st e : loads env files [e] st (load_row env sid files st e).1.
Proof.
  unfold load_row. destruct (_ || _); [apply loads_refl|].
  destruct (load_cargo env files st e) as [[st1 e1] r] eqn:E. apply load_cargo_loads in E as [E _].
  destruct E as (H1 & H2 & H3 & H4 & H5). destruct r; [case_bool_decide|]; split_and!; cbn; done.
Qed.

Lemma load_rows_loads env sid files rows : forall st, loads env files rows st (load_rows env sid files st rows).1.
Proof.
  induction rows as [|e rows IH]; intros st; cbn [load_rows]; [apply loads_refl|].
  pose proof (load_row_loads env sid files st e) as He. destruct (load_row env sid files st e) as [st1 e1].
  specialize (IH st1). destruct (load_rows env sid files st1 rows) as [st2 l].
  exact (loads_trans env files [e] rows st st1 st2 He IH).
Qed.

(** *** The row that is to travel *)

Lemma dec_text_no_colon n : is_u64 n -> 58 ∉ dec_text n.
Proof.
  intros Hn Hin. destruct (digits_spec 20 n []) as (ds & E & _ & Hds & _); [|ulia|lia|].
  { change (10 ^ Z.of_nat 20) with 100000000000000000000. ulia. }
  unfold dec_text in Hin. rewrite E, app_nil_r in Hin. rewrite Forall_forall in Hds. specialize (Hds 58 Hin).
  unfold is_digit in Hds. lia.
Qed.

Lemma shipment_id_for_inj d i d' i' :
  is_u64 i -> is_u64 i' -> shipment_id_for d i = shipment_id_for d' i' -> d = d' /\ i = i'.
Proof.
  intros Hi Hi' E. assert (forall a n, is_u64 n -> rsplit_once 58 (shipment_id_for a n) = Some (a, dec_text n)) as Hs.
  { intros a n Hn. apply rsplit_once_Some. split; [done|by apply dec_text_no_colon]. }
  pose proof (Hs d i Hi) as H1. rewrite E, (Hs d' i' Hi') in H1. injection H1 as -> Ed. split; [done|].
  symmetry. by apply dec_text_u64_inj.
Qed.

(** A row of a well-formed outbox that is waiting to be carried, its source
    unchanged since it was queued. *)
Record waiting (env : PlugEnv) (files : gmap text bytes) (rows : list OutboxEntry) (e : OutboxEntry) (b : bytes) : Prop := {
  wt_row : e ∈ rows;
  wt_open : ob_receipted_at e = None;
  wt_dest : ob_dest e <> pe_node env;
  wt_ship : ob_shipment_id e <> [];
  wt_source : files !! ob_path e = Some b;
  wt_root : hex32 (blob_root b) = ob_root e
}.

Lemma waiting_loaded env files rows e b : waiting env files rows e b -> loaded_row b e = e.
Proof. intros [_ _ _ Hs _ Hr]. unfold loaded_row. rewrite Hr, (bool_decide_true (ob_root e = ob_root e)) by done. by rewrite bool_decide_false. Qed.

(** No two rows ship under one id. *)
Lemma shipment_owner bound rows e e' :
  bound <= u64_max -> rows_ok bound rows -> e ∈ rows -> e' ∈ rows -> ob_shipment_id e <> [] ->
  (ob_shipment_id e' = ob_shipment_id e \/ (ob_shipment_id e' = [] /\ ob_shipment_id e = shipment_id_for (ob_dest e') (ob_id e'))) ->
  e' = e.
Proof.
  intros Hb [Hn Hr] He He' Hne Hs. rewrite Forall_forall in Hr.
  destruct (Hr e He) as [Hi [?|Ho]]; [done|]. destruct (Hr e' He') as [Hi' Ho'].
  assert (ob_shipment_id e = shipment_id_for (ob_dest e') (ob_id e')) as E.
  { destruct Hs as [Hs|[_ Hs]]; [|done]. destruct Ho' as [Ho'|Ho']; congruence. }
  rewrite Ho in E. apply shipment_id_for_inj in E as [_ Ei]; [|ulia..].
  apply list_elem_of_lookup in He as [i He], He' as [j He'].
  assert (i = j) as <-; [|congruence].
  eapply (NoDup_lookup (ob_id <$> rows)); [exact Hn|rewrite list_lookup_fmap, He; done|].
  rewrite list_lookup_fmap, He'. cbn. by rewrite Ei.
Qed.

Lemma aboard_false_app e m ext :
  existsb (aboard e) m = false -> Forall (fun x => aboard e x = false) ext -> existsb (aboard e) (m ++ ext) = false.
Proof. intros Hm Hx. rewrite existsb_app, Hm. induction Hx as [|x ext Hx _ IH]; [done|]. cbn. by rewrite Hx. Qed.

(** Entries other rows put aboard do not stand for this one. *)
Lemma others_not_aboard env files bound rows others e :
  bound <= u64_max -> rows_ok bound rows -> e ∈ rows -> e ∉ others -> others ⊆ rows -> ob_shipment_id e <> [] ->
  forall ext, Forall (shipped_by env files others) ext -> Forall (fun x => aboard e x = false) ext.
Proof.
  intros Hb Hok He Hno Hsub Hne ext Hext. eapply Forall_impl; [exact Hext|]. intros x (_ & e' & b & He' & _ & _ & _ & _ & Hx & Hs).
  unfold aboard. rewrite !bool_decide_false by done. cbn [negb andb]. apply bool_decide_eq_false. intros E. apply Hno.
  assert (e' = e) as <-; [|done]. apply (shipment_owner bound rows e e' Hb Hok He); [by apply Hsub|done|].
  destruct Hs as [Hs|[Hs1 Hs2]]; [left; congruence|right; split; congruence].
Qed.

(** With every write succeeding, the row is loaded: its artifact is aboard, the
    manifest has its entry, and the row says on which stick it is. *)
Lemma load_rows_ships env sid files bound rows e b st :
  bound <= u64_max -> rows_ok bound rows -> waiting env files rows e b ->
  ld_io st = [] -> existsb (aboard e) (ld_manifest st) = false ->
  let out := load_rows env sid files st rows in
  entry_of env e ∈ ld_manifest out.1 /\ is_Some (ld_cargo out.1 !! ob_root e) /\
  exists i, rows !! i = Some e /\ out.2 !! i = Some (with_loaded_on sid e) /\
    (ld_dirty out.1 = false -> ob_loaded_on e = Some sid).
Proof.
  intros Hb Hok Hw Hio Hab. pose proof (waiting_loaded _ _ _ _ _ Hw) as Hld. destruct Hw as [He Hopen Hdest Hship Hsrc Hroot].
  assert (exists l1 l2, rows = l1 ++ e :: l2) as (l1 & l2 & Erows) by (by apply list_elem_of_split).
  assert (e ∉ l1) as Hno.
  { destruct Hok as [Hn _]. rewrite Erows, fmap_app in Hn. apply NoDup_app in Hn as (_ & Hd & _). intros Hin.
    apply (Hd (ob_id e)); [by apply list_elem_of_fmap_2|]. cbn. set_solver. }
  intros out. assert (out = load_rows env sid files st (l1 ++ e :: l2)) as Eout by (by rewrite <- Erows).
  rewrite load_rows_app in Eout. cbn [fst snd load_rows] in Eout. clearbody out.
  destruct (load_rows_loads env sid files l1 st) as (I1 & _ & C1 & (ext & Em & Hext) & _).
  pose proof (Forall2_length _ _ _ (load_rows_same env sid files l1 st)) as Hlen.
  destruct (load_rows env sid files st l1) as [st1 r1]. cbn [fst snd] in *. specialize (I1 Hio).
  assert (existsb (aboard e) (ld_manifest st1) = false) as Hab1.
  { rewrite Em. apply aboard_false_app; [done|]. eapply (others_not_aboard env files bound rows l1); try done. rewrite Erows. set_solver. }
  assert (exists st2, load_row env sid files st1 e = (st2, with_loaded_on sid e) /\ entry_of env e ∈ ld_manifest st2 /\
    is_Some (ld_cargo st2 !! ob_root e) /\ (ld_dirty st2 = false -> ob_loaded_on e = Some sid)) as (st2 & Est2 & Hm2 & Hc2 & Hd2).
  { unfold load_row. rewrite Hopen. cbn [is_someb orb]. rewrite bool_decide_false by done.
    destruct (load_cargo env files st1 e) as [[st2 e2] r] eqn:E. apply load_cargo_loads in E as [_ E].
    destruct (E b Hsrc I1) as (-> & -> & Hc & Hm). rewrite Hld in *. specialize (Hm Hab1).
    case_bool_decide as Hon.
    - exists st2. split_and!; try done. f_equal. destruct e; cbn in *. by rewrite Hon.
    - eexists. split_and!; [done|exact Hm|exact Hc|done]. }
  destruct (load_rows_loads env sid files l2 st2) as (_ & _ & C3 & (ext3 & E3 & _) & D3).
  rewrite Est2 in Eout. destruct (load_rows env sid files st2 l2) as [st3 r3]. cbn [fst snd] in *. subst out. cbn [fst snd]. split_and!.
  - rewrite E3. set_solver.
  - destruct Hc2 as [c Hc]. exists c. by apply C3.
  - exists (length l1). split_and!.
    + rewrite Erows. by rewrite lookup_app_r, Nat.sub_diag by lia.
    + rewrite lookup_app_r by lia. by rewrite Hlen, Nat.sub_diag.
    + intros Hd. apply Hd2. destruct (ld_dirty st2) eqn:E; [|done]. by rewrite D3 in Hd.
Qed.
End loading.

(** ** Ingesting *)

Section ingesting.
Context `{!HashOps}.
Implicit Types (x y : ManifestEntry) (st : Ingest).

Lemma ingest_entry_io env sid cargo ledger st y : in_io st = [] -> in_io (ingest_entry env sid cargo ledger st y) = [].
Proof.
  intros Hio. unfold ingest_entry. destruct (existsb _ _); [done|]. unfold ingest_cargo. rewrite Hio. cbn.
  repeat (case_match; simplify_eq/=); done.
Qed.

Lemma ingest_fold_io env sid cargo ledger l : forall st,
  in_io st = [] -> in_io (foldl (ingest_entry env sid cargo ledger) st l) = [].
Proof. induction l as [|y l IH]; intros st Hio; [done|]. by apply IH, ingest_entry_io. Qed.

Lemma ingest_fold_verified env sid cargo ledger l v : forall st,
  v ∈ in_verified st -> v ∈ in_verified (foldl (ingest_entry env sid cargo ledger) st l).
Proof.
  induction l as [|y l IH]; intros st Hv; [done|]. apply IH. unfold ingest_entry. destruct (existsb _ _); [done|].
  destruct (ingest_cargo _ _ _ _ _) as [[files io] [[]|]]; cbn; set_solver.
Qed.

(** The receipt that says [x] arrived. *)
Definition arrived (node : text) x (r : Receipt) : Prop :=
  rc_accepted r = true /\ rc_node r = node /\ rc_root r = me_root x /\ rc_shipment_id r = me_shipment_id x.

(** Another entry of the list neither answers for [x] nor differs from it under
    the same shipment id. *)
Definition apart x y : Prop :=
  (me_shipment_id y = [] -> me_root y <> me_root x) /\
  (me_shipment_id y = me_shipment_id x -> me_root y = me_root x /\ me_origin y = me_origin x /\ me_name y = me_name x).

Lemma answers_apart node x y r :
  me_shipment_id x <> [] -> apart x y -> me_shipment_id y <> me_shipment_id x ->
  rc_shipment_id r = me_shipment_id y -> rc_root r = me_root y -> answers_for node x r = false.
Proof.
  intros Hx [Ha _] Hne Hs Hr. unfold answers_for. rewrite Hs, Hr. destruct (bool_decide _ && _); [|done]. cbn [andb].
  rewrite (bool_decide_false (me_shipment_id x = [])) by done.
  destruct (decide (me_shipment_id y = [])) as [E|E].
  - rewrite (bool_decide_true _ E). cbn. rewrite bool_decide_false; [done|by apply Ha].
  - rewrite (bool_decide_false _ E). cbn. by rewrite bool_decide_false.
Qed.

Lemma ingest_fold_ships env sid cargo ledger x o c l :
  safe_origin (me_origin x) = Ok o -> cargo_read env cargo (me_root x) = Some c -> hex32 (blob_root c) = me_root x ->
  me_shipment_id x <> [] -> x ∈ l -> Forall (apart x) l ->
  forall st, in_io st = [] -> ~ answered (pe_node env) (in_receipts st) x ->
  (exists r, r ∈ in_receipts (foldl (ingest_entry env sid cargo ledger) st l) /\ arrived (pe_node env) x r) /\
  (me_name x, me_origin x) ∈ in_verified (foldl (ingest_entry env sid cargo ledger) st l).
Proof.
  intros Ho Hc Hh Hne. induction l as [|y l IH]; intros Hin Hap st Hio Hna; [by apply elem_of_nil in Hin|].
  inversion Hap as [|? ? Hy Hap']; subst. cbn [foldl].
  destruct (decide (me_shipment_id y = me_shipment_id x)) as [Es|Es].
  - destruct Hy as [_ Hy]. destruct (Hy Es) as (Er & Eo & En).
    assert (existsb (answers_for (pe_node env) y) (in_receipts st) = false) as Hex.
    { apply not_true_iff_false. intros (r & Hr & Ha)%existsb_answered. apply Hna. exists r. split; [done|].
      unfold answers_for in *. by rewrite <- Es, <- Er. }
    set (st1 := ingest_entry env sid cargo ledger st y).
    assert ((exists r, r ∈ in_receipts st1 /\ arrived (pe_node env) x r) /\ (me_name x, me_origin x) ∈ in_verified st1) as [(r & Hr & Ha) Hv].
    { subst st1. unfold ingest_entry. rewrite Hex. unfold ingest_cargo. rewrite Eo, Er, En, Es, Ho, Hc, Hh, Hio.
      rewrite bool_decide_true by done. cbn. split; [|set_solver].
      eexists. split; [apply elem_of_app; right; apply list_elem_of_singleton; reflexivity|done]. }
    split; [exists r; split; [by apply ingest_fold_keeps|done]|by apply ingest_fold_verified].
  - apply elem_of_cons in Hin as [->|Hin]; [done|]. apply IH; [done|done|by apply ingest_entry_io|].
    intros (r & Hr & Ha). apply ingest_entry_receipts in Hr as [Hr|(_ & Hr1 & Hr2 & _)]; [by apply Hna; exists r|].
    by rewrite (answers_apart _ x y) in Ha.
Qed.
End ingesting.

(** ** The three plugs *)

Section saves.
Context `{OutboxJsonLaws} `{!HashOps}.

Lemma outbox_save_nil rows file file' io' ok :
  outbox_save [] rows file = (file', io', ok) -> outbox_load file' = rows /\ io' = [] /\ ok = true.
Proof.
  intros E. assert (ok = true /\ io' = []) as [-> ->].
  { unfold outbox_save, save_text in E. rewrite outbox_content in E. cbn in E. by injection E as _ <- <-. }
  split_and!; [|done..]. by apply outbox_save_load in E as [_ E]; apply E.
Qed.

(** The rows after the receipts were read home, every write succeeding. *)
Lemma closed_rows_saved id rs d file1 io1 b :
  (if 0 <? (close_rows id rs (disk_rows d)).2 then outbox_save [] (close_rows id rs (disk_rows d)).1 (nd_outbox d)
   else (nd_outbox d, [], true)) = (file1, io1, b) ->
  outbox_load file1 = close_row_all id (List.filter rc_accepted rs) <$> disk_rows d /\ io1 = [].
Proof.
  rewrite <- close_rows_fmap. destruct (close_rows_matched id rs (disk_rows d)) as [Hm Hz].
  destruct (Z.ltb_spec 0 (close_rows id rs (disk_rows d)).2) as [Hlt|Hle]; intros E.
  - by apply outbox_save_nil in E as (-> & -> & _).
  - injection E as <- <- _. rewrite Hz by lia. done.
Qed.

Lemma load_rows_receipted env sid files rows j e : forall st,
  rows !! j = Some e -> is_someb (ob_receipted_at e) = true -> (load_rows env sid files st rows).2 !! j = Some e.
Proof.
  revert j. induction rows as [|e0 rows IH]; intros j st Hj He; [done|]. cbn [load_rows].
  destruct (load_row env sid files st e0) as [st1 e1] eqn:E. specialize (IH (pred j) st1).
  destruct (load_rows env sid files st1 rows) as [st2 l]. cbn [snd] in *. destruct j as [|j]; cbn in *.
  - injection Hj as ->. unfold load_row in E. rewrite He in E. by injection E as _ <-.
  - by apply IH.
Qed.

Lemma close_row_all_same id rs rows : Forall2 same_row rows (close_row_all id rs <$> rows).
Proof.
  apply fmap_same_row. intros e. unfold close_row_all. revert e. induction rs as [|r rs IH]; intros e; cbn; [apply same_row_refl|].
  eapply same_row_trans; [apply close_row_same|apply IH].
Qed.
End saves.

Section loop.
Context `{OutboxJsonLaws} `{!HashOps} `{!MarkerToml} `{AeadLaws} `{EnvelopeJsonLaws} `{Base64Laws} {V : Type} `{JsonSliceLaws V}
  `{EM : EntriesJson V ManifestEntry} `{ER : EntriesJson V Receipt}
  `{!EntriesJsonLaws V ManifestEntry} `{!EntriesJsonLaws V Receipt}.

(** What the travelling row finds on the stick: nothing that stands for it. *)
Record unseen (dest : text) (m : list ManifestEntry) (rs : list Receipt) (e : OutboxEntry) (x : ManifestEntry) : Prop := {
  us_manifest : existsb (aboard e) m = false;
  us_receipts : Forall (fun r => rc_shipment_id r <> ob_shipment_id e) rs;
  us_answers : ~ answered dest rs x
}.

(** The artifact under way: the manifest and the cargo have it, nobody has
    answered, and no other entry for the destination is in its way. *)
Record under_way (node : text) (m : list ManifestEntry) (rs : list Receipt) (cargo : gmap text bytes) (x : ManifestEntry) : Prop := {
  uw_entry : x ∈ m;
  uw_dest : me_dest x = node;
  uw_ship : me_shipment_id x <> [];
  uw_apart : Forall (apart x) (List.filter (for_node node) m);
  uw_answers : ~ answered node rs x;
  uw_cargo : exists c, cargo !! me_root x = Some c /\ hex32 (blob_root c) = me_root x
}.

Lemma aboard_apart e x y m :
  existsb (aboard e) m = false -> y ∈ m -> me_dest y = ob_dest e -> ob_shipment_id e <> [] ->
  me_root x = ob_root e -> me_shipment_id x = ob_shipment_id e -> apart x y.
Proof.
  intros Hm Hy Hd Hne Hr Hs. assert (aboard e y = false) as Ha.
  { apply not_true_iff_false. intros Ht. apply not_true_iff_false in Hm. apply Hm, existsb_exists. exists y.
    split; [by apply list_elem_of_In|done]. }
  unfold aboard in Ha. rewrite (bool_decide_false (ob_shipment_id e = [])) in Ha by done. split.
  - intros E. rewrite (bool_decide_true _ E), (bool_decide_true _ Hd) in Ha. cbn in Ha. rewrite andb_true_r in Ha.
    apply bool_decide_eq_false in Ha. congruence.
  - intros E. rewrite Hs in E. rewrite (bool_decide_false (me_shipment_id y = [])) in Ha by congruence. cbn in Ha.
    by apply bool_decide_eq_false in Ha.
Qed.

Lemma origin_plug env key id m rs stick d stick' d' o e b (hash_32 : forall b, is_bytes (blob_root b)) :
  is_nonce (pe_manifest_nonce env) -> is_nonce (pe_receipts_nonce env) ->
  opened_lists (V := V) (Some key) id stick = Some (m, rs) -> honest (sk_cargo stick) ->
  rows_ok u64_max (disk_rows d) -> waiting env (nd_files d) (disk_rows d) e b ->
  (forall p n, one_component p -> one_component n -> ob_path e <> incoming_path (pe_workspace env) p n) -> unseen (ob_dest e) m rs e (entry_of env e) ->
  plug_opened (V := V) env [] key id m rs stick d = (stick', d', o) -> written o ->
  exists m' rs', opened_lists (V := V) (Some key) id stick' = Some (m', rs') /\ sk_marker stick' = sk_marker stick /\
    under_way (ob_dest e) m' rs' (sk_cargo stick') (entry_of env e) /\ with_loaded_on id e ∈ disk_rows d'.
Proof.
  intros Hn1 Hn2 Ho Hh Hok Hw Hpath [Hab Hrs Hans] Hp Hwr.
  destruct (plug_opened_parts _ _ _ _ _ _ _ _ _ _ _ Hn1 Hn2 Ho Hp Hwr) as (st & file1 & io1 & ld & rows2 & [Hst [b1 Hcl] Hld (io2 & b2 & Hsv) Hli Hmk Hca _ _ _]).
  assert (in_io st = []) as Hio by (rewrite Hst; by apply ingest_fold_io).
  rewrite Hio in Hcl. apply closed_rows_saved in Hcl as [Hrows ->].
  set (rows1 := close_row_all id (List.filter rc_accepted (in_receipts st)) <$> disk_rows d) in *.
  assert (forall r, r ∈ in_receipts st -> r ∈ rs \/ rc_node r = pe_node env) as Hrec.
  { intros r Hr. rewrite Hst in Hr. apply ingest_fold_receipts in Hr as [Hr|(e' & _ & Hr & _)]; [by left|by right]. }
  assert (close_row_all id (List.filter rc_accepted (in_receipts st)) e = e) as Hcle.
  { apply close_row_all_none, Forall_forall. intros r Hr. apply list_elem_of_In, filter_In in Hr as [Hr _].
    apply list_elem_of_In, Hrec in Hr. unfold closes_row. apply not_true_iff_false. intros (_ & Hd & Hs & _)%closes_names.
    destruct Hr as [Hr|Hr]; [rewrite Forall_forall in Hrs; by apply (Hrs r Hr)|]. apply (wt_dest _ _ _ _ _ Hw). congruence. }
  assert (rows_ok u64_max rows1) as Hok1 by (eapply rows_ok_same; [apply close_row_all_same|done]).
  assert (in_files st !! ob_path e = Some b) as Hsrc.
  { rewrite Hst. unfold ingest_all. edestruct (ingest_fold_files env id (sk_cargo stick) (ledger_load (nd_ledger d))) as [->|(x & c & _ & _ & p & c' & Hso & Hpa & _ & Hh' & _)];
      [exact (wt_source _ _ _ _ _ Hw)|]. exfalso. refine (Hpath _ _ _ _ Hpa); [by apply safe_origin_ok in Hso as (_ & Hso & _)|].
    by apply (landed_name_one_component c'). }
  assert (waiting env (in_files st) rows1 e b) as Hw1.
  { destruct Hw as [He W1 W2 W3 _ W5]. split; try done. rewrite <- Hcle. by apply list_elem_of_fmap_2. }
  rewrite Hrows in Hld. pose proof (load_rows_ships env id (in_files st) u64_max rows1 e b
    (mkLoading m false (sk_cargo stick) [] false [] [] []) ltac:(lia) Hok1 Hw1 eq_refl Hab) as (Hm & Hc & i & Hi & Hi2 & Hdirty).
  pose proof (load_rows_loads env id (in_files st) rows1 (mkLoading m false (sk_cargo stick) [] false [] [] [])) as (Hio2 & Hh2 & _ & (ext & Hext & Hship) & _).
  rewrite Hld in *. cbn [fst snd ld_manifest ld_cargo ld_io] in *.
  exists (ld_manifest ld), (in_receipts st). split_and!; [done..| |].
  - pose proof (wt_ship _ _ _ _ _ Hw1) as Hne. split; [exact Hm|done|exact Hne| | |].
    + apply Forall_forall. intros y Hy. apply list_elem_of_In, filter_In in Hy as [Hy Hd]. apply list_elem_of_In in Hy.
      unfold for_node in Hd. apply bool_decide_eq_true in Hd. rewrite Hext in Hy. apply elem_of_app in Hy as [Hy|Hy].
      { eapply aboard_apart; done. }
      rewrite Forall_forall in Hship. destruct (Hship y Hy) as (Hor & e' & b' & He' & Hb' & Hroot & Hname & _ & Hyne & Hys).
      split; [done|]. cbn. intros Es. assert (e' = e) as ->.
      { apply (shipment_owner u64_max rows1); [lia|done|apply Hw1|done|done|]. rewrite <- Es. destruct Hys as [Hys|[? ?]]; [left; congruence|by right]. }
      rewrite Hsrc in Hb'. injection Hb' as <-. split_and!; [|done|done]. rewrite Hroot. apply Hw1.
    + intros (r & Hr & Ha). apply Hrec in Hr as [Hr|Hr]; [by apply Hans; exists r|].
      unfold answers_for in Ha. rewrite (bool_decide_false (rc_node r = _)) in Ha; [done|]. rewrite Hr. intros E. by apply (wt_dest _ _ _ _ _ Hw).
    + rewrite Hca. destruct Hc as [c Hc]. exists c. split; [exact Hc|]. exact (Hh2 eq_refl Hh _ _ Hc).
  - unfold disk_rows. destruct (ld_dirty ld) eqn:Ed.
    + rewrite Hio2 in Hsv by done. apply outbox_save_nil in Hsv as (-> & _). by eapply list_elem_of_lookup_2.
    + injection Hsv as <- _ _. rewrite Hrows. specialize (Hdirty eq_refl).
      assert (with_loaded_on id e = e) as -> by (destruct e; cbn in *; by rewrite Hdirty). by eapply list_elem_of_lookup_2.
Qed.

Lemma hash_component c : is_bytes (blob_root c) -> blob_root c <> [] -> path_component (hex32 (blob_root c)) = true.
Proof.
  intros Hb Hne. pose proof (hex_bytes_ascii _ Hb) as Ha. unfold hex32. rewrite Forall_forall in Ha. unfold path_component.
  assert (hex_bytes (blob_root c) <> []) as Hn by (destruct (blob_root c); done).
  rewrite (bool_decide_false (_ = [])) by done. cbn [negb andb].
  rewrite !bool_decide_false; [done| | | |].
  - intros Hz%Ha. lia.
  - intros Hz%Ha. lia.
  - intros E. rewrite E in Ha. specialize (Ha 46 ltac:(set_solver)). lia.
  - intros E. rewrite E in Ha. specialize (Ha 46 ltac:(set_solver)). lia.
Qed.

Lemma destination_plug env key id m rs stick d stick' d' o x origin
    (hash_32 : forall b, is_bytes (blob_root b) /\ length (blob_root b) = 32%nat) :
  is_nonce (pe_manifest_nonce env) -> is_nonce (pe_receipts_nonce env) ->
  opened_lists (V := V) (Some key) id stick = Some (m, rs) ->
  under_way (pe_node env) m rs (sk_cargo stick) x -> safe_origin (me_origin x) = Ok origin ->
  plug_opened (V := V) env [] key id m rs stick d = (stick', d', o) -> written o ->
  (me_name x, me_origin x) ∈ pr_verified (po_report o) /\
  exists m' rs' r, opened_lists (V := V) (Some key) id stick' = Some (m', rs') /\ sk_marker stick' = sk_marker stick /\
    r ∈ rs' /\ arrived (pe_node env) x r.
Proof.
  intros Hn1 Hn2 Ho [Hx Hd Hne Hap Hna (c & Hc & Hh)] Hor Hp Hwr.
  destruct (plug_opened_parts _ _ _ _ _ _ _ _ _ _ _ Hn1 Hn2 Ho Hp Hwr) as (st & file1 & io1 & ld & rows2 & [Hst _ _ _ Hli Hmk _ _ _ Hv]).
  assert (cargo_read env (sk_cargo stick) (me_root x) = Some c) as Hcr.
  { unfold cargo_read. destruct (hash_32 c) as [Hb Hl]. rewrite <- Hh, hash_component; [by rewrite Hh|done|by destruct (blob_root c)]. }
  destruct (ingest_fold_ships env id (sk_cargo stick) (ledger_load (nd_ledger d)) x origin c (List.filter (for_node (pe_node env)) m)
    Hor Hcr Hh Hne) with (st := mkIngest rs (nd_files d) [] [] [] 0 0 0 [] false) as [(r & Hr & Ha) Hver]; [|done|done|done|].
  { apply list_elem_of_In, filter_In. split; [by apply list_elem_of_In|]. unfold for_node. by apply bool_decide_eq_true_2. }
  unfold ingest_all in Hst. rewrite <- Hst in Hver, Hr. rewrite Hv. split; [exact Hver|].
  exists (ld_manifest ld), (in_receipts st), r. done.
Qed.

Lemma receipt_plug env key id m rs stick d stick' d' o e r :
  is_nonce (pe_manifest_nonce env) -> is_nonce (pe_receipts_nonce env) ->
  opened_lists (V := V) (Some key) id stick = Some (m, rs) ->
  e ∈ disk_rows d -> r ∈ rs -> rc_accepted r = true -> closes_row id r e = true ->
  plug_opened (V := V) env [] key id m rs stick d = (stick', d', o) -> written o ->
  exists e', e' ∈ disk_rows d' /\ ob_id e' = ob_id e /\ ob_dest e' = ob_dest e /\ is_someb (ob_receipted_at e') = true.
Proof.
  intros Hn1 Hn2 Ho He Hr Hacc Hcl Hp Hwr.
  destruct (plug_opened_parts _ _ _ _ _ _ _ _ _ _ _ Hn1 Hn2 Ho Hp Hwr) as (st & file1 & io1 & ld & rows2 & [Hst [b1 Hcl1] Hld (io2 & b2 & Hsv) _ _ _ _ _ _]).
  assert (in_io st = []) as Hio by (rewrite Hst; by apply ingest_fold_io).
  rewrite Hio in Hcl1. apply closed_rows_saved in Hcl1 as [Hrows ->].
  set (rs1 := List.filter rc_accepted (in_receipts st)) in *.
  assert (r ∈ rs1) as Hr1.
  { apply list_elem_of_In, filter_In. split; [|done]. apply list_elem_of_In. rewrite Hst. by apply ingest_fold_keeps. }
  pose proof (close_row_all_closes id rs1 e r Hr1 Hcl) as Hdone.
  assert (same_row e (close_row_all id rs1 e)) as (Hid & Hde & _).
  { pose proof (close_row_all_same id rs1 [e]) as Hs. by inversion Hs. }
  exists (close_row_all id rs1 e). split_and!; [|done..].
  apply list_elem_of_lookup in He as [j Hj]. assert (outbox_load file1 !! j = Some (close_row_all id rs1 e)) as Hj1.
  { by rewrite Hrows, list_lookup_fmap, Hj. }
  pose proof (load_rows_receipted env id (in_files st) (outbox_load file1) j _
    (mkLoading m false (sk_cargo stick) [] false [] [] []) Hj1 Hdone) as Hj2.
  destruct (load_rows_loads env id (in_files st) (outbox_load file1) (mkLoading m false (sk_cargo stick) [] false [] [] [])) as (Hio2 & _).
  rewrite Hld in Hj2, Hio2. cbn [fst snd ld_io] in *. unfold disk_rows. destruct (ld_dirty ld).
  - rewrite Hio2 in Hsv by done. apply outbox_save_nil in Hsv as (-> & _). by eapply list_elem_of_lookup_2.
  - injection Hsv as <- _ _. by eapply list_elem_of_lookup_2.
Qed.

(** What the three plugs of the loop need of the world: nonces, a stick with an
    identity whose lists open and whose cargo is sound, an outbox as the
    operations make it, a row waiting for the destination with its source
    unchanged and outside the incoming tree, and nothing aboard yet that stands
    for it. *)
Record loop_setup (envA envB envA' : PlugEnv) key id m rs stick d e b : Prop := {
  ls_nonces : Forall (fun env => is_nonce (pe_manifest_nonce env) /\ is_nonce (pe_receipts_nonce env)) [envA; envB; envA'];
  ls_marker : exists v n, sk_marker stick ≫= parse_marker = Some (mkMarker v n (Some id));
  ls_lists : opened_lists (V := V) (Some key) id stick = Some (m, rs);
  ls_cargo : honest (sk_cargo stick);
  ls_rows : rows_ok u64_max (disk_rows d);
  ls_row : waiting envA (nd_files d) (disk_rows d) e b;
  ls_path : forall p n, one_component p -> one_component n -> ob_path e <> incoming_path (pe_workspace envA) p n;
  ls_unseen : unseen (ob_dest e) m rs e (entry_of envA e);
  ls_dest : ob_dest e = pe_node envB;
  ls_home : pe_node envA' = pe_node envA;
  ls_origin : exists origin, safe_origin (pe_node envA) = Ok origin
}.

(** C9: The loop closes: when a stick is plugged into the origin, then into the
    destination, then into the origin again, with every write succeeding, the
    destination reports the artifact verified and ingested, and the row at the
    origin is marked delivered.  The conditions, all of them ([loop_setup]): the
    nodes share the stick's key, nonces have their 12 bytes; the stick's marker
    has an id, its sealed lists open and its cargo is what its names say; the
    outbox of the origin is as its operations leave it, with an open row for
    another node whose source file is unchanged since it was queued and is not
    inside the incoming tree; nothing aboard stands for that row yet, neither an
    entry of its shipment id nor a receipt for it; the origin's name is a safe
    directory name; and nobody changes the stick between the plugs, nor the
    origin's disk between its two.  The shipment id is where this can go wrong:
    two origins, or one after a cancel, may use the same one
    ([CourierRuns.shipment_ids_collide_across_origins],
    [CourierRuns.cancelled_id_is_reused]). *)
Theorem courier_loop_closes envA envB envA' key id m rs stick d e b dB s1 d1 o1 s2 dB' o2 s3 d2 o3
    (hash_32 : forall b, is_bytes (blob_root b) /\ length (blob_root b) = 32%nat) :
  loop_setup envA envB envA' key id m rs stick d e b ->
  process_plug (V := V) envA [] (Some key) stick d = (s1, d1, Some o1) -> written o1 ->
  process_plug (V := V) envB [] (Some key) s1 dB = (s2, dB', Some o2) -> written o2 ->
  process_plug (V := V) envA' [] (Some key) s2 d1 = (s3, d2, Some o3) -> written o3 ->
  (ob_name e, pe_node envA) ∈ pr_verified (po_report o2) /\
  exists e', e' ∈ disk_rows d2 /\ ob_id e' = ob_id e /\ ob_dest e' = ob_dest e /\ is_someb (ob_receipted_at e') = true.
Proof.
  intros [Hns (v & n & Hmk) Ho Hh Hok Hw Hpath Hun Hdest Hhome (or & Hor)] P1 W1 P2 W2 P3 W3.
  rewrite Forall_cons, Forall_cons, Forall_cons in Hns. destruct Hns as ([NA1 NA2] & [NB1 NB2] & [NC1 NC2] & _).
  rewrite (process_plug_opened _ _ _ _ _ _ _ _ _ Hmk eq_refl Ho) in P1.
  destruct (plug_opened envA [] key id m rs stick d) as [[s d'] o] eqn:E1. injection P1 as -> -> ->.
  destruct (origin_plug _ _ _ _ _ _ _ _ _ _ _ _ (fun b => proj1 (hash_32 b)) NA1 NA2 Ho Hh Hok Hw Hpath Hun E1 W1)
    as (m1 & rs1 & Ho1 & Hmk1 & Huw & Hrow).
  rewrite <- Hmk1 in Hmk. rewrite (process_plug_opened _ _ _ _ _ _ _ _ _ Hmk eq_refl Ho1) in P2.
  destruct (plug_opened envB [] key id m1 rs1 s1 dB) as [[s d'] o] eqn:E2. injection P2 as -> -> ->. rewrite Hdest in Huw.
  destruct (destination_plug _ _ _ _ _ _ _ _ _ _ _ or hash_32 NB1 NB2 Ho1 Huw Hor E2 W2)
    as (Hver & m2 & rs2 & r & Ho2 & Hmk2 & Hr & Hacc & Hrn & Hrr & Hrs).
  rewrite <- Hmk2 in Hmk. rewrite (process_plug_opened _ _ _ _ _ _ _ _ _ Hmk eq_refl Ho2) in P3.
  destruct (plug_opened envA' [] key id m2 rs2 s2 d1) as [[s d'] o] eqn:E3. injection P3 as -> -> ->.
  split; [exact Hver|].
  eapply (receipt_plug envA' key id m2 rs2 s2 d1 s3 d2 o3 (with_loaded_on id e) r NC1 NC2 Ho2 Hrow Hr Hacc); [|exact E3|exact W3].
  unfold closes_row, receipt_closes_outbox. cbn in Hrr, Hrs |- *. rewrite (wt_open _ _ _ _ _ Hw). cbn.
  rewrite Hrn, Hrs, Hrr, Hdest. pose proof (wt_ship _ _ _ _ _ Hw).
  rewrite (bool_decide_false (ob_shipment_id e = [])) by done.
  rewrite (bool_decide_true (pe_node envB = _)), (bool_decide_true (ob_shipment_id e = _)), (bool_decide_true (ob_root e = ob_root e)),
    (bool_decide_true (id = id)) by done. cbn. by rewrite !andb_false_r.
Qed.
End loop.
