(* ===== verification/CourierLanes.v ===== *)
(** * Messages to another node, over the three lanes

    [plugins/src/wifi_lan.rs], the [MeshTransport] of [courier.rs] and the
    cross-node arm of [send_to_agent] in [supervisor.rs], on the router of
    [MeshRouter] and the radio lane of [MeshLink].  [Lanes] is the state the
    three lanes live in.  Third-party: the JSON of an envelope, the TOML of
    [peers.toml]; a peer's answer to a POST is an argument. *)
From S2P Require Import Prelude Text Wire Framing Chunker MeshRouter MeshLink Courier CourierPlug CourierLoop.

(** ** Data *)

Record A2aEnvelope := mkEnvelope {
  ae_node : text; ae_session_id : Z; ae_message : text; ae_from : text; ae_origin_session : option Z
}.

#[export] Instance A2aEnvelope_eq_dec : EqDecision A2aEnvelope.
Proof. solve_decision. Defined.

Class A2aJson := { a2a_to_vec : A2aEnvelope -> option bytes; a2a_from_slice : bytes -> option A2aEnvelope }.
Class A2aJsonLaws `{!A2aJson} : Prop := { a2a_back e b : a2a_to_vec e = Some b -> a2a_from_slice b = Some e }.

Record PeerDest := mkDest { pd_ws_url : text; pd_token : option text; pd_radio_id : option Z }.

(** [peers.toml] as this lane reads it: an id and a destination per row. *)
Class LanToml := { lan_peers : text -> option (list (text * PeerDest)) }.

(** ** Peers *)

(** [s.split_once(c)]. *)
Fixpoint split_once (c : Z) (s : text) : option (text * text) :=
  match s with
  | [] => None
  | x :: r => if x =? c then Some ([], r) else '(a, b) ← split_once c r; Some (x :: a, b)
  end.

(** The number a [u16] prints as; a leading [+] is allowed. *)
Definition parse_u16 (s : text) : option Z := n ← parse_u64 s; if n <=? u16_max then Some n else None.

(** A part without [=] before the one looked for ends the search. *)
Fixpoint radio_map_parts (node_id : text) (parts : list text) : option Z :=
  match parts with
  | [] => None
  | part :: parts =>
      '(name, id) ← split_once 61 part;
      if bool_decide (trim name = node_id) then parse_u16 (trim id) else radio_map_parts node_id parts
  end.

Definition radio_map_lookup (var : option text) (node_id : text) : option Z :=
  raw ← var; radio_map_parts node_id (split_on 44 raw).

Section peers.
Context `{!LanToml}.

Definition lookup_peer (var : option text) (file : option text) (node_id : text) : option PeerDest :=
  raw ← file;
  rows ← lan_peers raw;
  '(_, p) ← List.find (fun r => bool_decide (r.1 = node_id)) rows;
  Some (mkDest (pd_ws_url p) (pd_token p)
          (match pd_radio_id p with Some r => Some r | None => radio_map_lookup var node_id end)).

Definition radio_for_peer (var : option text) (file : option text) (node_id : text) : option Z :=
  match lookup_peer var file node_id ≫= pd_radio_id with Some r => Some r | None => radio_map_lookup var node_id end.
End peers.

(** ** The lanes *)

Section lanes.
Context {Ch : Type} `{!BroadcastOps Ch} `{!PostcardOps MeshFrame} `{!PostcardOps PlainPacket} `{!A2aJson} `{!LanToml}
  `{!OutboxJson} `{!HashOps}.

(** What becomes of a POST within its 15 seconds: the peer takes the message and
    its success is heard; the peer takes it and the answer is late, lost or
    reads as a failure; the message is not taken. *)
Inductive PeerAnswer := Acknowledged | TakenUnheard | NotTaken.

#[export] Instance PeerAnswer_eq_dec : EqDecision PeerAnswer.
Proof. solve_decision. Defined.

(** The LAN's health flag, the envelopes peers took, the radio link, the
    courier's disk and the outcomes of its next writes (a call sends once). *)
Record Lanes := mkLanes {
  ln_wifi : TransportHealth;
  ln_posted : list A2aEnvelope;
  ln_link : MeshLink Ch;
  ln_disk : CourierDisk;
  ln_io : list FsWrite
}.

(** One call: the files and the clock it reads, and what a peer answers. *)
Record LaneEnv := mkLaneEnv {
  le_radio_map : option text;
  le_peers_toml : option text;
  le_answers : PeerDest -> A2aEnvelope -> PeerAnswer;
  le_workspace : text;
  le_timestamp : Z;
  le_now_iso : text
}.

Definition encode_a2a_frame (target : Z) (env : A2aEnvelope) : option MeshFrame :=
  body ← a2a_to_vec env;
  mkFrame WIRE_VERSION Gossip 0 1 <$> to_allocvec (mkPacket target DEFAULT_HOP_LIMIT 0 (A2A body)).

(** The envelope a frame carries: what [WifiLan] and [Courier] decode. *)
Inductive Opened := Undecodable | NotA2a | BadEnvelope | Envelope (env : A2aEnvelope) (len : Z).

Definition open_a2a (f : MeshFrame) : Opened :=
  match take_from_bytes (A := PlainPacket) (ct f) with
  | None => Undecodable
  | Some (packet, _) =>
      match payload packet with
      | A2A body => match a2a_from_slice body with Some env => Envelope env (zlen body) | None => BadEnvelope end
      | _ => NotA2a
      end
  end.

(** The answer counts when it is heard, its status a success and [ok] not
    [false]. *)
Definition http_deliver_a2a (le : LaneEnv) (env : A2aEnvelope) (w : Lanes) : Lanes * bool :=
  let posted := mkLanes (ln_wifi w) (ln_posted w ++ [env]) (ln_link w) (ln_disk w) (ln_io w) in
  match lookup_peer (le_radio_map le) (le_peers_toml le) (ae_node env) with
  | None => (w, false)
  | Some dest =>
      match le_answers le dest env with
      | Acknowledged => (posted, true)
      | TakenUnheard => (posted, false)
      | NotTaken => (w, false)
      end
  end.

Definition wifi_send (le : LaneEnv) (w : Lanes) (f : MeshFrame) : Lanes * result SendReceipt SendError :=
  match open_a2a f with
  | Undecodable => (w, Err (Failed (chars "wifi-lan: undecodable frame")))
  | NotA2a => (w, Err (Failed (chars "wifi-lan: only A2A frames ride this lane in P5d")))
  | BadEnvelope => (w, Err (Failed (chars "wifi-lan: a2a envelope")))
  | Envelope env len =>
      let '(w, ok) := http_deliver_a2a le env w in
      if ok then (w, Ok (mkReceipt WifiLan len))
      else (mkLanes Flaky (ln_posted w) (ln_link w) (ln_disk w) (ln_io w), Err (Failed (chars "delivery failed")))
  end.

Definition wifi_lan_transport (le : LaneEnv) : MeshTransport Lanes :=
  mkTransport WifiLan (64 * 1024) Interactive ln_wifi (wifi_send le).

(** The radio lane on the shared state. *)
Definition lane_ble : MeshTransport Lanes :=
  mkTransport BleGossip (t_mtu (ble_gossip_transport (Ch := Ch))) Background (fun w => ble_health (ln_link w))
    (fun w f => let '(l, r) := ble_send (ln_link w) f in
                (mkLanes (ln_wifi w) (ln_posted w) l (ln_disk w) (ln_io w), r)).

Definition pending_path (le : LaneEnv) (env : A2aEnvelope) : text :=
  join (join (le_workspace le) (chars "courier-pending"))
    (chars "a2a-" ++ ae_node env ++ chars "-" ++ dec_text (le_timestamp le) ++ chars ".md").

Definition pending_text (env : A2aEnvelope) : text :=
  chars "# queued a2a for " ++ ae_node env ++ [10; 10] ++ chars "from: " ++ ae_from env ++ [10]
  ++ chars "session: " ++ dec_text (ae_session_id env) ++ [10; 10] ++ ae_message env ++ [10].

(** The message becomes a file, the file a row of the outbox.  The name of the
    row is the last component of the path. *)
Definition courier_send (le : LaneEnv) (w : Lanes) (f : MeshFrame) : Lanes * result SendReceipt SendError :=
  match open_a2a f with
  | Undecodable => (w, Err (Failed (chars "courier: undecodable frame")))
  | NotA2a => (w, Err (Failed (chars "courier: only A2A overflow rides this lane in P5d")))
  | BadEnvelope => (w, Err (Failed (chars "courier: envelope")))
  | Envelope env _ =>
      let path := pending_path le env in
      let name := chars "a2a-" ++ ae_node env ++ chars "-" ++ dec_text (le_timestamp le) ++ chars ".md" in
      let b := as_bytes (pending_text env) in
      let '(wr, io) := next (ln_io w) in
      let d := ln_disk w in
      let put c := with_files (<[path := c]> (nd_files d)) d in
      match wr with
      | WroteNone => (mkLanes (ln_wifi w) (ln_posted w) (ln_link w) d io, Err (Failed (chars "courier: write")))
      | WroteCut n => (mkLanes (ln_wifi w) (ln_posted w) (ln_link w) (put (take n b)) io, Err (Failed (chars "courier: write")))
      | WroteAll =>
          let '(d, r) := queue_artifact io (le_now_iso le) (Some (true, zlen b)) (Some b) path (ae_node env) name (put b) in
          (mkLanes (ln_wifi w) (ln_posted w) (ln_link w) d [],
           match r with Ok e => Ok (mkReceipt MeshRouter.Courier (ob_len e)) | Err _ => Err (Failed (chars "courier: queue")) end)
      end
  end.

Definition courier_transport (le : LaneEnv) : MeshTransport Lanes :=
  mkTransport MeshRouter.Courier MAX_ARTIFACT_BYTES Overnight (fun _ => Up) (courier_send le).

(** The three lanes [main.rs] installs. *)
Definition installed_router (le : LaneEnv) : Router Lanes :=
  router_new [wifi_lan_transport le; lane_ble; courier_transport le] 2048.

(** ** [send_to_agent] with a node *)

Inductive SendReply :=
  | PeerNotFound | A2aEncode | SentDirect (ok : bool) | SentVia (o : RouteOutcome) (need_radio_id : bool).

Definition send_ok (r : SendReply) : bool :=
  match r with SentDirect ok => ok | SentVia o _ => delivered o | _ => false end.

Definition send_to_agent (le : LaneEnv) (hub_installed : bool) (env : A2aEnvelope) (w : Lanes) : Lanes * SendReply :=
  match lookup_peer (le_radio_map le) (le_peers_toml le) (ae_node env) with
  | None => (w, PeerNotFound)
  | Some _ =>
      let radio := default 0 (radio_for_peer (le_radio_map le) (le_peers_toml le) (ae_node env)) in
      if negb hub_installed then let '(w, ok) := http_deliver_a2a le env w in (w, SentDirect ok)
      else
        match encode_a2a_frame radio env with
        | None => (w, A2aEncode)
        | Some f =>
            let '(w, o) := router_send (installed_router le) w Gossip f in
            (w, SentVia o (negb (delivered o)
                           && existsb (fun x => bool_decide (x.1 = BleGossip)) (failed o) && (radio =? 0)))
        end
  end.
End lanes.
Arguments Lanes : clear implicits.

(** ** A message that fits a datagram is never lost *)

Section lanes_lemmas.
Context {Ch : Type} `{!BroadcastOps Ch} `{!PostcardOps MeshFrame} `{PostcardLaws PlainPacket} `{A2aJsonLaws} `{!LanToml}
  `{OutboxJsonLaws} `{!HashOps}.
Implicit Types (w : Lanes Ch) (env : A2aEnvelope).

Lemma encoded_opens target env f : encode_a2a_frame target env = Some f -> exists n, open_a2a f = Envelope env n.
Proof.
  unfold encode_a2a_frame, open_a2a. destruct (a2a_to_vec env) as [body|] eqn:Eb; cbn; [|done].
  destruct (to_allocvec _) as [b|] eqn:Ep; cbn; [|done]. intros [= <-]. cbn.
  rewrite <- (app_nil_r b), (postcard_roundtrip _ _ [] Ep). cbn. rewrite (a2a_back _ _ Eb). by eexists.
Qed.

(** How the message can be on its way: a peer took it and said so, the bridge of
    the board did, or it waits in the outbox with its text. *)
Definition taken_by_peer env w w' : Prop :=
  ln_posted w' = ln_posted w ++ [env] /\ ln_disk w' = ln_disk w.
Definition taken_by_radio (f : MeshFrame) w w' : Prop :=
  ln_disk w' = ln_disk w /\
  exists b, encode_datagram f = Ok b /\ bc_send (outbound (ln_link w)) b = (outbound (ln_link w'), true).
Definition waits_for_stick (le : LaneEnv) env w' : Prop :=
  nd_files (ln_disk w') !! pending_path le env = Some (as_bytes (pending_text env)) /\
  exists e, e ∈ disk_rows (ln_disk w') /\ ob_dest e = ae_node env /\ ob_receipted_at e = None /\
    ob_root e = hex32 (blob_root (as_bytes (pending_text env))).

(** Nothing was posted since [w], or once, unheard. *)
Definition posted_unheard (le : LaneEnv) (dest : PeerDest) env w w' : Prop :=
  ln_posted w' = ln_posted w \/ (le_answers le dest env = TakenUnheard /\ ln_posted w' = ln_posted w ++ [env]).

Lemma queue_waits now path dest name b d :
  zlen b <= MAX_ARTIFACT_BYTES ->
  exists e, (queue_artifact [] now (Some (true, zlen b)) (Some b) path dest name d).2 = Ok e /\
    nd_files (queue_artifact [] now (Some (true, zlen b)) (Some b) path dest name d).1 = nd_files d /\
    e ∈ disk_rows (queue_artifact [] now (Some (true, zlen b)) (Some b) path dest name d).1 /\
    ob_dest e = dest /\ ob_receipted_at e = None /\ ob_root e = hex32 (blob_root b).
Proof.
  intros Hl. unfold queue_artifact. destruct (Z.ltb_spec MAX_ARTIFACT_BYTES (zlen b)); [lia|].
  destruct (List.find _ _) as [e|] eqn:Ef.
  - exists e. apply List.find_some in Ef as [Hin Hp]. apply andb_true_iff in Hp as [[Hr Hd]%andb_true_iff Ho].
    apply bool_decide_eq_true in Hr, Hd. cbn. split_and!; try done; [by apply list_elem_of_In|by destruct (ob_receipted_at e)].
  - set (e := mkOutbox _ _ _ _ _ _ _ _ _ _).
    destruct (outbox_save [] _ (nd_outbox d)) as [[file io] ok] eqn:Es. apply outbox_save_nil in Es as (Hrows & _ & ->).
    exists e. split_and!; try done. unfold disk_rows. cbn. rewrite Hrows. set_solver.
Qed.

Lemma courier_send_waits le w f env n :
  open_a2a f = Envelope env n -> ln_io w = [] -> zlen (as_bytes (pending_text env)) <= MAX_ARTIFACT_BYTES ->
  exists r, (courier_send le w f).2 = Ok r /\ waits_for_stick le env (courier_send le w f).1 /\
    ln_posted (courier_send le w f).1 = ln_posted w.
Proof.
  intros Ho Hio Hl. unfold courier_send. rewrite Ho, Hio. cbn [next].
  match goal with |- context [queue_artifact [] ?now ?m ?c ?p ?dst ?nm ?d] =>
    destruct (queue_waits now p dst nm (as_bytes (pending_text env)) d Hl) as (e & Hr & Hf & He & Hd & Ho' & Hroot);
    destruct (queue_artifact [] now m c p dst nm d) as [d' r] end.
  cbn [fst snd] in *. subst r. eexists. split; [done|]. split; [|done]. split; [|by exists e].
  cbn. rewrite Hf. cbn. apply lookup_insert_eq.
Qed.

Lemma wifi_send_takes le w f env n dest :
  open_a2a f = Envelope env n -> lookup_peer (le_radio_map le) (le_peers_toml le) (ae_node env) = Some dest ->
  match le_answers le dest env with
  | Acknowledged => (exists r, (wifi_send le w f).2 = Ok r) /\ taken_by_peer env w (wifi_send le w f).1
  | TakenUnheard => (exists x, (wifi_send le w f).2 = Err x) /\
      (wifi_send le w f).1 = mkLanes Flaky (ln_posted w ++ [env]) (ln_link w) (ln_disk w) (ln_io w)
  | NotTaken => (exists x, (wifi_send le w f).2 = Err x) /\
      (wifi_send le w f).1 = mkLanes Flaky (ln_posted w) (ln_link w) (ln_disk w) (ln_io w)
  end.
Proof.
  intros Ho Hd. unfold wifi_send. rewrite Ho. unfold http_deliver_a2a. rewrite Hd.
  destruct (le_answers le dest env); cbn; split; first [by eexists|done].
Qed.

Lemma lane_ble_takes w f :
  match t_send lane_ble w f with
  | (w', Ok _) => taken_by_radio f w w' /\ ln_posted w' = ln_posted w
  | (w', Err _) => ln_posted w' = ln_posted w /\ ln_disk w' = ln_disk w /\ ln_io w' = ln_io w /\ ln_wifi w' = ln_wifi w
  end.
Proof.
  cbn. unfold ble_send. destruct (match take_from_bytes (ct f) with Some (packet, _) => _ | None => false end); [done|].
  destruct (encode_datagram f) as [b|] eqn:E; [|done]. destruct (bc_send (outbound (ln_link w)) b) as [ch []] eqn:Eb; [|done].
  split; [|done]. split; [done|]. exists b. by rewrite E.
Qed.

Lemma frame_fits_lanes le w f :
  frame_len f <= MAX_DATAGRAM_FRAME ->
  fits w (frame_len f) (wifi_lan_transport le) = usable (ln_wifi w) /\
  fits w (frame_len f) lane_ble = usable (ble_health (ln_link w)) /\
  fits w (frame_len f) (courier_transport le) = true.
Proof.
  intros Hl. unfold fits. cbn. assert ((frame_len f <=? 64 * 1024) = true) as -> by (unfold MAX_DATAGRAM_FRAME in Hl; lia).
  assert ((frame_len f <=? 248) = true) as -> by (unfold MAX_DATAGRAM_FRAME in Hl; lia).
  assert ((frame_len f <=? MAX_ARTIFACT_BYTES) = true) as -> by (unfold MAX_DATAGRAM_FRAME, MAX_ARTIFACT_BYTES in *; lia).
  by rewrite !andb_true_r.
Qed.

(** What became of the message: one lane vouches for it, and a peer may have it
    besides, unheard. *)
Definition carried_once (le : LaneEnv) (dest : PeerDest) (f : MeshFrame) env w w' : Prop :=
  (le_answers le dest env = Acknowledged /\ taken_by_peer env w w') \/
  ((taken_by_radio f w w' \/ waits_for_stick le env w') /\ posted_unheard le dest env w w').

Lemma radio_from f w0 w w' :
  ln_disk w0 = ln_disk w -> ln_link w0 = ln_link w -> taken_by_radio f w w' -> taken_by_radio f w0 w'.
Proof. intros E2 E3 (Hd & b & He & Hb). split; [congruence|]. exists b. by rewrite E3. Qed.

Lemma unheard_same le dest env w0 w w' : posted_unheard le dest env w0 w -> ln_posted w' = ln_posted w -> posted_unheard le dest env w0 w'.
Proof. unfold posted_unheard. by intros Hp ->. Qed.

(** The two lanes below the LAN, tried in order from a state in which nothing
    was posted since [w0], or once, unheard. *)
Lemma fallback_carries le dest w0 w f env n tried o :
  open_a2a f = Envelope env n -> frame_len f <= MAX_DATAGRAM_FRAME ->
  zlen (as_bytes (pending_text env)) <= MAX_ARTIFACT_BYTES ->
  posted_unheard le dest env w0 w -> ln_disk w0 = ln_disk w -> ln_link w0 = ln_link w -> ln_io w = [] ->
  (MeshRouter.Courier ∉ tried) -> (BleGossip ∉ tried) -> sent o = [] ->
  let '(w', o') := send_fallback tried f (frame_len f) [lane_ble; courier_transport le] w o in
  delivered o' = true /\ zlen (sent o') = 1 /\ carried_once le dest f env w0 w'.
Proof.
  intros Ho Hl Hs E1 E2 E3 Hio Hc Hb Hsent. cbn [send_fallback].
  change (t_id (lane_ble (Ch := Ch))) with BleGossip. change (t_id (courier_transport (Ch := Ch) le)) with MeshRouter.Courier.
  rewrite !bool_decide_false by done. destruct (frame_fits_lanes le w f Hl) as (_ & Hfb & _).
  assert (forall w1 o1, ln_posted w1 = ln_posted w -> ln_io w1 = [] -> sent o1 = [] ->
    let '(w', o') := (if negb (fits w1 (frame_len f) (courier_transport le)) then (w1, o1)
       else let '(w2, r) := t_send (courier_transport le) w1 f in
            match r with Ok _ => (w2, record_send o1 MeshRouter.Courier r) | Err _ => (w2, record_send o1 MeshRouter.Courier r) end) in
    delivered o' = true /\ zlen (sent o') = 1 /\ carried_once le dest f env w0 w') as Hcourier.
  { intros w1 o1 Hp Hio1 Ho1. destruct (frame_fits_lanes le w1 f Hl) as (_ & _ & ->). cbn [negb t_send courier_transport].
    destruct (courier_send_waits le w1 f env n Ho Hio1 Hs) as (r & Hr & Hw).
    destruct (courier_send le w1 f) as [w2 r']. cbn [fst snd] in *. subst r'. cbn [record_send]. unfold delivered. cbn [sent]. rewrite Ho1.
    split_and!; [done..|]. right. destruct Hw as [Hw Hp']. split; [by right|]. eapply unheard_same; [exact E1|congruence]. }
  rewrite Hfb. destruct (usable (ble_health (ln_link w))); cbn [negb]; [|exact (Hcourier w o eq_refl Hio Hsent)].
  pose proof (lane_ble_takes w f) as Hble. destruct (t_send lane_ble w f) as [w1 [r|x]].
  - cbn [record_send]. unfold delivered. cbn [sent]. rewrite Hsent. split_and!; [done..|]. right.
    destruct Hble as [Hble Hp]. split; [left; by eapply radio_from|by eapply unheard_same].
  - destruct Hble as (B1 & B2 & B3 & _). apply Hcourier; [done|congruence|done].
Qed.

(** The courier alone, tried first or last. *)
Lemma courier_carries le dest w0 w f env n o :
  open_a2a f = Envelope env n -> zlen (as_bytes (pending_text env)) <= MAX_ARTIFACT_BYTES ->
  posted_unheard le dest env w0 w -> ln_io w = [] -> sent o = [] ->
  exists w' r, t_send (courier_transport le) w f = (w', Ok r) /\
    sent (record_send o MeshRouter.Courier (Ok r)) = [r] /\ carried_once le dest f env w0 w'.
Proof.
  intros Ho Hs E Hio Hsent. destruct (courier_send_waits le w f env n Ho Hio Hs) as (r & Hr & Hw). cbn [t_send courier_transport].
  destruct (courier_send le w f) as [w2 r']. cbn [fst snd] in *. subst r'. exists w2, r. cbn. rewrite Hsent.
  split_and!; [done..|]. right. destruct Hw as [Hw Hp]. split; [by right|by eapply unheard_same].
Qed.

(** The LAN tried when it is not the last resort: it takes the message, or
    leaves everything as it was but its own health and, unheard, the peer's
    copy. *)
Lemma wifi_carries le dest w f env n :
  open_a2a f = Envelope env n -> lookup_peer (le_radio_map le) (le_peers_toml le) (ae_node env) = Some dest ->
  (exists w' r, t_send (wifi_lan_transport le) w f = (w', Ok r) /\ le_answers le dest env = Acknowledged /\ taken_by_peer env w w') \/
  (exists w' x, t_send (wifi_lan_transport le) w f = (w', Err x) /\ posted_unheard le dest env w w' /\
     ln_link w' = ln_link w /\ ln_disk w' = ln_disk w /\ ln_io w' = ln_io w).
Proof.
  intros Ho Hd. pose proof (wifi_send_takes le w f env n dest Ho Hd) as Hw. cbn [t_send wifi_lan_transport].
  unfold posted_unheard. destruct (wifi_send le w f) as [w' r]. destruct (le_answers le dest env); cbn [fst snd] in Hw.
  - left. destruct Hw as ((r' & ->) & Ht). by exists w', r'.
  - right. destruct Hw as ((x & ->) & ->). eexists _, x. split_and!; try done. by right.
  - right. destruct Hw as ((x & ->) & ->). eexists _, x. split_and!; try done. by left.
Qed.

(** The lane the router tries first. *)
Lemma first_lane le w f :
  frame_len f <= MAX_DATAGRAM_FRAME ->
  route (installed_router le) w Gossip (frame_len f)
  = [match ln_wifi w with
     | Up => WifiLan
     | _ => match ble_health (ln_link w) with Up => BleGossip | _ => MeshRouter.Courier end
     end].
Proof.
  intros Hl. unfold route. change (transports (installed_router le)) with [wifi_lan_transport (Ch := Ch) le; lane_ble; courier_transport le].
  destruct (frame_fits_lanes le w f Hl) as (F1 & F2 & F3). cbn [List.filter]. rewrite F1, F2, F3.
  assert (ble_health (ln_link w) = Up \/ ble_health (ln_link w) = Down) as Hb.
  { unfold ble_health. destruct (0 <? connected (ln_link w)); [by left|by right]. }
  destruct (ln_wifi w) eqn:Ew, Hb as [Eb|Eb]; rewrite Eb; cbn [usable List.find t_health wifi_lan_transport lane_ble courier_transport];
    rewrite ?Ew, ?Eb; done.
Qed.

Lemma send_one_lane ts f id (t : MeshTransport (Lanes Ch)) w o :
  List.find (fun t => bool_decide (t_id t = id)) ts = Some t ->
  send_lanes ts f [id] w o = let '(w, r) := t_send t w f in (w, record_send o id r).
Proof. intros E. cbn [send_lanes]. rewrite E. done. Qed.

Lemma skip_tried tried f n (t : MeshTransport (Lanes Ch)) ts w o :
  t_id t ∈ tried -> send_fallback tried f n (t :: ts) w o = send_fallback tried f n ts w o.
Proof. intros Ht. cbn [send_fallback]. by rewrite bool_decide_true. Qed.

(** C10: A message to a registered peer whose frame fits a datagram is not lost:
    with the lanes of the daemon installed and the disk taking every write of
    the call, [send_to_agent] reports success and exactly one lane vouches for
    the message.  Either the peer acknowledged the POST, or the board's bridge
    took the datagram, or its text is a file of the workspace and a row of the
    outbox, undelivered and addressed to the peer, carries that file.  It is not
    doubled either, but in one case: a peer that took the POST and whose answer
    was not heard has its copy beside the other lane's.  (The file's name has
    the second and the node only: the next message to that node within the
    second replaces it, [CourierRuns.same_second_overwrites].) *)
Theorem a2a_never_lost le w env dest f :
  lookup_peer (le_radio_map le) (le_peers_toml le) (ae_node env) = Some dest ->
  encode_a2a_frame (default 0 (radio_for_peer (le_radio_map le) (le_peers_toml le) (ae_node env))) env = Some f ->
  frame_len f <= MAX_DATAGRAM_FRAME -> zlen (as_bytes (pending_text env)) <= MAX_ARTIFACT_BYTES -> ln_io w = [] ->
  exists w' o need, send_to_agent le true env w = (w', SentVia o need) /\
    delivered o = true /\ zlen (sent o) = 1 /\ carried_once le dest f env w w'.
Proof.
  intros Hd He Hl Hs Hio. unfold send_to_agent. rewrite Hd. cbn [negb]. rewrite He. destruct (encoded_opens _ _ _ He) as (n & Ho).
  enough (let '(w', o) := router_send (installed_router le) w Gossip f in
    delivered o = true /\ zlen (sent o) = 1 /\ carried_once le dest f env w w') as Hx.
  { destruct (router_send _ w Gossip f) as [w' o]. exists w', o. eexists. split; [done|exact Hx]. }
  unfold router_send. change (transports (installed_router le)) with [wifi_lan_transport (Ch := Ch) le; lane_ble; courier_transport le].
  rewrite first_lane by done.
  destruct (decide (ln_wifi w = Up)) as [Ew|Ew].
  { rewrite Ew. rewrite (send_one_lane _ f WifiLan (wifi_lan_transport le)) by done.
    destruct (wifi_carries le dest w f env n Ho Hd) as [(w' & r & -> & Ha & Ht)|(w1 & x & -> & Hp & El & Edk & Eio)]; cbn [record_send sent app].
    - cbn. split_and!; [done..|]. by left.
    - change (zlen (@nil SendReceipt) =? 0) with true. cbn [andb]. rewrite skip_tried by set_solver.
      apply (fallback_carries le dest w w1 f env n); try done; try congruence; set_solver. }
  destruct (decide (ble_health (ln_link w) = Up)) as [Eb|Eb].
  - assert (match ln_wifi w with Up => WifiLan | _ => match ble_health (ln_link w) with Up => BleGossip | _ => MeshRouter.Courier end end
      = BleGossip) as -> by (rewrite Eb; by destruct (ln_wifi w)).
    rewrite (send_one_lane _ f BleGossip lane_ble) by done.
    pose proof (lane_ble_takes w f) as Hble. destruct (t_send lane_ble w f) as [w1 [r|x]]; cbn [record_send sent app].
    { cbn. split_and!; [done..|]. right. destruct Hble as [Hble Hp]. split; [by left|by left]. }
    destruct Hble as (B1 & B2 & B3 & B4). change (zlen (@nil SendReceipt) =? 0) with true. cbn [andb].
    destruct (frame_fits_lanes le w1 f Hl) as (F1 & _ & _).
    assert (forall w2 o2, posted_unheard le dest env w w2 -> ln_io w2 = [] -> sent o2 = [] ->
      let '(w', o) := send_fallback [BleGossip] f (frame_len f) [lane_ble; courier_transport le] w2 o2 in
      delivered o = true /\ zlen (sent o) = 1 /\ carried_once le dest f env w w') as Hlast.
    { intros w2 o2 Hp Hi Hs2. rewrite skip_tried by set_solver. cbn [send_fallback]. rewrite bool_decide_false by (cbn; set_solver).
      destruct (frame_fits_lanes le w2 f Hl) as (_ & _ & ->). cbn [negb].
      destruct (courier_carries le dest w w2 f env n o2 Ho Hs Hp Hi Hs2) as (w' & r & -> & Hr & Hc).
      change (t_id (courier_transport (Ch := Ch) le)) with MeshRouter.Courier. unfold delivered. rewrite Hr. done. }
    cbn [send_fallback]. rewrite bool_decide_false by (cbn; set_solver). rewrite F1.
    destruct (usable (ln_wifi w1)); cbn [negb]; [|apply Hlast; [by left|congruence|done]].
    destruct (wifi_carries le dest w1 f env n Ho Hd) as [(w' & r & -> & Ha & T1 & T2)|(w2 & y & -> & Hp & _ & _ & Eio)].
    + cbn. split_and!; [done..|]. left. split; [done|]. split; congruence.
    + apply Hlast; [unfold posted_unheard in *; by rewrite <- B1|congruence|done].
  - assert (match ln_wifi w with Up => WifiLan | _ => match ble_health (ln_link w) with Up => BleGossip | _ => MeshRouter.Courier end end
      = MeshRouter.Courier) as -> by (destruct (ln_wifi w), (ble_health (ln_link w)); done).
    rewrite (send_one_lane _ f MeshRouter.Courier (courier_transport le)) by done.
    destruct (courier_carries le dest w w f env n (mkOutcome [] []) Ho Hs (or_introl eq_refl) Hio eq_refl) as (w' & r & -> & _ & Hc).
    cbn. done.
Qed.
End lanes_lemmas.
