(* ===== verification/CourierWatch.v ===== *)
(** * The connectivity watcher

    [spawn_connectivity_watch] of [agentd/src/main.rs]: one probe round reads
    the WAN, the peers' liveness and the radio, sets the health the Wi-Fi lane
    reads, feeds the latch of [Connectivity], and on a transition publishes the
    state, spawns a task that drains the outbox over the LAN and tells the agent.
    The drain's steps come among the rounds and among what others do to the
    disk: the order is a list of events. *)
From S2P Require Import Prelude Text Mandala Connectivity Peers Wire Framing Chunker MeshRouter MeshLink Courier CourierPlug.
From S2P Require Import Beacon CourierLoop CourierLanes.

(** ** One round *)

(** What a round reads: the probe's answer, the registry and the beacon's
    liveness map. *)
Record Probe := mkProbe {
  pb_wan_ok : bool;
  pb_peers : list PeerRecord;
  pb_liveness : LivenessMap
}.

(** A peer the beacon has not judged yet counts as alive. *)
Definition peers_alive (r : Probe) : Z :=
  zlen (List.filter (fun p => match pb_liveness r !! pr_node_id p with Some l => negb (pl_dark l) | None => true end) (pb_peers r)).

(** Against the beacon's own history: a round that reads the map the beacon has
    written counts the registered peers whose last misses stay below its
    threshold. *)
Lemma peers_alive_by_streak threshold notify rounds (r : Probe) :
  1 <= threshold <= u32_max -> pb_liveness r = (beacon_run threshold notify rounds (∅, [])).1 ->
  peers_alive r
  = zlen (List.filter (fun p => streak_of (answers_of (pr_node_id p) (concat rounds)) <? threshold) (pb_peers r)).
Proof.
  intros Ht E. unfold peers_alive. f_equal. apply List.filter_ext. intros p. rewrite E.
  pose proof (beacon_dark threshold notify rounds (pr_node_id p) Ht) as Hd. unfold peer_liveness in Hd.
  rewrite Z.ltb_antisym. by destruct (_ !! _).
Qed.

Definition wifi_up (r : Probe) : bool := pb_wan_ok r || (0 <? peers_alive r).

Definition probe_state (radio_up : bool) (r : Probe) : ConnectivityState :=
  derive_state (pb_wan_ok r) (peers_alive r) (zlen (pb_peers r)) radio_up.

(** [APEXNET_CHECK_SECS] and [APEXNET_LATCH_CHECKS]. *)
Definition check_secs (var : option text) : Z := Z.max (default 60 (var ≫= parse_u64)) 15.
Definition latch_checks (var : option text) : Z := Z.max (default 3 (var ≫= parse_u32)) 1.

(** What the agent is told in session 0. *)
Inductive LinkNotice :=
  | LinkRestored
  | LinkMinimal (from : ConnectivityState)
  | LinkChanged (from to : ConnectivityState) (alive total : Z) (a2a_works : bool).

Definition link_notice (r : Probe) (from to : ConnectivityState) : LinkNotice :=
  if decide (to = Full) then LinkRestored
  else if decide (to = Minimal) then LinkMinimal from
  else LinkChanged from to (peers_alive r) (zlen (pb_peers r)) (bool_decide (to = Degraded)).

Section watch.
Context {Ch : Type} `{!OutboxJson}.

(** A spawned drain: not begun, or the rows it loaded and has not come to. *)
Inductive Drain := DrainDue | DrainLeft (todo : list OutboxEntry).

(** The watcher's latch, the state it publishes, the lanes, and the drains
    spawned so far. *)
Record Watch := mkWatch { wt_latch : Latch; wt_current : Z; wt_lanes : Lanes Ch; wt_drains : list Drain }.

Definition watch_boot (threshold : Z) (current : Z) (w : Lanes Ch) : Watch :=
  mkWatch (latch_new Full threshold) current w [].

Definition set_health (x : TransportHealth) (w : Lanes Ch) : Lanes Ch :=
  mkLanes x (ln_posted w) (ln_link w) (ln_disk w) (ln_io w).
Definition set_disk (d : CourierDisk) (w : Lanes Ch) : Lanes Ch :=
  mkLanes (ln_wifi w) (ln_posted w) (ln_link w) d (ln_io w).

Definition watch_round (notify : bool) (s : Watch) (r : Probe) : Watch * option LinkNotice :=
  let radio_up := 0 <? connected (ln_link (wt_lanes s)) in
  let w := set_health (if wifi_up r then Up else Down) (wt_lanes s) in
  match observe (wt_latch s) (probe_state radio_up r) with
  | (l, None) => (mkWatch l (wt_current s) w (wt_drains s), None)
  | (l, Some (from, to)) =>
      let drains := if bool_decide (to = Full) || bool_decide (to = Degraded) then wt_drains s ++ [DrainDue] else wt_drains s in
      (mkWatch l (set_current to) w drains, if notify then Some (link_notice r from to) else None)
  end.

(** The next stretch of drain [i]: it loads the outbox, or has its turn with
    the next of the rows. *)
Definition drain_step (i : nat) (now : text) (t : DrainTurn) (s : Watch) : Watch :=
  let d := ln_disk (wt_lanes s) in
  let set x d := mkWatch (wt_latch s) (wt_current s) (set_disk d (wt_lanes s)) (<[i := x]> (wt_drains s)) in
  match wt_drains s !! i with
  | Some DrainDue => set (DrainLeft (outbox_load (nd_outbox d))) d
  | Some (DrainLeft (e :: todo)) => set (DrainLeft todo) (drain_row now e t d).1
  | Some (DrainLeft []) | None => s
  end.

(** A probe round; a stretch of a drain; what the rest of the daemon does to
    the disk. *)
Inductive WatchEvent :=
  | ERound (r : Probe)
  | EDrain (i : nat) (now : text) (t : DrainTurn)
  | EDisk (f : CourierDisk -> CourierDisk).

Definition watch_event (notify : bool) (s : Watch) (e : WatchEvent) : Watch * option LinkNotice :=
  match e with
  | ERound r => watch_round notify s r
  | EDrain i now t => (drain_step i now t s, None)
  | EDisk f => (mkWatch (wt_latch s) (wt_current s) (set_disk (f (ln_disk (wt_lanes s))) (wt_lanes s)) (wt_drains s), None)
  end.

Fixpoint watch_all (notify : bool) (s : Watch) (evs : list WatchEvent) : Watch * list LinkNotice :=
  match evs with
  | [] => (s, [])
  | e :: evs =>
      let '(s, n) := watch_event notify s e in
      let '(s, ns) := watch_all notify s evs in
      (s, match n with Some x => x :: ns | None => ns end)
  end.
End watch.
Arguments Watch : clear implicits.

(** ** The drain *)

(** The rows the LAN takes: open, for a peer that answers yes, with a source
    that can be read. *)
Definition lan_takes (files : gmap text bytes) (x : OutboxEntry * DrainTurn) : bool :=
  is_noneb (ob_receipted_at x.1) && dr_peer x.2 && is_someb (files !! ob_path x.1) && dr_ok x.2.
Definition drained (now : text) (files : gmap text bytes) (x : OutboxEntry * DrainTurn) : OutboxEntry :=
  if lan_takes files x then with_receipted now x.1 else x.1.



Section drain_lemmas.
Context `{OutboxJsonLaws}.
Implicit Types (d : CourierDisk) (l : list (OutboxEntry * DrainTurn)).




Lemma drained_id now files x : ob_id (drained now files x) = ob_id x.1.
Proof. unfold drained. by destruct (lan_takes files x). Qed.
End drain_lemmas.

(** ** The link comes back *)

Section watch_lemmas.
Context {Ch : Type} `{OutboxJsonLaws}.
Implicit Types (s : Watch Ch) (r : Probe) (d : CourierDisk) (e : WatchEvent).











Lemma watch_all_cons notify s e evs : (watch_all notify s (e :: evs)).1 = (watch_all notify (watch_event notify s e).1 evs).1.
Proof. cbn. destruct (watch_event notify s e) as [s1 n]. cbn. by destruct (watch_all notify s1 evs). Qed.






(** *** Before the transition, and after *)







(** The rows after the turns of a drain on [todo], each marked when taken. *)
Fixpoint after_turns (files : gmap text bytes) (todo : list OutboxEntry) (ts : list (text * DrainTurn)) : list OutboxEntry :=
  match todo, ts with
  | e :: todo, (now, t) :: ts => drained now files (e, t) :: after_turns files todo ts
  | _, _ => todo
  end.

Lemma after_turns_ids files todo ts : ob_id <$> after_turns files todo ts = ob_id <$> todo.
Proof.
  revert ts. induction todo as [|e todo IH]; intros [|[now t] ts]; cbn; [done..|]. by rewrite drained_id, IH.
Qed.




(** A drain that has its turns without an interruption is
    [drain_outbox_over_lan]. *)
Lemma drain_alone notify now turns s i :
  wt_drains s !! i = Some DrainDue -> (length (disk_rows (ln_disk (wt_lanes s))) <= length turns)%nat ->
  forall t0, ln_disk (wt_lanes (watch_all notify s (EDrain i now t0 :: (EDrain i now <$> turns))).1)
  = (drain_outbox_over_lan now turns (ln_disk (wt_lanes s))).1.
Proof.
  intros Hd Hl t0. rewrite watch_all_cons. cbn [watch_event fst]. unfold drain_step at 1. rewrite Hd. unfold drain_outbox_over_lan, disk_rows in *.
  generalize dependent (outbox_load (nd_outbox (ln_disk (wt_lanes s)))). intros todo Hl.
  set (s1 := mkWatch _ _ _ _). assert (wt_drains s1 !! i = Some (DrainLeft todo)) as H1.
  { cbn. apply list_lookup_insert_eq. by eapply lookup_lt_Some. }
  change (ln_disk (wt_lanes s)) with (ln_disk (wt_lanes s1)). clearbody s1. clear s Hd. rename s1 into s.
  revert s turns H1 Hl. induction todo as [|e todo IH]; intros s turns H1 Hl.
  - cbn. clear Hl. induction turns as [|t turns IHt]; [done|]. cbn [fmap list_fmap]. rewrite watch_all_cons. cbn [watch_event fst].
    unfold drain_step. by rewrite H1.
  - destruct turns as [|t turns]; [cbn in Hl; lia|]. cbn [fmap list_fmap zip zip_with drain_rows]. rewrite watch_all_cons.
    cbn [watch_event fst]. rewrite IH; [|unfold drain_step; rewrite H1; cbn; apply list_lookup_insert_eq; by eapply lookup_lt_Some|cbn in Hl; lia].
    unfold drain_step. rewrite H1. cbn [wt_lanes ln_disk set_disk]. destruct (drain_row now e t (ln_disk (wt_lanes s))) as [d1 ok]. cbn.
    by destruct (drain_rows now (zip todo turns) d1).
Qed.
End watch_lemmas.
