(* ===== verification/CourierPost.v ===== *)
(** * The courier's callers: gossip from peers, and the agent's tools

    [courier_manifest_handler] and [courier_receipt_handler] of
    [gateway/src/lib.rs], and [courier_queue], [courier_cancel] and
    [confine_mesh_source] of [plugins/src/supervisor.rs].  The prompt a handler
    injects into session 0 is its second answer, as what it is about. *)
From S2P Require Import Prelude Text Policy Protocol Peers Confine Wire Chunker Courier CourierPlug CourierLoop.

(** ** Gossip from peers *)

Inductive CourierReply :=
  | GossipMissingFrom | GossipStranger (from : text) | GossipMissingStick
  | ManifestHeard (news : bool) | ReceiptHeard (news matched : bool).

Inductive CourierPrompt :=
  | CargoDeparted (stick origin name : text) (len : Z)
  | CargoDelivered (name node : text)
  | CargoRefused (name node : text).

(** [to_lowercase] of the standard library maps no other character to one of
    the letters of these words. *)
Definition apexnet_notify (var : option text) : bool :=
  match var with
  | None => true
  | Some v =>
      let v := to_ascii_lowercase v in
      negb (bool_decide (v = chars "0") || bool_decide (v = chars "false") || bool_decide (v = chars "off"))
  end.

Section posts.
Context {V : Type} `{!JsonArgs V} `{!JsonNums V} `{!OutboxJson}.

(** [body["from"]]: trimmed, not empty, and the id of a registered peer. *)
Definition gossip_from (reg : list PeerRecord) (body : V) : result text CourierReply :=
  match arg_str body (chars "from") with
  | None => Err GossipMissingFrom
  | Some s =>
      let f := trim s in
      if bool_decide (f = []) then Err GossipMissingFrom
      else if contains reg f then Ok f else Err (GossipStranger f)
  end.

Definition body_str (body : V) (k : string) : text := default [] (arg_str body (chars k)).

Definition courier_manifest_post (io : list FsWrite) (now : text) (notify_var : option text) (node_id : text)
    (reg : list PeerRecord) (body : V) (d : CourierDisk) : CourierDisk * CourierReply * option CourierPrompt :=
  match gossip_from reg body with
  | Err r => (d, r, None)
  | Ok from =>
      let stick := body_str body "stick" in
      let root := body_str body "root" in
      if bool_decide (stick = []) || bool_decide (root = []) then (d, GossipMissingStick, None)
      else
        let heard := mkHeardManifest stick root (default from (arg_str body (chars "origin"))) (body_str body "dest")
                       (default 0 (arg_u64 body (chars "len"))) (as_u32 (default 0 (arg_u64 body (chars "epoch"))))
                       (body_str body "name") now (body_str body "shipment_id") in
        let '(d, news) := ledger_hear_manifest io heard d in
        (d, ManifestHeard news,
         if news && bool_decide (hm_dest heard = node_id) && apexnet_notify notify_var
         then Some (CargoDeparted stick (hm_origin heard) (hm_name heard) (hm_len heard)) else None)
  end.

Definition courier_receipt_post (io : list FsWrite) (now : text) (notify_var : option text)
    (reg : list PeerRecord) (body : V) (d : CourierDisk) : CourierDisk * CourierReply * option CourierPrompt :=
  match gossip_from reg body with
  | Err r => (d, r, None)
  | Ok from =>
      let heard := mkHeardReceipt (body_str body "stick") (body_str body "root") (default from (arg_str body (chars "node")))
                     (default false (arg_bool body (chars "accepted"))) now (body_str body "shipment_id") in
      if bool_decide (hr_stick heard = []) || bool_decide (hr_root heard = []) then (d, GossipMissingStick, None)
      else
        let '(d, (news, delivered)) := ledger_hear_receipt io heard d in
        (d, ReceiptHeard news (is_someb delivered),
         if news && apexnet_notify notify_var then
           (fun name => if hr_accepted heard then CargoDelivered name (hr_node heard) else CargoRefused name (hr_node heard)) <$> delivered
         else None)
  end.
End posts.

(** ** The tools *)

Inductive SourceError := SourceTraversal | SourceUnresolved | WorkspaceUnresolved | SourceEscapes.

(** The path must canonicalize into the workspace of the calling agent. *)
Definition confine_mesh_source `{!FsOps} (root : text) (rel : text) : result Path SourceError :=
  let p := path_new rel in
  if has_traversal p then Err SourceTraversal
  else
    let joined := path_new (join root rel) in
    match canonicalize joined with
    | None => Err SourceUnresolved
    | Some canon =>
        match canonicalize (path_new root) with
        | None => Err WorkspaceUnresolved
        | Some root_canon => if path_starts_with canon root_canon then Ok canon else Err SourceEscapes
        end
    end.

(** The text of a canonical path. *)
Definition path_text (p : Path) : text :=
  concat ((fun c => match c with Normal n => 47 :: n | _ => [] end) <$> components p).

Inductive QueueRefusal := QueueNoNode | QueueNoPath | QueueSource (e : SourceError) | QueueAmbiguous (ids : list text) | QueueFailed (e : QueueError).

(** What is read of the source when it is queued. *)
Record SourceRead := mkSource { sr_meta : option (bool * Z); sr_content : option bytes }.

(** The row queued, the note on how the destination resolved, and whether it is
    a registered peer. *)
Definition courier_queue `{!FsOps} `{!OutboxJson} `{!HashOps} (io : list FsWrite) (now : text) (peers : list text) (root : text)
    (read : Path -> SourceRead) (node : option text) (path : text) (d : CourierDisk)
    : CourierDisk * result (OutboxEntry * option (text * text) * bool) QueueRefusal :=
  match node with
  | None | Some [] => (d, Err QueueNoNode)
  | Some node =>
      if bool_decide (path = []) then (d, Err QueueNoPath)
      else
        match confine_mesh_source root path with
        | Err e => (d, Err (QueueSource e))
        | Ok abs =>
            let name := default (chars "file") (file_name abs) in
            let queue node note registered :=
              let s := read abs in
              let '(d, r) := queue_artifact io now (sr_meta s) (sr_content s) (path_text abs) node name d in
              (d, match r with Ok e => Ok (e, note, registered) | Err e => Err (QueueFailed e) end) in
            match resolve_dest node peers with
            | Exact id => queue id None true
            | Resolved id => queue id (Some (node, id)) true
            | Ambiguous ids => (d, Err (QueueAmbiguous ids))
            | Unknown => queue node None false
            end
        end
  end.

(** The labels mounted under the workspace's [media], from the text of
    [/proc/mounts], sorted and without repetitions. *)
Definition second_word (s : text) : option text :=
  first_word (drop (length (take_word (trim_start s))) (trim_start s)).

Definition mount_label (prefix line : text) : option text :=
  mp ← second_word line;
  rest ← strip_prefix prefix mp;
  if bool_decide (rest = []) || bool_decide (47 ∈ rest) then None else Some rest.

Fixpoint dedup (l : list text) : list text :=
  match l with
  | a :: r => match r with b :: _ => if bool_decide (a = b) then dedup r else a :: dedup r | [] => [a] end
  | [] => []
  end.

Definition mounted_sticks (workspace mounts : text) : list text :=
  dedup (sort_texts (omap (mount_label (join workspace (chars "media") ++ [47])) (lines mounts))).

Inductive QueueStatus := QueueWaiting | QueueLoaded (label : text).

(** The tail of [courier_queue]: the first mounted stick is plugged at once
    ([plug] is [process_plug] there, [None] when its thread panicked), and the
    status says whether a row of that name was loaded. *)
Definition drain_now {S : Type} (sticks : list text)
    (plug : text -> S -> CourierDisk -> S * CourierDisk * option PlugOutcome)
    (e : OutboxEntry) (s : S) (d : CourierDisk) : S * CourierDisk * QueueStatus * list PlugGossip :=
  match sticks with
  | [] => (s, d, QueueWaiting, [])
  | label :: _ =>
      let '(s, d, out) := plug label s d in
      match out with
      | Some o =>
          (s, d,
           if existsb (fun x => bool_decide (x.1 = ob_name e)) (pr_loaded (po_report o)) then QueueLoaded label else QueueWaiting,
           po_gossip o)
      | None => (s, d, QueueWaiting, [])
      end
  end.

Definition courier_queue_tool `{!FsOps} `{!OutboxJson} `{!HashOps} {S : Type} (io : list FsWrite) (now : text) (peers : list text)
    (root : text) (read : Path -> SourceRead) (sticks : list text)
    (plug : text -> S -> CourierDisk -> S * CourierDisk * option PlugOutcome)
    (node : option text) (path : text) (s : S) (d : CourierDisk)
    : S * CourierDisk * result (OutboxEntry * option (text * text) * bool * QueueStatus) QueueRefusal * list PlugGossip :=
  let '(d, r) := courier_queue io now peers root read node path d in
  match r with
  | Err e => (s, d, Err e, [])
  | Ok x =>
      let '(s, d, status, gossip) := drain_now sticks plug x.1.1 s d in
      (s, d, Ok (x, status), gossip)
  end.

(** [/api/media/plugged]: the label checked, the stick plugged, and the greeting
    of session 0 with the courier's paragraph; the gossip is relayed by a task of
    its own. *)
Definition valid_exo_label (label : text) : bool :=
  starts_with (chars "APEX-") label && (6 <=? str_len label) && (str_len label <=? 64)
  && negb (str_contains (chars "..") label) && forallb origin_char label.

Definition media_mount_present (workspace mounts label : text) : bool :=
  existsb (fun l => bool_decide (second_word l = Some (join (join workspace (chars "media")) label))) (lines mounts).

Inductive MediaReply := MediaBadLabel | MediaPlugged (label : text) (notified courier : bool).

Definition media_plugged {S : Type} (notify_var : option text) (label : option text)
    (plug : text -> S -> CourierDisk -> S * CourierDisk * option PlugOutcome) (s : S) (d : CourierDisk)
    : S * CourierDisk * MediaReply * option (text * option (list NoticeLine)) * list PlugGossip :=
  let label := trim (default [] label) in
  if negb (valid_exo_label label) then (s, d, MediaBadLabel, None, [])
  else
    let '(s, d, outcome) := plug label s d in
    let section := outcome ≫= fun o => compose_plug_notice (po_report o) in
    let notify := apexnet_notify notify_var in
    (s, d, MediaPlugged label notify (is_someb section),
     if notify then Some (label, section) else None,
     match outcome with Some o => po_gossip o | None => [] end).

Definition courier_cancel `{!OutboxJson} (io : list FsWrite) (id : option Z) (d : CourierDisk)
    : CourierDisk * option (result (OutboxEntry * option text) CancelError) :=
  match id with
  | None => (d, None)
  | Some id => let '(d, r) := outbox_cancel io id d in (d, Some r)
  end.

(** ** Who can close a row *)

Section lemmas.
Context {V : Type} `{!JsonArgs V} `{!JsonNums V} `{OutboxJsonLaws}.

(** A refusal changes no row, and is never announced: the handler's notice of a
    refused delivery cannot be reached. *)
Lemma refused_receipt_silent io now var reg (body : V) d :
  default false (arg_bool body (chars "accepted")) = false ->
  disk_rows (courier_receipt_post io now var reg body d).1.1 = disk_rows d /\
  (courier_receipt_post io now var reg body d).2 = None.
Proof.
  intros Ha. unfold courier_receipt_post. destruct (gossip_from reg body) as [from|r]; [|done].
  cbn [hr_stick hr_root]. destruct (bool_decide _ || bool_decide _); [done|].
  unfold ledger_hear_receipt. cbn [hr_accepted]. rewrite Ha.
  set (lg := if (_ : bool) then ledger_save io _ _ else _). destruct lg as [[lfile io'] b]. cbn.
  split; [done|]. by destruct (_ && apexnet_notify var).
Qed.

(** Gossip from somebody who is not a registered peer changes nothing. *)
Theorem strangers_change_nothing io now var node reg (body : V) d :
  (forall f, arg_str body (chars "from") = Some f -> contains reg (trim f) = false) ->
  let m := courier_manifest_post io now var node reg body d in
  let r := courier_receipt_post io now var reg body d in
  m.1.1 = d /\ r.1.1 = d /\ m.2 = None /\ r.2 = None.
Proof.
  intros Hf. unfold courier_manifest_post, courier_receipt_post, gossip_from.
  destruct (arg_str body (chars "from")) as [s|]; [|done]. rewrite (Hf s eq_refl).
  by destruct (bool_decide (trim s = [])).
Qed.

Lemma save_text_nil new old file io ok : save_text [] new old = (file, io, ok) -> io = [].
Proof. unfold save_text. destruct new; cbn; by intros [= _ <- _]. Qed.

(** Whatever a peer posts, with every write succeeding the only change to the
    outbox is that rows that were open become delivered. *)
Lemma receipt_post_rows now var reg (body : V) d :
  exists rs : OutboxEntry -> bool,
    disk_rows (courier_receipt_post [] now var reg body d).1.1
    = (fun e => if rs e then with_receipted now e else e) <$> disk_rows d /\
    forall e, rs e = true -> ob_receipted_at e = None.
Proof.
  unfold courier_receipt_post.
  assert (exists rs : OutboxEntry -> bool, disk_rows d = (fun e => if rs e then with_receipted now e else e) <$> disk_rows d /\
    forall e, rs e = true -> ob_receipted_at e = None) as Hid.
  { exists (fun _ => false). split; [by rewrite list_fmap_id|done]. }
  destruct (gossip_from reg body) as [from|r]; [|exact Hid].
  set (h := mkHeardReceipt _ _ _ _ _ _). destruct (bool_decide _ || bool_decide _); [exact Hid|].
  unfold ledger_hear_receipt. set (lg := if (_ : bool) then ledger_save [] _ _ else _).
  destruct lg as [[lfile io'] b] eqn:Elg. subst lg.
  assert (io' = []) as -> by (case_match; [by eapply save_text_nil|congruence]).
  destruct (hr_accepted h); [|exact Hid].
  set (closes := fun e => receipt_closes_outbox e (hr_shipment_id h) (hr_node h) (hr_stick h) (hr_root h)).
  unfold close_heard. fold closes. cbn [nd_outbox with_ledger].
  exists closes. split.
  2:{ intros e He. by apply closes_names in He as (He & _). }
  destruct (last (List.filter closes (outbox_load (nd_outbox d)))) as [x|] eqn:El; cbn [is_someb fmap option_fmap option_map].
  - destruct (outbox_save [] _ (nd_outbox d)) as [[file io''] ok] eqn:Es. cbn.
    apply outbox_save_nil in Es as (Es & _). unfold disk_rows. cbn. by rewrite Es.
  - cbn. unfold disk_rows. cbn. apply last_None in El. revert El. generalize (outbox_load (nd_outbox d)). intros rows.
    induction rows as [|e rows IH]; [done|]. cbn. destruct (closes e) eqn:E; [done|]. intros El. f_equal. by apply IH.
Qed.
End lemmas.
