(* ===== verification/CourierRuns.v ===== *)
(** * Runs of the courier lane

    Concrete sticks and nodes: the theorems applied, and runs in which the lane
    does what its comments say it does not.  The third-party parts are toy
    instances that satisfy their laws. *)
From S2P Require Import Prelude Text Connectivity Wire Codecs Framing Replay Chunker Mandala MeshRouter MeshLink Policy Protocol Peers.
From S2P Require Import Beacon Confine Courier CourierPlug CourierLoop CourierLanes CourierWatch CourierPost.

(** ** Toy values: a JSON value is a list of rows of texts *)

Definition entry_texts (e : ManifestEntry) : list text :=
  [me_root e; [me_len e]; me_name e; me_class e; me_origin e; me_dest e; [me_epoch e]; me_created_at e; me_shipment_id e].
Definition texts_entry (l : list text) : option ManifestEntry :=
  match l with
  | [root; [len]; name; class; origin; dest; [epoch]; created; ship] => Some (mkEntry root len name class origin dest epoch created ship)
  | _ => None
  end.

Definition bool_text (b : bool) : text := if b then [1] else [].
Definition text_bool (t : text) : option bool := match t with [] => Some false | [1] => Some true | _ => None end.
Definition option_text (o : option text) : text := match o with None => [] | Some t => 1 :: t end.
Definition text_option (t : text) : option (option text) := match t with [] => Some None | _ :: t => Some (Some t) end.

Definition receipt_texts (r : Receipt) : list text := [rc_root r; rc_node r; bool_text (rc_accepted r); rc_at r; rc_shipment_id r].
Definition texts_receipt (l : list text) : option Receipt :=
  match l with
  | [root; node; acc; at_; ship] => a ← text_bool acc; Some (mkCourierReceipt root node a at_ ship)
  | _ => None
  end.

Definition row_texts (e : OutboxEntry) : list text :=
  [[ob_id e]; ob_dest e; ob_path e; ob_name e; ob_root e; [ob_len e]; ob_created_at e; option_text (ob_loaded_on e);
   option_text (ob_receipted_at e); ob_shipment_id e].
Definition texts_row (l : list text) : option OutboxEntry :=
  match l with
  | [[id]; dest; path; name; root; [len]; created; loaded; receipted; ship] =>
      a ← text_option loaded; b ← text_option receipted; Some (mkOutbox id dest path name root len created a b ship)
  | _ => None
  end.

Definition heard_texts (m : HeardManifest) : list text :=
  [hm_stick m; hm_root m; hm_origin m; hm_dest m; [hm_len m]; [hm_epoch m]; hm_name m; hm_heard_at m; hm_shipment_id m].
Definition texts_heard (l : list text) : option HeardManifest :=
  match l with
  | [stick; root; origin; dest; [len]; [epoch]; name; at_; ship] => Some (mkHeardManifest stick root origin dest len epoch name at_ ship)
  | _ => None
  end.
Definition heard_receipt_texts (r : HeardReceipt) : list text :=
  [hr_stick r; hr_root r; hr_node r; bool_text (hr_accepted r); hr_heard_at r; hr_shipment_id r].
Definition texts_heard_receipt (l : list text) : option HeardReceipt :=
  match l with
  | [stick; root; node; acc; at_; ship] => a ← text_bool acc; Some (mkHeardReceipt stick root node a at_ ship)
  | _ => None
  end.

Lemma mapM_back {A B} (f : A -> B) (g : B -> option A) (l : list A) : (forall a, g (f a) = Some a) -> mapM g (f <$> l) = Some l.
Proof. intros Hg. induction l as [|a l IH]; [done|]. cbn. by rewrite Hg; cbn; rewrite IH. Qed.

Lemma text_bool_back b : text_bool (bool_text b) = Some b.
Proof. by destruct b. Qed.
Lemma text_option_back o : text_option (option_text o) = Some o.
Proof. by destruct o. Qed.

Abbreviation Rows := (list (list text)).

#[export] Instance rows_slice : JsonSlice Rows :=
  {| json_to_vec v := Some (bit_text (encode v)); json_from_slice b := read_bits b ≫= decode |}.
#[export] Instance rows_slice_laws : JsonSliceLaws Rows.
Proof. split. intros v b [= <-]. cbn. rewrite read_bit_text. cbn. apply decode_encode. Qed.

#[export] Instance entries_rows : EntriesJson Rows ManifestEntry :=
  {| entries_value l := entry_texts <$> l; value_entries v := mapM texts_entry v |}.
#[export] Instance entries_rows_laws : EntriesJsonLaws Rows ManifestEntry.
Proof. split. intros l. apply mapM_back. by intros []. Qed.
#[export] Instance receipts_rows : EntriesJson Rows Receipt :=
  {| entries_value l := receipt_texts <$> l; value_entries v := mapM texts_receipt v |}.
#[export] Instance receipts_rows_laws : EntriesJsonLaws Rows Receipt.
Proof. split. intros l. apply mapM_back. intros []. cbn. by rewrite text_bool_back. Qed.

#[export] Instance toy_envelope : EnvelopeJson := {|
  envelope_text n c := bit_text (encode [n; c]);
  envelope_parse s := p ← read_bits s; l ← decode (A := list text) p; match l with [n; c] => Some (Some 1, Some n, Some c) | _ => None end
|}.
#[export] Instance toy_envelope_laws : EnvelopeJsonLaws.
Proof. split. intros n c. cbn. rewrite read_bit_text. cbn. by rewrite decode_encode. Qed.

#[export] Instance toy_base64 : Base64 := {| b64_std b := b; b64_std_decode s := Some s |}.
#[export] Instance toy_base64_laws : Base64Laws.
Proof. by split. Qed.

(** A marker is its stick's id. *)
#[export] Instance toy_marker : MarkerToml := {| marker_of_toml s := Some (Some 2, None, Some s) |}.

#[export] Instance toy_outbox : OutboxJson := {|
  row_json e := Some (bit_text (encode (row_texts e)));
  json_row s := p ← read_bits s; l ← decode (A := list text) p; texts_row l;
  ledger_json l := Some (bit_text (encode (heard_texts <$> lg_manifests l, heard_receipt_texts <$> lg_receipts l)));
  json_ledger s := p ← read_bits s; l ← decode (A := Rows * Rows) p;
                   m ← mapM texts_heard l.1; r ← mapM texts_heard_receipt l.2; Some (mkLedger m r)
|}.
#[export] Instance toy_outbox_laws : OutboxJsonLaws.
Proof.
  split.
  - intros e. cbn. rewrite read_bit_text. cbn. rewrite decode_encode. cbn. destruct e. cbn. by rewrite !text_option_back.
  - intros e s [= <-]. apply bit_text_shape.
  - intros e s [= <-]. apply bit_text_shape.
  - intros e s n [= <-] Hn. cbn. by rewrite read_bits_prefix.
  - intros l. cbn. rewrite read_bit_text. cbn. rewrite decode_encode. cbn.
    rewrite (mapM_back heard_texts) by (by intros []). cbn.
    rewrite (mapM_back heard_receipt_texts) by (intros []; cbn; by rewrite text_bool_back). by destruct l.
Qed.

Lemma toy_hash_32 b : is_bytes (blob_root b) /\ length (blob_root b) = 32%nat.
Proof. split; [apply le_bytes_bytes|apply le_bytes_length]. Qed.

(** ** One loop: the kitchen's artifact reaches the attic *)

Definition colony : Psk := mkPsk (le_bytes 32 12345).
Definition plug_env (node ws now : string) : PlugEnv :=
  mkPlugEnv (chars node) (chars ws) (chars now) 5 [] (le_bytes 12 7) (le_bytes 12 8) (fun _ => None).
Definition kitchen : PlugEnv := plug_env "kitchen" "/k" "t1".
Definition attic : PlugEnv := plug_env "attic" "/c" "t2".
Definition kitchen_later : PlugEnv := plug_env "kitchen" "/k" "t3".

Definition stick0 : Stick := mkStick (Some (chars "s1")) Missing Missing ∅.
Definition empty_disk : CourierDisk := mkCourierDisk None None ∅.
Definition with_file (p : string) (b : bytes) (d : CourierDisk) : CourierDisk := with_files (<[chars p := b]> (nd_files d)) d.
Definition with_queued (p dest name : string) (d : CourierDisk) : CourierDisk :=
  let b := default [] (nd_files d !! chars p) in
  (queue_artifact [] (chars "t0") (Some (true, zlen b)) (Some b) (chars p) (chars dest) (chars name) d).1.

Definition plug (env : PlugEnv) (s : Stick) (d : CourierDisk) : Stick * CourierDisk * option PlugOutcome :=
  process_plug (V := Rows) env [] (Some colony) s d.
Definition outcome (x : Stick * CourierDisk * option PlugOutcome) : PlugOutcome := default (mkPlug default_report []) x.2.

Definition kitchen_disk : CourierDisk := with_queued "/k/a" "attic" "a" (with_file "/k/a" [1; 2] empty_disk).
Definition plug1 := plug kitchen stick0 kitchen_disk.
Definition plug2 := plug attic plug1.1.1 empty_disk.
Definition plug3 := plug kitchen_later plug2.1.1 plug1.1.2.

Example loop_runs :
  (disk_rows kitchen_disk, pr_loaded (po_report (outcome plug1)), pr_verified (po_report (outcome plug2)),
   nd_files plug2.1.2 !! chars "/c/courier/incoming/kitchen/a", ob_receipted_at <$> disk_rows plug3.1.2)
  = ([mkOutbox 1 (chars "attic") (chars "/k/a") (chars "a") (hex32 (blob_root [1; 2])) 2 (chars "t0") None None (chars "attic:1")],
     [(chars "a", chars "attic")], [(chars "a", chars "kitchen")], Some [1; 2], [Some (chars "t2")]).
Proof. vm_compute. reflexivity. Qed.

Lemma plug_eq x : is_someb x.2 = true -> x = (x.1.1, x.1.2, Some (outcome x)).
Proof. by destruct x as [[s d] [o|]]. Qed.

Lemma written_nil o : pr_notes (po_report o) = [] -> written o.
Proof. intros E n Hn. rewrite E in Hn. by apply elem_of_nil in Hn. Qed.

Lemma toy_nonce n : is_nonce (le_bytes 12 n).
Proof. split; [apply le_bytes_bytes|apply le_bytes_length]. Qed.

Lemma join_component base p : one_component p -> base <> [] -> ends_with [47] base = false -> join base p = base ++ 47 :: p.
Proof.
  intros (Hne & Hno & _) Hb He. unfold join. assert (starts_with [47] p = false) as ->.
  { destruct p as [|c p]; [done|]. cbn [starts_with]. destruct (Z.eqb_spec 47 c) as [<-|]; [|done]. exfalso. apply Hno. set_solver. }
  rewrite bool_decide_false by done. by rewrite He.
Qed.

Lemma ends_with_component a p : one_component p -> ends_with [47] (a ++ 47 :: p) = false.
Proof.
  intros (Hne & Hno & _). unfold ends_with. destruct p as [|c p _] using rev_ind; [done|].
  rewrite app_comm_cons, app_assoc, rev_app_distr. cbn [rev app starts_with]. destruct (Z.eqb_spec 47 c) as [<-|]; [|done]. exfalso. apply Hno. set_solver.
Qed.

Lemma incoming_under base p n :
  one_component p -> one_component n ->
  join (join base (chars "courier")) (chars "incoming") <> [] ->
  ends_with [47] (join (join base (chars "courier")) (chars "incoming")) = false ->
  incoming_path base p n = join (join base (chars "courier")) (chars "incoming") ++ 47 :: p ++ 47 :: n.
Proof.
  intros Hp Hn Hne He. unfold incoming_path. rewrite (join_component _ p Hp Hne He).
  rewrite join_component; [by rewrite <- app_assoc|done| |by apply ends_with_component]. by destruct (join _ _).
Qed.

Definition row_a : OutboxEntry :=
  mkOutbox 1 (chars "attic") (chars "/k/a") (chars "a") (hex32 (blob_root [1; 2])) 2 (chars "t0") None None (chars "attic:1").

Lemma kitchen_rows : disk_rows kitchen_disk = [row_a].
Proof. vm_compute. reflexivity. Qed.

Lemma loop_ready : loop_setup (V := Rows) kitchen attic kitchen_later colony (chars "s1") [] [] stick0 kitchen_disk row_a [1; 2].
Proof.
  split.
  - do 3 (constructor; [split; apply toy_nonce|]). constructor.
  - by exists 2, [].
  - vm_compute. reflexivity.
  - intros n c E. change (sk_cargo stick0) with (∅ : gmap text bytes) in E. by rewrite lookup_empty in E.
  - rewrite kitchen_rows. split; [apply NoDup_singleton|]. constructor; [|constructor].
    split; [split; vm_compute; discriminate|right; vm_compute; reflexivity].
  - rewrite kitchen_rows. split; [by left|done|vm_compute; discriminate|done|vm_compute; reflexivity|done].
  - intros p n Hp Hn E. rewrite incoming_under in E; [vm_compute in E; discriminate|done|done|done|done].
  - split; [done|constructor|]. intros (r & Hr & _). by apply elem_of_nil in Hr.
  - done.
  - done.
  - by exists (chars "kitchen").
Qed.

Lemma courier_loop_closes_witness :
  (chars "a", chars "kitchen") ∈ pr_verified (po_report (outcome plug2)) /\
  exists e', e' ∈ disk_rows plug3.1.2 /\ ob_id e' = 1 /\ is_someb (ob_receipted_at e') = true.
Proof.
  destruct (courier_loop_closes (V := Rows) kitchen attic kitchen_later colony (chars "s1") [] [] stick0 kitchen_disk row_a [1; 2]
    empty_disk plug1.1.1 plug1.1.2 (outcome plug1) plug2.1.1 plug2.1.2 (outcome plug2) plug3.1.1 plug3.1.2 (outcome plug3)
    toy_hash_32 loop_ready) as (Hv & e' & He & Hi & _ & Hd).
  - apply (plug_eq plug1). vm_compute. reflexivity.
  - apply written_nil. vm_compute. reflexivity.
  - apply (plug_eq plug2). vm_compute. reflexivity.
  - apply written_nil. vm_compute. reflexivity.
  - apply (plug_eq plug3). vm_compute. reflexivity.
  - apply written_nil. vm_compute. reflexivity.
  - split; [exact Hv|]. by exists e'.
Defined.

Lemma ingest_sound_witness :
  exists origin name c b, chars "/c/courier/incoming/kitchen/a" = incoming_path (chars "/c") origin name /\
    one_component origin /\ one_component name /\ nd_files plug2.1.2 !! chars "/c/courier/incoming/kitchen/a" = Some b /\ b `prefix_of` c.
Proof.
  destruct (ingest_sound (V := Rows) attic [] (Some colony) plug1.1.1 empty_disk plug2.1.1 plug2.1.2 (Some (outcome plug2))
    (fun b => proj1 (toy_hash_32 b))) with (p := chars "/c/courier/incoming/kitchen/a")
    as [E|(id & m & rs & e & origin & name & c & b & _ & _ & _ & Hp & Ho & Hn & _ & _ & Hb & Hpre)].
  - apply (plug_eq plug2). vm_compute. reflexivity.
  - exfalso. assert (nd_files plug2.1.2 !! chars "/c/courier/incoming/kitchen/a" = Some [1; 2]) as E2 by (vm_compute; reflexivity).
    assert (nd_files empty_disk !! chars "/c/courier/incoming/kitchen/a" = None) as E3 by (vm_compute; reflexivity).
    congruence.
  - exists origin, name, c, b. exact (conj Hp (conj Ho (conj Hn (conj Hb Hpre)))).
Defined.

Lemma replug_ingests_nothing_witness :
  exists stick3 d3 o2, process_plug (V := Rows) attic [] (Some colony) plug2.1.1 empty_disk = (stick3, d3, Some o2) /\
    pr_verified (po_report o2) = [] /\ nd_files d3 = ∅.
Proof.
  destruct (replug_ingests_nothing (V := Rows) attic [] colony plug1.1.1 empty_disk (mkMarker 2 [] (Some (chars "s1"))) (chars "s1")
    (default ([], []) (opened_lists (V := Rows) (Some colony) (chars "s1") plug1.1.1)) plug2.1.1 plug2.1.2 (outcome plug2))
    with (env2 := attic) (io2 := @nil FsWrite) (d2 := empty_disk) as (s3 & d3 & o2 & E & Hv & _ & Hf & _).
  - apply toy_nonce.
  - apply toy_nonce.
  - vm_compute. reflexivity.
  - reflexivity.
  - vm_compute. reflexivity.
  - apply (plug_eq plug2). vm_compute. reflexivity.
  - apply written_nil. vm_compute. reflexivity.
  - vm_compute. reflexivity.
  - reflexivity.
  - exists s3, d3, o2. split; [exact E|]. split; [exact Hv|exact Hf].
Defined.

Lemma one_receipt_one_row_witness :
  NoDup (ob_id <$> disk_rows kitchen_disk) /\
  (length (List.filter (fun e => receipt_closes_outbox e (chars "attic:1") (chars "attic") (chars "s1") []) (disk_rows kitchen_disk)) <= 1)%nat.
Proof.
  destruct (one_receipt_one_row (V := Rows)
    [OpQueue [] (chars "t0") (Some (true, 2)) (Some [1; 2]) (chars "/k/a") (chars "attic") (chars "a")]
    (with_file "/k/a" [1; 2] empty_disk) (chars "attic:1") (chars "attic") (chars "s1") []) as (H1 & H2 & _).
  - reflexivity.
  - vm_compute. discriminate.
  - split; [exact H1|exact H2].
Defined.

(** ** A message with the LAN down and the bridge away *)

Definition put_len (t : text) : list Z := zlen t :: t.
Definition get_len (l : list Z) : option (text * list Z) :=
  match l with n :: r => Some (take (Z.to_nat n) r, drop (Z.to_nat n) r) | [] => None end.
Lemma get_put t r : get_len (put_len t ++ r) = Some (t, r).
Proof. unfold put_len, zlen. cbn. rewrite Nat2Z.id. by rewrite take_app_length, drop_app_length. Qed.

#[export] Instance toy_a2a : A2aJson := {|
  a2a_to_vec e := Some (ae_session_id e :: put_len (match ae_origin_session e with Some o => [o] | None => [] end)
                        ++ put_len (ae_node e) ++ put_len (ae_message e) ++ put_len (ae_from e));
  a2a_from_slice b :=
    match b with
    | sid :: r =>
        '(o, r) ← get_len r; '(node, r) ← get_len r; '(msg, r) ← get_len r; '(from, _) ← get_len r;
        Some (mkEnvelope node sid msg from (match o with [x] => Some x | _ => None end))
    | [] => None
    end
|}.
#[export] Instance toy_a2a_laws : A2aJsonLaws.
Proof.
  split. intros [node sid msg from o] b E.
  assert (b = sid :: put_len (match o with Some o => [o] | None => [] end) ++ put_len node ++ put_len msg ++ put_len from ++ []) as ->
    by (rewrite app_nil_r; symmetry; by injection E).
  clear E. cbn [a2a_from_slice toy_a2a].
  rewrite get_put. cbn [mbind option_bind]. rewrite get_put. cbn [mbind option_bind]. rewrite get_put. cbn [mbind option_bind].
  rewrite get_put. by destruct o.
Qed.

#[export] Instance toy_lan : LanToml := {| lan_peers s := Some [(s, mkDest (chars "ws://10.0.0.2:8787") None (Some 9))] |}.

Definition quiet_link : MeshLink (list bytes) := link_new [].
Definition dark : Lanes (list bytes) := mkLanes Down [] quiet_link empty_disk [].
Definition dark_env : LaneEnv := mkLaneEnv None (Some (chars "attic")) (fun _ _ => Acknowledged) (chars "/k") 1700 (chars "t5").
Definition hello : A2aEnvelope := mkEnvelope (chars "attic") 3 (chars "hi") (chars "kitchen") None.
Definition hello_frame : MeshFrame := default (mkFrame 0 Gossip 0 0 []) (encode_a2a_frame 9 hello).
Definition after_hello := send_to_agent dark_env true hello dark.

Lemma a2a_never_lost_witness :
  waits_for_stick dark_env hello after_hello.1 /\ send_ok after_hello.2 = true.
Proof.
  destruct (a2a_never_lost dark_env dark hello (mkDest (chars "ws://10.0.0.2:8787") None (Some 9)) hello_frame) as (w' & o & need & E & Hd & Hn & Hc).
  - vm_compute. reflexivity.
  - vm_compute. reflexivity.
  - vm_compute. discriminate.
  - vm_compute. discriminate.
  - reflexivity.
  - unfold after_hello. rewrite E. cbn [fst snd send_ok]. split; [|exact Hd].
    destruct Hc as [(_ & Hp & _)|[[(Hdisk & _)|Hw] _]]; [| |exact Hw]; exfalso.
    + assert (ln_posted after_hello.1 = []) as E2 by (vm_compute; reflexivity).
      unfold after_hello in E2. rewrite E in E2. cbn [fst] in E2. rewrite E2 in Hp. discriminate Hp.
    + assert (nd_outbox (ln_disk after_hello.1) <> None) as E2 by (vm_compute; discriminate).
      unfold after_hello in E2. rewrite E in E2. cbn [fst] in E2. rewrite Hdisk in E2. by apply E2.
Defined.

(** ** The link comes back *)

Definition taken : DrainTurn := mkDrain true true (fun d => d) [].
Definition wan_back : Probe := mkProbe true [] ∅.

(** Three rounds see the WAN; the drain they spawn loads the outbox and has one
    turn. *)
Definition back_again : list WatchEvent :=
  (ERound <$> replicate 3 wan_back) ++ [EDrain 0 (chars "t9") taken; EDrain 0 (chars "t9") taken].
Definition isolated (w : Lanes (list bytes)) : Watch (list bytes) :=
  mkWatch (observe_all (latch_new Full 3) [Isolated; Isolated; Isolated]).1 (set_current Isolated) w [].


(** ** Runs that go otherwise *)

(** The WAN answers throughout, one peer is dark and comes back: the state is
    [Full] all along, no round is a transition, and the row stays. *)
Definition attic_peer : PeerRecord := mkPeer (chars "attic") (chars "ws://10.0.0.2:8787") RoleFull (chars "active") None None None.
Definition probe_of (dark : bool) : Probe := mkProbe true [attic_peer] {[ chars "attic" := mkLiveness dark 0 None ]}.
Example returning_peer_drains_nothing :
  let s := (watch_all true (watch_boot 1 (set_current Full) after_hello.1) (ERound <$> [probe_of true; probe_of true; probe_of false; probe_of false])).1 in
  (ln_wifi (wt_lanes s), wt_drains s, ob_receipted_at <$> disk_rows (ln_disk (wt_lanes s))) = (Up, [], [None]).
Proof. vm_compute. reflexivity. Qed.

(** The kitchen's row is aboard the stick on its way to the attic when the LAN
    returns: it is sent and marked as well, and the attic has it twice. *)
Definition aboard_lanes : Lanes (list bytes) := mkLanes Down [] quiet_link plug1.1.2 [].
Example aboard_row_is_drained :
  let s := (watch_all true (isolated aboard_lanes) back_again).1 in
  (is_someb <$> (ob_loaded_on <$> disk_rows (ln_disk aboard_lanes)), ob_receipted_at <$> disk_rows (ln_disk (wt_lanes s)))
  = ([true], [Some (chars "t9")]).
Proof. vm_compute. reflexivity. Qed.

Definition plug_io (io : list FsWrite) (env : PlugEnv) (s : Stick) (d : CourierDisk) : Stick * CourierDisk * option PlugOutcome :=
  process_plug (V := Rows) env io (Some colony) s d.
Definition aboard_for (x : Stick * CourierDisk * option PlugOutcome) : list (text * text) :=
  match opened_lists (V := Rows) (Some colony) (chars "s1") x.1.1 with
  | Some (m, _) => (fun e => (me_name e, me_shipment_id e)) <$> m
  | None => []
  end.

(** The write of the cargo breaks off after one byte.  The next plug finds a
    file of that name, announces the artifact and calls it loaded; the attic
    refuses it, now and at every plug. *)
Definition cut1 := plug_io [WroteAll; WroteCut 1] kitchen stick0 kitchen_disk.
Definition cut2 := plug kitchen cut1.1.1 cut1.1.2.
Definition cut3 := plug attic cut2.1.1 empty_disk.
Definition cut4 := plug kitchen_later cut3.1.1 cut2.1.2.
Definition cut5 := plug attic cut4.1.1 empty_disk.
Example cut_cargo_is_never_repaired :
  (pr_loaded (po_report (outcome cut1)), pr_loaded (po_report (outcome cut2)), pr_failed (po_report (outcome cut3)),
   pr_failed (po_report (outcome cut5)))
  = ([], [(chars "a", chars "attic")], [(chars "a", RootDiffers)], [(chars "a", RootDiffers)]).
Proof. vm_compute. reflexivity. Qed.

(** The row is cancelled after it was loaded, and another file queued: it gets
    the same id and shipment id, so the stick's manifest is not given an entry
    for it, although the row says it is aboard; the attic receives the old file. *)
Definition after_cancel : CourierDisk := (outbox_cancel [] 1 plug1.1.2).1.
Definition requeued : CourierDisk := with_queued "/k/b" "attic" "b" (with_file "/k/b" [7] after_cancel).
Definition reuse2 := plug kitchen_later plug1.1.1 requeued.
Definition reuse3 := plug attic reuse2.1.1 empty_disk.
Definition reuse4 := plug kitchen_later reuse3.1.1 reuse2.1.2.
Example cancelled_id_is_reused :
  (ob_shipment_id <$> disk_rows requeued, pr_loaded (po_report (outcome reuse2)), aboard_for reuse2,
   pr_verified (po_report (outcome reuse3)), ob_receipted_at <$> disk_rows reuse4.1.2)
  = ([chars "attic:1"], [(chars "b", chars "attic")], [(chars "a", chars "attic:1")], [(chars "a", chars "kitchen")], [None]).
Proof. vm_compute. reflexivity. Qed.

(** Two nodes load one stick for the attic, each its first row: both ship as
    [attic:1].  The second is not put into the manifest. *)
Definition cellar : PlugEnv := plug_env "cellar" "/l" "t2".
Definition cellar_disk : CourierDisk := with_queued "/l/c" "attic" "c" (with_file "/l/c" [9; 9; 9] empty_disk).
Definition two2 := plug cellar plug1.1.1 cellar_disk.
Definition two3 := plug attic two2.1.1 empty_disk.
Example shipment_ids_collide_across_origins :
  (pr_loaded (po_report (outcome two2)), aboard_for two2, pr_verified (po_report (outcome two3)))
  = ([(chars "c", chars "attic")], [(chars "a", chars "attic:1")], [(chars "a", chars "kitchen")]).
Proof. vm_compute. reflexivity. Qed.

(** The source changes after its row went aboard: the notice says the current
    bytes are carried, the entry keeps the old root, the attic receives the old
    bytes, and the row closes. *)
Definition changed2 := plug kitchen plug1.1.1 (with_file "/k/a" [3] plug1.1.2).
Definition changed3 := plug attic changed2.1.1 empty_disk.
Definition changed4 := plug kitchen_later changed3.1.1 changed2.1.2.
Example changed_source_is_not_carried :
  (pr_notes (po_report (outcome changed2)), nd_files changed3.1.2 !! chars "/c/courier/incoming/kitchen/a",
   pr_verified (po_report (outcome changed3)), ob_receipted_at <$> disk_rows changed4.1.2)
  = ([SourceChanged (chars "a")], Some [1; 2], [(chars "a", chars "kitchen")], [Some (chars "t2")]).
Proof. vm_compute. reflexivity. Qed.

(** A row loaded on a second stick forgets the first: the delivery by the first
    closes nothing. *)
Definition stick1 : Stick := mkStick (Some (chars "s2")) Missing Missing ∅.
Definition both2 := plug kitchen stick1 plug1.1.2.
Definition both4 := plug kitchen_later plug2.1.1 both2.1.2.
Example second_stick_hides_the_first :
  (ob_loaded_on <$> disk_rows both2.1.2, pr_verified (po_report (outcome plug2)), pr_receipts_matched (po_report (outcome both4)))
  = ([Some (chars "s2")], [(chars "a", chars "kitchen")], 0).
Proof. vm_compute. reflexivity. Qed.

(** Two artifacts of one origin with one file name: both are reported verified,
    and one file is there. *)
Definition twins : CourierDisk :=
  with_queued "/k/2/a" "attic" "a" (with_file "/k/2/a" [8] (with_queued "/k/1/a" "attic" "a" (with_file "/k/1/a" [1] empty_disk))).
Definition twin1 := plug kitchen stick0 twins.
Definition twin2 := plug attic twin1.1.1 empty_disk.
Example same_name_overwrites :
  (pr_verified (po_report (outcome twin2)), map_to_list (nd_files twin2.1.2))
  = ([(chars "a", chars "kitchen"); (chars "a", chars "kitchen")], [(chars "/c/courier/incoming/kitchen/a", [8])]).
Proof. vm_compute. reflexivity. Qed.

(** The attic takes the POST, and its answer comes after the 15 seconds: the
    message is queued for the stick as well, and reaches the attic twice. *)
Definition late_env : LaneEnv := mkLaneEnv None (Some (chars "attic")) (fun _ _ => TakenUnheard) (chars "/k") 1700 (chars "t5").
Definition after_late := send_to_agent late_env true hello (mkLanes Up [] quiet_link empty_disk []).
Example unheard_answer_doubles :
  (send_ok after_late.2, ae_message <$> ln_posted after_late.1, ob_dest <$> disk_rows (ln_disk after_late.1))
  = (true, [chars "hi"], [chars "attic"]).
Proof. vm_compute. reflexivity. Qed.

(** Two messages to one node within a second: the second file replaces the
    first, and the first row carries the second message. *)
Definition hello_again : A2aEnvelope := mkEnvelope (chars "attic") 3 (chars "ho") (chars "kitchen") None.
Definition after_both := (send_to_agent dark_env true hello_again after_hello.1).1.
Example same_second_overwrites :
  (zlen (disk_rows (ln_disk after_both)), map_to_list (nd_files (ln_disk after_both)))
  = (2, [(pending_path dark_env hello, as_bytes (pending_text hello_again))]).
Proof. vm_compute. reflexivity. Qed.

(** The attic was told of the cargo, and received it; its status goes on saying
    that the cargo is under way, for it records no receipt of its own. *)
Definition told : CourierDisk :=
  (ledger_hear_manifest [] (mkHeardManifest (chars "s1") (hex32 (blob_root [1; 2])) (chars "kitchen") (chars "attic") 2 5
                              (chars "a") (chars "t1") (chars "attic:1")) empty_disk).1.
Definition told2 := plug attic plug1.1.1 told.
Example inbound_is_for_ever_under_way :
  (pr_announced_matched (po_report (outcome told2)), pr_verified (po_report (outcome told2)),
   snd <$> cs_inbound (status_json told2.1.2 true (chars "attic")))
  = (1, [(chars "a", chars "kitchen")], [false]).
Proof. vm_compute. reflexivity. Qed.

(** A manifest nobody sealed: a nonce of twenty-four bytes in six characters of
    four bytes each stops the plug with a panic. *)
#[local] Instance plain_envelope : EnvelopeJson := {|
  envelope_text n c := n ++ c; envelope_parse s := Some (Some 1, Some s, None) |}.
Example crafted_nonce_panics :
  (open_json (V := Rows) colony (chars "s1") (chars "manifest") (replicate 6 128230)) = None.
Proof. vm_compute. reflexivity. Qed.
